(* ===== verification/_CoqProject ===== *)
-Q . S2P
Prelude.v
CipherUtil.v
UtilStr.v
Complete.v
UtilNum.v
Varint.v
Utf.v
Like.v
Double.v
Record.v
RecCmp.v
MemOrder.v
Hash.v
Bitvec.v
WalData.v
WalIndex.v
WalTxn.v
WalFrame.v
WalWrite.v
WalLog.v
WalCommit.v
WalRecover.v
WalSort.v
WalIter.v
WalCkpt.v
WalRead.v
RowSet.v
PrivateHeap.v
CodecCtx.v
Demo.v
CodecCrypto.v
CodecPage.v
CodecInv.v
HeapAlloc.v
Registry.v
Lifecycle.v
MemSecurity.v
CodecKey.v
CodecMain.v
Integrity.v
Pragma.v
KeyApi.v
