(* ===== verification/Prelude.v ===== *)
(** * A verification library for SQLCipher

    SQLCipher is SQLite with a page codec: every page the pager writes is encrypted and
    authenticated, every page it reads is verified and decrypted. This library models
    the codec of src/sqlcipher.c completely enough to state what it promises, and the
    support routines of SQLite it and the rest of the program rest on, and proves them
    correct. This file holds the parts every other file uses.

    ** The program's parts and their models

    The pager calls [sqlite3Codec] for each page. It uses a [codec_ctx] (settings, salts,
    a page buffer) with two [cipher_ctx] (one for reading, one for writing: keys and
    passphrase); their memory comes from the private heap; the cryptography comes from a
    provider. PRAGMAs change the settings; the integrity check walks a file with the
    functions the codec uses.

    - CipherUtil: hex conversion, constant-time memory routines, the XOR shield on keys,
      the xoshiro256++ generator with its seeding (src/sqlcipher.c).
    - PrivateHeap: [sqlcipher_malloc], [sqlcipher_free] and what they call. The state is
      the region with its block headers, the live system allocations, the counters and
      the generator. The list-level specification is [ff_alloc]/[ff_free].
    - CodecCtx: the records [codec_ctx], [cipher_ctx], [globals] and every operation that
      creates, configures, copies, compares or destroys a context. The provider is the
      record [provider] (struct sqlcipher_provider) with the laws [ProviderOk]; the
      allocator is the class [Allocator] with the laws [AllocatorOk].
    - CodecCrypto: [sqlcipher_page_hmac], [sqlcipher_page_cipher], key derivation, key
      copy and [sqlite3Codec]. CodecPage, CodecKey, CodecMain, CodecInv hold the theorems;
      HeapAlloc shows that the private heap is an [AllocatorOk]; Demo is a concrete
      provider and allocator, on which every theorem with those hypotheses is evaluated.
    - Integrity: [sqlcipher_codec_ctx_integrity_check].
    - Pragma: [sqlcipher_codec_pragma], branch by branch.
    - MemSecurity: [sqlcipher_mem_malloc], [sqlcipher_mem_free], [sqlcipher_mem_realloc],
      the layer between SQLite and its memory methods.
    - Registry: [sqlcipher_register_provider] over the linked structures of the providers.
    - Lifecycle: [sqlcipher_extra_init] and [sqlcipher_extra_shutdown] with the globals they
      set up, on the private heap and the registry; the answers of the mutex allocator, the
      system allocator and the provider are the record [answers].
    - KeyApi: [sqlcipherCodecAttach], [sqlite3_key_v2], [sqlite3_rekey_v2] and
      [sqlcipherCodecGetKey] on a connection; what the pager answers, and the codec calls it
      makes during a rekey, are the record [pager_env].
    - UtilStr, UtilNum, Varint: strings, integer conversion, overflow-checked arithmetic
      and the varint codec of src/util.c.
    - Hash, Bitvec: the hash table of src/hash.c and the bit vector of src/bitvec.c.
    - RowSet: src/rowset.c, a set of row numbers as a list, a tree and a forest of trees
      over linked entries; the answers of the allocator are arguments.
    - Complete: src/complete.c, [sqlite3_complete]: the character scanner and the automaton
      of statement ends.
    - Utf: src/utf.c, characters in UTF-8 and UTF-16, and [sqlite3VdbeMemTranslate] between
      the encodings, with the size of its buffer.
    - Like: the matcher of LIKE and GLOB of src/func.c, [sqlite3_strglob],
      [sqlite3_strlike] and the SQL function [likeFunc]; its fuel is the length of the
      pattern, which gets shorter at each step.
    - Double: the bits of a double, its value and the comparison with a 64-bit integer
      ([sqlite3IntFloatCompare] of src/vdbeaux.c). Record: the values of the virtual machine,
      the part of [OP_MakeRecord] (src/vdbe.c) that sizes and writes a record, and
      [sqlite3VdbeRecordUnpack]. RecCmp: [sqlite3MemCompare], [sqlite3VdbeRecordCompare] and
      the fast routines that [sqlite3VdbeFindCompare] chooses. MemOrder: the theory of the
      order of values. The comparison function of an application is a parameter.
    - The write-ahead log, src/wal.c. WalData: the header, the handle and the checksum.
      WalIndex: the wal-index in shared memory, [walIndexAppend], [walCleanupHash] and
      [walFindFrame] over its pages. WalTxn: write transactions, undo, savepoints and
      [walRestartHdr]. WalFrame: [walEncodeFrame], [walDecodeFrame]. WalWrite: [walFrames]
      and what it calls, on a file that answers from a script, so that any call can fail and
      leave anything in the range it was to write. WalLog and WalCommit have the theory: a
      log is a list of frames, [log_file] relates it to the bytes of the file. WalRecover:
      [walIndexRecover]. WalSort: [walMergesort]. WalIter: the iterator over the pages of
      the log, with both algorithms. WalCkpt: [walCheckpoint], on the log file and the
      database file. WalRead: [walTryBeginRead] and what it calls; what other connections
      do to the shared memory in between is a function applied at each point where the code
      takes a lock or crosses a barrier.

    ** What the theorems show

    - Pages: decryption inverts encryption ([page_cipher_roundtrip], [codec_write_read]); a
      page that is accepted carries a valid tag for its page number, so a page moved to
      another position is refused or yields a collision of the HMAC
      ([page_accepted_authentic], [page_resequencing_detected]); a failure leaves a zeroed
      page ([page_cipher_fail_closed]) and makes the context refuse all further work
      ([codec_error_sticky]).
    - Safety: the callback never reads or writes outside a buffer and keeps the invariant
      of the context ([codec_memory_safe]), provided the plaintext header fits the page;
      [header_overrun] shows that the configuration calls do not ensure this.
    - Keys: the derived keys are those of the key derivation function or of the raw key
      specification, stored shielded ([key_derive_correct]); an exported key
      specification gives the same keys back ([keyspec_roundtrip]).
    - Memory: the private heap keeps its block structure, serves first fit, scrubs and
      merges on release; a context's life on it leaks nothing, on success or failure.
    - Configuration: which settings keep the invariant, which are frozen once the key has
      been used, the reserve size; the PRAGMA layer on top of it, including that the
      output of [cipher_settings] reproduces the settings.
    - Keys on a connection: setting keys leaks nothing on any path and leaves a used key
      alone ([key_keeps_ledger]); a rekey switches the read key exactly when it succeeds
      ([rekey_switches_key]).
    - Process: registrations refine a list without duplicates (the lemma [registry_refines_list]); a
      start-up completes or undoes itself and a shutdown gives everything back
      ([startup_shutdown_balanced]), apart from the failures after the registration of the
      provider, where the error path uses freed memory (the lemma [startup_use_after_free]); with
      memory security on no block is given back with contents of the program
      ([secure_memory_refines]).
    - SQLite support code: the hash table and the bit vector refine a finite map and a
      finite set over any sequence of operations; the numeric conversions are exact on the
      whole range of their types, with the saturation and error codes of the code.
    - Row sets: any run of insertions, tests and extractions behaves as a finite set, up to
      the elements that are lost when memory runs out, and the destructor gives all memory
      back ([rowset_refines_set]).
    - Statement ends: the scanner answers complete exactly when the text, cut into tokens,
      ends a statement of the grammar of the documentation ([incomplete_exact]).
    - Characters: a text translated to another encoding and back is the same text
      ([utf_roundtrip]), and any bytes at all are translated within the buffer
      ([translate_bounded]).
    - LIKE and GLOB: the matcher, with its early exits, answers as the parsed pattern matches
      the characters ([pattern_exact]); the SQL function adds the limit, the ESCAPE argument
      and NULLs (the lemma [like_function]).
    - Records: a record is written inside its buffer, over-run included, and read back as the
      values it was made of ([record_roundtrip]). Comparing it with a key without unpacking
      it decides as a comparison of the values one by one ([record_compare_exact]), and the
      fast routines have the same sign and the same effects ([fast_compare_exact]). Values
      are totally ordered if the collating sequence is an order, with integers and doubles
      compared by their exact values ([mem_compare_order]).
    - The log: the unrolled, swapped and plain loops compute the sum of the file format
      ([checksum_exact]); a frame decodes to what was encoded, and with eight bytes
      changed it is refused (the lemma [frame_roundtrip]); the hash tables answer as a linear search of the frames
      does ([index_refines_list]); a call of [walFrames] either extends the log, or fails
      and can be undone, and never touches what was committed ([frames_atomic]); pages read
      after it are those written ([frames_read_back]). Recovery finds exactly the longest
      valid log of the file up to its last commit ([recover_exact]), so a transaction that
      was committed is found and readable after a crash ([commits_survive]). The iterator
      ends, and returns each page once with its last frame ([iterator_exact]). A read
      transaction starts with a snapshot that the lock it took protects from every later
      checkpoint ([read_isolated]), after at most 101 attempts ([begin_read_ends]). A checkpoint
      never changes what a reader sees that holds its lock ([checkpoint_isolates]), and
      what it has copied is what readers found in the log ([checkpoint_transfers]).

    ** How C is modelled

    An integer is a [Z] with the reduction to its width written where the code computes
    ([u8] .. [i64]); a buffer is a list of bytes and a pointer into it the buffer with an
    index. An operation returns [None] when the C code would have undefined behaviour (a
    null dereference, an access outside a buffer, a bad free): a theorem that concludes
    [Some] states memory safety as well. Pointers that are compared, linked or freed are
    addresses. The target is a 64-bit little-endian machine, and the build the default one
    (without SQLCIPHER_TEST and OMIT options).

    Loops with a counter are [for_up]; other loops take fuel. The fuel is computed from
    the data (the number of blocks a region can hold, the length of a text, the number of
    elements), and running out of it is [None], so that the theorems, which conclude
    [Some], show that it is enough.

    ** Not modelled

    - The cryptographic primitives, and the probabilities a security proof would need:
      the provider is a parameter, and theorems about forgery are stated as an explicit
      collision of its HMAC.
    - Code that builds and runs SQL ([sqlcipher_codec_ctx_migrate], [sqlcipher_export]),
      since the SQL engine is outside the model; logging, profiling, files and devices.
    - Mutexes: each operation modelled here runs as a whole under the mutex the code
      takes, so a sequence of operations is an interleaving of whole calls.
    - Of the write-ahead log: opening and closing, exclusive mode, snapshots, and the
      function around [walCheckpoint]; a call of [walFrames] that has to restart the log is not covered by the
      theorems, since it waits for a reader's lock.
    - The SQL compiler, the virtual machine apart from records and the comparison of values,
      the B-tree, the pager and the operating system layer.

    ** This file

    - [u8], [u32], [u64], [i32], [i64]: reduction of a mathematical integer to a C
      integer type of that width (two's complement for the signed ones);
    - [mem_read], [mem_write], [mem_set]: access to a C buffer held as a list of
      bytes; an access outside the buffer is [None];
    - [for_n], [for_up]: the C counted loop, with its invariant rule [for_n_ind]. *)

From stdpp Require Export base list numbers option.
From Stdlib Require Export ZArith Lia Bool.
From Stdlib Require Import Btauto.

Open Scope Z_scope.

(** ** Notations *)

Abbreviation bytes := (list Z).
Abbreviation len l := (Z.of_nat (length l)).

(** Boolean connectives of C conditions on integers. *)
Notation "a '<>?' b" := (negb (Z.eqb a b)) (at level 70, no associativity) : Z_scope.

(** ** Result codes (src/sqlite.h.in) *)

Definition SQLITE_OK : Z := 0.
Definition SQLITE_ERROR : Z := 1.
Definition SQLITE_NOMEM : Z := 7.
Definition SQLITE_MISUSE : Z := 21.

(** ** Machine integers *)

Definition u8 (z : Z) : Z := z mod 2 ^ 8.
Definition u16 (z : Z) : Z := z mod 2 ^ 16.
Definition u32 (z : Z) : Z := z mod 2 ^ 32.
Definition u64 (z : Z) : Z := z mod 2 ^ 64.
Definition i32 (z : Z) : Z := (z + 2 ^ 31) mod 2 ^ 32 - 2 ^ 31.
Definition i64 (z : Z) : Z := (z + 2 ^ 63) mod 2 ^ 64 - 2 ^ 63.

Definition is_byte (z : Z) : Prop := 0 <= z < 256.
Definition is_byteb (z : Z) : bool := (0 <=? z) && (z <? 256).
Definition is_u32 (z : Z) : Prop := 0 <= z < 2 ^ 32.
Definition is_u64 (z : Z) : Prop := 0 <= z < 2 ^ 64.
Definition is_i64 (z : Z) : Prop := - 2 ^ 63 <= z < 2 ^ 63.

#[global] Instance is_byte_dec z : Decision (is_byte z).
Proof. unfold is_byte; apply _. Defined.
#[global] Instance is_u32_dec z : Decision (is_u32 z).
Proof. unfold is_u32; apply _. Defined.
#[global] Instance is_u64_dec z : Decision (is_u64 z).
Proof. unfold is_u64; apply _. Defined.
#[global] Instance is_i64_dec z : Decision (is_i64 z).
Proof. unfold is_i64; apply _. Defined.

(** Every byte of a buffer is in range. *)
Definition bytes_ok (l : bytes) : Prop := Forall is_byte l.
#[global] Instance bytes_ok_dec l : Decision (bytes_ok l).
Proof. unfold bytes_ok; apply _. Defined.

(** ** Hint databases *)

Create HintDb cint.
Create Rewrite HintDb cint.
Create HintDb cbytes.

Lemma u8_range z : 0 <= u8 z < 256.
Proof. unfold u8. apply Z.mod_pos_bound. lia. Qed.
Lemma u8_byte z : is_byte (u8 z).
Proof. apply u8_range. Qed.
Lemma u32_range z : 0 <= u32 z < 2 ^ 32.
Proof. unfold u32. apply Z.mod_pos_bound. lia. Qed.
Lemma u64_range z : 0 <= u64 z < 2 ^ 64.
Proof. unfold u64. apply Z.mod_pos_bound. lia. Qed.
Lemma i64_range z : - 2 ^ 63 <= i64 z < 2 ^ 63.
Proof. unfold i64. pose proof (Z.mod_pos_bound (z + 2 ^ 63) (2 ^ 64)). lia. Qed.
Lemma u8_small z : 0 <= z < 256 -> u8 z = z.
Proof. intros. unfold u8. apply Z.mod_small. lia. Qed.
Lemma u32_small z : 0 <= z < 2 ^ 32 -> u32 z = z.
Proof. intros. unfold u32. apply Z.mod_small. lia. Qed.
Lemma u64_small z : 0 <= z < 2 ^ 64 -> u64 z = z.
Proof. intros. unfold u64. apply Z.mod_small. lia. Qed.
Lemma i32_small z : - 2 ^ 31 <= z < 2 ^ 31 -> i32 z = z.
Proof. intros. unfold i32. rewrite Z.mod_small; lia. Qed.
Lemma i64_small z : - 2 ^ 63 <= z < 2 ^ 63 -> i64 z = z.
Proof. intros. unfold i64. rewrite Z.mod_small; lia. Qed.

#[export] Hint Resolve u8_byte u8_range u32_range u64_range i64_range : cint.
#[export] Hint Rewrite u8_small u32_small u64_small i32_small i64_small using lia : cint.

(** ** Boolean conditions *)

Ltac bool_to_prop :=
  repeat match goal with
  | H : _ && _ = true |- _ => apply andb_true_iff in H as [? ?]
  | H : _ || _ = false |- _ => apply orb_false_iff in H as [? ?]
  | H : negb _ = true |- _ => apply negb_true_iff in H
  | H : negb _ = false |- _ => apply negb_false_iff in H
  | H : (_ =? _) = true |- _ => apply Z.eqb_eq in H
  | H : (_ =? _) = false |- _ => apply Z.eqb_neq in H
  | H : (_ <=? _) = true |- _ => apply Z.leb_le in H
  | H : (_ <=? _) = false |- _ => apply Z.leb_gt in H
  | H : (_ <? _) = true |- _ => apply Z.ltb_lt in H
  | H : (_ <? _) = false |- _ => apply Z.ltb_ge in H
  end.

(** Case analysis on the condition of the outermost conditional or match. *)
Ltac case_cond :=
  match goal with
  | |- context [if ?b then _ else _] => destruct b eqn:?
  end; bool_to_prop.

(** Split a hypothesis of the form [x ← e; k = Some r]. *)
Ltac inv_bind H :=
  let E := fresh "E" in
  apply bind_Some in H as (? & E & H).

(** ** Bits *)

Lemma testbit_small z n k : 0 <= z < 2 ^ n -> n <= k -> Z.testbit z k = false.
Proof.
  intros [Hlo Hhi] Hk. destruct (decide (z = 0)) as [->|Hz]; [apply Z.bits_0|].
  apply Z.bits_above_log2; [lia|].
  assert (z < 2 ^ k) by (apply Z.lt_le_trans with (2 ^ n); [lia|];
    apply Z.pow_le_mono_r; lia).
  apply Z.log2_lt_pow2; lia.
Qed.

(** On disjoint bit fields, [or] and [xor] are sums. *)
Lemma land_shiftl_low a b n :
  0 <= n -> 0 <= b < 2 ^ n -> Z.land (Z.shiftl a n) b = 0.
Proof.
  intros Hn Hb. apply Z.bits_inj'. intros k Hk. rewrite Z.land_spec, Z.bits_0.
  destruct (Z.lt_ge_cases k n).
  - rewrite Z.shiftl_spec_low by lia. done.
  - rewrite (testbit_small b n k) by lia. apply andb_false_r.
Qed.

Lemma lor_shiftl_add a b n :
  0 <= n -> 0 <= b < 2 ^ n -> Z.lor (Z.shiftl a n) b = a * 2 ^ n + b.
Proof.
  intros Hn Hb. pose proof (land_shiftl_low a b n Hn Hb) as H.
  rewrite <- Z.lxor_lor, <- Z.add_nocarry_lxor, Z.shiftl_mul_pow2 by done. done.
Qed.

(** The bits of a field of [k] bits at the bit [j]. *)
Lemma land_field x m j k : 0 <= j -> 0 <= k -> m = Z.shiftl (Z.ones k) j -> Z.land x m = (x / 2 ^ j) mod 2 ^ k * 2 ^ j.
Proof.
  intros Hj Hk ->. rewrite <- Z.land_ones, <- Z.shiftr_div_pow2, <- Z.shiftl_mul_pow2 by lia. apply Z.bits_inj'. intros n Hn.
  rewrite Z.land_spec, !Z.shiftl_spec, Z.land_spec by lia.
  destruct (decide (n < j)); [rewrite (Z.testbit_neg_r (Z.ones k)) by lia; by rewrite !andb_false_r|].
  rewrite Z.shiftr_spec by lia. do 2 f_equal. lia.
Qed.

Lemma lxor_shiftl_add a b n :
  0 <= n -> 0 <= b < 2 ^ n -> Z.lxor (Z.shiftl a n) b = a * 2 ^ n + b.
Proof.
  intros Hn Hb. pose proof (land_shiftl_low a b n Hn Hb) as H.
  rewrite <- Z.add_nocarry_lxor, Z.shiftl_mul_pow2 by done. done.
Qed.

Lemma lxor_byte a b : is_byte a -> is_byte b -> is_byte (Z.lxor a b).
Proof.
  unfold is_byte. intros Ha Hb. split; [apply Z.lxor_nonneg; lia|].
  destruct (Z.lt_ge_cases (Z.lxor a b) 256) as [|Hge]; [done|].
  exfalso. assert (Hp : 0 < Z.lxor a b) by lia.
  pose proof (Z.log2_le_mono 256 (Z.lxor a b) Hge) as Hl.
  change (Z.log2 256) with 8 in Hl.
  pose proof (Z.bit_log2 _ Hp) as Hbit. rewrite Z.lxor_spec in Hbit.
  rewrite (testbit_small a 8), (testbit_small b 8) in Hbit by lia. done.
Qed.
#[export] Hint Resolve lxor_byte : cbytes.

Lemma lxor_twice a m : Z.lxor (Z.lxor a m) m = a.
Proof. rewrite Z.lxor_assoc, Z.lxor_nilpotent, Z.lxor_0_r. done. Qed.

(** ** Buffers

    A C pointer into a buffer is modelled by the list of the bytes from that
    address to the end of the object; an access that runs outside is [None]. *)

Definition mem_read (b : bytes) (off n : Z) : option bytes :=
  if (0 <=? off) && (0 <=? n) && (off + n <=? len b)
  then Some (take (Z.to_nat n) (drop (Z.to_nat off) b)) else None.

Definition mem_write (b : bytes) (off : Z) (src : bytes) : option bytes :=
  if (0 <=? off) && (off + len src <=? len b)
  then Some (take (Z.to_nat off) b ++ src ++ drop (Z.to_nat off + length src) b)
  else None.

Definition mem_get (b : bytes) (i : Z) : option Z :=
  if 0 <=? i then b !! Z.to_nat i else None.

Definition mem_put (b : bytes) (i v : Z) : option bytes :=
  if (0 <=? i) && (i <? len b) then Some (<[Z.to_nat i := v]> b) else None.

(** [memset(b + off, v, n)] *)
Definition mem_set (b : bytes) (off v n : Z) : option bytes :=
  if 0 <=? n then mem_write b off (replicate (Z.to_nat n) v) else None.

Lemma mem_read_Some b off n r :
  mem_read b off n = Some r <->
  0 <= off /\ 0 <= n /\ off + n <= len b /\
  r = take (Z.to_nat n) (drop (Z.to_nat off) b).
Proof.
  unfold mem_read. case_cond.
  - split; [intros [= <-]; split_and!; done|]. intros (_ & _ & _ & ->). done.
  - split; [done|]. intros (H1 & H2 & H3 & _). lia.
Qed.

Lemma mem_write_Some b off src r :
  mem_write b off src = Some r <->
  0 <= off /\ off + len src <= len b /\
  r = take (Z.to_nat off) b ++ src ++ drop (Z.to_nat off + length src) b.
Proof.
  unfold mem_write. case_cond.
  - split; [intros [= <-]; split_and!; done|]. intros (_ & _ & ->). done.
  - split; [done|]. intros (H1 & H2 & _). lia.
Qed.

Lemma mem_read_total b off n :
  0 <= off -> 0 <= n -> off + n <= len b ->
  mem_read b off n = Some (take (Z.to_nat n) (drop (Z.to_nat off) b)).
Proof. intros. apply mem_read_Some. done. Qed.

Lemma mem_write_total b off src :
  0 <= off -> off + len src <= len b ->
  mem_write b off src =
  Some (take (Z.to_nat off) b ++ src ++ drop (Z.to_nat off + length src) b).
Proof. intros. apply mem_write_Some. done. Qed.

Lemma mem_read_length b off n r :
  mem_read b off n = Some r -> len r = n.
Proof.
  intros (? & ? & ? & ->)%mem_read_Some.
  rewrite length_take, length_drop. lia.
Qed.

Lemma mem_write_length b off src r :
  mem_write b off src = Some r -> length r = length b.
Proof.
  intros (? & ? & ->)%mem_write_Some.
  rewrite !length_app, length_take, length_drop. lia.
Qed.

Lemma mem_set_length b off v n r :
  mem_set b off v n = Some r -> length r = length b.
Proof. unfold mem_set. case_cond; [apply mem_write_length|done]. Qed.

(** A read of what was just written. *)
Lemma mem_read_write_eq b off src r :
  mem_write b off src = Some r -> mem_read r off (len src) = Some src.
Proof.
  intros H. pose proof (mem_write_length _ _ _ _ H) as Hl.
  apply mem_write_Some in H as (? & ? & ->).
  rewrite mem_read_total by lia. f_equal.
  rewrite drop_app_le by (rewrite length_take; lia).
  rewrite drop_ge by (rewrite length_take; lia). simpl.
  rewrite Nat2Z.id, take_app_length. done.
Qed.

(** A read that does not overlap the write. *)
Lemma mem_read_write_ne b off src r o n :
  mem_write b off src = Some r ->
  o + n <= off \/ off + len src <= o ->
  mem_read r o n = mem_read b o n.
Proof.
  intros H Hd. pose proof (mem_write_length _ _ _ _ H) as Hl.
  apply mem_write_Some in H as (? & ? & ->).
  unfold mem_read. rewrite Hl. case_cond; [|done]. f_equal.
  apply list_eq. intros i.
  destruct (decide (i < Z.to_nat n)%nat); [|rewrite !lookup_take_ge by lia; done].
  rewrite !lookup_take_lt, !lookup_drop by lia.
  destruct Hd as [Hd|Hd].
  - rewrite lookup_app_l by (rewrite length_take; lia).
    rewrite lookup_take_lt by lia. done.
  - rewrite lookup_app_r by (rewrite length_take; lia).
    rewrite lookup_app_r by (rewrite length_take; lia).
    rewrite lookup_drop, length_take. f_equal. lia.
Qed.

(** Reads of adjacent ranges join. *)
Lemma mem_read_split b off n m r :
  0 <= n -> 0 <= m ->
  mem_read b off (n + m) = Some r <->
  exists r1 r2, mem_read b off n = Some r1 /\ mem_read b (off + n) m = Some r2 /\
                r = r1 ++ r2.
Proof.
  intros Hn Hm. setoid_rewrite mem_read_Some. split.
  - intros (? & ? & ? & ->).
    do 2 eexists. split_and!; try done; try lia.
    rewrite !Z2Nat.inj_add by lia.
    rewrite <- drop_drop, take_take_drop. done.
  - intros (? & ? & (? & ? & ? & ->) & (? & ? & ? & ->) & ->).
    split_and!; try lia.
    rewrite !Z2Nat.inj_add by lia.
    rewrite <- drop_drop, take_take_drop. done.
Qed.

Lemma mem_read_bytes b off n r :
  bytes_ok b -> mem_read b off n = Some r -> bytes_ok r.
Proof. intros Hb (? & ? & ? & ->)%mem_read_Some. by apply Forall_take, Forall_drop. Qed.

Lemma mem_write_bytes b off src r :
  bytes_ok b -> bytes_ok src -> mem_write b off src = Some r -> bytes_ok r.
Proof.
  intros Hb Hs (? & ? & ->)%mem_write_Some.
  apply Forall_app; split; [by apply Forall_take|].
  apply Forall_app; split; [done|by apply Forall_drop].
Qed.

#[export] Hint Resolve mem_read_bytes mem_write_bytes mem_read_length
  mem_write_length : cbytes.

(** ** Counted loops

    [for_n n i step body s] runs [body] at [i], [i + step], ... [n] times;
    [for_up lo hi step body s] is [for(i = lo; i < hi; i += step) body]. *)

Fixpoint for_n {St} (n : nat) (i step : Z) (body : Z -> St -> option St) (s : St)
  : option St :=
  match n with
  | O => Some s
  | S n' => s' ← body i s; for_n n' (i + step) step body s'
  end.

Definition for_up {St} (lo hi step : Z) (body : Z -> St -> option St) (s : St)
  : option St :=
  for_n (Z.to_nat ((hi - lo + step - 1) / step)) lo step body s.

Lemma for_n_ind {St} (I : nat -> St -> Prop) n i step body (s : St) :
  I 0%nat s ->
  (forall k s, (k < n)%nat -> I k s ->
     exists s', body (i + Z.of_nat k * step) s = Some s' /\ I (S k) s') ->
  exists s', for_n n i step body s = Some s' /\ I n s'.
Proof.
  revert I i s. induction n as [|n IH]; intros I i s H0 Hstep; simpl.
  - eauto.
  - destruct (Hstep 0%nat s ltac:(lia) H0) as (s1 & E & H1).
    rewrite Z.mul_0_l, Z.add_0_r in E. rewrite E. simpl.
    apply (IH (fun k => I (S k))); [done|].
    intros k s' Hk HI. destruct (Hstep (S k) s' ltac:(lia) HI) as (s2 & E2 & H2).
    exists s2. split; [|done]. rewrite <- E2. f_equal. lia.
Qed.

(** What a loop that returned has preserved. *)
Lemma for_n_inv {St} (I : St -> Prop) n i step body (s s' : St) :
  for_n n i step body s = Some s' -> I s ->
  (forall j t t', body j t = Some t' -> I t -> I t') -> I s'.
Proof.
  revert i s. induction n as [|n IH]; intros i s; simpl.
  - intros [= <-]; done.
  - intros H HI Hb. inv_bind H. eauto.
Qed.

Lemma for_up_1 {St} lo hi body (s : St) :
  for_up lo hi 1 body s = for_n (Z.to_nat (hi - lo)) lo 1 body s.
Proof. unfold for_up. do 2 f_equal. rewrite Z.div_1_r. lia. Qed.

(** The two common shapes of a loop over a buffer: transform every cell, and
    fill the cells from the front. *)
Lemma insert_take_drop_step (l m : bytes) k x :
  length m = k -> (k < length l)%nat ->
  <[k := x]> (m ++ drop k l) = (m ++ [x]) ++ drop (S k) l.
Proof.
  intros Hm Hk. destruct (lookup_lt_is_Some_2 l k Hk) as [y Hy].
  rewrite insert_app_r_alt by lia. rewrite Hm, Nat.sub_diag.
  rewrite (drop_S l y k Hy). simpl. rewrite <- app_assoc. done.
Qed.

Lemma for_fill (g : nat -> Z) body (l : bytes) n step :
  (n <= length l)%nat ->
  (forall k s, (k < n)%nat -> length s = length l ->
     body (Z.of_nat k * step) s = Some (<[k := g k]> s)) ->
  for_n n 0 step body l = Some ((g <$> seq 0 n) ++ drop n l).
Proof.
  intros Hn Hb.
  destruct (for_n_ind (fun k s => s = (g <$> seq 0 k) ++ drop k l) n 0 step body l)
    as (s' & E & ->); [done| |done].
  intros k s Hk ->. rewrite Z.add_0_l.
  rewrite Hb; [|done|].
  - eexists. split; [done|].
    rewrite insert_take_drop_step by (rewrite ?length_fmap, ?length_seq; lia).
    rewrite seq_S, fmap_app. done.
  - rewrite length_app, length_fmap, length_seq, length_drop. lia.
Qed.

Lemma for_map (f : nat -> Z -> Z) body (l : bytes) n :
  (n <= length l)%nat ->
  (forall k s v, (k < n)%nat -> length s = length l -> s !! k = Some v ->
     body (Z.of_nat k) s = Some (<[k := f k v]> s)) ->
  for_n n 0 1 body l = Some (imap f (take n l) ++ drop n l).
Proof.
  intros Hn Hb.
  destruct (for_n_ind (fun k s => s = imap f (take k l) ++ drop k l) n 0 1 body l)
    as (s' & E & ->); [done| |done].
  intros k s Hk ->. rewrite Z.add_0_l, Z.mul_1_r.
  destruct (lookup_lt_is_Some_2 l k ltac:(lia)) as [v Hv].
  assert (Hl : length (imap f (take k l)) = k)
    by (rewrite length_imap, length_take; lia).
  rewrite (Hb k _ v); [|done| |].
  - eexists. split; [done|].
    rewrite insert_take_drop_step by lia. f_equal.
    rewrite (take_S_r _ _ _ Hv), imap_app, length_take, Nat.min_l by lia.
    simpl. rewrite Nat.add_0_r. done.
  - rewrite length_app, Hl, length_drop. lia.
  - rewrite lookup_app_r, Hl, Nat.sub_diag, lookup_drop, Nat.add_0_r by lia. done.
Qed.

Lemma imap_bytes_ok (f : nat -> Z -> Z) l :
  (forall i b, l !! i = Some b -> is_byte (f i b)) -> bytes_ok (imap f l).
Proof.
  intros H. apply Forall_lookup. intros i x Hx.
  rewrite list_lookup_imap in Hx. apply fmap_Some in Hx as (b & Hb & ->). auto.
Qed.

Lemma fmap_seq_lookup_total (l : bytes) n :
  length l = n -> ((fun k => l !!! k) <$> seq 0 n) = l.
Proof.
  intros <-. apply list_eq. intros i. rewrite list_lookup_fmap.
  destruct (decide (i < length l)%nat) as [Hi|Hi].
  - rewrite lookup_seq_lt by done. simpl.
    destruct (lookup_lt_is_Some_2 l i Hi) as [x Hx].
    rewrite Hx, (list_lookup_total_correct _ _ _ Hx). done.
  - rewrite lookup_seq_ge, lookup_ge_None_2 by lia. done.
Qed.

Lemma mem_get_nat (b : bytes) (k : nat) : mem_get b (Z.of_nat k) = b !! k.
Proof. unfold mem_get. case_cond; [by rewrite Nat2Z.id|lia]. Qed.

Lemma mem_put_nat (b : bytes) (k : nat) v :
  (k < length b)%nat -> mem_put b (Z.of_nat k) v = Some (<[k := v]> b).
Proof. intros. unfold mem_put. case_cond; [by rewrite Nat2Z.id|lia]. Qed.

(** A decidable property of bytes holds of all of them if it computes to [true]
    on each. *)
Lemma byte_forall (P : Z -> bool) :
  forallb P (Z.of_nat <$> seq 0 256) = true -> forall b, is_byte b -> P b = true.
Proof.
  intros H b [Hlo Hhi]. rewrite forallb_forall in H. apply H.
  apply list_elem_of_In, list_elem_of_fmap. exists (Z.to_nat b).
  split; [lia|]. apply elem_of_seq. lia.
Qed.

(** ** Sequencing of operations that may be undefined

    [let? p := e in k] runs [k] on the result of [e], and is [None] if [e] is. *)
Notation "'let?' p ':=' e 'in' k" :=
  (match e with Some p => k | None => None end)
  (at level 10, p pattern, e at level 200, k at level 200,
   format "'[v' 'let?'  p  ':='  e  'in' '/' k ']'").

(** Invert one step of a run that returned. *)
Ltac inv_let H :=
  match type of H with
  | context [match ?e with Some _ => _ | None => None end] =>
      let E := fresh "E" in
      destruct e as [?|] eqn:E; [|discriminate H]
  end.
