(* ===== verification/CipherUtil.v ===== *)
(** * Byte-level helpers of src/sqlcipher.c

    The hexadecimal codec ([cipher_hex2int], [cipher_hex2bin], [cipher_bin2hex],
    [cipher_isHex]), the data-independent-time memory primitives
    ([sqlcipher_memset], [sqlcipher_ismemset], [sqlcipher_memcmp]), the XOR shield
    over key material ([sqlcipher_shield]), the little-endian page number encoding
    ([sqlcipher_put4byte_le]) and the xoshiro256++ generator used to overwrite
    freed memory.

    Each loop of the source is a [for_up] over the same index range with the same
    body; the [_spec] lemmas give its closed form. *)

From S2P Require Import Prelude.

Module Hex.

Definition cipher_hex2int (c : Z) : Z :=
  if (48 <=? c) && (c <=? 57) then c - 48
  else if (65 <=? c) && (c <=? 70) then c - 65 + 10
  else if (97 <=? c) && (c <=? 102) then c - 97 + 10
  else 0.

(** [hex] is the text from the pointer on; [sz] characters of it are decoded. *)
Definition cipher_hex2bin (hex : bytes) (sz : Z) (out : bytes) : option bytes :=
  for_up 0 sz 2 (fun i out =>
    h ← mem_get hex i;
    l ← mem_get hex (i + 1);
    mem_put out (i / 2)
      (u8 (Z.lor (Z.shiftl (cipher_hex2int h) 4) (cipher_hex2int l)))) out.

(** The two digits that printf's ["%02x"] gives for a byte. *)
Definition hexdigit (n : Z) : Z := if n <? 10 then 48 + n else 97 + (n - 10).
Definition snprintf_02x (b : Z) : bytes :=
  [hexdigit (Z.shiftr b 4); hexdigit (Z.land b 15)].

(** Writes at [out + off]; every call of snprintf also writes the terminator. *)
Definition cipher_bin2hex (inp : bytes) (sz : Z) (out : bytes) (off : Z)
  : option bytes :=
  for_up 0 sz 1 (fun i out =>
    b ← mem_get inp i;
    mem_write out (off + i * 2) (snprintf_02x b ++ [0])) out.

Definition hexchar (c : Z) : bool :=
  negb (((c <? 48) || (57 <? c)) && ((c <? 65) || (70 <? c))
        && ((c <? 97) || (102 <? c))).

(** Early exit on the first character that is not a digit. *)
Fixpoint isHex_loop (n : nat) (hex : bytes) (i : Z) : option Z :=
  match n with
  | O => Some 1
  | S n' =>
      c ← mem_get hex i;
      if hexchar c then isHex_loop n' hex (i + 1) else Some 0
  end.
Definition cipher_isHex (hex : bytes) (sz : Z) : option Z :=
  isHex_loop (Z.to_nat sz) hex 0.

(** ** Reference definitions *)

Fixpoint hex_encode (l : bytes) : bytes :=
  match l with
  | [] => []
  | b :: l' => snprintf_02x b ++ hex_encode l'
  end.

Fixpoint hex_decode (l : bytes) : bytes :=
  match l with
  | h :: t :: l' =>
      u8 (Z.lor (Z.shiftl (cipher_hex2int h) 4) (cipher_hex2int t)) :: hex_decode l'
  | _ => []
  end.

Lemma length_hex_encode l : length (hex_encode l) = (2 * length l)%nat.
Proof. induction l; simpl; lia. Qed.

Lemma hex_encode_app l1 l2 : hex_encode (l1 ++ l2) = hex_encode l1 ++ hex_encode l2.
Proof. induction l1 as [|b l1 IH]; simpl; congruence. Qed.

Lemma length_hex_decode n l :
  length l = (2 * n)%nat -> length (hex_decode l) = n.
Proof.
  revert l. induction n as [|n IH]; intros [|h [|t l]] Hl; simpl in *; try lia.
  rewrite IH; lia.
Qed.

Lemma hex_decode_lookup n l k :
  length l = (2 * n)%nat -> (k < n)%nat ->
  exists h t, l !! (2 * k)%nat = Some h /\ l !! (2 * k + 1)%nat = Some t /\
  hex_decode l !! k =
    Some (u8 (Z.lor (Z.shiftl (cipher_hex2int h) 4) (cipher_hex2int t))).
Proof.
  revert l k. induction n as [|n IH]; intros [|h [|t l]] k Hl Hk; simpl in Hl; try lia.
  destruct k as [|k].
  - exists h, t. done.
  - destruct (IH l k) as (h' & t' & H1 & H2 & H3); [lia..|].
    exists h', t'.
    replace (2 * S k)%nat with (S (S (2 * k))) by lia. done.
Qed.

Definition hex2bin_body (hex : bytes) (i : Z) (out : bytes) : option bytes :=
  h ← mem_get hex i;
  l ← mem_get hex (i + 1);
  mem_put out (i / 2)
    (u8 (Z.lor (Z.shiftl (cipher_hex2int h) 4) (cipher_hex2int l))).

Lemma hex2bin_step hex s n k :
  (2 * n <= length hex)%nat -> (k < n)%nat -> (n <= length s)%nat ->
  hex2bin_body hex (Z.of_nat k * 2) s =
  Some (<[k := hex_decode (take (2 * n) hex) !!! k]> s).
Proof.
  intros Hh Hk Hs. unfold hex2bin_body.
  destruct (hex_decode_lookup n (take (2 * n) hex) k) as (h & t & E1 & E2 & E3);
    [rewrite length_take; lia|done|].
  rewrite lookup_take_lt in E1, E2 by lia.
  replace (Z.of_nat k * 2 + 1) with (Z.of_nat (2 * k + 1)) by lia.
  rewrite Z.div_mul by lia.
  replace (Z.of_nat k * 2) with (Z.of_nat (2 * k)) by lia.
  rewrite !mem_get_nat, E1, E2. simpl.
  rewrite mem_put_nat, (list_lookup_total_correct _ _ _ E3) by lia. done.
Qed.

(** [cipher_hex2bin] over [2 * n] characters overwrites the first [n] bytes of the
    destination with the decoded text and leaves the rest alone. *)
Lemma cipher_hex2bin_spec (hex out : bytes) (n : nat) :
  (2 * n <= length hex)%nat -> (n <= length out)%nat ->
  cipher_hex2bin hex (Z.of_nat (2 * n)) out =
  Some (hex_decode (take (2 * n) hex) ++ drop n out).
Proof.
  intros Hh Ho. unfold cipher_hex2bin, for_up.
  replace (Z.to_nat ((Z.of_nat (2 * n) - 0 + 2 - 1) / 2)) with n.
  2: { replace (Z.of_nat (2 * n) - 0 + 2 - 1) with (1 + Z.of_nat n * 2) by lia.
       rewrite Z.div_add by lia. change (1 / 2) with 0. lia. }
  erewrite for_fill; [|done|].
  - rewrite (fmap_seq_lookup_total (hex_decode (take (2 * n) hex))); [done|].
    apply length_hex_decode. rewrite length_take. lia.
  - intros k s Hk Hs. apply hex2bin_step; lia.
Qed.

Lemma bin2hex_steps inp out off n :
  0 <= off -> (n <= length inp)%nat -> off + Z.of_nat (2 * n + 1) <= len out ->
  for_n n 0 1 (fun i out =>
    b ← mem_get inp i; mem_write out (off + i * 2) (snprintf_02x b ++ [0])) out =
  Some (if decide (n = 0%nat) then out else
        take (Z.to_nat off) out ++ hex_encode (take n inp) ++ [0] ++
        drop (Z.to_nat off + 2 * n + 1) out).
Proof.
  intros Hoff Hn Hb.
  edestruct (for_n_ind (fun k s => s = if decide (k = 0%nat) then out else
    take (Z.to_nat off) out ++ hex_encode (take k inp) ++ [0] ++
    drop (Z.to_nat off + 2 * k + 1) out) n) as (s' & E & ->); [| |exact E].
  { done. }
  intros k s Hk ->. rewrite Z.add_0_l, Z.mul_1_r.
  destruct (lookup_lt_is_Some_2 inp k ltac:(lia)) as [b Eb].
  rewrite mem_get_nat, Eb. cbn [mbind option_bind]. eexists. split; [|reflexivity].
  set (pre := take (Z.to_nat off) out ++ hex_encode (take k inp)).
  assert (Hpre : length pre = (Z.to_nat off + 2 * k)%nat).
  { unfold pre. rewrite length_app, length_take, length_hex_encode, length_take. lia. }
  set (cur := if decide (k = 0%nat) then out else _).
  assert (Hcur : exists tl, cur = pre ++ tl /\
            drop (Z.to_nat off + 2 * k + 3) cur = drop (Z.to_nat off + 2 * k + 3) out /\
            length cur = length out).
  { unfold cur. case_decide as Hk0.
    - subst k. exists (drop (Z.to_nat off) out). split_and!; [|done..].
      unfold pre. simpl. by rewrite app_nil_r, take_drop.
    - exists ([0] ++ drop (Z.to_nat off + 2 * k + 1) out). unfold pre.
      split_and!; [by rewrite <- app_assoc| |].
      + rewrite app_assoc. fold pre. rewrite drop_app_ge by lia. rewrite Hpre.
        replace (Z.to_nat off + 2 * k + 3 - (Z.to_nat off + 2 * k))%nat with 3%nat by lia.
        simpl. rewrite drop_drop. f_equal. lia.
      + rewrite app_assoc. fold pre. rewrite !length_app, Hpre, length_drop. simpl. lia. }
  destruct Hcur as (tl & -> & Hd & Hl).
  rewrite mem_write_total by (simpl; lia). f_equal.
  rewrite decide_False by lia.
  replace (Z.to_nat (off + Z.of_nat k * 2)) with (length pre) by lia.
  rewrite take_app_length. simpl length.
  replace (length pre + 3)%nat with (Z.to_nat off + 2 * k + 3)%nat by lia.
  rewrite Hd. unfold pre. rewrite (take_S_r _ _ _ Eb), hex_encode_app.
  replace (Z.to_nat off + 2 * S k + 1)%nat with (Z.to_nat off + 2 * k + 3)%nat by lia.
  change (hex_encode [b]) with (snprintf_02x b ++ []).
  rewrite app_nil_r, <- !app_assoc. done.
Qed.

(** [cipher_bin2hex] writes [2 * sz] digits and the terminator. *)
Lemma cipher_bin2hex_spec inp out off (n : nat) :
  0 <= off -> (0 < n <= length inp)%nat -> off + Z.of_nat (2 * n + 1) <= len out ->
  cipher_bin2hex inp (Z.of_nat n) out off =
  Some (take (Z.to_nat off) out ++ hex_encode (take n inp) ++ [0] ++
        drop (Z.to_nat off + 2 * n + 1) out).
Proof.
  intros Ho Hn Hb. unfold cipher_bin2hex. rewrite for_up_1.
  replace (Z.to_nat (Z.of_nat n - 0)) with n by lia.
  rewrite bin2hex_steps, decide_False by lia. done.
Qed.

Lemma hex2int_hexdigit_byte b :
  is_byte b ->
  u8 (Z.lor (Z.shiftl (cipher_hex2int (hexdigit (Z.shiftr b 4))) 4)
            (cipher_hex2int (hexdigit (Z.land b 15)))) = b.
Proof.
  intros Hb. apply Z.eqb_eq. revert b Hb. apply byte_forall. vm_compute. done.
Qed.

Lemma hexdigit_hexchar b :
  is_byte b ->
  hexchar (hexdigit (Z.shiftr b 4)) && hexchar (hexdigit (Z.land b 15)) = true.
Proof. revert b. apply byte_forall. vm_compute. done. Qed.

Lemma hex_decode_encode l : bytes_ok l -> hex_decode (hex_encode l) = l.
Proof.
  induction 1 as [|b l Hb _ IH]; simpl; [done|].
  rewrite hex2int_hexdigit_byte by done. by f_equal.
Qed.

Lemma hex_decode_bytes n l : length l = (2 * n)%nat -> bytes_ok (hex_decode l).
Proof.
  revert l. induction n as [|n IH]; intros [|h [|t l]] Hl; simpl in *; try lia;
    constructor; [apply u8_byte|]. apply IH. lia.
Qed.

Lemma isHex_loop_spec n (hex : bytes) i :
  (i + n <= length hex)%nat ->
  isHex_loop n hex (Z.of_nat i) =
  Some (if forallb hexchar (take n (drop i hex)) then 1 else 0).
Proof.
  revert i. induction n as [|n IH]; intros i Hi; simpl; [done|].
  destruct (lookup_lt_is_Some_2 hex i ltac:(lia)) as [c Hc].
  rewrite mem_get_nat, Hc. simpl. rewrite (drop_S _ _ _ Hc). simpl.
  destruct (hexchar c); simpl; [|done].
  replace (Z.of_nat i + 1) with (Z.of_nat (S i)) by lia. rewrite IH by lia. done.
Qed.

(** [cipher_isHex] is 1 exactly when the first [n] characters are all digits. *)
Lemma cipher_isHex_spec (hex : bytes) (n : nat) :
  (n <= length hex)%nat ->
  cipher_isHex hex (Z.of_nat n) = Some (if forallb hexchar (take n hex) then 1 else 0).
Proof.
  intros. unfold cipher_isHex. rewrite Nat2Z.id.
  change 0 with (Z.of_nat 0) at 1. rewrite isHex_loop_spec by lia. done.
Qed.

Lemma hex_encode_hexchar l : bytes_ok l -> forallb hexchar (hex_encode l) = true.
Proof.
  induction 1 as [|b l Hb _ IH]; [done|].
  pose proof (hexdigit_hexchar b Hb) as [H1 H2]%andb_true_iff. simpl.
  by rewrite H1, H2, IH.
Qed.

End Hex.

Module MemOps.

(** [v] is the buffer from the pointer on, [None] the null pointer, which the
    function returns unchanged. *)
Definition sqlcipher_memset (v : option bytes) (value length : Z)
  : option (option bytes) :=
  match v with
  | None => Some None
  | Some a =>
      a' ← for_up 0 length 1 (fun i a => mem_put a i value) a;
      Some (Some a')
  end.

(** 0 if every byte is [value], 1 otherwise; no early exit. *)
Definition sqlcipher_ismemset (a : bytes) (value length : Z) : option Z :=
  r ← for_up 0 length 1 (fun i result =>
        x ← mem_get a i; Some (Z.lor result (Z.lxor x value))) 0;
  Some (if r =? 0 then 0 else 1).

(** 0 if the buffers agree on [length] bytes, 1 otherwise; no early exit. *)
Definition sqlcipher_memcmp (a0 a1 : bytes) (length : Z) : option Z :=
  r ← for_up 0 length 1 (fun i result =>
        x ← mem_get a0 i; y ← mem_get a1 i;
        Some (Z.lor result (Z.lxor x y))) 0;
  Some (if r =? 0 then 0 else 1).

(** XOR of [sz] bytes with the repeated mask; [mask] is the mask's buffer, whose
    size is [sqlcipher_shield_mask_sz]. *)
Definition sqlcipher_shield (mask : bytes) (inp : bytes) (sz : Z) : option bytes :=
  for_up 0 sz 1 (fun i inp =>
    m ← mem_get mask (i mod len mask);
    x ← mem_get inp i;
    mem_put inp i (Z.lxor x m)) inp.

Definition sqlcipher_put4byte_le (v : Z) : bytes :=
  [u8 v; u8 (Z.shiftr v 8); u8 (Z.shiftr v 16); u8 (Z.shiftr v 24)].

(** ** Closed forms *)

(** The accumulated [or] is zero exactly when every term is. *)
Lemma for_lor (g : nat -> Z) body n :
  (forall k r, (k < n)%nat -> body (Z.of_nat k) r = Some (Z.lor r (g k))) ->
  exists r, for_n n 0 1 body 0 = Some r /\
  (r = 0 <-> forall k, (k < n)%nat -> g k = 0).
Proof.
  intros Hb.
  apply (for_n_ind (fun m r => r = 0 <-> forall k, (k < m)%nat -> g k = 0)).
  - split; [lia|done].
  - intros k r Hk Hr. rewrite Z.add_0_l, Z.mul_1_r, Hb by done. eexists. split; [done|].
    rewrite Z.lor_eq_0_iff, Hr. split.
    + intros [H1 H2] j Hj. destruct (decide (j = k)) as [->|]; [done|]. apply H1. lia.
    + intros H. split; [intros; apply H; lia|apply H; lia].
Qed.

Lemma sqlcipher_memcmp_spec (a0 a1 : bytes) (n : nat) :
  (n <= length a0)%nat -> (n <= length a1)%nat ->
  sqlcipher_memcmp a0 a1 (Z.of_nat n) =
  Some (if decide (take n a0 = take n a1) then 0 else 1).
Proof.
  intros H0 H1. unfold sqlcipher_memcmp. rewrite for_up_1, Z.sub_0_r, Nat2Z.id.
  destruct (for_lor (fun k => Z.lxor (a0 !!! k) (a1 !!! k))
    (fun i result => x ← mem_get a0 i; y ← mem_get a1 i;
        Some (Z.lor result (Z.lxor x y))) n) as (r & -> & Hr).
  { intros k r Hk. rewrite !mem_get_nat.
    rewrite (list_lookup_lookup_total_lt a0), (list_lookup_lookup_total_lt a1) by lia.
    done. }
  simpl. f_equal.
  assert (He : take n a0 = take n a1 <-> forall k, (k < n)%nat -> Z.lxor (a0 !!! k) (a1 !!! k) = 0).
  { setoid_rewrite Z.lxor_eq_0_iff. split.
    - intros E k Hk. apply (f_equal (fun l => l !!! k)) in E.
      rewrite !lookup_total_take_lt in E by done. done.
    - intros E. apply list_eq. intros k. destruct (decide (k < n)%nat).
      + rewrite !lookup_take_lt by done.
        rewrite (list_lookup_lookup_total_lt a0), (list_lookup_lookup_total_lt a1) by lia.
        by rewrite E.
      + by rewrite !lookup_take_ge by lia. }
  case_decide as Hd; case_cond; tauto.
Qed.

Lemma sqlcipher_ismemset_spec (a : bytes) v (n : nat) :
  (n <= length a)%nat ->
  sqlcipher_ismemset a v (Z.of_nat n) =
  Some (if decide (take n a = replicate n v) then 0 else 1).
Proof.
  intros H0. unfold sqlcipher_ismemset. rewrite for_up_1, Z.sub_0_r, Nat2Z.id.
  destruct (for_lor (fun k => Z.lxor (a !!! k) v)
    (fun i result => x ← mem_get a i; Some (Z.lor result (Z.lxor x v))) n)
    as (r & -> & Hr).
  { intros k r Hk. rewrite !mem_get_nat, (list_lookup_lookup_total_lt a) by lia. done. }
  simpl. f_equal.
  assert (He : take n a = replicate n v <-> forall k, (k < n)%nat -> Z.lxor (a !!! k) v = 0).
  { setoid_rewrite Z.lxor_eq_0_iff. split.
    - intros E k Hk. apply (f_equal (fun l => l !!! k)) in E.
      rewrite lookup_total_take_lt, lookup_total_replicate_2 in E by done. done.
    - intros E. apply list_eq. intros k. destruct (decide (k < n)%nat).
      + rewrite lookup_take_lt, lookup_replicate_2 by done.
        rewrite (list_lookup_lookup_total_lt a) by lia. by rewrite E.
      + rewrite lookup_take_ge, lookup_ge_None_2 by (rewrite ?length_replicate; lia). done. }
  case_decide as Hd; case_cond; tauto.
Qed.

Lemma sqlcipher_memset_spec (a : bytes) v (n : nat) :
  (n <= length a)%nat ->
  sqlcipher_memset (Some a) v (Z.of_nat n) = Some (Some (replicate n v ++ drop n a)).
Proof.
  intros H. unfold sqlcipher_memset. rewrite for_up_1, Z.sub_0_r, Nat2Z.id.
  rewrite (for_fill (fun _ => v)); [|done|].
  - simpl. do 3 f_equal. generalize 0%nat.
    clear H. induction n as [|n IH]; intros m; simpl; [done|]. by rewrite IH.
  - intros k s Hk Hs. rewrite Z.mul_1_r, mem_put_nat by lia. done.
Qed.

Definition shielded (mask l : bytes) : bytes :=
  imap (fun i b => Z.lxor b (mask !!! (i mod length mask)%nat)) l.

Lemma sqlcipher_shield_spec mask inp (n : nat) :
  mask <> [] -> (n <= length inp)%nat ->
  sqlcipher_shield mask inp (Z.of_nat n) =
  Some (shielded mask (take n inp) ++ drop n inp).
Proof.
  intros Hm Hn. unfold sqlcipher_shield. rewrite for_up_1, Z.sub_0_r, Nat2Z.id.
  apply for_map; [done|]. intros k s v Hk Hs Hv.
  assert (Hlm : (0 < length mask)%nat) by (destruct mask; simpl in *; [done|lia]).
  rewrite <- Nat2Z.inj_mod, !mem_get_nat.
  rewrite (list_lookup_lookup_total_lt mask) by (apply Nat.mod_upper_bound; lia).
  rewrite Hv. simpl. apply mem_put_nat. lia.
Qed.

Lemma shielded_length mask l : length (shielded mask l) = length l.
Proof. apply length_imap. Qed.

Lemma shielded_involutive mask l : shielded mask (shielded mask l) = l.
Proof.
  unfold shielded. apply list_eq. intros i. rewrite !list_lookup_imap.
  destruct (l !! i); simpl; [|done]. by rewrite lxor_twice.
Qed.

Lemma shielded_bytes mask l : bytes_ok mask -> bytes_ok l -> bytes_ok (shielded mask l).
Proof.
  intros Hm Hl. apply imap_bytes_ok. intros i b Hb. apply lxor_byte.
  - by eapply (Forall_lookup_1 _ l).
  - destruct (decide (i mod length mask < length mask)%nat) as [Hi|Hi].
    + apply (Forall_lookup_total_1 _ mask); done.
    + rewrite list_lookup_total_alt, lookup_ge_None_2 by lia. done.
Qed.

(** Applying the shield twice restores the buffer. *)
Lemma sqlcipher_shield_twice mask inp (n : nat) :
  mask <> [] -> (n <= length inp)%nat ->
  (x ← sqlcipher_shield mask inp (Z.of_nat n);
   sqlcipher_shield mask x (Z.of_nat n)) = Some inp.
Proof.
  intros Hm Hn. rewrite sqlcipher_shield_spec by done. simpl.
  assert (Hl : length (shielded mask (take n inp)) = n)
    by (rewrite shielded_length, length_take; lia).
  rewrite sqlcipher_shield_spec by (rewrite ?length_app; lia || done).
  rewrite take_app_length', drop_app_length', shielded_involutive, take_drop by done.
  done.
Qed.

(** The page number encoding determines the page number. *)
Lemma put4byte_le_inj v w :
  is_u32 v -> is_u32 w ->
  sqlcipher_put4byte_le v = sqlcipher_put4byte_le w -> v = w.
Proof.
  unfold sqlcipher_put4byte_le, is_u32, u8. intros Hv Hw [= E0 E1 E2 E3].
  rewrite !Z.shiftr_div_pow2 in * by lia.
  Z.div_mod_to_equations. lia.
Qed.

End MemOps.

Module Xoshiro.

(** The thread-local state [xoshiro_s[4]]. *)
Record xoshiro := Xo { xs0 : Z; xs1 : Z; xs2 : Z; xs3 : Z }.

(** The second component is the new value of [*x]. *)
Definition splitmix64 (x : Z) : Z * Z :=
  let x := u64 (x + 0x9e3779b97f4a7c15) in
  let z := u64 (Z.lxor x (Z.shiftr x 30) * 0xbf58476d1ce4e5b9) in
  let z := u64 (Z.lxor z (Z.shiftr z 27) * 0x94d049bb133111eb) in
  (Z.lxor z (Z.shiftr z 31), x).

Definition xoshiro_rotl (x k : Z) : Z :=
  Z.lor (u64 (Z.shiftl x k)) (Z.shiftr x (64 - k)).

Definition xoshiro_seed (addr : Z) : xoshiro :=
  let '(a0, a) := splitmix64 addr in
  let '(a1, a) := splitmix64 a in
  let '(a2, a) := splitmix64 a in
  let '(a3, a) := splitmix64 a in
  Xo a0 a1 a2 a3.

(** [addr] is the address of the state, from which an all-zero state is seeded. *)
Definition xoshiro_next (addr : Z) (s : xoshiro) : Z * xoshiro :=
  let s := if Z.lor (Z.lor (Z.lor (xs0 s) (xs1 s)) (xs2 s)) (xs3 s) =? 0
           then xoshiro_seed addr else s in
  let '(Xo s0 s1 s2 s3) := s in
  let result := u64 (xoshiro_rotl (u64 (s0 + s3)) 23 + s0) in
  let t := u64 (Z.shiftl s1 17) in
  let s2 := Z.lxor s2 s0 in
  let s3 := Z.lxor s3 s1 in
  let s1 := Z.lxor s1 s2 in
  let s0 := Z.lxor s0 s3 in
  let s2 := Z.lxor s2 t in
  let s3 := xoshiro_rotl s3 45 in
  (result, Xo s0 s1 s2 s3).

(** The object representation of a 64-bit integer on a little-endian machine. *)
Definition le_bytes8 (v : Z) : bytes :=
  (fun k => u8 (Z.shiftr v (8 * Z.of_nat k))) <$> seq 0 8.

Fixpoint randomness_loop (fuel : nat) (addr : Z) (s : xoshiro) (sz : Z)
  : bytes * xoshiro :=
  match fuel with
  | O => ([], s)
  | S fuel' =>
      if 0 <? sz then
        let '(val, s) := xoshiro_next addr s in
        let to_copy := if 8 <=? sz then 8 else sz in
        let '(rest, s) := randomness_loop fuel' addr s (sz - to_copy) in
        (take (Z.to_nat to_copy) (le_bytes8 val) ++ rest, s)
      else ([], s)
  end.

(** The bytes the function stores at [ptr], with the new generator state. Each
    iteration consumes at least one of the [sz] bytes. *)
Definition xoshiro_randomness (addr : Z) (s : xoshiro) (sz : Z) : bytes * xoshiro :=
  randomness_loop (Z.to_nat sz) addr s sz.

Lemma le_bytes8_length v : length (le_bytes8 v) = 8%nat.
Proof. done. Qed.

Lemma le_bytes8_ok v : bytes_ok (le_bytes8 v).
Proof. apply Forall_fmap, Forall_true. intros. apply u8_byte. Qed.

(** The loop stores exactly [sz] bytes (fuel [sz] is enough). *)
Lemma randomness_loop_length fuel addr s sz :
  0 <= sz <= Z.of_nat fuel -> len (randomness_loop fuel addr s sz).1 = sz.
Proof.
  revert s sz. induction fuel as [|fuel IH]; intros s sz Hsz; simpl; [lia|].
  case_cond; [|simpl; lia].
  destruct (xoshiro_next addr s) as [val s1].
  set (n := if 8 <=? sz then 8 else sz).
  assert (Hn : 0 < n <= 8 /\ n <= sz) by (unfold n; case_cond; lia).
  specialize (IH s1 (sz - n) ltac:(lia)).
  destruct (randomness_loop fuel addr s1 (sz - n)) as [rest s2]. simpl in *.
  rewrite length_app, length_take, le_bytes8_length. lia.
Qed.

Lemma xoshiro_randomness_length addr s sz :
  0 <= sz -> len (xoshiro_randomness addr s sz).1 = sz.
Proof. intros. apply randomness_loop_length. lia. Qed.

Lemma randomness_loop_bytes fuel addr s sz :
  bytes_ok (randomness_loop fuel addr s sz).1.
Proof.
  revert s sz. induction fuel as [|fuel IH]; intros s sz; simpl; [constructor|].
  case_cond; [|constructor].
  destruct (xoshiro_next addr s) as [val s1].
  specialize (IH s1 (sz - if 8 <=? sz then 8 else sz)).
  destruct (randomness_loop _ _ _ _). simpl in *.
  apply Forall_app. split; [apply Forall_take, le_bytes8_ok|done].
Qed.

(** *** The generator's state never returns to zero *)

Definition xo_wf (s : xoshiro) : Prop :=
  is_u64 (xs0 s) /\ is_u64 (xs1 s) /\ is_u64 (xs2 s) /\ is_u64 (xs3 s).
Definition xo_zero (s : xoshiro) : Prop :=
  xs0 s = 0 /\ xs1 s = 0 /\ xs2 s = 0 /\ xs3 s = 0.
#[global] Instance xo_zero_dec s : Decision (xo_zero s).
Proof. unfold xo_zero. apply _. Defined.
#[global] Instance xo_wf_dec s : Decision (xo_wf s).
Proof. unfold xo_wf. apply _. Defined.

Lemma rotl_zero x k :
  is_u64 x -> 0 < k < 64 -> xoshiro_rotl x k = 0 -> x = 0.
Proof.
  unfold xoshiro_rotl, is_u64, u64. intros Hx Hk [H1 H2]%Z.lor_eq_0_iff.
  rewrite Z.shiftl_mul_pow2 in H1 by lia. rewrite Z.shiftr_div_pow2 in H2 by lia.
  assert (Hp : 2 ^ 64 = 2 ^ (64 - k) * 2 ^ k)
    by (rewrite <- Z.pow_add_r by lia; f_equal; lia).
  pose proof (Z.pow_pos_nonneg 2 k). pose proof (Z.pow_pos_nonneg 2 (64 - k)).
  assert (x < 2 ^ (64 - k)) by (apply Z.div_small_iff in H2; lia).
  rewrite Z.mod_small in H1 by nia. nia.
Qed.

Lemma shift17_fix x : is_u64 x -> x = u64 (Z.shiftl x 17) -> x = 0.
Proof.
  intros Hx E. apply Z.bits_inj'. intros n Hn. rewrite Z.bits_0.
  destruct (Z.lt_ge_cases n 64) as [Hlt|]; [|by apply (testbit_small x 64)].
  revert Hlt. pattern n. apply Z_lt_induction; [|done]. clear n Hn. intros n IH Hlt.
  destruct (Z.lt_ge_cases n 0); [by apply Z.testbit_neg_r|].
  rewrite E. unfold u64. rewrite Z.mod_pow2_bits_low by lia.
  destruct (Z.lt_ge_cases n 17); [by apply Z.shiftl_spec_low|].
  rewrite Z.shiftl_spec by lia. apply IH; lia.
Qed.

Lemma is_u64_lxor a b : is_u64 a -> is_u64 b -> is_u64 (Z.lxor a b).
Proof.
  unfold is_u64. intros Ha Hb. split; [apply Z.lxor_nonneg; lia|].
  destruct (Z.eq_dec (Z.lxor a b) 0) as [->|]; [lia|].
  assert (0 <= Z.lxor a b) by (apply Z.lxor_nonneg; lia).
  apply Z.log2_lt_pow2; [lia|].
  apply Z.le_lt_trans with (Z.max (Z.log2 a) (Z.log2 b)); [apply Z.log2_lxor; lia|].
  apply Z.max_lub_lt;
    match goal with |- Z.log2 ?z < 64 =>
      destruct (Z.eq_dec z 0) as [->|]; [done|apply Z.log2_lt_pow2; lia] end.
Qed.

Lemma xoshiro_next_nonzero addr s :
  xo_wf s -> ~ xo_zero s -> ~ xo_zero (xoshiro_next addr s).2.
Proof.
  destruct s as [s0 s1 s2 s3]. unfold xo_wf, xo_zero, xoshiro_next. simpl.
  intros (H0 & H1 & H2 & H3) Hnz.
  case_cond.
  { rewrite !Z.lor_eq_0_iff in *. tauto. }
  simpl. intros (E0 & E1 & E2 & E3). apply Hnz.
  apply rotl_zero in E3; [|by apply is_u64_lxor|lia].
  apply Z.lxor_eq in E3. subst s3.
  rewrite Z.lxor_nilpotent, Z.lxor_0_r in E0. subst s0.
  rewrite Z.lxor_0_r in E1, E2. apply Z.lxor_eq in E1. subst s2.
  apply Z.lxor_eq in E2. apply shift17_fix in E2; [|done]. done.
Qed.

End Xoshiro.
