(* ===== verification/UtilStr.v ===== *)
(** * String routines of src/util.c

    A C string is the list of the bytes from its pointer on; the string ends at the
    first zero byte, and reading past the end of the list is [None]. A null pointer
    is [None] of the [option] around the list.

    - case-insensitive comparison ([sqlite3_stricmp], [sqlite3StrICmp],
      [sqlite3_strnicmp]) and hashing ([sqlite3StrIHash]);
    - [sqlite3Strlen30];
    - removal of quotes ([sqlite3Dequote], [sqlite3DequoteToken]). *)

From Stdlib Require Import Ascii String.
Export StringSyntax.
From S2P Require Import Prelude.

(** The bytes of a string literal, and the literal with its terminator. *)
Definition text (s : string) : bytes :=
  (fun a => Z.of_nat (nat_of_ascii a)) <$> list_ascii_of_string s.
Definition lit (s : string) : bytes := text s ++ [0].
Arguments text s%_string.
Arguments lit s%_string.

(** The table [sqlite3UpperToLower] of src/global.c for ASCII. *)
Definition UpperToLower (c : Z) : Z :=
  if (65 <=? c) && (c <=? 90) then c + 32 else c.

(** The characters before the terminator, if there is one. *)
Fixpoint cstr (z : bytes) : option bytes :=
  match z with
  | [] => None
  | c :: z' => if c =? 0 then Some [] else let? s := cstr z' in Some (c :: s)
  end.

Definition strlen (z : bytes) : option Z := let? s := cstr z in Some (len s).

Definition sqlite3Strlen30 (z : option bytes) : option Z :=
  match z with
  | None => Some 0
  | Some z => let? n := strlen z in Some (Z.land 0x3fffffff (i32 n))
  end.

Fixpoint sqlite3StrICmp (a b : bytes) : option Z :=
  match a, b with
  | c :: a', x :: b' =>
      if c =? x then (if c =? 0 then Some 0 else sqlite3StrICmp a' b')
      else
        let d := UpperToLower c - UpperToLower x in
        if d =? 0 then sqlite3StrICmp a' b' else Some d
  | _, _ => None
  end.

Definition sqlite3_stricmp (zLeft zRight : option bytes) : option Z :=
  match zLeft, zRight with
  | None, Some _ => Some (-1)
  | None, None => Some 0
  | Some _, None => Some 1
  | Some a, Some b => sqlite3StrICmp a b
  end.

(** The loop [while( N-- > 0 && *a!=0 && ...)]; it stops with the test on [*a] and
    [*b] only when characters are left to compare. *)
Fixpoint strnicmp_loop (n : nat) (a b : bytes) : option Z :=
  match n with
  | O => Some 0
  | S n' =>
      match a, b with
      | c :: a', x :: b' =>
          if (c <>? 0) && (UpperToLower c =? UpperToLower x)
          then strnicmp_loop n' a' b'
          else Some (UpperToLower c - UpperToLower x)
      | _, _ => None
      end
  end.

Definition sqlite3_strnicmp (zLeft zRight : option bytes) (N : Z) : option Z :=
  match zLeft, zRight with
  | None, Some _ => Some (-1)
  | None, None => Some 0
  | Some _, None => Some 1
  | Some a, Some b => strnicmp_loop (Z.to_nat N) a b
  end.

Fixpoint strihash_loop (h : Z) (z : bytes) : option Z :=
  match z with
  | [] => None
  | c :: z' => if c =? 0 then Some h else strihash_loop (u8 (h + UpperToLower c)) z'
  end.

Definition sqlite3StrIHash (z : option bytes) : option Z :=
  match z with
  | None => Some 0
  | Some z => strihash_loop 0 z
  end.

(** [sqlite3CtypeMap] bit 0x80: the characters that open a quoted token. *)
Definition sqlite3Isquote (c : Z) : bool :=
  (c =? 34) || (c =? 39) || (c =? 91) || (c =? 96).

(** The copy loop of [sqlite3Dequote]: [r] is [z + i], and the result is what has
    been stored at [z[0..j)], in order. The loop reads [z[i+1]] only after a quote. *)
Fixpoint dequote_loop (quote : Z) (r : bytes) : option bytes :=
  match r with
  | [] => None
  | c :: r' =>
      if c =? quote then
        match r' with
        | [] => None
        | d :: r'' => if d =? quote then let? s := dequote_loop quote r'' in
                                         Some (quote :: s)
                      else Some []
        end
      else let? s := dequote_loop quote r' in Some (c :: s)
  end.

(** The buffer after the in-place conversion. The destination index never passes the
    source index, so the loop reads only characters that have not been stored to. *)
Definition sqlite3Dequote (z : option bytes) : option (option bytes) :=
  match z with
  | None => Some None
  | Some z =>
      let? quote := mem_get z 0 in
      if negb (sqlite3Isquote quote) then Some (Some z) else
      let quote := if quote =? 91 then 93 else quote in
      let? s := dequote_loop quote (drop 1 z) in
      let? z := mem_write z 0 (s ++ [0]) in
      Some (Some z)
  end.

(** A token is a pointer and a length; the result is the new one. *)
Fixpoint any_quote (n : nat) (z : bytes) : option bool :=
  match n with
  | O => Some false
  | S n' => match z with
            | [] => None
            | c :: z' => if sqlite3Isquote c then Some true else any_quote n' z'
            end
  end.

Definition sqlite3DequoteToken (z : bytes) (n : Z) : option (bytes * Z) :=
  if n <? 2 then Some (z, n) else
  let? c := mem_get z 0 in
  if negb (sqlite3Isquote c) then Some (z, n) else
  let? q := any_quote (Z.to_nat (n - 2)) (drop 1 z) in
  if q then Some (z, n) else Some (drop 1 z, n - 2).

(** ** Properties *)

Lemma UpperToLower_zero c : is_byte c -> UpperToLower c = 0 <-> c = 0.
Proof. unfold UpperToLower, is_byte. case_cond; lia. Qed.

(** The result is zero exactly when the strings agree up to the case of ASCII
    letters. *)
Lemma StrICmp_spec a b s t :
  bytes_ok a -> bytes_ok b -> cstr a = Some s -> cstr b = Some t ->
  exists d, sqlite3StrICmp a b = Some d /\
  (d = 0 <-> UpperToLower <$> s = UpperToLower <$> t).
Proof.
  intros Ha. revert b s t. induction Ha as [|c a Hc Ha IH]; intros b s t Hb; [done|].
  destruct b as [|x b]; [done|]. inversion Hb as [|? ? Hx Hb']; subst.
  simpl. intros Es Et.
  pose proof (UpperToLower_zero c Hc) as Zc. pose proof (UpperToLower_zero x Hx) as Zx.
  destruct (Z.eqb_spec c x) as [->|Hne].
  - destruct (Z.eqb_spec x 0).
    + simplify_eq. exists 0. done.
    + destruct (cstr a) as [s'|] eqn:E1; [|done]. destruct (cstr b) as [t'|] eqn:E2; [|done].
      simplify_eq. destruct (IH _ _ _ Hb' eq_refl E2) as (d & -> & Hd).
      exists d. split; [done|]. rewrite Hd, !fmap_cons. split; congruence.
  - destruct (Z.eqb_spec (UpperToLower c - UpperToLower x) 0).
    + destruct (Z.eqb_spec c 0); [lia|]. destruct (Z.eqb_spec x 0); [lia|].
      destruct (cstr a) as [s'|] eqn:E1; [|done]. destruct (cstr b) as [t'|] eqn:E2; [|done].
      simplify_eq. destruct (IH _ _ _ Hb' eq_refl E2) as (d & -> & Hd).
      exists d. split; [done|]. rewrite Hd, !fmap_cons.
      replace (UpperToLower x) with (UpperToLower c) by lia. split; congruence.
    + eexists. split; [done|]. split; [done|]. intros E. exfalso.
      destruct (Z.eqb_spec c 0), (Z.eqb_spec x 0); try lia;
        repeat case_match; simplify_eq; rewrite ?fmap_cons in E; simplify_eq; lia.
Qed.

(** ** C strings *)

Definition lower (s : bytes) : bytes := UpperToLower <$> s.

(** A C string: bytes with a terminator; [n] is the part before it. *)
Definition c_string (z n : bytes) : Prop := bytes_ok z /\ cstr z = Some n.

Definition plain (s : bytes) : bool := forallb (fun c => (0 <? c) && (c <? 256)) s.

Lemma plain_c_string s t : plain s = true -> bytes_ok t -> c_string (s ++ 0 :: t) s.
Proof.
  unfold plain. intros Hs Ht. induction s as [|c s IH]; simpl in *.
  - split; [|done]. constructor; [unfold is_byte; lia|done].
  - bool_to_prop. destruct (IH ltac:(done)) as [Hb Hc]. split.
    + constructor; [unfold is_byte; lia|done].
    + simpl. rewrite (proj2 (Z.eqb_neq c 0)), Hc by lia. done.
Qed.

Lemma stricmp_c_string z n w m : c_string z n -> c_string w m ->
  exists d, sqlite3_stricmp (Some z) (Some w) = Some d /\ (d = 0 <-> lower n = lower m).
Proof. intros [Bz Ez] [Bw Ew]. by apply StrICmp_spec. Qed.

Lemma c_string_split z n : c_string z n ->
  exists t, z = n ++ 0 :: t /\ Forall (fun c => c <> 0) n.
Proof.
  intros [_ E]. revert n E. induction z as [|c z IH]; intros n E; [done|]. simpl in E.
  destruct (Z.eqb_spec c 0) as [->|Hc]; [injection E as <-; by exists z|].
  inv_let E. injection E as <-. destruct (IH l eq_refl) as (t & -> & Hn).
  exists t. split; [done|]. by constructor.
Qed.
