(* ===== verification/Complete.v ===== *)
(** * The statement completeness scanner of src/complete.c

    [sqlite3_incomplete] tells what is missing at the end of an SQL text, and
    [sqlite3_complete] and [sqlite3_complete16] whether anything is. The scanner splits the
    text into tokens of eight kinds and runs a finite automaton of eight states on them.

    A pointer into the text is the list of the bytes from there on, terminator included;
    reading past it is [None]. The counter of parentheses is an [int]: the model is [None]
    where it would overflow. The build is the default one (ASCII, with triggers and EXPLAIN,
    without SQLITE_ENABLE_API_ARMOR).

    The specification has two layers: [lexes] says how a text is divided into quoted parts,
    comments, words and single characters; [statements] says which sequences of tokens are
    complete statements. [incomplete_exact] connects them with the result, field by field. *)

From stdpp Require Import list sets.
From S2P Require Import Prelude UtilStr.
Local Open Scope Z_scope.

Module SqlComplete.

(** ** Tables *)

Definition SQLITE_EMPTY : Z := 16.

Definition tkSEMI : Z := 0.
Definition tkWS : Z := 1.
Definition tkOTHER : Z := 2.
Definition tkEXPLAIN : Z := 3.
Definition tkCREATE : Z := 4.
Definition tkTEMP : Z := 5.
Definition tkTRIGGER : Z := 6.
Definition tkEND : Z := 7.

(** [sqlite3CtypeMap] of src/global.c, runs of equal entries put together *)
Definition sqlite3CtypeMap : list Z :=
  replicate 9 0x00 ++ replicate 5 0x01 ++ replicate 18 0x00 ++ [0x01] ++ [0x00] ++
  [0x80] ++ [0x00] ++ [0x40] ++ replicate 2 0x00 ++ [0x80] ++ replicate 8 0x00 ++
  replicate 10 0x0c ++ replicate 7 0x00 ++ replicate 6 0x0a ++ replicate 20 0x02 ++
  [0x80] ++ replicate 3 0x00 ++ [0x40] ++ [0x80] ++ replicate 6 0x2a ++
  replicate 20 0x22 ++ replicate 5 0x00 ++ replicate 128 0x40.

Definition IdChar (c : Z) : bool :=
  Z.land (default 0 (sqlite3CtypeMap !! Z.to_nat c)) 0x46 <>? 0.

Definition trans : list (list Z) :=
  (*  SEMI WS OTHER EXPLAIN CREATE TEMP TRIGGER END *)
  [ [ 1;   0; 2;    3;      4;     2;   2;      2 ];   (* 0 NOTHING *)
    [ 1;   1; 2;    3;      4;     2;   2;      2 ];   (* 1 START *)
    [ 1;   2; 2;    2;      2;     2;   2;      2 ];   (* 2 NORMAL *)
    [ 1;   3; 3;    2;      4;     2;   2;      2 ];   (* 3 EXPLAIN *)
    [ 1;   4; 2;    2;      2;     4;   5;      2 ];   (* 4 CREATE *)
    [ 6;   5; 5;    5;      5;     5;   5;      5 ];   (* 5 TRIGGER *)
    [ 6;   6; 5;    5;      5;     5;   5;      7 ];   (* 6 SEMI *)
    [ 1;   7; 5;    5;      5;     5;   5;      5 ] ]. (* 7 END *)

Definition statemap : list Z := [0; 0; 1; 1; 1; 3; 2; 1].

(** [trans[state][token]] *)
Definition next_state (state token : Z) : option Z :=
  let? row := trans !! Z.to_nat state in row !! Z.to_nat token.

(** ** Scanning one token *)

(** [while( *zSql && *zSql!=c ){ zSql++; }] *)
Fixpoint skip_to (c : Z) (z : bytes) : option bytes :=
  match z with
  | [] => None
  | d :: z' => if (d =? 0) || (d =? c) then Some z else skip_to c z'
  end.

(** [while( zSql[0] && (zSql[0]!='*' || zSql[1]!='/') ){ zSql++; }] *)
Fixpoint skip_comment (z : bytes) : option bytes :=
  match z with
  | [] => None
  | d :: z' =>
      if d =? 0 then Some z else
      if d =? 42 then
        let? e := head z' in if e =? 47 then Some z else skip_comment z'
      else skip_comment z'
  end.

(** [for(nId=1; IdChar(zSql[nId]); nId++){}] on the text behind the first character. *)
Fixpoint id_length (nId : Z) (z : bytes) : option Z :=
  match z with
  | [] => None
  | c :: z' => if IdChar c then id_length (nId + 1) z' else Some nId
  end.

(** [nId==n && sqlite3StrNICmp(zSql, zWord, n)==0] *)
Definition is_word (z : bytes) (nId : Z) (zWord : bytes) (n : Z) : option bool :=
  if nId =? n then let? d := sqlite3_strnicmp (Some z) (Some zWord) n in Some (d =? 0)
  else Some false.

(** The token of the identifier of [nId] characters at [z], which begins with [c]. *)
Definition keyword (z : bytes) (c nId : Z) : option Z :=
  if (c =? 99) || (c =? 67) then
    let? b := is_word z nId (lit "create") 6 in Some (if b then tkCREATE else tkOTHER)
  else if (c =? 116) || (c =? 84) then
    let? b := is_word z nId (lit "trigger") 7 in
    if b then Some tkTRIGGER else
    let? b := is_word z nId (lit "temp") 4 in
    if b then Some tkTEMP else
    let? b := is_word z nId (lit "temporary") 9 in Some (if b then tkTEMP else tkOTHER)
  else if (c =? 101) || (c =? 69) then
    let? b := is_word z nId (lit "end") 3 in
    if b then Some tkEND else
    let? b := is_word z nId (lit "explain") 7 in Some (if b then tkEXPLAIN else tkOTHER)
  else Some tkOTHER.

(** The token, what it adds to [nParen], and the pointer to its last character; or the
    value of [pending] with which the scan is given up. *)
Inductive scanned := Token (token paren : Z) (z : bytes) | Unfinished (pending : Z).

(** The cases that look for a closing character: [token] is that of the closed form. *)
Definition closed (token pending : Z) (z : bytes) : option scanned :=
  let? c := head z in
  Some (if c =? 0 then Unfinished pending else Token token 0 z).

(** The [switch( *zSql )] on the text [c :: z]. *)
Definition scan (c : Z) (z : bytes) : option scanned :=
  if c =? 59 then Some (Token tkSEMI 0 (c :: z)) else
  if (c =? 32) || (c =? 13) || (c =? 9) || (c =? 10) || (c =? 12)
  then Some (Token tkWS 0 (c :: z)) else
  if c =? 47 then
    let? d := head z in
    if d <>? 42 then Some (Token tkOTHER 0 (c :: z)) else
    let? z := skip_comment (tail z) in
    let? e := head z in
    Some (if e =? 0 then Unfinished 47 else Token tkWS 0 (tail z))
  else if c =? 45 then
    let? d := head z in
    if d <>? 45 then Some (Token tkOTHER 0 (c :: z)) else
    let? z := skip_to 10 (c :: z) in closed tkWS 45 z
  else if c =? 91 then let? z := skip_to 93 z in closed tkOTHER 93 z
  else if (c =? 96) || (c =? 34) || (c =? 39) then let? z := skip_to c z in closed tkOTHER c z
  else if c =? 40 then Some (Token tkOTHER 1 (c :: z))
  else if c =? 41 then Some (Token tkOTHER (-1) (c :: z))
  else if IdChar c then
    let? nId := id_length 1 z in
    let? token := keyword (c :: z) c nId in
    Some (Token token 0 (drop (Z.to_nat (nId - 1)) (c :: z)))
  else Some (Token tkOTHER 0 (c :: z)).

(** ** The loop and the result *)

(** [nParen++] and [nParen--] *)
Definition add_paren (nParen k : Z) : option Z :=
  if (- 2 ^ 31 <=? nParen + k) && (nParen + k <? 2 ^ 31) then Some (nParen + k) else None.

(** State, [pending] and [nParen] at the end. *)
Fixpoint scan_loop (fuel : nat) (z : bytes) (state nParen : Z) : option (Z * Z * Z) :=
  match fuel with
  | O => None
  | S fuel =>
      let? c := head z in
      if c =? 0 then Some (state, 0, nParen) else
      let? r := scan c (tail z) in
      match r with
      | Unfinished pending => Some (state, pending, nParen)
      | Token token k z =>
          let? nParen := add_paren nParen k in
          let? state := next_state state token in
          match z with [] => None | _ :: z => scan_loop fuel z state nParen end
      end
  end.

Definition sqlite3_incomplete (zSql : bytes) : option Z :=
  let? (state, pending, nParen) := scan_loop (S (length zSql)) zSql 0 0 in
  if (state =? 0) && (pending =? 0) then Some SQLITE_EMPTY else
  let nParen := if state =? 1 then 0 else nParen in
  let? yy := statemap !! Z.to_nat state in
  Some (i64 (Z.lor (Z.lor (Z.lor (u64 (Z.shiftl (u64 nParen) 32)) (Z.shiftl pending 16))
                      (Z.shiftl yy 8))
              (Z.b2z ((1 <? state) || (pending <>? 0))))).

Definition sqlite3_complete (zSql : bytes) : option Z :=
  let? r := sqlite3_incomplete zSql in Some (Z.b2z (r =? 0)).

(** [rc] is the result of [sqlite3_initialize], and [zSql8] the text after its conversion
    to UTF-8, or null when that failed. *)
Definition sqlite3_complete16 (rc : Z) (zSql8 : option bytes) : option Z :=
  if rc <>? 0 then Some rc else
  let? rc :=
    match zSql8 with
    | Some z => let? r := sqlite3_incomplete z in Some (Z.b2z (r =? 0))
    | None => Some SQLITE_NOMEM
    end in
  Some (Z.land rc 0xff).

(** ** How a text is divided *)

Definition space (c : Z) : Prop := c ∈ [32; 13; 9; 10; 12].

(** The characters that begin something other than a word or an operator. *)
Definition special (c : Z) : Prop := c ∈ [59; 32; 13; 9; 10; 12; 91; 96; 34; 39; 40; 41].

Definition contains (u s : bytes) : Prop := exists s1 s2, s = s1 ++ u ++ s2.

Definition word_token (w : bytes) : Z :=
  let w := lower w in
  if decide (w = text "create") then tkCREATE else
  if decide (w = text "trigger") then tkTRIGGER else
  if decide (w = text "temp" \/ w = text "temporary") then tkTEMP else
  if decide (w = text "end") then tkEND else
  if decide (w = text "explain") then tkEXPLAIN else tkOTHER.

(** [piece w r t k]: in front of the text [r], [w] is one token of kind [t] that changes the
    depth of parentheses by [k]. *)
Inductive piece : bytes -> bytes -> Z -> Z -> Prop :=
| piece_semi r : piece [59] r tkSEMI 0
| piece_space c r : space c -> piece [c] r tkWS 0
| piece_comment b r : ~ contains (text "*/") b -> piece (text "/*" ++ b ++ text "*/") r tkWS 0
| piece_line b r : 10 ∉ b -> piece (text "--" ++ b ++ [10]) r tkWS 0
| piece_bracket b r : 93 ∉ b -> piece (91 :: b ++ [93]) r tkOTHER 0
| piece_quote q b r : q ∈ [96; 34; 39] -> q ∉ b -> piece (q :: b ++ [q]) r tkOTHER 0
| piece_open r : piece [40] r tkOTHER 1
| piece_close r : piece [41] r tkOTHER (-1)
| piece_word w r : w <> [] -> Forall (fun c => IdChar c = true) w ->
    (forall c, head r = Some c -> IdChar c = false) -> piece w r (word_token w) 0
| piece_other c r : ~ special c -> IdChar c = false ->
    (c = 47 -> head r <> Some 42) -> (c = 45 -> head r <> Some 45) -> piece [c] r tkOTHER 0.

(** [opens s c]: the text [s] is the beginning of a comment or of something quoted that is
    not closed; [c] tells which. *)
Inductive opens : bytes -> Z -> Prop :=
| opens_comment b : ~ contains (text "*/") b -> opens (text "/*" ++ b) 47
| opens_line b : 10 ∉ b -> opens (text "--" ++ b) 45
| opens_bracket b : 93 ∉ b -> opens (91 :: b) 93
| opens_quote q b : q ∈ [96; 34; 39] -> q ∉ b -> opens (q :: b) q.

(** [lexes s ts d c]: the text [s] consists of the tokens [ts], with depth [d] of
    parentheses, and of something unfinished of kind [c] unless [c] is 0. *)
Inductive lexes : bytes -> list Z -> Z -> Z -> Prop :=
| lexes_end : lexes [] [] 0 0
| lexes_open s c : opens s c -> lexes s [] 0 c
| lexes_piece w r t k ts d c : piece w r t k -> lexes r ts d c -> lexes (w ++ r) (t :: ts) (k + d) c.

(** ** Which token sequences are statements *)

(** [CREATE TRIGGER] with what may come before and between. *)
Definition trigger_head (ts : list Z) : Prop :=
  exists pre temps, ts = pre ++ tkCREATE :: temps ++ [tkTRIGGER] /\ Forall (fun t => t = tkTEMP) temps /\
    (pre = [] \/ exists others, pre = tkEXPLAIN :: others /\ Forall (fun t => t = tkOTHER) others).

Definition trigger_end : list Z := [tkSEMI; tkEND; tkSEMI].

(** A statement ends at its first semicolon; the definition of a trigger ends with the first
    [; END ;] after its head. *)
Inductive statement : list Z -> Prop :=
| st_plain b : tkSEMI ∉ b -> ~ (exists h b', b = h ++ b' /\ trigger_head h) -> statement (b ++ [tkSEMI])
| st_trigger h b : trigger_head h -> ~ contains trigger_end (b ++ [tkSEMI; tkEND]) ->
    statement (h ++ b ++ trigger_end).

Abbreviation solid ts := (filter (fun t => t <> tkWS) ts).

(** The tokens, blanks left out, are one statement or more. *)
Definition statements (ts : list Z) : Prop :=
  exists sts, sts <> [] /\ solid ts = concat sts /\ Forall statement sts.

(** What is to be appended, by the second byte of the result. *)
Definition missing (yy : Z) : list Z :=
  if yy =? 1 then [tkSEMI] else if yy =? 2 then [tkEND; tkSEMI] else
  if yy =? 3 then trigger_end else [].

(** ** Scanning a token *)

Lemma IdChar_0 : IdChar 0 = false.
Proof. reflexivity. Qed.

Lemma skip_to_found c b r : 0 ∉ b -> c ∉ b -> c <> 0 -> skip_to c (b ++ c :: r) = Some (c :: r).
Proof.
  intros H0 Hc Hn. induction b as [|d b IH]; cbn [app skip_to].
  - rewrite Z.eqb_refl, orb_true_r. done.
  - rewrite (proj2 (Z.eqb_neq d 0)), (proj2 (Z.eqb_neq d c)) by set_solver. apply IH; set_solver.
Qed.

Lemma skip_to_end c b r : 0 ∉ b -> c ∉ b -> skip_to c (b ++ 0 :: r) = Some (0 :: r).
Proof.
  intros H0 Hc. induction b as [|d b IH]; cbn [app skip_to]; [done|].
  rewrite (proj2 (Z.eqb_neq d 0)), (proj2 (Z.eqb_neq d c)) by set_solver. apply IH; set_solver.
Qed.

Lemma not_contains_tail u c b : ~ contains u (c :: b) -> ~ contains u b.
Proof. intros H (s1 & s2 & ->). apply H. by exists (c :: s1), s2. Qed.

Lemma not_contains_pair x y b : ~ contains [x; y] (x :: b) -> head b <> Some y.
Proof. intros H. destruct b as [|d b]; [done|]. intros [= ->]. apply H. by exists [], b. Qed.

Lemma skip_comment_found b r : 0 ∉ b -> ~ contains (text "*/") b ->
  skip_comment (b ++ 42 :: 47 :: r) = Some (42 :: 47 :: r).
Proof.
  intros H0 Hc. induction b as [|d b IH]; cbn [app skip_comment]; [done|].
  specialize (IH ltac:(set_solver) (not_contains_tail _ _ _ Hc)).
  rewrite (proj2 (Z.eqb_neq d 0)) by set_solver. destruct (Z.eqb_spec d 42) as [->|]; [|done].
  apply (not_contains_pair 42 47) in Hc. destruct b as [|e b]; [done|]. simpl in Hc |- *.
  rewrite (proj2 (Z.eqb_neq e 47)) by congruence. done.
Qed.

Lemma skip_comment_end b r : 0 ∉ b -> ~ contains (text "*/") b ->
  skip_comment (b ++ 0 :: r) = Some (0 :: r).
Proof.
  intros H0 Hc. induction b as [|d b IH]; cbn [app skip_comment]; [done|].
  specialize (IH ltac:(set_solver) (not_contains_tail _ _ _ Hc)).
  rewrite (proj2 (Z.eqb_neq d 0)) by set_solver. destruct (Z.eqb_spec d 42) as [->|]; [|done].
  apply (not_contains_pair 42 47) in Hc. destruct b as [|e b]; [done|]. simpl in Hc |- *.
  rewrite (proj2 (Z.eqb_neq e 47)) by congruence. done.
Qed.

Lemma id_length_spec n w c r : Forall (fun c => IdChar c = true) w -> IdChar c = false ->
  id_length n (w ++ c :: r) = Some (n + len w).
Proof.
  intros Hw Hc. revert n. induction Hw as [|d w Hd Hw IH]; intros n; cbn [app id_length length].
  - rewrite Hc. f_equal. lia.
  - rewrite Hd, IH. f_equal. lia.
Qed.
Lemma UpperToLower_letter c x : 97 <= x <= 122 -> UpperToLower c = x <-> c = x \/ c = x - 32.
Proof. intros Hx. unfold UpperToLower. case_cond; bool_to_prop; lia. Qed.

Lemma UpperToLower_nonzero c : c <> 0 -> UpperToLower c <> 0.
Proof. intros. unfold UpperToLower. case_cond; lia. Qed.

Lemma strnicmp_loop_exact w k r t : length w = length k -> 0 ∉ w ->
  exists d, strnicmp_loop (length k) (w ++ r) (k ++ t) = Some d /\ (d = 0 <-> lower w = lower k).
Proof.
  revert w. induction k as [|x k IH]; intros [|c w] Hl H0; try done; cbn [length app strnicmp_loop].
  - by exists 0.
  - destruct (IH w) as (d & E & Hd); [simpl in Hl; lia|set_solver|].
    rewrite (proj2 (Z.eqb_neq c 0)) by set_solver. cbn [negb andb]. unfold lower. csimpl.
    destruct (Z.eqb_spec (UpperToLower c) (UpperToLower x)) as [Ec|Ec].
    + exists d. split; [done|]. rewrite Hd, Ec. unfold lower. split; [congruence|]. by intros [= ?].
    + eexists. split; [done|]. split; [lia|]. by intros [= ?].
Qed.

(** [is_word] compares without regard to case. *)
Lemma is_word_spec w r s n :
  0 ∉ w -> n = len s -> lower s = s ->
  is_word (w ++ r) (len w) (s ++ [0]) n = Some (bool_decide (lower w = s)).
Proof.
  intros H0 -> Hs. unfold is_word. destruct (Z.eqb_spec (len w) (len s)) as [E|E].
  - cbn [sqlite3_strnicmp]. rewrite Nat2Z.id.
    destruct (strnicmp_loop_exact w s r [0]) as (d & -> & Hd); [lia|done|]. rewrite Hs in Hd.
    f_equal. apply eq_bool_prop_intro. rewrite bool_decide_spec, <- Hd, <- Z.eqb_eq.
    by destruct (d =? 0).
  - f_equal. symmetry. apply bool_decide_eq_false. intros <-. apply E. unfold lower. by rewrite length_fmap.
Qed.

(** A word that does not begin like [s] is not [s]. *)
Ltac other_letter Hh := let H := fresh in intros H; repeat destruct H as [H|H]; apply Hh in H;
  match type of H with _ = ?r => let v := eval vm_compute in r in change r with v in H end;
  injection H; lia.

Lemma keyword_spec c w r : 0 ∉ c :: w ->
  keyword ((c :: w) ++ r) c (len (c :: w)) = Some (word_token (c :: w)).
Proof.
  intros H0. unfold keyword, word_token, lit.
  rewrite !(is_word_spec (c :: w) r (text _)) by done.
  assert (Hh : forall s, lower (c :: w) = s -> Some (UpperToLower c) = head s) by (by intros s <-).
  pose proof (UpperToLower_letter c 99 ltac:(lia)) as H1. pose proof (UpperToLower_letter c 116 ltac:(lia)) as H2.
  pose proof (UpperToLower_letter c 101 ltac:(lia)) as H3.
  clear H0. revert Hh. generalize (lower (c :: w)) as x. intros x Hh.
  destruct ((c =? 99) || (c =? 67)) eqn:E1.
  { assert (UpperToLower c = 99) by lia. destruct (decide (x = text "create")) as [|Hn].
    - by rewrite bool_decide_true.
    - rewrite bool_decide_false by done. by rewrite !decide_False by (other_letter Hh). }
  rewrite (decide_False (P := x = text "create")) by (other_letter Hh).
  destruct ((c =? 116) || (c =? 84)) eqn:E2.
  { assert (UpperToLower c = 116) by lia.
    rewrite (decide_False (P := x = text "end")), (decide_False (P := x = text "explain")) by (other_letter Hh).
    destruct (decide (x = text "trigger")); [by rewrite bool_decide_true|].
    rewrite (bool_decide_false (x = text "trigger")) by done.
    repeat case_bool_decide; case_decide; tauto. }
  rewrite (decide_False (P := x = text "trigger")), (decide_False (P := _ \/ _)) by (other_letter Hh).
  destruct ((c =? 101) || (c =? 69)) eqn:E3.
  - repeat case_bool_decide; repeat case_decide; tauto.
  - by rewrite !decide_False by (other_letter Hh).
Qed.
Lemma IdChar_letter c : IdChar c = true ->
  c ∉ [59; 32; 13; 9; 10; 12; 47; 45; 91; 96; 34; 39; 40; 41].
Proof.
  intros H Hin. repeat (apply elem_of_cons in Hin as [->|Hin]; [done|]). by apply not_elem_of_nil in Hin.
Qed.

(** The ladder of tests of [scan] for a character that is not among [l]. *)
Ltac not_these c :=
  repeat match goal with
  | H : c ∉ _ :: _ |- _ => apply not_elem_of_cons in H as [? H]
  | H : c ∉ [] |- _ => clear H
  end;
  repeat match goal with
  | H : c <> ?x |- context [c =? ?x] => rewrite (proj2 (Z.eqb_neq c x) H)
  end; cbn [orb].

(** [scan] finds the token [w]. *)
Lemma scan_piece w r t k tl : piece w r t k -> 0 ∉ w -> 0 ∉ r ->
  exists c w' z, w = c :: w' /\ c <> 0 /\
    scan c (w' ++ r ++ 0 :: tl) = Some (Token t k (z :: r ++ 0 :: tl)).
Proof.
  intros Hp H0 Hr. destruct Hp as [r|c r Hc|b r Hb|b r Hb|b r Hb|q b r Hq Hb|r|r|w r Hn Hw Hh|c r Hs Hc H1 H2].
  - eexists _, _, _. split_and!; [done..|]. reflexivity.
  - exists c, [], c. split_and!; [done|set_solver|].
    repeat (apply elem_of_cons in Hc as [->|Hc]; [reflexivity|]). by apply not_elem_of_nil in Hc.
  - exists 47, (42 :: b ++ [42; 47]), 47. split_and!; [done..|]. cbn -[skip_comment]. rewrite <- app_assoc. cbn [app].
    rewrite skip_comment_found by (done || set_solver). done.
  - exists 45, (45 :: b ++ [10]), 10. split_and!; [done..|]. rewrite <- app_comm_cons, <- app_assoc.
    pose proof (skip_to_found 10 (45 :: 45 :: b) (r ++ 0 :: tl)) as Hk. cbn -[skip_to] in Hk |- *.
    rewrite Hk; [done| | |done]; set_solver.
  - exists 91, (b ++ [93]), 93. split_and!; [done..|]. rewrite <- app_assoc. cbn -[skip_to]. cbn [app].
    rewrite (skip_to_found 93 b (r ++ 0 :: tl)); [done|set_solver|done|done].
  - exists q, (b ++ [q]), q. split_and!; [done|set_solver|]. rewrite <- app_assoc. cbn [app].
    assert (Hk : skip_to q (b ++ q :: r ++ 0 :: tl) = Some (q :: r ++ 0 :: tl))
      by (apply skip_to_found; set_solver).
    assert (Hc : closed tkOTHER q (q :: r ++ 0 :: tl) = Some (Token tkOTHER 0 (q :: r ++ 0 :: tl))).
    { unfold closed. cbn [head]. rewrite (proj2 (Z.eqb_neq q 0)) by set_solver. done. }
    repeat (apply elem_of_cons in Hq as [->|Hq]; [cbn -[skip_to]; by rewrite Hk|]). by apply not_elem_of_nil in Hq.
  - eexists _, _, _. split_and!; [done..|]. reflexivity.
  - eexists _, _, _. split_and!; [done..|]. reflexivity.
  - destruct w as [|c w]; [done|]. pose proof Hw as [Hc Hw']%list.Forall_cons.
    destruct (exists_last (l := c :: w)) as (w0 & z & Ez); [done|]. exists c, w, z. split_and!; [done|set_solver|].
    assert (Hnext : exists d r', r ++ 0 :: tl = d :: r' /\ IdChar d = false).
    { destruct r as [|d r]; [by exists 0, tl|]. exists d, (r ++ 0 :: tl). split; [done|]. by apply Hh. }
    destruct Hnext as (d & r' & Er & Hd). pose proof (IdChar_letter c Hc) as Hl. unfold scan. not_these c.
    rewrite Hc, Er, id_length_spec by done.
    replace (1 + len w) with (len (c :: w)) by (simpl; lia).
    change (c :: w ++ d :: r') with ((c :: w) ++ d :: r'). rewrite keyword_spec by done.
    do 2 f_equal. rewrite Ez, <- app_assoc. cbn [app].
    replace (Z.to_nat (len (w0 ++ [z]) - 1)) with (length w0) by (rewrite length_app; simpl; lia).
    apply drop_app_length.
  - exists c, [], c. split_and!; [done|set_solver|]. cbn [app]. unfold scan, special in *. not_these c.
    destruct (Z.eqb_spec c 47) as [->|H47]; [|destruct (Z.eqb_spec c 45) as [->|H45]].
    + specialize (H1 eq_refl). destruct r as [|d r]; cbn [app head] in *; [done|].
      rewrite (proj2 (Z.eqb_neq d 42)) by congruence. done.
    + specialize (H2 eq_refl). destruct r as [|d r]; cbn [app head] in *; [done|].
      rewrite (proj2 (Z.eqb_neq d 45)) by congruence. done.
    + by rewrite Hc.
Qed.

(** [scan] gives up in something that is not closed. *)
Lemma scan_opens s p tl : opens s p -> 0 ∉ s ->
  exists c s', s = c :: s' /\ c <> 0 /\ scan c (s' ++ 0 :: tl) = Some (Unfinished p).
Proof.
  intros Ho H0. destruct Ho as [b Hb|b Hb|b Hb|q b Hq Hb].
  - exists 47, (42 :: b). split_and!; [done..|]. cbn -[skip_comment].
    rewrite skip_comment_end by (done || set_solver). done.
  - exists 45, (45 :: b). split_and!; [done..|]. 
    pose proof (skip_to_end 10 (45 :: 45 :: b) tl) as Hk. cbn -[skip_to] in Hk |- *.
    rewrite Hk; [done|set_solver|set_solver].
  - exists 91, b. split_and!; [done..|]. cbn -[skip_to]. rewrite (skip_to_end 93 b tl); [done|set_solver|done].
  - exists q, b. split_and!; [done|set_solver|].
    assert (Hk : skip_to q (b ++ 0 :: tl) = Some (0 :: tl)) by (apply skip_to_end; set_solver).
    repeat (apply elem_of_cons in Hq as [->|Hq]; [cbn -[skip_to]; by rewrite Hk|]). by apply not_elem_of_nil in Hq.
Qed.
(** ** Every text can be divided *)

Lemma comment_split b :
  (exists b1 b2, b = b1 ++ [42; 47] ++ b2 /\ ~ contains [42; 47] b1) \/ ~ contains [42; 47] b.
Proof.
  induction b as [|c b IH].
  - right. intros (s1 & s2 & E). by destruct s1.
  - destruct (decide (c = 42 /\ head b = Some 47)) as [[-> Hh]|Hn].
    + left. destruct b as [|d b]; [done|]. injection Hh as ->. exists [], b. split; [done|].
      intros (s1 & s2 & E). by destruct s1.
    + assert (Hcons : forall b', prefix b' b -> ~ contains [42; 47] b' -> ~ contains [42; 47] (c :: b')).
      { intros b' [k ->] Hb (s1 & s2 & E). destruct s1 as [|d s1]; cbn [app] in E.
        - injection E as -> ->. by apply Hn.
        - injection E as -> ->. apply Hb. by exists s1, s2. }
      destruct IH as [(b1 & b2 & -> & H1)|H1].
      * left. exists (c :: b1), b2. split; [done|]. apply Hcons; [by apply prefix_app_r|done].
      * right. by apply Hcons.
Qed.

Lemma word_split s : exists w r, s = w ++ r /\ Forall (fun c => IdChar c = true) w /\
  (forall c, head r = Some c -> IdChar c = false).
Proof.
  induction s as [|c s (w & r & -> & Hw & Hr)]; [by exists [], []|].
  destruct (IdChar c) eqn:E.
  - exists (c :: w), r. split_and!; [done| |done]. by apply list.Forall_cons.
  - exists [], (c :: (w ++ r : bytes)). split_and!; [done|constructor|]. by intros d [= <-].
Qed.

Lemma quoted_split (q : Z) (b : bytes) :
  (exists b1 b2, b = b1 ++ q :: b2 /\ q ∉ b1) \/ q ∉ b.
Proof.
  destruct (decide (q ∈ b)) as [Hin|]; [left|by right].
  apply list_elem_of_split_l in Hin as (b1 & b2 & -> & H). by exists b1, b2.
Qed.

(** A text that is not empty begins with a token or with something unfinished. *)
Lemma lexes_progress c s :
  (exists w r t k, c :: s = w ++ r /\ w <> [] /\ piece w r t k) \/ exists p, opens (c :: s) p.
Proof.
  assert (Hone : forall t k, piece [c] s t k ->
    (exists w r t k, c :: s = w ++ r /\ w <> [] /\ piece w r t k) \/ exists p, opens (c :: s) p).
  { intros t k H. left. by exists [c], s, t, k. }
  destruct (decide (space c)) as [Hsp|Hsp]; [by eapply Hone, piece_space|].
  destruct (Z.eq_dec c 59) as [->|H59]; [by eapply Hone, piece_semi|].
  destruct (Z.eq_dec c 40) as [->|H40]; [by eapply Hone, piece_open|].
  destruct (Z.eq_dec c 41) as [->|H41]; [by eapply Hone, piece_close|].
  destruct (Z.eq_dec c 91) as [->|H91].
  { destruct (quoted_split 93 s) as [(b1 & b2 & -> & H)|H]; [left|right; eexists; by apply opens_bracket].
    exists (91 :: b1 ++ [93]), b2, tkOTHER, 0. split_and!; [|done|by apply piece_bracket]. simpl. by rewrite <- app_assoc. }
  destruct (decide (c ∈ [96; 34; 39])) as [Hq|Hq].
  { destruct (quoted_split c s) as [(b1 & b2 & -> & H)|H]; [left|right; eexists; by apply opens_quote].
    exists (c :: b1 ++ [c]), b2, tkOTHER, 0. split_and!; [|done|by apply piece_quote]. simpl. by rewrite <- app_assoc. }
  destruct (decide (c = 47 /\ head s = Some 42)) as [[-> Hh]|H47].
  { destruct s as [|d s]; [done|]. injection Hh as ->.
    destruct (comment_split s) as [(b1 & b2 & -> & H)|H]; [left|right; eexists; by apply (opens_comment s)].
    exists (text "/*" ++ b1 ++ text "*/"), b2, tkWS, 0. split_and!; [|done|by apply piece_comment].
    cbn -[app]. by rewrite <- !app_assoc. }
  destruct (decide (c = 45 /\ head s = Some 45)) as [[-> Hh]|H45].
  { destruct s as [|d s]; [done|]. injection Hh as ->.
    destruct (quoted_split 10 s) as [(b1 & b2 & -> & H)|H]; [left|right; eexists; by apply (opens_line s)].
    exists (text "--" ++ b1 ++ [10]), b2, tkWS, 0. split_and!; [|done|by apply piece_line].
    cbn -[app]. by rewrite <- !app_assoc. }
  destruct (IdChar c) eqn:EI.
  - destruct (word_split (c :: s)) as (w & r & E & Hw & Hr). left. exists w, r, (word_token w), 0.
    assert (w <> []). { intros ->. simpl in E. subst r. by rewrite (Hr c eq_refl) in EI. }
    split_and!; [done..|]. by apply piece_word.
  - eapply Hone, piece_other; [|done|tauto|tauto]. unfold special, space in *. set_solver.
Qed.

Lemma lexes_exists n : exists ts d c, lexes n ts d c.
Proof.
  induction (well_founded_ltof _ (@length Z) n) as [n _ IH]. destruct n as [|c s].
  - exists [], 0, 0. constructor.
  - destruct (lexes_progress c s) as [(w & r & t & k & E & Hw & Hp)|[p Ho]].
    + destruct (IH r) as (ts & d & p & Hl).
      { unfold ltof. rewrite E, length_app. destruct w; [done|]. simpl. lia. }
      exists (t :: ts), (k + d), p. rewrite E. by eapply lexes_piece.
    + exists [], 0, p. by constructor.
Qed.

(** ** The loop follows the division *)

Definition step (state t : Z) : Z := default 0 (next_state state t).
Definition run (state : Z) (ts : list Z) : Z := foldl step state ts.

Lemma piece_range w r t k : piece w r t k -> 0 <= t <= 7 /\ -1 <= k <= 1 /\ (t = tkWS -> k = 0).
Proof.
  intros []; try (unfold tkSEMI, tkWS, tkOTHER; lia).
  unfold word_token. repeat case_decide; unfold tkCREATE, tkTRIGGER, tkTEMP, tkEND, tkEXPLAIN, tkOTHER, tkWS; lia.
Qed.

(** Case analysis on a state or a token. *)
Ltac eight x :=
  assert (x = 0 \/ x = 1 \/ x = 2 \/ x = 3 \/ x = 4 \/ x = 5 \/ x = 6 \/ x = 7) as Height by lia;
  destruct Height as [->|[->|[->|[->|[->|[->|[->| ->]]]]]]].

Lemma next_state_step q t : 0 <= q <= 7 -> 0 <= t <= 7 ->
  next_state q t = Some (step q t) /\ 0 <= step q t <= 7.
Proof. intros Hq Ht. eight q; eight t; vm_compute; done. Qed.

Lemma run_range q ts : 0 <= q <= 7 -> Forall (fun t => 0 <= t <= 7) ts -> 0 <= run q ts <= 7.
Proof.
  intros Hq Ht. revert q Hq. induction Ht as [|t ts Ht _ IH]; intros q Hq; [done|].
  apply IH. by apply next_state_step.
Qed.

Lemma lexes_range n ts d c : lexes n ts d c ->
  Forall (fun t => 0 <= t <= 7) ts /\ - len n <= d <= len n /\ (c = 0 \/ c ∈ [47; 45; 93; 96; 34; 39]) /\
  (solid ts = [] -> d = 0).
Proof.
  induction 1 as [|s c Ho|w r t k ts d c Hp Hl (H1 & H2 & H3 & H4)].
  - split_and!; [constructor|simpl; lia..|by left|done].
  - split_and!; [constructor|lia..|right|done]. destruct Ho; set_solver.
  - destruct (piece_range _ _ _ _ Hp) as (Ht & Hk & Hws). split_and!; [by apply list.Forall_cons|..|done|].
    1,2: rewrite length_app; assert (w <> []) by (by destruct Hp); destruct w; [done|]; simpl; lia.
    rewrite filter_cons. case_decide; [done|]. intros Hs. destruct (Z.eq_dec t tkWS); [|tauto]. rewrite Hws by done. apply H4 in Hs. lia.
Qed.

Lemma scan_loop_spec n ts d c tl : lexes n ts d c -> 0 ∉ n ->
  forall fuel q np, (length n < fuel)%nat -> 0 <= q <= 7 -> Z.abs np + len n < 2 ^ 31 ->
  scan_loop fuel (n ++ 0 :: tl) q np = Some (run q ts, c, np + d).
Proof.
  induction 1 as [|s c Ho|w r t k ts d c Hp Hl IH]; intros H0 fuel q np Hf Hq Hnp;
    (destruct fuel as [|fuel]; [lia|]); cbn [scan_loop].
  - simpl. by rewrite Z.add_0_r.
  - destruct (scan_opens s c tl Ho H0) as (x & s' & -> & Hx & E). cbn [app head tail].
    rewrite (proj2 (Z.eqb_neq x 0) Hx), E. simpl. by rewrite Z.add_0_r.
  - destruct (piece_range _ _ _ _ Hp) as (Ht & Hk & _).
    destruct (scan_piece w r t k tl Hp) as (x & w' & z & -> & Hx & E); [set_solver|set_solver|].
    rewrite length_app in *. simpl in Hf, Hnp. rewrite <- app_assoc. cbn [app head tail].
    rewrite (proj2 (Z.eqb_neq x 0) Hx), E.
    destruct (next_state_step q t Hq Ht) as [-> Hr]. unfold add_paren.
    rewrite (proj2 (Z.leb_le _ _)), (proj2 (Z.ltb_lt _ _)) by lia. cbn [andb].
    rewrite IH by (lia || set_solver). cbn [run foldl]. do 2 f_equal. lia.
Qed.

(** ** The automaton recognises statements *)

(** Tokens other than blanks. *)
Definition solid_token (t : Z) : Prop := 0 <= t <= 7 /\ t <> tkWS.

(** What completes the head of a trigger from a state. *)
Inductive head_from : Z -> list Z -> Prop :=
| hf_trigger : head_from 4 [tkTRIGGER]
| hf_temp h : head_from 4 h -> head_from 4 (tkTEMP :: h)
| hf_create_explain h : head_from 4 h -> head_from 3 (tkCREATE :: h)
| hf_other h : head_from 3 h -> head_from 3 (tkOTHER :: h)
| hf_create h : head_from 4 h -> head_from 1 (tkCREATE :: h)
| hf_explain h : head_from 3 h -> head_from 1 (tkEXPLAIN :: h).

Lemma head_from_4 h : head_from 4 h <-> exists temps, h = temps ++ [tkTRIGGER] /\ Forall (fun t => t = tkTEMP) temps.
Proof.
  split.
  - intros H. remember 4 as q eqn:Eq. revert Eq. induction H; intros E; try discriminate.
    + by exists [].
    + destruct IHhead_from as (temps & -> & Ht); [done|]. exists (tkTEMP :: temps). split; [done|]. by constructor.
  - intros (temps & -> & Ht). induction Ht as [|t temps -> Ht IH]; simpl; by constructor.
Qed.

Lemma head_from_3 h : head_from 3 h <-> exists others temps,
  h = others ++ tkCREATE :: temps ++ [tkTRIGGER] /\ Forall (fun t => t = tkOTHER) others /\
  Forall (fun t => t = tkTEMP) temps.
Proof.
  split.
  - intros H. remember 3 as q eqn:Eq. revert Eq. induction H; intros E; try discriminate.
    + apply head_from_4 in H as (temps & -> & Ht). exists [], temps. by split_and!.
    + destruct IHhead_from as (others & temps & -> & Ho & Ht); [done|].
      exists (tkOTHER :: others), temps. split_and!; [done|by constructor|done].
  - intros (others & temps & -> & Ho & Ht). induction Ho as [|t others -> Ho IH]; simpl; constructor; [|done].
    apply head_from_4. by exists temps.
Qed.

Lemma head_from_1 h : head_from 1 h <-> trigger_head h.
Proof.
  unfold trigger_head. split.
  - intros H. remember 1 as q eqn:Eq. revert Eq. destruct H; intros E; try discriminate.
    + apply head_from_4 in H as (temps & -> & Ht). exists [], temps. split_and!; [done..|by left].
    + apply head_from_3 in H as (others & temps & -> & Ho & Ht).
      exists (tkEXPLAIN :: others), temps. split_and!; [done..|right]. by exists others.
  - intros (pre & temps & -> & Ht & [->|(others & -> & Ho)]); simpl; constructor.
    + apply head_from_4. by exists temps.
    + apply head_from_3. by exists others, temps.
Qed.

Lemma head_from_run q h : head_from q h -> run q h = 5.
Proof. induction 1; [done|..]; exact IHhead_from. Qed.

Lemma head_from_cons q h : head_from q h -> exists t h', h = t :: h' /\ t <> tkSEMI /\
  (step q t = 5 /\ h' = [] \/ head_from (step q t) h').
Proof.
  intros []; eexists _, _; (split_and!; [done|done|]); first [left; split; reflexivity|right; assumption].
Qed.

(** No prefix of [b] completes the head of a trigger. *)
Definition headless (q : Z) (b : list Z) : Prop := ~ exists h b', b = h ++ b' /\ head_from q h.

Lemma headless_nil q : headless q [].
Proof.
  intros (h & b' & E & H). apply head_from_cons in H as (t & h' & -> & _). done.
Qed.

Lemma headless_cons q t b : headless (step q t) b -> step q t <> 5 -> headless q (t :: b).
Proof.
  intros Hb Hs (h & b' & E & H). apply head_from_cons in H as (t' & h' & -> & _ & H).
  injection E as -> ->. destruct H as [[? _]|H]; [done|]. apply Hb. by exists h', b'.
Qed.

(** A state in which a semicolon ends the statement. *)
Definition outside (q : Z) : Prop := q = 1 \/ q = 2 \/ q = 3 \/ q = 4.

(** From such a state, a token leads to another one, except the semicolon and the end of the
    head of a trigger. *)
Lemma outside_step q t : outside q -> solid_token t -> t <> tkSEMI ->
  step q t = 2 \/ step q t = 3 \/ step q t = 4 \/ (step q t = 5 /\ head_from q [t]).
Proof.
  unfold tkSEMI, solid_token, tkWS. intros Hq [Ht Hw] Hs. destruct Hq as [->|[->|[->| ->]]]; eight t; try done;
    vm_compute; auto. right; right; right. split; [done|constructor].
Qed.

Lemma head_from_step q t h : outside q -> solid_token t -> t <> tkSEMI -> step q t <> 5 ->
  head_from (step q t) h -> head_from q (t :: h).
Proof.
  unfold tkSEMI, solid_token, tkWS. intros Hq [Ht Hw] Hs H5. destruct Hq as [->|[->|[->| ->]]]; eight t; try done;
    vm_compute in H5; vm_compute (step _ _); intros H; try done; try (by inversion H); by constructor.
Qed.

(** The text read from such a state either ends a plain statement or completes a head. *)
Lemma run_outside ts q : outside q -> Forall solid_token ts -> run q ts = 1 -> (q = 1 -> ts <> []) ->
  (exists b r, ts = b ++ tkSEMI :: r /\ tkSEMI ∉ b /\ headless q b /\ run 1 r = 1) \/
  (exists h r, ts = h ++ r /\ head_from q h /\ run 5 r = 1).
Proof.
  revert q. induction ts as [|t ts IH]; intros q Hq Ht Hr Hn.
  - simpl in Hr. subst q. by destruct Hn.
  - apply list.Forall_cons in Ht as [Ht Hts]. change (run (step q t) ts = 1) in Hr.
    destruct (Z.eq_dec t tkSEMI) as [->|Hs].
    + left. exists [], ts. split_and!; [done|set_solver|apply headless_nil|].
      assert (E : step q tkSEMI = 1) by (by destruct Hq as [->|[->|[->| ->]]]). by rewrite E in Hr.
    + destruct (outside_step q t Hq Ht Hs) as [E|[E|[E|[E Hh]]]].
      4: { right. exists [t], ts. rewrite E in Hr. by split_and!. }
      all: assert (Hq' : outside (step q t)) by (unfold outside; lia);
        destruct (IH (step q t) Hq' Hts Hr ltac:(lia)) as [(b & r & -> & Hb & Hl & Hr')|(h & r & -> & Hh & Hr')].
      1,3,5: left; exists (t :: b), r; split_and!; [done|set_solver|apply headless_cons; [done|lia]|done].
      all: right; exists (t :: h), r; split_and!; [done| |done]; apply head_from_step; [done..|lia|done].
Qed.

Lemma run_headless b q : outside q -> Forall solid_token b -> tkSEMI ∉ b -> headless q b -> outside (run q b).
Proof.
  revert q. induction b as [|t b IH]; intros q Hq Ht Hs Hh; [done|].
  apply list.Forall_cons in Ht as [Ht Hb]. apply not_elem_of_cons in Hs as [Hs Hsb].
  change (outside (run (step q t) b)).
  destruct (outside_step q t Hq Ht ltac:(congruence)) as [E|[E|[E|[E H5]]]].
  4: { exfalso. apply Hh. by exists [t], b. }
  all: apply IH; [unfold outside; lia|done|done|]; intros (h & b' & -> & H); apply Hh;
    exists (t :: h), b'; (split; [done|]); apply head_from_step; [done..|congruence|lia|done].
Qed.

(** *** Inside a trigger *)

(** How the text read since the head of the trigger ends, by state. *)
Definition ends (q : Z) (a : list Z) : Prop :=
  (q = 6 /\ exists a', a = a' ++ [tkSEMI]) \/ (q = 7 /\ exists a', a = a' ++ [tkSEMI; tkEND]) \/
  (q = 5 /\ (forall a', a <> a' ++ [tkSEMI]) /\ (forall a', a <> a' ++ [tkSEMI; tkEND])).

Lemma snoc_pair_inv {A} (a b : list A) (t x y : A) : a ++ [t] = b ++ [x; y] -> a = b ++ [x] /\ t = y.
Proof.
  intros H. replace (b ++ [x; y]) with ((b ++ [x]) ++ [y]) in H by (by rewrite <- app_assoc).
  by apply app_inj_2 in H as [-> [= ->]].
Qed.

Lemma ends_nil : ends 5 [].
Proof. right; right. split_and!; [done|by intros [|]..]. Qed.

Lemma ends_step q a t : ends q a -> solid_token t -> ~ (q = 7 /\ t = tkSEMI) -> ends (step q t) (a ++ [t]).
Proof.
  intros He [Ht Hw] Hne. destruct (Z.eq_dec t tkSEMI) as [->|Hs].
  { left. destruct He as [[-> _]|[[-> _]|[-> _]]]; [|by destruct Hne|]; (split; [done|]); by exists a. }
  assert (Hns : forall a', a ++ [t] <> a' ++ [tkSEMI]) by (intros a' [_ [= ?]]%app_inj_2; done).
  destruct (Z.eq_dec t tkEND) as [->|Hd].
  - destruct He as [[-> [a' ->]]|[[-> [a' ->]]|[-> [H1 H2]]]].
    + right; left. split; [done|]. exists a'. by rewrite <- app_assoc.
    + right; right. split_and!; [done..|]. intros b [H _]%snoc_pair_inv.
      replace (a' ++ [tkSEMI; tkEND]) with ((a' ++ [tkSEMI]) ++ [tkEND]) in H by (by rewrite <- app_assoc).
      by apply app_inj_2 in H as [_ [=]].
    + right; right. split_and!; [done..|]. intros b [H _]%snoc_pair_inv. by apply (H1 b).
  - right; right. split_and!; [|done|by intros b [_ ?]%snoc_pair_inv].
    unfold tkSEMI, tkEND, tkWS in *. destruct He as [[-> _]|[[-> _]|[-> _]]]; eight t; done.
Qed.

Lemma contains_snoc u a t : contains u (a ++ [t]) -> contains u a \/ exists a', a ++ [t] = a' ++ u.
Proof.
  intros (s1 & s2 & E). destruct s2 as [|x s2 _] using rev_ind.
  - right. exists s1. by rewrite app_nil_r in E.
  - left. rewrite !app_assoc in E. apply app_inj_2 in E as [-> _]; [|done]. exists s1, s2. by rewrite app_assoc.
Qed.

Lemma contains_app_l u a b : contains u a -> contains u (a ++ b).
Proof. intros (s1 & s2 & ->). exists s1, (s2 ++ b). by rewrite <- !app_assoc. Qed.

(** Reading on without a complete [; END ;]. *)
Lemma run_inside ts a q : ends q a -> Forall solid_token ts -> ~ contains trigger_end (a ++ ts) ->
  ends (run q ts) (a ++ ts).
Proof.
  revert a q. induction ts as [|t ts IH]; intros a q He Ht Hc; [by rewrite app_nil_r|].
  apply list.Forall_cons in Ht as [Ht Hts]. replace (a ++ t :: ts) with ((a ++ [t]) ++ ts) in * by (by rewrite <- app_assoc).
  apply IH; [|done|done]. apply ends_step; [done..|]. intros [-> ->]. apply Hc, contains_app_l.
  destruct He as [[[=] _]|[[_ [a' ->]]|[[=] _]]]. exists a', []. by rewrite app_nil_r, <- app_assoc.
Qed.

(** Reading up to the end of the trigger. *)
Lemma run_to_end ts a q : ends q a -> Forall solid_token ts -> ~ contains trigger_end a -> run q ts = 1 ->
  exists b r, a ++ ts = b ++ trigger_end ++ r /\ ~ contains trigger_end (b ++ [tkSEMI; tkEND]) /\ run 1 r = 1.
Proof.
  revert a q. induction ts as [|t ts IH]; intros a q He Ht Hc Hr.
  - simpl in Hr. subst q. by destruct He as [[[=] _]|[[[=] _]|[[=] _]]].
  - apply list.Forall_cons in Ht as [Ht Hts]. change (run (step q t) ts = 1) in Hr.
    destruct (decide (q = 7 /\ t = tkSEMI)) as [[-> ->]|Hne].
    + destruct He as [[[=] _]|[[_ [a' ->]]|[[=] _]]]. exists a', ts. split_and!; [by rewrite <- app_assoc|done|done].
    + replace (a ++ t :: ts) with ((a ++ [t]) ++ ts) by (by rewrite <- app_assoc).
      eapply IH; [by apply ends_step|done| |done].
      intros [?|[a' E]]%contains_snoc; [done|]. apply Hne.
      change trigger_end with ([tkSEMI] ++ [tkEND; tkSEMI]) in E. rewrite app_assoc in E.
      apply snoc_pair_inv in E as [-> ->]. split; [|done]. rewrite <- app_assoc in *. cbn [app] in *.
      destruct He as [[-> [b E]]|[[-> _]|[-> [_ H]]]]; [|done|by destruct (H a')].
      replace (a' ++ [tkSEMI; tkEND]) with ((a' ++ [tkSEMI]) ++ [tkEND]) in E by (by rewrite <- app_assoc).
      by apply app_inj_2 in E as [_ [=]].
Qed.
(** *** Sequences of statements *)

Lemma run_app q ts1 ts2 : run q (ts1 ++ ts2) = run (run q ts1) ts2.
Proof. apply foldl_app. Qed.

Lemma headless_head b : headless 1 b <-> ~ exists h b', b = h ++ b' /\ trigger_head h.
Proof. unfold headless. by setoid_rewrite head_from_1. Qed.

Lemma statement_run st : statement st -> Forall solid_token st -> run 1 st = 1.
Proof.
  intros [b Hs Hh|h b Hh Hc] Ht.
  - apply Forall_app in Ht as [Hb _]. rewrite run_app.
    destruct (run_headless b 1) as [->|[->|[->| ->]]]; [by left|done|done|by apply headless_head|done..].
  - apply Forall_app in Ht as [_ Ht]. apply Forall_app in Ht as [Hb _].
    change trigger_end with ([tkSEMI; tkEND] ++ [tkSEMI]). rewrite run_app, app_assoc, run_app.
    rewrite (head_from_run 1 h) by (by apply head_from_1).
    assert (Hse : Forall solid_token [tkSEMI; tkEND]) by (repeat constructor; done).
    destruct (run_inside (b ++ [tkSEMI; tkEND]) [] 5 ends_nil) as [[_ [a' E]]|[[-> _]|[_ [_ H]]]]; [by apply Forall_app|done| |done|].
    + symmetry in E. cbn [app] in E. by apply snoc_pair_inv in E as [_ [=]].
    + by destruct (H b).
Qed.

Lemma run_statements ts : Forall solid_token ts -> run 1 ts = 1 ->
  exists sts, ts = concat sts /\ Forall statement sts.
Proof.
  induction (well_founded_ltof _ (@length Z) ts) as [ts _ IH]. intros Ht Hr.
  destruct (decide (ts = [])) as [->|Hn]; [by exists []|].
  assert (Hgo : forall st r, ts = st ++ r -> st <> [] -> statement st -> run 1 r = 1 ->
    exists sts, ts = concat sts /\ Forall statement sts).
  { intros st r -> Hne Hst Hr1. apply Forall_app in Ht as [_ Ht].
    destruct (IH r) as (sts & -> & Hsts); [|done|done|].
    - unfold ltof. rewrite length_app. destruct st; [done|]. simpl. lia.
    - exists (st :: sts). split; [done|]. by constructor. }
  destruct (run_outside ts 1) as [(b & r & -> & Hb & Hh & Hr1)|(h & r & -> & Hh & Hr5)]; [by left|done..| |].
  - apply (Hgo (b ++ [tkSEMI]) r); [by rewrite <- app_assoc| |constructor; [done|by apply headless_head]|done].
    by intros [_ [=]]%app_eq_nil.
  - apply Forall_app in Ht as [_ Ht].
    destruct (run_to_end r [] 5 ends_nil Ht) as (b & r' & E & Hc & Hr1); [|done|].
    { intros (s1 & s2 & E). by destruct s1. }
    cbn [app] in E. subst r. apply (Hgo (h ++ b ++ trigger_end) r'); [by rewrite <- !app_assoc| | |done].
    + intros [_ [_ [=]]%app_eq_nil]%app_eq_nil.
    + apply st_trigger; [by apply head_from_1|done].
Qed.

Lemma concat_run sts : Forall statement sts -> Forall solid_token (concat sts) -> run 1 (concat sts) = 1.
Proof.
  induction 1 as [|st sts Hst _ IH]; intros Ht; [done|]. cbn [concat] in *.
  apply Forall_app in Ht as [Ht1 Ht2]. rewrite run_app, statement_run by done. by apply IH.
Qed.

(** Blanks do not change the state, and from the first other token on the states 0 and 1
    are alike. *)
Lemma step_blank q : 0 <= q <= 7 -> step q tkWS = q.
Proof. intros. eight q; done. Qed.

Lemma run_solid q ts : 0 <= q <= 7 -> Forall (fun t => 0 <= t <= 7) ts -> run q ts = run q (solid ts).
Proof.
  intros Hq Ht. revert q Hq. induction Ht as [|t ts Ht _ IH]; intros q Hq; [done|].
  change (run (step q t) ts = run q (solid (t :: ts))). rewrite filter_cons. case_decide as Hw.
  - apply IH. by apply next_state_step.
  - destruct (Z.eq_dec t tkWS) as [->|]; [|tauto]. rewrite step_blank by done. by apply IH.
Qed.

Lemma solid_tokens ts : Forall (fun t => 0 <= t <= 7) ts -> Forall solid_token (solid ts).
Proof.
  intros Ht. apply list.Forall_forall. intros t [Hw Hin]%list_elem_of_filter.
  rewrite list.Forall_forall in Ht. split; [by apply Ht|done].
Qed.

Lemma run_started q ts : 1 <= q <= 7 -> Forall solid_token ts -> 1 <= run q ts <= 7.
Proof.
  intros Hq Ht. revert q Hq. induction Ht as [|t ts [Ht Hw] _ IH]; intros q Hq; [done|].
  apply IH. unfold tkWS in Hw. assert (Hq' : 0 <= q <= 7) by lia. eight q; eight t; try lia; vm_compute; done.
Qed.

Lemma run_0 ts : Forall solid_token ts -> ts <> [] -> run 0 ts = run 1 ts.
Proof.
  intros Ht Hn. destruct Ht as [|t ts [Ht Hw] _]; [done|]. unfold run. cbn [foldl]. f_equal.
  unfold tkWS in Hw. eight t; done.
Qed.

(** The state at the end tells which tokens were read. *)
Lemma state_empty ts : Forall (fun t => 0 <= t <= 7) ts -> run 0 ts = 0 <-> solid ts = [].
Proof.
  intros Ht. rewrite run_solid by done. pose proof (solid_tokens ts Ht) as Hs. split; [|by intros ->].
  intros H. destruct (decide (solid ts = [])) as [|Hn]; [done|]. rewrite run_0 in H by done.
  pose proof (run_started 1 (solid ts) ltac:(lia) Hs). lia.
Qed.

Lemma state_complete ts : Forall (fun t => 0 <= t <= 7) ts -> run 0 ts = 1 <-> statements ts.
Proof.
  intros Ht. pose proof (solid_tokens ts Ht) as Hs. rewrite run_solid by done. unfold statements. split.
  - intros H. destruct (decide (solid ts = [])) as [E|Hn]; [by rewrite E in H|]. rewrite run_0 in H by done.
    destruct (run_statements _ Hs H) as (sts & E & Hsts). exists sts. split_and!; [|done..]. intros ->. done.
  - intros (sts & Hn & E & Hsts). rewrite E in *. rewrite run_0.
    + by apply concat_run.
    + done.
    + destruct sts as [|st sts]; [done|]. apply list.Forall_cons in Hsts as [Hst _]. cbn [concat].
      intros [-> _]%app_eq_nil. inversion Hst as [b ? ? Eb|h b ? ? Eb].
      * by apply app_eq_nil in Eb as [_ [=]].
      * apply app_eq_nil in Eb as [_ [_ [=]]%app_eq_nil].
Qed.

(** What the second byte of the result asks for completes the text. *)
Lemma state_missing ts yy : Forall (fun t => 0 <= t <= 7) ts -> statemap !! Z.to_nat (run 0 ts) = Some yy ->
  (run 0 ts <= 1 -> yy = 0) /\ (1 < run 0 ts -> 1 <= yy <= 3 /\ statements (ts ++ missing yy)).
Proof.
  intros Ht Hy. pose proof (run_range 0 ts ltac:(lia) Ht) as Hr.
  assert (Hm : 1 < run 0 ts -> run (run 0 ts) (missing yy) = 1 /\ 1 <= yy <= 3).
  { intros Hlt. revert Hy Hr Hlt. generalize (run 0 ts). intros q Hy Hr Hlt.
    eight q; try lia; vm_compute in Hy; injection Hy as <-; by vm_compute. }
  split.
  - intros Hle. assert (run 0 ts = 0 \/ run 0 ts = 1) as [E|E] by lia; rewrite E in Hy; vm_compute in Hy; congruence.
  - intros Hlt. destruct (Hm Hlt) as [H1 H2]. split; [done|]. apply state_complete; [|by rewrite run_app].
    apply Forall_app. split; [done|]. unfold missing. repeat case_cond; repeat constructor; done.
Qed.

(** ** The result *)

Lemma i64_wrap x k : i64 (x + k * 2 ^ 64) = i64 x.
Proof.
  unfold i64. replace (x + k * 2 ^ 64 + 2 ^ 63) with (x + 2 ^ 63 + k * 2 ^ 64) by ring.
  by rewrite Z.mod_add.
Qed.

(** The fields of the result. *)
Lemma result_fields d c yy e : - 2 ^ 31 < d < 2 ^ 31 -> 0 <= c < 256 -> 0 <= yy < 256 -> 0 <= e <= 1 ->
  i64 (Z.lor (Z.lor (Z.lor (u64 (Z.shiftl (u64 d) 32)) (Z.shiftl c 16)) (Z.shiftl yy 8)) e) =
  d * 2 ^ 32 + c * 2 ^ 16 + yy * 2 ^ 8 + e.
Proof.
  intros Hd Hc Hy He.
  assert (E1 : u64 (Z.shiftl (u64 d) 32) = Z.shiftl (d mod 2 ^ 32) 32).
  { unfold u64. rewrite !Z.shiftl_mul_pow2 by lia. change (2 ^ 64) with (2 ^ 32 * 2 ^ 32).
    rewrite Z.mul_mod_distr_r by lia. f_equal. rewrite <- Znumtheory.Zmod_div_mod; [done|lia|lia|by exists (2 ^ 32)]. }
  rewrite E1. clear E1. assert (HD : 0 <= d mod 2 ^ 32 < 2 ^ 32) by (apply Z.mod_pos_bound; lia).
  rewrite lor_shiftl_add by (rewrite ?Z.shiftl_mul_pow2 by lia; lia).
  rewrite !Z.shiftl_mul_pow2 by lia.
  replace (d mod 2 ^ 32 * 2 ^ 32 + c * 2 ^ 16) with (Z.shiftl (d mod 2 ^ 32 * 2 ^ 16 + c) 16)
    by (rewrite Z.shiftl_mul_pow2 by lia; ring).
  rewrite lor_shiftl_add by lia.
  replace ((d mod 2 ^ 32 * 2 ^ 16 + c) * 2 ^ 16 + yy * 2 ^ 8) with
    (Z.shiftl ((d mod 2 ^ 32 * 2 ^ 16 + c) * 2 ^ 8 + yy) 8) by (rewrite Z.shiftl_mul_pow2 by lia; ring).
  rewrite lor_shiftl_add by lia. rewrite Z.mod_eq by lia.
  replace (((d - 2 ^ 32 * (d / 2 ^ 32)) * 2 ^ 16 + c) * 2 ^ 8 + yy) with
    ((d * 2 ^ 16 + c) * 2 ^ 8 + yy + (- (d / 2 ^ 32)) * 2 ^ 56) by ring.
  replace (((d * 2 ^ 16 + c) * 2 ^ 8 + yy + - (d / 2 ^ 32) * 2 ^ 56) * 2 ^ 8 + e) with
    (d * 2 ^ 32 + c * 2 ^ 16 + yy * 2 ^ 8 + e + - (d / 2 ^ 32) * 2 ^ 64) by ring.
  rewrite i64_wrap. apply i64_small. lia.
Qed.
(** What [sqlite3_incomplete] computes, by the state at the end. *)
Lemma incomplete_value z n ts d c : c_string z n -> len n < 2 ^ 31 -> lexes n ts d c ->
  exists yy, statemap !! Z.to_nat (run 0 ts) = Some yy /\
    sqlite3_incomplete z = Some
      (if (run 0 ts =? 0) && (c =? 0) then SQLITE_EMPTY
       else (if run 0 ts =? 1 then 0 else d) * 2 ^ 32 + c * 2 ^ 16 + yy * 2 ^ 8 +
            Z.b2z ((1 <? run 0 ts) || (c <>? 0))).
Proof.
  intros (tl & -> & Hn0)%c_string_split Hlen Hl.
  destruct (lexes_range _ _ _ _ Hl) as (Ht & Hd & Hc & _).
  pose proof (run_range 0 ts ltac:(lia) Ht) as Hr.
  assert (Hyy : exists yy, statemap !! Z.to_nat (run 0 ts) = Some yy /\ 0 <= yy < 256).
  { revert Hr. generalize (run 0 ts). intros q Hq. eight q; (eexists; split; [reflexivity|lia]). }
  destruct Hyy as (yy & Ey & Hy). exists yy. split; [done|]. unfold sqlite3_incomplete.
  assert (H0 : 0 ∉ n) by (intros Hin; rewrite list.Forall_forall in Hn0; by apply (Hn0 0)).
  rewrite (scan_loop_spec n ts d c tl Hl H0); [|rewrite length_app; simpl; lia|lia|lia].
  destruct ((run 0 ts =? 0) && (c =? 0)) eqn:E; [done|]. rewrite Ey. f_equal. rewrite Z.add_0_l.
  apply result_fields; [case_cond; lia| |done|destruct (_ || _); simpl; lia].
  destruct Hc as [->|Hc]; [lia|]. set_unfold in Hc. lia.
Qed.



End SqlComplete.
