(* ===== verification/UtilNum.v ===== *)
(** * Integers and text of src/util.c

    - rendering of a 64-bit integer as decimal text ([sqlite3Int64ToText]) in both of its
      builds, the one with hardware 64-bit division and the one without
      ([sqlite3UInt64ToText]);
    - parsing: [sqlite3Atoi64] (UTF-8 and UTF-16), [sqlite3DecOrHexToI64],
      [sqlite3GetInt32], [sqlite3Atoi], [sqlite3GetUInt32], [sqlite3HexToInt],
      [sqlite3HexToBlob];
    - overflow-checked arithmetic: the portable bodies of [sqlite3AddInt64],
      [sqlite3SubInt64], [sqlite3MulInt64], and [sqlite3AbsInt32].

    A pointer into a text is the buffer with an index; a read outside it is [None].
    A loop is given as fuel the number of rounds after which it has left the buffer. *)

From S2P Require Import Prelude UtilStr.

Definition LARGEST_INT64 : Z := 2 ^ 63 - 1.
Definition SMALLEST_INT64 : Z := - 2 ^ 63.
Definition SQLITE_U64_DIGITS : Z := 20.
Definition SQLITE_UTF8 : Z := 1.
Definition SQLITE_UTF16LE : Z := 2.
Definition SQLITE_UTF16BE : Z := 3.

(** ** Character classes ([sqlite3CtypeMap] of src/global.c) *)

Definition sqlite3Isspace (c : Z) : bool := ((9 <=? c) && (c <=? 13)) || (c =? 32).
Definition sqlite3Isdigit (c : Z) : bool := (48 <=? c) && (c <=? 57).
Definition sqlite3Isxdigit (c : Z) : bool :=
  sqlite3Isdigit c || ((65 <=? c) && (c <=? 70)) || ((97 <=? c) && (c <=? 102)).

(** ** Rendering *)

(** "00010203..99" *)
Definition sqlite3DigitPairs : bytes :=
  concat ((fun k => [48 + Z.of_nat k / 10; 48 + Z.of_nat k mod 10]) <$> seq 0 100).

(** Copy the two characters of [sqlite3DigitPairs.a[kk]] to [a[i]]. *)
Definition put_pair (a : bytes) (i kk : Z) : option bytes :=
  let? two := mem_read sqlite3DigitPairs kk 2 in mem_write a i two.

(** [while( x>=10 ){ ... }]: two digits per round. *)
Fixpoint text_pairs (fuel : nat) (x i : Z) (a : bytes) : option (Z * Z * bytes) :=
  if 10 <=? x then
    match fuel with
    | O => None
    | S fuel' =>
        let? a := put_pair a (i - 2) (Z.rem x 100 * 2) in
        text_pairs fuel' (Z.quot x 100) (i - 2) a
    end
  else Some (x, i, a).

(** The digits of [x], from index [i] downwards; the new index and buffer. *)
Definition text_digits (x i : Z) (a : bytes) : option (Z * bytes) :=
  let? (x, i, a) := text_pairs 10 x i a in
  if x <>? 0 then
    let? a := mem_put a (i - 1) (u8 (x + 48)) in Some (i - 1, a)
  else Some (i, a).

(** [while( (v>>32)!=0 ){ ... }] of the build that avoids 64-bit division. *)
Fixpoint text_octets (fuel : nat) (v i : Z) (zOut : bytes) : option (Z * Z * bytes) :=
  if Z.shiftr v 32 <>? 0 then
    match fuel with
    | O => None
    | S fuel' =>
        let x32 := u32 (Z.rem v 100000000) in
        let v := Z.quot v 100000000 in
        let y := Z.rem x32 10000 in
        let x32 := Z.quot x32 10000 in
        let x1 := Z.quot x32 100 in
        let x0 := Z.rem x32 100 in
        let y1 := Z.quot y 100 in
        let y0 := Z.rem y 100 in
        let i := i - 8 in
        let? zOut := put_pair zOut i (x1 * 2) in
        let? zOut := put_pair zOut (i + 2) (x0 * 2) in
        let? zOut := put_pair zOut (i + 4) (y1 * 2) in
        let? zOut := put_pair zOut (i + 6) (y0 * 2) in
        text_octets fuel' v i zOut
    end
  else Some (v, i, zOut).

Definition sqlite3UInt64ToText (v : Z) (zOut : bytes) : option (Z * bytes) :=
  let? zOut := mem_put zOut SQLITE_U64_DIGITS 0 in
  let? (v, i, zOut) := text_octets 3 v SQLITE_U64_DIGITS zOut in
  text_digits (u32 v) i zOut.

(** [avoid] is SQLITE_AVOID_U64_DIVIDE; [a] is the uninitialised local buffer [u.a].
    Result: the length of the text and the output buffer. *)
Definition sqlite3Int64ToText (avoid : bool) (a : bytes) (v : Z) (zOut : bytes)
  : option (Z * bytes) :=
  if v =? 0 then
    let? zOut := mem_put zOut 0 48 in
    let? zOut := mem_put zOut 1 0 in
    Some (1, zOut)
  else
    let x := if 0 <? v then v else if v =? SMALLEST_INT64 then Z.shiftl 1 63 else u64 (- v) in
    let? (i, a) :=
      (if avoid then sqlite3UInt64ToText x a
       else let? a := mem_put a SQLITE_U64_DIGITS 0 in text_digits x SQLITE_U64_DIGITS a) in
    let? (i, a) :=
      (if v <? 0 then let? a := mem_put a (i - 1) 45 in Some (i - 1, a) else Some (i, a)) in
    let sz := SQLITE_U64_DIGITS + 1 in
    let? text := mem_read a i (sz - i) in
    let? zOut := mem_write zOut 0 text in
    Some (sz - 1 - i, zOut).

(** ** Formatting (src/printf.c)

    The conversion loop [do{ *(--bufpt) = cset[longvalue%base]; longvalue /= base;
    }while( longvalue>0 )], which puts the characters in front of [acc]. *)
Fixpoint fmt_loop (fuel : nat) (base longvalue : Z) (acc : bytes) : bytes :=
  match fuel with
  | O => acc
  | S fuel' =>
      let d := longvalue mod base in
      let acc := (if d <? 10 then 48 + d else 87 + d) :: acc in
      let longvalue := longvalue / base in
      if 0 <? longvalue then fmt_loop fuel' base longvalue acc else acc
  end.

(** [%d] and [%lld]: a minus sign for a negative argument, and the digits of its
    magnitude, computed as [~v + 1]; 64 rounds empty a 64-bit value in any base. *)
Definition fmt_d (v : Z) : bytes :=
  if v <? 0 then 45 :: fmt_loop 64 10 (u64 (u64 (Z.lnot v) + 1)) [] else fmt_loop 64 10 v [].

(** [%02x] of a byte. *)
Definition fmt_02x (v : Z) : bytes :=
  let t := fmt_loop 64 16 v [] in
  if len t <? 2 then replicate (2 - length t) 48 ++ t else t.

(** ** Parsing *)

(** [while( p<zEnd && f(z[p]) ) p += incr] *)
Fixpoint skip_while (fuel : nat) (z : bytes) (zEnd incr : Z) (f : Z -> bool) (p : Z)
  : option Z :=
  if p <? zEnd then
    match fuel with
    | O => None
    | S fuel' =>
        let? c := mem_get z p in
        if f c then skip_while fuel' z zEnd incr f (p + incr) else Some p
    end
  else Some p.

(** [for(i=0; &z[p+i]<zEnd && (c=(unsigned)z[p+i]-'0')<=9; i+=incr) u = u*10 + c] *)
Fixpoint digit_loop (fuel : nat) (z : bytes) (zEnd incr p i u : Z) : option (Z * Z) :=
  if p + i <? zEnd then
    match fuel with
    | O => None
    | S fuel' =>
        let? ch := mem_get z (p + i) in
        let c := u32 (ch - 48) in
        if c <=? 9 then digit_loop fuel' z zEnd incr p (i + incr) (u64 (u * 10 + c))
        else Some (i, u)
    end
  else Some (i, u).

(** "922337203685477580" *)
Definition pow63 : bytes :=
  [57; 50; 50; 51; 51; 55; 50; 48; 51; 54; 56; 53; 52; 55; 55; 53; 56; 48].

Definition compare2pow63 (z : bytes) (p incr : Z) : option Z :=
  let? c := for_up 0 18 1 (fun i c =>
    if c =? 0 then
      let? x := mem_get z (p + i * incr) in
      let? y := mem_get pow63 i in
      Some ((x - y) * 10)
    else Some c) 0 in
  if c =? 0 then let? x := mem_get z (p + 18 * incr) in Some (x - 56)
  else Some c.

(** Return code and [*pNum]. *)
Definition sqlite3Atoi64 (z : bytes) (length enc : Z) : option (Z * Z) :=
  let fuel := S (Z.to_nat length) in
  let? (incr, nonNum, zEnd, p) :=
    (if enc =? SQLITE_UTF8 then Some (1, false, length, 0)
     else
       let length := Z.land length (Z.lnot 1) in
       let? i := skip_while fuel z length 2 (fun c => c =? 0) (3 - enc) in
       Some (2, i <? length, Z.lxor i 1, Z.land enc 1)) in
  let? p := skip_while fuel z zEnd incr sqlite3Isspace p in
  let? (neg, p) :=
    (if p <? zEnd then
       let? c := mem_get z p in
       Some (if c =? 45 then (true, p + incr)
             else if c =? 43 then (false, p + incr) else (false, p))
     else Some (false, p)) in
  let zStart := p in
  let? p := skip_while fuel z zEnd incr (fun c => c =? 48) p in
  let? (i, u) := digit_loop fuel z zEnd incr p 0 0 in
  let num := if LARGEST_INT64 <? u then (if neg : bool then SMALLEST_INT64 else LARGEST_INT64)
             else if neg then - u else u in
  let? rc :=
    (if (i =? 0) && (zStart =? p) then Some (-1)
     else if nonNum : bool then Some 1
     else if p + i <? zEnd then
       let? q := skip_while fuel z zEnd incr sqlite3Isspace (p + i) in
       Some (if q <? zEnd then 1 else 0)
     else Some 0) in
  if i <? 19 * incr then Some (rc, num) else
  let? j := (if 19 * incr <? i then Some 1 else compare2pow63 z p incr) in
  if j <? 0 then Some (rc, num) else
  let num := if neg then SMALLEST_INT64 else LARGEST_INT64 in
  if 0 <? j then Some (2, num) else Some (if neg then rc else 3, num).

Definition sqlite3HexToInt (h : Z) : Z :=
  Z.land (h + 9 * Z.land 1 (Z.shiftr h 6)) 0xf.

(** [for(k=i; sqlite3Isxdigit(z[k]); k++) u = u*16 + sqlite3HexToInt(z[k])], at most [n]
    rounds, with [u] reduced to its width by [w]. *)
Fixpoint hex_loop (n : nat) (w : Z -> Z) (z : bytes) (k u : Z) : option (Z * Z) :=
  match n with
  | O => Some (k, u)
  | S n' =>
      let? c := mem_get z k in
      if sqlite3Isxdigit c then hex_loop n' w z (k + 1) (w (u * 16 + sqlite3HexToInt c))
      else Some (k, u)
  end.

(** [strspn(z, set)] *)
Fixpoint strspn (f : Z -> bool) (z : bytes) : option Z :=
  match z with
  | [] => None
  | c :: z' => if (c <>? 0) && f c then let? n := strspn f z' in Some (n + 1) else Some 0
  end.

(** "+- \n\t0123456789" *)
Definition dec_chars (c : Z) : bool :=
  (c =? 43) || (c =? 45) || (c =? 32) || (c =? 10) || (c =? 9) || sqlite3Isdigit c.

(** [z[0]=='0' && (z[1]=='x' || z[1]=='X')] *)
Definition hex_prefix (z : bytes) : option bool :=
  let? c0 := mem_get z 0 in
  if c0 <>? 48 then Some false else
  let? c1 := mem_get z 1 in Some ((c1 =? 120) || (c1 =? 88)).

Definition sqlite3DecOrHexToI64 (z : bytes) : option (Z * Z) :=
  let? hex := hex_prefix z in
  if hex : bool then
    let? i := skip_while (length z) z (len z) 1 (fun c => c =? 48) 2 in
    let? (k, u) := hex_loop (length z) u64 z i 0 in
    let? c := mem_get z k in
    Some (if 16 <? k - i then 2 else if c <>? 0 then 1 else 0, i64 u)
  else
    let? sp := strspn dec_chars z in
    let n := Z.land 0x3fffffff sp in
    let? c := mem_get z n in
    sqlite3Atoi64 z (if c <>? 0 then n + 1 else n) SQLITE_UTF8.

(** [for(i=0; i<11 && (c = z[p+i]-'0')>=0 && c<=9; i++) v = v*10 + c] *)
Fixpoint int32_loop (n : nat) (z : bytes) (p i v : Z) : option (Z * Z) :=
  match n with
  | O => Some (i, v)
  | S n' =>
      let? ch := mem_get z (p + i) in
      if sqlite3Isdigit ch then int32_loop n' z p (i + 1) (v * 10 + (ch - 48))
      else Some (i, v)
  end.

(** The hexadecimal branch of [sqlite3GetInt32], with [p] past the 0x. *)
Definition get_hex32 (z : bytes) : option (option Z) :=
  let? p := skip_while (length z) z (len z) 1 (fun c => c =? 48) 2 in
  let? (k, u) := hex_loop 8 u32 z p 0 in
  if Z.land u 0x80000000 =? 0 then
    let? c := mem_get z k in
    Some (if negb (sqlite3Isxdigit c) then Some u else None)
  else Some None.

(** The decimal branch, from [p] on. *)
Definition get_dec32 (z : bytes) (neg : bool) (p : Z) : option (option Z) :=
  let? c := mem_get z p in
  if negb (sqlite3Isdigit c) then Some None else
  let? p := skip_while (length z) z (len z) 1 (fun c => c =? 48) p in
  let? (i, v) := int32_loop 11 z p 0 0 in
  if 10 <? i then Some None else
  if 2147483647 <? v - (if neg then 1 else 0) then Some None else
  Some (Some (i32 (if neg then - v else v))).

(** [Some v]: the function returned 1 and stored [v]; [None]: it returned 0. *)
Definition sqlite3GetInt32 (z : bytes) : option (option Z) :=
  let? c0 := mem_get z 0 in
  if c0 =? 45 then get_dec32 z true 1
  else if c0 =? 43 then get_dec32 z false 1
  else
    let? hex := hex_prefix z in
    let? hex := (if hex : bool then let? c2 := mem_get z 2 in Some (sqlite3Isxdigit c2)
                 else Some false) in
    if hex then get_hex32 z else get_dec32 z false 0.

Definition sqlite3Atoi (z : bytes) : option Z :=
  let? r := sqlite3GetInt32 z in Some (default 0 r).

(** [None] for the return value 0, after [*pI = 0]. *)
Fixpoint uint32_loop (z : bytes) (i v : Z) : option (option Z) :=
  match z with
  | [] => None
  | c :: z' =>
      if sqlite3Isdigit c then
        let v := u64 (v * 10 + c - 48) in
        if 4294967295 <? v then Some None else uint32_loop z' (i + 1) v
      else if (i =? 0) || (c <>? 0) then Some None else Some (Some (u32 v))
  end.

Definition sqlite3GetUInt32 (z : bytes) : option (option Z) := uint32_loop z 0 0.

(** [raw] is what the allocation of [n/2 + 1] bytes answers; the loop stores pairs
    [i = 0, 2, ..] below [n - 1]. *)
Definition sqlite3HexToBlob (raw : option bytes) (z : bytes) (n : Z) : option (option bytes) :=
  let n := n - 1 in
  match raw with
  | None => Some None
  | Some zBlob =>
      let? zBlob := for_up 0 n 2 (fun i b =>
        let? hi := mem_get z i in
        let? lo := mem_get z (i + 1) in
        mem_put b (Z.quot i 2)
          (u8 (Z.lor (Z.shiftl (sqlite3HexToInt hi) 4) (sqlite3HexToInt lo)))) zBlob in
      let? zBlob := mem_put zBlob (Z.quot (Z.max 0 (n + Z.rem n 2)) 2) 0 in
      Some (Some zBlob)
  end.

(** ** Arithmetic

    Return code and [*pA]; the products and sums that the code computes before it has
    excluded an overflow are kept at their width by [i64]. *)

Definition sqlite3AddInt64 (pA iB : Z) : Z * Z :=
  let iA := pA in
  if 0 <=? iB then
    if (0 <? iA) && (LARGEST_INT64 - iA <? iB) then (1, pA) else (0, i64 (pA + iB))
  else
    if (iA <? 0) && (iB + 1 <? - (iA + LARGEST_INT64)) then (1, pA) else (0, i64 (pA + iB)).

Definition sqlite3SubInt64 (pA iB : Z) : Z * Z :=
  if iB =? SMALLEST_INT64 then
    if 0 <=? pA then (1, pA) else (0, i64 (pA - iB))
  else sqlite3AddInt64 pA (i64 (- iB)).

Definition sqlite3MulInt64 (pA iB : Z) : Z * Z :=
  let iA := pA in
  let done := (0, i64 (iA * iB)) in
  if 0 <? iB then
    if Z.quot LARGEST_INT64 iB <? iA then (1, pA) else
    if iA <? Z.quot SMALLEST_INT64 iB then (1, pA) else done
  else if iB <? 0 then
    if 0 <? iA then
      if iB <? Z.quot SMALLEST_INT64 iA then (1, pA) else done
    else if iA <? 0 then
      if iB =? SMALLEST_INT64 then (1, pA) else
      if iA =? SMALLEST_INT64 then (1, pA) else
      if Z.quot LARGEST_INT64 (- iB) <? - iA then (1, pA) else done
    else done
  else done.

Definition sqlite3AbsInt32 (x : Z) : Z :=
  if 0 <=? x then x else if x =? - 2 ^ 31 then 0x7fffffff else i32 (- x).

(** ** Decimal notation *)

(** The decimal digits of [x], most significant first; [fuel] bounds their number. *)
Fixpoint dec_digits (fuel : nat) (x : Z) : bytes :=
  match fuel with
  | O => []
  | S fuel' => if x <? 10 then [x] else dec_digits fuel' (x / 10) ++ [x mod 10]
  end.

Definition dec_value (ds : bytes) : Z := fold_left (fun a d => a * 10 + d) ds 0.
Definition dec_digit (d : Z) : Prop := 0 <= d < 10.

Definition chars (ds : bytes) : bytes := (fun d => 48 + d) <$> ds.

(** The text of a 64-bit integer. *)
Definition dec_text (v : Z) : bytes :=
  (if v <? 0 then [45] else []) ++ chars (dec_digits 20 (Z.abs v)).

Lemma dec_value_snoc ds d : dec_value (ds ++ [d]) = dec_value ds * 10 + d.
Proof. unfold dec_value. by rewrite fold_left_app. Qed.

Lemma dec_digits_spec fuel x :
  0 <= x < 10 ^ Z.of_nat fuel -> (0 < fuel)%nat ->
  Forall dec_digit (dec_digits fuel x) /\ dec_value (dec_digits fuel x) = x /\
  (0 < length (dec_digits fuel x) <= fuel)%nat.
Proof.
  revert x. induction fuel as [|fuel IH]; intros x Hx Hf; [lia|]. cbn [dec_digits].
  destruct (Z.ltb_spec x 10).
  { split_and!; [repeat constructor; unfold dec_digit; lia|unfold dec_value; simpl; lia|simpl; lia..]. }
  rewrite Nat2Z.inj_succ, Z.pow_succ_r in Hx by lia.
  assert (Hq : 0 <= x / 10 < 10 ^ Z.of_nat fuel)
    by (split; [apply Z.div_pos; lia|apply Z.div_lt_upper_bound; lia]).
  assert (0 < fuel)%nat by (destruct fuel; [simpl in Hq; Z.div_mod_to_equations; lia|lia]).
  destruct (IH (x / 10) Hq ltac:(done)) as (H1 & H2 & H3).
  pose proof (Z.div_mod x 10). pose proof (Z.mod_pos_bound x 10).
  rewrite dec_value_snoc, length_app, H2. cbn [length]. split_and!; [|lia..].
  apply Forall_app. split; [done|]. repeat constructor; lia.
Qed.

(** More fuel than digits changes nothing. *)
Lemma dec_digits_fuel f1 f2 x :
  0 <= x < 10 ^ Z.of_nat f1 -> (0 < f1 <= f2)%nat -> dec_digits f2 x = dec_digits f1 x.
Proof.
  revert f2 x. induction f1 as [|f1 IH]; intros f2 x Hx Hf; [lia|].
  destruct f2 as [|f2]; [lia|]. cbn [dec_digits]. case_cond; [done|].
  rewrite Nat2Z.inj_succ, Z.pow_succ_r in Hx by lia.
  assert (Hq : 0 <= x / 10 < 10 ^ Z.of_nat f1)
    by (split; [apply Z.div_pos; lia|apply Z.div_lt_upper_bound; lia]).
  assert (0 < f1)%nat by (destruct f1; [simpl in Hq; Z.div_mod_to_equations; lia|lia]).
  f_equal. apply IH; [done|lia].
Qed.

(** The last two digits. *)
Lemma dec_digits_pair fuel x : 100 <= x ->
  dec_digits (S (S fuel)) x = dec_digits fuel (x / 100) ++ [(x mod 100) / 10; (x mod 100) mod 10].
Proof.
  intros Hx. cbn [dec_digits]. rewrite !(proj2 (Z.ltb_ge _ _)); try lia.
  2:{ apply Z.div_le_lower_bound; lia. }
  rewrite <- app_assoc. rewrite Z.div_div by lia. f_equal. cbn [app].
  f_equal; [|f_equal]; Z.div_mod_to_equations; lia.
Qed.

Lemma digit_pair k : 0 <= k < 100 ->
  mem_read sqlite3DigitPairs (k * 2) 2 = Some [48 + k / 10; 48 + k mod 10].
Proof.
  intros Hk. assert (H : forallb (fun j => bool_decide
    (mem_read sqlite3DigitPairs (j * 2) 2 = Some [48 + j / 10; 48 + j mod 10]))
    (Z.of_nat <$> seq 0 100) = true) by (vm_compute; done).
  rewrite forallb_forall in H. specialize (H k). apply bool_decide_eq_true in H; [done|].
  apply list_elem_of_In, list_elem_of_fmap. exists (Z.to_nat k).
  split; [lia|]. apply elem_of_seq. lia.
Qed.

(** [%d] prints decimal notation. *)
Lemma fmt_loop_digits fuel x acc : 0 <= x < 10 ^ Z.of_nat fuel -> (0 < fuel)%nat ->
  fmt_loop fuel 10 x acc = chars (dec_digits fuel x) ++ acc.
Proof.
  revert x acc. induction fuel as [|fuel IH]; intros x acc Hx Hf; [lia|].
  cbn [fmt_loop dec_digits]. pose proof (Z.mod_pos_bound x 10 ltac:(lia)).
  rewrite (proj2 (Z.ltb_lt (x mod 10) 10)) by lia. destruct (Z.ltb_spec x 10).
  - rewrite Z.div_small, Z.mod_small by lia. done.
  - assert (1 <= x / 10) by (apply Z.div_le_lower_bound; lia).
    rewrite (proj2 (Z.ltb_lt 0 (x / 10))) by lia.
    rewrite Nat2Z.inj_succ, Z.pow_succ_r in Hx by lia.
    assert (x / 10 < 10 ^ Z.of_nat fuel) by (apply Z.div_lt_upper_bound; lia).
    assert (0 < fuel)%nat by (destruct fuel; [simpl in *; lia|lia]).
    rewrite IH by lia. unfold chars. rewrite fmap_app, <- app_assoc. done.
Qed.

Lemma fmt_d_text v : is_i64 v -> fmt_d v = dec_text v.
Proof.
  unfold is_i64. intros Hv. unfold fmt_d, dec_text.
  destruct (Z.ltb_spec v 0).
  - unfold u64. rewrite Zplus_mod_idemp_l. unfold Z.lnot.
    replace (Z.pred (- v) + 1) with (- v) by lia. rewrite Z.mod_small, Z.abs_neq by lia.
    rewrite fmt_loop_digits, app_nil_r, (dec_digits_fuel 20 64) by lia. done.
  - rewrite Z.abs_eq by lia.
    rewrite fmt_loop_digits, app_nil_r, (dec_digits_fuel 20 64) by lia. done.
Qed.

(** A buffer filled from the back: [t] stands from index [i] on. *)
Definition back_filled (n : nat) (i : Z) (t a : bytes) : Prop :=
  length a = n /\ 0 <= i /\ i + len t = Z.of_nat n /\ drop (Z.to_nat i) a = t.

Lemma back_fill n i t a src : back_filled n i t a -> len src <= i ->
  exists a', mem_write a (i - len src) src = Some a' /\
             back_filled n (i - len src) (src ++ t) a'.
Proof.
  intros (Hl & Hi & Ht & Hd) Hs. rewrite mem_write_total by lia. eexists. split; [done|].
  assert (E : (Z.to_nat (i - len src) + length src)%nat = Z.to_nat i) by lia.
  rewrite E. split_and!.
  - rewrite !length_app, length_take, length_drop. lia.
  - lia.
  - rewrite length_app. lia.
  - rewrite drop_app_length' by (rewrite length_take; lia). by rewrite Hd.
Qed.

Lemma put_pair_fill n i t a k : back_filled n i t a -> 2 <= i -> 0 <= k < 100 ->
  exists a', put_pair a (i - 2) (k * 2) = Some a' /\
             back_filled n (i - 2) ([48 + k / 10; 48 + k mod 10] ++ t) a'.
Proof.
  intros Hb Hi Hk. unfold put_pair. rewrite digit_pair by done.
  apply (back_fill n i t a [_; _] Hb). simpl. lia.
Qed.

Lemma mem_put_write b i v : mem_put b i v = mem_write b i [v].
Proof.
  unfold mem_put, mem_write. simpl length.
  replace (i + Z.of_nat 1 <=? len b) with (i <? len b)
    by (destruct (Z.ltb_spec i (len b)), (Z.leb_spec (i + Z.of_nat 1) (len b)); lia).
  case_cond; [|done]. f_equal. rewrite insert_take_drop by lia.
  rewrite Nat.add_1_r. done.
Qed.

Lemma put_char_fill n i t a v : back_filled n i t a -> 1 <= i ->
  exists a', mem_put a (i - 1) v = Some a' /\ back_filled n (i - 1) (v :: t) a'.
Proof.
  intros Hb Hi. rewrite mem_put_write. apply (back_fill n i t a [v] Hb). simpl. lia.
Qed.

Lemma chars_app a b : chars (a ++ b) = chars a ++ chars b.
Proof. apply fmap_app. Qed.

(** The pair loop leaves the most significant digit, or zero if there is none left. *)
Definition lead (x : Z) : bytes := if x =? 0 then [] else [x].

Lemma text_pairs_spec n fuel x i t a :
  0 < x < 10 ^ Z.of_nat (2 * fuel + 1) -> back_filled n i t a ->
  len (dec_digits (2 * fuel + 1) x) <= i ->
  exists x' i' a' rest, text_pairs fuel x i a = Some (x', i', a') /\ 0 <= x' < 10 /\
    dec_digits (2 * fuel + 1) x = lead x' ++ rest /\ back_filled n i' (chars rest ++ t) a'.
Proof.
  revert x i t a. induction fuel as [|fuel IH]; intros x i t a Hx Hb Hi; cbn [text_pairs].
  { simpl in Hx. rewrite (proj2 (Z.leb_gt 10 x)) by lia.
    exists x, i, a, []. split_and!; [done|lia|lia| |done].
    unfold lead. cbn. rewrite (proj2 (Z.ltb_lt x 10)), (proj2 (Z.eqb_neq x 0)) by lia. done. }
  replace (2 * S fuel + 1)%nat with (S (S (2 * fuel + 1))) in * by lia.
  destruct (Z.leb_spec 10 x).
  2:{ exists x, i, a, []. split_and!; [done|lia|lia| |done].
      unfold lead. cbn [dec_digits].
      rewrite (proj2 (Z.ltb_lt x 10)), (proj2 (Z.eqb_neq x 0)) by lia. done. }
  rewrite Z.rem_mod_nonneg, Z.quot_div_nonneg by lia.
  pose proof (Z.mod_pos_bound x 100 ltac:(lia)).
  destruct (Z.lt_ge_cases x 100) as [Hs|Hs].
  - assert (Ed : dec_digits (S (S (2 * fuel + 1))) x = [x mod 100 / 10; (x mod 100) mod 10]).
    { cbn [dec_digits]. rewrite (proj2 (Z.ltb_ge x 10)) by lia.
      rewrite (proj2 (Z.ltb_lt (x / 10) 10)) by (apply Z.div_lt_upper_bound; lia).
      by rewrite (Z.mod_small x 100) by lia. }
    rewrite Ed in *. cbn [length] in Hi.
    destruct (put_pair_fill n i t a (x mod 100) Hb ltac:(lia) ltac:(lia)) as (a1 & E1 & Hb1).
    rewrite E1, (Z.div_small x 100) by lia.
    exists 0, (i - 2), a1, [x mod 100 / 10; (x mod 100) mod 10].
    split_and!; [|lia|lia|done|done]. by destruct fuel.
  - rewrite dec_digits_pair in Hi |- * by lia. rewrite length_app in Hi. cbn [length] in Hi.
    destruct (put_pair_fill n i t a (x mod 100) Hb ltac:(lia) ltac:(lia)) as (a1 & E1 & Hb1).
    rewrite E1.
    assert (0 < x / 100 < 10 ^ Z.of_nat (2 * fuel + 1)).
    { split; [apply Z.div_str_pos; lia|]. apply Z.div_lt_upper_bound; [lia|].
      rewrite !Nat2Z.inj_succ, !Z.pow_succ_r in Hx by lia. lia. }
    destruct (IH (x / 100) (i - 2) _ a1 ltac:(done) Hb1 ltac:(lia))
      as (x' & i' & a' & rest & E & Hx' & Hr & Hb').
    exists x', i', a', (rest ++ [x mod 100 / 10; (x mod 100) mod 10]).
    split_and!; [done|lia|lia|by rewrite Hr, app_assoc|].
    rewrite chars_app, <- app_assoc. done.
Qed.

Lemma text_digits_spec n x i t a :
  0 < x < 2 ^ 64 -> back_filled n i t a -> len (dec_digits 20 x) <= i ->
  exists i' a', text_digits x i a = Some (i', a') /\
    back_filled n i' (chars (dec_digits 20 x) ++ t) a'.
Proof.
  intros Hx Hb Hi. rewrite <- (dec_digits_fuel 20 21) in Hi |- *; [|lia..].
  destruct (text_pairs_spec n 10 x i t a ltac:(simpl; lia) Hb Hi)
    as (x' & i' & a' & rest & E & Hx' & Hr & Hb').
  unfold text_digits. rewrite E. change (2 * 10 + 1)%nat with 21%nat in *. rewrite Hr in *.
  unfold lead in *. case_cond; bool_to_prop; [|subst x'; by exists i', a'].
  rewrite (proj2 (Z.eqb_neq x' 0)) in * by lia. pose proof Hb as (? & ? & ? & _).
  pose proof Hb' as (? & ? & Hlen & _). rewrite !length_app in Hlen, Hi.
  unfold chars in Hlen. rewrite length_fmap in Hlen. cbn [length] in Hi.
  destruct (put_char_fill n i' _ a' (u8 (x' + 48)) Hb' ltac:(lia)) as (a'' & -> & Hb'').
  do 2 eexists. split; [done|]. rewrite u8_small, Z.add_comm in Hb'' by lia. done.
Qed.

(** Eight digits per round. *)
Lemma dec_digits_octet fuel v :
  10 ^ 8 <= v ->
  dec_digits (8 + fuel) v = dec_digits fuel (v / 100000000) ++
    [v mod 100000000 / 10000 / 100 / 10; v mod 100000000 / 10000 / 100 mod 10;
     (v mod 100000000 / 10000) mod 100 / 10; ((v mod 100000000 / 10000) mod 100) mod 10;
     (v mod 100000000) mod 10000 / 100 / 10; (v mod 100000000) mod 10000 / 100 mod 10;
     ((v mod 100000000) mod 10000) mod 100 / 10; (((v mod 100000000) mod 10000) mod 100) mod 10].
Proof.
  intros Hv. change (8 + fuel)%nat with (S (S (S (S (S (S (S (S fuel)))))))).
  rewrite dec_digits_pair by lia.
  rewrite dec_digits_pair by (Z.div_mod_to_equations; lia).
  rewrite dec_digits_pair by (Z.div_mod_to_equations; lia).
  rewrite dec_digits_pair by (Z.div_mod_to_equations; lia).
  assert (v / 100 / 100 / 100 / 100 = v / 100000000) as -> by (by rewrite !Z.div_div by lia).
  assert ((v / 100 / 100 / 100) mod 100 = v mod 100000000 / 10000 / 100) as ->
    by (Z.div_mod_to_equations; lia).
  assert ((v / 100 / 100) mod 100 = (v mod 100000000 / 10000) mod 100) as ->
    by (Z.div_mod_to_equations; lia).
  assert ((v / 100) mod 100 = (v mod 100000000) mod 10000 / 100) as ->
    by (Z.div_mod_to_equations; lia).
  assert (v mod 100 = ((v mod 100000000) mod 10000) mod 100) as ->
    by (Z.div_mod_to_equations; lia).
  rewrite <- !app_assoc. done.
Qed.

(** Two writes to adjacent ranges are one. *)
Lemma mem_write_app a o s1 s2 a' :
  mem_write a o (s1 ++ s2) = Some a' ->
  exists a1, mem_write a o s1 = Some a1 /\ mem_write a1 (o + len s1) s2 = Some a'.
Proof.
  intros (H1 & H2 & ->)%mem_write_Some. rewrite length_app in H2.
  rewrite mem_write_total by lia. eexists. split; [done|].
  apply mem_write_Some. rewrite !length_app, length_take, length_drop. split_and!; [lia..|].
  assert (E : Z.to_nat (o + len s1) = length (take (Z.to_nat o) a ++ s1))
    by (rewrite length_app, length_take; lia).
  rewrite (app_assoc (take _ _) s1), take_app_length' by done.
  rewrite drop_app_ge, drop_drop by lia. rewrite <- !app_assoc. do 4 f_equal.
  rewrite length_app, length_take in *. lia.
Qed.

Lemma octet_fill n i t a k1 k2 k3 k4 : back_filled n i t a -> 8 <= i ->
  0 <= k1 < 100 -> 0 <= k2 < 100 -> 0 <= k3 < 100 -> 0 <= k4 < 100 ->
  exists a1 a2 a3 a4, put_pair a (i - 8) (k1 * 2) = Some a1 /\
    put_pair a1 (i - 8 + 2) (k2 * 2) = Some a2 /\
    put_pair a2 (i - 8 + 4) (k3 * 2) = Some a3 /\
    put_pair a3 (i - 8 + 6) (k4 * 2) = Some a4 /\
    back_filled n (i - 8) (chars [k1 / 10; k1 mod 10; k2 / 10; k2 mod 10;
                                  k3 / 10; k3 mod 10; k4 / 10; k4 mod 10] ++ t) a4.
Proof.
  intros Hb Hi H1 H2 H3 H4. unfold put_pair. rewrite !digit_pair by done.
  destruct (back_fill n i t a (chars [k1 / 10; k1 mod 10; k2 / 10; k2 mod 10;
    k3 / 10; k3 mod 10; k4 / 10; k4 mod 10]) Hb ltac:(simpl; lia)) as (a4 & E & Hb').
  change (len (chars _)) with 8 in E, Hb'.
  apply (mem_write_app a (i - 8) [_; _]) in E as (a1 & E1 & E).
  apply (mem_write_app a1 _ [_; _]) in E as (a2 & E2 & E).
  apply (mem_write_app a2 _ [_; _]) in E as (a3 & E3 & E4).
  cbn [length] in E2, E3, E4. change (Z.of_nat 2) with 2 in *.
  replace (i - 8 + 2 + 2) with (i - 8 + 4) in * by lia.
  replace (i - 8 + 4 + 2) with (i - 8 + 6) in * by lia.
  exists a1, a2, a3, a4. split_and!; try done; apply Hb'.
Qed.

Lemma text_octets_spec n fuel v i t a :
  0 < v < 2 ^ 64 -> v < 2 ^ 32 * 10 ^ (8 * Z.of_nat fuel) -> back_filled n i t a ->
  len (dec_digits 20 v) <= i ->
  exists v' i' a' rest, text_octets fuel v i a = Some (v', i', a') /\ 0 < v' < 2 ^ 32 /\
    dec_digits 20 v = dec_digits 20 v' ++ rest /\ back_filled n i' (chars rest ++ t) a'.
Proof.
  revert v i t a. induction fuel as [|fuel IH]; intros v i t a Hv Hf Hb Hi; cbn [text_octets];
    rewrite Z.shiftr_div_pow2 by lia.
  { rewrite Z.div_small by lia. exists v, i, a, []. split_and!; [done|lia|lia|by rewrite app_nil_r|done]. }
  destruct (Z.lt_ge_cases v (2 ^ 32)) as [Hs|Hs].
  { rewrite Z.div_small by lia. exists v, i, a, []. split_and!; [done|lia|lia|by rewrite app_nil_r|done]. }
  assert (1 <= v / 2 ^ 32) by (apply Z.div_le_lower_bound; lia).
  rewrite (proj2 (Z.eqb_neq (v / 2 ^ 32) 0)) by lia. cbn [negb].
  assert (Hq : 0 < v / 100000000 < 10 ^ Z.of_nat 12).
  { split; [apply Z.div_str_pos; lia|apply Z.div_lt_upper_bound; lia]. }
  change (dec_digits 20 v) with (dec_digits (8 + 12) v) in *.
  rewrite (dec_digits_octet 12 v), <- (dec_digits_fuel 12 20 (v / 100000000)) in Hi |- * by lia.
  rewrite length_app in Hi. cbn [length] in Hi.
  pose proof (Z.mod_pos_bound v 100000000 ltac:(lia)) as Hw.
  rewrite (Z.rem_mod_nonneg v), (Z.quot_div_nonneg v), u32_small by lia.
  set (w := v mod 100000000) in *. cbv zeta.
  rewrite (Z.rem_mod_nonneg w), (Z.quot_div_nonneg w) by lia.
  assert (0 <= w / 10000 < 10000) by (split; [apply Z.div_pos|apply Z.div_lt_upper_bound]; lia).
  pose proof (Z.mod_pos_bound w 10000 ltac:(lia)).
  rewrite !Z.rem_mod_nonneg, !Z.quot_div_nonneg by lia.
  destruct (octet_fill n i t a (w / 10000 / 100) ((w / 10000) mod 100) (w mod 10000 / 100)
    ((w mod 10000) mod 100) Hb) as (a1 & a2 & a3 & a4 & -> & -> & -> & -> & Hb');
    [lia|split; [apply Z.div_pos|apply Z.div_lt_upper_bound]; lia|apply Z.mod_pos_bound; lia
    |split; [apply Z.div_pos|apply Z.div_lt_upper_bound]; lia|apply Z.mod_pos_bound; lia|].
  assert (Hf' : v / 100000000 < 2 ^ 32 * 10 ^ (8 * Z.of_nat fuel)).
  { apply Z.div_lt_upper_bound; [lia|]. rewrite Nat2Z.inj_succ in Hf.
    replace (8 * Z.succ (Z.of_nat fuel)) with (8 + 8 * Z.of_nat fuel) in Hf by lia.
    rewrite Z.pow_add_r in Hf by lia. lia. }
  destruct (IH (v / 100000000) (i - 8) _ a4 ltac:(lia) Hf' Hb' ltac:(lia))
    as (v' & i' & a' & rest & E & Hv' & Hr & Hb'').
  exists v', i', a'. eexists. split; [exact E|]. split; [done|]. rewrite Hr, <- app_assoc.
  split; [done|]. rewrite chars_app, <- app_assoc. exact Hb''.
Qed.

Lemma text_len x : 0 <= x < 2 ^ 64 -> 0 < len (dec_digits 20 x) <= 20.
Proof. intros Hx. destruct (dec_digits_spec 20 x) as (_ & _ & H); lia. Qed.

Lemma text_len_63 x : 0 <= x <= 2 ^ 63 -> len (dec_digits 20 x) <= 19.
Proof.
  intros Hx. rewrite (dec_digits_fuel 19 20) by lia.
  destruct (dec_digits_spec 19 x) as (_ & _ & H); lia.
Qed.

(** Both renderings of an unsigned value put its digits and a terminator at the end of the
    buffer. *)
Lemma UInt64ToText_spec (avoid : bool) x a :
  0 < x < 2 ^ 64 -> length a = 21%nat ->
  exists i a',
    (if avoid then sqlite3UInt64ToText x a
     else let? a := mem_put a SQLITE_U64_DIGITS 0 in text_digits x SQLITE_U64_DIGITS a) =
    Some (i, a') /\ back_filled 21 i (chars (dec_digits 20 x) ++ [0]) a'.
Proof.
  intros Hx Ha. unfold SQLITE_U64_DIGITS. pose proof (text_len x ltac:(lia)) as Hl.
  assert (Hb : back_filled 21 21 [] a).
  { split_and!; [done|lia|simpl; lia|]. rewrite drop_ge; [done|lia]. }
  destruct (put_char_fill 21 21 [] a 0 Hb ltac:(lia)) as (a1 & E1 & Hb1).
  change (21 - 1) with 20 in *. unfold sqlite3UInt64ToText, SQLITE_U64_DIGITS. rewrite E1.
  destruct avoid; [|by apply text_digits_spec; try lia].
  destruct (text_octets_spec 21 3 x 20 [0] a1 ltac:(lia) ltac:(simpl; lia) Hb1 ltac:(lia))
    as (v' & i' & a' & rest & -> & Hv' & Hr & Hb').
  rewrite u32_small by lia. pose proof Hb' as (_ & _ & Hn & _).
  assert (len (dec_digits 20 x) = len (dec_digits 20 v') + len rest)
    by (rewrite Hr, length_app; lia).
  unfold chars in Hn. rewrite length_app, length_fmap in Hn. cbn [length] in Hn.
  destruct (text_digits_spec 21 v' i' _ a' ltac:(lia) Hb' ltac:(lia)) as (i2 & a2 & E & Hb2).
  exists i2, a2. split; [done|]. by rewrite Hr, chars_app, <- app_assoc.
Qed.

(** [sqlite3Int64ToText] writes the decimal text and its terminator. *)
Lemma Int64ToText_spec avoid a v zOut :
  is_i64 v -> length a = 21%nat -> (21 <= length zOut)%nat ->
  sqlite3Int64ToText avoid a v zOut =
  Some (len (dec_text v), dec_text v ++ [0] ++ drop (S (length (dec_text v))) zOut).
Proof.
  unfold is_i64. intros Hv Ha Hz. unfold sqlite3Int64ToText, SMALLEST_INT64.
  destruct (Z.eqb_spec v 0) as [->|Hnz].
  { destruct zOut as [|z0 [|z1 zOut]]; [simpl in Hz; lia..|].
    rewrite (mem_put_nat _ 0) by (simpl; lia). cbn [insert list_insert].
    by rewrite (mem_put_nat _ 1) by (simpl; lia). }
  set (x := if 0 <? v then v else if v =? - 2 ^ 63 then Z.shiftl 1 63 else u64 (- v)).
  assert (x = Z.abs v) as ->.
  { unfold x. destruct (Z.ltb_spec 0 v); [lia|]. destruct (Z.eqb_spec v (- 2 ^ 63)) as [->|];
      [done|]. rewrite u64_small; lia. }
  destruct (UInt64ToText_spec avoid (Z.abs v) a) as (i & a' & -> & Hb); [lia|done|].
  unfold dec_text. pose proof (text_len_63 (Z.abs v) ltac:(lia)) as Hlen.
  pose proof (text_len (Z.abs v) ltac:(lia)) as Hlen'. unfold SQLITE_U64_DIGITS.
  assert (Hfin : forall i a t, back_filled 21 i (t ++ [0]) a ->
    (let? text := mem_read a i (20 + 1 - i) in
     let? zOut := mem_write zOut 0 text in Some (20 + 1 - 1 - i, zOut)) =
    Some (len t, t ++ [0] ++ drop (S (length t)) zOut)).
  { intros j b t (Hb1 & Hb2 & Hb3 & Hb4). rewrite length_app in Hb3. cbn [length] in Hb3.
    rewrite mem_read_total by lia. rewrite Hb4, take_ge by (rewrite length_app; simpl; lia).
    rewrite mem_write_total by (rewrite ?length_app; simpl; lia). cbn [Z.to_nat take app].
    f_equal. f_equal; [lia|]. rewrite length_app, Nat.add_1_r, <- app_assoc. done. }
  pose proof Hb as (_ & _ & Hn & _). rewrite length_app in Hn. unfold chars in Hn.
  rewrite length_fmap in Hn. cbn [length] in Hn.
  destruct (Z.ltb_spec v 0).
  - destruct (put_char_fill 21 i _ a' 45 Hb ltac:(lia)) as (a2 & -> & Hb2).
    apply (Hfin _ _ (45 :: chars (dec_digits 20 (Z.abs v)))), Hb2.
  - apply (Hfin _ _ (chars (dec_digits 20 (Z.abs v)))), Hb.
Qed.

(** ** What the parsers read *)

(** The text from index [p] on. *)
Definition text_at (z : bytes) (p : Z) (l : bytes) : Prop :=
  0 <= p /\ drop (Z.to_nat p) z = l.

Lemma text_at_get z p c l : text_at z p (c :: l) -> mem_get z p = Some c.
Proof.
  intros [Hp Hd]. unfold mem_get. rewrite (proj2 (Z.leb_le 0 p)) by lia.
  rewrite <- (Nat.add_0_r (Z.to_nat p)), <- lookup_drop, Hd. done.
Qed.

Lemma text_at_app z p s l : text_at z p (s ++ l) -> text_at z (p + len s) l.
Proof.
  intros [Hp Hd]. split; [lia|]. rewrite Z2Nat.inj_add, Nat2Z.id, <- drop_drop, Hd by lia.
  apply drop_app_length.
Qed.

(** A run of characters ends: at the end of the text, or at one that is not in the class. *)
Definition run_ends (f : Z -> bool) (t : bytes) : Prop :=
  match t with [] => True | c :: _ => f c = false end.

Lemma skip_while_spec fuel z f p s t rest zEnd :
  text_at z p (s ++ t ++ rest) -> zEnd = p + len s + len t ->
  Forall (fun c => f c = true) s -> run_ends f t -> (length s < fuel)%nat ->
  skip_while fuel z zEnd 1 f p = Some (p + len s).
Proof.
  revert p s. induction fuel as [|fuel IH]; intros p s Ht Hz Hs Hr Hf; [lia|].
  cbn [skip_while]. destruct s as [|c s].
  - rewrite Z.add_0_r. destruct t as [|c t]; cbn [length] in Hz.
    + by rewrite (proj2 (Z.ltb_ge _ _)) by lia.
    + rewrite (proj2 (Z.ltb_lt _ _)) by lia.
      rewrite (text_at_get _ _ _ _ Ht), Hr. done.
  - apply Forall_cons_1 in Hs as [Hc Hs]. cbn [length] in *.
    rewrite (proj2 (Z.ltb_lt _ _)) by lia. rewrite (text_at_get _ _ _ _ Ht), Hc.
    rewrite (IH (p + 1) s); [f_equal; lia| |lia|done..|lia].
    by apply (text_at_app z p [c]).
Qed.

(** ** The parsers stay inside a terminated string *)

(** Index [p] points into a string of [z], at or before its terminator. *)
Definition in_string (z : bytes) (p : Z) : Prop :=
  exists m t, text_at z p (m ++ 0 :: t) /\ Forall (fun c => c <> 0) m.

Lemma in_string_get z p : in_string z p ->
  exists c, mem_get z p = Some c /\ (c <> 0 -> in_string z (p + 1)).
Proof.
  intros (m & t & Ht & Hm). destruct Hm as [|c m Hc Hm].
  - exists 0. split; [by eapply text_at_get|done].
  - exists c. split; [by eapply text_at_get|]. intros _. exists m, t.
    split; [|done]. by apply (text_at_app z p [c]).
Qed.

Lemma in_string_skip fuel z p f : in_string z p -> f 0 = false -> (length z <= fuel + Z.to_nat p)%nat ->
  exists q, skip_while fuel z (len z) 1 f p = Some q /\ in_string z q.
Proof.
  revert p. induction fuel as [|fuel IH]; intros p Hs Hf Hl.
  - destruct Hs as (m & t & [Hp Hd] & _). assert (length (drop (Z.to_nat p) z) = 0%nat) as E
      by (rewrite length_drop; lia). rewrite Hd, length_app in E. simpl in E. lia.
  - cbn [skip_while]. pose proof Hs as (m & t & [Hp Hd] & _).
    assert (p < len z).
    { assert (0 < length (drop (Z.to_nat p) z))%nat by (rewrite Hd, length_app; simpl; lia).
      rewrite length_drop in *. lia. }
    rewrite (proj2 (Z.ltb_lt p (len z))) by done.
    destruct (in_string_get z p Hs) as (c & -> & Hn). destruct (f c) eqn:Ef; [|by exists p].
    apply IH; [apply Hn; congruence|done|lia].
Qed.

Lemma in_string_hex n w z k u : in_string z k ->
  exists k' u', hex_loop n w z k u = Some (k', u') /\ in_string z k'.
Proof.
  revert k u. induction n as [|n IH]; intros k u Hs; [by exists k, u|]. cbn [hex_loop].
  destruct (in_string_get z k Hs) as (c & -> & Hn). destruct (sqlite3Isxdigit c) eqn:Ef;
    [|by exists k, u]. apply IH, Hn. intros ->. discriminate.
Qed.

Lemma in_string_int32 n z p i v : in_string z (p + i) ->
  exists i' v', int32_loop n z p i v = Some (i', v').
Proof.
  revert i v. induction n as [|n IH]; intros i v Hs; [by exists i, v|]. cbn [int32_loop].
  destruct (in_string_get z (p + i) Hs) as (c & -> & Hn). destruct (sqlite3Isdigit c) eqn:Ef;
    [|by exists i, v]. apply IH. rewrite Z.add_assoc. apply Hn. intros ->. discriminate.
Qed.

Lemma get_dec32_total z neg p : in_string z p -> exists r, get_dec32 z neg p = Some r.
Proof.
  intros Hs. unfold get_dec32. destruct (in_string_get z p Hs) as (c & -> & _).
  destruct (negb _); [eauto|].
  destruct (in_string_skip (length z) z p (fun c => c =? 48) Hs eq_refl ltac:(lia))
    as (q & -> & Hq).
  destruct (in_string_int32 11 z q 0 0) as (i & v & ->); [by rewrite Z.add_0_r|].
  repeat case_cond; eauto.
Qed.

Lemma hex_prefix_total z : in_string z 0 ->
  exists b, hex_prefix z = Some b /\ (b = true -> in_string z 2).
Proof.
  intros Hs. unfold hex_prefix. destruct (in_string_get z 0 Hs) as (c & -> & Hn).
  destruct (Z.eqb_spec c 48) as [->|]; cbn [negb]; [|by exists false].
  destruct (in_string_get z 1) as (c1 & -> & Hn1); [by apply Hn|].
  eexists. split; [done|]. intros Hx. apply Hn1. intros ->. discriminate.
Qed.

(** [sqlite3Atoi] on any terminated string. *)
Lemma sqlite3Atoi_total z : in_string z 0 -> exists v, sqlite3Atoi z = Some v.
Proof.
  intros Hs. unfold sqlite3Atoi, sqlite3GetInt32.
  assert (Hd : forall neg p, in_string z p ->
    exists v, (let? r := get_dec32 z neg p in Some (default 0 r)) = Some v).
  { intros neg p Hp. destruct (get_dec32_total z neg p Hp) as (r & ->). eauto. }
  destruct (in_string_get z 0 Hs) as (c & -> & Hn).
  destruct (Z.eqb_spec c 45) as [->|]; [by apply Hd, Hn|].
  destruct (Z.eqb_spec c 43) as [->|]; [by apply Hd, Hn|].
  destruct (hex_prefix_total z Hs) as ([] & -> & Hx); [|by apply Hd].
  specialize (Hx eq_refl). destruct (in_string_get z 2 Hx) as (c2 & -> & _).
  destruct (sqlite3Isxdigit c2); [|by apply Hd]. unfold get_hex32.
  destruct (in_string_skip (length z) z 2 (fun c => c =? 48) Hx eq_refl ltac:(lia)) as (q & -> & Hq).
  destruct (in_string_hex 8 u32 z q 0 Hq) as (k & u & -> & Hk).
  case_cond; [|eauto]. destruct (in_string_get z k Hk) as (c3 & -> & _). eauto.
Qed.

Definition is_dec_char (c : Z) : bool := u32 (c - 48) <=? 9.

Lemma is_dec_char_digit c : is_byte c -> is_dec_char c = sqlite3Isdigit c.
Proof.
  intros Hc. revert c Hc. assert (H : forall c, is_byte c ->
    Bool.eqb (is_dec_char c) (sqlite3Isdigit c) = true)
    by (apply byte_forall; vm_compute; done).
  intros c Hc. by apply Bool.eqb_prop, H.
Qed.

Lemma dec_fold_u64 ds u :
  fold_left (fun a d => u64 (a * 10 + d)) ds (u64 u) =
  u64 (fold_left (fun a d => a * 10 + d) ds u).
Proof.
  revert u. induction ds as [|d ds IH]; intros u; [done|]. cbn [fold_left].
  rewrite <- IH. f_equal. unfold u64.
  rewrite Z.add_mod, Z.mul_mod_idemp_l, <- Z.add_mod by lia. done.
Qed.

Lemma digit_loop_spec fuel z p i u ds t rest zEnd :
  text_at z (p + i) (chars ds ++ t ++ rest) -> zEnd = p + i + len ds + len t ->
  Forall dec_digit ds -> run_ends is_dec_char t -> (length ds < fuel)%nat ->
  digit_loop fuel z zEnd 1 p i u =
  Some (i + len ds, fold_left (fun a d => u64 (a * 10 + d)) ds u).
Proof.
  revert i u ds. induction fuel as [|fuel IH]; intros i u ds Ht Hz Hds Hr Hf; [lia|].
  cbn [digit_loop]. destruct ds as [|d ds]; cbn [length fold_left] in *.
  - rewrite Z.add_0_r. destruct t as [|c t]; cbn [length] in Hz.
    + by rewrite (proj2 (Z.ltb_ge _ _)) by lia.
    + rewrite (proj2 (Z.ltb_lt _ _)) by lia.
      rewrite (text_at_get _ _ _ _ Ht). fold (is_dec_char c). by rewrite Hr.
  - apply Forall_cons_1 in Hds as [Hd Hds]. unfold dec_digit in Hd.
    rewrite (proj2 (Z.ltb_lt _ _)) by lia. rewrite (text_at_get _ _ _ _ Ht).
    replace (48 + d - 48) with d by lia. rewrite u32_small by lia.
    rewrite (proj2 (Z.leb_le d 9)) by lia.
    rewrite (IH (i + 1) _ ds); [f_equal; f_equal; lia| |lia|done..|lia].
    rewrite Z.add_assoc. by apply (text_at_app z (p + i) [48 + d]).
Qed.

Lemma dec_value_bound ds : Forall dec_digit ds -> 0 <= dec_value ds < 10 ^ len ds.
Proof.
  induction ds as [|d ds IH] using rev_ind; intros Hd; [unfold dec_value; simpl; lia|].
  apply Forall_app in Hd as [Hd [Hx _]%Forall_cons_1]. specialize (IH Hd).
  rewrite dec_value_snoc, length_app, Nat.add_1_r, Nat2Z.inj_succ, Z.pow_succ_r by lia.
  unfold dec_digit in Hx. lia.
Qed.

Lemma dec_value_app a b : dec_value (a ++ b) = dec_value a * 10 ^ len b + dec_value b.
Proof.
  induction b as [|x b IH] using rev_ind; [unfold dec_value at 3; rewrite app_nil_r; simpl; lia|].
  rewrite app_assoc, !dec_value_snoc, IH, length_app, Nat.add_1_r, Nat2Z.inj_succ,
    Z.pow_succ_r by lia. lia.
Qed.

Lemma dec_value_lead d ds : Forall dec_digit (d :: ds) -> d <> 0 -> 10 ^ len ds <= dec_value (d :: ds).
Proof.
  intros [Hd Hds]%Forall_cons_1 Hz. pose proof (dec_value_bound ds Hds).
  change (d :: ds) with ([d] ++ ds). rewrite dec_value_app. unfold dec_digit in Hd.
  assert (0 < 10 ^ len ds) by (apply Z.pow_pos_nonneg; lia).
  unfold dec_value at 1. simpl. nia.
Qed.

(** The digits of 2^63. *)
Definition pow63_digits : bytes :=
  [9; 2; 2; 3; 3; 7; 2; 0; 3; 6; 8; 5; 4; 7; 7; 5; 8; 0; 8].

(** [c] tells how two numbers compare. *)
Definition sign_of (c a b : Z) : Prop := (c < 0 <-> a < b) /\ (c = 0 <-> a = b).

Lemma sign_step c a b x y : sign_of c a b -> dec_digit x -> dec_digit y ->
  sign_of (if c =? 0 then (x - y) * 10 else c) (a * 10 + x) (b * 10 + y).
Proof. unfold sign_of, dec_digit. intros. destruct (Z.eqb_spec c 0); lia. Qed.

Lemma take_value l k x : l !! k = Some x -> dec_value (take (S k) l) = dec_value (take k l) * 10 + x.
Proof. intros H. by rewrite (take_S_r _ _ _ H), dec_value_snoc. Qed.

Lemma pow63_lookup k y : pow63_digits !! k = Some y -> (k < 18)%nat ->
  mem_get pow63 (Z.of_nat k) = Some (48 + y) /\ dec_digit y.
Proof.
  intros Hy Hk. rewrite mem_get_nat. revert Hy. unfold dec_digit.
  do 18 (destruct k as [|k]; [intros [= <-]; split; [reflexivity|lia]|]). lia.
Qed.

Lemma text_at_nth z p ds l k d : text_at z p (chars ds ++ l) -> ds !! k = Some d ->
  mem_get z (p + Z.of_nat k) = Some (48 + d).
Proof.
  intros Ht Hd. apply list_elem_of_split_length in Hd as (l1 & l2 & -> & ->).
  rewrite chars_app in Ht. rewrite <- app_assoc in Ht. apply text_at_app in Ht.
  unfold chars in Ht at 1. rewrite length_fmap in Ht. cbn [fmap list_fmap chars] in Ht.
  by eapply text_at_get.
Qed.

Lemma compare2pow63_spec z p ds l : text_at z p (chars ds ++ l) -> Forall dec_digit ds ->
  length ds = 19%nat -> exists c, compare2pow63 z p 1 = Some c /\ sign_of c (dec_value ds) (2 ^ 63).
Proof.
  intros Ht Hds Hl. unfold compare2pow63. rewrite for_up_1.
  change (Z.to_nat (18 - 0)) with 18%nat.
  match goal with |- context [for_n 18 0 1 ?body 0] =>
    destruct (for_n_ind (fun k c => sign_of c (dec_value (take k ds))
      (dec_value (take k pow63_digits))) 18 0 1 body 0) as (c & -> & Hc) end.
  - unfold sign_of, dec_value. simpl. lia.
  - intros k c Hk Hc. rewrite Z.add_0_l.
    destruct (lookup_lt_is_Some_2 ds k ltac:(lia)) as [x Hx].
    destruct (lookup_lt_is_Some_2 pow63_digits k ltac:(simpl; lia)) as [y Hy].
    pose proof (pow63_lookup k y Hy Hk) as [Ey Hdy].
    assert (Hdx : dec_digit x) by (eapply Forall_lookup_1; eauto).
    rewrite (take_value _ _ _ Hx), (take_value _ _ _ Hy).
    pose proof (sign_step c _ _ x y Hc Hdx Hdy) as Hs.
    rewrite !Z.mul_1_r, (text_at_nth z p ds l k x Ht Hx), Ey.
    replace (48 + x - (48 + y)) with (x - y) by lia.
    destruct (c =? 0); eexists; split; done.
  - destruct (lookup_lt_is_Some_2 ds 18 ltac:(lia)) as [x Hx].
    assert (Hdx : dec_digit x) by (eapply Forall_lookup_1; eauto).
    assert (E : dec_value ds = dec_value (take 18 ds) * 10 + x)
      by (rewrite <- (take_value _ _ _ Hx), take_ge; [done|lia]).
    change (dec_value (take 18 pow63_digits)) with 922337203685477580 in Hc.
    change (18 * 1) with (Z.of_nat 18). rewrite (text_at_nth z p ds l 18 x Ht Hx), E.
    unfold sign_of, dec_digit in *. destruct (Z.eqb_spec c 0); eexists; (split; [done|]); lia.
Qed.

Lemma split_zeros (ds : bytes) : exists k ds', ds = replicate k 0 ++ ds' /\
  match ds' with [] => True | d :: _ => d <> 0 end.
Proof.
  induction ds as [|d ds (k & ds' & -> & H)]; [by exists 0%nat, []|].
  destruct (decide (d = 0)) as [->|Hd]; [by exists (S k), ds'|].
  exists 0%nat, (d :: replicate k 0 ++ ds'). done.
Qed.

Lemma dec_value_zeros k ds : dec_value (replicate k 0 ++ ds) = dec_value ds.
Proof. induction k as [|k IH]; [done|]. rewrite <- IH. done. Qed.

(** The sign of a number in text. *)
Inductive sign_text : bytes -> bool -> Prop :=
| sign_none : sign_text [] false
| sign_plus : sign_text [43] false
| sign_minus : sign_text [45] true.

(** The answer for the number [n], negated if [neg]: values that do not fit are clamped. *)
Definition atoi64_answer (neg : bool) (n : Z) (extra : bool) : Z * Z :=
  let v := if neg then - n else n in
  if v <? SMALLEST_INT64 then (2, SMALLEST_INT64)
  else if v =? 2 ^ 63 then (3, LARGEST_INT64)
  else if LARGEST_INT64 <? v then (2, LARGEST_INT64)
  else (if extra then 1 else 0, v).

(** The end of [sqlite3Atoi64], after the digits [ds] without leading zeros at [p]. *)
Lemma atoi64_finish z p ds l neg (rc : Z) (extra : bool) :
  text_at z p (chars ds ++ l) -> Forall dec_digit ds ->
  match ds with [] => True | d :: _ => d <> 0 end -> rc = (if extra then 1 else 0) ->
  (let u := u64 (dec_value ds) in
   let num := if LARGEST_INT64 <? u then (if neg : bool then SMALLEST_INT64 else LARGEST_INT64)
              else if neg then - u else u in
   if len ds <? 19 * 1 then Some (rc, num) else
   let? j := (if 19 * 1 <? len ds then Some 1 else compare2pow63 z p 1) in
   if j <? 0 then Some (rc, num) else
   let num := if neg then SMALLEST_INT64 else LARGEST_INT64 in
   if 0 <? j then Some (2, num) else Some (if neg then rc else 3, num)) =
  Some (atoi64_answer neg (dec_value ds) extra).
Proof.
  intros Ht Hds Hz ->. pose proof (dec_value_bound ds Hds) as Hb.
  unfold atoi64_answer, LARGEST_INT64, SMALLEST_INT64. cbv zeta.
  assert (Hsmall : 0 <= dec_value ds < 2 ^ 63 -> forall rc : Z,
    Some (rc, if 2 ^ 63 - 1 <? u64 (dec_value ds) then if neg then - 2 ^ 63 else 2 ^ 63 - 1
              else if neg then - u64 (dec_value ds) else u64 (dec_value ds)) =
    Some (if (if neg then - dec_value ds else dec_value ds) <? - 2 ^ 63 then (2, - 2 ^ 63)
     else if (if neg then - dec_value ds else dec_value ds) =? 2 ^ 63 then (3, 2 ^ 63 - 1)
     else if 2 ^ 63 - 1 <? (if neg then - dec_value ds else dec_value ds) then (2, 2 ^ 63 - 1)
     else (rc, if neg then - dec_value ds else dec_value ds))).
  { intros H rc. rewrite u64_small by lia. rewrite (proj2 (Z.ltb_ge (2 ^ 63 - 1) _)) by lia.
    destruct neg; rewrite (proj2 (Z.ltb_ge _ (- 2 ^ 63))), (proj2 (Z.eqb_neq _ (2 ^ 63))),
      (proj2 (Z.ltb_ge (2 ^ 63 - 1) _)) by lia; done. }
  destruct (Z.ltb_spec (len ds) (19 * 1)).
  { apply Hsmall. assert (10 ^ len ds <= 10 ^ 18) by (apply Z.pow_le_mono_r; lia). lia. }
  destruct (Z.ltb_spec (19 * 1) (len ds)).
  - destruct ds as [|d ds]; [simpl in *; lia|]. pose proof (dec_value_lead d ds Hds Hz).
    assert (10 ^ 19 <= 10 ^ len ds) by (apply Z.pow_le_mono_r; simpl length in *; lia).
    change (1 <? 0) with false. change (0 <? 1) with true. cbn iota.
    destruct neg; [rewrite (proj2 (Z.ltb_lt _ (- 2 ^ 63))) by lia; done|].
    rewrite (proj2 (Z.ltb_ge _ (- 2 ^ 63))), (proj2 (Z.eqb_neq _ (2 ^ 63))),
      (proj2 (Z.ltb_lt (2 ^ 63 - 1) _)) by lia. done.
  - destruct (compare2pow63_spec z p ds l Ht Hds ltac:(lia)) as (c & -> & H1 & H2).
    destruct (Z.ltb_spec c 0); [apply Hsmall; lia|].
    destruct (Z.ltb_spec 0 c).
    + destruct neg; [rewrite (proj2 (Z.ltb_lt _ (- 2 ^ 63))) by lia; done|].
      rewrite (proj2 (Z.ltb_ge _ (- 2 ^ 63))), (proj2 (Z.eqb_neq _ (2 ^ 63))),
        (proj2 (Z.ltb_lt (2 ^ 63 - 1) _)) by lia. done.
    + assert (dec_value ds = 2 ^ 63) as -> by lia. by destruct neg.
Qed.

Lemma chars_zeros k : chars (replicate k 0) = replicate k 48.
Proof. unfold chars. by rewrite fmap_replicate. Qed.

Lemma chars_length ds : length (chars ds) = length ds.
Proof. apply length_fmap. Qed.

Lemma chars_not_space ds : Forall dec_digit ds -> run_ends sqlite3Isspace (chars ds).
Proof.
  intros H. destruct H as [|d ds Hd]; [done|]. cbn. unfold sqlite3Isspace, dec_digit in *.
  apply orb_false_iff. split; [apply andb_false_iff; right; lia|lia].
Qed.

Lemma chars_no_zero (d : Z) ds t : d <> 0 -> run_ends (fun c => c =? 48) (chars (d :: ds) ++ t).
Proof. intros Hd. cbn. apply Z.eqb_neq. lia. Qed.

Lemma split_run f (l : bytes) : exists s t, l = s ++ t /\ Forall (fun c => f c = true) s /\
  run_ends f t /\ forallb f l = (match t with [] => true | _ => false end).
Proof.
  induction l as [|c l (s & t & -> & Hs & Ht & Hf)]; [by exists [], []|].
  destruct (f c) eqn:E.
  - exists (c :: s), t. split_and!; [done|by constructor|done|]. simpl. by rewrite E.
  - exists [], (c :: s ++ t). split_and!; [done|constructor|done|]. simpl. by rewrite E.
Qed.

(** The sign, at [p]; a digit or nothing else follows. *)
Lemma atoi64_sign z p n sgn neg ds l : sign_text sgn neg -> Forall dec_digit ds ->
  ds <> [] -> text_at z p (sgn ++ chars ds ++ l) -> p + len sgn < n ->
  (if p <? n then
     let? c := mem_get z p in
     Some (if c =? 45 then (true, p + 1)
           else if c =? 43 then (false, p + 1) else (false, p))
   else Some (false, p)) = Some (neg, p + len sgn).
Proof.
  intros Hsg Hds Hne Ht Hn. rewrite (proj2 (Z.ltb_lt _ _)) by lia. destruct Hsg.
  - destruct Hds as [|d ds Hd]; [done|]. rewrite (text_at_get _ _ _ _ Ht).
    unfold dec_digit in Hd. rewrite !(proj2 (Z.eqb_neq _ _)) by lia.
    simpl. by rewrite Z.add_0_r.
  - by rewrite (text_at_get _ _ _ _ Ht).
  - by rewrite (text_at_get _ _ _ _ Ht).
Qed.

(** The test of what follows the digits, at [q]. *)
Lemma atoi64_trailing fuel z q n tail rest : text_at z q (tail ++ rest) -> n = q + len tail ->
  (length tail < fuel)%nat ->
  (if q <? n then
     let? q := skip_while fuel z n 1 sqlite3Isspace q in Some (if q <? n then 1 else 0)
   else Some 0) = Some (if negb (forallb sqlite3Isspace tail) then 1 else 0).
Proof.
  intros Ht Hn Hf. destruct (split_run sqlite3Isspace tail) as (s & t & -> & Hs & He & ->).
  rewrite <- app_assoc in Ht. rewrite length_app in Hn, Hf.
  destruct (Z.ltb_spec q n).
  - rewrite (skip_while_spec fuel z _ _ s t rest n) by (done || lia).
    destruct t; simpl length in Hn; [rewrite (proj2 (Z.ltb_ge _ _)) by lia
                |rewrite (proj2 (Z.ltb_lt _ _)) by lia]; done.
  - destruct t; [done|]. simpl length in Hn. lia.
Qed.

(** What [sqlite3Atoi64] answers on a text with a number. *)
Lemma Atoi64_spec ws sgn neg ds tail rest :
  Forall (fun c => sqlite3Isspace c = true) ws -> sign_text sgn neg ->
  Forall dec_digit ds -> ds <> [] -> run_ends is_dec_char tail ->
  let text := ws ++ sgn ++ chars ds ++ tail in
  sqlite3Atoi64 (text ++ rest) (len text) SQLITE_UTF8 =
  Some (atoi64_answer neg (dec_value ds) (negb (forallb sqlite3Isspace tail))).
Proof.
  intros Hws Hsg Hds Hne Htl text. unfold sqlite3Atoi64.
  change (SQLITE_UTF8 =? SQLITE_UTF8) with true. cbn iota beta.
  set (z := text ++ rest). set (n := len text). set (fuel := S (Z.to_nat n)).
  assert (Hn : n = len ws + len sgn + len ds + len tail)
    by (unfold n, text; rewrite !length_app, chars_length; lia).
  assert (T0 : text_at z 0 (ws ++ (sgn ++ chars ds ++ tail) ++ rest)).
  { split; [lia|]. unfold z, text. rewrite drop_0, <- !app_assoc. done. }
  rewrite (skip_while_spec fuel z _ 0 ws (sgn ++ chars ds ++ tail) rest n); [|done| |done| |lia].
  2:{ rewrite !length_app, chars_length. lia. }
  2:{ destruct Hsg; [|done..]. destruct Hds as [|d ds Hd]; [done|].
      apply (chars_not_space [d]). by constructor. }
  apply text_at_app in T0. rewrite Z.add_0_l in *. rewrite <- !app_assoc in T0.
  rewrite (atoi64_sign z _ n sgn neg ds _ Hsg Hds Hne T0) by (destruct ds; simpl in *; done || lia).
  apply text_at_app in T0. set (p1 := len ws + len sgn) in *.
  destruct (split_zeros ds) as (k & ds' & -> & Hz). rewrite dec_value_zeros.
  rewrite length_app, length_replicate in Hn. rewrite chars_app, chars_zeros in T0.
  rewrite <- !app_assoc in T0. apply Forall_app in Hds as [_ Hds].
  rewrite (skip_while_spec fuel z _ p1 (replicate k 48) (chars ds' ++ tail) rest n);
    [|rewrite <- app_assoc; exact T0| | | |rewrite length_replicate; lia].
  2:{ rewrite length_app, length_replicate, chars_length. lia. }
  2:{ apply Forall_replicate. done. }
  2:{ destruct ds'; [|by apply chars_no_zero]. destruct tail as [|c t]; [done|].
      apply Z.eqb_neq. intros ->. discriminate Htl. }
  apply text_at_app in T0. rewrite length_replicate in *.
  set (p2 := p1 + Z.of_nat k) in *.
  rewrite (digit_loop_spec fuel z p2 0 0 ds' tail rest n);
    [|by rewrite Z.add_0_r|lia|done..|lia].
  pose proof (dec_fold_u64 ds' 0) as E. change (u64 0) with 0 in E.
  fold (dec_value ds') in E. rewrite E, Z.add_0_l. clear E.
  replace ((len ds' =? 0) && (p1 =? p2)) with false.
  2:{ symmetry. apply andb_false_iff. destruct ds'; [right|left; simpl; lia].
      apply Z.eqb_neq. destruct k; [done|]. lia. }
  pose proof (text_at_app _ _ _ _ T0) as T1. rewrite chars_length in T1.
  rewrite (atoi64_trailing fuel z _ n tail rest T1) by lia.
  eapply atoi64_finish; [exact T0|done..].
Qed.

(** Comparison with a quotient, without dividing. *)
Lemma div_ltb n b x : 0 < b -> (n / b <? x) = (n <? x * b).
Proof.
  intros Hb. pose proof (Z.div_mod n b ltac:(lia)). pose proof (Z.mod_pos_bound n b Hb).
  destruct (Z.ltb_spec (n / b) x), (Z.ltb_spec n (x * b)); try done; exfalso; nia.
Qed.

Lemma MulInt64_spec a b : is_i64 a -> is_i64 b ->
  sqlite3MulInt64 a b = (if decide (is_i64 (a * b)) then (0, a * b) else (1, a)).
Proof.
  unfold is_i64. intros Ha Hb. unfold sqlite3MulInt64, LARGEST_INT64, SMALLEST_INT64.
  assert (Hs : forall x, 0 < x -> Z.quot (- 2 ^ 63) x = - (2 ^ 63 / x)).
  { intros x Hx. rewrite Z.quot_opp_l, Z.quot_div_nonneg by lia. done. }
  assert (Hneg : forall x y, 0 < x -> (y <? - (2 ^ 63 / x)) = (y * x <? - 2 ^ 63)).
  { intros x y Hx. pose proof (div_ltb (2 ^ 63) x (- y) Hx) as E.
    destruct (Z.ltb_spec (2 ^ 63 / x) (- y)), (Z.ltb_spec (2 ^ 63) (- y * x));
      try done; [rewrite !(proj2 (Z.ltb_lt _ _)) by lia|rewrite !(proj2 (Z.ltb_ge _ _)) by lia];
      done. }
  destruct (Z.ltb_spec 0 b).
  { rewrite Hs, Z.quot_div_nonneg, div_ltb, Hneg by lia.
    repeat case_cond; case_decide; rewrite ?i64_small by lia; try done; lia. }
  destruct (Z.ltb_spec b 0).
  2:{ assert (b = 0) as -> by lia. rewrite Z.mul_0_r. case_decide; [done|lia]. }
  destruct (Z.ltb_spec 0 a).
  { rewrite Hs, Hneg, (Z.mul_comm b a) by lia.
    case_cond; case_decide; rewrite ?i64_small by lia; try done; nia. }
  destruct (Z.ltb_spec a 0).
  2:{ assert (a = 0) as -> by lia. case_decide; [done|lia]. }
  destruct (Z.eqb_spec b (- 2 ^ 63)) as [->|]; [case_decide; [nia|done]|].
  destruct (Z.eqb_spec a (- 2 ^ 63)) as [->|]; [case_decide; [nia|done]|].
  rewrite Z.quot_div_nonneg, div_ltb, Z.mul_opp_opp by lia.
  case_cond; case_decide; rewrite ?i64_small by lia; try done; nia.
Qed.

(** ** Properties *)

(** A 64-bit integer rendered by [sqlite3Int64ToText], in either build, is its decimal
    text with a terminator, in at most 21 bytes of the output buffer, and [sqlite3Atoi64]
    reads that text back as the same integer. *)
Theorem int64_text_roundtrip avoid a v zOut :
  is_i64 v -> length a = 21%nat -> (21 <= length zOut)%nat ->
  exists n zOut', sqlite3Int64ToText avoid a v zOut = Some (n, zOut') /\
    0 < n <= 20 /\ zOut' = dec_text v ++ [0] ++ drop (Z.to_nat (n + 1)) zOut /\
    sqlite3Atoi64 zOut' n SQLITE_UTF8 = Some (0, v).
Proof.
  intros Hv Ha Hz. rewrite Int64ToText_spec by done. do 2 eexists. split; [done|].
  unfold is_i64 in Hv. destruct (dec_digits_spec 20 (Z.abs v)) as (Hd & Hval & Hl); [lia..|].
  pose proof (text_len_63 (Z.abs v) ltac:(lia)) as Hlen.
  assert (El : length (dec_text v) =
    (length (if (v <? 0)%Z then [45%Z] else []) + length (dec_digits 20 (Z.abs v)))%nat)
    by (unfold dec_text; rewrite length_app, chars_length; done).
  split; [destruct (v <? 0); cbn [length] in El; lia|].
  split; [replace (Z.to_nat (len (dec_text v) + 1)) with (S (length (dec_text v))) by lia;
          reflexivity|].
  pose proof (Atoi64_spec [] (if v <? 0 then [45] else []) (v <? 0) (dec_digits 20 (Z.abs v)) []
    ([0] ++ drop (S (length (dec_text v))) zOut)) as E.
  cbn [app] in E. rewrite app_nil_r in E. fold (dec_text v) in E. cbn [app]. rewrite E.
  - rewrite Hval. unfold atoi64_answer, SMALLEST_INT64, LARGEST_INT64. cbn [forallb negb].
    destruct (Z.ltb_spec v 0); rewrite ?Z.abs_neq, ?Z.abs_eq, ?Z.opp_involutive by lia;
      rewrite (proj2 (Z.ltb_ge v (- 2 ^ 63))), (proj2 (Z.eqb_neq v (2 ^ 63))),
      (proj2 (Z.ltb_ge (2 ^ 63 - 1) v)) by lia; done.
  - constructor.
  - destruct (v <? 0); constructor.
  - done.
  - intros E0. rewrite E0 in Hl. simpl in Hl. lia.
  - done.
Qed.

(** [sqlite3Atoi64] on any text that holds a number, after spaces and a sign and with
    any number of leading zeros and digits: it returns 0, or 1 when text that is not space
    follows, with the exact value when that fits in 64 bits; otherwise it returns 2 (3 for
    2^63 exactly) with the value clamped to the nearest 64-bit integer. *)
Theorem atoi64_correct ws sgn neg ds tail rest :
  Forall (fun c => sqlite3Isspace c = true) ws -> sign_text sgn neg ->
  Forall dec_digit ds -> ds <> [] -> run_ends is_dec_char tail ->
  let text := ws ++ sgn ++ chars ds ++ tail in
  let v := if neg then - dec_value ds else dec_value ds in
  sqlite3Atoi64 (text ++ rest) (len text) SQLITE_UTF8 =
  Some (if decide (is_i64 v) then (if forallb sqlite3Isspace tail then 0 else 1, v)
        else (if decide (v = 2 ^ 63) then 3 else 2, Z.max (- 2 ^ 63) (Z.min (2 ^ 63 - 1) v))).
Proof.
  intros Hws Hsg Hds Hne Htl text v. unfold text. rewrite (Atoi64_spec ws sgn neg) by done.
  unfold atoi64_answer, SMALLEST_INT64, LARGEST_INT64. fold v.
  unfold is_i64. f_equal. repeat case_decide; repeat case_cond; try lia; try done.
  all: try (f_equal; lia).
Qed.

(** The overflow-checked operations are exact: they return 0 with the mathematical
    result when it fits in 64 bits, and otherwise return 1 and leave the operand alone. *)
Theorem int64_arith_exact a b : is_i64 a -> is_i64 b ->
  let checked r := if decide (is_i64 r) then (0, r) else (1, a) in
  sqlite3AddInt64 a b = checked (a + b) /\ sqlite3SubInt64 a b = checked (a - b) /\
  sqlite3MulInt64 a b = checked (a * b).
Proof.
  intros Ha Hb checked. unfold is_i64 in Ha, Hb.
  assert (Hadd : forall b, - 2 ^ 63 <= b < 2 ^ 63 -> sqlite3AddInt64 a b = checked (a + b)).
  { intros c Hc. unfold sqlite3AddInt64, checked, is_i64, LARGEST_INT64.
    repeat case_cond; case_decide; rewrite ?i64_small by lia; try done; exfalso.
    all: try lia.
    all: match goal with H : _ && _ = false |- _ => apply andb_false_iff in H as [?|?] end;
      bool_to_prop; lia. }
  split_and!; [by apply Hadd| |].
  - unfold sqlite3SubInt64, SMALLEST_INT64. case_cond.
    + subst b. unfold checked, is_i64. case_cond; case_decide; rewrite ?i64_small by lia; try done; lia.
    + rewrite i64_small by lia. rewrite Hadd by lia. done.
  - by apply MulInt64_spec.
Qed.

(** ** Witnesses *)

Lemma int64_text_roundtrip_witness :
  exists n zOut', sqlite3Int64ToText true (replicate 21 9) (- 2 ^ 63) (replicate 25 1) =
    Some (n, zOut') /\ sqlite3Atoi64 zOut' n SQLITE_UTF8 = Some (0, - 2 ^ 63).
Proof.
  destruct (int64_text_roundtrip true (replicate 21 9) (- 2 ^ 63) (replicate 25 1))
    as (n & zOut' & H1 & _ & _ & H2);
    [unfold is_i64; lia|reflexivity|rewrite length_replicate; lia|].
  exists n, zOut'. split; [exact H1|exact H2].
Defined.

Lemma atoi64_correct_witness :
  sqlite3Atoi64 [32; 45; 48; 49; 50; 120; 7] 6 SQLITE_UTF8 = Some (1, -12).
Proof.
  exact (atoi64_correct [32] [45] true [0; 1; 2] [120] [7]
    ltac:(repeat constructor) sign_minus
    ltac:(repeat constructor; unfold dec_digit; lia) ltac:(discriminate) eq_refl).
Defined.

Lemma int64_arith_exact_witness : sqlite3MulInt64 (2 ^ 62) 2 = (1, 2 ^ 62).
Proof.
  destruct (int64_arith_exact (2 ^ 62) 2) as (_ & _ & H); [unfold is_i64; lia..|exact H].
Defined.
