(* ===== verification/Varint.v ===== *)
(** * Variable-length and fixed-width integers of src/util.c

    The varint codec ([sqlite3PutVarint], [sqlite3GetVarint], [sqlite3VarintValue],
    [sqlite3GetVarint32], [sqlite3VarintLen]) and the big-endian accessors
    ([sqlite3Get4byte], [sqlite3Put4byte]), with their round trips.

    A varint is up to eight bytes of seven data bits with the high bit set, and a last
    byte with the high bit clear; a ninth byte carries eight bits. *)

From Stdlib Require Import Btauto.
From S2P Require Import Prelude.

(** ** Encoding *)

(** [for(i=7; i>=0; i--){ p[i] = (u8)((v & 0x7f) | 0x80); v >>= 7; }], from [i = n-1]. *)
Fixpoint put_groups (n : nat) (v : Z) (p : bytes) : option bytes :=
  match n with
  | O => Some p
  | S i =>
      let? p := mem_put p (Z.of_nat i) (u8 (Z.lor (Z.land v 0x7f) 0x80)) in
      put_groups i (Z.shiftr v 7) p
  end.

(** [do{ buf[n++] = (u8)((v & 0x7f) | 0x80); v >>= 7; }while( v!=0 )] on [u8 buf[10]];
    the fuel is the size of [buf]. *)
Fixpoint collect_groups (fuel : nat) (v : Z) (buf : bytes) : option bytes :=
  match fuel with
  | O => None
  | S fuel' =>
      let buf := buf ++ [u8 (Z.lor (Z.land v 0x7f) 0x80)] in
      let v := Z.shiftr v 7 in
      if v =? 0 then Some buf else collect_groups fuel' v buf
  end.

(** Result: the buffer and the number of bytes written. *)
Definition putVarint64 (p : bytes) (v : Z) : option (bytes * Z) :=
  if Z.land v (Z.shiftl 0xff000000 32) <>? 0 then
    let? p := mem_put p 8 (u8 v) in
    let? p := put_groups 8 (Z.shiftr v 8) p in
    Some (p, 9)
  else
    let? buf := collect_groups 10 v [] in
    let? b0 := mem_get buf 0 in
    let? buf := mem_put buf 0 (Z.land b0 0x7f) in
    let n := len buf in
    let? p := for_up 0 n 1 (fun i p =>
      let? x := mem_get buf (n - 1 - i) in mem_put p i x) p in
    Some (p, n).

Definition sqlite3PutVarint (p : bytes) (v : Z) : option (bytes * Z) :=
  if v <=? 0x7f then
    let? p := mem_put p 0 (u8 (Z.land v 0x7f)) in Some (p, 1)
  else if v <=? 0x3fff then
    let? p := mem_put p 0 (u8 (Z.lor (Z.land (Z.shiftr v 7) 0x7f) 0x80)) in
    let? p := mem_put p 1 (u8 (Z.land v 0x7f)) in
    Some (p, 2)
  else putVarint64 p v.

(** ** Decoding *)

(** [iKey = (iKey<<s) ^ c ^ x] on u64. *)
Definition vmix (iKey s c x : Z) : Z := Z.lxor (Z.lxor (u64 (Z.shiftl iKey s)) c) x.

(** Result: the value and the number of bytes read. *)
Definition sqlite3GetVarint (p : bytes) : option (Z * Z) :=
  let? x := mem_get p 0 in
  let iKey := x in
  if iKey <? 0x80 then Some (iKey, 1) else
  let? x := mem_get p 1 in
  let iKey := vmix iKey 7 0 x in
  if x <? 0x80 then Some (Z.lxor iKey 0x4000, 2) else
  let? x := mem_get p 2 in
  let iKey := vmix iKey 7 0 x in
  if x <? 0x80 then Some (Z.lxor iKey 0x204000, 3) else
  let? x := mem_get p 3 in
  let iKey := vmix iKey 7 0x10204000 x in
  if x <? 0x80 then Some (iKey, 4) else
  let? x := mem_get p 4 in
  let iKey := vmix iKey 7 0x4000 x in
  if x <? 0x80 then Some (iKey, 5) else
  let? x := mem_get p 5 in
  let iKey := vmix iKey 7 0x4000 x in
  if x <? 0x80 then Some (iKey, 6) else
  let? x := mem_get p 6 in
  let iKey := vmix iKey 7 0x4000 x in
  if x <? 0x80 then Some (iKey, 7) else
  let? x := mem_get p 7 in
  let iKey := vmix iKey 7 0x4000 x in
  if x <? 0x80 then Some (iKey, 8) else
  let? x := mem_get p 8 in
  Some (vmix iKey 8 0x8000 x, 9).

(** The same computation, without the length, as a signed integer. *)
Definition sqlite3VarintValue (p : bytes) : option Z :=
  let? x := mem_get p 0 in
  let iKey := x in
  if iKey <? 0x80 then Some (i64 iKey) else
  let? x := mem_get p 1 in
  let iKey := vmix iKey 7 0 x in
  if x <? 0x80 then Some (i64 (Z.lxor iKey 0x4000)) else
  let? x := mem_get p 2 in
  let iKey := vmix iKey 7 0 x in
  if x <? 0x80 then Some (i64 (Z.lxor iKey 0x204000)) else
  let? x := mem_get p 3 in
  let iKey := vmix iKey 7 0x10204000 x in
  if x <? 0x80 then Some (i64 iKey) else
  let? x := mem_get p 4 in
  let iKey := vmix iKey 7 0x4000 x in
  if x <? 0x80 then Some (i64 iKey) else
  let? x := mem_get p 5 in
  let iKey := vmix iKey 7 0x4000 x in
  if x <? 0x80 then Some (i64 iKey) else
  let? x := mem_get p 6 in
  let iKey := vmix iKey 7 0x4000 x in
  if x <? 0x80 then Some (i64 iKey) else
  let? x := mem_get p 7 in
  let iKey := vmix iKey 7 0x4000 x in
  if x <? 0x80 then Some (i64 iKey) else
  let? x := mem_get p 8 in
  Some (i64 (vmix iKey 8 0x8000 x)).

(** The caller has handled the single-byte case ([getVarint32] macro). *)
Definition sqlite3GetVarint32 (p : bytes) : option (Z * Z) :=
  let? p0 := mem_get p 0 in
  let? p1 := mem_get p 1 in
  if Z.land p1 0x80 =? 0 then
    Some (u32 (Z.lor (Z.shiftl (Z.land p0 0x7f) 7) p1), 2)
  else
  let? p2 := mem_get p 2 in
  if Z.land p2 0x80 =? 0 then
    Some (u32 (Z.lor (Z.lor (Z.shiftl (Z.land p0 0x7f) 14) (Z.shiftl (Z.land p1 0x7f) 7)) p2), 3)
  else
  let? (v64, n) := sqlite3GetVarint p in
  if Z.land v64 0xffffffff <>? v64 then Some (0xffffffff, n) else Some (u32 v64, n).

(** [getVarint32]: the macro around it. *)
Definition getVarint32 (p : bytes) : option (Z * Z) :=
  let? p0 := mem_get p 0 in
  if p0 <? 0x80 then Some (p0, 1) else sqlite3GetVarint32 p.

(** [for(i=1; (v >>= 7)!=0; i++)]; ten rounds empty a 64-bit value. *)
Fixpoint varint_len_loop (fuel : nat) (v i : Z) : option Z :=
  match fuel with
  | O => None
  | S fuel' =>
      let v := Z.shiftr v 7 in
      if v =? 0 then Some i else varint_len_loop fuel' v (i + 1)
  end.

Definition sqlite3VarintLen (v : Z) : option Z := varint_len_loop 10 v 1.

(** ** Big-endian integers *)

Definition sqlite3Get4byte (p : bytes) : option Z :=
  let? p0 := mem_get p 0 in
  let? p1 := mem_get p 1 in
  let? p2 := mem_get p 2 in
  let? p3 := mem_get p 3 in
  Some (Z.lor (Z.lor (Z.lor (u32 (Z.shiftl p0 24)) (Z.shiftl p1 16)) (Z.shiftl p2 8)) p3).

Definition sqlite3Put4byte (p : bytes) (v : Z) : option bytes :=
  let? p := mem_put p 0 (u8 (Z.shiftr v 24)) in
  let? p := mem_put p 1 (u8 (Z.shiftr v 16)) in
  let? p := mem_put p 2 (u8 (Z.shiftr v 8)) in
  mem_put p 3 (u8 v).

(** ** What a varint denotes *)

(** Seven-bit digits, most significant first. *)
Definition digits_value (ds : bytes) : Z := fold_left (fun a d => a * 128 + d) ds 0.

Definition digit (d : Z) : Prop := 0 <= d < 128.

(** A varint: continued digits, then a last byte; nine bytes at most, and only the ninth
    may be larger than 127. *)
Definition varint_bytes (ds : bytes) (last : Z) : bytes := ((fun d => 128 + d) <$> ds) ++ [last].

Definition varint_shape (ds : bytes) (last : Z) : Prop :=
  Forall digit ds /\ (length ds <= 8)%nat /\
  (if (length ds =? 8)%nat then 0 <= last < 256 else digit last).

Definition varint_denotes (ds : bytes) (last : Z) : Z :=
  if (length ds =? 8)%nat then digits_value ds * 256 + last else digits_value (ds ++ [last]).

(** ** Decoding of well-shaped varints *)

Lemma lxor_bound a b n : 0 <= n -> 0 <= a < 2 ^ n -> 0 <= b < 2 ^ n -> 0 <= Z.lxor a b < 2 ^ n.
Proof.
  intros Hn Ha Hb. assert (H0 : 0 <= Z.lxor a b) by (apply Z.lxor_nonneg; lia).
  split; [done|]. destruct (Z.eq_dec (Z.lxor a b) 0) as [->|Hne]; [lia|].
  apply Z.log2_lt_pow2; [lia|].
  destruct (Z.lt_ge_cases (Z.log2 (Z.lxor a b)) n) as [|Hge]; [done|]. exfalso.
  pose proof (Z.bit_log2 (Z.lxor a b) ltac:(lia)) as Hbit.
  rewrite Z.lxor_spec, (testbit_small a n), (testbit_small b n) in Hbit by lia. done.
Qed.

(** One step, with the flag bits collected in [F]. *)
Lemma vmix_step V F s c f e :
  0 <= V < 2 ^ 56 -> 0 <= F < 2 ^ 56 -> 0 <= s <= 8 -> 0 <= e < 2 ^ s ->
  vmix (Z.lxor V F) s c (Z.lxor f e) =
  Z.lxor (V * 2 ^ s + e) (Z.lxor (Z.lxor (Z.shiftl F s) c) f).
Proof.
  intros HV HF Hs He. unfold vmix.
  pose proof (lxor_bound V F 56 ltac:(lia) HV HF) as Hb.
  rewrite u64_small.
  - rewrite Z.shiftl_lxor, <- lxor_shiftl_add by lia. apply Z.bits_inj'. intros n _.
    rewrite !Z.lxor_spec. btauto.
  - rewrite Z.shiftl_mul_pow2 by lia. assert (2 ^ s <= 2 ^ 8) by (apply Z.pow_le_mono_r; lia). nia.
Qed.

Lemma cont_lxor d : digit d -> 128 + d = Z.lxor 128 d.
Proof.
  intros Hd. change 128 with (Z.shiftl 1 7) at 2. rewrite lxor_shiftl_add; unfold digit in *; lia.
Qed.

Lemma vmix_cont V F c d F' :
  0 <= V < 2 ^ 49 -> 0 <= F < 2 ^ 56 -> digit d ->
  Z.lxor (Z.lxor (Z.shiftl F 7) c) 128 = F' ->
  vmix (Z.lxor V F) 7 c (128 + d) = Z.lxor (V * 128 + d) F'.
Proof.
  intros HV HF Hd <-. rewrite (cont_lxor d Hd), vmix_step by (unfold digit in *; lia). done.
Qed.

Lemma vmix_last V F c d F' :
  0 <= V < 2 ^ 49 -> 0 <= F < 2 ^ 56 -> digit d ->
  Z.lxor (Z.shiftl F 7) c = F' ->
  vmix (Z.lxor V F) 7 c d = Z.lxor (V * 128 + d) F'.
Proof.
  intros HV HF Hd <-. rewrite <- (Z.lxor_0_l d) at 1.
  rewrite vmix_step by (unfold digit in *; lia). by rewrite Z.lxor_0_r.
Qed.

Lemma vmix_ninth V x :
  0 <= V < 2 ^ 56 -> 0 <= x < 256 -> vmix (Z.lxor V 128) 8 0x8000 x = V * 256 + x.
Proof.
  intros HV Hx. rewrite <- (Z.lxor_0_l x) at 1. rewrite vmix_step by lia. simpl.
  apply Z.lxor_0_r.
Qed.

(** Split the digits of a varint into its nine possible lengths. *)
Ltac varint_cases ds Hd :=
  destruct ds as [|d0 [|d1 [|d2 [|d3 [|d4 [|d5 [|d6 [|d7 [|d8 ds]]]]]]]]];
  repeat match type of Hd with
  | Forall _ (_ :: _) => let H := fresh "Hdig" in apply Forall_cons_1 in Hd as [H Hd]
  end.

Lemma vmix_first d s c x : digit d -> vmix (128 + d) s c x = vmix (Z.lxor d 128) s c x.
Proof. intros Hd. by rewrite cont_lxor, Z.lxor_comm. Qed.

(** Evaluate the literal indexes of a term. *)
Ltac nat_lits :=
  repeat match goal with
  | |- context [Z.to_nat (Zpos ?k)] =>
      let n := eval vm_compute in (Z.to_nat (Zpos k)) in change (Z.to_nat (Zpos k)) with n
  | |- context [Z.to_nat 0] => change (Z.to_nat 0) with 0%nat
  end.

(** Run a decoder on explicit bytes: look the bytes up, then decide the conditions. *)
Ltac varint_run :=
  cbn -[Z.mul Z.add vmix Z.lxor Z.ltb]; nat_lits;
  cbn -[Z.mul Z.add vmix Z.lxor Z.ltb];
  repeat match goal with
  | |- context [?a <? 128] =>
      first [rewrite (proj2 (Z.ltb_lt a 128)) by lia | rewrite (proj2 (Z.ltb_ge a 128)) by lia]
  end.

(** Collapse the mixing steps into the value of the digits, computing the flag bits. *)
Ltac varint_value :=
  rewrite ?vmix_first by (unfold digit; lia);
  repeat match goal with
  | |- context [vmix (Z.lxor ?V ?F) 7 ?c (128 + ?d)] =>
      let F' := eval vm_compute in (Z.lxor (Z.lxor (Z.shiftl F 7) c) 128) in
      rewrite (vmix_cont V F c d F') by (first [reflexivity | unfold digit; lia])
  | |- context [vmix (Z.lxor ?V ?F) 7 ?c ?d] =>
      let F' := eval vm_compute in (Z.lxor (Z.shiftl F 7) c) in
      rewrite (vmix_last V F c d F') by (first [reflexivity | unfold digit; lia])
  end;
  rewrite ?vmix_ninth by lia;
  rewrite ?Z.lxor_assoc, ?Z.lxor_nilpotent, ?Z.lxor_0_r; repeat f_equal; lia.

Lemma GetVarint_spec ds last rest :
  varint_shape ds last ->
  sqlite3GetVarint (varint_bytes ds last ++ rest) =
  Some (varint_denotes ds last, Z.of_nat (S (length ds))).
Proof.
  intros (Hd & Hl & Hlast). varint_cases ds Hd; [..|simpl in Hl; lia].
  all: cbn in Hlast; unfold digit in *; unfold sqlite3GetVarint, varint_bytes,
    varint_denotes, digits_value; varint_run.
  1: done.
  all: varint_value.
Qed.

Lemma VarintValue_spec p :
  sqlite3VarintValue p = (fun r => i64 r.1) <$> sqlite3GetVarint p.
Proof.
  unfold sqlite3VarintValue, sqlite3GetVarint.
  generalize (mem_get p 0), (mem_get p 1), (mem_get p 2), (mem_get p 3), (mem_get p 4),
    (mem_get p 5), (mem_get p 6), (mem_get p 7), (mem_get p 8).
  generalize vmix. intros f [x0|] o1 o2 o3 o4 o5 o6 o7 o8; [|done].
  destruct (x0 <? 128); [done|]. destruct o1 as [x1|]; [|done].
  destruct (x1 <? 128); [done|]. destruct o2 as [x2|]; [|done].
  destruct (x2 <? 128); [done|]. destruct o3 as [x3|]; [|done].
  destruct (x3 <? 128); [done|]. destruct o4 as [x4|]; [|done].
  destruct (x4 <? 128); [done|]. destruct o5 as [x5|]; [|done].
  destruct (x5 <? 128); [done|]. destruct o6 as [x6|]; [|done].
  destruct (x6 <? 128); [done|]. destruct o7 as [x7|]; [|done].
  destruct (x7 <? 128); [done|]. by destruct o8.
Qed.

(** ** Encoding *)

Lemma group_byte v : u8 (Z.lor (Z.land v 0x7f) 0x80) = 128 + v mod 128.
Proof.
  rewrite Z.lor_comm.
  change (Z.lor 0x80 (Z.land v 0x7f)) with (Z.lor (Z.shiftl 1 7) (Z.land v (Z.ones 7))).
  pose proof (Z.mod_pos_bound v 128). rewrite Z.land_ones by lia. change (2 ^ 7) with 128.
  rewrite lor_shiftl_add by lia. rewrite u8_small; lia.
Qed.

(** The [n] lowest base-128 digits of [v], most significant first. *)
Fixpoint be_digits (n : nat) (v : Z) : bytes :=
  match n with O => [] | S n' => be_digits n' (v / 128) ++ [v mod 128] end.

Lemma length_be_digits n v : length (be_digits n v) = n.
Proof. revert v. induction n as [|n IH]; intros v; simpl; [done|]. rewrite length_app, IH. simpl. lia. Qed.

Lemma be_digits_ok n v : Forall digit (be_digits n v).
Proof.
  revert v. induction n as [|n IH]; intros v; simpl; [constructor|].
  apply Forall_app. split; [done|]. constructor; [|constructor].
  pose proof (Z.mod_pos_bound v 128). unfold digit. lia.
Qed.

Lemma digits_value_snoc ds d : digits_value (ds ++ [d]) = digits_value ds * 128 + d.
Proof. unfold digits_value. by rewrite fold_left_app. Qed.

Lemma be_digits_value n v : 0 <= v < 128 ^ Z.of_nat n -> digits_value (be_digits n v) = v.
Proof.
  revert v. induction n as [|n IH]; intros v Hv; simpl; [unfold digits_value; simpl in *; lia|].
  rewrite digits_value_snoc, IH.
  - pose proof (Z.div_mod v 128). lia.
  - rewrite Nat2Z.inj_succ, Z.pow_succ_r in Hv by lia.
    split; [apply Z.div_pos; lia|apply Z.div_lt_upper_bound; lia].
Qed.

Lemma put_groups_spec n v p :
  (n <= length p)%nat ->
  put_groups n v p = Some (((fun d => 128 + d) <$> be_digits n v) ++ drop n p).
Proof.
  revert v p. induction n as [|n IH]; intros v p Hn; simpl; [done|].
  rewrite mem_put_nat, group_byte by lia. rewrite IH by (rewrite length_insert; lia).
  rewrite Z.shiftr_div_pow2 by lia. change (2 ^ 7) with 128.
  rewrite fmap_app, <- app_assoc. do 2 f_equal.
  rewrite (drop_S _ (128 + v mod 128)) by (apply list_lookup_insert_eq; lia).
  rewrite drop_insert_lt by lia. done.
Qed.

(** Base-128 digits, least significant first, as many as [v] needs. *)
Fixpoint le_digits (fuel : nat) (v : Z) : bytes :=
  match fuel with
  | O => []
  | S fuel' => v mod 128 :: (if v / 128 =? 0 then [] else le_digits fuel' (v / 128))
  end.

Lemma le_digits_ok fuel v : Forall digit (le_digits fuel v).
Proof.
  revert v. induction fuel as [|n IH]; intros v; simpl; [constructor|].
  constructor; [pose proof (Z.mod_pos_bound v 128); unfold digit; lia|].
  case_match; [constructor|done].
Qed.

Lemma le_digits_length fuel v (n : nat) :
  0 <= v < 128 ^ Z.of_nat n -> (0 < n)%nat -> (length (le_digits fuel v) <= n)%nat.
Proof.
  revert v n. induction fuel as [|fuel IH]; intros v n Hv Hn; simpl; [lia|].
  destruct n as [|n]; [lia|]. case_cond; [simpl; lia|].
  rewrite Nat2Z.inj_succ, Z.pow_succ_r in Hv by lia.
  assert (Hq : 0 <= v / 128 < 128 ^ Z.of_nat n)
    by (split; [apply Z.div_pos; lia|apply Z.div_lt_upper_bound; lia]).
  destruct n as [|n]; [simpl in Hq; lia|]. specialize (IH (v / 128) (S n) Hq). lia.
Qed.

Lemma le_digits_value fuel v :
  0 <= v < 128 ^ Z.of_nat fuel -> digits_value (reverse (le_digits fuel v)) = v.
Proof.
  revert v. induction fuel as [|fuel IH]; intros v Hv; simpl;
    [unfold digits_value; simpl in *; lia|].
  rewrite reverse_cons, digits_value_snoc. pose proof (Z.div_mod v 128).
  rewrite Nat2Z.inj_succ, Z.pow_succ_r in Hv by lia.
  case_cond; [unfold digits_value; simpl; lia|].
  rewrite IH by (split; [apply Z.div_pos; lia|apply Z.div_lt_upper_bound; lia]). lia.
Qed.

Lemma collect_groups_spec fuel v buf :
  0 <= v < 128 ^ Z.of_nat fuel -> (0 < fuel)%nat ->
  collect_groups fuel v buf = Some (buf ++ ((fun d => 128 + d) <$> le_digits fuel v)).
Proof.
  revert v buf. induction fuel as [|fuel IH]; intros v buf Hv Hf; [lia|].
  cbn [collect_groups le_digits]. rewrite group_byte, Z.shiftr_div_pow2 by lia.
  change (2 ^ 7) with 128. rewrite Nat2Z.inj_succ, Z.pow_succ_r in Hv by lia.
  case_cond; [done|].
  assert (Hq : 0 <= v / 128 < 128 ^ Z.of_nat fuel)
    by (split; [apply Z.div_pos; lia|apply Z.div_lt_upper_bound; lia]).
  destruct fuel as [|fuel]; [simpl in Hq; lia|].
  rewrite IH by (done || lia). by rewrite <- app_assoc.
Qed.

(** The reversing copy at the end of [putVarint64]. *)
Lemma reverse_copy (buf p : bytes) :
  (length buf <= length p)%nat ->
  for_up 0 (len buf) 1 (fun i p =>
    let? x := mem_get buf (len buf - 1 - i) in mem_put p i x) p =
  Some (reverse buf ++ drop (length buf) p).
Proof.
  intros Hl. rewrite for_up_1, Z.sub_0_r, Nat2Z.id.
  rewrite (for_fill (fun k => reverse buf !!! k)).
  - rewrite fmap_seq_lookup_total by apply length_reverse. done.
  - done.
  - intros k s Hk Hs. rewrite Z.mul_1_r.
    replace (len buf - 1 - Z.of_nat k) with (Z.of_nat (length buf - S k)) by lia.
    rewrite mem_get_nat. rewrite <- reverse_lookup by lia.
    rewrite list_lookup_lookup_total_lt by (rewrite length_reverse; lia).
    apply mem_put_nat. lia.
Qed.

(** What an encoder does: it writes a varint that denotes [v] at the front of [p]. *)
Definition encodes (p : bytes) (v : Z) (r : option (bytes * Z)) : Prop :=
  exists ds last, varint_shape ds last /\ varint_denotes ds last = v /\
    r = Some (varint_bytes ds last ++ drop (S (length ds)) p, Z.of_nat (S (length ds))).

Lemma high_bits v : 0 <= v < 2 ^ 64 ->
  (Z.land v (Z.shiftl 0xff000000 32) =? 0) = (v <? 2 ^ 56).
Proof.
  intros Hv. rewrite Z.shiftl_mul_pow2 by lia.
  change (0xff000000 * 2 ^ 32) with (Z.shiftl (Z.ones 8) 56).
  assert (E : Z.land v (Z.shiftl (Z.ones 8) 56) = Z.shiftl (Z.shiftr v 56) 56).
  { apply Z.bits_inj'. intros n Hn. rewrite Z.land_spec.
    destruct (Z.lt_ge_cases n 56).
    - rewrite !Z.shiftl_spec_low by lia. apply andb_false_r.
    - rewrite !Z.shiftl_spec, Z.shiftr_spec by lia. replace (n - 56 + 56) with n by lia.
      destruct (Z.lt_ge_cases n 64).
      + rewrite Z.ones_spec_low by lia. apply andb_true_r.
      + rewrite (testbit_small v 64) by lia. done. }
  rewrite E, Z.shiftl_mul_pow2, Z.shiftr_div_pow2 by lia.
  destruct (Z.ltb_spec v (2 ^ 56)).
  - rewrite Z.div_small by lia. done.
  - apply Z.eqb_neq. assert (1 <= v / 2 ^ 56) by (apply Z.div_le_lower_bound; lia). lia.
Qed.

Lemma put_nine v p : 2 ^ 56 <= v < 2 ^ 64 -> (9 <= length p)%nat ->
  encodes p v (let? p := mem_put p 8 (u8 v) in
               let? p := put_groups 8 (Z.shiftr v 8) p in Some (p, 9)).
Proof.
  intros Hv Hp. rewrite (mem_put_nat p 8) by lia.
  rewrite put_groups_spec by (rewrite length_insert; lia).
  exists (be_digits 8 (Z.shiftr v 8)), (v mod 256).
  rewrite Z.shiftr_div_pow2 by lia. change (2 ^ 8) with 256.
  pose proof (Z.mod_pos_bound v 256 ltac:(lia)). pose proof (Z.div_mod v 256 ltac:(lia)).
  unfold varint_shape, varint_denotes, varint_bytes. rewrite length_be_digits.
  split_and!; [apply be_digits_ok|lia|done| |].
  - change ((8 =? 8)%nat) with true. cbn iota. rewrite be_digits_value; [lia|].
    change (128 ^ Z.of_nat 8) with (2 ^ 56).
    split; [apply Z.div_pos; lia|apply Z.div_lt_upper_bound; lia].
  - rewrite (drop_S _ (u8 v)) by (apply list_lookup_insert_eq; lia).
    rewrite drop_insert_lt, <- app_assoc by lia. done.
Qed.

Lemma put_loop v p : 0 <= v < 2 ^ 56 -> (9 <= length p)%nat ->
  encodes p v (let? buf := collect_groups 10 v [] in
    let? b0 := mem_get buf 0 in
    let? buf := mem_put buf 0 (Z.land b0 0x7f) in
    let n := len buf in
    let? p := for_up 0 n 1 (fun i p =>
      let? x := mem_get buf (n - 1 - i) in mem_put p i x) p in
    Some (p, n)).
Proof.
  intros Hv Hp. rewrite collect_groups_spec by (change (128 ^ Z.of_nat 10) with (2 ^ 70); lia).
  pose proof (le_digits_value 10 v ltac:(change (128 ^ Z.of_nat 10) with (2 ^ 70); lia)) as Hval.
  pose proof (le_digits_length 10 v 8 ltac:(change (128 ^ Z.of_nat 8) with (2 ^ 56); lia)
    ltac:(lia)) as Hlen.
  pose proof (le_digits_ok 10 v) as Hok. revert Hval Hlen Hok.
  change (le_digits 10 v) with
    (v mod 128 :: (if v / 128 =? 0 then [] else le_digits 9 (v / 128))).
  generalize (if v / 128 =? 0 then [] else le_digits 9 (v / 128)).
  set (d0 := v mod 128). intros ds Hval Hlen Hok.
  apply Forall_cons_1 in Hok as [Hd0 Hok]. unfold digit in Hd0.
  cbn [fmap list_fmap app]. rewrite (mem_get_nat _ 0).
  cbn [lookup list_lookup]. rewrite (mem_put_nat _ 0) by (simpl; lia). cbn [insert list_insert].
  assert (Z.land (128 + d0) 0x7f = d0) as ->.
  { change 0x7f with (Z.ones 7). rewrite Z.land_ones by lia. change (2 ^ 7) with 128.
    rewrite <- (Z.mul_1_l 128) at 1. rewrite Z.add_comm, Z.mod_add by lia.
    apply Z.mod_small. lia. }
  cbv zeta. rewrite reverse_copy by (simpl length in *; rewrite length_fmap; lia).
  exists (reverse ds), d0. rewrite reverse_cons in Hval.
  unfold varint_shape, varint_denotes, varint_bytes. rewrite length_reverse.
  simpl length in *. rewrite (proj2 (Nat.eqb_neq (length ds) 8)) by lia.
  split_and!; [by apply Forall_reverse|lia|done|done|].
  rewrite length_fmap, reverse_cons, fmap_reverse, <- app_assoc. done.
Qed.

Lemma PutVarint_spec p v : 0 <= v < 2 ^ 64 -> (9 <= length p)%nat ->
  encodes p v (sqlite3PutVarint p v).
Proof.
  intros Hv Hp. unfold sqlite3PutVarint.
  assert (Hland : forall x, Z.land x 0x7f = x mod 128).
  { intros x. change 0x7f with (Z.ones 7). by rewrite Z.land_ones. }
  destruct p as [|q0 [|q1 p]]; [simpl in Hp; lia..|].
  case_cond.
  { exists [], v. split; [split_and!; [constructor|simpl; lia|cbn; unfold digit; lia]|].
    split; [cbn -[Z.mul Z.add]; lia|].
    rewrite Hland, Z.mod_small, u8_small by lia. done. }
  case_cond.
  { exists [v / 128], (v mod 128). pose proof (Z.mod_pos_bound v 128 ltac:(lia)).
    pose proof (Z.div_mod v 128 ltac:(lia)). split_and!.
    - split_and!; [|simpl; lia|done]. repeat constructor; [apply Z.div_pos; lia|].
      apply Z.div_lt_upper_bound; lia.
    - cbn -[Z.mul Z.add]. lia.
    - rewrite group_byte, Hland, u8_small by lia. rewrite Z.shiftr_div_pow2 by lia.
      change (2 ^ 7) with 128. rewrite (Z.mod_small (v / 128)).
      + rewrite (mem_put_nat _ 0) by (simpl; lia). cbn [insert list_insert].
        by rewrite (mem_put_nat _ 1) by (simpl; lia).
      + split; [apply Z.div_pos; lia|apply Z.div_lt_upper_bound; lia]. }
  unfold putVarint64. rewrite high_bits by done.
  destruct (Z.ltb_spec v (2 ^ 56)); cbn [negb]; [apply put_loop|apply put_nine]; done || lia.
Qed.

(** *** Lengths *)

Lemma le_digits_length_ge fuel v (n : nat) :
  128 ^ Z.of_nat n <= v -> (n < fuel)%nat -> (n < length (le_digits fuel v))%nat.
Proof.
  revert v n. induction fuel as [|fuel IH]; intros v n Hv Hn; [lia|].
  cbn [le_digits length]. destruct n as [|n]; [lia|].
  rewrite Nat2Z.inj_succ, Z.pow_succ_r in Hv by lia.
  assert (Hq : 128 ^ Z.of_nat n <= v / 128) by (apply Z.div_le_lower_bound; lia).
  assert (0 < 128 ^ Z.of_nat n) by (apply Z.pow_pos_nonneg; lia).
  rewrite (proj2 (Z.eqb_neq _ _)) by lia. specialize (IH _ n Hq). lia.
Qed.

Lemma varint_len_loop_spec fuel v i :
  0 <= v < 128 ^ Z.of_nat fuel -> (0 < fuel)%nat ->
  varint_len_loop fuel v i = Some (i + len (le_digits fuel v) - 1).
Proof.
  revert v i. induction fuel as [|fuel IH]; intros v i Hv Hf; [lia|].
  cbn [varint_len_loop le_digits length]. rewrite Z.shiftr_div_pow2 by lia.
  change (2 ^ 7) with 128. rewrite Nat2Z.inj_succ, Z.pow_succ_r in Hv by lia.
  case_cond; [cbn [length]; f_equal; lia|].
  assert (Hq : 0 <= v / 128 < 128 ^ Z.of_nat fuel)
    by (split; [apply Z.div_pos; lia|apply Z.div_lt_upper_bound; lia]).
  destruct fuel as [|fuel]; [simpl in Hq; lia|]. rewrite IH by (done || lia).
  f_equal. lia.
Qed.

(** The number of seven-bit groups of a value. *)
Lemma le_digits_count v (n : nat) :
  128 ^ Z.of_nat n <= v < 128 ^ Z.of_nat (S n) -> (n < 10)%nat ->
  length (le_digits 10 v) = S n.
Proof.
  intros Hv Hn. assert (0 < 128 ^ Z.of_nat n) by (apply Z.pow_pos_nonneg; lia).
  pose proof (le_digits_length_ge 10 v n ltac:(lia) ltac:(lia)).
  pose proof (le_digits_length 10 v (S n) ltac:(lia) ltac:(lia)). lia.
Qed.

(** The number of bytes [sqlite3PutVarint] reports. *)
Lemma PutVarint_count p v p' n :
  0 <= v < 2 ^ 64 -> sqlite3PutVarint p v = Some (p', n) ->
  n = if v <? 2 ^ 56 then len (le_digits 10 v) else 9.
Proof.
  intros Hv. unfold sqlite3PutVarint, putVarint64. rewrite high_bits by done.
  destruct (Z.leb_spec v 0x7f).
  { rewrite (proj2 (Z.ltb_lt _ _)) by lia. intros H'; inv_let H'; simplify_eq.
    cbn [le_digits]. rewrite (Z.div_small v 128) by lia. done. }
  destruct (Z.leb_spec v 0x3fff).
  { rewrite (proj2 (Z.ltb_lt _ _)) by lia. intros H'; inv_let H'; inv_let H'; simplify_eq.
    rewrite (le_digits_count v 1); [done|simpl Z.of_nat; lia|lia]. }
  destruct (Z.ltb_spec v (2 ^ 56)); cbn [negb]; intros E.
  - rewrite collect_groups_spec in E by (change (128 ^ Z.of_nat 10) with (2 ^ 70); lia).
    destruct (mem_get _ 0) as [b0|]; [|done].
    destruct (mem_put _ 0 _) as [buf|] eqn:Eb; [|done]. cbv zeta in E.
    destruct (for_up _ _ _ _ _); [|done].
    simplify_eq. unfold mem_put in Eb. destruct (_ && _); [|done]. simplify_eq.
    by rewrite length_insert, length_app, length_fmap.
  - inv_let E. inv_let E. by simplify_eq.
Qed.

(** ** Fixed width *)

Lemma Get4byte_spec p0 p1 p2 p3 rest :
  is_byte p0 -> is_byte p1 -> is_byte p2 -> is_byte p3 ->
  sqlite3Get4byte (p0 :: p1 :: p2 :: p3 :: rest) = Some (p0 * 2 ^ 24 + p1 * 2 ^ 16 + p2 * 2 ^ 8 + p3).
Proof.
  unfold is_byte. intros H0 H1 H2 H3. unfold sqlite3Get4byte.
  unfold mem_get. cbn -[Z.shiftl Z.lor u32 Z.pow Z.mul Z.add]. nat_lits.
  cbn -[Z.shiftl Z.lor u32 Z.pow Z.mul Z.add]. rewrite u32_small.
  2:{ rewrite Z.shiftl_mul_pow2; lia. }
  f_equal.
  replace (Z.shiftl p0 24) with (Z.shiftl (Z.shiftl p0 8) 16) by (by rewrite Z.shiftl_shiftl).
  rewrite <- Z.shiftl_lor, (lor_shiftl_add p0 p1) by lia.
  replace (Z.shiftl (p0 * 2 ^ 8 + p1) 16) with (Z.shiftl (Z.shiftl (p0 * 2 ^ 8 + p1) 8) 8)
    by (by rewrite Z.shiftl_shiftl).
  rewrite <- Z.shiftl_lor, (lor_shiftl_add _ p2) by lia. rewrite lor_shiftl_add; lia.
Qed.

(** The continuation bit and the data bits of a byte. *)
Lemma digit_flags d : digit d ->
  Z.land (128 + d) 128 = 128 /\ Z.land d 128 = 0 /\ Z.land (128 + d) 127 = d.
Proof.
  intros Hd. assert (is_byte d) as Hb by (unfold digit, is_byte in *; lia).
  assert (H : (if d <? 128 then (Z.land (128 + d) 128 =? 128) && (Z.land d 128 =? 0) &&
    (Z.land (128 + d) 127 =? d) else true) = true).
  { revert d Hb Hd. intros d Hb _. revert d Hb. apply byte_forall. vm_compute. done. }
  rewrite (proj2 (Z.ltb_lt d 128)) in H by (unfold digit in *; lia). by bool_to_prop.
Qed.

Lemma mask32 v : 0 <= v -> (Z.land v 0xffffffff <>? v) = negb (v <? 2 ^ 32).
Proof.
  intros Hv. change 0xffffffff with (Z.ones 32). rewrite Z.land_ones by lia. f_equal.
  destruct (Z.ltb_spec v (2 ^ 32)).
  - rewrite Z.mod_small by lia. apply Z.eqb_refl.
  - apply Z.eqb_neq. pose proof (Z.mod_pos_bound v (2 ^ 32)). lia.
Qed.

Lemma digits_value_nonneg ds : Forall digit ds -> 0 <= digits_value ds.
Proof.
  induction ds as [|d ds IH] using rev_ind; intros Hd; [unfold digits_value; simpl; lia|].
  rewrite digits_value_snoc. apply Forall_app in Hd as [Hd [Hx _]%Forall_cons_1].
  specialize (IH Hd). unfold digit in Hx. lia.
Qed.

Lemma denotes_nonneg ds last : varint_shape ds last -> 0 <= varint_denotes ds last.
Proof.
  intros (Hd & _ & Hl). pose proof (digits_value_nonneg ds Hd). unfold varint_denotes.
  case_match; [lia|]. rewrite digits_value_snoc. unfold digit in Hl. lia.
Qed.

(** ** Properties *)

(** The varint codec round-trips on every 64-bit value: writing [v] into a buffer of at
    least nine bytes writes between one and nine bytes at its front and nothing else, and
    reading that buffer gives back [v] and the number of bytes written. *)
Theorem varint_roundtrip p v :
  0 <= v < 2 ^ 64 -> (9 <= length p)%nat ->
  exists p' n, sqlite3PutVarint p v = Some (p', n) /\ 1 <= n <= 9 /\
    length p' = length p /\ drop (Z.to_nat n) p' = drop (Z.to_nat n) p /\
    sqlite3GetVarint p' = Some (v, n) /\ sqlite3VarintValue p' = Some (i64 v).
Proof.
  intros Hv Hp. destruct (PutVarint_spec p v Hv Hp) as (ds & last & Hs & <- & ->).
  pose proof (GetVarint_spec ds last (drop (S (length ds)) p) Hs) as Hg.
  destruct Hs as (_ & Hl & _). do 2 eexists. split; [done|].
  assert (El : length (varint_bytes ds last) = S (length ds)).
  { unfold varint_bytes. rewrite length_app, length_fmap. simpl. lia. }
  split_and!; [lia|lia| | |done|].
  - rewrite length_app, El, length_drop. lia.
  - rewrite Nat2Z.id, drop_app_length'; done.
  - by rewrite VarintValue_spec, Hg.
Qed.

(** the 32-bit decoder agrees with the 64-bit one on every well-formed varint, except
    that it saturates values that do not fit in 32 bits to 0xffffffff. *)
Theorem varint32_saturates ds last rest :
  varint_shape ds last ->
  getVarint32 (varint_bytes ds last ++ rest) =
  Some (if varint_denotes ds last <? 2 ^ 32 then varint_denotes ds last else 0xffffffff,
        Z.of_nat (S (length ds))).
Proof.
  intros Hs. pose proof (GetVarint_spec ds last rest Hs) as Hg.
  pose proof (denotes_nonneg ds last Hs) as Hpos.
  pose proof Hs as (Hd & Hl & Hlast). unfold getVarint32, sqlite3GetVarint32. rewrite Hg.
  rewrite mask32 by done. unfold varint_bytes, mem_get.
  destruct ds as [|d0 [|d1 [|d2 ds]]];
    repeat match type of Hd with
    | Forall _ (_ :: _) => let H := fresh "Hdig" in apply Forall_cons_1 in Hd as [H Hd]
    end; clear Hd; cbn in Hlast; nat_lits;
    cbn -[Z.mul Z.add Z.land Z.lor Z.shiftl Z.ltb Z.eqb varint_denotes u32 Z.of_nat Z.pow length].
  - unfold digit in Hlast. rewrite (proj2 (Z.ltb_lt _ _)) by lia. f_equal. f_equal.
    unfold varint_denotes, digits_value. cbn -[Z.mul Z.add Z.ltb]. case_cond; lia.
  - destruct (digit_flags d0 Hdig) as (_ & _ & E0), (digit_flags last Hlast) as (_ & -> & _).
    unfold digit in *. rewrite (proj2 (Z.ltb_ge _ _)) by lia. rewrite E0.
    change (0 =? 0) with true. cbn iota. rewrite lor_shiftl_add by lia.
    rewrite u32_small by lia. f_equal. f_equal.
    unfold varint_denotes, digits_value. cbn -[Z.mul Z.add Z.ltb]. case_cond; lia.
  - destruct (digit_flags d0 Hdig) as (_ & _ & E0), (digit_flags d1 Hdig0) as (F1 & _ & E1),
      (digit_flags last Hlast) as (_ & -> & _).
    unfold digit in *. rewrite (proj2 (Z.ltb_ge _ _)) by lia. rewrite F1, E0, E1.
    change (0 =? 0) with true. change (128 =? 0) with false. cbn iota.
    replace (Z.shiftl d0 14) with (Z.shiftl (Z.shiftl d0 7) 7) by (by rewrite Z.shiftl_shiftl).
    rewrite <- Z.shiftl_lor, (lor_shiftl_add d0 d1), lor_shiftl_add by lia.
    rewrite u32_small by lia. f_equal. f_equal.
    unfold varint_denotes, digits_value. cbn -[Z.mul Z.add Z.ltb]. case_cond; lia.
  - destruct (digit_flags d1 Hdig0) as (F1 & _ & _), (digit_flags d2 Hdig1) as (F2 & _ & _).
    unfold digit in *. rewrite (proj2 (Z.ltb_ge (128 + d0) 128)) by lia. rewrite F1, F2.
    change (128 =? 0) with false. cbn iota. destruct (Z.ltb_spec (varint_denotes (d0 :: d1 :: d2 :: ds) last) (2 ^ 32)); cbn [negb]; [|done].
    by rewrite u32_small by lia.
Qed.

Lemma Put4byte_eq q0 q1 q2 q3 p v :
  sqlite3Put4byte (q0 :: q1 :: q2 :: q3 :: p) v =
  Some (u8 (Z.shiftr v 24) :: u8 (Z.shiftr v 16) :: u8 (Z.shiftr v 8) :: u8 v :: p).
Proof.
  unfold sqlite3Put4byte. rewrite (mem_put_nat _ 0) by (simpl; lia). cbn [insert list_insert].
  rewrite (mem_put_nat _ 1) by (simpl; lia). cbn [insert list_insert].
  rewrite (mem_put_nat _ 2) by (simpl; lia). cbn [insert list_insert].
  by rewrite (mem_put_nat _ 3) by (simpl; lia).
Qed.

(** Four-byte big-endian store and load are inverse: after storing a 32-bit value at the
    front of a buffer, loading gives it back and the rest of the buffer is untouched. *)
Theorem fourbyte_roundtrip p v :
  is_u32 v -> (4 <= length p)%nat ->
  exists p', sqlite3Put4byte p v = Some p' /\ drop 4 p' = drop 4 p /\
    sqlite3Get4byte p' = Some v.
Proof.
  unfold is_u32. intros Hv Hp. destruct p as [|q0 [|q1 [|q2 [|q3 p]]]]; simpl in Hp; try lia.
  rewrite Put4byte_eq. eexists. split; [done|]. split; [done|].
  rewrite Get4byte_spec by apply u8_byte. f_equal. unfold u8.
  rewrite !Z.shiftr_div_pow2 by lia. Z.div_mod_to_equations. lia.
Qed.

(** [sqlite3VarintLen] is the number of bytes [sqlite3PutVarint] writes, for values below
    2^63; for the values from 2^63 on it answers 10 although nine bytes are written. *)
Theorem varint_len_exact p v :
  0 <= v < 2 ^ 64 -> (9 <= length p)%nat ->
  exists p' n, sqlite3PutVarint p v = Some (p', n) /\
    sqlite3VarintLen v = Some (if v <? 2 ^ 63 then n else 10).
Proof.
  intros Hv Hp. destruct (PutVarint_spec p v Hv Hp) as (ds & last & _ & _ & E).
  do 2 eexists. split; [done|]. apply PutVarint_count in E; [|done]. rewrite E.
  unfold sqlite3VarintLen.
  rewrite varint_len_loop_spec by (change (128 ^ Z.of_nat 10) with (2 ^ 70); lia). f_equal.
  destruct (Z.ltb_spec v (2 ^ 56)), (Z.ltb_spec v (2 ^ 63)); try lia.
  - rewrite (le_digits_count v 8); [done| |lia].
    change (128 ^ Z.of_nat 8) with (2 ^ 56). change (128 ^ Z.of_nat 9) with (2 ^ 63). lia.
  - rewrite (le_digits_count v 9); [done| |lia].
    change (128 ^ Z.of_nat 9) with (2 ^ 63). change (128 ^ Z.of_nat 10) with (2 ^ 70). lia.
Qed.

(** ** Witnesses *)

Lemma varint_roundtrip_witness :
  exists p' n, sqlite3PutVarint (replicate 12 7) 0xfedcba9876543210 = Some (p', n) /\
    sqlite3GetVarint p' = Some (0xfedcba9876543210, n).
Proof.
  destruct (varint_roundtrip (replicate 12 7) 0xfedcba9876543210) as (p' & n & H1 & _ & _ & _ & H2 & _);
    [lia|rewrite length_replicate; lia|]. exists p', n. split; [exact H1|exact H2].
Defined.

Lemma varint32_saturates_witness :
  getVarint32 (varint_bytes [32; 0; 0; 0] 5 ++ [9]) = Some (0xffffffff, 5).
Proof.
  rewrite (varint32_saturates [32; 0; 0; 0] 5 [9]); [reflexivity|].
  split_and!; [repeat constructor; unfold digit; lia|simpl; lia|unfold digit; simpl; lia].
Defined.

Lemma fourbyte_roundtrip_witness :
  exists p', sqlite3Put4byte [1; 2; 3; 4; 5] 0xdeadbeef = Some p' /\
    sqlite3Get4byte p' = Some 0xdeadbeef.
Proof.
  destruct (fourbyte_roundtrip [1; 2; 3; 4; 5] 0xdeadbeef) as (p' & H1 & _ & H2);
    [unfold is_u32; lia|simpl; lia|]. exists p'. split; [exact H1|exact H2].
Defined.

Lemma varint_len_exact_witness : sqlite3VarintLen (2 ^ 63) = Some 10.
Proof.
  destruct (varint_len_exact (replicate 9 0) (2 ^ 63)) as (p' & n & _ & H);
    [lia|rewrite length_replicate; lia|]. exact H.
Defined.
