(* ===== verification/Utf.v ===== *)
(** * UTF-8 and UTF-16 (src/utf.c)

    - reading and writing one character: [sqlite3Utf8Read], [READ_UTF8], [WRITE_UTF8],
      [sqlite3AppendOneUtf8Character], [WRITE_UTF16LE], [WRITE_UTF16BE], [SQLITE_SKIP_UTF8],
      [sqlite3Utf8ReadLimited], [sqlite3Utf8CharLen];
    - [sqlite3VdbeMemTranslate], which converts a string between the encodings, with the buffer
      it allocates.

    A pointer into a string is the rest of the buffer from there on; reading at the end of the
    buffer is [None]. The build has no SQLITE_REPLACE_INVALID_UTF. *)

From stdpp Require Import list.
From S2P Require Import Prelude.
Local Open Scope Z_scope.

Module Utf.

(** ** Operations *)

Definition sqlite3Utf8Trans1 : list Z :=
  seqZ 0 32 ++ seqZ 0 16 ++ seqZ 0 8 ++ [0x00; 0x01; 0x02; 0x03; 0x00; 0x01; 0x00; 0x00].

Definition WRITE_UTF8 (c : Z) : bytes :=
  if c <? 0x00080 then [u8 (Z.land c 0xFF)]
  else if c <? 0x00800 then
    [u8 (0xC0 + u8 (Z.land (Z.shiftr c 6) 0x1F)); u8 (0x80 + u8 (Z.land c 0x3F))]
  else if c <? 0x10000 then
    [u8 (0xE0 + u8 (Z.land (Z.shiftr c 12) 0x0F)); u8 (0x80 + u8 (Z.land (Z.shiftr c 6) 0x3F)); u8 (0x80 + u8 (Z.land c 0x3F))]
  else
    [u8 (0xF0 + u8 (Z.land (Z.shiftr c 18) 0x07)); u8 (0x80 + u8 (Z.land (Z.shiftr c 12) 0x3F));
     u8 (0x80 + u8 (Z.land (Z.shiftr c 6) 0x3F)); u8 (0x80 + u8 (Z.land c 0x3F))].

(** The two bytes of the first and of the second unit of a surrogate pair, low byte first. *)
Definition pair_high (c : Z) : bytes :=
  [u8 (Z.land (Z.shiftr c 10) 0x003F + Z.land (Z.shiftr (u32 (c - 0x10000)) 10) 0x00C0);
   u8 (0x00D8 + Z.land (Z.shiftr (u32 (c - 0x10000)) 18) 0x03)].
Definition pair_low (c : Z) : bytes := [u8 (Z.land c 0x00FF); u8 (0x00DC + Z.land (Z.shiftr c 8) 0x03)].

Definition WRITE_UTF16LE (c : Z) : bytes :=
  if c <=? 0xFFFF then [u8 (Z.land c 0x00FF); u8 (Z.land (Z.shiftr c 8) 0x00FF)]
  else pair_high c ++ pair_low c.

Definition WRITE_UTF16BE (c : Z) : bytes :=
  if c <=? 0xFFFF then [u8 (Z.land (Z.shiftr c 8) 0x00FF); u8 (Z.land c 0x00FF)]
  else reverse (pair_high c) ++ reverse (pair_low c).

(** The bytes stored and their number, for a buffer of [len zOut] bytes. *)
Definition sqlite3AppendOneUtf8Character (zOut : bytes) (v : Z) : option (bytes * Z) :=
  let? z := mem_write zOut 0 (WRITE_UTF8 v) in Some (z, len (WRITE_UTF8 v)).

(** The loop over the continuation bytes in a string that ends with a zero byte. *)
Fixpoint read_tail (z : bytes) (c : Z) : option (Z * bytes) :=
  match z with
  | [] => None
  | b :: z' => if Z.land b 0xc0 =? 0x80 then read_tail z' (u32 (u32 (Z.shiftl c 6) + Z.land 0x3f b)) else Some (c, z)
  end.

Definition render (c : Z) : Z := if (c <? 0x80) || (Z.land c 0xFFFFF800 =? 0xD800) then 0xFFFD else c.

Definition sqlite3Utf8Read (z : bytes) : option (Z * bytes) :=
  let? c := head z in
  let z := tail z in
  if 0xc0 <=? c then
    let? t := sqlite3Utf8Trans1 !! Z.to_nat (c - 0xc0) in
    let? (c, z) := read_tail z t in Some (render c, z)
  else Some (c, z).

(** The same loop, which stops at [zTerm], the end of the list. *)
Fixpoint read_upto (z : bytes) (c : Z) : Z * bytes :=
  match z with
  | [] => (c, z)
  | b :: z' => if Z.land b 0xc0 =? 0x80 then read_upto z' (u32 (u32 (Z.shiftl c 6) + Z.land 0x3f b)) else (c, z)
  end.

Definition READ_UTF8 (z : bytes) : option (Z * bytes) :=
  let? c := head z in
  let z := tail z in
  if 0xc0 <=? c then
    let? t := sqlite3Utf8Trans1 !! Z.to_nat (c - 0xc0) in
    let '(c, z) := read_upto z t in Some (render c, z)
  else Some (c, z).

(** The number of bytes used and the character, for the [n] bytes at the start of [z]. *)
Fixpoint read_limited (n : nat) (z : bytes) (c i : Z) : option (Z * Z) :=
  match n with
  | O => Some (i, c)
  | S n =>
      let? b := head z in
      if Z.land b 0xc0 =? 0x80 then read_limited n (tail z) (u32 (u32 (Z.shiftl c 6) + Z.land 0x3f b)) (i + 1) else Some (i, c)
  end.

Definition sqlite3Utf8ReadLimited (z : bytes) (n : Z) : option (Z * Z) :=
  if negb (0 <? n) then None else
  let? c := head z in
  if 0xc0 <=? c then
    let? t := sqlite3Utf8Trans1 !! Z.to_nat (c - 0xc0) in
    read_limited (Z.to_nat (Z.min n 4 - 1)) (tail z) t 1
  else Some (1, c).

(** The loop of [SQLITE_SKIP_UTF8] over the continuation bytes. *)
Fixpoint skip_tail (z : bytes) : option bytes :=
  match z with
  | [] => None
  | b :: z' => if Z.land b 0xc0 =? 0x80 then skip_tail z' else Some z
  end.

Definition SQLITE_SKIP_UTF8 (z : bytes) : option bytes :=
  let? c := head z in if 0xc0 <=? c then skip_tail (tail z) else Some (tail z).

(** The loop, at the byte [i] of the string. *)
Fixpoint char_count (fuel : nat) (nByte : Z) (z : bytes) (i r : Z) : option Z :=
  match fuel with
  | O => None
  | S fuel =>
      let? b := head z in
      if negb (b =? 0) && ((nByte <? 0) || (i <? nByte)) then
        let? z' := SQLITE_SKIP_UTF8 z in char_count fuel nByte z' (i + (len z - len z')) (r + 1)
      else Some r
  end.

Definition sqlite3Utf8CharLen (zIn : bytes) (nByte : Z) : option Z := char_count (length zIn) nByte zIn 0 0.

(** The loop of [sqlite3Utf16ByteLen] at the byte [i] of the string. *)
Fixpoint byte_len (n : nat) (zIn : bytes) (nByte i : Z) : option Z :=
  match n with
  | O => Some i
  | S n =>
      if i <=? nByte - 1 then
        let? c := zIn !! Z.to_nat i in
        let i := i + 2 in
        let? second :=
          (if (0xd8 <=? c) && (c <? 0xdc) && (i <=? nByte - 1) then
             let? d := zIn !! Z.to_nat i in Some ((0xdc <=? d) && (d <? 0xe0))
           else Some false) in
        byte_len n zIn nByte (if second then i + 2 else i)
      else Some i
  end.

(** [be] is whether the native encoding is SQLITE_UTF16BE. *)
Definition sqlite3Utf16ByteLen (be : bool) (zIn : bytes) (nByte nChar : Z) : option Z :=
  let? i := byte_len (Z.to_nat nChar) zIn nByte (if be then 0 else 1) in Some (i - (if be then 0 else 1)).

(** *** Translation *)

Inductive enc := SQLITE_UTF8 | SQLITE_UTF16LE | SQLITE_UTF16BE.

#[global] Instance enc_eq_dec : EqDecision enc.
Proof. solve_decision. Defined.

(** A string value: the buffer, the number of bytes of the string and the encoding. *)
Record Mem := MemStr { m_z : bytes; m_n : Z; m_enc : enc }.

(** The loop that exchanges the bytes of each unit. *)
Fixpoint swap_bytes (n : nat) (z : bytes) : option bytes :=
  match n with
  | O => Some z
  | S n => match z with a :: b :: z => let? r := swap_bytes n z in Some (b :: a :: r) | _ => None end
  end.

Fixpoint utf8_to_utf16 (fuel : nat) (be : bool) (zIn : bytes) : option bytes :=
  match zIn with
  | [] => Some []
  | _ =>
      match fuel with
      | O => None
      | S fuel =>
          let? (c, zIn) := READ_UTF8 zIn in
          let? r := utf8_to_utf16 fuel be zIn in
          Some ((if be then WRITE_UTF16BE c else WRITE_UTF16LE c) ++ r)
      end
  end.

(** One unit of two bytes. *)
Definition read_unit (be : bool) (z : bytes) : option (Z * bytes) :=
  match z with
  | a :: b :: z => Some (if be then Z.shiftl a 8 + b else a + Z.shiftl b 8, z)
  | _ => None
  end.

Fixpoint utf16_to_utf8 (fuel : nat) (be : bool) (zIn : bytes) : option bytes :=
  match zIn with
  | [] => Some []
  | _ =>
      match fuel with
      | O => None
      | S fuel =>
          let? (c, zIn) := read_unit be zIn in
          let? (c, zIn) :=
            (if (0xd800 <=? c) && (c <? 0xe000) && (0 <? len zIn) then
               let? (c2, zIn) := read_unit be zIn in
               Some (Z.land c2 0x03FF + Z.shiftl (Z.land c 0x003F) 10 + Z.shiftl (Z.land c 0x03C0 + 0x0040) 10, zIn)
             else Some (c, zIn)) in
          let? r := utf16_to_utf8 fuel be zIn in Some (WRITE_UTF8 c ++ r)
      end
  end.

(** [malloc] is whether the output buffer, or a copy to write to, can be allocated. The bytes
    of the new buffer behind the terminator are left out of [m_z]. *)
Definition sqlite3VdbeMemTranslate (malloc : bool) (desiredEnc : enc) (m : Mem) : option (Mem * Z) :=
  if bool_decide (m_enc m = desiredEnc) || (m_n m <? 0) then None else
  if negb malloc then Some (if bool_decide (desiredEnc = SQLITE_UTF8) then MemStr (m_z m) (Z.land (m_n m) (-2)) (m_enc m) else m, SQLITE_NOMEM) else
  match m_enc m, desiredEnc with
  | SQLITE_UTF8, _ =>
      let? z := mem_read (m_z m) 0 (m_n m) in
      let? out := utf8_to_utf16 (length z) (bool_decide (desiredEnc = SQLITE_UTF16BE)) z in
      if 2 * m_n m + 2 <? len out + 2 then None
      else Some (MemStr (out ++ [0; 0]) (i32 (len out)) desiredEnc, SQLITE_OK)
  | e, SQLITE_UTF8 =>
      let n := Z.land (m_n m) (-2) in
      let? z := mem_read (m_z m) 0 n in
      let? out := utf16_to_utf8 (length z) (bool_decide (e = SQLITE_UTF16BE)) z in
      if 2 * n + 1 <? len out + 1 then None
      else Some (MemStr (out ++ [0]) (i32 (len out)) SQLITE_UTF8, SQLITE_OK)
  | _, _ =>
      let n := Z.land (m_n m) (-2) in
      let? z := mem_read (m_z m) 0 n in
      let? z := swap_bytes (Z.to_nat (n / 2)) z in
      let? z := mem_write (m_z m) 0 z in
      Some (MemStr z (m_n m) desiredEnc, SQLITE_OK)
  end.

Definition sqlite3VdbeMemHandleBom (malloc : bool) (m : Mem) : option (Mem * Z) :=
  if m_n m <? 0 then None else
  let? bom :=
    (if 1 <? m_n m then
       let? b1 := m_z m !! 0%nat in
       let? b2 := m_z m !! 1%nat in
       Some (if (b1 =? 0xFF) && (b2 =? 0xFE) then Some SQLITE_UTF16LE
             else if (b1 =? 0xFE) && (b2 =? 0xFF) then Some SQLITE_UTF16BE else None)
     else Some None) in
  match bom with
  | None => Some (m, SQLITE_OK)
  | Some bom =>
      if negb malloc then Some (m, SQLITE_NOMEM) else
      let n := m_n m - 2 in
      let? r := mem_read (m_z m) 2 n in
      let? z := mem_write (m_z m) 0 r in
      let? z := mem_write z n [0; 0] in
      Some (MemStr z n bom, SQLITE_OK)
  end.

(** ** One character *)

(** A code point that is not half of a surrogate pair. *)
Definition scalar (c : Z) : Prop := 0 <= c < 0x110000 /\ ~ 0xD800 <= c < 0xE000.

(** Masks and shifts as quotients and remainders. *)
Ltac fields :=
  repeat match goal with
  | |- context [Z.land ?x 0xFF] => rewrite (land_field x 0xFF 0 8) by done
  | |- context [Z.land ?x 0x3F] => rewrite (land_field x 0x3F 0 6) by done
  | |- context [Z.land ?x 0x1F] => rewrite (land_field x 0x1F 0 5) by done
  | |- context [Z.land ?x 0x0F] => rewrite (land_field x 0x0F 0 4) by done
  | |- context [Z.land ?x 0x07] => rewrite (land_field x 0x07 0 3) by done
  | |- context [Z.land ?x 0x03] => rewrite (land_field x 0x03 0 2) by done
  | |- context [Z.land ?x 0xC0] => rewrite (land_field x 0xC0 6 2) by done
  | |- context [Z.land ?x 0x3C0] => rewrite (land_field x 0x3C0 6 4) by done
  | |- context [Z.land ?x 0x3FF] => rewrite (land_field x 0x3FF 0 10) by done
  | |- context [Z.land ?x 0xFFFFF800] => rewrite (land_field x 0xFFFFF800 11 21) by done
  | |- context [Z.shiftr ?x ?n] => rewrite (Z.shiftr_div_pow2 x n) by done
  | |- context [Z.shiftl ?x ?n] => rewrite (Z.shiftl_mul_pow2 x n) by done
  end; repeat match goal with |- context [2 ^ ?k] => let v := eval vm_compute in (2 ^ k) in change (2 ^ k) with v end.

(** The bits of the first byte. *)
Definition lead (b : Z) : Z :=
  if b <? 0xe0 then b - 0xc0 else if b <? 0xf0 then b - 0xe0 else if b <? 0xf8 then b - 0xf0 else
  if b <? 0xfc then b - 0xf8 else if b <? 0xfe then b - 0xfc else 0.

Lemma trans1_lookup b : is_byte b -> 0xc0 <= b -> sqlite3Utf8Trans1 !! Z.to_nat (b - 0xc0) = Some (lead b).
Proof.
  intros Hb Hc.
  assert (H : (b <? 0xc0) || match sqlite3Utf8Trans1 !! Z.to_nat (b - 0xc0) with Some x => x =? lead b | None => false end = true)
    by (revert b Hb Hc; intros b Hb _; revert b Hb; apply byte_forall; vm_compute; done).
  rewrite (proj2 (Z.ltb_ge _ _) Hc) in H. destruct (_ !! _); [|done]. by apply Z.eqb_eq in H as ->.
Qed.

(** A continuation byte with the bits [x]. *)
Lemma cont_byte x : 0 <= x < 64 -> Z.land (0x80 + x) 0xc0 = 0x80 /\ Z.land 0x3f (0x80 + x) = x.
Proof. intros Hx. rewrite (Z.land_comm 0x3f). fields. split; Z.div_mod_to_equations; lia. Qed.

(** A byte that cannot continue a character, or the end. *)
Definition boundary (z : bytes) : Prop := match z with [] => True | b :: _ => Z.land b 0xc0 <> 0x80 end.

Lemma read_upto_stop z c : boundary z -> read_upto z c = (c, z).
Proof. destruct z as [|b z]; [done|]. intros H. cbn. by rewrite (proj2 (Z.eqb_neq _ _) H). Qed.

Lemma read_upto_cont x z c : 0 <= x < 64 -> 0 <= c < 2 ^ 26 -> read_upto ((0x80 + x) :: z) c = read_upto z (c * 64 + x).
Proof.
  intros Hx Hc. cbn -[Z.land Z.add u32]. destruct (cont_byte x Hx) as [-> ->]. cbn -[u32]. f_equal. rewrite Z.shiftl_mul_pow2 by lia. unfold u32. Z.div_mod_to_equations. lia.
Qed.

Lemma render_scalar c : scalar c -> 0x80 <= c -> render c = c.
Proof.
  intros [H1 H2] Hc. unfold render. rewrite (proj2 (Z.ltb_ge _ _) Hc). cbn [orb].
  destruct (Z.eqb_spec (Z.land c 0xFFFFF800) 0xD800) as [E|]; [|done]. exfalso. revert E. fields. intros E. apply H2. Z.div_mod_to_equations. lia.
Qed.

(** What [WRITE_UTF8] writes, for the ranges of code points. *)
Lemma write_utf8_eq c : scalar c -> WRITE_UTF8 c =
  if c <? 0x80 then [c] else
  if c <? 0x800 then [0xc0 + c / 64; 0x80 + c mod 64] else
  if c <? 0x10000 then [0xe0 + c / 4096; 0x80 + c / 64 mod 64; 0x80 + c mod 64]
  else [0xf0 + c / 2 ^ 18; 0x80 + c / 4096 mod 64; 0x80 + c / 64 mod 64; 0x80 + c mod 64].
Proof.
  intros [Hc _]. unfold WRITE_UTF8. case_cond; [|case_cond; [|case_cond]]; fields; unfold u8; repeat f_equal; Z.div_mod_to_equations; lia.
Qed.

Lemma read_utf8_write c z : scalar c -> boundary z -> READ_UTF8 (WRITE_UTF8 c ++ z) = Some (c, z).
Proof.
  intros Hc Hz. rewrite (write_utf8_eq c Hc). pose proof Hc as [Hr _]. unfold READ_UTF8. case_cond; [|case_cond; [|case_cond]]; cbn [app head tail].
  - by rewrite (proj2 (Z.leb_gt _ _)) by lia.
  - rewrite (proj2 (Z.leb_le _ _)), trans1_lookup by (unfold is_byte; Z.div_mod_to_equations; lia). cbn -[read_upto Z.add Z.div Z.modulo].
    unfold lead. rewrite (proj2 (Z.ltb_lt _ _)) by (Z.div_mod_to_equations; lia).
    rewrite read_upto_cont, read_upto_stop by (done || (Z.div_mod_to_equations; lia)).
    rewrite render_scalar; [do 2 f_equal; Z.div_mod_to_equations; lia|..]; (replace (_ * 64 + _) with c by (Z.div_mod_to_equations; lia)); done.
  - rewrite (proj2 (Z.leb_le _ _)), trans1_lookup by (unfold is_byte; Z.div_mod_to_equations; lia). cbn -[read_upto Z.add Z.div Z.modulo].
    unfold lead. rewrite (proj2 (Z.ltb_ge _ _)), (proj2 (Z.ltb_lt _ _)) by (Z.div_mod_to_equations; lia).
    rewrite !read_upto_cont, read_upto_stop by (done || (Z.div_mod_to_equations; lia)).
    replace (_ * 64 + c mod 64) with c by (Z.div_mod_to_equations; lia). rewrite render_scalar; [done|done|lia].
  - rewrite (proj2 (Z.leb_le _ _)), trans1_lookup by (unfold is_byte; Z.div_mod_to_equations; lia). cbn -[read_upto Z.add Z.div Z.modulo].
    unfold lead. rewrite !(proj2 (Z.ltb_ge _ _)), (proj2 (Z.ltb_lt _ _)) by (Z.div_mod_to_equations; lia).
    rewrite !read_upto_cont, read_upto_stop by (done || (Z.div_mod_to_equations; lia)).
    replace (_ * 64 + c mod 64) with c by (Z.div_mod_to_equations; lia). rewrite render_scalar; [done|done|lia].
Qed.

(** ** Strings *)

Definition WRITE_UTF16 (be : bool) (c : Z) : bytes := if be then WRITE_UTF16BE c else WRITE_UTF16LE c.

(** The text of the characters in each encoding. *)
Definition encode (e : enc) (cs : list Z) : bytes :=
  cs ≫= match e with SQLITE_UTF8 => WRITE_UTF8 | SQLITE_UTF16LE => WRITE_UTF16LE | SQLITE_UTF16BE => WRITE_UTF16BE end.

Lemma write_utf8_len c : 1 <= len (WRITE_UTF8 c) <= 4.
Proof. unfold WRITE_UTF8. repeat case_cond; cbn; lia. Qed.

Lemma boundary_write c z : scalar c -> boundary (WRITE_UTF8 c ++ z).
Proof.
  intros Hc. rewrite (write_utf8_eq c Hc). destruct Hc as [Hc _].
  repeat case_cond; cbn [app boundary]; fields; intros E; Z.div_mod_to_equations; lia.
Qed.

Lemma boundary_encode cs : Forall scalar cs -> boundary (encode SQLITE_UTF8 cs).
Proof. intros [|c cs' Hc _]; [done|]. by apply boundary_write. Qed.

Lemma encode_8_16 (be : bool) cs n :
  Forall scalar cs -> (length cs <= n)%nat ->
  utf8_to_utf16 n be (encode SQLITE_UTF8 cs) = Some (encode (if be then SQLITE_UTF16BE else SQLITE_UTF16LE) cs).
Proof.
  intros Hcs. revert n. induction Hcs as [|c cs Hc Hcs IH]; intros n Hn; [destruct n, be; done|].
  destruct n as [|n]; [cbn in Hn; lia|]. change (encode SQLITE_UTF8 (c :: cs)) with (WRITE_UTF8 c ++ encode SQLITE_UTF8 cs).
  pose proof (write_utf8_len c) as Hl. pose proof (read_utf8_write c _ Hc (boundary_encode cs Hcs)) as Hr.
  destruct (WRITE_UTF8 c ++ _) as [|b z] eqn:E; [destruct (WRITE_UTF8 c); cbn in Hl, E; [lia|done]|].
  cbn [utf8_to_utf16]. rewrite Hr. cbn [mbind option_bind]. rewrite IH by (cbn in Hn; lia). by destruct be.
Qed.

(** The units of a character. *)
Definition unit_bytes (be : bool) (u : Z) : bytes := if be then [u / 256; u mod 256] else [u mod 256; u / 256].

Definition high_unit (c : Z) : Z := 0xD800 + (c - 0x10000) / 1024.
Definition low_unit (c : Z) : Z := 0xDC00 + c mod 1024.
Definition units (c : Z) : list Z := if c <=? 0xFFFF then [c] else [high_unit c; low_unit c].

Lemma read_unit_bytes be u z : read_unit be (unit_bytes be u ++ z) = Some (u, z).
Proof. destruct be; cbn [app read_unit unit_bytes]; fields; do 2 f_equal; Z.div_mod_to_equations; lia. Qed.

Lemma pair_bytes c :
  0xFFFF < c < 0x110000 -> pair_high c = unit_bytes false (high_unit c) /\ pair_low c = unit_bytes false (low_unit c).
Proof.
  intros Hc. unfold pair_high, pair_low, unit_bytes, high_unit, low_unit. fields. unfold u8, u32.
  split; (f_equal; [|f_equal]); Z.div_mod_to_equations; lia.
Qed.

Lemma write_units be c : 0 <= c < 0x110000 -> WRITE_UTF16 be c = units c ≫= unit_bytes be.
Proof.
  intros Hc. unfold WRITE_UTF16, WRITE_UTF16BE, WRITE_UTF16LE, units. destruct (Z.leb_spec c 0xFFFF).
  - change ([c] ≫= unit_bytes be) with (unit_bytes be c ++ []). rewrite app_nil_r.
    destruct be; cbn [unit_bytes]; fields; unfold u8; (f_equal; [|f_equal]); Z.div_mod_to_equations; lia.
  - destruct (pair_bytes c ltac:(lia)) as [-> ->]. by destruct be.
Qed.

Lemma join_units c :
  0xFFFF < c < 0x110000 ->
  Z.land (low_unit c) 0x03FF + Z.shiftl (Z.land (high_unit c) 0x003F) 10 + Z.shiftl (Z.land (high_unit c) 0x03C0 + 0x0040) 10 = c.
Proof. intros Hc. unfold high_unit, low_unit. fields. Z.div_mod_to_equations. lia. Qed.

Lemma encode_16 (be : bool) (cs : list Z) : Forall scalar cs -> encode (if be then SQLITE_UTF16BE else SQLITE_UTF16LE) cs = (cs ≫= units) ≫= unit_bytes be.
Proof.
  induction 1 as [|c cs [Hc _] _ IH]; [by destruct be|].
  change ((c :: cs) ≫= units) with (units c ++ (cs ≫= units)). rewrite bind_app, <- IH, <- write_units by done. by destruct be.
Qed.

(** One character read from UTF-16. *)
Lemma utf16_step be c z n :
  scalar c ->
  utf16_to_utf8 (S n) be ((units c ≫= unit_bytes be) ++ z) = (let? r := utf16_to_utf8 n be z in Some (WRITE_UTF8 c ++ r)).
Proof.
  intros [Hc Hs]. assert (He : exists a r, (units c ≫= unit_bytes be) ++ z = a :: r)
    by (unfold units; case_cond; destruct be; by do 2 eexists).
  destruct He as (a & r & He). cbn [utf16_to_utf8]. rewrite He. rewrite <- He. clear a r He. unfold units.
  destruct (Z.leb_spec c 0xFFFF).
  - change ([c] ≫= unit_bytes be) with (unit_bytes be c ++ []). rewrite app_nil_r, read_unit_bytes. cbn [mbind option_bind].
    replace ((0xd800 <=? c) && (c <? 0xe000)) with false by lia. done.
  - change ([high_unit c; low_unit c] ≫= unit_bytes be) with (unit_bytes be (high_unit c) ++ unit_bytes be (low_unit c) ++ []).
    rewrite app_nil_r, <- app_assoc, read_unit_bytes. cbn [mbind option_bind].
    assert (0 < len (unit_bytes be (low_unit c) ++ z)) by (destruct be; cbn [app unit_bytes length]; lia).
    assert (0xd800 <= high_unit c < 0xe000) by (unfold high_unit; Z.div_mod_to_equations; lia).
    replace ((0xd800 <=? high_unit c) && (high_unit c <? 0xe000) && (0 <? len (unit_bytes be (low_unit c) ++ z))) with true by lia.
    rewrite read_unit_bytes. cbn [mbind option_bind]. rewrite join_units by lia. done.
Qed.

Lemma encode_16_8 (be : bool) cs n :
  Forall scalar cs -> (length cs <= n)%nat ->
  utf16_to_utf8 n be (encode (if be then SQLITE_UTF16BE else SQLITE_UTF16LE) cs) = Some (encode SQLITE_UTF8 cs).
Proof.
  intros Hcs Hn. rewrite encode_16 by done. revert n Hn. induction Hcs as [|c cs Hc Hcs IH]; intros n Hn; [by destruct n|].
  destruct n as [|n]; [cbn in Hn; lia|].
  change ((c :: cs) ≫= units) with (units c ++ (cs ≫= units)). rewrite bind_app, utf16_step, IH by (done || (cbn in Hn; lia)). done.
Qed.

Lemma swap_units (us : list Z) be z :
  swap_bytes (length us) ((us ≫= unit_bytes be) ++ z) = Some ((us ≫= unit_bytes (negb be)) ++ z).
Proof.
  induction us as [|u us IH]; [done|]. change ((u :: us) ≫= unit_bytes be) with (unit_bytes be u ++ (us ≫= unit_bytes be)).
  destruct be; cbn [unit_bytes app length swap_bytes]; by rewrite IH.
Qed.

(** ** Sizes *)

Lemma read_upto_bound z c c' z' :
  0 <= c < 64 -> bytes_ok z -> read_upto z c = (c', z') -> bytes_ok z' /\ len z' <= len z /\ (len z < len z' + 2 -> c' < 4096).
Proof.
  revert c. assert (H : forall z c c' z', bytes_ok z -> read_upto z c = (c', z') -> bytes_ok z' /\ len z' <= len z /\ (len z < len z' + 1 -> c' = c)).
  { intros z0. induction z0 as [|b z0 IH]; intros c0 c1 z1 Hz E; cbn in E; [injection E as <- <-; split; [done|lia]|].
    apply Forall_cons_1 in Hz as [Hb Hz0]. case_match; [apply IH in E as (? & ? & _); [|done]; cbn [length]; split; [done|lia]|].
    injection E as <- <-. split; [by constructor|lia]. }
  intros c Hc Hz E. destruct z as [|b z]; cbn in E; [injection E as <- <-; split; [done|lia]|].
  apply Forall_cons_1 in Hz as [Hb Hz]. case_match; [|injection E as <- <-; split; [by constructor|lia]].
  apply H in E as (? & Hl & Hq); [|done]. split; [done|]. split; [cbn [length]; lia|]. intros Hn.
  rewrite Hq by (cbn [length] in Hn; lia). rewrite (Z.land_comm 0x3f). fields. unfold u32. Z.div_mod_to_equations. lia.
Qed.

Lemma lead_bound b : is_byte b -> 0xc0 <= b -> 0 <= lead b < 64.
Proof. unfold is_byte, lead. intros. repeat case_cond; lia. Qed.

Lemma write_utf16_len be c : len (WRITE_UTF16 be c) = if c <=? 0xFFFF then 2 else 4.
Proof. unfold WRITE_UTF16, WRITE_UTF16BE, WRITE_UTF16LE. destruct be; by case_cond. Qed.

Lemma write_utf16_ok be c : bytes_ok (WRITE_UTF16 be c).
Proof.
  assert (H : forall x, is_byte (u8 x)) by (intros x; unfold is_byte, u8; Z.div_mod_to_equations; lia).
  unfold WRITE_UTF16, WRITE_UTF16BE, WRITE_UTF16LE. destruct be; case_cond; repeat (apply Forall_app_2 || (constructor; [apply H|]) || constructor).
Qed.

Lemma write_utf8_ok c : bytes_ok (WRITE_UTF8 c).
Proof.
  assert (H : forall x, is_byte (u8 x)) by (intros x; unfold is_byte, u8; Z.div_mod_to_equations; lia).
  unfold WRITE_UTF8. repeat case_cond; repeat (constructor; [apply H|]); constructor.
Qed.

(** Each character read takes enough bytes for the units it is written as. *)
Lemma read_utf8_bound be z :
  bytes_ok z -> z <> [] ->
  exists c z', READ_UTF8 z = Some (c, z') /\ bytes_ok z' /\ len z' < len z /\ len (WRITE_UTF16 be c) <= 2 * (len z - len z').
Proof.
  intros Hz Hn. destruct z as [|b z]; [done|]. apply Forall_cons_1 in Hz as [Hb Hz]. unfold READ_UTF8. cbn [head tail mbind option_bind].
  assert (Hl : len (b :: z) = len z + 1) by (cbn [length]; lia).
  destruct (Z.leb_spec 0xc0 b).
  - rewrite trans1_lookup by done. cbn [mbind option_bind]. destruct (read_upto z (lead b)) as [c z'] eqn:E.
    destruct (read_upto_bound _ _ _ _ (lead_bound b Hb ltac:(done)) Hz E) as (Hz' & Hle & Hs).
    exists (render c), z'. split; [done|]. split; [done|]. split; [lia|]. rewrite write_utf16_len.
    destruct (decide (len z < len z' + 2)) as [H1|H1]; [|case_match; lia]. specialize (Hs H1).
    assert (render c <= 0xFFFF) by (unfold render; case_match; lia). case_cond; lia.
  - exists b, z. split; [done|]. split; [done|]. split; [lia|]. rewrite write_utf16_len. unfold is_byte in Hb. case_cond; lia.
Qed.

Lemma utf8_to_utf16_bound be n z :
  bytes_ok z -> (length z <= n)%nat -> exists out, utf8_to_utf16 n be z = Some out /\ bytes_ok out /\ len out <= 2 * len z.
Proof.
  revert z. induction n as [|n IH]; intros z Hz Hn; [destruct z; [by exists []|cbn in Hn; lia]|].
  destruct (decide (z = [])) as [->|Hne]; [by exists []|].
  destruct (read_utf8_bound be z Hz Hne) as (c & z' & Hr & Hz' & Hl & Hw).
  destruct (IH z' Hz' ltac:(lia)) as (out & Ho & Hok & Hb).
  exists (WRITE_UTF16 be c ++ out). split; [destruct z; [done|]; cbn [utf8_to_utf16]; rewrite Hr; cbn [mbind option_bind]; by rewrite Ho|].
  split; [apply Forall_app_2; [apply write_utf16_ok|done]|]. rewrite length_app. lia.
Qed.

Lemma utf16_to_utf8_bound be n z :
  bytes_ok z -> (length z <= n)%nat -> len z mod 2 = 0 -> exists out, utf16_to_utf8 n be z = Some out /\ bytes_ok out /\ len out <= 2 * len z.
Proof.
  revert z. induction n as [|n IH]; intros z Hz Hn Hp; [destruct z; [by exists []|cbn in Hn; lia]|].
  destruct z as [|a [|b z]]; [by exists []|done|]. apply Forall_cons_1 in Hz as [Ha [Hb Hz]%Forall_cons_1]. unfold is_byte in *.
  cbn [length] in Hn, Hp |- *. cbn [utf16_to_utf8 read_unit mbind option_bind].
  set (c := if be then _ else _).
  assert (Hc : 0 <= c < 0x10000) by (unfold c; destruct be; fields; lia).
  assert (Hw : forall c, c < 0x10000 -> len (WRITE_UTF8 c) <= 3) by (intros c0 Hc0; unfold WRITE_UTF8; repeat case_cond; cbn [length]; lia).
  destruct ((0xd800 <=? c) && (c <? 0xe000) && (0 <? len z)) eqn:E.
  - destruct z as [|a2 [|b2 z]]; [by rewrite andb_false_r in E|by vm_compute in Hp|].
    apply Forall_cons_1 in Hz as [_ [_ Hz]%Forall_cons_1]. cbn [read_unit mbind option_bind]. set (c2 := _ + Z.shiftl (_ + 64) 10).
    destruct (IH z Hz ltac:(cbn [length] in Hn; lia) ltac:(cbn [length] in Hp; Z.div_mod_to_equations; lia)) as (out & Ho & Hok & Hl). rewrite Ho. cbn [mbind option_bind].
    exists (WRITE_UTF8 c2 ++ out). split; [done|]. split; [apply Forall_app_2; [apply write_utf8_ok|done]|].
    rewrite length_app. pose proof (write_utf8_len c2). cbn [length]. lia.
  - cbn [mbind option_bind]. destruct (IH z Hz ltac:(lia) ltac:(Z.div_mod_to_equations; lia)) as (out & Ho & Hok & Hl). rewrite Ho.
    exists (WRITE_UTF8 c ++ out). split; [done|]. split; [apply Forall_app_2; [apply write_utf8_ok|done]|].
    rewrite length_app. specialize (Hw c). lia.
Qed.

Lemma swap_bytes_total n z : (2 * n <= length z)%nat -> bytes_ok z -> exists z', swap_bytes n z = Some z' /\ length z' = length z /\ bytes_ok z'.
Proof.
  revert z. induction n as [|n IH]; intros z Hn Hz; [by exists z|]. destruct z as [|a [|b z]]; [cbn in Hn; lia|cbn in Hn; lia|].
  apply Forall_cons_1 in Hz as [Ha [Hb Hz]%Forall_cons_1]. destruct (IH z ltac:(cbn in Hn; lia) Hz) as (z' & E & Hl & Hz').
  exists (b :: a :: z'). cbn. rewrite E. cbn. rewrite Hl. split; [done|]. split; [done|]. apply Forall_cons_2; [done|]. by apply Forall_cons_2.
Qed.

Lemma even_part n : Z.land n (-2) = 2 * (n / 2).
Proof.
  change (-2) with (Z.lnot (Z.ones 1)). rewrite <- Z.ldiff_land, Z.ldiff_ones_r by lia.
  rewrite Z.shiftr_div_pow2, Z.shiftl_mul_pow2 by lia. change (2 ^ 1) with 2. lia.
Qed.

(** ** Translation *)

(** The bytes of the string. *)
Definition text (m : Mem) : option bytes := mem_read (m_z m) 0 (m_n m).

Definition mem_ok (m : Mem) : Prop := bytes_ok (m_z m) /\ 0 <= m_n m < 2 ^ 30 /\ m_n m <= len (m_z m).

Lemma text_out out t : len out < 2 ^ 31 -> mem_read (out ++ t) 0 (i32 (len out)) = Some out.
Proof.
  intros Hl. rewrite i32_small by lia. rewrite mem_read_total by (rewrite ?length_app; lia).
  rewrite Nat2Z.id. change (drop (Z.to_nat 0) (out ++ t)) with (out ++ t). by rewrite take_app_length.
Qed.

Definition translated (m : Mem) (e : enc) (m' : Mem) : Prop :=
  sqlite3VdbeMemTranslate true e m = Some (m', SQLITE_OK) /\ m_enc m' = e /\ bytes_ok (m_z m') /\
  0 <= m_n m' <= 2 * m_n m /\ m_n m' <= len (m_z m').

Lemma translate_from8 m be :
  mem_ok m -> m_enc m = SQLITE_UTF8 ->
  exists z out, text m = Some z /\ utf8_to_utf16 (length z) be z = Some out /\ len out <= 2 * m_n m /\
    translated m (if be then SQLITE_UTF16BE else SQLITE_UTF16LE) (MemStr (out ++ [0; 0]) (i32 (len out)) (if be then SQLITE_UTF16BE else SQLITE_UTF16LE)).
Proof.
  intros (Hz & Hn & Hl) He. pose proof (mem_read_total (m_z m) 0 (m_n m) ltac:(lia) ltac:(lia) ltac:(lia)) as Ht.
  set (z := take _ _) in Ht. assert (Hzl : len z = m_n m) by apply (mem_read_length _ _ _ _ Ht).
  destruct (utf8_to_utf16_bound be (length z) z ltac:(by eapply mem_read_bytes) ltac:(done)) as (out & Ho & Hok & Hb).
  exists z, out. split; [done|]. split; [done|]. split; [lia|]. unfold translated, sqlite3VdbeMemTranslate. rewrite He, Ht.
  replace (m_n m <? 0) with false by lia. cbn [mbind option_bind m_enc m_z m_n negb].
  split; [destruct be; (rewrite bool_decide_eq_false_2 by done); cbn [orb bool_decide decide enc_eq_dec]; rewrite ?Ho; cbn [mbind option_bind]|].
  - change (bool_decide (SQLITE_UTF16BE = SQLITE_UTF16BE)) with true. rewrite Ho. cbn [mbind option_bind]. by replace (_ <? _) with false by lia.
  - change (bool_decide (SQLITE_UTF16LE = SQLITE_UTF16BE)) with false. rewrite Ho. cbn [mbind option_bind]. by replace (_ <? _) with false by lia.
  - rewrite i32_small by lia. split; [done|]. split; [apply Forall_app_2; [done|by repeat constructor]|]. rewrite length_app. lia.
Qed.

Lemma translate_to8 m (be : bool) :
  mem_ok m -> m_enc m = (if be then SQLITE_UTF16BE else SQLITE_UTF16LE) ->
  exists z out, mem_read (m_z m) 0 (2 * (m_n m / 2)) = Some z /\ utf16_to_utf8 (length z) be z = Some out /\ len out <= 2 * m_n m /\
    translated m SQLITE_UTF8 (MemStr (out ++ [0]) (i32 (len out)) SQLITE_UTF8).
Proof.
  intros (Hz & Hn & Hl) He. assert (He2 : 0 <= 2 * (m_n m / 2) <= m_n m) by (Z.div_mod_to_equations; lia).
  pose proof (mem_read_total (m_z m) 0 (2 * (m_n m / 2)) ltac:(lia) ltac:(lia) ltac:(lia)) as Ht.
  set (z := take _ _) in Ht. assert (Hzl : len z = 2 * (m_n m / 2)) by apply (mem_read_length _ _ _ _ Ht).
  destruct (utf16_to_utf8_bound be (length z) z ltac:(by eapply mem_read_bytes) ltac:(done)) as (out & Ho & Hok & Hb).
  { rewrite Hzl, Z.mul_comm. apply Z_mod_mult. }
  exists z, out. split; [done|]. split; [done|]. split; [lia|]. unfold translated, sqlite3VdbeMemTranslate. rewrite He, even_part, Ht.
  replace (m_n m <? 0) with false by lia. cbn [mbind option_bind m_enc m_z m_n negb].
  split; [destruct be; (rewrite bool_decide_eq_false_2 by done); cbn [orb]|].
  - change (bool_decide (SQLITE_UTF16BE = SQLITE_UTF16BE)) with true. rewrite Ho. cbn [mbind option_bind]. by replace (_ <? _) with false by lia.
  - change (bool_decide (SQLITE_UTF16LE = SQLITE_UTF16BE)) with false. rewrite Ho. cbn [mbind option_bind]. by replace (_ <? _) with false by lia.
  - rewrite i32_small by lia. split; [done|]. split; [apply Forall_app_2; [done|by repeat constructor]|]. rewrite length_app. lia.
Qed.

Lemma translate_swap m (be : bool) :
  mem_ok m -> m_enc m = (if be then SQLITE_UTF16BE else SQLITE_UTF16LE) ->
  exists z z' w, mem_read (m_z m) 0 (2 * (m_n m / 2)) = Some z /\ swap_bytes (Z.to_nat (m_n m / 2)) z = Some z' /\
    mem_write (m_z m) 0 z' = Some w /\ length z' = length z /\
    translated m (if be then SQLITE_UTF16LE else SQLITE_UTF16BE) (MemStr w (m_n m) (if be then SQLITE_UTF16LE else SQLITE_UTF16BE)).
Proof.
  intros (Hz & Hn & Hl) He. assert (He2 : 0 <= 2 * (m_n m / 2) <= m_n m) by (Z.div_mod_to_equations; lia).
  pose proof (mem_read_total (m_z m) 0 (2 * (m_n m / 2)) ltac:(lia) ltac:(lia) ltac:(lia)) as Ht.
  set (z := take _ _) in Ht. assert (Hzl : len z = 2 * (m_n m / 2)) by apply (mem_read_length _ _ _ _ Ht).
  destruct (swap_bytes_total (Z.to_nat (m_n m / 2)) z ltac:(lia) ltac:(by eapply mem_read_bytes)) as (z' & Hs & Hz'l & Hz'ok).
  pose proof (mem_write_total (m_z m) 0 z' ltac:(lia) ltac:(lia)) as Hw. set (w := _ ++ _) in Hw.
  exists z, z', w. split; [done|]. split; [done|]. split; [done|]. split; [done|]. unfold translated, sqlite3VdbeMemTranslate.
  rewrite He, even_part, Ht. replace (m_n m <? 0) with false by lia. cbn [mbind option_bind m_enc m_z m_n negb].
  replace (2 * (m_n m / 2) / 2) with (m_n m / 2) by (rewrite Z.mul_comm; by rewrite Z.div_mul).
  split; [destruct be; (rewrite bool_decide_eq_false_2 by done); cbn [orb mbind option_bind]; rewrite Hs; cbn [mbind option_bind]; by rewrite Hw|].
  split; [done|]. split; [by apply (mem_write_bytes _ _ _ _ Hz Hz'ok Hw)|]. pose proof (mem_write_length _ _ _ _ Hw). lia.
Qed.

Lemma encode_fuel e cs : (length cs <= length (encode e cs))%nat.
Proof.
  induction cs as [|c cs IH]; [done|]. unfold encode in *. rewrite (bind_app _ [c] cs : (c :: cs) ≫= _ = _), length_app.
  match goal with |- context [length ([c] ≫= ?f)] => assert (H : 1 <= len ([c] ≫= f)) end; [|cbn [length]; lia].
  pose proof (write_utf8_len c). pose proof (write_utf16_len false c). pose proof (write_utf16_len true c). unfold WRITE_UTF16 in *.
  destruct e; cbn [mbind list_bind]; rewrite app_nil_r; [lia|case_match; lia|case_match; lia].
Qed.

Lemma len_units be (us : list Z) : len (us ≫= unit_bytes be) = 2 * len us.
Proof.
  induction us as [|u us IH]; [done|]. change ((u :: us) ≫= unit_bytes be) with (unit_bytes be u ++ (us ≫= unit_bytes be)).
  rewrite length_app, Nat2Z.inj_add, IH. destruct be; cbn [unit_bytes length]; lia.
Qed.

(** A text of characters is translated to the text of the same characters. *)
Lemma translate_encode e e' cs m :
  e <> e' -> Forall scalar cs -> mem_ok m -> m_enc m = e -> text m = Some (encode e cs) ->
  exists m', translated m e' m' /\ text m' = Some (encode e' cs).
Proof.
  intros Hne Hcs Hok He Ht.
  pose proof (mem_read_length _ _ _ _ Ht) as Hlen. pose proof Hok as (_ & Hr & _).
  assert (H8 : forall be : bool, e = SQLITE_UTF8 -> e' = (if be then SQLITE_UTF16BE else SQLITE_UTF16LE) ->
                 exists m', translated m e' m' /\ text m' = Some (encode e' cs)).
  { intros be -> ->. destruct (translate_from8 m be Hok He) as (z & out & Hz & Ho & Hlo & HT). rewrite Ht in Hz. injection Hz as <-.
    rewrite encode_8_16 in Ho by (done || apply encode_fuel). injection Ho as <-. eexists. split; [exact HT|]. apply text_out. lia. }
  assert (H16 : forall be : bool, e = (if be then SQLITE_UTF16BE else SQLITE_UTF16LE) -> exists m', translated m e' m' /\ text m' = Some (encode e' cs)).
  { intros be ->. pose proof Hlen as Hu. rewrite encode_16, len_units in Hu by done.
    assert (He2 : 2 * (m_n m / 2) = m_n m) by (Z.div_mod_to_equations; lia).
    destruct (decide (e' = SQLITE_UTF8)) as [->|].
    - destruct (translate_to8 m be Hok He) as (z & out & Hz & Ho & Hlo & HT). rewrite He2 in Hz. unfold text in Ht. rewrite Ht in Hz. injection Hz as <-.
      rewrite encode_16_8 in Ho by (done || apply encode_fuel). injection Ho as <-. eexists. split; [exact HT|]. apply text_out. lia.
    - destruct (translate_swap m be Hok He) as (z & z' & w & Hz & Hs & Hw & Hl & HT). rewrite He2 in Hz. unfold text in Ht. rewrite Ht in Hz. injection Hz as <-.
      replace e' with (if be then SQLITE_UTF16LE else SQLITE_UTF16BE) by (destruct be, e'; done).
      eexists. split; [exact HT|]. unfold text. cbn [m_z m_n]. rewrite <- Hlen, <- Hl. rewrite (mem_read_write_eq _ _ _ _ Hw).
      rewrite encode_16 in Hs by done. replace (Z.to_nat (m_n m / 2)) with (length (cs ≫= units)) in Hs by (Z.div_mod_to_equations; lia).
      pose proof (swap_units (cs ≫= units) be []) as Hsw. rewrite !app_nil_r in Hsw. rewrite Hsw in Hs. injection Hs as <-.
      pose proof (encode_16 (negb be) cs Hcs) as E. by destruct be; cbn [negb] in E |- *; rewrite E. }
  destruct e; [|by apply (H16 false)|by apply (H16 true)]. destruct e'; [done|by apply (H8 false)|by apply (H8 true)].
Qed.

(** ** Strings with a terminator *)

Lemma read_tail_upto z c t : read_tail (z ++ 0 :: t) c = Some (let '(c', z') := read_upto z c in (c', z' ++ 0 :: t)).
Proof. revert c. induction z as [|b z IH]; intros c; [done|]. cbn -[Z.land]. case_match; [apply IH|done]. Qed.

(** Reading up to the terminator is reading up to the end. *)
Lemma utf8_read_terminated z t :
  z <> [] -> sqlite3Utf8Read (z ++ 0 :: t) = (let? (c, z') := READ_UTF8 z in Some (c, z' ++ 0 :: t)).
Proof.
  intros Hn. destruct z as [|b z]; [done|]. unfold sqlite3Utf8Read, READ_UTF8. cbn [app head tail mbind option_bind]. case_match; [|done].
  destruct (sqlite3Utf8Trans1 !! _); [|done]. cbn [mbind option_bind]. rewrite read_tail_upto. cbn [mbind option_bind]. by destruct (read_upto z z0).
Qed.

Lemma skip_tail_read z c : skip_tail z = snd <$> read_tail z c.
Proof. revert c. induction z as [|b z IH]; intros c; [done|]. cbn -[Z.land]. case_match; [apply IH|done]. Qed.

(** Skipping a character is reading it. *)
Lemma skip_read z : bytes_ok z -> SQLITE_SKIP_UTF8 z = snd <$> sqlite3Utf8Read z.
Proof.
  intros Hz. destruct z as [|b z]; [done|]. apply Forall_cons_1 in Hz as [Hb _]. unfold SQLITE_SKIP_UTF8, sqlite3Utf8Read. cbn [head tail mbind option_bind].
  destruct (Z.leb_spec 0xc0 b); [|done]. rewrite trans1_lookup by done. cbn [mbind option_bind]. rewrite (skip_tail_read z (lead b)).
  by destruct (read_tail z (lead b)) as [[? ?]|].
Qed.

Lemma encode_ok e cs : bytes_ok (encode e cs).
Proof.
  induction cs as [|c cs IH]; [destruct e; constructor|].
  destruct e; (apply Forall_app_2; [|exact IH]); [apply write_utf8_ok|apply (write_utf16_ok false)|apply (write_utf16_ok true)].
Qed.

Lemma char_count_encode cs t n i r :
  Forall scalar cs -> Forall (fun c => c <> 0) cs -> bytes_ok t -> (length cs < n)%nat ->
  char_count n (-1) (encode SQLITE_UTF8 cs ++ 0 :: t) i r = Some (r + len cs).
Proof.
  intros Hcs. revert n i r. induction Hcs as [|c cs Hc Hcs IH]; intros n i r Hnz Ht Hn; (destruct n as [|n]; [cbn in Hn; lia|]).
  - cbn. f_equal. lia.
  - apply Forall_cons_1 in Hnz as [Hc0 Hnz]. cbn [char_count].
    change (encode SQLITE_UTF8 (c :: cs)) with (WRITE_UTF8 c ++ encode SQLITE_UTF8 cs).
    pose proof (read_utf8_write c _ Hc (boundary_encode cs Hcs)) as Hr.
    assert (Hh : exists b z, WRITE_UTF8 c ++ encode SQLITE_UTF8 cs = b :: z /\ b <> 0).
    { rewrite (write_utf8_eq c Hc). destruct Hc as [Hc _]. repeat case_cond; cbn [app]; do 2 eexists; (split; [reflexivity|]); Z.div_mod_to_equations; lia. }
    destruct Hh as (b & z & Hh & Hb0). rewrite Hh in Hr |- *. change ((b :: z) ++ 0 :: t) with (b :: z ++ 0 :: t). cbn [head mbind option_bind].
    rewrite (proj2 (Z.eqb_neq b 0) Hb0). cbn [negb andb orb Z.ltb Z.compare].
    rewrite skip_read. 2: { change (b :: z ++ 0 :: t) with ((b :: z) ++ 0 :: t). rewrite <- Hh. repeat (apply Forall_app_2 || constructor || done || apply write_utf8_ok || apply (encode_ok SQLITE_UTF8)). }
    change (b :: z ++ 0 :: t) with ((b :: z) ++ 0 :: t). rewrite utf8_read_terminated by done. rewrite Hr. cbn [mbind option_bind fmap option_fmap option_map snd].
    rewrite IH by (done || (cbn in Hn; lia)). cbn [length]. f_equal. lia.
Qed.

(** The number of characters of a text. *)
Lemma char_len_encode cs t :
  Forall scalar cs -> Forall (fun c => c <> 0) cs -> bytes_ok t ->
  sqlite3Utf8CharLen (encode SQLITE_UTF8 cs ++ 0 :: t) (-1) = Some (len cs).
Proof.
  intros Hcs Hnz Ht. unfold sqlite3Utf8CharLen. rewrite char_count_encode; try done. rewrite length_app.
  pose proof (encode_fuel SQLITE_UTF8 cs). cbn [length]. lia.
Qed.

(** The byte of a unit that tells its kind. *)
Lemma unit_high (be : bool) (us : list Z) (k : nat) u :
  us !! k = Some u -> (us ≫= unit_bytes be) !! Z.to_nat (2 * Z.of_nat k + if be then 0 else 1) = Some (u / 256).
Proof.
  revert k. induction us as [|x us IH]; intros k Hk; [done|]. change ((x :: us) ≫= unit_bytes be) with (unit_bytes be x ++ (us ≫= unit_bytes be)).
  destruct k as [|k]; [injection Hk as ->; by destruct be|].
  rewrite lookup_app_r by (destruct be; cbn [unit_bytes length]; lia). rewrite <- (IH k Hk). f_equal. destruct be; cbn [unit_bytes length]; lia.
Qed.

Lemma byte_len_units be (pre cs ds : list Z) :
  Forall scalar cs ->
  byte_len (length cs) ((pre ++ (cs ≫= units) ++ ds) ≫= unit_bytes be) (2 * len (pre ++ (cs ≫= units) ++ ds)) (2 * len pre + if be then 0 else 1) =
  Some (2 * len (pre ++ (cs ≫= units)) + if be then 0 else 1).
Proof.
  intros H. revert pre. induction H as [|c cs [Hc Hs] _ IH]; intros pre; [by rewrite app_nil_r|]. cbn [length byte_len].
  change ((c :: cs) ≫= units) with (units c ++ (cs ≫= units)). specialize (IH (pre ++ units c)). rewrite <- !app_assoc in IH |- *.
  set (us := pre ++ units c ++ _) in *. assert (Hlen : (length us = length pre + length (units c) + length ((cs ≫= units) ++ ds))%nat) by (unfold us; rewrite !length_app; lia).
  assert (Hu : forall k u, units c !! k = Some u -> us !! (length pre + k)%nat = Some u).
  { intros k u Hk. unfold us. rewrite lookup_app_r by lia. replace (_ - _)%nat with k by lia. by apply lookup_app_l_Some. }
  assert (Hg : 1 <= len (units c)) by (unfold units; case_cond; cbn; lia). rewrite (proj2 (Z.leb_le _ _)) by (destruct be; lia).
  destruct (decide (c <= 0xFFFF)) as [Hle|Hgt].
  - assert (Eu : units c = [c]) by (unfold units; by rewrite (proj2 (Z.leb_le c 0xFFFF)) by lia). rewrite Eu in *. clear Eu.
    rewrite (unit_high be us (length pre) c) by (rewrite <- (Hu 0%nat c eq_refl); f_equal; lia). cbn [mbind option_bind].
    replace ((0xd8 <=? c / 256) && (c / 256 <? 0xdc)) with false by (Z.div_mod_to_equations; lia). cbn [andb mbind option_bind].
    rewrite length_app in IH. cbn [length] in IH. replace (2 * Z.of_nat (length pre + 1) + (if be then 0 else 1)) with (2 * len pre + (if be then 0 else 1) + 2) in IH by (destruct be; lia).
    rewrite IH. by rewrite <- app_assoc.
  - assert (Eu : units c = [high_unit c; low_unit c]) by (unfold units; by rewrite (proj2 (Z.leb_gt c 0xFFFF)) by lia). rewrite Eu in *. clear Eu.
    assert (Hh : 0xd8 <= high_unit c / 256 < 0xdc) by (unfold high_unit; Z.div_mod_to_equations; lia).
    assert (Hlo : 0xdc <= low_unit c / 256 < 0xe0) by (unfold low_unit; Z.div_mod_to_equations; lia). cbn [length] in Hlen.
    rewrite (unit_high be us (length pre) (high_unit c)) by (rewrite <- (Hu 0%nat (high_unit c) eq_refl); f_equal; lia). cbn [mbind option_bind].
    replace ((0xd8 <=? high_unit c / 256) && (high_unit c / 256 <? 0xdc) && (2 * len pre + (if be then 0 else 1) + 2 <=? 2 * len us - 1)) with true by (destruct be; lia).
    replace (2 * len pre + (if be then 0 else 1) + 2) with (2 * Z.of_nat (length pre + 1) + (if be then 0 else 1)) by (destruct be; lia).
    rewrite (unit_high be us (length pre + 1) (low_unit c)) by (by apply Hu). cbn [mbind option_bind].
    replace ((0xdc <=? low_unit c / 256) && (low_unit c / 256 <? 0xe0)) with true by lia. rewrite length_app in IH. cbn [length] in IH.
    replace (2 * Z.of_nat (length pre + 2) + (if be then 0 else 1)) with (2 * Z.of_nat (length pre + 1) + (if be then 0 else 1) + 2) in IH by (destruct be; lia).
    rewrite IH. by rewrite <- app_assoc.
Qed.

(** The bytes of the first characters of a text. *)
Lemma utf16_byte_len_encode (be : bool) cs ds :
  Forall scalar cs -> Forall scalar ds ->
  let e := if be then SQLITE_UTF16BE else SQLITE_UTF16LE in
  sqlite3Utf16ByteLen be (encode e (cs ++ ds)) (len (encode e (cs ++ ds))) (len cs) = Some (len (encode e cs)).
Proof.
  intros Hc Hd e. unfold sqlite3Utf16ByteLen, e. rewrite !encode_16, !len_units, bind_app, Nat2Z.id by (done || by apply Forall_app_2).
  pose proof (byte_len_units be [] cs (ds ≫= units) Hc) as H. change (2 * len [] + ?x) with (0 + x) in H. rewrite Z.add_0_l in H. cbn [app] in H.
  rewrite H. cbn [mbind option_bind]. f_equal. lia.
Qed.

(** What is read for a character of at most four bytes. *)
Lemma read_limited_bound n z c i :
  (n <= length z)%nat -> exists j c', read_limited n z c i = Some (j, c') /\ i <= j <= i + Z.of_nat n.
Proof.
  revert z c i. induction n as [|n IH]; intros z c i Hn; [exists i, c; split; [done|lia]|]. destruct z as [|b z]; [cbn in Hn; lia|].
  cbn [read_limited head tail mbind option_bind]. case_match; [|exists i, c; split; [done|lia]].
  destruct (IH z (u32 (u32 (Z.shiftl c 6) + Z.land 0x3f b)) (i + 1) ltac:(cbn in Hn; lia)) as (j & c' & -> & Hj). exists j, c'. split; [done|lia].
Qed.

Lemma utf8_read_limited_bound z n :
  bytes_ok z -> 0 < n <= len z -> exists i c, sqlite3Utf8ReadLimited z n = Some (i, c) /\ 1 <= i <= Z.min n 4.
Proof.
  intros Hz Hn. destruct z as [|b z]; [cbn in Hn; lia|]. apply Forall_cons_1 in Hz as [Hb Hz]. unfold sqlite3Utf8ReadLimited.
  replace (0 <? n) with true by lia. cbn [negb head tail mbind option_bind].
  destruct (Z.leb_spec 0xc0 b); [|exists 1, b; split; [done|lia]]. rewrite trans1_lookup by done. cbn [mbind option_bind]. cbn [length] in Hn.
  destruct (read_limited_bound (Z.to_nat (Z.min n 4 - 1)) z (lead b) 1 ltac:(lia)) as (j & c' & -> & Hj). exists j, c'. split; [done|lia].
Qed.

(** A byte-order mark is removed and decides the encoding. *)
Lemma handle_bom_exact e t m :
  e <> SQLITE_UTF8 -> text m = Some (encode e [0xFEFF] ++ t) ->
  exists m', sqlite3VdbeMemHandleBom true m = Some (m', SQLITE_OK) /\ m_enc m' = e /\ text m' = Some t.
Proof.
  intros He Ht. pose proof (mem_read_length _ _ _ _ Ht) as Hl. pose proof Ht as (_ & _ & Hb & _)%mem_read_Some.
  set (b1 := if bool_decide (e = SQLITE_UTF16BE) then 0xFE else 0xFF). set (b2 := if bool_decide (e = SQLITE_UTF16BE) then 0xFF else 0xFE).
  assert (Hb12 : encode e [0xFEFF] = [b1; b2]) by (by destruct e). rewrite Hb12 in *. rewrite length_app in Hl. cbn [length] in Hl.
  assert (Hz : exists rest, m_z m = b1 :: b2 :: t ++ rest).
  { exists (drop (Z.to_nat (m_n m)) (m_z m)). apply mem_read_Some in Ht as (_ & _ & _ & Ht).
    change (b1 :: b2 :: t ++ ?r) with (([b1; b2] ++ t) ++ r). rewrite Ht. symmetry. apply take_drop. }
  destruct Hz as (rest & Hz). unfold sqlite3VdbeMemHandleBom. rewrite Hz in Hb |- *. cbn [length] in Hb. rewrite length_app in Hb.
  replace (m_n m <? 0) with false by lia. replace (1 <? m_n m) with true by lia. cbn [lookup list_lookup mbind option_bind].
  replace (m_n m - 2) with (len t) by lia.
  replace (if (b1 =? 0xFF) && (b2 =? 0xFE) then _ else _) with (Some e) by (by destruct e). cbn [negb].
  rewrite mem_read_total by (cbn [length]; rewrite ?length_app; lia). rewrite Nat2Z.id.
  change (drop (Z.to_nat 2) (b1 :: b2 :: t ++ rest)) with (t ++ rest). rewrite take_app_length. cbn [mbind option_bind].
  destruct (mem_write (b1 :: b2 :: t ++ rest) 0 t) as [w|] eqn:Hw; [|rewrite mem_write_total in Hw by (cbn [length]; rewrite ?length_app; lia); done].
  cbn [mbind option_bind]. pose proof (mem_write_length _ _ _ _ Hw) as Hwl. cbn [length] in Hwl. rewrite length_app in Hwl.
  destruct (mem_write w (len t) [0; 0]) as [w2|] eqn:Hw2; [|rewrite mem_write_total in Hw2 by (cbn [length]; lia); done].
  cbn [mbind option_bind]. eexists. split; [reflexivity|]. split; [done|]. unfold text. cbn [m_z m_n].
  rewrite (mem_read_write_ne _ _ _ _ 0 (len t) Hw2) by lia. by apply (mem_read_write_eq _ _ _ _ Hw).
Qed.

(** Any string is translated. *)
Lemma translate_total e m : mem_ok m -> m_enc m <> e -> exists m', translated m e m'.
Proof.
  intros Hok Hne. destruct (m_enc m) eqn:He.
  - destruct e; [done|..].
    + destruct (translate_from8 m false Hok He) as (? & ? & _ & _ & _ & HT). by eexists.
    + destruct (translate_from8 m true Hok He) as (? & ? & _ & _ & _ & HT). by eexists.
  - destruct e; [|done|].
    + destruct (translate_to8 m false Hok He) as (? & ? & _ & _ & _ & HT). by eexists.
    + destruct (translate_swap m false Hok He) as (? & ? & ? & _ & _ & _ & _ & HT). by eexists.
  - destruct e; [| |done].
    + destruct (translate_to8 m true Hok He) as (? & ? & _ & _ & _ & HT). by eexists.
    + destruct (translate_swap m true Hok He) as (? & ? & ? & _ & _ & _ & _ & HT). by eexists.
Qed.

(** ** Claims *)

(** C39: a string of Unicode scalar values, in any of the three encodings, is converted by
    [sqlite3VdbeMemTranslate] to the same characters in the other encoding, and converting the
    result back gives the bytes of the original string. *)
Theorem utf_roundtrip e e' cs m :
  e <> e' -> Forall scalar cs -> mem_ok m -> m_n m < 2 ^ 29 -> m_enc m = e -> text m = Some (encode e cs) ->
  exists m1 m2,
    sqlite3VdbeMemTranslate true e' m = Some (m1, SQLITE_OK) /\ m_enc m1 = e' /\ text m1 = Some (encode e' cs) /\
    sqlite3VdbeMemTranslate true e m1 = Some (m2, SQLITE_OK) /\ m_enc m2 = e /\ text m2 = text m.
Proof.
  intros Hne Hcs Hok Hn He Ht. destruct (translate_encode e e' cs m Hne Hcs Hok He Ht) as (m1 & (Hr & He1 & Hz & Hb & Hl) & Ht1).
  destruct (translate_encode e' e cs m1 ltac:(done) Hcs) as (m2 & (Hr2 & He2 & _) & Ht2); [split; [done|split; [lia|done]]|done|done|].
  exists m1, m2. by rewrite Ht, Ht2.
Qed.


(** ** Witnesses *)

(** The text of a one-byte, a two-byte, a three-byte and a four-byte character. *)
Definition demo_chars : list Z := [0x41; 0xE9; 0x20AC; 0x1F600].
Definition demo_mem : Mem := MemStr (encode SQLITE_UTF8 demo_chars ++ [0]) 10 SQLITE_UTF8.

Example demo_translate :
  sqlite3VdbeMemTranslate true SQLITE_UTF16LE demo_mem =
  Some (MemStr [0x41; 0; 0xE9; 0; 0xAC; 0x20; 0x3D; 0xD8; 0x00; 0xDE; 0; 0] 10 SQLITE_UTF16LE, SQLITE_OK).
Proof. reflexivity. Qed.

Example demo_invalid : READ_UTF8 [0xC0; 0x80; 0x41] = Some (0xFFFD, [0x41]).
Proof. reflexivity. Qed.

Lemma demo_scalars : Forall scalar demo_chars.
Proof. repeat constructor; unfold scalar; lia. Qed.

Lemma utf_roundtrip_witness :
  exists m1 m2, sqlite3VdbeMemTranslate true SQLITE_UTF16LE demo_mem = Some (m1, SQLITE_OK) /\ m_enc m1 = SQLITE_UTF16LE /\
    text m1 = Some (encode SQLITE_UTF16LE demo_chars) /\
    sqlite3VdbeMemTranslate true SQLITE_UTF8 m1 = Some (m2, SQLITE_OK) /\ m_enc m2 = SQLITE_UTF8 /\ text m2 = text demo_mem.
Proof.
  apply (utf_roundtrip SQLITE_UTF8 SQLITE_UTF16LE demo_chars demo_mem); [done|apply demo_scalars| |done|done|reflexivity].
  split; [apply (bool_decide_unpack _); vm_compute; done|]. cbn. lia.
Defined.


End Utf.
