(* ===== verification/Like.v ===== *)
(** * LIKE and GLOB (src/func.c)

    - [patternCompare], the matcher of both operators, with the loops that follow a wildcard and
      the loop over a [[...]] set;
    - [sqlite3_strglob] and [sqlite3_strlike];
    - [likeFunc], the SQL function, with its errors and the ESCAPE argument.

    A pattern is parsed to a list of items and matched against the characters of the string by a
    short recursive function; the matcher is shown to give the same answer. The fuel of the
    matcher is the length of the pattern: each step and each recursive call has a shorter
    pattern. *)

From Stdlib Require Import String.
From stdpp Require Import list.
From S2P Require Import Prelude UtilStr Complete Utf.
Import Utf.
Local Open Scope Z_scope.

Module Like.

(** ** Operations *)

Record compareInfo := { matchAll : Z; matchOne : Z; matchSet : Z; noCase : bool }.

Definition globInfo : compareInfo := {| matchAll := 42; matchOne := 63; matchSet := 91; noCase := false |}.
Definition likeInfoNorm : compareInfo := {| matchAll := 37; matchOne := 95; matchSet := 0; noCase := true |}.
Definition likeInfoAlt : compareInfo := {| matchAll := 37; matchOne := 95; matchSet := 0; noCase := false |}.

Definition SQLITE_MATCH : Z := 0.
Definition SQLITE_NOMATCH : Z := 1.
Definition SQLITE_NOWILDCARDMATCH : Z := 2.

Definition sqlite3Tolower (x : Z) : Z := UpperToLower (u8 x).
Definition sqlite3Toupper (x : Z) : Z := Z.land x (Z.lnot (Z.land (default 0 (SqlComplete.sqlite3CtypeMap !! Z.to_nat (u8 x))) 0x20)).

Definition Utf8Read (z : bytes) : option (Z * bytes) :=
  let? b := head z in if b <? 0x80 then Some (b, tail z) else sqlite3Utf8Read z.

(** [strcspn], as the pointer to the first byte of [zStop] or to the terminator. *)
Fixpoint strcspn (z zStop : bytes) : option bytes :=
  match z with
  | [] => None
  | b :: z' => if (b =? 0) || existsb (Z.eqb b) zStop then Some z else strcspn z' zStop
  end.

(** The loop over the wildcards that follow a wildcard: [inl] is an early return, [inr] the next
    character of the pattern with the two pointers. *)
Fixpoint skip_wild (fuel : nat) (pInfo : compareInfo) (zPattern zString : bytes) : option (Z + Z * bytes * bytes) :=
  match fuel with
  | O => None
  | S fuel =>
      let? (c, zPattern) := Utf8Read zPattern in
      if (c =? matchAll pInfo) || ((c =? matchOne pInfo) && negb (matchOne pInfo =? 0)) then
        if c =? matchOne pInfo then
          let? (c2, zString) := sqlite3Utf8Read zString in
          if c2 =? 0 then Some (inl SQLITE_NOWILDCARDMATCH) else skip_wild fuel pInfo zPattern zString
        else skip_wild fuel pInfo zPattern zString
      else Some (inr (c, zPattern, zString))
  end.

(** The loops that try each place of the string where the rest of the pattern may start; [k] is
    the recursive call of [patternCompare]. *)
Fixpoint set_search (fuel : nat) (k : bytes -> option Z) (zString : bytes) : option Z :=
  match fuel with
  | O => None
  | S fuel =>
      let? b := head zString in
      if b =? 0 then Some SQLITE_NOWILDCARDMATCH else
      let? bMatch := k zString in
      if negb (bMatch =? SQLITE_NOMATCH) then Some bMatch else
      let? zString := SQLITE_SKIP_UTF8 zString in set_search fuel k zString
  end.

Fixpoint stop_search (fuel : nat) (zStop : bytes) (k : bytes -> option Z) (zString : bytes) : option Z :=
  match fuel with
  | O => None
  | S fuel =>
      let? zString := strcspn zString zStop in
      let? b := head zString in
      if b =? 0 then Some SQLITE_NOWILDCARDMATCH else
      let zString := tail zString in
      let? bMatch := k zString in
      if negb (bMatch =? SQLITE_NOMATCH) then Some bMatch else stop_search fuel zStop k zString
  end.

Fixpoint char_search (fuel : nat) (c : Z) (k : bytes -> option Z) (zString : bytes) : option Z :=
  match fuel with
  | O => None
  | S fuel =>
      let? (c2, zString) := Utf8Read zString in
      if c2 =? 0 then Some SQLITE_NOWILDCARDMATCH else
      if negb (c2 =? c) then char_search fuel c k zString else
      let? bMatch := k zString in
      if negb (bMatch =? SQLITE_NOMATCH) then Some bMatch else char_search fuel c k zString
  end.

(** The loop over the members of a set: the character it ends at, whether [c] was seen and the
    pointer behind. *)
Fixpoint set_loop (fuel : nat) (c c2 prior_c : Z) (seen : bool) (zPattern : bytes) : option (Z * bool * bytes) :=
  match fuel with
  | O => None
  | S fuel =>
      if (c2 =? 0) || (c2 =? 93) then Some (c2, seen, zPattern) else
      let? b := head zPattern in
      if (c2 =? 45) && negb (b =? 93) && negb (b =? 0) && (0 <? prior_c) then
        let? (c2, zPattern) := sqlite3Utf8Read zPattern in
        let seen := seen || ((prior_c <=? c) && (c <=? c2)) in
        let? (c2, zPattern) := sqlite3Utf8Read zPattern in
        set_loop fuel c c2 0 seen zPattern
      else
        let seen := seen || (c =? c2) in
        let prior_c := c2 in
        let? (c2, zPattern) := sqlite3Utf8Read zPattern in
        set_loop fuel c c2 prior_c seen zPattern
  end.

(** The set after a [[], for the character [c]: [None] is no match, otherwise the pointer behind
    the set. *)
Definition compare_set (c : Z) (zPattern : bytes) : option (option bytes) :=
  let? (c2, zPattern) := sqlite3Utf8Read zPattern in
  let invert := c2 =? 94 in
  let? (c2, zPattern) := (if invert then sqlite3Utf8Read zPattern else Some (c2, zPattern)) in
  let seen := (c2 =? 93) && (c =? 93) in
  let? (c2, zPattern) := (if c2 =? 93 then sqlite3Utf8Read zPattern else Some (c2, zPattern)) in
  let? (c2, seen, zPattern) := set_loop (S (length zPattern)) c c2 0 seen zPattern in
  Some (if (c2 =? 0) || negb (xorb seen invert) then None else Some zPattern).

(** The main loop; [zEscaped] is the number of bytes left behind the last escaped character. *)
Fixpoint pattern_loop (fuel : nat) (pInfo : compareInfo) (matchOther : Z) (zEscaped : option Z) (zPattern zString : bytes) : option Z :=
  match fuel with
  | O => None
  | S fuel =>
      let? (c, zPattern) := Utf8Read zPattern in
      if c =? 0 then
        let? b := head zString in Some (if b =? 0 then SQLITE_MATCH else SQLITE_NOMATCH)
      else if c =? matchAll pInfo then
        let? w := skip_wild (length zPattern) pInfo zPattern zString in
        match w with
        | inl rc => Some rc
        | inr (c, zPattern, zString) =>
            if c =? 0 then Some SQLITE_MATCH else
            if (c =? matchOther) && negb (matchSet pInfo =? 0) then
              if negb (matchOther <? 0x80) then None else
              set_search (length zString) (pattern_loop fuel pInfo matchOther None (c :: zPattern)) zString
            else
              let? (c, zPattern) := (if c =? matchOther then sqlite3Utf8Read zPattern else Some (c, zPattern)) in
              if c =? 0 then Some SQLITE_NOWILDCARDMATCH else
              if c <? 0x80 then
                let zStop := if noCase pInfo then [sqlite3Toupper c; sqlite3Tolower c] else [c] in
                stop_search (length zString) zStop (pattern_loop fuel pInfo matchOther None zPattern) zString
              else char_search (length zString) c (pattern_loop fuel pInfo matchOther None zPattern) zString
        end
      else if (c =? matchOther) && negb (matchSet pInfo =? 0) then
        let? (c, zString) := sqlite3Utf8Read zString in
        if c =? 0 then Some SQLITE_NOMATCH else
        let? r := compare_set c zPattern in
        match r with
        | None => Some SQLITE_NOMATCH
        | Some zPattern => pattern_loop fuel pInfo matchOther zEscaped zPattern zString
        end
      else
        let escaped := c =? matchOther in
        let? (c, zPattern) := (if escaped then sqlite3Utf8Read zPattern else Some (c, zPattern)) in
        if c =? 0 then Some SQLITE_NOMATCH else
        let zEscaped := if escaped then Some (len zPattern) else zEscaped in
        let? (c2, zString) := Utf8Read zString in
        if (c =? c2) || (noCase pInfo && (sqlite3Tolower c =? sqlite3Tolower c2) && (c <? 0x80) && (c2 <? 0x80)) ||
           ((c =? matchOne pInfo) && negb (bool_decide (zEscaped = Some (len zPattern))) && negb (c2 =? 0))
        then pattern_loop fuel pInfo matchOther zEscaped zPattern zString
        else Some SQLITE_NOMATCH
  end.

Definition patternCompare (zPattern zString : bytes) (pInfo : compareInfo) (matchOther : Z) : option Z :=
  pattern_loop (length zPattern) pInfo matchOther None zPattern zString.

Definition sqlite3_strglob (zGlobPattern zString : option bytes) : option Z :=
  match zString, zGlobPattern with
  | None, p => Some match p with Some _ => 1 | None => 0 end
  | Some _, None => Some 1
  | Some s, Some p => patternCompare p s globInfo 91
  end.

Definition sqlite3_strlike (zPattern zStr : option bytes) (esc : Z) : option Z :=
  match zStr, zPattern with
  | None, p => Some match p with Some _ => 1 | None => 0 end
  | Some _, None => Some 1
  | Some s, Some p => patternCompare p s likeInfoNorm esc
  end.

(** What the function returns: nothing (NULL), an error message or an integer. *)
Inductive result := res_null | res_error (msg : bytes) | res_int (b : bool).

(** [sqlite3_value_text] and [sqlite3_value_bytes] of an argument: NULL or a text, which is
    followed by a terminator. *)
Definition value_text (v : option bytes) : option bytes := (fun z => z ++ [0]) <$> v.
Definition value_bytes (v : option bytes) : Z := from_option (fun z => len z) 0 v.

(** The ESCAPE argument: [inl] is an early return, [inr] the structure to use and the character. *)
Definition like_escape (pInfo : compareInfo) (arg : option (option bytes)) : option (result + compareInfo * Z) :=
  match arg with
  | None => Some (inr (pInfo, matchSet pInfo))
  | Some v =>
      match value_text v with
      | None => Some (inl res_null)
      | Some zEsc =>
          let? n := sqlite3Utf8CharLen zEsc (-1) in
          if negb (n =? 1) then Some (inl (res_error (UtilStr.text "ESCAPE expression must be a single character"))) else
          let? (escape, _) := sqlite3Utf8Read zEsc in
          Some (inr ({| matchAll := if escape =? matchAll pInfo then 0 else matchAll pInfo;
                        matchOne := if escape =? matchOne pInfo then 0 else matchOne pInfo;
                        matchSet := matchSet pInfo; noCase := noCase pInfo |}, escape))
      end
  end.

(** [likeFunc(context, argc, argv)] for the pattern [argv0], the string [argv1] and, when argc
    is 3, [argv2]; [limit] is [aLimit[SQLITE_LIMIT_LIKE_PATTERN_LENGTH]]. *)
Definition likeFunc (pInfo : compareInfo) (limit : Z) (argv0 argv1 : option bytes) (argv2 : option (option bytes)) : option result :=
  if limit <? value_bytes argv0 then Some (res_error (UtilStr.text "LIKE or GLOB pattern too complex")) else
  let? e := like_escape pInfo argv2 in
  match e with
  | inl r => Some r
  | inr (pInfo, escape) =>
      match value_text argv0, value_text argv1 with
      | Some zB, Some zA => let? r := patternCompare zB zA pInfo escape in Some (res_int (r =? SQLITE_MATCH))
      | _, _ => Some res_null
      end
  end.

(** ** Specification *)

(** The characters of a text, read one after the other. *)
Fixpoint chars (n : nat) (z : bytes) : list Z :=
  match n, z with
  | S n, _ :: _ => match READ_UTF8 z with Some (c, z') => c :: chars n z' | None => [] end
  | _, _ => []
  end.
Definition chars_of (z : bytes) : list Z := chars (length z) z.

(** The items of a pattern: any sequence, any character, one character, a set given by ranges,
    and a construct that is cut off, which matches nothing. *)
Inductive item := Any | One | Lit (c : Z) | Set_ (neg : bool) (ranges : list (Z * Z)) | Bad.

(** The members of a set up to the closing bracket, and what follows. *)
Fixpoint members (prior : Z) (l : list Z) : option (list (Z * Z) * list Z) :=
  match l with
  | [] => None
  | c :: r =>
      let single := (let? (ms, rest) := members c r in Some ((c, c) :: ms, rest)) in
      if c =? 93 then Some ([], r)
      else if (c =? 45) && (0 <? prior) then
        match r with
        | hi :: r' => if hi =? 93 then single else let? (ms, rest) := members 0 r' in Some ((prior, hi) :: ms, rest)
        | [] => None
        end
      else single
  end.

Definition parse_set (l : list Z) : option (bool * list (Z * Z) * list Z) :=
  let '(neg, l) := match l with c :: r => if c =? 94 then (true, r) else (false, l) | [] => (false, l) end in
  let '(first, l) := match l with c :: r => if c =? 93 then ([(93, 93)], r) else ([], l) | [] => ([], l) end in
  let? (ms, rest) := members 0 l in Some (neg, first ++ ms, rest).

(** [other] is the escape character, or the bracket that opens a set. *)
Fixpoint parse (n : nat) (info : compareInfo) (other : Z) (l : list Z) : list item :=
  match n, l with
  | S n, c :: r =>
      if c =? other then
        if matchSet info =? 0 then match r with e :: r' => Lit e :: parse n info other r' | [] => [Bad] end
        else match parse_set r with Some (neg, ms, r') => Set_ neg ms :: parse n info other r' | None => [Bad] end
      else if c =? matchAll info then Any :: parse n info other r
      else if c =? matchOne info then One :: parse n info other r
      else Lit c :: parse n info other r
  | _, _ => []
  end.
Definition parse_pattern (info : compareInfo) (other : Z) (l : list Z) : list item := parse (length l) info other l.

(** Letters of ASCII are the same in both cases when [nc] is set. *)
Definition same (nc : bool) (c c2 : Z) : bool :=
  (c =? c2) || (nc && (c <? 128) && (c2 <? 128) && (UpperToLower c =? UpperToLower c2)).

Definition in_ranges (ms : list (Z * Z)) (c : Z) : bool := existsb (fun '(lo, hi) => (lo <=? c) && (c <=? hi)) ms.

Definition item_ok (nc : bool) (i : item) (c : Z) : bool :=
  match i with
  | One => true
  | Lit x => same nc x c
  | Set_ neg ms => xorb (in_ranges ms c) neg
  | Any | Bad => false
  end.

Fixpoint matches (nc : bool) (p : list item) (s : list Z) : bool :=
  match p with
  | [] => bool_decide (s = [])
  | Any :: p => (fix any s := matches nc p s || match s with [] => false | _ :: s => any s end) s
  | i :: p => match s with [] => false | c :: s => item_ok nc i c && matches nc p s end
  end.

(** A few patterns. *)
Definition like (p s : String.string) : option Z := sqlite3_strlike (Some (lit p)) (Some (lit s)) 0.
Definition glob (p s : String.string) : option Z := sqlite3_strglob (Some (lit p)) (Some (lit s)).
Arguments like (p s)%_string.
Arguments glob (p s)%_string.

Example demo_like :
  like "a%B_" "AxxbB" = Some 0 /\ like "a%c" "abd" = Some 2 /\ like "abc" "abd" = Some 1 /\
  glob "*[a-cx]?" "zzbq" = Some 0 /\ glob "[^]a]*" "bcd" = Some 0 /\ glob "[^]a]*" "]cd" = Some 1.
Proof. repeat split; reflexivity. Qed.

(** ** Reading characters *)

(** The string at a pointer has the characters [cs] before its terminator. *)
Inductive reads : bytes -> list Z -> Prop :=
| reads_end t : reads (0 :: t) []
| reads_char z c z' cs : sqlite3Utf8Read z = Some (c, z') -> c <> 0 -> reads z' cs -> reads z (c :: cs).

(** The character [c] has just been read from the characters [l]. *)
Definition cur (c : Z) (z : bytes) (l : list Z) : Prop :=
  match l with [] => c = 0 | x :: r => x = c /\ c <> 0 /\ reads z r end.

Lemma read_tail_suffix z c c' z' :
  read_tail z c = Some (c', z') -> exists pre, z = pre ++ z' /\ Forall (fun b => ~ 0 <= b < 0x80) pre.
Proof.
  revert c. induction z as [|b z IH]; intros c H; [done|]. cbn -[Z.land] in H. case_match eqn:E.
  - destruct (IH _ H) as (pre & -> & Hp). exists (b :: pre). split; [done|]. constructor; [|done].
    apply Z.eqb_eq in E. revert E. fields. intros E Hb. Z.div_mod_to_equations. lia.
  - injection H as <- <-. by exists [].
Qed.

(** A byte below 0x80 is a character; others are part of a character above. *)
Lemma utf8_read_head b z c z' :
  sqlite3Utf8Read (b :: z) = Some (c, z') -> 0 <= b ->
  (b < 0x80 /\ c = b /\ z' = z) \/
  (0x80 <= b /\ 0x80 <= c /\ exists pre, b :: z = pre ++ z' /\ pre <> [] /\ Forall (fun b => ~ 0 <= b < 0x80) pre).
Proof.
  intros H Hb. unfold sqlite3Utf8Read in H. cbn [head tail mbind option_bind] in H. case_match eqn:E.
  - apply Z.leb_le in E. destruct (sqlite3Utf8Trans1 !! _); [|done]. cbn [mbind option_bind] in H.
    destruct (read_tail z z0) as [[c0 z1]|] eqn:Er; [|done]. cbn [mbind option_bind] in H. injection H as <- <-.
    right. split; [lia|]. split; [unfold render; repeat case_cond; lia|]. destruct (read_tail_suffix _ _ _ _ Er) as (pre & -> & Hp).
    exists (b :: pre). split; [done|]. split; [done|]. constructor; [lia|done].
  - apply Z.leb_gt in E. injection H as <- <-. destruct (decide (b < 0x80)); [by left|]. right. split; [lia|]. split; [lia|].
    exists [b]. split; [done|]. split; [done|]. constructor; [lia|constructor].
Qed.

Lemma reads_cons z l : reads z l -> exists b t, z = b :: t.
Proof. intros [t|z0 c z' cs H _ _]; [by exists 0, t|]. destruct z0; [done|by eexists _, _]. Qed.

Definition nonneg (z : bytes) : Prop := Forall (fun b => 0 <= b) z.

(** The macro is the function. *)
Lemma utf8read_eq z : nonneg z -> Utf8Read z = sqlite3Utf8Read z.
Proof.
  intros Hz. destruct z as [|b z]; [done|]. unfold Utf8Read, sqlite3Utf8Read. cbn [head tail mbind option_bind].
  destruct (Z.ltb_spec b 0x80); [|done]. by rewrite (proj2 (Z.leb_gt 0xc0 b)) by lia.
Qed.

Lemma read_cur z l : reads z l -> exists c z', sqlite3Utf8Read z = Some (c, z') /\ cur c z' l.
Proof. intros [t|z0 c z' cs H Hc Hr]; [by exists 0, t|]. by exists c, z'. Qed.

Lemma read_nonneg z c z' : sqlite3Utf8Read z = Some (c, z') -> nonneg z -> nonneg z' /\ (length z' < length z)%nat.
Proof.
  intros H Hz. destruct z as [|b z]; [done|]. pose proof Hz as [Hb Hz0]%Forall_cons_1.
  destruct (utf8_read_head _ _ _ _ H Hb) as [(_ & _ & ->)|(_ & _ & pre & Hp & Hne & _)]; [by cbn; split; [|lia]|].
  rewrite Hp in Hz |- *. apply Forall_app in Hz as [_ Hz]. split; [done|]. rewrite length_app. destruct pre; [done|]. cbn. lia.
Qed.

(** The byte at the pointer tells whether the string is at its end. *)
Lemma reads_head z l : reads z l -> nonneg z -> exists b t, z = b :: t /\
  match l with
  | [] => b = 0
  | c :: r => b <> 0 /\ (b < 0x80 -> c = b /\ reads t r) /\ (0x80 <= b -> 0x80 <= c)
  end.
Proof.
  intros [t|z0 c z' cs H Hc Hr] Hz; [by exists 0, t|]. destruct z0 as [|b t]; [done|]. exists b, t. split; [done|].
  apply Forall_cons_1 in Hz as [Hb _]. destruct (utf8_read_head _ _ _ _ H Hb) as [(? & -> & ->)|(? & ? & _)]; [by repeat split; try lia|].
  repeat split; lia.
Qed.

Lemma reads_length z l : reads z l -> nonneg z -> (length l < length z)%nat.
Proof.
  induction 1 as [t|z c z' cs H Hc Hr IH]; intros Hz; [cbn; lia|]. destruct (read_nonneg _ _ _ H Hz) as [Hz' Hl]. specialize (IH Hz'). cbn. lia.
Qed.

Lemma skip_of_read z c z' : sqlite3Utf8Read z = Some (c, z') -> SQLITE_SKIP_UTF8 z = Some z'.
Proof.
  destruct z as [|b z]; [done|]. unfold sqlite3Utf8Read, SQLITE_SKIP_UTF8. cbn [head tail mbind option_bind]. case_match; [|by intros [= _ ->]].
  destruct (sqlite3Utf8Trans1 !! _); [|done]. cbn [mbind option_bind]. rewrite (skip_tail_read z z0). destruct (read_tail z z0) as [[? ?]|]; [|done].
  by intros [= _ ->].
Qed.

(** A text and its characters. *)
Lemma chars_reads n z t : bytes_ok z -> Forall (fun b => b <> 0) z -> (length z <= n)%nat -> reads (z ++ 0 :: t) (chars n z).
Proof.
  revert z. induction n as [|n IH]; intros z Hz Hnz Hn; [destruct z; [constructor|cbn in Hn; lia]|].
  destruct z as [|b z]; [constructor|]. destruct (read_utf8_bound false (b :: z) Hz ltac:(done)) as (c & z' & Hr & Hz' & Hl & _).
  cbn [chars]. rewrite Hr. pose proof (utf8_read_terminated (b :: z) (t) ltac:(done)) as Ht. rewrite Hr in Ht. cbn [mbind option_bind] in Ht.
  assert (Hs : c <> 0 /\ Forall (fun b => b <> 0) z').
  { pose proof (Forall_inv Hz) as Hb. pose proof (Forall_inv Hnz) as Hb0. cbn beta in Hb0. unfold is_byte in Hb.
    destruct (utf8_read_head _ _ _ _ Ht ltac:(lia)) as [(_ & -> & E)|(_ & ? & pre & E & _)].
    - split; [done|]. apply app_inv_tail in E as ->. by apply Forall_inv_tail in Hnz.
    - split; [lia|]. rewrite app_assoc in E. apply (app_inv_tail (0 :: t) (b :: z) (pre ++ z')) in E.
      rewrite E in Hnz. by apply Forall_app in Hnz as [_ ?]. }
  destruct Hs as [Hc Hnz']. eapply reads_char; [exact Ht|done|]. apply IH; [done|done|]. cbn in Hn, Hl. lia.
Qed.

(** ** Matching after a wildcard *)

Section Wild.
Context (nc : bool).

Lemma any_cons p c s : matches nc (Any :: p) (c :: s) = matches nc p (c :: s) || matches nc (Any :: p) s.
Proof. done. Qed.

Lemma any_nil p : matches nc (Any :: p) [] = matches nc p [].
Proof. cbn. apply orb_false_r. Qed.

Lemma any_drop p k s : matches nc (Any :: p) s = false -> matches nc (Any :: p) (drop k s) = false.
Proof.
  revert s. induction k as [|k IH]; intros s H; [done|]. destruct s as [|c s]; [done|]. rewrite any_cons in H. apply orb_false_iff in H as [_ H]. by apply IH.
Qed.

Lemma any_none p s : (forall k, matches nc p (drop k s) = false) -> matches nc (Any :: p) s = false.
Proof.
  induction s as [|c s IH]; intros H; [rewrite any_nil; apply (H 0%nat)|]. rewrite any_cons, (H 0%nat : matches nc p (c :: s) = false).
  apply IH. intros k. apply (H (S k)).
Qed.

Lemma any_any p s : matches nc (Any :: Any :: p) s = matches nc (Any :: p) s.
Proof.
  induction s as [|c s IH]; [by rewrite !any_nil|]. rewrite any_cons, IH. rewrite (any_cons p). by destruct (matches nc p (c :: s)), (matches nc (Any :: p) s).
Qed.

Lemma any_one p s : matches nc (Any :: One :: p) s = match s with [] => false | _ :: s => matches nc (Any :: p) s end.
Proof.
  induction s as [|c s IH]; [done|]. rewrite any_cons, IH. change (matches nc (One :: p) (c :: s)) with (matches nc p s). destruct s as [|c2 s]; [rewrite any_nil; apply orb_false_r|].
  by rewrite any_cons.
Qed.

(** The three answers, for a pattern [q] and the characters [s]; [wild] is the answer of a
    search, which settles that no later place matches either. *)
Definition outcome (q : list item) (s : list Z) (r : Z) : Prop :=
  (r = SQLITE_MATCH /\ matches nc q s = true) \/ (r = SQLITE_NOMATCH /\ matches nc q s = false) \/
  (r = SQLITE_NOWILDCARDMATCH /\ forall k, matches nc q (drop k s) = false).

Definition wild (q : list item) (s : list Z) (r : Z) : Prop :=
  (r = SQLITE_MATCH /\ matches nc q s = true) \/ (r = SQLITE_NOWILDCARDMATCH /\ matches nc q s = false).

Lemma wild_outcome q s r : wild (Any :: q) s r -> outcome (Any :: q) s r.
Proof. intros [H|[-> H]]; [by left|right; right]. split; [done|]. intros k. by apply any_drop. Qed.

(** A place where [q] was tried. *)
Lemma wild_try q c s r : outcome q (c :: s) r -> r <> SQLITE_NOMATCH -> wild (Any :: q) (c :: s) r.
Proof.
  intros [[-> H]|[[-> _]|[-> H]]] Hr; [left|done|right]; (split; [done|]); [by rewrite any_cons, H|by apply any_none].
Qed.

Lemma wild_next q c s r : matches nc q (c :: s) = false -> wild (Any :: q) s r -> wild (Any :: q) (c :: s) r.
Proof. intros H. unfold wild. by rewrite any_cons, H. Qed.

Lemma outcome_nomatch q s : outcome q s SQLITE_NOMATCH -> matches nc q s = false.
Proof. by intros [[? _]|[[_ ?]|[? _]]]. Qed.

(** One character in front of what was tried. *)
Lemma outcome_lit i q c s r : item_ok nc i c = true -> match i with Any => False | _ => True end -> outcome q s r -> outcome (i :: q) (c :: s) r.
Proof.
  intros Hi Ha. assert (E : forall c s, matches nc (i :: q) (c :: s) = item_ok nc i c && matches nc q s) by (by destruct i).
  assert (E0 : matches nc (i :: q) [] = false) by (by destruct i).
  intros [[-> H]|[[-> H]|[-> H]]]; [left|right; left|right; right]; (split; [done|]); rewrite ?E, ?Hi, ?H; try done.
  intros [|k]; cbn [drop]; [by rewrite E, (H 0%nat : matches nc q s = false), andb_false_r|].
  destruct (drop k s) as [|c1 s1] eqn:Ed; [done|]. rewrite E. pose proof (H (S k)) as Hk.
  replace (drop (S k) s) with s1 in Hk; [by rewrite Hk, andb_false_r|]. change (S k) with (1 + k)%nat.
  rewrite Nat.add_comm, <- drop_drop, Ed. done.
Qed.

(** The recursive call answers for the pattern [q]. *)
Definition answers (k : bytes -> option Z) (q : list item) : Prop :=
  forall z s, reads z s -> nonneg z -> exists r, k z = Some r /\ outcome q s r.

Context (k : bytes -> option Z) (q : list item) (Hk : answers k q).

Lemma set_search_ok n z s :
  matches nc q [] = false -> reads z s -> nonneg z -> (length s < n)%nat -> exists r, set_search n k z = Some r /\ wild (Any :: q) s r.
Proof.
  intros Hq. revert z s. induction n as [|n IH]; intros z s Hr Hz Hn; [lia|]. cbn [set_search].
  destruct (reads_head z s Hr Hz) as (b & t & Ez & Hb). rewrite Ez. cbn [head mbind option_bind]. rewrite <- Ez. destruct s as [|c s].
  - subst b. rewrite Z.eqb_refl. eexists. split; [done|]. right. by rewrite any_nil.
  - destruct Hb as (Hb & _). rewrite (proj2 (Z.eqb_neq _ _) Hb). destruct (Hk z _ Hr Hz) as (r & -> & Ho). cbn [mbind option_bind].
    destruct (Z.eqb_spec r SQLITE_NOMATCH) as [->|Hne]; cbn [negb]; [|exists r; split; [done|by apply wild_try]].
    inversion Hr as [|? ? z' ? Hrd Hc Hr']; subst. rewrite (skip_of_read _ _ _ Hrd). cbn [mbind option_bind].
    destruct (IH z' s Hr' (proj1 (read_nonneg _ _ _ Hrd Hz)) ltac:(cbn in Hn; lia)) as (r & -> & Hw). exists r. split; [done|].
    apply wild_next; [by apply outcome_nomatch|done].
Qed.

Context (x : Z).

(** A character that is not [x] is passed over, and one that is decides unless it fails. *)
Lemma lit_skip c s : same nc x c = false -> matches nc (Lit x :: q) (c :: s) = false.
Proof. intros H. cbn. by rewrite H. Qed.

Lemma lit_try c s r : same nc x c = true -> outcome q s r -> outcome (Lit x :: q) (c :: s) r.
Proof. intros H. by apply outcome_lit. Qed.

Lemma char_search_ok n z s :
  (forall c, same nc x c = (c =? x)) -> reads z s -> nonneg z -> (length s < n)%nat ->
  exists r, char_search n x k z = Some r /\ wild (Any :: Lit x :: q) s r.
Proof.
  intros Hx. revert z s. induction n as [|n IH]; intros z s Hr Hz Hn; [lia|]. cbn [char_search]. rewrite utf8read_eq by done.
  destruct (read_cur z s Hr) as (c & z' & Hrd & Hc). rewrite Hrd. cbn [mbind option_bind]. destruct s as [|c0 s]; cbn [cur] in Hc.
  { subst c. eexists. split; [done|]. by right. }
  destruct Hc as (-> & Hc & Hr'). rewrite (proj2 (Z.eqb_neq _ _) Hc). pose proof (proj1 (read_nonneg _ _ _ Hrd Hz)) as Hz'.
  destruct (IH z' s Hr' Hz' ltac:(cbn in Hn; lia)) as (r2 & E2 & Hw2). rewrite E2.
  destruct (c =? x) eqn:E; cbn [negb]; [|exists r2; split; [done|apply wild_next; [apply lit_skip; by rewrite Hx|done]]].
  destruct (Hk z' s Hr' Hz') as (r & -> & Ho). cbn [mbind option_bind]. rewrite <- Hx in E. apply (lit_try c s r E) in Ho.
  destruct (Z.eqb_spec r SQLITE_NOMATCH) as [->|Hne]; cbn [negb]; [|exists r; split; [done|by apply wild_try]].
  exists r2. split; [done|]. apply wild_next; [by apply outcome_nomatch|done].
Qed.

Context (zStop : bytes) (Hstop : forall c, same nc x c = existsb (Z.eqb c) zStop) (Hascii : forall c, same nc x c = true -> 0 < c < 0x80).

Lemma strcspn_pass pre z : Forall (fun b => ~ 0 <= b < 0x80) pre -> strcspn (pre ++ z) zStop = strcspn z zStop.
Proof.
  induction 1 as [|b pre Hb _ IH]; [done|]. cbn [app strcspn]. rewrite <- Hstop, (proj2 (Z.eqb_neq b 0)) by lia.
  destruct (same nc x b) eqn:E; [|exact IH]. apply Hascii in E. lia.
Qed.

(** [strcspn] stops at the first character that is [x]. *)
Lemma strcspn_ok z s :
  reads z s -> nonneg z -> exists z' s', strcspn z zStop = Some z' /\ reads z' s' /\ nonneg z' /\ (length s' <= length s)%nat /\
    (forall r, wild (Any :: Lit x :: q) s' r -> wild (Any :: Lit x :: q) s r) /\
    match s' with [] => True | c :: _ => same nc x c = true end.
Proof.
  induction 1 as [t|z c z' cs Hrd Hc Hr IH]; intros Hz.
  - exists (0 :: t), []. split; [done|]. split; [constructor|]. split; [done|]. split; [done|]. split; [done|done].
  - destruct (IH (proj1 (read_nonneg _ _ _ Hrd Hz))) as (z1 & s1 & Hs & Hr1 & Hz1 & Hl & Hw & Hh).
    destruct (same nc x c) eqn:E.
    + exists z, (c :: cs). split; [|split; [by eapply reads_char|done]]. destruct z as [|b z]; [done|]. pose proof (Forall_inv Hz) as Hb. cbn beta in Hb.
      destruct (utf8_read_head _ _ _ _ Hrd Hb) as [(_ & -> & ->)|(_ & Hge & _)]; [|apply Hascii in E; lia]. cbn [strcspn]. rewrite <- Hstop, E. by rewrite orb_true_r.
    + exists z1, s1. split; [|split; [done|split; [done|split; [cbn; lia|split; [|done]]]]].
      2: { intros r H. apply wild_next; [by apply lit_skip|by apply Hw]. }
      destruct z as [|b z]; [done|]. pose proof (Forall_inv Hz) as Hb. cbn beta in Hb.
      destruct (utf8_read_head _ _ _ _ Hrd Hb) as [(_ & -> & ->)|(_ & _ & pre & -> & _ & Hp)]; [|by rewrite strcspn_pass].
      cbn [strcspn]. rewrite <- Hstop, E. by rewrite (proj2 (Z.eqb_neq b 0)).
Qed.

Lemma stop_search_ok n z s :
  reads z s -> nonneg z -> (length s < n)%nat -> exists r, stop_search n zStop k z = Some r /\ wild (Any :: Lit x :: q) s r.
Proof.
  revert z s. induction n as [|n IH]; intros z s Hr Hz Hn; [lia|]. cbn [stop_search].
  destruct (strcspn_ok z s Hr Hz) as (z1 & s1 & -> & Hr1 & Hz1 & Hl & Hw & Hh). cbn [mbind option_bind].
  destruct (reads_head z1 s1 Hr1 Hz1) as (b & t & -> & Hb). cbn [head tail mbind option_bind]. destruct s1 as [|c s1].
  { subst b. eexists. split; [done|]. apply Hw. by right. }
  destruct Hb as (Hb & Hlt & Hge). rewrite (proj2 (Z.eqb_neq _ _) Hb). pose proof (Hascii c Hh) as Hc. destruct (decide (b < 0x80)) as [Hb'|]; [|lia].
  destruct (Hlt Hb') as [-> Hrt]. apply Forall_inv_tail in Hz1. destruct (Hk t s1 Hrt Hz1) as (r & -> & Ho). cbn [mbind option_bind].
  apply (lit_try b s1 r Hh) in Ho. destruct (Z.eqb_spec r SQLITE_NOMATCH) as [->|Hne]; cbn [negb]; [|exists r; split; [done|by apply Hw, wild_try]].
  destruct (IH t s1 Hrt Hz1 ltac:(cbn in Hl; lia)) as (r & -> & Hw2). exists r. split; [done|]. apply Hw, wild_next; [by apply outcome_nomatch|done].
Qed.

End Wild.

(** ** Sets *)

Lemma members_length prior l ms rest : members prior l = Some (ms, rest) -> (length rest < length l)%nat.
Proof.
  assert (H : forall n prior l ms rest, (length l <= n)%nat -> members prior l = Some (ms, rest) -> (length rest < length l)%nat); [|by eapply H].
  clear. induction n as [|n IH]; intros prior l ms rest Hn H; (destruct l as [|c r]; [done|]); [cbn in Hn; lia|]. cbn [members] in H. cbn [length] in Hn |- *.
  assert (Hs : (let? (ms, rest) := members c r in Some ((c, c) :: ms, rest)) = Some (ms, rest) -> (length rest < S (length r))%nat).
  { intros E. destruct (members c r) as [[ms0 rest0]|] eqn:Em; [|done]. cbn in E. injection E as _ <-. apply IH in Em; lia. }
  destruct (c =? 93); [injection H as <- <-; lia|]. destruct ((c =? 45) && (0 <? prior)); [|by apply Hs].
  destruct r as [|hi r']; [done|]. destruct (hi =? 93); [by apply Hs|].
  destruct (members 0 r') as [[ms0 rest0]|] eqn:Em; [|done]. cbn in H. injection H as _ <-. cbn [length] in *. apply IH in Em; lia.
Qed.

Lemma set_loop_ok n c c2 prior seen zp l :
  cur c2 zp l -> nonneg zp -> (length l < n)%nat ->
  match members prior l with
  | Some (ms, rest) => exists z', set_loop n c c2 prior seen zp = Some (93, seen || in_ranges ms c, z') /\ reads z' rest /\ nonneg z' /\ (length z' <= length zp)%nat
  | None => exists seen' z', set_loop n c c2 prior seen zp = Some (0, seen', z')
  end.
Proof.
  revert c2 prior seen zp l. induction n as [|n IH]; intros c2 prior seen zp l Hc Hz Hn; [lia|]. cbn [set_loop].
  destruct l as [|c0 r]; cbn [cur] in Hc; [subst c2; by do 2 eexists|]. destruct Hc as (-> & Hc & Hr). rewrite (proj2 (Z.eqb_neq _ _) Hc). cbn [orb].
  cbn [members]. destruct (Z.eqb_spec c2 93) as [->|Hne]; [exists zp; by rewrite orb_false_r|].
  destruct (reads_head zp r Hr Hz) as (b & t & Ez & Hb). rewrite Ez. cbn [head mbind option_bind]. rewrite <- Ez. cbn [length] in Hn.
  destruct (read_cur zp r Hr) as (c3 & z3 & Hrd & Hc3). pose proof (read_nonneg _ _ _ Hrd Hz) as [Hz3 Hl3].
  assert (Hs : match (let? (ms, rest) := members c2 r in Some ((c2, c2) :: ms, rest)) with
    | Some (ms, rest) => exists z', (let? (c2', zp) := sqlite3Utf8Read zp in set_loop n c c2' c2 (seen || (c =? c2)) zp) = Some (93, seen || in_ranges ms c, z') /\ reads z' rest /\ nonneg z' /\ (length z' <= length zp)%nat
    | None => exists seen' z', (let? (c2', zp) := sqlite3Utf8Read zp in set_loop n c c2' c2 (seen || (c =? c2)) zp) = Some (0, seen', z')
    end).
  { rewrite Hrd. cbn [mbind option_bind]. specialize (IH c3 c2 (seen || (c =? c2)) z3 r Hc3 Hz3 ltac:(lia)).
    destruct (members c2 r) as [[ms rest]|]; cbn [mbind option_bind]; [|done]. destruct IH as (z' & -> & Hr' & Hz' & Hl'). exists z'. split; [|split; [done|split; [done|lia]]].
    unfold in_ranges. cbn [existsb]. rewrite orb_assoc. do 5 f_equal. lia. }
  destruct (Z.eqb_spec c2 45) as [->|]; cbn [andb]; [|exact Hs]. destruct (Z.ltb_spec 0 prior); rewrite ?andb_false_r; [|exact Hs]. rewrite andb_true_r.
  destruct r as [|hi r'].
  { subst b. rewrite andb_false_r. cbn [members mbind option_bind] in Hs. exact Hs. }
  destruct Hb as (Hb0 & Hlt & Hge). rewrite (proj2 (Z.eqb_neq b 0)) by done. rewrite andb_true_r.
  replace (hi =? 93) with (b =? 93) by (destruct (decide (b < 0x80)) as [Hl|]; [by destruct (Hlt Hl) as [-> _]|lia]).
  destruct (b =? 93); cbn [negb]; [exact Hs|]. rewrite Hrd. cbn [mbind option_bind cur] in Hc3 |- *. destruct Hc3 as (-> & Hc3 & Hr3).
  destruct (read_cur z3 r' Hr3) as (c4 & z4 & Hrd4 & Hc4). pose proof (read_nonneg _ _ _ Hrd4 Hz3) as [Hz4 Hl4]. rewrite Hrd4. cbn [mbind option_bind].
  specialize (IH c4 0 (seen || ((prior <=? c) && (c <=? c3))) z4 r' Hc4 Hz4 ltac:(cbn [length] in Hn; lia)).
  destruct (members 0 r') as [[ms rest]|]; cbn [mbind option_bind]; [|done]. destruct IH as (z' & -> & Hr' & Hz' & Hl'). exists z'. split; [|split; [done|split; [done|lia]]].
  unfold in_ranges. cbn [existsb]. by rewrite orb_assoc.
Qed.

Lemma cur_reads_read c z l : cur c z l -> c <> 0 -> exists r, l = c :: r /\ reads z r.
Proof. destruct l as [|x r]; [done|]. intros (-> & _ & H) _. by exists r. Qed.

Lemma compare_set_ok c zp l :
  reads zp l -> nonneg zp ->
  match parse_set l with
  | Some (neg, ms, rest) =>
      exists z', compare_set c zp = Some (if xorb (in_ranges ms c) neg then Some z' else None) /\ reads z' rest /\ nonneg z' /\ (length z' <= length zp)%nat
  | None => compare_set c zp = Some None
  end.
Proof.
  intros Hr Hz. unfold parse_set, compare_set. destruct (read_cur zp l Hr) as (c1 & z1 & Hrd1 & Hc1).
  pose proof (read_nonneg _ _ _ Hrd1 Hz) as [Hz1 Hlz1]. rewrite Hrd1. cbn [mbind option_bind].
  assert (H1 : exists c2 z2 l2, (if c1 =? 94 then sqlite3Utf8Read z1 else Some (c1, z1)) = Some (c2, z2) /\ cur c2 z2 l2 /\ (nonneg z2 /\ (length z2 <= length z1)%nat) /\
    match l with c :: r => if c =? 94 then (true, r) else (false, l) | [] => (false, l) end = (c1 =? 94, l2)).
  { destruct (Z.eqb_spec c1 94) as [->|Hne].
    - destruct (cur_reads_read _ _ _ Hc1 ltac:(done)) as (r & -> & Hr1). destruct (read_cur z1 r Hr1) as (c2 & z2 & Hrd2 & Hc2).
      exists c2, z2, r. split; [done|]. split; [done|]. split; [apply (read_nonneg _ _ _ Hrd2) in Hz1 as [??]; split; [done|lia]|done].
    - exists c1, z1, l. split; [done|]. split; [done|]. split; [done|]. destruct l as [|x r]; [done|]. destruct Hc1 as (-> & _). by rewrite (proj2 (Z.eqb_neq _ _) Hne). }
  destruct H1 as (c2 & z2 & l2 & -> & Hc2 & [Hz2 Hlz2] & ->). cbn [mbind option_bind].
  assert (H2 : exists c3 z3 l3 first, (if c2 =? 93 then sqlite3Utf8Read z2 else Some (c2, z2)) = Some (c3, z3) /\ cur c3 z3 l3 /\ (nonneg z3 /\ (length z3 <= length z2)%nat) /\
    match l2 with c :: r => if c =? 93 then ([(93, 93)], r) else ([], l2) | [] => ([], l2) end = (first, l3) /\
    (c2 =? 93) && (c =? 93) = in_ranges first c).
  { destruct (Z.eqb_spec c2 93) as [->|Hne].
    - destruct (cur_reads_read _ _ _ Hc2 ltac:(done)) as (r & -> & Hr2). destruct (read_cur z2 r Hr2) as (c3 & z3 & Hrd3 & Hc3).
      exists c3, z3, r, [(93, 93)]. split; [done|]. split; [done|]. split; [apply (read_nonneg _ _ _ Hrd3) in Hz2 as [??]; split; [done|lia]|]. split; [done|]. unfold in_ranges. cbn [existsb]. lia.
    - exists c2, z2, l2, []. split; [done|]. split; [done|]. split; [done|]. split; [|done]. destruct l2 as [|x r]; [done|]. destruct Hc2 as (-> & _). by rewrite (proj2 (Z.eqb_neq _ _) Hne). }
  destruct H2 as (c3 & z3 & l3 & first & -> & Hc3 & [Hz3 Hlz3] & -> & ->). cbn [mbind option_bind].
  assert (Hl : (length l3 < S (length z3))%nat).
  { destruct l3 as [|x r]; [cbn; lia|]. destruct Hc3 as (_ & _ & Hr3). pose proof (reads_length _ _ Hr3 Hz3). cbn [length]. lia. }
  pose proof (set_loop_ok (S (length z3)) c c3 0 (in_ranges first c) z3 l3 Hc3 Hz3 Hl) as HS.
  destruct (members 0 l3) as [[ms rest]|]; cbn [mbind option_bind]; [destruct HS as (z' & -> & HS)|by destruct HS as (s' & z' & ->)].
  destruct HS as (Hr' & Hz' & Hl'). exists z'. split; [|split; [done|split; [done|lia]]]. unfold in_ranges. rewrite existsb_app. cbn [mbind option_bind orb]. change (93 =? 0) with false. by destruct (xorb _ _).
Qed.

(** ** Patterns *)

Lemma parse_set_length l neg ms rest : parse_set l = Some (neg, ms, rest) -> (length rest < length l)%nat.
Proof.
  unfold parse_set. intros H.
  assert (H1 : forall (l l1 : list Z) neg, match l with c :: r => if c =? 94 then (true, r) else (false, l) | [] => (false, l) end = (neg, l1) -> (length l1 <= length l)%nat).
  { intros [|a l'] l1 b E; [by injection E as _ <-|]. destruct (a =? 94); injection E as _ <-; cbn; lia. }
  assert (H2 : forall (l l1 : list Z) f, match l with c :: r => if c =? 93 then ([(93, 93)], r) else ([], l) | [] => ([], l) end = (f, l1) -> (length l1 <= length l)%nat).
  { intros [|a l'] l1 b E; [by injection E as _ <-|]. destruct (a =? 93); injection E as _ <-; cbn; lia. }
  destruct (match l with [] => _ | _ => _ end) as [n1 l1] eqn:E1. apply H1 in E1.
  destruct (match l1 with [] => _ | _ => _ end) as [n2 l2] eqn:E2. apply H2 in E2.
  destruct (members 0 l2) as [[ms2 r2]|] eqn:Em; [|done]. cbn in H. injection H as _ _ <-. apply members_length in Em. lia.
Qed.

(** The structure and the special character are consistent: the wildcards differ from each
    other and from it, and a bracket is a character of one byte. *)
Definition info_ok (info : compareInfo) (other : Z) : Prop :=
  matchAll info <> matchOne info /\ (other = 0 \/ other <> matchAll info /\ other <> matchOne info) /\ (matchSet info = 0 \/ other < 0x80).

Section Compare.
Context (info : compareInfo) (other : Z) (Hok : info_ok info other).
Abbreviation P := (parse_pattern info other).
Abbreviation nc := (noCase info).

Lemma parse_fuel n l : (length l <= n)%nat -> parse n info other l = P l.
Proof.
  assert (H : forall m n l, (length l <= m)%nat -> (length l <= n)%nat -> parse n info other l = parse m info other l).
  { clear n l. induction m as [|m IH]; intros n l Hm Hn; (destruct l as [|c r]; [destruct n; done|]); [cbn in Hm; lia|].
    destruct n as [|n]; [cbn in Hn; lia|]. cbn [length] in Hm, Hn. cbn [parse].
    destruct (c =? other); [|destruct (c =? _); [|destruct (c =? _)]; f_equal; apply IH; lia].
    destruct (matchSet info =? 0); [destruct r as [|e r']; [done|]; f_equal; cbn [length] in *; apply IH; lia|].
    destruct (parse_set r) as [[[neg ms] r']|] eqn:E; [|done]. apply parse_set_length in E. f_equal. apply IH; lia. }
  intros Hl. unfold parse_pattern. by apply H.
Qed.

Lemma parse_cons c r : P (c :: r) =
  if c =? other then
    if matchSet info =? 0 then match r with e :: r' => Lit e :: P r' | [] => [Bad] end
    else match parse_set r with Some (neg, ms, r') => Set_ neg ms :: P r' | None => [Bad] end
  else if c =? matchAll info then Any :: P r else if c =? matchOne info then One :: P r else Lit c :: P r.
Proof.
  unfold parse_pattern at 1. cbn [length parse]. destruct (c =? other); [|by rewrite parse_fuel].
  destruct (matchSet info =? 0); [destruct r as [|e r']; [done|]; rewrite parse_fuel by (cbn; lia); done|].
  destruct (parse_set r) as [[[neg ms] r']|] eqn:E; [|done]. apply parse_set_length in E. by rewrite parse_fuel by lia.
Qed.

Lemma any_all s : matches nc [Any] s = true.
Proof. induction s as [|c s IH]; [done|]. by rewrite any_cons, IH, orb_true_r. Qed.

Lemma any_bad s : matches nc [Any; Bad] s = false.
Proof. apply any_none. intros k. by destruct (drop k s). Qed.

Lemma reads_pos z l : reads z l -> nonneg z -> Forall (fun c => 0 < c) l.
Proof.
  induction 1 as [t|z c z' cs Hrd Hc Hr IH]; intros Hz; [constructor|]. destruct z as [|b z]; [done|]. pose proof (Forall_inv Hz) as Hb. cbn beta in Hb.
  constructor; [|by apply IH, (read_nonneg _ _ _ Hrd)]. destruct (utf8_read_head _ _ _ _ Hrd Hb) as [(_ & -> & _)|(_ & ? & _)]; lia.
Qed.

Lemma skip_wild_ok n p ps s cs :
  matchAll info <> 0 -> reads p ps -> nonneg p -> reads s cs -> nonneg s -> (length ps < n)%nat ->
  exists w, skip_wild n info p s = Some w /\
    match w with
    | inl rc => rc = SQLITE_NOWILDCARDMATCH /\ matches nc (Any :: P ps) cs = false
    | inr (c, p', s') => exists ps' cs', cur c p' ps' /\ nonneg p' /\ reads s' cs' /\ nonneg s' /\ (length ps' <= length ps)%nat /\
        Forall (fun c => 0 < c) ps' /\ matches nc (Any :: P ps) cs = matches nc (Any :: P ps') cs' /\
        (c <> 0 -> c <> matchAll info /\ c <> matchOne info)
    end.
Proof.
  intros Ha. revert p ps s cs. induction n as [|n IH]; intros p ps s cs Hp Hpz Hs Hsz Hn; [lia|]. cbn [skip_wild]. rewrite utf8read_eq by done.
  pose proof (reads_pos _ _ Hp Hpz) as Hpos. destruct (read_cur p ps Hp) as (c & p' & Hrd & Hc). rewrite Hrd. cbn [mbind option_bind].
  pose proof (read_nonneg _ _ _ Hrd Hpz) as [Hpz' _]. destruct ps as [|c0 r]; cbn [cur] in Hc.
  { subst c. rewrite (proj2 (Z.eqb_neq 0 (matchAll info))) by lia. replace ((0 =? matchOne info) && negb (matchOne info =? 0)) with false by lia. cbn [orb].
    eexists. split; [done|]. exists [], cs. by repeat (split; [done|]). }
  destruct Hc as (-> & Hc & Hr). cbn [length] in Hn. destruct Hok as (H1 & H2 & _). rewrite parse_cons.
  destruct (Z.eqb_spec c (matchAll info)) as [Ea|Ea]; cbn [orb].
  { rewrite (proj2 (Z.eqb_neq c (matchOne info))), (proj2 (Z.eqb_neq c other)) by lia. destruct (IH p' r s cs Hr Hpz' Hs Hsz ltac:(lia)) as (w & -> & Hw).
    exists w. split; [done|]. destruct w as [rc|[[c1 p1] s1]]; [by rewrite any_any|]. destruct Hw as (ps' & cs' & ? & ? & ? & ? & ? & ? & Hm & ?).
    exists ps', cs'. rewrite any_any. cbn [length]. split_and!; (done || lia). }
  destruct (Z.eqb_spec c (matchOne info)) as [Eo|Eo]; cbn [andb].
  { replace (negb (matchOne info =? 0)) with true by lia. rewrite (proj2 (Z.eqb_neq c other)) by lia.
    destruct (read_cur s cs Hs) as (c2 & s' & Hrs & Hc2). rewrite Hrs. cbn [mbind option_bind]. pose proof (read_nonneg _ _ _ Hrs Hsz) as [Hsz' _].
    destruct cs as [|x cs]; cbn [cur] in Hc2; [subst c2; eexists; split; [done|]; by rewrite any_one|]. destruct Hc2 as (-> & Hc2 & Hs').
    rewrite (proj2 (Z.eqb_neq c2 0)) by done. destruct (IH p' r s' cs Hr Hpz' Hs' Hsz' ltac:(lia)) as (w & -> & Hw).
    exists w. split; [done|]. rewrite any_one. destruct w as [rc|[[c1 p1] s1]]; [done|]. destruct Hw as (ps' & cs' & ? & ? & ? & ? & ? & ? & Hm & ?).
    exists ps', cs'. cbn [length]. split_and!; (done || lia). }
  eexists. split; [done|]. exists (c :: r), cs. rewrite parse_cons, (proj2 (Z.eqb_neq c (matchAll info))), (proj2 (Z.eqb_neq c (matchOne info))) by done.
  by repeat split.
Qed.

(** The bytes searched for are those of the characters that are the same as [x]. *)
Lemma toupper_ascii x : 0 <= x < 0x80 -> sqlite3Toupper x = if (97 <=? x) && (x <=? 122) then x - 32 else x.
Proof.
  intros Hx. assert (H : (0x80 <=? x) || (sqlite3Toupper x =? if (97 <=? x) && (x <=? 122) then x - 32 else x) = true).
  { assert (Hb : is_byte x) by (unfold is_byte; lia). clear Hx. revert x Hb. apply byte_forall. vm_compute. done. }
  rewrite (proj2 (Z.leb_gt 0x80 x)) in H by lia. by apply Z.eqb_eq in H.
Qed.

Lemma tolower_ascii x : 0 <= x < 0x80 -> sqlite3Tolower x = UpperToLower x.
Proof. intros Hx. unfold sqlite3Tolower, u8. by rewrite Z.mod_small by lia. Qed.

Lemma same_stop x c :
  0 < x < 0x80 -> same nc x c = existsb (Z.eqb c) (if nc then [sqlite3Toupper x; sqlite3Tolower x] else [x]).
Proof.
  intros Hx. unfold same. destruct nc; cbn [existsb andb]; [|lia]. rewrite toupper_ascii, tolower_ascii by lia. unfold UpperToLower.
  destruct ((97 <=? x) && (x <=? 122)) eqn:?, ((65 <=? x) && (x <=? 90)) eqn:?, ((65 <=? c) && (c <=? 90)) eqn:?; lia.
Qed.

Lemma same_ascii x c : 0 < x < 0x80 -> same nc x c = true -> 0 < c < 0x80.
Proof.
  intros Hx. unfold same, UpperToLower. destruct nc; cbn [andb];
    destruct ((65 <=? x) && (x <=? 90)) eqn:?, ((65 <=? c) && (c <=? 90)) eqn:?; lia.
Qed.

(** The search for a character that follows a wildcard. *)
Lemma lit_search_ok k q x z s :
  answers nc k q -> 0 < x -> reads z s -> nonneg z ->
  exists r, (if x <? 0x80 then stop_search (length z) (if nc then [sqlite3Toupper x; sqlite3Tolower x] else [x]) k z
             else char_search (length z) x k z) = Some r /\ wild nc (Any :: Lit x :: q) s r.
Proof.
  intros Hk Hx Hr Hz. pose proof (reads_length _ _ Hr Hz). destruct (Z.ltb_spec x 0x80).
  - apply (stop_search_ok nc k q Hk x); [intros; by apply same_stop|intros ?; by apply same_ascii|done|done|done].
  - apply (char_search_ok nc k q Hk x); [|done|done|done]. intros c. unfold same. rewrite (proj2 (Z.ltb_ge x 128)) by lia. lia.
Qed.

(** The item of a character that is not a wildcard that matches everything. *)
Definition fits (escaped : bool) (c c2 : Z) : bool :=
  (c =? c2) || (nc && (sqlite3Tolower c =? sqlite3Tolower c2) && (c <? 0x80) && (c2 <? 0x80)) ||
  ((c =? matchOne info) && negb escaped && negb (c2 =? 0)).

Lemma fits_end escaped c : 0 < c -> fits escaped c 0 = false.
Proof.
  intros Hc. unfold fits. destruct (decide (c < 0x80)) as [Hl|]; [|lia]. rewrite tolower_ascii by lia. change (sqlite3Tolower 0) with 0.
  unfold UpperToLower. destruct ((65 <=? c) && (c <=? 90)) eqn:?; lia.
Qed.

Lemma fits_item (escaped : bool) c c2 :
  0 < c -> 0 < c2 -> fits escaped c c2 = item_ok nc (if negb escaped && (c =? matchOne info) then One else Lit c) c2.
Proof.
  intros Hc Hc2. unfold fits. destruct (negb escaped) eqn:E, (c =? matchOne info) eqn:Eo; cbn [andb item_ok]; [lia|..].
  all: rewrite ?andb_false_r, orb_false_r; unfold same; f_equal.
  all: destruct (Z.ltb_spec c 0x80); [|by rewrite !andb_false_r].
  all: destruct (Z.ltb_spec c2 0x80); [|by rewrite !andb_false_r].
  all: rewrite !tolower_ascii by lia; by rewrite !andb_true_r.
Qed.

Definition before (zEscaped : option Z) (p : bytes) : Prop := match zEscaped with None => True | Some m => len p <= m end.

Definition correct (n : nat) : Prop :=
  forall esc p ps s cs, reads p ps -> nonneg p -> reads s cs -> nonneg s -> (length ps < n)%nat -> before esc p ->
    exists r, pattern_loop n info other esc p s = Some r /\ outcome nc (P ps) cs r.

Lemma correct_answers n p ps : correct n -> reads p ps -> nonneg p -> (length ps < n)%nat -> answers nc (pattern_loop n info other None p) (P ps).
Proof. intros Hn Hp Hz Hl z s Hr Hsz. by apply Hn. Qed.

(** What follows the wildcards, at the character [c] of the pattern. *)
Lemma after_wild_ok n c p ps s cs :
  correct n -> cur c p ps -> nonneg p -> reads s cs -> nonneg s -> (length ps < n)%nat -> Forall (fun c => 0 < c) ps ->
  (c <> 0 -> c <> matchAll info /\ c <> matchOne info) ->
  exists r,
    (if c =? 0 then Some SQLITE_MATCH else
     if (c =? other) && negb (matchSet info =? 0) then
       if negb (other <? 0x80) then None else set_search (length s) (pattern_loop n info other None (c :: p)) s
     else
       let? (c, p) := (if c =? other then sqlite3Utf8Read p else Some (c, p)) in
       if c =? 0 then Some SQLITE_NOWILDCARDMATCH else
       if c <? 0x80 then stop_search (length s) (if nc then [sqlite3Toupper c; sqlite3Tolower c] else [c]) (pattern_loop n info other None p) s
       else char_search (length s) c (pattern_loop n info other None p) s) = Some r /\ wild nc (Any :: P ps) cs r.
Proof.
  intros Hn Hc Hpz Hs Hsz Hl Hpos Hne. pose proof (reads_length _ _ Hs Hsz) as Hsl. destruct ps as [|c0 r]; cbn [cur] in Hc.
  { subst c. eexists. split; [done|]. left. split; [done|]. apply any_all. }
  destruct Hc as (-> & Hc & Hr). rewrite (proj2 (Z.eqb_neq c 0)) by done. destruct (Hne Hc) as [Ha Ho]. apply Forall_cons_1 in Hpos as [Hc0 Hpos].
  rewrite parse_cons. cbn [length] in Hl. destruct (Z.eqb_spec c other) as [->|Hco]; cbn [andb].
  - destruct (Z.eqb_spec (matchSet info) 0) as [Hset|Hset]; cbn [negb].
    + destruct (read_cur p r Hr) as (c1 & p1 & Hrd & Hc1). rewrite Hrd. cbn [mbind option_bind]. pose proof (read_nonneg _ _ _ Hrd Hpz) as [Hpz1 _].
      destruct r as [|x r]; cbn [cur] in Hc1; [subst c1; eexists; split; [done|]; right; split; [done|apply any_bad]|]. destruct Hc1 as (-> & Hc1 & Hr1).
      rewrite (proj2 (Z.eqb_neq c1 0)) by done. apply lit_search_ok; [|by apply Forall_inv in Hpos|done|done].
      apply correct_answers; try done. cbn [length] in Hl. lia.
    + destruct Hok as (_ & _ & Hb). rewrite (proj2 (Z.ltb_lt other 0x80)) by lia. cbn [negb].
      assert (HrC : reads (other :: p) (other :: r)).
      { eapply reads_char; [|done|exact Hr]. unfold sqlite3Utf8Read. cbn [head tail mbind option_bind]. by rewrite (proj2 (Z.leb_gt 0xc0 other)) by lia. }
      assert (HA : answers nc (pattern_loop n info other None (other :: p)) (P (other :: r))).
      { apply correct_answers; [done|done|constructor; [lia|done]|cbn [length]; lia]. }
      rewrite parse_cons, Z.eqb_refl, (proj2 (Z.eqb_neq _ _) Hset) in HA. apply (set_search_ok nc _ _ HA); [|done|done|done].
      by destruct (parse_set r) as [[[neg ms] r']|].
  - cbn [mbind option_bind]. rewrite (proj2 (Z.eqb_neq c 0)), (proj2 (Z.eqb_neq _ _) Ha), (proj2 (Z.eqb_neq _ _) Ho) by done.
    apply lit_search_ok; [|done|done|done]. apply correct_answers; [done|done|done|lia].
Qed.

(** One step of the loop on a character that is neither a wildcard for sequences nor a set. *)
Lemma char_step_ok n (escaped : bool) esc c p ps s cs i :
  correct n -> 0 < c -> reads p ps -> nonneg p -> reads s cs -> nonneg s -> (length ps < n)%nat -> before esc p ->
  bool_decide (esc = Some (len p)) = escaped -> i = (if negb escaped && (c =? matchOne info) then One else Lit c) ->
  exists r,
    (let? (c2, s) := Utf8Read s in
     if (c =? c2) || (nc && (sqlite3Tolower c =? sqlite3Tolower c2) && (c <? 0x80) && (c2 <? 0x80)) ||
        ((c =? matchOne info) && negb (bool_decide (esc = Some (len p))) && negb (c2 =? 0))
     then pattern_loop n info other esc p s else Some SQLITE_NOMATCH) = Some r /\ outcome nc (i :: P ps) cs r.
Proof.
  intros Hn Hc Hp Hpz Hs Hsz Hl Hb -> Hi. rewrite utf8read_eq by done. pose proof (reads_pos _ _ Hs Hsz) as Hpos.
  destruct (read_cur s cs Hs) as (c2 & s' & Hrd & Hc2). rewrite Hrd. cbn [mbind option_bind]. pose proof (read_nonneg _ _ _ Hrd Hsz) as [Hsz' _].
  change ((c =? c2) || _ || _) with (fits escaped c c2). destruct cs as [|x cs]; cbn [cur] in Hc2.
  { subst c2. rewrite fits_end by done. eexists. split; [done|]. right. left. split; [done|]. subst i. by destruct (negb escaped && _). }
  destruct Hc2 as (-> & Hc2 & Hs'). apply Forall_cons_1 in Hpos as [Hp2 _]. rewrite fits_item, <- Hi by done.
  assert (Ha : match i with Any => False | _ => True end) by (subst i; by destruct (negb escaped && _)).
  destruct (item_ok nc i c2) eqn:E.
  - destruct (Hn esc p ps s' cs Hp Hpz Hs' Hsz' Hl Hb) as (r & -> & Ho). exists r. split; [done|]. by apply outcome_lit.
  - eexists. split; [done|]. right. left. split; [done|]. destruct i; try done; cbn [matches]; by rewrite E.
Qed.

Lemma pattern_loop_ok n : correct n.
Proof.
  induction n as [|n IH]; intros esc p ps s cs Hp Hpz Hs Hsz Hl Hb; [lia|]. cbn [pattern_loop]. rewrite utf8read_eq by done.
  pose proof (reads_pos _ _ Hp Hpz) as Hpos. destruct (read_cur p ps Hp) as (c & p' & Hrd & Hc). rewrite Hrd. cbn [mbind option_bind].
  pose proof (read_nonneg _ _ _ Hrd Hpz) as [Hpz' Hlt]. destruct ps as [|c0 r]; cbn [cur] in Hc.
  { subst c. cbn [Z.eqb]. destruct (reads_head s cs Hs Hsz) as (b & t & -> & Hh). cbn [head mbind option_bind]. eexists. split; [done|].
    destruct cs as [|x cs]; [subst b; by left|]. destruct Hh as (Hb0 & _). rewrite (proj2 (Z.eqb_neq b 0)) by done. right. by left. }
  destruct Hc as (-> & Hc & Hr). rewrite (proj2 (Z.eqb_neq c 0)) by done. cbn [length] in Hl. pose proof (reads_length _ _ Hr Hpz') as Hrl.
  apply Forall_cons_1 in Hpos as [Hc0 Hpos]. pose proof Hok as (H1 & H2 & _). rewrite parse_cons.
  assert (Hb' : before esc p' /\ bool_decide (esc = Some (len p')) = false).
  { unfold before in *. destruct esc as [m|]; [|done]. split; [lia|]. apply bool_decide_eq_false. intros [= ->]. lia. }
  destruct (Z.eqb_spec c (matchAll info)) as [Ea|Ea].
  { rewrite (proj2 (Z.eqb_neq c other)) by lia.
    destruct (skip_wild_ok (length p') p' r s cs ltac:(lia) Hr Hpz' Hs Hsz Hrl) as (w & -> & Hw). cbn [mbind option_bind].
    destruct w as [rc|[[c1 p1] s1]]; [destruct Hw as [-> Hw]; eexists; split; [done|]; by apply wild_outcome; right|].
    destruct Hw as (ps' & cs' & Hc1 & Hpz1 & Hs1 & Hsz1 & Hl1 & Hpos1 & Hm & Hne).
    destruct (after_wild_ok n c1 p1 ps' s1 cs' IH Hc1 Hpz1 Hs1 Hsz1 ltac:(lia) Hpos1 Hne) as (rc & -> & Hw). exists rc. split; [done|].
    apply wild_outcome. unfold wild in *. by rewrite Hm. }
  destruct (Z.eqb_spec c other) as [->|Hco]; cbn [andb].
  - destruct (Z.eqb_spec (matchSet info) 0) as [Hset|Hset]; cbn [negb].
    + destruct (read_cur p' r Hr) as (c1 & p1 & Hrd1 & Hc1). rewrite Hrd1. cbn [mbind option_bind]. pose proof (read_nonneg _ _ _ Hrd1 Hpz') as [Hpz1 _].
      destruct r as [|x r]; cbn [cur] in Hc1; [subst c1; eexists; split; [done|]; right; left; split; [done|]; by destruct cs|].
      destruct Hc1 as (-> & Hc1 & Hr1). rewrite (proj2 (Z.eqb_neq c1 0)) by done. apply Forall_inv in Hpos. cbn [length] in Hl.
      apply (char_step_ok n true); try done; [lia|cbn [before]; lia|by apply bool_decide_eq_true].
    + destruct (read_cur s cs Hs) as (c2 & s' & Hrs & Hc2). rewrite Hrs. cbn [mbind option_bind]. pose proof (read_nonneg _ _ _ Hrs Hsz) as [Hsz' _].
      destruct cs as [|x cs]; cbn [cur] in Hc2; [subst c2; eexists; split; [done|]; right; left; by destruct (parse_set r) as [[[? ?] ?]|]|].
      destruct Hc2 as (-> & Hc2 & Hs'). rewrite (proj2 (Z.eqb_neq c2 0)) by done. pose proof (compare_set_ok c2 p' r Hr Hpz') as HC.
      destruct (parse_set r) as [[[neg ms] rest]|] eqn:Eset; [|rewrite HC; eexists; split; [done|]; by right; left].
      destruct HC as (z' & -> & Hrz & Hzz & Hlz). cbn [mbind option_bind]. apply parse_set_length in Eset. destruct (xorb (in_ranges ms c2) neg) eqn:Ex.
      * destruct (IH esc z' rest s' cs Hrz Hzz Hs' Hsz' ltac:(lia)) as (rc & -> & Ho); [destruct Hb' as [Hb' _]; unfold before in *; destruct esc; [lia|done]|].
        exists rc. split; [done|]. by apply outcome_lit.
      * eexists. split; [done|]. right. left. split; [done|]. cbn [matches item_ok]. by rewrite Ex.
  - cbn [mbind option_bind]. rewrite (proj2 (Z.eqb_neq c 0)) by done.
    destruct (char_step_ok n false esc c p' r s cs _ IH Hc0 Hr Hpz' Hs Hsz ltac:(lia) (proj1 Hb') (proj2 Hb') eq_refl) as (rc & E & Ho).
    exists rc. split; [exact E|]. revert Ho. cbn [negb andb]. by destruct (c =? matchOne info).
Qed.

End Compare.

(** ** Claims *)

(** A text without a zero byte. *)
Definition text_ok (z : bytes) : Prop := bytes_ok z /\ Forall (fun b => b <> 0) z.

Lemma bytes_nonneg z : bytes_ok z -> nonneg z.
Proof. intros H. induction H as [|x z Hx _ IH]; constructor; [unfold is_byte in Hx; lia|done]. Qed.

Lemma text_reads z t : text_ok z -> bytes_ok t -> reads (z ++ 0 :: t) (chars_of z) /\ nonneg (z ++ 0 :: t).
Proof.
  intros [Hz Hnz] Ht. split; [by apply chars_reads|]. apply bytes_nonneg, Forall_app_2; [done|]. constructor; [unfold is_byte; lia|done].
Qed.

(** The characters of a text that encodes them. *)
Lemma chars_encode cs : Forall scalar cs -> chars_of (encode SQLITE_UTF8 cs) = cs.
Proof.
  intros H. unfold chars_of. generalize (encode_fuel SQLITE_UTF8 cs). generalize (length (encode SQLITE_UTF8 cs)) as n. induction H as [|c cs Hc Hcs IH]; intros n Hn; [by destruct n|].
  destruct n as [|n]; [cbn in Hn; lia|]. pose proof (read_utf8_write c _ Hc (boundary_encode cs Hcs)) as Hr.
  change (encode SQLITE_UTF8 (c :: cs)) with (WRITE_UTF8 c ++ encode SQLITE_UTF8 cs). pose proof (write_utf8_len c).
  destruct (WRITE_UTF8 c ++ _) as [|b z] eqn:E; [by apply app_eq_nil in E as [E _]; rewrite E in *|]. cbn [chars]. rewrite Hr, IH by (cbn in Hn; lia). done.
Qed.

Lemma compare_outcome info other p s tp ts :
  info_ok info other -> text_ok p -> text_ok s -> bytes_ok tp -> bytes_ok ts ->
  exists r, patternCompare (p ++ 0 :: tp) (s ++ 0 :: ts) info other = Some r /\
    outcome (noCase info) (parse_pattern info other (chars_of p)) (chars_of s) r.
Proof.
  intros Hok Hp Hs Htp Hts. destruct (text_reads p tp Hp Htp) as [Hrp Hnp]. destruct (text_reads s ts Hs Hts) as [Hrs Hns].
  apply (pattern_loop_ok info other Hok); try done. by apply reads_length.
Qed.

(** C38: for any pattern and any string, valid UTF-8 or not, the matcher of LIKE and GLOB ends
    without reading past either terminator and reports a match exactly when the items of the
    pattern match the characters of the string; when it reports that no match is possible in
    spite of the wildcards, the pattern matches no tail of the string either, which is what
    lets the search at an outer wildcard stop. *)
Theorem pattern_exact info other p s tp ts :
  info_ok info other -> text_ok p -> text_ok s -> bytes_ok tp -> bytes_ok ts ->
  exists r, patternCompare (p ++ 0 :: tp) (s ++ 0 :: ts) info other = Some r /\
    (r = SQLITE_MATCH \/ r = SQLITE_NOMATCH \/ r = SQLITE_NOWILDCARDMATCH) /\
    (r = SQLITE_MATCH <-> matches (noCase info) (parse_pattern info other (chars_of p)) (chars_of s) = true) /\
    (r = SQLITE_NOWILDCARDMATCH -> forall k, matches (noCase info) (parse_pattern info other (chars_of p)) (drop k (chars_of s)) = false).
Proof.
  intros Hok Hp Hs Htp Hts. destruct (compare_outcome info other p s tp ts Hok Hp Hs Htp Hts) as (r & -> & Ho). exists r. split; [done|].
  destruct Ho as [[-> H]|[[-> H]|[-> H]]]; (split; [tauto|]); (split; [|done]).
  - done.
  - rewrite H. done.
  - rewrite (H 0%nat : matches _ _ (chars_of s) = false). done.
Qed.

Lemma char_count_reads z l n i r :
  reads z l -> nonneg z -> (length l < n)%nat -> char_count n (-1) z i r = Some (r + len l).
Proof.
  intros Hr. revert n i r. induction Hr as [t|z c z' cs Hrd Hc Hr IH]; intros n i r Hz Hn; (destruct n as [|n]; [cbn in Hn; lia|]); cbn [char_count].
  - cbn. f_equal. lia.
  - pose proof (reads_char z c z' cs Hrd Hc Hr) as Hrz. destruct (reads_head _ _ Hrz Hz) as (b & t & E & Hb & _). rewrite E. cbn [head mbind option_bind]. rewrite <- E.
    rewrite (proj2 (Z.eqb_neq b 0)) by done. cbn [negb andb orb Z.ltb Z.compare]. rewrite (skip_of_read _ _ _ Hrd). cbn [mbind option_bind].
    cbn [length] in Hn |- *. rewrite IH by (apply (read_nonneg _ _ _ Hrd Hz) || lia). f_equal. lia.
Qed.

(** A wildcard that is also the escape character is only the escape character. *)
Lemma parse_escape info esc l :
  matchSet info = 0 -> Forall (fun c => 0 < c) l ->
  parse_pattern {| matchAll := if esc =? matchAll info then 0 else matchAll info; matchOne := if esc =? matchOne info then 0 else matchOne info;
                   matchSet := matchSet info; noCase := noCase info |} esc l = parse_pattern info esc l.
Proof.
  intros Hs. unfold parse_pattern. generalize (length l) as n. intros n. revert l. induction n as [|n IH]; intros l Hl; [by destruct l|].
  destruct l as [|c r]; [done|]. apply Forall_cons_1 in Hl as [Hc Hr]. cbn [parse matchSet matchAll matchOne]. rewrite Hs. cbn [Z.eqb]. rewrite Hs in IH.
  destruct (Z.eqb_spec c esc) as [->|Hne]; [destruct r as [|e r']; [done|]; f_equal; apply IH; by apply Forall_inv_tail in Hr|].
  replace (c =? (if esc =? matchAll info then 0 else matchAll info)) with (c =? matchAll info) by (destruct (Z.eqb_spec esc (matchAll info)); lia).
  replace (c =? (if esc =? matchOne info then 0 else matchOne info)) with (c =? matchOne info) by (destruct (Z.eqb_spec esc (matchOne info)); lia).
  by rewrite (IH r Hr).
Qed.

(** The answer of the function for a pattern, a string and an escape character (0 for none). *)
Definition like_answer (info : compareInfo) (esc : Z) (p s : bytes) : result :=
  res_int (matches (noCase info) (parse_pattern info esc (chars_of p)) (chars_of s)).

Lemma like_compare info other p s :
  info_ok info other -> text_ok p -> text_ok s ->
  (let? r := patternCompare (p ++ [0]) (s ++ [0]) info other in Some (res_int (r =? SQLITE_MATCH))) = Some (like_answer info other p s).
Proof.
  intros Hok Hp Hs. destruct (compare_outcome info other p s [] [] Hok Hp Hs) as (r & -> & Ho); [constructor|constructor|]. cbn [mbind option_bind]. unfold like_answer.
  destruct Ho as [[-> ->]|[[-> ->]|[-> H]]]; [done|done|]. by rewrite (H 0%nat : matches _ _ (chars_of s) = false).
Qed.

(** The SQL function for LIKE. A pattern longer than the limit is an error; an ESCAPE
    argument that is not one character is an error, and a NULL one gives NULL; a NULL pattern
    or string gives NULL; otherwise the result is whether the pattern matches the string,
    where the escape character loses any meaning it has as a wildcard. *)
Theorem like_function info limit p s e :
  info = likeInfoNorm \/ info = likeInfoAlt -> text_ok p -> text_ok s -> text_ok e ->
  (limit < len p -> forall v w, likeFunc info limit (Some p) v w = Some (res_error (UtilStr.text "LIKE or GLOB pattern too complex"))) /\
  (0 <= limit -> likeFunc info limit None (Some s) None = Some res_null) /\
  (len p <= limit ->
     likeFunc info limit (Some p) (Some s) None = Some (like_answer info 0 p s) /\
     likeFunc info limit (Some p) None None = Some res_null /\
     likeFunc info limit (Some p) (Some s) (Some None) = Some res_null /\
     likeFunc info limit (Some p) (Some s) (Some (Some e)) =
       Some match chars_of e with
            | [c] => like_answer info c p s
            | _ => res_error (UtilStr.text "ESCAPE expression must be a single character")
            end).
Proof.
  intros Hi Hp Hs He. unfold likeFunc. cbn [value_bytes from_option]. assert (Hset : matchSet info = 0) by (by destruct Hi as [-> | ->]).
  split; [intros Hl v w; by rewrite (proj2 (Z.ltb_lt limit (len p)) Hl)|].
  split; [intros Hl; rewrite (proj2 (Z.ltb_ge limit 0) Hl); done|].
  intros Hl. rewrite (proj2 (Z.ltb_ge limit (len p)) Hl). cbn [like_escape value_text fmap option_fmap option_map mbind option_bind].
  split; [rewrite Hset; apply like_compare; try done; destruct Hi as [-> | ->]; repeat split; cbn; lia|]. split; [done|]. split; [done|].
  destruct (text_reads e [] He ltac:(constructor)) as [Hre Hne]. unfold sqlite3Utf8CharLen.
  rewrite (char_count_reads _ _ _ 0 0 Hre Hne (reads_length _ _ Hre Hne)). cbn [mbind option_bind].
  destruct (read_cur _ _ Hre) as (c & z' & Hrd & Hc). rewrite Hrd. pose proof (reads_pos _ _ Hre Hne) as Hpos.
  destruct (chars_of e) as [|c0 [|c1 l]]; [done| |by rewrite (proj2 (Z.eqb_neq (0 + len (c0 :: c1 :: l)) 1)) by (rewrite !length_cons; lia)].
  cbn [length mbind option_bind]. destruct Hc as (-> & Hc & _). apply Forall_inv in Hpos.
  change (0 + Z.of_nat 1 <>? 1) with false. cbn iota beta.
  rewrite like_compare; [|destruct Hi as [-> | ->]; unfold info_ok; cbn; repeat split; repeat case_match; lia|done|done].
  unfold like_answer. rewrite parse_escape; [done|done|]. destruct (text_reads p [] Hp ltac:(constructor)) as [Hrp Hnp]. by apply (reads_pos _ _ Hrp Hnp).
Qed.

(** ** Witnesses *)

Lemma pattern_exact_witness :
  exists r, patternCompare (UtilStr.text "*[a-c]?" ++ 0 :: []) (UtilStr.text "xxbq" ++ 0 :: []) globInfo 91 = Some r /\
    (r = SQLITE_MATCH \/ r = SQLITE_NOMATCH \/ r = SQLITE_NOWILDCARDMATCH) /\
    (r = SQLITE_MATCH <-> matches false (parse_pattern globInfo 91 (chars_of (UtilStr.text "*[a-c]?"))) (chars_of (UtilStr.text "xxbq")) = true) /\
    (r = SQLITE_NOWILDCARDMATCH ->
       forall k, matches false (parse_pattern globInfo 91 (chars_of (UtilStr.text "*[a-c]?"))) (drop k (chars_of (UtilStr.text "xxbq"))) = false).
Proof.
  apply (pattern_exact globInfo 91 (UtilStr.text "*[a-c]?") (UtilStr.text "xxbq") [] []); [| | |constructor|constructor].
  - repeat split; cbn; lia.
  - split; apply (bool_decide_unpack _); by vm_compute.
  - split; apply (bool_decide_unpack _); by vm_compute.
Defined.

(** A pattern whose escape character is a wildcard, in the SQL function. *)
Lemma like_function_witness :
  likeFunc likeInfoNorm 50000 (Some (UtilStr.text "%%")) (Some (UtilStr.text "abc")) (Some (Some (UtilStr.text "%"))) = Some (res_int false).
Proof.
  destruct (like_function likeInfoNorm 50000 (UtilStr.text "%%") (UtilStr.text "abc") (UtilStr.text "%")) as (_ & _ & H); [by left|..];
    [split; apply (bool_decide_unpack _); by vm_compute..|]. exact (proj2 (proj2 (proj2 (H ltac:(vm_compute; congruence))))).
Defined.

(** [sqlite3_strlike] keeps the wildcard in the same case and matches anything. *)
Lemma strlike_escape_wildcard : sqlite3_strlike (Some (lit "%%")) (Some (lit "abc")) 37 = Some SQLITE_MATCH.
Proof. reflexivity. Qed.

(** The parsed form of a pattern. *)
Example demo_parse :
  parse_pattern globInfo 91 (chars_of (UtilStr.text "a*[^]x-z-]?")) = [Lit 97; Any; Set_ true [(93, 93); (120, 120); (120, 122); (45, 45)]; One].
Proof. reflexivity. Qed.

End Like.
