(* ===== verification/Double.v ===== *)
(** * Doubles as bits, and their comparison with integers (src/vdbeaux.c)

    A double is the 64-bit integer with its bits. Every finite double is an integer multiple of
    2^-1074, its value times 2^1074 is [scaled]; an infinity is larger than all of them. The
    comparison, the conversion from an integer (to the nearest, ties to even) and to an integer
    (towards zero) are those of IEEE 754.

    [sqlite3IntFloatCompare] orders an integer and a double exactly, although not every integer
    is a double. *)

From stdpp Require Import list.
From S2P Require Import Prelude.
Local Open Scope Z_scope.

Module Doubles.

(** ** Operations *)

Definition EXP754 : Z := Z.shiftl 0x7ff 52.
Definition MAN754 : Z := Z.shiftl 1 52 - 1.
Definition IsNaN (x : Z) : bool := (Z.land x EXP754 =? EXP754) && negb (Z.land x MAN754 =? 0).

(** [(double)i], as bits: the nearest double, ties to even. *)
Definition round53 (a : Z) : Z :=
  let e := Z.max 0 (Z.log2 a - 52) in
  let q := a / 2 ^ e in
  let r := a mod 2 ^ e in
  (if (2 ^ e <? 2 * r) || ((2 * r =? 2 ^ e) && Z.odd q) then q + 1 else q) * 2 ^ e.
Definition double_of_int (i : Z) : Z :=
  let a := round53 (Z.abs i) in
  let l := Z.log2 a in
  if a =? 0 then 0
  else (if i <? 0 then 2 ^ 63 else 0) + (l + 1023) * 2 ^ 52 + ((if l <=? 52 then a * 2 ^ (52 - l) else a / 2 ^ (l - 52)) - 2 ^ 52).

(** The value times 2^1074. *)
Definition d_exp (x : Z) : Z := (x / 2 ^ 52) mod 2 ^ 11.
Definition d_man (x : Z) : Z := x mod 2 ^ 52.
Definition magnitude (x : Z) : Z := if d_exp x =? 0 then d_man x else (2 ^ 52 + d_man x) * 2 ^ (d_exp x - 1).
Definition scaled (x : Z) : Z := if 2 ^ 63 <=? x then - magnitude x else magnitude x.

Definition d_lt (x y : Z) : bool := negb (IsNaN x) && negb (IsNaN y) && (scaled x <? scaled y).
Definition int_of_double (r : Z) : Z := Z.quot (scaled r) (2 ^ 1074).

(** The bounds are the doubles -2^63 and 2^63. *)
Definition sqlite3IntFloatCompare (i r : Z) : Z :=
  if IsNaN r then 1 else
  if d_lt r 0xC3E0000000000000 then 1 else
  if negb (d_lt r 0x43E0000000000000) then -1 else
  let y := int_of_double r in
  if i <? y then -1 else
  if y <? i then 1 else
  if d_lt (double_of_int i) r then -1 else if d_lt r (double_of_int i) then 1 else 0.

(** ** The bits of a double *)

Lemma is_nan_eq x : IsNaN x = (d_exp x =? 2047) && negb (d_man x =? 0).
Proof.
  unfold IsNaN, d_exp, d_man. rewrite (land_field x EXP754 52 11), (land_field x MAN754 0 52) by done.
  change EXP754 with (2047 * 2 ^ 52). rewrite Z.pow_0_r, Z.mul_1_r, Z.div_1_r. f_equal. lia.
Qed.

(** The double with a given sign, exponent and mantissa. *)
Definition pack (s : bool) (e m : Z) : Z := (if s then 2 ^ 63 else 0) + e * 2 ^ 52 + m.

Lemma pack_fields s e m :
  0 <= e < 2 ^ 11 -> 0 <= m < 2 ^ 52 ->
  d_exp (pack s e m) = e /\ d_man (pack s e m) = m /\ (2 ^ 63 <=? pack s e m) = s /\ 0 <= pack s e m < 2 ^ 64.
Proof.
  intros He Hm. unfold d_exp, d_man, pack.
  assert (E : (if s then 2 ^ 63 else 0) = (if s then 2 ^ 11 else 0) * 2 ^ 52) by (by destruct s). rewrite E, <- Z.mul_add_distr_r.
  rewrite Z.div_add_l, (Z.div_small m), Z.add_0_r by lia. rewrite (Z.add_comm _ m), Z.mod_add, (Z.mod_small m) by lia.
  split; [destruct s; Z.div_mod_to_equations; lia|]. split; [done|]. split; destruct s; lia.
Qed.

Lemma scaled_pack s e m :
  0 < e < 2 ^ 11 -> 0 <= m < 2 ^ 52 -> scaled (pack s e m) = (if s then -1 else 1) * ((2 ^ 52 + m) * 2 ^ (e - 1)).
Proof.
  intros He Hm. destruct (pack_fields s e m ltac:(lia) Hm) as (E1 & E2 & E3 & _). unfold scaled, magnitude. rewrite E1, E2, E3.
  rewrite (proj2 (Z.eqb_neq e 0)) by lia. destruct s; lia.
Qed.

(** ** Conversion from an integer *)

Definition exact53 (a : Z) : Prop := a mod 2 ^ Z.max 0 (Z.log2 a - 52) = 0.

Lemma round53_exact a : 0 <= a -> exact53 a -> round53 a = a.
Proof.
  intros Ha H. unfold round53, exact53 in *. set (e := Z.max 0 (Z.log2 a - 52)) in *. rewrite H. assert (0 < 2 ^ e) by (apply Z.pow_pos_nonneg; lia).
  replace ((2 ^ e <? 2 * 0) || ((2 * 0 =? 2 ^ e) && Z.odd (a / 2 ^ e))) with false by lia. pose proof (Z.div_mod a (2 ^ e)). lia.
Qed.

Lemma round53_range a : 0 < a < 2 ^ 64 -> 0 < round53 a <= 2 ^ 64 /\ exact53 (round53 a).
Proof.
  intros Ha. unfold round53. destruct (Z.log2_spec a ltac:(lia)) as [H1 H2]. assert (Hl : 0 <= Z.log2 a < 64) by (split; [apply Z.log2_nonneg|apply Z.log2_lt_pow2; lia]).
  set (l := Z.log2 a) in *. destruct (Z.le_gt_cases l 52) as [Hle|Hgt].
  { replace (Z.max 0 (l - 52)) with 0 by lia. rewrite Z.pow_0_r, Z.mod_1_r, Z.div_1_r. change ((1 <? 2 * 0) || ((2 * 0 =? 1) && Z.odd a)) with false. cbn iota. rewrite Z.mul_1_r. split; [lia|].
    unfold exact53. fold l. replace (Z.max 0 (l - 52)) with 0 by lia. apply Z.mod_1_r. }
  replace (Z.max 0 (l - 52)) with (l - 52) by lia. set (e := l - 52) in *. assert (Hp : 0 < 2 ^ e) by (apply Z.pow_pos_nonneg; lia).
  assert (Hq : 2 ^ 52 <= a / 2 ^ e < 2 ^ 53).
  { split; [apply Z.div_le_lower_bound|apply Z.div_lt_upper_bound]; try lia; rewrite <- Z.pow_add_r by lia;
      [replace (e + 52) with l by lia|replace (e + 53) with (Z.succ l) by lia]; lia. }
  match goal with |- context [(if ?b then ?x else ?y) * 2 ^ e] => set (q' := if b then x else y) end. assert (Hq' : 2 ^ 52 <= q' <= 2 ^ 53) by (unfold q'; case_match; lia). clearbody q'.
  assert (Hb : 2 ^ e <= 2 ^ 11) by (apply Z.pow_le_mono_r; lia). split; [nia|]. unfold exact53.
  destruct (decide (q' = 2 ^ 53)) as [->|Hne].
  - rewrite <- Z.pow_add_r by lia. rewrite Z.log2_pow2 by lia. replace (Z.max 0 (53 + e - 52)) with (e + 1) by lia.
    replace (53 + e) with (52 + (e + 1)) by lia. rewrite Z.pow_add_r by lia. apply Z_mod_mult.
  - rewrite Z.log2_mul_pow2 by lia. replace (Z.log2 q') with 52 by (symmetry; apply Z.log2_unique; lia).
    replace (Z.max 0 (e + 52 - 52)) with e by lia. apply Z_mod_mult.
Qed.

Lemma double_of_int_pack i :
  i <> 0 -> Z.abs i < 2 ^ 64 -> exists e m, double_of_int i = pack (i <? 0) e m /\ 0 < e < 2047 /\ 0 <= m < 2 ^ 52 /\
    (2 ^ 52 + m) * 2 ^ (e - 1) = round53 (Z.abs i) * 2 ^ 1074.
Proof.
  intros Hi Hr. destruct (round53_range (Z.abs i) ltac:(lia)) as [Ha He]. unfold double_of_int. set (a := round53 (Z.abs i)) in *. clearbody a.
  rewrite (proj2 (Z.eqb_neq a 0)) by lia. destruct (Z.log2_spec a ltac:(lia)) as [H1 H2].
  assert (Hl : 0 <= Z.log2 a <= 64) by (split; [apply Z.log2_nonneg|]; rewrite <- (Z.log2_pow2 64) by lia; apply Z.log2_le_mono; lia).
  unfold exact53 in He. set (l := Z.log2 a) in *. set (m := if l <=? 52 then a * 2 ^ (52 - l) else a / 2 ^ (l - 52)).
  assert (Hm : 2 ^ 52 <= m < 2 ^ 53 /\ m * 2 ^ (l + 1022) = a * 2 ^ 1074).
  { unfold m. destruct (Z.leb_spec l 52).
    - replace (2 ^ 52) with (2 ^ l * 2 ^ (52 - l)) by (rewrite <- Z.pow_add_r by lia; f_equal; lia).
      replace (2 ^ 53) with (2 ^ Z.succ l * 2 ^ (52 - l)) by (rewrite <- Z.pow_add_r by lia; f_equal; lia).
      assert (0 < 2 ^ (52 - l)) by (apply Z.pow_pos_nonneg; lia). split; [nia|]. rewrite <- Z.mul_assoc, <- Z.pow_add_r by lia. do 2 f_equal. lia.
    - replace (Z.max 0 (l - 52)) with (l - 52) in He by lia. assert (0 < 2 ^ (l - 52)) by (apply Z.pow_pos_nonneg; lia).
      assert (Ea : a = 2 ^ (l - 52) * (a / 2 ^ (l - 52))) by (rewrite (Z.div_mod a (2 ^ (l - 52))) at 1; lia).
      replace (2 ^ l) with (2 ^ (l - 52) * 2 ^ 52) in H1 by (rewrite <- Z.pow_add_r by lia; f_equal; lia).
      replace (2 ^ Z.succ l) with (2 ^ (l - 52) * 2 ^ 53) in H2 by (rewrite <- Z.pow_add_r by lia; f_equal; lia).
      split; [nia|]. replace (l + 1022) with (l - 52 + 1074) by lia. rewrite Z.pow_add_r, Z.mul_assoc by lia. f_equal. lia. }
  destruct Hm as [Hm Hv]. exists (l + 1023), (m - 2 ^ 52). split; [done|]. split; [lia|]. split; [lia|].
  replace (2 ^ 52 + (m - 2 ^ 52)) with m by lia. replace (l + 1023 - 1) with (l + 1022) by lia. done.
Qed.

Lemma double_of_int_ok i : Z.abs i < 2 ^ 64 -> 0 <= double_of_int i < 2 ^ 64 /\ IsNaN (double_of_int i) = false.
Proof.
  intros Hr. destruct (decide (i = 0)) as [->|Hi]; [done|]. destruct (double_of_int_pack i Hi Hr) as (e & m & -> & He & Hm & _).
  destruct (pack_fields (i <? 0) e m ltac:(lia) Hm) as (E1 & E2 & _ & Hb). split; [done|]. rewrite is_nan_eq, E1. lia.
Qed.

Lemma double_of_int_exact i : Z.abs i < 2 ^ 64 -> exact53 (Z.abs i) -> scaled (double_of_int i) = i * 2 ^ 1074.
Proof.
  intros Hr Hx. destruct (decide (i = 0)) as [->|Hi]; [done|]. destruct (double_of_int_pack i Hi Hr) as (e & m & -> & He & Hm & Hv).
  rewrite scaled_pack, Hv, round53_exact by (done || lia). destruct (Z.ltb_spec i 0); lia.
Qed.

(** ** Comparison *)

Definition cmpz (a b : Z) : Z := if a <? b then -1 else if b <? a then 1 else 0.

Lemma exact53_small a : 0 <= a < 2 ^ 53 -> exact53 a.
Proof.
  intros Ha. unfold exact53. replace (Z.max 0 (Z.log2 a - 52)) with 0; [apply Z.mod_1_r|]. destruct (decide (a = 0)) as [->|]; [done|].
  pose proof (proj1 (Z.log2_lt_pow2 a 53 ltac:(lia)) ltac:(lia)). lia.
Qed.

Lemma magnitude_nonneg x : 0 <= magnitude x.
Proof.
  unfold magnitude, d_man. pose proof (Z.mod_pos_bound x (2 ^ 52) ltac:(lia)). case_match; [lia|]. assert (0 <= 2 ^ (d_exp x - 1)) by (apply Z.pow_nonneg; lia). nia.
Qed.

(** The integer part of a double is a double. *)
Lemma trunc_exact x : exact53 (magnitude x / 2 ^ 1074).
Proof.
  unfold magnitude. pose proof (Z.mod_pos_bound x (2 ^ 52) ltac:(lia)) as Hm. pose proof (Z.mod_pos_bound (x / 2 ^ 52) (2 ^ 11) ltac:(lia)) as He. fold (d_man x) in Hm. fold (d_exp x) in He.
  destruct (Z.eqb_spec (d_exp x) 0) as [E|E].
  { rewrite Z.div_small; [done|]. split; [lia|]. eapply Z.lt_le_trans; [apply Hm|]. apply Z.pow_le_mono_r; lia. }
  set (M := 2 ^ 52 + d_man x). assert (HM : 2 ^ 52 <= M < 2 ^ 53) by (unfold M; lia). clearbody M. destruct (Z.le_gt_cases 1074 (d_exp x - 1)) as [Hge|Hlt].
  - replace (d_exp x - 1) with (d_exp x - 1075 + 1074) by lia. rewrite Z.pow_add_r, Z.mul_assoc, Z.div_mul by (try apply Z.pow_nonzero; lia).
    unfold exact53. rewrite Z.log2_mul_pow2 by lia. replace (Z.log2 M) with 52 by (symmetry; apply Z.log2_unique; lia).
    replace (Z.max 0 (d_exp x - 1075 + 52 - 52)) with (d_exp x - 1075) by lia. apply Z_mod_mult.
  - apply exact53_small. assert (0 < 2 ^ (d_exp x - 1)) by (apply Z.pow_pos_nonneg; lia). split; [apply Z.div_pos; [nia|apply Z.pow_pos_nonneg; lia]|].
    apply Z.div_lt_upper_bound; [apply Z.pow_pos_nonneg; lia|]. assert (2 ^ (d_exp x - 1) <= 2 ^ 1074) by (apply Z.pow_le_mono_r; lia). nia.
Qed.

Lemma int_of_double_abs r : Z.abs (int_of_double r) = magnitude r / 2 ^ 1074.
Proof.
  pose proof (magnitude_nonneg r) as Hm. assert (HU : 0 < 2 ^ 1074) by (apply Z.pow_pos_nonneg; lia). unfold int_of_double, scaled.
  case_match; [rewrite Z.quot_opp_l by lia; rewrite Z.abs_opp|]; (rewrite Z.quot_div_nonneg by lia); apply Z.abs_eq, Z.div_pos; lia.
Qed.

(** The comparison of an integer with a double is that of their values. *)
Lemma int_float_exact i r : is_i64 i -> IsNaN r = false -> sqlite3IntFloatCompare i r = cmpz (i * 2 ^ 1074) (scaled r).
Proof.
  unfold is_i64. intros Hi Hn. unfold sqlite3IntFloatCompare, d_lt. rewrite Hn. cbn [negb].
  change (IsNaN 0xC3E0000000000000) with false. change (IsNaN 0x43E0000000000000) with false. cbn [negb andb].
  assert (E1 : scaled 0xC3E0000000000000 = - 2 ^ 63 * 2 ^ 1074) by (by vm_compute). assert (E2 : scaled 0x43E0000000000000 = 2 ^ 63 * 2 ^ 1074) by (by vm_compute).
  rewrite E1, E2. clear E1 E2. assert (HU : 0 < 2 ^ 1074) by (apply Z.pow_pos_nonneg; lia).
  pose proof (int_of_double_abs r) as Hy. pose proof (trunc_exact r) as Hx. rewrite <- Hy in Hx. clear Hy.
  assert (Hq : scaled r = 2 ^ 1074 * int_of_double r + Z.rem (scaled r) (2 ^ 1074)) by (apply Z.quot_rem'). pose proof (Z.rem_bound_abs (scaled r) (2 ^ 1074) ltac:(lia)) as Hrem.
  pose proof (Z.rem_sign_nz (scaled r) (2 ^ 1074)) as Hsg.
  assert (Hs : (0 <= scaled r -> 0 <= Z.rem (scaled r) (2 ^ 1074)) /\ (scaled r <= 0 -> Z.rem (scaled r) (2 ^ 1074) <= 0)).
  { split; intros H; [apply Z.rem_nonneg|apply Z.rem_nonpos]; lia. }
  clear Hsg. set (y := int_of_double r) in *. set (m := Z.rem _ _) in *. set (V := scaled r) in *. clearbody m V.
  destruct (Z.ltb_spec V (- 2 ^ 63 * 2 ^ 1074)); [unfold cmpz; rewrite (proj2 (Z.ltb_ge (i * _) V)), (proj2 (Z.ltb_lt V _)) by nia; done|].
  destruct (Z.ltb_spec V (2 ^ 63 * 2 ^ 1074)); cbn [negb]; [|unfold cmpz; rewrite (proj2 (Z.ltb_lt (i * _) V)) by nia; done].
  destruct (Z.ltb_spec i y); [unfold cmpz; rewrite (proj2 (Z.ltb_lt (i * _) V)) by nia; done|].
  destruct (Z.ltb_spec y i); [unfold cmpz; rewrite (proj2 (Z.ltb_ge (i * _) V)), (proj2 (Z.ltb_lt V _)) by nia; done|].
  replace i with y by lia. destruct (double_of_int_ok y ltac:(lia)) as [_ ->]. cbn [negb andb]. by rewrite double_of_int_exact by (done || lia).
Qed.

End Doubles.
