(* ===== verification/Record.v ===== *)
(** * The record format (src/vdbe.c, src/vdbeaux.c)

    - the serial types and the part of [OP_MakeRecord] of src/vdbe.c that computes the size of
      a record and writes it, with the over-run of seven bytes that each integer may write to;
    - [sqlite3VdbeSerialGet] and [sqlite3VdbeRecordUnpack], which read it.

    A value of the virtual machine is a [value]; the flags of a [Mem] are its constructor. A
    double is the 64-bit integer with its bits. The machine is little-endian and has an over-run
    area, as with the default SQLITE_MAX_LENGTH. *)

From stdpp Require Import list.
From S2P Require Import Prelude CipherUtil Varint Double.
Import CipherUtil.Xoshiro Double.Doubles.
Local Open Scope Z_scope.

Module Records.

(** ** Values *)

(** MEM_Null, MEM_Null|MEM_Zero, MEM_Int, MEM_IntReal, MEM_Real, MEM_Str, MEM_Blob, and
    MEM_Blob|MEM_Zero with the number of zero bytes that follow the content. *)
Inductive value :=
  | VNull | VNoChange | VInt (i : Z) | VIntReal (i : Z) | VReal (r : Z)
  | VStr (z : bytes) | VBlob (z : bytes) | VZero (z : bytes) (nZero : Z).

#[export] Instance value_eq_dec : EqDecision value.
Proof. solve_decision. Defined.

(** ** Integers of a record *)

Definition be_value (b : bytes) : Z := fold_left (fun a x => a * 256 + x) b 0.

Definition sqlite3BSwap64 (x : Z) : Z := be_value (le_bytes8 x).
Definition sqlite3Get8byte (p : bytes) : option Z := let? b := mem_read p 0 8 in Some (be_value b).

Definition i8 (x : Z) : Z := (x + 128) mod 256 - 128.
Definition ONE_BYTE_INT (x : bytes) : option Z := let? a := mem_get x 0 in Some (i8 a).
Definition TWO_BYTE_INT (x : bytes) : option Z :=
  let? a := mem_get x 0 in let? b := mem_get x 1 in Some (Z.lor (256 * i8 a) b).
Definition THREE_BYTE_INT (x : bytes) : option Z :=
  let? a := mem_get x 0 in let? b := mem_get x 1 in let? c := mem_get x 2 in Some (Z.lor (Z.lor (65536 * i8 a) (Z.shiftl b 8)) c).
Definition FOUR_BYTE_UINT (x : bytes) : option Z :=
  let? a := mem_get x 0 in let? b := mem_get x 1 in let? c := mem_get x 2 in let? d := mem_get x 3 in
  Some (Z.lor (Z.lor (Z.lor (u32 (Z.shiftl a 24)) (Z.shiftl b 16)) (Z.shiftl c 8)) d).
Definition FOUR_BYTE_INT (x : bytes) : option Z := let? v := FOUR_BYTE_UINT x in Some (i32 v).
Definition SIX_BYTE_INT (x : bytes) : option Z :=
  let? lo := FOUR_BYTE_UINT (drop 2 x) in let? hi := TWO_BYTE_INT x in Some (lo + 4294967296 * hi).

(** ** Serial types *)

Definition sqlite3SmallTypeSizes : list Z :=
  [0; 1; 2; 3; 4; 6; 8; 8; 0; 0; 0; 0] ++ ((fun n => (n - 12) / 2) <$> seqZ 12 116).

Definition sqlite3VdbeSerialTypeLen (serial_type : Z) : option Z :=
  if 128 <=? serial_type then Some (u32 (serial_type - 12) / 2) else sqlite3SmallTypeSizes !! Z.to_nat serial_type.

(** The serial type and the size of an integer; [None] when it takes eight bytes. *)
Definition int_type (file_format i : Z) : option (Z * Z) :=
  let uu := if i <? 0 then - i - 1 else i in
  if uu <=? 127 then if (Z.land i 1 =? i) && (4 <=? file_format) then Some (8 + uu, 0) else Some (1, 1)
  else if uu <=? 32767 then Some (2, 2)
  else if uu <=? 8388607 then Some (3, 3)
  else if uu <=? 2147483647 then Some (4, 4)
  else if uu <=? 140737488355327 then Some (5, 6)
  else None.

(** One value of the first loop of [OP_MakeRecord]: what becomes of it, its serial type and
    what it adds to [nHdr], [nData] and [nZero]; [None] is [no_mem]. [expand] is whether
    [sqlite3VdbeMemExpandBlob] succeeds. *)
Definition size_field (file_format : Z) (expand : bool) (v : value) (nData : Z) : option (value * Z * (Z * Z * Z)) :=
  let bytes_type (v : value) (z : bytes) (str : Z) := Some (v, u32 (len z * 2 + 12 + str), (default 0 (sqlite3VarintLen (u32 (len z * 2 + 12 + str))), len z, 0)) in
  match v with
  | VNull => Some (v, 0, (1, 0, 0))
  | VNoChange => Some (v, 10, (1, 0, 0))
  | VInt i => Some (match int_type file_format i with Some (t, n) => (v, t, (1, n, 0)) | None => (v, 6, (1, 8, 0)) end)
  | VIntReal i => Some (match int_type file_format i with Some (t, n) => (v, t, (1, n, 0)) | None => (VReal (double_of_int i), 7, (1, 8, 0)) end)
  | VReal _ => Some (v, 7, (1, 8, 0))
  | VStr z => bytes_type v z 1
  | VBlob z => bytes_type v z 0
  | VZero z n =>
      let serial_type := u32 (u32 (len z * 2 + 12) + u32 n * 2) in
      let nHdr := default 0 (sqlite3VarintLen serial_type) in
      if negb (nData =? 0) then
        if negb expand then None else Some (VBlob (z ++ replicate (Z.to_nat n) 0), serial_type, (nHdr, len z + n, 0))
      else Some (v, serial_type, (nHdr, len z, n))
  end.

(** The loop runs from the last value to the first. *)
Fixpoint size_fields (file_format : Z) (expand : bool) (vs : list value) : option (list (value * Z) * (Z * Z * Z)) :=
  match vs with
  | [] => Some ([], (0, 0, 0))
  | v :: vs =>
      let? (fs, sizes) := size_fields file_format expand vs in
      let '(nHdr, nData, nZero) := sizes in
      let? (v', t, add) := size_field file_format expand v nData in
      let '(h, d, z) := add in
      Some ((v', t) :: fs, (nHdr + h, nData + d, nZero + z))
  end.

(** The size of the header with its own size in front. *)
Definition header_size (nHdr : Z) : option Z :=
  if nHdr <=? 126 then Some (nHdr + 1)
  else
    let? nVarint := sqlite3VarintLen nHdr in
    let nHdr := nHdr + nVarint in
    let? n := sqlite3VarintLen nHdr in
    Some (if nVarint <? n then nHdr + 1 else nHdr).

(** ** Writing *)

Definition OVERRUN : Z := 7.
Definition aShift : list Z := [0; 56; 48; 40; 32; 16; 0; 0].

(** [zHdr += sqlite3PutVarint(zHdr, v)] at the offset [h] of the buffer. *)
Definition put_varint_at (buf : bytes) (h v : Z) : option (bytes * Z) :=
  if (0 <=? h) && (h <=? len buf) then
    let? (p, n) := sqlite3PutVarint (drop (Z.to_nat h) buf) v in Some (take (Z.to_nat h) buf ++ p, h + n)
  else None.

(** The content [z] and [n] of a value that is copied to the record. *)
Definition content (v : value) : bytes := match v with VStr z | VBlob z | VZero z _ => z | _ => [] end.

(** One value of the second loop: the buffer, [zHdr] and [zPayload]. *)
Definition write_field (buf : bytes) (zHdr zPayload : Z) (v : value) (serial_type : Z) : option (bytes * Z * Z) :=
  if serial_type <=? 7 then
    let? buf := mem_put buf zHdr (u8 serial_type) in
    let zHdr := zHdr + 1 in
    if serial_type =? 0 then Some (buf, zHdr, zPayload) else
    let? x := match v with VReal r => Some r | VInt i | VIntReal i => Some (u64 i) | _ => None end in
    let? n := sqlite3SmallTypeSizes !! Z.to_nat serial_type in
    let? s := aShift !! Z.to_nat serial_type in
    let? buf := mem_write buf zPayload (le_bytes8 (Z.shiftr (sqlite3BSwap64 x) s)) in
    Some (buf, zHdr, zPayload + n)
  else if serial_type <? 0x80 then
    let? buf := mem_put buf zHdr (u8 serial_type) in
    let zHdr := zHdr + 1 in
    if (14 <=? serial_type) && (0 <? len (content v)) then
      let? buf := mem_write buf zPayload (content v) in Some (buf, zHdr, zPayload + len (content v))
    else Some (buf, zHdr, zPayload)
  else
    let? (buf, zHdr) := put_varint_at buf zHdr serial_type in
    if negb (len (content v) =? 0) then
      let? buf := mem_write buf zPayload (content v) in Some (buf, zHdr, zPayload + len (content v))
    else Some (buf, zHdr, zPayload).

Fixpoint write_fields (buf : bytes) (zHdr zPayload : Z) (fs : list (value * Z)) : option (bytes * Z * Z) :=
  match fs with
  | [] => Some (buf, zHdr, zPayload)
  | (v, t) :: fs => let? (buf, zHdr, zPayload) := write_field buf zHdr zPayload v t in write_fields buf zHdr zPayload fs
  end.

Inductive outcome := rec_done (z : bytes) (nZero : Z) | rec_too_big | rec_no_mem.

(** [OP_MakeRecord] after the affinities: [zMalloc] is the buffer of the output register, and
    [resize] is [sqlite3VdbeMemClearAndResize]. The result is the content of the register. *)
Definition make_record (file_format limit : Z) (expand : bool) (zMalloc : bytes) (resize : Z -> option bytes) (vs : list value) : option outcome :=
  match size_fields file_format expand vs with
  | None => Some rec_no_mem
  | Some (fs, (nHdr, nData, nZero)) =>
      let? nHdr := header_size nHdr in
      let nByte := nHdr + nData in
      let buffer :=
        if nByte + nZero <=? len zMalloc - OVERRUN then inl zMalloc
        else if limit <? nByte + nZero then inr rec_too_big
        else match resize (nByte + OVERRUN) with Some z => inl z | None => inr rec_no_mem end in
      match buffer with
      | inr r => Some r
      | inl buf =>
          let? (buf, zHdr) := (if nHdr <? 0x80 then let? b := mem_put buf 0 (u8 nHdr) in Some (b, 1) else put_varint_at buf 0 nHdr) in
          let? (buf, zHdr, zPayload) := write_fields buf zHdr nHdr fs in
          if (zHdr =? nHdr) && (zPayload =? nByte) then Some (rec_done (take (Z.to_nat nByte) buf) nZero) else None
      end
  end.

(** ** Reading *)

(** [sqlite3VdbeSerialGet7]: the bits, and whether they are a NaN. *)
Definition sqlite3VdbeSerialGet7 (buf : bytes) : option (value * bool) :=
  let? x := sqlite3Get8byte buf in Some (if IsNaN x then (VNull, true) else (VReal x, false)).

(** A text or a blob is a pointer into the buffer; of one that reaches behind the end only the
    bytes up to the end are kept. *)
Definition sqlite3VdbeSerialGet (buf : bytes) (serial_type : Z) : option value :=
  let int (x : option Z) : option value := VInt <$> x in
  if serial_type =? 10 then Some VNoChange
  else if (serial_type =? 11) || (serial_type =? 0) then Some VNull
  else if serial_type =? 1 then int (ONE_BYTE_INT buf)
  else if serial_type =? 2 then int (TWO_BYTE_INT buf)
  else if serial_type =? 3 then int (THREE_BYTE_INT buf)
  else if serial_type =? 4 then int (FOUR_BYTE_INT buf)
  else if serial_type =? 5 then int (SIX_BYTE_INT buf)
  else if serial_type =? 6 then int (i64 <$> sqlite3Get8byte buf)
  else if serial_type =? 7 then fst <$> sqlite3VdbeSerialGet7 buf
  else if (serial_type =? 8) || (serial_type =? 9) then int (Some (serial_type - 8))
  else
    let z := take (Z.to_nat ((serial_type - 12) / 2)) buf in
    Some (if Z.land serial_type 1 =? 0 then VBlob z else VStr z).

(** The loop of [sqlite3VdbeRecordUnpack] for at most [n] values, which the caller has made
    place for ([p->nField], never zero): the values and the last [d]. *)
Fixpoint unpack_fields (n : nat) (aKey : bytes) (nKey szHdr idx d : Z) : option (list value * Z) :=
  match n with
  | O => Some ([], d)
  | S n =>
      if (idx <? szHdr) && (d <=? nKey) then
        let? (serial_type, k) := getVarint32 (drop (Z.to_nat idx) aKey) in
        let? v := sqlite3VdbeSerialGet (drop (Z.to_nat d) aKey) serial_type in
        let? l := sqlite3VdbeSerialTypeLen serial_type in
        let? (vs, d) := unpack_fields n aKey nKey szHdr (idx + k) (u32 (d + l)) in
        Some (v :: vs, d)
      else Some ([], d)
  end.

(** The values read, for [nField] places in [aMem]; the last one of a record that is cut off is
    set to NULL. *)
Definition sqlite3VdbeRecordUnpack (nField : nat) (nKey : Z) (aKey : bytes) : option (list value) :=
  let? (szHdr, idx) := getVarint32 aKey in
  let? (vs, d) := unpack_fields nField aKey nKey szHdr idx szHdr in
  Some (if (nKey <? d) && negb (bool_decide (vs = [])) then take (length vs - 1) vs ++ [VNull] else vs).

(** ** Integers *)

(** The [n] low bytes of [x], the highest first. *)
Definition be_bytes (n : nat) (x : Z) : bytes := reverse (take n (le_bytes8 x)).

Definition byte_of (x : Z) (k : Z) : Z := (x / 2 ^ (8 * k)) mod 256.

Lemma le_bytes8_eq x : le_bytes8 x =
  [byte_of x 0; byte_of x 1; byte_of x 2; byte_of x 3; byte_of x 4; byte_of x 5; byte_of x 6; byte_of x 7].
Proof.
  unfold le_bytes8, byte_of, u8. cbn [seq fmap list_fmap]. rewrite !Z.shiftr_div_pow2 by lia. done.
Qed.

Lemma byte_of_range x k : is_byte (byte_of x k).
Proof. unfold is_byte, byte_of. apply Z.mod_pos_bound. lia. Qed.

Lemma byte_of_shiftr y s k : 0 <= s -> 0 <= k -> byte_of (Z.shiftr y (8 * s)) k = byte_of y (k + s).
Proof.
  intros Hs Hk. unfold byte_of. rewrite Z.shiftr_div_pow2, Z.div_div by lia. rewrite <- Z.pow_add_r by lia. do 3 f_equal. lia.
Qed.

Lemma byte_of_cons a x k : is_byte x -> byte_of (a * 256 + x) (Z.of_nat (S k)) = byte_of a (Z.of_nat k).
Proof.
  intros Hx. unfold byte_of, is_byte in *. replace (8 * Z.of_nat (S k)) with (8 + 8 * Z.of_nat k) by lia. rewrite Z.pow_add_r, <- Z.div_div by lia.
  change (2 ^ 8) with 256. by replace ((a * 256 + x) / 256) with a by (Z.div_mod_to_equations; lia).
Qed.

Lemma byte_of_last a x : is_byte x -> byte_of (a * 256 + x) 0 = x.
Proof. intros Hx. unfold byte_of, is_byte in *. change (2 ^ (8 * 0)) with 1. Z.div_mod_to_equations. lia. Qed.

(** The bytes of the value of some bytes. *)
Lemma byte_of_be_value bs k : bytes_ok bs -> byte_of (be_value bs) (Z.of_nat k) = default 0 (reverse bs !! k).
Proof.
  intros Hb. revert k. induction bs as [|x bs IH] using rev_ind; intros k.
  - unfold byte_of. change (be_value []) with 0. by rewrite Z.div_0_l, Z.mod_0_l by lia.
  - apply Forall_app in Hb as [Hb Hx]. apply Forall_inv in Hx. specialize (IH Hb).
    unfold be_value in *. rewrite fold_left_app. cbn [fold_left]. rewrite reverse_snoc. destruct k as [|k]; [by apply byte_of_last|].
    by rewrite byte_of_cons.
Qed.

(** A swapped and shifted integer has its low bytes in front. *)
Lemma swap_shift n x :
  (n <= 8)%nat -> le_bytes8 (Z.shiftr (sqlite3BSwap64 x) (64 - 8 * Z.of_nat n)) = be_bytes n x ++ replicate (8 - n) 0.
Proof.
  intros Hn. unfold sqlite3BSwap64. assert (Hb : forall k : nat, byte_of (Z.shiftr (be_value (le_bytes8 x)) (64 - 8 * Z.of_nat n)) (Z.of_nat k)
     = default 0 (reverse (le_bytes8 x) !! (k + (8 - n))%nat)).
  { intros k. replace (64 - 8 * Z.of_nat n) with (8 * Z.of_nat (8 - n)) by lia. rewrite byte_of_shiftr by lia.
    rewrite <- Nat2Z.inj_add. apply byte_of_be_value, le_bytes8_ok. }
  rewrite (le_bytes8_eq (Z.shiftr _ _)). rewrite (Hb 0%nat : byte_of _ 0 = _), (Hb 1%nat : byte_of _ 1 = _), (Hb 2%nat : byte_of _ 2 = _), (Hb 3%nat : byte_of _ 3 = _).
  rewrite (Hb 4%nat : byte_of _ 4 = _), (Hb 5%nat : byte_of _ 5 = _), (Hb 6%nat : byte_of _ 6 = _), (Hb 7%nat : byte_of _ 7 = _). clear Hb.
  unfold be_bytes. rewrite (le_bytes8_eq x). do 9 (destruct n as [|n]; [done|]). lia.
Qed.

(** Bytes in front of a buffer. *)
Lemma mem_get_app (pre rest : bytes) (k : nat) x : pre !! k = Some x -> mem_get (pre ++ rest) (Z.of_nat k) = Some x.
Proof. intros H. rewrite mem_get_nat. by apply lookup_app_l_Some. Qed.

Ltac get_front :=
  repeat match goal with
  | |- context [mem_get (?a :: ?l) 0] => change (mem_get (a :: l) 0) with (Some a)
  | |- context [mem_get (?a :: ?b :: ?l) 1] => change (mem_get (a :: b :: l) 1) with (Some b)
  | |- context [mem_get (?a :: ?b :: ?c :: ?l) 2] => change (mem_get (a :: b :: c :: l) 2) with (Some c)
  | |- context [mem_get (?a :: ?b :: ?c :: ?d :: ?l) 3] => change (mem_get (a :: b :: c :: d :: l) 3) with (Some d)
  end; cbn [mbind option_bind].

Lemma two_byte_eq a b rest : is_byte a -> is_byte b -> TWO_BYTE_INT (a :: b :: rest) = Some (i8 a * 256 + b).
Proof.
  intros Ha Hb. unfold TWO_BYTE_INT. get_front. f_equal. replace (256 * i8 a) with (Z.shiftl (i8 a) 8) by (rewrite Z.shiftl_mul_pow2 by lia; lia).
  unfold is_byte in *. rewrite lor_shiftl_add by lia. done.
Qed.

Lemma three_byte_eq a b c rest :
  is_byte a -> is_byte b -> is_byte c -> THREE_BYTE_INT (a :: b :: c :: rest) = Some ((i8 a * 256 + b) * 256 + c).
Proof.
  intros Ha Hb Hc. unfold THREE_BYTE_INT. get_front. f_equal. unfold is_byte in *.
  replace (65536 * i8 a) with (Z.shiftl (Z.shiftl (i8 a) 8) 8) by (rewrite Z.shiftl_shiftl, Z.shiftl_mul_pow2 by lia; lia).
  rewrite <- Z.shiftl_lor, !lor_shiftl_add by lia. lia.
Qed.

Lemma four_byte_eq a b c d rest :
  is_byte a -> is_byte b -> is_byte c -> is_byte d -> FOUR_BYTE_UINT (a :: b :: c :: d :: rest) = Some (((a * 256 + b) * 256 + c) * 256 + d).
Proof.
  intros Ha Hb Hc Hd. change (FOUR_BYTE_UINT ?x) with (sqlite3Get4byte x). rewrite Get4byte_spec by done. f_equal. lia.
Qed.

Lemma be_value_8 a b c d e f g h rest :
  sqlite3Get8byte (a :: b :: c :: d :: e :: f :: g :: h :: rest) = Some (((((((a * 256 + b) * 256 + c) * 256 + d) * 256 + e) * 256 + f) * 256 + g) * 256 + h).
Proof.
  unfold sqlite3Get8byte. rewrite mem_read_total by (cbn [length]; lia). cbn [mbind option_bind]. f_equal.
Qed.

(** Taking one byte off. *)
Lemma byte_step x k : 0 <= k -> x / 2 ^ (8 * k) = 256 * (x / 2 ^ (8 * (k + 1))) + byte_of x k.
Proof.
  intros Hk. unfold byte_of. replace (8 * (k + 1)) with (8 * k + 8) by lia. rewrite Z.pow_add_r, <- Z.div_div by lia. change (2 ^ 8) with 256. apply Z.div_mod. lia.
Qed.

Ltac byte_steps x n :=
  match n with
  | O => idtac
  | S ?k => let z := eval vm_compute in (Z.of_nat k) in pose proof (byte_step x z ltac:(lia)); byte_steps x k
  end.

(** The number of bytes of the integer types. *)
Definition int_width (t : Z) : option nat :=
  if t =? 1 then Some 1%nat else if t =? 2 then Some 2%nat else if t =? 3 then Some 3%nat else
  if t =? 4 then Some 4%nat else if t =? 5 then Some 6%nat else if t =? 6 then Some 8%nat else None.

Lemma int_width_cases (P : Z -> nat -> Prop) t n :
  int_width t = Some n -> P 1 1%nat -> P 2 2%nat -> P 3 3%nat -> P 4 4%nat -> P 5 6%nat -> P 6 8%nat -> P t n.
Proof.
  unfold int_width. intros H. intros.
  repeat match type of H with (if Z.eqb t ?k then _ else _) = _ => destruct (Z.eqb_spec t k) as [->|_]; [by injection H as <-|] end. done.
Qed.

Ltac signed_bytes i n :=
  cbn [fmap option_fmap option_map mbind option_bind]; f_equal; f_equal; byte_steps (u64 i) n;
  repeat match goal with H : context [8 * ?k] |- _ => let v := eval vm_compute in (8 * k) in change (8 * k) with v in H end;
  repeat match goal with H : context [2 ^ ?k] |- _ => let v := eval vm_compute in (2 ^ k) in change (2 ^ k) with v in H end;
  repeat match goal with Hb : forall k, is_byte (byte_of ?x k), H : context [byte_of ?x ?k] |- _ =>
    lazymatch goal with _ : is_byte (byte_of x k) |- _ => fail | _ => pose proof (Hb k) end end;
  unfold is_byte, i8, i32, i64, u64 in *; Z.div_mod_to_equations; lia.

(** What is read from the bytes of an integer that fits. *)
Lemma read_int_fits t (n : nat) i rest :
  int_width t = Some n -> - 2 ^ (8 * Z.of_nat n - 1) <= i < 2 ^ (8 * Z.of_nat n - 1) ->
  sqlite3VdbeSerialGet (be_bytes n (u64 i) ++ rest) t = Some (VInt i).
Proof.
  intros H. apply (int_width_cases (fun t n => - 2 ^ (8 * Z.of_nat n - 1) <= i < 2 ^ (8 * Z.of_nat n - 1) ->
    sqlite3VdbeSerialGet (be_bytes n (u64 i) ++ rest) t = Some (VInt i)) _ _ H); clear; intros Hi; pose proof (byte_of_range (u64 i)) as Hb; unfold be_bytes; rewrite le_bytes8_eq; cbn [take reverse rev_append app];
    unfold sqlite3VdbeSerialGet; cbn [Z.eqb Pos.eqb orb fmap option_fmap option_map]; unfold SIX_BYTE_INT, FOUR_BYTE_INT.
  - change (ONE_BYTE_INT (byte_of (u64 i) 0 :: rest)) with (Some (i8 (byte_of (u64 i) 0))). signed_bytes i 1%nat.
  - rewrite two_byte_eq by done. signed_bytes i 2%nat.
  - rewrite three_byte_eq by done. signed_bytes i 3%nat.
  - rewrite four_byte_eq by done. signed_bytes i 4%nat.
  - cbn [drop]. rewrite four_byte_eq, two_byte_eq by done. signed_bytes i 6%nat.
  - rewrite be_value_8. signed_bytes i 8%nat.
Qed.

Lemma read_real r rest : 0 <= r < 2 ^ 64 -> sqlite3Get8byte (be_bytes 8 r ++ rest) = Some r.
Proof.
  intros Hr. pose proof (byte_of_range r) as Hb. unfold be_bytes. rewrite le_bytes8_eq. cbn [take reverse rev_append app]. rewrite be_value_8. f_equal.
  byte_steps r 8%nat.
  repeat match goal with H : context [8 * ?k] |- _ => let v := eval vm_compute in (8 * k) in change (8 * k) with v in H end.
  repeat match goal with H : context [2 ^ ?k] |- _ => let v := eval vm_compute in (2 ^ k) in change (2 ^ k) with v in H end.
  rewrite Z.div_1_r in *. assert (r / 18446744073709551616 = 0) by (apply Z.div_small; lia). lia.
Qed.

(** The integer types, for the values that have them. *)
Lemma int_type_cases ff i t n :
  is_i64 i -> int_type ff i = Some (t, n) ->
  (n = 0 /\ 8 <= t <= 9 /\ t = 8 + i) \/
  (exists w, int_width t = Some w /\ n = Z.of_nat w /\ - 2 ^ (8 * n - 1) <= i < 2 ^ (8 * n - 1)).
Proof.
  unfold is_i64, int_type. intros Hi.
  assert (E1 : Z.land i 1 = i mod 2) by (change 1 with (Z.ones 1) at 1; by rewrite Z.land_ones). rewrite E1. clear E1.
  destruct (Z.ltb_spec i 0); repeat case_cond; intros Heq; try done; injection Heq as <- <-.
  all: first [left; split; [done|]; Z.div_mod_to_equations; lia | right; eexists; split; [done|]; split; [done|]; cbn; lia].
Qed.

(** ** Varints in the header *)

(** The shortest encoding of [t]. *)
Definition is_varint (vb : bytes) (t : Z) : Prop :=
  sqlite3VarintLen t = Some (len vb) /\ exists ds last, varint_shape ds last /\ varint_denotes ds last = t /\ vb = varint_bytes ds last.

Lemma varint_len_one t : 0 <= t < 128 -> sqlite3VarintLen t = Some 1.
Proof. intros Ht. unfold sqlite3VarintLen. cbn [varint_len_loop]. by rewrite Z.shiftr_div_pow2, Z.div_small by lia. Qed.

Lemma varint_read vb t rest : is_varint vb t -> 0 <= t < 2 ^ 32 -> getVarint32 (vb ++ rest) = Some (t, len vb).
Proof.
  intros (_ & ds & last & Hs & Hd & ->) Ht. rewrite varint32_saturates, Hd by done. rewrite (proj2 (Z.ltb_lt t (2 ^ 32))) by lia.
  do 2 f_equal. unfold varint_bytes. rewrite length_app, length_fmap. cbn [length]. lia.
Qed.

Lemma varint_one t : 0 <= t < 128 -> is_varint [t] t.
Proof. intros Ht. split; [by apply varint_len_one|]. exists [], t. split; [split; [constructor|]; split; [cbn; lia|]; unfold digit; cbn; lia|]. split; [|done]. unfold varint_denotes, digits_value. cbn. lia. Qed.

(** Writing a varint in front of a buffer. *)
Lemma put_varint_front p t :
  0 <= t < 2 ^ 32 -> (9 <= length p)%nat ->
  exists vb, is_varint vb t /\ sqlite3VarintLen t = Some (len vb) /\ (length vb <= 9)%nat /\
    sqlite3PutVarint p t = Some (vb ++ drop (length vb) p, len vb).
Proof.
  intros Ht Hp. destruct (PutVarint_spec p t ltac:(lia) Hp) as (ds & last & Hs & Hd & E). exists (varint_bytes ds last).
  assert (El : length (varint_bytes ds last) = S (length ds)) by (unfold varint_bytes; rewrite length_app, length_fmap; cbn; lia).
  assert (Hlen : sqlite3VarintLen t = Some (Z.of_nat (S (length ds)))).
  { destruct (varint_len_exact p t ltac:(lia) Hp) as (p' & n & E' & ->). rewrite (proj2 (Z.ltb_lt t (2 ^ 63))) by lia. f_equal. congruence. }
  unfold is_varint. rewrite El. split; [split; [done|]; exists ds, last; split; [exact Hs|by split]|]. split; [done|]. split; [destruct Hs as (_ & ? & _); lia|done].
Qed.

Lemma varint_len_two t n : 128 <= t -> sqlite3VarintLen t = Some n -> 2 <= n.
Proof.
  intros Ht. unfold sqlite3VarintLen. assert (Hge : forall f v i n, varint_len_loop f v i = Some n -> i <= n).
  { induction f as [|f IH]; intros v i m H; [done|]. cbn [varint_len_loop] in H. case_match; [injection H as <-; lia|]. apply IH in H. lia. }
  change (varint_len_loop 10 t 1) with (if Z.shiftr t 7 =? 0 then Some 1 else varint_len_loop 9 (Z.shiftr t 7) 2).
  rewrite Z.shiftr_div_pow2, (proj2 (Z.eqb_neq (t / 2 ^ 7) 0)) by (Z.div_mod_to_equations; lia). apply Hge.
Qed.

(** The type of a field is put into the gap left for the header. *)
Lemma put_type_ok H gap tail t n :
  0 <= t < 2 ^ 32 -> sqlite3VarintLen t = Some n -> n <= len gap -> (7 <= length tail)%nat ->
  exists vb, is_varint vb t /\ len vb = n /\
    (if t <? 0x80 then let? b := mem_put (H ++ gap ++ tail) (len H) (u8 t) in Some (b, len H + 1) else put_varint_at (H ++ gap ++ tail) (len H) t) =
    Some ((H ++ vb) ++ drop (length vb) gap ++ tail, len (H ++ vb)).
Proof.
  intros Ht Hn Hg Hl. destruct (Z.ltb_spec t 0x80).
  - rewrite varint_len_one in Hn by lia. injection Hn as <-. exists [t].
    split; [apply varint_one; lia|]. split; [done|]. destruct gap as [|g gap]; [cbn in Hg; lia|]. rewrite mem_put_nat by (rewrite length_app; cbn; lia). cbn [mbind option_bind].
    rewrite insert_app_r_alt by lia. rewrite Nat.sub_diag. cbn [app insert list_insert length drop]. rewrite u8_small by lia. rewrite <- app_assoc, length_app. cbn [length app]. do 2 f_equal. lia.
  - pose proof (varint_len_two t n ltac:(lia) Hn). destruct (put_varint_front (gap ++ tail) t Ht ltac:(rewrite length_app; lia)) as (vb & Hv & Hlv & H9 & Hput).
    rewrite Hn in Hlv. injection Hlv as Hlv. exists vb. split; [done|]. split; [done|]. unfold put_varint_at.
    rewrite (proj2 (Z.leb_le 0 (len H))), (proj2 (Z.leb_le (len H) (len (H ++ gap ++ tail)))) by (rewrite ?length_app; lia). cbn [andb]. rewrite Nat2Z.id, drop_app_length, Hput. cbn [mbind option_bind]. rewrite take_app_length.
    rewrite <- !app_assoc. rewrite (drop_app_le gap tail) by lia. rewrite length_app. do 2 f_equal. lia.
Qed.

(** ** One field *)

Definition value_ok (v : value) : Prop :=
  match v with
  | VNull | VNoChange => True
  | VInt i | VIntReal i => is_i64 i
  | VReal r => 0 <= r < 2 ^ 64 /\ IsNaN r = false
  | VStr z | VBlob z => bytes_ok z /\ len z < 2 ^ 30
  | VZero z n => bytes_ok z /\ 0 <= n /\ len z + n < 2 ^ 30
  end.

(** The value that is read back: an integer stored for a REAL column is an integer, or a double
    when it takes eight bytes; the zero bytes of a blob are written out. *)
Definition stored (v : value) : value :=
  match v with
  | VIntReal i => match int_type 0 i with Some _ => VInt i | None => VReal (double_of_int i) end
  | VZero z n => VBlob (z ++ replicate (Z.to_nat n) 0)
  | v => v
  end.

(** An integer and its serial type, with the bytes that are written for it. *)
Definition int_typed (i t : Z) : Prop :=
  (8 <= t <= 9 /\ t = 8 + i) \/ exists w, int_width t = Some w /\ - 2 ^ (8 * Z.of_nat w - 1) <= i < 2 ^ (8 * Z.of_nat w - 1).
Definition int_data (i t : Z) : bytes := match int_width t with Some n => be_bytes n (u64 i) | None => [] end.

(** The bytes written for a value with its serial type. *)
Definition field_data (v : value) (t : Z) : bytes :=
  match v with
  | VInt i | VIntReal i => int_data i t
  | VReal r => be_bytes 8 r
  | v => content v
  end.

(** The serial type [t] is right for [v], whose data are followed by [z] zero bytes. *)
Definition typed (v : value) (t z : Z) : Prop :=
  match v with
  | VNull => t = 0 /\ z = 0
  | VNoChange => t = 10 /\ z = 0
  | VInt i | VIntReal i => z = 0 /\ int_typed i t
  | VReal r => t = 7 /\ z = 0 /\ 0 <= r < 2 ^ 64 /\ IsNaN r = false
  | VStr s => t = 2 * len s + 13 /\ z = 0 /\ len s < 2 ^ 30 /\ bytes_ok s
  | VBlob s => t = 2 * len s + 12 /\ z = 0 /\ len s < 2 ^ 30 /\ bytes_ok s
  | VZero s n => t = 2 * (len s + n) + 12 /\ z = n /\ 0 <= n /\ len s + n < 2 ^ 30 /\ bytes_ok s
  end.

Lemma be_bytes_length n x : (n <= 8)%nat -> length (be_bytes n x) = n.
Proof. intros Hn. unfold be_bytes. rewrite length_reverse, length_take, le_bytes8_length. lia. Qed.

Lemma int_width_range t w : int_width t = Some w -> 1 <= t <= 6 /\ (1 <= w <= 8)%nat /\ sqlite3SmallTypeSizes !! Z.to_nat t = Some (Z.of_nat w) /\
  aShift !! Z.to_nat t = Some (64 - 8 * Z.of_nat w).
Proof. intros H. apply (int_width_cases (fun t w => 1 <= t <= 6 /\ (1 <= w <= 8)%nat /\ sqlite3SmallTypeSizes !! Z.to_nat t = Some (Z.of_nat w) /\ aShift !! Z.to_nat t = Some (64 - 8 * Z.of_nat w)) _ _ H); split_and!; (lia || done). Qed.

Lemma typed_range v t z : typed v t z -> 0 <= t < 2 ^ 32 /\ 0 <= z.
Proof.
  destruct v; cbn [typed]; intros H; try lia.
  all: destruct H as (-> & [H|(w & H & _)]); [lia|apply int_width_range in H; lia].
Qed.

(** The size of the data of a serial type. *)
Lemma small_sizes t : 12 <= t < 128 -> sqlite3SmallTypeSizes !! Z.to_nat t = Some ((t - 12) / 2).
Proof.
  intros Ht. unfold sqlite3SmallTypeSizes. rewrite lookup_app_r by (cbn [length]; lia). rewrite list_lookup_fmap, lookup_seqZ_lt by (cbn [length]; lia).
  cbn [fmap option_fmap option_map length]. do 2 f_equal. lia.
Qed.

Lemma type_len_text t : 12 <= t < 2 ^ 32 -> sqlite3VdbeSerialTypeLen t = Some ((t - 12) / 2).
Proof.
  intros Ht. unfold sqlite3VdbeSerialTypeLen. destruct (Z.leb_spec 128 t); [unfold u32; by rewrite Z.mod_small by lia|]. apply small_sizes. lia.
Qed.

Lemma int_typed_len i t : int_typed i t -> sqlite3VdbeSerialTypeLen t = Some (len (int_data i t)).
Proof.
  unfold int_data. intros [(H1 & H2)|(w & H & _)].
  - assert (Ht : t = 8 \/ t = 9) by lia. by destruct Ht as [-> | ->].
  - rewrite H. apply int_width_range in H as (Ht & Hw & Hs & _). rewrite be_bytes_length by lia. unfold sqlite3VdbeSerialTypeLen.
    rewrite (proj2 (Z.leb_gt 128 t)) by lia. done.
Qed.

Lemma typed_len v t z : typed v t z -> sqlite3VdbeSerialTypeLen t = Some (len (field_data v t) + z).
Proof.
  destruct v; cbn [typed field_data content]; intros H.
  - destruct H as [-> ->]. done.
  - destruct H as [-> ->]. done.
  - destruct H as (-> & H). rewrite (int_typed_len i t H). f_equal. lia.
  - destruct H as (-> & H). rewrite (int_typed_len i t H). f_equal. lia.
  - destruct H as (-> & -> & _). done.
  - rewrite type_len_text by lia. f_equal. Z.div_mod_to_equations; lia.
  - rewrite type_len_text by lia. f_equal. Z.div_mod_to_equations; lia.
  - rewrite type_len_text by lia. f_equal. Z.div_mod_to_equations; lia.
Qed.

(** What is read for a value that was written. *)
Definition reads_as (v : value) : value :=
  match v with VIntReal i => VInt i | VZero s n => VBlob (s ++ replicate (Z.to_nat n) 0) | v => v end.

Lemma int_typed_read i t rest : int_typed i t -> sqlite3VdbeSerialGet (int_data i t ++ rest) t = Some (VInt i).
Proof.
  unfold int_data. intros [(H1 & H2)|(w & H & Hi)]; [|rewrite H; by apply read_int_fits].
  assert (Ht : t = 8 \/ t = 9) by lia. destruct Ht as [-> | ->]; cbn; do 2 f_equal; lia.
Qed.

Lemma text_read s (b : Z) t rest :
  0 <= b <= 1 -> t = 2 * len s + 12 + b -> sqlite3VdbeSerialGet (s ++ rest) t = Some (if b =? 0 then VBlob s else VStr s).
Proof.
  intros Hb Ht. unfold sqlite3VdbeSerialGet.
  repeat match goal with |- context [t =? ?k] => rewrite (proj2 (Z.eqb_neq t k)) by lia end. cbn [orb].
  replace ((t - 12) / 2) with (len s) by (Z.div_mod_to_equations; lia). rewrite Nat2Z.id, take_app_length.
  assert (E : Z.land t 1 = t mod 2) by (change 1 with (Z.ones 1) at 1; by rewrite Z.land_ones). rewrite E.
  by replace (t mod 2) with b by (Z.div_mod_to_equations; lia).
Qed.

Lemma typed_read v t z rest :
  typed v t z -> sqlite3VdbeSerialGet (field_data v t ++ replicate (Z.to_nat z) 0 ++ rest) t = Some (reads_as v).
Proof.
  destruct v; cbn [typed field_data content reads_as]; intros H.
  - by destruct H as [-> ->].
  - by destruct H as [-> ->].
  - destruct H as [-> H]. by apply int_typed_read.
  - destruct H as [-> H]. by apply int_typed_read.
  - destruct H as (-> & -> & Hr & Hn). unfold sqlite3VdbeSerialGet, sqlite3VdbeSerialGet7. cbn [Z.eqb Pos.eqb orb]. rewrite read_real by done.
    cbn [mbind option_bind fmap option_fmap option_map]. by rewrite Hn.
  - destruct H as (-> & -> & _). apply (text_read z0 1); lia.
  - destruct H as (-> & -> & _). apply (text_read z0 0); lia.
  - destruct H as (-> & -> & Hn & _). rewrite app_assoc. apply (text_read (z0 ++ replicate (Z.to_nat nZero) 0) 0); [lia|].
    rewrite length_app, length_replicate. lia.
Qed.

(** The first loop gives each value its type. *)
Lemma int_type_typed ff i t n : is_i64 i -> int_type ff i = Some (t, n) -> int_typed i t /\ n = len (int_data i t).
Proof.
  intros Hi H. destruct (int_type_cases ff i t n Hi H) as [(-> & Ht & E)|(w & Hw & -> & Hr)].
  - split; [by left|]. assert (Hc : t = 8 \/ t = 9) by lia. by destruct Hc as [-> | ->].
  - split; [right; by exists w|]. unfold int_data. rewrite Hw, be_bytes_length; [done|]. apply int_width_range in Hw. lia.
Qed.

Lemma int_type_none ff i : int_type ff i = None <-> int_type 0 i = None.
Proof. unfold int_type. repeat case_match; done. Qed.

Lemma varint_len_u32 t : 0 <= t < 2 ^ 32 -> exists n, sqlite3VarintLen t = Some n /\ 1 <= n <= 9.
Proof.
  intros Ht. destruct (put_varint_front (replicate 9 0) t Ht ltac:(done)) as (vb & (_ & ds & last & _ & _ & ->) & -> & H & _). eexists. split; [done|].
  unfold varint_bytes in *. rewrite length_app in *. cbn [length] in *. lia.
Qed.

Lemma size_field_ok ff ex v nData v' t h d z :
  value_ok v -> size_field ff ex v nData = Some (v', t, (h, d, z)) ->
  typed v' t z /\ sqlite3VarintLen t = Some h /\ d = len (field_data v' t) /\ (z = 0 \/ nData = 0) /\ reads_as v' = stored v.
Proof.
  intros Hv H. assert (Hint : forall i t, int_typed i t -> sqlite3VarintLen t = Some 1).
  { intros i0 t0 [?|(w & Hw & _)]; apply varint_len_one; [lia|apply int_width_range in Hw; lia]. }
  assert (Htxt : forall t, 0 <= t < 2 ^ 32 -> sqlite3VarintLen (u32 t) = Some (default 0 (sqlite3VarintLen (u32 t)))).
  { intros t0 Ht0. unfold u32. rewrite Z.mod_small by lia. by destruct (varint_len_u32 t0 Ht0) as (n & -> & _). }
  assert (Hu : forall t, 0 <= t < 2 ^ 32 -> u32 t = t) by (intros t0 Ht0; unfold u32; by rewrite Z.mod_small by lia).
  destruct v as [| |i|i|r|s|s|s n]; cbn [value_ok size_field] in Hv, H.
  - injection H as <- <- <- <- <-. split_and!; try done. by left.
  - injection H as <- <- <- <- <-. split_and!; try done. by left.
  - injection H as H. destruct (int_type ff i) as [[t0 n0]|] eqn:E; injection H as <- <- <- <- <-.
    + destruct (int_type_typed ff i t0 n0 Hv E) as [Ht ->]. split; [split; [done|exact Ht]|]. split; [by eapply Hint|]. split; [done|]. split; [by left|done].
    + split; [split; [done|right; by exists 8%nat]|]. split; [done|]. split; [done|]. split; [by left|done].
  - injection H as H. cbn [stored]. destruct (int_type ff i) as [[t0 n0]|] eqn:E; injection H as <- <- <- <- <-.
    + destruct (int_type_typed ff i t0 n0 Hv E) as [Ht ->]. split; [split; [done|exact Ht]|]. split; [by eapply Hint|]. split; [done|]. split; [by left|].
      destruct (int_type 0 i) eqn:E0; [done|]. apply (int_type_none ff) in E0. congruence.
    + apply (int_type_none ff) in E as ->. destruct (double_of_int_ok i) as [Hd Hn]; [unfold is_i64 in Hv; lia|].
      split; [done|]. split; [done|]. split; [done|]. split; [by left|done].
  - injection H as <- <- <- <- <-. destruct Hv as [Hr Hn]. split; [done|]. split; [done|]. split; [done|]. split; [by left|done].
  - injection H as <- <- <- <- <-. destruct Hv as [Hb Hl]. split; [cbn [typed]; rewrite Hu by lia; split; [lia|done]|]. split; [apply Htxt; lia|]. split; [done|]. split; [by left|done].
  - injection H as <- <- <- <- <-. destruct Hv as [Hb Hl]. split; [cbn [typed]; rewrite Hu by lia; split; [lia|done]|]. split; [apply Htxt; lia|]. split; [done|]. split; [by left|done].
  - destruct Hv as (Hb & Hn & Hl). rewrite (Hu (len s * 2 + 12)), (Hu n) in H by lia. destruct (Z.eqb_spec nData 0) as [->|Hne]; cbn [negb] in H.
    + injection H as <- <- <- <- <-. split; [cbn [typed]; rewrite Hu by lia; split; [lia|done]|]. split; [apply Htxt; lia|]. split; [done|]. split; [by right|done].
    + destruct ex; [|done]. injection H as <- <- <- <- <-. assert (El : len (s ++ replicate (Z.to_nat n) 0) = len s + n) by (rewrite length_app, length_replicate; lia).
      split; [cbn [typed]; rewrite Hu, El by lia; split; [lia|]; split; [done|]; split; [lia|]; apply Forall_app_2; [done|]; apply Forall_replicate; unfold is_byte; lia|].
      split; [apply Htxt; lia|]. split; [by rewrite <- El|]. split; [by left|done].
Qed.

(** ** Writing the fields *)

(** Writing behind what is already there. *)
Lemma mem_write_behind pre rest src :
  (length src <= length rest)%nat -> mem_write (pre ++ rest) (len pre) src = Some (pre ++ src ++ drop (length src) rest).
Proof.
  intros Hl. rewrite mem_write_total by (rewrite ?length_app; lia). rewrite Nat2Z.id, take_app_length. f_equal. f_equal. f_equal.
  rewrite drop_app_ge by lia. f_equal. lia.
Qed.

(** The bytes of a number, which are part of the eight bytes stored. *)
Lemma write_number v t z :
  typed v t z -> 1 <= t <= 7 ->
  exists x n s, match v with VReal r => Some r | VInt i | VIntReal i => Some (u64 i) | _ => None end = Some x /\
    sqlite3SmallTypeSizes !! Z.to_nat t = Some (len (field_data v t)) /\ aShift !! Z.to_nat t = Some s /\
    le_bytes8 (Z.shiftr (sqlite3BSwap64 x) s) = field_data v t ++ replicate n 0 /\ (length (field_data v t) + n = 8 /\ 1 <= length (field_data v t))%nat.
Proof.
  intros H Ht.
  assert (Hint : forall i, int_typed i t -> exists n s, sqlite3SmallTypeSizes !! Z.to_nat t = Some (len (int_data i t)) /\ aShift !! Z.to_nat t = Some s /\
    le_bytes8 (Z.shiftr (sqlite3BSwap64 (u64 i)) s) = int_data i t ++ replicate n 0 /\ (length (int_data i t) + n = 8 /\ 1 <= length (int_data i t))%nat).
  { intros i [?|(w & Hw & _)]; [lia|]. unfold int_data. rewrite Hw. apply int_width_range in Hw as (_ & Hr & -> & ->).
    exists (8 - w)%nat, (64 - 8 * Z.of_nat w). rewrite be_bytes_length by lia. split; [done|]. split; [done|]. split; [apply swap_shift; lia|lia]. }
  destruct v; cbn [typed field_data content] in H |- *; try lia.
  - destruct H as [_ H]. destruct (Hint i H) as (n & s & ?). by exists (u64 i), n, s.
  - destruct H as [_ H]. destruct (Hint i H) as (n & s & ?). by exists (u64 i), n, s.
  - destruct H as (-> & _). exists r, 0%nat, 0. rewrite be_bytes_length by lia. split; [done|]. split; [done|]. split; [done|]. split; [apply (swap_shift 8); lia|lia].
Qed.

Lemma typed_empty v t z : typed v t z -> ~ 1 <= t <= 7 -> t < 14 -> field_data v t = [] /\ (t <> 0 -> len (content v) = 0).
Proof.
  destruct v; cbn [typed field_data content]; intros H H1 H2; try lia; try done.
  - destruct H as (_ & [H|(w & Hw & _)]); [|apply int_width_range in Hw; lia]. split; [|done]. unfold int_data. assert (Hc : t = 8 \/ t = 9) by lia. by destruct Hc as [-> | ->].
  - destruct H as (_ & [H|(w & Hw & _)]); [|apply int_width_range in Hw; lia]. split; [|done]. unfold int_data. assert (Hc : t = 8 \/ t = 9) by lia. by destruct Hc as [-> | ->].
  - assert (E : length z0 = 0%nat) by lia. apply nil_length_inv in E as ->. done.
  - assert (E : length z0 = 0%nat) by lia. apply nil_length_inv in E as ->. done.
  - assert (E : length z0 = 0%nat) by lia. apply nil_length_inv in E as ->. done.
Qed.

Lemma typed_text v t z : typed v t z -> 14 <= t -> field_data v t = content v.
Proof.
  destruct v; cbn [typed field_data content]; intros H Ht; try done; try lia.
  - destruct H as (_ & [H|(w & Hw & _)]); [lia|apply int_width_range in Hw; lia].
  - destruct H as (_ & [H|(w & Hw & _)]); [lia|apply int_width_range in Hw; lia].
Qed.

Lemma write_field_ok H gap D rest v t z n :
  typed v t z -> sqlite3VarintLen t = Some n -> n <= len gap -> (length (field_data v t) + 7 <= length rest)%nat ->
  exists vb rest', is_varint vb t /\ len vb = n /\ (length (field_data v t) + length rest' = length rest)%nat /\
    write_field (H ++ gap ++ D ++ rest) (len H) (len H + len gap + len D) v t =
    Some ((H ++ vb) ++ drop (length vb) gap ++ (D ++ field_data v t) ++ rest', len (H ++ vb), len H + len gap + len D + len (field_data v t)).
Proof.
  intros Hty Hn Hg Hr. destruct (typed_range _ _ _ Hty) as [Ht _].
  destruct (put_type_ok H gap (D ++ rest) t n Ht Hn Hg ltac:(rewrite length_app; lia)) as (vb & Hv & Hlv & Hput).
  assert (HB : forall src, (length src <= length rest)%nat -> mem_write ((H ++ vb) ++ drop (length vb) gap ++ D ++ rest) (len H + len gap + len D) src =
    Some ((H ++ vb) ++ drop (length vb) gap ++ D ++ src ++ drop (length src) rest)).
  { intros src Hs. replace (len H + len gap + len D) with (len ((H ++ vb) ++ drop (length vb) gap ++ D)) by (rewrite !length_app, length_drop; lia).
    replace ((H ++ vb) ++ drop (length vb) gap ++ D ++ rest) with (((H ++ vb) ++ drop (length vb) gap ++ D) ++ rest) by (by rewrite <- !app_assoc).
    rewrite mem_write_behind by done. f_equal. by rewrite <- !app_assoc. }
  unfold write_field. destruct (Z.leb_spec t 7) as [H7|H7].
  - rewrite (proj2 (Z.ltb_lt t 0x80)) in Hput by lia. destruct (mem_put _ (len H) (u8 t)) as [b|]; [|done]. injection Hput as Hb Hh. subst b. rewrite Hh. cbn [mbind option_bind].
    destruct (Z.eqb_spec t 0) as [->|H0].
    + destruct (typed_empty _ _ _ Hty) as [E _]; [lia|lia|]. rewrite E in *. exists vb, rest. split_and!; [done|done|done|]. rewrite app_nil_r. do 2 f_equal. cbn [length]. lia.
    + destruct (write_number v t z Hty ltac:(lia)) as (x & k & s & -> & -> & -> & Hle & Hk). cbn [mbind option_bind]. rewrite Hle, HB by (rewrite length_app, length_replicate; lia).
      cbn [mbind option_bind]. exists vb, (replicate k 0 ++ drop (length (field_data v t ++ replicate k 0)) rest). split_and!; [done|done| |by rewrite <- !app_assoc].
      rewrite !length_app, length_drop, ?length_app, !length_replicate. lia.
  - assert (HT : forall E : bool, E = negb (len (content v) =? 0) && (14 <=? t) ->
      (if E then let? buf := mem_write ((H ++ vb) ++ drop (length vb) gap ++ D ++ rest) (len H + len gap + len D) (content v) in
                 Some (buf, len (H ++ vb), len H + len gap + len D + len (content v))
       else Some ((H ++ vb) ++ drop (length vb) gap ++ D ++ rest, len (H ++ vb), len H + len gap + len D)) =
      Some ((H ++ vb) ++ drop (length vb) gap ++ (D ++ field_data v t) ++ drop (length (field_data v t)) rest, len (H ++ vb), len H + len gap + len D + len (field_data v t))).
    { intros E ->. destruct (Z.leb_spec 14 t) as [H14|H14]; rewrite ?andb_true_r, ?andb_false_r.
      - rewrite (typed_text _ _ _ Hty H14) in *. destruct (Z.eqb_spec (len (content v)) 0) as [E0|E0]; cbn [negb].
        + assert (E : length (content v) = 0%nat) by lia. apply nil_length_inv in E as ->. rewrite app_nil_r. cbn [length drop]. do 2 f_equal. lia.
        + rewrite HB by lia. cbn [mbind option_bind]. by rewrite <- !app_assoc.
      - destruct (typed_empty _ _ _ Hty) as [-> _]; [lia|lia|]. rewrite app_nil_r. cbn [length drop]. do 2 f_equal. lia. }
    exists vb, (drop (length (field_data v t)) rest). split; [done|]. split; [done|]. split; [rewrite length_drop; lia|].
    destruct (Z.ltb_spec t 0x80) as [H8|H8].
    + destruct (mem_put _ (len H) (u8 t)) as [b|]; [|done]. injection Hput as Hb Hh. subst b. rewrite Hh. cbn [mbind option_bind]. apply HT. rewrite andb_comm. f_equal. by destruct (content v).
    + rewrite Hput. cbn [mbind option_bind]. apply HT. rewrite (proj2 (Z.leb_le 14 t)) by lia. by rewrite andb_true_r.
Qed.

(** ** All fields *)

(** Fields with their types and the sums of the sizes of the types, of the data and of the zero
    bytes behind the data. *)
Inductive layout : list (value * Z) -> Z -> Z -> Z -> Prop :=
| layout_nil : layout [] 0 0 0
| layout_cons v t z n fs nHdr nData nZero :
    typed v t z -> sqlite3VarintLen t = Some n -> (z = 0 \/ nData = 0) -> layout fs nHdr nData nZero ->
    layout ((v, t) :: fs) (nHdr + n) (nData + len (field_data v t)) (nZero + z).

Definition data_of (fs : list (value * Z)) : bytes := fs ≫= fun f => field_data f.1 f.2.

Lemma size_fields_ok ff ex vs fs nHdr nData nZero :
  Forall value_ok vs -> size_fields ff ex vs = Some (fs, (nHdr, nData, nZero)) ->
  layout fs nHdr nData nZero /\ (reads_as ∘ fst) <$> fs = stored <$> vs.
Proof.
  intros Hvs. revert fs nHdr nData nZero. induction Hvs as [|v vs Hv Hvs IH]; intros fs nHdr nData nZero H; cbn [size_fields] in H.
  - injection H as <- <- <- <-. split; [constructor|done].
  - destruct (size_fields ff ex vs) as [[fs0 [[h0 d0] z0]]|]; [|done]. cbn [mbind option_bind] in H. destruct (IH _ _ _ _ eq_refl) as [Hl Hm].
    destruct (size_field ff ex v d0) as [[[v' t] [[h d] z]]|] eqn:E; [|done]. cbn [mbind option_bind] in H. injection H as <- <- <- <-.
    destruct (size_field_ok _ _ _ _ _ _ _ _ _ Hv E) as (Ht & Hn & -> & Hz & Hs). split; [by constructor|]. cbn [fmap list_fmap]. by rewrite <- Hm, <- Hs.
Qed.

Lemma layout_sizes fs nHdr nData nZero :
  layout fs nHdr nData nZero -> len fs <= nHdr <= 9 * len fs /\ nData = len (data_of fs) /\ 0 <= nZero.
Proof.
  induction 1 as [|v t z n fs nHdr nData nZero Ht Hn _ _ (IH1 & IH2 & IH3)]; [done|]. destruct (typed_range _ _ _ Ht) as [Hr Hz].
  destruct (varint_len_u32 t Hr) as (m & E & Hm). rewrite Hn in E. injection E as <-.
  change (data_of ((v, t) :: fs)) with (field_data v t ++ data_of fs). rewrite length_app. cbn [length]. lia.
Qed.

Lemma write_fields_ok fs nHdr nData nZero H gap D rest :
  layout fs nHdr nData nZero -> len gap = nHdr -> nData + 7 <= len rest ->
  exists vbs rest', Forall2 (fun vb f => is_varint vb f.2) vbs fs /\ len (concat vbs) = nHdr /\ nData + len rest' = len rest /\
    write_fields (H ++ gap ++ D ++ rest) (len H) (len H + len gap + len D) fs =
    Some ((H ++ concat vbs) ++ (D ++ data_of fs) ++ rest', len H + nHdr, len H + nHdr + len D + nData).
Proof.
  intros Hl. revert H gap D rest. induction Hl as [|v t z n fs nHdr nData nZero Ht Hn Hz Hl IH]; intros H gap D rest Hg Hr.
  - apply (f_equal Z.to_nat) in Hg. rewrite Nat2Z.id in Hg. apply nil_length_inv in Hg as ->. exists [], rest. split; [constructor|]. split; [done|]. split; [done|].
    cbn [write_fields]. rewrite !app_nil_r. cbn [app length]. do 2 f_equal; [f_equal|]; lia.
  - pose proof (layout_sizes _ _ _ _ Hl) as (Hs1 & Hs2 & _). destruct (write_field_ok H gap D rest v t z n Ht Hn ltac:(lia) ltac:(lia)) as (vb & rest1 & Hv & Hlv & Hr1 & E).
    destruct (IH (H ++ vb) (drop (length vb) gap) (D ++ field_data v t) rest1 ltac:(rewrite length_drop; lia) ltac:(lia)) as (vbs & rest2 & Hvs & Hlvs & Hr2 & E2).
    exists (vb :: vbs), rest2. split; [by constructor|]. split; [cbn [concat]; rewrite length_app; lia|]. split; [lia|].
    cbn [write_fields]. rewrite E. cbn [mbind option_bind].
    replace (len H + len gap + len D + len (field_data v t)) with (len (H ++ vb) + len (drop (length vb) gap) + len (D ++ field_data v t))
      by (rewrite !length_app, length_drop; lia).
    rewrite E2. cbn [concat]. change (data_of ((v, t) :: fs)) with (field_data v t ++ data_of fs). rewrite <- !app_assoc, !length_app. do 2 f_equal; [f_equal|]; lia.
Qed.

(** ** The size of the header *)

Lemma varint_len_pow v (j : nat) : 128 ^ Z.of_nat j <= v < 128 ^ Z.of_nat (S j) -> (j < 9)%nat -> sqlite3VarintLen v = Some (Z.of_nat (S j)).
Proof.
  intros Hv Hj. assert (0 < 128 ^ Z.of_nat j) by (apply Z.pow_pos_nonneg; lia). assert (128 ^ Z.of_nat (S j) <= 128 ^ 10) by (apply Z.pow_le_mono_r; lia).
  unfold sqlite3VarintLen. rewrite varint_len_loop_spec by (change (Z.of_nat 10) with 10; lia). rewrite (le_digits_count v j) by (done || lia). f_equal. lia.
Qed.

Lemma header_size_ok n : 0 <= n < 2 ^ 20 -> exists T, header_size n = Some T /\ sqlite3VarintLen T = Some (T - n) /\ n < T <= n + 4.
Proof.
  intros Hn. unfold header_size. destruct (Z.leb_spec n 126).
  { exists (n + 1). rewrite varint_len_one by lia. split; [done|]. split; [f_equal; lia|lia]. }
  destruct (decide (n = 127)) as [->|]; [by exists 129|]. destruct (decide (n < 16384)) as [Hl|Hl].
  - rewrite (varint_len_pow n 1) by (cbn; lia). cbn [mbind option_bind]. change (Z.of_nat 2) with 2. destruct (decide (n + 2 < 16384)).
    + rewrite (varint_len_pow (n + 2) 1) by (cbn; lia). exists (n + 2). cbn [mbind option_bind]. split; [done|]. rewrite (varint_len_pow (n + 2) 1) by (cbn; lia). split; [f_equal; lia|lia].
    + rewrite (varint_len_pow (n + 2) 2) by (cbn; lia). exists (n + 3). cbn [mbind option_bind]. split; [change (2 <? Z.of_nat 3) with true; cbn iota; f_equal; lia|]. rewrite (varint_len_pow (n + 3) 2) by (cbn; lia). split; [f_equal; lia|lia].
  - rewrite (varint_len_pow n 2) by (cbn; lia). cbn [mbind option_bind]. change (Z.of_nat 3) with 3.
    rewrite (varint_len_pow (n + 3) 2) by (cbn; lia). exists (n + 3). cbn [mbind option_bind]. split; [done|]. rewrite (varint_len_pow (n + 3) 2) by (cbn; lia). split; [f_equal; lia|lia].
Qed.

(** ** Records *)

(** The data with the zero bytes behind each field. *)
Fixpoint full_data (fs : list (value * Z)) : bytes :=
  match fs with
  | [] => []
  | (v, t) :: fs =>
      let l := default 0 (sqlite3VdbeSerialTypeLen t) in
      field_data v t ++ replicate (Z.to_nat (l - len (field_data v t))) 0 ++ full_data fs
  end.

Lemma full_data_cons v t z fs : typed v t z -> full_data ((v, t) :: fs) = field_data v t ++ replicate (Z.to_nat z) 0 ++ full_data fs.
Proof.
  intros Ht. cbn [full_data]. rewrite (typed_len _ _ _ Ht). cbn [default from_option]. do 4 f_equal. unfold default. cbn. lia.
Qed.

Lemma full_data_eq fs nHdr nData nZero :
  layout fs nHdr nData nZero -> full_data fs = data_of fs ++ replicate (Z.to_nat nZero) 0.
Proof.
  induction 1 as [|v t z m fs nHdr nData nZero Ht _ Hz Hl IH]; [done|]. rewrite (full_data_cons _ _ _ _ Ht), IH.
  pose proof (layout_sizes _ _ _ _ Hl) as (_ & Hd & Hnz). destruct (typed_range _ _ _ Ht) as [_ Hz0].
  change (data_of ((v, t) :: fs)) with (field_data v t ++ data_of fs). rewrite <- app_assoc. f_equal.
  destruct Hz as [-> | ->]; [rewrite Z.add_0_r; done|]. assert (E : length (data_of fs) = 0%nat) by lia. apply nil_length_inv in E as ->. cbn [app].
  rewrite <- replicate_add. f_equal. lia.
Qed.

(** The loop that reads the fields back. *)
Lemma unpack_fields_ok fs nHdr nData nZero vbs aKey nKey idx d X Y (n : nat) :
  layout fs nHdr nData nZero -> Forall2 (fun vb f => is_varint vb f.2) vbs fs ->
  0 <= idx -> 0 <= d -> drop (Z.to_nat idx) aKey = concat vbs ++ X -> drop (Z.to_nat d) aKey = full_data fs ++ Y ->
  d + len (full_data fs) <= nKey < 2 ^ 32 -> (length fs <= n)%nat ->
  unpack_fields n aKey nKey (idx + len (concat vbs)) idx d = Some ((reads_as ∘ fst) <$> fs, d + len (full_data fs)).
Proof.
  intros Hl. revert vbs idx d n. induction Hl as [|v t z m fs nHdr nData nZero Ht Hm Hz Hl IH]; intros vbs idx d n Hv Hi Hd HX HY HK Hn.
  - apply Forall2_nil_inv_r in Hv as ->. cbn [full_data concat length fmap list_fmap]. change (Z.of_nat 0) with 0. rewrite !Z.add_0_r.
    destruct n as [|n]; cbn [unpack_fields]; [done|]. by rewrite (proj2 (Z.ltb_ge idx idx)) by lia.
  - apply Forall2_cons_inv_r in Hv as (vb & vbs0 & Hvb & Hv0 & ->). cbn [snd concat] in *. rewrite <- app_assoc in HX.
    destruct (typed_range _ _ _ Ht) as [Hr Hz0]. destruct n as [|n]; [cbn in Hn; lia|]. cbn [unpack_fields].
    rewrite (full_data_cons _ _ _ _ Ht) in HY, HK |- *. rewrite <- !app_assoc in HY. rewrite !length_app, !length_replicate in HK. rewrite !length_app, !length_replicate.
    assert (1 <= len vb) by (destruct Hvb as (_ & ds & last & _ & _ & ->); unfold varint_bytes; rewrite length_app; cbn [length]; lia).
    rewrite (proj2 (Z.ltb_lt idx _)), (proj2 (Z.leb_le d nKey)) by lia. cbn [andb].
    rewrite HX, (varint_read vb t _ Hvb Hr), HY, typed_read by done. cbn [mbind option_bind]. rewrite (typed_len _ _ _ Ht). cbn [mbind option_bind].
    unfold u32. rewrite Z.mod_small by lia.
    replace (idx + Z.of_nat (length vb + length (concat vbs0))) with (idx + len vb + len (concat vbs0)) by lia.
    rewrite (IH vbs0 (idx + len vb) (d + (len (field_data v t) + z)) n Hv0); [|lia|lia| | |lia|cbn in Hn; lia].
    + cbn [mbind option_bind fmap list_fmap]. do 2 f_equal. lia.
    + replace (Z.to_nat (idx + len vb)) with (Z.to_nat idx + length vb)%nat by lia. rewrite <- drop_drop, HX. apply drop_app_length.
    + replace (Z.to_nat (d + (len (field_data v t) + z))) with (Z.to_nat d + (length (field_data v t) + Z.to_nat z))%nat by lia.
      rewrite <- drop_drop, HY. rewrite app_assoc. apply drop_app_length'. rewrite length_app, length_replicate. done.
Qed.

(** The record for the fields that were sized: its size, its types, its data. *)
Definition is_record (z : bytes) (fs : list (value * Z)) : Prop :=
  exists hb vbs, z = hb ++ concat vbs ++ data_of fs /\ is_varint hb (len (hb ++ concat vbs)) /\ Forall2 (fun vb f => is_varint vb f.2) vbs fs.

Lemma write_record_ok fs nHdr nData nZero T buf :
  layout fs nHdr nData nZero -> 0 <= nHdr < 2 ^ 20 -> header_size nHdr = Some T -> T + nData + OVERRUN <= len buf ->
  exists z buf', is_record z fs /\ len z = T + nData /\
    (let? (buf, zHdr) := (if T <? 0x80 then let? b := mem_put buf 0 (u8 T) in Some (b, 1) else put_varint_at buf 0 T) in
     write_fields buf zHdr T fs) = Some (z ++ buf', T, T + nData).
Proof.
  intros Hl Hn HT Hb. destruct (header_size_ok nHdr Hn) as (T' & E & Hlen & Hr). rewrite HT in E. injection E as <-. unfold OVERRUN in Hb.
  pose proof (layout_sizes _ _ _ _ Hl) as (_ & Hd & _).
  destruct (put_type_ok [] (take (Z.to_nat T) buf) (drop (Z.to_nat T) buf) T (T - nHdr) ltac:(lia) Hlen ltac:(rewrite length_take; lia) ltac:(rewrite length_drop; lia))
    as (hb & Hhb & Hlhb & Hput).
  cbn [app length] in Hput. change (Z.of_nat 0) with 0 in Hput. rewrite take_drop in Hput. change (0 + 1) with 1 in Hput. rewrite Hput. cbn [mbind option_bind].
  destruct (write_fields_ok fs nHdr nData nZero hb (drop (length hb) (take (Z.to_nat T) buf)) [] (drop (Z.to_nat T) buf) Hl) as (vbs & rest & Hv & Hlv & Hrest & Hw).
  { rewrite length_drop, length_take. lia. } { rewrite length_drop. lia. }
  exists (hb ++ concat vbs ++ data_of fs), rest. split; [exists hb, vbs; split; [done|]; split; [|done]; rewrite length_app; by replace (Z.of_nat _) with T by lia|].
  split; [rewrite !length_app; lia|]. cbn [app length] in Hw. replace (len hb + len _ + Z.of_nat 0) with T in Hw by (rewrite length_drop, length_take; lia).
  rewrite Hw. rewrite <- !app_assoc. do 2 f_equal; [f_equal|]; lia.
Qed.

(** A record is read back. *)
Lemma unpack_record z fs nHdr nData nZero (nField : nat) :
  layout fs nHdr nData nZero -> is_record z fs -> len z + nZero < 2 ^ 31 -> (length fs <= nField)%nat ->
  sqlite3VdbeRecordUnpack nField (len z + nZero) (z ++ replicate (Z.to_nat nZero) 0) = Some ((reads_as ∘ fst) <$> fs).
Proof.
  intros Hl (hb & vbs & -> & Hhb & Hv) Hlen Hf. pose proof (layout_sizes _ _ _ _ Hl) as (_ & Hd & Hz). rewrite !length_app in Hlen. rewrite length_app in Hhb.
  unfold sqlite3VdbeRecordUnpack. rewrite <- !app_assoc. rewrite (varint_read hb _ _ Hhb) by lia. cbn [mbind option_bind].
  rewrite <- (full_data_eq _ _ _ _ Hl). assert (Hfl : len (full_data fs) = nData + nZero) by (rewrite (full_data_eq _ _ _ _ Hl), length_app, length_replicate; lia).
  replace (Z.of_nat (length hb + length (concat vbs))) with (len hb + len (concat vbs)) by lia.
  rewrite (unpack_fields_ok fs nHdr nData nZero vbs _ _ (len hb) (len hb + len (concat vbs)) (full_data fs) [] nField Hl Hv); [|lia|lia| | |rewrite !length_app; lia|done].
  - cbn [mbind option_bind]. rewrite (proj2 (Z.ltb_ge _ _)) by (rewrite !length_app; lia). done.
  - rewrite Nat2Z.id. apply drop_app_length.
  - rewrite app_nil_r. replace (Z.to_nat (len hb + len (concat vbs))) with (length (hb ++ concat vbs)) by (rewrite length_app; lia). rewrite app_assoc. apply drop_app_length.
Qed.

(** A bound of the size of the data of a value. *)
Definition value_size (v : value) : Z := match v with VStr z | VBlob z => len z | VZero z n => len z + n | _ => 8 end.
Definition values_size (vs : list value) : Z := foldr (fun v s => value_size v + s) 0 vs.

Lemma field_size_le ff ex v nData v' t h d z :
  value_ok v -> size_field ff ex v nData = Some (v', t, (h, d, z)) -> d + z <= value_size v.
Proof.
  assert (Hi : forall i t n, int_type ff i = Some (t, n) -> n <= 8) by (intros i t0 n; unfold int_type; repeat case_match; intros [= <- <-]; lia).
  intros Hv H. destruct v as [| |i|i|r|s|s|s n]; cbn [size_field value_ok value_size] in *; try (injection H as <- <- <- <- <-; lia).
  - injection H as H. destruct (int_type ff i) as [[t0 n0]|] eqn:E; injection H as <- <- <- <- <-; [apply Hi in E|]; lia.
  - injection H as H. destruct (int_type ff i) as [[t0 n0]|] eqn:E; injection H as <- <- <- <- <-; [apply Hi in E|]; lia.
  - case_match; [case_match; [done|]|]; injection H as <- <- <- <- <-; lia.
Qed.

Lemma fields_size_le ff ex vs fs nHdr nData nZero :
  Forall value_ok vs -> size_fields ff ex vs = Some (fs, (nHdr, nData, nZero)) -> nData + nZero <= values_size vs.
Proof.
  intros Hvs. revert fs nHdr nData nZero. induction Hvs as [|v vs Hv Hvs IH]; intros fs nHdr nData nZero H; cbn [size_fields] in H; [by injection H as <- <- <- <-|].
  destruct (size_fields ff ex vs) as [[fs0 [[h0 d0] z0]]|]; [|done]. cbn [mbind option_bind] in H. specialize (IH _ _ _ _ eq_refl).
  destruct (size_field ff ex v d0) as [[[v' t] [[h d] z]]|] eqn:E; [|done]. cbn [mbind option_bind] in H. injection H as <- <- <- <-.
  apply field_size_le in E; [|done]. cbn [values_size foldr]. fold (values_size vs). lia.
Qed.

Lemma size_fields_total ff vs : is_Some (size_fields ff true vs).
Proof.
  induction vs as [|v vs [[fs [[h d] z]] IH]]; [done|]. cbn [size_fields]. rewrite IH. cbn [mbind option_bind].
  assert (H : is_Some (size_field ff true v d)) by (destruct v; cbn [size_field]; repeat case_match; try done; by eexists).
  destruct H as [[[v' t] [[h' d'] z']] ->]. by eexists.
Qed.

(** The record of some values. *)
Definition record_of (z : bytes) (nZero : Z) (vs : list value) : Prop :=
  exists fs nHdr nData, layout fs nHdr nData nZero /\ is_record z fs /\ (reads_as ∘ fst) <$> fs = stored <$> vs /\ 0 <= nZero /\ len z + nZero < 2 ^ 31.

Lemma make_record_ok ff limit ex zMalloc resize vs :
  Forall value_ok vs -> len vs <= 32767 -> limit < 2 ^ 31 -> len zMalloc < 2 ^ 31 ->
  (forall n b, resize n = Some b -> n <= len b) ->
  exists out, make_record ff limit ex zMalloc resize vs = Some out /\
    match out with
    | rec_done z nZero => record_of z nZero vs
    | rec_too_big => limit < 4 + 9 * len vs + values_size vs
    | rec_no_mem => ex = false \/ exists n, resize n = None
    end.
Proof.
  intros Hvs Hlen Hlim Hz Hres. unfold make_record. destruct (size_fields ff ex vs) as [[fs [[nHdr nData] nZero]]|] eqn:Es.
  2: { eexists. split; [done|]. left. destruct ex; [|done]. exfalso. destruct (size_fields_total ff vs) as [? E]. by rewrite Es in E. }
  destruct (size_fields_ok _ _ _ _ _ _ _ Hvs Es) as [Hl Hm]. pose proof (layout_sizes _ _ _ _ Hl) as (Hs & Hd & Hnz).
  assert (Hlf : length fs = length vs) by (rewrite <- (length_fmap stored vs), <- Hm; by rewrite length_fmap).
  destruct (header_size_ok nHdr ltac:(lia)) as (T & HT & _ & HTr). rewrite HT. cbn [mbind option_bind].
  assert (Hw : forall buf, T + nData + OVERRUN <= len buf -> T + nData + nZero < 2 ^ 31 -> exists out,
    (let? (buf, zHdr) := (if T <? 0x80 then let? b := mem_put buf 0 (u8 T) in Some (b, 1) else put_varint_at buf 0 T) in
     let? (buf, zHdr, zPayload) := write_fields buf zHdr T fs in
     if (zHdr =? T) && (zPayload =? T + nData) then Some (rec_done (take (Z.to_nat (T + nData)) buf) nZero) else None) = Some out /\
    match out with
    | rec_done z nZero => record_of z nZero vs
    | rec_too_big => limit < 4 + 9 * len vs + values_size vs | rec_no_mem => ex = false \/ exists n, resize n = None
    end).
  { intros buf Hb Hsum. destruct (write_record_ok fs nHdr nData nZero T buf Hl ltac:(lia) HT Hb) as (z & buf' & Hrec & Hzl & Hwr).
    destruct (if T <? 0x80 then _ else _) as [[b h]|]; [|done]. cbn [mbind option_bind] in Hwr |- *. rewrite Hwr. cbn [mbind option_bind]. rewrite !Z.eqb_refl. cbn [andb].
    eexists. split; [done|]. rewrite <- Hzl, Nat2Z.id, take_app_length. exists fs, nHdr, nData. split_and!; (done || lia). }
  unfold OVERRUN in *. destruct (Z.leb_spec (T + nData + nZero) (len zMalloc - 7)); [apply Hw; lia|].
  destruct (Z.ltb_spec limit (T + nData + nZero)); [eexists; split; [done|]; cbn; pose proof (fields_size_le _ _ _ _ _ _ _ Hvs Es); lia|]. destruct (resize (T + nData + 7)) as [b|] eqn:Er; [|eexists; split; [done|]; right; by eexists].
  apply Hw; [|lia]. apply Hres in Er. lia.
Qed.

(** ** Claims *)

(** C20: a record. Whatever buffer the output register has, [OP_MakeRecord] either writes a
    record inside it, over-run included, or reports that the record is too big or that there is
    no memory; and reading the record back gives the values that were written. *)
Theorem record_roundtrip ff limit ex zMalloc resize vs (nField : nat) :
  Forall value_ok vs -> len vs <= 32767 -> (length vs <= nField)%nat -> limit < 2 ^ 31 -> len zMalloc < 2 ^ 31 ->
  (forall n b, resize n = Some b -> n <= len b) ->
  exists out, make_record ff limit ex zMalloc resize vs = Some out /\
    match out with
    | rec_done z nZero => 0 <= nZero /\ sqlite3VdbeRecordUnpack nField (len z + nZero) (z ++ replicate (Z.to_nat nZero) 0) = Some (stored <$> vs)
    | rec_too_big => limit < 4 + 9 * len vs + values_size vs
    | rec_no_mem => ex = false \/ exists n, resize n = None
    end.
Proof.
  intros Hvs Hlen Hf Hlim Hz Hres. destruct (make_record_ok ff limit ex zMalloc resize vs Hvs Hlen Hlim Hz Hres) as (out & E & H). exists out. split; [exact E|].
  destruct out as [z nZero| |]; [|exact H|exact H]. destruct H as (fs & nHdr & nData & Hl & Hrec & Hm & Hnz & Hsz). split; [done|]. rewrite <- Hm.
  apply (unpack_record z fs nHdr nData nZero); [done|done|done|]. rewrite <- (length_fmap stored vs), <- Hm, length_fmap in Hf. done.
Qed.

(** ** Witnesses *)

Definition demo_values : list value :=
  [VInt (-1); VNull; VInt 1; VInt 300; VReal 0x4008000000000000; VInt (-70000); VStr [65; 66]; VIntReal (2 ^ 60); VInt (- 2 ^ 63); VZero [] 5].
Definition demo_resize (n : Z) : option bytes := Some (replicate (Z.to_nat n) 99).

Example demo_record :
  make_record 4 1000 true [] demo_resize demo_values =
  Some (rec_done [11; 1; 0; 9; 2; 7; 3; 17; 7; 6; 22; 255; 1; 44; 64; 8; 0; 0; 0; 0; 0; 0; 254; 238; 144; 65; 66;
                  67; 176; 0; 0; 0; 0; 0; 0; 128; 0; 0; 0; 0; 0; 0; 0] 5).
Proof. vm_compute. reflexivity. Qed.

Lemma record_roundtrip_witness :
  exists out, make_record 4 1000 true [] demo_resize demo_values = Some out /\
    match out with
    | rec_done z nZero => 0 <= nZero /\ sqlite3VdbeRecordUnpack 16 (len z + nZero) (z ++ replicate (Z.to_nat nZero) 0) = Some (stored <$> demo_values)
    | rec_too_big => 1000 < 4 + 9 * len demo_values + values_size demo_values
    | rec_no_mem => true = false \/ exists n, demo_resize n = None
    end.
Proof.
  apply (record_roundtrip 4 1000 true [] demo_resize demo_values 16); [|vm_compute; congruence|cbn; lia|lia|cbn; lia|].
  - repeat constructor; unfold is_i64; try lia; done.
  - intros n b [= <-]. rewrite length_replicate. lia.
Defined.

End Records.
