(* ===== verification/RecCmp.v ===== *)
(** * Comparison of values and of records (src/vdbeaux.c)

    - [sqlite3MemCompare] with [sqlite3BlobCompare] and the collating sequences, which orders two
      values;
    - [sqlite3VdbeRecordCompareWithSkip], which compares a record with an unpacked record without
      unpacking it, and the two faster routines for a first field that is an integer or a text,
      [vdbeRecordCompareInt] and [vdbeRecordCompareString], chosen by [sqlite3VdbeFindCompare].

    A key is the buffer from its start on, which goes on behind its [nKey1] bytes. A comparison
    function that an application has registered is a parameter. *)

From stdpp Require Import list.
From S2P Require Import Prelude CipherUtil Varint Utf Double Record.
Import CipherUtil.Xoshiro Double.Doubles Record.Records.
Local Open Scope Z_scope.

Module RecordCompare.

(** ** Values *)

(** A collating sequence: its encoding and its function, which is the built-in one or that of
    the application. *)
Record CollSeq := { c_enc : Utf.enc; c_binary : bool; c_user : bytes -> bytes -> Z }.

(** [memcmp(a, b, n)]: the sign of the first difference. *)
Fixpoint memcmp (n : nat) (a b : bytes) : option Z :=
  match n with
  | O => Some 0
  | S n => match a, b with
           | x :: a, y :: b => if x <? y then Some (-1) else if y <? x then Some 1 else memcmp n a b
           | _, _ => None
           end
  end.

(** The bytes, then the lengths. *)
Definition compare_bytes (a b : bytes) : option Z :=
  let? rc := memcmp (Nat.min (length a) (length b)) a b in Some (if rc =? 0 then len a - len b else rc).

Definition sqlite3BinaryCompare (a b : bytes) : option Z := compare_bytes a b.
Definition xCmp (c : CollSeq) (a b : bytes) : option Z := if c_binary c then sqlite3BinaryCompare a b else Some (c_user c a b).

(** [sqlite3ValueText(z, enc)] of a text in another encoding: [None] inside is a NULL pointer. *)
Definition value_text_enc (malloc : bool) (e e' : Utf.enc) (z : bytes) : option (option bytes) :=
  let? (m, rc) := Utf.sqlite3VdbeMemTranslate malloc e' (Utf.MemStr z (len z) e) in
  if rc =? SQLITE_OK then let? t := mem_read (Utf.m_z m) 0 (Utf.m_n m) in Some (Some t) else Some None.

(** The result, and whether [*prcErr] is set to SQLITE_NOMEM. *)
Definition vdbeCompareMemStringWithEncodingChange (malloc : bool) (e : Utf.enc) (a b : bytes) (c : CollSeq) : option (Z * bool) :=
  let? v1 := value_text_enc malloc e (c_enc c) a in
  let? v2 := value_text_enc malloc e (c_enc c) b in
  match v1, v2 with
  | Some a, Some b => let? rc := xCmp c a b in Some (rc, false)
  | _, _ => Some (0, true)
  end.

Definition vdbeCompareMemString (malloc : bool) (e : Utf.enc) (a b : bytes) (c : CollSeq) : option (Z * bool) :=
  if bool_decide (e = c_enc c) then let? rc := xCmp c a b in Some (rc, false)
  else vdbeCompareMemStringWithEncodingChange malloc e a b c.

Definition isAllZero (z : bytes) : bool := forallb (Z.eqb 0) z.

(** The content of a value that is compared as a blob, and the zero bytes of one with MEM_Zero. *)
Definition nzero (v : value) : option Z := match v with VZero _ n => Some n | _ => None end.

Definition sqlite3BlobCompare (a b : value) : option Z :=
  let bad v := match v with VZero z _ => negb (len z =? 0) | _ => false end in
  if bad a || bad b then None else
  match nzero a, nzero b with
  | Some n, Some m => Some (n - m)
  | Some n, None => Some (if negb (isAllZero (content b)) then -1 else n - len (content b))
  | None, Some m => Some (if negb (isAllZero (content a)) then 1 else len (content a) - m)
  | None, None => compare_bytes (content a) (content b)
  end.

Definition is_null (v : value) : bool := match v with VNull | VNoChange => true | _ => false end.

(** [None] is a failed assertion, or a read outside of a buffer. *)
Definition sqlite3MemCompare (malloc : bool) (e : Utf.enc) (a b : value) (pColl : option CollSeq) : option Z :=
  match a, b with
  | (VNull | VNoChange), _ | _, (VNull | VNoChange) => Some ((if is_null b then 1 else 0) - (if is_null a then 1 else 0))
  | (VInt i | VIntReal i), (VInt j | VIntReal j) => Some (if i <? j then -1 else if j <? i then 1 else 0)
  | VReal r, VReal s => Some (if d_lt r s then -1 else if d_lt s r then 1 else 0)
  | (VInt i | VIntReal i), VReal s => Some (sqlite3IntFloatCompare i s)
  | VReal r, (VInt j | VIntReal j) => Some (- sqlite3IntFloatCompare j r)
  | (VInt _ | VIntReal _ | VReal _), _ => Some (-1)
  | _, (VInt _ | VIntReal _ | VReal _) => Some 1
  | VStr x, VStr y =>
      match pColl with
      | Some c => fst <$> vdbeCompareMemString malloc e x y c
      | None => sqlite3BlobCompare a b
      end
  | VStr _, _ => Some (-1)
  | _, VStr _ => Some 1
  | _, _ => sqlite3BlobCompare a b
  end.

(** ** Records *)

Record KeyInfo := { k_enc : Utf.enc; k_nAllField : Z; k_aSortFlags : list Z; k_aColl : list (option CollSeq) }.

Definition KEYINFO_ORDER_DESC : Z := 1.
Definition KEYINFO_ORDER_BIGNULL : Z := 2.
Definition SQLITE_CORRUPT : Z := 11.

(** The values are those of the [nField] fields; [u_i] and [u_z] are the copies of the first one. *)
Record UnpackedRecord := {
  pKeyInfo : KeyInfo; aMem : list value; u_i : Z; u_z : bytes; default_rc : Z; errCode : Z; r1 : Z; r2 : Z; eqSeen : bool
}.

Definition set_errCode (rc : Z) (p : UnpackedRecord) : UnpackedRecord :=
  {| pKeyInfo := pKeyInfo p; aMem := aMem p; u_i := u_i p; u_z := u_z p; default_rc := default_rc p; errCode := rc; r1 := r1 p; r2 := r2 p; eqSeen := eqSeen p |}.
Definition set_eqSeen (p : UnpackedRecord) : UnpackedRecord :=
  {| pKeyInfo := pKeyInfo p; aMem := aMem p; u_i := u_i p; u_z := u_z p; default_rc := default_rc p; errCode := errCode p; r1 := r1 p; r2 := r2 p; eqSeen := true |}.

Definition vdbeRecordDecodeInt (serial_type : Z) (aKey : bytes) : option Z :=
  if (serial_type =? 0) || (serial_type =? 1) then ONE_BYTE_INT aKey
  else if serial_type =? 2 then TWO_BYTE_INT aKey
  else if serial_type =? 3 then THREE_BYTE_INT aKey
  else if serial_type =? 4 then i32 <$> FOUR_BYTE_UINT aKey
  else if serial_type =? 5 then let? lo := FOUR_BYTE_UINT (drop 2 aKey) in let? hi := TWO_BYTE_INT aKey in Some (lo + Z.shiftl 1 32 * hi)
  else if serial_type =? 6 then let? x := FOUR_BYTE_UINT aKey in let? y := FOUR_BYTE_UINT (drop 4 aKey) in Some (i64 (Z.lor (u64 (Z.shiftl x 32)) y))
  else Some (serial_type - 8).

(** The comparison of one field: corruption, or the serial type, the result and whether memory
    ran out. *)
Inductive field_result := fr_corrupt | fr_ok (serial_type rc : Z) (nomem : bool).

Definition compare_number (serial_type : Z) (rest : option Z) : option field_result :=
  if 10 <=? serial_type then Some (fr_ok serial_type (if serial_type =? 10 then -1 else 1) false)
  else if serial_type =? 0 then Some (fr_ok serial_type (-1) false)
  else let? rc := rest in Some (fr_ok serial_type rc false).

Definition compare_field (malloc : bool) (pKeyInfo : KeyInfo) (nKey1 : Z) (aKey1 : bytes) (i : nat) (idx1 d1 : Z) (pRhs : value) : option field_result :=
  let data := drop (Z.to_nat d1) aKey1 in
  match pRhs with
  | VInt rhs | VIntReal rhs =>
      let? serial_type := mem_get aKey1 idx1 in
      compare_number serial_type
        (if serial_type =? 7 then let? r := sqlite3Get8byte data in Some (- sqlite3IntFloatCompare rhs r)
         else let? lhs := vdbeRecordDecodeInt serial_type data in Some (if lhs <? rhs then -1 else if rhs <? lhs then 1 else 0))
  | VReal r =>
      let? serial_type := mem_get aKey1 idx1 in
      compare_number serial_type
        (if serial_type =? 7 then
           let? (v, nan) := sqlite3VdbeSerialGet7 data in
           match v with
           | VReal l => Some (if d_lt l r then -1 else if d_lt r l then 1 else 0)
           | _ => Some (-1)
           end
         else let? v := sqlite3VdbeSerialGet data serial_type in match v with VInt l => Some (sqlite3IntFloatCompare l r) | _ => None end)
  | VStr z =>
      let? (serial_type, _) := getVarint32 (drop (Z.to_nat idx1) aKey1) in
      if serial_type <? 12 then Some (fr_ok serial_type (-1) false)
      else if Z.land serial_type 1 =? 0 then Some (fr_ok serial_type 1 false)
      else
        let n := (serial_type - 12) / 2 in
        if (nKey1 <? u32 (d1 + n)) || (k_nAllField pKeyInfo <=? Z.of_nat i) then Some fr_corrupt else
        let? x := mem_read aKey1 d1 n in
        let? pColl := k_aColl pKeyInfo !! i in
        match pColl with
        | Some c => let? (rc, nomem) := vdbeCompareMemString malloc (k_enc pKeyInfo) x z c in Some (fr_ok serial_type rc nomem)
        | None => let? rc := compare_bytes x z in Some (fr_ok serial_type rc false)
        end
  | VBlob _ | VZero _ _ =>
      if match pRhs with VZero z _ => negb (len z =? 0) | _ => false end then None else
      let? (serial_type, _) := getVarint32 (drop (Z.to_nat idx1) aKey1) in
      if (serial_type <? 12) || negb (Z.land serial_type 1 =? 0) then Some (fr_ok serial_type (-1) false)
      else
        let nStr := (serial_type - 12) / 2 in
        if nKey1 <? u32 (d1 + nStr) then Some fr_corrupt else
        let? x := mem_read aKey1 d1 nStr in
        match pRhs with
        | VZero _ nZero => Some (fr_ok serial_type (if negb (isAllZero x) then 1 else nStr - nZero) false)
        | _ => let? rc := compare_bytes x (content pRhs) in Some (fr_ok serial_type rc false)
        end
  | VNull | VNoChange =>
      let? serial_type := mem_get aKey1 idx1 in
      if (serial_type =? 0) || (serial_type =? 10) then Some (fr_ok serial_type 0 false)
      else if serial_type =? 7 then
        let? (_, nan) := sqlite3VdbeSerialGet7 data in Some (fr_ok serial_type (if nan then 0 else 1) false)
      else Some (fr_ok serial_type 1 false)
  end.

(** The result of a field, in the order of the field. *)
Definition sorted_rc (sortFlags : Z) (null : bool) (rc : Z) : Z :=
  if negb (sortFlags =? 0) &&
     ((Z.land sortFlags KEYINFO_ORDER_BIGNULL =? 0) || negb (Bool.eqb (negb (Z.land sortFlags KEYINFO_ORDER_DESC =? 0)) null))
  then - rc else rc.

(** The loop from field [i] on, for the fields [rhs] of the right key. *)
Fixpoint compare_loop (malloc : bool) (nKey1 : Z) (aKey1 : bytes) (szHdr1 : Z) (i : nat) (idx1 d1 : Z) (rhs : list value) (p : UnpackedRecord)
    : option (Z * UnpackedRecord) :=
  match rhs with
  | [] => None
  | pRhs :: rhs =>
      let? f := compare_field malloc (pKeyInfo p) nKey1 aKey1 i idx1 d1 pRhs in
      match f with
      | fr_corrupt => Some (0, set_errCode SQLITE_CORRUPT p)
      | fr_ok serial_type rc nomem =>
          let p := if nomem then set_errCode SQLITE_NOMEM p else p in
          if negb (rc =? 0) then
            let? sortFlags := k_aSortFlags (pKeyInfo p) !! i in
            Some (sorted_rc sortFlags ((serial_type =? 0) || is_null pRhs) rc, p)
          else
            match rhs with
            | [] => Some (default_rc p, set_eqSeen p)
            | _ =>
                let? l := sqlite3VdbeSerialTypeLen serial_type in
                let d1 := u32 (d1 + l) in
                if nKey1 <? d1 then Some (default_rc p, set_eqSeen p) else
                let? n := sqlite3VarintLen serial_type in
                let idx1 := idx1 + n in
                if szHdr1 <=? idx1 then Some (0, set_errCode SQLITE_CORRUPT p)
                else compare_loop malloc nKey1 aKey1 szHdr1 (S i) idx1 d1 rhs p
            end
      end
  end.

Definition sqlite3VdbeRecordCompareWithSkip (malloc : bool) (nKey1 : Z) (aKey1 : bytes) (p : UnpackedRecord) (bSkip : bool) : option (Z * UnpackedRecord) :=
  let? (szHdr1, idx1, d1) :=
    (if bSkip then
       let? s1 := mem_get aKey1 1 in
       let? (s1, idx1) := (if s1 <? 0x80 then Some (s1, 2) else let? (s1, n) := sqlite3GetVarint32 (drop 1 aKey1) in Some (s1, 1 + n)) in
       let? szHdr1 := mem_get aKey1 0 in
       let? l := sqlite3VdbeSerialTypeLen s1 in
       Some (szHdr1, idx1, u32 (szHdr1 + l))
     else let? (szHdr1, idx1) := getVarint32 aKey1 in Some (szHdr1, idx1, szHdr1)) in
  if nKey1 <? d1 then Some (0, set_errCode SQLITE_CORRUPT p) else
  if bSkip then compare_loop malloc nKey1 aKey1 szHdr1 1 idx1 d1 (drop 1 (aMem p)) p
  else compare_loop malloc nKey1 aKey1 szHdr1 0 idx1 d1 (aMem p) p.

Definition sqlite3VdbeRecordCompare (malloc : bool) (nKey1 : Z) (aKey1 : bytes) (p : UnpackedRecord) : option (Z * UnpackedRecord) :=
  sqlite3VdbeRecordCompareWithSkip malloc nKey1 aKey1 p false.

(** The end of both fast routines, when the first fields are equal. *)
Definition compare_rest (malloc : bool) (nKey1 : Z) (aKey1 : bytes) (p : UnpackedRecord) : option (Z * UnpackedRecord) :=
  if 1 <? len (aMem p) then sqlite3VdbeRecordCompareWithSkip malloc nKey1 aKey1 p true else Some (default_rc p, set_eqSeen p).

Definition vdbeRecordCompareInt (malloc : bool) (nKey1 : Z) (aKey1 : bytes) (p : UnpackedRecord) : option (Z * UnpackedRecord) :=
  let? b := mem_get aKey1 0 in
  let aKey := drop (Z.to_nat (Z.land b 0x3F)) aKey1 in
  let? serial_type := mem_get aKey1 1 in
  let go (lhs : Z) :=
    if lhs <? u_i p then Some (r1 p, p) else if u_i p <? lhs then Some (r2 p, p) else compare_rest malloc nKey1 aKey1 p in
  if (1 <=? serial_type) && (serial_type <=? 6) then
    let? x := sqlite3Get8byte aKey in
    let? s := aShift !! Z.to_nat serial_type in
    go (Z.shiftr (i64 x) s)
  else if (serial_type =? 8) || (serial_type =? 9) then go (serial_type - 8)
  else sqlite3VdbeRecordCompare malloc nKey1 aKey1 p.

Definition vdbeRecordCompareString (malloc : bool) (nKey1 : Z) (aKey1 : bytes) (p : UnpackedRecord) : option (Z * UnpackedRecord) :=
  let? b := mem_get aKey1 1 in
  let? serial_type := (if i8 b <? 0 then let? (s, _) := sqlite3GetVarint32 (drop 1 aKey1) in Some (i32 s) else Some (i8 b)) in
  if serial_type <? 12 then Some (r1 p, p)
  else if Z.land serial_type 1 =? 0 then Some (r2 p, p)
  else
    let? szHdr := mem_get aKey1 0 in
    let nStr := (serial_type - 12) / 2 in
    if nKey1 <? szHdr + nStr then Some (0, set_errCode SQLITE_CORRUPT p) else
    let? x := mem_read aKey1 szHdr nStr in
    let? res := memcmp (Nat.min (length (u_z p)) (Z.to_nat nStr)) x (u_z p) in
    if 0 <? res then Some (r2 p, p)
    else if res <? 0 then Some (r1 p, p)
    else if nStr - len (u_z p) =? 0 then compare_rest malloc nKey1 aKey1 p
    else if 0 <? nStr - len (u_z p) then Some (r2 p, p) else Some (r1 p, p).

(** The routine that is chosen, and the record with the values it uses. *)
Inductive RecordCompareFn := cmp_any | cmp_int | cmp_string.

#[export] Instance RecordCompareFn_eq_dec : EqDecision RecordCompareFn.
Proof. solve_decision. Defined.

Definition sqlite3IsBinary (c : option CollSeq) : bool := match c with None => true | Some c => c_binary c end.

Definition set_cache (r1 r2 i : Z) (z : bytes) (p : UnpackedRecord) : UnpackedRecord :=
  {| pKeyInfo := pKeyInfo p; aMem := aMem p; u_i := i; u_z := z; default_rc := default_rc p; errCode := errCode p; r1 := r1; r2 := r2; eqSeen := eqSeen p |}.

Definition sqlite3VdbeFindCompare (p : UnpackedRecord) : option (RecordCompareFn * UnpackedRecord) :=
  if 13 <? k_nAllField (pKeyInfo p) then Some (cmp_any, p) else
  let? m := head (aMem p) in
  let? s := head (k_aSortFlags (pKeyInfo p)) in
  if negb (s =? 0) && negb (Z.land s KEYINFO_ORDER_BIGNULL =? 0) then Some (cmp_any, p) else
  let '(r1, r2) := if negb (s =? 0) then (1, -1) else (-1, 1) in
  match m with
  | VInt i => Some (cmp_int, set_cache r1 r2 i (u_z p) p)
  | VStr z =>
      let? c := head (k_aColl (pKeyInfo p)) in
      if sqlite3IsBinary c then Some (cmp_string, set_cache r1 r2 (u_i p) z p) else Some (cmp_any, set_cache r1 r2 (u_i p) (u_z p) p)
  | _ => Some (cmp_any, set_cache r1 r2 (u_i p) (u_z p) p)
  end.

Definition run_compare (f : RecordCompareFn) : bool -> Z -> bytes -> UnpackedRecord -> option (Z * UnpackedRecord) :=
  match f with cmp_any => sqlite3VdbeRecordCompare | cmp_int => vdbeRecordCompareInt | cmp_string => vdbeRecordCompareString end.

(** ** Reading one field of a key *)

Lemma decode_int_ok i t rest : int_typed i t -> vdbeRecordDecodeInt t (int_data i t ++ rest) = Some i.
Proof.
  intros H. pose proof (int_typed_read i t rest H) as Hr. unfold vdbeRecordDecodeInt. destruct H as [(H1 & H2)|(w & Hw & Hi)].
  { repeat match goal with |- context [t =? ?k] => rewrite (proj2 (Z.eqb_neq t k)) by lia end. cbn [orb]. f_equal. lia. }
  assert (Hcase : t = 1 \/ t = 2 \/ t = 3 \/ t = 4 \/ t = 5 \/ t = 6) by (apply int_width_range in Hw; lia).
  assert (Hinj : forall o : option Z, VInt <$> o = Some (VInt i) -> o = Some i) by (intros [x|] [=]; by subst).
  destruct Hcase as [->|[->|[->|[->|[->| ->]]]]]; apply Hinj; [exact Hr|exact Hr|exact Hr|exact Hr|exact Hr|].
  unfold int_data in *. injection Hw as <-. cbn [int_width Z.eqb Pos.eqb] in *. unfold be_bytes in *. rewrite le_bytes8_eq in *. cbn [take reverse rev_append app] in *.
  pose proof (byte_of_range (u64 i)) as Hb. cbn [orb Z.eqb Pos.eqb drop]. rewrite !four_byte_eq by done. cbn [mbind option_bind].
  unfold sqlite3VdbeSerialGet in Hr. cbn [orb Z.eqb Pos.eqb] in Hr. rewrite be_value_8 in Hr. cbn [fmap option_fmap option_map] in Hr |- *. injection Hr as Hr. do 2 f_equal. etransitivity; [|exact Hr].
  f_equal. pose proof (Hb 0). pose proof (Hb 1). pose proof (Hb 2). pose proof (Hb 3). pose proof (Hb 4). pose proof (Hb 5). pose proof (Hb 6). pose proof (Hb 7). unfold is_byte in *.
  rewrite (u64_small (Z.shiftl _ 32)) by (rewrite Z.shiftl_mul_pow2 by lia; lia). rewrite lor_shiftl_add by lia. lia.
Qed.

Lemma varint_first vb t : is_varint vb t -> 0 <= t -> exists b r, vb = b :: r /\ (t < 128 -> b = t /\ r = []) /\ (128 <= t -> 128 <= b).
Proof.
  intros (Hl & ds & last & (Hds & H8 & Hlast) & Hd & ->) Ht. destruct ds as [|d ds].
  - exists last, []. cbn in Hlast. unfold varint_denotes, digits_value in Hd. cbn in Hd. split; [done|]. split; [intros _; split; [lia|done]|].
    unfold digit in Hlast. lia.
  - exists (128 + d), (((fun d => 128 + d) <$> ds) ++ [last]). split; [done|]. split.
    + intros Hlt. rewrite varint_len_one in Hl by lia. exfalso. unfold varint_bytes in Hl. rewrite length_app, length_fmap in Hl. cbn [length] in Hl. injection Hl as Hl. lia.
    + intros _. apply Forall_inv in Hds. unfold digit in Hds. lia.
Qed.

Lemma memcmp_total n a b : (n <= length a)%nat -> (n <= length b)%nat -> exists rc, memcmp n a b = Some rc.
Proof.
  revert a b. induction n as [|n IH]; intros a b Ha Hb; [by eexists|]. destruct a as [|x a], b as [|y b]; cbn in Ha, Hb; try lia. cbn [memcmp].
  case_match; [by eexists|]. case_match; [by eexists|]. apply IH; lia.
Qed.

Lemma compare_bytes_total a b : exists rc, compare_bytes a b = Some rc.
Proof. unfold compare_bytes. destruct (memcmp_total (Nat.min (length a) (length b)) a b) as [rc ->]; [lia|lia|]. by eexists. Qed.

Lemma xCmp_total c a b : exists rc, xCmp c a b = Some rc.
Proof. unfold xCmp. case_match; [apply compare_bytes_total|by eexists]. Qed.

Lemma text_enc_total e e' z : e <> e' -> bytes_ok z -> len z < 2 ^ 30 -> exists t, value_text_enc true e e' z = Some (Some t).
Proof.
  intros He Hz Hl. destruct (Utf.translate_total e' (Utf.MemStr z (len z) e)) as (m' & Hr & _ & _ & Hn & Hb); [split; [done|]; cbn; lia|done|].
  unfold value_text_enc. rewrite Hr. cbn [mbind option_bind]. change (SQLITE_OK =? SQLITE_OK) with true. cbn iota. rewrite mem_read_total by lia. by eexists.
Qed.

Lemma string_compare_total e x y c :
  bytes_ok x -> len x < 2 ^ 30 -> bytes_ok y -> len y < 2 ^ 30 -> exists rc, vdbeCompareMemString true e x y c = Some (rc, false).
Proof.
  intros Hx Hlx Hy Hly. unfold vdbeCompareMemString, vdbeCompareMemStringWithEncodingChange. case_bool_decide as He.
  - destruct (xCmp_total c x y) as [rc ->]. by eexists.
  - destruct (text_enc_total e (c_enc c) x He Hx Hlx) as [t1 ->]. destruct (text_enc_total e (c_enc c) y He Hy Hly) as [t2 ->]. cbn [mbind option_bind].
    destruct (xCmp_total c t1 t2) as [rc ->]. by eexists.
Qed.

(** A value of the right key. *)
Definition rhs_ok (r : value) : Prop := value_ok r /\ match r with VZero z _ => z = [] | _ => True end.

(** The serial types by kind. *)
Lemma typed_kind v t z : typed v t z -> v <> VNoChange ->
  match reads_as v with
  | VNull => t = 0
  | VInt i => int_typed i t /\ field_data v t = int_data i t /\ z = 0 /\ 1 <= t <= 9 /\ t <> 7
  | VReal r => t = 7 /\ field_data v t = be_bytes 8 r /\ z = 0 /\ 0 <= r < 2 ^ 64 /\ IsNaN r = false
  | VStr s => 12 <= t /\ Z.land t 1 = 1 /\ bytes_ok s /\ len s < 2 ^ 30
  | VBlob s => 12 <= t /\ Z.land t 1 = 0
  | _ => False
  end.
Proof.
  assert (E : Z.land t 1 = t mod 2) by (change 1 with (Z.ones 1) at 1; by rewrite Z.land_ones).
  assert (Hint : forall i, int_typed i t -> 1 <= t <= 9 /\ t <> 7).
  { intros i [?|(w & Hw & _)]; [lia|]. apply int_width_range in Hw. lia. }
  destruct v; cbn [typed reads_as field_data content]; intros H Hn; try done.
  - by destruct H.
  - destruct H as (-> & H). do 3 (split; [done|]). by eapply Hint.
  - destruct H as (-> & H). do 3 (split; [done|]). by eapply Hint.
  - destruct H as (-> & -> & Hr & HN). do 3 (split; [done|]). by split.
  - destruct H as (Ht & -> & ? & ?). split; [lia|]. split; [rewrite E, Ht; Z.div_mod_to_equations; lia|by split].
  - destruct H as (Ht & -> & ? & ?). split; [lia|]. rewrite E, Ht; Z.div_mod_to_equations; lia.
  - destruct H as (Ht & -> & ? & ? & ?). split; [lia|]. rewrite E, Ht; Z.div_mod_to_equations; lia.
Qed.

(** ** One field *)

Section Field.
Context (aKey1 : bytes) (nKey1 idx1 d1 : Z) (vb X Y : bytes) (v : value) (t z : Z).
Context (Hty : typed v t z) (Hvb : is_varint vb t) (Hnc : v <> VNoChange).
Context (Hidx : 0 <= idx1) (Hd1 : 0 <= d1) (HX : drop (Z.to_nat idx1) aKey1 = vb ++ X).
Context (HY : drop (Z.to_nat d1) aKey1 = field_data v t ++ replicate (Z.to_nat z) 0 ++ Y).
Context (HK : d1 + len (field_data v t) + z <= nKey1 < 2 ^ 31) (HB : nKey1 <= len aKey1).

Lemma first_byte : exists b, mem_get aKey1 idx1 = Some b /\ (t < 128 -> b = t) /\ (128 <= t -> 128 <= b).
Proof.
  destruct (typed_range _ _ _ Hty) as [Ht _]. destruct (varint_first vb t Hvb ltac:(lia)) as (b & r & E & H1 & H2). exists b.
  split; [|split; [intros H; by apply H1|done]]. unfold mem_get. rewrite (proj2 (Z.leb_le 0 idx1) Hidx).
  rewrite <- (Nat.add_0_r (Z.to_nat idx1)), <- lookup_drop, HX, E. done.
Qed.

Lemma whole_type : exists n, getVarint32 (drop (Z.to_nat idx1) aKey1) = Some (t, n).
Proof. destruct (typed_range _ _ _ Hty) as [Ht _]. rewrite HX. eexists. by apply varint_read. Qed.

Lemma field_read : sqlite3VdbeSerialGet (drop (Z.to_nat d1) aKey1) t = Some (reads_as v).
Proof. rewrite HY. by apply typed_read. Qed.

(** The bytes of a text or a blob. *)
Lemma field_bytes : 12 <= t -> mem_read aKey1 d1 ((t - 12) / 2) = Some (content (reads_as v)) /\ u32 (d1 + (t - 12) / 2) <= nKey1 /\
  (t - 12) / 2 = len (content (reads_as v)).
Proof.
  intros Ht. destruct (typed_range _ _ _ Hty) as [Hr Hz]. pose proof (typed_len _ _ _ Hty) as Hl. rewrite type_len_text in Hl by lia. injection Hl as Hl. rewrite Hl.
  assert (Ec : content (reads_as v) = field_data v t ++ replicate (Z.to_nat z) 0).
  { destruct v; cbn [typed reads_as content field_data] in *; try lia.
    - destruct Hty as (_ & [?|(w & Hw & _)]); [lia|apply int_width_range in Hw; lia].
    - destruct Hty as (_ & [?|(w & Hw & _)]); [lia|apply int_width_range in Hw; lia].
    - destruct Hty as (_ & -> & _). by rewrite app_nil_r.
    - destruct Hty as (_ & -> & _). by rewrite app_nil_r.
    - by destruct Hty as (_ & -> & _). }
  assert (El : len (content (reads_as v)) = len (field_data v t) + z) by (rewrite Ec, length_app, length_replicate; lia).
  rewrite app_assoc, <- Ec in HY. unfold u32. rewrite Z.mod_small by lia. split; [|split; [lia|done]].
  rewrite mem_read_total by lia. rewrite HY. f_equal. replace (Z.to_nat (len (field_data v t) + z)) with (length (content (reads_as v))) by lia. apply take_app_length.
Qed.

(** A number on the right. *)
Lemma compare_number_ok (rest : Z -> option Z) rc :
  match reads_as v with
  | VNull => rc = -1
  | VInt _ | VReal _ => rest t = Some rc
  | _ => rc = 1
  end ->
  exists t', (let? b := mem_get aKey1 idx1 in compare_number b (rest b)) = Some (fr_ok t' rc false) /\
    (rc = 0 -> t' = t) /\ (t' =? 0) = is_null (reads_as v).
Proof.
  destruct first_byte as (b & -> & Hs & Hl). cbn [mbind option_bind]. intros H. exists b. unfold compare_number.
  pose proof (typed_kind _ _ _ Hty Hnc) as Hk. destruct (typed_range _ _ _ Hty) as [Ht _].
  assert (Htext : 12 <= t -> rc = 1 -> (if 10 <=? b then Some (fr_ok b (if b =? 10 then -1 else 1) false)
    else if b =? 0 then Some (fr_ok b (-1) false) else let? rc := rest b in Some (fr_ok b rc false)) = Some (fr_ok b rc false) /\ (rc = 0 -> b = t) /\ (b =? 0) = false).
  { intros Ht12 ->. assert (12 <= b) by (destruct (decide (t < 128)); lia). rewrite (proj2 (Z.leb_le 10 b)), (proj2 (Z.eqb_neq b 10)), (proj2 (Z.eqb_neq b 0)) by lia. by split_and!. }
  assert (Hnum : 1 <= t <= 9 -> rest t = Some rc -> (if 10 <=? b then Some (fr_ok b (if b =? 10 then -1 else 1) false)
    else if b =? 0 then Some (fr_ok b (-1) false) else let? rc := rest b in Some (fr_ok b rc false)) = Some (fr_ok b rc false) /\ (rc = 0 -> b = t) /\ (b =? 0) = false).
  { intros Ht9 Hr. rewrite Hs by lia. rewrite (proj2 (Z.leb_gt 10 t)), (proj2 (Z.eqb_neq t 0)) by lia. rewrite Hr. by split_and!. }
  destruct (reads_as v); cbn [is_null]; try done.
  - subst rc. rewrite Hs by lia. rewrite Hk. by split_and!.
  - apply Hnum; [lia|done].
  - apply Hnum; [lia|done].
  - apply Htext; [lia|done].
  - apply Htext; [lia|done].
Qed.

(** The comparison of the field is the comparison of the two values. *)
Context (K : KeyInfo) (i : nat) (oc : option CollSeq).
Context (HA : Z.of_nat i < k_nAllField K) (Hoc : k_aColl K !! i = Some oc).

Definition field_spec (r : value) : Prop :=
  exists t' rc, compare_field true K nKey1 aKey1 i idx1 d1 r = Some (fr_ok t' rc false) /\ sqlite3MemCompare true (k_enc K) (reads_as v) r oc = Some rc /\
    (rc = 0 -> t' = t) /\ (t' =? 0) = is_null (reads_as v).

Lemma real_data r : reads_as v = VReal r -> sqlite3Get8byte (drop (Z.to_nat d1) aKey1) = Some r /\ t = 7 /\ IsNaN r = false.
Proof.
  intros E. pose proof (typed_kind _ _ _ Hty Hnc) as Hk. rewrite E in Hk. destruct Hk as (Ht & Hd & Hz & Hr & HN). rewrite HY, Hd. split; [|done]. by apply read_real.
Qed.

Lemma int_field_data j : reads_as v = VInt j ->
  vdbeRecordDecodeInt t (drop (Z.to_nat d1) aKey1) = Some j /\ sqlite3VdbeSerialGet (drop (Z.to_nat d1) aKey1) t = Some (VInt j) /\ (t =? 7) = false.
Proof.
  intros E. pose proof field_read as Hf. rewrite E in Hf. pose proof (typed_kind _ _ _ Hty Hnc) as Hk. rewrite E in Hk. destruct Hk as (Hi & Hd & Hz & Ht & H7).
  split; [|split; [done|lia]]. rewrite HY, Hd. by apply decode_int_ok.
Qed.

Lemma number_spec r rest rc :
  compare_field true K nKey1 aKey1 i idx1 d1 r = (let? b := mem_get aKey1 idx1 in compare_number b (rest b)) ->
  sqlite3MemCompare true (k_enc K) (reads_as v) r oc = Some rc ->
  match reads_as v with VNull => rc = -1 | VInt _ | VReal _ => rest t = Some rc | _ => rc = 1 end ->
  field_spec r.
Proof. intros E1 E2 H. destruct (compare_number_ok rest rc H) as (t' & H1 & H2). exists t', rc. by rewrite E1. Qed.

Lemma compare_int_ok j : field_spec (VInt j) /\ field_spec (VIntReal j).
Proof.
  set (rest b := if b =? 7 then let? r := sqlite3Get8byte (drop (Z.to_nat d1) aKey1) in Some (- sqlite3IntFloatCompare j r)
    else let? lhs := vdbeRecordDecodeInt b (drop (Z.to_nat d1) aKey1) in Some (if lhs <? j then -1 else if j <? lhs then 1 else 0)).
  assert (H : exists rc, sqlite3MemCompare true (k_enc K) (reads_as v) (VInt j) oc = Some rc /\ sqlite3MemCompare true (k_enc K) (reads_as v) (VIntReal j) oc = Some rc /\
    match reads_as v with VNull => rc = -1 | VInt _ | VReal _ => rest t = Some rc | _ => rc = 1 end).
  { pose proof (typed_kind _ _ _ Hty Hnc) as Hk. destruct (reads_as v) as [| |l| |l|s|s|] eqn:E; try done; eexists; (split; [reflexivity|]; split; [reflexivity|]); try done; unfold rest.
    - destruct (int_field_data l E) as (-> & _ & ->). done.
    - destruct (real_data l E) as (-> & -> & _). done. }
  destruct H as (rc & H1 & H2 & H3). split; by apply (number_spec _ rest rc).
Qed.

Lemma compare_real_ok x : field_spec (VReal x).
Proof.
  set (rest b := if b =? 7 then
           let? (v, nan) := sqlite3VdbeSerialGet7 (drop (Z.to_nat d1) aKey1) in
           match v with
           | VReal l => Some (if d_lt l x then -1 else if d_lt x l then 1 else 0)
           | _ => Some (-1)
           end
         else let? v := sqlite3VdbeSerialGet (drop (Z.to_nat d1) aKey1) b in match v with VInt l => Some (sqlite3IntFloatCompare l x) | _ => None end).
  assert (H : exists rc, sqlite3MemCompare true (k_enc K) (reads_as v) (VReal x) oc = Some rc /\
    match reads_as v with VNull => rc = -1 | VInt _ | VReal _ => rest t = Some rc | _ => rc = 1 end).
  { pose proof (typed_kind _ _ _ Hty Hnc) as Hk. destruct (reads_as v) as [| |l| |l|s|s|] eqn:E; try done; eexists; (split; [reflexivity|]); try done; unfold rest.
    - destruct (int_field_data l E) as (_ & -> & ->). done.
    - destruct (real_data l E) as (E1 & -> & HN). unfold sqlite3VdbeSerialGet7. rewrite E1. cbn [mbind option_bind]. by rewrite HN. }
  destruct H as (rc & H1 & H3). by apply (number_spec _ rest rc).
Qed.

Lemma compare_null_ok : field_spec VNull /\ field_spec VNoChange.
Proof.
  assert (H : exists t' rc, compare_field true K nKey1 aKey1 i idx1 d1 VNull = Some (fr_ok t' rc false) /\
    rc = 1 - (if is_null (reads_as v) then 1 else 0) /\ (rc = 0 -> t' = t) /\ (t' =? 0) = is_null (reads_as v)).
  { destruct first_byte as (b & Eb & Hs & Hl). cbn [compare_field]. rewrite Eb. cbn [mbind option_bind].
    pose proof (typed_kind _ _ _ Hty Hnc) as Hk. destruct (typed_range _ _ _ Hty) as [Ht _]. exists b. destruct (decide (reads_as v = VNull)) as [E|E].
    - rewrite E in *. rewrite Hs by lia. rewrite Hk. by exists 0.
    - assert (Hb : b <> 0 /\ b <> 10 /\ (b = 7 -> exists r, reads_as v = VReal r)).
      { destruct (reads_as v) as [| |l| |l|s|s|]; try done; destruct (decide (t < 128)) as [H|H]; try (specialize (Hs H)); try (specialize (Hl ltac:(lia))); split_and!; try lia. intros _. by exists l. }
      destruct Hb as (H0 & H10 & H7). rewrite (proj2 (Z.eqb_neq b 0)), (proj2 (Z.eqb_neq b 10)) by done. cbn [orb]. exists 1.
      assert (En : is_null (reads_as v) = false) by (destruct (reads_as v); done). rewrite En. destruct (Z.eqb_spec b 7) as [->|]; [|done].
      destruct (H7 eq_refl) as (r & Er). destruct (real_data r Er) as (E1 & _ & HN). unfold sqlite3VdbeSerialGet7. rewrite E1. cbn [mbind option_bind]. by rewrite HN. }
  destruct H as (t' & rc & H1 & H2 & H3). split; exists t', rc; (split; [exact H1|]; split; [|exact H3]); rewrite H2; by destruct (reads_as v).
Qed.

(** A text or a blob on the right: the whole serial type is read. *)
Lemma compare_str_ok s : bytes_ok s -> len s < 2 ^ 30 -> field_spec (VStr s).
Proof.
  intros Hs Hl. unfold field_spec. cbn [compare_field]. destruct whole_type as [n ->]. cbn [mbind option_bind]. exists t.
  pose proof (typed_kind _ _ _ Hty Hnc) as Hk. pose proof field_bytes as Hb. destruct (reads_as v) as [| |l| |l|x|x|] eqn:E; try done; cbn [content is_null] in *.
  - exists (-1). rewrite (proj2 (Z.ltb_lt t 12)) by lia. rewrite Hk. by split_and!.
  - exists (-1). rewrite (proj2 (Z.ltb_lt t 12)) by lia. split_and!; (done || lia).
  - exists (-1). rewrite (proj2 (Z.ltb_lt t 12)) by lia. split_and!; (done || lia).
  - destruct Hk as (H12 & H1 & Hx & Hlx). destruct (Hb H12) as (Hr & Hfit & Hn). rewrite (proj2 (Z.ltb_ge t 12)) by lia. rewrite H1. change (1 =? 0) with false. cbn iota.
    rewrite (proj2 (Z.ltb_ge _ _) Hfit), (proj2 (Z.leb_gt (k_nAllField K) (Z.of_nat i))) by lia. cbn [orb]. rewrite Hr, Hoc. cbn [mbind option_bind sqlite3MemCompare].
    assert (H0 : (t =? 0) = false) by lia. destruct oc as [c|].
    + destruct (string_compare_total (k_enc K) x s c Hx Hlx Hs Hl) as [rc Hrc]. rewrite Hrc. by exists rc.
    + unfold sqlite3BlobCompare. cbn [orb nzero content]. destruct (compare_bytes_total x s) as [rc Hrc]. rewrite Hrc. by exists rc.
  - destruct Hk as (H12 & H0). exists 1. rewrite (proj2 (Z.ltb_ge t 12)) by lia. rewrite H0. split_and!; (done || lia).
Qed.

Lemma compare_blob_ok r : rhs_ok r -> match r with VBlob _ | VZero _ _ => True | _ => False end -> field_spec r.
Proof.
  intros Hr Hk0. unfold field_spec. pose proof (typed_kind _ _ _ Hty Hnc) as Hk. pose proof field_bytes as Hb. destruct whole_type as [n Hw].
  assert (Hlow : forall u, reads_as v = u -> t < 12 \/ Z.land t 1 <> 0 -> sqlite3MemCompare true (k_enc K) u r oc = Some (-1) -> (t =? 0) = is_null u ->
    exists t' rc, compare_field true K nKey1 aKey1 i idx1 d1 r = Some (fr_ok t' rc false) /\ sqlite3MemCompare true (k_enc K) u r oc = Some rc /\
      (rc = 0 -> t' = t) /\ (t' =? 0) = is_null u).
  { intros u _ Ht Hm H0. exists t, (-1). split; [|by split_and!]. assert (Hc : (t <? 12) || negb (Z.land t 1 =? 0) = true) by lia.
    destruct Hr as [_ Hr]. destruct r; try done; cbn [compare_field]; rewrite Hw; cbn [mbind option_bind]; rewrite Hc; [done|]. by rewrite Hr. }
  destruct (reads_as v) as [| |l| |l|x|x|] eqn:E; try done; cbn [content is_null] in *.
  - apply Hlow; [done|lia|by destruct r|cbn [is_null]; lia].
  - apply Hlow; [done|lia|by destruct r|cbn [is_null]; lia].
  - apply Hlow; [done|lia|by destruct r|cbn [is_null]; lia].
  - apply Hlow; [done|lia|by destruct r|cbn [is_null]; lia].
  - destruct Hk as (H12 & H0). destruct (Hb H12) as (Hrd & Hfit & Hn). exists t. destruct Hr as [_ Hr].
    assert (Ht0 : (t =? 0) = false) by lia. assert (Hc : (t <? 12) || negb (Z.land t 1 =? 0) = false) by (rewrite H0; cbn; lia).
    destruct r as [| | | | | |s|s m]; try done; cbn [compare_field sqlite3MemCompare]; rewrite ?Hr; cbn [length]; change (negb (Z.of_nat 0 =? 0)) with false; cbn iota;
      rewrite Hw; cbn [mbind option_bind]; rewrite Hc, (proj2 (Z.ltb_ge _ _) Hfit), Hrd; cbn [mbind option_bind content]; unfold sqlite3BlobCompare; cbn [nzero content orb].
    + destruct (compare_bytes_total x s) as [rc ->]. by exists rc.
    + rewrite Hn. cbn [length]. change (negb (Z.of_nat 0 =? 0)) with false. cbn iota. eexists. by split_and!.
Qed.

Lemma compare_field_ok r : rhs_ok r -> field_spec r.
Proof.
  intros Hr. pose proof Hr as [Hv _]. destruct r as [| |j|j|x|s|s|s m].
  - exact (proj1 compare_null_ok).
  - exact (proj2 compare_null_ok).
  - exact (proj1 (compare_int_ok j)).
  - exact (proj2 (compare_int_ok j)).
  - exact (compare_real_ok x).
  - destruct Hv. by apply compare_str_ok.
  - by apply compare_blob_ok.
  - by apply compare_blob_ok.
Qed.

End Field.

(** ** The order of records *)

(** The order of one field, as [vdbeRecordCompareDebug] applies it: NULL is moved to the other
    end, and the order is reversed. *)
Definition debug_order (sortFlags : Z) (null : bool) (rc : Z) : Z :=
  let rc := if negb (Z.land sortFlags KEYINFO_ORDER_BIGNULL =? 0) && null then - rc else rc in
  if negb (Z.land sortFlags KEYINFO_ORDER_DESC =? 0) then - rc else rc.

(** What the comparison of two keys finds: the first fields that differ, that the fields of the
    right key are equal to those of the left one, or that the left key has too few fields. *)
Inductive verdict := differ (rc : Z) | all_equal | too_short.

(** The specification: the values are compared one by one, from field [i] on. *)
Fixpoint compare_values (K : KeyInfo) (i : nat) (ls rs : list value) {struct rs} : option verdict :=
  match rs with
  | [] => Some all_equal
  | r :: rs =>
      match ls with
      | [] => Some too_short
      | l :: ls =>
          let? oc := k_aColl K !! i in
          let? rc := sqlite3MemCompare true (k_enc K) l r oc in
          if rc =? 0 then compare_values K (S i) ls rs
          else let? f := k_aSortFlags K !! i in Some (differ (debug_order f (is_null l || is_null r) rc))
      end
  end.

Definition conclude (w : verdict) (p : UnpackedRecord) : Z * UnpackedRecord :=
  match w with
  | differ rc => (rc, p)
  | all_equal => (default_rc p, set_eqSeen p)
  | too_short => (0, set_errCode SQLITE_CORRUPT p)
  end.

(** A right key of [n] fields. *)
Record key_ok (K : KeyInfo) (n : nat) : Prop := {
  key_all : Z.of_nat n <= k_nAllField K;
  key_coll : (n <= length (k_aColl K))%nat;
  key_sort : (n <= length (k_aSortFlags K))%nat;
  key_flags : Forall (fun f => 0 <= f <= 3) (k_aSortFlags K)
}.

Lemma sorted_debug f null rc : 0 <= f <= 3 -> sorted_rc f null rc = debug_order f null rc.
Proof.
  intros Hf. assert (H : f = 0 \/ f = 1 \/ f = 2 \/ f = 3) by lia. destruct H as [-> |[-> |[-> | ->]]], null; unfold sorted_rc, debug_order, KEYINFO_ORDER_BIGNULL, KEYINFO_ORDER_DESC; cbv [Z.eqb Z.land Pos.land negb andb orb Bool.eqb Pos.eqb N.to_nat Z.of_N Pos.Ndouble Pos.Nsucc_double]; rewrite ?Z.opp_involutive; done.
Qed.

Lemma compare_loop_ok fs nHdr nData nZero vbs aKey nKey idx d X Y rhs (i : nat) p :
  layout fs nHdr nData nZero -> Forall2 (fun vb f => is_varint vb f.2) vbs fs -> Forall (fun f => f.1 <> VNoChange) fs -> fs <> [] ->
  0 <= idx -> 0 <= d -> drop (Z.to_nat idx) aKey = concat vbs ++ X -> drop (Z.to_nat d) aKey = full_data fs ++ Y ->
  d + len (full_data fs) <= nKey < 2 ^ 31 -> nKey <= len aKey ->
  Forall rhs_ok rhs -> rhs <> [] -> key_ok (pKeyInfo p) (i + length rhs) ->
  exists w, compare_values (pKeyInfo p) i ((reads_as ∘ fst) <$> fs) rhs = Some w /\
    compare_loop true nKey aKey (idx + len (concat vbs)) i idx d rhs p = Some (conclude w p).
Proof.
  intros Hl. revert vbs idx d rhs i. induction Hl as [|v t z m fs nHdr nData nZero Ht Hm Hz Hl IH]; intros vbs idx d rhs i Hv Hn Hne Hi Hd HX HY HK HB Hr Hrne Hkey; [done|].
  destruct rhs as [|r rhs]; [done|]. apply Forall_cons_1 in Hr as [Hr Hrs]. apply Forall_cons_1 in Hn as [Hn Hns]. cbn [fst] in Hn.
  apply Forall2_cons_inv_r in Hv as (vb & vbs' & Hvb & Hvs & ->). cbn [snd] in Hvb. cbn [concat] in *. rewrite <- app_assoc in HX.
  rewrite (full_data_cons _ _ _ _ Ht) in HY, HK. destruct (typed_range _ _ _ Ht) as [Htr Hz0].
  destruct Hkey as [Ha Hc Hs Hf]. cbn [length] in Ha, Hc, Hs.
  destruct (lookup_lt_is_Some_2 (k_aColl (pKeyInfo p)) i) as [oc Hoc]; [lia|]. destruct (lookup_lt_is_Some_2 (k_aSortFlags (pKeyInfo p)) i) as [f Hfl]; [lia|].
  assert (HY' : drop (Z.to_nat d) aKey = field_data v t ++ replicate (Z.to_nat z) 0 ++ (full_data fs ++ Y)) by (rewrite HY, <- !app_assoc; done).
  rewrite !length_app, length_replicate in HK.
  destruct (compare_field_ok aKey nKey idx d vb (concat vbs' ++ X) (full_data fs ++ Y) v t z Ht Hvb Hn Hi Hd HX HY' ltac:(lia) HB (pKeyInfo p) i oc ltac:(lia) Hoc r Hr)
    as (t' & rc & Hcf & Hmc & Ht' & Hnull).
  cbn [fmap list_fmap compare_values]. rewrite Hoc. cbn [mbind option_bind compose fst]. rewrite Hmc, Hfl. cbn [mbind option_bind].
  cbn [compare_loop]. rewrite Hcf. cbn [mbind option_bind]. destruct (Z.eqb_spec rc 0) as [E|E]; cbn [negb].
  2:{ eexists. split; [reflexivity|]. rewrite Hfl. cbn [mbind option_bind conclude]. rewrite Hnull, sorted_debug; [done|]. by eapply Forall_lookup_1 in Hf. }
  rewrite (Ht' E). destruct rhs as [|r' rhs].
  { exists all_equal. done. }
  rewrite (typed_len _ _ _ Ht). cbn [mbind option_bind]. unfold u32. rewrite Z.mod_small by lia. rewrite (proj2 (Z.ltb_ge nKey _)) by lia.
  destruct Hvb as [Hlen Hsh]. rewrite Hlen. cbn [mbind option_bind].
  destruct fs as [|f0 fs].
  { apply Forall2_nil_inv_r in Hvs as ->. cbn [concat]. rewrite app_nil_r, (proj2 (Z.leb_le _ _)) by lia. exists too_short. done. }
  assert (Hvl : 1 <= len (concat vbs')).
  { apply Forall2_cons_inv_r in Hvs as (vb0 & vbs0 & [Hl0 (ds & last & _ & _ & ->)] & _ & ->). cbn [concat]. unfold varint_bytes. rewrite !length_app. cbn [length]. lia. }
  rewrite length_app, (proj2 (Z.leb_gt _ _)) by lia.
  destruct (IH vbs' (idx + len vb) (d + (len (field_data v t) + z)) (r' :: rhs) (S i)) as (w & Hw & Hloop); try done; try lia.
  - apply (f_equal (drop (length vb))) in HX. rewrite drop_drop, drop_app_length in HX. rewrite <- HX. f_equal. lia.
  - apply (f_equal (drop (length (field_data v t) + Z.to_nat z))) in HY'. rewrite drop_drop, app_assoc, drop_app_length' in HY' by (rewrite length_app, length_replicate; lia).
    rewrite <- HY'. f_equal. lia.
  - split; cbn [length] in *; (lia || done).
  - exists w. split; [exact Hw|]. rewrite <- Hloop. f_equal. lia.
Qed.

(** A record is a header of its size and the types, followed by the data. *)
Lemma record_parts z nZero vs pad :
  record_of z nZero vs -> VNoChange ∉ vs ->
  exists hb vbs fs nHdr nData,
    layout fs nHdr nData nZero /\ Forall2 (fun vb f => is_varint vb f.2) vbs fs /\ Forall (fun f => f.1 <> VNoChange) fs /\
    (reads_as ∘ fst) <$> fs = stored <$> vs /\ is_varint hb (len hb + len (concat vbs)) /\
    z ++ replicate (Z.to_nat nZero) 0 ++ pad = hb ++ concat vbs ++ full_data fs ++ pad /\
    len hb + len (concat vbs) + len (full_data fs) = len z + nZero /\ len z + nZero < 2 ^ 31 /\ 0 <= nZero.
Proof.
  intros (fs & nHdr & nData & Hl & (hb & vbs & Hz & Hhb & Hv) & Hm & Hnz & Hsz) Hnc. exists hb, vbs, fs, nHdr, nData.
  rewrite length_app, Nat2Z.inj_add in Hhb. pose proof (full_data_eq _ _ _ _ Hl) as Hfd. split_and!; try done.
  - apply list.Forall_forall. intros f Hf Ef. apply Hnc. apply (list_elem_of_fmap_2 (reads_as ∘ fst)) in Hf. rewrite Hm in Hf. apply list_elem_of_fmap in Hf as (v & Ev & Hv').
    cbn [compose] in Ev. rewrite Ef in Ev. cbn [reads_as] in Ev. destruct v; cbn [stored] in Ev; try done. by case_match.
  - rewrite Hz, Hfd, <- !app_assoc. done.
  - rewrite Hz, Hfd, !length_app, length_replicate. lia.
Qed.

Lemma record_compare_ok z nZero vs pad p :
  record_of z nZero vs -> VNoChange ∉ vs -> vs <> [] ->
  Forall rhs_ok (aMem p) -> aMem p <> [] -> key_ok (pKeyInfo p) (length (aMem p)) ->
  exists w, compare_values (pKeyInfo p) 0 (stored <$> vs) (aMem p) = Some w /\
    sqlite3VdbeRecordCompare true (len z + nZero) (z ++ replicate (Z.to_nat nZero) 0 ++ pad) p = Some (conclude w p).
Proof.
  intros Hrec Hnc Hne Hr Hrne Hkey. destruct (record_parts z nZero vs pad Hrec Hnc) as (hb & vbs & fs & nHdr & nData & Hl & Hv & Hf & Hm & Hhb & E & Hlen & Hsz & Hnz).
  rewrite E, <- Hm. unfold sqlite3VdbeRecordCompare, sqlite3VdbeRecordCompareWithSkip. rewrite (varint_read hb _ _ Hhb) by lia. cbn [mbind option_bind].
  rewrite (proj2 (Z.ltb_ge _ _)) by lia.
  apply (compare_loop_ok fs nHdr nData nZero vbs _ _ (len hb) (len hb + len (concat vbs)) (full_data fs ++ pad) pad); try done; try lia.
  - intros ->. by destruct vs.
  - by rewrite Nat2Z.id, drop_app_length.
  - rewrite app_assoc. by rewrite drop_app_length' by (rewrite length_app; lia).
  - rewrite !length_app. lia.
Qed.

(** ** The fast routines *)

Lemma be_value_app a b : be_value (a ++ b) = be_value a * 256 ^ len b + be_value b.
Proof.
  induction b as [|x b IH] using rev_ind; [rewrite app_nil_r; cbn [length]; change (be_value []) with 0; lia|].
  unfold be_value in *. rewrite app_assoc, (fold_left_app _ (a ++ b)), (fold_left_app _ b). cbn [fold_left]. rewrite IH, length_app. cbn [length].
  rewrite Nat2Z.inj_add, Z.pow_add_r by lia. lia.
Qed.

Lemma be_value_bound b : bytes_ok b -> 0 <= be_value b < 256 ^ len b.
Proof.
  induction b as [|x b IH] using rev_ind; intros H; [done|]. apply Forall_app in H as [Hb Hx]. apply Forall_inv in Hx. specialize (IH Hb). unfold is_byte in Hx.
  rewrite be_value_app, length_app. cbn [length]. change (be_value [x]) with x. rewrite Nat2Z.inj_add, Z.pow_add_r by lia. lia.
Qed.

Lemma be_value_low x (w : nat) : be_value (reverse ((fun k => byte_of x (Z.of_nat k)) <$> seq 0 w)) = x mod 2 ^ (8 * Z.of_nat w).
Proof.
  induction w as [|w IH]; [by rewrite Z.mod_1_r|]. rewrite seq_S, fmap_app, reverse_app. cbn [fmap list_fmap]. change (reverse [?a]) with [a].
  rewrite be_value_app, IH. change (be_value [?a]) with a. rewrite length_reverse, length_fmap, length_seq.
  replace (8 * Z.of_nat (S w)) with (8 * Z.of_nat w + 8) by lia. rewrite Z.pow_add_r, Z.rem_mul_r by lia.
  change 256 with (2 ^ 8). rewrite <- Z.pow_mul_r by lia. unfold byte_of. change (2 ^ 8) with 256. cbn [Nat.add]. lia.
Qed.

Lemma be_value_bytes x (w : nat) : (w <= 8)%nat -> be_value (be_bytes w x) = x mod 2 ^ (8 * Z.of_nat w).
Proof.
  intros Hw. rewrite <- be_value_low. unfold be_bytes. rewrite le_bytes8_eq. do 9 (destruct w as [|w]; [done|]). lia.
Qed.

(** Eight bytes that start with an integer, shifted to the right. *)
Lemma shift_read i t rest :
  int_typed i t -> t <= 6 -> bytes_ok rest -> (8 <= length (int_data i t ++ rest))%nat ->
  exists x s, sqlite3Get8byte (int_data i t ++ rest) = Some x /\ aShift !! Z.to_nat t = Some s /\ Z.shiftr (i64 x) s = i.
Proof.
  intros [?|(w & Hw & Hi)] Ht Hr Hl; [lia|]. unfold int_data in *. rewrite Hw in *. apply int_width_range in Hw as (_ & Hw8 & _ & Hs).
  rewrite length_app, be_bytes_length in Hl by lia. unfold sqlite3Get8byte. rewrite mem_read_total by (rewrite ?length_app, ?be_bytes_length by lia; lia). cbn [mbind option_bind].
  eexists _, _. split; [reflexivity|]. split; [exact Hs|].
  change (Z.to_nat 0) with 0%nat. rewrite drop_0, take_app_ge by (rewrite be_bytes_length by lia; lia). rewrite be_bytes_length by lia. set (r := take _ rest).
  assert (Er : length r = (8 - w)%nat) by (subst r; rewrite length_take; lia). rewrite be_value_app, be_value_bytes, Er by lia.
  pose proof (be_value_bound r ltac:(by apply Forall_take)) as Hb. rewrite Er in Hb.
  change 256 with (2 ^ 8) in *. rewrite <- Z.pow_mul_r in * by lia. set (S := 64 - 8 * Z.of_nat w). replace (8 * Z.of_nat (8 - w)) with S in * by (subst S; lia).
  assert (E64 : 2 ^ 64 = 2 ^ (8 * Z.of_nat w) * 2 ^ S) by (rewrite <- Z.pow_add_r by (subst S; lia); f_equal; subst S; lia).
  assert (E63 : 2 ^ 63 = 2 ^ (8 * Z.of_nat w - 1) * 2 ^ S) by (rewrite <- Z.pow_add_r by (subst S; lia); f_equal; subst S; lia).
  assert (HS : 0 < 2 ^ S) by (apply Z.pow_pos_nonneg; subst S; lia). assert (HW : 0 < 2 ^ (8 * Z.of_nat w)) by (apply Z.pow_pos_nonneg; lia).
  assert (Em : u64 i mod 2 ^ (8 * Z.of_nat w) = i mod 2 ^ (8 * Z.of_nat w)).
  { unfold u64. rewrite E64. apply Z.mod_mod_divide. apply Z.divide_factor_l. }
  rewrite Em. set (q := be_value r) in *. assert (Ei : i64 (i mod 2 ^ (8 * Z.of_nat w) * 2 ^ S + q) = i * 2 ^ S + q).
  { assert (Hrange : - 2 ^ 63 <= i * 2 ^ S + q < 2 ^ 63) by (rewrite E63; nia). rewrite <- (i64_small _ Hrange). unfold i64. f_equal.
    rewrite (Z.div_mod i (2 ^ (8 * Z.of_nat w))) at 2 by lia.
    replace ((2 ^ (8 * Z.of_nat w) * (i / 2 ^ (8 * Z.of_nat w)) + i mod 2 ^ (8 * Z.of_nat w)) * 2 ^ S + q + 2 ^ 63)
      with (i mod 2 ^ (8 * Z.of_nat w) * 2 ^ S + q + 2 ^ 63 + (i / 2 ^ (8 * Z.of_nat w)) * 2 ^ 64) by (rewrite E64; lia). by rewrite Z.mod_add by lia. }
  rewrite Ei, Z.shiftr_div_pow2 by (subst S; lia). rewrite Z.div_add_l by lia. rewrite (Z.div_small q) by lia. lia.
Qed.

Lemma varint_five vb t : is_varint vb t -> 0 <= t < 2 ^ 32 -> (1 <= length vb <= 5)%nat.
Proof.
  intros [Hl _] Ht. assert (H : sqlite3VarintLen t = Some 1 \/ sqlite3VarintLen t = Some 2 \/ sqlite3VarintLen t = Some 3 \/ sqlite3VarintLen t = Some 4 \/ sqlite3VarintLen t = Some 5).
  { destruct (decide (t < 128)); [left; apply varint_len_one; lia|right]. destruct (decide (t < 128 ^ 2)); [left; apply (varint_len_pow t 1); cbn in *; lia|right].
    destruct (decide (t < 128 ^ 3)); [left; apply (varint_len_pow t 2); cbn in *; lia|right]. destruct (decide (t < 128 ^ 4)); [left; apply (varint_len_pow t 3); cbn in *; lia|right].
    apply (varint_len_pow t 4); cbn in *; lia. }
  rewrite Hl in H. destruct H as [[= H]|[[= H]|[[= H]|[[= H]|[= H]]]]]; lia.
Qed.

Lemma types_short fs nHdr nData nZero vbs :
  layout fs nHdr nData nZero -> Forall2 (fun vb f => is_varint vb f.2) vbs fs -> len (concat vbs) <= 5 * len fs.
Proof.
  intros Hl. revert vbs. induction Hl as [|v t z n fs nHdr nData nZero Ht _ _ _ IH]; intros vbs Hv.
  - by apply Forall2_nil_inv_r in Hv as ->.
  - apply Forall2_cons_inv_r in Hv as (vb & vbs' & Hvb & Hvs & ->). specialize (IH _ Hvs). destruct (typed_range _ _ _ Ht) as [Hr _].
    pose proof (varint_five vb t Hvb Hr). cbn [concat length]. rewrite length_app. lia.
Qed.

Lemma be_bytes_ok n x : bytes_ok (be_bytes n x).
Proof. unfold be_bytes. apply Forall_reverse, Forall_take, le_bytes8_ok. Qed.

Lemma typed_bytes v t z : typed v t z -> bytes_ok (field_data v t).
Proof.
  assert (Hi : forall i t, bytes_ok (int_data i t)) by (intros i t0; unfold int_data; case_match; [apply be_bytes_ok|constructor]).
  destruct v; cbn [typed field_data content]; intros H; try apply Hi; try apply be_bytes_ok; try apply Forall_nil_2; by destruct_and! H.
Qed.

Lemma zeros_ok n : bytes_ok (replicate n 0).
Proof. apply Forall_replicate. unfold is_byte. lia. Qed.

Lemma full_data_ok fs nHdr nData nZero : layout fs nHdr nData nZero -> bytes_ok (full_data fs).
Proof.
  induction 1 as [|v t z n fs nHdr nData nZero Ht _ _ _ IH]; [constructor|]. rewrite (full_data_cons _ _ _ _ Ht).
  apply Forall_app. split; [by eapply typed_bytes|]. apply Forall_app. split; [apply zeros_ok|exact IH].
Qed.

(** The default limit of the size of a row (src/sqliteLimit.h). *)
Definition SQLITE_MAX_LENGTH : Z := 1000000000.

Lemma long_varint_read vb t rest : is_varint vb t -> 128 <= t < 2 ^ 32 -> sqlite3GetVarint32 (vb ++ rest) = Some (t, len vb).
Proof.
  intros Hvb Ht. pose proof (varint_read vb t rest Hvb ltac:(lia)) as Hg. destruct (varint_first vb t Hvb ltac:(lia)) as (b & r & -> & _ & H2). specialize (H2 ltac:(lia)).
  unfold getVarint32 in Hg. cbn [app] in Hg |- *. change (mem_get (b :: ?l) 0) with (Some b) in Hg. cbn [mbind option_bind] in Hg. by rewrite (proj2 (Z.ltb_ge b 128)) in Hg by lia.
Qed.

(** A key whose header is shorter than 128 bytes, with its first field apart. *)
Section Fast.
Context (T : Z) (vb : bytes) (vbs : list bytes) (v : value) (t zz : Z) (fs : list (value * Z)) (nHdr nData nz : Z) (pad : bytes) (nKey : Z).
Context (Hty : typed v t zz) (Hvb : is_varint vb t) (Hnc : v <> VNoChange).
Context (Hl : layout fs nHdr nData nz) (Hv : Forall2 (fun vb f => is_varint vb f.2) vbs fs) (Hf : Forall (fun f => f.1 <> VNoChange) fs).
Context (HT : T = 1 + len vb + len (concat vbs)) (HT127 : T < 128) (HT62 : t < 128 -> T <= 62).
Context (Hsz : nKey = T + len (field_data v t) + zz + len (full_data fs)) (HK : nKey < 2 ^ 31).

Definition fast_key : bytes := T :: vb ++ concat vbs ++ field_data v t ++ replicate (Z.to_nat zz) 0 ++ full_data fs ++ pad.

Lemma key_header : mem_get fast_key 0 = Some T.
Proof. done. Qed.

Lemma key_types : drop 1 fast_key = vb ++ concat vbs ++ field_data v t ++ replicate (Z.to_nat zz) 0 ++ full_data fs ++ pad.
Proof. done. Qed.

Lemma key_data : drop (Z.to_nat T) fast_key = field_data v t ++ replicate (Z.to_nat zz) 0 ++ full_data fs ++ pad.
Proof.
  unfold fast_key. replace (Z.to_nat T) with (S (length (vb ++ concat vbs))) by (rewrite length_app; lia). cbn [drop]. rewrite app_assoc. apply drop_app_length.
Qed.

Lemma key_length : nKey <= len fast_key.
Proof. unfold fast_key. cbn [length]. rewrite !length_app, length_replicate. destruct (typed_range _ _ _ Hty). lia. Qed.

Lemma key_first : exists b, mem_get fast_key 1 = Some b /\ (t < 128 -> b = t) /\ (128 <= t -> 128 <= b).
Proof. by apply (first_byte fast_key 1 vb _ v t zz Hty Hvb ltac:(lia) key_types). Qed.

Lemma key_first_range b : mem_get fast_key 1 = Some b -> is_byte b.
Proof.
  pose proof (varint_first vb t Hvb (proj1 (proj1 (typed_range _ _ _ Hty)))) as (b' & r & E & _). destruct Hvb as (_ & ds & last & (Hds & _ & Hlast) & _ & E').
  unfold fast_key. rewrite E. change (mem_get (T :: (b' :: r) ++ ?l) 1) with (Some b'). intros [= <-]. rewrite E in E'. unfold varint_bytes in E'. unfold is_byte.
  destruct ds as [|d ds]; cbn [fmap list_fmap app length] in *; injection E' as -> _.
  - unfold digit in Hlast. case_match; lia.
  - apply Forall_inv in Hds. unfold digit in Hds. lia.
Qed.

(** The fields behind the first one. *)
Lemma compare_rest_ok p r rs w :
  aMem p = r :: rs -> Forall rhs_ok rs -> key_ok (pKeyInfo p) (length (aMem p)) -> (length rs <= length fs)%nat ->
  compare_values (pKeyInfo p) 1 ((reads_as ∘ fst) <$> fs) rs = Some w -> compare_rest true nKey fast_key p = Some (conclude w p).
Proof.
  intros Ea Hr Hkey Hlen Hw. unfold compare_rest. rewrite Ea in *. cbn [length] in *. destruct rs as [|r' rs].
  { injection Hw as <-. done. }
  rewrite (proj2 (Z.ltb_lt 1 _)) by (cbn [length]; lia). unfold sqlite3VdbeRecordCompareWithSkip. destruct (typed_range _ _ _ Hty) as [Ht Hz].
  assert (Hs1 : (let? s1 := mem_get fast_key 1 in let? (s1, idx1) := (if s1 <? 0x80 then Some (s1, 2) else let? (s1, n) := sqlite3GetVarint32 (drop 1 fast_key) in Some (s1, 1 + n)) in
     let? szHdr1 := mem_get fast_key 0 in let? l := sqlite3VdbeSerialTypeLen s1 in Some (szHdr1, idx1, u32 (szHdr1 + l))) = Some (T, 1 + len vb, T + (len (field_data v t) + zz))).
  { destruct key_first as (b & -> & Hs & Hb). cbn [mbind option_bind].
    assert (Hst : (if b <? 0x80 then Some (b, 2) else let? (s1, n) := sqlite3GetVarint32 (drop 1 fast_key) in Some (s1, 1 + n)) = Some (t, 1 + len vb)).
    { destruct (varint_first vb t Hvb ltac:(lia)) as (b' & r0 & E & H1 & H2). destruct (decide (t < 128)) as [Hlt|Hge].
      - rewrite (Hs Hlt), (proj2 (Z.ltb_lt t 0x80)) by lia. destruct (H1 Hlt) as [_ ->]. rewrite E. done.
      - rewrite (proj2 (Z.ltb_ge b 0x80)) by (specialize (Hb ltac:(lia)); lia). by rewrite key_types, (long_varint_read vb t) by (done || lia). }
    rewrite Hst. cbn [mbind option_bind]. rewrite key_header, (typed_len _ _ _ Hty). cbn [mbind option_bind]. unfold u32. rewrite Z.mod_small by lia. done. }
  rewrite Hs1. cbn [mbind option_bind]. rewrite (proj2 (Z.ltb_ge nKey _)) by lia. rewrite Ea. change (drop 1 (r :: r' :: rs)) with (r' :: rs).
  destruct (compare_loop_ok fs nHdr nData nz vbs fast_key nKey (1 + len vb) (T + (len (field_data v t) + zz))
    (field_data v t ++ replicate (Z.to_nat zz) 0 ++ full_data fs ++ pad) pad (r' :: rs) 1 p) as (w' & Hw' & Hloop); try done; try lia.
  - intros ->. cbn [length] in Hlen. lia.
  - replace (Z.to_nat (1 + len vb)) with (S (length vb)) by lia. unfold fast_key. cbn [drop]. apply drop_app_length.
  - pose proof key_data as Hd. apply (f_equal (drop (length (field_data v t) + Z.to_nat zz))) in Hd.
    rewrite drop_drop, app_assoc, drop_app_length' in Hd by (rewrite length_app, length_replicate; lia). rewrite <- Hd. f_equal. lia.
  - apply key_length.
  - rewrite Hw in Hw'. injection Hw' as <-. rewrite <- Hloop. f_equal. lia.
Qed.

(** The results of the fast routines are those of the order of the first field. *)
Definition order_ok (f : Z) (p : UnpackedRecord) : Prop := (f = 0 /\ r1 p = -1 /\ r2 p = 1) \/ (f = 1 /\ r1 p = 1 /\ r2 p = -1).

Lemma order_sgn f p null rc :
  order_ok f p -> (rc < 0 -> Z.sgn (r1 p) = Z.sgn (debug_order f null rc)) /\ (0 < rc -> Z.sgn (r2 p) = Z.sgn (debug_order f null rc)).
Proof.
  assert (E0 : debug_order 0 null rc = rc) by done. assert (E1 : debug_order 1 null rc = - rc) by done.
  intros [(-> & -> & ->)|(-> & -> & ->)]; rewrite ?E0, ?E1; split; intros H; lia.
Qed.

(** The outcome [x] agrees with the verdict of the values. *)
Definition agrees (x : option (Z * UnpackedRecord)) (w : verdict) (p : UnpackedRecord) : Prop :=
  exists rc, x = Some (rc, (conclude w p).2) /\ Z.sgn rc = Z.sgn (conclude w p).1.

Context (p : UnpackedRecord) (r : value) (rs : list value) (w : verdict) (f : Z) (oc : option CollSeq).
Context (Ea : aMem p = r :: rs) (Hr : Forall rhs_ok (r :: rs)) (Hkey : key_ok (pKeyInfo p) (length (aMem p))) (Hlen : (length rs <= length fs)%nat).
Context (Hoc : k_aColl (pKeyInfo p) !! 0%nat = Some oc) (Hfl : k_aSortFlags (pKeyInfo p) !! 0%nat = Some f) (Ho : order_ok f p).
Context (Hw : compare_values (pKeyInfo p) 0 (reads_as v :: ((reads_as ∘ fst) <$> fs)) (r :: rs) = Some w).

(** The first fields decide, or the rest of the fields does. *)
Lemma first_decides rc :
  sqlite3MemCompare true (k_enc (pKeyInfo p)) (reads_as v) r oc = Some rc ->
  (rc < 0 -> agrees (Some (r1 p, p)) w p) /\ (0 < rc -> agrees (Some (r2 p, p)) w p) /\ (rc = 0 -> agrees (compare_rest true nKey fast_key p) w p).
Proof.
  intros Hm. cbn [compare_values] in Hw. rewrite Hoc in Hw. cbn [mbind option_bind] in Hw. rewrite Hm, Hfl in Hw. cbn [mbind option_bind] in Hw.
  destruct (order_sgn f p (is_null (reads_as v) || is_null r) rc Ho) as [H1 H2]. split_and!; intros H.
  - rewrite (proj2 (Z.eqb_neq rc 0)) in Hw by lia. injection Hw as <-. exists (r1 p). split; [done|]. by apply H1.
  - rewrite (proj2 (Z.eqb_neq rc 0)) in Hw by lia. injection Hw as <-. exists (r2 p). split; [done|]. by apply H2.
  - rewrite H in Hw. cbn [Z.eqb] in Hw. apply Forall_cons_1 in Hr as [_ Hrs]. rewrite (compare_rest_ok p r rs w Ea Hrs Hkey Hlen Hw).
    exists (conclude w p).1. by destruct (conclude w p).
Qed.

Lemma fast_int_ok j :
  r = VInt j -> u_i p = j -> bytes_ok pad -> 8 <= len pad -> sqlite3VdbeRecordCompare true nKey fast_key p = Some (conclude w p) ->
  agrees (vdbeRecordCompareInt true nKey fast_key p) w p.
Proof.
  intros Er Hu Hpad Hpl Hgen. unfold vdbeRecordCompareInt. rewrite key_header. destruct key_first as (b & -> & Hs & Hb). cbn [mbind option_bind].
  pose proof (typed_kind _ _ _ Hty Hnc) as Hk. destruct (typed_range _ _ _ Hty) as [Ht Hz].
  assert (Hany : agrees (Some (conclude w p)) w p) by (exists (conclude w p).1; by destruct (conclude w p)).
  assert (Hint : (exists l, reads_as v = VInt l) \/ ~ exists l, reads_as v = VInt l) by (destruct (reads_as v); first [right; by intros [? ?]|left; by eexists]).
  destruct Hint as [[l El]|Hno].
  2:{ assert (Hb9 : b = 0 \/ b = 7 \/ 10 <= b).
    { destruct (reads_as v) as [| |l| |l|x|x|]; try done; destruct (decide (t < 128)) as [H|H]; try (specialize (Hs H)); try (specialize (Hb ltac:(lia))); try lia. destruct Hno. by exists l. }
    replace ((1 <=? b) && (b <=? 6)) with false by lia. replace ((b =? 8) || (b =? 9)) with false by lia. by rewrite Hgen. }
  rewrite El in Hk. destruct Hk as (Hi & Hd & Hzz & Ht9 & H7). rewrite Hs by lia.
  pose proof (first_decides (if l <? j then -1 else if j <? l then 1 else 0)) as Hdec. rewrite El, Er in Hdec. specialize (Hdec eq_refl) as (D1 & D2 & D3).
  assert (Hgo : agrees (if l <? u_i p then Some (r1 p, p) else if u_i p <? l then Some (r2 p, p) else compare_rest true nKey fast_key p) w p).
  { rewrite Hu. destruct (Z.ltb_spec l j); [by apply D1|]. destruct (Z.ltb_spec j l); [by apply D2|]. by apply D3. }
  destruct ((1 <=? t) && (t <=? 6)) eqn:E6.
  - replace (Z.land T 0x3F) with T by (change 0x3F with (Z.ones 6); rewrite Z.land_ones, Z.mod_small by lia; done). rewrite key_data, Hd.
    destruct (shift_read l t (replicate (Z.to_nat zz) 0 ++ full_data fs ++ pad) Hi) as (x & s & Hx & Hsh & Hv'); [lia| | |].
    + apply Forall_app. split; [apply zeros_ok|]. apply Forall_app. split; [by eapply full_data_ok|done].
    + rewrite !length_app. lia.
    + rewrite Hx, Hsh. cbn [mbind option_bind]. by rewrite Hv'.
  - assert (H89 : t = 8 \/ t = 9) by lia. replace ((t =? 8) || (t =? 9)) with true by lia. destruct Hi as [[_ Ei]|(w' & Hw' & _)]; [|apply int_width_range in Hw'; lia].
    replace (t - 8) with l by lia. exact Hgo.
Qed.

Lemma fast_string_ok s :
  r = VStr s -> u_z p = s -> nKey <= SQLITE_MAX_LENGTH ->
  match oc with Some c => c_binary c = true /\ c_enc c = k_enc (pKeyInfo p) | None => True end ->
  agrees (vdbeRecordCompareString true nKey fast_key p) w p.
Proof.
  unfold SQLITE_MAX_LENGTH. intros Er Hu Hmax Hbin. unfold vdbeRecordCompareString. destruct key_first as (b & Eb & Hs & Hb). pose proof (key_first_range b Eb) as Hbyte. rewrite Eb. cbn [mbind option_bind].
  pose proof (typed_kind _ _ _ Hty Hnc) as Hk. destruct (typed_range _ _ _ Hty) as [Ht Hz]. pose proof (typed_len _ _ _ Hty) as Htl.
  assert (Ht31 : t < 2 ^ 31) by (destruct (decide (t < 12)); [lia|]; rewrite type_len_text in Htl by lia; injection Htl as Htl; Z.div_mod_to_equations; lia).
  assert (Est : (if i8 b <? 0 then let? (s, _) := sqlite3GetVarint32 (drop 1 fast_key) in Some (i32 s) else Some (i8 b)) = Some t).
  { unfold is_byte in Hbyte. unfold i8. destruct (decide (t < 128)) as [Hlt|Hge].
    - rewrite (Hs Hlt). rewrite Z.mod_small by lia. rewrite (proj2 (Z.ltb_ge _ 0)) by lia. f_equal. lia.
    - specialize (Hb ltac:(lia)). replace ((b + 128) mod 256) with (b - 128) by (apply Z.mod_unique_pos with 1; lia). rewrite (proj2 (Z.ltb_lt _ 0)) by lia.
      rewrite key_types, (long_varint_read vb t); [|done|lia]. cbn [mbind option_bind]. f_equal. apply i32_small. lia. }
  rewrite Est. cbn [mbind option_bind]. clear b Eb Hs Hb Hbyte Est. pose proof first_decides as Hdec. rewrite Er in Hdec.
  assert (H0T : 0 <= T) by lia. assert (HTn : T + len (field_data v t) + zz <= nKey < 2 ^ 31) by lia.
  pose proof (field_bytes fast_key nKey T _ v t zz Hty Hnc H0T key_data HTn key_length) as Hfb.
  destruct (reads_as v) as [| |l| |l|x|x|] eqn:El; try done; cbn [content] in *.
  - rewrite (proj2 (Z.ltb_lt t 12)) by lia. by apply (Hdec (-1)).
  - rewrite (proj2 (Z.ltb_lt t 12)) by lia. by apply (Hdec (-1)).
  - rewrite (proj2 (Z.ltb_lt t 12)) by lia. by apply (Hdec (-1)).
  - destruct Hk as (H12 & H1 & _). rewrite (proj2 (Z.ltb_ge t 12)) by lia. rewrite H1, key_header. change (1 =? 0) with false. cbn iota. cbn [mbind option_bind].
    destruct (Hfb H12) as (Hrd & Hfit & Hn). unfold u32 in Hfit. rewrite Z.mod_small in Hfit by (pose proof key_length; Z.div_mod_to_equations; lia).
    rewrite (proj2 (Z.ltb_ge nKey _)) by lia. rewrite Hrd, Hu, Hn, Nat2Z.id, Nat.min_comm. cbn [mbind option_bind].
    assert (Hcb : forall rc, compare_bytes x s = Some rc -> sqlite3MemCompare true (k_enc (pKeyInfo p)) (VStr x) (VStr s) oc = Some rc).
    { intros rc Hrc. cbn [sqlite3MemCompare]. destruct oc as [c|]; [|exact Hrc]. destruct Hbin as [Hb1 Hb2]. unfold vdbeCompareMemString.
      rewrite bool_decide_eq_true_2 by done. unfold xCmp. rewrite Hb1. unfold sqlite3BinaryCompare. by rewrite Hrc. }
    unfold compare_bytes in Hcb. destruct (memcmp_total (Nat.min (length x) (length s)) x s) as [m Hm]; [lia|lia|]. rewrite Hm in Hcb |- *. cbn [mbind option_bind] in *.
    destruct (Hdec _ (Hcb _ eq_refl)) as (D1 & D2 & D3). destruct (Z.ltb_spec 0 m); [apply D2; case_match; lia|]. destruct (Z.ltb_spec m 0); [apply D1; case_match; lia|].
    replace m with 0 in * by lia. cbn [Z.eqb] in D1, D2, D3. destruct (Z.eqb_spec (len x - len s) 0) as [E|E]; [by apply D3|].
    destruct (Z.ltb_spec 0 (len x - len s)); [by apply D2|]. apply D1. lia.
  - destruct Hk as (H12 & H0). rewrite (proj2 (Z.ltb_ge t 12)) by lia. rewrite H0. by apply (Hdec 1).
Qed.

End Fast.

Lemma fast_parts z nZero vs pad :
  record_of z nZero vs -> VNoChange ∉ vs -> vs <> [] -> len vs <= 13 ->
  exists T vb vbs v t zz fs nHdr nData nz,
    typed v t zz /\ is_varint vb t /\ v <> VNoChange /\ layout fs nHdr nData nz /\ Forall2 (fun vb f => is_varint vb f.2) vbs fs /\
    Forall (fun f => f.1 <> VNoChange) fs /\ T = 1 + len vb + len (concat vbs) /\ T < 128 /\ (t < 128 -> T <= 62) /\
    len z + nZero = T + len (field_data v t) + zz + len (full_data fs) /\ len z + nZero < 2 ^ 31 /\
    stored <$> vs = reads_as v :: ((reads_as ∘ fst) <$> fs) /\ z ++ replicate (Z.to_nat nZero) 0 ++ pad = fast_key T vb vbs v t zz fs pad.
Proof.
  intros Hrec Hnc Hne H13. destruct (record_parts z nZero vs pad Hrec Hnc) as (hb & vbs & fs & nHdr & nData & Hl & Hv & Hf & Hm & Hhb & E & Hlen & Hsz & Hnz).
  pose proof (types_short _ _ _ _ _ Hl Hv) as Hts. assert (Hlf : length fs = length vs) by (rewrite <- (length_fmap stored vs), <- Hm; by rewrite length_fmap).
  pose proof (varint_five hb _ Hhb ltac:(lia)) as Hh5. destruct (varint_first hb _ Hhb ltac:(lia)) as (b & r & Eb & H1 & _). destruct (H1 ltac:(lia)) as [Hb Hr].
  subst r. rewrite Eb in *. cbn [length] in *. clear H1 Eb.
  destruct Hl as [|v t zz n fs nHdr nData nz Ht Hn Hz Hl]; [by destruct vs|]. apply Forall2_cons_inv_r in Hv as (vb & vbs' & Hvb & Hvs & ->). apply Forall_cons_1 in Hf as [Hv0 Hf].
  cbn [fst snd] in *. rewrite (full_data_cons _ _ _ _ Ht) in E, Hlen. rewrite !length_app, length_replicate in Hlen. cbn [concat] in *. rewrite length_app in *.
  destruct (typed_range _ _ _ Ht) as [Htr Hz0]. pose proof (types_short _ _ _ _ _ Hl Hvs) as Hts'. cbn [length] in *.
  exists b, vb, vbs', v, t, zz, fs, nHdr, nData, nz. split_and!; try done; try lia.
  - intros H. destruct (varint_first vb t Hvb ltac:(lia)) as (b' & r' & Eb' & H1 & _). destruct (H1 H) as [_ ->]. rewrite Eb' in *. cbn [length] in *. lia.
  - rewrite E. unfold fast_key. cbn [app]. by rewrite <- !app_assoc.
Qed.

(** ** Claims *)

(** A record that [OP_MakeRecord] has written for the values [vs]. *)
Definition written (vs : list value) (z : bytes) (nZero : Z) : Prop :=
  Forall value_ok vs /\ VNoChange ∉ vs /\ vs <> [] /\ len vs <= 32767 /\
  exists ff limit ex zMalloc resize, limit < 2 ^ 31 /\ len zMalloc < 2 ^ 31 /\ (forall n b, resize n = Some b -> n <= len b) /\
    make_record ff limit ex zMalloc resize vs = Some (rec_done z nZero).

(** The right key: the flags and the collating sequences cover its fields. *)
Definition right_key (p : UnpackedRecord) : Prop := Forall rhs_ok (aMem p) /\ aMem p <> [] /\ key_ok (pKeyInfo p) (length (aMem p)).

Lemma written_record vs z nZero : written vs z nZero -> record_of z nZero vs.
Proof.
  intros (Hvs & _ & _ & Hlen & ff & limit & ex & zMalloc & resize & Hlim & Hz & Hres & Hmk).
  destruct (make_record_ok ff limit ex zMalloc resize vs Hvs Hlen Hlim Hz Hres) as (out & E & H). rewrite Hmk in E. by injection E as <-.
Qed.


(** What [sqlite3VdbeFindCompare] chooses, and that the choice is prepared. *)
Lemma find_compare_ok p r rs :
  aMem p = r :: rs -> key_ok (pKeyInfo p) (length (aMem p)) ->
  Forall (fun oc => match oc with Some c => c_binary c = true -> c_enc c = k_enc (pKeyInfo p) | None => True end) (k_aColl (pKeyInfo p)) ->
  exists fn q, sqlite3VdbeFindCompare p = Some (fn, q) /\ pKeyInfo q = pKeyInfo p /\ aMem q = r :: rs /\
    match fn with
    | cmp_any => True
    | _ => k_nAllField (pKeyInfo p) <= 13 /\ exists f oc, k_aSortFlags (pKeyInfo p) !! 0%nat = Some f /\ k_aColl (pKeyInfo p) !! 0%nat = Some oc /\ order_ok f q /\
        match fn with
        | cmp_int => exists j, r = VInt j /\ u_i q = j
        | _ => exists s, r = VStr s /\ u_z q = s /\ match oc with Some c => c_binary c = true /\ c_enc c = k_enc (pKeyInfo p) | None => True end
        end
    end.
Proof.
  intros Ea [_ Hc Hs Hfl] Hbin. unfold sqlite3VdbeFindCompare. rewrite Ea in *. cbn [length] in *. destruct (Z.ltb_spec 13 (k_nAllField (pKeyInfo p))) as [|H13]; [by exists cmp_any, p|].
  destruct (k_aSortFlags (pKeyInfo p)) as [|f fl] eqn:Ef; [cbn in Hs; lia|]. destruct (k_aColl (pKeyInfo p)) as [|oc cl] eqn:Ec; [cbn in Hc; lia|]. cbn [head mbind option_bind lookup list_lookup].
  apply Forall_inv in Hfl. apply Forall_inv in Hbin. unfold KEYINFO_ORDER_BIGNULL.
  destruct (negb (f =? 0) && negb (Z.land f 2 =? 0)) eqn:Eb; [by exists cmp_any, p|].
  assert (Hf01 : f = 0 \/ f = 1) by (assert (H : f = 0 \/ f = 1 \/ f = 2 \/ f = 3) by lia; destruct H as [-> |[-> |[-> | ->]]]; auto; discriminate Eb). clear Eb.
  assert (Hord : forall i z, order_ok f (set_cache (if negb (f =? 0) then 1 else -1) (if negb (f =? 0) then -1 else 1) i z p)) by (intros i z; destruct Hf01 as [-> | ->]; [left|right]; done).
  replace (if negb (f =? 0) then (1, -1) else (-1, 1)) with (if negb (f =? 0) then 1 else -1, if negb (f =? 0) then -1 else 1) by (by case_match).
  destruct r as [| |j|j|x|s|s|s m]; try (eexists cmp_any, _; done).
  - eexists cmp_int, _. do 2 (split; [reflexivity|]). split; [exact Ea|]. split; [done|]. exists f, oc. do 2 (split; [done|]). split; [apply Hord|]. by exists j.
  - destruct (sqlite3IsBinary oc) eqn:Eb; [|eexists cmp_any, _; done]. eexists cmp_string, _. do 2 (split; [reflexivity|]). split; [exact Ea|]. split; [done|]. exists f, oc. do 2 (split; [done|]).
    split; [apply Hord|]. exists s. do 2 (split; [done|]). destruct oc as [c|]; [|done]. cbn [sqlite3IsBinary] in Eb. split; [done|]. by apply Hbin.
Qed.

(** C18: the fast routines. For a record of the index of the key, of at least as many fields as
    the key has and with the padding behind it that the page cache guarantees, the routine that
    [sqlite3VdbeFindCompare] chooses returns a result with the sign that the comparison of the
    values has, and leaves the unpacked record as the general routine does: it sets no error,
    and sets [eqSeen] when all fields are equal. *)
Theorem fast_compare_exact vs z nZero pad p :
  written vs z nZero -> right_key p -> (length (aMem p) <= length vs)%nat -> len vs <= k_nAllField (pKeyInfo p) ->
  len z + nZero <= SQLITE_MAX_LENGTH -> bytes_ok pad -> 8 <= len pad ->
  Forall (fun oc => match oc with Some c => c_binary c = true -> c_enc c = k_enc (pKeyInfo p) | None => True end) (k_aColl (pKeyInfo p)) ->
  exists fn q w, sqlite3VdbeFindCompare p = Some (fn, q) /\ compare_values (pKeyInfo p) 0 (stored <$> vs) (aMem p) = Some w /\
    agrees (run_compare fn true (len z + nZero) (z ++ replicate (Z.to_nat nZero) 0 ++ pad) q) w q.
Proof.
  intros Hw (Hr & Hne & Hkey) Hle Hall Hmax Hpad Hp8 Hbin. pose proof (written_record _ _ _ Hw) as Hrec. destruct Hw as (_ & Hnc & Hvne & _).
  destruct (aMem p) as [|r rs] eqn:Ea; [done|]. rewrite <- Ea in Hkey. destruct (find_compare_ok p r rs Ea Hkey Hbin) as (fn & q & Hfind & Ek & Eq & Hfn).
  rewrite <- Ek, Ea, <- Eq in Hkey. rewrite <- Eq in Hr, Hne.
  destruct (record_compare_ok z nZero vs pad q Hrec Hnc Hvne Hr Hne Hkey) as (w & Hcv & Hgen). rewrite Ek, Eq in Hcv. exists fn, q, w. split; [done|]. split; [done|].
  destruct (decide (fn = cmp_any)) as [->|Hfa].
  { cbn [run_compare]. rewrite Hgen. exists (conclude w q).1. by destruct (conclude w q). }
  assert (Hfn' : k_nAllField (pKeyInfo p) <= 13) by (by destruct fn, Hfn).
  destruct (fast_parts z nZero vs pad Hrec Hnc Hvne ltac:(lia)) as (T & vb & vbs & v & t & zz & fs & nHdr & nData & nz & Hty & Hvb & Hv0 & Hl & Hv & Hf & HT & HT127 & HT62 & Hsz & H31 & Est & Ekey).
  rewrite Ekey in *. rewrite Est, <- Ek in Hcv. rewrite Eq in Hr. assert (Hlf : (length rs <= length fs)%nat).
  { cbn [length] in Hle. rewrite <- (length_fmap stored vs), Est in Hle. cbn [length] in Hle. rewrite length_fmap in Hle. lia. }
  destruct fn; [done| |]; destruct Hfn as (_ & f & oc & Hfl & Hoc & Ho & Hx); rewrite <- Ek in Hfl, Hoc; cbn [run_compare].
  - destruct Hx as (j & Ej & Hu). by eapply (fast_int_ok T vb vbs v t zz fs nHdr nData nz pad (len z + nZero)).
  - destruct Hx as (s & Es & Hu & Hb). rewrite <- Ek in Hb. by eapply (fast_string_ok T vb vbs v t zz fs nHdr nData nz pad (len z + nZero)).
Qed.

(** ** Witnesses *)

Definition demo_coll : CollSeq := {| c_enc := Utf.SQLITE_UTF8; c_binary := true; c_user := fun _ _ => 0 |}.
Definition demo_key (flag : Z) : KeyInfo :=
  {| k_enc := Utf.SQLITE_UTF8; k_nAllField := 3; k_aSortFlags := [flag; KEYINFO_ORDER_DESC; 0]; k_aColl := [Some demo_coll; Some demo_coll; None] |}.
Definition demo_right (flag : Z) (vs : list value) : UnpackedRecord :=
  {| pKeyInfo := demo_key flag; aMem := vs; u_i := 0; u_z := []; default_rc := 0; errCode := 0; r1 := 0; r2 := 0; eqSeen := false |}.

Definition demo_left : list value := [VInt 300; VStr [97; 98]; VReal 0x4008000000000000].
Definition demo_left_record : bytes := [4; 2; 17; 7; 1; 44; 97; 98; 64; 8; 0; 0; 0; 0; 0; 0].

Example demo_int_equal : vdbeRecordCompareInt true 16 (demo_left_record ++ replicate 8 1) (set_cache (-1) 1 300 [] (demo_right 0 [VInt 300; VStr [97; 99]])) =
  Some (1, set_cache (-1) 1 300 [] (demo_right 0 [VInt 300; VStr [97; 99]])).
Proof. vm_compute. reflexivity. Qed.

(** A record of one field and a key of two: the general routine reports corruption, and the
    fast one takes a byte of the data for the type of the second field. *)
Example demo_short :
  sqlite3VdbeRecordCompare true 3 ([2; 1; 5] ++ replicate 8 1) (demo_right 0 [VInt 5; VInt 7]) = Some (0, set_errCode SQLITE_CORRUPT (demo_right 0 [VInt 5; VInt 7])) /\
  option_map fst (vdbeRecordCompareInt true 3 ([2; 1; 5] ++ replicate 8 1) (set_cache (-1) 1 5 [] (demo_right 0 [VInt 5; VInt 7]))) = Some (-1) /\
  option_map (errCode ∘ snd) (vdbeRecordCompareInt true 3 ([2; 1; 5] ++ replicate 8 1) (set_cache (-1) 1 5 [] (demo_right 0 [VInt 5; VInt 7]))) = Some 0.
Proof. vm_compute. split_and!; reflexivity. Qed.

Lemma demo_left_written : written demo_left demo_left_record 0.
Proof.
  split; [repeat constructor; unfold is_i64; try lia; done|]. split; [apply (bool_decide_unpack _); vm_compute; exact I|]. split; [done|]. split; [vm_compute; congruence|].
  exists 4, 1000, true, [], demo_resize. split; [lia|]. split; [cbn; lia|]. split; [|vm_compute; reflexivity].
  intros n b [= <-]. rewrite length_replicate. lia.
Qed.

Lemma demo_right_ok f vs : 0 <= f <= 3 -> (1 <= length vs <= 3)%nat -> Forall rhs_ok vs -> right_key (demo_right f vs).
Proof.
  intros Hf Hl Hv. split; [exact Hv|]. split; [cbn; intros ->; cbn in Hl; lia|]. split; cbn -[Z.of_nat]; [lia|lia|lia|]. repeat constructor; unfold KEYINFO_ORDER_DESC; lia.
Qed.


Lemma fast_compare_exact_witness :
  exists fn q w, sqlite3VdbeFindCompare (demo_right 1 [VInt 300; VStr [97; 98]]) = Some (fn, q) /\
    compare_values (demo_key 1) 0 (stored <$> demo_left) [VInt 300; VStr [97; 98]] = Some w /\
    agrees (run_compare fn true 16 (demo_left_record ++ replicate (Z.to_nat 0) 0 ++ replicate 8 7) q) w q.
Proof.
  apply (fast_compare_exact demo_left demo_left_record 0 (replicate 8 7) (demo_right 1 [VInt 300; VStr [97; 98]])); [apply demo_left_written| | | | | | |].
  - apply demo_right_ok; [lia|cbn; lia|]. repeat constructor; unfold is_i64; try lia; done.
  - cbn. lia.
  - cbn. lia.
  - vm_compute. congruence.
  - repeat constructor; unfold is_byte; lia.
  - cbn. lia.
  - repeat constructor.
Defined.

End RecordCompare.
