(* ===== verification/MemOrder.v ===== *)
(** * The order of values (src/vdbeaux.c)

    [sqlite3MemCompare] of RecCmp.v orders the values of SQL: NULL, numbers, texts, blobs, with
    the numbers compared by their mathematical values, whether they are integers or doubles, and
    the texts by the collating sequence. The file shows that this is an order, which a B-tree and
    the sorter rely on, as soon as the collating sequence of the application is one. *)

From stdpp Require Import list.
From S2P Require Import Prelude CipherUtil Varint Utf Double Record RecCmp.
Import Double.Doubles Record.Records RecCmp.RecordCompare.
Local Open Scope Z_scope.

Module ValueOrder.

(** ** Orders *)

(** The sign of [f] is that of a total preorder on the elements with [P]. *)
Record is_order {A} (P : A -> Prop) (f : A -> A -> Z) : Prop := {
  order_sym x y : P x -> P y -> Z.sgn (f x y) = - Z.sgn (f y x);
  order_trans x y z : P x -> P y -> P z -> f x y <= 0 -> f y z <= 0 -> f x z <= 0
}.

Lemma sgn_nonpos a b : Z.sgn a = Z.sgn b -> a <= 0 -> b <= 0.
Proof. lia. Qed.

(** An order along a function. *)
Lemma order_image {A B} (P : A -> Prop) (Q : B -> Prop) (g : A -> B) (f : B -> B -> Z) (h : A -> A -> Z) :
  is_order Q f -> (forall x, P x -> Q (g x)) -> (forall x y, P x -> P y -> Z.sgn (h x y) = Z.sgn (f (g x) (g y))) -> is_order P h.
Proof.
  intros [Hs Ht] HQ E. split.
  - intros x y Hx Hy. rewrite (E x y Hx Hy), (E y x Hy Hx). apply Hs; by apply HQ.
  - intros x y z Hx Hy Hz H1 H2. apply (sgn_nonpos (f (g x) (g z))); [by rewrite E|].
    apply (Ht _ (g y)); [by apply HQ|by apply HQ|by apply HQ| |].
    + apply (sgn_nonpos (h x y)); [by apply E|done].
    + apply (sgn_nonpos (h y z)); [by apply E|done].
Qed.

Lemma order_Z : is_order (fun _ : Z => True) Z.sub.
Proof. split; intros; lia. Qed.

(** Elements of several classes, each with its own order. *)
Lemma order_classes {A} (P : A -> Prop) (class : A -> Z) (h : A -> A -> Z) :
  (forall x y, P x -> P y -> class x < class y -> h x y < 0 /\ 0 < h y x) ->
  (forall k, is_order (fun x => P x /\ class x = k) h) -> is_order P h.
Proof.
  intros Hc Ho. split.
  - intros x y Hx Hy. destruct (Z.lt_trichotomy (class x) (class y)) as [H|[H|H]].
    + destruct (Hc x y Hx Hy H). lia.
    + by apply (order_sym _ _ (Ho (class y))).
    + destruct (Hc y x Hy Hx H). lia.
  - intros x y z Hx Hy Hz H1 H2. assert (Hle : forall u v, P u -> P v -> h u v <= 0 -> class u <= class v).
    { intros u v Hu Hv H. destruct (Z.le_gt_cases (class u) (class v)) as [|Hgt]; [done|]. destruct (Hc v u Hv Hu Hgt). lia. }
    pose proof (Hle _ _ Hx Hy H1). pose proof (Hle _ _ Hy Hz H2). destruct (Z.eq_dec (class x) (class z)) as [E|E].
    + apply (order_trans _ _ (Ho (class z)) x y z); (split; [done|lia]) || done.
    + destruct (Hc x z Hx Hz ltac:(lia)). lia.
Qed.

(** ** Bytes *)

Fixpoint lex (a b : bytes) : Z :=
  match a, b with
  | [], [] => 0
  | [], _ => -1
  | _, [] => 1
  | x :: a, y :: b => if x <? y then -1 else if y <? x then 1 else lex a b
  end.

Lemma order_lex : is_order (fun _ : bytes => True) lex.
Proof.
  split.
  - intros x y _ _. revert y. induction x as [|a x IH]; intros [|b y]; try done. cbn [lex].
    destruct (Z.ltb_spec a b), (Z.ltb_spec b a); try lia. by apply IH.
  - intros x y z _ _ _. revert y z. induction x as [|a x IH]; intros [|b y] [|c z]; cbn [lex]; try lia.
    destruct (Z.ltb_spec a b), (Z.ltb_spec b a), (Z.ltb_spec b c), (Z.ltb_spec c b), (Z.ltb_spec a c), (Z.ltb_spec c a); try lia. apply IH.
Qed.

Lemma lex_sgn a b : Z.sgn (lex a b) = lex a b.
Proof. revert b. induction a as [|x a IH]; intros [|y b]; try done. cbn [lex]. destruct (x <? y); [done|]. destruct (y <? x); [done|]. apply IH. Qed.

Lemma compare_bytes_lex a b : exists rc, compare_bytes a b = Some rc /\ Z.sgn rc = lex a b.
Proof.
  unfold compare_bytes. revert b. induction a as [|x a IH]; intros [|y b].
  - by exists 0.
  - eexists. split; [reflexivity|]. cbn -[Z.sgn]. lia.
  - eexists. split; [reflexivity|]. cbn -[Z.sgn]. lia.
  - cbn [length Nat.min memcmp lex]. destruct (Z.ltb_spec x y); [by eexists|]. destruct (Z.ltb_spec y x); [by eexists|].
    destruct (IH b) as (rc & E & Hrc). exists rc. split; [|done]. rewrite <- E. destruct (memcmp _ a b) as [r|]; [|done]. cbn [mbind option_bind]. f_equal. case_match; lia.
Qed.

(** A blob of zero bytes. *)
Lemma lex_zeros n b : bytes_ok b -> Z.sgn (if negb (isAllZero b) then -1 else Z.of_nat n - len b) = lex (replicate n 0) b.
Proof.
  intros Hb. revert n. induction Hb as [|y b Hy Hb IH]; intros [|n]; cbn [replicate lex].
  - done.
  - cbn [isAllZero forallb negb length]. lia.
  - cbn [length]. destruct (negb (isAllZero (y :: b))); lia.
  - unfold is_byte in Hy. destruct (Z.ltb_spec 0 y) as [H|H].
    + unfold isAllZero. cbn [forallb]. rewrite (proj2 (Z.eqb_neq 0 y)) by lia. done.
    + replace y with 0 by lia. cbn [Z.ltb Z.compare]. rewrite <- IH. unfold isAllZero. cbn [forallb Z.eqb andb length]. destruct (forallb (Z.eqb 0) b); cbn [negb]; [f_equal; lia|done].
Qed.

Lemma lex_zeros_2 n m : Z.sgn (Z.of_nat n - Z.of_nat m) = lex (replicate n 0) (replicate m 0).
Proof.
  rewrite <- (lex_zeros n (replicate m 0)) by apply zeros_ok. replace (isAllZero (replicate m 0)) with true; [cbn [negb]; by rewrite length_replicate|].
  clear. by induction m.
Qed.

(** ** Classes of values *)

Definition class (v : value) : Z :=
  match v with VNull | VNoChange => 0 | VInt _ | VIntReal _ | VReal _ => 1 | VStr _ => 2 | VBlob _ | VZero _ _ => 3 end.

(** A number, in units of the smallest double. *)
Definition number (v : value) : Z := match v with VInt i | VIntReal i => i * 2 ^ 1074 | VReal r => scaled r | _ => 0 end.

(** The bytes of a blob, with its zero bytes. *)
Definition blob (v : value) : bytes := match v with VZero _ n => replicate (Z.to_nat n) 0 | v => content v end.

(** The text that a collating sequence is given. *)
Definition coll_text (e e' : Utf.enc) (z : bytes) : bytes :=
  if bool_decide (e = e') then z else match value_text_enc true e e' z with Some (Some t) => t | _ => [] end.

(** The function of a collating sequence is an order. *)
Definition lawful (oc : option CollSeq) : Prop :=
  match oc with Some c => c_binary c = false -> is_order (fun _ => True) (c_user c) | None => True end.

Lemma xCmp_order c : lawful (Some c) -> exists f, is_order (fun _ : bytes => True) f /\ forall a b, xCmp c a b = Some (f a b).
Proof.
  intros Hc. unfold xCmp. destruct (c_binary c) eqn:E; [|exists (c_user c); split; [by apply Hc|done]].
  exists (fun a b => default 0 (compare_bytes a b)). split.
  - apply (order_image _ (fun _ => True) (fun x => x) lex); [apply order_lex|done|]. intros x y _ _. destruct (compare_bytes_lex x y) as (rc & -> & <-). cbn. by rewrite Z.sgn_sgn.
  - intros a b. unfold sqlite3BinaryCompare. by destruct (compare_bytes_lex a b) as (rc & -> & _).
Qed.

Lemma string_compare_eq e x y c :
  rhs_ok (VStr x) -> rhs_ok (VStr y) ->
  vdbeCompareMemString true e x y c = (let? rc := xCmp c (coll_text e (c_enc c) x) (coll_text e (c_enc c) y) in Some (rc, false)).
Proof.
  intros [[Hx Hlx] _] [[Hy Hly] _]. unfold vdbeCompareMemString, vdbeCompareMemStringWithEncodingChange, coll_text. case_bool_decide as He; [done|].
  destruct (text_enc_total e (c_enc c) x He Hx Hlx) as [t1 ->]. by destruct (text_enc_total e (c_enc c) y He Hy Hly) as [t2 ->].
Qed.

Lemma blob_compare_eq a b :
  rhs_ok a -> rhs_ok b -> class a = 3 -> class b = 3 -> exists rc, sqlite3BlobCompare a b = Some rc /\ Z.sgn rc = lex (blob a) (blob b).
Proof.
  intros [Ha Za] [Hb Zb] Ca Cb. destruct a as [| | | | | |x|x n]; try done; destruct b as [| | | | | |y|y m]; try done; cbn [value_ok] in *; subst; unfold sqlite3BlobCompare; cbn [nzero content blob].
  - cbn [orb]. apply compare_bytes_lex.
  - cbn [orb length]. change (negb (Z.of_nat 0 =? 0)) with false. cbn iota. eexists. split; [reflexivity|].
    pose proof (order_sym _ _ order_lex (replicate (Z.to_nat m) 0) x I I) as Hs. rewrite !lex_sgn in Hs. pose proof (lex_zeros (Z.to_nat m) x ltac:(apply Ha)) as Hz.
    replace (Z.of_nat (Z.to_nat m)) with m in Hz by lia. destruct (isAllZero x); cbn [negb] in *; lia.
  - cbn [orb length]. change (negb (Z.of_nat 0 =? 0)) with false. cbn [orb]. eexists. split; [reflexivity|].
    rewrite <- lex_zeros by apply Hb. replace (Z.of_nat (Z.to_nat n)) with n by lia. done.
  - cbn [orb length]. change (negb (Z.of_nat 0 =? 0)) with false. cbn [orb]. eexists. split; [reflexivity|]. rewrite <- lex_zeros_2. f_equal. lia.
Qed.

Lemma cmpz_scale i j u : 0 < u -> cmpz (i * u) (j * u) = cmpz i j.
Proof. intros Hu. unfold cmpz. destruct (Z.ltb_spec (i * u) (j * u)), (Z.ltb_spec i j), (Z.ltb_spec (j * u) (i * u)), (Z.ltb_spec j i); nia. Qed.

Lemma cmpz_opp x y : - cmpz x y = cmpz y x.
Proof. unfold cmpz. destruct (Z.ltb_spec x y), (Z.ltb_spec y x); lia. Qed.

(** Numbers are compared by their values. *)
Lemma number_compare e oc a b :
  rhs_ok a -> rhs_ok b -> class a = 1 -> class b = 1 -> sqlite3MemCompare true e a b oc = Some (cmpz (number a) (number b)).
Proof.
  intros [Ha _] [Hb _] Ca Cb. assert (HU : 0 < 2 ^ 1074) by (apply Z.pow_pos_nonneg; lia).
  assert (Hii : forall i j, Some (cmpz i j) = Some (cmpz (i * 2 ^ 1074) (j * 2 ^ 1074))) by (intros i j; by rewrite cmpz_scale).
  assert (Hir : forall i r, is_i64 i -> value_ok (VReal r) -> sqlite3IntFloatCompare i r = cmpz (i * 2 ^ 1074) (scaled r)) by (intros i r Hi [_ Hr]; by apply int_float_exact).
  destruct a as [| |i|i|r| | |]; try done; destruct b as [| |j|j|s| | |]; try done; cbn [sqlite3MemCompare number].
  - exact (Hii i j).
  - exact (Hii i j).
  - by rewrite (Hir i s Ha Hb).
  - exact (Hii i j).
  - exact (Hii i j).
  - by rewrite (Hir i s Ha Hb).
  - by rewrite (Hir j r Hb Ha), cmpz_opp.
  - by rewrite (Hir j r Hb Ha), cmpz_opp.
  - destruct Ha as [_ Na], Hb as [_ Nb]. unfold d_lt. rewrite Na, Nb. done.
Qed.

Definition mem_cmp (e : Utf.enc) (oc : option CollSeq) (a b : value) : Z := default 0 (sqlite3MemCompare true e a b oc).

Section Order.
Context (e : Utf.enc) (oc : option CollSeq) (Hlaw : lawful oc).

(** Values of different classes. *)
Lemma class_compare a b : class a < class b -> sqlite3MemCompare true e a b oc = Some (-1) /\ sqlite3MemCompare true e b a oc = Some 1.
Proof. destruct a, b; cbn [class]; intros H; (lia || by split). Qed.

(** Texts. *)
Lemma text_order :
  exists f, is_order (fun _ : bytes => True) f /\
    forall x y, rhs_ok (VStr x) -> rhs_ok (VStr y) -> exists rc, sqlite3MemCompare true e (VStr x) (VStr y) oc = Some rc /\ Z.sgn rc = Z.sgn (f x y).
Proof.
  destruct oc as [c|].
  - destruct (xCmp_order c Hlaw) as (f & Hf & E). exists (fun x y => f (coll_text e (c_enc c) x) (coll_text e (c_enc c) y)). split.
    + by apply (order_image _ (fun _ => True) (coll_text e (c_enc c)) f).
    + intros x y Hx Hy. cbn [sqlite3MemCompare]. rewrite string_compare_eq, E by done. by eexists.
  - exists lex. split; [apply order_lex|]. intros x y _ _. cbn [sqlite3MemCompare]. unfold sqlite3BlobCompare. cbn [orb nzero content].
    destruct (compare_bytes_lex x y) as (rc & E & H). exists rc. by rewrite lex_sgn.
Qed.

(** Each class has its order. *)
Lemma class_order k : is_order (fun v => rhs_ok v /\ class v = k) (mem_cmp e oc) /\
  forall a b, rhs_ok a -> rhs_ok b -> class a = k -> class b = k -> is_Some (sqlite3MemCompare true e a b oc).
Proof.
  destruct (decide (k = 0)) as [->|H0]; [|destruct (decide (k = 1)) as [->|H1]; [|destruct (decide (k = 2)) as [->|H2]; [|destruct (decide (k = 3)) as [->|H3]]]].
  - assert (E : forall a b, class a = 0 -> class b = 0 -> sqlite3MemCompare true e a b oc = Some 0) by (intros [] []; done). split.
    + apply (order_image _ (fun _ => True) (fun _ => 0) Z.sub); [apply order_Z|done|]. intros x y [_ Hx] [_ Hy]. unfold mem_cmp. by rewrite E.
    + intros a b _ _ Ha Hb. rewrite E by done. by eexists.
  - split.
    + apply (order_image _ (fun _ => True) number Z.sub); [apply order_Z|done|]. intros x y [Px Hx] [Py Hy]. unfold mem_cmp. rewrite number_compare by done. cbn [default from_option]. unfold cmpz, default. cbn.
      destruct (Z.ltb_spec (number x) (number y)), (Z.ltb_spec (number y) (number x)); lia.
    + intros a b Pa Pb Ha Hb. rewrite number_compare by done. by eexists.
  - destruct text_order as (f & Hf & Hrc). split.
    + apply (order_image _ (fun _ => True) content f); [exact Hf|done|]. intros x y [Px Hx] [Py Hy]. destruct x as [| | | | |x| |]; try done. destruct y as [| | | | |y| |]; try done.
      unfold mem_cmp. by destruct (Hrc x y Px Py) as (rc & -> & H).
    + intros a b Pa Pb Ha Hb. destruct a as [| | | | |x| |]; try done. destruct b as [| | | | |y| |]; try done. destruct (Hrc x y Pa Pb) as (rc & -> & _). by eexists.
  - assert (E : forall a b, class a = 3 -> class b = 3 -> sqlite3MemCompare true e a b oc = sqlite3BlobCompare a b) by (intros [] []; done). split.
    + apply (order_image _ (fun _ => True) blob lex); [apply order_lex|done|]. intros x y [Px Hx] [Py Hy]. unfold mem_cmp. rewrite E by done.
      destruct (blob_compare_eq x y Px Py Hx Hy) as (rc & -> & H). cbn. by rewrite H, lex_sgn.
    + intros a b Pa Pb Ha Hb. rewrite E by done. destruct (blob_compare_eq a b Pa Pb Ha Hb) as (rc & -> & _). by eexists.
  - assert (Hk : forall v, class v <> k) by (intros []; cbn; done). split; [split|]; intros; exfalso; naive_solver.
Qed.

End Order.

(** ** Claims *)

(** C21: the order of values. [sqlite3MemCompare] always gives a result, and its sign is that of
    a total preorder on the values of SQL, if the collating sequence is one; two numbers, integers
    or doubles, are compared by their mathematical values, without rounding. *)
Theorem mem_compare_order e oc :
  lawful oc ->
  (forall a b, rhs_ok a -> rhs_ok b -> is_Some (sqlite3MemCompare true e a b oc)) /\
  is_order rhs_ok (mem_cmp e oc) /\
  (forall a b, rhs_ok a -> rhs_ok b -> class a = 1 -> class b = 1 -> sqlite3MemCompare true e a b oc = Some (cmpz (number a) (number b))).
Proof.
  intros Hlaw. split; [|split; [|exact (number_compare e oc)]].
  - intros a b Ha Hb. destruct (Z.lt_trichotomy (class a) (class b)) as [H|[H|H]].
    + destruct (class_compare e oc a b H) as [-> _]. by eexists.
    + by apply (class_order e oc Hlaw (class b)).
    + destruct (class_compare e oc b a H) as [_ ->]. by eexists.
  - apply (order_classes _ class); [|intros k; apply (class_order e oc Hlaw k)].
    intros x y Hx Hy H. unfold mem_cmp. destruct (class_compare e oc x y H) as [-> ->]. done.
Qed.

(** A collating sequence in UTF-16 that orders texts by their length. *)
Definition by_length : CollSeq := {| c_enc := Utf.SQLITE_UTF16LE; c_binary := false; c_user := fun a b => len a - len b |}.

Lemma by_length_lawful : lawful (Some by_length).
Proof. intros _. cbn [c_user by_length]. split; intros; lia. Qed.

Lemma mem_compare_order_witness :
  (forall a b, rhs_ok a -> rhs_ok b -> is_Some (sqlite3MemCompare true Utf.SQLITE_UTF8 a b (Some by_length))) /\
  is_order rhs_ok (mem_cmp Utf.SQLITE_UTF8 (Some by_length)) /\
  (forall a b, rhs_ok a -> rhs_ok b -> class a = 1 -> class b = 1 -> sqlite3MemCompare true Utf.SQLITE_UTF8 a b (Some by_length) = Some (cmpz (number a) (number b))).
Proof. apply (mem_compare_order Utf.SQLITE_UTF8 (Some by_length)). apply by_length_lawful. Defined.

(** The integer 2^53 + 1 and the double 2^53; two texts of different lengths in UTF-16. *)
Example demo_numbers :
  sqlite3MemCompare true Utf.SQLITE_UTF8 (VInt 9007199254740993) (VReal 0x4340000000000000) None = Some 1 /\
  sqlite3MemCompare true Utf.SQLITE_UTF8 (VStr [195; 164]) (VStr [97; 97]) (Some by_length) = Some (-2).
Proof. vm_compute. split; reflexivity. Qed.

End ValueOrder.
