(* ===== verification/Hash.v ===== *)
(** * The hash table of src/hash.c

    All elements are on one doubly-linked list; a bucket points at a spot of that list and
    holds the next [count] elements from there. The memory is a finite map from addresses
    to elements; a pointer is its address and null is 0. A load or store through an address
    that is not allocated is [None].

    - [strHash], [insertElement], [rehash], [findElementWithHash], [removeElement];
    - [sqlite3HashInit], [sqlite3HashClear], [sqlite3HashFind], [sqlite3HashInsert].

    A key is the byte list of its C string; keys belong to the caller, who keeps them
    unchanged. Allocation gives an address that is not in use, or fails, as the argument
    [malloc_ok] says; the size of the bucket array that [rehash] gets is the answer of
    [alloc_ht]. [hash_refines_map]: any sequence of operations behaves as on a finite map
    whose keys are compared without regard to the case of ASCII letters. *)

From S2P Require Import Prelude UtilStr.
From stdpp Require Import list gmap.
Local Open Scope Z_scope.

Module HashTable.

(** ** Data *)

Abbreviation NULL := 0 (only parsing).

Record HashElem := HElem { next : Z; prev : Z; data : Z; pKey : bytes; h : Z }.
Record ht_entry := HtEntry { ht_count : Z; chain : Z }.
Record Hash := MkHash { htsize : Z; count : Z; first : Z; ht : option (list ht_entry) }.

Abbreviation elems := (gmap Z HashElem).

(** The table, the elements in memory, and the next address to hand out. *)
Record hash_state := HState { table : Hash; mem : elems; brk : Z }.

Definition set_next v (e : HashElem) : HashElem := HElem v (prev e) (data e) (pKey e) (h e).
Definition set_prev v (e : HashElem) : HashElem := HElem (next e) v (data e) (pKey e) (h e).
Definition set_first v (H : Hash) : Hash := MkHash (htsize H) (count H) v (ht H).
Definition set_count v (H : Hash) : Hash := MkHash (htsize H) v (first H) (ht H).
Definition set_ht n t (H : Hash) : Hash := MkHash n (count H) (first H) t.

(** A store to a field of an allocated element. *)
Definition upd (m : elems) (a : Z) (f : HashElem -> HashElem) : option elems :=
  let? e := m !! a in Some (<[a := f e]> m).

Definition sizeof_ht : Z := 16.
Definition SQLITE_MALLOC_SOFT_LIMIT : Z := 1024.

(** ** Operations *)

Definition sqlite3HashInit : Hash := MkHash 0 0 NULL None.

(** The loop of [sqlite3HashClear] that frees the elements. *)
Fixpoint clear_loop (fuel : nat) (m : elems) (elem : Z) : option elems :=
  if elem =? NULL then Some m else
  match fuel with
  | O => None
  | S fuel =>
      let? e := m !! elem in
      clear_loop fuel (delete elem m) (next e)
  end.

Definition sqlite3HashClear (H : Hash) (m : elems) : option (Hash * elems) :=
  let? m := clear_loop (size m) m (first H) in
  Some (MkHash 0 0 NULL None, m).

Fixpoint strHash_loop (acc : Z) (z : bytes) : option Z :=
  match z with
  | [] => None
  | c :: z' => if c =? 0 then Some acc
               else strHash_loop (u32 (u32 (acc + Z.land 0xdf c) * 0x9e3779b1)) z'
  end.

Definition strHash (z : bytes) : option Z := strHash_loop 0 z.

Definition entry_at (H : Hash) (i : Z) : option ht_entry :=
  let? t := ht H in t !! Z.to_nat i.
Definition put_entry (i : Z) (b : ht_entry) (H : Hash) : Hash :=
  set_ht (htsize H) (<[Z.to_nat i := b]> <$> ht H) H.

(** The two ways to link a new element: before [pHead], or in front of the list. *)
Definition link_before (H : Hash) (m : elems) (pHead pNew : Z) : option (Hash * elems) :=
  let? m := upd m pNew (set_next pHead) in
  let? hd := m !! pHead in
  let? m := upd m pNew (set_prev (prev hd)) in
  let? (H, m) :=
    if prev hd <>? NULL then let? m := upd m (prev hd) (set_next pNew) in Some (H, m)
    else Some (set_first pNew H, m) in
  let? m := upd m pHead (set_prev pNew) in
  Some (H, m).

Definition link_first (H : Hash) (m : elems) (pNew : Z) : option (Hash * elems) :=
  let? m := upd m pNew (set_next (first H)) in
  let? m := if first H <>? NULL then upd m (first H) (set_prev pNew) else Some m in
  let? m := upd m pNew (set_prev NULL) in
  Some (set_first pNew H, m).

(** [pEntry] is the index of the bucket, if there is one. *)
Definition insertElement (H : Hash) (m : elems) (pEntry : option Z) (pNew : Z)
  : option (Hash * elems) :=
  let? (pHead, H) :=
    match pEntry with
    | Some i =>
        let? b := entry_at H i in
        Some (if ht_count b <>? 0 then chain b else NULL,
              put_entry i (HtEntry (u32 (ht_count b + 1)) pNew) H)
    | None => Some (NULL, H)
    end in
  if pHead <>? NULL then link_before H m pHead pNew else link_first H m pNew.

(** The loop of [rehash]: every element goes to its bucket of the new array. *)
Fixpoint rehash_loop (fuel : nat) (H : Hash) (m : elems) (elem : Z) : option (Hash * elems) :=
  if elem =? NULL then Some (H, m) else
  match fuel with
  | O => None
  | S fuel =>
      let? e := m !! elem in
      let? (H, m) := insertElement H m (Some (h e mod htsize H)) elem in
      rehash_loop fuel H m (next e)
  end.

(** [alloc_ht n] is the number of bytes [sqlite3MallocSize] reports for the allocation of
    [n] bytes, or nothing when it fails. *)
Definition rehash (alloc_ht : Z -> option Z) (H : Hash) (m : elems) (new_size : Z)
  : option (Hash * elems) :=
  let new_size := if SQLITE_MALLOC_SOFT_LIMIT <? new_size * sizeof_ht
                  then SQLITE_MALLOC_SOFT_LIMIT / sizeof_ht else new_size in
  if new_size =? htsize H then Some (H, m) else
  match alloc_ht (new_size * sizeof_ht) with
  | None => Some (H, m)
  | Some bytes =>
      let new_size := u32 (bytes / sizeof_ht) in
      let elem := first H in
      let H := set_first NULL
                 (set_ht new_size (Some (replicate (Z.to_nat new_size) (HtEntry 0 NULL))) H) in
      rehash_loop (size m) H m elem
  end.

(** The search loop: [count] elements from [elem] on. *)
Fixpoint find_loop (n : nat) (m : elems) (elem hash : Z) (key : bytes) : option Z :=
  match n with
  | O => Some NULL
  | S n =>
      let? e := m !! elem in
      let? found := (if hash =? h e then
                       let? c := sqlite3StrICmp (pKey e) key in Some (c =? 0)
                     else Some false) in
      if (found : bool) then Some elem else find_loop n m (next e) hash key
  end.

(** The element, null when there is none, and the hash. *)
Definition findElementWithHash (H : Hash) (m : elems) (key : bytes) : option (Z * Z) :=
  let? hash := strHash key in
  let? (elem, n) :=
    match ht H with
    | Some _ => let? b := entry_at H (hash mod htsize H) in Some (chain b, ht_count b)
    | None => Some (first H, count H)
    end in
  let? r := find_loop (Z.to_nat n) m elem hash key in
  Some (r, hash).

(** Take an element out of the list. *)
Definition unlink (H : Hash) (m : elems) (e : HashElem) : option (Hash * elems) :=
  let? (H, m) :=
    if prev e <>? NULL then let? m := upd m (prev e) (set_next (next e)) in Some (H, m)
    else Some (set_first (next e) H, m) in
  let? m := if next e <>? NULL then upd m (next e) (set_prev (prev e)) else Some m in
  Some (H, m).

Definition removeElement (H : Hash) (m : elems) (elem : Z) : option (Hash * elems) :=
  let? e := m !! elem in
  let? (H, m) := unlink H m e in
  let? H :=
    match ht H with
    | None => Some H
    | Some _ =>
        let i := h e mod htsize H in
        let? b := entry_at H i in
        let c := if chain b =? elem then next e else chain b in
        Some (put_entry i (HtEntry (u32 (ht_count b - 1)) c) H)
    end in
  let m := delete elem m in
  let H := set_count (u32 (count H - 1)) H in
  if count H =? 0 then sqlite3HashClear H m else Some (H, m).

Definition sqlite3HashFind (s : hash_state) (key : bytes) : option Z :=
  let? (elem, hash) := findElementWithHash (table s) (mem s) key in
  if elem =? NULL then Some NULL else let? e := mem s !! elem in Some (data e).

Definition sqlite3HashInsert (malloc_ok : bool) (alloc_ht : Z -> option Z) (s : hash_state)
  (key : bytes) (d : Z) : option (Z * hash_state) :=
  let H := table s in let m := mem s in
  let? (elem, hash) := findElementWithHash H m key in
  let? old := (if elem =? NULL then Some NULL else let? e := m !! elem in Some (data e)) in
  if old <>? NULL then
    let? (H, m) :=
      if d =? NULL then removeElement H m elem
      else let? m := upd m elem (fun e => HElem (next e) (prev e) d key (h e)) in Some (H, m) in
    Some (old, HState H m (brk s))
  else if d =? NULL then Some (NULL, s)
  else if negb malloc_ok then Some (d, s)
  else
    let new_elem := brk s in
    let m := <[new_elem := HElem NULL NULL d key hash]> m in
    let H := set_count (u32 (count H + 1)) H in
    let? (H, m) :=
      (* the new element is not on the list yet *)
      if (5 <=? count H) && (u32 (2 * htsize H) <? count H)
      then rehash alloc_ht H m (u32 (count H * 3)) else Some (H, m) in
    let? (H, m) :=
      insertElement H m (match ht H with
                         | Some _ => Some (hash mod htsize H) | None => None end) new_elem in
    Some (NULL, HState H m (brk s + 1)).

(** ** The list as a value *)

(** What an element holds, without its links. *)
Record item := Item { i_addr : Z; i_data : Z; i_key : bytes; i_h : Z }.

Definition head_addr (l : list item) (nx : Z) : Z :=
  match l with [] => nx | x :: _ => i_addr x end.
Definition last_addr (p : Z) (l : list item) : Z := from_option i_addr p (last l).

(** The elements in memory that form the list [l], with [p] before and [nx] after it. *)
Fixpoint links (p : Z) (l : list item) (nx : Z) : list (Z * HashElem) :=
  match l with
  | [] => []
  | x :: l => (i_addr x, HElem (head_addr l nx) p (i_data x) (i_key x) (i_h x)) ::
              links (i_addr x) l nx
  end.

Definition holds (m : elems) (L : list (Z * HashElem)) : Prop :=
  Forall (fun x => m !! x.1 = Some x.2) L.

Lemma last_addr_cons p x l : last_addr p (x :: l) = last_addr (i_addr x) l.
Proof. unfold last_addr. destruct l as [|y l]; [done|]. cbn [last]. by destruct (last (y :: l)) eqn:E; [|apply last_None in E]. Qed.

Lemma last_addr_snoc p l x : last_addr p (l ++ [x]) = i_addr x.
Proof. unfold last_addr. by rewrite last_snoc. Qed.

Lemma head_addr_app l1 l2 nx : head_addr (l1 ++ l2) nx = head_addr l1 (head_addr l2 nx).
Proof. by destruct l1. Qed.

Lemma links_app p l1 l2 nx :
  links p (l1 ++ l2) nx = links p l1 (head_addr l2 nx) ++ links (last_addr p l1) l2 nx.
Proof.
  revert p. induction l1 as [|x l1 IH]; intros p; [done|].
  cbn [app links]. by rewrite IH, head_addr_app, last_addr_cons.
Qed.

Lemma links_addrs p l nx : (links p l nx).*1 = i_addr <$> l.
Proof. revert p. induction l as [|x l IH]; intros p; [done|]. cbn. by f_equal. Qed.

Lemma holds_app m L1 L2 : holds m (L1 ++ L2) <-> holds m L1 /\ holds m L2.
Proof. apply Forall_app. Qed.

Lemma holds_insert m L a e : a ∉ L.*1 -> holds m L -> holds (<[a := e]> m) L.
Proof.
  intros Ha Hm. unfold holds in *. rewrite list.Forall_forall in *. intros [b x] Hx.
  rewrite lookup_insert_ne; [by apply Hm|]. cbn. intros ->. apply Ha.
  apply list_elem_of_fmap. by exists (b, x).
Qed.

Lemma holds_delete m L a : a ∉ L.*1 -> holds m L -> holds (delete a m) L.
Proof.
  intros Ha Hm. unfold holds in *. rewrite list.Forall_forall in *. intros [b x] Hx.
  rewrite lookup_delete_ne; [by apply Hm|]. cbn. intros ->. apply Ha.
  apply list_elem_of_fmap. by exists (b, x).
Qed.

Definition is_item (e : HashElem) (x : item) : Prop :=
  data e = i_data x /\ pKey e = i_key x /\ h e = i_h x.

(** The list [l] in memory: its addresses are pairwise different and not null. *)
Record listed (m : elems) (l : list item) : Prop := {
  ls_holds : holds m (links 0 l 0);
  ls_nodup : NoDup (i_addr <$> l);
  ls_nonnull : Forall (fun x => i_addr x <> 0) l
}.

(** An update that only reaches the elements of [l]. *)
Definition within (l : list item) (m m' : elems) : Prop :=
  (forall a, a ∉ i_addr <$> l -> m' !! a = m !! a) /\ dom m' = dom m.

Lemma within_refl l m : within l m m.
Proof. done. Qed.

Lemma within_upd l m m' a e : within l m m' -> a ∈ i_addr <$> l -> is_Some (m' !! a) ->
  within l m (<[a := e]> m').
Proof.
  intros [Hf Hd] Ha Hs. split.
  - intros b Hb. rewrite lookup_insert_ne by (intros ->; done). by apply Hf.
  - rewrite dom_insert_lookup_L by done. done.
Qed.

Lemma upd_at m a f e : m !! a = Some e -> upd m a f = Some (<[a := f e]> m).
Proof. unfold upd. by intros ->. Qed.

Lemma head_addr_zero l : Forall (fun x => i_addr x <> 0) l -> head_addr l 0 = 0 <-> l = [].
Proof. intros Hl. destruct Hl; cbn; [done|]. split; [done|intros [=]]. Qed.

Lemma link_first_spec H m l x e0 :
  listed m l -> first H = head_addr l 0 -> m !! i_addr x = Some e0 -> is_item e0 x ->
  i_addr x ∉ i_addr <$> l -> i_addr x <> 0 ->
  exists m', link_first H m (i_addr x) = Some (set_first (i_addr x) H, m') /\
    listed m' (x :: l) /\ within (x :: l) m m'.
Proof.
  intros [Hm Hnd Hnn] Hf Hx (Ed & Ek & Eh) Hni Hx0. unfold link_first. rewrite Hf.
  rewrite (upd_at _ _ _ _ Hx). destruct l as [|y l]; cbn [head_addr].
  - change (0 <>? 0) with false. cbn iota.
    rewrite (upd_at _ _ _ _ (lookup_insert_eq _ _ _)). rewrite insert_insert_eq.
    eexists. split; [done|]. split; [split|].
    + constructor; [|constructor]. cbn. rewrite lookup_insert_eq. by unfold set_prev, set_next; cbn; rewrite Ed, Ek, Eh.
    + cbn. constructor; [apply not_elem_of_nil|constructor].
    + by constructor.
    + apply within_upd; [done|cbn; constructor|by eexists].
  - inversion Hnn as [|? ? Hy0 Hl]; subst. inversion Hm as [|? ? Hy Hr]; subst.
    cbn [fmap list_fmap] in Hni. apply not_elem_of_cons in Hni as [Hxy Hni].
    cbn [fmap list_fmap] in Hnd. apply list.NoDup_cons in Hnd as [Hyl Hnd].
    assert ((i_addr y <>? NULL) = true) as -> by lia.
    cbn [fst snd] in Hy.
    rewrite (upd_at _ (i_addr y) _ _ (eq_trans (lookup_insert_ne _ _ _ _ Hxy) Hy)).
    erewrite upd_at by (rewrite lookup_insert_ne by done; apply lookup_insert_eq).
    eexists. split; [done|]. split; [split|].
    + cbn [links head_addr]. constructor; [|constructor].
      * cbn. rewrite lookup_insert_eq. by unfold set_prev, set_next; cbn; rewrite Ed, Ek, Eh.
      * cbn. rewrite lookup_insert_ne, lookup_insert_eq by done. done.
      * apply holds_insert; [by rewrite links_addrs|]. apply holds_insert; [by rewrite links_addrs|].
        apply holds_insert; [by rewrite links_addrs|]. exact Hr.
    + cbn [fmap list_fmap]. constructor; [by apply not_elem_of_cons|]. by constructor.
    + by constructor.
    + repeat (apply within_upd; [|cbn; repeat constructor|]); [done| |..];
        rewrite ?lookup_insert_is_Some'; eauto.
Qed.

Lemma links_frame m p l nx a e : a ∉ i_addr <$> l -> holds m (links p l nx) ->
  holds (<[a := e]> m) (links p l nx).
Proof. intros Ha. apply holds_insert. by rewrite links_addrs. Qed.

(** Setting the link out of a segment, and the link back into it. *)
Lemma relink_next m p l w nx nx' : NoDup (i_addr <$> l ++ [w]) ->
  holds m (links p (l ++ [w]) nx) ->
  exists e, m !! i_addr w = Some e /\
    holds (<[i_addr w := set_next nx' e]> m) (links p (l ++ [w]) nx').
Proof.
  intros Hnd Hm. rewrite links_app in Hm. apply holds_app in Hm as [H1 H2].
  inversion H2 as [|? ? Hw _]; subst. eexists. split; [exact Hw|].
  rewrite fmap_app in Hnd. apply NoDup_app in Hnd as (_ & Hd & _).
  rewrite links_app. apply holds_app. split.
  - apply links_frame; [|done]. intros Hin. apply (Hd _ Hin). constructor.
  - constructor; [|constructor]. cbn. by rewrite lookup_insert_eq.
Qed.

Lemma relink_prev m p p' y l nx : NoDup (i_addr <$> y :: l) -> holds m (links p (y :: l) nx) ->
  exists e, m !! i_addr y = Some e /\ prev e = p /\
    holds (<[i_addr y := set_prev p' e]> m) (links p' (y :: l) nx).
Proof.
  intros Hnd Hm. inversion Hm as [|? ? Hy Hr]; subst. eexists. split; [exact Hy|].
  split; [done|]. cbn [fmap list_fmap] in Hnd. apply list.NoDup_cons in Hnd as [Hn _].
  cbn [links]. constructor; [cbn; by rewrite lookup_insert_eq|]. by apply links_frame.
Qed.

Lemma set_first_id H v : first H = v -> set_first v H = H.
Proof. destruct H. cbn. by intros ->. Qed.

Lemma listed_middle m l1 x l2 : listed m (l1 ++ x :: l2) ->
  holds m (links 0 l1 (i_addr x)) /\ holds m (links (last_addr 0 l1) (x :: l2) 0) /\
  NoDup (i_addr <$> l1) /\ NoDup (i_addr <$> x :: l2) /\
  (forall y z, y ∈ l1 -> z ∈ x :: l2 -> i_addr y <> i_addr z).
Proof.
  intros [Hm Hnd _]. rewrite links_app in Hm. apply holds_app in Hm as [H1 H2].
  rewrite fmap_app in Hnd. apply NoDup_app in Hnd as (N1 & Hd & N2). split_and!; try done.
  intros y z Hy Hz E. apply (Hd (i_addr y)); [by apply list_elem_of_fmap_2|].
  rewrite E. by apply list_elem_of_fmap_2.
Qed.

Lemma elem_addr (l : list item) a : a ∈ i_addr <$> l <-> exists x, x ∈ l /\ i_addr x = a.
Proof. rewrite list_elem_of_fmap. split; intros (x & ? & ?); by exists x. Qed.

Lemma last_addr_cases p l :
  (l = [] /\ last_addr p l = p) \/ exists l0 w, l = l0 ++ [w] /\ last_addr p l = i_addr w.
Proof.
  destruct l as [|w l0 _] using rev_ind; [by left|right]. exists l0, w.
  by rewrite last_addr_snoc.
Qed.

Lemma within_in l m m' a e x : within l m m' -> x ∈ l -> i_addr x = a -> is_Some (m' !! a) ->
  within l m (<[a := e]> m').
Proof. intros Hw Hx <- Hs. apply within_upd; [done| |done]. by apply list_elem_of_fmap_2. Qed.

Lemma listed_intro m l : holds m (links 0 l 0) -> NoDup (i_addr <$> l) ->
  Forall (fun x => i_addr x <> 0) l -> listed m l.
Proof. by split. Qed.

Lemma link_before_spec H m l1 y l2 x e0 :
  listed m (l1 ++ y :: l2) -> first H = head_addr (l1 ++ y :: l2) 0 ->
  m !! i_addr x = Some e0 -> is_item e0 x ->
  i_addr x ∉ i_addr <$> l1 ++ y :: l2 -> i_addr x <> 0 ->
  exists m', link_before H m (i_addr y) (i_addr x) =
      Some (set_first (head_addr (l1 ++ x :: y :: l2) 0) H, m') /\
    listed m' (l1 ++ x :: y :: l2) /\ within (l1 ++ x :: y :: l2) m m'.
Proof.
  intros Hl Hf Hx (Ed & Ek & Eh) Hni Hx0. pose proof (listed_middle _ _ _ _ Hl) as (H1 & H2 & N1 & N2 & Hdis).
  destruct Hl as [_ Hnd Hnn]. rewrite fmap_app, not_elem_of_app in Hni. destruct Hni as [X1 X2].
  assert (Hxy : i_addr x <> i_addr y) by (intros E; apply X2; rewrite E; constructor).
  destruct (relink_prev _ _ 0 _ _ _ N2 H2) as (ey & Ey & Epy & _).
  unfold link_before. rewrite (upd_at _ _ _ _ Hx), lookup_insert_ne, Ey by done.
  rewrite (upd_at _ _ _ _ (lookup_insert_eq _ _ _)), insert_insert_eq, Epy.
  set (m1 := <[i_addr x := _]> m).
  assert (Hm1 : m1 !! i_addr x =
    Some (HElem (i_addr y) (last_addr 0 l1) (i_data x) (i_key x) (i_h x))).
  { unfold m1. rewrite lookup_insert_eq. unfold set_prev, set_next. cbn. by rewrite Ed, Ek, Eh. }
  assert (G1 : holds m1 (links 0 l1 (i_addr y))) by (by apply links_frame).
  assert (G2 : holds m1 (links (last_addr 0 l1) (y :: l2) 0)) by (by apply links_frame).
  assert (W1 : within (l1 ++ x :: y :: l2) m m1).
  { apply (within_in _ _ _ _ _ x); [done| |done|by eexists]. apply elem_of_app. right. constructor. }
  assert (Hnd' : NoDup (i_addr <$> l1 ++ x :: y :: l2)).
  { rewrite <- Permutation_middle, fmap_cons. constructor; [|done].
    by rewrite fmap_app, not_elem_of_app. }
  assert (Hnn' : Forall (fun x => i_addr x <> 0) (l1 ++ x :: y :: l2))
    by (rewrite <- Permutation_middle; by constructor).
  destruct (last_addr_cases 0 l1) as [[-> El]|(l0 & w & -> & El)]; rewrite El in *.
  - change (0 <>? 0) with false. cbn iota beta.
    destruct (relink_prev _ _ (i_addr x) _ _ _ N2 G2) as (e2 & E2 & _ & K2).
    rewrite (upd_at _ _ _ _ E2). eexists. split; [done|]. split; [apply listed_intro; [|done..]|].
    + cbn [app links]. constructor; [|exact K2]. cbn. by rewrite lookup_insert_ne.
    + apply (within_in _ _ _ _ _ y); [done| |done|by eexists]. cbn. repeat constructor.
  - assert (Hw0 : i_addr w <> 0).
    { rewrite list.Forall_forall in Hnn. apply Hnn. rewrite elem_of_app. left. apply elem_of_app. right. constructor. }
    assert ((i_addr w <>? 0) = true) as -> by lia.
    assert (Hwx : i_addr w <> i_addr x).
    { intros E. apply X1. rewrite <- E. apply list_elem_of_fmap_2, elem_of_app. right. constructor. }
    destruct (relink_next _ _ _ _ _ (i_addr x) N1 G1) as (e3 & E3 & K3). rewrite (upd_at _ _ _ _ E3).
    assert (Hw : w ∈ l0 ++ [w]) by (apply elem_of_app; right; constructor).
    assert (G3 : holds (<[i_addr w := set_next (i_addr x) e3]> m1) (links (i_addr w) (y :: l2) 0)).
    { apply links_frame; [|done]. intros (v & Hv & E)%elem_addr. by apply (Hdis w v). }
    destruct (relink_prev _ _ (i_addr x) _ _ _ N2 G3) as (e4 & E4 & _ & K4).
    rewrite (upd_at _ _ _ _ E4). eexists. split.
    { rewrite set_first_id; [done|]. rewrite Hf. by destruct l0. }
    split; [apply listed_intro; [|done..]|].
    + rewrite links_app. apply holds_app. split.
      * apply links_frame; [|exact K3]. intros (u & Hu & E)%elem_addr. apply (Hdis u y); [done|constructor|done].
      * rewrite last_addr_snoc. cbn [links]. constructor; [|exact K4]. cbn.
        rewrite !lookup_insert_ne by done. exact Hm1.
    + apply (within_in _ _ _ _ _ y); [|by rewrite elem_of_app, !elem_of_cons; auto|done|by eexists].
      apply (within_in _ _ _ _ _ w); [done|by rewrite elem_of_app; auto|done|by eexists].
Qed.

(** Leaving an element out of a segment boundary. *)
Lemma unlink_spec H m l1 x l2 e :
  listed m (l1 ++ x :: l2) -> first H = head_addr (l1 ++ x :: l2) 0 -> m !! i_addr x = Some e ->
  exists m', unlink H m e = Some (set_first (head_addr (l1 ++ l2) 0) H, m') /\
    next e = head_addr l2 0 /\ is_item e x /\
    listed (delete (i_addr x) m') (l1 ++ l2) /\ within (l1 ++ l2) m m'.
Proof.
  intros Hl Hf Hx. pose proof (listed_middle _ _ _ _ Hl) as (H1 & H2 & N1 & N2 & Hdis).
  destruct Hl as [_ Hnd Hnn]. rewrite <- Permutation_middle in Hnd, Hnn.
  rewrite fmap_cons in Hnd. apply list.NoDup_cons in Hnd as [Hxn Hnd].
  inversion Hnn as [|? ? Hx0 Hnn']; subst.
  inversion H2 as [|? ? Hx' H2']; subst. cbn [fst snd] in Hx'. rewrite Hx in Hx'.
  injection Hx' as ->. unfold unlink. cbn [next prev].
  assert (Out : forall m', holds m' (links 0 (l1 ++ l2) 0) ->
    listed (delete (i_addr x) m') (l1 ++ l2)).
  { intros m' Hm'. apply listed_intro; [|done..]. apply holds_delete; [by rewrite links_addrs|done]. }
  assert (Step1 : exists m1,
    (if last_addr 0 l1 <>? 0
     then let? m := upd m (last_addr 0 l1) (set_next (head_addr l2 0)) in Some (H, m)
     else Some (set_first (head_addr l2 0) H, m)) =
      Some (set_first (head_addr (l1 ++ l2) 0) H, m1) /\
    holds m1 (links 0 l1 (head_addr l2 0)) /\ holds m1 (links (i_addr x) l2 0) /\
    within (l1 ++ l2) m m1).
  { destruct (last_addr_cases 0 l1) as [[-> El]|(l0 & w & -> & El)]; rewrite El in *.
    - change (0 <>? 0) with false. cbn iota. eexists. split; [done|]. split; [constructor|done].
    - assert (Hw : w ∈ l0 ++ [w]) by (apply elem_of_app; right; constructor).
      assert ((i_addr w <>? 0) = true) as ->.
      { rewrite list.Forall_forall in Hnn'. specialize (Hnn' w). rewrite elem_of_app in Hnn'.
        specialize (Hnn' (or_introl Hw)). lia. }
      destruct (relink_next _ _ _ _ _ (head_addr l2 0) N1 H1) as (e3 & E3 & K3).
      rewrite (upd_at _ _ _ _ E3). eexists. split.
      { rewrite set_first_id; [done|]. rewrite Hf. by destruct l0. }
      split; [exact K3|]. split.
      + apply links_frame; [|done]. intros (v & Hv & E)%elem_addr.
        apply (Hdis w v); [done|by constructor|done].
      + apply (within_in _ _ _ _ _ w); [done|by rewrite elem_of_app; auto|done|by eexists]. }
  destruct Step1 as (m1 & -> & K1 & K2 & W1).
  destruct l2 as [|y l2]; cbn [head_addr].
  - change (0 <>? 0) with false. cbn iota. eexists. split; [done|]. split_and!; try done.
    apply Out. rewrite app_nil_r. exact K1.
  - assert ((i_addr y <>? 0) = true) as ->.
    { apply Forall_app in Hnn' as [_ Hy]. inversion Hy. lia. }
    apply list.NoDup_cons in N2 as [_ N2].
    destruct (relink_prev _ _ (last_addr 0 l1) _ _ _ N2 K2) as (e4 & E4 & _ & K4).
    rewrite (upd_at _ _ _ _ E4). eexists. split; [done|]. split; [done|]. split; [done|]. split.
    + apply Out. rewrite links_app. apply holds_app. split; [|exact K4].
      apply links_frame; [|exact K1]. intros (u & Hu & E)%elem_addr.
      apply (Hdis u y); [done|by repeat constructor|done].
    + apply (within_in _ _ _ _ _ y); [done| |done|by eexists].
      rewrite elem_of_app, elem_of_cons. auto.
Qed.

(** ** Buckets *)

(** The bucket of the elements with [Q]: they are one segment of the list, the entry holds
    their number and, unless there are none, the address of the first. *)
Definition entry_ok (Q : item -> bool) (l : list item) (b : ht_entry) : Prop :=
  exists pre seg post, l = pre ++ seg ++ post /\
    Forall (fun x => Q x = false) pre /\ Forall (fun x => Q x = true) seg /\
    Forall (fun x => Q x = false) post /\
    ht_count b = len seg /\ (seg <> [] -> chain b = head_addr seg 0).

Lemma split_in_three {X} (l1 l2 pre seg post : list X) x :
  l1 ++ x :: l2 = pre ++ seg ++ post ->
  (exists k, pre = l1 ++ x :: k /\ l2 = k ++ seg ++ post) \/
  (exists k1 k2, seg = k1 ++ x :: k2 /\ l1 = pre ++ k1 /\ l2 = k2 ++ post) \/
  (exists k, post = k ++ x :: l2 /\ l1 = pre ++ seg ++ k).
Proof.
  intros [(k & -> & E)|(k & -> & E)]%app_eq_inv.
  - apply app_eq_inv in E as [(k' & -> & E)|(k' & -> & ->)].
    + destruct k' as [|z k']; cbn in E.
      * right. right. exists []. rewrite E, !app_nil_r. done.
      * injection E as <- ->. right. left. by exists k, k'.
    + right. right. by exists k'.
  - destruct k as [|z k]; cbn in E.
    + destruct seg as [|z seg]; cbn in E.
      * right. right. exists []. rewrite <- E, !app_nil_r. done.
      * injection E as <- ->. right. left. exists [], seg. by rewrite !app_nil_r.
    + injection E as <- ->. left. by exists k.
Qed.

Lemma Forall_mid {X} (P : X -> Prop) (l1 l2 : list X) x :
  Forall P (l1 ++ x :: l2) <-> P x /\ Forall P (l1 ++ l2).
Proof. rewrite <- Permutation_middle. apply Forall_cons. Qed.

Lemma entry_other_before Q l1 y l2 x b : entry_ok Q (l1 ++ y :: l2) b ->
  Q x = false -> Q y = false -> entry_ok Q (l1 ++ x :: y :: l2) b.
Proof.
  intros (pre & seg & post & E & Fp & Fs & Fq & Hc & Hh) Hx Hy.
  destruct (split_in_three _ _ _ _ _ _ E) as [(k & -> & ->)|[(k1 & k2 & -> & -> & ->)|(k & -> & ->)]].
  - exists (l1 ++ x :: y :: k), seg, post. split_and!; try done; [by rewrite <- app_assoc|].
    by rewrite Forall_mid.
  - apply Forall_mid in Fs as [? _]. congruence.
  - exists pre, seg, (k ++ x :: y :: l2). split_and!; try done; [by rewrite <- !app_assoc|].
    by rewrite Forall_mid.
Qed.

Lemma entry_other_front Q l x b : entry_ok Q l b -> Q x = false -> entry_ok Q (x :: l) b.
Proof.
  intros (pre & seg & post & -> & Fp & Fs & Fq & Hc & Hh) Hx.
  exists (x :: pre), seg, post. split_and!; try done. by constructor.
Qed.

Lemma entry_own_front Q l x b : entry_ok Q l b -> ht_count b = 0 -> Q x = true ->
  entry_ok Q (x :: l) (HtEntry 1 (i_addr x)).
Proof.
  intros (pre & seg & post & -> & Fp & Fs & Fq & Hc & Hh) H0 Hx.
  destruct seg; [|cbn in Hc; lia]. exists [], [x], (pre ++ post). split_and!; try done.
  - by constructor.
  - by apply Forall_app.
Qed.

Lemma entry_own_before Q l x b : entry_ok Q l b -> ht_count b <> 0 -> Q x = true ->
  exists l1 y l2, l = l1 ++ y :: l2 /\ chain b = i_addr y /\ Q y = true /\
    entry_ok Q (l1 ++ x :: y :: l2) (HtEntry (ht_count b + 1) (i_addr x)).
Proof.
  intros (pre & seg & post & -> & Fp & Fs & Fq & Hc & Hh) H0 Hx.
  destruct seg as [|y seg]; [cbn in Hc; lia|]. exists pre, y, (seg ++ post).
  split; [done|]. split; [by apply Hh|]. split; [by inversion Fs|].
  exists pre, (x :: y :: seg), post. split_and!; try done; [by constructor|]. cbn in *. lia.
Qed.

Lemma entry_remove_other Q l1 x l2 b : entry_ok Q (l1 ++ x :: l2) b -> Q x = false ->
  entry_ok Q (l1 ++ l2) b.
Proof.
  intros (pre & seg & post & E & Fp & Fs & Fq & Hc & Hh) Hx.
  destruct (split_in_three _ _ _ _ _ _ E) as [(k & -> & ->)|[(k1 & k2 & -> & -> & ->)|(k & -> & ->)]].
  - apply Forall_mid in Fp as [_ Fp]. exists (l1 ++ k), seg, post. by rewrite <- app_assoc.
  - apply Forall_mid in Fs as [? _]. congruence.
  - apply Forall_mid in Fq as [_ Fq]. exists pre, seg, (k ++ l2). by rewrite <- !app_assoc.
Qed.

Lemma entry_remove_own Q l1 x l2 b : entry_ok Q (l1 ++ x :: l2) b -> Q x = true ->
  NoDup (i_addr <$> l1 ++ x :: l2) ->
  0 < ht_count b /\
  entry_ok Q (l1 ++ l2) (HtEntry (ht_count b - 1)
    (if chain b =? i_addr x then head_addr l2 0 else chain b)).
Proof.
  intros (pre & seg & post & E & Fp & Fs & Fq & Hc & Hh) Hx Hnd.
  destruct (split_in_three _ _ _ _ _ _ E) as [(k & -> & ->)|[(k1 & k2 & -> & -> & ->)|(k & -> & ->)]].
  - apply Forall_mid in Fp as [? _]. congruence.
  - apply Forall_mid in Fs as [_ Fs]. rewrite length_app in Hc. cbn in Hc. split; [lia|].
    exists pre, (k1 ++ k2), post. split; [by rewrite <- !app_assoc|]. split_and!; try done.
    + rewrite length_app. cbn. lia.
    + cbn. intros Hne. rewrite Hh by (by destruct k1). destruct k1 as [|y k1]; cbn.
      * rewrite Z.eqb_refl. by destruct k2.
      * assert ((i_addr y =? i_addr x) = false) as ->; [|done]. apply Z.eqb_neq. intros Ey.
        rewrite <- Permutation_middle, fmap_cons in Hnd. apply list.NoDup_cons in Hnd as [Hn _].
        apply Hn. rewrite <- Ey. apply list_elem_of_fmap_2. rewrite !elem_of_app, elem_of_cons. auto.
  - apply Forall_mid in Fq as [? _]. congruence.
Qed.

(** The array of buckets for the list [l]. *)
Definition in_bucket (n : Z) (i : nat) (x : item) : bool := i_h x mod n =? Z.of_nat i.

Record bucketed (l : list item) (n : Z) (t : list ht_entry) : Prop := {
  bk_size : len t = n;
  bk_entry i b : t !! i = Some b -> entry_ok (in_bucket n i) l b
}.

Definition bucket_of (n : Z) (x : item) : nat := Z.to_nat (i_h x mod n).

Lemma in_bucket_of n x i : 0 < n -> in_bucket n i x = bool_decide (i = bucket_of n x).
Proof.
  intros Hn. unfold in_bucket, bucket_of. pose proof (Z.mod_pos_bound (i_h x) n Hn).
  case_bool_decide; lia.
Qed.

Lemma bucket_lookup l n t x : bucketed l n t -> 0 < n -> exists b, t !! bucket_of n x = Some b.
Proof.
  intros [Hs _] Hn. unfold bucket_of. pose proof (Z.mod_pos_bound (i_h x) n Hn).
  apply lookup_lt_is_Some_2. lia.
Qed.

(** Changing one bucket while the others keep theirs. *)
Lemma bucketed_update l l' n t x b : bucketed l n t -> 0 < n ->
  (forall i e, i <> bucket_of n x -> entry_ok (in_bucket n i) l e -> entry_ok (in_bucket n i) l' e) ->
  entry_ok (in_bucket n (bucket_of n x)) l' b ->
  bucketed l' n (<[bucket_of n x := b]> t).
Proof.
  intros [Hs He] Hn Ho Hb. split; [by rewrite length_insert|].
  intros i e Hi. destruct (decide (i = bucket_of n x)) as [->|Hne].
  - rewrite list_lookup_insert_eq in Hi by (apply lookup_lt_Some in Hi; by rewrite length_insert in Hi).
    by injection Hi as <-.
  - rewrite list_lookup_insert_ne in Hi by done. by apply Ho, He.
Qed.

(** ** The table in memory *)

Record shape (H : Hash) (m : elems) (l : list item) : Prop := {
  sh_listed : listed m l;
  sh_first : first H = head_addr l 0;
  sh_table : match ht H with None => True | Some t => 0 < htsize H /\ bucketed l (htsize H) t end
}.

(** What changes nothing but the list and the buckets. *)
Definition same_head (H H' : Hash) : Prop :=
  htsize H' = htsize H /\ count H' = count H /\ (is_Some (ht H) <-> is_Some (ht H')).

Definition bucket_index (H : Hash) (hash : Z) : option Z :=
  match ht H with Some _ => Some (hash mod htsize H) | None => None end.

Lemma within_mono l l' m m' : within l m m' -> (forall x, x ∈ l -> x ∈ l') -> within l' m m'.
Proof.
  intros [Hf Hd] Hs. split; [|done]. intros a Ha. apply Hf. intros (x & Hx & <-)%elem_addr.
  by apply Ha, list_elem_of_fmap_2, Hs.
Qed.

Lemma within_trans l m1 m2 m3 : within l m1 m2 -> within l m2 m3 -> within l m1 m3.
Proof. intros [F1 D1] [F2 D2]. split; [|congruence]. intros a Ha. by rewrite F2, F1. Qed.

Lemma insertElement_spec H m l x e0 :
  shape H m l -> m !! i_addr x = Some e0 -> is_item e0 x -> i_addr x ∉ i_addr <$> l ->
  i_addr x <> 0 -> len l + 1 < 2 ^ 32 ->
  exists H' m' l', insertElement H m (bucket_index H (i_h x)) (i_addr x) = Some (H', m') /\
    shape H' m' l' /\ l' ≡ₚ x :: l /\ within l' m m' /\ same_head H H'.
Proof.
  intros [Hl Hf Ht] Hx Hi Hni Hx0 Hlen. unfold insertElement, bucket_index.
  destruct (ht H) as [t|] eqn:Et.
  2:{ change (0 <>? 0) with false. cbn iota beta.
      destruct (link_first_spec H m l x e0) as (m' & -> & Hl' & Hw); try done.
      exists (set_first (i_addr x) H), m', (x :: l). split; [done|]. split; [split|]; [done|done| |].
      - cbn. by rewrite Et.
      - split; [done|]. split; [done|]. unfold same_head. cbn. done. }
  destruct Ht as [Hn Hb]. destruct (bucket_lookup _ _ _ x Hb Hn) as (b & Eb).
  unfold entry_at. rewrite Et. change (Z.to_nat (i_h x mod htsize H)) with (bucket_of (htsize H) x).
  rewrite Eb. pose proof (bk_entry _ _ _ Hb _ _ Eb) as Hent.
  assert (Hq : in_bucket (htsize H) (bucket_of (htsize H) x) x = true)
    by (rewrite in_bucket_of by done; by apply bool_decide_eq_true_2).
  assert (Hother : forall i y, i <> bucket_of (htsize H) x ->
    in_bucket (htsize H) (bucket_of (htsize H) x) y = true -> in_bucket (htsize H) i y = false).
  { intros i y Hne. rewrite !in_bucket_of by done. intros E%bool_decide_eq_true.
    apply bool_decide_eq_false_2. congruence. }
  set (H1 := put_entry _ _ H).
  assert (Hs : forall m' l' v, listed m' l' -> v = head_addr l' 0 ->
    bucketed l' (htsize H) (<[bucket_of (htsize H) x :=
      HtEntry (u32 (ht_count b + 1)) (i_addr x)]> t) ->
    shape (set_first v H1) m' l' /\ same_head H (set_first v H1)).
  { intros m' l' v Hl' -> Hb'. split; [split; [done|done|]|].
    - cbn. rewrite Et. cbn. done.
    - unfold same_head. cbn. rewrite Et. cbn. split_and!; [done..|]. split; by eexists. }
  assert (Hcnt : ht_count b = 0 \/ 0 < ht_count b < 2 ^ 32 - 1).
  { destruct Hent as (pre & seg & post & -> & _ & _ & _ & Hc & _). rewrite !length_app in Hlen. lia. }
  destruct Hcnt as [H0|Hc].
  - rewrite H0. change (0 <>? 0) with false. cbn iota beta.
    destruct (link_first_spec H1 m l x e0) as (m' & -> & Hl' & Hw); try done.
    destruct (Hs m' (x :: l) (i_addr x)) as [S1 S2]; [done|done| |by do 3 eexists].
    rewrite H0. apply (bucketed_update l); [done|done| |].
    + intros i e' Hne He'. apply entry_other_front; [done|]. by apply Hother.
    + by apply (entry_own_front _ _ _ b).
  - assert ((ht_count b <>? 0) = true) as -> by lia.
    destruct (entry_own_before _ _ x _ Hent) as (l1 & y & l2 & -> & -> & Hqy & He'); [lia|done|].
    assert (Hy0 : i_addr y <> 0).
    { pose proof (ls_nonnull _ _ Hl) as Hnn. by apply Forall_mid in Hnn as [? _]. }
    assert ((i_addr y <>? 0) = true) as -> by lia.
    destruct (link_before_spec H1 m l1 y l2 x e0) as (m' & -> & Hl' & Hw); try done.
    destruct (Hs m' (l1 ++ x :: y :: l2) (head_addr (l1 ++ x :: y :: l2) 0)) as [S1 S2];
      [done|done| |].
    + rewrite u32_small by lia. apply (bucketed_update (l1 ++ y :: l2)); [done|done| |done].
      intros i e' Hne Hi'. apply entry_other_before; [done| |]; by apply Hother.
    + do 3 eexists. split; [done|]. split; [done|]. split; [|by split].
      by rewrite <- Permutation_middle.
Qed.

Lemma same_head_trans H1 H2 H3 : same_head H1 H2 -> same_head H2 H3 -> same_head H1 H3.
Proof. intros (? & ? & ?) (? & ? & ?). unfold same_head. split_and!; [congruence..|]. tauto. Qed.

(** Links survive a change to other elements. *)
Lemma links_within l r p m m' nx : within l m m' ->
  (forall x y, x ∈ l -> y ∈ r -> i_addr x <> i_addr y) ->
  holds m (links p r nx) -> holds m' (links p r nx).
Proof.
  intros [Hf _] Hd Hm. unfold holds in *. rewrite list.Forall_forall in *. intros [a e] Hx.
  cbn. rewrite Hf; [by apply (Hm (a, e))|]. intros (x & Hxl & E)%elem_addr.
  apply (list_elem_of_fmap_2 fst) in Hx. rewrite links_addrs in Hx.
  apply elem_addr in Hx as (y & Hy & Ey). apply (Hd x y); [done|done|]. by rewrite E, Ey.
Qed.

Lemma nodup_apart (l r : list item) : NoDup (i_addr <$> l ++ r) ->
  forall x y, x ∈ l -> y ∈ r -> i_addr x <> i_addr y.
Proof.
  rewrite fmap_app. intros (_ & Hd & _)%NoDup_app x y Hx Hy E.
  apply (Hd (i_addr x)); [by apply list_elem_of_fmap_2|]. rewrite E. by apply list_elem_of_fmap_2.
Qed.

Lemma rehash_loop_spec fuel H m l r p :
  shape H m l -> is_Some (ht H) -> holds m (links p r 0) -> NoDup (i_addr <$> r ++ l) ->
  Forall (fun x => i_addr x <> 0) r -> (length r <= fuel)%nat -> len (r ++ l) < 2 ^ 32 ->
  exists H' m' l', rehash_loop fuel H m (head_addr r 0) = Some (H', m') /\
    shape H' m' l' /\ l' ≡ₚ r ++ l /\ within (r ++ l) m m' /\ same_head H H'.
Proof.
  revert H m l r p. induction fuel as [|fuel IH]; intros H m l r p Hs Ht Hr Hnd Hnn Hf Hlen.
  { destruct r; [|cbn in Hf; lia]. exists H, m, l. by split_and!. }
  destruct r as [|x r]; [exists H, m, l; by split_and!|].
  inversion Hnn as [|? ? Hx0 Hnn']; subst. inversion Hr as [|? ? Hx Hr']; subst. cbn [fst snd] in Hx.
  cbn [rehash_loop head_addr]. rewrite (proj2 (Z.eqb_neq _ 0)) by done. rewrite Hx.
  cbn [h next]. cbn [app length] in *.
  pose proof Hnd as Hnd'. rewrite fmap_cons in Hnd'. apply list.NoDup_cons in Hnd' as [Hxn Hnd'].
  rewrite fmap_app, not_elem_of_app in Hxn. destruct Hxn as [Hxr Hxl]. rewrite length_app in Hlen.
  destruct (insertElement_spec H m l x _ Hs Hx) as (H1 & m1 & l1 & E1 & S1 & P1 & W1 & D1);
    [done|done|done|lia|].
  destruct Ht as [t Et]. unfold bucket_index in E1. rewrite Et in E1. rewrite E1.
  destruct (IH H1 m1 l1 r (i_addr x)) as (H' & m' & l' & -> & S' & P' & W' & D').
  - done.
  - apply D1. by eexists.
  - eapply links_within; [exact W1| |exact Hr']. intros y z Hy Hz. rewrite P1 in Hy.
    apply elem_of_cons in Hy as [->|Hy].
    + intros E. apply Hxr. rewrite E. by apply list_elem_of_fmap_2.
    + intros E. by apply (nodup_apart _ _ Hnd' z y).
  - rewrite P1. by rewrite <- Permutation_middle.
  - done.
  - lia.
  - rewrite P1. rewrite length_app. cbn. lia.
  - exists H', m', l'. split; [done|]. split; [done|]. split; [|split].
    + rewrite P', P1. by rewrite <- Permutation_middle.
    + eapply within_trans; (eapply within_mono; [eassumption|]); intros y Hy.
      * rewrite P1 in Hy. rewrite elem_of_cons, elem_of_app in *. tauto.
      * rewrite elem_of_app, P1 in Hy. rewrite elem_of_cons, elem_of_app in *. tauto.
    + by eapply same_head_trans.
Qed.

Lemma bucketed_empty n : 0 < n -> bucketed [] n (replicate (Z.to_nat n) (HtEntry 0 0)).
Proof.
  intros Hn. split; [rewrite length_replicate; lia|].
  intros i b [-> _]%lookup_replicate. exists [], [], []. by split_and!.
Qed.

(** The allocator gives at least what was asked for; sizes are of type [int]. *)
Definition alloc_ok (alloc_ht : Z -> option Z) : Prop :=
  forall n b, alloc_ht n = Some b -> n <= b < 2 ^ 31.

Lemma rehash_spec alloc_ht H m l n : alloc_ok alloc_ht -> shape H m l -> 0 < n ->
  (length l <= size m)%nat -> len l < 2 ^ 32 ->
  exists H' m' l', rehash alloc_ht H m n = Some (H', m') /\
    shape H' m' l' /\ l' ≡ₚ l /\ within l m m' /\ count H' = count H.
Proof.
  intros Ha Hs Hn Hf Hlen. unfold rehash.
  set (k := if _ <? _ then _ else n).
  assert (Hk : 0 < k <= Z.max n 64).
  { unfold k, SQLITE_MALLOC_SOFT_LIMIT, sizeof_ht. change (1024 / 16) with 64. case_cond; lia. }
  clearbody k. destruct (k =? htsize H); [exists H, m, l; by split_and!|].
  destruct (alloc_ht (k * sizeof_ht)) as [b|] eqn:Eb; [|exists H, m, l; by split_and!].
  apply Ha in Eb. unfold sizeof_ht in *.
  assert (Hb : 0 < b / 16 < 2 ^ 32).
  { split; [apply Z.div_str_pos; lia|]. apply Z.div_lt_upper_bound; lia. }
  rewrite u32_small by lia. cbv zeta.
  set (H1 := set_first 0 _). pose proof (sh_listed _ _ _ Hs) as [Hm Hnd Hnn]. rewrite (sh_first _ _ _ Hs).
  destruct (rehash_loop_spec (size m) H1 m [] l 0) as (H' & m' & l' & -> & S' & P' & W' & D').
  - split; [by split; constructor|done|]. cbn. split; [lia|]. apply bucketed_empty. lia.
  - by eexists.
  - done.
  - by rewrite app_nil_r.
  - done.
  - done.
  - by rewrite app_nil_r.
  - rewrite app_nil_r in P', W'. exists H', m', l'. split_and!; try done. by apply D'.
Qed.

Lemma removeElement_spec H m l1 x l2 :
  shape H m (l1 ++ x :: l2) -> count H = len (l1 ++ x :: l2) -> len (l1 ++ x :: l2) < 2 ^ 32 ->
  l1 ++ l2 <> [] ->
  exists H' m', removeElement H m (i_addr x) = Some (H', m') /\
    shape H' m' (l1 ++ l2) /\ count H' = len (l1 ++ l2) /\ dom m' = dom m ∖ {[i_addr x]}.
Proof.
  intros [Hl Hf Ht] Hc Hlen Hne. unfold removeElement.
  pose proof (ls_nodup _ _ Hl) as Hnd. pose proof (listed_middle _ _ _ _ Hl) as (_ & H2 & _).
  inversion H2 as [|? ? Hx _]; subst. cbn [fst snd] in Hx. rewrite Hx.
  destruct (unlink_spec H m l1 x l2 _ Hl Hf Hx) as (m' & -> & _ & _ & Hl' & Hw).
  assert (Hcnt : u32 (count H - 1) = len (l1 ++ l2)).
  { rewrite Hc, length_app in *. cbn [length] in *. rewrite u32_small, length_app by lia. lia. }
  assert (Hpos : (len (l1 ++ l2) =? 0) = false).
  { apply Z.eqb_neq. destruct (l1 ++ l2); [done|]. cbn. lia. }
  assert (Hd : dom (delete (i_addr x) m') = dom m ∖ {[i_addr x]})
    by (rewrite dom_delete_L; by rewrite (proj2 Hw)).
  cbn [ht set_first htsize h next]. destruct (ht H) as [t|] eqn:Et.
  - destruct Ht as [Hn Hb]. destruct (bucket_lookup _ _ _ x Hb Hn) as (b & Eb).
    unfold entry_at. cbn [ht set_first]. rewrite Et.
    change (Z.to_nat (i_h x mod htsize H)) with (bucket_of (htsize H) x). rewrite Eb.
    pose proof (bk_entry _ _ _ Hb _ _ Eb) as Hent.
    assert (Hq : in_bucket (htsize H) (bucket_of (htsize H) x) x = true)
      by (rewrite in_bucket_of by done; by apply bool_decide_eq_true_2).
    destruct (entry_remove_own _ _ _ _ _ Hent Hq Hnd) as [Hb0 Hent'].
    assert (Hb1 : ht_count b < 2 ^ 32).
    { destruct Hent as (pre & seg & post & E & _ & _ & _ & -> & _).
      rewrite E, !length_app in Hlen. lia. }
    cbn [count set_count put_entry set_ht]. cbn [set_first count]. rewrite Hcnt, Hpos.
    do 2 eexists. split; [done|]. split; [split|]; [done|done| |].
    + cbn. rewrite Et. cbn. split; [done|]. rewrite u32_small by lia.
      change (Z.to_nat (i_h x mod htsize H)) with (bucket_of (htsize H) x).
      apply (bucketed_update (l1 ++ x :: l2)); [done|done| |done].
      intros i e' Hi He'. apply (entry_remove_other _ _ x); [done|].
      rewrite in_bucket_of by done. by apply bool_decide_eq_false_2.
    + by split.
  - cbn [count set_count set_first]. rewrite Hcnt, Hpos. do 2 eexists. split; [done|].
    split; [split|]; [done|done| |by split]. cbn. by rewrite Et.
Qed.

Definition addrs (l : list item) : gset Z := list_to_set (i_addr <$> l).

Lemma clear_loop_spec fuel m p r : holds m (links p r 0) -> NoDup (i_addr <$> r) ->
  Forall (fun x => i_addr x <> 0) r -> (length r <= fuel)%nat ->
  exists m', clear_loop fuel m (head_addr r 0) = Some m' /\ dom m' = dom m ∖ addrs r.
Proof.
  revert m p r. induction fuel as [|fuel IH]; intros m p r Hr Hnd Hnn Hf.
  { destruct r; [|cbn in Hf; lia]. exists m. split; [done|]. unfold addrs. cbn. set_solver. }
  destruct r as [|x r]; [exists m; split; [done|]; unfold addrs; cbn; set_solver|].
  inversion Hnn as [|? ? Hx0 Hnn']; subst. inversion Hr as [|? ? Hx Hr']; subst. cbn [fst snd] in Hx.
  cbn [clear_loop head_addr]. rewrite (proj2 (Z.eqb_neq _ 0)) by done. rewrite Hx. cbn [next].
  rewrite fmap_cons in Hnd. apply list.NoDup_cons in Hnd as [Hxn Hnd].
  destruct (IH (delete (i_addr x) m) (i_addr x) r) as (m' & -> & D'); [|done|done|cbn in Hf; lia|].
  - apply holds_delete; [by rewrite links_addrs|done].
  - exists m'. split; [done|]. rewrite D', dom_delete_L. unfold addrs. cbn. set_solver.
Qed.

Lemma dom_size (m : elems) l : dom m = addrs l -> NoDup (i_addr <$> l) -> size m = length l.
Proof.
  intros Hd Hnd. rewrite <- (size_dom m), Hd. unfold addrs.
  rewrite size_list_to_set by done. by rewrite length_fmap.
Qed.

Lemma dom_empty (m : elems) : dom m = ∅ -> m = ∅.
Proof. apply dom_empty_inv_L. Qed.

Lemma sqlite3HashClear_spec H m l : shape H m l -> dom m = addrs l ->
  sqlite3HashClear H m = Some (sqlite3HashInit, ∅).
Proof.
  intros [[Hm Hnd Hnn] Hf _] Hd. unfold sqlite3HashClear. rewrite Hf.
  destruct (clear_loop_spec (size m) m 0 l) as (m' & -> & D'); try done.
  { by rewrite (dom_size m l). }
  rewrite Hd in D'. assert (m' = ∅) as -> by (apply dom_empty; set_solver). done.
Qed.

Lemma removeElement_last H m x : shape H m [x] -> count H = 1 -> dom m = addrs [x] ->
  removeElement H m (i_addr x) = Some (sqlite3HashInit, ∅).
Proof.
  intros [Hl Hf Ht] Hc Hd. unfold removeElement.
  pose proof (listed_middle _ [] x [] Hl) as (_ & H2 & _).
  inversion H2 as [|? ? Hx _]; subst. cbn [fst snd] in Hx. rewrite Hx.
  destruct (unlink_spec H m [] x [] _ Hl Hf Hx) as (m' & -> & _ & _ & Hl' & Hw).
  assert (Hm' : delete (i_addr x) m' = ∅).
  { apply dom_empty. rewrite dom_delete_L, (proj2 Hw), Hd. unfold addrs. cbn. set_solver. }
  rewrite Hm'. cbn [ht set_first htsize h next]. destruct (ht H) as [t|] eqn:Et.
  - destruct Ht as [Hn Hb]. destruct (bucket_lookup _ _ _ x Hb Hn) as (b & Eb).
    unfold entry_at. cbn [ht set_first]. rewrite Et.
    change (Z.to_nat (i_h x mod htsize H)) with (bucket_of (htsize H) x). rewrite Eb.
    cbn [count set_count put_entry set_ht set_first]. rewrite Hc. done.
  - cbn [count set_count set_first]. rewrite Hc. done.
Qed.

(** ** Hashing and searching *)

Fixpoint hash_text (acc : Z) (n : bytes) : Z :=
  match n with
  | [] => acc
  | c :: n => hash_text (u32 (u32 (acc + Z.land 0xdf c) * 0x9e3779b1)) n
  end.

Lemma strHash_text z n : c_string z n -> strHash z = Some (hash_text 0 n).
Proof.
  intros [_ Ez]. unfold strHash. generalize 0 as acc. revert n Ez.
  induction z as [|c z IH]; intros n Ez acc; [done|]. cbn in Ez |- *.
  destruct (c =? 0); [by injection Ez as <-|]. inv_bind Ez. injection Ez as <-.
  cbn. by apply IH.
Qed.

Lemma hash_case c d : is_byte c -> is_byte d -> UpperToLower c = UpperToLower d ->
  Z.land 0xdf c = Z.land 0xdf d.
Proof.
  assert (E : forall c, is_byte c -> Z.land 0xdf (UpperToLower c) = Z.land 0xdf c).
  { intros x Hx. apply Z.eqb_eq.
    apply (byte_forall (fun x => Z.land 0xdf (UpperToLower x) =? Z.land 0xdf x)); [by vm_compute|done]. }
  intros Hc Hd Hl. rewrite <- (E c), <- (E d), Hl by done. done.
Qed.

(** Strings that differ only in the case of letters have the same hash. *)
Lemma hash_text_lower n n' acc : bytes_ok n -> bytes_ok n' -> lower n = lower n' ->
  hash_text acc n = hash_text acc n'.
Proof.
  intros Hn. revert n' acc. induction Hn as [|c n Hc Hn IH]; intros n' acc Hn' E.
  - by destruct n'.
  - destruct Hn' as [|c' n' Hc' Hn']; [done|]. unfold lower in E. rewrite !fmap_cons in E.
    injection E as E1 E2. cbn [hash_text]. rewrite (hash_case c c') by done. by apply IH.
Qed.

(** The name a key stands for. *)
Definition name_of (z : bytes) : bytes := lower (default [] (cstr z)).
Definition name (x : item) : bytes := name_of (i_key x).

Definition item_ok (x : item) : Prop :=
  i_data x <> 0 /\ exists n, c_string (i_key x) n /\ i_h x = hash_text 0 n.

Lemma name_of_text z n : c_string z n -> name_of z = lower n.
Proof. unfold name_of. by intros [_ ->]. Qed.

Lemma c_string_text z n : c_string z n -> bytes_ok n.
Proof.
  intros [Hz Ez]. revert n Ez. induction Hz as [|c z Hc Hz IH]; intros n Ez; [done|]. cbn in Ez.
  destruct (c =? 0); [injection Ez as <-; constructor|]. inv_bind Ez. injection Ez as <-.
  constructor; [done|]. by apply IH.
Qed.

Lemma item_hash x z n : item_ok x -> c_string z n -> name x = lower n -> i_h x = hash_text 0 n.
Proof.
  intros (_ & n' & Hn' & ->) Hz Hx. unfold name in Hx. rewrite (name_of_text _ _ Hn') in Hx.
  apply hash_text_lower; [by eapply c_string_text..|done].
Qed.

Definition found (a : Z) (l : list item) (n : bytes) : Prop :=
  (exists x, x ∈ l /\ a = i_addr x /\ name x = lower n) \/
  (a = 0 /\ forall x, x ∈ l -> name x <> lower n).

Lemma find_loop_spec m p seg nx elem key n :
  holds m (links p seg nx) -> (seg <> [] -> elem = head_addr seg 0) -> Forall item_ok seg ->
  c_string key n ->
  exists a, find_loop (length seg) m elem (hash_text 0 n) key = Some a /\ found a seg n.
Proof.
  intros Hm He Hi Hk. revert p elem Hm He. induction Hi as [|x seg Hx Hi IH]; intros p elem Hm He.
  { exists 0. split; [done|]. right. split; [done|]. intros x Hx. by apply elem_of_nil in Hx. }
  inversion Hm as [|? ? Hl Hr]; subst. cbn [fst snd] in Hl. rewrite He by done.
  cbn [length find_loop head_addr]. rewrite Hl. cbn [h pKey next].
  assert (Hnext : exists a, find_loop (length seg) m (head_addr seg nx) (hash_text 0 n) key = Some a /\
    found a seg n).
  { apply (IH (i_addr x)); [done|]. by destruct seg. }
  assert (Hskip : name x <> lower n -> forall a, found a seg n -> found a (x :: seg) n).
  { intros Hne a [(y & Hy & ? & ?)|[? Hall]].
    - left. exists y. split; [by constructor|done].
    - right. split; [done|]. intros y [->|Hy]%elem_of_cons; [done|by apply Hall]. }
  destruct Hnext as (a & Ea & Ha). destruct (Z.eqb_spec (hash_text 0 n) (i_h x)) as [Eh|Eh].
  - destruct Hx as (_ & n' & Hn' & _).
    destruct (StrICmp_spec _ _ _ _ (proj1 Hn') (proj1 Hk) (proj2 Hn') (proj2 Hk)) as (d & -> & Hd).
    fold (lower n') (lower n) in Hd. rewrite <- (name_of_text _ _ Hn') in Hd.
    destruct (Z.eqb_spec d 0) as [E0|E0]; cbn iota.
    + exists (i_addr x). split; [done|]. left. exists x. split; [constructor|].
      split; [done|]. by apply Hd.
    + exists a. split; [exact Ea|]. apply Hskip; [|done]. intros E. by apply E0, Hd.
  - cbn iota. exists a. split; [exact Ea|]. apply Hskip; [|done]. intros E. apply Eh.
    symmetry. by apply (item_hash x key n).
Qed.

Lemma findElement_spec H m l key n : shape H m l -> count H = len l -> Forall item_ok l ->
  c_string key n ->
  exists a, findElementWithHash H m key = Some (a, hash_text 0 n) /\ found a l n.
Proof.
  intros [[Hm _ _] Hf Ht] Hc Hi Hk. unfold findElementWithHash. rewrite (strHash_text _ _ Hk).
  destruct (ht H) as [t|] eqn:Et.
  - destruct Ht as [Hn Hb]. set (y := Item 0 0 [] (hash_text 0 n)).
    destruct (bucket_lookup _ _ _ y Hb Hn) as (b & Eb). unfold entry_at. rewrite Et.
    change (Z.to_nat (hash_text 0 n mod htsize H)) with (bucket_of (htsize H) y). rewrite Eb.
    destruct (bk_entry _ _ _ Hb _ _ Eb) as (pre & seg & post & -> & Fp & Fs & Fq & Hcb & Hh).
    rewrite Hcb, Nat2Z.id. rewrite !Forall_app in Hi. destruct Hi as (Ip & Is & Iq).
    rewrite !links_app in Hm. apply holds_app in Hm as [_ [Hm _]%holds_app].
    destruct (find_loop_spec m _ seg _ (chain b) key n Hm Hh Is Hk) as (a & -> & Ha).
    exists a. split; [done|]. destruct Ha as [(x & Hx & ? & ?)|[? Hall]].
    + left. exists x. rewrite !elem_of_app. auto.
    + right. split; [done|]. intros x Hx E.
      assert (Hno : forall k, Forall item_ok k ->
        Forall (fun x => in_bucket (htsize H) (bucket_of (htsize H) y) x = false) k -> x ∉ k).
      { intros k Ik Fk Hxk. rewrite list.Forall_forall in Ik, Fk. specialize (Fk x Hxk).
        rewrite in_bucket_of in Fk by done. apply bool_decide_eq_false in Fk. apply Fk.
        unfold bucket_of. cbn. by rewrite (item_hash x key n (Ik x Hxk) Hk E). }
      rewrite !elem_of_app in Hx. destruct Hx as [Hx|[Hx|Hx]];
        [by apply (Hno pre)|by apply (Hall x)|by apply (Hno post)].
  - destruct (find_loop_spec m 0 l 0 (first H) key n) as (a & E & Ha); [done|by rewrite Hf|done|done|].
    rewrite Hc, Nat2Z.id, E. by exists a.
Qed.

(** ** The invariant and the finite map *)

Record hash_ok (s : hash_state) (l : list item) : Prop := {
  ok_shape : shape (table s) (mem s) l;
  ok_count : count (table s) = len l;
  ok_dom : dom (mem s) = addrs l;
  ok_items : Forall item_ok l;
  ok_brk : 0 < brk s /\ Forall (fun x => i_addr x < brk s) l;
  ok_names : NoDup (name <$> l)
}.

Definition represents (M : gmap bytes Z) (l : list item) : Prop :=
  forall n d, M !! n = Some d <-> exists x, x ∈ l /\ name x = n /\ i_data x = d.

Lemma represents_perm M l l' : l ≡ₚ l' -> represents M l -> represents M l'.
Proof. intros Hp Hr n d. rewrite (Hr n d). by setoid_rewrite Hp. Qed.

Lemma names_inj l x y : NoDup (name <$> l) -> x ∈ l -> y ∈ l -> name x = name y -> x = y.
Proof.
  intros Hnd [i Hi]%list_elem_of_lookup [j Hj]%list_elem_of_lookup E.
  assert (i = j) as ->; [|congruence].
  apply (NoDup_lookup _ _ _ (name x) Hnd); rewrite list_lookup_fmap, ?Hi, ?Hj; cbn; congruence.
Qed.

Lemma represents_none M l n : represents M l -> (forall x, x ∈ l -> name x <> n) -> M !! n = None.
Proof.
  intros Hr Hn. destruct (M !! n) as [d|] eqn:E; [|done]. apply Hr in E as (x & Hx & E & _).
  by apply Hn in Hx.
Qed.

Lemma represents_cons M l x : represents M l -> (forall y, y ∈ l -> name y <> name x) ->
  represents (<[name x := i_data x]> M) (x :: l).
Proof.
  intros Hr Hf n d. destruct (decide (n = name x)) as [->|Hne].
  - rewrite lookup_insert_eq. split.
    + intros [= <-]. exists x. split; [constructor|done].
    + intros (y & [->|Hy]%elem_of_cons & E & <-); [done|]. by apply Hf in Hy.
  - rewrite lookup_insert_ne by done. rewrite (Hr n d). split; intros (y & Hy & E1 & E2); exists y.
    + split; [by constructor|done].
    + apply elem_of_cons in Hy as [->|Hy]; [congruence|done].
Qed.

Lemma represents_delete M l1 x l2 : represents M (l1 ++ x :: l2) -> NoDup (name <$> l1 ++ x :: l2) ->
  represents (delete (name x) M) (l1 ++ l2).
Proof.
  intros Hr Hnd n d. rewrite <- Permutation_middle, fmap_cons in Hnd.
  apply list.NoDup_cons in Hnd as [Hn _]. destruct (decide (n = name x)) as [->|Hne].
  - rewrite lookup_delete_eq. split; [done|]. intros (y & Hy & E & _). exfalso. apply Hn.
    rewrite <- E. by apply list_elem_of_fmap_2.
  - rewrite lookup_delete_ne by done. rewrite (Hr n d). split; intros (y & Hy & E1 & E2); exists y;
      (split; [|done]); rewrite elem_of_app, ?elem_of_cons in *; [|tauto].
    destruct Hy as [?|[->|?]]; [by left|done|by right].
Qed.

(** Giving the element at [a] another value and key of the same name. *)
Definition reset (a d : Z) (key : bytes) (y : item) : item :=
  if i_addr y =? a then Item (i_addr y) d key (i_h y) else y.

Lemma reset_addr a d key y : i_addr (reset a d key y) = i_addr y.
Proof. unfold reset. by case_cond. Qed.
Lemma reset_h a d key y : i_h (reset a d key y) = i_h y.
Proof. unfold reset. by case_cond. Qed.

Lemma reset_addrs a d key (l : list item) : i_addr <$> (reset a d key <$> l) = i_addr <$> l.
Proof. rewrite <- list_fmap_compose. apply list_fmap_ext. intros ? y _. apply reset_addr. Qed.

Lemma reset_head a d key l nx : head_addr (reset a d key <$> l) nx = head_addr l nx.
Proof. destruct l; [done|]. apply reset_addr. Qed.

Lemma reset_links m a d key e p l nx : m !! a = Some e -> holds m (links p l nx) ->
  holds (<[a := HElem (next e) (prev e) d key (h e)]> m) (links p (reset a d key <$> l) nx).
Proof.
  intros Ha. revert p. induction l as [|y l IH]; intros p Hm; [constructor|].
  inversion Hm as [|? ? Hy Hr]; subst. cbn [fst snd] in Hy. rewrite fmap_cons. cbn [links].
  rewrite reset_head, reset_addr, reset_h. constructor; [|by apply IH]. cbn. unfold reset.
  destruct (Z.eqb_spec (i_addr y) a) as [E|E].
  - rewrite E, lookup_insert_eq. rewrite E, Ha in Hy. by injection Hy as ->.
  - by rewrite lookup_insert_ne.
Qed.

Lemma reset_entry a d key n i l b : entry_ok (in_bucket n i) l b ->
  entry_ok (in_bucket n i) (reset a d key <$> l) b.
Proof.
  intros (pre & seg & post & -> & Fp & Fs & Fq & Hc & Hh).
  assert (K : forall v k, Forall (fun x => in_bucket n i x = v) k ->
    Forall (fun x => in_bucket n i x = v) (reset a d key <$> k)).
  { intros v k Hk. apply Forall_fmap. eapply Forall_impl; [exact Hk|]. intros x Hx. cbn.
    unfold in_bucket in *. by rewrite reset_h. }
  exists (reset a d key <$> pre), (reset a d key <$> seg), (reset a d key <$> post).
  rewrite !fmap_app, length_fmap, reset_head. split_and!; auto.
  intros Hne. apply Hh. by destruct seg.
Qed.

Lemma reset_shape H m a d key e l : shape H m l -> m !! a = Some e ->
  shape H (<[a := HElem (next e) (prev e) d key (h e)]> m) (reset a d key <$> l).
Proof.
  intros [[Hm Hnd Hnn] Hf Ht] Ha. split; [split|by rewrite reset_head|].
  - by apply reset_links.
  - by rewrite reset_addrs.
  - apply Forall_fmap. eapply Forall_impl; [exact Hnn|]. intros x Hx. cbn. by rewrite reset_addr.
  - destruct (ht H) as [t|]; [|done]. destruct Ht as [Hn [Hs He]]. split; [done|]. split; [done|].
    intros i b Hi. by apply reset_entry, He.
Qed.

Lemma ok_middle s l x : hash_ok s l -> x ∈ l ->
  exists l1 l2 e, l = l1 ++ x :: l2 /\ mem s !! i_addr x = Some e /\ is_item e x.
Proof.
  intros [[Hl _ _] _ _ _ _ _] (l1 & l2 & ->)%list_elem_of_split.
  pose proof (listed_middle _ _ _ _ Hl) as (_ & H2 & _). inversion H2 as [|? ? Hx _]; subst.
  exists l1, l2. eexists. split; [done|]. split; [exact Hx|]. done.
Qed.

(** The element that a search returned, with its value in the map. *)
Lemma found_data s l M a n : hash_ok s l -> represents M l -> found a l n ->
  (exists x l1 l2 e, l = l1 ++ x :: l2 /\ a = i_addr x /\ a <> 0 /\ name x = lower n /\
     mem s !! a = Some e /\ is_item e x /\ i_data x <> 0 /\ M !! lower n = Some (i_data x)) \/
  (a = 0 /\ (forall x, x ∈ l -> name x <> lower n) /\ M !! lower n = None).
Proof.
  intros Hok Hr [(x & Hx & -> & En)|[-> Hall]].
  - left. destruct (ok_middle s l x Hok Hx) as (l1 & l2 & e & -> & Ee & Ie).
    exists x, l1, l2, e. pose proof (ls_nonnull _ _ (sh_listed _ _ _ (ok_shape _ _ Hok))) as Hnn.
    pose proof (ok_items _ _ Hok) as Hi. apply Forall_mid in Hnn as [Hx0 _].
    apply Forall_mid in Hi as [[Hd _] _]. split_and!; try done. apply Hr. by exists x.
  - right. split; [done|]. split; [done|]. by apply (represents_none _ l).
Qed.

Lemma hash_find_spec s l M key n : hash_ok s l -> represents M l -> c_string key n ->
  sqlite3HashFind s key = Some (default 0 (M !! lower n)).
Proof.
  intros Hok Hr Hk. unfold sqlite3HashFind.
  destruct (findElement_spec _ _ _ key n (ok_shape _ _ Hok) (ok_count _ _ Hok) (ok_items _ _ Hok) Hk)
    as (a & -> & Ha).
  destruct (found_data s l M a n Hok Hr Ha)
    as [(x & l1 & l2 & e & -> & -> & Hx0 & _ & -> & (<- & _) & _ & ->)|(-> & _ & ->)]; [|done].
  by rewrite (proj2 (Z.eqb_neq _ 0)).
Qed.

Lemma hash_empty_ok b : 0 < b -> hash_ok (HState sqlite3HashInit ∅ b) [].
Proof.
  intros Hb. split; try done.
  - split; [by split; constructor|done|done].
  - constructor.
Qed.

Lemma represents_empty : represents ∅ [].
Proof. intros n d. rewrite lookup_empty. split; [done|]. by intros (x & Hx%elem_of_nil & _). Qed.

Lemma fmap_fixed {X} (f : X -> X) (l : list X) : (forall y, y ∈ l -> f y = y) -> f <$> l = l.
Proof.
  induction l as [|y l IH]; intros Hf; [done|]. rewrite fmap_cons, Hf by constructor.
  f_equal. apply IH. intros z Hz. apply Hf. by constructor.
Qed.

(** The outcomes of an insertion: another value, a removal, a new element. *)
Lemma insert_replace s x l1 l2 M key n d e :
  hash_ok s (l1 ++ x :: l2) -> represents M (l1 ++ x :: l2) -> c_string key n ->
  name x = lower n -> mem s !! i_addr x = Some e -> d <> 0 ->
  exists l', hash_ok (HState (table s)
      (<[i_addr x := HElem (next e) (prev e) d key (h e)]> (mem s)) (brk s)) l' /\
    represents (<[lower n := d]> M) l' /\ length l' = length (l1 ++ x :: l2).
Proof.
  intros [Hs Hc Hdom Hi Hb Hn] Hr Hk Hx He Hd. exists (reset (i_addr x) d key <$> l1 ++ x :: l2).
  set (f := reset (i_addr x) d key).
  assert (Hnd := ls_nodup _ _ (sh_listed _ _ _ Hs)).
  assert (Hfx : f x = Item (i_addr x) d key (i_h x)) by (unfold f, reset; by rewrite Z.eqb_refl).
  assert (Hfy : forall y, y ∈ l1 ++ l2 -> f y = y).
  { intros y Hy. unfold f, reset. rewrite (proj2 (Z.eqb_neq _ _)); [done|]. intros E.
    rewrite <- Permutation_middle, fmap_cons in Hnd. apply list.NoDup_cons in Hnd as [Hni _].
    apply Hni. rewrite <- E. by apply list_elem_of_fmap_2. }
  assert (Hmid : f <$> l1 ++ x :: l2 = l1 ++ f x :: l2).
  { rewrite fmap_app, fmap_cons, !fmap_fixed; [done|..]; intros y Hy; apply Hfy;
      rewrite elem_of_app; auto. }
  assert (Hname : name (f x) = name x) by (rewrite Hfx, Hx; unfold name; cbn; by apply name_of_text).
  split; [split|]; cbn [table mem brk].
  - by apply reset_shape.
  - by rewrite length_fmap.
  - unfold addrs, f. rewrite reset_addrs, dom_insert_lookup_L by (by eexists). done.
  - rewrite Hmid. apply Forall_mid in Hi as [Hix Hi]. apply Forall_mid. split; [|done].
    rewrite Hfx. split; [done|]. exists n. split; [done|]. cbn. by apply (item_hash x key n).
  - split; [apply Hb|]. apply Forall_fmap. eapply Forall_impl; [apply Hb|]. intros y Hy. cbn.
    unfold f. by rewrite reset_addr.
  - rewrite Hmid. by rewrite fmap_app, fmap_cons, Hname, <- fmap_cons, <- fmap_app.
  - split; [|by rewrite length_fmap]. rewrite Hmid.
    apply (represents_perm _ (f x :: l1 ++ l2)); [by rewrite Permutation_middle|].
    rewrite <- Hx, <- Hname. replace d with (i_data (f x)) by (by rewrite Hfx).
    rewrite <- insert_delete_eq. apply represents_cons.
    + rewrite Hname. by apply represents_delete.
    + intros y Hy E. rewrite <- Permutation_middle, fmap_cons in Hn. apply list.NoDup_cons in Hn as [Hn _].
      apply Hn. rewrite <- Hname, <- E. by apply list_elem_of_fmap_2.
Qed.

Lemma insert_remove s x l1 l2 M :
  hash_ok s (l1 ++ x :: l2) -> represents M (l1 ++ x :: l2) -> len (l1 ++ x :: l2) < 2 ^ 32 ->
  exists H' m', removeElement (table s) (mem s) (i_addr x) = Some (H', m') /\
    hash_ok (HState H' m' (brk s)) (l1 ++ l2) /\ represents (delete (name x) M) (l1 ++ l2).
Proof.
  intros [Hs Hc Hdom Hi Hb Hn] Hr Hlen.
  pose proof (represents_delete _ _ _ _ Hr Hn) as Hr'.
  assert (Hnd := ls_nodup _ _ (sh_listed _ _ _ Hs)).
  destruct (decide (l1 ++ l2 = [])) as [E|E].
  - rewrite E in *. apply app_eq_nil in E as [-> ->]. cbn [app] in *.
    rewrite (removeElement_last _ _ _ Hs Hc Hdom). do 2 eexists. split; [done|].
    split; [apply hash_empty_ok; apply Hb|done].
  - destruct (removeElement_spec _ _ _ _ _ Hs Hc Hlen E) as (H' & m' & -> & S' & C' & D').
    do 2 eexists. split; [done|]. split; [split|done]; cbn [table mem brk].
    + done.
    + done.
    + rewrite D', Hdom. unfold addrs. rewrite <- Permutation_middle, fmap_cons in *.
      apply list.NoDup_cons in Hnd as [Hni _].
      rewrite list_to_set_cons. apply set_eq. intros a. rewrite elem_of_difference, elem_of_union, elem_of_singleton.
      rewrite elem_of_list_to_set. split; [tauto|]. intros Ha. split; [auto|]. by intros ->.
    + by apply Forall_mid in Hi as [_ Hi].
    + split; [apply Hb|]. destruct Hb as [_ Hb]. by apply Forall_mid in Hb as [_ Hb].
    + rewrite <- Permutation_middle, fmap_cons in Hn. by apply list.NoDup_cons in Hn as [_ Hn].
Qed.

Lemma triple_pos c : 0 < c < 2 ^ 32 -> 0 < u32 (c * 3).
Proof.
  unfold u32. change (2 ^ 32) with 4294967296. intros Hc. Z.div_mod_to_equations. lia.
Qed.

Lemma insert_new alloc_ht s l M key n d :
  alloc_ok alloc_ht -> hash_ok s l -> represents M l -> c_string key n -> d <> 0 ->
  (forall x, x ∈ l -> name x <> lower n) -> len l + 1 < 2 ^ 32 ->
  let H := set_count (u32 (count (table s) + 1)) (table s) in
  let m := <[brk s := HElem NULL NULL d key (hash_text 0 n)]> (mem s) in
  exists H1 m1 H2 m2 l',
    (if (5 <=? count H) && (u32 (2 * htsize H) <? count H)
     then rehash alloc_ht H m (u32 (count H * 3)) else Some (H, m)) = Some (H1, m1) /\
    insertElement H1 m1 (bucket_index H1 (hash_text 0 n)) (brk s) = Some (H2, m2) /\
    hash_ok (HState H2 m2 (brk s + 1)) l' /\ represents (<[lower n := d]> M) l' /\
    length l' = S (length l).
Proof.
  intros Ha [Hs Hc Hdom Hi [Hb Hlt] Hn] Hr Hk Hd Hnew Hlen. cbv zeta. cbn [count set_count htsize].
  rewrite Hc, (u32_small (len l + 1)) by lia. set (x := Item (brk s) d key (hash_text 0 n)).
  set (H := set_count _ _). set (m := <[brk s := _]> _).
  assert (Hbx : brk s ∉ i_addr <$> l).
  { intros (y & Hy & E)%elem_addr. rewrite list.Forall_forall in Hlt. specialize (Hlt y Hy). lia. }
  assert (S0 : shape H m l).
  { destruct Hs as [[L1 L2 L3] F T]. split; [split|done|done]; [by apply links_frame|done|done]. }
  assert (Hbm : brk s ∉ dom (mem s)) by (rewrite Hdom; unfold addrs; by rewrite elem_of_list_to_set).
  assert (Hsz : (length l <= size m)%nat).
  { unfold m. rewrite map_size_insert_None by (by apply not_elem_of_dom).
    rewrite (dom_size (mem s) l); [lia|done|]. apply (ls_nodup _ _ (sh_listed _ _ _ Hs)). }
  assert (R : exists H1 m1 l1, (if (5 <=? len l + 1) && (u32 (2 * htsize (table s)) <? len l + 1)
     then rehash alloc_ht H m (u32 ((len l + 1) * 3)) else Some (H, m)) = Some (H1, m1) /\
     shape H1 m1 l1 /\ l1 ≡ₚ l /\ within l m m1 /\ count H1 = len l + 1).
  { case_cond; [|by exists H, m, l]. bool_to_prop.
    destruct (rehash_spec alloc_ht H m l (u32 ((len l + 1) * 3))) as (Hr1 & m1 & l1 & ? & ? & ? & ? & ?);
      try done; [by apply triple_pos; lia|lia|by exists Hr1, m1, l1]. }
  destruct R as (H1 & m1 & l1 & -> & S1 & P1 & W1 & C1).
  assert (Hx1 : m1 !! i_addr x = Some (HElem NULL NULL d key (hash_text 0 n))).
  { rewrite (proj1 W1) by done. apply lookup_insert_eq. }
  destruct (insertElement_spec H1 m1 l1 x _ S1 Hx1) as (H2 & m2 & l2 & E2 & S2 & P2 & W2 & D2).
  { done. } { by rewrite P1. } { cbn. lia. } { rewrite P1. lia. }
  exists H1, m1, H2, m2, l2. split; [done|]. split; [exact E2|].
  assert (P : l2 ≡ₚ x :: l) by (by rewrite P2, P1).
  assert (Hnx : name x = lower n) by (by apply name_of_text).
  split; [split|split]; cbn [table mem brk].
  - done.
  - rewrite (proj1 (proj2 D2)), C1, P. cbn. lia.
  - rewrite (proj2 W2), (proj2 W1). unfold m. rewrite dom_insert_L, Hdom. unfold addrs.
    by rewrite P, fmap_cons, list_to_set_cons.
  - rewrite P. constructor; [|done]. split; [done|]. by exists n.
  - split; [lia|]. rewrite P. constructor; [cbn; lia|]. eapply Forall_impl; [exact Hlt|]. cbn. lia.
  - rewrite P, fmap_cons. constructor; [|done]. intros (y & E & Hy)%list_elem_of_fmap.
    apply (Hnew y Hy). congruence.
  - apply (represents_perm _ (x :: l)); [done|]. rewrite <- Hnx. apply (represents_cons M l x); [done|].
    intros y Hy. rewrite Hnx. by apply Hnew.
  - by rewrite P.
Qed.

(** ** Refinement *)

Inductive hash_op :=
| OpFind (key : bytes)
| OpInsert (malloc_ok : bool) (alloc_ht : Z -> option Z) (key : bytes) (d : Z)
| OpClear.

Definition hash_step (op : hash_op) (s : hash_state) : option (Z * hash_state) :=
  match op with
  | OpFind key => let? d := sqlite3HashFind s key in Some (d, s)
  | OpInsert ok alloc key d => sqlite3HashInsert ok alloc s key d
  | OpClear => let? (H, m) := sqlite3HashClear (table s) (mem s) in
               Some (0, HState H m (brk s))
  end.

(** The same operations on a finite map from names to non-null values. *)
Definition map_step (op : hash_op) (M : gmap bytes Z) : Z * gmap bytes Z :=
  match op with
  | OpFind key => (default 0 (M !! name_of key), M)
  | OpInsert ok _ key d =>
      let n := name_of key in
      match M !! n with
      | Some old => (old, if d =? 0 then delete n M else <[n := d]> M)
      | None => if d =? 0 then (0, M) else if ok then (0, <[n := d]> M) else (d, M)
      end
  | OpClear => (0, ∅)
  end.

Definition op_ok (op : hash_op) : Prop :=
  match op with
  | OpFind key => exists n, c_string key n
  | OpInsert _ alloc key _ => alloc_ok alloc /\ exists n, c_string key n
  | OpClear => True
  end.

Fixpoint hash_run (ops : list hash_op) (s : hash_state) : option (list Z * hash_state) :=
  match ops with
  | [] => Some ([], s)
  | op :: ops => let? (r, s) := hash_step op s in
                 let? (rs, s) := hash_run ops s in Some (r :: rs, s)
  end.

Fixpoint map_run (ops : list hash_op) (M : gmap bytes Z) : list Z * gmap bytes Z :=
  match ops with
  | [] => ([], M)
  | op :: ops => let '(r, M) := map_step op M in
                 let '(rs, M) := map_run ops M in (r :: rs, M)
  end.

Lemma hash_insert_spec ok alloc s l M key d :
  alloc_ok alloc -> hash_ok s l -> represents M l -> (exists n, c_string key n) ->
  len l + 1 < 2 ^ 32 ->
  exists s' l', sqlite3HashInsert ok alloc s key d = Some ((map_step (OpInsert ok alloc key d) M).1, s') /\
    hash_ok s' l' /\ represents (map_step (OpInsert ok alloc key d) M).2 l' /\
    (length l' <= S (length l))%nat.
Proof.
  intros Ha Hok Hr [n Hk] Hlen. unfold sqlite3HashInsert. cbn [map_step]. rewrite (name_of_text _ _ Hk).
  destruct (findElement_spec _ _ _ key n (ok_shape _ _ Hok) (ok_count _ _ Hok) (ok_items _ _ Hok) Hk)
    as (a & -> & Hf).
  destruct (found_data s l M a n Hok Hr Hf)
    as [(x & l1 & l2 & e & -> & -> & Hx0 & En & Ee & (Ed & _) & Hd0 & ->)|(-> & Hnew & ->)].
  - rewrite (proj2 (Z.eqb_neq _ 0)), Ee, Ed by done. rewrite (proj2 (Z.eqb_neq (i_data x) 0)) by done.
    cbn [negb fst snd]. destruct (Z.eqb_spec d 0) as [->|Hd].
    + destruct (insert_remove s x l1 l2 M Hok Hr) as (H' & m' & -> & Hok' & Hr'); [lia|].
      do 2 eexists. split; [done|]. split; [done|]. rewrite <- En. split; [done|].
      rewrite !length_app. cbn. lia.
    + rewrite (upd_at _ _ _ _ Ee).
      destruct (insert_replace s x l1 l2 M key n d e Hok Hr Hk En Ee Hd) as (l' & Hok' & Hr' & Hl').
      do 2 eexists. split; [done|]. split; [done|]. split; [done|]. lia.
  - cbn [negb Z.eqb fst snd]. destruct (Z.eqb_spec d 0) as [->|Hd]; [by exists s, l; auto|].
    destruct ok; cbn [negb fst snd]; [|by exists s, l; auto].
    destruct (insert_new alloc s l M key n d Ha Hok Hr Hk Hd Hnew Hlen)
      as (H1 & m1 & H2 & m2 & l' & -> & E & Hok' & Hr' & Hl').
    unfold bucket_index in E. rewrite E. do 2 eexists. split; [done|]. split; [done|]. split; [done|]. lia.
Qed.

Lemma hash_step_spec op s l M : op_ok op -> hash_ok s l -> represents M l -> len l + 1 < 2 ^ 32 ->
  exists s' l', hash_step op s = Some ((map_step op M).1, s') /\ hash_ok s' l' /\
    represents (map_step op M).2 l' /\ (length l' <= S (length l))%nat.
Proof.
  destruct op as [key|ok alloc key d|]; cbn [op_ok hash_step].
  - intros [n Hk] Hok Hr _. rewrite (hash_find_spec s l M key n) by done. cbn.
    rewrite (name_of_text _ _ Hk). exists s, l. auto.
  - intros [Ha Hk] Hok Hr Hl. by apply hash_insert_spec.
  - intros _ [Hs Hc Hdom Hi Hb Hn] _ _. rewrite (sqlite3HashClear_spec _ _ _ Hs Hdom).
    do 2 eexists. split; [done|]. split; [apply hash_empty_ok, Hb|].
    split; [apply represents_empty|]. cbn. lia.
Qed.

Lemma hash_run_spec ops s l M : Forall op_ok ops -> hash_ok s l -> represents M l ->
  len l + len ops < 2 ^ 32 - 1 ->
  exists s' l', hash_run ops s = Some ((map_run ops M).1, s') /\ hash_ok s' l' /\
    represents (map_run ops M).2 l'.
Proof.
  intros Hops. revert s l M. induction Hops as [|op ops Hop Hops IH]; intros s l M Hok Hr Hlen.
  { by exists s, l. }
  cbn [length] in Hlen. destruct (hash_step_spec op s l M) as (s1 & l1 & E1 & Hok1 & Hr1 & Hl1); try done; [lia|].
  cbn [hash_run map_run]. rewrite E1. destruct (map_step op M) as [r M1]. cbn [fst snd] in *.
  destruct (IH s1 l1 M1) as (s2 & l2 & E2 & Hok2 & Hr2); [done|done|lia|]. rewrite E2.
  destruct (map_run ops M1) as [rs M2]. by exists s2, l2.
Qed.

Lemma represents_size M l : represents M l -> NoDup (name <$> l) -> size M = length l.
Proof.
  intros Hr Hnd. assert (Hd : dom M = list_to_set (name <$> l)).
  { apply set_eq. intros n. rewrite elem_of_dom, elem_of_list_to_set, list_elem_of_fmap. split.
    - intros [d (x & ? & ? & ?)%Hr]. by exists x.
    - intros (x & -> & Hx). exists (i_data x). apply Hr. by exists x. }
  rewrite <- size_dom, Hd, size_list_to_set by done. apply length_fmap.
Qed.

(** C30: the hash table refines a finite map: from an empty table every sequence of lookups,
    insertions (also removals, and with every behaviour of the allocator) and clears is
    memory safe, terminates, and answers each operation as the finite map does whose keys
    are compared without regard to the case of ASCII letters; at the end the table holds
    one live element for each key of the map, and nothing is leaked. *)
Theorem hash_refines_map ops : Forall op_ok ops -> len ops < 2 ^ 32 - 1 ->
  exists s, hash_run ops (HState sqlite3HashInit ∅ 1) = Some ((map_run ops ∅).1, s) /\
    count (table s) = Z.of_nat (size (map_run ops ∅).2) /\
    size (mem s) = size (map_run ops ∅).2 /\
    forall key n, c_string key n -> sqlite3HashFind s key = Some (default 0 ((map_run ops ∅).2 !! lower n)).
Proof.
  intros Hops Hlen.
  destruct (hash_run_spec ops (HState sqlite3HashInit ∅ 1) [] ∅) as (s & l & E & Hok & Hr);
    [done|by apply hash_empty_ok|apply represents_empty|cbn; lia|].
  exists s. split; [done|]. rewrite (represents_size _ _ Hr (ok_names _ _ Hok)).
  split; [apply Hok|]. split.
  - apply dom_size; [apply Hok|]. apply (ls_nodup _ _ (sh_listed _ _ _ (ok_shape _ _ Hok))).
  - intros key n Hk. by apply (hash_find_spec _ l).
Qed.

(** ** Witnesses *)

Definition demo_alloc (n : Z) : option Z := if n <=? 2000 then Some (n + 8) else None.
Definition demo_ops : list hash_op :=
  [OpInsert true demo_alloc (lit "Alpha") 11; OpInsert true demo_alloc (lit "beta") 12;
   OpInsert true demo_alloc (lit "gamma") 13; OpInsert true demo_alloc (lit "delta") 14;
   OpInsert true demo_alloc (lit "epsilon") 15; OpInsert true demo_alloc (lit "ALPHA") 21;
   OpInsert true demo_alloc (lit "Beta") 0; OpFind (lit "alpha"); OpFind (lit "beta");
   OpInsert false demo_alloc (lit "zeta") 16].

Lemma demo_ops_ok : Forall op_ok demo_ops.
Proof.
  assert (Ha : alloc_ok demo_alloc) by (intros n b; unfold demo_alloc; case_cond; intros; simplify_eq; lia).
  assert (Hk : forall z, plain z = true -> exists n, c_string (z ++ [0]) n).
  { intros z Hz. eexists. apply plain_c_string; [exact Hz|constructor]. }
  unfold demo_ops, lit. repeat (apply List.Forall_cons; [cbn [op_ok]; try (split; [exact Ha|]); by apply Hk|]).
  constructor.
Qed.

Lemma hash_refines_map_witness :
  exists s, hash_run demo_ops (HState sqlite3HashInit ∅ 1) =
      Some ([0; 0; 0; 0; 0; 11; 12; 21; 0; 16], s) /\ count (table s) = 4.
Proof.
  destruct (hash_refines_map demo_ops demo_ops_ok) as (s & E & C & _); [by vm_compute|].
  exists s. split; [exact E|]. rewrite C. by vm_compute.
Defined.
End HashTable.
