(* ===== verification/Bitvec.v ===== *)
(** * The bit vector of src/bitvec.c

    A set of numbers from 1 to [iSize] in one of three representations: a bitmap, a hash
    table with linear probing, or an array of sub-vectors. The structure is a tree that
    only its owner can reach, so a pointer to a node is the node itself and null is [None].
    The union is an inductive type; reading a member that is not the current one is [None].

    - [sqlite3BitvecCreate], [sqlite3BitvecTestNotNull], [sqlite3BitvecTest];
    - [sqlite3BitvecSet] with its re-hashing into sub-vectors;
    - [sqlite3BitvecClear] and [sqlite3BitvecSize].

    The sizes are those of a build with 8-byte pointers. Allocation number [n] succeeds when
    [oracle n] is true; the number of the next allocation is part of the state. The loops
    that follow the tree have fuel: a vector of at most 2^32 - 1 bits has at most four levels
    below the root, and [bitvec_refines_set] shows that [set_fuel] is enough.

    [bitvec_refines_set]: any sequence of operations behaves as on a finite set. *)

From S2P Require Import Prelude.
From stdpp Require Import list gmap.
Local Open Scope Z_scope.

Module BitVector.

(** ** Data *)

Definition BITVEC_SZ : Z := 512.
Definition sizeof_u32 : Z := 4.
Definition sizeof_ptr : Z := 8.
Definition BITVEC_USIZE : Z := (BITVEC_SZ - 3 * sizeof_u32) / sizeof_ptr * sizeof_ptr.
Definition BITVEC_SZELEM : Z := 8.
Definition BITVEC_NELEM : Z := BITVEC_USIZE.
Definition BITVEC_NBIT : Z := BITVEC_NELEM * BITVEC_SZELEM.
Definition BITVEC_NINT : Z := BITVEC_USIZE / sizeof_u32.
Definition BITVEC_MXHASH : Z := BITVEC_NINT / 2.
Definition BITVEC_HASH (x : Z) : Z := u32 (x * 1) mod BITVEC_NINT.
Definition BITVEC_NPTR : Z := BITVEC_USIZE / sizeof_ptr.

Inductive Bitvec := BV (iSize nSet iDivisor : Z) (u : bv_union)
with bv_union :=
| aBitmap (a : list Z)
| aHash (a : list Z)
| apSub (l : list (option Bitvec)).

Definition iSize (p : Bitvec) : Z := let 'BV sz _ _ _ := p in sz.

(** Zeroed memory: which member it is follows from the size. *)
Definition new_bitvec (iSize : Z) : Bitvec :=
  BV iSize 0 0 (if iSize <=? BITVEC_NBIT then aBitmap (replicate (Z.to_nat BITVEC_NELEM) 0)
                else aHash (replicate (Z.to_nat BITVEC_NINT) 0)).

(** ** Operations *)

Definition sqlite3BitvecCreate (oracle : nat -> bool) (n : nat) (iSize : Z)
  : option Bitvec * nat :=
  (if oracle n then Some (new_bitvec iSize) else None, S n).

(** [while( aHash[h] )]: the slot where the loop stops, and whether [i] is there. *)
Fixpoint probe (fuel : nat) (a : list Z) (hh i : Z) : option (bool * Z) :=
  match fuel with
  | O => None
  | S fuel =>
      let? v := a !! Z.to_nat hh in
      if v =? 0 then Some (false, hh)
      else if v =? i then Some (true, hh)
      else probe fuel a ((hh + 1) mod BITVEC_NINT) i
  end.

Definition probe_fuel : nat := S (Z.to_nat BITVEC_NINT).

(** The body of [sqlite3BitvecTestNotNull] after [i--]. *)
Fixpoint bv_test (fuel : nat) (p : Bitvec) (i : Z) : option bool :=
  match fuel with
  | O => None
  | S fuel =>
      let 'BV sz _ dv u := p in
      if dv <>? 0 then
        match u with
        | apSub l =>
            let? sub := l !! Z.to_nat (i / dv) in
            match sub with
            | None => Some false
            | Some p => bv_test fuel p (i mod dv)
            end
        | _ => None
        end
      else if sz <=? BITVEC_NBIT then
        match u with
        | aBitmap a =>
            let? b := a !! Z.to_nat (i / BITVEC_SZELEM) in
            Some (Z.land b (Z.shiftl 1 (Z.land i (BITVEC_SZELEM - 1))) <>? 0)
        | _ => None
        end
      else
        match u with
        | aHash a => let? (found, _) := probe probe_fuel a (BITVEC_HASH i) (i + 1) in Some found
        | _ => None
        end
  end.

Definition test_fuel : nat := 6.

Definition sqlite3BitvecTestNotNull (p : Bitvec) (i : Z) : option bool :=
  let i := u32 (i - 1) in
  if iSize p <=? i then Some false else bv_test test_fuel p i.

Definition sqlite3BitvecTest (p : option Bitvec) (i : Z) : option bool :=
  match p with None => Some false | Some p => sqlite3BitvecTestNotNull p i end.

(** The state of a run of [sqlite3BitvecSet]: return code, vector, allocations so far. *)
Abbreviation set_result := (Z * Bitvec * nat)%type.

(** [for(j=0; j<BITVEC_NINT; j++) if( aiValues[j] ) rc |= sqlite3BitvecSet(p, aiValues[j])] *)
Fixpoint set_values (set : nat -> Bitvec -> Z -> option set_result) (vals : list Z)
  (r : set_result) : option set_result :=
  match vals with
  | [] => Some r
  | v :: vals =>
      let '(rc, p, n) := r in
      if v =? 0 then set_values set vals r else
      let? (rc', p, n) := set n p (v - 1) in
      set_values set vals (Z.lor rc rc', p, n)
  end.

(** The divisor of a vector that is split. *)
Definition divisor (sz : Z) : Z :=
  let d := sz / BITVEC_NPTR in
  let d := if sz mod BITVEC_NPTR <>? 0 then u32 (d + 1) else d in
  if d <? BITVEC_NBIT then BITVEC_NBIT else d.

(** The label [bitvec_set_end]: store the value [i] in the free slot [hh]. *)
Definition set_end (n : nat) (sz ns dv : Z) (a : list Z) (i hh : Z) : option set_result :=
  Some (SQLITE_OK, BV sz (u32 (ns + 1)) dv (aHash (<[Z.to_nat hh := i]> a)), n).

(** The label [bitvec_set_rehash]: a table that is too full becomes an array of sub-vectors
    into which all values are set again; [set] is the recursive call. *)
Definition set_rehash (set : nat -> Bitvec -> Z -> option set_result) (oracle : nat -> bool)
  (n : nat) (sz ns dv : Z) (a : list Z) (i hh : Z) : option set_result :=
  if BITVEC_MXHASH <=? ns then
    if negb (oracle n) then Some (SQLITE_NOMEM, BV sz ns dv (aHash a), S n) else
    let p := BV sz ns (divisor sz) (apSub (replicate (Z.to_nat BITVEC_NPTR) None)) in
    let? (rc, p, n) := set (S n) p (i - 1) in
    set_values set a (rc, p, n)
  else set_end n sz ns dv a i hh.

(** The hash table representation. *)
Definition set_in_hash (set : nat -> Bitvec -> Z -> option set_result) (oracle : nat -> bool)
  (n : nat) (sz ns dv : Z) (a : list Z) (i : Z) : option set_result :=
  let h0 := BITVEC_HASH i in
  let i := u32 (i + 1) in
  let? v := a !! Z.to_nat h0 in
  if v =? 0 then
    if ns <? BITVEC_NINT - 1 then set_end n sz ns dv a i h0
    else set_rehash set oracle n sz ns dv a i h0
  else
    let? (found, hh) := probe probe_fuel a h0 i in
    if (found : bool) then Some (SQLITE_OK, BV sz ns dv (aHash a), n)
    else set_rehash set oracle n sz ns dv a i hh.

(** The body of [sqlite3BitvecSet] after [i--]; one unit of fuel for each round of its loop
    and for each recursive call. *)
Fixpoint bv_set (fuel : nat) (oracle : nat -> bool) (n : nat) (p : Bitvec) (i : Z)
  : option set_result :=
  match fuel with
  | O => None
  | S fuel =>
      let 'BV sz ns dv u := p in
      if (BITVEC_NBIT <? sz) && (dv <>? 0) then
        match u with
        | apSub l =>
            let bin := Z.to_nat (i / dv) in
            let? sub := l !! bin in
            let '(sub, n) := match sub with
                             | Some q => (Some q, n)
                             | None => sqlite3BitvecCreate oracle n dv
                             end in
            match sub with
            | None => Some (SQLITE_NOMEM, p, n)
            | Some q =>
                let? (rc, q, n) := bv_set fuel oracle n q (i mod dv) in
                Some (rc, BV sz ns dv (apSub (<[bin := Some q]> l)), n)
            end
        | _ => None
        end
      else if sz <=? BITVEC_NBIT then
        match u with
        | aBitmap a =>
            let k := Z.to_nat (i / BITVEC_SZELEM) in
            let bit := Z.shiftl 1 (Z.land i (BITVEC_SZELEM - 1)) in
            let? b := a !! k in
            Some (SQLITE_OK, BV sz ns dv (aBitmap (<[k := u8 (Z.lor b bit)]> a)), n)
        | _ => None
        end
      else
        match u with
        | aHash a => set_in_hash (bv_set fuel oracle) oracle n sz ns dv a i
        | _ => None
        end
  end.

Definition set_fuel : nat := 12.

Definition sqlite3BitvecSet (oracle : nat -> bool) (n : nat) (p : option Bitvec) (i : Z)
  : option (Z * option Bitvec * nat) :=
  match p with
  | None => Some (SQLITE_OK, None, n)
  | Some p => let? (rc, p, n) := bv_set set_fuel oracle n p (u32 (i - 1)) in Some (rc, Some p, n)
  end.

(** [while( aHash[h] ) h++]: the next free slot. *)
Fixpoint next_free (fuel : nat) (a : list Z) (hh : Z) : option Z :=
  match fuel with
  | O => None
  | S fuel =>
      let? v := a !! Z.to_nat hh in
      if v =? 0 then Some hh
      else next_free fuel a (if BITVEC_NINT <=? hh + 1 then 0 else hh + 1)
  end.

(** The loop that fills the hash table again, without the value [i + 1]. *)
Fixpoint refill (vals : list Z) (i : Z) (ns : Z) (a : list Z) : option (Z * list Z) :=
  match vals with
  | [] => Some (ns, a)
  | v :: vals =>
      if (v <>? 0) && (v <>? i + 1) then
        let? hh := next_free probe_fuel a (BITVEC_HASH (v - 1)) in
        refill vals i (ns + 1) (<[Z.to_nat hh := v]> a)
      else refill vals i ns a
  end.

(** The body of [sqlite3BitvecClear] after [i--]. *)
Fixpoint bv_clear (fuel : nat) (p : Bitvec) (i : Z) : option Bitvec :=
  match fuel with
  | O => None
  | S fuel =>
      let 'BV sz ns dv u := p in
      if dv <>? 0 then
        match u with
        | apSub l =>
            let bin := Z.to_nat (i / dv) in
            let? sub := l !! bin in
            match sub with
            | None => Some p
            | Some q => let? q := bv_clear fuel q (i mod dv) in
                        Some (BV sz ns dv (apSub (<[bin := Some q]> l)))
            end
        | _ => None
        end
      else if sz <=? BITVEC_NBIT then
        match u with
        | aBitmap a =>
            let k := Z.to_nat (i / BITVEC_SZELEM) in
            let? b := a !! k in
            Some (BV sz ns dv (aBitmap (<[k :=
              Z.land b (u8 (Z.lnot (u8 (Z.shiftl 1 (Z.land i (BITVEC_SZELEM - 1))))))]> a)))
        | _ => None
        end
      else
        match u with
        | aHash a =>
            let? (ns, a) := refill a i 0 (replicate (Z.to_nat BITVEC_NINT) 0) in
            Some (BV sz ns dv (aHash a))
        | _ => None
        end
  end.

Definition sqlite3BitvecClear (p : option Bitvec) (i : Z) : option (option Bitvec) :=
  match p with
  | None => Some None
  | Some p => let? p := bv_clear test_fuel p (u32 (i - 1)) in Some (Some p)
  end.

Definition sqlite3BitvecSize (p : Bitvec) : Z := iSize p.

(** ** The hash table *)

Ltac bv_consts :=
  change BITVEC_NINT with 124 in *; change BITVEC_NBIT with 3968 in *;
  change BITVEC_NPTR with 62 in *; change BITVEC_MXHASH with 62 in *;
  change BITVEC_NELEM with 496 in *; change BITVEC_SZELEM with 8 in *;
  change (Z.to_nat 124) with 124%nat in *; change (Z.to_nat 62) with 62%nat in *;
  change (Z.to_nat 496) with 496%nat in *.

(** The [k]-th slot that a search from slot [h0] looks at. *)
Definition slot (h0 : Z) (k : nat) : nat := Z.to_nat ((h0 + Z.of_nat k) mod 124).

Definition filled (a : list Z) (s : nat) : Prop := exists w, a !! s = Some w /\ w <> 0.

(** Every value is reached from its first slot without a gap. *)
Definition probe_inv (a : list Z) : Prop :=
  forall s v, a !! s = Some v -> v <> 0 ->
  exists k, s = slot (BITVEC_HASH (v - 1)) k /\
    forall j, (j < k)%nat -> filled a (slot (BITVEC_HASH (v - 1)) j).

Lemma slot_lt h0 k : (slot h0 k < 124)%nat.
Proof. unfold slot. pose proof (Z.mod_pos_bound (h0 + Z.of_nat k) 124). lia. Qed.

Lemma slot_next h0 k : (Z.of_nat (slot h0 k) + 1) mod 124 = Z.of_nat (slot h0 (S k)).
Proof.
  unfold slot. pose proof (Z.mod_pos_bound (h0 + Z.of_nat k) 124).
  pose proof (Z.mod_pos_bound (h0 + Z.of_nat (S k)) 124).
  rewrite !Z2Nat.id by lia. rewrite Zplus_mod_idemp_l. f_equal. lia.
Qed.

Lemma slot_reaches h0 e : 0 <= h0 < 124 -> (e < 124)%nat -> exists d, (d < 124)%nat /\ slot h0 d = e.
Proof.
  intros Hh He. exists (Z.to_nat ((Z.of_nat e - h0) mod 124)).
  pose proof (Z.mod_pos_bound (Z.of_nat e - h0) 124). unfold slot. split; [lia|].
  rewrite Z2Nat.id by lia. rewrite Zplus_mod_idemp_r.
  replace (h0 + (Z.of_nat e - h0)) with (Z.of_nat e) by lia. rewrite Z.mod_small by lia. lia.
Qed.

Lemma hash_range x : 0 <= BITVEC_HASH x < 124.
Proof. unfold BITVEC_HASH. bv_consts. apply Z.mod_pos_bound. lia. Qed.

Lemma slot_zero h0 : 0 <= h0 < 124 -> Z.of_nat (slot h0 0) = h0.
Proof. intros Hh. unfold slot. rewrite Z.add_0_r, Z.mod_small by lia. lia. Qed.

(** Where a search for [i] stops: at [i], or at the first free slot. *)
Lemma probe_from a i h0 k d fuel :
  length a = 124%nat -> (k <= d)%nat -> a !! slot h0 d = Some 0 -> (d - k < fuel)%nat ->
  (forall j, (j < k)%nat -> filled a (slot h0 j) /\ a !! slot h0 j <> Some i) ->
  exists found k', probe fuel a (Z.of_nat (slot h0 k)) i = Some (found, Z.of_nat (slot h0 k')) /\
    (forall j, (j < k')%nat -> filled a (slot h0 j) /\ a !! slot h0 j <> Some i) /\
    (if found : bool then a !! slot h0 k' = Some i /\ i <> 0 else a !! slot h0 k' = Some 0).
Proof.
  intros Hl. revert k. induction fuel as [|fuel IH]; intros k Hk He Hf Hb; [lia|].
  cbn [probe]. rewrite Nat2Z.id. pose proof (slot_lt h0 k) as Hs. rewrite <- Hl in Hs.
  apply lookup_lt_is_Some_2 in Hs as [v Hv]. rewrite Hv.
  destruct (Z.eqb_spec v 0) as [->|Hv0]; [by exists false, k|].
  destruct (Z.eqb_spec v i) as [->|Hvi]; [by exists true, k|].
  bv_consts. rewrite slot_next.
  assert (Hne : k <> d) by (intros ->; congruence).
  apply IH; [lia|done|lia|].
  - intros j Hj. destruct (decide (j = k)) as [->|]; [|apply Hb; lia].
    split; [by exists v|]. congruence.
Qed.

Lemma probe_spec a i h0 e : length a = 124%nat -> a !! e = Some 0 -> 0 <= h0 < 124 ->
  exists found k, probe probe_fuel a h0 i = Some (found, Z.of_nat (slot h0 k)) /\
    (forall j, (j < k)%nat -> filled a (slot h0 j) /\ a !! slot h0 j <> Some i) /\
    (if found : bool then a !! slot h0 k = Some i /\ i <> 0 else a !! slot h0 k = Some 0).
Proof.
  intros Hl He Hh. destruct (slot_reaches h0 e Hh) as (d & Hd & <-).
  { rewrite <- Hl. by eapply lookup_lt_Some. }
  pose proof (probe_from a i h0 0 d probe_fuel) as Hp. rewrite slot_zero in Hp by done.
  apply Hp; [done|lia|done|change probe_fuel with 125%nat; lia|lia].
Qed.

(** A search that stops at a free slot shows that the value is absent. *)
Lemma probe_absent a i k : probe_inv a -> i <> 0 ->
  (forall j, (j < k)%nat -> filled a (slot (BITVEC_HASH (i - 1)) j) /\
     a !! slot (BITVEC_HASH (i - 1)) j <> Some i) ->
  a !! slot (BITVEC_HASH (i - 1)) k = Some 0 -> i ∉ a.
Proof.
  intros Hp Hi Hb Hk [s Hs]%list_elem_of_lookup. destruct (Hp s i Hs Hi) as (k' & -> & Hf).
  destruct (Nat.lt_trichotomy k k') as [Hlt|[->|Hlt]].
  - destruct (Hf k Hlt) as (w & Ew & ?). congruence.
  - congruence.
  - by apply (Hb k').
Qed.

Lemma next_free_probe fuel a hh : length a = 124%nat -> 0 <= hh < 124 -> Forall (fun v => 0 <= v) a ->
  next_free fuel a hh = snd <$> probe fuel a hh (-1).
Proof.
  intros Hl Hh Ha. revert hh Hh. induction fuel as [|fuel IH]; intros hh Hh; [done|].
  cbn [next_free probe]. destruct (a !! Z.to_nat hh) as [v|] eqn:Ev; [|done].
  destruct (v =? 0); [done|]. rewrite list.Forall_forall in Ha.
  pose proof (Ha v (list_elem_of_lookup_2 _ _ _ Ev)). rewrite (proj2 (Z.eqb_neq v (-1))) by lia.
  bv_consts. rewrite IH by (case_cond; lia). do 2 f_equal.
  destruct (Z.leb_spec 124 (hh + 1)).
  - replace (hh + 1) with 124 by lia. done.
  - rewrite Z.mod_small by lia. done.
Qed.

(** The number of values. *)
Definition nonzero (v : Z) : bool := v <>? 0.
Definition values (a : list Z) : list Z := filter (fun v => v <> 0) a.
Definition cnt (a : list Z) : nat := length (values a).

Lemma cnt_free a : (cnt a < length a)%nat -> exists e, a !! e = Some 0.
Proof.
  unfold cnt, values. induction a as [|v a IH]; cbn [length]; [lia|]. rewrite filter_cons.
  case_decide as Hv; cbn [length]; intros Hlt.
  - destruct IH as [e He]; [lia|]. by exists (S e).
  - exists 0%nat. cbn. f_equal. destruct (decide (v = 0)); [done|]. by destruct Hv.
Qed.

Lemma values_insert a s v : a !! s = Some 0 -> v <> 0 -> values (<[s := v]> a) ≡ₚ v :: values a.
Proof.
  intros Hs Hv. rewrite insert_take_drop by (by eapply lookup_lt_Some).
  rewrite <- (take_drop_middle a s 0 Hs) at 3. unfold values. rewrite !filter_app, !filter_cons.
  rewrite decide_True by done. rewrite decide_False by (intros E; by apply E).
  by rewrite Permutation_middle.
Qed.

Lemma cnt_insert a s v : a !! s = Some 0 -> v <> 0 -> cnt (<[s := v]> a) = S (cnt a).
Proof. intros Hs Hv. unfold cnt. by rewrite (values_insert a s v). Qed.

Lemma elem_of_values a v : v ∈ values a <-> v ∈ a /\ v <> 0.
Proof. unfold values. rewrite list_elem_of_filter. tauto. Qed.

(** A value put into the free slot where its search stopped. *)
Lemma probe_inv_insert a v k : probe_inv a -> v <> 0 ->
  (forall j, (j < k)%nat -> filled a (slot (BITVEC_HASH (v - 1)) j)) ->
  a !! slot (BITVEC_HASH (v - 1)) k = Some 0 ->
  probe_inv (<[slot (BITVEC_HASH (v - 1)) k := v]> a).
Proof.
  intros Hp Hv Hb Hk. set (s0 := slot _ k) in *.
  assert (Hmono : forall s, filled a s -> filled (<[s0 := v]> a) s).
  { intros s (w & Ew & Hw). exists w. rewrite list_lookup_insert_ne; [done|]. intros ->. congruence. }
  intros s w Ew Hw. destruct (decide (s = s0)) as [->|Hne].
  - rewrite list_lookup_insert_eq in Ew by (by eapply lookup_lt_Some). injection Ew as <-.
    exists k. split; [done|]. intros j Hj. by apply Hmono, Hb.
  - rewrite list_lookup_insert_ne in Ew by done. destruct (Hp s w Ew Hw) as (k' & -> & Hf).
    exists k'. split; [done|]. intros j Hj. by apply Hmono, Hf.
Qed.

(** ** Well-formed vectors and their elements *)

Record hash_wf (sz ns : Z) (a : list Z) : Prop := {
  hw_len : length a = 124%nat;
  hw_range : Forall (fun v => 0 <= v <= sz) a;
  hw_count : ns = Z.of_nat (cnt a);
  hw_room : (cnt a <= 123)%nat;
  hw_probe : probe_inv a
}.

(** The largest vector with [k] levels below its root. *)
Definition cap (k : nat) : Z := 3968 * 62 ^ Z.of_nat k.

Fixpoint bv_wf (k : nat) (p : Bitvec) {struct k} : Prop :=
  let 'BV sz ns dv u := p in
  0 <= sz <= cap k /\ sz < 2 ^ 32 /\
  match u with
  | aBitmap a => sz <= 3968 /\ dv = 0 /\ length a = 496%nat
  | aHash a => 3968 < sz /\ dv = 0 /\ hash_wf sz ns a
  | apSub l => 3968 < sz /\ dv = divisor sz /\ length l = 62%nat /\
      match k with
      | O => False
      | S k => forall b q, l !! b = Some (Some q) -> bv_wf k q /\ iSize q = dv
      end
  end.

(** The elements, counted from 0. *)
Fixpoint bv_mem (k : nat) (p : Bitvec) (i : Z) {struct k} : bool :=
  let 'BV sz ns dv u := p in
  match u with
  | aBitmap a => from_option (fun b => Z.testbit b (i mod 8)) false (a !! Z.to_nat (i / 8))
  | aHash a => bool_decide (i + 1 ∈ a)
  | apSub l =>
      match k with
      | O => false
      | S k => match l !! Z.to_nat (i / dv) with
               | Some (Some q) => bv_mem k q (i mod dv)
               | _ => false
               end
      end
  end.

Lemma cap_S k : cap (S k) = 62 * cap k.
Proof. unfold cap. rewrite Nat2Z.inj_succ, Z.pow_succ_r by lia. lia. Qed.

Lemma cap_pos k : 3968 <= cap k.
Proof. unfold cap. assert (0 < 62 ^ Z.of_nat k) by (apply Z.pow_pos_nonneg; lia). lia. Qed.

Lemma divisor_spec sz : 3968 < sz < 2 ^ 32 ->
  3968 <= divisor sz < 2 ^ 32 /\ sz <= 62 * divisor sz /\
  forall k, sz <= cap (S k) -> divisor sz <= cap k.
Proof.
  intros Hs. unfold divisor. bv_consts.
  assert (Hd : 62 * (sz / 62) + sz mod 62 = sz) by (symmetry; apply Z.div_mod; lia).
  pose proof (Z.mod_pos_bound sz 62). cbv zeta.
  set (d := if sz mod 62 <>? 0 then _ else _).
  assert (Hd' : 0 <= d < 2 ^ 31 /\ sz <= 62 * d /\ 62 * (d - 1) < sz).
  { unfold d. case_cond; rewrite ?u32_small by lia; bool_to_prop; lia. }
  clearbody d. split; [|split].
  - case_cond; lia.
  - case_cond; lia.
  - intros k Hk. rewrite cap_S in Hk. pose proof (cap_pos k). case_cond; lia.
Qed.

Lemma bin_range sz i : 3968 < sz < 2 ^ 32 -> 0 <= i < sz ->
  (Z.to_nat (i / divisor sz) < 62)%nat /\ 0 <= i mod divisor sz < divisor sz.
Proof.
  intros Hs Hi. destruct (divisor_spec sz Hs) as (Hd & Hm & _). split.
  - assert (i / divisor sz < 62) by (apply Z.div_lt_upper_bound; lia). lia.
  - apply Z.mod_pos_bound. lia.
Qed.

Lemma bit_index i : 0 <= i -> Z.land i (8 - 1) = i mod 8 /\ 0 <= i mod 8 < 8.
Proof.
  intros Hi. change (8 - 1) with (Z.ones 3). rewrite Z.land_ones by lia.
  split; [done|]. apply Z.mod_pos_bound. lia.
Qed.

Lemma testbit_land1 b t : 0 <= t -> (Z.land b (Z.shiftl 1 t) <>? 0) = Z.testbit b t.
Proof.
  intros Ht. rewrite Z.shiftl_1_l. destruct (Z.testbit b t) eqn:E.
  - apply negb_true_iff, Z.eqb_neq. intros H0. apply (f_equal (fun x => Z.testbit x t)) in H0.
    rewrite Z.land_spec, Z.pow2_bits_true, E, Z.bits_0 in H0 by lia. done.
  - apply negb_false_iff, Z.eqb_eq. apply Z.bits_inj_0. intros j. rewrite Z.land_spec.
    destruct (decide (j = t)) as [->|Hne]; [by rewrite E|].
    rewrite Z.pow2_bits_false by lia. apply andb_false_r.
Qed.

Lemma testbit_u8 z j : 0 <= j < 8 -> Z.testbit (u8 z) j = Z.testbit z j.
Proof. intros Hj. unfold u8. apply Z.mod_pow2_bits_low. lia. Qed.

Lemma hash_lookup sz ns a i : hash_wf sz ns a -> 0 <= i < 2 ^ 32 - 1 ->
  exists found k, probe probe_fuel a (BITVEC_HASH i) (i + 1) =
      Some (found, Z.of_nat (slot (BITVEC_HASH i) k)) /\
    found = bool_decide (i + 1 ∈ a) /\
    (found = false -> a !! slot (BITVEC_HASH i) k = Some 0 /\
       forall j, (j < k)%nat -> filled a (slot (BITVEC_HASH i) j)).
Proof.
  intros [Hl Hr Hc Hm Hp] Hi. destruct (cnt_free a) as [e He]; [lia|].
  destruct (probe_spec a (i + 1) (BITVEC_HASH i) e Hl He (hash_range i)) as (f & k & E & Hb & Hf).
  exists f, k. split; [done|]. destruct f.
  - split; [|done]. symmetry. apply bool_decide_eq_true_2. destruct Hf as [Hf _].
    by eapply list_elem_of_lookup_2.
  - split; [|intros _; split; [done|]; intros j Hj; by apply Hb]. symmetry. apply bool_decide_eq_false_2.
    apply (probe_absent a (i + 1) k Hp); replace (i + 1 - 1) with i by lia; [lia|done|done].
Qed.

(** The test follows the elements, with one unit of fuel for each level. *)
Lemma bv_test_spec k p i fuel : bv_wf k p -> 0 <= i < iSize p -> (k < fuel)%nat ->
  bv_test fuel p i = Some (bv_mem k p i).
Proof.
  revert p i fuel. induction k as [|k IH]; intros [sz ns dv u] i fuel Hw Hi Hf; cbn [iSize] in Hi;
    (destruct fuel as [|fuel]; [lia|]); cbn [bv_test]; destruct u as [a|a|l]; cbn [bv_wf] in Hw.
  1, 4: destruct Hw as (_ & _ & Hs & -> & Hl); cbn [negb Z.eqb];
    bv_consts; rewrite (proj2 (Z.leb_le sz 3968)) by lia;
    destruct (bit_index i ltac:(lia)) as [-> ?]; cbn [bv_mem];
    destruct (lookup_lt_is_Some_2 a (Z.to_nat (i / 8))) as [b Eb];
      [assert (i / 8 < 496) by (apply Z.div_lt_upper_bound; lia); lia|];
    rewrite Eb; cbn; by rewrite testbit_land1 by lia.
  1, 3: destruct Hw as (_ & Hs2 & Hs & -> & Hh); cbn [negb Z.eqb];
    bv_consts; rewrite (proj2 (Z.leb_gt sz 3968)) by lia;
    destruct (hash_lookup sz ns a i Hh ltac:(lia)) as (f & k' & -> & -> & _); done.
  - tauto.
  - destruct Hw as (_ & Hs2 & Hs & -> & Hl & Hc).
    destruct (divisor_spec sz ltac:(lia)) as (Hd & _). destruct (bin_range sz i ltac:(lia) Hi) as [Hb Hm].
    rewrite (proj2 (Z.eqb_neq (divisor sz) 0)) by lia. cbn [negb bv_mem].
    destruct (l !! Z.to_nat (i / divisor sz)) as [[q|]|] eqn:El; [|done|].
    + destruct (Hc _ _ El) as [Hq Eq]. apply IH; [done|by rewrite Eq|lia].
    + apply lookup_ge_None in El. lia.
Qed.

(** ** Setting a bit *)

(** Numbers with the same quotient are equal when their remainders are. *)
Lemma mod_eqb m i j : 0 < m -> j / m = i / m -> (j mod m =? i mod m) = (j =? i).
Proof.
  intros Hm E. pose proof (Z.div_mod j m). pose proof (Z.div_mod i m).
  destruct (Z.eqb_spec (j mod m) (i mod m)), (Z.eqb_spec j i); try done; [nia|congruence].
Qed.

Definition is_sub (p : Bitvec) : bool :=
  let 'BV _ _ _ u := p in match u with apSub _ => true | _ => false end.

(** What a call that sets bits promises: [add] is the set of the new elements. *)
Definition set_ok (oracle : nat -> bool) (k : nat) (p : Bitvec) (add : Z -> bool) (rc : Z)
  (p' : Bitvec) : Prop :=
  bv_wf k p' /\ iSize p' = iSize p /\ (is_sub p = true -> is_sub p' = true) /\
  (rc <> SQLITE_OK -> exists m, oracle m = false) /\
  ((rc = SQLITE_OK /\
    forall j, 0 <= j < iSize p -> bv_mem k p' j = add j || bv_mem k p j) \/
   (rc = SQLITE_NOMEM /\
    forall j, 0 <= j < iSize p -> bv_mem k p' j = true -> add j || bv_mem k p j = true)).

(** The fuel a vector needs: each level below may be split once. *)
Definition need (k : nat) (p : Bitvec) : nat := if is_sub p then 2 * k else S (2 * k).

Lemma set_bitmap k sz ns dv a i : bv_wf k (BV sz ns dv (aBitmap a)) -> 0 <= i < sz ->
  exists b, a !! Z.to_nat (i / 8) = Some b /\
  let a' := <[Z.to_nat (i / 8) := u8 (Z.lor b (Z.shiftl 1 (i mod 8)))]> a in
  bv_wf k (BV sz ns dv (aBitmap a')) /\
  forall j, 0 <= j < sz ->
    bv_mem k (BV sz ns dv (aBitmap a')) j = (j =? i) || bv_mem k (BV sz ns dv (aBitmap a)) j.
Proof.
  intros Hw Hi. pose proof (Z.mod_pos_bound i 8 ltac:(lia)).
  assert (Ha : length a = 496%nat /\ sz <= 3968) by (destruct k; cbn in Hw; intuition).
  destruct (lookup_lt_is_Some_2 a (Z.to_nat (i / 8))) as [b Eb];
    [assert (i / 8 < 496) by (apply Z.div_lt_upper_bound; lia); lia|].
  exists b. split; [done|]. cbv zeta. split.
  { destruct k; cbn [bv_wf] in *; by rewrite length_insert. }
  intros j Hj. pose proof (Z.mod_pos_bound j 8 ltac:(lia)).
  assert (Hmem : forall a, bv_mem k (BV sz ns dv (aBitmap a)) j =
    from_option (fun b => Z.testbit b (j mod 8)) false (a !! Z.to_nat (j / 8))) by (by destruct k).
  rewrite !Hmem. destruct (decide (j / 8 = i / 8)) as [E|E].
  - rewrite E, list_lookup_insert_eq, Eb by (by eapply lookup_lt_Some). cbn.
    rewrite testbit_u8, Z.lor_spec, Z.shiftl_1_l, Z.pow2_bits_eqb by lia.
    rewrite (Z.eqb_sym (i mod 8)), mod_eqb by (done || lia). apply orb_comm.
  - rewrite list_lookup_insert_ne by (pose proof (Z.div_pos i 8); pose proof (Z.div_pos j 8); lia).
    rewrite (proj2 (Z.eqb_neq j i)) by (intros ->; done). done.
Qed.

Lemma set_hash_add k sz ns a i kk : bv_wf k (BV sz ns 0 (aHash a)) -> 0 <= i < sz -> ns < 123 ->
  a !! slot (BITVEC_HASH i) kk = Some 0 ->
  (forall j, (j < kk)%nat -> filled a (slot (BITVEC_HASH i) j)) ->
  let a' := <[slot (BITVEC_HASH i) kk := i + 1]> a in
  bv_wf k (BV sz (ns + 1) 0 (aHash a')) /\
  forall j, bv_mem k (BV sz (ns + 1) 0 (aHash a')) j = (j =? i) || bv_mem k (BV sz ns 0 (aHash a)) j \/ j < 0.
Proof.
  intros Hw Hi Hns Hs Hb. cbv zeta.
  assert (Hh : hash_wf sz ns a) by (destruct k; cbn in Hw; intuition).
  assert (Hi1 : i = i + 1 - 1) by lia.
  assert (Hh' : hash_wf sz (ns + 1) (<[slot (BITVEC_HASH i) kk := i + 1]> a)).
  { destruct Hh as [Hl Hr Hc Hm Hp]. split.
    - by rewrite length_insert.
    - apply Forall_insert; [done|lia].
    - rewrite cnt_insert by (done || lia). lia.
    - rewrite cnt_insert by (done || lia). lia.
    - pose proof (probe_inv_insert a (i + 1) kk Hp) as Hq. rewrite <- Hi1 in Hq. apply Hq; [lia|done|done]. }
  split.
  { destruct k; cbn [bv_wf] in *; intuition. }
  intros j. destruct (Z.ltb_spec j 0) as [|Hj]; [by right|left].
  assert (Hmem : forall ns a, bv_mem k (BV sz ns 0 (aHash a)) j = bool_decide (j + 1 ∈ a)) by (by destruct k).
  rewrite !Hmem. pose proof (values_insert a _ (i + 1) Hs ltac:(lia)) as Hv.
  assert (Hin : j + 1 ∈ <[slot (BITVEC_HASH i) kk := i + 1]> a <-> j = i \/ j + 1 ∈ a).
  { pose proof (elem_of_values (<[slot (BITVEC_HASH i) kk := i + 1]> a) (j + 1)) as E1.
    pose proof (elem_of_values a (j + 1)) as E2. rewrite Hv, elem_of_cons in E1.
    assert (j + 1 <> 0) by lia. assert (j + 1 = i + 1 <-> j = i) by lia. tauto. }
  destruct (Z.eqb_spec j i) as [E|E]; cbn [orb].
  - apply bool_decide_eq_true_2. tauto.
  - apply bool_decide_ext. tauto.
Qed.

Lemma new_wf k sz : 0 <= sz <= cap k -> sz < 2 ^ 32 ->
  bv_wf k (new_bitvec sz) /\ (forall j, 0 <= j -> bv_mem k (new_bitvec sz) j = false) /\
  is_sub (new_bitvec sz) = false.
Proof.
  intros Hs H32. unfold new_bitvec. bv_consts. destruct (Z.leb_spec sz 3968).
  - split; [|split]; [destruct k; cbn [bv_wf]; rewrite length_replicate; lia| |done].
    intros j Hj. assert (E : forall a, bv_mem k (BV sz 0 0 (aBitmap a)) j =
      from_option (fun b => Z.testbit b (j mod 8)) false (a !! Z.to_nat (j / 8))) by (by destruct k).
    rewrite E. destruct (replicate 496 0 !! Z.to_nat (j / 8)) as [b|] eqn:Eb; [|done].
    apply lookup_replicate in Eb as [-> _]. apply Z.bits_0.
  - assert (Hh : hash_wf sz 0 (replicate 124 0)).
    { split; [done| |done|apply Nat.leb_le; by vm_compute|].
      - apply Forall_replicate. lia.
      - intros s v [-> _]%lookup_replicate. done. }
    split; [|split; [|done]].
    + destruct k; cbn [bv_wf]; split_and!; (done || lia).
    + intros j Hj. assert (E : bv_mem k (BV sz 0 0 (aHash (replicate 124 0))) j =
        bool_decide (j + 1 ∈ replicate 124 0)) by (by destruct k).
      rewrite E. apply bool_decide_eq_false_2. intros [s Hs']%list_elem_of_lookup.
      apply lookup_replicate in Hs' as [? _]. lia.
Qed.

(** Setting a bit of one sub-vector. *)
Lemma set_sub oracle k sz ns l i q q' rc : 3968 < sz ->
  bv_wf (S k) (BV sz ns (divisor sz) (apSub l)) -> 0 <= i < sz ->
  (l !! Z.to_nat (i / divisor sz) = Some (Some q) \/
   (l !! Z.to_nat (i / divisor sz) = Some None /\ forall j, 0 <= j -> bv_mem k q j = false)) ->
  iSize q = divisor sz -> set_ok oracle k q (fun j => j =? i mod divisor sz) rc q' ->
  set_ok oracle (S k) (BV sz ns (divisor sz) (apSub l)) (fun j => j =? i) rc
    (BV sz ns (divisor sz) (apSub (<[Z.to_nat (i / divisor sz) := Some q']> l))).
Proof.
  intros Hs Hw Hi Hq Hsz (Wq & Sq & _ & Oq & Mq). cbn [bv_wf] in Hw.
  destruct Hw as (Hc & H32 & _ & _ & Hl & Hch). set (dv := divisor sz) in *. set (bin := Z.to_nat (i / dv)) in *.
  destruct (divisor_spec sz ltac:(lia)) as (Hd & _). fold dv in Hd.
  destruct (bin_range sz i ltac:(lia) Hi) as [Hb Hm]. fold dv bin in Hb, Hm.
  split; [|split; [done|split; [done|split; [done|]]]].
  { cbn [bv_wf]. rewrite length_insert. split_and!; try done; try lia. intros b r Hr.
    destruct (decide (b = bin)) as [->|Hne].
    - rewrite list_lookup_insert_eq in Hr by lia. injection Hr as <-. by rewrite Sq.
    - rewrite list_lookup_insert_ne in Hr by done. by apply (Hch b). }
  assert (Hold : forall j, j / dv = i / dv -> 0 <= j ->
    bv_mem (S k) (BV sz ns dv (apSub l)) j = bv_mem k q (j mod dv)).
  { intros j Ej Hj. cbn [bv_mem]. rewrite Ej. fold bin. destruct Hq as [->|[-> Hz]]; [done|].
    symmetry. apply Hz. apply Z.mod_pos_bound. lia. }
  assert (Hnew : forall j, bv_mem (S k) (BV sz ns dv (apSub (<[bin := Some q']> l))) j =
    if decide (Z.to_nat (j / dv) = bin) then bv_mem k q' (j mod dv)
    else bv_mem (S k) (BV sz ns dv (apSub l)) j).
  { intros j. cbn [bv_mem]. case_decide as E.
    - by rewrite E, list_lookup_insert_eq by lia.
    - by rewrite list_lookup_insert_ne. }
  assert (Hbin : forall j, 0 <= j -> Z.to_nat (j / dv) = bin <-> j / dv = i / dv).
  { intros j Hj. unfold bin. pose proof (Z.div_pos j dv). pose proof (Z.div_pos i dv). lia. }
  assert (Heq : forall j, j / dv = i / dv -> (j mod dv =? i mod dv) = (j =? i)).
  { intros j Ej. apply mod_eqb; [lia|done]. }
  assert (Hne : forall j, j / dv <> i / dv -> (j =? i) = false).
  { intros j Ej. apply Z.eqb_neq. congruence. }
  cbn [iSize]. rewrite Hsz in Mq.
  destruct Mq as [[-> Mq]|[-> Mq]]; [left|right]; (split; [done|]); intros j Hj; rewrite Hnew;
    pose proof (Z.mod_pos_bound j dv ltac:(lia)); case_decide as E; rewrite Hbin in E by lia.
  - rewrite Mq, Heq, Hold by (done || lia). done.
  - by rewrite Hne.
  - intros Hjm. rewrite Hold by (done || lia). rewrite <- Heq by done. by apply Mq.
  - rewrite Hne by done. done.
Qed.

(** Putting a list of values into a vector that has been split. *)
Lemma set_values_spec oracle k set sz vals rc p n :
  (forall p n i, bv_wf k p -> is_sub p = true -> iSize p = sz -> 0 <= i < sz ->
     exists rc p' n', set n p i = Some (rc, p', n') /\ set_ok oracle k p (fun j => j =? i) rc p') ->
  Forall (fun v => 0 <= v <= sz) vals -> bv_wf k p -> is_sub p = true -> iSize p = sz ->
  rc = SQLITE_OK \/ rc = SQLITE_NOMEM ->
  exists rc' p' n', set_values set vals (rc, p, n) = Some (rc', p', n') /\
    (rc <> SQLITE_OK -> rc' = SQLITE_NOMEM) /\
    set_ok (fun n => oracle n && (rc =? SQLITE_OK)) k p (fun j => bool_decide (j + 1 ∈ vals)) rc' p'.
Proof.
  intros Hset Hv. revert rc p n. induction Hv as [|v vals Hv Hvs IH]; intros rc p n Hw Hs Hz Hrc.
  { exists rc, p, n. split; [done|]. split; [intuition congruence|].
    split; [done|]. split; [done|]. split; [done|]. split.
    - intros Hne. exists O. rewrite (proj2 (Z.eqb_neq rc _)) by done. apply andb_false_r.
    - destruct Hrc as [->| ->]; [left|right]; (split; [done|]); intros j _; [done|].
      intros ->. apply orb_true_r. }
  cbn [set_values]. destruct (Z.eqb_spec v 0) as [->|Hv0].
  { destruct (IH rc p n Hw Hs Hz Hrc) as (rc' & p' & n' & E & Hr & W & Z' & S' & O' & M').
    exists rc', p', n'. split; [done|]. split; [done|]. split; [done|]. split; [done|].
    split; [done|]. split; [done|].
    assert (Hb : forall j, 0 <= j -> bool_decide (j + 1 ∈ 0 :: vals) = bool_decide (j + 1 ∈ vals)).
    { intros j Hj. apply bool_decide_ext. rewrite elem_of_cons. assert (j + 1 <> 0) by lia. tauto. }
    destruct M' as [[E0 M']|[E0 M']]; [left|right]; (split; [done|]); intros j Hj; rewrite Hb by lia; auto. }
  destruct (Hset p n (v - 1) Hw Hs Hz) as (rc1 & p1 & n1 & -> & W1 & Z1 & S1 & O1 & M1); [lia|].
  destruct (IH (Z.lor rc rc1) p1 n1) as (rc' & p' & n' & E & Hr & W & Z' & S' & O' & M');
    [done|by apply S1|congruence| |].
  { destruct Hrc as [->| ->], M1 as [[-> _]|[-> _]]; auto. }
  exists rc', p', n'. split; [done|].
  assert (Hb : forall j, bool_decide (j + 1 ∈ v :: vals) = (j =? v - 1) || bool_decide (j + 1 ∈ vals)).
  { intros j. destruct (Z.eqb_spec j (v - 1)); cbn [orb].
    - apply bool_decide_eq_true_2. rewrite elem_of_cons. left. lia.
    - apply bool_decide_ext. rewrite elem_of_cons. split; [intros [?|?]; [lia|done]|auto]. }
  rewrite Z1, Hz in Z', M'. rewrite Hz in M1.
  split; [|split; [done|split; [by rewrite Hz|split; [by auto|split]]]].
  - intros Hne. apply Hr. destruct Hrc as [->| ->], M1 as [[-> _]|[-> _]]; done.
  - intros Hne. destruct Hrc as [->| ->]; [|exists O; apply andb_false_r].
    destruct M1 as [[-> _]|[-> _]]; [by apply O'|].
    destruct O1 as [m Hm]; [done|]. exists m. by rewrite Hm.
  - rewrite Hz. destruct M' as [[-> M']|[-> M']]; [left|right]; (split; [done|]); intros j Hj; rewrite Hb.
    + destruct Hrc as [->| ->].
      2:{ destruct M1 as [[-> _]|[-> _]]; discriminate (Hr ltac:(done)). }
      destruct M1 as [[-> M1]|[-> _]]; [|discriminate (Hr ltac:(done))].
      rewrite M', M1 by done. destruct (j =? v - 1), (bool_decide _); done.
    + intros Hm. apply M' in Hm; [|done]. apply orb_true_iff in Hm as [->|Hm]; [by rewrite orb_true_r|].
      destruct M1 as [[_ M1]|[_ M1]]; [rewrite M1 in Hm by done|apply M1 in Hm; [|done]];
        destruct (j =? v - 1), (bool_decide _); done.
Qed.

Lemma set_ok_same oracle k p i : bv_wf k p -> bv_mem k p i = true ->
  set_ok oracle k p (fun j => j =? i) SQLITE_OK p.
Proof.
  intros Hw Hm. do 4 (split; [done|]). left. split; [done|]. intros j Hj.
  destruct (Z.eqb_spec j i) as [->|]; [|done]. by rewrite Hm.
Qed.

Lemma set_ok_nomem oracle k p add n : bv_wf k p -> oracle n = false ->
  set_ok oracle k p add SQLITE_NOMEM p.
Proof.
  intros Hw Ho. do 3 (split; [done|]). split; [by exists n|]. right.
  split; [done|]. intros j Hj ->. apply orb_true_r.
Qed.

(** The split of a hash table: first the new value, then the old ones. *)
Lemma set_split oracle k sz ns a i f n : bv_wf (S k) (BV sz ns 0 (aHash a)) -> 0 <= i < sz ->
  (forall p n i, bv_wf (S k) p -> is_sub p = true -> iSize p = sz -> 0 <= i < sz ->
     exists rc p' n', f n p i = Some (rc, p', n') /\ set_ok oracle (S k) p (fun j => j =? i) rc p') ->
  exists rc p' n', (let? (rc, q, n) := f n (BV sz ns (divisor sz) (apSub (replicate 62 None))) i in
      set_values f a (rc, q, n)) = Some (rc, p', n') /\
    set_ok oracle (S k) (BV sz ns 0 (aHash a)) (fun j => j =? i) rc p'.
Proof.
  intros Hw Hi Hf. destruct Hw as (Hc & H32 & Hs & _ & Hh).
  set (q0 := BV sz ns (divisor sz) _).
  assert (Wq : bv_wf (S k) q0).
  { cbn [bv_wf q0]. split_and!; try done; try lia. by intros b r [? _]%lookup_replicate. }
  assert (Mq : forall j, bv_mem (S k) q0 j = false).
  { intros j. unfold q0. cbn [bv_mem]. destruct (replicate 62 None !! _) as [[r|]|] eqn:E; [|done|done].
    by apply lookup_replicate in E as [? _]. }
  destruct (Hf q0 n i Wq) as (rc1 & p1 & n1 & -> & W1 & Z1 & S1 & O1 & M1); [done|done|done|].
  destruct (set_values_spec oracle (S k) f sz a rc1 p1 n1 Hf) as (rc & p' & n' & -> & Hr & W & Z' & S' & O' & M');
    [apply Hh|done|by apply S1|done|destruct M1 as [[-> _]|[-> _]]; auto|].
  exists rc, p', n'. split; [done|]. rewrite Z1 in Z', M'. cbn [iSize q0] in *.
  split; [done|]. split; [done|]. split; [done|]. split.
  { intros Hne. destruct M1 as [[-> _]|[-> _]]; [|by apply O1].
    destruct (O' Hne) as [m Hm]. exists m. by rewrite andb_true_r in Hm. }
  destruct M' as [[-> M']|[-> M']]; [left|right]; (split; [done|]); intros j Hj;
    change (bv_mem (S k) (BV sz ns 0 (aHash a)) j) with (bool_decide (j + 1 ∈ a)).
  - destruct M1 as [[-> M1]|[-> _]]; [|discriminate (Hr ltac:(done))].
    rewrite M', M1, Mq by done. rewrite orb_false_r. apply orb_comm.
  - intros Hm. apply M' in Hm; [|done]. apply orb_true_iff in Hm as [->|Hm]; [apply orb_true_r|].
    destruct M1 as [[_ M1]|[_ M1]]; [rewrite M1, Mq, orb_false_r in Hm by done; by rewrite Hm|].
    apply M1 in Hm; [|done]. rewrite Mq, orb_false_r in Hm. by rewrite Hm.
Qed.

Lemma hash_level k sz ns dv a : bv_wf k (BV sz ns dv (aHash a)) -> exists k', k = S k'.
Proof.
  destruct k as [|k]; [|by exists k]. intros (Hc & _ & Hs & _). change (cap 0) with 3968 in Hc. lia.
Qed.

Lemma set_in_hash_spec oracle set k sz ns a i n :
  bv_wf (S k) (BV sz ns 0 (aHash a)) -> 0 <= i < sz ->
  (forall p n i, bv_wf (S k) p -> is_sub p = true -> iSize p = sz -> 0 <= i < sz ->
     exists rc p' n', set n p i = Some (rc, p', n') /\ set_ok oracle (S k) p (fun j => j =? i) rc p') ->
  exists rc p' n', set_in_hash set oracle n sz ns 0 a i = Some (rc, p', n') /\
    set_ok oracle (S k) (BV sz ns 0 (aHash a)) (fun j => j =? i) rc p'.
Proof.
  intros Hw Hi Hset. pose proof Hw as (Hc & H32 & Hs & _ & Hh). unfold set_in_hash. bv_consts.
  rewrite (u32_small (i + 1)) by lia.
  set (good := fun r : option set_result => exists rc p' n', r = Some (rc, p', n') /\
    set_ok oracle (S k) (BV sz ns 0 (aHash a)) (fun j => j =? i) rc p').
  assert (Add : forall kk, ns < 123 -> a !! slot (BITVEC_HASH i) kk = Some 0 ->
    (forall j, (j < kk)%nat -> filled a (slot (BITVEC_HASH i) j)) ->
    good (set_end n sz ns 0 a (i + 1) (Z.of_nat (slot (BITVEC_HASH i) kk)))).
  { intros kk Hns Hk Hb. unfold good, set_end.
    rewrite Nat2Z.id, u32_small by (pose proof (hw_count _ _ _ Hh); lia).
    destruct (set_hash_add (S k) sz ns a i kk Hw Hi Hns Hk Hb) as [W M].
    do 3 eexists. split; [done|]. split; [exact W|]. do 3 (split; [done|]). left. split; [done|].
    intros j Hj. destruct (M j) as [->|]; [done|lia]. }
  assert (Re : forall kk, (ns < 123 -> a !! slot (BITVEC_HASH i) kk = Some 0 /\
      forall j, (j < kk)%nat -> filled a (slot (BITVEC_HASH i) j)) ->
    good (set_rehash set oracle n sz ns 0 a (i + 1) (Z.of_nat (slot (BITVEC_HASH i) kk)))).
  { intros kk Hkk. unfold set_rehash. bv_consts. replace (i + 1 - 1) with i by lia.
    destruct (Z.leb_spec 62 ns); [|by apply Add; [lia|apply Hkk; lia..]].
    destruct (oracle n) eqn:Eo; cbn [negb].
    - by apply set_split.
    - do 3 eexists. split; [done|]. by apply (set_ok_nomem _ _ _ _ n). }
  pose proof (hash_range i) as Hr0. pose proof (hw_len _ _ _ Hh) as Hl.
  destruct (lookup_lt_is_Some_2 a (Z.to_nat (BITVEC_HASH i))) as [v Ev]; [lia|]. rewrite Ev.
  assert (E0 : slot (BITVEC_HASH i) 0 = Z.to_nat (BITVEC_HASH i))
    by (rewrite <- (Nat2Z.id (slot _ 0)), slot_zero by done; done).
  destruct (Z.eqb_spec v 0) as [->|Hv].
  - change (124 - 1) with 123. rewrite <- (slot_zero (BITVEC_HASH i) Hr0).
    destruct (Z.ltb_spec ns 123); [apply Add|apply Re]; try done; try lia; by rewrite E0.
  - destruct (hash_lookup sz ns a i Hh ltac:(lia)) as (f & kk & -> & -> & Hfree).
    case_bool_decide as Hin; [|apply Re; intros _; by apply Hfree].
    do 3 eexists. split; [done|]. apply set_ok_same; [done|]. cbn. by apply bool_decide_eq_true_2.
Qed.

(** Setting a bit terminates within the fuel, whatever the allocator does. *)
Lemma bv_set_spec oracle fuel k p i n : bv_wf k p -> 0 <= i < iSize p -> (need k p <= fuel)%nat ->
  exists rc p' n', bv_set fuel oracle n p i = Some (rc, p', n') /\
    set_ok oracle k p (fun j => j =? i) rc p'.
Proof.
  revert k p i n. induction fuel as [|fuel IH]; intros k [sz ns dv u] i n Hw Hi Hf; cbn [iSize] in Hi.
  { unfold need in Hf. destruct u; cbn in Hf; try lia. destruct k; [|lia]. cbn in Hw. tauto. }
  cbn [bv_set]. bv_consts. destruct u as [a|a|l].
  - assert (Hs : sz <= 3968 /\ dv = 0) by (destruct k; cbn in Hw; intuition). destruct Hs as [Hs ->].
    rewrite (proj2 (Z.ltb_ge 3968 sz)), (proj2 (Z.leb_le sz 3968)) by lia. cbn [andb].
    destruct (bit_index i ltac:(lia)) as [-> _].
    destruct (set_bitmap k sz ns 0 a i Hw Hi) as (b & -> & W & M).
    do 3 eexists. split; [done|]. split; [exact W|]. do 3 (split; [done|]). left. done.
  - destruct (hash_level _ _ _ _ _ Hw) as [k' ->]. pose proof Hw as (Hc & H32 & Hs & -> & Hh).
    cbn [negb Z.eqb]. rewrite andb_false_r, (proj2 (Z.leb_gt sz 3968)) by lia.
    apply set_in_hash_spec; [done|done|]. intros p m j Wp Sp Zp Hj. apply IH; [done|lia|].
    unfold need in *. rewrite Sp. cbn in Hf. lia.
  - destruct k as [|k]; [cbn in Hw; tauto|]. pose proof Hw as (Hc & H32 & Hs & -> & Hl & Hch).
    destruct (divisor_spec sz ltac:(lia)) as (Hd & _ & Hcap). specialize (Hcap k ltac:(lia)).
    destruct (bin_range sz i ltac:(lia) Hi) as [Hb Hm].
    rewrite (proj2 (Z.ltb_lt 3968 sz)), (proj2 (Z.eqb_neq (divisor sz) 0)) by lia. cbn [negb andb].
    unfold need in Hf. cbn [is_sub] in Hf.
    destruct (l !! Z.to_nat (i / divisor sz)) as [[q|]|] eqn:El.
    3:{ apply lookup_ge_None in El. lia. }
    + destruct (Hch _ _ El) as [Wq Eq].
      destruct (IH k q (i mod divisor sz) n Wq) as (rc & q' & n' & -> & Hok); [lia|unfold need; case_cond; lia|].
      do 3 eexists. split; [done|]. apply (set_sub _ _ _ _ _ _ q); [lia|done|done|by left|done|done].
    + unfold sqlite3BitvecCreate. destruct (oracle n) eqn:Eo.
      2:{ do 3 eexists. split; [done|]. by apply (set_ok_nomem _ _ _ _ n). }
      destruct (new_wf k (divisor sz)) as (Wq & Mq & Sq); [lia|lia|].
      destruct (IH k (new_bitvec (divisor sz)) (i mod divisor sz) (S n) Wq) as (rc & q' & n' & -> & Hok);
        [done|unfold need; rewrite Sq; lia|].
      do 3 eexists. split; [done|].
      apply (set_sub _ _ _ _ _ _ (new_bitvec (divisor sz))); [lia|done|done|by right|done|done].
Qed.

(** ** Clearing a bit *)

Lemma next_free_spec sz ns a h0 : hash_wf sz ns a -> 0 <= h0 < 124 ->
  exists k, next_free probe_fuel a h0 = Some (Z.of_nat (slot h0 k)) /\
    a !! slot h0 k = Some 0 /\ forall j, (j < k)%nat -> filled a (slot h0 j).
Proof.
  intros [Hl Hr Hc Hm Hp] Hh. destruct (cnt_free a) as [e He]; [lia|].
  assert (Hpos : Forall (fun v => 0 <= v) a) by (eapply Forall_impl; [exact Hr|]; cbn; lia).
  rewrite next_free_probe by done.
  destruct (probe_spec a (-1) h0 e Hl He Hh) as (f & k & -> & Hb & Hf). exists k. split; [done|].
  destruct f.
  - destruct Hf as [Hf _]. rewrite list.Forall_forall in Hpos.
    pose proof (Hpos (-1) (list_elem_of_lookup_2 _ _ _ Hf)). lia.
  - split; [done|]. intros j Hj. by apply Hb.
Qed.

(** Filling the table again, in any state in which there is room for the rest. *)
Lemma refill_spec sz vals i ns a : hash_wf sz ns a -> Forall (fun v => 0 <= v <= sz) vals ->
  (cnt a + cnt vals <= 123)%nat ->
  exists ns' a', refill vals i ns a = Some (ns', a') /\ hash_wf sz ns' a' /\
    forall v, v <> 0 -> v ∈ a' <-> v ∈ a \/ (v ∈ vals /\ v <> i + 1).
Proof.
  intros Hh Hv. revert ns a Hh. induction Hv as [|v vals Hv Hvs IH]; intros ns a Hh Hroom.
  { exists ns, a. split; [done|]. split; [done|]. intros v _. rewrite elem_of_nil. tauto. }
  cbn [refill]. destruct (Z.eqb_spec v 0) as [->|Hv0]; cbn [negb andb].
  { destruct (IH ns a Hh) as (ns' & a' & -> & Hh' & Hm); [exact Hroom|].
    exists ns', a'. split; [done|]. split; [done|]. intros w Hw. rewrite Hm, elem_of_cons by done. tauto. }
  assert (Hcnt : cnt (v :: vals) = S (cnt vals)).
  { unfold cnt, values. rewrite filter_cons, decide_True by done. done. }
  destruct (Z.eqb_spec v (i + 1)) as [->|Hvi]; cbn [negb].
  { destruct (IH ns a Hh) as (ns' & a' & -> & Hh' & Hm); [lia|].
    exists ns', a'. split; [done|]. split; [done|]. intros w Hw. rewrite Hm, elem_of_cons by done. tauto. }
  destruct (next_free_spec sz ns a (BITVEC_HASH (v - 1)) Hh (hash_range _)) as (k & -> & Hk & Hb).
  rewrite Nat2Z.id. set (b := <[slot (BITVEC_HASH (v - 1)) k := v]> a).
  assert (Hc : cnt b = S (cnt a)) by (by apply cnt_insert).
  assert (Hh1 : hash_wf sz (ns + 1) b).
  { destruct Hh as [Hl Hr Hn Hm Hp]. split.
    - unfold b. by rewrite length_insert.
    - by apply Forall_insert.
    - lia.
    - lia.
    - by apply probe_inv_insert. }
  destruct (IH (ns + 1) b Hh1) as (ns' & a' & -> & Hh' & Hm); [lia|].
  exists ns', a'. split; [done|]. split; [done|]. intros w Hw. rewrite Hm, elem_of_cons by done.
  assert (Hin : w ∈ b <-> w = v \/ w ∈ a).
  { pose proof (elem_of_values b w) as E1. pose proof (elem_of_values a w) as E2.
    unfold b in E1 at 1. rewrite (values_insert a _ v Hk Hv0), elem_of_cons in E1. tauto. }
  rewrite Hin. assert (w = v -> w <> i + 1) by congruence. tauto.
Qed.

(** What clearing promises. *)
Definition clear_ok (k : nat) (p : Bitvec) (i : Z) (p' : Bitvec) : Prop :=
  bv_wf k p' /\ iSize p' = iSize p /\
  forall j, 0 <= j < iSize p -> bv_mem k p' j = negb (j =? i) && bv_mem k p j.

Lemma clear_bitmap k sz ns dv a i : bv_wf k (BV sz ns dv (aBitmap a)) -> 0 <= i < sz ->
  exists b, a !! Z.to_nat (i / 8) = Some b /\
  clear_ok k (BV sz ns dv (aBitmap a)) i (BV sz ns dv (aBitmap
    (<[Z.to_nat (i / 8) := Z.land b (u8 (Z.lnot (u8 (Z.shiftl 1 (i mod 8)))))]> a))).
Proof.
  intros Hw Hi. pose proof (Z.mod_pos_bound i 8 ltac:(lia)).
  assert (Ha : length a = 496%nat /\ sz <= 3968) by (destruct k; cbn in Hw; intuition).
  destruct (lookup_lt_is_Some_2 a (Z.to_nat (i / 8))) as [b Eb];
    [assert (i / 8 < 496) by (apply Z.div_lt_upper_bound; lia); lia|].
  exists b. split; [done|]. split; [|split; [done|]].
  { destruct k; cbn [bv_wf] in *; by rewrite length_insert. }
  cbn [iSize]. intros j Hj. pose proof (Z.mod_pos_bound j 8 ltac:(lia)).
  assert (Hmem : forall a, bv_mem k (BV sz ns dv (aBitmap a)) j =
    from_option (fun b => Z.testbit b (j mod 8)) false (a !! Z.to_nat (j / 8))) by (by destruct k).
  rewrite !Hmem. destruct (decide (j / 8 = i / 8)) as [E|E].
  - rewrite E, list_lookup_insert_eq, Eb by (by eapply lookup_lt_Some). cbn.
    rewrite Z.land_spec, testbit_u8, Z.lnot_spec, testbit_u8, Z.shiftl_1_l, Z.pow2_bits_eqb by lia.
    rewrite (Z.eqb_sym (i mod 8)), mod_eqb by (done || lia). apply andb_comm.
  - rewrite list_lookup_insert_ne by (pose proof (Z.div_pos i 8); pose proof (Z.div_pos j 8); lia).
    rewrite (proj2 (Z.eqb_neq j i)) by (intros ->; done). done.
Qed.

Lemma clear_hash k sz ns a i : bv_wf (S k) (BV sz ns 0 (aHash a)) -> 0 <= i < sz ->
  exists ns' a', refill a i 0 (replicate 124 0) = Some (ns', a') /\
    clear_ok (S k) (BV sz ns 0 (aHash a)) i (BV sz ns' 0 (aHash a')).
Proof.
  intros Hw Hi. pose proof Hw as (Hc & H32 & Hs & _ & Hh).
  assert (Hz : hash_wf sz 0 (replicate 124 0)).
  { destruct (new_wf (S k) sz) as (W & _); [lia|lia|]. unfold new_bitvec in W. bv_consts.
    rewrite (proj2 (Z.leb_gt sz 3968)) in W by lia. apply W. }
  destruct (refill_spec sz a i 0 (replicate 124 0) Hz (hw_range _ _ _ Hh)) as (ns' & a' & -> & Hh' & Hm).
  { change (cnt (replicate 124 0)) with 0%nat. apply Hh. }
  exists ns', a'. split; [done|]. split; [|split; [done|]].
  { cbn [bv_wf]. split_and!; (done || lia). }
  intros j Hj. cbn [bv_mem]. specialize (Hm (j + 1) ltac:(lia)).
  assert (Hno : j + 1 ∉ replicate 124 0).
  { intros [s Hs']%list_elem_of_lookup. apply lookup_replicate in Hs' as [? _]. lia. }
  destruct (Z.eqb_spec j i) as [->|Hne]; cbn [negb andb].
  - apply bool_decide_eq_false_2. tauto.
  - apply bool_decide_ext. assert (j + 1 <> i + 1) by lia. tauto.
Qed.

Lemma bv_clear_spec k p i fuel : bv_wf k p -> 0 <= i < iSize p -> (k < fuel)%nat ->
  exists p', bv_clear fuel p i = Some p' /\ clear_ok k p i p'.
Proof.
  revert p i fuel. induction k as [|k IH]; intros [sz ns dv u] i fuel Hw Hi Hf; cbn [iSize] in Hi;
    (destruct fuel as [|fuel]; [lia|]); cbn [bv_clear]; destruct u as [a|a|l].
  1, 4: assert (Hs : sz <= 3968 /\ dv = 0) by (cbn in Hw; intuition); destruct Hs as [Hs ->];
    cbn [negb Z.eqb]; bv_consts; rewrite (proj2 (Z.leb_le sz 3968)) by lia;
    destruct (bit_index i ltac:(lia)) as [-> _];
    destruct (clear_bitmap _ sz ns 0 a i Hw Hi) as (b & -> & Hok); by eexists.
  - destruct (hash_level _ _ _ _ _ Hw) as [k' [=]].
  - cbn in Hw. tauto.
  - pose proof Hw as (Hc & H32 & Hs & -> & Hh). cbn [negb Z.eqb]. bv_consts.
    rewrite (proj2 (Z.leb_gt sz 3968)) by lia.
    destruct (clear_hash k sz ns a i Hw Hi) as (ns' & a' & -> & Hok). by eexists.
  - pose proof Hw as (Hc & H32 & Hs & -> & Hl & Hch).
    destruct (divisor_spec sz ltac:(lia)) as (Hd & _). destruct (bin_range sz i ltac:(lia) Hi) as [Hb Hm].
    rewrite (proj2 (Z.eqb_neq (divisor sz) 0)) by lia. cbn [negb].
    destruct (l !! Z.to_nat (i / divisor sz)) as [[q|]|] eqn:El.
    3:{ apply lookup_ge_None in El. lia. }
    + destruct (Hch _ _ El) as [Wq Eq].
      destruct (IH q (i mod divisor sz) fuel Wq) as (q' & -> & W' & Z' & M'); [lia|lia|].
      eexists. split; [done|]. split; [|split; [done|]].
      { cbn [bv_wf]. rewrite length_insert. split_and!; try done; try lia. intros b r Hr.
        destruct (decide (b = Z.to_nat (i / divisor sz))) as [->|Hne].
        - rewrite list_lookup_insert_eq in Hr by lia. injection Hr as <-. by rewrite Z'.
        - rewrite list_lookup_insert_ne in Hr by done. by apply (Hch b). }
      intros j Hj. cbn [iSize] in Hj. cbn [bv_mem]. pose proof (Z.mod_pos_bound j (divisor sz) ltac:(lia)).
      destruct (decide (Z.to_nat (j / divisor sz) = Z.to_nat (i / divisor sz))) as [E|E].
      * rewrite E, list_lookup_insert_eq, El by lia. rewrite M' by lia.
        assert (Eq' : j / divisor sz = i / divisor sz)
          by (pose proof (Z.div_pos j (divisor sz)); pose proof (Z.div_pos i (divisor sz)); lia).
        by rewrite mod_eqb by (done || lia).
      * rewrite list_lookup_insert_ne by done. rewrite (proj2 (Z.eqb_neq j i)) by congruence. done.
    + eexists. split; [done|]. split; [done|]. split; [done|]. intros j Hj. cbn [bv_mem].
      destruct (Z.eqb_spec j i) as [->|]; [by rewrite El|done].
Qed.

(** ** Refinement of a finite set *)

Inductive bv_op := OpTest (i : Z) | OpSet (i : Z) | OpClear (i : Z).

(** The answer of an operation: the bit, the return code, or 0. *)
Definition bv_step (oracle : nat -> bool) (op : bv_op) (p : Bitvec) (n : nat)
  : option (Z * Bitvec * nat) :=
  match op with
  | OpTest i => let? b := sqlite3BitvecTest (Some p) i in Some (if b : bool then 1 else 0, p, n)
  | OpSet i => let? (rc, p, n) := sqlite3BitvecSet oracle n (Some p) i in
               let? p := p in Some (rc, p, n)
  | OpClear i => let? p := sqlite3BitvecClear (Some p) i in let? p := p in Some (0, p, n)
  end.

Fixpoint bv_run (oracle : nat -> bool) (ops : list bv_op) (p : Bitvec) (n : nat)
  : option (list Z * Bitvec) :=
  match ops with
  | [] => Some ([], p)
  | op :: ops => let? (r, p, n) := bv_step oracle op p n in
                 let? (rs, p) := bv_run oracle ops p n in Some (r :: rs, p)
  end.

Definition set_step (op : bv_op) (X : gset Z) : Z * gset Z :=
  match op with
  | OpTest i => (if bool_decide (i ∈ X) then 1 else 0, X)
  | OpSet i => (SQLITE_OK, {[i]} ∪ X)
  | OpClear i => (0, X ∖ {[i]})
  end.

Fixpoint set_run (ops : list bv_op) (X : gset Z) : list Z * gset Z :=
  match ops with
  | [] => ([], X)
  | op :: ops => let '(r, X) := set_step op X in
                 let '(rs, X) := set_run ops X in (r :: rs, X)
  end.

(** Numbers are of type u32; those to set or clear are in range. *)
Definition op_ok (sz : Z) (op : bv_op) : Prop :=
  match op with OpTest i => 0 <= i < 2 ^ 32 | OpSet i | OpClear i => 1 <= i <= sz end.

Definition holds_set (sz : Z) (p : Bitvec) (X : gset Z) : Prop :=
  bv_wf 4 p /\ iSize p = sz /\ (forall i, i ∈ X -> 1 <= i <= sz) /\
  forall j, 0 <= j < sz -> bv_mem 4 p j = bool_decide (j + 1 ∈ X).

Lemma test_holds sz p X i : sz < 2 ^ 32 -> holds_set sz p X -> 0 <= i < 2 ^ 32 ->
  sqlite3BitvecTest (Some p) i = Some (bool_decide (i ∈ X)).
Proof.
  intros Hsz (W & Z' & Hr & M) Hi. unfold sqlite3BitvecTest, sqlite3BitvecTestNotNull. rewrite Z'.
  destruct (decide (1 <= i <= sz)) as [Hin|Hout].
  - rewrite u32_small by lia. rewrite (proj2 (Z.leb_gt sz (i - 1))) by lia.
    rewrite (bv_test_spec 4) by (done || lia || (unfold test_fuel; lia)).
    rewrite M by lia. by replace (i - 1 + 1) with i by lia.
  - assert (Hu : sz <= u32 (i - 1)).
    { destruct (decide (i = 0)) as [->|]; [change (u32 (0 - 1)) with (2 ^ 32 - 1); lia|].
      rewrite u32_small by lia. lia. }
    rewrite (proj2 (Z.leb_le _ _) Hu). rewrite bool_decide_eq_false_2; [done|]. by intros ?%Hr.
Qed.

Lemma step_refines oracle sz op p n X : sz < 2 ^ 32 -> op_ok sz op -> holds_set sz p X ->
  exists r p' n', bv_step oracle op p n = Some (r, p', n') /\
    ((r = (set_step op X).1 /\ holds_set sz p' (set_step op X).2) \/
     (r = SQLITE_NOMEM /\ (exists m, oracle m = false) /\ exists X', X' ⊆ (set_step op X).2 /\ holds_set sz p' X')).
Proof.
  intros Hsz Hop Hh. destruct op as [i|i|i]; cbn [bv_step set_step fst snd op_ok] in *.
  { rewrite (test_holds sz p X i) by done. do 3 eexists. split; [done|]. by left. }
  all: pose proof Hh as (W & Z' & Hr & M).
  - cbn [sqlite3BitvecSet]. rewrite u32_small by lia.
    destruct (bv_set_spec oracle set_fuel 4 p (i - 1) n W) as (rc & p' & n' & -> & W' & Zp & _ & Ho & Mp);
      [lia|unfold need, set_fuel; case_cond; lia|].
    do 3 eexists. split; [done|]. rewrite Z' in Mp.
    assert (Hb : forall j, 0 <= j < sz ->
      (j =? i - 1) || bv_mem 4 p j = bool_decide (j + 1 ∈ {[i]} ∪ X)).
    { intros j Hj. rewrite M by done. destruct (Z.eqb_spec j (i - 1)); cbn [orb].
      - symmetry. apply bool_decide_eq_true_2. apply elem_of_union_l, elem_of_singleton. lia.
      - apply bool_decide_ext. rewrite elem_of_union, elem_of_singleton. intuition lia. }
    assert (Hr' : forall j, j ∈ {[i]} ∪ X -> 1 <= j <= sz).
    { intros j [->%elem_of_singleton|Hj]%elem_of_union; [lia|by apply Hr]. }
    destruct Mp as [[-> Mp]|[-> Mp]]; [left|right].
    + split; [done|]. split; [done|]. split; [congruence|]. split; [done|].
      intros j Hj. by rewrite Mp, Hb.
    + split; [done|]. split; [by apply Ho|].
      exists (filter (fun j => bv_mem 4 p' (j - 1) = true) ({[i]} ∪ X)).
      split; [intros j; rewrite elem_of_filter; by intros [_ ?]|].
      split; [done|]. split; [congruence|]. split.
      { intros j [_ Hj]%elem_of_filter. by apply Hr'. }
      intros j Hj. destruct (bv_mem 4 p' j) eqn:E.
      * symmetry. apply bool_decide_eq_true_2. apply elem_of_filter.
        replace (j + 1 - 1) with j by lia. split; [done|]. apply Mp in E; [|done].
        rewrite Hb in E by done. by apply bool_decide_eq_true in E.
      * symmetry. apply bool_decide_eq_false_2. intros [E' _]%elem_of_filter.
        replace (j + 1 - 1) with j in E' by lia. congruence.
  - cbn [sqlite3BitvecClear]. rewrite u32_small by lia.
    destruct (bv_clear_spec 4 p (i - 1) test_fuel W) as (p' & -> & W' & Zp & Mp);
      [lia|unfold test_fuel; lia|].
    do 3 eexists. split; [done|]. left. split; [done|]. split; [done|]. split; [congruence|]. split.
    { intros j [Hj _]%elem_of_difference. by apply Hr. }
    intros j Hj. rewrite Mp, M by lia. destruct (Z.eqb_spec j (i - 1)); cbn [negb andb].
    + symmetry. apply bool_decide_eq_false_2. rewrite elem_of_difference, elem_of_singleton. intros [_ Hne]. lia.
    + apply bool_decide_ext. rewrite elem_of_difference, elem_of_singleton. intuition lia.
Qed.

(** A run either answers as the set does, or memory ran out. *)
Lemma run_refines oracle sz ops p n X : sz < 2 ^ 32 -> Forall (op_ok sz) ops -> holds_set sz p X ->
  exists rs p', bv_run oracle ops p n = Some (rs, p') /\
    ((rs = (set_run ops X).1 /\ holds_set sz p' (set_run ops X).2) \/
     (SQLITE_NOMEM ∈ rs /\ exists m, oracle m = false)).
Proof.
  intros Hsz Hops. revert p n X. induction Hops as [|op ops Hop Hops IH]; intros p n X Hh.
  { exists [], p. split; [done|]. by left. }
  destruct (step_refines oracle sz op p n X Hsz Hop Hh) as (r & p1 & n1 & E & Hr).
  cbn [bv_run set_run]. rewrite E. destruct (set_step op X) as [r' X1]. cbn [fst snd] in Hr.
  destruct Hr as [[-> H1]|(-> & Ho & X' & _ & H1)].
  - destruct (IH p1 n1 X1 H1) as (rs & p2 & -> & Hrs). do 2 eexists. split; [done|].
    destruct (set_run ops X1) as [rs' X2]. cbn [fst snd] in *.
    destruct Hrs as [[-> ?]|[Hin ?]]; [by left|right]. split; [by constructor|done].
  - destruct (IH p1 n1 X' H1) as (rs & p2 & -> & _). do 2 eexists. split; [done|].
    right. split; [constructor|done].
Qed.

Lemma new_holds sz : 0 <= sz < 2 ^ 32 -> holds_set sz (new_bitvec sz) ∅.
Proof.
  intros Hsz. assert (Hcap : cap 4 = 58632501248) by reflexivity.
  destruct (new_wf 4 sz) as (W & M & _); [lia|lia|]. split; [done|]. split; [done|].
  split; [by intros i ?%elem_of_empty|]. intros j Hj. rewrite M by lia.
  symmetry. by apply bool_decide_eq_false_2, not_elem_of_empty.
Qed.

(** C31: the bit vector refines a finite set: from a new vector of any size every sequence of
    tests, sets and clears terminates without an access out of bounds, through all three
    representations and their conversions; unless an allocation fails, in which case some
    call answers SQLITE_NOMEM, every answer is that of the set, and so is every later test. *)
Theorem bitvec_refines_set oracle sz ops : 0 <= sz < 2 ^ 32 -> Forall (op_ok sz) ops ->
  exists rs p, bv_run oracle ops (new_bitvec sz) 0 = Some (rs, p) /\
    ((rs = (set_run ops ∅).1 /\
      forall i, 0 <= i < 2 ^ 32 -> sqlite3BitvecTest (Some p) i = Some (bool_decide (i ∈ (set_run ops ∅).2))) \/
     (SQLITE_NOMEM ∈ rs /\ exists m, oracle m = false)).
Proof.
  intros Hsz Hops.
  destruct (run_refines oracle sz ops (new_bitvec sz) 0 ∅) as (rs & p & E & Hr);
    [lia|done|by apply new_holds|].
  exists rs, p. split; [done|]. destruct Hr as [[-> Hh]|Hr]; [left|by right]. split; [done|].
  intros i Hi. by apply (test_holds sz); [lia|..].
Qed.

(** ** Witnesses *)

Definition demo_ops : list bv_op :=
  (fun k => OpSet (1 + 124 * Z.of_nat k)) <$> seq 0 70.

Lemma bv_demo_ops_ok : Forall (op_ok 100000) (demo_ops ++ [OpClear 125; OpTest 125; OpTest 249; OpTest 0]).
Proof.
  apply Forall_app. split; [|repeat constructor; cbn; lia].
  unfold demo_ops. apply Forall_fmap, list.Forall_forall. intros k Hk%elem_of_seq. cbn. lia.
Qed.

Lemma bitvec_refines_set_witness :
  exists rs p, bv_run (fun _ => true) (demo_ops ++ [OpClear 125; OpTest 125; OpTest 249; OpTest 0])
      (new_bitvec 100000) 0 = Some (rs, p) /\ drop 70 rs = [0; 0; 1; 0].
Proof.
  destruct (bitvec_refines_set (fun _ => true) 100000
    (demo_ops ++ [OpClear 125; OpTest 125; OpTest 249; OpTest 0]) ltac:(lia) bv_demo_ops_ok)
    as (rs & p & E & [[-> _]|[_ [m Hm]]]); [|discriminate Hm].
  do 2 eexists. split; [exact E|]. vm_compute. reflexivity.
Defined.
End BitVector.
