(* ===== verification/WalData.v ===== *)
(** * Write-ahead log: data, checksum and header copies (src/wal.c)

    The structures of src/wal.c that the other Wal files share.

    - [WalIndexHdr], [Wal]: the header of the wal-index and the handle of a connection, with
      the fields the modelled code uses. [apWiData] holds addresses of wal-index pages, 0
      where a page is not mapped, and its length is [nWiData].
    - [walChecksumBytes], with its three loops and [BYTESWAP32].
    - [hdr_words]: the header as the twelve 32-bit words of its memory image.

    [checksum_exact]: the three loops compute one and the same sum, that of the file format
    description, and a sum can be computed piecewise. *)

From stdpp Require Import list.
From S2P Require Import Prelude Varint.
Local Open Scope Z_scope.

Module WalTypes.

Definition NULL : Z := 0.
Definition SQLITE_BUSY : Z := 5.
Definition SQLITE_READONLY : Z := 8.
Definition SQLITE_CORRUPT : Z := 11.
Definition SQLITE_CANTOPEN : Z := 14.
Definition SQLITE_BUSY_SNAPSHOT : Z := 517.
Definition SQLITE_MAX_PAGE_SIZE : Z := 65536.

Definition WAL_MAX_VERSION : Z := 3007000.
Definition WALINDEX_MAX_VERSION : Z := 3007000.
Definition WAL_MAGIC : Z := 0x377f0682.
Definition WAL_HDRSIZE : Z := 32.
Definition WAL_FRAME_HDRSIZE : Z := 24.
Definition WAL_NORMAL_MODE : Z := 0.
Definition WAL_EXCLUSIVE_MODE : Z := 1.
Definition WAL_HEAPMEMORY_MODE : Z := 2.
Definition WAL_RDWR : Z := 0.
Definition WAL_RDONLY : Z := 1.
Definition WAL_SHM_RDONLY : Z := 2.

(** The machine is little-endian. *)
Definition SQLITE_BIGENDIAN : Z := 0.

Record WalIndexHdr := Hdr {
  iVersion : Z;
  unused : Z;
  iChange : Z;
  isInit : Z;
  bigEndCksum : Z;
  hdr_szPage : Z;
  mxFrame : Z;
  nPage : Z;
  aFrameCksum : Z * Z;
  aSalt : Z * Z;
  aCksum : Z * Z
}.

Definition zero_hdr : WalIndexHdr := Hdr 0 0 0 0 0 0 0 0 (0, 0) (0, 0) (0, 0).

Definition set_mxFrame v (h : WalIndexHdr) : WalIndexHdr :=
  Hdr (iVersion h) (unused h) (iChange h) (isInit h) (bigEndCksum h) (hdr_szPage h) v
    (nPage h) (aFrameCksum h) (aSalt h) (aCksum h).
Definition set_aFrameCksum v (h : WalIndexHdr) : WalIndexHdr :=
  Hdr (iVersion h) (unused h) (iChange h) (isInit h) (bigEndCksum h) (hdr_szPage h) (mxFrame h)
    (nPage h) v (aSalt h) (aCksum h).
Definition set_aSalt v (h : WalIndexHdr) : WalIndexHdr :=
  Hdr (iVersion h) (unused h) (iChange h) (isInit h) (bigEndCksum h) (hdr_szPage h) (mxFrame h)
    (nPage h) (aFrameCksum h) v (aCksum h).
Definition set_bigEndCksum v (h : WalIndexHdr) : WalIndexHdr :=
  Hdr (iVersion h) (unused h) (iChange h) (isInit h) v (hdr_szPage h) (mxFrame h)
    (nPage h) (aFrameCksum h) (aSalt h) (aCksum h).
Definition set_hdr_szPage v (h : WalIndexHdr) : WalIndexHdr :=
  Hdr (iVersion h) (unused h) (iChange h) (isInit h) (bigEndCksum h) v (mxFrame h)
    (nPage h) (aFrameCksum h) (aSalt h) (aCksum h).
Definition set_nPage v (h : WalIndexHdr) : WalIndexHdr :=
  Hdr (iVersion h) (unused h) (iChange h) (isInit h) (bigEndCksum h) (hdr_szPage h) (mxFrame h)
    v (aFrameCksum h) (aSalt h) (aCksum h).
Definition set_iChange v (h : WalIndexHdr) : WalIndexHdr :=
  Hdr (iVersion h) (unused h) v (isInit h) (bigEndCksum h) (hdr_szPage h) (mxFrame h)
    (nPage h) (aFrameCksum h) (aSalt h) (aCksum h).
Definition set_live c (h : WalIndexHdr) : WalIndexHdr :=
  Hdr WALINDEX_MAX_VERSION (unused h) (iChange h) 1 (bigEndCksum h) (hdr_szPage h) (mxFrame h)
    (nPage h) (aFrameCksum h) (aSalt h) c.

Record Wal := WalRec {
  mxWalSize : Z;
  apWiData : list Z;
  szPage : Z;
  readLock : Z;
  exclusiveMode : Z;
  writeLock : Z;
  ckptLock : Z;
  readOnly : Z;
  truncateOnCommit : Z;
  syncHeader : Z;
  padToSectorBoundary : Z;
  bShmUnreliable : Z;
  hdr : WalIndexHdr;
  minFrame : Z;
  iReCksum : Z;
  nCkpt : Z;
  iCallback : Z
}.

Definition nWiData (w : Wal) : Z := len (apWiData w).

Definition set_apWiData v (w : Wal) : Wal :=
  WalRec (mxWalSize w) v (szPage w) (readLock w) (exclusiveMode w) (writeLock w) (ckptLock w)
    (readOnly w) (truncateOnCommit w) (syncHeader w) (padToSectorBoundary w)
    (bShmUnreliable w) (hdr w) (minFrame w) (iReCksum w) (nCkpt w) (iCallback w).
Definition set_szPage v (w : Wal) : Wal :=
  WalRec (mxWalSize w) (apWiData w) v (readLock w) (exclusiveMode w) (writeLock w) (ckptLock w)
    (readOnly w) (truncateOnCommit w) (syncHeader w) (padToSectorBoundary w)
    (bShmUnreliable w) (hdr w) (minFrame w) (iReCksum w) (nCkpt w) (iCallback w).
Definition set_readLock v (w : Wal) : Wal :=
  WalRec (mxWalSize w) (apWiData w) (szPage w) v (exclusiveMode w) (writeLock w) (ckptLock w)
    (readOnly w) (truncateOnCommit w) (syncHeader w) (padToSectorBoundary w)
    (bShmUnreliable w) (hdr w) (minFrame w) (iReCksum w) (nCkpt w) (iCallback w).
Definition set_writeLock v (w : Wal) : Wal :=
  WalRec (mxWalSize w) (apWiData w) (szPage w) (readLock w) (exclusiveMode w) v (ckptLock w)
    (readOnly w) (truncateOnCommit w) (syncHeader w) (padToSectorBoundary w)
    (bShmUnreliable w) (hdr w) (minFrame w) (iReCksum w) (nCkpt w) (iCallback w).
Definition set_ckptLock v (w : Wal) : Wal :=
  WalRec (mxWalSize w) (apWiData w) (szPage w) (readLock w) (exclusiveMode w) (writeLock w) v
    (readOnly w) (truncateOnCommit w) (syncHeader w) (padToSectorBoundary w)
    (bShmUnreliable w) (hdr w) (minFrame w) (iReCksum w) (nCkpt w) (iCallback w).
Definition set_readOnly v (w : Wal) : Wal :=
  WalRec (mxWalSize w) (apWiData w) (szPage w) (readLock w) (exclusiveMode w) (writeLock w)
    (ckptLock w) v (truncateOnCommit w) (syncHeader w) (padToSectorBoundary w)
    (bShmUnreliable w) (hdr w) (minFrame w) (iReCksum w) (nCkpt w) (iCallback w).
Definition set_truncateOnCommit v (w : Wal) : Wal :=
  WalRec (mxWalSize w) (apWiData w) (szPage w) (readLock w) (exclusiveMode w) (writeLock w)
    (ckptLock w) (readOnly w) v (syncHeader w) (padToSectorBoundary w)
    (bShmUnreliable w) (hdr w) (minFrame w) (iReCksum w) (nCkpt w) (iCallback w).
Definition set_exclusiveMode v (w : Wal) : Wal :=
  WalRec (mxWalSize w) (apWiData w) (szPage w) (readLock w) v (writeLock w) (ckptLock w)
    (readOnly w) (truncateOnCommit w) (syncHeader w) (padToSectorBoundary w)
    (bShmUnreliable w) (hdr w) (minFrame w) (iReCksum w) (nCkpt w) (iCallback w).
Definition set_bShmUnreliable v (w : Wal) : Wal :=
  WalRec (mxWalSize w) (apWiData w) (szPage w) (readLock w) (exclusiveMode w) (writeLock w)
    (ckptLock w) (readOnly w) (truncateOnCommit w) (syncHeader w) (padToSectorBoundary w)
    v (hdr w) (minFrame w) (iReCksum w) (nCkpt w) (iCallback w).
Definition set_hdr v (w : Wal) : Wal :=
  WalRec (mxWalSize w) (apWiData w) (szPage w) (readLock w) (exclusiveMode w) (writeLock w)
    (ckptLock w) (readOnly w) (truncateOnCommit w) (syncHeader w) (padToSectorBoundary w)
    (bShmUnreliable w) v (minFrame w) (iReCksum w) (nCkpt w) (iCallback w).
Definition set_minFrame v (w : Wal) : Wal :=
  WalRec (mxWalSize w) (apWiData w) (szPage w) (readLock w) (exclusiveMode w) (writeLock w)
    (ckptLock w) (readOnly w) (truncateOnCommit w) (syncHeader w) (padToSectorBoundary w)
    (bShmUnreliable w) (hdr w) v (iReCksum w) (nCkpt w) (iCallback w).
Definition set_iReCksum v (w : Wal) : Wal :=
  WalRec (mxWalSize w) (apWiData w) (szPage w) (readLock w) (exclusiveMode w) (writeLock w)
    (ckptLock w) (readOnly w) (truncateOnCommit w) (syncHeader w) (padToSectorBoundary w)
    (bShmUnreliable w) (hdr w) (minFrame w) v (nCkpt w) (iCallback w).
Definition set_nCkpt v (w : Wal) : Wal :=
  WalRec (mxWalSize w) (apWiData w) (szPage w) (readLock w) (exclusiveMode w) (writeLock w)
    (ckptLock w) (readOnly w) (truncateOnCommit w) (syncHeader w) (padToSectorBoundary w)
    (bShmUnreliable w) (hdr w) (minFrame w) (iReCksum w) v (iCallback w).
Definition set_iCallback v (w : Wal) : Wal :=
  WalRec (mxWalSize w) (apWiData w) (szPage w) (readLock w) (exclusiveMode w) (writeLock w)
    (ckptLock w) (readOnly w) (truncateOnCommit w) (syncHeader w) (padToSectorBoundary w)
    (bShmUnreliable w) (hdr w) (minFrame w) (iReCksum w) (nCkpt w) v.

(** ** Bytes and words *)

(** A [u32] in memory. *)
Definition le32 (x : Z) : bytes :=
  [u8 x; u8 (Z.shiftr x 8); u8 (Z.shiftr x 16); u8 (Z.shiftr x 24)].

(** The bytes of memory read through a [u32 *]. *)
Fixpoint u32s (b : bytes) : list Z :=
  match b with
  | b0 :: b1 :: b2 :: b3 :: b' =>
      (b0 + Z.shiftl b1 8 + Z.shiftl b2 16 + Z.shiftl b3 24) :: u32s b'
  | _ => []
  end.

Definition BYTESWAP32 (x : Z) : Z :=
  u32 (u32 (Z.shiftl (Z.land x 0xFF) 24) + u32 (Z.shiftl (Z.land x 0xFF00) 8)
       + Z.shiftr (Z.land x 0xFF0000) 8 + Z.shiftr (Z.land x 0xFF000000) 24).

(** ** Checksum *)

(** [s1 += x + s2; s2 += y + s1;] *)
Definition ck_step (x y : Z) (s : Z * Z) : Z * Z :=
  let s1 := u32 (s.1 + u32 (x + s.2)) in
  (s1, u32 (s.2 + u32 (y + s1))).

(** The loops run at least once and stop when [aData] has reached [aEnd]; reading past
    the end is [None]. *)
Fixpoint cksum_swapped (d : list Z) (s : Z * Z) : option (Z * Z) :=
  match d with
  | x :: y :: d' =>
      let s := ck_step (BYTESWAP32 x) (BYTESWAP32 y) s in
      match d' with [] => Some s | _ => cksum_swapped d' s end
  | _ => None
  end.

Fixpoint cksum_unrolled (d : list Z) (s : Z * Z) : option (Z * Z) :=
  match d with
  | a0 :: a1 :: b0 :: b1 :: c0 :: c1 :: d0 :: d1
    :: e0 :: e1 :: f0 :: f1 :: g0 :: g1 :: h0 :: h1 :: d' =>
      let s := ck_step a0 a1 s in
      let s := ck_step b0 b1 s in
      let s := ck_step c0 c1 s in
      let s := ck_step d0 d1 s in
      let s := ck_step e0 e1 s in
      let s := ck_step f0 f1 s in
      let s := ck_step g0 g1 s in
      let s := ck_step h0 h1 s in
      match d' with [] => Some s | _ => cksum_unrolled d' s end
  | _ => None
  end.

Fixpoint cksum_native (d : list Z) (s : Z * Z) : option (Z * Z) :=
  match d with
  | x :: y :: d' =>
      let s := ck_step x y s in
      match d' with [] => Some s | _ => cksum_native d' s end
  | _ => None
  end.

(** [aIn] is [None] for a null pointer. *)
Definition walChecksumBytes (nativeCksum : bool) (a : bytes) (aIn : option (Z * Z))
  : option (Z * Z) :=
  let nByte := len a in
  let s := default (0, 0) aIn in
  if negb ((8 <=? nByte) && (Z.land nByte 7 =? 0) && (nByte <=? 65536)) then None else
  if negb nativeCksum then cksum_swapped (u32s a) s
  else if nByte mod 64 =? 0 then cksum_unrolled (u32s a) s
  else cksum_native (u32s a) s.

(** ** The header in memory *)

Definition hdr_words (h : WalIndexHdr) : list Z :=
  [iVersion h; unused h; iChange h;
   isInit h + Z.shiftl (bigEndCksum h) 8 + Z.shiftl (hdr_szPage h) 16;
   mxFrame h; nPage h; (aFrameCksum h).1; (aFrameCksum h).2; (aSalt h).1; (aSalt h).2;
   (aCksum h).1; (aCksum h).2].

Definition words_hdr (l : list Z) : option WalIndexHdr :=
  match l with
  | [a; b; c; d; e; f; g; h; i; j; k; l] =>
      Some (Hdr a b c (u8 d) (u8 (Z.shiftr d 8)) (u16 (Z.shiftr d 16)) e f (g, h) (i, j) (k, l))
  | _ => None
  end.

(** The first [offsetof(WalIndexHdr, aCksum)] bytes, over which the checksum runs. *)
Definition hdr_image (h : WalIndexHdr) : bytes := concat (le32 <$> take 10 (hdr_words h)).


Lemma le32_bytes x : bytes_ok (le32 x).
Proof. repeat constructor; apply u8_range. Qed.

(** ** The sum of the file format *)

(** Words in big-endian order. *)
Fixpoint be32s (b : bytes) : list Z :=
  match b with
  | b0 :: b1 :: b2 :: b3 :: b' => (b0 * 2 ^ 24 + b1 * 2 ^ 16 + b2 * 2 ^ 8 + b3) :: be32s b'
  | _ => []
  end.

(** "for i from 0 to n-1 step 2: s0 += x[i] + s1; s1 += x[i+1] + s0", modulo 2^32. *)
Fixpoint format_sum (x : list Z) (s : Z * Z) : Z * Z :=
  match x with
  | x0 :: x1 :: x' =>
      let s0 := (s.1 + x0 + s.2) mod 2 ^ 32 in
      format_sum x' (s0, (s.2 + x1 + s0) mod 2 ^ 32)
  | _ => s
  end.

(** Induction over lists two elements at a time. *)
Lemma pairs_ind {A} (P : list A -> Prop) :
  P [] -> (forall x, P [x]) -> (forall x y l, P l -> P (x :: y :: l)) -> forall l, P l.
Proof.
  intros H0 H1 H2 l. enough (P l /\ forall x, P (x :: l)) by tauto.
  induction l as [|y l [IH1 IH2]]; split; auto.
Qed.

Lemma ck_step_spec x y s :
  ck_step x y s = ((s.1 + x + s.2) mod 2 ^ 32, (s.2 + y + (s.1 + x + s.2) mod 2 ^ 32) mod 2 ^ 32).
Proof.
  unfold ck_step, u32. rewrite !Zplus_mod_idemp_r.
  f_equal; [|rewrite Z.add_assoc, Zplus_mod_idemp_r]; f_equal; lia.
Qed.

Lemma format_sum_step x y l s : format_sum (x :: y :: l) s = format_sum l (ck_step x y s).
Proof. by rewrite ck_step_spec. Qed.

Lemma cksum_native_spec d s :
  d <> [] -> Nat.Even (length d) -> cksum_native d s = Some (format_sum d s).
Proof.
  revert s. induction d as [|x|x y d IH] using pairs_ind; intros s Hd [k Hk]; [by destruct Hd|simpl in Hk; lia|].
  rewrite format_sum_step. cbn [cksum_native]. destruct d as [|z d]; [done|].
  apply IH; [done|]. exists (k - 1)%nat. simpl in *. lia.
Qed.

Lemma cksum_swapped_spec d s :
  d <> [] -> Nat.Even (length d) -> cksum_swapped d s = Some (format_sum (BYTESWAP32 <$> d) s).
Proof.
  revert s. induction d as [|x|x y d IH] using pairs_ind; intros s Hd [k Hk]; [by destruct Hd|simpl in Hk; lia|].
  rewrite !fmap_cons, format_sum_step. cbn [cksum_swapped]. destruct d as [|z d]; [done|].
  apply IH; [done|]. exists (k - 1)%nat. simpl in *. lia.
Qed.

Lemma cksum_unrolled_spec k d s :
  length d = (16 * S k)%nat -> cksum_unrolled d s = Some (format_sum d s).
Proof.
  revert d s. induction k as [|k IH]; intros d s Hk;
    do 16 (destruct d as [|? d]; [simpl in Hk; lia|]);
    rewrite !format_sum_step; cbn [cksum_unrolled].
  - destruct d; [done|simpl in Hk; lia].
  - rewrite <- IH by (simpl in Hk; lia). destruct d; [simpl in Hk; lia|done].
Qed.

Lemma u32s_length b : length (u32s b) = (length b / 4)%nat.
Proof.
  cut (forall n b, (length b <= n)%nat -> length (u32s b) = (length b / 4)%nat); [by eauto|].
  clear b. induction n as [|n IH]; intros b Hn.
  - by destruct b; [|simpl in Hn; lia].
  - destruct b as [|b0 [|b1 [|b2 [|b3 b]]]]; [done..|]. cbn [u32s length]. rewrite IH by (simpl in Hn; lia).
    replace (S (S (S (S (length b))))) with (1 * 4 + length b)%nat by lia.
    by rewrite Nat.div_add_l.
Qed.

(** Reading a byte buffer four bytes at a time. *)
Lemma quads_ind (P : bytes -> Prop) :
  P [] -> (forall b0 b1 b2 b3 b, P b -> P (b0 :: b1 :: b2 :: b3 :: b)) ->
  forall b, len b mod 4 = 0 -> P b.
Proof.
  intros H0 H4 b. cut (forall n b, (length b <= n)%nat -> len b mod 4 = 0 -> P b); [by eauto|].
  clear b. induction n as [|n IH]; intros b Hn Hm.
  - by destruct b; [|simpl in Hn; lia].
  - destruct b as [|b0 [|b1 [|b2 [|b3 b]]]]; [done|done..|].
    apply H4, IH; [simpl in Hn; lia|].
    replace (len (b0 :: b1 :: b2 :: b3 :: b)) with (len b + 1 * 4) in Hm by (simpl length; lia).
    by rewrite Z_mod_plus_full in Hm.
Qed.

Lemma byteswap_spec b0 b1 b2 b3 :
  is_byte b0 -> is_byte b1 -> is_byte b2 -> is_byte b3 ->
  BYTESWAP32 (b0 + Z.shiftl b1 8 + Z.shiftl b2 16 + Z.shiftl b3 24) =
  b0 * 2 ^ 24 + b1 * 2 ^ 16 + b2 * 2 ^ 8 + b3.
Proof.
  unfold is_byte. intros H0 H1 H2 H3. rewrite !Z.shiftl_mul_pow2 by lia.
  set (x := b0 + b1 * 2 ^ 8 + b2 * 2 ^ 16 + b3 * 2 ^ 24).
  assert (E : forall i, 0 <= i -> Z.land x (Z.shiftl 0xFF i) = Z.shiftl (Z.shiftr x i mod 2 ^ 8) i).
  { intros i Hi. rewrite <- (Z.land_ones _ 8) by lia. apply Z.bits_inj'. intros j Hj.
    rewrite Z.land_spec, !Z.shiftl_spec by lia. rewrite Z.land_spec.
    destruct (decide (j < i)).
    - rewrite !(Z.testbit_neg_r _ (j - i)) by lia. by rewrite andb_false_r.
    - rewrite Z.shiftr_spec by lia. by replace (j - i + i) with j by lia. }
  unfold BYTESWAP32.
  change 0xFF00 with (Z.shiftl 0xFF 8). change 0xFF0000 with (Z.shiftl 0xFF 16).
  change 0xFF000000 with (Z.shiftl 0xFF 24).
  replace (Z.land x 0xFF) with (Z.land x (Z.shiftl 0xFF 0)) by done. rewrite !E by lia.
  rewrite !Z.shiftl_mul_pow2, !Z.shiftr_div_pow2 by lia.
  replace (x / 2 ^ 0 mod 2 ^ 8) with b0 by (unfold x; Z.div_mod_to_equations; lia).
  replace (x / 2 ^ 8 mod 2 ^ 8) with b1 by (unfold x; Z.div_mod_to_equations; lia).
  replace (x / 2 ^ 16 mod 2 ^ 8) with b2 by (unfold x; Z.div_mod_to_equations; lia).
  replace (x / 2 ^ 24 mod 2 ^ 8) with b3 by (unfold x; Z.div_mod_to_equations; lia).
  replace (b2 * 2 ^ 16 / 2 ^ 8) with (b2 * 2 ^ 8) by (Z.div_mod_to_equations; lia).
  replace (b3 * 2 ^ 24 / 2 ^ 24) with b3 by (Z.div_mod_to_equations; lia).
  rewrite !u32_small by (rewrite ?u32_small by lia; lia). lia.
Qed.

Lemma byteswap_words b :
  bytes_ok b -> len b mod 4 = 0 -> BYTESWAP32 <$> u32s b = be32s b.
Proof.
  intros Hb Hm. revert Hb. pattern b. apply quads_ind; [done| |done].
  clear b Hm. intros b0 b1 b2 b3 b IH Hb.
  do 4 (apply list.Forall_cons in Hb as [? Hb]).
  cbn [u32s be32s]. rewrite fmap_cons, IH by done. by rewrite byteswap_spec.
Qed.

(** The words of a buffer in the byte order a checksum uses. *)
Definition order_words (native : bool) (b : bytes) : list Z := if native then u32s b else be32s b.

Lemma checksum_spec native a s :
  bytes_ok a -> 8 <= len a <= 65536 -> len a mod 8 = 0 ->
  walChecksumBytes native a s = Some (format_sum (order_words native a) (default (0, 0) s)).
Proof.
  intros Hb Hl Hm. unfold walChecksumBytes.
  change 7 with (Z.ones 3). rewrite Z.land_ones by lia. change (2 ^ 3) with 8. rewrite Hm.
  rewrite (proj2 (Z.leb_le 8 (len a))), (proj2 (Z.leb_le (len a) 65536)) by lia.
  change (0 =? 0) with true. cbn [negb andb].
  assert (He : u32s a <> [] /\ Nat.Even (length (u32s a))).
  { rewrite u32s_length. split.
    - intros E. apply (f_equal length) in E. rewrite u32s_length in E. cbn [length] in E.
      apply Nat.div_small_iff in E; lia.
    - exists (length a / 8)%nat. apply Nat2Z.inj. rewrite Nat2Z.inj_mul, !Nat2Z.inj_div. Z.div_mod_to_equations. lia. }
  destruct He as [He1 He2]. destruct native; cbn [negb order_words].
  - case_cond; [|by apply cksum_native_spec].
    assert (exists k, length a = (16 * S k * 4)%nat) as [k Hk].
    { exists (Z.to_nat (len a / 64 - 1)). Z.div_mod_to_equations. lia. }
    apply (cksum_unrolled_spec k). rewrite u32s_length, Hk. by apply Nat.div_mul.
  - rewrite cksum_swapped_spec by done. rewrite byteswap_words; [done..|]. Z.div_mod_to_equations. lia.
Qed.

Lemma order_words_app native a b :
  len a mod 4 = 0 -> order_words native (a ++ b) = order_words native a ++ order_words native b.
Proof.
  revert a. apply quads_ind; [by destruct native|]. intros b0 b1 b2 b3 a IH.
  destruct native; simpl in *; by rewrite IH.
Qed.

Lemma order_words_length native a : length (order_words native a) = (length a / 4)%nat.
Proof.
  destruct native; [apply u32s_length|]. unfold order_words.
  cut (forall n b, (length b <= n)%nat -> length (be32s b) = (length b / 4)%nat); [by eauto|].
  clear a. induction n as [|n IH]; intros b Hn.
  - by destruct b; [|simpl in Hn; lia].
  - destruct b as [|b0 [|b1 [|b2 [|b3 b]]]]; [done..|]. cbn [be32s length]. rewrite IH by (simpl in Hn; lia).
    replace (S (S (S (S (length b))))) with (1 * 4 + length b)%nat by lia.
    by rewrite Nat.div_add_l.
Qed.

Lemma format_sum_app x y s :
  Nat.Even (length x) -> format_sum (x ++ y) s = format_sum y (format_sum x s).
Proof.
  revert s. induction x as [|a|a b x IH] using pairs_ind; intros s [k Hk]; [done|simpl in Hk; lia|].
  rewrite <- !app_comm_cons, !format_sum_step. apply IH. exists (k - 1)%nat. simpl in *. lia.
Qed.

Lemma order_words_even native a : len a mod 8 = 0 -> Nat.Even (length (order_words native a)).
Proof.
  intros H. rewrite order_words_length. exists (length a / 8)%nat. apply Nat2Z.inj.
  rewrite Nat2Z.inj_mul, !Nat2Z.inj_div. Z.div_mod_to_equations. lia.
Qed.

Lemma format_sum_range x s :
  is_u32 s.1 -> is_u32 s.2 -> is_u32 (format_sum x s).1 /\ is_u32 (format_sum x s).2.
Proof.
  revert s. induction x as [|a|a b x IH] using pairs_ind; intros s H1 H2; [done..|].
  rewrite format_sum_step. unfold is_u32 in *.
  apply IH; rewrite ck_step_spec; simpl; apply Z.mod_pos_bound; lia.
Qed.

(** The state before a pair of words is determined by the pair and the state after it. *)
Lemma ck_step_inj x y s t :
  is_u32 s.1 -> is_u32 s.2 -> is_u32 t.1 -> is_u32 t.2 -> ck_step x y s = ck_step x y t -> s = t.
Proof.
  rewrite !ck_step_spec. unfold is_u32. destruct s as [s0 s1], t as [t0 t1]; simpl.
  intros Hs0 Hs1 Ht0 Ht1 [= E1 E2].
  assert (s1 = t1) as <-.
  { rewrite E1 in E2. Z.div_mod_to_equations. lia. }
  f_equal. Z.div_mod_to_equations. lia.
Qed.

Lemma ck_step_words_inj x y x' y' s :
  is_u32 x -> is_u32 y -> is_u32 x' -> is_u32 y' -> ck_step x y s = ck_step x' y' s ->
  x = x' /\ y = y'.
Proof.
  rewrite !ck_step_spec. unfold is_u32. destruct s as [s0 s1]; simpl.
  intros Hx Hy Hx' Hy' [= E1 E2].
  rewrite E1 in E2. split; Z.div_mod_to_equations; lia.
Qed.

Lemma format_sum_inj x s t :
  is_u32 s.1 -> is_u32 s.2 -> is_u32 t.1 -> is_u32 t.2 ->
  format_sum x s = format_sum x t -> s = t.
Proof.
  revert s t. induction x as [|a|a b x IH] using pairs_ind; intros s t H1 H2 H3 H4; [done..|].
  rewrite !format_sum_step. intros E. apply IH in E; first (by eapply ck_step_inj);
    rewrite ck_step_spec; unfold is_u32; simpl; apply Z.mod_pos_bound; lia.
Qed.

(** A change of one aligned group of eight bytes changes the sum. *)
Lemma format_sum_detects pre x y x' y' post s :
  Nat.Even (length pre) -> is_u32 s.1 -> is_u32 s.2 ->
  is_u32 x -> is_u32 y -> is_u32 x' -> is_u32 y' ->
  format_sum (pre ++ x :: y :: post) s = format_sum (pre ++ x' :: y' :: post) s ->
  x = x' /\ y = y'.
Proof.
  intros He H1 H2 Hx Hy Hx' Hy'. rewrite !format_sum_app, !format_sum_step by done. intros E.
  apply format_sum_inj in E; [by apply ck_step_words_inj in E|..];
    rewrite ck_step_spec; unfold is_u32; simpl; apply Z.mod_pos_bound; lia.
Qed.

(** The words of four bytes determine them. *)
Lemma order_words_four native b0 b1 b2 b3 :
  is_byte b0 -> is_byte b1 -> is_byte b2 -> is_byte b3 ->
  exists x, is_u32 x /\ (forall l, order_words native (b0 :: b1 :: b2 :: b3 :: l) = x :: order_words native l) /\
    b0 = (if native then x else x / 2 ^ 24) mod 2 ^ 8 /\
    b1 = x / (if native then 2 ^ 8 else 2 ^ 16) mod 2 ^ 8 /\
    b2 = x / (if native then 2 ^ 16 else 2 ^ 8) mod 2 ^ 8 /\
    b3 = (if native then x / 2 ^ 24 else x) mod 2 ^ 8.
Proof.
  unfold is_byte, is_u32. intros H0 H1 H2 H3.
  exists (if native then b0 + Z.shiftl b1 8 + Z.shiftl b2 16 + Z.shiftl b3 24
          else b0 * 2 ^ 24 + b1 * 2 ^ 16 + b2 * 2 ^ 8 + b3).
  destruct native; rewrite ?Z.shiftl_mul_pow2 by lia;
    (split; [lia|split; [intros l; simpl; by rewrite ?Z.shiftl_mul_pow2 by lia|]]);
    Z.div_mod_to_equations; lia.
Qed.

Lemma order_words_eight native g :
  bytes_ok g -> len g = 8 -> exists x y, is_u32 x /\ is_u32 y /\
    (forall l, order_words native (g ++ l) = x :: y :: order_words native l).
Proof.
  intros Hg Hl. do 8 (destruct g as [|? g]; [simpl in Hl; lia|]). destruct g; [|simpl in Hl; lia].
  do 8 (apply list.Forall_cons in Hg as [? Hg]).
  destruct (order_words_four native z z0 z1 z2) as (x & Hx & Ex & _); [done..|].
  destruct (order_words_four native z3 z4 z5 z6) as (y & Hy & Ey & _); [done..|].
  exists x, y. split_and!; [done..|]. intros l. simpl. by rewrite Ex, Ey.
Qed.

Lemma order_words_inj native g g' :
  bytes_ok g -> bytes_ok g' -> len g mod 4 = 0 -> length g = length g' ->
  order_words native g = order_words native g' -> g = g'.
Proof.
  intros Hg Hg' Hm. revert g Hm Hg g' Hg'. refine (quads_ind _ _ _); [by intros ? [|]|].
  intros b0 b1 b2 b3 g IH Hg g' Hg' Hl E.
  do 4 (destruct g' as [|? g']; [done|]). do 4 (apply list.Forall_cons in Hg as [? Hg]).
  do 4 (apply list.Forall_cons in Hg' as [? Hg']).
  destruct (order_words_four native b0 b1 b2 b3) as (x & _ & Ex & -> & -> & -> & ->); [done..|].
  destruct (order_words_four native z z0 z1 z2) as (y & _ & Ey & -> & -> & -> & ->); [done..|].
  rewrite Ex, Ey in E. injection E as -> E. do 4 f_equal. apply IH; [done..| |done]. by injection Hl.
Qed.

(** A change within one aligned group of eight bytes changes the sum. *)
Lemma sum_detects native b g g' c s :
  bytes_ok g -> bytes_ok g' -> len b mod 8 = 0 -> len g = 8 -> len g' = 8 -> is_u32 s.1 -> is_u32 s.2 ->
  format_sum (order_words native (b ++ g ++ c)) s = format_sum (order_words native (b ++ g' ++ c)) s -> g = g'.
Proof.
  intros Hg Hg' Hb Hl Hl' H1 H2 E.
  destruct (order_words_eight native g) as (x & y & Hx & Hy & Ex); [done..|].
  destruct (order_words_eight native g') as (x' & y' & Hx' & Hy' & Ex'); [done..|].
  rewrite !(order_words_app native b), Ex, Ex' in E by (Z.div_mod_to_equations; lia).
  apply (order_words_inj native); [done..|by rewrite Hl|lia|].
  rewrite <- (app_nil_r g), <- (app_nil_r g'), Ex, Ex'.
  destruct (format_sum_detects (order_words native b) x y x' y' (order_words native c) s)
    as [-> ->]; [by apply order_words_even|done..].
Qed.

(** C23: the checksum of the log. All three loops of [walChecksumBytes], the one that swaps
    bytes, the one unrolled eight times and the plain one, compute the sum of the file format
    description over the words in the byte order asked for; the sum of a text is that of its second
    part started from that of its first part. Two texts of equal length that
    differ, but only within one aligned group of eight bytes, never have the same sum. *)
Theorem checksum_exact native a s :
  bytes_ok a -> 8 <= len a <= 65536 -> len a mod 8 = 0 ->
  is_u32 (default (0, 0) s).1 -> is_u32 (default (0, 0) s).2 ->
  walChecksumBytes native a s = Some (format_sum (order_words native a) (default (0, 0) s)) /\
  (forall b c, a = b ++ c -> 8 <= len b -> 8 <= len c -> len b mod 8 = 0 -> exists t,
     walChecksumBytes native b s = Some t /\
     walChecksumBytes native c (Some t) = walChecksumBytes native a s) /\
  (forall b g g' c, a = b ++ g ++ c -> bytes_ok g' -> len b mod 8 = 0 -> len g = 8 -> len g' = 8 ->
     walChecksumBytes native (b ++ g' ++ c) s = walChecksumBytes native a s -> g = g').
Proof.
  intros Hb Hl Hm Hs1 Hs2. split; [by apply checksum_spec|split].
  - intros b c -> Hb8 Hc8 Hbm. rewrite length_app, Nat2Z.inj_add in Hl, Hm.
    apply Forall_app in Hb as [Hbb Hbc].
    eexists. split; [apply checksum_spec; [done|lia|done]|].
    rewrite !checksum_spec; [|by apply Forall_app|rewrite length_app; lia| |done|lia|].
    + rewrite order_words_app, format_sum_app by (try apply order_words_even; Z.div_mod_to_equations; lia). done.
    + rewrite length_app, Nat2Z.inj_add. done.
    + Z.div_mod_to_equations; lia.
  - intros b g g' c -> Hg' Hbm Hg Hg8 E.
    apply Forall_app in Hb as [Hbb [Hbg Hbc]%Forall_app].
    rewrite !length_app, !Nat2Z.inj_add, Hg in Hl, Hm.
    rewrite !checksum_spec in E
      by (try (apply Forall_app; split; [done|by apply Forall_app]);
          rewrite !length_app, !Nat2Z.inj_add, ?Hg, ?Hg8; done).
    apply (inj Some) in E. symmetry in E. by apply (sum_detects native b g g' c) in E.
Qed.

Lemma checksum_exact_witness :
  walChecksumBytes false ([1; 2; 3; 4; 5; 6; 7; 8] ++ [9; 10; 11; 12; 13; 14; 15; 16]) None =
    Some (269752348, 589967672) /\
  forall g', bytes_ok g' -> len g' = 8 ->
    walChecksumBytes false ([1; 2; 3; 4; 5; 6; 7; 8] ++ g') None = Some (269752348, 589967672) ->
    [9; 10; 11; 12; 13; 14; 15; 16] = g'.
Proof.
  destruct (checksum_exact false ([1; 2; 3; 4; 5; 6; 7; 8] ++ [9; 10; 11; 12; 13; 14; 15; 16]) None)
    as (E & _ & H); [by repeat constructor|done..|].
  split; [by rewrite E|]. intros g' Hg Hl Eg.
  apply (H [1; 2; 3; 4; 5; 6; 7; 8] _ g' []); [done..|]. by rewrite app_nil_r, Eg, E.
Defined.
End WalTypes.
