(* ===== verification/WalIndex.v ===== *)
(** * Write-ahead log: the wal-index (src/wal.c)

    The wal-index finds, for a database page, the frame of the log that holds its latest
    version. It is a sequence of 32KB pages; each page has an array of page numbers, one per
    frame, and a hash table with linear probing over it. The pages lie in shared memory, and
    each connection maps those it has used.

    - A page is [WalPage]: its 4096 words (the first 34 of page 0 are two copies of the
      header and [WalCkptInfo]) and its 8192 slots. [pages] maps addresses to pages, and
      [St] is a connection's [Wal] with the memory.
    - [walIndexPage], [walHashGet], [walFramePage], [walFramePgno];
    - [walCleanupHash], [walIndexAppend], [walFindFrame], [walIndexWriteHdr].

    What the memory allocator and [xShmMap] answer for a page is the record [page_env]. An
    assertion that fails is [None]. *)

From stdpp Require Import list gmap.
From S2P Require Import Prelude Varint WalData.
Import WalTypes.
Local Open Scope Z_scope.

Module WalIndexes.

(** ** Layout *)

Definition WALINDEX_HDR_SIZE : Z := 48 * 2 + 40.
Definition HASHTABLE_NPAGE : Z := 4096.
Definition HASHTABLE_HASH_1 : Z := 383.
Definition HASHTABLE_NSLOT : Z := HASHTABLE_NPAGE * 2.
Definition HASHTABLE_NPAGE_ONE : Z := HASHTABLE_NPAGE - WALINDEX_HDR_SIZE / 4.
Definition WAL_NREADER : Z := 5.
Definition READMARK_NOT_USED : Z := 0xffffffff.

Record WalPage := Page { words : list Z; slots : list Z }.

Definition zero_page : WalPage :=
  Page (replicate (Z.to_nat HASHTABLE_NPAGE) 0) (replicate (Z.to_nat HASHTABLE_NSLOT) 0).

Record St := Sys { wal : Wal; pages : gmap Z WalPage }.

Definition on_wal (f : Wal -> Wal) (s : St) : St := Sys (f (wal s)) (pages s).
Definition on_hdr (f : WalIndexHdr -> WalIndexHdr) (s : St) : St :=
  on_wal (fun w => set_hdr (f (hdr w)) w) s.
Definition set_page (p : Z) (pg : WalPage) (s : St) : St := Sys (wal s) (<[p := pg]> (pages s)).

Record page_env := PageEnv {
  pe_realloc : Z -> bool;       (** whether the array [apWiData] can grow to hold the page *)
  pe_malloc : Z -> Z;           (** [sqlite3MallocZero] *)
  pe_shmmap : Z -> Z * Z        (** [sqlite3OsShmMap]: the result code and the page *)
}.

(** ** Pages *)

(** The result code and the page. *)
Definition walIndexPageRealloc (e : page_env) (iPage : Z) (s : St) : option (St * Z * Z) :=
  let w := wal s in
  if (nWiData w <=? iPage) && negb (pe_realloc e iPage) then Some (s, SQLITE_NOMEM, NULL) else
  let ap := apWiData w ++ replicate (Z.to_nat (iPage + 1 - nWiData w)) NULL in
  let? q := mem_get ap iPage in
  if q <>? NULL then None else
  if exclusiveMode w =? WAL_HEAPMEMORY_MODE then
    let p := pe_malloc e iPage in
    let? ap := mem_put ap iPage p in
    let s := on_wal (set_apWiData ap) s in
    if p =? NULL then Some (s, SQLITE_NOMEM, NULL)
    else Some (set_page p zero_page s, SQLITE_OK, p)
  else
    let '(rc, p) := pe_shmmap e iPage in
    let? ap := mem_put ap iPage p in
    let s := on_wal (set_apWiData ap) s in
    if negb ((p <>? NULL) || (rc <>? SQLITE_OK) || (writeLock w =? 0) && (iPage =? 0)) then None else
    let '(s, rc) :=
      if Z.land rc 0xff =? SQLITE_READONLY then
        (on_wal (set_readOnly (Z.lor (readOnly w) WAL_SHM_RDONLY)) s,
         if rc =? SQLITE_READONLY then SQLITE_OK else rc)
      else (s, rc) in
    if negb ((iPage =? 0) || (p <>? NULL) || (rc <>? SQLITE_OK)) then None
    else Some (s, rc, p).

Definition walIndexPage (e : page_env) (iPage : Z) (s : St) : option (St * Z * Z) :=
  if nWiData (wal s) <=? iPage then walIndexPageRealloc e iPage s else
  let? p := mem_get (apWiData (wal s)) iPage in
  if p =? NULL then walIndexPageRealloc e iPage s else Some (s, SQLITE_OK, p).

(** The page 0 of the wal-index, which holds the headers. *)
Definition page0 (s : St) : option (Z * WalPage) :=
  let? p := mem_get (apWiData (wal s)) 0 in
  if p =? NULL then None else
  let? pg := pages s !! p in Some (p, pg).

(** [*walIndexHdr(pWal)], the first copy of the header *)
Definition walIndexHdr (s : St) : option WalIndexHdr :=
  let? (_, pg) := page0 s in
  let? l := mem_read (words pg) 0 12 in words_hdr l.

(** Indices of the fields of [*walCkptInfo(pWal)] among the words of page 0. *)
Definition ckpt_nBackfill : Z := 24.
Definition ckpt_aReadMark (i : Z) : Z := 25 + i.
Definition ckpt_nBackfillAttempted : Z := 32.

Definition walCkptInfo_get (i : Z) (s : St) : option Z :=
  let? (_, pg) := page0 s in mem_get (words pg) i.

Definition walCkptInfo_put (i v : Z) (s : St) : option St :=
  let? (p, pg) := page0 s in
  let? ws := mem_put (words pg) i v in
  Some (set_page p (Page ws (slots pg)) s).

Definition walIndexWriteHdr (s : St) : option St :=
  if writeLock (wal s) =? 0 then None else
  let h := hdr (wal s) in
  let? c := walChecksumBytes true (hdr_image (set_live (aCksum h) h)) None in
  let h := set_live c h in
  let s := on_hdr (fun _ => h) s in
  let? (p, pg) := page0 s in
  let? ws := mem_write (words pg) 12 (hdr_words h) in
  let? ws := mem_write ws 0 (hdr_words h) in
  Some (set_page p (Page ws (slots pg)) s).

(** ** Hash tables *)

Definition walHash (iPage : Z) : Z := Z.land (u32 (iPage * HASHTABLE_HASH_1)) (HASHTABLE_NSLOT - 1).
Definition walNextHash (iPriorHash : Z) : Z := Z.land (iPriorHash + 1) (HASHTABLE_NSLOT - 1).

(** [aHash] are the slots of the page [loc_page], [aPgno] its words from [loc_off] on. *)
Record WalHashLoc := Loc { loc_page : Z; loc_off : Z; iZero : Z }.

Definition walHashGet (e : page_env) (iHash : Z) (s : St) : option (St * Z * option WalHashLoc) :=
  let? (s, rc, p) := walIndexPage e iHash s in
  if negb ((rc =? SQLITE_OK) || (0 <? iHash)) then None else
  if p <>? NULL then
    Some (s, rc, Some (if iHash =? 0 then Loc p (WALINDEX_HDR_SIZE / 4) 0
                       else Loc p 0 (u32 (HASHTABLE_NPAGE_ONE + (iHash - 1) * HASHTABLE_NPAGE))))
  else Some (s, if rc =? SQLITE_OK then SQLITE_ERROR else rc, None).

Definition walFramePage (iFrame : Z) : Z :=
  (iFrame + HASHTABLE_NPAGE - HASHTABLE_NPAGE_ONE - 1) / HASHTABLE_NPAGE.

Definition walFramePgno (iFrame : Z) (s : St) : option Z :=
  let iHash := walFramePage iFrame in
  let? p := mem_get (apWiData (wal s)) iHash in
  let? pg := pages s !! p in
  if iHash =? 0 then mem_get (words pg) (WALINDEX_HDR_SIZE / 4 + iFrame - 1)
  else mem_get (words pg) ((iFrame - 1 - HASHTABLE_NPAGE_ONE) mod HASHTABLE_NPAGE).

(** The two assertions that the page is mapped already are left out: a connection that has
    not read from the log since a checkpoint may roll back over a page boundary without
    having used the page before it. *)
Definition walCleanupHash (e : page_env) (s : St) : option St :=
  if writeLock (wal s) =? 0 then None else
  let mx := mxFrame (hdr (wal s)) in
  if mx =? 0 then Some s else
  let? (s, rc, loc) := walHashGet e (walFramePage mx) s in
  if rc <>? SQLITE_OK then Some s else
  let? loc := loc in
  let? pg := pages s !! loc_page loc in
  let iLimit := i32 (u32 (mx - iZero loc)) in
  if iLimit <=? 0 then None else
  let aHash := (fun h => if iLimit <? h then 0 else h) <$> slots pg in
  let? ws := mem_set (words pg) (loc_off loc + iLimit) 0
               (HASHTABLE_NPAGE - (loc_off loc + iLimit)) in
  Some (set_page (loc_page loc) (Page ws aHash) s).

(** The search for a free slot: [Some None] is the error return of a table with too many
    collisions. *)
Fixpoint append_probe (fuel : nat) (aHash : list Z) (iKey nCollide : Z) : option (option Z) :=
  match fuel with
  | O => None
  | S fuel =>
      let? h := mem_get aHash iKey in
      if h =? 0 then Some (Some iKey) else
      if nCollide =? 0 then Some None
      else append_probe fuel aHash (walNextHash iKey) (nCollide - 1)
  end.

(** The first part of [walIndexAppend]: zero a new table, and remove the remnants of a
    transaction that was not completed. *)
Definition append_clear (e : page_env) (loc : WalHashLoc) (idx : Z) (s : St) : option St :=
  let? pg := pages s !! loc_page loc in
  let? pg :=
    (if idx =? 1 then
       let? ws := mem_set (words pg) (loc_off loc) 0 (HASHTABLE_NPAGE - loc_off loc) in
       Some (Page ws (replicate (Z.to_nat HASHTABLE_NSLOT) 0))
     else Some pg) in
  let s := set_page (loc_page loc) pg s in
  let? x := mem_get (words pg) (loc_off loc + (idx - 1)) in
  if x <>? 0 then
    let? s := walCleanupHash e s in
    let? pg := pages s !! loc_page loc in
    let? x := mem_get (words pg) (loc_off loc + (idx - 1)) in
    if x <>? 0 then None else Some s
  else Some s.

Definition walIndexAppend (e : page_env) (iFrame iPage : Z) (s : St) : option (St * Z) :=
  let? (s, rc, loc) := walHashGet e (walFramePage iFrame) s in
  if rc <>? SQLITE_OK then Some (s, rc) else
  let? loc := loc in
  let idx := i32 (u32 (iFrame - iZero loc)) in
  if negb (idx <=? HASHTABLE_NSLOT / 2 + 1) then None else
  let? s := append_clear e loc idx s in
  let? pg := pages s !! loc_page loc in
  if iPage =? 0 then None else
  let? key := append_probe (Z.to_nat (idx + 2)) (slots pg) (walHash iPage) idx in
  match key with
  | None => Some (s, SQLITE_CORRUPT)
  | Some iKey =>
      let? ws := mem_put (words pg) (loc_off loc + Z.land (idx - 1) (HASHTABLE_NPAGE - 1)) iPage in
      let? hs := mem_put (slots pg) iKey (u16 idx) in
      Some (set_page (loc_page loc) (Page ws hs) s, SQLITE_OK)
  end.

(** ** Look-up *)

(** The inner loop over the slots of one table: [Some None] is the error return. *)
Fixpoint find_probe (fuel : nat) (loc : WalHashLoc) (pg : WalPage) (lo hi pgno iKey nCollide iRead : Z)
  : option (option Z) :=
  match fuel with
  | O => None
  | S fuel =>
      let? iH := mem_get (slots pg) iKey in
      if iH =? 0 then Some (Some iRead) else
      let iFrame := u32 (iH + iZero loc) in
      let? x := mem_get (words pg) (loc_off loc + Z.land (iH - 1) (HASHTABLE_NPAGE - 1)) in
      let hit := (iFrame <=? hi) && (lo <=? iFrame) && (x =? pgno) in
      if hit && negb (iRead <? iFrame) then None else
      let iRead := if hit then iFrame else iRead in
      if nCollide =? 0 then Some None
      else find_probe fuel loc pg lo hi pgno (walNextHash iKey) (nCollide - 1) iRead
  end.

Fixpoint find_tables (fuel : nat) (e : page_env) (pgno iLast iHash iMinHash : Z) (s : St)
  : option (St * Z * Z) :=
  match fuel with
  | O => if iHash <? iMinHash then Some (s, SQLITE_OK, 0) else None
  | S fuel =>
      if iHash <? iMinHash then Some (s, SQLITE_OK, 0) else
      let? (s, rc, loc) := walHashGet e iHash s in
      if rc <>? SQLITE_OK then Some (s, rc, 0) else
      let? loc := loc in
      let? pg := pages s !! loc_page loc in
      if pgno =? 0 then None else
      let? r := find_probe (Z.to_nat (HASHTABLE_NSLOT + 2)) loc pg (minFrame (wal s)) iLast pgno
                  (walHash pgno) HASHTABLE_NSLOT 0 in
      match r with
      | None => Some (s, SQLITE_CORRUPT, 0)
      | Some iRead =>
          if iRead <>? 0 then Some (s, SQLITE_OK, iRead)
          else find_tables fuel e pgno iLast (iHash - 1) iMinHash s
      end
  end.

(** The result code and [*piRead]. *)
Definition walFindFrame (e : page_env) (pgno : Z) (s : St) : option (St * Z * Z) :=
  let w := wal s in
  let iLast := mxFrame (hdr w) in
  if readLock w <? 0 then None else
  if (iLast =? 0) || (readLock w =? 0) && (bShmUnreliable w =? 0) then Some (s, SQLITE_OK, 0) else
  find_tables (Z.to_nat (walFramePage iLast + 1)) e pgno iLast (walFramePage iLast)
    (walFramePage (minFrame w)) s.

(** ** Probing *)

Lemma walHash_range x : 0 <= walHash x < HASHTABLE_NSLOT.
Proof.
  unfold walHash, HASHTABLE_NSLOT, HASHTABLE_NPAGE. change (4096 * 2 - 1) with (Z.ones 13).
  rewrite Z.land_ones by lia. apply Z.mod_pos_bound. lia.
Qed.

Lemma walNextHash_mod k : walNextHash k = (k + 1) mod HASHTABLE_NSLOT.
Proof.
  unfold walNextHash, HASHTABLE_NSLOT, HASHTABLE_NPAGE. change (4096 * 2 - 1) with (Z.ones 13).
  by rewrite Z.land_ones by lia.
Qed.

(** The position of the [n]-th probe for page [x], and the slot found there. *)
Definition pos (x : Z) (n : nat) : Z := (walHash x + Z.of_nat n) mod HASHTABLE_NSLOT.
Definition probe (sl : list Z) (x : Z) (n : nat) : option Z := mem_get sl (pos x n).

Lemma pos_range x n : 0 <= pos x n < HASHTABLE_NSLOT.
Proof. apply Z.mod_pos_bound. done. Qed.

Lemma pos_0 x : pos x 0 = walHash x.
Proof. unfold pos. rewrite Z.add_0_r. apply Z.mod_small, walHash_range. Qed.

Lemma pos_next x n : walNextHash (pos x n) = pos x (S n).
Proof.
  rewrite walNextHash_mod. unfold pos. rewrite Zplus_mod_idemp_l. f_equal. lia.
Qed.

Lemma pos_inj x n m :
  Z.of_nat n < HASHTABLE_NSLOT -> Z.of_nat m < HASHTABLE_NSLOT -> pos x n = pos x m -> n = m.
Proof.
  unfold pos. pose proof (walHash_range x). intros Hn Hm E.
  unfold HASHTABLE_NSLOT, HASHTABLE_NPAGE in *. Z.div_mod_to_equations. lia.
Qed.

Lemma pos_wrap x n : HASHTABLE_NSLOT <= Z.of_nat n ->
  pos x n = pos x (n - Z.to_nat HASHTABLE_NSLOT).
Proof.
  intros Hn. unfold pos. rewrite Nat2Z.inj_sub, Z2Nat.id by (unfold HASHTABLE_NSLOT, HASHTABLE_NPAGE in *; lia).
  rewrite <- (Z_mod_plus_full (_ + (_ - _)) 1). f_equal. lia.
Qed.

Lemma probe_total sl x n : len sl = HASHTABLE_NSLOT -> is_Some (probe sl x n).
Proof.
  intros Hl. unfold probe, mem_get. pose proof (pos_range x n). rewrite (proj2 (Z.leb_le _ _)) by lia.
  apply lookup_lt_is_Some_2. lia.
Qed.

Lemma probe_lookup sl x n v : probe sl x n = Some v <-> sl !! Z.to_nat (pos x n) = Some v.
Proof.
  unfold probe, mem_get. pose proof (pos_range x n). by rewrite (proj2 (Z.leb_le _ _)) by lia.
Qed.

(** A hash table over the page numbers [l]. *)
Record table_ok (sl l : list Z) : Prop := {
  t_len : len sl = HASHTABLE_NSLOT;
  t_size : len l <= HASHTABLE_NPAGE;
  t_val : forall i v, sl !! i = Some v -> 0 <= v <= len l;
  t_inj : forall i j v, sl !! i = Some v -> sl !! j = Some v -> v <> 0 -> i = j;
  t_reach : forall j x, l !! j = Some x -> exists n, probe sl x n = Some (Z.of_nat j + 1) /\
    forall m, (m < n)%nat -> exists v, probe sl x m = Some v /\ 0 < v <= Z.of_nat j
}.

Lemma probe_inj sl l x n m v :
  table_ok sl l -> Z.of_nat n < HASHTABLE_NSLOT -> Z.of_nat m < HASHTABLE_NSLOT ->
  probe sl x n = Some v -> probe sl x m = Some v -> v <> 0 -> n = m.
Proof.
  intros H Hn Hm E1%probe_lookup E2%probe_lookup Hv. apply (pos_inj x); [done..|].
  pose proof (t_inj _ _ H _ _ _ E1 E2 Hv). pose proof (pos_range x n). pose proof (pos_range x m). lia.
Qed.

(** The chain of a page is shorter than the table. *)
Lemma reach_lt sl x n v :
  probe sl x n = Some v -> (forall m, (m < n)%nat -> exists v', probe sl x m = Some v' /\ v' < v) ->
  Z.of_nat n < HASHTABLE_NSLOT.
Proof.
  intros E H. destruct (decide (Z.of_nat n < HASHTABLE_NSLOT)) as [|Hn]; [done|].
  destruct (H (n - Z.to_nat HASHTABLE_NSLOT)%nat) as (v' & E' & Hv').
  { unfold HASHTABLE_NSLOT, HASHTABLE_NPAGE in *. lia. }
  unfold probe in *. rewrite <- pos_wrap in E' by lia. rewrite E in E'. simplify_eq. lia.
Qed.

Lemma least_nat (P : nat -> Prop) `{forall n, Decision (P n)} m :
  P m -> exists n, (n <= m)%nat /\ P n /\ forall j, (j < n)%nat -> ~ P j.
Proof.
  intros Hm. cut (forall k, (exists n, (n < k)%nat /\ P n /\ forall j, (j < n)%nat -> ~ P j) \/
    forall j, (j < k)%nat -> ~ P j).
  { intros C. destruct (C (S m)) as [(n & Hn & HP & Hj)|Hj].
    - exists n. split; [lia|done].
    - destruct (Hj m ltac:(lia) Hm). }
  induction k as [|k [(n & Hn & HP & Hj)|IH]]; [right; lia|left; exists n; split; [lia|done]|].
  destruct (decide (P k)); [left; exists k; split; [lia|done]|]. right. intros j Hj.
  destruct (decide (j = k)) as [->|]; [done|apply IH; lia].
Qed.

(** The first free slot on the chain of [x]: with [len l] entries it is at most at probe
    [len l]. *)
Lemma free_slot sl l x :
  table_ok sl l -> exists n, Z.of_nat n <= len l /\ probe sl x n = Some 0 /\
    forall m, (m < n)%nat -> exists v, probe sl x m = Some v /\ 0 < v <= len l.
Proof.
  intros H.
  assert (Hv : forall m, exists v, probe sl x m = Some v /\ 0 <= v <= len l).
  { intros m. destruct (probe_total sl x m (t_len _ _ H)) as [v E]. exists v. split; [done|].
    apply probe_lookup in E. by eapply t_val. }
  assert (exists m, (m <= length l)%nat /\ probe sl x m = Some 0) as (m & Hm & E).
  { destruct (decide (Exists (fun m => probe sl x m = Some 0) (seq 0 (S (length l))))) as [D|D].
    - apply list.Exists_exists in D as (m & Hm%elem_of_seq & E). exists m. split; [lia|done].
    - exfalso. set (f m := default 0 (probe sl x m)).
      assert (Hlt : forall m, m ∈ seq 0 (S (length l)) -> Z.of_nat m < HASHTABLE_NSLOT).
      { intros m Hm%elem_of_seq. pose proof (t_size _ _ H). unfold HASHTABLE_NSLOT, HASHTABLE_NPAGE in *. lia. }
      assert (Hf : forall m, m ∈ seq 0 (S (length l)) -> probe sl x m = Some (f m) /\ 1 <= f m <= len l).
      { intros m Hm. destruct (Hv m) as (v & E & Hr). unfold f. rewrite E. simpl. split; [done|].
        destruct (decide (v = 0)) as [->|]; [|lia]. destruct D. apply list.Exists_exists. eauto. }
      assert (Hnd : NoDup (f <$> seq 0 (S (length l)))).
      { apply NoDup_fmap_2_strong; [|apply NoDup_seq]. intros m n Hm Hn Ef.
        destruct (Hf m Hm) as [E1 ?], (Hf n Hn) as [E2 ?]. rewrite <- Ef in E2.
        apply (probe_inj _ _ _ _ _ _ H (Hlt m Hm) (Hlt n Hn) E1 E2). lia. }
      assert (Hs : f <$> seq 0 (S (length l)) ⊆+ seqZ 1 (len l)).
      { apply NoDup_submseteq; [done|]. intros v (m & -> & Hm)%list_elem_of_fmap.
        apply elem_of_seqZ. pose proof (Hf m Hm). lia. }
      apply submseteq_length in Hs. rewrite length_fmap, length_seq, length_seqZ in Hs. lia. }
  destruct (least_nat (fun m => probe sl x m = Some 0) m E) as (n & Hn & E0 & Hlt).
  exists n. split_and!; [lia|done|]. intros j Hj. destruct (Hv j) as (v & Ev & Hr).
  exists v. split; [done|]. destruct (decide (v = 0)) as [->|]; [by destruct (Hlt j Hj)|lia].
Qed.

Lemma append_probe_free sl x n fuel nCollide k :
  probe sl x (k + n) = Some 0 ->
  (forall m, (m < n)%nat -> exists v, probe sl x (k + m) = Some v /\ 0 < v) ->
  Z.of_nat n <= nCollide -> (n < fuel)%nat ->
  append_probe fuel sl (pos x k) nCollide = Some (Some (pos x (k + n))).
Proof.
  revert k fuel nCollide. induction n as [|n IH]; intros k fuel nC E0 Hne Hc Hf;
    (destruct fuel as [|fuel]; [lia|]); cbn [append_probe].
  - rewrite Nat.add_0_r in *. unfold probe in E0. by rewrite E0.
  - destruct (Hne 0%nat ltac:(lia)) as (v & Ev & Hv). rewrite Nat.add_0_r in Ev. unfold probe in Ev.
    rewrite Ev. cbn. rewrite (proj2 (Z.eqb_neq v 0)), (proj2 (Z.eqb_neq nC 0)) by lia.
    rewrite pos_next, IH; [by rewrite Nat.add_succ_comm|by rewrite Nat.add_succ_comm| |lia|lia].
    intros m Hm. rewrite Nat.add_succ_comm. apply Hne. lia.
Qed.

Lemma table_empty : table_ok (replicate (Z.to_nat HASHTABLE_NSLOT) 0) [].
Proof.
  split.
  - rewrite length_replicate. unfold HASHTABLE_NSLOT, HASHTABLE_NPAGE. lia.
  - done.
  - intros i v [-> _]%lookup_replicate. simpl. lia.
  - intros i j v [-> _]%lookup_replicate. done.
  - done.
Qed.

(** Entering one more page. *)
Lemma table_append sl l x fuel :
  table_ok sl l -> len l < HASHTABLE_NPAGE -> len l + 1 < Z.of_nat fuel ->
  exists key, append_probe fuel sl (walHash x) (len l + 1) = Some (Some key) /\
    0 <= key < len sl /\ table_ok (<[Z.to_nat key := len l + 1]> sl) (l ++ [x]).
Proof.
  intros H Hl Hf. destruct (free_slot sl l x H) as (n & Hn & E0 & Hne).
  pose proof (pos_range x n) as Hp. pose proof (t_len _ _ H) as Hlen.
  exists (pos x n). split; [|split; [lia|]].
  { rewrite <- (pos_0 x). rewrite (append_probe_free sl x n fuel _ 0); [done|done| |lia|lia].
    intros m Hm. destruct (Hne m Hm) as (v & ? & ?). exists v. split; [done|lia]. }
  set (key := Z.to_nat (pos x n)).
  assert (Hkey : forall y m, Z.to_nat (pos y m) = key -> probe sl y m = Some 0).
  { intros y m E. apply probe_lookup. rewrite E. by apply probe_lookup in E0. }
  assert (Hkeep : forall y m v, probe sl y m = Some v -> v <> 0 ->
            probe (<[key := len l + 1]> sl) y m = Some v).
  { intros y m v E Hv. apply probe_lookup. rewrite list_lookup_insert_ne; [by apply probe_lookup|].
    intros E'. rewrite (Hkey y m) in E by done. congruence. }
  split.
  - by rewrite length_insert.
  - rewrite length_app. simpl. lia.
  - intros i v [(-> & <- & _)|(? & E)]%list_lookup_insert_Some; rewrite length_app; simpl; [lia|].
    pose proof (t_val _ _ H _ _ E). lia.
  - intros i j v Hi Hj Hv.
    apply list_lookup_insert_Some in Hi as [(<- & <- & _)|(Hki & Hi)];
    apply list_lookup_insert_Some in Hj as [(<- & Ej & _)|(Hkj & Hj)].
    + done.
    + pose proof (t_val _ _ H _ _ Hj). lia.
    + pose proof (t_val _ _ H _ _ Hi). lia.
    + by eapply t_inj.
  - intros j y [Hj|(Hj & Ey)]%lookup_app_Some.
    + destruct (t_reach _ _ H j y Hj) as (k & Ek & Hk). exists k. split; [apply Hkeep; [done|lia]|].
      intros m Hm. destruct (Hk m Hm) as (v & Ev & ?). exists v. split; [apply Hkeep; [done|lia]|lia].
    + apply list_lookup_singleton_Some in Ey as [Hj0 <-].
      replace (Z.of_nat j) with (len l) by lia.
      exists n. split.
      * apply probe_lookup. apply list_lookup_insert_eq. lia.
      * intros m Hm. destruct (Hne m Hm) as (v & Ev & ?). exists v. split; [apply Hkeep; [done|lia]|lia].
Qed.

(** Removing all entries from the [k]-th on. *)
Lemma table_take sl l k :
  table_ok sl l -> table_ok ((fun h => if Z.of_nat k <? h then 0 else h) <$> sl) (take k l).
Proof.
  intros H. set (f h := if Z.of_nat k <? h then 0 else h).
  assert (Hf : forall v, v <= Z.of_nat k -> f v = v) by (intros v Hv; unfold f; case_cond; lia).
  assert (Hp : forall y m v, probe sl y m = Some v -> v <= Z.of_nat k -> probe (f <$> sl) y m = Some v).
  { intros y m v E%probe_lookup Hv. apply probe_lookup. rewrite list_lookup_fmap, E. simpl. by rewrite Hf. }
  pose proof (t_size _ _ H). split.
  - rewrite length_fmap. apply H.
  - rewrite length_take. lia.
  - intros i v. rewrite list_lookup_fmap. intros (h & Eh & ->)%fmap_Some.
    pose proof (t_val _ _ H _ _ Eh). rewrite length_take. unfold f. case_cond; lia.
  - intros i j v. rewrite !list_lookup_fmap. intros (h & Eh & ->)%fmap_Some (h' & Eh' & E)%fmap_Some Hv.
    assert (h = h') as <-.
    { unfold f in *. repeat case_cond; try lia. revert E Hv. repeat case_cond; lia. }
    apply (t_inj _ _ H _ _ h Eh Eh'). intros ->. apply Hv. unfold f. case_cond; lia.
  - intros j x (Hj & Hk)%lookup_take_Some. destruct (t_reach _ _ H j x Hj) as (n & En & Hn).
    exists n. split; [apply Hp; [done|lia]|]. intros m Hm. destruct (Hn m Hm) as (v & ? & ?).
    exists v. split; [apply Hp; [done|lia]|lia].
Qed.

(** ** One page of the index *)

(** The page [pg], whose array of page numbers starts at word [off], holds [l]. *)
Record block_ok (pg : WalPage) (off : Z) (l : list Z) : Prop := {
  b_words : len (words pg) = HASHTABLE_NPAGE;
  b_off : 0 <= off;
  b_room : off + len l <= HASHTABLE_NPAGE;
  b_pgnos : drop (Z.to_nat off) (words pg) =
    l ++ replicate (Z.to_nat (HASHTABLE_NPAGE - off - len l)) 0;
  b_table : table_ok (slots pg) l;
  b_pos : Forall (fun x => 0 < x) l
}.

Lemma block_get pg off l (j : nat) :
  block_ok pg off l ->
  mem_get (words pg) (off + Z.of_nat j) =
    (l ++ replicate (Z.to_nat (HASHTABLE_NPAGE - off - len l)) 0) !! j.
Proof.
  intros H. pose proof (b_off _ _ _ H). unfold mem_get. rewrite (proj2 (Z.leb_le _ _)) by lia.
  rewrite <- (b_pgnos _ _ _ H), lookup_drop. f_equal. lia.
Qed.

Lemma block_get_entry pg off l (j : nat) x :
  block_ok pg off l -> l !! j = Some x -> mem_get (words pg) (off + Z.of_nat j) = Some x.
Proof. intros H E. rewrite (block_get _ _ l) by done. by apply lookup_app_l_Some. Qed.

Lemma block_get_free pg off l (j : nat) :
  block_ok pg off l -> len l <= Z.of_nat j -> off + Z.of_nat j < HASHTABLE_NPAGE ->
  mem_get (words pg) (off + Z.of_nat j) = Some 0.
Proof.
  intros H Hj Hr. rewrite (block_get _ _ l) by done.
  rewrite lookup_app_r by lia. apply lookup_replicate. split; [done|lia].
Qed.

Lemma land_npage x : 0 <= x < HASHTABLE_NPAGE -> Z.land x (HASHTABLE_NPAGE - 1) = x.
Proof.
  unfold HASHTABLE_NPAGE. intros Hx. change (4096 - 1) with (Z.ones 12).
  rewrite Z.land_ones by lia. apply Z.mod_small. lia.
Qed.

(** The entry [j] of a block after frame [z] is a version of page [x] among the frames
    [lo] .. [hi]. *)
Definition hit (l : list Z) (z lo hi x : Z) (j : nat) : Prop :=
  l !! j = Some x /\ lo <= z + Z.of_nat j + 1 <= hi.

#[global] Instance hit_dec l z lo hi x j : Decision (hit l z lo hi x j).
Proof. unfold hit. apply _. Defined.

Definition latest (l : list Z) (z lo hi x r : Z) : Prop :=
  (r = 0 /\ forall j, ~ hit l z lo hi x j) \/
  (exists j, hit l z lo hi x j /\ r = z + Z.of_nat j + 1 /\ forall j', hit l z lo hi x j' -> (j' <= j)%nat).

(** All entries for [x] are on its chain, and they come in the order of the frames. *)
Lemma chain_complete sl l x n j :
  table_ok sl l -> probe sl x n = Some 0 -> l !! j = Some x ->
  exists m, (m < n)%nat /\ probe sl x m = Some (Z.of_nat j + 1).
Proof.
  intros H E0 Hj. destruct (t_reach _ _ H j x Hj) as (m & Em & Hm). exists m. split; [|done].
  destruct (decide (m = n)) as [->|]; [rewrite E0 in Em; simplify_eq; lia|].
  destruct (decide (m < n)%nat) as [|Hge]; [done|].
  destruct (Hm n) as (v & Ev & ?); [lia|]. rewrite E0 in Ev. simplify_eq. lia.
Qed.

Lemma chain_order sl l x k m j j' :
  table_ok sl l -> l !! j = Some x -> Z.of_nat k < HASHTABLE_NSLOT -> probe sl x k = Some (Z.of_nat j + 1) ->
  (m < k)%nat -> probe sl x m = Some (Z.of_nat j' + 1) -> (j' < j)%nat.
Proof.
  intros H Hj Hk Ek Hm Em. destruct (t_reach _ _ H j x Hj) as (i & Ei & Hi).
  assert (i = k) as ->.
  { apply (probe_inj _ _ x _ _ (Z.of_nat j + 1) H); [|lia|done..|lia].
    apply (reach_lt _ _ _ _ Ei). intros m' Hm'. destruct (Hi m' Hm') as (w & ? & ?). exists w. split; [done|lia]. }
  destruct (Hi m Hm) as (w & Ew & ?). rewrite Em in Ew. simplify_eq. lia.
Qed.

(** The loop over the chain of [x], from probe [k] on, when [r] is the latest hit of the
    probes before. *)
Lemma find_probe_loop pg off l z lo hi x nfree p fuel nC k n r :
  block_ok pg off l -> 0 <= z -> z + len l < 2 ^ 32 ->
  (k + n)%nat = nfree -> probe (slots pg) x nfree = Some 0 -> Z.of_nat nfree < HASHTABLE_NSLOT ->
  (forall m, (m < nfree)%nat -> exists v, probe (slots pg) x m = Some v /\ 0 < v <= len l) ->
  (r = 0 \/ exists j m, r = z + Z.of_nat j + 1 /\ hit l z lo hi x j /\ (m < k)%nat /\
     probe (slots pg) x m = Some (Z.of_nat j + 1)) ->
  (forall j m, hit l z lo hi x j -> (m < k)%nat -> probe (slots pg) x m = Some (Z.of_nat j + 1) ->
     z + Z.of_nat j + 1 <= r) ->
  Z.of_nat n <= nC -> (n < fuel)%nat ->
  exists r', find_probe fuel (Loc p off z) pg lo hi x (pos x k) nC r = Some (Some r') /\
    latest l z lo hi x r'.
Proof.
  intros H Hz Hzl. revert k fuel nC r. induction n as [|n IH]; intros k fuel nC r Hk E0 Hnf Hne Hr Hmax Hc Hf;
    (destruct fuel as [|fuel]; [lia|]); cbn [find_probe iZero loc_off].
  - rewrite Nat.add_0_r in Hk. subst k. unfold probe in E0. rewrite E0. cbn. exists r. split; [done|].
    assert (Hall : forall j, hit l z lo hi x j -> z + Z.of_nat j + 1 <= r).
    { intros j Hj. destruct (chain_complete _ _ _ _ j (b_table _ _ _ H) E0 (proj1 Hj)) as (m & Hm & Em).
      by apply (Hmax j m Hj). }
    destruct Hr as [->|(j & m & -> & Hj & _ & _)].
    + left. split; [done|]. intros j Hj. pose proof (Hall j Hj). lia.
    + right. exists j. split_and!; [done..|]. intros j' Hj'. pose proof (Hall j' Hj'). lia.
  - destruct (Hne k ltac:(lia)) as (v & Ev & Hv).
    assert (exists j, v = Z.of_nat j + 1) as [j ->] by (exists (Z.to_nat (v - 1)); lia). pose proof Ev as Ev'. unfold probe in Ev'. rewrite Ev'. cbn.
    rewrite (proj2 (Z.eqb_neq (Z.of_nat j + 1) 0)) by lia.
    pose proof (b_room _ _ _ H). pose proof (b_off _ _ _ H).
    rewrite land_npage by lia. destruct (lookup_lt_is_Some_2 l j) as [y Ey]; [lia|].
    replace (Z.of_nat j + 1 - 1) with (Z.of_nat j) by lia.
    rewrite (block_get_entry _ _ _ _ _ H Ey). cbn. rewrite u32_small by lia.
    set (b := (Z.of_nat j + 1 + z <=? hi) && (lo <=? Z.of_nat j + 1 + z) && (y =? x)).
    assert (Hb : b = true <-> hit l z lo hi x j).
    { unfold b, hit. rewrite Ey, !andb_true_iff, !Z.leb_le, Z.eqb_eq. naive_solver lia. }
    assert (Hlt : b = true -> forall j' m, (m < k)%nat -> probe (slots pg) x m = Some (Z.of_nat j' + 1) -> (j' < j)%nat).
    { intros Hj%Hb j' m Hm. apply (chain_order _ _ _ k m j j' (b_table _ _ _ H) (proj1 Hj)); [lia|done..]. }
    assert (Hgt : b = true -> r < Z.of_nat j + 1 + z).
    { intros Htrue. destruct Hr as [->|(j' & m & -> & _ & Hm & Em)]; [lia|].
      pose proof (Hlt Htrue j' m Hm Em). lia. }
    replace (b && negb (r <? Z.of_nat j + 1 + z)) with false
      by (destruct b; [rewrite (proj2 (Z.ltb_lt _ _)) by auto|]; done).
    rewrite (proj2 (Z.eqb_neq nC 0)) by lia. rewrite pos_next.
    apply IH; [lia|done..| | |lia|lia].
    + destruct b; [right|destruct Hr as [->|(j' & m & -> & Hj' & Hm & Em)]; [by left|right]].
      * exists j, k. split_and!; [lia|by apply Hb|lia|done].
      * exists j', m. split_and!; [done..|lia|done].
    + intros j' m Hj' Hm Em. destruct (decide (m = k)) as [->|].
      * rewrite Ev in Em. simplify_eq. assert (j' = j) as -> by lia.
        rewrite (proj2 Hb) by done. lia.
      * pose proof (Hmax j' m Hj' ltac:(lia) Em). destruct b; [specialize (Hgt eq_refl)|]; lia.
Qed.

Lemma find_probe_spec pg off l z lo hi x p :
  block_ok pg off l -> 0 <= z -> z + len l < 2 ^ 32 ->
  exists r, find_probe (Z.to_nat (HASHTABLE_NSLOT + 2)) (Loc p off z) pg lo hi x (walHash x) HASHTABLE_NSLOT 0
    = Some (Some r) /\ latest l z lo hi x r.
Proof.
  intros H Hz Hl. destruct (free_slot (slots pg) l x (b_table _ _ _ H)) as (n & Hn & E0 & Hne).
  pose proof (t_size _ _ (b_table _ _ _ H)). rewrite <- (pos_0 x).
  apply (find_probe_loop pg off l z lo hi x n p _ _ 0 n); try done;
    unfold HASHTABLE_NSLOT, HASHTABLE_NPAGE in *; try lia.
Qed.

Lemma block_zero pg ws off :
  len (words pg) = HASHTABLE_NPAGE -> 0 <= off < HASHTABLE_NPAGE ->
  mem_set (words pg) off 0 (HASHTABLE_NPAGE - off) = Some ws ->
  block_ok (Page ws (replicate (Z.to_nat HASHTABLE_NSLOT) 0)) off [] /\
  take (Z.to_nat off) ws = take (Z.to_nat off) (words pg).
Proof.
  intros Hw Ho E. pose proof (mem_set_length _ _ _ _ _ E) as Hl. unfold mem_set in E.
  rewrite (proj2 (Z.leb_le _ _)) in E by lia. apply mem_write_Some in E as (_ & _ & ->).
  assert (Ht : length (take (Z.to_nat off) (words pg)) = Z.to_nat off) by (rewrite length_take; lia).
  split; [|by rewrite take_app_le, take_take, Nat.min_id by lia].
  split; simpl; [by rewrite Hl|lia|lia| |apply table_empty|constructor].
  rewrite drop_app_ge, Ht, Nat.sub_diag, drop_0, length_replicate by lia.
  rewrite (drop_ge (words pg)) by lia. rewrite app_nil_r. f_equal. lia.
Qed.

Lemma block_cleanup pg ws off l k :
  block_ok pg off l -> (k <= length l)%nat -> 
  mem_set (words pg) (off + Z.of_nat k) 0 (HASHTABLE_NPAGE - (off + Z.of_nat k)) = Some ws ->
  block_ok (Page ws ((fun h => if Z.of_nat k <? h then 0 else h) <$> slots pg)) off (take k l) /\
  take (Z.to_nat off) ws = take (Z.to_nat off) (words pg).
Proof.
  intros H Hk E. pose proof (mem_set_length _ _ _ _ _ E) as Hl.
  pose proof (b_words _ _ _ H). pose proof (b_off _ _ _ H). pose proof (b_room _ _ _ H).
  unfold mem_set in E. rewrite (proj2 (Z.leb_le _ _)) in E by lia.
  apply mem_write_Some in E as (_ & _ & ->).
  set (t := take (Z.to_nat (off + Z.of_nat k)) (words pg)) in *.
  assert (Ht : length t = Z.to_nat (off + Z.of_nat k)) by (unfold t; rewrite length_take; lia).
  split; [|rewrite take_app_le by lia; unfold t; by rewrite take_take, Nat.min_l by lia].
  split; simpl; [by rewrite Hl|lia|rewrite length_take; lia| |by apply table_take, H|by apply Forall_take, H].
  rewrite drop_app_le by lia. unfold t.
  rewrite length_replicate, (drop_ge (words pg)) by lia. rewrite app_nil_r.
  rewrite skipn_firstn_comm, (b_pgnos _ _ _ H), take_app_le by lia.
  f_equal; [f_equal; lia|]. f_equal. rewrite length_take. lia.
Qed.

Lemma block_append pg off l x ws fuel :
  block_ok pg off l -> off + len l < HASHTABLE_NPAGE -> 0 < x -> len l + 1 < Z.of_nat fuel ->
  mem_put (words pg) (off + len l) x = Some ws ->
  exists key, append_probe fuel (slots pg) (walHash x) (len l + 1) = Some (Some key) /\
    0 <= key < len (slots pg) /\
    block_ok (Page ws (<[Z.to_nat key := len l + 1]> (slots pg))) off (l ++ [x]) /\
    take (Z.to_nat off) ws = take (Z.to_nat off) (words pg).
Proof.
  intros H Hr Hx Hf E. pose proof (b_words _ _ _ H). pose proof (b_off _ _ _ H).
  destruct (table_append (slots pg) l x fuel (b_table _ _ _ H)) as (key & Ek & Hkey & Ht); [lia..|].
  exists key. unfold mem_put in E. rewrite (proj2 (Z.leb_le _ _)), (proj2 (Z.ltb_lt _ _)) in E by lia.
  injection E as <-. split_and!; [done|lia..| |].
  - split; simpl; [by rewrite length_insert|lia|rewrite length_app; simpl; lia| |done|].
    + rewrite drop_insert_ge, (b_pgnos _ _ _ H) by lia.
      replace (Z.to_nat (off + len l) - Z.to_nat off)%nat with (length l + 0)%nat by lia.
      rewrite insert_app_r, <- app_assoc, length_app. f_equal. simpl.
      replace (Z.to_nat (HASHTABLE_NPAGE - off - len l)) with (S (Z.to_nat (HASHTABLE_NPAGE - off - Z.of_nat (length l + 1)))) by lia.
      done.
    + apply Forall_app. split; [apply H|]. by constructor.
  - by rewrite take_insert_ge by lia.
Qed.

(** ** Frames and pages *)

(** The number of the first word of the array on page [b], and of the frame before the
    first one indexed there. *)
Definition off_of (b : Z) : Z := if b =? 0 then WALINDEX_HDR_SIZE / 4 else 0.
Definition zero_of (b : Z) : Z := if b =? 0 then 0 else HASHTABLE_NPAGE_ONE + (b - 1) * HASHTABLE_NPAGE.

(** The part of the log indexed on page [b]. *)
Definition block (b : Z) (plog : list Z) : list Z :=
  take (Z.to_nat (HASHTABLE_NPAGE - off_of b)) (drop (Z.to_nat (zero_of b)) plog).

Lemma layout_eqs :
  WALINDEX_HDR_SIZE / 4 = 34 /\ HASHTABLE_NPAGE = 4096 /\ HASHTABLE_NPAGE_ONE = 4062 /\ HASHTABLE_NSLOT = 8192.
Proof. done. Qed.

Ltac layout :=
  pose proof layout_eqs as (? & ? & ? & ?); unfold off_of, zero_of in *;
  repeat match goal with H : context [?b =? 0] |- _ => destruct (Z.eqb_spec b 0)
         | |- context [?b =? 0] => destruct (Z.eqb_spec b 0) end.

Lemma walFramePage_spec f b :
  1 <= f -> walFramePage f = b <-> 0 <= b /\ zero_of b < f <= zero_of b + (HASHTABLE_NPAGE - off_of b).
Proof.
  intros Hf. unfold walFramePage. layout; split; intros; Z.div_mod_to_equations; lia.
Qed.

Lemma walFramePage_bounds f :
  1 <= f -> 0 <= walFramePage f /\ zero_of (walFramePage f) < f <= zero_of (walFramePage f) + (HASHTABLE_NPAGE - off_of (walFramePage f)).
Proof. intros Hf. by apply walFramePage_spec. Qed.

(** ** The index as a whole *)

Definition page_size (pg : WalPage) : Prop :=
  len (words pg) = HASHTABLE_NPAGE /\ len (slots pg) = HASHTABLE_NSLOT.

Lemma zero_page_size : page_size zero_page.
Proof. split; unfold zero_page; cbn [words slots]; by rewrite length_replicate, Z2Nat.id. Qed.

(** [share] gives the addresses of the pages of the wal-index. The pages hold the page
    numbers [plog] of the frames; what is on pages after those of [plog] is arbitrary. *)
Record index_ok (ps : gmap Z WalPage) (share : gmap Z Z) (plog : list Z) : Prop := {
  ix_inj : forall b c p, share !! b = Some p -> share !! c = Some p -> b = c;
  ix_null : forall b p, share !! b = Some p -> p <> NULL;
  ix_size : forall b p, share !! b = Some p -> exists pg, ps !! p = Some pg /\ page_size pg;
  ix_block : forall b, 0 <= b -> zero_of b < len plog -> exists p pg,
    share !! b = Some p /\ ps !! p = Some pg /\ block_ok pg (off_of b) (block b plog);
  ix_len : len plog < 2 ^ 31
}.

Definition mapped (w : Wal) (b p : Z) : Prop := mem_get (apWiData w) b = Some p /\ p <> NULL.

(** A connection maps pages of the index, page 0 among them; with the index in heap memory
    there are no other pages. *)
Record conn_ok (w : Wal) (share : gmap Z Z) : Prop := {
  cn_share : forall b p, mapped w b p -> share !! b = Some p;
  cn_zero : exists p, mapped w 0 p;
  cn_heap : exclusiveMode w = WAL_HEAPMEMORY_MODE -> forall b p, share !! b = Some p -> mapped w b p
}.

(** What [walIndexPage] obtains for page [b]. *)
Definition env_page (e : page_env) (w : Wal) (b : Z) : Z :=
  if exclusiveMode w =? WAL_HEAPMEMORY_MODE then pe_malloc e b else (pe_shmmap e b).2.

(** The contract of the allocator and of [xShmMap], for the pages not mapped yet: the memory
    allocated is fresh; the page mapped is that page of the index, which is new or another
    connection uses already. *)
Record env_ok (e : page_env) (s : St) (share : gmap Z Z) : Prop := {
  en_inj : forall b c, env_page e (wal s) b = env_page e (wal s) c -> env_page e (wal s) b <> NULL -> b = c;
  en_heap : exclusiveMode (wal s) = WAL_HEAPMEMORY_MODE -> forall b, (forall p, ~ mapped (wal s) b p) ->
    pe_malloc e b <> NULL -> pages s !! pe_malloc e b = None;
  en_null : exclusiveMode (wal s) <> WAL_HEAPMEMORY_MODE -> forall b, (pe_shmmap e b).2 = NULL ->
    (pe_shmmap e b).1 <> SQLITE_OK /\ (pe_shmmap e b).1 <> SQLITE_READONLY;
  en_shm : exclusiveMode (wal s) <> WAL_HEAPMEMORY_MODE -> forall b p, (forall q, ~ mapped (wal s) b q) ->
    (pe_shmmap e b).2 = p -> p <> NULL ->
    (exists pg, pages s !! p = Some pg /\ page_size pg) /\
    (share !! b = Some p \/ share !! b = None /\ forall c, share !! c <> Some p)
}.

(** The handle up to the mapping. *)
Definition same_wal (w w' : Wal) : Prop :=
  exists ap ro, w' = set_apWiData ap (set_readOnly ro w).

Lemma same_wal_refl w : same_wal w w.
Proof. exists (apWiData w), (readOnly w). by destruct w. Qed.

Lemma same_wal_trans w1 w2 w3 : same_wal w1 w2 -> same_wal w2 w3 -> same_wal w1 w3.
Proof. intros (ap & ro & ->) (ap' & ro' & ->). by exists ap', ro'. Qed.

#[export] Hint Resolve same_wal_refl same_wal_trans : core.

Record inv (s : St) (share : gmap Z Z) (plog : list Z) : Prop := {
  inv_index : index_ok (pages s) share plog;
  inv_conn : conn_ok (wal s) share
}.

Lemma index_ok_extend ps ps' share share' plog :
  index_ok ps share plog -> ps ⊆ ps' -> share ⊆ share' ->
  (forall b p, share' !! b = Some p -> share !! b = Some p \/
     p <> NULL /\ exists pg, ps' !! p = Some pg /\ page_size pg) ->
  (forall b c p, share' !! b = Some p -> share' !! c = Some p -> b = c) ->
  index_ok ps' share' plog.
Proof.
  intros [I1 I2 I3 I4 I5] Hps Hsh Hnew Hinj. split; [done| | | |done].
  - intros b p [E|[? _]]%Hnew; [by eapply I2|done].
  - intros b p [E|[_ ?]]%Hnew; [|done]. destruct (I3 b p E) as (pg & Epg & ?). exists pg. split; [by eapply lookup_weaken|done].
  - intros b Hb Hz. destruct (I4 b Hb Hz) as (p & pg & E1 & E2 & ?). exists p, pg.
    split_and!; [by eapply lookup_weaken..|done].
Qed.

(** The page obtained is new to [share], or the page [b] another connection uses. *)
Lemma answer_ok s share plog e b p s' :
  inv s share plog -> env_ok e s share -> (forall q, ~ mapped (wal s) b q) ->
  p = env_page e (wal s) b -> p <> NULL ->
  pages s' = (if (exclusiveMode (wal s) =? WAL_HEAPMEMORY_MODE) && (p <>? NULL)
              then <[p := zero_page]> (pages s) else pages s) ->
  (share !! b = None \/ share !! b = Some p) /\ (forall c, c <> b -> share !! c <> Some p) /\
    pages s ⊆ pages s' /\ exists pg, pages s' !! p = Some pg /\ page_size pg.
Proof.
  intros [HI HC] HE Hb Hp Hp0 Hps.
  destruct HE as [E1 E2 E3 E4]. unfold env_page in *.
  destruct (Z.eqb_spec (exclusiveMode (wal s)) WAL_HEAPMEMORY_MODE) as [Hh|Hh].
  - rewrite (proj2 (Z.eqb_neq p NULL)) in Hps by done. simpl in Hps. subst p.
    pose proof (E2 Hh b Hb Hp0) as Hf. rewrite Hps.
    split_and!; [|intros c _ Ec|by apply insert_subseteq|].
    + left. apply eq_None_not_Some. intros [q Eq]. by apply (Hb q), (cn_heap _ _ HC).
    + destruct (ix_size _ _ _ HI _ _ Ec) as (pg & Epg & _). congruence.
    + rewrite lookup_insert_eq. eexists. split; [done|]. apply zero_page_size.
  - simpl in Hps. destruct (E4 Hh b p Hb ltac:(by rewrite Hp) Hp0) as (Hpg & Hs). rewrite Hps.
    split_and!; [naive_solver| |done|done].
    intros c Hc Ec. destruct Hs as [Hs|[_ Hs]]; [|by destruct (Hs c)].
    apply Hc. by apply (ix_inj _ _ _ HI c b p).
Qed.

(** Mapping page [b] at [p], which the environment has answered. *)
Lemma map_page s share plog e b p s' :
  inv s share plog -> env_ok e s share -> (forall q, ~ mapped (wal s) b q) ->
  p = env_page e (wal s) b -> same_wal (wal s) (wal s') ->
  (forall c q, mapped (wal s') c q <-> (c = b /\ q = p /\ p <> NULL) \/ (c <> b /\ mapped (wal s) c q)) ->
  pages s' = (if (exclusiveMode (wal s) =? WAL_HEAPMEMORY_MODE) && (p <>? NULL)
              then <[p := zero_page]> (pages s) else pages s) ->
  exists share', inv s' share' plog /\ env_ok e s' share' /\ share ⊆ share' /\ pages s ⊆ pages s' /\
    (p <> NULL -> share' !! b = Some p) /\
    (forall c q, share' !! c = Some q -> share !! c = Some q \/ q = env_page e (wal s) c).
Proof.
  intros [HI HC] HE Hb Hp Hw Hm Hps.
  assert (Hx : exclusiveMode (wal s') = exclusiveMode (wal s)) by (destruct Hw as (ap & ro & ->); done).
  destruct (decide (p = NULL)) as [Hp0|Hp0].
  { rewrite (proj2 (Z.eqb_eq p NULL)), andb_false_r in Hps by done.
    assert (Hm' : forall c q, mapped (wal s') c q <-> mapped (wal s) c q).
    { intros c q. rewrite Hm. split; [|intros Hq; right; split; [intros ->|]; naive_solver]. naive_solver. }
    exists share. split_and!; [| |done|by rewrite Hps|done|by left].
    - split; [by rewrite Hps|]. destruct HC as [C1 [q C2] C3]. split; setoid_rewrite Hm'; [done|by exists q|].
      rewrite Hx. done.
    - destruct HE as [E1 E2 E3 E4]. unfold env_page in *. split; unfold env_page; rewrite ?Hx; rewrite ?Hps; [done| |done|].
      + intros Hh c Hc. apply E2; [done|]. intros q Hq. apply (Hc q), Hm'. done.
      + intros Hh c r Hc. apply E4; [done|]. intros q Hq. apply (Hc q), Hm'. done. }
  destruct (answer_ok s share plog e b p s') as (Hs1 & Hs2 & Hsub & pg & Epg & Hpg); [done..|].
  assert (Hsub' : share ⊆ <[b := p]> share).
  { destruct Hs1 as [Hs1|Hs1]; [by apply insert_subseteq|by rewrite insert_id]. }
  exists (<[b := p]> share). split_and!; [split| |done|done|by rewrite lookup_insert_eq|].
  4:{ intros c q [[<- <-]|[_ ?]]%lookup_insert_Some; [by right|by left]. }
  - apply (index_ok_extend _ _ _ _ _ HI Hsub Hsub').
    + intros c q. rewrite lookup_insert_Some. naive_solver.
    + intros c d q. rewrite !lookup_insert_Some. intros [[<- <-]|[? ?]] [[<- ?]|[? ?]]; try done.
      * by destruct (Hs2 d).
      * subst q. by destruct (Hs2 c).
      * by eapply ix_inj.
  - destruct HC as [C1 [q C2] C3]. split.
    + intros c r [(-> & -> & _)|[? Hr]]%Hm; [by rewrite lookup_insert_eq|rewrite lookup_insert_ne by done; auto].
    + destruct (decide (b = 0)) as [->|]; [exists p|exists q]; apply Hm; [by left|right; split; [lia|done]].
    + rewrite Hx. intros Hh c r. rewrite lookup_insert_Some, Hm. intros [[<- <-]|[? ?]]; [by left|right; auto].
  - destruct HE as [E1 E2 E3 E4]. unfold env_page in *. split; unfold env_page; rewrite ?Hx; [done| |done|].
    + intros Hh c Hc Hc0. rewrite Hps, (proj2 (Z.eqb_eq _ _)), (proj2 (Z.eqb_neq p NULL)) by done. simpl.
      rewrite (proj2 (Z.eqb_eq _ _)) in Hp, E1 by done.
      assert (c <> b) by (intros ->; apply (Hc p), Hm; by left).
      rewrite lookup_insert_ne; [apply E2; [done| |done]|].
      * intros q Hq. apply (Hc q), Hm. by right.
      * rewrite Hp. intros E. apply E1 in E; [lia|congruence].
    + intros Hh c r Hc Er Hr. rewrite Hps, (proj2 (Z.eqb_neq _ _)) by done. simpl.
      rewrite (proj2 (Z.eqb_neq _ _)) in Hp, E1 by done.
      assert (c <> b) as Hcb by (intros ->; apply (Hc p), Hm; by left).
      assert (Hu : forall q, ~ mapped (wal s) c q) by (intros q Hq; apply (Hc q), Hm; by right).
      destruct (E4 Hh c r Hu Er Hr) as [? [Hs|[Hs Hs']]]; split; [done| |done|].
      * left. by eapply lookup_weaken.
      * right. rewrite lookup_insert_ne by done. split; [done|].
        intros d [[<- <-]|[? Hd]]%lookup_insert_Some; [|by destruct (Hs' d)].
        apply Hcb, E1; congruence.
Qed.

Lemma mapped_fun w b p q : mapped w b p -> mapped w b q -> p = q.
Proof. intros [E _] [E' _]. congruence. Qed.

Lemma mem_get_Some_range (l : list Z) i x : mem_get l i = Some x -> 0 <= i < len l.
Proof. unfold mem_get. case_cond; [|done]. intros H%lookup_lt_Some. lia. Qed.

(** The array after the growth and the assignment of the new entry. *)
Lemma grown_array w b p ap :
  0 <= b -> (forall q, ~ mapped w b q) ->
  mem_put (apWiData w ++ replicate (Z.to_nat (b + 1 - nWiData w)) NULL) b p = Some ap ->
  forall w' c q, apWiData w' = ap ->
    (mapped w' c q <-> (c = b /\ q = p /\ p <> NULL) \/ (c <> b /\ mapped w c q)).
Proof.
  intros Hb Hu E w' c q Ew. unfold mapped. rewrite Ew. unfold mem_put in E. revert E. case_cond; [|done].
  intros [= <-]. unfold mem_get. case_cond.
  2:{ split; [intros [? _]; done|]. intros [(-> & _)|(_ & ? & _)]; [lia|done]. }
  destruct (decide (c = b)) as [->|Hcb].
  - rewrite list_lookup_insert_eq by lia. naive_solver.
  - rewrite list_lookup_insert_ne by lia. split.
    + intros [E Hq]. right. split_and!; [done| |done]. apply lookup_app_Some in E as [E|[_ E]]; [done|].
      apply lookup_replicate in E as [-> _]. done.
    + intros [(? & _)|(_ & E & Hq)]; [done|]. split; [by apply lookup_app_l_Some|done].
Qed.

Lemma same_wal_ap w ap : same_wal w (set_apWiData ap w).
Proof. exists ap, (readOnly w). by destruct w. Qed.

Lemma same_wal_ro w ap ro : same_wal w (set_readOnly ro (set_apWiData ap w)).
Proof. exists ap, ro. by destruct w. Qed.

#[export] Hint Resolve same_wal_ap same_wal_ro : core.

(** What a call that may map a page leaves: [share] and the pages grow. *)
Record grows (e : page_env) (s s' : St) (share share' : gmap Z Z) (plog : list Z) : Prop := {
  gr_inv : inv s' share' plog;
  gr_env : env_ok e s' share';
  gr_share : share ⊆ share';
  gr_pages : pages s ⊆ pages s';
  gr_wal : same_wal (wal s) (wal s');
  gr_mapped : forall b p, mapped (wal s) b p -> mapped (wal s') b p
}.

Lemma grows_refl e s share plog : inv s share plog -> env_ok e s share -> grows e s s share share plog.
Proof. by split. Qed.

Lemma realloc_run e b s :
  0 <= b -> (forall q, ~ mapped (wal s) b q) ->
  (exclusiveMode (wal s) <> WAL_HEAPMEMORY_MODE -> (pe_shmmap e b).2 = NULL ->
     (pe_shmmap e b).1 <> SQLITE_OK /\ (pe_shmmap e b).1 <> SQLITE_READONLY) ->
  exists s' rc p, walIndexPageRealloc e b s = Some (s', rc, p) /\ (rc = SQLITE_OK -> p <> NULL) /\
    (s' = s /\ p = NULL \/
     p = env_page e (wal s) b /\ same_wal (wal s) (wal s') /\
     mem_put (apWiData (wal s) ++ replicate (Z.to_nat (b + 1 - nWiData (wal s))) NULL) b p =
       Some (apWiData (wal s')) /\
     pages s' = (if (exclusiveMode (wal s) =? WAL_HEAPMEMORY_MODE) && (p <>? NULL)
                 then <[p := zero_page]> (pages s) else pages s)).
Proof.
  intros Hb Hu Hshm. unfold walIndexPageRealloc, env_page. case_cond.
  { exists s, SQLITE_NOMEM, NULL. split_and!; auto; done. }
  set (ap := apWiData (wal s) ++ _) in *.
  assert (Hap : b < len ap) by (unfold ap, nWiData; rewrite length_app, length_replicate; lia).
  assert (Eq : mem_get ap b = Some NULL).
  { unfold mem_get. rewrite (proj2 (Z.leb_le _ _)) by lia.
    destruct (lookup_lt_is_Some_2 ap (Z.to_nat b)) as [q Eq]; [lia|]. rewrite Eq. f_equal.
    unfold ap in Eq. apply lookup_app_Some in Eq as [Eq|[_ Eq]]; [|by apply lookup_replicate in Eq as [-> _]].
    destruct (decide (q = NULL)); [done|]. destruct (Hu q). split; [|done].
    unfold mem_get. by rewrite (proj2 (Z.leb_le _ _)) by lia. }
  assert (Hput : forall p, mem_put ap b p = Some (<[Z.to_nat b := p]> ap)).
  { intros p. unfold mem_put. by rewrite (proj2 (Z.leb_le _ _)), (proj2 (Z.ltb_lt _ _)) by lia. }
  rewrite Eq. cbn -[mem_put set_apWiData zero_page].
  destruct (Z.eqb_spec (exclusiveMode (wal s)) WAL_HEAPMEMORY_MODE) as [Hh|Hh].
  - rewrite Hput. destruct (Z.eqb_spec (pe_malloc e b) NULL) as [E|E].
    + eexists _, _, _. split; [done|]. split; [done|]. right. rewrite E, Hput. split_and!; [done|apply same_wal_ap|done..].
    + eexists _, _, _. split; [done|]. split; [done|]. right.
      rewrite Hput, (proj2 (Z.eqb_neq _ _) E). split_and!; [done|apply same_wal_ap|done..].
  - destruct (pe_shmmap e b) as [rc p] eqn:Em. specialize (Hshm Hh). simpl in Hshm. rewrite Hput.
    assert (Hrc : p <> NULL \/ rc <> SQLITE_OK /\ rc <> SQLITE_READONLY) by (destruct (decide (p = NULL)); tauto).
    replace ((p <>? NULL) || (rc <>? SQLITE_OK) || (writeLock (wal s) =? 0) && (b =? 0)) with true
      by (destruct Hrc as [Hp|[Hp _]]; rewrite (proj2 (Z.eqb_neq _ _) Hp), ?orb_true_r; done).
    cbn [negb]. destruct (Z.land rc 255 =? SQLITE_READONLY).
    + set (rc' := if rc =? SQLITE_READONLY then SQLITE_OK else rc).
      assert (Hrc' : rc' = SQLITE_OK -> p <> NULL) by (unfold rc'; case_cond; naive_solver).
      replace ((b =? 0) || (p <>? NULL) || (rc' <>? SQLITE_OK)) with true
        by (destruct (Z.eqb_spec rc' SQLITE_OK) as [E|E]; [rewrite (proj2 (Z.eqb_neq _ _) (Hrc' E))|]; by rewrite ?orb_true_r).
      cbn [negb]. eexists _, _, _. split; [done|]. split; [done|]. right.
      split_and!; [done|apply same_wal_ro|by rewrite Hput|done].
    + assert (Hrc' : rc = SQLITE_OK -> p <> NULL) by naive_solver.
      replace ((b =? 0) || (p <>? NULL) || (rc <>? SQLITE_OK)) with true
        by (destruct (Z.eqb_spec rc SQLITE_OK) as [E|E]; [rewrite (proj2 (Z.eqb_neq _ _) (Hrc' E))|]; by rewrite ?orb_true_r).
      cbn [negb]. eexists _, _, _. split; [done|]. split; [done|]. right.
      split_and!; [done|apply same_wal_ap|by rewrite Hput|done].
Qed.

Lemma walIndexPage_spec e b s share plog :
  inv s share plog -> env_ok e s share -> 0 <= b ->
  exists s' rc p share', walIndexPage e b s = Some (s', rc, p) /\ grows e s s' share share' plog /\
    (p <> NULL -> share' !! b = Some p /\ mapped (wal s') b p) /\ (rc = SQLITE_OK -> p <> NULL) /\
    (forall q, mapped (wal s) b q -> s' = s /\ rc = SQLITE_OK /\ p = q /\ share' = share) /\
    (forall c q, share' !! c = Some q -> share !! c = Some q \/ q = env_page e (wal s) c).
Proof.
  intros HI HE Hb.
  assert (HR : (forall q, ~ mapped (wal s) b q) -> exists s' rc p share',
    walIndexPageRealloc e b s = Some (s', rc, p) /\ grows e s s' share share' plog /\
    (p <> NULL -> share' !! b = Some p /\ mapped (wal s') b p) /\ (rc = SQLITE_OK -> p <> NULL) /\
    (forall q, mapped (wal s) b q -> s' = s /\ rc = SQLITE_OK /\ p = q /\ share' = share) /\
    (forall c q, share' !! c = Some q -> share !! c = Some q \/ q = env_page e (wal s) c)).
  { intros Hu. destruct (realloc_run e b s Hb Hu) as (s' & rc & p & ER & Hrc & [[-> ->]|(Hp & Hw & Hap & Hps)]).
    - intros Hh. by apply (en_null _ _ _ HE).
    - exists s, rc, NULL, share. split_and!; [done|by apply grows_refl|done..| |by left]. intros q Hq. by destruct (Hu q).
    - pose proof (fun c q => grown_array _ _ _ _ Hb Hu Hap (wal s') c q eq_refl) as Hm.
      destruct (map_page s share plog e b p s' HI HE Hu Hp Hw Hm Hps) as (share' & HI' & HE' & Hs & Hps' & Hsh & Hnew).
      assert (Hmono : forall c q, mapped (wal s) c q -> mapped (wal s') c q).
      { intros c q Hc. apply Hm. right. split; [|done]. intros ->. by destruct (Hu q). }
      exists s', rc, p, share'. split_and!; [done|by split|..|done|intros q Hq; by destruct (Hu q)|done].
      intros Hp0. split; [auto|]. apply Hm. by left. }
  unfold walIndexPage. case_cond.
  { apply HR. intros q [Hq%mem_get_Some_range _]. unfold nWiData in *. lia. }
  destruct (mem_get (apWiData (wal s)) b) as [p|] eqn:Ep; cbn.
  2:{ unfold mem_get, nWiData in *. rewrite (proj2 (Z.leb_le _ _)) in Ep by lia. apply lookup_ge_None in Ep. lia. }
  case_cond; [subst p; apply HR; intros q [? ?]; congruence|].
  exists s, SQLITE_OK, p, share. assert (mapped (wal s) b p) by done.
  split_and!; [done|by apply grows_refl| |done| |by left].
  - intros _. split; [by apply (cn_share _ _ (inv_conn _ _ _ HI))|done].
  - intros q Hq. split_and!; [done..| |done]. by eapply mapped_fun.
Qed.

(** ** Operations on the index *)

Lemma walHashGet_spec e b s share plog :
  inv s share plog -> env_ok e s share -> 0 <= b -> zero_of b < 2 ^ 32 ->
  exists s' rc loc share', walHashGet e b s = Some (s', rc, loc) /\ grows e s s' share share' plog /\
    (rc = SQLITE_OK -> exists p, loc = Some (Loc p (off_of b) (zero_of b)) /\
       share' !! b = Some p /\ mapped (wal s') b p) /\
    (forall q, mapped (wal s) b q -> s' = s /\ rc = SQLITE_OK /\ share' = share).
Proof.
  intros HI HE Hb Hz. unfold walHashGet.
  destruct (walIndexPage_spec e b s share plog HI HE Hb) as (s' & rc & p & share' & -> & HG & Hp & Hrc & Hq & _).
  cbn. assert (Hok : (rc =? SQLITE_OK) || (0 <? b) = true).
  { destruct (Z.ltb_spec 0 b); [by rewrite orb_true_r|]. assert (b = 0) as -> by lia.
    destruct (cn_zero _ _ (inv_conn _ _ _ HI)) as [q Hq0]. destruct (Hq q Hq0) as (_ & -> & _). done. }
  rewrite Hok. cbn. destruct (Z.eqb_spec p NULL) as [Hp0|Hp0]; cbn.
  - eexists _, _, _, share'. split; [done|]. split_and!; [done| |].
    + case_cond; [|done]. intros _. by destruct (Hrc Heqb0).
    + intros q Hm. destruct (Hq q Hm) as (-> & -> & -> & _). by destruct Hm.
  - eexists _, _, _, share'. split; [done|]. split_and!; [done| |].
    + intros _. exists p. split; [|by apply Hp]. f_equal. unfold off_of, zero_of in *.
      destruct (b =? 0) eqn:?; [done|]. bool_to_prop. f_equal. apply u32_small.
      pose proof layout_eqs. lia.
    + intros q Hm. by destruct (Hq q Hm) as (-> & -> & _ & ->).
Qed.

(** The words of page 0 that precede the array of page numbers. *)
Definition head_words (ps : gmap Z WalPage) (share : gmap Z Z) : option (list Z) :=
  let? p := share !! 0 in
  let? pg := ps !! p in
  Some (take (Z.to_nat (WALINDEX_HDR_SIZE / 4)) (words pg)).

Lemma head_words_grow ps ps' share share' l :
  ps ⊆ ps' -> share ⊆ share' -> head_words ps share = Some l -> head_words ps' share' = Some l.
Proof.
  intros Hp Hs. unfold head_words. intros E. inv_let E. inv_let E.
  by rewrite (lookup_weaken _ _ _ _ E0 Hs), (lookup_weaken _ _ _ _ E1 Hp).
Qed.

Lemma block_other_take b m plog :
  0 <= b -> zero_of b + (HASHTABLE_NPAGE - off_of b) <= Z.of_nat m -> block b (take m plog) = block b plog.
Proof.
  intros Hb Hm. unfold block. rewrite skipn_firstn_comm, take_take, Nat.min_l; [done|].
  unfold zero_of, off_of in *. pose proof layout_eqs. destruct (b =? 0) eqn:?; bool_to_prop; lia.
Qed.

Lemma block_take b m plog :
  0 <= b -> zero_of b <= Z.of_nat m ->
  block b (take m plog) = take (Z.to_nat (Z.of_nat m - zero_of b)) (block b plog).
Proof.
  intros Hb Hm. unfold block. rewrite skipn_firstn_comm, !take_take.
  f_equal. unfold zero_of in *. pose proof layout_eqs. destruct (b =? 0) eqn:?; bool_to_prop; lia.
Qed.

Lemma zero_of_nonneg b : 0 <= b -> 0 <= zero_of b.
Proof. intros Hb. layout; lia. Qed.

Lemma off_of_range b : 0 <= off_of b < HASHTABLE_NPAGE.
Proof. layout; lia. Qed.

Lemma block_snoc_other b plog x :
  0 <= b -> b <> walFramePage (len plog + 1) -> zero_of b < len plog + 1 ->
  zero_of b < len plog /\ block b (plog ++ [x]) = block b plog.
Proof.
  intros Hb Hne Hz.
  assert (Hfull : zero_of b + (HASHTABLE_NPAGE - off_of b) <= len plog).
  { destruct (decide (len plog + 1 <= zero_of b + (HASHTABLE_NPAGE - off_of b))) as [Hle|]; [|lia].
    destruct Hne. symmetry. apply walFramePage_spec; lia. }
  pose proof (off_of_range b). pose proof (zero_of_nonneg b Hb). split; [lia|].
  rewrite <- (block_other_take b (length plog) (plog ++ [x])) by done. by rewrite take_app_length.
Qed.

Lemma block_length b plog :
  0 <= b -> zero_of b <= len plog <= zero_of b + (HASHTABLE_NPAGE - off_of b) ->
  len (block b plog) = len plog - zero_of b.
Proof.
  intros Hb Hz. unfold block. rewrite length_take, length_drop. pose proof (zero_of_nonneg b Hb). lia.
Qed.

Lemma block_snoc b plog x :
  b = walFramePage (len plog + 1) -> block b (plog ++ [x]) = block b plog ++ [x].
Proof.
  intros ->. destruct (walFramePage_bounds (len plog + 1)) as (Hb & Hz); [lia|].
  set (b := walFramePage (len plog + 1)) in *. pose proof (zero_of_nonneg b Hb).
  unfold block. rewrite drop_app_le, !take_ge; [done|..]; rewrite ?length_app, ?length_drop; simpl; lia.
Qed.

(** Rewriting page [b] of the index. *)
Lemma inv_set_page s share plog plog' b p pg :
  inv s share plog -> share !! b = Some p -> page_size pg -> len plog' < 2 ^ 31 ->
  (forall c, 0 <= c -> c <> b -> zero_of c < len plog' -> zero_of c < len plog /\ block c plog' = block c plog) ->
  (zero_of b < len plog' -> block_ok pg (off_of b) (block b plog')) ->
  inv (set_page p pg s) share plog'.
Proof.
  intros [[I1 I2 I3 I4 I5] HC] Hb Hpg Hl Hoth Hblk. split; [|done]. split; [done..| | |done].
  - intros c q Hc. simpl. destruct (decide (q = p)) as [->|]; [rewrite lookup_insert_eq; eauto|].
    rewrite lookup_insert_ne by done. eauto.
  - intros c Hc Hz. simpl. destruct (decide (c = b)) as [->|Hcb].
    + exists p, pg. rewrite lookup_insert_eq. auto.
    + destruct (Hoth c Hc Hcb Hz) as [Hz' ->]. destruct (I4 c Hc Hz') as (q & pg' & Eq & Epg & ?).
      exists q, pg'. rewrite lookup_insert_ne; [done|]. intros <-. by destruct Hcb; eapply I1.
Qed.

Lemma env_set_page e s share p pg0 pg :
  env_ok e s share -> pages s !! p = Some pg0 -> page_size pg -> env_ok e (set_page p pg s) share.
Proof.
  intros [E1 E2 E3 E4] Hp Hpg. split; simpl; [done| |done|].
  - intros Hh b Hu Hn. pose proof (E2 Hh b Hu Hn) as Hf. rewrite lookup_insert_ne; [done|]. intros E. congruence.
  - intros Hh b q Hu Eq Hq. destruct (E4 Hh b q Hu Eq Hq) as [(pg' & ? & ?) ?]. split; [|done].
    destruct (decide (q = p)) as [->|]; [rewrite lookup_insert_eq; eauto|]. rewrite lookup_insert_ne by done. eauto.
Qed.

Lemma head_set_page s share plog b p pg0 pg :
  index_ok (pages s) share plog -> share !! b = Some p -> pages s !! p = Some pg0 ->
  take (Z.to_nat (off_of b)) (words pg) = take (Z.to_nat (off_of b)) (words pg0) ->
  head_words (pages (set_page p pg s)) share = head_words (pages s) share.
Proof.
  intros HI Hb Hp Ht. unfold head_words. destruct (share !! 0) as [q|] eqn:E0; [|done]. simpl.
  destruct (decide (q = p)) as [->|]; [|by rewrite lookup_insert_ne].
  pose proof (ix_inj _ _ _ HI _ _ _ E0 Hb) as <-. rewrite lookup_insert_eq, Hp. simpl. by f_equal.
Qed.

(** What an operation on the index leaves, [plog'] being the frames indexed afterwards. *)
Record evolves (e : page_env) (s s' : St) (share share' : gmap Z Z) (plog' : list Z) : Prop := {
  ev_inv : inv s' share' plog';
  ev_env : env_ok e s' share';
  ev_share : share ⊆ share';
  ev_wal : same_wal (wal s) (wal s');
  ev_head : forall l, head_words (pages s) share = Some l -> head_words (pages s') share' = Some l;
  ev_rest : forall q pg, pages s !! q = Some pg -> (forall c, share' !! c <> Some q) -> pages s' !! q = Some pg;
  ev_mapped : forall b p, mapped (wal s) b p -> mapped (wal s') b p
}.

Lemma grows_evolves e s s' share share' plog :
  grows e s s' share share' plog -> evolves e s s' share share' plog.
Proof.
  intros [G1 G2 G3 G4 G5 G6]. split; [done..| | |done].
  - intros l. by apply head_words_grow.
  - intros q pg Hq _. by eapply lookup_weaken.
Qed.

Lemma evolves_trans e s1 s2 s3 sh1 sh2 sh3 l2 l3 :
  evolves e s1 s2 sh1 sh2 l2 -> evolves e s2 s3 sh2 sh3 l3 -> evolves e s1 s3 sh1 sh3 l3.
Proof.
  intros [A1 A2 A3 A4 A5 A6 A7] [B1 B2 B3 B4 B5 B6 B7]. split; [done..|by etrans|by eauto|auto| |auto].
  intros q pg Hq Hn. apply B6; [|done]. apply A6; [done|]. intros c Hc. by apply (Hn c), (lookup_weaken _ _ _ _ Hc B3).
Qed.

(** Rewriting the page of frame [f]. *)
Lemma evolves_set_page e s share plog plog' b p pg0 pg :
  inv s share plog -> env_ok e s share -> share !! b = Some p -> pages s !! p = Some pg0 ->
  page_size pg -> len plog' < 2 ^ 31 ->
  (forall c, 0 <= c -> c <> b -> zero_of c < len plog' -> zero_of c < len plog /\ block c plog' = block c plog) ->
  (zero_of b < len plog' -> block_ok pg (off_of b) (block b plog')) ->
  take (Z.to_nat (off_of b)) (words pg) = take (Z.to_nat (off_of b)) (words pg0) ->
  evolves e s (set_page p pg s) share share plog'.
Proof.
  intros HI HE Hb Hp Hsz Hl Ho Hblk Ht. split; [by eapply inv_set_page|by eapply env_set_page|done|apply same_wal_refl| | |done].
  - intros l. by rewrite (head_set_page _ _ _ _ _ _ _ (inv_index _ _ _ HI) Hb Hp Ht).
  - intros q pg' Hq Hn. simpl. rewrite lookup_insert_ne; [done|]. intros ->. by destruct (Hn b).
Qed.

Lemma block_page_size pg off l : block_ok pg off l -> page_size pg.
Proof. intros H. split; [apply H|]. apply (t_len _ _ (b_table _ _ _ H)). Qed.

Lemma mem_set_total b off v n : 0 <= off -> 0 <= n -> off + n <= len b -> exists r, mem_set b off v n = Some r.
Proof.
  intros. unfold mem_set. rewrite (proj2 (Z.leb_le _ _)) by lia.
  eexists. apply mem_write_total; [lia|]. rewrite length_replicate. lia.
Qed.

(** The page of frame [f] of the log, and its entry. *)
Lemma frame_block s share plog f :
  inv s share plog -> 1 <= f <= len plog -> exists p pg,
    share !! walFramePage f = Some p /\ pages s !! p = Some pg /\
    block_ok pg (off_of (walFramePage f)) (block (walFramePage f) plog).
Proof.
  intros HI Hf. destruct (walFramePage_bounds f) as (Hb & Hz); [lia|].
  apply (ix_block _ _ _ (inv_index _ _ _ HI)); lia.
Qed.

Lemma walCleanupHash_spec e s share plog :
  inv s share plog -> env_ok e s share -> writeLock (wal s) <> 0 ->
  0 < mxFrame (hdr (wal s)) <= len plog ->
  exists s' share' plog', walCleanupHash e s = Some s' /\ evolves e s s' share share' plog' /\
    (plog' = take (Z.to_nat (mxFrame (hdr (wal s)))) plog \/ plog' = plog) /\
    (forall p, mapped (wal s) (walFramePage (mxFrame (hdr (wal s)))) p ->
       wal s' = wal s /\ share' = share /\ plog' = take (Z.to_nat (mxFrame (hdr (wal s)))) plog).
Proof.
  intros HI HE Hw Hmx. unfold walCleanupHash. rewrite (proj2 (Z.eqb_neq _ _)) by done.
  set (mx := mxFrame (hdr (wal s))) in *. rewrite (proj2 (Z.eqb_neq mx 0)) by lia.
  destruct (walFramePage_bounds mx) as (Hb & Hz); [lia|]. set (b := walFramePage mx) in *.
  pose proof (ix_len _ _ _ (inv_index _ _ _ HI)) as Hlen.
  destruct (walHashGet_spec e b s share plog HI HE Hb) as (s1 & rc & loc & share' & -> & HG & Hl & Hmap); [lia|].
  cbn. destruct (Z.eqb_spec rc SQLITE_OK) as [->|Hrc]; cbn.
  2:{ exists s1, share', plog. split; [done|]. split; [by apply grows_evolves|]. split; [by right|].
      intros p Hp. by destruct (Hmap p Hp) as (_ & ? & _). }
  destruct Hl as (p & -> & Hsh & Hmp); [done|]. cbn. pose proof (gr_inv _ _ _ _ _ _ HG) as HI1.
  destruct (frame_block s1 share' plog mx HI1) as (q & pg & Hq & Epg & Hblk); [lia|]. fold b in Hq, Hblk.
  assert (q = p) as -> by congruence.
  rewrite Epg. cbn. pose proof (zero_of_nonneg b Hb). pose proof (off_of_range b). pose proof layout_eqs as (_ & HN & _ & _).
  rewrite u32_small, i32_small by lia. rewrite (proj2 (Z.leb_gt _ _)) by lia.
  pose proof (b_words _ _ _ Hblk).
  assert (HL : (Z.to_nat (mx - zero_of b) <= length (block b plog))%nat).
  { unfold block. rewrite length_take, length_drop. lia. }
  destruct (mem_set_total (words pg) (off_of b + (mx - zero_of b)) 0 (HASHTABLE_NPAGE - (off_of b + (mx - zero_of b)))) as [ws Ews]; [lia..|].
  rewrite Ews. cbn. eexists _, share', _. split; [done|]. split; [|split; [by left|]].
  2:{ intros r Hr. by destruct (Hmap r Hr) as (-> & _ & ->). }
  eapply evolves_trans; [by apply grows_evolves|].
  replace (mx - zero_of b) with (Z.of_nat (Z.to_nat (mx - zero_of b))) in Ews by lia.
  destruct (block_cleanup pg ws (off_of b) (block b plog) _ Hblk HL Ews) as [Hblk' Ht].
  replace (Z.of_nat (Z.to_nat (mx - zero_of b))) with (mx - zero_of b) in Hblk' by lia.
  apply (evolves_set_page e s1 share' plog _ b p pg); [done|apply HG|done|done|by eapply block_page_size| | | |done].
  - rewrite length_take. lia.
  - intros c Hc Hcb. rewrite length_take. intros Hz'. split; [lia|]. apply block_other_take; [done|].
    destruct (decide (mx <= zero_of c + (HASHTABLE_NPAGE - off_of c))) as [Hle|]; [|lia].
    destruct Hcb. symmetry. apply walFramePage_spec; lia.
  - intros _. rewrite block_take by lia. by rewrite Z2Nat.id by lia.
Qed.

Lemma set_page_same s p pg : pages s !! p = Some pg -> set_page p pg s = s.
Proof. intros E. unfold set_page. rewrite insert_id by done. by destruct s. Qed.

Lemma take_other_blocks b k plog c :
  zero_of b = Z.of_nat k -> 0 <= b -> 0 <= c -> c <> b -> zero_of c < len (take k plog) ->
  zero_of c < len plog /\ block c (take k plog) = block c plog.
Proof.
  intros Hz Hb Hc Hcb. rewrite length_take. intros Hl. split; [lia|]. apply block_other_take; [done|].
  pose proof layout_eqs. unfold zero_of, off_of in *.
  destruct (b =? 0) eqn:?, (c =? 0) eqn:?; bool_to_prop; lia.
Qed.

Lemma append_clear_spec e s share plog (k : nat) b p :
  inv s share plog -> env_ok e s share -> writeLock (wal s) <> 0 ->
  Z.of_nat k + 1 < 2 ^ 31 -> (k <= length plog)%nat ->
  k = length plog \/ Z.of_nat k = mxFrame (hdr (wal s)) ->
  b = walFramePage (Z.of_nat k + 1) -> mapped (wal s) b p ->
  exists s' pg, append_clear e (Loc p (off_of b) (zero_of b)) (Z.of_nat k + 1 - zero_of b) s = Some s' /\
    wal s' = wal s /\ evolves e s s' share share (take k plog) /\
    pages s' !! p = Some pg /\ block_ok pg (off_of b) (block b (take k plog)).
Proof.
  intros HI HE Hw Hk1 Hk Hor -> Hm. destruct (walFramePage_bounds (Z.of_nat k + 1)) as (Hb & Hz); [lia|].
  set (b := walFramePage (Z.of_nat k + 1)) in *. pose proof (off_of_range b) as Ho.
  pose proof (zero_of_nonneg b Hb). pose proof (ix_len _ _ _ (inv_index _ _ _ HI)) as Hlen.
  pose proof (cn_share _ _ (inv_conn _ _ _ HI) _ _ Hm) as Hsh.
  destruct (ix_size _ _ _ (inv_index _ _ _ HI) _ _ Hsh) as (pg & Epg & Hsz1 & Hsz2).
  unfold append_clear. cbn [loc_page loc_off]. rewrite Epg. cbn.
  destruct (Z.eqb_spec (Z.of_nat k + 1 - zero_of b) 1) as [E1|E1].
  - destruct (mem_set_total (words pg) (off_of b) 0 (HASHTABLE_NPAGE - off_of b)) as [ws Ews]; [lia..|].
    rewrite Ews. cbn. destruct (block_zero pg ws (off_of b) Hsz1 Ho Ews) as [Hblk Ht].
    pose proof (block_get_free _ _ _ 0 Hblk) as Hx. rewrite E1. change (1 - 1) with (Z.of_nat 0).
    simpl words in Hx. rewrite Hx by (simpl; lia). cbn. eexists _, _. split; [done|]. split; [done|].
    assert (Hnil : block b (take k plog) = []).
    { unfold block. rewrite drop_ge; [apply take_nil|]. rewrite length_take. lia. }
    split_and!; [|simpl; by rewrite lookup_insert_eq|by rewrite Hnil].
    apply (evolves_set_page e s share plog _ b p pg); [done..|by eapply block_page_size| | | |done].
    + rewrite length_take. lia.
    + intros c Hc Hcb. apply (take_other_blocks b); [lia|done..].
    + intros _. by rewrite Hnil.
  - rewrite set_page_same by done.
    destruct (frame_block s share plog (Z.of_nat k) HI) as (q & pg' & Hq & Epg' & Hblk); [lia|].
    assert (walFramePage (Z.of_nat k) = b) as Eb by (apply walFramePage_spec; lia). rewrite Eb in *.
    assert (pg' = pg) as -> by congruence. clear q Hq Epg'.
    assert (Hlb : len (block b (take k plog)) = Z.of_nat k - zero_of b).
    { rewrite block_length by (rewrite ?length_take; lia). rewrite length_take. lia. }
    replace (Z.of_nat k + 1 - zero_of b - 1) with (Z.of_nat (Z.to_nat (Z.of_nat k - zero_of b))) by lia.
    destruct (decide (k = length plog)) as [->|Hne].
    + rewrite firstn_all in *. rewrite (block_get_free _ _ _ _ Hblk) by lia. cbn.
      exists s, pg. do 2 (split; [done|]). split; [by apply grows_evolves, grows_refl|done].
    + assert (Emx : mxFrame (hdr (wal s)) = Z.of_nat k) by (destruct Hor; lia).
      destruct (lookup_lt_is_Some_2 (block b plog) (Z.to_nat (Z.of_nat k - zero_of b))) as [y Ey].
      { unfold block. rewrite length_take, length_drop. lia. }
      rewrite (block_get_entry _ _ _ _ _ Hblk Ey). cbn.
      pose proof (proj1 (list.Forall_forall _ _) (b_pos _ _ _ Hblk) y (list_elem_of_lookup_2 _ _ _ Ey)) as Hy. simpl in Hy.
      rewrite (proj2 (Z.eqb_neq y 0)) by lia. cbn.
      destruct (walCleanupHash_spec e s share plog HI HE Hw) as (s' & share' & plog' & -> & HV & _ & Hmap); [lia|].
      rewrite Emx, Eb, Nat2Z.id in Hmap. destruct (Hmap p Hm) as (Hws & -> & ->). cbn.
      destruct (frame_block s' share (take k plog) (Z.of_nat k) (ev_inv _ _ _ _ _ _ HV)) as (q & pg' & Hq & Epg' & Hblk').
      { rewrite length_take. lia. }
      rewrite Eb in *. assert (q = p) as -> by congruence. rewrite Epg'. cbn.
      rewrite (block_get_free _ _ _ _ Hblk') by lia. cbn. exists s', pg'. done.
Qed.

Lemma walIndexAppend_spec e s share plog (k : nat) x :
  inv s share plog -> env_ok e s share -> writeLock (wal s) <> 0 -> 0 < x ->
  Z.of_nat k + 1 < 2 ^ 31 -> (k <= length plog)%nat ->
  k = length plog \/ Z.of_nat k = mxFrame (hdr (wal s)) ->
  exists s' rc share', walIndexAppend e (Z.of_nat k + 1) x s = Some (s', rc) /\
    evolves e s s' share share' (if rc =? SQLITE_OK then take k plog ++ [x] else plog) /\
    (rc = SQLITE_OK -> exists p, mapped (wal s') (walFramePage (Z.of_nat k + 1)) p) /\
    (forall q, mapped (wal s) (walFramePage (Z.of_nat k + 1)) q -> wal s' = wal s /\ rc = SQLITE_OK /\ share' = share).
Proof.
  intros HI HE Hw Hx Hk1 Hk Hor. destruct (walFramePage_bounds (Z.of_nat k + 1)) as (Hb & Hz); [lia|].
  unfold walIndexAppend. set (b := walFramePage (Z.of_nat k + 1)) in *.
  pose proof (off_of_range b) as Ho. pose proof (zero_of_nonneg b Hb).
  destruct (walHashGet_spec e b s share plog HI HE Hb) as (s1 & rc & loc & share1 & -> & HG & Hl & Hq); [lia|].
  cbn. destruct (Z.eqb_spec rc SQLITE_OK) as [->|Hrc]; cbn.
  2:{ exists s1, rc, share1. rewrite (proj2 (Z.eqb_neq _ _)) by done. split_and!; [done|by apply grows_evolves|done|].
      intros q Hmq. by destruct (Hq q Hmq) as (_ & ? & _). }
  destruct Hl as (p & -> & Hsh & Hm); [done|]. cbn. rewrite u32_small, i32_small by lia.
  pose proof layout_eqs as (_ & HN & _ & HS).
  rewrite (proj2 (Z.leb_le _ _)) by (rewrite HS; change (8192 / 2) with 4096; lia). cbn.
  assert (Hws : writeLock (wal s1) = writeLock (wal s) /\ hdr (wal s1) = hdr (wal s)) by (destruct (gr_wal _ _ _ _ _ _ HG) as (ap & ro & ->); done).
  destruct (append_clear_spec e s1 share1 plog k b p) as (s2 & pg & -> & Hw2 & HV & Epg & Hblk);
    [apply HG|apply HG|by rewrite (proj1 Hws)|done|done|by rewrite (proj2 Hws)|done|done|].
  cbn. rewrite Epg. cbn. rewrite (proj2 (Z.eqb_neq x 0)) by lia.
  assert (Hlt : len (take k plog) = Z.of_nat k) by (rewrite length_take; lia).
  assert (Hlb : len (block b (take k plog)) = Z.of_nat k - zero_of b) by (rewrite block_length; lia).
  replace (Z.of_nat k + 1 - zero_of b - 1) with (len (block b (take k plog))) by lia.
  rewrite land_npage by lia.
  replace (Z.of_nat k + 1 - zero_of b) with (len (block b (take k plog)) + 1) by lia.
  pose proof (b_words _ _ _ Hblk).
  destruct (mem_put (words pg) (off_of b + len (block b (take k plog))) x) as [ws|] eqn:Ews.
  2:{ unfold mem_put in Ews. by rewrite (proj2 (Z.leb_le _ _)), (proj2 (Z.ltb_lt _ _)) in Ews by lia. }
  destruct (block_append pg (off_of b) _ x ws (Z.to_nat (len (block b (take k plog)) + 1 + 2)) Hblk) as (key & -> & Hkey & Hblk' & Ht);
    [lia..|done|].
  cbn. unfold mem_put. rewrite (proj2 (Z.leb_le _ _)), (proj2 (Z.ltb_lt _ _)) by lia. cbn.
  eexists _, SQLITE_OK, share1. split; [done|]. change (SQLITE_OK =? SQLITE_OK) with true. cbv iota. split; [|split].
  - eapply evolves_trans; [by apply grows_evolves|]. eapply evolves_trans; [done|].
    replace (u16 (len (block b (take k plog)) + 1)) with (len (block b (take k plog)) + 1)
      by (unfold u16; symmetry; apply Z.mod_small; lia).
    assert (Eb : b = walFramePage (len (take k plog) + 1)) by (unfold b; f_equal; lia).
    apply (evolves_set_page e s2 share1 (take k plog) _ b p pg); [apply HV|apply HV|done|done|by eapply block_page_size| | | |done].
    + rewrite length_app. simpl. lia.
    + intros c Hc Hcb. rewrite length_app, Nat2Z.inj_add. simpl. intros Hzc. apply block_snoc_other; [done|congruence|done].
    + intros _. by rewrite block_snoc.
  - intros _. exists p. simpl. by rewrite Hw2.
  - intros q Hmq. destruct (Hq q Hmq) as (<- & _ & ->). simpl. by rewrite Hw2.
Qed.

(** ** The frame that is found *)

(** The linear search over the log that defines the result: from frame [n] downwards, the
    first one at or after [lo] that holds page [x]. *)
Fixpoint last_frame (plog : list Z) (lo x : Z) (n : nat) : Z :=
  match n with
  | O => 0
  | S m => if bool_decide (plog !! m = Some x) && (lo <=? Z.of_nat n) then Z.of_nat n
           else last_frame plog lo x m
  end.

Lemma last_frame_latest plog lo x n : latest plog 0 lo (Z.of_nat n) x (last_frame plog lo x n).
Proof.
  induction n as [|n IH]; cbn [last_frame].
  - left. split; [done|]. intros j [_ ?]. lia.
  - case_cond.
    + apply bool_decide_eq_true in H as H1. right. exists n. split_and!; [split; [done|lia]|lia|].
      intros j' [_ ?]. lia.
    + assert (Hn : ~ hit plog 0 lo (Z.of_nat (S n)) x n).
      { intros [E Hl]. rewrite bool_decide_eq_true_2 in Heqb by done. simpl in Heqb. bool_to_prop. lia. }
      assert (Hh : forall j, hit plog 0 lo (Z.of_nat (S n)) x j <-> hit plog 0 lo (Z.of_nat n) x j).
      { intros j. destruct (decide (j = n)) as [->|]; [split; [done|intros [_ ?]; lia]|].
        split; intros [E Hl]; (split; [done|lia]). }
      destruct IH as [[-> IH]|(j & Hj & -> & IH)]; [left|right].
      * split; [done|]. intros j Hj%Hh. by destruct (IH j).
      * exists j. split_and!; [by apply Hh|done|]. intros j' Hj'%Hh. auto.
Qed.

Lemma latest_unique l z lo hi x r r' : latest l z lo hi x r -> latest l z lo hi x r' -> r = r'.
Proof.
  intros [[-> H]|(j & Hj & -> & H)] [[-> H']|(j' & Hj' & -> & H')]; [done| | |].
  - by destruct (H j').
  - by destruct (H' j).
  - pose proof (H j' Hj'). pose proof (H' j Hj). lia.
Qed.

Lemma hit_block b plog lo hi x j :
  0 <= b -> hit (block b plog) (zero_of b) lo hi x j <->
    hit plog 0 lo hi x (Z.to_nat (zero_of b) + j) /\ Z.of_nat j < HASHTABLE_NPAGE - off_of b.
Proof.
  intros Hb. pose proof (zero_of_nonneg b Hb). unfold hit, block.
  rewrite lookup_take_Some, lookup_drop. split; intros; destruct_and!; split_and!; try done; lia.
Qed.

Lemma walFramePage_mono f g : f <= g -> walFramePage f <= walFramePage g.
Proof. intros H. unfold walFramePage. apply Z.div_le_mono; [done|lia]. Qed.

(** What a look-up leaves, and its result. *)
Definition found (e : page_env) (s : St) (share : gmap Z Z) (plog : list Z) (x lo hi b : Z)
  (res : option (St * Z * Z)) : Prop :=
  exists s' rc r share', res = Some (s', rc, r) /\ grows e s s' share share' plog /\
    (rc = SQLITE_OK -> latest plog 0 lo hi x r) /\
    (rc <> SQLITE_OK -> r = 0 /\ exists c, c <= b /\ (forall p, ~ mapped (wal s) c p) /\
       forall j, hit plog 0 lo hi x j -> walFramePage (Z.of_nat j + 1) <= c) /\
    ((forall c, 0 <= c <= b -> exists p, mapped (wal s) c p) -> s' = s /\ rc = SQLITE_OK).

Lemma grows_trans e s1 s2 s3 sh1 sh2 sh3 plog :
  grows e s1 s2 sh1 sh2 plog -> grows e s2 s3 sh2 sh3 plog -> grows e s1 s3 sh1 sh3 plog.
Proof. intros [A1 A2 A3 A4 A5 A6] [B1 B2 B3 B4 B5 B6]. split; [done..|by etrans|by etrans|eauto|auto]. Qed.

(** A hit on page [b], and hits on the pages up to [b] when page [b] has none. *)
Lemma latest_on_page b plog lo hi x j :
  0 <= b -> hit (block b plog) (zero_of b) lo hi x j ->
  (forall j', hit (block b plog) (zero_of b) lo hi x j' -> (j' <= j)%nat) ->
  (forall i, hit plog 0 lo hi x i -> walFramePage (Z.of_nat i + 1) <= b) ->
  latest plog 0 lo hi x (zero_of b + Z.of_nat j + 1).
Proof.
  intros Hb Hj Hmax Hall. pose proof (zero_of_nonneg b Hb). apply hit_block in Hj as [Hj Hjc]; [|done].
  right. exists (Z.to_nat (zero_of b) + j)%nat. split_and!; [done|lia|]. intros i Hi.
  pose proof (Hall i Hi) as Hp. destruct (walFramePage_bounds (Z.of_nat i + 1)) as (Hb' & Hz); [lia|].
  destruct (decide (walFramePage (Z.of_nat i + 1) = b)) as [E|].
  - rewrite E in Hz. assert (Hji : (i - Z.to_nat (zero_of b) <= j)%nat); [|lia].
    apply Hmax, hit_block; [done|]. split; [|lia].
    by replace (Z.to_nat (zero_of b) + (i - Z.to_nat (zero_of b)))%nat with i by lia.
  - layout; lia.
Qed.

Lemma no_hit_on_page b plog lo hi x i :
  0 <= b -> (forall j, ~ hit (block b plog) (zero_of b) lo hi x j) -> hit plog 0 lo hi x i ->
  walFramePage (Z.of_nat i + 1) <> b.
Proof.
  intros Hb Hno Hi E. destruct (walFramePage_bounds (Z.of_nat i + 1)) as (_ & Hz); [lia|]. rewrite E in Hz.
  pose proof (zero_of_nonneg b Hb). apply (Hno (i - Z.to_nat (zero_of b))%nat), hit_block; [done|]. split; [|lia].
  by replace (Z.to_nat (zero_of b) + (i - Z.to_nat (zero_of b)))%nat with i by lia.
Qed.

Lemma find_tables_spec fuel e s share plog x b :
  inv s share plog -> env_ok e s share -> 0 < x -> 0 <= minFrame (wal s) ->
  0 < mxFrame (hdr (wal s)) <= len plog -> b < Z.of_nat fuel -> b <= walFramePage (mxFrame (hdr (wal s))) ->
  (forall j, hit plog 0 (minFrame (wal s)) (mxFrame (hdr (wal s))) x j -> walFramePage (Z.of_nat j + 1) <= b) ->
  found e s share plog x (minFrame (wal s)) (mxFrame (hdr (wal s))) b
    (find_tables fuel e x (mxFrame (hdr (wal s))) b (walFramePage (minFrame (wal s))) s).
Proof.
  intros HI HE Hx Hlo Hmx. set (lo := minFrame (wal s)) in *. set (hi := mxFrame (hdr (wal s))) in *.
  assert (Hlo' : minFrame (wal s) = lo) by done. clearbody lo hi.
  revert s share b HI HE Hlo'. induction fuel as [|fuel IH]; intros s share b HI HE Hlo' Hf Hb Hhit; cbn [find_tables].
  all: pose proof (walFramePage_mono 0 lo Hlo) as Hmin; change (walFramePage 0) with 0 in Hmin.
  all: destruct (Z.ltb_spec b (walFramePage lo)) as [Hlt|Hge]; [|try lia].
  1,2: exists s, SQLITE_OK, 0, share; split_and!; [done|by apply grows_refl| |done|done]; intros _; left;
    split; [done|]; intros j Hj; pose proof (Hhit j Hj); pose proof (walFramePage_mono lo (Z.of_nat j + 1)); destruct Hj; lia.
  assert (Hz : zero_of b < hi).
  { destruct (walFramePage_bounds hi) as (_ & Hz & _); [lia|]. layout; lia. }
  pose proof (ix_len _ _ _ (inv_index _ _ _ HI)). pose proof (zero_of_nonneg b ltac:(lia)).
  destruct (walHashGet_spec e b s share plog HI HE) as (s1 & rc & loc & share1 & -> & HG & Hl & Hq); [lia..|].
  cbn. destruct (Z.eqb_spec rc SQLITE_OK) as [->|Hrc]; cbn.
  2:{ exists s1, rc, 0, share1. split; [done|]. split; [done|]. split; [done|]. split.
      - intros _. split; [done|]. exists b. split_and!; [done| |done]. intros p Hp. by destruct (Hq p Hp) as (_ & ? & _).
      - intros Hm. destruct (Hm b) as [p Hp]; [lia|]. by destruct (Hq p Hp) as (-> & -> & _). }
  destruct Hl as (p & -> & Hsh & Hm); [done|]. cbn.
  destruct (ix_block _ _ _ (inv_index _ _ _ (gr_inv _ _ _ _ _ _ HG)) b) as (p' & pg & Hp' & Epg & Hblk); [lia..|].
  assert (p' = p) as -> by congruence. rewrite Epg. cbn. rewrite (proj2 (Z.eqb_neq x 0)) by lia.
  assert (Hw1 : minFrame (wal s1) = lo) by (destruct (gr_wal _ _ _ _ _ _ HG) as (ap & ro & ->); done). rewrite Hw1.
  destruct (find_probe_spec pg (off_of b) (block b plog) (zero_of b) lo hi x p Hblk) as (r & -> & Hr).
  { done. } { unfold block. rewrite length_take, length_drop. lia. }
  cbn. destruct Hr as [[-> Hno]|(j & Hj & -> & Hmax)]; cbn.
  - destruct (IH s1 share1 (b - 1)) as (s2 & rc & r & share2 & Er & HG2 & Hr & Hrr & Hm2);
      [apply HG|apply HG|done|lia|lia| |].
    { intros j Hj. pose proof (Hhit j Hj). pose proof (no_hit_on_page b plog lo hi x j ltac:(lia) Hno Hj). lia. }
    rewrite Er. exists s2, rc, r, share2. split_and!; [done|by eapply grows_trans|done| |].
    { intros Hrc. destruct (Hrr Hrc) as (-> & c & Hc & Hu & Hh). split; [done|]. exists c. split_and!; [lia| |done].
      intros q Hq0. apply (Hu q). by apply (gr_mapped _ _ _ _ _ _ HG). }
    intros Hm0. destruct (Hm0 b) as [q Hq0]; [lia|]. destruct (Hq q Hq0) as [-> _]. apply Hm2. intros c Hc. apply Hm0. lia.
  - rewrite (proj2 (Z.eqb_neq _ _)) by lia. eexists _, _, _, share1. split; [done|]. split_and!; [done| |done|].
    + intros _. apply latest_on_page; [lia|done..].
    + intros Hm0. destruct (Hm0 b) as [q Hq0]; [lia|]. by destruct (Hq q Hq0) as [-> _].
Qed.

Lemma walFindFrame_spec e s share plog x :
  inv s share plog -> env_ok e s share -> 0 < x -> 0 <= minFrame (wal s) -> 0 <= readLock (wal s) ->
  0 <= mxFrame (hdr (wal s)) <= len plog ->
  exists s' rc r share', walFindFrame e x s = Some (s', rc, r) /\ grows e s s' share share' plog /\
    (rc = SQLITE_OK ->
       r = if (readLock (wal s) =? 0) && (bShmUnreliable (wal s) =? 0) then 0
           else last_frame plog (minFrame (wal s)) x (Z.to_nat (mxFrame (hdr (wal s))))) /\
    (rc <> SQLITE_OK -> r = 0 /\ exists c, c <= walFramePage (mxFrame (hdr (wal s))) /\
       (forall p, ~ mapped (wal s) c p) /\
       forall j, hit plog 0 (minFrame (wal s)) (mxFrame (hdr (wal s))) x j -> walFramePage (Z.of_nat j + 1) <= c) /\
    ((forall c, 0 <= c <= walFramePage (mxFrame (hdr (wal s))) -> exists p, mapped (wal s) c p) -> s' = s /\ rc = SQLITE_OK).
Proof.
  intros HI HE Hx Hlo Hrl Hmx. unfold walFindFrame. rewrite (proj2 (Z.ltb_ge _ _)) by done.
  destruct (Z.eqb_spec (mxFrame (hdr (wal s))) 0) as [E0|E0]; cbn [orb].
  { rewrite E0. exists s, SQLITE_OK, 0, share. split_and!; [done|by apply grows_refl| |done|done]. intros _. by case_cond. }
  destruct ((readLock (wal s) =? 0) && (bShmUnreliable (wal s) =? 0)).
  { exists s, SQLITE_OK, 0, share. split_and!; [done|by apply grows_refl|done..]. }
  destruct (walFramePage_bounds (mxFrame (hdr (wal s)))) as (Hb & _); [lia|].
  destruct (find_tables_spec (Z.to_nat (walFramePage (mxFrame (hdr (wal s))) + 1)) e s share plog x (walFramePage (mxFrame (hdr (wal s)))))
    as (s' & rc & r & share' & -> & HG & Hr & Hrr & Hm); [done..|lia|lia|lia| |].
  { intros j [_ Hj]. apply walFramePage_mono. lia. }
  exists s', rc, r, share'. split; [done|]. split; [done|]. split; [|done]. intros Hrc. eapply latest_unique; [by apply Hr|].
  pose proof (last_frame_latest plog (minFrame (wal s)) x (Z.to_nat (mxFrame (hdr (wal s))))) as HL.
  by rewrite Z2Nat.id in HL by lia.
Qed.
End WalIndexes.
