(* ===== verification/WalTxn.v ===== *)
(** * Write-ahead log: transactions on the wal-index (src/wal.c)

    - [sqlite3WalBeginWriteTransaction], [sqlite3WalEndWriteTransaction];
    - [sqlite3WalUndo], [sqlite3WalSavepoint], [sqlite3WalSavepointUndo];
    - [walRestartHdr].

    The header of a connection ([hdr]) is a copy of the one in page 0 of the wal-index, the
    live header, except within a write transaction. *)

From stdpp Require Import list gmap.
From S2P Require Import Prelude Varint WalData WalIndex.
Import WalTypes WalIndexes.
Local Open Scope Z_scope.

Module WalTxns.

(** ** Write transactions *)

(** [lock] is the answer of [xShmLock]; an exclusive connection does not ask. *)
Definition walLockExclusive (lock : Z) (s : St) : Z :=
  if exclusiveMode (wal s) <>? 0 then SQLITE_OK else lock.

Definition sqlite3WalBeginWriteTransaction (lock : Z) (s : St) : option (St * Z) :=
  let w := wal s in
  if (readLock w <? 0) || (writeLock w <>? 0) || (iReCksum w <>? 0) then None else
  if readOnly w <>? 0 then Some (s, SQLITE_READONLY) else
  let rc := walLockExclusive lock s in
  if rc <>? SQLITE_OK then Some (s, rc) else
  let? (_, pg) := page0 s in
  let? l := mem_read (words pg) 0 12 in
  if bool_decide (hdr_words (hdr w) = l) then Some (on_wal (set_writeLock 1) s, SQLITE_OK)
  else Some (on_wal (set_writeLock 0) s, SQLITE_BUSY_SNAPSHOT).

Definition sqlite3WalEndWriteTransaction (s : St) : St * Z :=
  if writeLock (wal s) <>? 0 then
    (on_wal (fun w => set_truncateOnCommit 0 (set_iReCksum 0 (set_writeLock 0 w))) s, SQLITE_OK)
  else (s, SQLITE_OK).

(** The calls of [xUndo], whose result for a page is [undo]: the result code and the pages
    it has been called for, in order. *)
Fixpoint undo_frames (n : nat) (undo : Z -> Z) (iFrame rc : Z) (s : St) : option (Z * list Z) :=
  match n with
  | O => Some (rc, [])
  | S n =>
      if rc <>? SQLITE_OK then Some (rc, []) else
      let? x := walFramePgno iFrame s in
      let? (rc, l) := undo_frames n undo (iFrame + 1) (undo x) s in
      Some (rc, x :: l)
  end.

Definition sqlite3WalUndo (e : page_env) (undo : Z -> Z) (s : St) : option (St * Z * list Z) :=
  if writeLock (wal s) =? 0 then Some (s, SQLITE_OK, []) else
  let iMax := mxFrame (hdr (wal s)) in
  let? h := walIndexHdr s in
  let s := on_hdr (fun _ => h) s in
  let? (rc, l) := undo_frames (Z.to_nat (iMax - mxFrame h)) undo (mxFrame h + 1) SQLITE_OK s in
  let? s := (if iMax <>? mxFrame h then walCleanupHash e s else Some s) in
  Some (on_wal (set_iReCksum 0) s, rc, l).

(** The array [aWalData]. *)
Definition WalSavepointData : Type := Z * (Z * Z) * Z.

Definition sqlite3WalSavepoint (s : St) : option WalSavepointData :=
  if writeLock (wal s) =? 0 then None else
  Some (mxFrame (hdr (wal s)), aFrameCksum (hdr (wal s)), nCkpt (wal s)).

Definition sqlite3WalSavepointUndo (e : page_env) (aWalData : WalSavepointData) (s : St)
  : option (St * WalSavepointData * Z) :=
  let '(d0, ck, d3) := aWalData in
  let w := wal s in
  if writeLock w =? 0 then None else
  if negb ((d3 <>? nCkpt w) || (d0 <=? mxFrame (hdr w))) then None else
  let '(d0, d3) := if d3 <>? nCkpt w then (0, nCkpt w) else (d0, d3) in
  if d0 <? mxFrame (hdr w) then
    let s := on_hdr (fun h => set_aFrameCksum ck (set_mxFrame d0 h)) s in
    let? s := walCleanupHash e s in
    let s := if mxFrame (hdr (wal s)) <? iReCksum (wal s) then on_wal (set_iReCksum 0) s else s in
    Some (s, (d0, ck, d3), SQLITE_OK)
  else Some (s, (d0, ck, d3), SQLITE_OK).

(** [salt1] is a random number. *)
Definition walRestartHdr (salt1 : Z) (s : St) : option St :=
  let s := on_wal (fun w => set_nCkpt (u32 (nCkpt w + 1)) w) s in
  let s := on_hdr (set_mxFrame 0) s in
  let? c := sqlite3Get4byte (le32 (aSalt (hdr (wal s))).1) in
  let? b := sqlite3Put4byte (le32 (aSalt (hdr (wal s))).1) (u32 (1 + c)) in
  let? s0 := head (u32s b) in
  let s := on_hdr (set_aSalt (s0, salt1)) s in
  let? s := walIndexWriteHdr s in
  let? s := walCkptInfo_put ckpt_nBackfill 0 s in
  let? s := walCkptInfo_put ckpt_nBackfillAttempted 0 s in
  let? s := walCkptInfo_put (ckpt_aReadMark 1) 0 s in
  let? s := for_up 2 WAL_NREADER 1
    (fun i s => walCkptInfo_put (ckpt_aReadMark i) READMARK_NOT_USED s) s in
  let? m := walCkptInfo_get (ckpt_aReadMark 0) s in
  if m <>? 0 then None else Some s.



(** ** The header *)

(** The ranges of the fields. *)
Record hdr_ok (h : WalIndexHdr) : Prop := {
  ho_words : Forall is_u32 (hdr_words h);
  ho_init : is_byte (isInit h);
  ho_big : is_byte (bigEndCksum h);
  ho_sz : 0 <= hdr_szPage h < 2 ^ 16
}.

Lemma hdr_words_length h : length (hdr_words h) = 12%nat.
Proof. done. Qed.

Lemma words_hdr_words h : hdr_ok h -> words_hdr (hdr_words h) = Some h.
Proof.
  intros [_ Hi Hb Hs]. unfold is_byte in *. unfold words_hdr, hdr_words. f_equal.
  rewrite !Z.shiftl_mul_pow2, !Z.shiftr_div_pow2 by lia. destruct h as [? ? ? a b c ? ? [] [] []]; simpl in *.
  f_equal; unfold u8, u16; Z.div_mod_to_equations; lia.
Qed.

Lemma hdr_words_inj h h' : hdr_ok h -> hdr_ok h' -> hdr_words h = hdr_words h' -> h = h'.
Proof.
  intros H H' E. apply words_hdr_words in H. apply words_hdr_words in H'. rewrite E in H. congruence.
Qed.

Lemma hdr_image_length h : length (hdr_image h) = 40%nat.
Proof. done. Qed.

Lemma hdr_image_bytes h : bytes_ok (hdr_image h).
Proof.
  unfold hdr_image. apply Forall_concat, Forall_fmap, list.Forall_forall. intros x _. apply le32_bytes.
Qed.

(** [h] is the header in page 0. *)
Definition live (ps : gmap Z WalPage) (share : gmap Z Z) (h : WalIndexHdr) : Prop :=
  exists l, head_words ps share = Some l /\ take 12 l = hdr_words h /\
    take 12 (drop 12 l) = hdr_words h /\ hdr_ok h.

Lemma page0_spec s share plog :
  inv s share plog -> exists p pg, page0 s = Some (p, pg) /\ share !! 0 = Some p /\ pages s !! p = Some pg /\
    page_size pg /\ mapped (wal s) 0 p.
Proof.
  intros [HI HC]. destruct (cn_zero _ _ HC) as [p Hp]. pose proof (cn_share _ _ HC _ _ Hp) as Hsh.
  destruct (ix_size _ _ _ HI _ _ Hsh) as (pg & Epg & Hsz). exists p, pg. split; [|done].
  unfold page0. destruct Hp as [-> Hp0]. cbn. rewrite (proj2 (Z.eqb_neq _ _)) by done. by rewrite Epg.
Qed.

Lemma walIndexHdr_spec s share plog h :
  inv s share plog -> live (pages s) share h -> walIndexHdr s = Some h.
Proof.
  intros HI (l & El & Hh & _ & Ho). destruct (page0_spec _ _ _ HI) as (p & pg & E0 & Hsh & Epg & [Hsz _] & _).
  unfold walIndexHdr. rewrite E0. cbn. unfold head_words in El. rewrite Hsh in El. cbn in El. rewrite Epg in El.
  injection El as <-. change (Z.to_nat (WALINDEX_HDR_SIZE / 4)) with 34%nat in Hh. rewrite take_take in Hh. simpl in Hh.
  pose proof layout_eqs. rewrite mem_read_total by lia. change (Z.to_nat 12) with 12%nat.
  change (Z.to_nat 0) with 0%nat. rewrite drop_0, Hh. by apply words_hdr_words.
Qed.

(** Words of page 0 before the array of page numbers can be changed freely. *)
Lemma block_head pg off l ws :
  block_ok pg off l -> length ws = length (words pg) -> drop (Z.to_nat off) ws = drop (Z.to_nat off) (words pg) ->
  block_ok (Page ws (slots pg)) off l.
Proof. intros [B1 B2 B3 B4 B5 B6] Hl Hd. split; simpl; [congruence|done..|congruence|done|done]. Qed.

Lemma evolves_head e s share plog p pg ws :
  inv s share plog -> env_ok e s share -> share !! 0 = Some p -> pages s !! p = Some pg ->
  length ws = length (words pg) -> drop 34 ws = drop 34 (words pg) ->
  inv (set_page p (Page ws (slots pg)) s) share plog /\ env_ok e (set_page p (Page ws (slots pg)) s) share.
Proof.
  intros HI HE Hsh Epg Hl Hd.
  destruct (ix_size _ _ _ (inv_index _ _ _ HI) _ _ Hsh) as (pg' & Epg' & Hs1 & Hs2). assert (pg' = pg) as -> by congruence.
  assert (Hsz : page_size (Page ws (slots pg))) by (split; simpl; [by rewrite Hl|done]).
  split; [|by eapply env_set_page].
  eapply (inv_set_page s share plog plog 0); [done..|apply HI|done|].
  intros Hz. destruct (ix_block _ _ _ (inv_index _ _ _ HI) 0) as (q & pg' & Hq & Epg2 & Hb); [done..|].
  assert (pg' = pg) as -> by congruence. by apply block_head.
Qed.

Lemma inv_wal s w' share plog :
  apWiData w' = apWiData (wal s) -> exclusiveMode w' = exclusiveMode (wal s) ->
  inv s share plog -> inv (Sys w' (pages s)) share plog.
Proof.
  intros Ha Hx [HI [C1 C2 C3]]. split; [done|]. split; simpl; unfold mapped in *; rewrite Ha; [done..|].
  by rewrite Hx.
Qed.

Lemma env_wal e s w' share :
  apWiData w' = apWiData (wal s) -> exclusiveMode w' = exclusiveMode (wal s) ->
  env_ok e s share -> env_ok e (Sys w' (pages s)) share.
Proof.
  intros Ha Hx [E1 E2 E3 E4]. unfold env_page, mapped in *.
  split; unfold env_page, mapped; simpl; rewrite ?Ha, ?Hx; done.
Qed.

Lemma set_live_ok h c : hdr_ok h -> is_u32 c.1 -> is_u32 c.2 -> hdr_ok (set_live c h).
Proof.
  intros [Hw Hi Hb Hs] H1 H2. unfold is_byte, is_u32 in *. split; [|simpl; unfold is_byte; lia|done..].
  unfold hdr_words, set_live in *; simpl in *. do 12 (apply list.Forall_cons in Hw as [? Hw]). unfold is_u32 in *.
  rewrite !Z.shiftl_mul_pow2 in * by lia.
  repeat (apply list.Forall_cons; split; [unfold WALINDEX_MAX_VERSION; lia|]). constructor.
Qed.

(** What a write to the header words leaves. *)
Record rewritten (e : page_env) (s s' : St) (share : gmap Z Z) (plog : list Z) : Prop := {
  rw_inv : inv s' share plog;
  rw_env : env_ok e s' share;
  rw_rest : forall q, share !! 0 <> Some q -> pages s' !! q = pages s !! q
}.

Lemma two_copies (ws hw : list Z) :
  length hw = 12%nat -> 24 <= len ws -> exists ws1, mem_write ws 12 hw = Some ws1 /\
    mem_write ws1 0 hw = Some (hw ++ hw ++ drop 24 ws).
Proof.
  intros Hl Hw. rewrite mem_write_total by (rewrite ?Hl; lia). eexists. split; [done|].
  rewrite mem_write_total by (rewrite ?length_app, ?length_take, ?length_drop, ?Hl; lia).
  rewrite Hl. change (Z.to_nat 12) with 12%nat. change (Z.to_nat 0) with 0%nat. rewrite take_0. cbn [Nat.add app].
  do 2 f_equal. rewrite drop_app_ge by (rewrite length_take; lia).
  replace (12 - length (take 12 ws))%nat with 0%nat by (rewrite length_take; lia). done.
Qed.

Lemma copies_read (hw r : list Z) :
  length hw = 12%nat ->
  take 12 (take 34 (hw ++ hw ++ r)) = hw /\ take 12 (drop 12 (take 34 (hw ++ hw ++ r))) = hw.
Proof.
  intros Hl. rewrite skipn_firstn_comm, !take_take. simpl. rewrite <- Hl. by rewrite drop_app_length, !take_app_length.
Qed.

Lemma copies_tail (hw ws : list Z) n :
  length hw = 12%nat -> drop 24 (take n (hw ++ hw ++ drop 24 ws)) = drop 24 (take n ws).
Proof.
  intros Hl. rewrite !skipn_firstn_comm. f_equal. rewrite !drop_app_ge by lia. rewrite Hl. by rewrite drop_drop.
Qed.

Lemma walIndexWriteHdr_spec e s share plog :
  inv s share plog -> env_ok e s share -> writeLock (wal s) <> 0 -> hdr_ok (hdr (wal s)) ->
  exists c s', walIndexWriteHdr s = Some s' /\ wal s' = set_hdr (set_live c (hdr (wal s))) (wal s) /\
    rewritten e s s' share plog /\ live (pages s') share (hdr (wal s')) /\
    forall l l', head_words (pages s) share = Some l -> head_words (pages s') share = Some l' -> drop 24 l' = drop 24 l.
Proof.
  intros HI HE Hw Hh. unfold walIndexWriteHdr. rewrite (proj2 (Z.eqb_neq _ _)) by done.
  set (img := hdr_image _). rewrite (checksum_spec true img None);
    [|apply hdr_image_bytes|unfold img; rewrite hdr_image_length; lia|done].
  cbn -[format_sum hdr_words]. set (c := format_sum _ _).
  destruct (format_sum_range (order_words true img) (0, 0)) as [Hc1 Hc2]; [done..|]. 
  change (is_u32 c.1) in Hc1. change (is_u32 c.2) in Hc2. clearbody c. clear img.
  exists c. assert (Hh' : hdr_ok (set_live c (hdr (wal s)))) by by apply set_live_ok.
  set (h := set_live c (hdr (wal s))) in *. set (s1 := on_hdr (fun _ => h) s).
  assert (HI1 : inv s1 share plog) by by apply inv_wal.
  assert (HE1 : env_ok e s1 share) by by apply env_wal.
  destruct (page0_spec s1 share plog HI1) as (p & pg & -> & Hsh & Epg & [Hs1 Hs2] & _). cbn -[hdr_words].
  pose proof layout_eqs as (_ & HN & _). pose proof (hdr_words_length h) as Hlh.
  destruct (two_copies (words pg) (hdr_words h) Hlh) as (ws1 & -> & E2); [lia|]. cbn -[hdr_words]. rewrite E2. cbn -[hdr_words].
  destruct (evolves_head e s1 share plog p pg (hdr_words h ++ hdr_words h ++ drop 24 (words pg))) as [HI2 HE2]; [done..| | |].
  { rewrite !length_app, Hlh, length_drop. lia. }
  { rewrite !drop_app_ge by (rewrite Hlh; lia). rewrite Hlh, drop_drop. done. }
  eexists. split; [done|]. split; [done|]. split.
  - split; [done..|]. intros q Hq. simpl. rewrite lookup_insert_ne; [done|]. congruence.
  - unfold live, head_words. rewrite Hsh. simpl. rewrite lookup_insert_eq. cbn -[hdr_words take drop]. split.
    2:{ change (pages s !! p = Some pg) in Epg. intros l l'. rewrite Epg.
        intros E1%(inj Some) E2'%(inj Some). rewrite <- E1, <- E2'. exact (copies_tail (hdr_words h) (words pg) 34 Hlh). }
    eexists. split; [done|]. change (Z.to_nat (WALINDEX_HDR_SIZE / 4)) with 34%nat.
    destruct (copies_read (hdr_words h) (drop 24 (words pg)) Hlh). split_and!; [assumption..|exact Hh'].
Qed.

(** ** Transactions *)

(** A connection within a write transaction: [h] is the live header, the frames after its
    [mxFrame] are those the transaction has written, and their pages are mapped. *)
Record txn_ok (s : St) (share : gmap Z Z) (plog : list Z) (h : WalIndexHdr) : Prop := {
  tx_inv : inv s share plog;
  tx_live : live (pages s) share h;
  tx_hdr : hdr_ok (hdr (wal s));
  tx_lock : writeLock (wal s) <> 0;
  tx_le : 0 <= mxFrame h <= mxFrame (hdr (wal s)) /\ mxFrame (hdr (wal s)) <= len plog;
  tx_mapped : forall f, mxFrame h < f <= mxFrame (hdr (wal s)) -> exists p, mapped (wal s) (walFramePage f) p
}.

Lemma live_evolves e s s' share share' plog h :
  evolves e s s' share share' plog -> live (pages s) share h -> live (pages s') share' h.
Proof. intros HV (l & El & H). exists l. split; [by apply (ev_head _ _ _ _ _ _ HV)|done]. Qed.

(** A write transaction starts only from the current state of the log. *)
Lemma begin_write_spec lock s share plog h :
  inv s share plog -> live (pages s) share h -> hdr_ok (hdr (wal s)) ->
  0 <= mxFrame h <= len plog ->
  0 <= readLock (wal s) -> writeLock (wal s) = 0 -> iReCksum (wal s) = 0 ->
  exists s' rc, sqlite3WalBeginWriteTransaction lock s = Some (s', rc) /\
    (rc = SQLITE_OK -> hdr (wal s) = h /\ s' = on_wal (set_writeLock 1) s /\ txn_ok s' share plog h) /\
    (rc <> SQLITE_OK -> s' = s).
Proof.
  intros HI HL Hh Hmx Hr Hw Hc. unfold sqlite3WalBeginWriteTransaction.
  rewrite Hw, Hc, (proj2 (Z.ltb_ge _ _)) by lia. cbn [orb negb Z.eqb].
  case_cond; [by eexists _, _|]. case_cond; [eexists _, _; split; [done|]; split; intros; bool_to_prop; done|].
  destruct (page0_spec _ _ _ HI) as (p & pg & -> & Hsh & Epg & [Hsz _] & _). cbn.
  pose proof layout_eqs. rewrite mem_read_total by lia.
  change (Z.to_nat 12) with 12%nat. change (Z.to_nat 0) with 0%nat. rewrite drop_0.
  destruct HL as (l & El & Hh1 & Hh2 & Ho). pose proof El as El'. unfold head_words in El.
  rewrite Hsh in El. cbn in El. rewrite Epg in El. injection El as <-.
  change (Z.to_nat (WALINDEX_HDR_SIZE / 4)) with 34%nat in *. pose proof Hh1 as Hh3. rewrite take_take in Hh3. simpl in Hh3.
  rewrite Hh3. case_bool_decide as Hd.
  - eexists _, _. split; [done|]. split; [|done]. intros _.
    pose proof (hdr_words_inj _ _ Hh Ho Hd) as E. split_and!; [done..|].
    split; simpl; [by apply inv_wal|by eexists|done..|rewrite E; lia|].
    intros f Hf. rewrite E in Hf. lia.
  - eexists _, _. split; [done|]. split; [done|]. intros _. destruct s as [w ps]. unfold on_wal. simpl in *. f_equal.
    destruct w. simpl in *. by subst.
Qed.

Lemma walFramePgno_spec s share plog f p :
  inv s share plog -> 1 <= f <= len plog -> mapped (wal s) (walFramePage f) p ->
  walFramePgno f s = plog !! Z.to_nat (f - 1).
Proof.
  intros HI Hf Hm. unfold walFramePgno. destruct Hm as [Ep Hp0] eqn:Em. rewrite Ep. cbn. clear Em.
  destruct (frame_block s share plog f HI Hf) as (q & pg & Hq & Epg & Hb).
  assert (q = p) as -> by (pose proof (cn_share _ _ (inv_conn _ _ _ HI) _ _ (conj Ep Hp0)); congruence).
  rewrite Epg. cbn. destruct (walFramePage_bounds f) as (Hb0 & Hz); [lia|]. set (b := walFramePage f) in *.
  pose proof (zero_of_nonneg b Hb0).
  assert (Hget : mem_get (words pg) (off_of b + Z.of_nat (Z.to_nat (f - 1 - zero_of b))) = plog !! Z.to_nat (f - 1)).
  { destruct (lookup_lt_is_Some_2 plog (Z.to_nat (f - 1))) as [x Hx]; [lia|]. rewrite Hx.
    apply (block_get_entry _ _ _ _ _ Hb). unfold block. rewrite lookup_take_lt, lookup_drop by lia. rewrite <- Hx. f_equal. lia. }
  rewrite <- Hget. unfold off_of, zero_of in *. pose proof layout_eqs.
  destruct (b =? 0) eqn:?; bool_to_prop; f_equal; [lia|]. Z.div_mod_to_equations. lia.
Qed.

(** The roll back of a transaction reports each page it has written, once per frame. *)
Lemma undo_frames_spec s share plog n undo f :
  inv s share plog -> 0 <= f -> f + Z.of_nat n <= len plog ->
  (forall g, f < g <= f + Z.of_nat n -> exists p, mapped (wal s) (walFramePage g) p) ->
  exists rc l, undo_frames n undo (f + 1) SQLITE_OK s = Some (rc, l) /\
    ((forall x, undo x = SQLITE_OK) -> rc = SQLITE_OK /\ l = take n (drop (Z.to_nat f) plog)).
Proof.
  revert f. induction n as [|n IH]; intros f HI Hf Hn Hm; cbn [undo_frames]; [by eexists _, _|].
  change (SQLITE_OK <>? SQLITE_OK) with false. cbv iota.
  destruct (Hm (f + 1)) as [p Hp]; [lia|]. rewrite (walFramePgno_spec s share plog (f + 1) p HI) by (done || lia).
  destruct (lookup_lt_is_Some_2 plog (Z.to_nat (f + 1 - 1))) as [x Hx]; [lia|]. rewrite Hx. cbn.
  destruct (decide (undo x = SQLITE_OK)) as [E|E].
  - destruct (IH (f + 1)) as (rc & l & El & Hl); [done|lia|lia|intros g Hg; apply Hm; lia|].
    rewrite E, El. cbn. eexists _, _. split; [done|]. intros Hu. destruct (Hl Hu) as [-> ->]. split; [done|].
    replace (Z.to_nat (f + 1 - 1)) with (Z.to_nat f) in Hx by lia. rewrite (drop_S plog x (Z.to_nat f)) by done. cbn [take].
    do 3 f_equal. lia.
  - destruct n; cbn [undo_frames]; [|rewrite (proj2 (Z.eqb_neq _ _)) by done; cbn]; eexists _, _; (split; [done|]); intros Hu; by destruct E.
Qed.

(** Cleaning up after the last frame has moved back to [m]. *)
Lemma cleanup_to e s share plog :
  inv s share plog -> env_ok e s share -> writeLock (wal s) <> 0 -> 0 <= mxFrame (hdr (wal s)) <= len plog ->
  exists s' share' plog', walCleanupHash e s = Some s' /\ evolves e s s' share share' plog' /\
    mxFrame (hdr (wal s)) <= len plog' /\
    take (Z.to_nat (mxFrame (hdr (wal s)))) plog' = take (Z.to_nat (mxFrame (hdr (wal s)))) plog.
Proof.
  intros HI HE Hw Hmx. destruct (decide (mxFrame (hdr (wal s)) = 0)) as [E|E].
  - unfold walCleanupHash. rewrite (proj2 (Z.eqb_neq _ _)), E by done. cbn.
    exists s, share, plog. split_and!; [done|by apply grows_evolves, grows_refl|lia|done].
  - destruct (walCleanupHash_spec e s share plog HI HE Hw) as (s' & share' & plog' & -> & HV & Hl & _); [lia|].
    exists s', share', plog'. split; [done|]. split; [done|].
    destruct Hl as [->| ->]; rewrite ?length_take, ?take_take, ?Nat.min_id; split; (lia || done).
Qed.

Lemma undo_spec e undo s share plog h :
  txn_ok s share plog h -> env_ok e s share ->
  exists s' rc l share' plog', sqlite3WalUndo e undo s = Some (s', rc, l) /\
    txn_ok s' share' plog' h /\ env_ok e s' share' /\ hdr (wal s') = h /\ iReCksum (wal s') = 0 /\
    same_wal (set_iReCksum 0 (set_hdr h (wal s))) (wal s') /\
    take (Z.to_nat (mxFrame h)) plog' = take (Z.to_nat (mxFrame h)) plog /\
    ((forall x, undo x = SQLITE_OK) -> rc = SQLITE_OK /\
       l = take (Z.to_nat (mxFrame (hdr (wal s)) - mxFrame h)) (drop (Z.to_nat (mxFrame h)) plog)).
Proof.
  intros HT HE. pose proof (tx_inv _ _ _ _ HT) as HI. pose proof (tx_le _ _ _ _ HT) as Hle.
  unfold sqlite3WalUndo. rewrite (proj2 (Z.eqb_neq _ _)) by apply HT.
  rewrite (walIndexHdr_spec _ _ _ _ HI (tx_live _ _ _ _ HT)). cbn -[walCleanupHash].
  set (s1 := on_hdr (fun _ => h) s).
  assert (HI1 : inv s1 share plog) by by apply inv_wal. assert (HE1 : env_ok e s1 share) by by apply env_wal.
  destruct (undo_frames_spec s1 share plog (Z.to_nat (mxFrame (hdr (wal s)) - mxFrame h)) undo (mxFrame h))
    as (rc & l & -> & Hl); [done|lia|lia| |].
  { intros g Hg. apply (tx_mapped _ _ _ _ HT). lia. }
  cbn -[walCleanupHash].
  assert (exists s2 share2 plog2, (if mxFrame (hdr (wal s)) <>? mxFrame h then walCleanupHash e s1 else Some s1) = Some s2 /\
    evolves e s1 s2 share share2 plog2 /\ mxFrame h <= len plog2 /\
    take (Z.to_nat (mxFrame h)) plog2 = take (Z.to_nat (mxFrame h)) plog) as (s2 & share2 & plog2 & -> & HV & Hlen & Ht).
  { case_cond; [|exists s1, share, plog; split_and!; [done|by apply grows_evolves, grows_refl|lia|done]].
    apply (cleanup_to e s1); [done..|apply HT|simpl; lia]. }
  cbn. eexists _, rc, l, share2, plog2. split; [done|].
  destruct (ev_wal _ _ _ _ _ _ HV) as (ap & ro & Ew).
  assert (Hh : hdr (wal s2) = h) by by rewrite Ew.
  assert (Hho : hdr_ok h) by (destruct (tx_live _ _ _ _ HT) as (? & _ & _ & _ & ?); done).
  split_and!; [|apply env_wal; [done..|apply HV]|done|done| |done|done].
  - split; simpl; [apply inv_wal; [done..|apply HV]|by apply (live_evolves _ _ _ _ _ _ _ HV), HT|by rewrite Hh| |rewrite Hh; lia|].
    + rewrite Ew. apply HT.
    + rewrite Hh. intros f Hf. lia.
  - simpl. rewrite Ew. by exists ap, ro.
Qed.

Lemma hdr_ok_mxFrame h v : hdr_ok h -> is_u32 v -> hdr_ok (set_mxFrame v h).
Proof.
  intros [Hw Hi Hb Hs] Hv. split; [|done..]. unfold hdr_words in *. simpl in *.
  do 12 (apply list.Forall_cons in Hw as [? Hw]). by repeat (apply list.Forall_cons; split).
Qed.

Lemma hdr_ok_cksum h c : hdr_ok h -> is_u32 c.1 -> is_u32 c.2 -> hdr_ok (set_aFrameCksum c h).
Proof.
  intros [Hw Hi Hb Hs] H1 H2. split; [|done..]. unfold hdr_words in *. simpl in *.
  do 12 (apply list.Forall_cons in Hw as [? Hw]). by repeat (apply list.Forall_cons; split).
Qed.

Lemma hdr_ok_salt h c : hdr_ok h -> is_u32 c.1 -> is_u32 c.2 -> hdr_ok (set_aSalt c h).
Proof.
  intros [Hw Hi Hb Hs] H1 H2. split; [|done..]. unfold hdr_words in *. simpl in *.
  do 12 (apply list.Forall_cons in Hw as [? Hw]). by repeat (apply list.Forall_cons; split).
Qed.

Lemma hdr_mxFrame_u32 h : hdr_ok h -> is_u32 (mxFrame h).
Proof. intros [Hw _ _ _]. unfold hdr_words in Hw. by do 5 (apply list.Forall_cons in Hw as [? Hw]). Qed.

(** Rolling back to a savepoint of the transaction; after the log has been restarted the
    savepoint is the start of the log. *)
Lemma savepoint_undo_spec e d0 ck d3 s share plog h :
  txn_ok s share plog h -> env_ok e s share -> is_u32 ck.1 -> is_u32 ck.2 ->
  (if d3 =? nCkpt (wal s) then mxFrame h <= d0 <= mxFrame (hdr (wal s)) else mxFrame h = 0) ->
  let d := if d3 =? nCkpt (wal s) then d0 else 0 in
  exists s' share' plog', sqlite3WalSavepointUndo e (d0, ck, d3) s = Some (s', (d, ck, nCkpt (wal s)), SQLITE_OK) /\
    txn_ok s' share' plog' h /\ env_ok e s' share' /\ mxFrame (hdr (wal s')) = d /\
    (d < mxFrame (hdr (wal s)) -> aFrameCksum (hdr (wal s')) = ck /\
       iReCksum (wal s') = if d <? iReCksum (wal s) then 0 else iReCksum (wal s)) /\
    take (Z.to_nat d) plog' = take (Z.to_nat d) plog.
Proof.
  intros HT HE H1 H2 Hd d. pose proof (tx_le _ _ _ _ HT) as Hle. pose proof (tx_inv _ _ _ _ HT) as HI.
  assert (Hd' : mxFrame h <= d <= mxFrame (hdr (wal s))) by (unfold d; case_cond; lia).
  unfold sqlite3WalSavepointUndo. rewrite (proj2 (Z.eqb_neq _ _)) by apply HT.
  assert (Hor : (d3 <>? nCkpt (wal s)) || (d0 <=? mxFrame (hdr (wal s))) = true).
  { destruct (d3 =? nCkpt (wal s)) eqn:E; cbn; [apply Z.leb_le; lia|done]. }
  rewrite Hor. cbn [negb].
  replace (if d3 <>? nCkpt (wal s) then (0, nCkpt (wal s)) else (d0, d3)) with (d, nCkpt (wal s))
    by (unfold d; destruct (d3 =? nCkpt (wal s)) eqn:E; bool_to_prop; cbn; by subst).
  case_cond; cbn -[walCleanupHash].
  - set (s1 := on_hdr _ s).
    assert (HI1 : inv s1 share plog) by by apply inv_wal. assert (HE1 : env_ok e s1 share) by by apply env_wal.
    destruct (cleanup_to e s1 share plog) as (s2 & share2 & plog2 & -> & HV & Hlen & Ht); [done..|apply HT|simpl; lia|].
    cbn. destruct (ev_wal _ _ _ _ _ _ HV) as (ap & ro & Ew). simpl in Hlen, Ht.
    set (s3 := if mxFrame (hdr (wal s2)) <? iReCksum (wal s2) then on_wal (set_iReCksum 0) s2 else s2).
    assert (Hs3 : exists v, wal s3 = set_iReCksum v (wal s2) /\ pages s3 = pages s2 /\
              v = if d <? iReCksum (wal s) then 0 else iReCksum (wal s)).
    { unfold s3. rewrite Ew. simpl. case_cond; [exists 0; simpl; by rewrite Ew|].
      exists (iReCksum (wal s)). rewrite Ew. unfold s1; simpl; by destruct (wal s). }
    destruct Hs3 as (v & Ew3 & Eps & Hv). clearbody s3.
    assert (Es3 : s3 = Sys (set_iReCksum v (wal s2)) (pages s2)) by (destruct s3; simpl in *; by subst). subst s3.
    eexists _, share2, plog2. split; [done|]. cbn.
    assert (Hh2 : hdr (wal s2) = set_aFrameCksum ck (set_mxFrame d (hdr (wal s)))) by by rewrite Ew.
    split_and!; [|apply env_wal; [done..|apply HV]|by rewrite Hh2|intros _; by rewrite Hh2|done].
    split; simpl; [apply inv_wal; [done..|apply HV]|by apply (live_evolves _ _ _ _ _ _ _ HV), HT| | | |].
    + rewrite Hh2. apply hdr_ok_cksum; [|done..]. apply hdr_ok_mxFrame; [apply HT|].
      pose proof (hdr_mxFrame_u32 _ (tx_hdr _ _ _ _ HT)). unfold is_u32 in *. lia.
    + rewrite Ew. apply HT.
    + rewrite Hh2. simpl. lia.
    + rewrite Hh2. simpl. intros f Hf. destruct (tx_mapped _ _ _ _ HT f) as [p Hp]; [lia|].
      exists p. by apply (ev_mapped _ _ _ _ _ _ HV).
  - exists s, share, plog. assert (d = mxFrame (hdr (wal s))) by lia. split_and!; [done..|lia|done].
Qed.

Lemma ckpt_put_spec e i v s share plog h l :
  inv s share plog -> env_ok e s share -> live (pages s) share h -> head_words (pages s) share = Some l ->
  24 <= i < 34 -> exists s', walCkptInfo_put i v s = Some s' /\ wal s' = wal s /\ inv s' share plog /\
    env_ok e s' share /\ live (pages s') share h /\ head_words (pages s') share = Some (<[Z.to_nat i := v]> l).
Proof.
  intros HI HE (l' & El' & Hl1 & Hl2 & Ho) El Hi. assert (l' = l) as -> by congruence. clear El'.
  unfold walCkptInfo_put. destruct (page0_spec _ _ _ HI) as (p & pg & -> & Hsh & Epg & [Hsz _] & _). cbn.
  pose proof layout_eqs. unfold mem_put. rewrite (proj2 (Z.leb_le _ _)), (proj2 (Z.ltb_lt _ _)) by lia. cbn.
  destruct (evolves_head e s share plog p pg (<[Z.to_nat i := v]> (words pg))) as [HI' HE']; [done..| | |].
  { by rewrite length_insert. } { by rewrite drop_insert_lt by lia. }
  assert (Eh : head_words (pages (set_page p (Page (<[Z.to_nat i := v]> (words pg)) (slots pg)) s)) share = Some (<[Z.to_nat i := v]> l)).
  { unfold head_words in *. rewrite Hsh in *. cbn in *. rewrite Epg in El. rewrite lookup_insert_eq. cbn. injection El as <-.
    by rewrite take_insert_lt by lia. }
  eexists. split; [done|]. split; [done|]. split_and!; [done|done| |done].
  exists (<[Z.to_nat i := v]> l). split_and!; [done| | |done].
  - by rewrite take_insert_ge by lia.
  - by rewrite drop_insert_ge, take_insert_ge by lia.
Qed.

(** The state while the checkpoint information is reset: the mark of reader 0 stays 0. *)
Record resetting (e : page_env) (w : Wal) (h : WalIndexHdr) (share : gmap Z Z) (plog : list Z) (s : St) : Prop := {
  rs_inv : inv s share plog;
  rs_env : env_ok e s share;
  rs_live : live (pages s) share h;
  rs_wal : wal s = w;
  rs_mark : exists l, head_words (pages s) share = Some l /\ l !! 25%nat = Some 0
}.

Lemma resetting_put e w h share plog s i v :
  resetting e w h share plog s -> 24 <= i < 34 -> i <> 25 ->
  exists s', walCkptInfo_put i v s = Some s' /\ resetting e w h share plog s'.
Proof.
  intros [HI HE HL Hw (l & El & Hl)] Hi Hn.
  destruct (ckpt_put_spec e i v s share plog h l HI HE HL El Hi) as (s' & -> & Hw' & HI' & HE' & HL' & El').
  exists s'. split; [done|]. split; [done..|congruence|]. eexists. split; [done|].
  by rewrite list_lookup_insert_ne by lia.
Qed.

Lemma resetting_loop e w h share plog n i v s :
  resetting e w h share plog s -> 1 <= i -> i + Z.of_nat n <= 5 ->
  exists s', for_n n i 1 (fun i s => walCkptInfo_put (ckpt_aReadMark i) v s) s = Some s' /\
    resetting e w h share plog s'.
Proof.
  revert i s. induction n as [|n IH]; intros i s HS Hi Hn; cbn [for_n]; [by exists s|].
  destruct (resetting_put e w h share plog s (ckpt_aReadMark i) v HS) as (s1 & -> & HS1);
    [unfold ckpt_aReadMark; lia..|].
  apply IH; [done|lia|lia].
Qed.

Lemma ckpt_get_spec i s share plog l :
  inv s share plog -> head_words (pages s) share = Some l -> 0 <= i < 34 ->
  walCkptInfo_get i s = l !! Z.to_nat i.
Proof.
  intros HI El Hi. unfold walCkptInfo_get. destruct (page0_spec _ _ _ HI) as (p & pg & -> & Hsh & Epg & _ & _). cbn.
  unfold head_words in El. rewrite Hsh in El. cbn in El. rewrite Epg in El. injection El as <-.
  unfold mem_get. rewrite (proj2 (Z.leb_le _ _)) by lia. rewrite lookup_take_lt; [done|].
  change (Z.to_nat (WALINDEX_HDR_SIZE / 4)) with 34%nat. lia.
Qed.

Lemma u32s_four b0 b1 b2 b3 :
  is_byte b0 -> is_byte b1 -> is_byte b2 -> is_byte b3 ->
  exists x, is_u32 x /\ u32s [b0; b1; b2; b3] = [x].
Proof.
  intros H0 H1 H2 H3. destruct (order_words_four true b0 b1 b2 b3) as (x & Hx & E & _); [done..|].
  exists x. split; [done|]. apply (E []).
Qed.

(** The first salt value is incremented as a big-endian number. *)
Lemma next_salt x : exists c b y, sqlite3Get4byte (le32 x) = Some c /\ sqlite3Put4byte (le32 x) (u32 (1 + c)) = Some b /\
  head (u32s b) = Some y /\ is_u32 y.
Proof.
  unfold le32. rewrite Get4byte_spec by apply u8_byte. set (c := _ + u8 (Z.shiftr x 24)).
  destruct (u32s_four (u8 (Z.shiftr (u32 (1 + c)) 24)) (u8 (Z.shiftr (u32 (1 + c)) 16)) (u8 (Z.shiftr (u32 (1 + c)) 8))
    (u8 (u32 (1 + c)))) as (y & Hy & E); [apply u8_byte..|].
  eexists c, _, y. split; [done|]. rewrite Put4byte_eq. split; [done|]. by rewrite E.
Qed.

(** A restarted log is empty, for the connection and for the others. *)
Lemma restart_spec e salt1 s share plog h l :
  txn_ok s share plog h -> env_ok e s share -> is_u32 salt1 ->
  head_words (pages s) share = Some l -> l !! 25%nat = Some 0 ->
  exists s', walRestartHdr salt1 s = Some s' /\ txn_ok s' share plog (hdr (wal s')) /\ env_ok e s' share /\
    mxFrame (hdr (wal s')) = 0 /\ nCkpt (wal s') = u32 (nCkpt (wal s) + 1) /\ (aSalt (hdr (wal s'))).2 = salt1.
Proof.
  intros HT HE Hs El E25. unfold walRestartHdr.
  destruct (next_salt (aSalt (hdr (wal s))).1) as (c & b & y & E1 & E2 & E3 & Hy).
  cbn -[sqlite3Get4byte sqlite3Put4byte u32s walIndexWriteHdr walCkptInfo_put for_up walCkptInfo_get u32].
  rewrite E1. cbn -[sqlite3Put4byte u32s walIndexWriteHdr walCkptInfo_put for_up walCkptInfo_get u32]. rewrite E2.
  cbn -[u32s walIndexWriteHdr walCkptInfo_put for_up walCkptInfo_get u32]. rewrite E3.
  cbn -[walIndexWriteHdr walCkptInfo_put for_up walCkptInfo_get u32].
  set (s1 := on_hdr (set_aSalt (y, salt1)) _).
  assert (HI1 : inv s1 share plog) by (apply (inv_wal s); [done..|apply HT]).
  assert (HE1 : env_ok e s1 share) by by apply (env_wal e s).
  assert (Hh1 : hdr_ok (hdr (wal s1))) by (apply hdr_ok_salt; [|done..]; apply hdr_ok_mxFrame; [apply HT|done]).
  destruct (walIndexWriteHdr_spec e s1 share plog HI1 HE1) as (k & s2 & -> & Ew & HR & HL & Htail); [apply HT|done|].
  pose proof HL as (l2 & El2 & _). pose proof (Htail l l2 El El2) as Ht. clear Htail.
  assert (E25' : l2 !! 25%nat = Some 0).
  { change 25%nat with (24 + 1)%nat. rewrite <- lookup_drop, Ht, lookup_drop. done. }
  assert (HS : resetting e (wal s2) (hdr (wal s2)) share plog s2)
    by (split; [apply HR|apply HR|done|done|by exists l2]).
  cbn -[walCkptInfo_put for_up walCkptInfo_get].
  destruct (resetting_put _ _ _ _ _ _ ckpt_nBackfill 0 HS) as (s3 & -> & HS3); [done..|]. cbn -[walCkptInfo_put for_up walCkptInfo_get].
  destruct (resetting_put _ _ _ _ _ _ ckpt_nBackfillAttempted 0 HS3) as (s4 & -> & HS4); [done..|]. cbn -[walCkptInfo_put for_up walCkptInfo_get].
  destruct (resetting_put _ _ _ _ _ _ (ckpt_aReadMark 1) 0 HS4) as (s5 & -> & HS5); [done..|]. cbn -[walCkptInfo_put for_up walCkptInfo_get].
  destruct (resetting_loop _ _ _ _ _ 3 2 READMARK_NOT_USED s5 HS5) as (s6 & E6 & [HI6 HE6 HL6 Hw6 (l6 & El6 & Hl6)]); [lia..|].
  unfold for_up. change (Z.to_nat _) with 3%nat. rewrite E6. cbn -[walCkptInfo_get].
  rewrite (ckpt_get_spec (ckpt_aReadMark 0) s6 share plog l6 HI6 El6) by done. change (Z.to_nat (ckpt_aReadMark 0)) with 25%nat. rewrite Hl6. cbn.
  exists s6. split; [done|].
  assert (Hh6 : hdr (wal s6) = set_live k (hdr (wal s1))) by by rewrite Hw6, Ew.
  split_and!; [|done|by rewrite Hh6|by rewrite Hw6, Ew|by rewrite Hh6].
  split; [done|by rewrite Hw6| | |rewrite Hh6; simpl; lia|intros f Hf; lia].
  - destruct HL6 as (? & _ & _ & _ & ?). by rewrite Hw6.
  - rewrite Hw6, Ew. apply HT.
Qed.


(** ** Sessions of one writer *)

(** What a writer does to the index, in any order: it enters the next frame, goes back to an
    earlier one, or looks a page up. *)
Inductive iop := IAppend (x : Z) | IRollback (m : nat) | IFind (x : Z).

(** The result code and the answer. *)
Definition index_step (e : page_env) (o : iop) (s : St) : option (St * Z * Z) :=
  match o with
  | IAppend x =>
      let iFrame := mxFrame (hdr (wal s)) + 1 in
      let? (s, rc) := walIndexAppend e iFrame x s in
      Some (if rc =? SQLITE_OK then on_hdr (set_mxFrame iFrame) s else s, rc, 0)
  | IRollback m =>
      let? s := walCleanupHash e (on_hdr (set_mxFrame (Z.of_nat m)) s) in Some (s, SQLITE_OK, 0)
  | IFind x => walFindFrame e x s
  end.

(** The answers up to the first error. *)
Fixpoint index_run (e : page_env) (l : list iop) (s : St) : option (list Z * Z) :=
  match l with
  | [] => Some ([], SQLITE_OK)
  | o :: l =>
      let? (s, rc, a) := index_step e o s in
      if rc <>? SQLITE_OK then Some ([], rc) else
      let? (r, rc) := index_run e l s in Some (a :: r, rc)
  end.

(** The same on the list of the page numbers of the frames. *)
Fixpoint list_run (lo : Z) (l : list iop) (log : list Z) : list Z :=
  match l with
  | [] => []
  | IAppend x :: l => 0 :: list_run lo l (log ++ [x])
  | IRollback m :: l => 0 :: list_run lo l (take m log)
  | IFind x :: l => last_frame log lo x (length log) :: list_run lo l log
  end.

Fixpoint session_ok (l : list iop) (n : nat) : Prop :=
  match l with
  | [] => True
  | IAppend x :: l => 0 < x /\ Z.of_nat n + 1 < 2 ^ 31 /\ session_ok l (S n)
  | IRollback m :: l => (m <= n)%nat /\ session_ok l m
  | IFind x :: l => 0 < x /\ session_ok l n
  end.

(** The index holds [log] for a writer that reads from frame [lo] on. *)
Record holds (e : page_env) (s : St) (lo : Z) (log : list Z) : Prop := {
  hl_index : exists share plog, inv s share plog /\ env_ok e s share /\ take (length log) plog = log;
  hl_mx : mxFrame (hdr (wal s)) = len log;
  hl_lo : minFrame (wal s) = lo /\ 0 <= lo;
  hl_lock : writeLock (wal s) <> 0 /\ 0 < readLock (wal s)
}.

Lemma last_frame_take plog lo x n k : (n <= k)%nat -> last_frame (take k plog) lo x n = last_frame plog lo x n.
Proof.
  induction n as [|n IH]; intros Hn; cbn [last_frame]; [done|]. rewrite lookup_take_lt, IH by lia. done.
Qed.

Lemma hdr_inv s f share plog : inv s share plog -> inv (on_hdr f s) share plog.
Proof. intros H. by apply (inv_wal s). Qed.

Lemma hdr_env e s f share : env_ok e s share -> env_ok e (on_hdr f s) share.
Proof. intros H. by apply (env_wal e s). Qed.

Lemma step_append e s lo log x :
  holds e s lo log -> 0 < x -> len log + 1 < 2 ^ 31 ->
  exists s' rc a, index_step e (IAppend x) s = Some (s', rc, a) /\ (rc = SQLITE_OK -> a = 0 /\ holds e s' lo (log ++ [x])).
Proof.
  intros [(share & plog & HI & HE & Ht) Hm Hlo [Hw Hr]] Hx Hb. cbn [index_step]. rewrite Hm.
  assert (Hlp : (length log <= length plog)%nat) by (rewrite <- Ht at 1; rewrite length_take; lia).
  destruct (walIndexAppend_spec e s share plog (length log) x HI HE Hw Hx) as (s1 & rc & share' & -> & HV & _); [done|done|by right|].
  cbn. eexists _, rc, 0. split; [done|]. intros ->. split; [done|]. cbn in HV.
  destruct (ev_wal _ _ _ _ _ _ HV) as (ap & ro & Ew). split.
  - exists share', (take (length log) plog ++ [x]). split; [apply hdr_inv, HV|]. split; [apply hdr_env, HV|].
    by rewrite Ht, firstn_all.
  - simpl. rewrite length_app. simpl. lia.
  - simpl. by rewrite Ew.
  - simpl. by rewrite Ew.
Qed.

Lemma step_rollback e s lo log m :
  holds e s lo log -> (m <= length log)%nat ->
  exists s', index_step e (IRollback m) s = Some (s', SQLITE_OK, 0) /\ holds e s' lo (take m log).
Proof.
  intros [(share & plog & HI & HE & Ht) Hm Hlo [Hw Hr]] Hml. cbn [index_step].
  assert (Hlp : (length log <= length plog)%nat) by (rewrite <- Ht at 1; rewrite length_take; lia).
  destruct (cleanup_to e (on_hdr (set_mxFrame (Z.of_nat m)) s) share plog) as (s1 & share' & plog' & -> & HV & Hl & Ht');
    [by apply hdr_inv|by apply hdr_env|done|simpl; lia|].
  simpl in Hl, Ht'. rewrite Nat2Z.id in Ht'. cbn. exists s1. split; [done|].
  destruct (ev_wal _ _ _ _ _ _ HV) as (ap & ro & Ew). split.
  - exists share', plog'. split; [apply HV|]. split; [apply HV|]. rewrite length_take, Nat.min_l, Ht' by lia.
    rewrite <- Ht, take_take, Nat.min_l by lia. done.
  - rewrite Ew, length_take. simpl. lia.
  - by rewrite Ew.
  - by rewrite Ew.
Qed.

Lemma step_find e s lo log x :
  holds e s lo log -> 0 < x ->
  exists s' rc a, index_step e (IFind x) s = Some (s', rc, a) /\
    (rc = SQLITE_OK -> a = last_frame log lo x (length log) /\ holds e s' lo log).
Proof.
  intros [(share & plog & HI & HE & Ht) Hm [Hlo Hlo0] [Hw Hr]] Hx. cbn [index_step].
  assert (Hlp : (length log <= length plog)%nat) by (rewrite <- Ht at 1; rewrite length_take; lia).
  destruct (walFindFrame_spec e s share plog x HI HE Hx) as (s1 & rc & r & share' & -> & HG & HOK & _ & _); [lia..|].
  exists s1, rc, r. split; [done|]. intros Hrc. split.
  - rewrite (HOK Hrc), (proj2 (Z.eqb_neq _ _)), Hm, Nat2Z.id, Hlo by lia. cbn [andb].
    rewrite <- (last_frame_take plog lo x (length log) (length log)), Ht by lia. done.
  - destruct (gr_wal _ _ _ _ _ _ HG) as (ap & ro & Ew). split; try by rewrite Ew.
    exists share', plog. split; [apply HG|]. split; [apply HG|]. done.
Qed.

(** One call before the others. *)
Lemma run_cons e o l s s1 rc a rest :
  index_step e o s = Some (s1, rc, a) ->
  (rc = SQLITE_OK -> exists r rc2, index_run e l s1 = Some (r, rc2) /\ (a :: r) `prefix_of` rest /\
     (rc2 = SQLITE_OK -> a :: r = rest)) ->
  exists r rc, index_run e (o :: l) s = Some (r, rc) /\ r `prefix_of` rest /\ (rc = SQLITE_OK -> r = rest).
Proof.
  intros E HOK. cbn [index_run]. rewrite E. cbn. destruct (Z.eqb_spec rc SQLITE_OK) as [Hrc|Hrc]; cbn [negb].
  - destruct (HOK Hrc) as (r & rc2 & -> & Hp & Hr). by exists (a :: r), rc2.
  - exists [], rc. split_and!; [done|apply prefix_nil|done].
Qed.


(** A connection that has mapped one empty page of the index. *)
Definition demo_page_env : page_env :=
  PageEnv (fun _ => true) (fun _ => 0) (fun b => if b =? 0 then (SQLITE_OK, 1) else (SQLITE_NOMEM, 0)).

Definition demo_st (h : WalIndexHdr) : St :=
  Sys (WalRec (-1) [1] 512 1 0 1 0 0 0 1 0 0 h 1 0 0 0) {[ 1 := zero_page ]}.

Lemma demo_inv h : inv (demo_st h) {[ 0 := 1 ]} [].
Proof.
  split; split; cbn [pages wal demo_st].
  - intros b c p [<- <-]%lookup_singleton_Some [<- _]%lookup_singleton_Some. done.
  - intros b p [<- <-]%lookup_singleton_Some. done.
  - intros b p [<- <-]%lookup_singleton_Some. exists zero_page. split; [apply lookup_singleton_eq|apply zero_page_size].
  - intros b Hb Hz. pose proof (zero_of_nonneg b Hb). simpl in Hz. lia.
  - simpl. lia.
  - intros b p [Hg Hp]. apply mem_get_Some_range in Hg as Hr. simpl in Hr. assert (b = 0) as -> by lia.
    cbn in Hg. by simplify_eq.
  - by exists 1.
  - done.
Qed.

Lemma demo_env_ok h : env_ok demo_page_env (demo_st h) {[ 0 := 1 ]}.
Proof.
  split; unfold env_page; cbn -[Z.eqb]; simpl exclusiveMode.
  - intros b c. cbn. destruct (Z.eqb_spec b 0), (Z.eqb_spec c 0); simpl; intros; by subst.
  - done.
  - intros _ b. destruct (Z.eqb_spec b 0); done.
  - intros _ b p Hb. destruct (Z.eqb_spec b 0) as [->|]; simpl; [|by intros <-]. exfalso. by apply (Hb 1).
Qed.

End WalTxns.
