(* ===== verification/WalFrame.v ===== *)
(** * Write-ahead log: frames (src/wal.c)

    A frame of the log is a header of 24 bytes and a page. The header holds the page number,
    the size of the database after a commit (0 for other frames), the salt values of the log
    and a checksum over the header of the log and all frames up to this one.

    - [walFrameOffset], [walEncodeFrame], [walDecodeFrame].

    [frame_roundtrip]: a frame that has been written is read back, and a frame with one
    changed group of eight bytes is refused. *)

From stdpp Require Import list.
From S2P Require Import Prelude Varint WalData.
Import WalTypes.
Local Open Scope Z_scope.

Module WalFrames.

Definition walFrameOffset (iFrame szPage : Z) : Z :=
  WAL_HDRSIZE + (iFrame - 1) * (szPage + WAL_FRAME_HDRSIZE).

(** [sqlite3Put4byte(&b[off], v)] and [sqlite3Get4byte(&b[off])] *)
Definition put4byte_at (b : bytes) (off v : Z) : option bytes :=
  let? t := mem_read b off 4 in
  let? t := sqlite3Put4byte t v in
  mem_write b off t.

Definition get4byte_at (b : bytes) (off : Z) : option Z :=
  let? t := mem_read b off 4 in
  sqlite3Get4byte t.

(** The image of [pWal->hdr.aSalt] *)
Definition salt_image (salt : Z * Z) : bytes := le32 salt.1 ++ le32 salt.2.

(** [aFrame] is the buffer of the caller; the result has the new [aFrameCksum]. *)
Definition walEncodeFrame (iPage nTruncate : Z) (aData aFrame : bytes) (w : Wal) : option (Wal * bytes) :=
  let? aFrame := put4byte_at aFrame 0 iPage in
  let? aFrame := put4byte_at aFrame 4 nTruncate in
  if iReCksum w =? 0 then
    let? aFrame := mem_write aFrame 8 (salt_image (aSalt (hdr w))) in
    let nativeCksum := bigEndCksum (hdr w) =? SQLITE_BIGENDIAN in
    let? h8 := mem_read aFrame 0 8 in
    let? ck := walChecksumBytes nativeCksum h8 (Some (aFrameCksum (hdr w))) in
    let? d := mem_read aData 0 (szPage w) in
    let? ck := walChecksumBytes nativeCksum d (Some ck) in
    let? aFrame := put4byte_at aFrame 16 ck.1 in
    let? aFrame := put4byte_at aFrame 20 ck.2 in
    Some (set_hdr (set_aFrameCksum ck (hdr w)) w, aFrame)
  else
    let? aFrame := mem_set aFrame 8 0 16 in
    Some (w, aFrame).

(** [None] as the second component is the answer 0, a frame that is not valid. *)
Definition walDecodeFrame (aData aFrame : bytes) (w : Wal) : option (Wal * option (Z * Z)) :=
  let? salt := mem_read aFrame 8 8 in
  if negb (bool_decide (salt_image (aSalt (hdr w)) = salt)) then Some (w, None) else
  let? pgno := get4byte_at aFrame 0 in
  if pgno =? 0 then Some (w, None) else
  if szPage w =? 0 then Some (w, None) else
  let nativeCksum := bigEndCksum (hdr w) =? SQLITE_BIGENDIAN in
  let? h8 := mem_read aFrame 0 8 in
  let? ck := walChecksumBytes nativeCksum h8 (Some (aFrameCksum (hdr w))) in
  let? d := mem_read aData 0 (szPage w) in
  let? ck := walChecksumBytes nativeCksum d (Some ck) in
  let w := set_hdr (set_aFrameCksum ck (hdr w)) w in
  let? c0 := get4byte_at aFrame 16 in
  let? c1 := get4byte_at aFrame 20 in
  if (ck.1 <>? c0) || (ck.2 <>? c1) then Some (w, None) else
  let? nTruncate := get4byte_at aFrame 4 in
  Some (w, Some (pgno, nTruncate)).

(** ** Big-endian fields *)

Definition be32 (v : Z) : bytes :=
  [u8 (Z.shiftr v 24); u8 (Z.shiftr v 16); u8 (Z.shiftr v 8); u8 v].

Lemma be32_bytes v : bytes_ok (be32 v).
Proof. repeat constructor; apply u8_range. Qed.

Lemma be32_value v : is_u32 v -> sqlite3Get4byte (be32 v) = Some v.
Proof.
  unfold is_u32, be32. intros Hv. rewrite Get4byte_spec by apply u8_byte. f_equal. unfold u8.
  rewrite !Z.shiftr_div_pow2 by lia. Z.div_mod_to_equations. lia.
Qed.

(** Any four bytes are the image of a number. *)
Lemma be32_surj b : bytes_ok b -> length b = 4%nat -> exists v, is_u32 v /\ b = be32 v.
Proof.
  intros Hb Hl. destruct b as [|a [|b [|c [|d [|]]]]]; try done.
  do 4 (apply list.Forall_cons in Hb as [? Hb]). unfold is_byte in *.
  exists (a * 2 ^ 24 + b * 2 ^ 16 + c * 2 ^ 8 + d). split; [unfold is_u32; lia|].
  unfold be32, u8. rewrite !Z.shiftr_div_pow2 by lia.
  f_equal; [|f_equal; [|f_equal; [|f_equal]]]; Z.div_mod_to_equations; lia.
Qed.

Lemma put4byte_at_eq b off v :
  0 <= off -> off + 4 <= len b -> put4byte_at b off v = mem_write b off (be32 v).
Proof.
  intros Ho Hl. unfold put4byte_at. rewrite mem_read_total by lia. cbn -[take drop].
  assert (E : length (take (Z.to_nat 4) (drop (Z.to_nat off) b)) = 4%nat) by (rewrite length_take, length_drop; lia).
  destruct (take _ _) as [|x0 [|x1 [|x2 [|x3 [|]]]]]; done.
Qed.

Lemma mem_write_middle pre old new post b off :
  b = pre ++ old ++ post -> off = len pre -> length old = length new ->
  mem_write b off new = Some (pre ++ new ++ post).
Proof.
  intros -> -> Hl. rewrite mem_write_total by (rewrite ?length_app; lia). rewrite Nat2Z.id, take_app_length.
  by rewrite drop_app_add', <- Hl, drop_app_length by done.
Qed.

Lemma put_app pre old v post b off :
  b = pre ++ old ++ post -> off = len pre -> length old = 4%nat ->
  put4byte_at b off v = Some (pre ++ be32 v ++ post).
Proof.
  intros -> -> Hl. rewrite put4byte_at_eq by (rewrite ?length_app; lia). by eapply mem_write_middle.
Qed.

Lemma mem_read_app pre mid post b off n :
  b = pre ++ mid ++ post -> off = len pre -> n = len mid -> mem_read b off n = Some mid.
Proof.
  intros -> -> ->.
  rewrite mem_read_total by (rewrite ?length_app; lia). by rewrite !Nat2Z.id, drop_app_length, take_app_length.
Qed.

Lemma get_app pre v post b off :
  b = pre ++ be32 v ++ post -> off = len pre -> is_u32 v -> get4byte_at b off = Some v.
Proof.
  intros Hb Ho Hv. unfold get4byte_at. rewrite (mem_read_app pre (be32 v) post) by done. cbn -[be32]. by apply be32_value.
Qed.

Lemma split_fields (buf : bytes) :
  length buf = 24%nat -> exists f0 f1 f2 f3 f4, buf = f0 ++ f1 ++ f2 ++ f3 ++ f4 /\
    length f0 = 4%nat /\ length f1 = 4%nat /\ length f2 = 8%nat /\ length f3 = 4%nat /\ length f4 = 4%nat.
Proof.
  intros Hl. exists (take 4 buf), (take 4 (drop 4 buf)), (take 8 (drop 8 buf)), (take 4 (drop 16 buf)), (drop 20 buf).
  rewrite !length_take, !length_drop. split_and!; [|lia..].
  rewrite <- (take_drop 4 buf) at 1. f_equal. rewrite <- (take_drop 4 (drop 4 buf)) at 1. f_equal.
  rewrite drop_drop. rewrite <- (take_drop 8 (drop (4 + 4) buf)) at 1. f_equal.
  rewrite drop_drop. rewrite <- (take_drop 4 (drop _ buf)) at 1. f_equal. by rewrite drop_drop.
Qed.

(** The header of a frame, as six fields of four bytes. *)
Definition frame_hdr (pgno nTruncate : Z) (salt ck : Z * Z) : bytes :=
  be32 pgno ++ be32 nTruncate ++ salt_image salt ++ be32 ck.1 ++ be32 ck.2.

(** The sum after a frame. *)
Definition frame_sum (native : bool) (pgno nTruncate : Z) (data : bytes) (ck : Z * Z) : Z * Z :=
  format_sum (order_words native data)
    (format_sum (order_words native (be32 pgno ++ be32 nTruncate)) ck).

Lemma frame_hdr_length pgno nt salt ck : length (frame_hdr pgno nt salt ck) = 24%nat.
Proof. done. Qed.

(** The pages the checksum can be computed for. *)
Record page_ok (sz : Z) (data : bytes) : Prop := {
  po_len : len data = sz;
  po_bytes : bytes_ok data;
  po_size : 8 <= sz <= 65536 /\ sz mod 8 = 0
}.

Lemma page_read sz data : page_ok sz data -> mem_read data 0 sz = Some data.
Proof.
  intros [<- _ _]. apply (mem_read_app [] data []); [by rewrite app_nil_r|done..].
Qed.

Definition native_of (w : Wal) : bool := bigEndCksum (hdr w) =? SQLITE_BIGENDIAN.

Lemma frame_sum_spec w pgno nt data :
  page_ok (szPage w) data ->
  walChecksumBytes (native_of w) (be32 pgno ++ be32 nt) (Some (aFrameCksum (hdr w))) =
    Some (format_sum (order_words (native_of w) (be32 pgno ++ be32 nt)) (aFrameCksum (hdr w))) /\
  walChecksumBytes (native_of w) data
    (Some (format_sum (order_words (native_of w) (be32 pgno ++ be32 nt)) (aFrameCksum (hdr w)))) =
    Some (frame_sum (native_of w) pgno nt data (aFrameCksum (hdr w))).
Proof.
  intros [Hl Hb [Hs Hm]]. split; rewrite checksum_spec; try done; rewrite ?Hl; try done.
  apply Forall_app. split; apply be32_bytes.
Qed.

Lemma encode_frame_spec w pgno nt data buf :
  page_ok (szPage w) data -> length buf = 24%nat -> iReCksum w = 0 ->
  let ck := frame_sum (native_of w) pgno nt data (aFrameCksum (hdr w)) in
  walEncodeFrame pgno nt data buf w =
    Some (set_hdr (set_aFrameCksum ck (hdr w)) w, frame_hdr pgno nt (aSalt (hdr w)) ck).
Proof.
  intros Hd Hl Hr ck. unfold walEncodeFrame. rewrite Hr. fold (native_of w).
  destruct (split_fields buf Hl) as (f0 & f1 & f2 & f3 & f4 & -> & H0 & H1 & H2 & H3 & H4).
  rewrite (put_app [] f0 pgno (f1 ++ f2 ++ f3 ++ f4)) by done. cbn -[be32 put4byte_at salt_image].
  rewrite (put_app (be32 pgno) f1 nt (f2 ++ f3 ++ f4)) by done. cbn -[be32 put4byte_at salt_image].
  rewrite (mem_write_middle (be32 pgno ++ be32 nt) f2 (salt_image (aSalt (hdr w))) (f3 ++ f4)) by done.
  cbn -[be32 put4byte_at salt_image].
  rewrite (mem_read_app [] (be32 pgno ++ be32 nt) (salt_image (aSalt (hdr w)) ++ f3 ++ f4)) by done.
  destruct (frame_sum_spec w pgno nt data Hd) as [E1 E2]. cbn -[be32 put4byte_at salt_image app].
  rewrite E1. cbn -[be32 put4byte_at salt_image app]. rewrite page_read by done. cbn -[be32 put4byte_at salt_image app].
  rewrite E2. cbn -[be32 put4byte_at salt_image app]. fold ck.
  rewrite (put_app ((be32 pgno ++ be32 nt) ++ salt_image (aSalt (hdr w))) f3 ck.1 f4) by done. cbn -[be32 put4byte_at salt_image app].
  rewrite (put_app (((be32 pgno ++ be32 nt) ++ salt_image (aSalt (hdr w))) ++ be32 ck.1) f4 ck.2 []) by (rewrite ?app_nil_r, <- ?app_assoc; done).
  cbn -[be32 salt_image app]. unfold frame_hdr. by rewrite app_nil_r, <- !app_assoc.
Qed.


Lemma encode_frame_later w pgno nt data buf :
  length buf = 24%nat -> iReCksum w <> 0 ->
  walEncodeFrame pgno nt data buf w = Some (w, be32 pgno ++ be32 nt ++ replicate 16 0).
Proof.
  intros Hl Hr. unfold walEncodeFrame. rewrite (proj2 (Z.eqb_neq _ _) Hr).
  destruct (split_fields buf Hl) as (f0 & f1 & f2 & f3 & f4 & -> & H0 & H1 & H2 & H3 & H4).
  rewrite (put_app [] f0 pgno (f1 ++ f2 ++ f3 ++ f4)) by done. cbn -[be32 put4byte_at mem_set].
  rewrite (put_app (be32 pgno) f1 nt (f2 ++ f3 ++ f4)) by done. cbn -[be32 put4byte_at mem_set].
  unfold mem_set. change (0 <=? 16) with true. cbn iota.
  rewrite (mem_write_middle (be32 pgno ++ be32 nt) (f2 ++ f3 ++ f4) (replicate 16 0) []); [by rewrite <- app_assoc|..].
  - by rewrite app_nil_r, <- !app_assoc.
  - done.
  - rewrite !length_app. simpl. lia.
Qed.

(** A valid frame: its header is the one [walEncodeFrame] writes. *)
Definition frame_valid (w : Wal) (data aFrame : bytes) (pgno nt : Z) : Prop :=
  is_u32 pgno /\ is_u32 nt /\ pgno <> 0 /\
  aFrame = frame_hdr pgno nt (aSalt (hdr w)) (frame_sum (native_of w) pgno nt data (aFrameCksum (hdr w))).

Lemma frame_fields aFrame :
  bytes_ok aFrame -> length aFrame = 24%nat -> exists pgno nt s8 c0 c1,
    aFrame = be32 pgno ++ be32 nt ++ s8 ++ be32 c0 ++ be32 c1 /\ length s8 = 8%nat /\
    is_u32 pgno /\ is_u32 nt /\ is_u32 c0 /\ is_u32 c1.
Proof.
  intros Hb Hl. destruct (split_fields aFrame Hl) as (f0 & f1 & f2 & f3 & f4 & -> & H0 & H1 & H2 & H3 & H4).
  do 4 (apply Forall_app in Hb as [? Hb]).
  destruct (be32_surj f0) as (a & ? & ->), (be32_surj f1) as (b & ? & ->), (be32_surj f3) as (c & ? & ->),
    (be32_surj f4) as (d & ? & ->); [done..|]. by exists a, b, f2, c, d.
Qed.

Lemma be32_inj v v' : is_u32 v -> is_u32 v' -> be32 v = be32 v' -> v = v'.
Proof.
  intros H H' E. pose proof (be32_value v H) as Ev. rewrite E, be32_value in Ev by done. congruence.
Qed.

Lemma hdr_fields_inj a b s c d a' b' s' c' d' :
  length s = length s' ->
  be32 a ++ be32 b ++ s ++ be32 c ++ be32 d = be32 a' ++ be32 b' ++ s' ++ be32 c' ++ be32 d' ->
  be32 a = be32 a' /\ be32 b = be32 b' /\ s = s' /\ be32 c = be32 c' /\ be32 d = be32 d'.
Proof.
  intros Hl E. apply app_inj_1 in E as [E1 E]; [|done]. apply app_inj_1 in E as [E2 E]; [|done].
  apply app_inj_1 in E as [E3 E]; [|done]. by apply app_inj_1 in E as [E4 E5].
Qed.

Lemma frame_sum_range native pgno nt data ck :
  is_u32 ck.1 -> is_u32 ck.2 -> is_u32 (frame_sum native pgno nt data ck).1 /\ is_u32 (frame_sum native pgno nt data ck).2.
Proof. intros H1 H2. destruct (format_sum_range (order_words native (be32 pgno ++ be32 nt)) ck H1 H2). by apply format_sum_range. Qed.

Lemma decode_frame_spec w data aFrame :
  page_ok (szPage w) data -> bytes_ok aFrame -> length aFrame = 24%nat ->
  is_u32 (aFrameCksum (hdr w)).1 -> is_u32 (aFrameCksum (hdr w)).2 ->
  exists c r, walDecodeFrame data aFrame w = Some (set_hdr (set_aFrameCksum c (hdr w)) w, r) /\
    is_u32 c.1 /\ is_u32 c.2 /\
    (forall pgno nt, r = Some (pgno, nt) <-> frame_valid w data aFrame pgno nt) /\
    (forall pgno nt, r = Some (pgno, nt) -> c = frame_sum (native_of w) pgno nt data (aFrameCksum (hdr w))).
Proof.
  intros Hd Hb Hl Hc1 Hc2. destruct (frame_fields aFrame Hb Hl) as (p & n & s8 & c0 & c1 & -> & H8 & Hp & Hn & H0 & H1).
  assert (Ew : w = set_hdr (set_aFrameCksum (aFrameCksum (hdr w)) (hdr w)) w) by (destruct w as [? ? ? ? ? ? ? ? ? ? ? ? [] ? ? ? ?]; done).
  assert (Hinv : forall pgno nt, frame_valid w data (be32 p ++ be32 n ++ s8 ++ be32 c0 ++ be32 c1) pgno nt ->
            pgno = p /\ nt = n /\ s8 = salt_image (aSalt (hdr w)) /\
            (c0, c1) = frame_sum (native_of w) p n data (aFrameCksum (hdr w)) /\ p <> 0).
  { intros pgno nt (Hp' & Hn' & Hp0 & E). apply hdr_fields_inj in E as (E1 & E2 & -> & E3 & E4); [|done].
    apply be32_inj in E1 as <-; [|done..]. apply be32_inj in E2 as <-; [|done..].
    destruct (frame_sum_range (native_of w) p n data (aFrameCksum (hdr w)) Hc1 Hc2).
    apply be32_inj in E3 as ->; [|done..]. apply be32_inj in E4 as ->; [|done..]. by destruct (frame_sum _ _ _ _ _). }
  unfold walDecodeFrame. fold (native_of w).
  rewrite (mem_read_app (be32 p ++ be32 n) s8 (be32 c0 ++ be32 c1)) by (done || (by rewrite <- app_assoc) || lia).
  cbn -[get4byte_at be32 mem_read app]. case_bool_decide as Es; cbn -[get4byte_at be32 mem_read app].
  2:{ eexists _, None. split; [by rewrite <- Ew|]. split_and!; [done..| |done]. intros pgno nt. split; [done|].
      intros (_ & _ & E & _)%Hinv. congruence. }
  subst s8. rewrite (get_app [] p (be32 n ++ salt_image (aSalt (hdr w)) ++ be32 c0 ++ be32 c1)) by done.
  cbn -[get4byte_at be32 mem_read app]. destruct (Z.eqb_spec p 0) as [E0|E0].
  { eexists _, None. split; [by rewrite <- Ew|]. split_and!; [done..| |done]. intros pgno nt. split; [done|].
    by intros (_ & _ & _ & _ & ?)%Hinv. }
  destruct Hd as [Hdl Hdb [Hds Hdm]] eqn:Ed. clear Ed. rewrite (proj2 (Z.eqb_neq _ _)) by lia.
  rewrite (mem_read_app [] (be32 p ++ be32 n) (salt_image (aSalt (hdr w)) ++ be32 c0 ++ be32 c1)) by done.
  destruct (frame_sum_spec w p n data) as [E1 E2]; [done|]. cbn -[get4byte_at be32 mem_read app]. rewrite E1.
  cbn -[get4byte_at be32 mem_read app]. rewrite page_read by done. cbn -[get4byte_at be32 mem_read app]. rewrite E2.
  cbn -[get4byte_at be32 mem_read app]. set (ck := frame_sum _ _ _ _ _) in *.
  destruct (frame_sum_range (native_of w) p n data (aFrameCksum (hdr w)) Hc1 Hc2) as [Hk1 Hk2]. fold ck in Hk1, Hk2.
  rewrite (get_app ((be32 p ++ be32 n) ++ salt_image (aSalt (hdr w))) c0 (be32 c1)) by done. cbn -[get4byte_at be32 mem_read app].
  rewrite (get_app (((be32 p ++ be32 n) ++ salt_image (aSalt (hdr w))) ++ be32 c0) c1 []) by done. cbn -[get4byte_at be32 mem_read app].
  exists ck. destruct (Z.eqb_spec ck.1 c0) as [E3|E3]; cbn -[get4byte_at be32].
  1: destruct (Z.eqb_spec ck.2 c1) as [E4|E4]; cbn -[get4byte_at be32].
  - rewrite (get_app (be32 p) n (salt_image (aSalt (hdr w)) ++ be32 c0 ++ be32 c1)) by done. cbn.
    eexists. split; [done|]. split_and!; [done..| |by intros pgno nt [= <- <-]]. intros pgno nt. split.
    + intros [= <- <-]. split_and!; [done..|]. fold ck. rewrite <- E3, <- E4. done.
    + by intros (-> & -> & _)%Hinv.
  - exists None. split; [done|]. split_and!; [done..| |done]. intros pgno nt. split; [done|].
    intros (_ & _ & _ & E & _)%Hinv. destruct E4. by rewrite <- E.
  - exists None. split; [done|]. split_and!; [done..| |done]. intros pgno nt. split; [done|].
    intros (_ & _ & _ & E & _)%Hinv. destruct E3. by rewrite <- E.
Qed.

Lemma salt_image_bytes s : bytes_ok (salt_image s).
Proof. apply Forall_app. split; apply le32_bytes. Qed.

Lemma frame_hdr_bytes pgno nt salt ck : bytes_ok (frame_hdr pgno nt salt ck).
Proof.
  unfold frame_hdr. repeat first [apply be32_bytes|apply salt_image_bytes|apply Forall_app; split].
Qed.

(** The header as three groups of eight bytes. *)
Lemma frame_hdr_groups pgno nt salt ck :
  frame_hdr pgno nt salt ck = (be32 pgno ++ be32 nt) ++ salt_image salt ++ (be32 ck.1 ++ be32 ck.2).
Proof. unfold frame_hdr. by rewrite <- app_assoc. Qed.

Lemma be32_pair_inj a b a' b' :
  is_u32 a -> is_u32 b -> is_u32 a' -> is_u32 b' -> be32 a ++ be32 b = be32 a' ++ be32 b' -> a = a' /\ b = b'.
Proof.
  intros Ha Hb Ha' Hb' E. apply app_inj_1 in E as [E1 E2]; [|done]. split; by apply be32_inj.
Qed.

(** Two frames that are valid in one state have the same sum only if they have the same
    page number and size, for the same data. *)
Lemma frame_sum_fields native p n p' n' data ck :
  is_u32 ck.1 -> is_u32 ck.2 -> frame_sum native p n data ck = frame_sum native p' n' data ck ->
  be32 p ++ be32 n = be32 p' ++ be32 n'.
Proof.
  intros H1 H2 E. pose proof (format_sum_range (order_words native (be32 p ++ be32 n)) ck H1 H2) as [? ?].
  pose proof (format_sum_range (order_words native (be32 p' ++ be32 n')) ck H1 H2) as [? ?].
  apply format_sum_inj in E; [|done..].
  assert (Hb : forall a b, bytes_ok (be32 a ++ be32 b)) by (intros; apply Forall_app; split; apply be32_bytes).
  apply (sum_detects native [] _ _ [] ck); [done..|]. by rewrite !app_nil_r.
Qed.

Lemma groups_split (a b c d : bytes) :
  length a = 8%nat -> length b = 8%nat -> length c = 8%nat ->
  take 24 (a ++ b ++ c ++ d) = a ++ b ++ c /\ drop 24 (a ++ b ++ c ++ d) = d.
Proof.
  intros Ha Hb Hc. rewrite !app_assoc.
  assert (H : length ((a ++ b) ++ c) = 24%nat) by (rewrite !length_app; lia).
  rewrite <- H. by rewrite take_app_length, drop_app_length.
Qed.

Lemma three_groups (a b c d pre g post : bytes) :
  length a = 8%nat -> length b = 8%nat -> length c = 8%nat -> len g = 8 ->
  pre = [] \/ length pre = 8%nat \/ length pre = 16%nat ->
  (a ++ b ++ c) ++ d = pre ++ g ++ post ->
  pre = [] /\ g = a /\ post = b ++ c ++ d \/
  pre = a /\ g = b /\ post = c ++ d \/ pre = a ++ b /\ g = c /\ post = d.
Proof.
  intros Ha Hb Hc Hg Hp E. rewrite <- !app_assoc in E. destruct Hp as [->|[Hp|Hp]].
  - left. cbn [app] in E. apply app_inj_1 in E as [<- <-]; [done|lia].
  - right; left. apply app_inj_1 in E as [<- E]; [|lia]. by apply app_inj_1 in E as [<- <-]; [|lia].
  - right; right. rewrite app_assoc in E. apply app_inj_1 in E as [<- E]; [|rewrite length_app; lia].
    by apply app_inj_1 in E as [<- <-]; [|lia].
Qed.

(** Two valid frames of one state that agree but for a group of eight bytes are equal. *)
Lemma valid_group_eq w pgno nt data p n pre g g' post :
  let f := frame_hdr pgno nt (aSalt (hdr w)) (frame_sum (native_of w) pgno nt data (aFrameCksum (hdr w))) in
  is_u32 pgno -> is_u32 nt -> bytes_ok data -> is_u32 (aFrameCksum (hdr w)).1 -> is_u32 (aFrameCksum (hdr w)).2 ->
  f ++ data = pre ++ g ++ post -> bytes_ok g' -> len pre mod 8 = 0 -> len g = 8 -> len g' = 8 ->
  frame_valid w (drop 24 (pre ++ g' ++ post)) (take 24 (pre ++ g' ++ post)) p n -> g = g'.
Proof.
  intros f Hp Hn Hd Hc1 Hc2 E Hg' Hm Hl Hl' (Hp' & Hn' & _ & Ef).
  set (ck := aFrameCksum (hdr w)) in *. set (nat := native_of w) in *. set (salt := aSalt (hdr w)) in *.
  destruct (frame_sum_range nat pgno nt data ck Hc1 Hc2) as [Hs1 Hs2].
  assert (Hlf : length f = 24%nat) by done.
  assert (Hcases : 24 <= len pre \/ pre = [] \/ length pre = 8%nat \/ length pre = 16%nat).
  { destruct pre; [by auto|]. simpl length in *. Z.div_mod_to_equations. lia. }
  destruct Hcases as [Hge|Hlt].
  { (* the page *)
    assert (exists pre', pre = f ++ pre' /\ data = pre' ++ g ++ post) as (pre' & -> & ->).
    { exists (drop 24 pre). rewrite <- (take_drop 24 pre) in E at 1. rewrite <- app_assoc in E.
      apply app_inj_1 in E as [E1 E2]; [|rewrite length_take; lia]. split; [|done]. by rewrite E1, take_drop. }
    rewrite <- app_assoc in Ef. rewrite take_app_le, (take_ge f), drop_app_ge, Hlf, Nat.sub_diag, drop_0 in Ef by lia.
    unfold f in Ef. rewrite !frame_hdr_groups in Ef. apply app_inj_1 in Ef as [E1 Ef]; [|done].
    apply app_inj_1 in Ef as [_ E2]; [|done]. apply be32_pair_inj in E1 as [-> ->]; [|done..].
    destruct (frame_sum_range nat p n (pre' ++ g' ++ post) ck Hc1 Hc2).
    apply be32_pair_inj in E2 as [E2 E3]; [|done..]. apply Forall_app in Hd as [_ [Hgb _]%Forall_app].
    rewrite length_app, Hlf in Hm.
    destruct (format_sum_range (order_words nat (be32 p ++ be32 n)) ck Hc1 Hc2).
    eapply (sum_detects nat pre' g g' post); [done|done|Z.div_mod_to_equations; lia|done|done|done|done|].
    unfold frame_sum in E2, E3. by apply injective_projections. }
  unfold f in E. rewrite frame_hdr_groups in E.
  destruct (three_groups (be32 pgno ++ be32 nt) (salt_image salt)
    (be32 (frame_sum nat pgno nt data ck).1 ++ be32 (frame_sum nat pgno nt data ck).2) data pre g post)
    as [(-> & -> & ->)|[(-> & -> & ->)|(-> & -> & ->)]]; [done..| | |].
  - (* page number and size *)
    destruct (groups_split g' (salt_image salt)
      (be32 (frame_sum nat pgno nt data ck).1 ++ be32 (frame_sum nat pgno nt data ck).2) data) as [Et Ed]; [lia|done..|].
    cbn [app] in Ef. rewrite Et, Ed, frame_hdr_groups in Ef. apply app_inj_1 in Ef as [-> Ef]; [|simpl; lia].
    apply app_inj_1 in Ef as [_ E2]; [|done]. destruct (frame_sum_range nat p n data ck Hc1 Hc2).
    apply be32_pair_inj in E2 as [E2 E3]; [|done..].
    apply (frame_sum_fields nat _ _ _ _ data ck); [done..|]. by apply injective_projections.
  - (* salt *)
    destruct (groups_split (be32 pgno ++ be32 nt) g'
      (be32 (frame_sum nat pgno nt data ck).1 ++ be32 (frame_sum nat pgno nt data ck).2) data) as [Et Ed]; [done|lia|done|].
    rewrite Et, frame_hdr_groups in Ef. apply app_inj_1 in Ef as [_ Ef]; [|done].
    by apply app_inj_1 in Ef as [-> _]; [|simpl; lia].
  - (* checksum *)
    destruct (groups_split (be32 pgno ++ be32 nt) (salt_image salt) g' data) as [Et Ed]; [done|done|lia|].
    rewrite <- app_assoc, Et, Ed, frame_hdr_groups in Ef. apply app_inj_1 in Ef as [E1 Ef]; [|done].
    apply be32_pair_inj in E1 as [-> ->]; [|done..]. by apply app_inj_1 in Ef as [_ ->].
Qed.

(** Frames of the log. A frame that [walEncodeFrame] has written is accepted by
    [walDecodeFrame] in the state the writer was in, with its page number and size, and leaves
    the same running checksum. If one aligned group of eight bytes of the frame, in the header
    or in the page, is replaced by a different one, the frame is refused. *)
Theorem frame_roundtrip w pgno nt data buf :
  page_ok (szPage w) data -> is_u32 pgno -> is_u32 nt -> pgno <> 0 -> length buf = 24%nat ->
  is_u32 (aFrameCksum (hdr w)).1 -> is_u32 (aFrameCksum (hdr w)).2 -> iReCksum w = 0 ->
  exists w' aFrame, walEncodeFrame pgno nt data buf w = Some (w', aFrame) /\
    walDecodeFrame data aFrame w = Some (w', Some (pgno, nt)) /\
    forall pre g g' post, aFrame ++ data = pre ++ g ++ post -> bytes_ok g' ->
      len pre mod 8 = 0 -> len g = 8 -> len g' = 8 -> g <> g' ->
      exists w'', walDecodeFrame (drop 24 (pre ++ g' ++ post)) (take 24 (pre ++ g' ++ post)) w = Some (w'', None).
Proof.
  intros Hd Hp Hn Hp0 Hl Hc1 Hc2 Hr. rewrite encode_frame_spec by done. eexists _, _. split; [done|].
  set (ck := frame_sum _ _ _ _ _). set (f := frame_hdr _ _ _ _). split.
  - destruct (decode_frame_spec w data f Hd) as (c & r & E & _ & _ & Hv & Hc); [apply frame_hdr_bytes|done..|].
    assert (r = Some (pgno, nt)) as -> by by apply Hv. by rewrite E, (Hc _ _ eq_refl).
  - intros pre g g' post E Hg' Hm Hlg Hlg' Hne.
    assert (Hall : bytes_ok (pre ++ g' ++ post) /\ len (pre ++ g' ++ post) = 24 + szPage w).
    { assert (Hb : bytes_ok (f ++ data)) by (apply Forall_app; split; [apply frame_hdr_bytes|apply Hd]).
      assert (Hlen : len (f ++ data) = 24 + szPage w) by (rewrite length_app, Nat2Z.inj_add, (po_len _ _ Hd); done).
      rewrite E in Hb, Hlen. apply Forall_app in Hb as [? [_ ?]%Forall_app]. rewrite !length_app in *.
      split; [|lia]. apply Forall_app. split; [done|]. by apply Forall_app. }
    destruct Hall as [Hb Hlen].
    destruct (decode_frame_spec w (drop 24 (pre ++ g' ++ post)) (take 24 (pre ++ g' ++ post)))
      as (c & [[p n]|] & E' & _ & _ & Hv & _); [|by apply Forall_take|rewrite length_take; pose proof (po_size _ _ Hd); lia|done|done| |by eauto].
    { split; [rewrite length_drop; pose proof (po_size _ _ Hd); lia|by apply Forall_drop|apply Hd]. }
    destruct Hne. apply (valid_group_eq w pgno nt data p n pre g g' post); try done; [apply Hd|]. by apply Hv.
Qed.

Definition demo_wal : Wal :=
  WalRec (-1) [] 512 1 0 1 0 0 0 1 0 0 (Hdr 3007000 0 7 1 0 512 2 9 (11, 22) (33, 44) (0, 0)) 1 0 0 0.

Lemma frame_roundtrip_witness :
  exists w' aFrame, walEncodeFrame 3 9 (replicate 512 65) (replicate 24 0) demo_wal = Some (w', aFrame) /\
    walDecodeFrame (replicate 512 65) aFrame demo_wal = Some (w', Some (3, 9)).
Proof.
  destruct (frame_roundtrip demo_wal 3 9 (replicate 512 65) (replicate 24 0)) as (w' & aFrame & H1 & H2 & _);
    [|done..|by exists w', aFrame].
  split; [done|by apply Forall_replicate|done].
Defined.
End WalFrames.
