(* ===== verification/WalWrite.v ===== *)
(** * Write-ahead log: writing frames (src/wal.c)

    The writer's side of the log file.

    - [walWriteToLog], [walWriteOneFrame], [walRewriteChecksums], [walRestartLog],
      [walLimitSize], [walFrames], [sqlite3WalReadFrame].
    - The file is its contents and the answers the operating system is going to give to the
      calls on it, one per call; a write that fails leaves arbitrary bytes in its range.
    - The codec, that is [sqlcipherPagerCodec], is a parameter: what is written is the
      encrypted page. So is the loop over [walTryBeginRead] in [walRestartLog]. *)

From stdpp Require Import list gmap.
From S2P Require Import Prelude Varint WalData WalIndex WalTxn WalFrame.
Import WalTypes WalIndexes WalTxns WalFrames.
Local Open Scope Z_scope.

Module WalWrites.

(** ** The file *)

Record answer := Answer { an_rc : Z; an_bytes : bytes }.
Record File := FileRec { content : bytes; script : list answer }.

Definition SQLITE_IOERR_SHORT_READ : Z := 522.

Definition next_answer (f : File) : answer * File :=
  match script f with
  | [] => (Answer SQLITE_OK [], f)
  | a :: r => (a, FileRec (content f) r)
  end.

(** The file after [d] has been stored at [off], extended with zeros if necessary. *)
Definition store (c : bytes) (off : Z) (d : bytes) : bytes :=
  let c := c ++ replicate (Z.to_nat (off - len c)) 0 in
  take (Z.to_nat off) c ++ d ++ drop (Z.to_nat off + length d) c.

Definition sqlite3OsWrite (d : bytes) (off : Z) (f : File) : File * Z :=
  let '(a, f) := next_answer f in
  if an_rc a =? SQLITE_OK then (FileRec (store (content f) off d) (script f), SQLITE_OK)
  else (FileRec (store (content f) off (take (length d) (an_bytes a))) (script f), an_rc a).

(** The bytes in the buffer after a read that failed are those of the answer; after a
    short read the rest of the buffer is zero. *)
Definition sqlite3OsRead (n off : Z) (f : File) : File * Z * bytes :=
  let '(a, f) := next_answer f in
  let pad l := take (Z.to_nat n) (l ++ replicate (Z.to_nat n) 0) in
  if an_rc a =? SQLITE_OK then
    let got := take (Z.to_nat n) (drop (Z.to_nat off) (content f)) in
    if len got =? n then (f, SQLITE_OK, got) else (f, SQLITE_IOERR_SHORT_READ, pad got)
  else (f, an_rc a, pad (an_bytes a)).

Definition sqlite3OsSync (f : File) : File * Z :=
  let '(a, f) := next_answer f in (f, an_rc a).

Definition sqlite3OsFileSize (f : File) : File * Z * Z :=
  let '(a, f) := next_answer f in (f, an_rc a, len (content f)).

Definition sqlite3OsTruncate (n : Z) (f : File) : File * Z :=
  let '(a, f) := next_answer f in
  if an_rc a =? SQLITE_OK then (FileRec (take (Z.to_nat n) (content f)) (script f), SQLITE_OK)
  else (f, an_rc a).

(** ** Operations *)

Definition WAL_SYNC_FLAGS (x : Z) : Z := Z.land x 3.
Definition CKPT_SYNC_FLAGS (x : Z) : Z := Z.land (Z.shiftr x 2) 3.

(** A dirty page of the pager: [pg_append] is the flag PGHDR_WAL_APPEND. *)
Record PgHdr := Dirty { pgno : Z; pData : bytes; pg_append : bool }.

Definition set_append (b : bool) (p : PgHdr) : PgHdr := Dirty (pgno p) (pData p) b.

(** The connection with the file. *)
Record WSt := WS { st : St; fd : File }.

Definition with_wal (f : Wal -> Wal) (x : WSt) : WSt := WS (on_wal f (st x)) (fd x).
Definition with_hdr (f : WalIndexHdr -> WalIndexHdr) (x : WSt) : WSt := WS (on_hdr f (st x)) (fd x).
Definition with_fd (f : File) (x : WSt) : WSt := WS (st x) f.
Definition the_wal (x : WSt) : Wal := wal (st x).

Definition walWriteToLog (iSyncPoint syncFlags : Z) (pContent : bytes) (iOffset : Z) (f : File)
  : option (File * Z) :=
  let iAmt := len pContent in
  if (iOffset <? iSyncPoint) && (iSyncPoint <=? iOffset + iAmt) then
    let iFirstAmt := i32 (iSyncPoint - iOffset) in
    let '(f, rc) := sqlite3OsWrite (take (Z.to_nat iFirstAmt) pContent) iOffset f in
    if rc <>? 0 then Some (f, rc) else
    if WAL_SYNC_FLAGS syncFlags =? 0 then None else
    let '(f, rc) := sqlite3OsSync f in
    if (iAmt - iFirstAmt =? 0) || (rc <>? 0) then Some (f, rc)
    else Some (sqlite3OsWrite (drop (Z.to_nat iFirstAmt) pContent) (iOffset + iFirstAmt) f)
  else Some (sqlite3OsWrite pContent iOffset f).

(** The frame header is assembled in a local buffer. *)
Definition walWriteOneFrame (codec : Z -> bytes -> option bytes) (iSyncPoint syncFlags sz : Z)
  (p : PgHdr) (nTruncate iOffset : Z) (x : WSt) : option (WSt * Z) :=
  match codec (pgno p) (pData p) with
  | None => Some (x, SQLITE_NOMEM)
  | Some d =>
      let? (w, aFrame) := walEncodeFrame (pgno p) nTruncate d (replicate 24 0) (the_wal x) in
      let x := with_wal (fun _ => w) x in
      let? (f, rc) := walWriteToLog iSyncPoint syncFlags aFrame iOffset (fd x) in
      let x := with_fd f x in
      if rc <>? 0 then Some (x, rc) else
      let? d := mem_read d 0 sz in
      let? (f, rc) := walWriteToLog iSyncPoint syncFlags d (iOffset + 24) (fd x) in
      Some (with_fd f x, rc)
  end.

(** The loop over the frames [iRead] .. [iLast]; [n] is their number. *)
Fixpoint rewrite_frames (n : nat) (sz iRead : Z) (x : WSt) : option (WSt * Z) :=
  match n with
  | O => Some (x, SQLITE_OK)
  | S n =>
      let iOff := walFrameOffset iRead sz in
      let '(f, rc, aBuf) := sqlite3OsRead (sz + WAL_FRAME_HDRSIZE) iOff (fd x) in
      let x := with_fd f x in
      if rc <>? SQLITE_OK then Some (x, rc) else
      let? iPgno := get4byte_at aBuf 0 in
      let? nDbSize := get4byte_at aBuf 4 in
      let? (w, aFrame) := walEncodeFrame iPgno nDbSize (drop 24 aBuf) (replicate 24 0) (the_wal x) in
      let x := with_wal (fun _ => w) x in
      let '(f, rc) := sqlite3OsWrite aFrame iOff (fd x) in
      let x := with_fd f x in
      if rc <>? SQLITE_OK then Some (x, rc) else rewrite_frames n sz (iRead + 1) x
  end.

(** [mem] is whether the buffer can be allocated. *)
Definition walRewriteChecksums (mem : bool) (iLast : Z) (x : WSt) : option (WSt * Z) :=
  let sz := szPage (the_wal x) in
  if negb mem then Some (x, SQLITE_NOMEM) else
  let iRead := iReCksum (the_wal x) in
  if iRead <=? 0 then None else
  let iCksumOff := if iRead =? 1 then 24 else walFrameOffset (iRead - 1) sz + 16 in
  let '(f, rc, aBuf) := sqlite3OsRead 8 iCksumOff (fd x) in
  let? c0 := get4byte_at aBuf 0 in
  let? c1 := get4byte_at aBuf 4 in
  let x := with_wal (set_iReCksum 0) (with_hdr (set_aFrameCksum (c0, c1)) (with_fd f x)) in
  if rc <>? SQLITE_OK then Some (x, rc)
  else rewrite_frames (Z.to_nat (iLast - iRead + 1)) sz iRead x.

(** The answers of the environment to one call of [walFrames]: the codec, the pages of the
    index, the random numbers, the exclusive lock on the readers' marks, the loop over
    [walTryBeginRead], the allocation in [walRewriteChecksums], the sector size. *)
Record frames_env := FramesEnv {
  fe_codec : Z -> bytes -> option bytes;
  fe_pages : page_env;
  fe_salt1 : Z;
  fe_salt : Z * Z;
  fe_lock : Z;
  fe_begin_read : St -> option (St * Z);
  fe_malloc : bool;
  fe_sector : Z
}.

Definition walRestartLog (e : frames_env) (s : St) : option (St * Z) :=
  if readLock (wal s) =? 0 then
    let? nBackfill := walCkptInfo_get ckpt_nBackfill s in
    if nBackfill <>? mxFrame (hdr (wal s)) then None else
    let? (s, rc) :=
      (if 0 <? nBackfill then
         let rc := walLockExclusive (fe_lock e) s in
         if rc =? SQLITE_OK then
           let? s := walRestartHdr (fe_salt1 e) s in Some (s, SQLITE_OK)
         else if rc <>? SQLITE_BUSY then Some (s, rc) else Some (s, SQLITE_OK)
       else Some (s, SQLITE_OK)) in
    if rc <>? SQLITE_OK then Some (s, rc) else
    fe_begin_read e (on_wal (set_readLock (-1)) s)
  else Some (s, SQLITE_OK).

Definition walLimitSize (nMax : Z) (f : File) : File :=
  let '(f, rx, sz) := sqlite3OsFileSize f in
  if (rx =? SQLITE_OK) && (nMax <? sz) then (sqlite3OsTruncate nMax f).1 else f.

(** The header of the log, with its checksum. *)
Definition build_wal_header (sz ckpt : Z) (salt : Z * Z) : option (bytes * (Z * Z)) :=
  let? b := put4byte_at (replicate 32 0) 0 (Z.lor WAL_MAGIC SQLITE_BIGENDIAN) in
  let? b := put4byte_at b 4 WAL_MAX_VERSION in
  let? b := put4byte_at b 8 sz in
  let? b := put4byte_at b 12 ckpt in
  let? b := mem_write b 16 (salt_image salt) in
  let? h := mem_read b 0 (WAL_HDRSIZE - 2 * 4) in
  let? ck := walChecksumBytes true h None in
  let? b := put4byte_at b 24 ck.1 in
  let? b := put4byte_at b 28 ck.2 in
  Some (b, ck).

(** The part of [walFrames] that writes the header before the first frame. *)
Definition write_wal_header (e : frames_env) (sz sync_flags : Z) (x : WSt) : option (WSt * Z) :=
  let x := if nCkpt (the_wal x) =? 0 then with_hdr (set_aSalt (fe_salt e)) x else x in
  let? (b, ck) := build_wal_header sz (nCkpt (the_wal x)) (aSalt (hdr (the_wal x))) in
  let x := with_wal (set_szPage sz) x in
  let x := with_hdr (set_bigEndCksum SQLITE_BIGENDIAN) x in
  let x := with_hdr (set_aFrameCksum ck) x in
  let x := with_wal (set_truncateOnCommit 1) x in
  let '(f, rc) := sqlite3OsWrite b 0 (fd x) in
  let x := with_fd f x in
  if rc <>? SQLITE_OK then Some (x, rc) else
  if syncHeader (the_wal x) <>? 0 then
    let '(f, rc) := sqlite3OsSync (fd x) in Some (with_fd f x, rc)
  else Some (x, SQLITE_OK).

Definition is_nil {A} (l : list A) : bool := match l with [] => true | _ => false end.

(** The loop that writes all pages into the log, over existing frames of the transaction
    where possible. It returns the pages with their new flags, the number of the last frame,
    the offset after it, and the page that was appended last. *)
Fixpoint write_frames (e : frames_env) (sz nTruncate isCommit sync_flags iFirst : Z)
  (pList : list PgHdr) (iFrame iOffset : Z) (pLast : option PgHdr) (x : WSt)
  : option (WSt * Z * list PgHdr * Z * Z * option PgHdr) :=
  match pList with
  | [] => Some (x, SQLITE_OK, [], iFrame, iOffset, pLast)
  | p :: rest =>
      let isLast := is_nil rest in
      let? (x, iWrite) :=
        (if (iFirst <>? 0) && (negb isLast || (isCommit =? 0)) then
           let? (s, _, iWrite) := walFindFrame (fe_pages e) (pgno p) (st x) in
           Some (WS s (fd x), iWrite)
         else Some (x, 0)) in
      if (iFirst <>? 0) && (negb isLast || (isCommit =? 0)) && (iFirst <=? iWrite) then
        let iOff := walFrameOffset iWrite sz + WAL_FRAME_HDRSIZE in
        let r := iReCksum (the_wal x) in
        let x := if (r =? 0) || (iWrite <? r) then with_wal (set_iReCksum iWrite) x else x in
        match fe_codec e (pgno p) (pData p) with
        | None => Some (x, SQLITE_NOMEM, pList, iFrame, iOffset, pLast)
        | Some d =>
            let? d := mem_read d 0 sz in
            let '(f, rc) := sqlite3OsWrite d iOff (fd x) in
            let x := with_fd f x in
            if rc <>? 0 then Some (x, rc, pList, iFrame, iOffset, pLast) else
            let? (x, rc, l, iFrame, iOffset, pLast) :=
              write_frames e sz nTruncate isCommit sync_flags iFirst rest iFrame iOffset pLast x in
            Some (x, rc, set_append false p :: l, iFrame, iOffset, pLast)
        end
      else
        let iFrame := iFrame + 1 in
        if iOffset <>? walFrameOffset iFrame sz then None else
        let nDbSize := if (isCommit <>? 0) && isLast then nTruncate else 0 in
        let? (x, rc) := walWriteOneFrame (fe_codec e) 0 sync_flags sz p nDbSize iOffset x in
        if rc <>? 0 then Some (x, rc, pList, iFrame, iOffset, pLast) else
        let? (x, rc, l, iFrame, iOffset, pLast) :=
          write_frames e sz nTruncate isCommit sync_flags iFirst rest iFrame
            (iOffset + (sz + WAL_FRAME_HDRSIZE)) (Some p) x in
        Some (x, rc, set_append true p :: l, iFrame, iOffset, pLast)
  end.

(** The loop that repeats the last frame up to the end of the sector; its fuel is the
    number of bytes to fill. *)
Fixpoint pad_frames (fuel : nat) (e : frames_env) (sz nTruncate sync_flags iSyncPoint iOffset nExtra : Z)
  (pLast : option PgHdr) (x : WSt) : option (WSt * Z * Z) :=
  if iOffset <? iSyncPoint then
    match fuel with
    | O => None
    | S fuel =>
        let? p := pLast in
        let? (x, rc) := walWriteOneFrame (fe_codec e) iSyncPoint sync_flags sz p nTruncate iOffset x in
        if rc <>? 0 then Some (x, rc, nExtra)
        else pad_frames fuel e sz nTruncate sync_flags iSyncPoint (iOffset + (sz + WAL_FRAME_HDRSIZE)) (nExtra + 1) pLast x
    end
  else Some (x, SQLITE_OK, nExtra).

(** [sqlite3SectorSize] of src/pager.c *)
Definition sqlite3SectorSize (iRet : Z) : Z :=
  if iRet <? 32 then 512 else if 0x10000 <? iRet then 0x10000 else iRet.

(** The entries of the appended frames in the wal-index. *)
Fixpoint append_index (e : page_env) (l : list Z) (iFrame : Z) (s : St) : option (St * Z * Z) :=
  match l with
  | [] => Some (s, SQLITE_OK, iFrame)
  | x :: l =>
      let iFrame := iFrame + 1 in
      let? (s, rc) := walIndexAppend e iFrame x s in
      if rc <>? SQLITE_OK then Some (s, rc, iFrame) else append_index e l iFrame s
  end.

(** The parts of [walFrames] after the frames have been written. First the padding and the
    sync of a commit: the last component of the result is true where the code returns at
    once. *)
Definition frames_sync (e : frames_env) (sz nTruncate isCommit sync_flags iOffset : Z) (pLast : option PgHdr)
  (x : WSt) : option (WSt * Z * Z * bool) :=
  if (isCommit <>? 0) && (WAL_SYNC_FLAGS sync_flags <>? 0) then
    let? (x, rc, nExtra, bSync) :=
      (if padToSectorBoundary (the_wal x) <>? 0 then
         let sectorSize := sqlite3SectorSize (fe_sector e) in
         let iSyncPoint := (iOffset + sectorSize - 1) / sectorSize * sectorSize in
         let? (x, rc, nExtra) :=
           pad_frames (Z.to_nat (iSyncPoint - iOffset)) e sz nTruncate sync_flags iSyncPoint iOffset 0 pLast x in
         Some (x, rc, nExtra, iSyncPoint =? iOffset)
       else Some (x, SQLITE_OK, 0, true)) in
    if rc <>? 0 then Some (x, rc, nExtra, true) else
    if bSync then
      let '(f, rc) := sqlite3OsSync (fd x) in Some (with_fd f x, rc, nExtra, false)
    else Some (x, rc, nExtra, false)
  else Some (x, SQLITE_OK, 0, false).

(** The truncation of the log to the limit of its size. *)
Definition frames_limit (sz isCommit iEnd : Z) (x : WSt) : WSt :=
  if (isCommit <>? 0) && (truncateOnCommit (the_wal x) <>? 0) && (0 <=? mxWalSize (the_wal x)) then
    let sz1 := walFrameOffset iEnd sz in
    let sz2 := if mxWalSize (the_wal x) <? sz1 then sz1 else mxWalSize (the_wal x) in
    with_wal (set_truncateOnCommit 0) (with_fd (walLimitSize sz2 (fd x)) x)
  else x.

(** The index and the headers. *)
Definition frames_index (e : frames_env) (sz nTruncate isCommit : Z) (l : list Z) (x : WSt) : option (WSt * Z) :=
  let? (s, rc, iFrame) := append_index (fe_pages e) l (mxFrame (hdr (the_wal x))) (st x) in
  let x := WS s (fd x) in
  if rc <>? SQLITE_OK then Some (x, rc) else
  let x := with_hdr (set_hdr_szPage (u16 (Z.lor (Z.land sz 0xff00) (Z.shiftr sz 16)))) x in
  let x := with_hdr (set_mxFrame iFrame) x in
  if isCommit <>? 0 then
    let x := with_hdr (fun h => set_nPage nTruncate (set_iChange (u32 (iChange h + 1)) h)) x in
    let? s := walIndexWriteHdr (st x) in
    Some (with_wal (set_iCallback iFrame) (WS s (fd x)), SQLITE_OK)
  else Some (x, SQLITE_OK).

(** All of [walFrames] after the loop over the pages. *)
Definition frames_finish (e : frames_env) (sz nTruncate isCommit sync_flags : Z) (pList : list PgHdr)
  (iFrame iOffset : Z) (pLast : option PgHdr) (x : WSt) : option (WSt * Z) :=
  let? (x, rc) :=
    (if (isCommit <>? 0) && (iReCksum (the_wal x) <>? 0) then walRewriteChecksums (fe_malloc e) iFrame x
     else Some (x, SQLITE_OK)) in
  if rc <>? SQLITE_OK then Some (x, rc) else
  let? (x, rc, nExtra, stop) := frames_sync e sz nTruncate isCommit sync_flags iOffset pLast x in
  if stop then Some (x, rc) else
  let x := frames_limit sz isCommit (iFrame + nExtra + 1) x in
  let appended := pgno <$> filter (fun p => pg_append p = true) pList in
  let? extra := (if nExtra =? 0 then Some [] else let? p := pLast in Some (replicate (Z.to_nat nExtra) (pgno p))) in
  if rc <>? SQLITE_OK then Some (x, rc) else
  frames_index e sz nTruncate isCommit (appended ++ extra) x.

Definition walFrames (e : frames_env) (sz : Z) (pList : list PgHdr) (nTruncate isCommit sync_flags : Z)
  (x : WSt) : option (WSt * Z) :=
  if (writeLock (the_wal x) =? 0) || negb (eqb (isCommit <>? 0) (nTruncate <>? 0)) || is_nil pList then None else
  let? pLive := walIndexHdr (st x) in
  let iFirst := if bool_decide (hdr_words (hdr (the_wal x)) = hdr_words pLive) then 0 else u32 (mxFrame pLive + 1) in
  let? (s, rc) := walRestartLog e (st x) in
  let x := WS s (fd x) in
  if rc <>? SQLITE_OK then Some (x, rc) else
  let iFrame := mxFrame (hdr (the_wal x)) in
  let? (x, rc) := (if iFrame =? 0 then write_wal_header e sz sync_flags x else Some (x, SQLITE_OK)) in
  if rc <>? SQLITE_OK then Some (x, rc) else
  if szPage (the_wal x) <>? sz then Some (x, SQLITE_CORRUPT) else
  let iOffset := walFrameOffset (iFrame + 1) sz in
  let? (x, rc, pList, iFrame, iOffset, pLast) :=
    write_frames e sz nTruncate isCommit sync_flags iFirst pList iFrame iOffset None x in
  if rc <>? SQLITE_OK then Some (x, rc) else
  frames_finish e sz nTruncate isCommit sync_flags pList iFrame iOffset pLast x.

(** The buffer of [nOut] bytes is the last component of the result. *)
Definition sqlite3WalReadFrame (iRead nOut : Z) (x : WSt) : WSt * Z * bytes :=
  let sz := hdr_szPage (hdr (the_wal x)) in
  let sz := Z.land sz 0xfe00 + Z.shiftl (Z.land sz 0x0001) 16 in
  let n := if sz <? nOut then sz else nOut in
  let iOffset := walFrameOffset iRead sz + WAL_FRAME_HDRSIZE in
  let '(f, rc, b) := sqlite3OsRead n iOffset (fd x) in
  (with_fd f x, rc, b ++ replicate (Z.to_nat (nOut - n)) 0).

End WalWrites.
