(* ===== verification/WalLog.v ===== *)
(** * Write-ahead log: the contents of the log file (src/wal.c)

    What the log file holds, and that the operations of [WalWrite] keep it.

    - [frame], [log_file]: a log as a list of frames, and a file that holds it.
    - [wlog]: the file and the handle of a connection that is writing. *)

From stdpp Require Import list gmap.
From S2P Require Import Prelude Varint WalData WalIndex WalTxn WalFrame WalWrite.
Import WalTypes WalIndexes WalTxns WalFrames WalWrites.
Local Open Scope Z_scope.

Module WalLogs.

(** ** Bytes of a file *)

(** The first [k] bytes are as before. *)
Definition keeps (k : Z) (c c' : bytes) : Prop :=
  k <= len c -> k <= len c' /\ take (Z.to_nat k) c' = take (Z.to_nat k) c.

Lemma bytes_keep_refl k c : keeps k c c.
Proof. done. Qed.

Lemma bytes_keep_trans k c1 c2 c3 : keeps k c1 c2 -> keeps k c2 c3 -> keeps k c1 c3.
Proof. intros H1 H2 Hk. destruct (H1 Hk) as [Hk2 E1]. destruct (H2 Hk2) as [Hk3 E2]. split; [done|congruence]. Qed.

Lemma store_length c off d : 0 <= off -> len (store c off d) = Z.max (len c) (off + len d).
Proof.
  intros Ho. unfold store. rewrite !length_app, length_take, length_drop, !length_app, length_replicate. lia.
Qed.

Lemma store_grows c off d : 0 <= off -> len c <= len (store c off d).
Proof. intros Ho. rewrite store_length by done. lia. Qed.

Lemma store_keeps k c off d : k <= off -> keeps k c (store c off d).
Proof.
  intros Hk Hc. destruct (decide (0 <= off)); [|destruct (decide (k <= 0)); [|lia]].
  - split; [rewrite store_length by lia; lia|]. unfold store.
    rewrite take_app_le by (rewrite length_take, length_app, length_replicate; lia).
    rewrite take_take, Nat.min_l by lia. apply take_app_le. lia.
  - split; [lia|]. by replace (Z.to_nat k) with 0%nat by lia.
Qed.

Lemma store_read c off d : 0 <= off -> mem_read (store c off d) off (len d) = Some d.
Proof.
  intros Ho. rewrite mem_read_total by (rewrite ?store_length; lia). unfold store.
  rewrite drop_app_ge by (rewrite length_take; lia).
  replace (_ - _)%nat with 0%nat by (rewrite length_take, length_app, length_replicate; lia).
  by rewrite drop_0, Nat2Z.id, take_app_length.
Qed.

(** Bytes outside the range stored stay. *)
Lemma store_read_other c off d o n b :
  0 <= off -> mem_read c o n = Some b -> o + n <= off \/ off + len d <= o -> mem_read (store c off d) o n = Some b.
Proof.
  intros Ho E Hd. apply mem_read_Some in E as (H1 & H2 & H3 & ->). apply mem_read_Some.
  split_and!; [done..|rewrite store_length by lia; lia|]. apply list_eq. intros i.
  destruct (decide (Z.of_nat i < n)) as [Hi|Hi]; [|by rewrite !lookup_ge_None_2 by (rewrite length_take; lia)].
  rewrite !lookup_take_lt, !lookup_drop by lia. unfold store.
  set (c1 := c ++ _). assert (Hc1 : c1 !! (Z.to_nat o + i)%nat = c !! (Z.to_nat o + i)%nat) by (unfold c1; apply lookup_app_l; lia).
  assert (Hl : (Z.to_nat off <= length c1)%nat) by (unfold c1; rewrite length_app, length_replicate; lia).
  destruct Hd as [Hd|Hd].
  - rewrite lookup_app_l by (rewrite length_take; lia). rewrite lookup_take_lt by lia. by rewrite Hc1.
  - rewrite lookup_app_r by (rewrite length_take; lia). rewrite lookup_app_r by (rewrite length_take; lia).
    rewrite lookup_drop, <- Hc1. f_equal. rewrite length_take. lia.
Qed.

Lemma store_app c off a b : 0 <= off -> store (store c off a) (off + len a) b = store c off (a ++ b).
Proof.
  intros Ho. pose proof (store_length c off a Ho) as Hl. unfold store at 1.
  replace (Z.to_nat (off + len a - len (store c off a))) with 0%nat by lia. rewrite app_nil_r. unfold store in *.
  set (c1 := c ++ replicate _ 0) in *.
  assert (Hc : length (take (Z.to_nat off) c1) = Z.to_nat off).
  { unfold c1. rewrite length_take, length_app, length_replicate. lia. }
  rewrite !(app_assoc (take (Z.to_nat off) c1)).
  assert (Ht : length (take (Z.to_nat off) c1 ++ a) = Z.to_nat (off + len a)) by (rewrite length_app; lia).
  rewrite <- Ht, take_app_length, drop_app_add', drop_drop, length_app, <- !app_assoc by done.
  do 4 f_equal. lia.
Qed.

Lemma mem_read_part (c : bytes) o n b k m :
  mem_read c o n = Some b -> 0 <= k -> 0 <= m -> k + m <= n -> mem_read c (o + k) m = mem_read b k m.
Proof.
  intros E Hk Hm Hn. pose proof (mem_read_length _ _ _ _ E) as Hl. apply mem_read_Some in E as (H1 & H2 & H3 & ->).
  rewrite !mem_read_total by (rewrite ?length_take, ?length_drop; lia). f_equal.
  rewrite skipn_firstn_comm, drop_drop, take_take. f_equal; [lia|f_equal; lia].
Qed.

Lemma mem_read_join (c : bytes) o n m a b :
  mem_read c o n = Some a -> mem_read c (o + n) m = Some b -> mem_read c o (n + m) = Some (a ++ b).
Proof.
  intros E1 E2. apply mem_read_Some in E1 as (H1 & H2 & H3 & ->). apply mem_read_Some in E2 as (H4 & H5 & H6 & ->).
  apply mem_read_Some. split_and!; [lia..|]. rewrite (Z2Nat.inj_add n m), <- take_take_drop, drop_drop by lia.
  do 3 f_equal. lia.
Qed.

Lemma keeps_read k c c' o n b :
  keeps k c c' -> mem_read c o n = Some b -> o + n <= k -> k <= len c -> mem_read c' o n = Some b.
Proof.
  intros HK E Hk Hc. destruct (HK Hc) as [Hk' Et]. apply mem_read_Some in E as (H1 & H2 & H3 & ->).
  apply mem_read_Some. split_and!; [lia..|].
  assert (Hx : forall d : bytes, take (Z.to_nat n) (drop (Z.to_nat o) d) = drop (Z.to_nat o) (take (Z.to_nat (o + n)) (take (Z.to_nat k) d))).
  { intros d. rewrite take_take, Nat.min_l, skipn_firstn_comm by lia. f_equal. lia. }
  by rewrite !Hx, Et.
Qed.


(** ** Calls on the file *)

(** The file and the answers to come are bytes. *)
Definition file_ok (f : File) : Prop :=
  bytes_ok (content f) /\ Forall (fun a => bytes_ok (an_bytes a)) (script f).

Lemma next_answer_ok f a f' :
  file_ok f -> next_answer f = (a, f') -> file_ok f' /\ bytes_ok (an_bytes a) /\ content f' = content f.
Proof.
  intros [H1 H2]. unfold next_answer. destruct (script f) as [|b r] eqn:E; intros [= <- <-].
  - split; [split; [done|by rewrite E]|]. split; [constructor|done].
  - apply list.Forall_cons in H2 as [? ?]. by split_and!.
Qed.

Lemma store_bytes c off d : bytes_ok c -> bytes_ok d -> bytes_ok (store c off d).
Proof.
  intros Hc Hd. unfold store. assert (bytes_ok (c ++ replicate (Z.to_nat (off - len c)) 0)).
  { apply Forall_app. split; [done|]. by apply Forall_replicate. }
  apply Forall_app. split; [by apply Forall_take|]. apply Forall_app. split; [done|by apply Forall_drop].
Qed.

Lemma os_write_spec d off f f' rc :
  file_ok f -> bytes_ok d -> sqlite3OsWrite d off f = (f', rc) ->
  file_ok f' /\ exists d', content f' = store (content f) off d' /\ (length d' <= length d)%nat /\ (rc = SQLITE_OK -> d' = d).
Proof.
  intros Hf Hd. unfold sqlite3OsWrite. destruct (next_answer f) as [a f1] eqn:E.
  destruct (next_answer_ok _ _ _ Hf E) as ([Hc Hs] & Ha & Ec). rewrite Ec in *. case_cond; intros [= <- <-]; simpl.
  - split; [by split; [apply store_bytes|]|]. by exists d.
  - split; [split; [apply store_bytes; [done|by apply Forall_take]|done]|].
    eexists. split; [done|]. split; [rewrite length_take; lia|done].
Qed.

Lemma os_read_spec n off f f' rc b :
  file_ok f -> 0 <= off -> 0 < n -> sqlite3OsRead n off f = (f', rc, b) ->
  file_ok f' /\ content f' = content f /\ len b = n /\ bytes_ok b /\
    (rc = SQLITE_OK -> mem_read (content f) off n = Some b).
Proof.
  intros Hf Ho Hn. unfold sqlite3OsRead. destruct (next_answer f) as [a f1] eqn:E.
  destruct (next_answer_ok _ _ _ Hf E) as ([Hc Hs] & Ha & Ec). rewrite Ec in *.
  assert (Hpad : forall l, bytes_ok l -> len (take (Z.to_nat n) (l ++ replicate (Z.to_nat n) 0)) = n /\
            bytes_ok (take (Z.to_nat n) (l ++ replicate (Z.to_nat n) 0))).
  { intros l Hl. split; [rewrite length_take, length_app, length_replicate; lia|].
    apply Forall_take, Forall_app. split; [done|by apply Forall_replicate]. }
  set (got := take (Z.to_nat n) (drop (Z.to_nat off) (content f))).
  assert (Hgot : bytes_ok got) by by apply Forall_take, Forall_drop.
  case_cond; [destruct (Z.eqb_spec (len got) n) as [El|El]|]; intros [= <- <- <-]; (split; [by split; rewrite ?Ec|]).
  - split_and!; [done..|]. intros _. apply mem_read_Some. unfold got in El. rewrite length_take, length_drop in El.
    split_and!; [lia..|done].
  - destruct (Hpad got Hgot). by split_and!.
  - destruct (Hpad (an_bytes a) Ha). by split_and!.
Qed.

Lemma os_sync_spec f f' rc :
  file_ok f -> sqlite3OsSync f = (f', rc) -> file_ok f' /\ content f' = content f.
Proof.
  intros Hf. unfold sqlite3OsSync. destruct (next_answer f) as [a f1] eqn:E. intros [= <- <-].
  by destruct (next_answer_ok _ _ _ Hf E) as (? & _ & ?).
Qed.

Lemma write_to_log_spec sp sf d off f :
  file_ok f -> bytes_ok d -> 0 <= off -> len d <= 2 ^ 30 -> (0 < sp -> WAL_SYNC_FLAGS sf <> 0) ->
  exists f' rc, walWriteToLog sp sf d off f = Some (f', rc) /\ file_ok f' /\
    (forall k, k <= off -> keeps k (content f) (content f')) /\
    (rc = SQLITE_OK -> content f' = store (content f) off d).
Proof.
  intros Hf Hd Ho Hl Hs. unfold walWriteToLog. case_cond.
  - rewrite i32_small by lia. set (n := Z.to_nat (sp - off)).
    destruct (sqlite3OsWrite (take n d) off f) as [f1 rc1] eqn:E1.
    destruct (os_write_spec _ _ _ _ _ Hf (Forall_take _ _ _ Hd) E1) as (Hf1 & d1 & Ec1 & _ & Hd1).
    case_cond.
    { eexists _, _. split; [done|]. split_and!; [done| |done]. intros k Hk. rewrite Ec1. by apply store_keeps. }
    rewrite (proj2 (Z.eqb_neq _ _)) by (apply Hs; lia).
    destruct (sqlite3OsSync f1) as [f2 rc2] eqn:E2. destruct (os_sync_spec _ _ _ Hf1 E2) as [Hf2 Ec2].
    specialize (Hd1 Heqb). subst d1.
    destruct ((len d - (sp - off) =? 0) || (rc2 <>? 0)) eqn:Eb.
    { eexists _, _. split; [done|]. split_and!; [done| |].
      - intros k Hk. rewrite Ec2, Ec1. by apply store_keeps.
      - intros ->. rewrite orb_false_r in Eb. bool_to_prop. rewrite Ec2, Ec1. by rewrite take_ge by lia. }
    destruct (sqlite3OsWrite (drop n d) (off + (sp - off)) f2) as [f3 rc3] eqn:E3.
    destruct (os_write_spec _ _ _ _ _ Hf2 (Forall_drop _ _ _ Hd) E3) as (Hf3 & d3 & Ec3 & _ & Hd3).
    eexists _, _. split; [done|]. split_and!; [done| |].
    + intros k Hk. rewrite Ec3, Ec2, Ec1. eapply bytes_keep_trans; apply store_keeps; lia.
    + intros Hrc. rewrite Ec3, Ec2, Ec1, (Hd3 Hrc).
      replace (off + (sp - off)) with (off + len (take n d)) by (rewrite length_take; lia).
      by rewrite store_app, take_drop by lia.
  - destruct (sqlite3OsWrite d off f) as [f1 rc1] eqn:E1.
    destruct (os_write_spec _ _ _ _ _ Hf Hd E1) as (Hf1 & d1 & Ec1 & _ & Hd1).
    eexists _, _. split; [done|]. split_and!; [done| |].
    + intros k Hk. rewrite Ec1. by apply store_keeps.
    + intros Hrc. by rewrite Ec1, (Hd1 Hrc).
Qed.

(** ** Logs *)

Record frame := Fr { f_pgno : Z; f_size : Z; f_data : bytes }.

Definition frame_wf (sz : Z) (f : frame) : Prop :=
  is_u32 (f_pgno f) /\ f_pgno f <> 0 /\ is_u32 (f_size f) /\ page_ok sz (f_data f).

(** The running checksum after the frames [l]. *)
Definition chain (native : bool) (ck0 : Z * Z) (l : list frame) : Z * Z :=
  foldl (fun ck f => frame_sum native (f_pgno f) (f_size f) (f_data f) ck) ck0 l.

Lemma chain_snoc native ck0 l f :
  chain native ck0 (l ++ [f]) = frame_sum native (f_pgno f) (f_size f) (f_data f) (chain native ck0 l).
Proof. unfold chain. by rewrite foldl_snoc. Qed.

Lemma chain_range native ck0 l :
  is_u32 ck0.1 -> is_u32 ck0.2 -> is_u32 (chain native ck0 l).1 /\ is_u32 (chain native ck0 l).2.
Proof.
  intros H1 H2. induction l as [|f l IH] using rev_ind; [done|]. rewrite chain_snoc. destruct IH. by apply frame_sum_range.
Qed.

(** The header of the log: byte order of the checksums, page size, checkpoint counter and
    salt. *)
Record params := Params { p_big : Z; p_size : Z; p_ckpt : Z; p_salt : Z * Z }.

Definition native (P : params) : bool := p_big P =? SQLITE_BIGENDIAN.

Definition hdr24 (P : params) : bytes :=
  be32 (Z.lor WAL_MAGIC (p_big P)) ++ be32 WAL_MAX_VERSION ++ be32 (p_size P) ++ be32 (p_ckpt P) ++ salt_image (p_salt P).

Definition ck0 (P : params) : Z * Z := format_sum (order_words (native P) (hdr24 P)) (0, 0).

Definition wal_hdr (P : params) : bytes := hdr24 P ++ be32 (ck0 P).1 ++ be32 (ck0 P).2.

Lemma ck0_range P : is_u32 (ck0 P).1 /\ is_u32 (ck0 P).2.
Proof. by apply format_sum_range. Qed.

Lemma hdr24_bytes P : bytes_ok (hdr24 P).
Proof. unfold hdr24. repeat first [apply be32_bytes|apply salt_image_bytes|apply Forall_app; split]. Qed.

(** The salt and the checksum in the header of frame [i]. *)
Definition seal (P : params) (log : list frame) (i : nat) : bytes :=
  let ck := chain (native P) (ck0 P) (take (S i) log) in
  salt_image (p_salt P) ++ be32 ck.1 ++ be32 ck.2.

Definition frame_bytes (f : frame) (t : bytes) : bytes :=
  be32 (f_pgno f) ++ be32 (f_size f) ++ t ++ f_data f.

(** The file [c] holds the frames of [log]; the first [good] of them have their checksum. *)
Record log_file (c : bytes) (P : params) (log : list frame) (good : nat) : Prop := {
  lf_frame : forall i f, log !! i = Some f -> exists t, length t = 16%nat /\
    mem_read c (walFrameOffset (Z.of_nat i + 1) (p_size P)) (p_size P + WAL_FRAME_HDRSIZE) = Some (frame_bytes f t) /\
    ((i < good)%nat -> t = seal P log i);
  lf_wf : Forall (frame_wf (p_size P)) log;
  lf_hdr : mem_read c 0 WAL_HDRSIZE = Some (wal_hdr P);
  lf_size : 8 <= p_size P <= 65536 /\ p_size P mod 8 = 0
}.

(** The end of the frames. *)
Definition log_end (P : params) (n : nat) : Z := walFrameOffset (Z.of_nat n + 1) (p_size P).

Lemma log_end_S P n : log_end P (S n) = log_end P n + (p_size P + WAL_FRAME_HDRSIZE).
Proof. unfold log_end, walFrameOffset. lia. Qed.

Lemma frame_offset_le P i n : (i < n)%nat -> 0 <= p_size P ->
  32 <= log_end P i /\ log_end P i + (p_size P + WAL_FRAME_HDRSIZE) <= log_end P n.
Proof. unfold log_end, walFrameOffset, WAL_HDRSIZE, WAL_FRAME_HDRSIZE. intros. nia. Qed.

Lemma log_end_ge P n : 0 <= p_size P -> 32 <= log_end P n.
Proof. unfold log_end, walFrameOffset, WAL_HDRSIZE, WAL_FRAME_HDRSIZE. nia. Qed.

(** The bytes before the end of the log determine it. *)
Lemma log_file_keeps c c' P log good :
  log_file c P log good -> keeps (log_end P (length log)) c c' -> log_end P (length log) <= len c ->
  log_file c' P log good.
Proof.
  intros [H1 H2 H3 H4] HK Hc. split; [|done| |done].
  - intros i f Hi. destruct (H1 i f Hi) as (t & Ht & Er & Hg). exists t. split_and!; [done| |done].
    eapply keeps_read; [done..| |done]. apply lookup_lt_Some in Hi.
    pose proof (frame_offset_le P i (length log) Hi). unfold log_end in *. lia.
  - eapply keeps_read; [done..| |done].
    unfold log_end, walFrameOffset, WAL_HDRSIZE, WAL_FRAME_HDRSIZE. nia.
Qed.

Lemma frame_bytes_length sz f t : frame_wf sz f -> length t = 16%nat -> len (frame_bytes f t) = sz + WAL_FRAME_HDRSIZE.
Proof.
  intros (_ & _ & _ & [Hl _ _]) Ht. unfold frame_bytes. rewrite !length_app, Ht. unfold WAL_FRAME_HDRSIZE. simpl. lia.
Qed.

Lemma frame_bytes_head f t :
  length t = 16%nat -> mem_read (frame_bytes f t) 0 24 = Some (be32 (f_pgno f) ++ be32 (f_size f) ++ t).
Proof.
  intros Ht. apply (mem_read_app [] _ (f_data f)); [|done|rewrite !length_app, Ht; done].
  unfold frame_bytes. by rewrite <- !app_assoc.
Qed.

Lemma frame_bytes_data f t sz :
  length t = 16%nat -> len (f_data f) = sz -> mem_read (frame_bytes f t) 24 sz = Some (f_data f).
Proof.
  intros Ht Hl. apply (mem_read_app (be32 (f_pgno f) ++ be32 (f_size f) ++ t) _ []); [|rewrite !length_app, Ht; done|done].
  unfold frame_bytes. by rewrite app_nil_r, <- !app_assoc.
Qed.

Lemma seal_length P log i : length (seal P log i) = 16%nat.
Proof. done. Qed.

Lemma seal_bytes P log i : bytes_ok (seal P log i).
Proof. unfold seal. repeat first [apply be32_bytes|apply salt_image_bytes|apply Forall_app; split]. Qed.

Lemma frame_bytes_ok sz f t : frame_wf sz f -> bytes_ok t -> bytes_ok (frame_bytes f t).
Proof.
  intros (_ & _ & _ & [_ Hb _]) Ht. unfold frame_bytes. repeat first [apply be32_bytes|done|apply Forall_app; split].
Qed.

Lemma seal_app P log l i : (i < length log)%nat -> seal P (log ++ l) i = seal P log i.
Proof. intros Hi. unfold seal. by rewrite take_app_le by lia. Qed.

Lemma log_file_append c P log good good' f t :
  log_file c P log good -> frame_wf (p_size P) f -> length t = 16%nat ->
  (good' <= good <= length log)%nat \/ good' = S (length log) /\ good = length log /\ t = seal P (log ++ [f]) (length log) ->
  log_file (store c (log_end P (length log)) (frame_bytes f t)) P (log ++ [f]) good'.
Proof.
  intros [H1 H2 H3 H4] Hf Ht Hg. pose proof (frame_bytes_length _ _ _ Hf Ht) as Hl.
  assert (Ho : 32 <= log_end P (length log)) by (apply log_end_ge; lia).
  split; [|by apply Forall_app; split; [|constructor]| |done].
  - intros i g [Hi|(Hi & [Ei <-]%list_lookup_singleton_Some)]%lookup_app_Some.
    + pose proof (lookup_lt_Some _ _ _ Hi) as Hlt. destruct (H1 i g Hi) as (u & Hu & Er & Hgu).
      pose proof (frame_offset_le P i (length log) Hlt ltac:(lia)). exists u. split_and!; [done| |].
      * apply store_read_other; [lia|done|]. left. unfold log_end in *. lia.
      * intros Hig. rewrite seal_app by done. apply Hgu. lia.
    + assert (i = length log) as -> by lia. exists t. split_and!; [done| |].
      * rewrite <- Hl. apply (store_read c (log_end P (length log))). lia.
      * intros Hig. destruct Hg as [?|(_ & _ & ->)]; [lia|done].
  - apply store_read_other; [lia|done|]. left. unfold WAL_HDRSIZE. lia.
Qed.

(** Overwriting the page of frame [i]. *)
Lemma log_file_overwrite c P log good good' i f d :
  log_file c P log good -> log !! i = Some f -> page_ok (p_size P) d -> (good' <= good)%nat -> (good' <= i)%nat ->
  log_file (store c (log_end P i + WAL_FRAME_HDRSIZE) d) P (<[i := Fr (f_pgno f) (f_size f) d]> log) good'.
Proof.
  intros [H1 H2 H3 H4] Hi Hd Hg Hgi. pose proof (lookup_lt_Some _ _ _ Hi) as Hlt.
  pose proof (po_len _ _ Hd) as Hdl. pose proof (proj1 (list.Forall_forall _ _) H2 f (list_elem_of_lookup_2 _ _ _ Hi)) as Hf.
  assert (Ho : 32 <= log_end P i) by (apply log_end_ge; lia).
  split; [| | |done].
  - intros j g Hj. apply list_lookup_insert_Some in Hj as [(<- & <- & _)|(Hij & Hj)].
    + destruct (H1 i f Hi) as (t & Ht & Er & _). exists t. split_and!; [done| |lia].
      pose proof (mem_read_part _ _ _ _ 0 24 Er) as E24. rewrite Z.add_0_r, frame_bytes_head in E24 by done.
      unfold frame_bytes. simpl f_pgno. simpl f_size. simpl f_data. rewrite (app_assoc (be32 (f_size f))), (app_assoc (be32 (f_pgno f))).
      replace (p_size P + WAL_FRAME_HDRSIZE) with (24 + p_size P) by (unfold WAL_FRAME_HDRSIZE; lia). apply mem_read_join; [apply store_read_other; [unfold WAL_FRAME_HDRSIZE; lia| |left; unfold log_end, WAL_FRAME_HDRSIZE in *; lia]|].
      * apply E24; unfold WAL_FRAME_HDRSIZE; lia.
      * pose proof (store_read c (log_end P i + WAL_FRAME_HDRSIZE) d) as Ed. rewrite Hdl in Ed.
        apply Ed. unfold WAL_FRAME_HDRSIZE. lia.
    + destruct (H1 j g Hj) as (t & Ht & Er & Hgt). exists t. split_and!; [done| |].
      * apply store_read_other; [unfold WAL_FRAME_HDRSIZE; lia|done|].
        destruct (decide (i < j)%nat) as [Hlt'|].
        -- pose proof (frame_offset_le P i j Hlt' ltac:(lia)). right. unfold log_end, WAL_FRAME_HDRSIZE in *. lia.
        -- pose proof (frame_offset_le P j i ltac:(lia) ltac:(lia)). left. unfold log_end, WAL_FRAME_HDRSIZE in *. lia.
      * intros Hjg. unfold seal. rewrite take_insert_ge by lia. apply Hgt. lia.
  - apply Forall_insert; [done|]. destruct Hf as (? & ? & ? & _). by split_and!.
  - apply store_read_other; [unfold WAL_FRAME_HDRSIZE; lia|done|left; unfold WAL_HDRSIZE, WAL_FRAME_HDRSIZE; lia].
Qed.

(** Rewriting the header of frame [i] with its checksum. *)
Lemma log_file_seal c P log i f :
  log_file c P log i -> log !! i = Some f ->
  log_file (store c (log_end P i) (be32 (f_pgno f) ++ be32 (f_size f) ++ seal P log i)) P log (S i).
Proof.
  intros [H1 H2 H3 H4] Hi. pose proof (lookup_lt_Some _ _ _ Hi) as Hlt.
  assert (Ho : 32 <= log_end P i) by (apply log_end_ge; lia).
  pose proof (proj1 (list.Forall_forall _ _) H2 f (list_elem_of_lookup_2 _ _ _ Hi)) as (_ & _ & _ & [Hdl _ _]).
  split; [|done| |done].
  - intros j g Hj. destruct (decide (j = i)) as [->|Hji].
    + assert (g = f) as -> by congruence. exists (seal P log i). split_and!; [done| |done].
      destruct (H1 i f Hi) as (t & Ht & Er & _).
      pose proof (mem_read_part _ _ _ _ 24 (p_size P) Er) as Ed. rewrite frame_bytes_data in Ed by done.
      replace (frame_bytes f (seal P log i)) with ((be32 (f_pgno f) ++ be32 (f_size f) ++ seal P log i) ++ f_data f)
        by (unfold frame_bytes; by rewrite <- !app_assoc).
      replace (p_size P + WAL_FRAME_HDRSIZE) with (24 + p_size P) by (unfold WAL_FRAME_HDRSIZE; lia). apply mem_read_join.
      * pose proof (store_read c (log_end P i) (be32 (f_pgno f) ++ be32 (f_size f) ++ seal P log i)) as E.
        replace (len (be32 (f_pgno f) ++ be32 (f_size f) ++ seal P log i)) with 24 in E by done. apply E. lia.
      * apply store_read_other; [lia| |right; unfold log_end, WAL_FRAME_HDRSIZE in *; rewrite !length_app; simpl; lia].
        apply Ed; unfold WAL_FRAME_HDRSIZE; lia.
    + destruct (H1 j g Hj) as (t & Ht & Er & Hgt). exists t. split_and!; [done| |intros; apply Hgt; lia].
      apply store_read_other; [lia|done|].
      replace (len (be32 (f_pgno f) ++ be32 (f_size f) ++ seal P log i)) with 24 by done.
      destruct (decide (i < j)%nat) as [Hlt'|].
      * pose proof (frame_offset_le P i j Hlt' ltac:(lia)). right. unfold log_end, WAL_FRAME_HDRSIZE in *. lia.
      * pose proof (frame_offset_le P j i ltac:(lia) ltac:(lia)). left. unfold log_end, WAL_FRAME_HDRSIZE in *. lia.
  - apply store_read_other; [lia|done|left; unfold WAL_HDRSIZE; lia].
Qed.

(** ** A connection that is writing *)

(** The number of frames whose checksum is right: [iReCksum] is the first that is not. *)
Definition good_frames (w : Wal) (log : list frame) : nat :=
  if iReCksum w =? 0 then length log else Z.to_nat (iReCksum w - 1).

(** The header of the log the handle describes. *)
Definition handle_params (w : Wal) : params :=
  Params (bigEndCksum (hdr w)) (szPage w) (nCkpt w) (aSalt (hdr w)).

(** The file holds [log], as the handle says. *)
Record wlog (x : WSt) (log : list frame) : Prop := {
  wl_log : log_file (content (fd x)) (handle_params (the_wal x)) log (good_frames (the_wal x) log);
  wl_re : 0 <= iReCksum (the_wal x) <= len log;
  wl_ck : iReCksum (the_wal x) = 0 ->
    aFrameCksum (hdr (the_wal x)) = chain (native (handle_params (the_wal x))) (ck0 (handle_params (the_wal x))) log;
  wl_end : log_end (handle_params (the_wal x)) (length log) <= len (content (fd x))
}.

(** What writing to the file changes in the handle. *)
Definition rehashed (s s' : St) : Prop :=
  exists c r, is_u32 c.1 /\ is_u32 c.2 /\
    s' = on_wal (fun w => set_iReCksum r (set_hdr (set_aFrameCksum c (hdr w)) w)) s.

Definition cksum_ok (s : St) : Prop := is_u32 (aFrameCksum (hdr (wal s))).1 /\ is_u32 (aFrameCksum (hdr (wal s))).2.

Lemma rehashed_refl s : cksum_ok s -> rehashed s s.
Proof.
  intros [H1 H2]. exists (aFrameCksum (hdr (wal s))), (iReCksum (wal s)). split_and!; [done..|].
  destruct s as [[? ? ? ? ? ? ? ? ? ? ? ? [] ? ? ? ?] ?]. done.
Qed.

Lemma rehashed_trans s1 s2 s3 : rehashed s1 s2 -> rehashed s2 s3 -> rehashed s1 s3.
Proof. intros (c & r & H1 & H2 & ->) (c' & r' & H1' & H2' & ->). by exists c', r'. Qed.

Lemma rehashed_ok s s' : rehashed s s' -> cksum_ok s'.
Proof. by intros (c & r & H1 & H2 & ->). Qed.

Lemma rehashed_inv s s' share plog : rehashed s s' -> inv s share plog -> inv s' share plog.
Proof. intros (c & r & _ & _ & ->) HI. by apply inv_wal. Qed.

Lemma rehashed_env e s s' share : rehashed s s' -> env_ok e s share -> env_ok e s' share.
Proof. intros (c & r & _ & _ & ->) HI. by apply env_wal. Qed.

Lemma rehashed_txn s s' share plog h : rehashed s s' -> txn_ok s share plog h -> txn_ok s' share plog h.
Proof.
  intros HR [T1 T2 T3 T4 T5 T6]. pose proof (rehashed_inv _ _ _ _ HR T1). destruct HR as (c & r & Hc1 & Hc2 & ->).
  split; [done..| |done|done|done]. by apply hdr_ok_cksum.
Qed.

Lemma rehashed_params s s' : rehashed s s' -> handle_params (wal s') = handle_params (wal s).
Proof. by intros (c & r & _ & _ & ->). Qed.

Lemma good_frames_le w log : 0 <= iReCksum w <= len log -> (good_frames w log <= length log)%nat.
Proof. unfold good_frames. case_cond; lia. Qed.

(** The header of the frame after [log]. *)
Lemma encode_next w log p nt d :
  let P := handle_params w in
  (iReCksum w = 0 -> aFrameCksum (hdr w) = chain (native P) (ck0 P) log) ->
  is_u32 (aFrameCksum (hdr w)).1 -> is_u32 (aFrameCksum (hdr w)).2 -> page_ok (szPage w) d ->
  exists c t, walEncodeFrame p nt d (replicate 24 0) w =
      Some (set_hdr (set_aFrameCksum c (hdr w)) w, be32 p ++ be32 nt ++ t) /\ length t = 16%nat /\ bytes_ok t /\
      is_u32 c.1 /\ is_u32 c.2 /\
      (iReCksum w = 0 -> t = seal P (log ++ [Fr p nt d]) (length log) /\
         c = chain (native P) (ck0 P) (log ++ [Fr p nt d])).
Proof.
  intros P WC H1 H2 Hd. destruct (decide (iReCksum w = 0)) as [E0|E0].
  - rewrite encode_frame_spec by done. eexists _, _. split; [done|].
    assert (Ech : frame_sum (native_of w) p nt d (aFrameCksum (hdr w)) = chain (native P) (ck0 P) (log ++ [Fr p nt d])).
    { rewrite chain_snoc. cbn [f_pgno f_size f_data]. f_equal. by apply WC. }
    rewrite Ech. destruct (ck0_range P) as [Hk1 Hk2].
    destruct (chain_range (native P) (ck0 P) (log ++ [Fr p nt d]) Hk1 Hk2).
    split; [done|]. split; [|split; [done|split; [done|]]].
    + repeat first [apply be32_bytes|apply salt_image_bytes|apply Forall_app; split].
    + intros _. split; [|done]. unfold seal. by rewrite (take_ge (log ++ [Fr p nt d])) by (rewrite length_app; simpl; lia).
  - rewrite encode_frame_later by done. exists (aFrameCksum (hdr w)), (replicate 16 0).
    split; [|split_and!; [done|by apply Forall_replicate|done..]].
    do 2 f_equal. destruct w as [? ? ? ? ? ? ? ? ? ? ? ? [] ? ? ? ?]. done.
Qed.

(** Writing a frame at the end of the log. *)
Lemma one_frame_spec codec sp sf p nt log x d :
  let P := handle_params (the_wal x) in
  wlog x log -> file_ok (fd x) -> cksum_ok (st x) -> codec (pgno p) (pData p) = Some d ->
  frame_wf (p_size P) (Fr (pgno p) nt d) -> (0 < sp -> WAL_SYNC_FLAGS sf <> 0) ->
  exists x' rc, walWriteOneFrame codec sp sf (p_size P) p nt (log_end P (length log)) x = Some (x', rc) /\
    file_ok (fd x') /\ rehashed (st x) (st x') /\ iReCksum (the_wal x') = iReCksum (the_wal x) /\
    (forall k, k <= log_end P (length log) -> keeps k (content (fd x)) (content (fd x'))) /\
    (rc = SQLITE_OK -> wlog x' (log ++ [Fr (pgno p) nt d])).
Proof.
  intros P [WL WR WC WE] Hf Hck Ed Hfw Hsp. unfold walWriteOneFrame. rewrite Ed.
  pose proof Hfw as (Hp & Hp0 & Hn & Hd). simpl in Hp, Hp0, Hn, Hd.
  set (w := the_wal x) in *. destruct Hck as [H1 H2].
  destruct (encode_next w log (pgno p) nt d WC H1 H2 Hd) as (c & t & -> & Ht & Htb & Hc1 & Hc2 & Hseal).
  cbn -[walWriteToLog mem_read be32].
  assert (Ho : 32 <= log_end P (length log)).
  { apply log_end_ge. pose proof (lf_size _ _ _ _ WL) as [Hsz _]. unfold P. lia. }
  set (x1 := with_wal _ x). set (off := log_end P (length log)) in *.
  assert (HR : rehashed (st x) (st x1)).
  { exists c, (iReCksum w). split_and!; [done..|]. unfold x1, with_wal, w, the_wal. simpl. unfold on_wal. f_equal. }
  destruct (write_to_log_spec sp sf (be32 (pgno p) ++ be32 nt ++ t) off (fd x)) as (f1 & rc1 & -> & Hf1 & Hk1 & Hs1); [done| |lia| |done|].
  { repeat first [apply be32_bytes|done|apply Forall_app; split]. }
  { rewrite !length_app, Ht. simpl. lia. }
  cbn -[walWriteToLog mem_read be32]. case_cond.
  { eexists _, _. split; [done|]. split_and!; [done..|]. intros ->. done. }
  rewrite page_read by done. cbn -[walWriteToLog be32].
  destruct (write_to_log_spec sp sf d (off + 24) f1) as (f2 & rc2 & -> & Hf2 & Hk2 & Hs2); [done|apply Hd|lia| |done|].
  { rewrite (po_len _ _ Hd). pose proof (po_size _ _ Hd). lia. }
  cbn -[be32]. eexists _, _. split; [done|]. split_and!; [done..| |].
  - intros k Hk. eapply bytes_keep_trans; [by apply Hk1|apply Hk2; lia].
  - intros Hrc. specialize (Hs1 Heqb). specialize (Hs2 Hrc).
    assert (Es : content f2 = store (content (fd x)) off (frame_bytes (Fr (pgno p) nt d) t)).
    { rewrite Hs2, Hs1. replace (off + 24) with (off + len (be32 (pgno p) ++ be32 nt ++ t)) by (rewrite !length_app, Ht; done).
      rewrite store_app by lia. unfold frame_bytes. by rewrite <- !app_assoc. }
    assert (Hgw : good_frames (the_wal (with_fd f2 (with_fd f1 x1))) (log ++ [Fr (pgno p) nt d]) =
      if iReCksum w =? 0 then S (length log) else good_frames w log).
    { unfold good_frames. simpl. destruct (iReCksum w =? 0); [rewrite length_app; simpl; lia|done]. }
    split; cbn [fd with_fd].
    + rewrite Hgw, Es. apply (log_file_append _ _ _ (good_frames w log)); [done..|].
      destruct (Z.eqb_spec (iReCksum w) 0) as [E0|E0]; [right|left; split; [done|by apply good_frames_le]].
      split_and!; [done| |by apply Hseal]. unfold good_frames. by rewrite E0.
    + rewrite length_app. simpl. fold w. lia.
    + intros E0. by apply Hseal.
    + rewrite length_app, Es, store_length, (frame_bytes_length (p_size P)) by (done || lia).
      replace (length log + length [Fr (pgno p) nt d])%nat with (S (length log)) by (simpl; lia). rewrite log_end_S.
      change (handle_params (the_wal (with_fd f2 (with_fd f1 x1)))) with P. lia.
Qed.

(** Overwriting the page of frame [i + 1], whose checksum and those after it become invalid. *)
Lemma overwrite_spec x log i f d f' rc :
  let P := handle_params (the_wal x) in
  let r := iReCksum (the_wal x) in
  let x1 := if (r =? 0) || (Z.of_nat i + 1 <? r) then with_wal (set_iReCksum (Z.of_nat i + 1)) x else x in
  wlog x log -> file_ok (fd x) -> log !! i = Some f -> page_ok (p_size P) d ->
  sqlite3OsWrite d (walFrameOffset (Z.of_nat i + 1) (p_size P) + WAL_FRAME_HDRSIZE) (fd x1) = (f', rc) ->
  file_ok f' /\ (forall k, k <= log_end P i -> keeps k (content (fd x)) (content f')) /\
  (rc = SQLITE_OK -> wlog (with_fd f' x1) (<[i := Fr (f_pgno f) (f_size f) d]> log)).
Proof.
  intros P r x1 [WL WR WC WE] Hf Hi Hd. pose proof (lookup_lt_Some _ _ _ Hi) as Hlt.
  assert (Efd : fd x1 = fd x) by (unfold x1; by case_cond). rewrite Efd. intros E.
  destruct (os_write_spec _ _ _ _ _ Hf (po_bytes _ _ Hd) E) as (Hf' & d' & Ec & Hl & Hd').
  change (walFrameOffset (Z.of_nat i + 1) (p_size P)) with (log_end P i) in Ec.
  split_and!; [done| |].
  - intros k Hk. rewrite Ec. apply store_keeps. unfold WAL_FRAME_HDRSIZE. lia.
  - intros Hrc. rewrite (Hd' Hrc) in Ec. clear d' Hl Hd'.
    assert (Hr : iReCksum (the_wal x1) = if (r =? 0) || (Z.of_nat i + 1 <? r) then Z.of_nat i + 1 else r)
      by (unfold x1; by case_cond).
    assert (HP : handle_params (the_wal x1) = P) by (unfold x1; by case_cond).
    assert (Hr1 : 1 <= iReCksum (the_wal x1) <= Z.of_nat i + 1 /\ (r <> 0 -> iReCksum (the_wal x1) <= r)).
    { rewrite Hr. fold r in WR. destruct (Z.eqb_spec r 0); cbn [orb]; [lia|]. case_cond; lia. }
    assert (Hgood : good_frames (the_wal x1) (<[i:=Fr (f_pgno f) (f_size f) d]> log) = Z.to_nat (iReCksum (the_wal x1) - 1)).
    { unfold good_frames. by rewrite (proj2 (Z.eqb_neq _ _)) by lia. }
    split; cbn [fd with_fd]; change (the_wal (with_fd f' x1)) with (the_wal x1); rewrite ?HP, ?length_insert.
    + rewrite Hgood, Ec. apply (log_file_overwrite _ _ _ _ _ _ _ _ WL); [done..| |lia].
      unfold good_frames. fold r. destruct (Z.eqb_spec r 0); lia.
    + lia.
    + lia.
    + rewrite Ec, store_length; [fold P in WE; lia|].
      pose proof (log_end_ge P i). pose proof (lf_size _ _ _ _ WL) as [Hsz _]. change (handle_params (the_wal x)) with P in Hsz.
      unfold WAL_FRAME_HDRSIZE. lia.
Qed.

Lemma get_total b off : bytes_ok b -> 0 <= off -> off + 4 <= len b -> exists v, get4byte_at b off = Some v /\ is_u32 v.
Proof.
  intros Hb Ho Hl. unfold get4byte_at. rewrite mem_read_total by lia. cbn -[take drop].
  destruct (be32_surj (take (Z.to_nat 4) (drop (Z.to_nat off) b))) as (v & Hv & ->).
  { by apply Forall_take, Forall_drop. } { rewrite length_take, length_drop. lia. }
  exists v. split; [by apply be32_value|done].
Qed.

Lemma frame_bytes_fields f t : is_u32 (f_pgno f) -> is_u32 (f_size f) ->
  get4byte_at (frame_bytes f t) 0 = Some (f_pgno f) /\ get4byte_at (frame_bytes f t) 4 = Some (f_size f).
Proof.
  intros Hp Hn. unfold frame_bytes. split; [by apply (get_app [] _ (be32 (f_size f) ++ t ++ f_data f))|].
  by apply (get_app (be32 (f_pgno f)) _ (t ++ f_data f)).
Qed.

Lemma drop_frame_bytes f t : length t = 16%nat -> drop 24 (frame_bytes f t) = f_data f.
Proof.
  intros Ht. unfold frame_bytes. rewrite !app_assoc.
  assert (H : length ((be32 (f_pgno f) ++ be32 (f_size f)) ++ t) = 24%nat) by (rewrite !length_app, Ht; done).
  by rewrite <- H, drop_app_length.
Qed.

(** Recomputing the checksums from frame [i + 1] on. *)
Lemma rewrite_frames_spec n x log i :
  let P := handle_params (the_wal x) in
  log_file (content (fd x)) P log i -> file_ok (fd x) -> (i + n = length log)%nat -> iReCksum (the_wal x) = 0 ->
  aFrameCksum (hdr (the_wal x)) = chain (native P) (ck0 P) (take i log) ->
  exists x' rc, rewrite_frames n (p_size P) (Z.of_nat i + 1) x = Some (x', rc) /\
    file_ok (fd x') /\ rehashed (st x) (st x') /\ iReCksum (the_wal x') = 0 /\
    (forall k, k <= log_end P i -> keeps k (content (fd x)) (content (fd x'))) /\
    (rc = SQLITE_OK -> log_file (content (fd x')) P log (length log) /\
       aFrameCksum (hdr (the_wal x')) = chain (native P) (ck0 P) log /\ len (content (fd x)) <= len (content (fd x'))).
Proof.
  revert x i. induction n as [|n IH]; intros x i P HL Hf Hn Hr Hck; cbn [rewrite_frames].
  all: assert (Hcok : cksum_ok (st x)) by (destruct (ck0_range P); unfold cksum_ok; change (wal (st x)) with (the_wal x); rewrite Hck; by apply chain_range).
  { assert (i = length log) as -> by lia. exists x, SQLITE_OK. rewrite firstn_all in Hck.
    split_and!; [done|done|by apply rehashed_refl|done|done|done]. }
  destruct (lookup_lt_is_Some_2 log i) as [f Hi]; [lia|]. destruct (lf_frame _ _ _ _ HL i f Hi) as (t & Ht & Er & _).
  pose proof (lf_size _ _ _ _ HL) as [Hsz Hsm]. pose proof (log_end_ge P i ltac:(lia)) as Ho.
  pose proof (proj1 (list.Forall_forall _ _) (lf_wf _ _ _ _ HL) f (list_elem_of_lookup_2 _ _ _ Hi)) as Hfw.
  destruct (sqlite3OsRead _ _ _) as [[f1 rc1] b] eqn:E1.
  apply os_read_spec in E1 as (Hf1 & Ec1 & _ & _ & Hread); [|done|unfold log_end in Ho; lia|unfold WAL_FRAME_HDRSIZE; lia].
  destruct (Z.eqb_spec rc1 SQLITE_OK) as [Hrc1|Hrc1]; cbn [negb].
  2:{ eexists _, _. split; [done|]. split_and!; [done|by apply rehashed_refl|done| |done]. intros k _. simpl. by rewrite Ec1. }
  specialize (Hread Hrc1). rewrite Er in Hread. injection Hread as <-.
  destruct Hfw as (Hp & Hp0 & Hs & Hd). destruct (frame_bytes_fields f t Hp Hs) as [-> ->].
  rewrite drop_frame_bytes by done. cbn -[walEncodeFrame replicate].
  destruct (encode_next (the_wal x) (take i log) (f_pgno f) (f_size f) (f_data f)) as (c & u & E2 & Hu & Hub & Hc1 & Hc2 & Hseal);
    [done|by destruct Hcok|by destruct Hcok|done|].
  destruct (Hseal Hr) as [-> ->]. clear Hseal.
  change (the_wal (with_fd f1 x)) with (the_wal x). rewrite E2. cbn -[be32 rewrite_frames seal app].
  assert (Et : take i log ++ [Fr (f_pgno f) (f_size f) (f_data f)] = take (S i) log).
  { destruct f. simpl. by rewrite (take_S_r _ _ _ Hi). }
  rewrite Et in *. assert (Hli : length (take i log) = i) by (rewrite length_take; lia). rewrite Hli in *.
  assert (Eseal : seal P (take (S i) log) i = seal P log i) by (unfold seal; by rewrite take_take, Nat.min_id).
  change (handle_params (the_wal x)) with P. rewrite Eseal.
  set (x1 := with_wal _ (with_fd f1 x)).
  destruct (sqlite3OsWrite _ _ f1) as [f2 rc2] eqn:E3.
  apply os_write_spec in E3 as (Hf2 & d' & Ec2 & _ & Hd');
    [|done|repeat first [apply be32_bytes|apply seal_bytes|apply Forall_app; split]].
  assert (HR : rehashed (st x) (st (with_fd f2 x1))).
  { exists (chain (native P) (ck0 P) (take (S i) log)), 0. split_and!; [done..|]. unfold x1, with_wal. simpl. unfold on_wal. f_equal.
    revert Hr. unfold the_wal. destruct (wal (st x)). simpl. by intros ->. }
  assert (HK : forall k, k <= log_end P i -> keeps k (content (fd x)) (content f2)).
  { intros k Hk. rewrite Ec2, Ec1. by apply store_keeps. }
  destruct (Z.eqb_spec rc2 SQLITE_OK) as [Hrc2|Hrc2]; cbn [negb].
  2:{ eexists _, _. split; [done|]. split_and!; [done|done|done|done|done]. }
  rewrite (Hd' Hrc2) in Ec2. clear d' Hd'.
  assert (HP : handle_params (the_wal (with_fd f2 x1)) = P) by done.
  destruct (IH (with_fd f2 x1) (S i)) as (x' & rc & E4 & Hf' & HR' & Hr' & HK' & HOK).
  { rewrite HP. cbn [fd with_fd]. rewrite Ec2, Ec1. exact (log_file_seal _ _ _ _ _ HL Hi). }
  { done. } { lia. } { done. } { rewrite HP. done. }
  rewrite HP in *. cbn [fd with_fd] in *. replace (Z.of_nat (S i) + 1) with (Z.of_nat i + 1 + 1) in E4 by lia.
  exists x', rc. split; [exact E4|]. split_and!; [done|eapply rehashed_trans; [exact HR|exact HR']|done| |].
  - intros k Hk. eapply bytes_keep_trans; [by apply HK|]. apply HK'. rewrite log_end_S. unfold WAL_FRAME_HDRSIZE. lia.
  - intros Hrc. destruct (HOK Hrc) as (? & ? & Hlen). split_and!; [done..|].
    etrans; [|exact Hlen]. rewrite Ec2, Ec1. apply store_grows. change (0 <= log_end P i). lia.
Qed.

(** The checksum stored before frame [i + 1]: in the header of the log or of frame [i]. *)
Lemma stored_cksum c P log good i :
  log_file c P log good -> (i <= good)%nat -> (i <= length log)%nat ->
  mem_read c (if Z.of_nat i + 1 =? 1 then 24 else walFrameOffset (Z.of_nat i + 1 - 1) (p_size P) + 16) 8 =
    Some (be32 (chain (native P) (ck0 P) (take i log)).1 ++ be32 (chain (native P) (ck0 P) (take i log)).2).
Proof.
  intros [H1 H2 H3 H4] Hg Hi. destruct i as [|i].
  - change (Z.of_nat 0 + 1 =? 1) with true. cbn iota. rewrite take_0.
    pose proof (mem_read_part _ _ _ _ 24 8 H3 ltac:(lia) ltac:(lia) ltac:(unfold WAL_HDRSIZE; lia)) as E.
    rewrite Z.add_0_l in E. rewrite E.
    apply (mem_read_app (hdr24 P) _ []); [by rewrite app_nil_r|done..].
  - rewrite (proj2 (Z.eqb_neq _ _)) by lia. destruct (lookup_lt_is_Some_2 log i) as [f Hf]; [lia|].
    destruct (H1 i f Hf) as (t & Ht & Er & Hs). rewrite (Hs ltac:(lia)) in Er.
    replace (Z.of_nat (S i) + 1 - 1) with (Z.of_nat i + 1) by lia.
    rewrite (mem_read_part _ _ _ _ 16 8 Er) by (unfold WAL_FRAME_HDRSIZE; lia).
    apply (mem_read_app (be32 (f_pgno f) ++ be32 (f_size f) ++ salt_image (p_salt P)) _ (f_data f)); [|done..].
    unfold frame_bytes, seal. by rewrite <- !app_assoc.
Qed.

Lemma rewrite_checksums_spec mem x log :
  let P := handle_params (the_wal x) in
  let i := good_frames (the_wal x) log in
  wlog x log -> file_ok (fd x) -> cksum_ok (st x) -> iReCksum (the_wal x) <> 0 ->
  exists x' rc, walRewriteChecksums mem (len log) x = Some (x', rc) /\
    file_ok (fd x') /\ rehashed (st x) (st x') /\
    (iReCksum (the_wal x') = iReCksum (the_wal x) \/ iReCksum (the_wal x') = 0) /\
    (forall k, k <= log_end P i -> keeps k (content (fd x)) (content (fd x'))) /\
    (rc = SQLITE_OK -> wlog x' log /\ iReCksum (the_wal x') = 0).
Proof.
  intros P i [WL WR WC WE] Hf Hck Hr. unfold walRewriteChecksums. destruct mem; cbn [negb].
  2:{ exists x, SQLITE_NOMEM. split_and!; [done|done|by apply rehashed_refl|by left|done|done]. }
  assert (Hi : Z.of_nat i + 1 = iReCksum (the_wal x)).
  { unfold i, good_frames. rewrite (proj2 (Z.eqb_neq _ _)) by done. lia. }
  assert (Hil : (i < length log)%nat) by lia. pose proof (lf_size _ _ _ _ WL) as [Hsz _]. change (handle_params (the_wal x)) with P in Hsz.
  rewrite (proj2 (Z.leb_gt _ _)), <- Hi by lia. change (szPage (the_wal x)) with (p_size P).
  pose proof (stored_cksum _ _ _ _ i WL ltac:(done) ltac:(lia)) as Es. change (handle_params (the_wal x)) with P in Es.
  set (co := if Z.of_nat i + 1 =? 1 then 24 else walFrameOffset (Z.of_nat i + 1 - 1) (p_size P) + 16) in *.
  assert (Hco : 0 <= co) by by apply mem_read_Some in Es as (? & _).
  destruct (sqlite3OsRead 8 co (fd x)) as [[f1 rc1] b] eqn:E1.
  apply os_read_spec in E1 as (Hf1 & Ec1 & Hbl & Hbb & Hread); [|done..].
  destruct (get_total b 0 Hbb) as (c0 & G0 & Hc0); [lia..|]. destruct (get_total b 4 Hbb) as (c1 & G1 & Hc1); [lia..|].
  rewrite G0, G1. cbn -[rewrite_frames Z.to_nat]. set (x1 := with_wal _ _).
  assert (HR : rehashed (st x) (st x1)) by by exists (c0, c1), 0.
  destruct (Z.eqb_spec rc1 SQLITE_OK) as [Hrc1|Hrc1]; cbn [negb].
  2:{ exists x1, rc1. split_and!; [done..|by right| |done]. intros k _. simpl. by rewrite Ec1. }
  specialize (Hread Hrc1). rewrite Es in Hread. apply (inj Some) in Hread.
  set (ck := chain (native P) (ck0 P) (take i log)) in *.
  destruct (ck0_range P) as [Hk1 Hk2]. destruct (chain_range (native P) (ck0 P) (take i log) Hk1 Hk2) as [Hq1 Hq2].
  assert (ck = (c0, c1)) as Eck.
  { rewrite (get_app [] ck.1 (be32 ck.2)) in G0 by done. rewrite (get_app (be32 ck.1) ck.2 []) in G1 by done.
    rewrite (surjective_pairing ck). congruence. }
  destruct (rewrite_frames_spec (Z.to_nat (len log - (Z.of_nat i + 1) + 1)) x1 log i) as (x' & rc & E2 & Hf' & HR' & Hr' & HK & HOK).
  { cbn [fd with_wal with_hdr with_fd x1]. unfold x1. simpl. rewrite Ec1. exact WL. }
  { done. } { lia. } { done. } { symmetry. exact Eck. }
  change (handle_params (the_wal x1)) with P in *.
  exists x', rc. split; [exact E2|]. split; [done|]. split; [exact (rehashed_trans _ _ _ HR HR')|]. split; [by right|]. split.
  { intros k Hk. rewrite <- Ec1. by apply HK. }
  intros Hrc. destruct (HOK Hrc) as (HL & Hc & Hlen).
  assert (HP : handle_params (the_wal x') = P) by exact (rehashed_params _ _ HR').
  split; [|done]. split; rewrite ?HP; unfold good_frames; rewrite ?Hr'; [done|lia|done|].
  etrans; [exact WE|]. by rewrite <- Ec1.
Qed.

Lemma build_wal_header_spec sz ckpt salt :
  let P := Params SQLITE_BIGENDIAN sz ckpt salt in
  build_wal_header sz ckpt salt = Some (wal_hdr P, ck0 P).
Proof.
  intros P. unfold build_wal_header.
  set (m := be32 (Z.lor WAL_MAGIC SQLITE_BIGENDIAN)). set (v := be32 WAL_MAX_VERSION).
  rewrite (put_app [] (replicate 4 0) _ (replicate 28 0)) by done. cbn -[put4byte_at be32 mem_write mem_read replicate app].
  rewrite (put_app m (replicate 4 0) _ (replicate 24 0)) by done. cbn -[put4byte_at be32 mem_write mem_read replicate app].
  rewrite (put_app (m ++ v) (replicate 4 0) _ (replicate 20 0)) by done. cbn -[put4byte_at be32 mem_write mem_read replicate app].
  rewrite (put_app ((m ++ v) ++ be32 sz) (replicate 4 0) _ (replicate 16 0)) by done. cbn -[put4byte_at be32 mem_write mem_read replicate app].
  rewrite (mem_write_middle (((m ++ v) ++ be32 sz) ++ be32 ckpt) (replicate 8 0) (salt_image salt) (replicate 8 0)) by done.
  cbn -[put4byte_at be32 mem_read replicate app walChecksumBytes salt_image].
  assert (Eh : (((m ++ v) ++ be32 sz) ++ be32 ckpt) ++ salt_image salt = hdr24 P) by (unfold hdr24; by rewrite <- !app_assoc).
  rewrite (app_assoc (((m ++ v) ++ be32 sz) ++ be32 ckpt)), Eh.
  rewrite (mem_read_app [] (hdr24 P) (replicate 8 0)) by done. cbn -[put4byte_at be32 replicate app walChecksumBytes hdr24].
  rewrite (checksum_spec true (hdr24 P) None) by (apply hdr24_bytes || done).
  cbn -[put4byte_at be32 replicate app hdr24 u32s format_sum]. change (format_sum (u32s (hdr24 P)) (0, 0)) with (ck0 P).
  rewrite (put_app (hdr24 P) (replicate 4 0) (ck0 P).1 (replicate 4 0)) by done. cbn -[put4byte_at be32 replicate app hdr24 ck0].
  rewrite (put_app (hdr24 P ++ be32 (ck0 P).1) (replicate 4 0) (ck0 P).2 []) by (rewrite ?app_nil_r, <- ?app_assoc; done).
  cbn -[be32 app hdr24 ck0]. unfold wal_hdr. by rewrite app_nil_r, <- app_assoc.
Qed.

(** Writing the header of an empty log. *)
Lemma write_header_spec e sz flags x :
  let w := the_wal x in
  let salt := if nCkpt w =? 0 then fe_salt e else aSalt (hdr w) in
  let P := Params SQLITE_BIGENDIAN sz (nCkpt w) salt in
  file_ok (fd x) -> 8 <= sz <= 65536 -> sz mod 8 = 0 -> iReCksum w = 0 ->
  exists x' rc, write_wal_header e sz flags x = Some (x', rc) /\ file_ok (fd x') /\
    pages (st x') = pages (st x) /\
    the_wal x' = set_truncateOnCommit 1 (set_szPage sz
      (set_hdr (set_aFrameCksum (ck0 P) (set_bigEndCksum SQLITE_BIGENDIAN (set_aSalt salt (hdr w)))) w)) /\
    (rc = SQLITE_OK -> wlog x' []).
Proof.
  intros w salt P Hf Hsz Hm Hr. unfold write_wal_header.
  set (x0 := if nCkpt (the_wal x) =? 0 then with_hdr (set_aSalt (fe_salt e)) x else x).
  assert (Hx0 : aSalt (hdr (the_wal x0)) = salt /\ nCkpt (the_wal x0) = nCkpt w /\ fd x0 = fd x /\
     st x0 = on_hdr (set_aSalt salt) (st x)).
  { unfold x0, salt, w. case_cond; [done|]. split_and!; [done..|]. unfold on_hdr, on_wal. destruct x as [[[? ? ? ? ? ? ? ? ? ? ? ? [] ? ? ? ?] ?] ?]. done. }
  clearbody x0. destruct Hx0 as (Hs & Hn & Hfd & Hst).
  rewrite Hs, Hn, build_wal_header_spec. cbn -[wal_hdr ck0 u32s]. fold P.
  set (x1 := with_wal (set_truncateOnCommit 1) _).
  assert (Hw1 : the_wal x1 = set_truncateOnCommit 1 (set_szPage sz
      (set_hdr (set_aFrameCksum (ck0 P) (set_bigEndCksum SQLITE_BIGENDIAN (set_aSalt salt (hdr w)))) w))).
  { unfold x1, the_wal. simpl. by rewrite Hst. }
  assert (Hp1 : pages (st x1) = pages (st x)) by (unfold x1; simpl; by rewrite Hst).
  rewrite Hfd. destruct (sqlite3OsWrite (wal_hdr P) 0 (fd x)) as [f1 rc1] eqn:E1.
  apply os_write_spec in E1 as (Hf1 & d & Ec1 & _ & Hd); [|done|].
  2:{ apply Forall_app. split; [apply hdr24_bytes|]. apply Forall_app. split; apply be32_bytes. }
  assert (HP : forall f, handle_params (the_wal (with_fd f x1)) = P) by (intros f; change (the_wal (with_fd f x1)) with (the_wal x1); by rewrite Hw1).
  assert (Hlog : forall f, content f = content f1 -> rc1 = SQLITE_OK -> wlog (with_fd f x1) []).
  { intros f Ef Hrc. rewrite (Hd Hrc) in Ec1. split; rewrite ?HP.
    - cbn [fd with_fd]. rewrite Ef, Ec1. split; [done|constructor| |done]. apply (store_read (content (fd x)) 0 (wal_hdr P)). lia.
    - change (the_wal (with_fd f x1)) with (the_wal x1). rewrite Hw1. simpl. fold w in Hr. rewrite Hr. lia.
    - intros _. change (the_wal (with_fd f x1)) with (the_wal x1). by rewrite Hw1.
    - cbn [fd with_fd]. rewrite Ef, Ec1, store_length by lia. change (len (wal_hdr P)) with 32.
      unfold log_end, walFrameOffset, WAL_HDRSIZE. simpl. lia. }
  destruct (Z.eqb_spec rc1 SQLITE_OK) as [Hrc1|Hrc1]; cbn [negb].
  2:{ eexists _, _. split; [done|]. by split_and!. }
  case_cond.
  - destruct (sqlite3OsSync f1) as [f2 rc2] eqn:E2. apply os_sync_spec in E2 as [Hf2 Ec2]; [|done].
    eexists _, _. split; [done|]. split_and!; [done..|]. intros _. by apply Hlog.
  - eexists _, _. split; [done|]. split_and!; [done..|]. intros _. by apply Hlog.
Qed.

(** ** Frames of the transaction *)

(** Between two frames there is one on each page. *)
Lemma frame_on_page f g c :
  1 <= f <= g -> walFramePage f <= c <= walFramePage g -> exists i, f <= i <= g /\ walFramePage i = c.
Proof.
  intros Hf Hc. destruct (decide (walFramePage f = c)) as [E|E]; [exists f; split; [lia|done]|].
  destruct (walFramePage_bounds f) as (Hb & Hz & Hz2); [lia|]. destruct (walFramePage_bounds g) as (Hb' & Hz' & _); [lia|].
  assert (Hc1 : f <= zero_of c + 1 <= g) by (layout; lia). exists (zero_of c + 1). split; [done|].
  apply walFramePage_spec; [lia|]. pose proof (off_of_range c). lia.
Qed.

(** The search for a page among the frames of the transaction does not depend on pages
    that cannot be mapped. *)
Lemma find_in_txn e s share plog h x :
  txn_ok s share plog h -> env_ok e s share -> 0 < x -> 0 <= minFrame (wal s) -> 0 < readLock (wal s) ->
  exists s' rc r share', walFindFrame e x s = Some (s', rc, r) /\ grows e s s' share share' plog /\
    let g := last_frame plog (minFrame (wal s)) x (Z.to_nat (mxFrame (hdr (wal s)))) in
    (mxFrame h < r -> r = g) /\ (mxFrame h < g -> r = g).
Proof.
  intros HT HE Hx Hlo Hrl. pose proof (tx_le _ _ _ _ HT) as Hle.
  destruct (walFindFrame_spec e s share plog x (tx_inv _ _ _ _ HT) HE Hx Hlo) as (s' & rc & r & share' & E & HG & Hr & Hrr & _); [lia|lia|].
  exists s', rc, r, share'. split; [done|]. split; [done|]. intros g.
  rewrite (proj2 (Z.eqb_neq (readLock (wal s)) 0)) in Hr by lia. cbn [andb] in Hr. fold g in Hr.
  destruct (decide (rc = SQLITE_OK)) as [Hrc|Hrc]; [by rewrite (Hr Hrc)|].
  destruct (Hrr Hrc) as (-> & c & Hc & Hu & Hh). split; [lia|]. intros Hg. exfalso.
  pose proof (last_frame_latest plog (minFrame (wal s)) x (Z.to_nat (mxFrame (hdr (wal s))))) as HL. fold g in HL.
  rewrite Z2Nat.id in HL by lia. destruct HL as [[? _]|(j & Hj & Eg & _)]; [lia|]. pose proof (Hh j Hj) as Hp. destruct Hj as [_ Hj].
  destruct (frame_on_page (Z.of_nat j + 1) (mxFrame (hdr (wal s))) c) as (f & Hf & Ef); [lia|lia|].
  destruct (tx_mapped _ _ _ _ HT f) as [p Hp']; [lia|]. rewrite Ef in Hp'. by apply (Hu p).
Qed.

Lemma grows_txn e s s' share share' plog h :
  grows e s s' share share' plog -> txn_ok s share plog h -> txn_ok s' share' plog h.
Proof.
  intros HG [T1 T2 T3 T4 T5 T6]. destruct (gr_wal _ _ _ _ _ _ HG) as (ap & ro & Ew).
  split; rewrite ?Ew; [apply HG|by apply (live_evolves _ _ _ _ _ _ _ (grows_evolves _ _ _ _ _ _ HG))|done..|].
  intros f Hf. rewrite <- Ew. destruct (T6 f) as [p Hp]; [done|]. exists p. by apply (gr_mapped _ _ _ _ _ _ HG).
Qed.

(** ** The frames written by one call *)

Definition find_page (plog : list Z) (lo m x : Z) : Z := last_frame plog lo x (Z.to_nat m).

(** Whether page [p] goes over an existing frame, the last one if [isLast]. *)
Definition overwrites (find : Z -> Z) (iFirst isCommit : Z) (isLast : bool) (p : PgHdr) : bool :=
  (iFirst <>? 0) && (negb isLast || (isCommit =? 0)) && (iFirst <=? find (pgno p)).

(** The log after the pages have been written, and the flags of the pages. *)
Fixpoint logged (codec : Z -> bytes -> bytes) (find : Z -> Z) (iFirst nTruncate isCommit : Z)
  (pList : list PgHdr) (log : list frame) : list frame :=
  match pList with
  | [] => log
  | p :: rest =>
      let d := codec (pgno p) (pData p) in
      logged codec find iFirst nTruncate isCommit rest
        (if overwrites find iFirst isCommit (is_nil rest) p
         then alter (fun f => Fr (f_pgno f) (f_size f) d) (Z.to_nat (find (pgno p) - 1)) log
         else log ++ [Fr (pgno p) (if (isCommit <>? 0) && is_nil rest then nTruncate else 0) d])
  end.

Fixpoint flagged (find : Z -> Z) (iFirst isCommit : Z) (pList : list PgHdr) : list PgHdr :=
  match pList with
  | [] => []
  | p :: rest =>
      set_append (negb (overwrites find iFirst isCommit (is_nil rest) p)) p :: flagged find iFirst isCommit rest
  end.

(** The handle up to what reading and writing frames changes. *)
Definition same_handle (w w' : Wal) : Prop :=
  exists ap ro tr c r, w' = set_iReCksum r (set_hdr (set_aFrameCksum c (hdr w))
    (set_apWiData ap (set_readOnly ro (set_truncateOnCommit tr w)))).

Lemma same_handle_refl w : same_handle w w.
Proof.
  exists (apWiData w), (readOnly w), (truncateOnCommit w), (aFrameCksum (hdr w)), (iReCksum w).
  by destruct w as [? ? ? ? ? ? ? ? ? ? ? ? [] ? ? ? ?].
Qed.

Lemma same_handle_trans w1 w2 w3 : same_handle w1 w2 -> same_handle w2 w3 -> same_handle w1 w3.
Proof. intros (? & ? & ? & ? & ? & ->) (ap & ro & tr & c & r & ->). by exists ap, ro, tr, c, r. Qed.

Lemma same_wal_handle w w' : same_wal w w' -> same_handle w w'.
Proof.
  intros (ap & ro & ->). exists ap, ro, (truncateOnCommit w), (aFrameCksum (hdr w)), (iReCksum w).
  by destruct w as [? ? ? ? ? ? ? ? ? ? ? ? [] ? ? ? ?].
Qed.

Lemma rehashed_handle s s' : rehashed s s' -> same_handle (wal s) (wal s').
Proof.
  intros (c & r & _ & _ & ->). exists (apWiData (wal s)), (readOnly (wal s)), (truncateOnCommit (wal s)), c, r.
  simpl. by destruct (wal s).
Qed.

Lemma same_handle_params w w' : same_handle w w' -> handle_params w' = handle_params w.
Proof. by intros (? & ? & ? & ? & ? & ->). Qed.

(** A connection in a write transaction, with its file. *)
Record ready (e : frames_env) (x : WSt) (share : gmap Z Z) (plog : list Z) (h : WalIndexHdr) : Prop := {
  rd_txn : txn_ok (st x) share plog h;
  rd_env : env_ok (fe_pages e) (st x) share;
  rd_file : file_ok (fd x);
  rd_ck : cksum_ok (st x)
}.

Lemma ready_rehashed e x x' share plog h :
  ready e x share plog h -> rehashed (st x) (st x') -> file_ok (fd x') -> ready e x' share plog h.
Proof.
  intros [R1 R2 R3 R4] HR Hf. split; [by eapply rehashed_txn|by eapply rehashed_env|done|by eapply rehashed_ok].
Qed.

Lemma ready_grows e x s' share share' plog h :
  ready e x share plog h -> grows (fe_pages e) (st x) s' share share' plog ->
  ready e (WS s' (fd x)) share' plog h.
Proof.
  intros [R1 R2 R3 R4] HG. split; [by eapply grows_txn|apply HG|done|].
  destruct (gr_wal _ _ _ _ _ _ HG) as (ap & ro & Ew). unfold cksum_ok in *. simpl. by rewrite Ew.
Qed.

Lemma wlog_same x x' log :
  wlog x log -> content (fd x') = content (fd x) -> handle_params (the_wal x') = handle_params (the_wal x) ->
  iReCksum (the_wal x') = iReCksum (the_wal x) -> aFrameCksum (hdr (the_wal x')) = aFrameCksum (hdr (the_wal x)) ->
  wlog x' log.
Proof.
  intros [W1 W2 W3 W4] Hc HP Hr Hk. unfold good_frames in *. split; unfold good_frames; rewrite ?Hc, ?HP, ?Hr, ?Hk; done.
Qed.

(** The pages to write: what the codec makes of them are pages of the size of the log. *)
Definition pages_ok (e : frames_env) (sz : Z) (pList : list PgHdr) : Prop :=
  Forall (fun p => is_u32 (pgno p) /\ pgno p <> 0 /\ forall d, fe_codec e (pgno p) (pData p) = Some d -> page_ok sz d) pList.

Definition enc (e : frames_env) (x : Z) (d : bytes) : bytes := default [] (fe_codec e x d).

(** The last page that was appended. *)
Fixpoint last_appended (l : list PgHdr) (d : option PgHdr) : option PgHdr :=
  match l with
  | [] => d
  | p :: l => last_appended l (if pg_append p then Some p else d)
  end.

(** What a step of the writer leaves: the committed part of the file is as it was, and
    checksums are pending for frames of the transaction only. *)
Record advances (e : frames_env) (x x' : WSt) (share share' : gmap Z Z) (plog : list Z) (h : WalIndexHdr)
  (P : params) : Prop := {
  ad_ready : ready e x' share' plog h;
  ad_share : share ⊆ share';
  ad_handle : same_handle (the_wal x) (the_wal x');
  ad_keeps : forall k, k <= log_end P (Z.to_nat (mxFrame h)) -> keeps k (content (fd x)) (content (fd x'));
  ad_re : (iReCksum (the_wal x) <> 0 -> mxFrame h < iReCksum (the_wal x)) ->
    iReCksum (the_wal x') <> 0 -> mxFrame h < iReCksum (the_wal x')
}.

Lemma advances_refl e x share plog h P : ready e x share plog h -> advances e x x share share plog h P.
Proof. intros H. split; [done|done|apply same_handle_refl|intros k _; apply bytes_keep_refl|auto]. Qed.

Lemma advances_trans e x1 x2 x3 sh1 sh2 sh3 plog h P :
  advances e x1 x2 sh1 sh2 plog h P -> advances e x2 x3 sh2 sh3 plog h P -> advances e x1 x3 sh1 sh3 plog h P.
Proof.
  intros [A1 A2 A3 A4 A5] [B1 B2 B3 B4 B5]. split; [done|by etrans|by eapply same_handle_trans| |auto].
  intros k Hk. eapply bytes_keep_trans; [by apply A4|by apply B4].
Qed.

Lemma advances_rehashed e x x' share plog h P :
  ready e x share plog h -> rehashed (st x) (st x') -> file_ok (fd x') ->
  (forall k, k <= log_end P (Z.to_nat (mxFrame h)) -> keeps k (content (fd x)) (content (fd x'))) ->
  iReCksum (the_wal x') = iReCksum (the_wal x) \/ iReCksum (the_wal x') = 0 \/ mxFrame h < iReCksum (the_wal x') ->
  advances e x x' share share plog h P.
Proof.
  intros HRd HR Hf HK Hre. split; [by eapply ready_rehashed|done|by apply rehashed_handle|done|].
  intros ??. destruct Hre as [E|[?|?]]; [|done..]. rewrite E in *. auto.
Qed.

(** What [write_frames] leaves, and what it returns when it succeeds. *)
Definition wrote (e : frames_env) (x : WSt) (share : gmap Z Z) (plog : list Z) (h : WalIndexHdr) (P : params)
  (log' : list frame) (l' : list PgHdr) (pLast : option PgHdr)
  (res : option (WSt * Z * list PgHdr * Z * Z * option PgHdr)) : Prop :=
  exists x' rc l iF iO pL share', res = Some (x', rc, l, iF, iO, pL) /\
    advances e x x' share share' plog h P /\
    (rc = SQLITE_OK -> wlog x' log' /\ l = l' /\ iF = len log' /\ iO = log_end P (length log') /\
       (pgno <$> pL) = (pgno <$> last_appended l' pLast) /\ (pData <$> pL) = (pData <$> last_appended l' pLast)).

(** The search for an earlier frame of the page. *)
Lemma search_step e x share plog h log p iFirst (c : bool) P :
  let find := find_page plog (minFrame (the_wal x)) (mxFrame (hdr (the_wal x))) in
  ready e x share plog h -> wlog x log -> 0 <= minFrame (the_wal x) -> 0 < readLock (the_wal x) -> 0 < pgno p ->
  (c = true -> iFirst = mxFrame h + 1) ->
  exists x1 share1 iW, (if c then let? (s, _, iWrite) := walFindFrame (fe_pages e) (pgno p) (st x) in Some (WS s (fd x), iWrite)
      else Some (x, 0)) = Some (x1, iW) /\ advances e x x1 share share1 plog h P /\ wlog x1 log /\
    c && (iFirst <=? iW) = c && (iFirst <=? find (pgno p)) /\ (c && (iFirst <=? iW) = true -> iW = find (pgno p)).
Proof.
  intros find HRd HW Hlo Hrl Hp Hif. destruct c.
  2:{ exists x, share, 0. split; [done|]. split_and!; [by apply advances_refl|done..]. }
  specialize (Hif eq_refl).
  destruct (find_in_txn (fe_pages e) (st x) share plog h (pgno p)) as (s' & rc & r & share' & -> & HG & H1 & H2);
    [apply HRd|apply HRd|done|done|done|].
  cbn -[last_frame]. exists (WS s' (fd x)), share', r. split; [done|].
  change (last_frame plog (minFrame (wal (st x))) (pgno p) (Z.to_nat (mxFrame (hdr (wal (st x)))))) with (find (pgno p)) in *.
  destruct (gr_wal _ _ _ _ _ _ HG) as (ap & ro & Ew).
  split.
  { split; [by eapply ready_grows|apply HG|apply same_wal_handle, HG|done|]. unfold the_wal. simpl. by rewrite Ew. }
  split. { apply (wlog_same x); [done|done|..]; unfold the_wal; simpl; by rewrite Ew. }
  rewrite Hif. destruct (Z.leb_spec (mxFrame h + 1) r).
  - rewrite <- (H1 ltac:(lia)). split; [|done]. symmetry. apply Z.leb_le. lia.
  - split; [|done]. symmetry. apply Z.leb_gt. destruct (decide (mxFrame h + 1 <= find (pgno p))); [|lia].
    rewrite H2 in * by lia. lia.
Qed.

Lemma last_frame_le plog lo x n : 0 <= last_frame plog lo x n <= Z.of_nat n.
Proof. induction n as [|n IH]; cbn [last_frame]; [lia|]. case_cond; lia. Qed.

Lemma log_end_mono P i j : (i <= j)%nat -> 8 <= p_size P <= 65536 /\ p_size P mod 8 = 0 -> log_end P i <= log_end P j.
Proof. unfold log_end, walFrameOffset, WAL_FRAME_HDRSIZE. intros. nia. Qed.

Lemma last_appended_fields {A} (f : PgHdr -> A) l d d' :
  f <$> d = f <$> d' -> f <$> last_appended l d = f <$> last_appended l d'.
Proof. revert d d'. induction l as [|p l IH]; intros d d' E; simpl; [done|]. apply IH. by destruct (pg_append p). Qed.

(** An error return, and a page written before the others. *)
Lemma wrote_stop e x x2 share share2 plog h P log' l' pLast rc l iF iO pL :
  advances e x x2 share share2 plog h P -> rc <> SQLITE_OK ->
  wrote e x share plog h P log' l' pLast (Some (x2, rc, l, iF, iO, pL)).
Proof. intros. eexists _, _, _, _, _, _, share2. split; [done|]. by split_and!. Qed.

Lemma wrote_cons e x x2 share share2 plog h P log' l' pLast pLast2 (b : bool) p res :
  wrote e x2 share2 plog h P log' l' pLast2 res -> advances e x x2 share share2 plog h P ->
  pLast2 = (if b then Some p else pLast) ->
  wrote e x share plog h P log' (set_append b p :: l') pLast
    (let? (x, rc, l, iF, iO, pL) := res in Some (x, rc, set_append b p :: l, iF, iO, pL)).
Proof.
  intros (x' & rc & l & iF & iO & pL & share' & -> & H1 & H5) Ha ->.
  cbn. eexists _, _, _, _, _, _, share'. split; [done|]. split; [by eapply advances_trans|].
  intros Hrc. destruct (H5 Hrc) as (? & -> & ? & ? & E1 & E2). split_and!; [done..| |]; cbn [last_appended].
  - rewrite E1. apply last_appended_fields. by destruct b.
  - rewrite E2. apply last_appended_fields. by destruct b.
Qed.

(** The fields that do not change while frames are written. *)
Lemma advances_fields e x x' share share' plog h P :
  advances e x x' share share' plog h P ->
  handle_params (the_wal x') = handle_params (the_wal x) /\ minFrame (the_wal x') = minFrame (the_wal x) /\
  readLock (the_wal x') = readLock (the_wal x) /\ mxFrame (hdr (the_wal x')) = mxFrame (hdr (the_wal x)).
Proof. intros H. by destruct (ad_handle _ _ _ _ _ _ _ _ H) as (? & ? & ? & ? & ? & ->). Qed.

(** Writing over frame [i + 1]. *)
Lemma overwrite_step e x share plog h log i f :
  let P := handle_params (the_wal x) in
  let r := iReCksum (the_wal x) in
  let x1 := if (r =? 0) || (Z.of_nat i + 1 <? r) then with_wal (set_iReCksum (Z.of_nat i + 1)) x else x in
  ready e x share plog h -> wlog x log -> log !! i = Some f -> mxFrame h <= Z.of_nat i ->
  advances e x x1 share share plog h P /\
  forall d f' rc, page_ok (p_size P) d ->
    sqlite3OsWrite d (walFrameOffset (Z.of_nat i + 1) (p_size P) + WAL_FRAME_HDRSIZE) (fd x1) = (f', rc) ->
    advances e x (with_fd f' x1) share share plog h P /\
    (rc = SQLITE_OK -> wlog (with_fd f' x1) (<[i := Fr (f_pgno f) (f_size f) d]> log)).
Proof.
  intros P r x1 HRd HW Hi Hm.
  assert (HR : rehashed (st x) (st x1)).
  { destruct (rd_ck _ _ _ _ _ HRd) as [Hk1 Hk2]. exists (aFrameCksum (hdr (the_wal x))), (iReCksum (the_wal x1)).
    split_and!; [done..|]. unfold x1, r. destruct x as [[[? ? ? ? ? ? ? ? ? ? ? ? [] ? ? ? ?] ?] ?].
    unfold the_wal. simpl. by case_cond. }
  assert (Hre : iReCksum (the_wal x1) = r \/ iReCksum (the_wal x1) = 0 \/ mxFrame h < iReCksum (the_wal x1)).
  { unfold x1. case_cond; [|by left]. right. right. simpl. lia. }
  assert (Hfd : fd x1 = fd x) by (unfold x1; case_cond; done).
  split.
  - apply advances_rehashed; [done..| | |done]; rewrite Hfd; [apply HRd|intros; apply bytes_keep_refl].
  - intros d f' rc Hd E. apply (overwrite_spec x log i f d f' rc HW) in E as (Hf & HK & HOK); [|apply HRd|done..].
    split; [|done]. apply advances_rehashed; [done..| |done]. intros k Hk. apply HK. fold P.
    etrans; [done|]. apply log_end_mono; [pose proof (tx_le _ _ _ _ (rd_txn _ _ _ _ _ HRd)); lia|apply (wl_log _ _ HW)].
Qed.

(** Writing a frame behind the others. *)
Lemma frame_step e x share plog h log sp flags p nDb :
  let P := handle_params (the_wal x) in
  ready e x share plog h -> wlog x log -> mxFrame h <= len log -> is_u32 nDb -> pages_ok e (p_size P) [p] ->
  (0 < sp -> WAL_SYNC_FLAGS flags <> 0) ->
  exists x' rc, walWriteOneFrame (fe_codec e) sp flags (p_size P) p nDb (log_end P (length log)) x = Some (x', rc) /\
    advances e x x' share share plog h P /\ rehashed (st x) (st x') /\ iReCksum (the_wal x') = iReCksum (the_wal x) /\
    (rc = SQLITE_OK -> wlog x' (log ++ [Fr (pgno p) nDb (enc e (pgno p) (pData p))])).
Proof.
  intros P HRd HW Hm HnDb ((Hp & Hp0 & Hpd) & _)%list.Forall_cons Hsp.
  destruct (fe_codec e (pgno p) (pData p)) as [d|] eqn:Ed.
  2:{ exists x, SQLITE_NOMEM. unfold walWriteOneFrame. rewrite Ed.
      split_and!; [done|by apply advances_refl|apply rehashed_refl, HRd|done..]. }
  replace (enc e (pgno p) (pData p)) with d by (unfold enc; by rewrite Ed).
  destruct (one_frame_spec (fe_codec e) sp flags p nDb log x d HW (rd_file _ _ _ _ _ HRd) (rd_ck _ _ _ _ _ HRd) Ed)
    as (x2 & rc2 & E2 & Hf2 & HR2 & Hre2 & HK2 & HOK2); [split_and!; [done..|by apply Hpd]|done|].
  exists x2, rc2. split; [exact E2|]. split_and!; [|done..]. apply advances_rehashed; [done..| |by left].
  intros k Hk. apply HK2. fold P. etrans; [done|]. apply log_end_mono; [lia|apply (wl_log _ _ HW)].
Qed.

Lemma alter_at {A} (g : A -> A) (l : list A) (i : nat) (y : A) : l !! i = Some y -> alter g i l = <[i := g y]> l.
Proof. intros Hi. rewrite list_insert_alter. apply list_alter_ext; [|done]. intros z Hz. congruence. Qed.

Lemma write_frames_spec e nT isCommit flags iFirst plog h pList : forall x share log pLast,
  let P := handle_params (the_wal x) in
  let m := mxFrame (hdr (the_wal x)) in
  let find := find_page plog (minFrame (the_wal x)) m in
  ready e x share plog h -> wlog x log -> 0 <= minFrame (the_wal x) -> 0 < readLock (the_wal x) -> m <= len log ->
  iFirst = 0 \/ iFirst = mxFrame h + 1 -> is_u32 nT -> pages_ok e (p_size P) pList ->
  wrote e x share plog h P (logged (enc e) find iFirst nT isCommit pList log)
    (flagged find iFirst isCommit pList) pLast
    (write_frames e (p_size P) nT isCommit flags iFirst pList (len log) (log_end P (length log)) pLast x).
Proof.
  induction pList as [|p rest IH]; intros x share log pLast P m find HRd HW Hlo Hrl Hm Hif HnT Hpg; cbn [write_frames].
  { eexists x, SQLITE_OK, [], _, _, _, share. split; [done|]. split; [by apply advances_refl|]. intros _. by split_and!. }
  apply list.Forall_cons in Hpg as [Hpp Hpg].
  set (il := is_nil rest) in *. set (c := (iFirst <>? 0) && (negb il || (isCommit =? 0))).
  pose proof (tx_le _ _ _ _ (rd_txn _ _ _ _ _ HRd)) as Hle. change (mxFrame (hdr (wal (st x)))) with m in Hle.
  destruct (search_step e x share plog h log p iFirst c P) as (x1 & share1 & iW & -> & HA1 & HW1 & Eov & EiW);
    [done..|destruct Hpp as (Hp & ? & _); unfold is_u32 in Hp; lia| |].
  { unfold c. intros (? & _)%andb_true_iff. bool_to_prop. lia. }
  fold m find in Eov, EiW. change (c && (iFirst <=? find (pgno p))) with (overwrites find iFirst isCommit il p) in Eov.
  cbn -[write_frames overwrites]. cbn [logged flagged]. fold il.
  pose proof (advances_fields _ _ _ _ _ _ _ _ HA1) as (HP1 & _). fold P in HP1.
  pose proof (ad_ready _ _ _ _ _ _ _ _ HA1) as HRd1. change (szPage (the_wal x)) with (p_size P).
  assert (Hnext : forall x2 share2 log2 pL, advances e x x2 share share2 plog h P -> wlog x2 log2 -> m <= len log2 ->
    wrote e x2 share2 plog h P (logged (enc e) find iFirst nT isCommit rest log2) (flagged find iFirst isCommit rest) pL
      (write_frames e (p_size P) nT isCommit flags iFirst rest (len log2) (log_end P (length log2)) pL x2)).
  { intros x2 share2 log2 pL HA HW2 Hm2. pose proof (advances_fields _ _ _ _ _ _ _ _ HA) as (E1 & E2 & E3 & E4).
    specialize (IH x2 share2 log2 pL). cbv zeta in IH. rewrite E1, E2, E3, E4 in IH. apply IH; try done. apply HA. }
  rewrite Eov in *. destruct (overwrites find iFirst isCommit il p) eqn:Eo.
  - specialize (EiW eq_refl). set (i := Z.to_nat (find (pgno p) - 1)).
    assert (Hfp : mxFrame h + 1 <= find (pgno p) <= m).
    { unfold overwrites in Eo. destruct (Z.eqb_spec iFirst 0); [done|]. destruct Hif as [?|Hif]; [done|].
      apply andb_true_iff in Eo as [_ Eo%Z.leb_le]. pose proof (last_frame_le plog (minFrame (the_wal x)) (pgno p) (Z.to_nat m)).
      unfold find, find_page in *. lia. }
    replace iW with (Z.of_nat i + 1) by lia. clear EiW.
    destruct (lookup_lt_is_Some_2 log i) as [f Hi]; [lia|].
    destruct (overwrite_step e x1 share1 plog h log i f) as [HA2 Hwr]; [done..|lia|]. rewrite HP1 in HA2, Hwr.
    pose proof (advances_trans _ _ _ _ _ _ _ _ _ _ HA1 HA2) as HA12.
    set (x2 := if (iReCksum (the_wal x1) =? 0) || (Z.of_nat i + 1 <? iReCksum (the_wal x1)) then with_wal (set_iReCksum (Z.of_nat i + 1)) x1 else x1) in *.
    destruct (fe_codec e (pgno p) (pData p)) as [d|] eqn:Ed; [|by apply (wrote_stop e x x2 share share1)].
    assert (Hd : page_ok (p_size P) d) by (destruct Hpp as (_ & _ & Hpd); by apply Hpd). rewrite page_read by done. cbn -[write_frames].
    destruct (sqlite3OsWrite d _ (fd x2)) as [f2 rc2] eqn:E2. apply Hwr in E2 as [HA3 HOK2]; [|done].
    pose proof (advances_trans _ _ _ _ _ _ _ _ _ _ HA1 HA3) as HA13.
    destruct (Z.eqb_spec rc2 0) as [Hrc2|Hrc2]; cbn [negb]; [|by apply (wrote_stop e x (with_fd f2 x2) share share1)].
    rewrite (alter_at _ log i f) by done. replace (enc e (pgno p) (pData p)) with d by (unfold enc; by rewrite Ed).
    apply (wrote_cons e x (with_fd f2 x2) share share1 _ _ _ _ _ pLast pLast false); [|done|done].
    specialize (Hnext _ _ (<[i := Fr (f_pgno f) (f_size f) d]> log) pLast HA13 (HOK2 Hrc2)).
    rewrite length_insert in Hnext. by apply Hnext.
  - change (walFrameOffset (len log + 1) (p_size P)) with (log_end P (length log)). rewrite Z.eqb_refl. cbn [negb].
    set (nDb := if (isCommit <>? 0) && il then nT else 0).
    assert (HnDb : is_u32 nDb) by (unfold nDb; case_cond; done).
    destruct (frame_step e x1 share1 plog h log 0 flags p nDb) as (x2 & rc2 & E2 & HA2 & _ & _ & HOK2);
      [done|done|lia|done|by rewrite HP1; constructor|lia|].
    rewrite HP1 in E2, HA2. rewrite E2. cbn -[write_frames].
    pose proof (advances_trans _ _ _ _ _ _ _ _ _ _ HA1 HA2) as HA12.
    destruct (Z.eqb_spec rc2 0) as [Hrc2|Hrc2]; cbn [negb]; [|by apply (wrote_stop e x x2 share share1)].
    apply (wrote_cons e x x2 share share1 _ _ _ _ _ pLast (Some p) true); [|done..].
    specialize (Hnext _ _ _ (Some p) HA12 (HOK2 Hrc2)). rewrite length_app in Hnext. simpl length in Hnext.
    rewrite Nat.add_1_r, log_end_S, Nat2Z.inj_succ in Hnext. apply Hnext. lia.
Qed.

(** ** Padding and the index *)

Lemma pad_frames_spec fuel e nT flags sp p : forall x share plog h log nExtra,
  let P := handle_params (the_wal x) in
  let fr := Fr (pgno p) nT (enc e (pgno p) (pData p)) in
  ready e x share plog h -> wlog x log -> mxFrame h <= len log -> is_u32 nT -> pages_ok e (p_size P) [p] ->
  WAL_SYNC_FLAGS flags <> 0 -> sp - log_end P (length log) <= Z.of_nat fuel ->
  exists x' rc n, pad_frames fuel e (p_size P) nT flags sp (log_end P (length log)) nExtra (Some p) x =
      Some (x', rc, nExtra + Z.of_nat n) /\
    advances e x x' share share plog h P /\ iReCksum (the_wal x') = iReCksum (the_wal x) /\
    (rc = SQLITE_OK -> wlog x' (log ++ replicate n fr)) /\ (n <= fuel)%nat.
Proof.
  induction fuel as [|fuel IH]; intros x share plog h log nExtra P fr HRd HW Hm HnT Hpg Hfl Hfu; cbn [pad_frames].
  all: destruct (Z.ltb_spec (log_end P (length log)) sp); [|
    exists x, SQLITE_OK, 0%nat; rewrite Z.add_0_r, app_nil_r; split_and!; [done|by apply advances_refl|done|done|lia] ].
  { lia. }
  cbn -[pad_frames walWriteOneFrame log_end p_size P].
  destruct (frame_step e x share plog h log sp flags p nT) as (x2 & rc2 & E2 & HA2 & HR2 & Hre2 & HOK2); [done..|].
  fold P in E2, HA2. rewrite E2. cbn -[pad_frames].
  destruct (Z.eqb_spec rc2 0) as [Hrc2|Hrc2]; cbn [negb].
  2:{ exists x2, rc2, 0%nat. rewrite Z.add_0_r. by split_and!; [done..|lia]. }
  assert (HP2 : handle_params (the_wal x2) = P) by by apply rehashed_params.
  specialize (IH x2 share plog h (log ++ [fr]) (nExtra + 1)). cbv zeta in IH. fold fr in IH.
  rewrite HP2, length_app in IH. simpl length in IH. rewrite Nat.add_1_r, log_end_S in IH.
  destruct IH as (x' & rc & n & E3 & HA3 & Hre3 & HOK3 & Hn3); [apply HA2|by apply HOK2|lia|done|done|done| |].
  { pose proof (lf_size _ _ _ _ (wl_log _ _ HW)) as [Hsz _]. change (handle_params (the_wal x)) with P in Hsz.
    unfold WAL_FRAME_HDRSIZE. lia. }
  exists x', rc, (S n). replace (nExtra + Z.of_nat (S n)) with (nExtra + 1 + Z.of_nat n) by lia.
  split; [exact E3|]. split_and!; [by eapply advances_trans|congruence| |lia].
  intros Hrc. specialize (HOK3 Hrc). by rewrite <- app_assoc in HOK3.
Qed.

(** Entering the appended frames in the index. *)
Lemma append_index_spec e l : forall s share plog (k : nat),
  inv s share plog -> env_ok e s share -> writeLock (wal s) <> 0 -> Forall (fun x => 0 < x) l ->
  Z.of_nat k + len l < 2 ^ 31 -> (k <= length plog)%nat -> k = length plog \/ Z.of_nat k = mxFrame (hdr (wal s)) ->
  exists s' rc iF share' plog', append_index e l (Z.of_nat k) s = Some (s', rc, iF) /\
    evolves e s s' share share' plog' /\ (k <= length plog')%nat /\ take k plog' = take k plog /\
    (rc = SQLITE_OK -> iF = Z.of_nat k + len l /\ Z.of_nat k + len l <= len plog' /\
       take (k + length l) plog' = take k plog ++ l /\
       forall f, Z.of_nat k < f <= Z.of_nat k + len l -> exists p, mapped (wal s') (walFramePage f) p).
Proof.
  induction l as [|x l IH]; intros s share plog k HI HE Hw Hl Hk Hkl Hor; cbn [append_index].
  { eexists s, SQLITE_OK, _, share, plog. split; [done|]. split; [by apply grows_evolves, grows_refl|].
    split_and!; [done..|]. intros _. simpl. rewrite Z.add_0_r, Nat.add_0_r, app_nil_r. split_and!; [done|lia|done|lia]. }
  apply list.Forall_cons in Hl as [Hx Hl]. simpl length in Hk.
  destruct (walIndexAppend_spec e s share plog k x HI HE Hw Hx) as (s1 & rc1 & share1 & -> & HV & Hm1 & _); [lia|done|done|].
  cbn -[append_index]. destruct (Z.eqb_spec rc1 SQLITE_OK) as [->|Hrc1]; cbn [negb].
  2:{ exists s1, rc1, (Z.of_nat k + 1), share1, plog. by split_and!. }
  destruct (ev_wal _ _ _ _ _ _ HV) as (ap & ro & Ew).
  assert (Hlen : length (take k plog ++ [x]) = S k) by (rewrite length_app, length_take; simpl; lia).
  destruct (IH s1 share1 (take k plog ++ [x]) (S k)) as (s2 & rc & iF & share2 & plog2 & E & HV2 & Hk2 & Ht2 & HOK);
    [apply HV|apply HV|by rewrite Ew|done|lia|lia|by left|].
  replace (Z.of_nat (S k)) with (Z.of_nat k + 1) in E by lia. rewrite E.
  assert (Htk : take k plog2 = take k plog).
  { apply (f_equal (take k)) in Ht2. rewrite !take_take, !Nat.min_l in Ht2 by lia.
    rewrite Ht2, take_app_le by (rewrite length_take; lia). by rewrite take_take, Nat.min_id. }
  exists s2, rc, iF, share2, plog2. split; [done|]. split; [by eapply evolves_trans|]. split_and!; [lia|done|].
  intros Hrc. destruct (HOK Hrc) as (-> & Hl2 & Ht & Hm2). simpl length. split_and!; [lia|lia| |].
  - rewrite <- Hlen, firstn_all, Hlen in Ht. replace (k + S (length l))%nat with (S k + length l)%nat by lia.
    rewrite Ht, <- app_assoc. done.
  - intros f Hf. destruct (decide (f = Z.of_nat k + 1)) as [->|]; [|apply Hm2; lia].
    destruct (Hm1 eq_refl) as [p Hp]. exists p. by apply (ev_mapped _ _ _ _ _ _ HV2).
Qed.
End WalLogs.
