(* ===== verification/WalCommit.v ===== *)
(** * Write-ahead log: transactions on the log file (src/wal.c)

    What a writer relies on between its calls of [walFrames], and what the calls leave.

    - [committed]: the file holds a log whose frames are all sealed.
    - [writer]: a connection in a write transaction, the log it has written so far, and the
      wal-index with an entry for each frame.
    - [recoverable]: what is left when [walFrames] has failed, from which [sqlite3WalUndo]
      restores a [writer].

    Each part of [walFrames] has its lemma ([header_stage], [write_frames_spec],
    [recheck_stage], [sync_stage], [limit_stage], [index_stage]). *)

From stdpp Require Import list gmap.
From S2P Require Import Prelude Varint WalData WalIndex WalTxn WalFrame WalWrite WalLog.
Import WalTypes WalIndexes WalTxns WalFrames WalWrites WalLogs.
Local Open Scope Z_scope.

Module WalCommits.

(** ** States *)

Definition committed (c : bytes) (P : params) (log : list frame) : Prop :=
  log_file c P log (length log) /\ log_end P (length log) <= len c.

(** The header [h] describes the log. *)
Definition describes (h : WalIndexHdr) (P : params) (log : list frame) : Prop :=
  aFrameCksum h = chain (native P) (ck0 P) log /\ aSalt h = p_salt P /\ bigEndCksum h = p_big P.

Record recoverable (e : frames_env) (x : WSt) (share : gmap Z Z) (plog : list Z) (h : WalIndexHdr)
  (log : list frame) : Prop := {
  rc_ready : ready e x share plog h;
  rc_read : 0 < readLock (the_wal x) /\ 0 <= minFrame (the_wal x);
  rc_len : len log = mxFrame h;
  rc_index : take (length log) plog = f_pgno <$> log;
  rc_log : log <> [] -> committed (content (fd x)) (handle_params (the_wal x)) log /\
    describes h (handle_params (the_wal x)) log
}.

Record writer (e : frames_env) (x : WSt) (share : gmap Z Z) (plog : list Z) (h : WalIndexHdr)
  (log : list frame) : Prop := {
  wr_ready : ready e x share plog h;
  wr_read : 0 < readLock (the_wal x) /\ 0 <= minFrame (the_wal x);
  wr_len : len log = mxFrame (hdr (the_wal x));
  wr_index : take (length log) plog = f_pgno <$> log;
  wr_log : log <> [] -> wlog x log;
  wr_new : log = [] -> iReCksum (the_wal x) = 0;
  wr_re : iReCksum (the_wal x) <> 0 -> mxFrame h < iReCksum (the_wal x);
  wr_hdr : mxFrame h <> 0 ->
    describes h (handle_params (the_wal x)) (take (Z.to_nat (mxFrame h)) log)
}.

Lemma log_file_prefix c P log good n :
  log_file c P log good -> (n <= good)%nat -> (n <= length log)%nat -> log_file c P (take n log) n.
Proof.
  intros [H1 H2 H3 H4] Hn Hl. split; [|by apply Forall_take|done|done].
  intros i f (Hi & Hin)%lookup_take_Some. destruct (H1 i f Hi) as (t & Ht & Hr & Hs).
  exists t. split_and!; [done..|]. intros _. rewrite (Hs ltac:(lia)). unfold seal. by rewrite take_take, Nat.min_l by lia.
Qed.

Lemma committed_keeps c c' P log :
  committed c P log -> keeps (log_end P (length log)) c c' -> committed c' P log.
Proof. intros [H1 H2] HK. split; [by eapply log_file_keeps|by apply HK]. Qed.

Lemma writer_recoverable e x share plog h log :
  writer e x share plog h log -> recoverable e x share plog h (take (Z.to_nat (mxFrame h)) log).
Proof.
  intros [H1 H2 H3 H4 H5 H6 H7 H8].
  pose proof (tx_le _ _ _ _ (rd_txn _ _ _ _ _ H1)) as [Hle _]. change (wal (st x)) with (the_wal x) in Hle.
  assert (Hlen : length (take (Z.to_nat (mxFrame h)) log) = Z.to_nat (mxFrame h)) by (rewrite length_take; lia).
  split; [done|done|rewrite Hlen; lia| |].
  - rewrite Hlen, fmap_take, <- H4, take_take, Nat.min_l by lia. done.
  - intros Hne. assert (Hm : mxFrame h <> 0) by (intros E; rewrite E in Hne; done).
    split; [|by apply H8]. assert (HW : wlog x log) by (apply H5; intros ->; simpl in *; lia).
    destruct HW as [W1 W2 W3 W4]. split; rewrite Hlen.
    + eapply log_file_prefix; [done| |lia]. unfold good_frames. destruct (Z.eqb_spec (iReCksum (the_wal x)) 0); [lia|].
      specialize (H7 ltac:(done)). lia.
    + etrans; [|done]. apply log_end_mono; [lia|apply W1].
Qed.

(** ** The parts of [walFrames] *)

Lemma set_truncate_ready e x share plog h v :
  ready e x share plog h -> ready e (with_wal (set_truncateOnCommit v) x) share plog h.
Proof.
  intros [[R1 R2 R3 R4 R5 R6] R7 R8 R9]. split; [split; try done; by apply (inv_wal (st x))|by apply (env_wal _ (st x))|done|done].
Qed.

Lemma ready_fd e x share plog h f :
  ready e x share plog h -> file_ok f -> ready e (with_fd f x) share plog h.
Proof. intros [R1 R2 R3 R4] Hf. by split. Qed.

Lemma advances_fd e x share plog h P f :
  ready e x share plog h -> file_ok f ->
  (forall k, k <= log_end P (Z.to_nat (mxFrame h)) -> keeps k (content (fd x)) (content f)) ->
  advances e x (with_fd f x) share share plog h P.
Proof.
  intros HRd Hf HK. split; [by apply ready_fd|done|apply same_handle_refl|done|auto].
Qed.

Lemma wlog_fd x f log : wlog x log -> keeps (log_end (handle_params (the_wal x)) (length log)) (content (fd x)) (content f) ->
  wlog (with_fd f x) log.
Proof.
  intros [W1 W2 W3 W4] HK. split; [|done|done|by apply HK]. by eapply log_file_keeps.
Qed.

Lemma limit_size_spec nMax f :
  file_ok f -> 0 <= nMax -> file_ok (walLimitSize nMax f) /\
    forall k, k <= nMax -> keeps k (content f) (content (walLimitSize nMax f)).
Proof.
  intros Hf Hn. unfold walLimitSize, sqlite3OsFileSize. destruct (next_answer f) as [a f1] eqn:E1.
  destruct (next_answer_ok _ _ _ Hf E1) as (Hf1 & _ & Ec1).
  case_cond; [|split; [done|]; intros; rewrite Ec1; apply bytes_keep_refl].
  unfold sqlite3OsTruncate. destruct (next_answer f1) as [a2 f2] eqn:E2.
  destruct (next_answer_ok _ _ _ Hf1 E2) as (Hf2 & _ & Ec2). destruct Hf2 as [Hb2 Hs2].
  case_cond; simpl; [|split; [done|]; intros; rewrite Ec2, Ec1; apply bytes_keep_refl].
  split; [split; [by apply Forall_take|done]|]. intros k Hk Hl. rewrite Ec2, Ec1, length_take. split; [lia|].
  by rewrite take_take, Nat.min_l by lia.
Qed.

Lemma limit_stage e x share plog h log sz isCommit :
  let P := handle_params (the_wal x) in
  let x' := frames_limit sz isCommit (len log + 1) x in
  ready e x share plog h -> wlog x log -> mxFrame h <= len log -> sz = p_size P ->
  advances e x x' share share plog h P /\ wlog x' log /\ iReCksum (the_wal x') = iReCksum (the_wal x).
Proof.
  intros P x' HRd HW Hm ->. unfold x', frames_limit. clear x'.
  destruct ((isCommit <>? 0) && _ && _); [|split_and!; [by apply advances_refl|done..]].
  change (walFrameOffset (len log + 1) (p_size P)) with (log_end P (length log)).
  set (sz2 := if mxWalSize (the_wal x) <? log_end P (length log) then log_end P (length log) else mxWalSize (the_wal x)).
  assert (Hsz2 : log_end P (length log) <= sz2) by (unfold sz2; case_cond; lia).
  pose proof (lf_size _ _ _ _ (wl_log _ _ HW)) as Hsz. change (handle_params (the_wal x)) with P in Hsz.
  pose proof (log_end_ge P (length log) ltac:(lia)).
  destruct (limit_size_spec sz2 (fd x) (rd_file _ _ _ _ _ HRd)) as [Hf HK]; [lia|].
  split_and!; [|apply (wlog_same (with_fd (walLimitSize sz2 (fd x)) x)); try done; apply wlog_fd; [done|by apply HK]|done].
  split; [by apply set_truncate_ready, ready_fd|done| | |done].
  - exists (apWiData (the_wal x)), (readOnly (the_wal x)), 0, (aFrameCksum (hdr (the_wal x))), (iReCksum (the_wal x)).
    unfold the_wal. simpl. destruct (wal (st x)) as [? ? ? ? ? ? ? ? ? ? ? ? [] ? ? ? ?]; done.
  - intros k Hk. apply HK. etrans; [done|]. etrans; [|done]. by apply log_end_mono; [lia|].
Qed.

Lemma recheck_stage e x share plog h log isCommit :
  let P := handle_params (the_wal x) in
  ready e x share plog h -> wlog x log -> mxFrame h <= len log ->
  (iReCksum (the_wal x) <> 0 -> mxFrame h < iReCksum (the_wal x)) ->
  exists x' rc, (if (isCommit <>? 0) && (iReCksum (the_wal x) <>? 0) then walRewriteChecksums (fe_malloc e) (len log) x
      else Some (x, SQLITE_OK)) = Some (x', rc) /\ advances e x x' share share plog h P /\
    (rc = SQLITE_OK -> wlog x' log /\ (isCommit <> 0 -> iReCksum (the_wal x') = 0)).
Proof.
  intros P HRd HW Hm Hre. destruct (Z.eqb_spec isCommit 0) as [Hc|Hc]; cbn [negb andb].
  { exists x, SQLITE_OK. split_and!; [done|by apply advances_refl|done]. }
  destruct (Z.eqb_spec (iReCksum (the_wal x)) 0) as [Hr|Hr]; cbn [negb].
  { exists x, SQLITE_OK. split_and!; [done|by apply advances_refl|done]. }
  destruct (rewrite_checksums_spec (fe_malloc e) x log HW (rd_file _ _ _ _ _ HRd) (rd_ck _ _ _ _ _ HRd) Hr)
    as (x' & rc & -> & Hf & HR & Hr' & HK & HOK).
  exists x', rc. split; [done|]. split; [|intros Hrc; destruct (HOK Hrc); done].
  apply advances_rehashed; [done..| |tauto]. intros k Hk. apply HK. etrans; [done|]. fold P.
  apply log_end_mono; [|apply (wl_log _ _ HW)]. unfold good_frames. rewrite (proj2 (Z.eqb_neq _ _)) by done.
  specialize (Hre Hr). lia.
Qed.


Lemma hdr_ok_big h v : hdr_ok h -> is_byte v -> hdr_ok (set_bigEndCksum v h).
Proof.
  intros [H1 H2 H3 H4] Hv. split; try done. unfold hdr_words in *. simpl. rewrite !list.Forall_cons in *.
  split_and!; try tauto. unfold is_u32, is_byte in *. rewrite !Z.shiftl_mul_pow2 by lia. lia.
Qed.

(** The header of the log, written before the first frame. *)
Lemma header_stage e x share plog h log sz flags :
  writer e x share plog h log -> 8 <= sz <= 65536 -> sz mod 8 = 0 -> is_u32 (fe_salt e).1 -> is_u32 (fe_salt e).2 ->
  exists x1 rc, (if mxFrame (hdr (the_wal x)) =? 0 then write_wal_header e sz flags x else Some (x, SQLITE_OK)) = Some (x1, rc) /\
    ready e x1 share plog h /\ readLock (the_wal x1) = readLock (the_wal x) /\ minFrame (the_wal x1) = minFrame (the_wal x) /\
    mxFrame (hdr (the_wal x1)) = mxFrame (hdr (the_wal x)) /\ iReCksum (the_wal x1) = iReCksum (the_wal x) /\
    (log <> [] -> x1 = x) /\ (rc = SQLITE_OK -> wlog x1 log).
Proof.
  intros HW Hsz Hmod Hs1 Hs2. pose proof (wr_len _ _ _ _ _ _ HW) as Hlen.
  destruct (Z.eqb_spec (mxFrame (hdr (the_wal x))) 0) as [Hm|Hm].
  2:{ exists x, SQLITE_OK. assert (log <> []) by (intros ->; done). split_and!; try done; [apply HW|]. intros _. by apply HW. }
  assert (log = []) as -> by (apply nil_length_inv; lia).
  pose proof (wr_ready _ _ _ _ _ _ HW) as HRd. pose proof (wr_new _ _ _ _ _ _ HW eq_refl) as Hr.
  destruct (write_header_spec e sz flags x) as (x1 & rc & -> & Hf1 & Hp1 & Hw1 & HOK); [apply HRd|done..|].
  exists x1, rc. rewrite Hw1. split_and!; try done. destruct HRd as [[R1 R2 R3 R4 R5 R6] R7 R8 [R9 R10]].
  assert (Est : st x1 = Sys (the_wal x1) (pages (st x))) by (rewrite <- Hp1; unfold the_wal; by destruct (st x1)).
  rewrite Hw1 in Est. match goal with H : st x1 = Sys ?w _ |- _ => set (w' := w) in H end.
  set (salt := if nCkpt (the_wal x) =? 0 then fe_salt e else aSalt (hdr (the_wal x))) in *.
  assert (Hh : hdr_ok (hdr (wal (st x1)))).
  { rewrite Est. apply hdr_ok_cksum; [|apply ck0_range..]. apply hdr_ok_big; [|done].
    apply hdr_ok_salt; [done|..]; unfold salt; case_cond; try done; destruct R3 as [R3 _ _ _];
    unfold hdr_words in R3; rewrite !list.Forall_cons in R3; tauto. }
  split; [split| |done|]; unfold cksum_ok; rewrite ?Est in *; try done.
  - by apply (inv_wal (st x)).
  - by apply (env_wal _ (st x)).
  - apply ck0_range.
Qed.

(** The padding and the sync. *)
Lemma sync_stage e x share plog h log nT isCommit flags pLast p :
  let P := handle_params (the_wal x) in
  ready e x share plog h -> wlog x log -> mxFrame h <= len log -> is_u32 nT ->
  (isCommit <> 0 -> pLast = Some p /\ pages_ok e (p_size P) [p]) ->
  exists x' rc n stop, frames_sync e (p_size P) nT isCommit flags (log_end P (length log)) pLast x =
      Some (x', rc, Z.of_nat n, stop) /\ advances e x x' share share plog h P /\
    iReCksum (the_wal x') = iReCksum (the_wal x) /\ (stop = true -> rc <> SQLITE_OK) /\
    (stop = false -> wlog x' (log ++ replicate n (Fr (pgno p) nT (enc e (pgno p) (pData p))))) /\
    Z.of_nat n <= 65536 /\ (isCommit = 0 -> n = 0%nat).
Proof.
  intros P HRd HW Hm HnT Hp. unfold frames_sync. destruct (Z.eqb_spec isCommit 0) as [Hc|Hc]; cbn [negb andb].
  { exists x, SQLITE_OK, 0%nat, false. rewrite app_nil_r. split_and!; try done; by apply advances_refl. }
  destruct (Hp Hc) as [-> Hpg]. destruct (Z.eqb_spec (WAL_SYNC_FLAGS flags) 0) as [Hf|Hf]; cbn [negb].
  { exists x, SQLITE_OK, 0%nat, false. rewrite app_nil_r. split_and!; try done; by apply advances_refl. }
  set (ss := sqlite3SectorSize (fe_sector e)).
  assert (Hss : 32 <= ss <= 65536) by (unfold ss, sqlite3SectorSize; repeat case_cond; lia).
  set (sp := (log_end P (length log) + ss - 1) / ss * ss).
  assert (Hsp : 0 <= sp - log_end P (length log) < ss) by (unfold sp; Z.div_mod_to_equations; nia).
  assert (Hpad : exists x1 rc1 n b, (if padToSectorBoundary (the_wal x) <>? 0 then
         let? (x, rc, nExtra) :=
           pad_frames (Z.to_nat (sp - log_end P (length log))) e (p_size P) nT flags sp (log_end P (length log)) 0 (Some p) x in
         Some (x, rc, nExtra, sp =? log_end P (length log))
       else Some (x, SQLITE_OK, 0, true)) = Some (x1, rc1, Z.of_nat n, b) /\ advances e x x1 share share plog h P /\
    iReCksum (the_wal x1) = iReCksum (the_wal x) /\
    (rc1 = SQLITE_OK -> wlog x1 (log ++ replicate n (Fr (pgno p) nT (enc e (pgno p) (pData p))))) /\ Z.of_nat n <= 65536).
  { destruct (Z.eqb_spec (padToSectorBoundary (the_wal x)) 0); cbn [negb].
    { exists x, SQLITE_OK, 0%nat, true. rewrite app_nil_r. split_and!; try done; by apply advances_refl. }
    destruct (pad_frames_spec (Z.to_nat (sp - log_end P (length log))) e nT flags sp p x share plog h log 0)
      as (x1 & rc1 & n1 & E & HA & Hre & HOK & Hn); [done..|fold P; lia|]. fold P in E. rewrite E. cbn.
    eexists x1, rc1, n1, _. rewrite Z.add_0_l. split_and!; try done. lia. }
  destruct Hpad as (x1 & rc1 & n & b & E1 & HA1 & Hre1 & HOK1 & Hn1). fold ss. fold sp. rewrite E1. cbn.
  destruct (Z.eqb_spec rc1 0) as [Hrc1|Hrc1]; cbn [negb].
  2:{ exists x1, rc1, n, true. by split_and!. }
  destruct b.
  - destruct (sqlite3OsSync (fd x1)) as [f2 rc2] eqn:E2.
    apply os_sync_spec in E2 as [Hf2 Ec2]; [|apply (rd_file _ _ _ _ _ (ad_ready _ _ _ _ _ _ _ _ HA1))].
    exists (with_fd f2 x1), rc2, n, false. split_and!; try done.
    + eapply advances_trans; [done|]. apply advances_fd; [apply HA1|done|]. intros; rewrite Ec2; apply bytes_keep_refl.
    + intros _. apply wlog_fd; [by apply HOK1|]. rewrite Ec2. apply bytes_keep_refl.
  - exists x1, rc1, n, false. split_and!; try done. intros _. by apply HOK1.
Qed.

Lemma hdr_ok_frames h sz m n c :
  hdr_ok h -> is_u32 m -> is_u32 n -> is_u32 c ->
  hdr_ok (set_mxFrame m (set_hdr_szPage (u16 sz) h)) /\
  hdr_ok (set_nPage n (set_iChange c (set_mxFrame m (set_hdr_szPage (u16 sz) h)))).
Proof.
  intros [H1 H2 H3 H4] Hm Hn Hc. assert (Hu : 0 <= u16 sz < 2 ^ 16) by (unfold u16; apply Z.mod_pos_bound; lia).
  unfold hdr_words in *. rewrite !list.Forall_cons in H1.
  assert (is_u32 (isInit h + Z.shiftl (bigEndCksum h) 8 + Z.shiftl (u16 sz) 16)).
  { unfold is_u32, is_byte in *. rewrite !Z.shiftl_mul_pow2 by lia. lia. }
  split; split; try done; unfold hdr_words; simpl; rewrite !list.Forall_cons; tauto.
Qed.

(** The page size as the header stores it: 1 stands for 65536. *)
Definition size_code (sz : Z) : Z := u16 (Z.lor (Z.land sz 0xff00) (Z.shiftr sz 16)).

(** What the last part of [walFrames] leaves in the handle. *)
Record indexed (x x' : WSt) (m nT isCommit sz : Z) : Prop := {
  id_fd : fd x' = fd x;
  id_params : handle_params (the_wal x') = handle_params (the_wal x);
  id_read : readLock (the_wal x') = readLock (the_wal x) /\ minFrame (the_wal x') = minFrame (the_wal x);
  id_re : iReCksum (the_wal x') = iReCksum (the_wal x);
  id_ck : aFrameCksum (hdr (the_wal x')) = aFrameCksum (hdr (the_wal x));
  id_mx : mxFrame (hdr (the_wal x')) = m;
  id_code : hdr_szPage (hdr (the_wal x')) = size_code sz;
  id_size : isCommit <> 0 -> nPage (hdr (the_wal x')) = nT
}.

(** The live header is [h] before a commit, and the header of the connection after it. *)
Definition next_live (isCommit : Z) (h : WalIndexHdr) (x : WSt) : WalIndexHdr :=
  if isCommit =? 0 then h else hdr (the_wal x).

(** The state after [append_index] has failed. *)
Lemma index_failed e x s share share' plog plog' h :
  ready e x share plog h -> evolves (fe_pages e) (st x) s share share' plog' ->
  mxFrame (hdr (the_wal x)) <= len plog' -> advances e x (WS s (fd x)) share share' plog' h (handle_params (the_wal x)).
Proof.
  intros [[R1 R2 R3 R4 R5 R6] R7 R8 R9] HV Hl. destruct (ev_wal _ _ _ _ _ _ HV) as (ap & ro & Ew).
  split; [|apply HV|apply same_wal_handle, HV|intros; apply bytes_keep_refl|unfold the_wal; simpl; by rewrite Ew].
  split; [split| |done|]; unfold cksum_ok; simpl; rewrite ?Ew; try done; try apply HV.
  - by eapply live_evolves.
  - simpl. split; [lia|done].
  - simpl. intros f Hf. destruct (R6 f Hf) as [p Hp]. exists p. rewrite <- Ew. by apply (ev_mapped _ _ _ _ _ _ HV).
Qed.

(** The state after the headers have been written. *)
Lemma index_written e x s share share' plog plog' h nT isCommit m sz :
  ready e x share plog h -> evolves (fe_pages e) (st x) s share share' plog' ->
  is_u32 nT -> is_u32 m -> mxFrame (hdr (the_wal x)) <= m <= len plog' ->
  (forall f, mxFrame (hdr (the_wal x)) < f <= m -> exists p, mapped (wal s) (walFramePage f) p) ->
  exists x', (let x := with_hdr (set_hdr_szPage (u16 (Z.lor (Z.land sz 0xff00) (Z.shiftr sz 16)))) (WS s (fd x)) in
    let x := with_hdr (set_mxFrame m) x in
    if isCommit <>? 0 then
      let x := with_hdr (fun h => set_nPage nT (set_iChange (u32 (iChange h + 1)) h)) x in
      let? s := walIndexWriteHdr (st x) in
      Some (with_wal (set_iCallback m) (WS s (fd x)), SQLITE_OK)
    else Some (x, SQLITE_OK)) = Some (x', SQLITE_OK) /\
    ready e x' share' plog' (next_live isCommit h x') /\ indexed x x' m nT isCommit sz.
Proof.
  intros [[R1 R2 R3 R4 R5 R6] R7 R8 R9] HV HnT Hm Hle Hmap. destruct (ev_wal _ _ _ _ _ _ HV) as (ap & ro & Ew).
  set (zz := Z.lor _ _). cbv zeta. change (wal (st x)) with (the_wal x) in *.
  destruct (hdr_ok_frames (hdr (the_wal x)) zz m nT (u32 (iChange (hdr (the_wal x)) + 1)) R3 Hm HnT (u32_range _)) as [Hk1 Hk2].
  destruct (Z.eqb_spec isCommit 0) as [Hc|Hc]; cbn [negb].
  - unfold next_live. rewrite Hc. eexists. split; [done|].
    unfold with_hdr, on_hdr, on_wal, the_wal. cbn [st wal pages]. split.
    2:{ split; unfold the_wal; simpl; rewrite ?Ew; done. }
    split; [split| |done|]; unfold cksum_ok; simpl; rewrite ?Ew; try done.
    + apply (inv_wal s); [by rewrite Ew..|apply HV].
    + by eapply live_evolves.
    + simpl. lia.
    + simpl. intros f Hf. destruct (decide (f <= mxFrame (hdr (the_wal x)))); [|destruct (Hmap f) as [p Hp]; [lia|]; exists p; by rewrite Ew in Hp].
      destruct (R6 f ltac:(lia)) as [p Hp]. apply (ev_mapped _ _ _ _ _ _ HV) in Hp. exists p. by rewrite Ew in Hp.
    + apply (env_wal _ s); [by rewrite Ew..|apply HV].
  - match goal with |- context [walIndexWriteHdr ?s0] => set (s2 := s0) end.
    assert (Hs2 : s2 = Sys (set_hdr (set_nPage nT (set_iChange (u32 (iChange (hdr (the_wal x)) + 1)) (set_mxFrame m
        (set_hdr_szPage (u16 zz) (hdr (the_wal x)))))) (wal s)) (pages s)).
    { unfold s2, the_wal. simpl. unfold on_hdr, on_wal. simpl. by rewrite Ew. }
    destruct (walIndexWriteHdr_spec (fe_pages e) s2 share' plog') as (c & s3 & -> & Hw3 & HRw & Hl3 & _).
    { rewrite Hs2. apply (inv_wal s); [done..|apply HV]. }
    { rewrite Hs2. apply (env_wal _ s); [done..|apply HV]. }
    { rewrite Hs2. simpl. by rewrite Ew. }
    { rewrite Hs2. exact Hk2. }
    eexists. split; [done|]. unfold next_live. rewrite (proj2 (Z.eqb_neq _ _)) by done.
    rewrite Hs2 in Hw3. simpl in Hw3. split.
    2:{ split; unfold the_wal; simpl; rewrite ?Hw3, ?Ew; done. }
    destruct Hl3 as (l & El & Hl1 & Hl2 & Hl3).
    split; [split| |done|]; unfold the_wal, cksum_ok; cbn [st wal pages on_wal with_wal].
    + apply (inv_wal s3); [done..|apply HRw].
    + exists l. done.
    + exact Hl3.
    + rewrite Hw3. simpl. by rewrite Ew.
    + rewrite Hw3. simpl. lia.
    + rewrite Hw3. simpl. lia.
    + apply (env_wal _ s3); [done..|apply HRw].
    + rewrite Hw3. simpl. apply R9.
Qed.

Lemma index_stage e x share plog h log nT isCommit sz l :
  let k := Z.to_nat (mxFrame (hdr (the_wal x))) in
  ready e x share plog h -> wlog x log -> 0 < readLock (the_wal x) /\ 0 <= minFrame (the_wal x) ->
  take k plog ++ l = f_pgno <$> log -> log <> [] -> len log < 2 ^ 31 -> Forall (fun x => 0 < x) l -> is_u32 nT ->
  (iReCksum (the_wal x) <> 0 -> mxFrame h < iReCksum (the_wal x)) -> (isCommit <> 0 -> iReCksum (the_wal x) = 0) ->
  (mxFrame h <> 0 -> describes h (handle_params (the_wal x)) (take (Z.to_nat (mxFrame h)) log)) ->
  exists x' rc share' plog', frames_index e sz nT isCommit l x = Some (x', rc) /\ take k plog' = take k plog /\
    (rc <> SQLITE_OK -> advances e x x' share share' plog' h (handle_params (the_wal x))) /\
    (rc = SQLITE_OK -> writer e x' share' plog' (next_live isCommit h x') log /\ indexed x x' (len log) nT isCommit sz).
Proof.
  intros k HRd HW Hrd Hpg Hne Hlog Hl HnT Hre Hre0 Hd. unfold frames_index.
  pose proof (rd_txn _ _ _ _ _ HRd) as HT. pose proof (tx_le _ _ _ _ HT) as [Hle Hle2].
  change (wal (st x)) with (the_wal x) in Hle, Hle2.
  assert (Hlen : length log = (k + length l)%nat).
  { apply (f_equal length) in Hpg. rewrite length_app, length_fmap, length_take in Hpg. lia. }
  destruct (append_index_spec (fe_pages e) l (st x) share plog k) as (s & rc & iF & share' & plog' & E & HV & Hk & Ht & HOK);
    [apply HT|apply HRd|apply HT|done|lia|lia|right; change (wal (st x)) with (the_wal x); lia|].
  replace (Z.of_nat k) with (mxFrame (hdr (the_wal x))) in * by lia. rewrite E. cbn -[walIndexWriteHdr].
  destruct (Z.eqb_spec rc SQLITE_OK) as [Hrc|Hrc]; cbn [negb].
  2:{ exists (WS s (fd x)), rc, share', plog'. split; [done|]. split; [done|]. split; [|done]. intros _.
      eapply index_failed; [done..|lia]. }
  destruct (HOK Hrc) as (-> & Hl1 & Htk & Hmap). clear HOK.
  replace (mxFrame (hdr (the_wal x)) + len l) with (len log) in * by lia.
  destruct (index_written e x s share share' plog plog' h nT isCommit (len log) sz) as (x' & E' & HRd' & HI); [done..|unfold is_u32; lia|lia|done|].
  exists x', SQLITE_OK, share', plog'. split; [exact E'|]. split; [done|]. split; [done|]. intros _. split; [|done].
  destruct HI as [I1 I2 I3 I4 I5 I6 I6' I7].
  assert (HW' : wlog x' log) by (apply (wlog_same x); [done|by rewrite I1|done..]).
  split; [done|destruct I3 as [-> ->]; done|by rewrite I6|by rewrite Hlen, Htk| |done|..].
  - done.
  - unfold next_live. destruct (Z.eqb_spec isCommit 0); [by rewrite I4|]. rewrite I4, Hre0 by done. done.
  - unfold next_live. rewrite I2. destruct (Z.eqb_spec isCommit 0) as [?|Hc]; [done|]. intros _.
    rewrite I6, Nat2Z.id, firstn_all. split_and!; [|by rewrite <- I2..].
    rewrite I5. apply (wl_ck _ _ HW). by apply Hre0.
Qed.

(** ** The log after the frames have been written *)

Lemma logged_pgnos codec find iFirst nT isCommit pList : forall log,
  f_pgno <$> logged codec find iFirst nT isCommit pList log =
    (f_pgno <$> log) ++ (pgno <$> filter (fun p => pg_append p = true) (flagged find iFirst isCommit pList)).
Proof.
  induction pList as [|p rest IH]; intros log; cbn [logged flagged]; [by rewrite app_nil_r|].
  rewrite IH. destruct (overwrites find iFirst isCommit (is_nil rest) p); rewrite filter_cons; simpl.
  - f_equal. apply list_eq. intros i. rewrite !list_lookup_fmap.
    destruct (decide (i = Z.to_nat (find (pgno p) - 1))) as [->|]; [rewrite list_lookup_alter_eq|rewrite list_lookup_alter_ne by done]; [|done].
    by destruct (log !! _).
  - by rewrite fmap_app, <- app_assoc.
Qed.

Lemma logged_take codec find iFirst nT isCommit pList n : forall log,
  (n <= length log)%nat -> Z.of_nat n < iFirst \/ iFirst = 0 ->
  take n (logged codec find iFirst nT isCommit pList log) = take n log.
Proof.
  induction pList as [|p rest IH]; intros log Hn Hi; cbn [logged]; [done|].
  destruct (overwrites find iFirst isCommit (is_nil rest) p) eqn:E.
  - rewrite IH by (rewrite ?length_alter; done). unfold overwrites in E. bool_to_prop. rewrite take_alter, decide_False; [done|lia].
  - rewrite IH by (rewrite ?length_app; done || lia). by rewrite take_app_le.
Qed.

Lemma flagged_length find iFirst isCommit pList :
  (length (filter (fun p => pg_append p = true) (flagged find iFirst isCommit pList)) <= length pList)%nat.
Proof.
  induction pList as [|p rest IH]; cbn [flagged]; [done|]. rewrite filter_cons. case_decide; simpl; lia.
Qed.

Lemma flagged_pgnos find iFirst isCommit pList :
  Forall (fun p => 0 < pgno p) pList ->
  Forall (fun x => 0 < x) (pgno <$> filter (fun p => pg_append p = true) (flagged find iFirst isCommit pList)).
Proof.
  induction 1 as [|p rest Hp _ IH]; cbn [flagged]; [constructor|]. rewrite filter_cons. case_decide; [by constructor|done].
Qed.

(** The last page of a commit is always appended. *)
Lemma commit_appends find iFirst isCommit pList : forall q d,
  isCommit <> 0 -> list.last pList = Some q -> last_appended (flagged find iFirst isCommit pList) d = Some (set_append true q).
Proof.
  induction pList as [|p rest IH]; intros q d Hc Hl; [done|]. cbn [flagged last_appended].
  destruct rest as [|p2 rest]; [|by apply IH; [|rewrite last_cons_cons in Hl]].
  simpl in Hl. injection Hl as <-. unfold overwrites. simpl. rewrite (proj2 (Z.eqb_neq isCommit 0)) by done.
  by rewrite andb_false_r.
Qed.

Lemma logged_nonempty codec plog lo iFirst nT isCommit pList log :
  pList <> [] -> iFirst = 0 \/ 0 < iFirst -> logged codec (find_page plog lo (len log)) iFirst nT isCommit pList log <> [].
Proof.
  intros Hp Hi E. apply (f_equal (fmap f_pgno)) in E. rewrite logged_pgnos in E. simpl in E.
  apply app_eq_nil in E as [Hl Hf]. apply fmap_nil_inv in Hl as ->. destruct pList as [|p rest]; [done|]. cbn [flagged] in Hf.
  assert (overwrites (find_page plog lo (len (@nil frame))) iFirst isCommit (is_nil rest) p = false) as Eo.
  { unfold overwrites, find_page. simpl. destruct (Z.eqb_spec iFirst 0); [done|]. rewrite (proj2 (Z.leb_gt iFirst 0)) by lia.
    by rewrite andb_false_r. }
  rewrite Eo, filter_cons in Hf. done.
Qed.

(** A step of the writer leaves the committed part as it is. *)
Lemma recoverable_advances e x x' share share' plog plog' h log :
  recoverable e x share plog h log -> advances e x x' share share' plog' h (handle_params (the_wal x)) ->
  take (length log) plog' = take (length log) plog -> recoverable e x' share' plog' h log.
Proof.
  intros [R1 R2 R3 R4 R5] HA Ht. pose proof (advances_fields _ _ _ _ _ _ _ _ HA) as (E1 & E2 & E3 & E4).
  split; [apply HA|by rewrite E2, E3|done|by rewrite Ht|].
  intros Hne. rewrite E1. destruct (R5 Hne) as [H1 H2]. split; [|done]. eapply committed_keeps; [done|].
  apply (ad_keeps _ _ _ _ _ _ _ _ HA). apply Z.eq_le_incl. f_equal. lia.
Qed.

(** ** [walFrames] *)

(** The result of [walFrames] from [x] on, whose live header is [h]: on an error the
    committed part and its index are as before; otherwise the log is [log'], followed by [n]
    copies of the frame [fr], and it is the committed log if this was a commit. *)
Definition outcome (e : frames_env) (x : WSt) (share : gmap Z Z) (plog : list Z) (h : WalIndexHdr) (isCommit nT : Z)
  (log' : list frame) (fr : frame) (res : option (WSt * Z)) : Prop :=
  exists x' rc share' plog', res = Some (x', rc) /\
    take (Z.to_nat (mxFrame h)) plog' = take (Z.to_nat (mxFrame h)) plog /\
    (rc <> SQLITE_OK -> advances e x x' share share' plog' h (handle_params (the_wal x))) /\
    (rc = SQLITE_OK -> exists n, writer e x' share' plog' (next_live isCommit h x') (log' ++ replicate n fr) /\
       (isCommit = 0 -> n = 0%nat) /\ handle_params (the_wal x') = handle_params (the_wal x) /\
       hdr_szPage (hdr (the_wal x')) = size_code (szPage (the_wal x)) /\
       minFrame (the_wal x') = minFrame (the_wal x) /\
       (isCommit <> 0 -> nPage (hdr (the_wal x')) = nT)).

Lemma take_le_eq {A} (n m : nat) (l l' : list A) : (n <= m)%nat -> take m l = take m l' -> take n l = take n l'.
Proof. intros H E. apply (f_equal (take n)) in E. by rewrite !take_take, !Nat.min_l in E by lia. Qed.

Lemma outcome_after e x x1 share share1 plog h isCommit nT log' fr res :
  advances e x x1 share share1 plog h (handle_params (the_wal x)) ->
  outcome e x1 share1 plog h isCommit nT log' fr res -> outcome e x share plog h isCommit nT log' fr res.
Proof.
  intros HA (x' & rc & share' & plog' & E & Ht & H1 & H2). exists x', rc, share', plog'.
  pose proof (advances_fields _ _ _ _ _ _ _ _ HA) as (EP & EM & _).
  assert (ES : szPage (the_wal x1) = szPage (the_wal x)) by exact (f_equal p_size EP). rewrite EP, ES, EM in H2.
  split_and!; [done..| |done]. intros Hrc. specialize (H1 Hrc). rewrite EP in H1.
  destruct HA as [A1 A2 A3 A4 A5], H1 as [B1 B2 B3 B4 B5].
  split; [done|by etrans|by eapply same_handle_trans| |auto]. intros k Hk. eapply bytes_keep_trans; [by apply A4|by apply B4].
Qed.

Lemma outcome_stop e x x' share share' plog h isCommit nT log' fr rc :
  advances e x x' share share' plog h (handle_params (the_wal x)) -> rc <> SQLITE_OK ->
  outcome e x share plog h isCommit nT log' fr (Some (x', rc)).
Proof. intros HA Hrc. exists x', rc, share', plog. by split_and!. Qed.

(** The transaction as [frames_finish] finds it: [l] are the pages with their flags. *)
Record written (e : frames_env) (x : WSt) (share : gmap Z Z) (plog : list Z) (h : WalIndexHdr)
  (log : list frame) (l : list PgHdr) : Prop := {
  wn_ready : ready e x share plog h;
  wn_log : wlog x log;
  wn_read : 0 < readLock (the_wal x) /\ 0 <= minFrame (the_wal x);
  wn_index : take (Z.to_nat (mxFrame (hdr (the_wal x)))) plog ++ (pgno <$> filter (fun p => pg_append p = true) l) =
    f_pgno <$> log;
  wn_pos : Forall (fun x => 0 < x) (pgno <$> filter (fun p => pg_append p = true) l);
  wn_ne : log <> [];
  wn_len : mxFrame h <= len log /\ len log + 65536 < 2 ^ 31;
  wn_re : iReCksum (the_wal x) <> 0 -> mxFrame h < iReCksum (the_wal x);
  wn_hdr : mxFrame h <> 0 -> describes h (handle_params (the_wal x)) (take (Z.to_nat (mxFrame h)) log)
}.

Lemma frames_finish_spec e x share plog h log l nT isCommit flags pLast p :
  let P := handle_params (the_wal x) in
  written e x share plog h log l -> is_u32 nT -> (isCommit <> 0 -> pLast = Some p /\ pages_ok e (p_size P) [p]) ->
  outcome e x share plog h isCommit nT log (Fr (pgno p) nT (enc e (pgno p) (pData p)))
    (frames_finish e (p_size P) nT isCommit flags l (len log) (log_end P (length log)) pLast x).
Proof.
  intros P [N1 N2 N3 N4 N5 N6 [N7 N7'] N8 N9] HnT Hp. unfold frames_finish.
  destruct (recheck_stage e x share plog h log isCommit N1 N2 N7 N8) as (x1 & rc1 & -> & HA1 & HOK1). cbn -[frames_sync p_size log_end].
  destruct (Z.eqb_spec rc1 SQLITE_OK) as [Hrc1|Hrc1]; cbn [negb]; [|by eapply outcome_stop].
  destruct (HOK1 Hrc1) as [HW1 Hre1]. clear HOK1. pose proof (ad_re _ _ _ _ _ _ _ _ HA1 N8) as HR1.
  pose proof (advances_fields _ _ _ _ _ _ _ _ HA1) as (EP1 & EM1 & EL1 & EX1). fold P in EP1.
  destruct (sync_stage e x1 share plog h log nT isCommit flags pLast p) as (x2 & rc2 & n & stop & E2 & HA2 & Hre2 & Hst & HOK2 & Hn & Hn0);
    [apply HA1|done|done|done|by rewrite EP1|].
  rewrite EP1 in E2, HA2. rewrite E2. cbn -[frames_limit frames_index p_size log_end].
  pose proof (advances_trans _ _ _ _ _ _ _ _ _ _ HA1 HA2) as HA12.
  destruct stop; [by eapply outcome_stop; [|apply Hst]|]. specialize (HOK2 eq_refl).
  set (fr := Fr (pgno p) nT (enc e (pgno p) (pData p))) in *.
  pose proof (advances_fields _ _ _ _ _ _ _ _ HA2) as (EP2 & EM2 & EL2 & EX2). rewrite EP1 in EP2.
  destruct (limit_stage e x2 share plog h (log ++ replicate n fr) (p_size P) isCommit) as (HA3 & HW3 & Hre3);
    [apply HA2|done|rewrite length_app; lia|by rewrite EP2|].
  rewrite EP2 in HA3. replace (len (log ++ replicate n fr) + 1) with (len log + Z.of_nat n + 1) in *
    by (rewrite length_app, length_replicate; lia).
  set (x3 := frames_limit _ _ _ x2) in *. pose proof (advances_trans _ _ _ _ _ _ _ _ _ _ HA12 HA3) as HA13.
  pose proof (advances_fields _ _ _ _ _ _ _ _ HA3) as (EP3 & EM3 & EL3 & EX3). rewrite EP2 in EP3.
  assert (Eex : (if Z.of_nat n =? 0 then Some [] else let? p := pLast in Some (replicate (Z.to_nat (Z.of_nat n)) (pgno p))) =
    Some (replicate n (pgno p))).
  { destruct (Z.eqb_spec (Z.of_nat n) 0); [by replace n with 0%nat by lia|]. destruct (Hp ltac:(intros E; specialize (Hn0 E); lia)) as [-> _].
    simpl. by rewrite Nat2Z.id. }
  rewrite Eex. cbn -[frames_index p_size]. destruct (Z.eqb_spec rc2 SQLITE_OK) as [Hrc2|Hrc2]; cbn [negb]; [|by eapply outcome_stop].
  apply (outcome_after e x x3 share share); [done|].
  destruct (index_stage e x3 share plog h (log ++ replicate n fr) nT isCommit (p_size P)
    ((pgno <$> filter (fun p => pg_append p = true) l) ++ replicate n (pgno p)))
    as (x' & rc & share' & plog' & E & Ht & HF & HOK).
  { apply HA13. } { done. } { rewrite EL3, EM3, EL2, EM2, EL1, EM1. done. }
  { rewrite EX3, EX2, EX1, app_assoc, N4, fmap_app, fmap_replicate. done. }
  { intros [??]%app_eq_nil. done. } { rewrite length_app, length_replicate. lia. }
  { apply Forall_app. split; [done|]. destruct (decide (isCommit = 0)) as [Hc|Hc].
    - rewrite (Hn0 Hc). constructor.
    - apply Forall_replicate. destruct (Hp Hc) as [_ [(Hu & Hz & _) _]%list.Forall_cons]. unfold is_u32 in Hu. lia. }
  { done. } { rewrite Hre3, Hre2. exact HR1. } { rewrite Hre3, Hre2. exact Hre1. }
  { rewrite EP3, take_app_le by lia. exact N9. }
  exists x', rc, share', plog'. split; [exact E|]. split.
  { eapply take_le_eq; [|exact Ht]. pose proof (tx_le _ _ _ _ (rd_txn _ _ _ _ _ (ad_ready _ _ _ _ _ _ _ _ HA13))).
    unfold the_wal. lia. }
  split; [done|]. intros Hrc. destruct (HOK Hrc) as [Hwr HI]. exists n.
  assert (ES : szPage (the_wal x3) = p_size P) by exact (f_equal p_size EP3). rewrite ES.
  split_and!; [done|done|apply HI|apply HI|apply HI|apply HI].
Qed.

(** A call of [walFrames] that the pager may make. *)
Record request (e : frames_env) (sz : Z) (pList : list PgHdr) (nT isCommit : Z) (log : list frame) : Prop := {
  rq_size : 8 <= sz <= 65536 /\ sz mod 8 = 0;
  rq_salt : is_u32 (fe_salt e).1 /\ is_u32 (fe_salt e).2;
  rq_pages : pages_ok e sz pList;
  rq_ne : pList <> [];
  rq_commit : isCommit <> 0 <-> nT <> 0;
  rq_nT : is_u32 nT;
  rq_room : len log + len pList + 65536 < 2 ^ 31
}.

Definition first_frame (x : WSt) (h : WalIndexHdr) : Z :=
  if bool_decide (hdr_words (hdr (the_wal x)) = hdr_words h) then 0 else mxFrame h + 1.

(** The log with the pages, and the frame that pads it. *)
Definition written_log (e : frames_env) (x : WSt) (plog : list Z) (h : WalIndexHdr) (nT isCommit : Z)
  (pList : list PgHdr) (log : list frame) : list frame :=
  logged (enc e) (find_page plog (minFrame (the_wal x)) (mxFrame (hdr (the_wal x)))) (first_frame x h) nT isCommit pList log.

Definition pad_frame (e : frames_env) (nT : Z) (q : PgHdr) : frame := Fr (pgno q) nT (enc e (pgno q) (pData q)).

Lemma pages_pos e sz pList : pages_ok e sz pList -> Forall (fun p => 0 < pgno p) pList.
Proof. apply Forall_impl. intros p (Hu & Hz & _). unfold is_u32 in Hu. lia. Qed.

Lemma header_recoverable e x x1 share plog h log :
  writer e x share plog h log -> ready e x1 share plog h -> readLock (the_wal x1) = readLock (the_wal x) ->
  minFrame (the_wal x1) = minFrame (the_wal x) -> (log <> [] -> x1 = x) ->
  recoverable e x1 share plog h (take (Z.to_nat (mxFrame h)) log).
Proof.
  intros HW HRd Er Em Hx. destruct log as [|f log']; [|rewrite Hx by done; by apply writer_recoverable].
  pose proof (writer_recoverable _ _ _ _ _ _ HW) as [R1 R2 R3 R4 R5]. rewrite take_nil in *.
  split; [done|by rewrite Er, Em|done|done|done].
Qed.

(** The loop over the pages, and what [frames_finish] then finds. *)
Lemma written_stage e x x1 share plog h log sz pList nT isCommit flags q :
  writer e x share plog h log -> request e sz pList nT isCommit log -> list.last pList = Some q ->
  ready e x1 share plog h -> wlog x1 log -> szPage (the_wal x1) = sz ->
  readLock (the_wal x1) = readLock (the_wal x) -> minFrame (the_wal x1) = minFrame (the_wal x) ->
  mxFrame (hdr (the_wal x1)) = mxFrame (hdr (the_wal x)) -> iReCksum (the_wal x1) = iReCksum (the_wal x) ->
  (log <> [] -> x1 = x) ->
  let iFrame := mxFrame (hdr (the_wal x)) in
  let P := handle_params (the_wal x1) in
  let log' := written_log e x plog h nT isCommit pList log in
  exists x2 rc l iF iO pL share2,
    write_frames e sz nT isCommit flags (first_frame x h) pList iFrame (walFrameOffset (iFrame + 1) sz) None x1 =
      Some (x2, rc, l, iF, iO, pL) /\ advances e x1 x2 share share2 plog h P /\
    (rc = SQLITE_OK -> written e x2 share2 plog h log' l /\ iF = len log' /\ iO = log_end P (length log') /\
       (isCommit <> 0 -> exists p, pL = Some p /\ pgno p = pgno q /\ pData p = pData q)).
Proof.
  intros HW [Q1 Q2 Q3 Q4 Q5 Q6 Q7] Hq HRd HW1 Esz Er Em Ex Ere Hx iFrame P log'.
  pose proof (wr_len _ _ _ _ _ _ HW) as Hlen. fold iFrame in Hlen, Ex.
  pose proof (rd_txn _ _ _ _ _ HRd) as HT. pose proof (tx_le _ _ _ _ HT) as [Hle Hle2].
  change (wal (st x1)) with (the_wal x1) in Hle, Hle2.
  assert (Hff : first_frame x h = 0 \/ first_frame x h = mxFrame h + 1) by (unfold first_frame; case_bool_decide; tauto).
  assert (HpP : p_size P = sz) by done.
  pose proof (write_frames_spec e nT isCommit flags (first_frame x h) plog h pList x1 share log None) as HWF.
  cbv zeta in HWF. fold P in HWF. rewrite Ex, Em, Er, HpP in HWF.
  fold log' in HWF. change (logged _ _ _ _ _ _ log) with log' in HWF.
  destruct HWF as (x2 & rc & l & iF & iO & pL & share2 & E & HA & HOK);
    [done|done|apply HW|apply HW|lia|done|done|done|].
  exists x2, rc, l, iF, iO, pL, share2. rewrite Hlen in E. split.
  { rewrite <- E. f_equal. unfold log_end. rewrite HpP, Hlen. done. }
  split; [done|]. intros Hrc. destruct (HOK Hrc) as (HW2 & -> & -> & -> & E1 & E2).
  pose proof (advances_fields _ _ _ _ _ _ _ _ HA) as (FP & FM & FR & FX). fold P in FP.
  pose proof (logged_pgnos (enc e) (find_page plog (minFrame (the_wal x)) iFrame) (first_frame x h) nT isCommit pList log) as Hpgs.
  change (logged _ _ _ _ _ _ log) with log' in Hpgs.
  assert (Hll : (length log <= length log' <= length log + length pList)%nat).
  { pose proof (flagged_length (find_page plog (minFrame (the_wal x)) iFrame) (first_frame x h) isCommit pList).
    apply (f_equal length) in Hpgs. rewrite length_app, !length_fmap in Hpgs. lia. }
  assert (Hpre : take (Z.to_nat (mxFrame h)) log' = take (Z.to_nat (mxFrame h)) log).
  { unfold log', written_log. apply logged_take; lia. }
  split_and!; [|done|done|].
  - split; [apply HA|done| | | | | | |].
    + rewrite FR, FM, Er, Em. apply HW.
    + rewrite FX, Ex, Hpgs, <- Hlen, Nat2Z.id, (wr_index _ _ _ _ _ _ HW). done.
    + by eapply flagged_pgnos, pages_pos.
    + unfold log', written_log. fold iFrame. rewrite <- Hlen. apply logged_nonempty; [done|]. lia.
    + lia.
    + apply (ad_re _ _ _ _ _ _ _ _ HA). rewrite Ere. apply HW.
    + intros Hm. rewrite FP, Hpre. unfold P. rewrite Hx by (intros ->; simpl in *; lia). by apply HW.
  - intros Hc. rewrite (commit_appends _ _ _ _ q) in E1, E2 by done. destruct pL as [p|]; [|done].
    exists p. simpl in E1, E2. split_and!; congruence.
Qed.

Lemma frames_spec e x share plog h log sz pList nT isCommit flags q :
  writer e x share plog h log -> request e sz pList nT isCommit log -> list.last pList = Some q ->
  exists x' rc share' plog', walFrames e sz pList nT isCommit flags x = Some (x', rc) /\
    take (Z.to_nat (mxFrame h)) plog' = take (Z.to_nat (mxFrame h)) plog /\
    (log <> [] -> handle_params (the_wal x') = handle_params (the_wal x)) /\
    (rc <> SQLITE_OK -> recoverable e x' share' plog' h (take (Z.to_nat (mxFrame h)) log)) /\
    (rc = SQLITE_OK -> exists n, writer e x' share' plog' (next_live isCommit h x')
         (written_log e x plog h nT isCommit pList log ++ replicate n (pad_frame e nT q)) /\
       (isCommit = 0 -> n = 0%nat) /\ szPage (the_wal x') = sz /\ hdr_szPage (hdr (the_wal x')) = size_code sz /\
       minFrame (the_wal x') = minFrame (the_wal x) /\ (isCommit <> 0 -> nPage (hdr (the_wal x')) = nT)).
Proof.
  intros HW HQ Hq. pose proof HQ as [[Q1 Q1'] [Q2 Q2'] Q3 Q4 Q5 Q6 Q7]. pose proof (wr_ready _ _ _ _ _ _ HW) as HRd.
  pose proof (tx_le _ _ _ _ (rd_txn _ _ _ _ _ HRd)) as [Hle Hle2]. change (wal (st x)) with (the_wal x) in Hle, Hle2.
  pose proof (wr_len _ _ _ _ _ _ HW) as Hlen. destruct (wr_read _ _ _ _ _ _ HW) as [Hrl Hmin].
  unfold walFrames. rewrite (proj2 (Z.eqb_neq _ _)) by apply (tx_lock _ _ _ _ (rd_txn _ _ _ _ _ HRd)).
  replace (eqb (isCommit <>? 0) (nT <>? 0)) with true
    by (symmetry; apply eqb_true_iff, eq_bool_prop_intro; rewrite !Is_true_true, !negb_true_iff, !Z.eqb_neq; tauto).
  replace (is_nil pList) with false by (by destruct pList). cbn [orb negb].
  rewrite (walIndexHdr_spec (st x) share plog h) by apply HRd.
  assert (Hu : u32 (mxFrame h + 1) = mxFrame h + 1) by (unfold u32; apply Z.mod_small; lia).
  unfold walRestartLog. change (wal (st x)) with (the_wal x). rewrite (proj2 (Z.eqb_neq (readLock (the_wal x)) 0)) by lia.
  cbn -[frames_finish write_frames write_wal_header hdr_words]. rewrite Hu.
  change (if bool_decide (hdr_words (hdr (the_wal x)) = hdr_words h) then 0 else mxFrame h + 1) with (first_frame x h).
  replace (WS (st x) (fd x)) with x by (by destruct x).
  destruct (header_stage e x share plog h log sz flags HW Q1 Q1' Q2 Q2') as (x1 & rc1 & -> & HRd1 & Er1 & Em1 & Ex1 & Ere1 & Hx1 & HOK1).
  pose proof (header_recoverable e x x1 share plog h log HW HRd1 Er1 Em1 Hx1) as Hrec.
  assert (Hfail : forall x2 rc sh2 pl2, rc <> SQLITE_OK -> advances e x1 x2 share sh2 pl2 h (handle_params (the_wal x1)) ->
    take (Z.to_nat (mxFrame h)) pl2 = take (Z.to_nat (mxFrame h)) plog ->
    rc <> SQLITE_OK -> recoverable e x2 sh2 pl2 h (take (Z.to_nat (mxFrame h)) log)).
  { intros x2 rc sh2 pl2 _ HA Ht _. eapply recoverable_advances; [done..|]. by rewrite length_take, Nat.min_l by lia. }
  cbn -[frames_finish write_frames]. destruct (Z.eqb_spec rc1 SQLITE_OK) as [Hrc1|Hrc1]; cbn [negb].
  2:{ exists x1, rc1, share, plog. split_and!; [done|done|intros Hne; by rewrite Hx1|done|done]. }
  destruct (Z.eqb_spec (szPage (the_wal x1)) sz) as [Esz|Esz]; cbn [negb].
  2:{ exists x1, SQLITE_CORRUPT, share, plog. split_and!; [done|done|intros Hne; by rewrite Hx1|done|done]. }
  destruct (written_stage e x x1 share plog h log sz pList nT isCommit flags q HW HQ Hq HRd1 (HOK1 Hrc1) Esz Er1 Em1 Ex1 Ere1 Hx1)
    as (x2 & rc2 & l & iF & iO & pL & share2 & -> & HA2 & HOK2).
  pose proof (advances_fields _ _ _ _ _ _ _ _ HA2) as (FP & FM & _).
  cbn -[frames_finish]. destruct (Z.eqb_spec rc2 SQLITE_OK) as [Hrc2|Hrc2]; cbn [negb].
  2:{ exists x2, rc2, share2, plog. split_and!; [done|done|intros Hne; by rewrite FP, Hx1| |done]. by apply Hfail. }
  destruct (HOK2 Hrc2) as (Hwn & -> & -> & HpL). clear HOK2.
  set (log' := written_log e x plog h nT isCommit pList log) in *.
  assert (Hp : exists p, (isCommit <> 0 -> pL = Some p /\ pages_ok e sz [p]) /\ pgno p = pgno q /\ pData p = pData q).
  { destruct (decide (isCommit = 0)) as [Hc|Hc]; [by exists q|]. destruct (HpL Hc) as (p & -> & E1 & E2). exists p.
    split; [|done]. intros _. split; [done|]. constructor; [|constructor]. rewrite E1, E2.
    apply (list.Forall_forall _ pList) with (x := q) in Q3; [done|by apply last_Some_elem_of]. }
  destruct Hp as (p & Hp & Ep1 & Ep2).
  pose proof (frames_finish_spec e x2 share2 plog h log' l nT isCommit flags pL p Hwn Q6) as HF. cbv zeta in HF.
  rewrite FP in HF. change (p_size (handle_params (the_wal x1))) with (szPage (the_wal x1)) in HF. rewrite Esz in HF.
  destruct (HF Hp) as (x' & rc & share' & plog' & -> & Ht & H1 & H2).
  exists x', rc, share', plog'. split; [done|]. split; [done|]. split; [|split].
  - intros Hne. rewrite <- (Hx1 Hne), <- FP. destruct (decide (rc = SQLITE_OK)) as [Hrc|Hrc].
    + destruct (H2 Hrc) as (n & _ & _ & E & _). exact E.
    + apply (advances_fields _ _ _ _ _ _ _ _ (H1 Hrc)).
  - intros Hrc. eapply recoverable_advances; [|by apply H1|].
    + eapply recoverable_advances; [done|done|done].
    + by rewrite length_take, Nat.min_l by lia.
  - intros Hrc. destruct (H2 Hrc) as (n & Hw & Hn). exists n.
    assert (ES : szPage (the_wal x2) = sz) by (rewrite <- Esz; exact (f_equal p_size FP)). rewrite ES, FM, Em1 in Hn.
    destruct Hn as (Hn1 & Hn2 & Hn3 & Hn4). split; [|split_and!; [done|by rewrite <- ES; exact (f_equal p_size Hn2)|done|apply Hn4..]]. unfold pad_frame. by rewrite <- Ep1, <- Ep2.
Qed.

(** ** Rollback *)

Lemma undo_recovers e undo x share plog h log :
  recoverable e x share plog h log ->
  exists s rc l share' plog', sqlite3WalUndo (fe_pages e) undo (st x) = Some (s, rc, l) /\
    writer e (WS s (fd x)) share' plog' h log /\ hdr (wal s) = h.
Proof.
  intros [R1 R2 R3 R4 R5]. pose proof R1 as [T1 T2 T3 T4].
  destruct (undo_spec (fe_pages e) undo (st x) share plog h T1 T2) as (s & rc & l & share' & plog' & E & HT & HE & Hh & Hr & (ap & ro & Ew) & Ht & _).
  exists s, rc, l, share', plog'. split; [done|]. split; [|done].
  assert (Hcko : cksum_ok s).
  { unfold cksum_ok. destruct (tx_hdr _ _ _ _ HT) as [Hwd _ _ _]. unfold hdr_words in Hwd. rewrite !list.Forall_cons in Hwd. tauto. }
  assert (Hl0 : Z.to_nat (mxFrame h) = length log) by lia.
  assert (HP : log <> [] -> handle_params (wal s) = handle_params (the_wal x)).
  { intros Hne. destruct (R5 Hne) as (_ & _ & Hs & Hb). unfold handle_params. rewrite Hh, Hs, Hb, Ew. done. }
  split.
  - by split.
  - unfold the_wal. simpl. rewrite Ew. exact R2.
  - unfold the_wal. simpl. by rewrite Hh.
  - rewrite <- Hl0, Ht, Hl0. done.
  - intros Hne. destruct (R5 Hne) as ((H1 & H2) & H3 & _). split; unfold the_wal, good_frames; simpl; rewrite ?(HP Hne), ?Hr, ?Hh; try done. lia.
  - done.
  - unfold the_wal. simpl. by rewrite Hr.
  - intros Hm. unfold the_wal. simpl. assert (Hne : log <> []) by (intros ->; simpl in *; lia).
    rewrite (HP Hne), Hl0, firstn_all. apply R5. done.
Qed.

(** ** What the log says of a page *)

(** The data of the last frame of page [x]. *)
Definition page_data (log : list frame) (x : Z) : option bytes :=
  foldl (fun acc f => if f_pgno f =? x then Some (f_data f) else acc) None log.

Lemma fold_absent log x acc :
  Forall (fun f => f_pgno f <> x) log ->
  foldl (fun acc f => if f_pgno f =? x then Some (f_data f) else acc) acc log = acc.
Proof.
  intros H. revert acc. induction H as [|f log Hf _ IH]; intros acc; simpl; [done|].
  by rewrite (proj2 (Z.eqb_neq _ _)) by done.
Qed.

Lemma page_data_snoc log f x :
  page_data (log ++ [f]) x = if f_pgno f =? x then Some (f_data f) else page_data log x.
Proof. unfold page_data. by rewrite foldl_app. Qed.

Lemma page_data_insert log i f d x :
  log !! i = Some f -> Forall (fun g => f_pgno g <> f_pgno f) (drop (S i) log) ->
  page_data (<[i := Fr (f_pgno f) (f_size f) d]> log) x = if f_pgno f =? x then Some d else page_data log x.
Proof.
  intros Hi Hd. rewrite insert_take_drop by by eapply lookup_lt_Some. rewrite <- (take_drop_middle log i f Hi) at 3.
  unfold page_data. rewrite !foldl_app. simpl. destruct (Z.eqb_spec (f_pgno f) x) as [<-|]; [|done].
  by apply fold_absent.
Qed.

Lemma page_data_pad log f n x :
  page_data log (f_pgno f) = Some (f_data f) -> page_data (log ++ replicate n f) x = page_data log x.
Proof.
  intros H. induction n as [|n IH]; [by rewrite app_nil_r|]. rewrite replicate_S_end, app_assoc, page_data_snoc, IH.
  destruct (Z.eqb_spec (f_pgno f) x) as [<-|]; done.
Qed.

(** A frame that a search of the index has found is the last one of its page. *)
Lemma found_last plog lo x n r :
  last_frame plog lo x n = r -> r <> 0 -> plog !! Z.to_nat (r - 1) = Some x /\ lo <= r /\ 1 <= r <= Z.of_nat n /\
    forall j, (Z.to_nat r <= j < n)%nat -> plog !! j <> Some x.
Proof.
  induction n as [|n IH]; cbn [last_frame]; [by intros <-|]. destruct (bool_decide (plog !! n = Some x) && (lo <=? Z.of_nat (S n))) eqn:E.
  - intros <- _. apply andb_true_iff in E as [E%bool_decide_eq_true Hlo%Z.leb_le].
    replace (Z.to_nat (Z.of_nat (S n) - 1)) with n by lia. split_and!; [done|lia|lia|lia|lia].
  - intros Hr Hr0. destruct (IH Hr Hr0) as (H1 & H2 & H3 & H4). split_and!; [done|lia|lia|lia|].
    intros j Hj. destruct (decide (j = n)) as [->|]; [|apply H4; lia]. intros Hn.
    rewrite bool_decide_eq_true_2 in E by done. apply Z.leb_gt in E. lia.
Qed.

Section Logged.
Context (codec : Z -> bytes -> bytes) (plog : list Z) (lo : Z) (m : nat) (iFirst nT isCommit : Z).
Context (Hfirst : 0 <= iFirst).

(** One page: [log1] is the log after it has been written. *)
Lemma logged_step p rest log :
  let find := find_page plog lo (Z.of_nat m) in
  let log1 := if overwrites find iFirst isCommit (is_nil rest) p
    then alter (fun f => Fr (f_pgno f) (f_size f) (codec (pgno p) (pData p))) (Z.to_nat (find (pgno p) - 1)) log
    else log ++ [Fr (pgno p) (if (isCommit <>? 0) && is_nil rest then nT else 0) (codec (pgno p) (pData p))] in
  pgno p ∉ (pgno <$> rest) -> take m (f_pgno <$> log) = take m plog -> (m <= length log)%nat ->
  Forall (fun f => f_pgno f ∉ (pgno <$> p :: rest)) (drop m log) ->
  (forall x, page_data log1 x = if pgno p =? x then Some (codec (pgno p) (pData p)) else page_data log x) /\
  take m (f_pgno <$> log1) = take m plog /\ (m <= length log1)%nat /\ Forall (fun f => f_pgno f ∉ (pgno <$> rest)) (drop m log1).
Proof.
  intros find log1 Hp Hpg Hm Hdis. cbn [fmap list_fmap] in Hdis.
  assert (Hrest : Forall (fun f => f_pgno f ∉ (pgno <$> rest)) (drop m log)).
  { apply (list.Forall_impl _ _ _ Hdis). intros f Hf Hin. apply Hf. by right. }
  unfold log1. destruct (overwrites _ _ _ _ _) eqn:Eo.
  - unfold overwrites, find, find_page in Eo. rewrite Nat2Z.id in Eo. unfold find, find_page. rewrite Nat2Z.id.
    destruct (Z.eqb_spec iFirst 0); [done|]. apply andb_true_iff in Eo as [_ Eo%Z.leb_le].
    destruct (found_last plog lo (pgno p) m _ eq_refl) as (F1 & _ & F3 & F4); [lia|].
    set (r := last_frame plog lo (pgno p) m) in *. set (i := Z.to_nat (r - 1)) in *.
    destruct (lookup_lt_is_Some_2 log i) as [f Hi]; [lia|].
    assert (Hsame : forall j g, (j < m)%nat -> log !! j = Some g -> plog !! j = Some (f_pgno g)).
    { intros j g Hj Hg. apply (f_equal (fun l => l !! j)) in Hpg. rewrite !lookup_take_lt, list_lookup_fmap, Hg in Hpg by lia. done. }
    assert (Hfp : f_pgno f = pgno p) by (pose proof (Hsame i f ltac:(lia) Hi) as E; rewrite F1 in E; congruence).
    rewrite (alter_at _ log i f) by done. split_and!.
    + intros x. rewrite <- Hfp. apply page_data_insert; [done|]. apply Forall_lookup. intros j g Hj Eg. rewrite lookup_drop in Hj.
      destruct (decide (S i + j < m)%nat) as [Hlt|Hge].
      * apply (F4 (S i + j)%nat); [lia|]. rewrite (Hsame _ _ Hlt Hj), Eg, Hfp. done.
      * rewrite Forall_lookup in Hdis. apply (Hdis (S i + j - m)%nat g); [rewrite lookup_drop, <- Hj; f_equal; lia|].
        rewrite Eg, Hfp. by left.
    + rewrite list_fmap_insert. simpl. rewrite list_insert_id; [done|]. by rewrite list_lookup_fmap, Hi.
    + by rewrite length_insert.
    + by rewrite drop_insert_lt by lia.
  - split_and!.
    + intros x. apply page_data_snoc.
    + by rewrite fmap_app, take_app_le by (rewrite length_fmap; lia).
    + rewrite length_app. lia.
    + rewrite drop_app_le by lia. apply Forall_app. split; [done|]. by constructor.
Qed.

(** Pages written in one call of [walFrames]: the last frame of each holds its new contents. *)
Lemma logged_data pList : forall log,
  NoDup (pgno <$> pList) -> take m (f_pgno <$> log) = take m plog -> (m <= length log)%nat ->
  Forall (fun f => f_pgno f ∉ (pgno <$> pList)) (drop m log) ->
  let log' := logged codec (find_page plog lo (Z.of_nat m)) iFirst nT isCommit pList log in
  (forall p, p ∈ pList -> page_data log' (pgno p) = Some (codec (pgno p) (pData p))) /\
  (forall x, x ∉ (pgno <$> pList) -> page_data log' x = page_data log x).
Proof.
  induction pList as [|p rest IH]; intros log Hnd Hpg Hm Hdis; [split; [by intros p ?%elem_of_nil|done]|].
  cbn [fmap list_fmap] in Hnd. apply list.NoDup_cons in Hnd as [Hp Hnd]. cbn [logged]. cbv zeta.
  destruct (logged_step p rest log Hp Hpg Hm Hdis) as (Hd1 & Hpg1 & Hm1 & Hdis1).
  match goal with |- context [logged _ _ _ _ _ rest ?l] => set (log1 := l) in * end.
  destruct (IH log1 Hnd Hpg1 Hm1 Hdis1) as [IH1 IH2]. split.
  - intros p' [->|Hin]%elem_of_cons; [|by apply IH1]. rewrite IH2, Hd1, Z.eqb_refl by done. done.
  - intros x Hx. cbn [fmap list_fmap] in Hx. apply not_elem_of_cons in Hx as [Hx1 Hx2]. rewrite IH2, Hd1 by done.
    by rewrite (proj2 (Z.eqb_neq _ _)) by done.
Qed.

End Logged.

(** Every page of the list has a frame of its own, or had one of the transaction before. *)
Lemma flagged_or_found find iFirst isCommit pList p :
  p ∈ pList -> pgno p ∈ (pgno <$> filter (fun p => pg_append p = true) (flagged find iFirst isCommit pList)) \/
    (iFirst <> 0 /\ iFirst <= find (pgno p)).
Proof.
  induction pList as [|p0 rest IH]; [by intros ?%elem_of_nil|]. cbn [flagged].
  destruct (overwrites find iFirst isCommit (is_nil rest) p0) eqn:E; rewrite filter_cons; simpl.
  - intros [->|Hin]%elem_of_cons; [|by apply IH]. right. unfold overwrites in E. bool_to_prop. lia.
  - intros [->|Hin]%elem_of_cons; [left; by left|]. destruct (IH Hin); [|by right]. left. by right.
Qed.

(** The page sizes, and their encoding in the header. *)
Definition page_sizes : list Z := [512; 1024; 2048; 4096; 8192; 16384; 32768; 65536].

Lemma size_decode sz : sz ∈ page_sizes ->
  Z.land (size_code sz) 0xfe00 + Z.shiftl (Z.land (size_code sz) 0x0001) 16 = sz.
Proof. unfold page_sizes. rewrite !elem_of_cons, elem_of_nil. by intros H; destruct_or? H; subst. Qed.

Lemma read_frame_spec x log i f x' rc d :
  wlog x log -> file_ok (fd x) -> szPage (the_wal x) ∈ page_sizes ->
  hdr_szPage (hdr (the_wal x)) = size_code (szPage (the_wal x)) -> log !! i = Some f ->
  sqlite3WalReadFrame (Z.of_nat i + 1) (szPage (the_wal x)) x = (x', rc, d) -> rc = SQLITE_OK -> d = f_data f.
Proof.
  intros HW Hf Hsz Hc Hi. unfold sqlite3WalReadFrame. rewrite Hc, size_decode by done. rewrite Z.ltb_irrefl.
  set (sz := szPage (the_wal x)) in *. pose proof (wl_log _ _ HW) as HL. set (P := handle_params (the_wal x)) in *.
  pose proof (lf_size _ _ _ _ HL) as [Hr _]. change (p_size P) with sz in Hr.
  destruct (lf_frame _ _ _ _ HL i f Hi) as (t & Ht & Hread & _). change (p_size P) with sz in Hread.
  pose proof (proj1 (Forall_lookup _ _) (lf_wf _ _ _ _ HL) i f Hi) as (_ & _ & _ & Hpok).
  destruct (sqlite3OsRead sz _ (fd x)) as [[f1 rc1] b] eqn:E.
  apply os_read_spec in E as (_ & _ & _ & _ & Hb); [|done|unfold walFrameOffset, WAL_FRAME_HDRSIZE, WAL_HDRSIZE; nia|lia].
  intros [= <- <- <-] Hrc. rewrite Z.sub_diag, app_nil_r. specialize (Hb Hrc).
  change WAL_FRAME_HDRSIZE with 24 in Hb. rewrite (mem_read_part _ _ _ _ 24 sz Hread), (frame_bytes_data f t sz) in Hb; [congruence|done|apply Hpok|lia|lia|unfold WAL_FRAME_HDRSIZE; lia].
Qed.

(** The last frame of a page holds its data. *)
Lemma page_data_last log i f :
  log !! i = Some f -> (forall j g, (i < j)%nat -> log !! j = Some g -> f_pgno g <> f_pgno f) ->
  page_data log (f_pgno f) = Some (f_data f).
Proof.
  intros Hi Hlast. unfold page_data. rewrite <- (take_drop_middle log i f Hi), foldl_app. simpl. rewrite Z.eqb_refl.
  apply fold_absent, Forall_lookup. intros j g Hj. rewrite lookup_drop in Hj. by apply (Hlast (S i + j)%nat); [lia|].
Qed.

(** Looking a page up and reading the frame found. *)
Lemma find_read e x share plog h log y :
  writer e x share plog h log -> 0 < y -> szPage (the_wal x) ∈ page_sizes ->
  hdr_szPage (hdr (the_wal x)) = size_code (szPage (the_wal x)) ->
  exists s rc r, walFindFrame (fe_pages e) y (st x) = Some (s, rc, r) /\ (rc = SQLITE_OK ->
    (forall i f, log !! i = Some f -> f_pgno f = y -> minFrame (the_wal x) <= Z.of_nat i + 1 -> r <> 0) /\
    (r <> 0 -> forall x2 rc2 d, sqlite3WalReadFrame r (szPage (the_wal x)) (WS s (fd x)) = (x2, rc2, d) ->
       rc2 = SQLITE_OK -> page_data log y = Some d /\ len d = szPage (the_wal x))).
Proof.
  intros HW Hy Hsz Hc. pose proof HW as [[R1 R2 R3 R4] [Hrl Hmin] Hlen Hix Hwl _ _ _].
  destruct (walFindFrame_spec (fe_pages e) (st x) share plog y) as (s & rc & r & share' & E & HG & HOK & _);
    [apply R1|done|done|done|unfold the_wal in *; lia|pose proof (tx_le _ _ _ _ R1); lia|].
  exists s, rc, r. split; [done|]. intros Hrc. specialize (HOK Hrc).
  change (wal (st x)) with (the_wal x) in HOK. rewrite (proj2 (Z.eqb_neq _ _)) in HOK by lia. cbn [andb] in HOK.
  rewrite <- Hlen, Nat2Z.id in HOK.
  assert (Hsame : forall j g, log !! j = Some g -> plog !! j = Some (f_pgno g)).
  { intros j g Hg. apply (f_equal (fun l => l !! j)) in Hix. pose proof (lookup_lt_Some _ _ _ Hg).
    rewrite lookup_take_lt, list_lookup_fmap, Hg in Hix by lia. done. }
  pose proof (last_frame_latest plog (minFrame (the_wal x)) y (length log)) as Hlat. rewrite <- HOK in Hlat. split.
  - intros i f Hi Hfy Hlo ->. pose proof (lookup_lt_Some _ _ _ Hi). destruct Hlat as [[_ Hno]|(j & _ & ? & _)]; [|lia].
    apply (Hno i). split; [rewrite (Hsame _ _ Hi); by f_equal|lia].
  - intros Hr x2 rc2 d Hrd Hrc2.
    destruct (found_last _ _ _ _ r (eq_sym HOK) Hr) as (F1 & F2 & F3 & F4).
    destruct (lookup_lt_is_Some_2 log (Z.to_nat (r - 1))) as [f Hi]; [lia|].
    assert (Hfy : f_pgno f = y) by (rewrite (Hsame _ _ Hi) in F1; congruence).
    assert (Hne : log <> []) by (intros ->; done). specialize (Hwl Hne).
    destruct (gr_wal _ _ _ _ _ _ HG) as (ap & ro & Ew).
    assert (HW2 : wlog (WS s (fd x)) log) by (apply (wlog_same x); [done|done|..]; unfold the_wal; simpl; by rewrite Ew).
    assert (Hd : d = f_data f).
    { apply (read_frame_spec (WS s (fd x)) log (Z.to_nat (r - 1)) f x2 rc2 d); [done|done| | |done| |done];
        unfold the_wal; cbn [st]; rewrite Ew; try done. rewrite <- Hrd. f_equal. lia. }
    pose proof (proj1 (Forall_lookup _ _) (lf_wf _ _ _ _ (wl_log _ _ Hwl)) _ f Hi) as (_ & _ & _ & Hpok).
    subst d. split; [|apply Hpok]. rewrite <- Hfy. apply (page_data_last log (Z.to_nat (r - 1))); [done|].
    intros j g Hj Hg Eg. pose proof (lookup_lt_Some _ _ _ Hg). apply (F4 j); [lia|]. rewrite (Hsame _ _ Hg), Eg, Hfy. done.
Qed.

(** ** Atomicity *)

Lemma committed_prefix c P log n : committed c P log -> (n <= length log)%nat -> committed c P (take n log).
Proof.
  intros [H1 H2] Hn. assert (El : length (take n log) = n) by (rewrite length_take; lia). split; rewrite El.
  - by eapply log_file_prefix.
  - etrans; [|done]. apply log_end_mono; [done|apply H1].
Qed.

(** After a commit the whole log is committed. *)
Lemma writer_committed e x share plog h log :
  writer e x share plog h log -> mxFrame h = len log -> log <> [] ->
  committed (content (fd x)) (handle_params (the_wal x)) log.
Proof.
  intros HW Hm Hne. apply writer_recoverable in HW. rewrite Hm, Nat2Z.id, firstn_all in HW. by apply HW.
Qed.

(** The frames of earlier transactions stay committed through [walFrames]. *)
Lemma frames_keep_committed e x x' share share' plog plog' h h' log log' :
  writer e x share plog h log -> writer e x' share' plog' h' log' -> mxFrame h <= mxFrame h' -> mxFrame h <> 0 ->
  take (Z.to_nat (mxFrame h)) log' = take (Z.to_nat (mxFrame h)) log ->
  committed (content (fd x')) (handle_params (the_wal x')) (take (Z.to_nat (mxFrame h)) log).
Proof.
  intros HW HW' Hle Hm0 Ht. pose proof (tx_le _ _ _ _ (rd_txn _ _ _ _ _ (wr_ready _ _ _ _ _ _ HW))) as [Hm _].
  pose proof (tx_le _ _ _ _ (rd_txn _ _ _ _ _ (wr_ready _ _ _ _ _ _ HW'))) as [Hm' _].
  pose proof (wr_len _ _ _ _ _ _ HW') as Hl'. change (wal (st x')) with (the_wal x') in Hm'.
  apply writer_recoverable in HW' as [_ _ Hl _ HC]. rewrite <- Ht.
  replace (take (Z.to_nat (mxFrame h)) log') with (take (Z.to_nat (mxFrame h)) (take (Z.to_nat (mxFrame h')) log'))
    by (rewrite take_take, Nat.min_l by lia; done).
  apply committed_prefix; [|lia]. apply HC. intros E. rewrite E in Hl. simpl in Hl. lia.
Qed.

Lemma written_log_prefix e x share plog h nT isCommit pList log r :
  writer e x share plog h log ->
  take (Z.to_nat (mxFrame h)) (written_log e x plog h nT isCommit pList log ++ r) = take (Z.to_nat (mxFrame h)) log /\
  mxFrame h <= len log <= len (written_log e x plog h nT isCommit pList log).
Proof.
  intros HW. pose proof (tx_le _ _ _ _ (rd_txn _ _ _ _ _ (wr_ready _ _ _ _ _ _ HW))) as [Hm _].
  pose proof (wr_len _ _ _ _ _ _ HW) as Hl. change (wal (st x)) with (the_wal x) in Hm.
  assert (Hll : (length log <= length (written_log e x plog h nT isCommit pList log))%nat).
  { rewrite <- (length_fmap f_pgno (written_log _ _ _ _ _ _ _ _)). unfold written_log. rewrite logged_pgnos, length_app, length_fmap. lia. }
  split; [|lia]. rewrite take_app_le by lia. unfold written_log. apply logged_take; [lia|].
  unfold first_frame. case_bool_decide; [by right|left; lia].
Qed.


(** Each page of the list has a frame of this transaction. *)
Lemma written_frame e x share plog h log nT isCommit pList p r :
  writer e x share plog h log -> p ∈ pList ->
  exists i f, (written_log e x plog h nT isCommit pList log ++ r) !! i = Some f /\ f_pgno f = pgno p /\ mxFrame h <= Z.of_nat i.
Proof.
  intros HW Hp. destruct (written_log_prefix e x share plog h nT isCommit pList log r HW) as [_ Hl].
  pose proof (wr_len _ _ _ _ _ _ HW) as Hlen. pose proof (wr_index _ _ _ _ _ _ HW) as Hix.
  set (find := find_page plog (minFrame (the_wal x)) (mxFrame (hdr (the_wal x)))).
  assert (Hi : exists i, (f_pgno <$> written_log e x plog h nT isCommit pList log) !! i = Some (pgno p) /\ mxFrame h <= Z.of_nat i).
  { unfold written_log. rewrite logged_pgnos. fold find.
    destruct (flagged_or_found find (first_frame x h) isCommit pList p Hp) as [[i Hi]%list_elem_of_lookup|[Hf0 Hf]].
    - exists (length log + i)%nat. rewrite lookup_app_r by (rewrite length_fmap; lia). rewrite length_fmap.
      replace (length log + i - length log)%nat with i by lia. split; [done|lia].
    - assert (first_frame x h = mxFrame h + 1) as Ef by (unfold first_frame in *; by case_bool_decide).
      pose proof (tx_le _ _ _ _ (rd_txn _ _ _ _ _ (wr_ready _ _ _ _ _ _ HW))) as [Hm _].
      destruct (found_last plog (minFrame (the_wal x)) (pgno p) (length log) (find (pgno p))) as (F1 & _ & F3 & _);
        [unfold find, find_page; by rewrite <- Hlen, Nat2Z.id|lia|].
      exists (Z.to_nat (find (pgno p) - 1)). split; [|lia].
      rewrite lookup_app_l by (rewrite length_fmap; lia). rewrite <- Hix, lookup_take_lt by lia. done. }
  destruct Hi as (i & Hi & Hmi). rewrite list_lookup_fmap in Hi. destruct (_ !! i) as [f|] eqn:Ef; [|done].
  exists i, f. split_and!; [by apply lookup_app_l_Some|by injection Hi|done].
Qed.

(** C10: What a transaction has written is what is read next. After a successful call of
    [walFrames] with distinct pages, looking a page up in the index and reading the frame
    found gives, whenever both succeed, the encrypted contents of the page if it was in the
    list (it is always found), and otherwise what the last frame of the page held before:
    whether the frame was appended, written over, or repeated to fill a sector. *)
Theorem frames_read_back e x share plog h log sz pList nT isCommit flags q :
  writer e x share plog h log -> request e sz pList nT isCommit log -> list.last pList = Some q ->
  NoDup (pgno <$> pList) -> sz ∈ page_sizes -> minFrame (the_wal x) <= mxFrame h + 1 ->
  exists x' rc0, walFrames e sz pList nT isCommit flags x = Some (x', rc0) /\ (rc0 = SQLITE_OK ->
  forall y, 0 < y -> exists s rc r, walFindFrame (fe_pages e) y (st x') = Some (s, rc, r) /\ (rc = SQLITE_OK ->
    (y ∈ (pgno <$> pList) -> r <> 0) /\
    (r <> 0 -> forall x2 d, sqlite3WalReadFrame r sz (WS s (fd x')) = (x2, SQLITE_OK, d) ->
       (forall p, p ∈ pList -> pgno p = y -> fe_codec e y (pData p) = Some d) /\
       (y ∉ (pgno <$> pList) -> page_data log y = Some d)))).
Proof.
  intros HW HQ Hq Hnd Hsz Hmin. pose proof HQ as [Q1 Q2 Q3 Q4 Q5 Q6 Q7].
  destruct (frames_spec e x share plog h log sz pList nT isCommit flags q HW HQ Hq)
    as (x' & rc0 & share' & plog' & E & _ & _ & _ & HOK). exists x', rc0. split; [done|]. intros Hrc0 y Hy.
  destruct (HOK Hrc0) as (n & HW' & _ & Hsz' & Hcode & Hmf & _). clear HOK.
  pose proof (wr_len _ _ _ _ _ _ HW) as Hlen. pose proof (wr_index _ _ _ _ _ _ HW) as Hix.
  pose proof (tx_le _ _ _ _ (rd_txn _ _ _ _ _ (wr_ready _ _ _ _ _ _ HW))) as [Hm _]. change (wal (st x)) with (the_wal x) in Hm.
  set (log' := written_log e x plog h nT isCommit pList log ++ replicate n (pad_frame e nT q)) in *.
  destruct (find_read e x' share' plog' _ log' y HW' Hy) as (s & rc & r & -> & HOK); [by rewrite Hsz'|by rewrite Hsz'|].
  exists s, rc, r. split; [done|]. intros Hrc. destruct (HOK Hrc) as [H1 H2]. clear HOK. rewrite Hsz' in H2.
  assert (Hff : 0 <= first_frame x h) by (unfold first_frame; case_bool_decide; lia).
  destruct (logged_data (enc e) plog (minFrame (the_wal x)) (length log) (first_frame x h) nT isCommit Hff pList log Hnd)
    as [Hd1 Hd2]; [by rewrite firstn_all2, Hix by (rewrite length_fmap; done)|done|by rewrite drop_all; constructor|].
  rewrite Hlen in Hd1, Hd2. change (logged _ _ _ _ _ _ log) with (written_log e x plog h nT isCommit pList log) in Hd1, Hd2.
  assert (Hpad : forall z, page_data log' z = page_data (written_log e x plog h nT isCommit pList log) z).
  { intros z. unfold log'. apply page_data_pad. apply Hd1. by apply last_Some_elem_of. }
  split.
  - intros (p & -> & Hp)%list_elem_of_fmap.
    assert (Hfr : exists i f, log' !! i = Some f /\ f_pgno f = pgno p /\ mxFrame h <= Z.of_nat i).
    { apply (written_frame e x share plog h log nT isCommit pList p (replicate n (pad_frame e nT q)) HW Hp). }
    destruct Hfr as (i & f & Hi & Hfp & Hmi). apply (H1 i f Hi Hfp). rewrite Hmf. lia.
  - intros Hr x2 d Hrd. destruct (H2 Hr x2 SQLITE_OK d Hrd eq_refl) as [Hdata Hdl]. rewrite Hpad in Hdata. split.
    + intros p Hp <-. rewrite (Hd1 p Hp) in Hdata. unfold enc in Hdata. destruct (fe_codec e (pgno p) (pData p)); simpl in Hdata; [congruence|].
      injection Hdata as <-. simpl in Hdl. lia.
    + intros Hni. by rewrite <- Hd2.
Qed.

(** ** An empty log *)

Definition demo_frames_env : frames_env :=
  FramesEnv (fun _ d => Some d) demo_page_env 0 (17, 19) SQLITE_OK (fun _ => None) true 512.

Definition demo_conn : WSt := WS (demo_st zero_hdr) (FileRec [] []).

Definition demo_dirty : list PgHdr := [Dirty 1 (replicate 512 65) false; Dirty 2 (replicate 512 66) false].

Lemma demo_writer : writer demo_frames_env demo_conn {[ 0 := 1 ]} [] zero_hdr [].
Proof.
  assert (Hz : hdr_ok zero_hdr) by (split; [unfold hdr_words; rewrite !list.Forall_cons; by split_and!|done..]).
  split; try done. split; [split| | |]; try done.
  - apply demo_inv.
  - exists (replicate 34 0). split; [|split_and!; [vm_compute; reflexivity..|done]].
    unfold head_words. rewrite lookup_singleton_eq. cbn [mbind option_bind pages demo_st demo_conn st].
    rewrite lookup_singleton_eq. cbn [mbind option_bind words zero_page]. by rewrite take_replicate.
  - intros f Hf. simpl in Hf. lia.
  - apply demo_env_ok.
  - by split; constructor.
Qed.

Lemma demo_page_ok c d : is_byte c -> Some (replicate 512 c) = Some d -> page_ok 512 d.
Proof. intros Hc E. apply (inj Some) in E as <-. split; [done|by apply Forall_replicate|done]. Qed.

Lemma demo_request : request demo_frames_env 512 demo_dirty 2 1 [].
Proof.
  split; try done; try lia. unfold pages_ok, demo_dirty. rewrite !list.Forall_cons.
  split_and!; try done; intros d; by apply demo_page_ok.
Qed.


Lemma frames_read_back_witness :
  exists x' rc0, walFrames demo_frames_env 512 demo_dirty 2 1 3 demo_conn = Some (x', rc0) /\ (rc0 = SQLITE_OK ->
    exists s rc r, walFindFrame demo_page_env 2 (st x') = Some (s, rc, r) /\ (rc = SQLITE_OK -> r <> 0 /\
      forall x2 d, sqlite3WalReadFrame r 512 (WS s (fd x')) = (x2, SQLITE_OK, d) -> d = replicate 512 66)).
Proof.
  destruct (frames_read_back demo_frames_env demo_conn {[ 0 := 1 ]} [] zero_hdr [] 512 demo_dirty 2 1 3
    (Dirty 2 (replicate 512 66) false) demo_writer demo_request eq_refl) as (x' & rc0 & E & HOK).
  { by apply (bool_decide_eq_true_1 (NoDup [1; 2])). } { by left. } { done. }
  exists x', rc0. split; [exact E|]. intros Hrc0. destruct (HOK Hrc0 2 ltac:(done)) as (s & rc & r & Ef & H).
  exists s, rc, r. split; [exact Ef|]. intros Hrc. destruct (H Hrc) as [Hr Hread].
  assert (Hr0 : r <> 0) by (apply Hr; right; left). split; [done|]. intros x2 d Hrd.
  destruct (Hread Hr0 x2 d Hrd) as [Hd _]. specialize (Hd (Dirty 2 (replicate 512 66) false) ltac:(right; left) eq_refl).
  symmetry. by apply (inj Some).
Defined.

(** The run of the witnesses succeeds. *)
Example demo_commit : snd <$> walFrames demo_frames_env 512 demo_dirty 2 1 3 demo_conn = Some SQLITE_OK.
Proof. vm_compute. reflexivity. Qed.
End WalCommits.
