(* ===== verification/WalRecover.v ===== *)
(** * Write-ahead log: recovery (src/wal.c)

    - [walIndexRecover] builds the wal-index from the log file: it reads the header, then
      frame by frame for each page of the index into a private page, which it copies into the
      shared one, and writes the headers and the readers' marks.

    The answers of the locks and the private page that the allocator returns, with what it
    holds, are the record [recover_env]. The result of recovery is described by the frames of
    the longest valid log in the file: [valid_log], [longest], [last_commit]. *)

From stdpp Require Import list gmap.
From S2P Require Import Prelude Varint WalData WalIndex WalTxn WalFrame WalWrite WalLog WalCommit.
Import WalTypes WalIndexes WalTxns WalFrames WalWrites WalLogs WalCommits.
Local Open Scope Z_scope.

Module WalRecovery.

(** ** Operations *)

Record recover_env := RecoverEnv {
  rv_pages : page_env;
  rv_lock : Z;                          (** the lock on all but the write lock *)
  rv_malloc : option (Z * WalPage);     (** the private page, as it is allocated *)
  rv_mark : Z -> Z                      (** the locks on the readers' marks *)
}.

(** What a commit record changes; [ck] is the saved checksum. *)
Definition note_commit (sz iFrame nTruncate : Z) (ck : Z * Z) (x : WSt) : WSt * (Z * Z) :=
  if nTruncate <>? 0 then
    (with_hdr (fun h => set_hdr_szPage (u16 (Z.lor (Z.land sz 0xff00) (Z.shiftr sz 16)))
                          (set_nPage nTruncate (set_mxFrame iFrame h))) x,
     aFrameCksum (hdr (the_wal x)))
  else (x, ck).

(** The frames [iFrame] .. [iFrame + n - 1]. The result has the number of the frame at which
    the loop ended and the checksum of the last commit. *)
Fixpoint recover_frames (n : nat) (e : page_env) (sz iFrame : Z) (ck : Z * Z) (rc : Z) (x : WSt)
  : option (WSt * Z * Z * (Z * Z)) :=
  match n with
  | O => Some (x, rc, iFrame, ck)
  | S n =>
      let '(f, rc, b) := sqlite3OsRead (sz + WAL_FRAME_HDRSIZE) (walFrameOffset iFrame sz) (fd x) in
      let x := with_fd f x in
      if rc <>? SQLITE_OK then Some (x, rc, iFrame, ck) else
      let? (w, r) := walDecodeFrame (drop 24 b) (take 24 b) (the_wal x) in
      let x := with_wal (fun _ => w) x in
      match r with
      | None => Some (x, rc, iFrame, ck)
      | Some (pgno, nTruncate) =>
          let? (s, rc) := walIndexAppend e iFrame pgno (st x) in
          let x := WS s (fd x) in
          if rc <>? SQLITE_OK then Some (x, rc, iFrame, ck) else
          let '(x, ck) := note_commit sz iFrame nTruncate ck x in
          recover_frames n e sz (iFrame + 1) ck rc x
      end
  end.

(** [pWal->apWiData[iPg] = p] *)
Definition set_slot (iPg p : Z) (s : St) : option St :=
  let? ap := mem_put (apWiData (wal s)) iPg p in Some (on_wal (set_apWiData ap) s).

(** [memcpy(&aShare[nHdr32], &aPrivate[nHdr32], WALINDEX_PGSZ-nHdr)] *)
Definition copy_page (iPg aShare aPrivate : Z) (s : St) : option St :=
  let nHdr32 := if iPg =? 0 then WALINDEX_HDR_SIZE / 4 else 0 in
  let? to := pages s !! aShare in
  let? from := pages s !! aPrivate in
  Some (set_page aShare (Page (take (Z.to_nat nHdr32) (words to) ++ drop (Z.to_nat nHdr32) (words from)) (slots from)) s).

(** The frames of one page of the index, [n] from [iFirst] on. *)
Definition recover_page (n : nat) (e : page_env) (iPg aPrivate aShare sz iFirst : Z) (ck : Z * Z) (rc : Z) (x : WSt)
  : option (WSt * Z * Z * (Z * Z)) :=
  let? s := set_slot iPg aPrivate (st x) in
  let? (x, rc, iFrame, ck) := recover_frames n e sz iFirst ck rc (WS s (fd x)) in
  let? s := set_slot iPg aShare (st x) in
  let? s := copy_page iPg aShare aPrivate s in
  Some (WS s (fd x), rc, iFrame, ck).

(** The loop over the pages of the index. *)
Fixpoint recover_pages (fuel : nat) (e : page_env) (aPrivate sz iLastFrame iPg : Z) (ck : Z * Z) (rc : Z) (x : WSt)
  : option (WSt * Z * (Z * Z)) :=
  if walFramePage iLastFrame <? iPg then Some (x, rc, ck) else
  match fuel with
  | O => None
  | S fuel =>
      let iLast := Z.min iLastFrame (u32 (HASHTABLE_NPAGE_ONE + iPg * HASHTABLE_NPAGE)) in
      let iFirst := u32 (1 + (if iPg =? 0 then 0 else HASHTABLE_NPAGE_ONE + (iPg - 1) * HASHTABLE_NPAGE)) in
      let? (s, rc, aShare) := walIndexPage e iPg (st x) in
      if (aShare =? NULL) && (rc =? SQLITE_OK) then None else
      if aShare =? NULL then Some (WS s (fd x), rc, ck) else
      let? (x, rc, iFrame, ck) :=
        recover_page (Z.to_nat (iLast - iFirst + 1)) e iPg aPrivate aShare sz iFirst ck rc (WS s (fd x)) in
      if iFrame <=? iLast then Some (x, rc, ck)
      else recover_pages fuel e aPrivate sz iLastFrame (iPg + 1) ck rc x
  end.

(** The header of the log in [aBuf]. The last component of the result is false where the code
    goes to [finished]. *)
Definition recover_header (aBuf : bytes) (x : WSt) : option (WSt * Z * bool) :=
  let? magic := get4byte_at aBuf 0 in
  let? sz := get4byte_at aBuf 8 in
  let sz := i32 sz in
  if (Z.land magic 0xFFFFFFFE <>? WAL_MAGIC) || (Z.land sz (i32 (sz - 1)) <>? 0) || (SQLITE_MAX_PAGE_SIZE <? sz) || (sz <? 512)
  then Some (x, SQLITE_OK, false) else
  let x := with_hdr (set_bigEndCksum (u8 (Z.land magic 1))) x in
  let? ckpt := get4byte_at aBuf 12 in
  let? salt := mem_read aBuf 16 8 in
  let? salt := (match u32s salt with [a; b] => Some (a, b) | _ => None end) in
  let x := with_hdr (set_aSalt salt) (with_wal (fun w => set_nCkpt ckpt (set_szPage sz w)) x) in
  let? h24 := mem_read aBuf 0 (WAL_HDRSIZE - 2 * 4) in
  let? c := walChecksumBytes (bigEndCksum (hdr (the_wal x)) =? SQLITE_BIGENDIAN) h24 None in
  let x := with_hdr (set_aFrameCksum c) x in
  let? c0 := get4byte_at aBuf 24 in
  let? c1 := get4byte_at aBuf 28 in
  if (c.1 <>? c0) || (c.2 <>? c1) then Some (x, SQLITE_OK, false) else
  let? version := get4byte_at aBuf 4 in
  if version <>? WAL_MAX_VERSION then Some (x, SQLITE_CANTOPEN, false) else Some (x, SQLITE_OK, true).

(** The part before the label [finished]: true in the result stands for [goto
    recovery_error]. *)
Definition recover_log (e : recover_env) (nSize : Z) (x : WSt) : option (WSt * Z * (Z * Z) * bool) :=
  let '(f, rc, aBuf) := sqlite3OsRead WAL_HDRSIZE 0 (fd x) in
  let x := with_fd f x in
  if rc <>? SQLITE_OK then Some (x, rc, (0, 0), true) else
  let? (x, rc, ok) := recover_header aBuf x in
  if negb ok then Some (x, rc, (0, 0), false) else
  match rv_malloc e with
  | None => Some (x, SQLITE_NOMEM, (0, 0), true)
  | Some (aPrivate, pg) =>
      let sz := szPage (the_wal x) in
      let x := WS (set_page aPrivate pg (st x)) (fd x) in
      let iLastFrame := u32 ((nSize - WAL_HDRSIZE) / (sz + WAL_FRAME_HDRSIZE)) in
      let? (x, rc, ck) :=
        recover_pages (Z.to_nat (walFramePage iLastFrame + 1)) (rv_pages e) aPrivate sz iLastFrame 0 (0, 0) rc x in
      Some (WS (Sys (wal (st x)) (delete aPrivate (pages (st x)))) (fd x), rc, ck, false)
  end.

(** The readers' marks [i] .. [WAL_NREADER - 1]. *)
Fixpoint recover_marks (n : nat) (e : recover_env) (i rc : Z) (s : St) : option (St * Z) :=
  match n with
  | O => Some (s, rc)
  | S n =>
      let rc := walLockExclusive (rv_mark e i) s in
      if rc =? SQLITE_OK then
        let mx := mxFrame (hdr (wal s)) in
        let? s := walCkptInfo_put (ckpt_aReadMark i) (if (i =? 1) && (mx <>? 0) then mx else READMARK_NOT_USED) s in
        recover_marks n e (i + 1) rc s
      else if rc <>? SQLITE_BUSY then Some (s, rc)
      else recover_marks n e (i + 1) rc s
  end.

(** From the label [finished] on. *)
Definition recover_finish (e : recover_env) (ck : Z * Z) (rc : Z) (s : St) : option (St * Z) :=
  if rc <>? SQLITE_OK then Some (s, rc) else
  let s := on_hdr (set_aFrameCksum ck) s in
  let? s := walIndexWriteHdr s in
  let? s := walCkptInfo_put ckpt_nBackfill 0 s in
  let? s := walCkptInfo_put ckpt_nBackfillAttempted (mxFrame (hdr (wal s))) s in
  let? s := walCkptInfo_put (ckpt_aReadMark 0) 0 s in
  recover_marks (Z.to_nat (WAL_NREADER - 1)) e 1 rc s.

Definition walIndexRecover (e : recover_env) (x : WSt) : option (WSt * Z) :=
  let w := the_wal x in
  if negb ((ckptLock w =? 1) || (ckptLock w =? 0)) || (writeLock w =? 0) then None else
  let rc := walLockExclusive (rv_lock e) (st x) in
  if rc <>? SQLITE_OK then Some (x, rc) else
  let x := with_hdr (fun _ => zero_hdr) x in
  let '(f, rc, nSize) := sqlite3OsFileSize (fd x) in
  let x := with_fd f x in
  if rc <>? SQLITE_OK then Some (x, rc) else
  let? (x, rc, ck, err) := (if WAL_HDRSIZE <? nSize then recover_log e nSize x else Some (x, rc, (0, 0), false)) in
  if err then Some (x, rc) else
  let? (s, rc) := recover_finish e ck rc (st x) in
  Some (WS s (fd x), rc).


(** ** The private page *)

Section Private.
Context (e : page_env) (priv : Z).
Context (Hpriv0 : priv <> NULL) (Hpriv : forall w b, env_page e w b <> priv).

Lemma set_slot_run b p q s :
  mapped (wal s) b q -> p <> NULL -> exists ap, set_slot b p s = Some (on_wal (set_apWiData ap) s) /\
    forall c r, mapped (set_apWiData ap (wal s)) c r <-> (c = b /\ r = p) \/ (c <> b /\ mapped (wal s) c r).
Proof.
  intros [Hq _] Hp. pose proof (mem_get_Some_range _ _ _ Hq) as Hr. unfold set_slot, mem_put.
  rewrite (proj2 (Z.leb_le _ _)), (proj2 (Z.ltb_lt _ _)) by lia. cbn.
  exists (<[Z.to_nat b := p]> (apWiData (wal s))). split; [done|]. intros c r. unfold mapped, mem_get. simpl.
  destruct (Z.leb_spec 0 c).
  - destruct (decide (c = b)) as [->|Hne].
    + rewrite list_lookup_insert_eq by lia. naive_solver.
    + rewrite list_lookup_insert_ne by lia. naive_solver.
  - split; [by intros [? _]|]. intros [[-> _]|[_ [? _]]]; [lia|done].
Qed.

(** The private page in the place of the shared one, which holds no frame yet. *)
Lemma swap_in s share plog b p pg :
  inv s share plog -> env_ok e s share -> mapped (wal s) b p -> pages s !! priv = Some pg -> page_size pg ->
  (forall c, share !! c <> Some priv) -> len plog <= zero_of b ->
  exists ap, set_slot b priv s = Some (on_wal (set_apWiData ap) s) /\
    inv (on_wal (set_apWiData ap) s) (<[b := priv]> share) plog /\
    env_ok e (on_wal (set_apWiData ap) s) (<[b := priv]> share) /\ mapped (set_apWiData ap (wal s)) b priv /\
    (forall c q, mapped (wal s) c q -> exists r, mapped (set_apWiData ap (wal s)) c r).
Proof.
  intros [[I1 I2 I3 I4 I5] [C1 C2 C3]] [E1 E2 E3 E4] Hm Hpg Hsz Hni Hz.
  destruct (set_slot_run b priv p s Hm Hpriv0) as (ap & -> & Hmap). exists ap. split; [done|].
  assert (Hold : forall c, (forall q, ~ mapped (set_apWiData ap (wal s)) c q) -> c <> b /\ forall q, ~ mapped (wal s) c q).
  { intros c Hc. assert (c <> b) by (intros ->; apply (Hc priv), Hmap; by left). split; [done|].
    intros q Hq. apply (Hc q), Hmap. by right. }
  split_and!; [split; split; simpl| |apply Hmap; by left|].
  10:{ intros c q Hq. destruct (decide (c = b)) as [->|]; [exists priv; apply Hmap; by left|exists q; apply Hmap; by right]. }
  - intros c d q [[<- <-]|[? Hc]]%lookup_insert_Some [[<- ?]|[? Hd]]%lookup_insert_Some; try done.
    + by destruct (Hni d). + subst. by destruct (Hni c). + by eapply I1.
  - intros c q [[<- <-]|[? Hc]]%lookup_insert_Some; [done|by eapply I2].
  - intros c q [[<- <-]|[? Hc]]%lookup_insert_Some; [by exists pg|by eapply I3].
  - intros c Hc Hzc. assert (c <> b) by (intros ->; lia). setoid_rewrite lookup_insert_ne; [|done]. by apply I4.
  - done.
  - intros c q [[-> ->]|[? Hq]]%Hmap; [by rewrite lookup_insert_eq|rewrite lookup_insert_ne by done; auto].
  - destruct (decide (b = 0)) as [->|]; [exists priv; apply Hmap; by left|]. destruct C2 as [q Hq]. exists q. apply Hmap. right. split; [lia|done].
  - intros Hh c q [[<- <-]|[? Hc]]%lookup_insert_Some; apply Hmap; [by left|right; auto].
  - split; simpl; [done| |done|].
    + intros Hh c Hc. apply Hold in Hc as [_ Hc]. by apply E2.
    + intros Hh c q Hc Eq Hq. apply Hold in Hc as [Hcb Hc]. destruct (E4 Hh c q Hc Eq Hq) as [? Hs]. split; [done|].
      rewrite lookup_insert_ne by done. destruct Hs as [?|[? Hs]]; [by left|right]. split; [done|].
      intros d [[<- <-]|[? Hd]]%lookup_insert_Some; [|by destruct (Hs d)].
      pose proof (Hpriv (wal s) c) as Hpc. unfold env_page in Hpc. rewrite (proj2 (Z.eqb_neq _ _)) in Hpc by done. congruence.
Qed.

(** The shared page again, with the private page copied into it. *)
Lemma swap_out s0 s share plog b p pgS pgP :
  env_ok e s0 share -> (forall c q, mapped (wal s0) c q -> exists r, mapped (wal s) c r) ->
  exclusiveMode (wal s) = exclusiveMode (wal s0) ->
  inv s (<[b := priv]> share) plog -> env_ok e s (<[b := priv]> share) -> mapped (wal s) b priv ->
  (forall c d q, share !! c = Some q -> share !! d = Some q -> c = d) -> (forall c, share !! c <> Some priv) ->
  share !! b = Some p -> p <> NULL -> pages s !! p = Some pgS -> page_size pgS -> pages s !! priv = Some pgP ->
  exists ap pg, (let? s := set_slot b p s in copy_page b p priv s) = Some (set_page p pg (on_wal (set_apWiData ap) s)) /\
    inv (set_page p pg (on_wal (set_apWiData ap) s)) share plog /\
    env_ok e (set_page p pg (on_wal (set_apWiData ap) s)) share /\ mapped (set_apWiData ap (wal s)) b p.
Proof.
  intros HE0 Hm0 Hx0 [[I1 I2 I3 I4 I5] [C1 C2 C3]] [E1 E2 E3 E4] Hm Hinj Hni Hsh Hp0 HpS [HS1 HS2] HpP.
  destruct (set_slot_run b p priv s Hm Hp0) as (ap & -> & Hmap). exists ap. unfold copy_page. cbn -[WALINDEX_HDR_SIZE].
  rewrite HpS, HpP. cbn -[WALINDEX_HDR_SIZE]. change (if b =? 0 then WALINDEX_HDR_SIZE / 4 else 0) with (off_of b).
  set (pg := Page _ _). exists pg. split; [done|].
  assert (Hne : p <> priv) by (intros ->; by destruct (Hni b)).
  destruct (I3 b priv) as (pgP' & EP & HP1 & HP2); [by rewrite lookup_insert_eq|]. assert (pgP' = pgP) as -> by congruence.
  pose proof (off_of_range b) as Ho.
  assert (Hdrop : drop (Z.to_nat (off_of b)) (words pg) = drop (Z.to_nat (off_of b)) (words pgP)).
  { simpl. rewrite drop_app_ge, length_take, Nat.min_l by (rewrite ?length_take; lia). by rewrite Nat.sub_diag, drop_0. }
  assert (Hlen : len (words pg) = HASHTABLE_NPAGE) by (simpl; rewrite length_app, length_take, length_drop; lia).
  assert (Hold : forall c, (forall q, ~ mapped (set_apWiData ap (wal s)) c q) -> c <> b /\ forall q, ~ mapped (wal s) c q).
  { intros c Hc. assert (c <> b) by (intros ->; apply (Hc p), Hmap; by left). split; [done|].
    intros q Hq. apply (Hc q), Hmap. by right. }
  split_and!; [split; split; simpl| |apply Hmap; by left].
  - done.
  - intros c q Hc. destruct (decide (c = b)) as [->|]; [congruence|]. apply (I2 c). by rewrite lookup_insert_ne.
  - intros c q Hc. destruct (decide (q = p)) as [->|]; [rewrite lookup_insert_eq; by exists pg|].
    rewrite lookup_insert_ne by done. apply (I3 c). rewrite lookup_insert_ne; [done|]. intros ->. congruence.
  - intros c Hc Hzc. destruct (I4 c Hc Hzc) as (q & pg1 & Hq & Epg1 & Hblk).
    destruct (decide (c = b)) as [->|Hcb].
    + rewrite lookup_insert_eq in Hq. injection Hq as <-. assert (pg1 = pgP) as -> by congruence.
      exists p, pg. rewrite lookup_insert_eq. split_and!; [done..|]. destruct Hblk as [B1 B2 B3 B4 B5 B6]. split; try done. by rewrite Hdrop.
    + rewrite lookup_insert_ne in Hq by done. exists q, pg1. rewrite lookup_insert_ne; [done|]. intros <-.
      apply Hcb. by eapply Hinj.
  - done.
  - intros c q [[-> ->]|[Hcb Hq]]%Hmap; [done|]. apply C1 in Hq. by rewrite lookup_insert_ne in Hq.
  - destruct (decide (b = 0)) as [->|]; [exists p; apply Hmap; by left|]. destruct C2 as [q Hq]. exists q. apply Hmap. right. split; [lia|done].
  - intros Hh c q Hc. apply Hmap. destruct (decide (c = b)) as [->|]; [left; split; congruence|right; split; [done|]].
    apply C3; [done|]. by rewrite lookup_insert_ne.
  - split; simpl; [done| |done|].
    + intros Hh c Hc Hc0. apply Hold in Hc as [_ Hc]. specialize (E2 Hh c Hc Hc0). rewrite lookup_insert_ne; [done|].
      intros E. rewrite <- E in E2. congruence.
    + intros Hh c q Hc Eq Hq. apply Hold in Hc as [Hcb Hc]. destruct (E4 Hh c q Hc Eq Hq) as [(pg1 & Epg1 & Hpg1) Hs]. split.
      { destruct (decide (q = p)) as [->|]; [rewrite lookup_insert_eq; by exists pg|rewrite lookup_insert_ne by done; by exists pg1]. }
      apply (en_shm _ _ _ HE0); [by rewrite <- Hx0| |done|done]. intros r Hr. by destruct (Hm0 c r Hr) as [r' ?%Hc].
Qed.

End Private.

(** ** Valid logs *)

Definition valid_log (c : bytes) (P : params) (log : list frame) : Prop := log_file c P log (length log).

Definition longest (c : bytes) (P : params) (log : list frame) : Prop :=
  valid_log c P log /\ forall f, ~ valid_log c P (log ++ [f]).

(** The number of the last frame that ends a transaction, 0 if there is none. *)
Fixpoint commits_from (i m : nat) (log : list frame) : nat :=
  match log with
  | [] => m
  | f :: log => commits_from (S i) (if f_size f =? 0 then m else S i) log
  end.
Definition last_commit (log : list frame) : nat := commits_from 0 0 log.

Lemma commits_from_snoc log f : forall i m,
  commits_from i m (log ++ [f]) = if f_size f =? 0 then commits_from i m log else S (i + length log).
Proof.
  induction log as [|g log IH]; intros i m; cbn [app commits_from length]; [by rewrite Nat.add_0_r|].
  rewrite IH. by replace (S i + length log)%nat with (i + S (length log))%nat by lia.
Qed.

Lemma last_commit_snoc log f : last_commit (log ++ [f]) = if f_size f =? 0 then last_commit log else S (length log).
Proof. unfold last_commit. by rewrite commits_from_snoc. Qed.

Lemma last_commit_le log : (last_commit log <= length log)%nat.
Proof.
  induction log as [|f log IH] using rev_ind; [done|]. rewrite last_commit_snoc, length_app. simpl. case_cond; lia.
Qed.

(** A valid frame after a valid log. *)
Definition next_frame (P : params) (log : list frame) (f : frame) : bytes :=
  frame_bytes f (seal P (log ++ [f]) (length log)).

Lemma valid_snoc c P log f :
  valid_log c P (log ++ [f]) <->
  valid_log c P log /\ frame_wf (p_size P) f /\
    mem_read c (log_end P (length log)) (p_size P + WAL_FRAME_HDRSIZE) = Some (next_frame P log f).
Proof.
  unfold valid_log. rewrite length_app. cbn [length]. split.
  - intros HL. pose proof HL as [H1 H2 H3 H4]. split_and!.
    + apply (log_file_prefix _ _ _ _ (length log)) in HL; [by rewrite take_app_length in HL|lia|rewrite length_app; simpl; lia].
    + apply Forall_app in H2 as [_ [? _]%list.Forall_cons]. done.
    + destruct (H1 (length log) f) as (t & Ht & Hr & Hs); [by rewrite lookup_app_r, Nat.sub_diag|].
      rewrite Hs in Hr by lia. exact Hr.
  - intros ([H1 H2 H3 H4] & Hf & Hr). split; [|by apply Forall_app; split; [|by constructor]|done|done].
    intros i g [Hi|[Hi Hg]]%lookup_app_Some.
    + destruct (H1 i g Hi) as (t & Ht & Hg & Hs). exists t. split_and!; [done..|]. intros _.
      pose proof (lookup_lt_Some _ _ _ Hi). rewrite seal_app by done. by apply Hs.
    + apply list_lookup_singleton_Some in Hg as [Hi0 <-]. assert (i = length log) as -> by lia.
      exists (seal P (log ++ [f]) (length log)). split_and!; [apply seal_length|exact Hr|done].
Qed.

Lemma valid_nil c P log : valid_log c P log -> valid_log c P [].
Proof. intros H. by apply (log_file_prefix _ _ _ _ 0) in H; [|lia|lia]. Qed.

(** The frames of a file are determined: one valid log is a prefix of the other. *)
Lemma valid_unique c P l1 l2 :
  valid_log c P l1 -> valid_log c P l2 -> (length l1 <= length l2)%nat -> l1 = take (length l1) l2.
Proof.
  intros H1 H2 Hl. apply list_eq. intros i. destruct (l1 !! i) as [f|] eqn:Ef.
  2:{ apply lookup_ge_None in Ef. symmetry. apply lookup_take_None. lia. }
  pose proof (lookup_lt_Some _ _ _ Ef). rewrite lookup_take_lt by lia.
  destruct (lookup_lt_is_Some_2 l2 i) as [g Eg]; [lia|]. rewrite Eg. f_equal.
  destruct (lf_frame _ _ _ _ H1 i f Ef) as (t & Ht & Hr & _). destruct (lf_frame _ _ _ _ H2 i g Eg) as (t' & Ht' & Hr' & _).
  rewrite Hr in Hr'. apply (inj Some) in Hr' as E. unfold frame_bytes in E.
  destruct (proj1 (Forall_lookup _ _) (lf_wf _ _ _ _ H1) i f Ef) as (Hf1 & _ & Hf2 & _).
  destruct (proj1 (Forall_lookup _ _) (lf_wf _ _ _ _ H2) i g Eg) as (Hg1 & _ & Hg2 & _).
  apply app_inj_1 in E as [E1 E]; [|done]. apply app_inj_1 in E as [E2 E]; [|done]. apply app_inj_1 in E as [_ E3]; [|by rewrite Ht, Ht'].
  apply be32_inj in E1; [|done..]. apply be32_inj in E2; [|done..]. destruct f, g. simpl in *. congruence.
Qed.

(** [walDecodeFrame] accepts exactly the next valid frame. *)
Lemma decode_next c P log w b :
  valid_log c P log -> handle_params w = P -> aFrameCksum (hdr w) = chain (native P) (ck0 P) log ->
  mem_read c (log_end P (length log)) (p_size P + WAL_FRAME_HDRSIZE) = Some b -> bytes_ok b ->
  exists ck r, walDecodeFrame (drop 24 b) (take 24 b) w = Some (set_hdr (set_aFrameCksum ck (hdr w)) w, r) /\
    is_u32 ck.1 /\ is_u32 ck.2 /\
    match r with
    | None => forall f, ~ valid_log c P (log ++ [f])
    | Some (pgno, nt) => let f := Fr pgno nt (drop 24 b) in
        valid_log c P (log ++ [f]) /\ ck = chain (native P) (ck0 P) (log ++ [f])
    end.
Proof.
  intros HL HP Hck Hread Hb. pose proof (lf_size _ _ _ _ HL) as [Hsz Hmod].
  assert (Hlb : len b = p_size P + 24) by (rewrite (mem_read_length _ _ _ _ Hread); done).
  assert (HszP : szPage w = p_size P) by by rewrite <- HP. destruct (ck0_range P) as [Hk1 Hk2].
  destruct (chain_range (native P) (ck0 P) log Hk1 Hk2) as [Hq1 Hq2].
  assert (Hpok : page_ok (p_size P) (drop 24 b)) by (split; [rewrite length_drop; lia|by apply Forall_drop|done]).
  destruct (decode_frame_spec w (drop 24 b) (take 24 b)) as (ck & r & E & Hc1 & Hc2 & Hv & Hc);
    [by rewrite HszP|by apply Forall_take|rewrite length_take; lia|by rewrite Hck..|].
  assert (Hn : native_of w = native P) by by rewrite <- HP.
  assert (Hs : aSalt (hdr w) = p_salt P) by by rewrite <- HP.
  assert (Hsum : forall p n, frame_sum (native_of w) p n (drop 24 b) (aFrameCksum (hdr w)) =
    chain (native P) (ck0 P) (log ++ [Fr p n (drop 24 b)])) by (intros p n; by rewrite chain_snoc, Hn, Hck).
  assert (Hseal : forall p n, frame_hdr p n (p_salt P) (frame_sum (native_of w) p n (drop 24 b) (aFrameCksum (hdr w))) ++ drop 24 b =
    next_frame P log (Fr p n (drop 24 b))).
  { intros p n. rewrite Hsum. unfold next_frame, frame_bytes, frame_hdr, seal. rewrite take_ge by (rewrite length_app; simpl; lia).
    by rewrite <- !app_assoc. }
  exists ck, r. split_and!; [done..|]. destruct r as [[pgno nt]|].
  - destruct (proj1 (Hv pgno nt) eq_refl) as (Hu1 & Hu2 & Hp0 & Eh). rewrite Hs in Eh. split; [|by rewrite (Hc _ _ eq_refl), Hsum].
    apply valid_snoc. split_and!; [done|by split_and!|]. rewrite <- Hseal, <- Eh, take_drop. done.
  - intros f (_ & Hwf & Hrf)%valid_snoc. rewrite Hread in Hrf. apply (inj Some) in Hrf as Ebf.
    destruct Hwf as (Hu1 & Hu2 & Hu3 & Hd). assert (Hdf : drop 24 b = f_data f) by (rewrite Ebf; apply drop_frame_bytes, seal_length).
    destruct f as [p n d]; cbn [f_pgno f_size f_data] in *. subst d. enough (None = Some (p, n)) by done. apply Hv. split_and!; [done..|].
    rewrite Hs. rewrite <- (Hseal p n) in Ebf. apply (f_equal (take 24)) in Ebf.
    rewrite take_app_length' in Ebf by by rewrite frame_hdr_length. exact Ebf.
Qed.

(** ** The loop over the frames *)

(** The header and the saved checksum after the frames [log] have been read. *)
Record recovered (P : params) (log : list frame) (ck : Z * Z) (h : WalIndexHdr) : Prop := {
  rv_ok : hdr_ok h;
  rv_mx : mxFrame h = Z.of_nat (last_commit log);
  rv_none : last_commit log = 0%nat -> ck = (0, 0) /\ nPage h = 0;
  rv_some : forall i, last_commit log = S i -> ck = chain (native P) (ck0 P) (take (S i) log) /\
    hdr_szPage h = size_code (p_size P) /\ exists f, log !! i = Some f /\ nPage h = f_size f
}.

Record scanned (e : page_env) (x : WSt) (share : gmap Z Z) (P : params) (log : list frame) (ck : Z * Z) : Prop := {
  sc_inv : inv (st x) share (f_pgno <$> log);
  sc_env : env_ok e (st x) share;
  sc_lock : writeLock (the_wal x) <> 0;
  sc_file : file_ok (fd x);
  sc_valid : valid_log (content (fd x)) P log;
  sc_params : handle_params (the_wal x) = P;
  sc_hdr : recovered P log ck (hdr (the_wal x))
}.

(** The running checksum. *)
Definition running (x : WSt) (P : params) (log : list frame) : Prop :=
  aFrameCksum (hdr (the_wal x)) = chain (native P) (ck0 P) log.

Lemma recovered_cksum P log ck h c : recovered P log ck h -> is_u32 c.1 -> is_u32 c.2 -> recovered P log ck (set_aFrameCksum c h).
Proof. intros [H1 H2 H3 H4] Hc1 Hc2. split; [by apply hdr_ok_cksum|done..]. Qed.

(** The header after one more frame. *)
Lemma recovered_next P log ck h f :
  recovered P log ck h -> frame_wf (p_size P) f -> aFrameCksum h = chain (native P) (ck0 P) (log ++ [f]) -> len log + 1 < 2 ^ 31 ->
  recovered P (log ++ [f]) (if f_size f <>? 0 then aFrameCksum h else ck)
    (if f_size f <>? 0 then set_hdr_szPage (size_code (p_size P)) (set_nPage (f_size f) (set_mxFrame (len log + 1) h)) else h).
Proof.
  intros [H1 H2 H3 H4] Hwf Hck Hb. pose proof (last_commit_snoc log f) as Hl.
  pose proof (last_commit_le log) as Hle. destruct (Z.eqb_spec (f_size f) 0) as [E|E]; cbn [negb].
  - split; rewrite ?Hl; [done|done|done|]. intros i Hi. destruct (H4 i Hi) as (-> & ? & g & Hg & ?).
    split; [by rewrite take_app_le by lia|]. split; [done|]. exists g. split; [|done]. by apply lookup_app_l_Some.
  - split; rewrite ?Hl.
    + destruct Hwf as (_ & _ & Hu & _).
      destruct (hdr_ok_frames h (Z.lor (Z.land (p_size P) 0xff00) (Z.shiftr (p_size P) 16)) (len log + 1) (f_size f) (iChange h) H1)
        as [_ Hok]; [unfold is_u32; lia|done| |exact Hok].
      destruct H1 as [Hw _ _ _]. unfold hdr_words in Hw. rewrite !list.Forall_cons in Hw. tauto.
    + simpl. lia.
    + done.
    + intros i [= <-]. split; [by rewrite Hck, take_ge by (rewrite length_app; simpl; lia)|]. split; [done|].
      exists f. split; [by rewrite lookup_app_r, Nat.sub_diag|done].
Qed.

(** What a run of the loop leaves. *)
Definition scan_result (e : page_env) (x : WSt) (share : gmap Z Z) (P : params) (log : list frame) (n : nat) (rc0 : Z)
  (res : option (WSt * Z * Z * (Z * Z))) : Prop :=
  exists x' rc i ck' log', res = Some (x', rc, i, ck') /\ scanned e x' share P log' ck' /\ log `prefix_of` log' /\
    i = len log' + 1 /\ (length log' <= length log + n)%nat /\ content (fd x') = content (fd x) /\
    (exists h, the_wal x' = set_hdr h (the_wal x)) /\
    (forall q pg, pages (st x) !! q = Some pg -> (forall c, share !! c <> Some q) -> pages (st x') !! q = Some pg) /\
    (length log' = (length log + n)%nat -> running x' P log' /\ (rc = rc0 \/ rc = SQLITE_OK)) /\
    (rc = SQLITE_OK -> length log' <> (length log + n)%nat -> longest (content (fd x)) P log').

Lemma scan_stop e x x' share P log n rc0 rc ck :
  scanned e x' share P log ck -> content (fd x') = content (fd x) -> (exists h, the_wal x' = set_hdr h (the_wal x)) ->
  pages (st x') = pages (st x) -> (n <> 0)%nat -> (rc = SQLITE_OK -> longest (content (fd x)) P log) ->
  scan_result e x share P log n rc0 (Some (x', rc, len log + 1, ck)).
Proof.
  intros HS Hc Hw Hp Hn Hl. eexists x', rc, _, ck, log. split; [done|]. split_and!; [done|done|done|lia|done|done|by rewrite Hp|intros; lia|intros; by apply Hl].
Qed.

Lemma note_commit_spec e x share P log f ck x' ck' :
  inv (st x) share (f_pgno <$> log ++ [f]) -> env_ok e (st x) share -> writeLock (the_wal x) <> 0 -> file_ok (fd x) ->
  valid_log (content (fd x)) P (log ++ [f]) -> handle_params (the_wal x) = P -> recovered P log ck (hdr (the_wal x)) ->
  running x P (log ++ [f]) -> len log + 1 < 2 ^ 31 ->
  note_commit (p_size P) (len log + 1) (f_size f) ck x = (x', ck') ->
  scanned e x' share P (log ++ [f]) ck' /\ running x' P (log ++ [f]) /\ fd x' = fd x /\ pages (st x') = pages (st x) /\
    exists h, the_wal x' = set_hdr h (the_wal x).
Proof.
  intros S1 S2 S3 S4 S5 S6 S7 Hrun Hb E.
  assert (Hwf : frame_wf (p_size P) f) by (apply valid_snoc in S5; tauto).
  pose proof (recovered_next P log ck (hdr (the_wal x)) f S7 Hwf Hrun Hb) as HR.
  unfold note_commit in E. destruct (Z.eqb_spec (f_size f) 0) as [Ef|Ef]; cbn [negb] in *.
  - injection E as <- <-. split_and!; try done. exists (hdr (the_wal x)). by destruct (the_wal x).
  - injection E as <- <-. split_and!; try done; [|by eexists]. split; try done; [by apply (inv_wal (st x))|by apply (env_wal _ (st x))].
Qed.

Lemma scan_result_after e x x4 share P log f n rc0 res :
  scan_result e x4 share P (log ++ [f]) n SQLITE_OK res -> content (fd x4) = content (fd x) ->
  (exists h, the_wal x4 = set_hdr h (the_wal x)) ->
  (forall q pg, pages (st x) !! q = Some pg -> (forall c, share !! c <> Some q) -> pages (st x4) !! q = Some pg) ->
  scan_result e x share P log (S n) rc0 res.
Proof.
  intros (x' & rc & i & ck' & log' & -> & H1 & H2 & H3 & H4 & H5 & [h H6] & H7 & H8 & H9) Hc [h4 Hw4] Hp.
  rewrite length_app, Nat.add_1_r in *. exists x', rc, i, ck', log'. split; [done|]. split_and!; [done| |done|lia|congruence| | | |].
  - etrans; [|done]. by apply prefix_app_r.
  - exists h. by rewrite H6, Hw4.
  - intros q pg Hq Hs. apply H7; [by apply Hp|done].
  - intros Hl. destruct H8 as [? [?|?]]; [lia|by split; [|right]..].
  - intros Hrc Hl. rewrite <- Hc. apply H9; [done|lia].
Qed.

Lemma recover_frames_spec n : forall e sz rc x share P log ck,
  scanned e x share P log ck -> running x P log -> sz = p_size P -> len log + Z.of_nat n < 2 ^ 31 ->
  (forall f, len log < f <= len log + Z.of_nat n -> exists q, mapped (the_wal x) (walFramePage f) q) ->
  scan_result e x share P log n rc (recover_frames n e sz (len log + 1) ck rc x).
Proof.
  induction n as [|n IH]; intros e sz rc x share P log ck HS Hrun -> Hb Hmap; cbn [recover_frames].
  { eexists x, rc, _, ck, log. split; [done|]. split_and!; [done|done|done|lia|done| |done|by split; [|left]|intros _ ?; lia].
    exists (hdr (the_wal x)). by destruct (the_wal x). }
  pose proof HS as [S1 S2 S3 S4 S5 S6 S7]. pose proof (lf_size _ _ _ _ S5) as [Hsz Hmod].
  change (walFrameOffset (len log + 1) (p_size P)) with (log_end P (length log)).
  destruct (sqlite3OsRead (p_size P + WAL_FRAME_HDRSIZE) (log_end P (length log)) (fd x)) as [[f1 rc1] b] eqn:E1.
  pose proof (log_end_ge P (length log) ltac:(lia)).
  apply os_read_spec in E1 as (Hf1 & Ec1 & Hbl & Hbb & Hread); [|done|lia|unfold WAL_FRAME_HDRSIZE; lia].
  assert (HS1 : scanned e (with_fd f1 x) share P log ck) by (split; try done; cbn [fd with_fd]; by rewrite Ec1).
  destruct (Z.eqb_spec rc1 SQLITE_OK) as [Hrc1|Hrc1]; cbn [negb].
  2:{ apply scan_stop; try done. exists (hdr (the_wal x)). change (the_wal (with_fd f1 x)) with (the_wal x). by destruct (the_wal x). }
  specialize (Hread Hrc1). change (the_wal (with_fd f1 x)) with (the_wal x).
  destruct (decode_next _ P log (the_wal x) b S5 S6 Hrun Hread Hbb) as (c & r & -> & Hc1 & Hc2 & Hr).
  cbn -[walIndexAppend recover_frames note_commit with_wal with_fd st the_wal]. set (x2 := with_wal _ (with_fd f1 x)).
  assert (HS2 : scanned e x2 share P log ck).
  { split; try done; [by apply (inv_wal (st x))|by apply (env_wal _ (st x))|unfold x2; simpl; by rewrite Ec1|]. by apply recovered_cksum. }
  destruct r as [[pgno nt]|]; [|by apply scan_stop; try done; eexists].
  destruct Hr as [Hvalid Hck]. set (f := Fr pgno nt (drop 24 b)) in *.
  assert (Hwf : frame_wf (p_size P) f) by (apply valid_snoc in Hvalid; tauto).
  assert (Hpos : 0 < pgno) by (destruct Hwf as (Hwf1 & Hwf2 & _); unfold is_u32 in Hwf1; cbn [f_pgno f] in *; lia).
  destruct (Hmap (len log + 1)) as [q Hq]; [lia|].
  destruct (walIndexAppend_spec e (st x2) share (f_pgno <$> log) (length log) pgno) as (s3 & rc3 & share3 & E3 & HV & _ & Hm3);
    [apply HS2|apply HS2|apply HS2|lia|lia|by rewrite length_fmap|left; by rewrite length_fmap|].
  destruct (Hm3 q Hq) as (Hw3 & -> & ->). clear Hm3. rewrite E3.
  change (SQLITE_OK =? SQLITE_OK) with true in *. cbv iota in HV. rewrite take_ge in HV by (rewrite length_fmap; lia).
  cbn -[recover_frames note_commit x2]. change (fd x2) with f1.
  destruct (note_commit (p_size P) (len log + 1) nt ck (WS s3 f1)) as [x4 ck4] eqn:E4.
  apply (note_commit_spec e (WS s3 f1) share P log f ck x4 ck4) in E4 as (HS4 & Hrun4 & Hf4 & Hp4 & [h4 Hw4]);
    try done; unfold the_wal, running; cbn [st fd]; rewrite ?Hw3, ?Ec1, ?fmap_app; try apply HV; try apply HS2; try done.
  apply (scan_result_after e x x4 share P log f).
  - replace (len log + 1 + 1) with (len (log ++ [f]) + 1) by (rewrite length_app; simpl; lia).
    apply IH; [done|done|done|rewrite length_app; simpl; lia|].
    intros g Hg. rewrite length_app in Hg. simpl in Hg. rewrite Hw4. change (the_wal (WS s3 f1)) with (wal s3). rewrite Hw3. apply Hmap. lia.
  - by rewrite Hf4.
  - exists h4. rewrite Hw4. change (the_wal (WS s3 f1)) with (wal s3). by rewrite Hw3.
  - intros q' pg Hq' Hs. rewrite Hp4. by apply (ev_rest _ _ _ _ _ _ HV).
  - unfold the_wal. cbn [st]. rewrite Hw3. exact Hck.
  - lia.
Qed.


Lemma scanned_grows e x s share share' P log ck :
  scanned e x share P log ck -> grows e (st x) s share share' (f_pgno <$> log) ->
  scanned e (WS s (fd x)) share' P log ck /\ (running x P log -> running (WS s (fd x)) P log).
Proof.
  intros [S1 S2 S3 S4 S5 S6 S7] HG. destruct (gr_wal _ _ _ _ _ _ HG) as (ap & ro & Ew).
  unfold running, the_wal in *. cbn [st fd]. split; [|by rewrite Ew].
  split; unfold the_wal; cbn [st fd]; try done; try apply HG; by rewrite Ew.
Qed.

Lemma scanned_wal e x s share0 share P log ck :
  scanned e x share0 P log ck -> inv s share (f_pgno <$> log) -> env_ok e s share ->
  (exists ap, wal s = set_apWiData ap (the_wal x)) -> scanned e (WS s (fd x)) share P log ck.
Proof. intros [S1 S2 S3 S4 S5 S6 S7] HI HE [ap Ew]. split; unfold the_wal; cbn [st fd]; try done; by rewrite Ew. Qed.

(** ** The loop over the pages of the index *)

Section Pages.
Context (e : page_env) (priv : Z).
Context (Hpriv0 : priv <> NULL) (Hpriv : forall w b, env_page e w b <> priv).

(** The private page is there, and it is not a page of the index. *)
Definition private (x : WSt) (share : gmap Z Z) : Prop :=
  (exists pg, pages (st x) !! priv = Some pg /\ page_size pg) /\ forall c, share !! c <> Some priv.

(** One page: its frames are read into the private page, which replaces the shared one. *)
Lemma recover_page_spec x share P log ck b p n rc :
  scanned e x share P log ck -> running x P log -> private x share -> mapped (the_wal x) b p -> share !! b = Some p ->
  0 <= b -> len log = zero_of b -> Z.of_nat n <= HASHTABLE_NPAGE - off_of b -> len log + Z.of_nat n < 2 ^ 31 ->
  exists x' rc' i ck' log', recover_page n e b priv p (p_size P) (len log + 1) ck rc x = Some (x', rc', i, ck') /\
    scanned e x' share P log' ck' /\ private x' share /\ content (fd x') = content (fd x) /\
    i = len log' + 1 /\ (length log' <= length log + n)%nat /\
    (length log' = (length log + n)%nat -> running x' P log' /\ (rc' = rc \/ rc' = SQLITE_OK)) /\
    (rc' = SQLITE_OK -> length log' <> (length log + n)%nat -> longest (content (fd x)) P log').
Proof.
  intros HS Hrun [(pg & Hpg & Hsz) Hni] Hm Hsh Hb Hlen Hn Hmax. pose proof HS as [S1 S2 S3 S4 S5 S6 S7]. unfold recover_page.
  destruct (swap_in e priv Hpriv0 Hpriv (st x) share (f_pgno <$> log) b p pg) as (ap & -> & HI1 & HE1 & Hm1 & Hmono);
    [done..|rewrite length_fmap; lia|].
  cbn -[recover_frames set_slot copy_page]. set (s1 := on_wal (set_apWiData ap) (st x)) in *.
  assert (HS1 : scanned e (WS s1 (fd x)) (<[b := priv]> share) P log ck).
  { split; unfold the_wal; cbn [st fd]; try done. }
  destruct (recover_frames_spec n e (p_size P) rc (WS s1 (fd x)) (<[b := priv]> share) P log ck HS1 Hrun eq_refl Hmax)
    as (x2 & rc2 & i2 & ck2 & log2 & -> & HS2 & Hpre & Hi2 & Hle & Hc2 & [h2 Hw2] & Hrest & Hall & Hlong).
  { intros f Hf. exists priv. replace (walFramePage f) with b; [exact Hm1|]. symmetry. apply walFramePage_spec; lia. }
  destruct (ix_size _ _ _ (inv_index _ _ _ S1) b p Hsh) as (pgS & EpS & HpS).
  destruct (ix_size _ _ _ (inv_index _ _ _ (sc_inv _ _ _ _ _ _ HS2)) b priv) as (pgP & EpP & HpP); [by rewrite lookup_insert_eq|].
  assert (Hmap2 : forall c q, mapped (wal (st x2)) c q <-> mapped (set_apWiData ap (wal (st x))) c q).
  { intros c q. change (wal (st x2)) with (the_wal x2). by rewrite Hw2. }
  assert (Hne : p <> priv) by (intros ->; by destruct (Hni b)).
  destruct (swap_out e priv Hpriv0 (st x) (st x2) share (f_pgno <$> log2) b p pgS pgP) as (ap3 & pg3 & E3 & HI3 & HE3 & Hm3).
  { done. }
  { intros c q Hcq. destruct (Hmono c q Hcq) as [r Hr]. exists r. by apply Hmap2. }
  { change (wal (st x2)) with (the_wal x2). by rewrite Hw2. }
  { apply HS2. } { apply HS2. } { by apply Hmap2. } { apply S1. } { done. } { done. } { by eapply ix_null; [apply S1|]. }
  { apply Hrest; [done|]. intros c [[<- ?]|[Hcb Hc]]%lookup_insert_Some; [done|]. by destruct (ix_inj _ _ _ (inv_index _ _ _ S1) _ _ _ Hc Hsh). }
  { done. } { done. }
  cbn -[set_slot copy_page]. destruct (set_slot b p (st x2)) as [s3|] eqn:Es; [|done]. cbn -[copy_page] in E3 |- *. rewrite E3. cbn.
  eexists _, rc2, i2, ck2, log2. split; [done|]. split_and!.
  - apply (scanned_wal e x2 _ (<[b := priv]> share)); [done..|by exists ap3].
  - split; [|done]. exists pgP. cbn [st pages set_page]. by rewrite lookup_insert_ne.
  - done.
  - done.
  - done.
  - intros Hl. destruct (Hall Hl). by split.
  - done.
Qed.

(** The whole loop: [log] are the frames on the pages before [b]. *)
Lemma recover_pages_spec fuel : forall x share P log ck b rc iLast,
  scanned e x share P log ck -> running x P log -> private x share -> 0 <= b -> 0 <= iLast ->
  len log = Z.min iLast (zero_of b) -> iLast < 2 ^ 31 - 1 -> walFramePage iLast - b < Z.of_nat fuel ->
  exists x' rc' ck' share' log', recover_pages fuel e priv (p_size P) iLast b ck rc x = Some (x', rc', ck') /\
    scanned e x' share' P log' ck' /\ private x' share' /\ content (fd x') = content (fd x) /\
    (rc' = SQLITE_OK -> longest (content (fd x)) P log' \/ len log' = iLast).
Proof.
  induction fuel as [|fuel IH]; intros x share P log ck b rc iLast HS Hrun Hpr Hb HiL Hlen Hmax Hfuel; cbn [recover_pages].
  all: destruct (Z.ltb_spec (walFramePage iLast) b) as [Hlt|Hge].
  1,3: exists x, rc, ck, share, log; split_and!; [done..|]; intros _; right.
  1,2: destruct (decide (iLast = 0)) as [->|]; [pose proof (zero_of_nonneg b Hb); lia|].
  1,2: destruct (walFramePage_bounds iLast) as [_ Hz]; [lia|]; rewrite Hlen; apply Z.min_l; revert Hz Hlt; layout; lia.
  { lia. }
  assert (Hzb : zero_of b <= iLast /\ zero_of (b + 1) = HASHTABLE_NPAGE_ONE + b * HASHTABLE_NPAGE /\
    zero_of (b + 1) = zero_of b + (HASHTABLE_NPAGE - off_of b) /\ 0 <= zero_of b).
  { pose proof (zero_of_nonneg b Hb). destruct (decide (iLast = 0)) as [->|].
    - change (walFramePage 0) with 0 in Hge. assert (b = 0) as -> by lia. layout; lia.
    - destruct (walFramePage_bounds iLast) as [Hw Hz]; [lia|]. revert Hz Hge. layout; lia. }
  destruct Hzb as (Hzb & Hz1 & Hz2 & Hz0). rewrite Z.min_r in Hlen by lia. pose proof (off_of_range b) as Ho.
  pose proof layout_eqs as (_ & HN & _).
  rewrite <- Hz1, (u32_small (zero_of (b + 1))) by lia.
  change (if b =? 0 then 0 else HASHTABLE_NPAGE_ONE + (b - 1) * HASHTABLE_NPAGE) with (zero_of b).
  rewrite u32_small by lia. replace (1 + zero_of b) with (len log + 1) by lia.
  destruct (walIndexPage_spec e b (st x) share (f_pgno <$> log)) as (s & rc1 & p & share1 & -> & HG & Hp & Hrc1 & _ & Hnew);
    [apply HS|apply HS|done|].
  cbn -[recover_page recover_pages]. destruct (scanned_grows _ _ _ _ _ _ _ _ HS HG) as [HS1 Hrun1].
  assert (Hpr1 : private (WS s (fd x)) share1).
  { destruct Hpr as [(pg & Hpg & Hsz) Hni]. split; [exists pg; split; [|done]; by eapply lookup_weaken; [|apply HG]|].
    intros c Hc. destruct (Hnew c priv Hc) as [?|E]; [by destruct (Hni c)|]. by destruct (Hpriv (wal (st x)) c). }
  destruct (Z.eqb_spec p NULL) as [Hp0|Hp0]; cbn [andb].
  { destruct (Z.eqb_spec rc1 SQLITE_OK) as [E|E]; [by destruct (Hrc1 E)|]. by exists (WS s (fd x)), rc1, ck, share1, log. }
  destruct (Hp Hp0) as [Hsh1 Hm1]. set (iL := Z.min iLast (zero_of (b + 1))).
  destruct (recover_page_spec (WS s (fd x)) share1 P log ck b p (Z.to_nat (iL - (len log + 1) + 1)) rc1)
    as (x2 & rc2 & i2 & ck2 & log2 & -> & HS2 & Hpr2 & Hc2 & Hi2 & Hle2 & Hall & Hlong); [done|by apply Hrun1|done..|lia|lia|].
  cbn -[recover_pages]. destruct (Z.leb_spec i2 iL) as [Hstop|Hgo].
  - exists x2, rc2, ck2, share1, log2. split_and!; [done..|]. intros Hrc. left. apply Hlong; [done|lia].
  - assert (Hl2 : length log2 = (length log + Z.to_nat (iL - (len log + 1) + 1))%nat) by lia.
    destruct (Hall Hl2) as [Hrun2 _].
    destruct (IH x2 share1 P log2 ck2 (b + 1) rc2 iLast) as (x' & rc' & ck' & share' & log' & -> & HS' & Hpr' & Hc' & Hlast);
      [done|done|done|lia|done|lia|done|lia|].
    exists x', rc', ck', share', log'. rewrite Hc2 in *. split_and!; done.
Qed.

End Pages.

(** ** The header of the log *)

Definition params_ok (P : params) : Prop :=
  p_size P ∈ page_sizes /\ (p_big P = 0 \/ p_big P = 1) /\ is_u32 (p_ckpt P) /\ is_u32 (p_salt P).1 /\ is_u32 (p_salt P).2.

Definition header_of (c : bytes) (P : params) : Prop := params_ok P /\ mem_read c 0 WAL_HDRSIZE = Some (wal_hdr P).

Lemma power_of_two sz : 512 <= sz <= 65536 -> Z.land sz (sz - 1) = 0 -> sz ∈ page_sizes.
Proof.
  intros Hr H0. pose proof (Z.log2_spec sz ltac:(lia)) as [H1 H2]. set (k := Z.log2 sz) in *.
  assert (Hk : 9 <= k <= 16).
  { split; [change 9 with (Z.log2 512); apply Z.log2_le_mono; lia|change 16 with (Z.log2 65536); apply Z.log2_le_mono; lia]. }
  assert (Hs : sz = 2 ^ k).
  { destruct (Z.eq_dec sz (2 ^ k)) as [|Hne]; [done|]. exfalso.
    assert (Hk' : Z.log2 (sz - 1) = k) by (apply Z.log2_unique; lia).
    apply (f_equal (fun z => Z.testbit z k)) in H0. rewrite Z.land_spec, Z.bits_0 in H0.
    assert (Hb1 : Z.testbit sz k = true) by (apply Z.bit_log2; lia).
    assert (Hb2 : Z.testbit (sz - 1) k = true) by (rewrite <- Hk'; apply Z.bit_log2; lia). by rewrite Hb1, Hb2 in H0. }
  rewrite Hs. unfold page_sizes. assert (k ∈ [9; 10; 11; 12; 13; 14; 15; 16]) as Hin by (rewrite !elem_of_cons; lia).
  rewrite !elem_of_cons, elem_of_nil in Hin. destruct_or? Hin; rewrite ?Hin; try done; rewrite !elem_of_cons; tauto.
Qed.

Lemma size_checks sz : sz ∈ page_sizes ->
  i32 sz = sz /\ Z.land sz (i32 (sz - 1)) = 0 /\ 512 <= sz <= 65536 /\ sz mod 8 = 0.
Proof. unfold page_sizes. rewrite !elem_of_cons, elem_of_nil. by intros H; destruct_or? H; subst. Qed.

Lemma magic_fields m : is_u32 m -> Z.land m 0xFFFFFFFE = WAL_MAGIC ->
  m = Z.lor WAL_MAGIC (u8 (Z.land m 1)) /\ (u8 (Z.land m 1) = 0 \/ u8 (Z.land m 1) = 1).
Proof.
  intros Hm E. assert (Hb : u8 (Z.land m 1) = m mod 2).
  { change 1 with (Z.ones 1). rewrite Z.land_ones by lia. unfold u8. change (2 ^ 1) with 2. Z.div_mod_to_equations. lia. }
  rewrite Hb. split; [|Z.div_mod_to_equations; lia]. rewrite <- E. change 2 with (2 ^ 1). rewrite <- Z.land_ones, <- Z.land_lor_distr_r by lia.
  change (Z.lor 0xFFFFFFFE (Z.ones 1)) with (Z.ones 32). rewrite Z.land_ones by lia. symmetry. by apply Z.mod_small.
Qed.

Lemma le32_surj b : bytes_ok b -> length b = 4%nat -> exists v, is_u32 v /\ b = le32 v /\ forall r, u32s (b ++ r) = v :: u32s r.
Proof.
  intros Hb Hl. destruct b as [|b0 [|b1 [|b2 [|b3 [|]]]]]; try done.
  unfold bytes_ok in Hb; rewrite !list.Forall_cons in Hb. destruct Hb as (H0 & H1 & H2 & H3 & _). unfold is_byte in *.
  exists (b0 + Z.shiftl b1 8 + Z.shiftl b2 16 + Z.shiftl b3 24). split_and!; [|..|done].
  - unfold is_u32. rewrite !Z.shiftl_mul_pow2 by lia. lia.
  - unfold le32, u8. rewrite !Z.shiftl_mul_pow2, !Z.shiftr_div_pow2 by lia.
    f_equal; [|f_equal; [|f_equal; [|f_equal]]]; Z.div_mod_to_equations; lia.
Qed.

Lemma salt_surj b : bytes_ok b -> length b = 8%nat -> exists s, is_u32 s.1 /\ is_u32 s.2 /\ b = salt_image s /\ u32s b = [s.1; s.2].
Proof.
  intros Hb Hl. pose proof Hb as Hb'. rewrite <- (take_drop 4 b) in Hb'. apply Forall_app in Hb' as [Hb1 Hb2].
  destruct (le32_surj (take 4 b) Hb1) as (v & Hv & E1 & U1); [rewrite length_take; lia|].
  destruct (le32_surj (drop 4 b) Hb2) as (w & Hw & E2 & U2); [rewrite length_drop; lia|].
  specialize (U2 []). rewrite app_nil_r in U2. specialize (U1 (drop 4 b)). rewrite take_drop, U2 in U1.
  exists (v, w). split_and!; [done|done| |done]. rewrite <- (take_drop 4 b), E1, E2. done.
Qed.

(** The fields of 32 bytes. *)
Lemma header_fields b : bytes_ok b -> length b = 32%nat -> exists m v s k salt c0 c1,
  b = (be32 m ++ be32 v ++ be32 s ++ be32 k ++ salt_image salt) ++ be32 c0 ++ be32 c1 /\
  is_u32 m /\ is_u32 v /\ is_u32 s /\ is_u32 k /\ is_u32 c0 /\ is_u32 c1 /\ is_u32 salt.1 /\ is_u32 salt.2 /\
  u32s (salt_image salt) = [salt.1; salt.2].
Proof.
  intros Hb Hl. pose proof Hb as Hb'. rewrite <- (take_drop 8 b) in Hb. apply Forall_app in Hb as [H1 H2].
  destruct (frame_fields (drop 8 b) H2) as (s & k & s8 & c0 & c1 & E & H8 & Hs & Hk & Hc0 & Hc1); [rewrite length_drop; lia|].
  assert (Hs8 : bytes_ok s8) by (rewrite E in H2; rewrite !Forall_app in H2; tauto).
  destruct (salt_surj s8 Hs8 H8) as (salt & Hsa & Hsb & -> & Hu).
  rewrite <- (take_drop 4 (take 8 b)) in H1. apply Forall_app in H1 as [H1 H3].
  destruct (be32_surj (take 4 (take 8 b)) H1) as (m & Hm & Em); [rewrite !length_take; lia|].
  destruct (be32_surj (drop 4 (take 8 b)) H3) as (v & Hv & Ev); [rewrite length_drop, length_take; lia|].
  exists m, v, s, k, salt, c0, c1. split_and!; try done.
  rewrite <- (take_drop 8 b), <- (take_drop 4 (take 8 b)), Em, Ev, E, <- !app_assoc. done.
Qed.

(** A valid header has the fields of its parameters. *)
Lemma header_fields_of c P m v s k salt c0 c1 :
  header_of c P -> mem_read c 0 WAL_HDRSIZE = Some ((be32 m ++ be32 v ++ be32 s ++ be32 k ++ salt_image salt) ++ be32 c0 ++ be32 c1) ->
  is_u32 m -> is_u32 v -> is_u32 s -> is_u32 c0 -> is_u32 c1 ->
  m = Z.lor WAL_MAGIC (p_big P) /\ v = WAL_MAX_VERSION /\ s = p_size P /\ (c0, c1) = ck0 P /\
  be32 m ++ be32 v ++ be32 s ++ be32 k ++ salt_image salt = hdr24 P.
Proof.
  intros [(HP1 & HP2 & HP3 & _) Hr] Hb Hm Hv Hs Hc0 Hc1. rewrite Hr in Hb. apply (inj Some) in Hb. unfold wal_hdr in Hb.
  apply app_inj_1 in Hb as [E E']; [|done]. apply app_inj_1 in E' as [E1 E2]; [|done].
  destruct (ck0_range P) as [Hk1 Hk2]. apply be32_inj in E1; [|done..]. apply be32_inj in E2; [|done..].
  pose proof E as Eh. unfold hdr24 in E. apply app_inj_1 in E as [E3 E]; [|done]. apply app_inj_1 in E as [E4 E]; [|done].
  apply app_inj_1 in E as [E5 _]; [|done]. destruct (size_checks _ HP1) as (_ & _ & Hsz & _).
  apply be32_inj in E3; [|by destruct HP2 as [->| ->]|done]. apply be32_inj in E4; [|done..].
  apply be32_inj in E5; [|unfold is_u32; lia|done]. split_and!; [done..| |done]. rewrite (surjective_pairing (ck0 P)). congruence.
Qed.

(** The handle before the frames are read. *)
Definition blank (w w' : Wal) : Prop :=
  apWiData w' = apWiData w /\ exclusiveMode w' = exclusiveMode w /\ writeLock w' = writeLock w /\
  hdr_ok (hdr w') /\ mxFrame (hdr w') = 0 /\ nPage (hdr w') = 0.

Lemma zero_hdr_ok : hdr_ok zero_hdr.
Proof. split; [unfold hdr_words; rewrite !list.Forall_cons; by split_and!|done..]. Qed.

Lemma blank_refl w : hdr w = zero_hdr -> blank w w.
Proof. intros E. unfold blank. rewrite E. split_and!; try done. apply zero_hdr_ok. Qed.

Lemma blank_hdr w w0 c salt big :
  hdr w = zero_hdr -> apWiData w0 = apWiData w -> exclusiveMode w0 = exclusiveMode w -> writeLock w0 = writeLock w ->
  hdr w0 = set_aFrameCksum c (set_aSalt salt (set_bigEndCksum big zero_hdr)) ->
  is_u32 c.1 -> is_u32 c.2 -> is_u32 salt.1 -> is_u32 salt.2 -> is_byte big -> blank w w0.
Proof.
  intros E H1 H2 H3 H4 Ha Hb Hc Hd He. unfold blank. rewrite H4. split_and!; try done. apply hdr_ok_cksum; [|done..].
  apply hdr_ok_salt; [|done..]. apply hdr_ok_big; [|done]. apply zero_hdr_ok.
Qed.

Lemma recover_header_spec c b x :
  mem_read c 0 WAL_HDRSIZE = Some b -> bytes_ok b -> hdr (the_wal x) = zero_hdr ->
  exists x' rc ok, recover_header b x = Some (x', rc, ok) /\ fd x' = fd x /\ pages (st x') = pages (st x) /\
    blank (the_wal x) (the_wal x') /\
    (ok = true -> rc = SQLITE_OK /\ exists P, header_of c P /\ handle_params (the_wal x') = P /\ aFrameCksum (hdr (the_wal x')) = ck0 P) /\
    (ok = false -> forall P, ~ header_of c P).
Proof.
  intros Hr Hb Hz. assert (Hlb : length b = 32%nat) by (pose proof (mem_read_length _ _ _ _ Hr); unfold WAL_HDRSIZE in *; lia).
  destruct (header_fields b Hb Hlb) as (m & v & s & k & salt & c0 & c1 & -> & Hm & Hv & Hs & Hk & Hc0 & Hc1 & Hsa & Hsb & Hu).
  set (h24 := be32 m ++ be32 v ++ be32 s ++ be32 k ++ salt_image salt) in *.
  pose proof (fun P HP => header_fields_of c P m v s k salt c0 c1 HP Hr Hm Hv Hs Hc0 Hc1) as Huniq.
  unfold recover_header.
  rewrite (get_app [] m (be32 v ++ be32 s ++ be32 k ++ salt_image salt ++ be32 c0 ++ be32 c1)) by (done || unfold h24; by rewrite <- !app_assoc).
  cbn -[get4byte_at mem_read app be32 h24 walChecksumBytes u32s Z.land].
  rewrite (get_app (be32 m ++ be32 v) s (be32 k ++ salt_image salt ++ be32 c0 ++ be32 c1)) by (done || unfold h24; by rewrite <- !app_assoc).
  cbn -[get4byte_at mem_read app be32 h24 walChecksumBytes u32s Z.land].
  destruct (_ || _ || _ || _) eqn:Echk.
  { exists x, SQLITE_OK, false. split; [done|]. split_and!; try done; [by apply blank_refl|]. intros _ P HP.
    destruct (Huniq P HP) as (Em & _ & -> & _). destruct HP as [(HP1 & HP2 & _) _].
    destruct (size_checks _ HP1) as (E1 & E2 & E3 & _). rewrite E1, E2 in Echk. unfold SQLITE_MAX_PAGE_SIZE in Echk.
    rewrite (proj2 (Z.ltb_ge 65536 _)), (proj2 (Z.ltb_ge _ 512)) in Echk by lia. rewrite Em in Echk. by destruct HP2 as [E|E]; rewrite E in Echk. }
  apply orb_false_iff in Echk as [[[Hc_m Hc_p]%orb_false_iff Hc_hi]%orb_false_iff Hc_lo].
  apply negb_false_iff, Z.eqb_eq in Hc_m, Hc_p. apply Z.ltb_ge in Hc_hi, Hc_lo. unfold SQLITE_MAX_PAGE_SIZE in Hc_hi.
  rewrite (i32_small (i32 s - 1)) in Hc_p by lia.
  assert (Esz : i32 s = s) by (unfold is_u32, i32 in *; Z.div_mod_to_equations; lia). rewrite Esz in *.
  pose proof (power_of_two s ltac:(lia) Hc_p) as Hpg. destruct (size_checks s Hpg) as (_ & _ & _ & Hs8).
  destruct (magic_fields m Hm Hc_m) as [Em Hbig]. set (big := u8 (Z.land m 1)) in *.
  rewrite (get_app (be32 m ++ be32 v ++ be32 s) k (salt_image salt ++ be32 c0 ++ be32 c1)) by (done || unfold h24; by rewrite <- !app_assoc).
  cbn -[get4byte_at mem_read app be32 h24 walChecksumBytes u32s Z.land big].
  rewrite (mem_read_app (be32 m ++ be32 v ++ be32 s ++ be32 k) (salt_image salt) (be32 c0 ++ be32 c1)) by (done || unfold h24; by rewrite <- !app_assoc).
  cbn -[get4byte_at mem_read app be32 h24 walChecksumBytes u32s Z.land big salt_image]. rewrite Hu.
  cbn -[get4byte_at mem_read app be32 h24 walChecksumBytes u32s Z.land big salt_image].
  rewrite (mem_read_app [] h24 (be32 c0 ++ be32 c1)) by done.
  cbn -[get4byte_at mem_read app be32 h24 walChecksumBytes u32s Z.land big salt_image].
  assert (Hhb : bytes_ok h24) by (apply Forall_app in Hb; tauto).
  rewrite (checksum_spec (big =? SQLITE_BIGENDIAN) h24 None) by done.
  change (default (0, 0) None) with (0, 0). set (ck := format_sum (order_words (big =? SQLITE_BIGENDIAN) h24) (0, 0)).
  cbn -[get4byte_at mem_read app be32 h24 big with_hdr with_wal ck].
  rewrite (get_app h24 c0 (be32 c1)) by done. cbn -[get4byte_at app be32 h24 big with_hdr with_wal ck].
  rewrite (get_app (h24 ++ be32 c0) c1 []) by (done || by rewrite app_nil_r, <- app_assoc). cbn -[get4byte_at app be32 h24 big with_hdr with_wal ck].
  set (x1 := with_hdr (set_aFrameCksum ck) _).
  assert (Hck : is_u32 ck.1 /\ is_u32 ck.2) by (apply format_sum_range; done).
  assert (Hblank : blank (the_wal x) (the_wal x1)).
  { apply (blank_hdr _ _ ck salt big); try done; try tauto; [|by destruct Hbig as [-> | ->]]. unfold the_wal in Hz. unfold x1. simpl. rewrite Hz. by destruct salt. }
  assert (Hother : forall P, header_of c P -> (c0, c1) = ck).
  { intros P HP. destruct (Huniq P HP) as (Em' & _ & _ & -> & E24). unfold ck0, ck. rewrite <- E24. fold h24.
    assert (Eb : p_big P = big) by (unfold big; rewrite Em'; destruct HP as [(_ & [-> | ->] & _) _]; done). unfold native. by rewrite Eb. }
  destruct ((ck.1 <>? c0) || (ck.2 <>? c1)) eqn:Eck.
  { exists x1, SQLITE_OK, false. split_and!; try done. intros _ P HP. apply Hother in HP. rewrite <- HP in Eck. simpl in Eck.
    by rewrite !Z.eqb_refl in Eck. }
  apply orb_false_iff in Eck as [Ek1%negb_false_iff%Z.eqb_eq Ek2%negb_false_iff%Z.eqb_eq].
  rewrite (get_app (be32 m) v (be32 s ++ be32 k ++ salt_image salt ++ be32 c0 ++ be32 c1)) by (done || unfold h24; by rewrite <- !app_assoc).
  cbn -[app be32 h24 big ck x1]. destruct (Z.eqb_spec v WAL_MAX_VERSION) as [Ev|Ev]; cbn [negb].
  2:{ exists x1, SQLITE_CANTOPEN, false. split_and!; try done. intros _ P HP. by destruct (Huniq P HP) as (_ & ? & _). }
  exists x1, SQLITE_OK, true. split_and!; try done. intros _. split; [done|].
  assert (E24 : hdr24 (Params big s k salt) = h24) by (unfold hdr24, h24; cbn [p_big p_size p_ckpt p_salt]; by rewrite <- Em, Ev).
  assert (Ec : ck0 (Params big s k salt) = ck) by (unfold ck0; by rewrite E24).
  exists (Params big s k salt). split_and!.
  - split; [by split_and!|]. rewrite Hr. unfold wal_hdr. by rewrite E24, Ec, Ek1, Ek2.
  - unfold x1. destruct salt. done.
  - rewrite Ec. done.
Qed.

(** ** The private page *)

Lemma private_add e priv pg s share plog :
  inv s share plog -> env_ok e s share -> pages s !! priv = None -> (forall w b, env_page e w b <> priv) ->
  inv (set_page priv pg s) share plog /\ env_ok e (set_page priv pg s) share.
Proof.
  intros [HI HC] [E1 E2 E3 E4] Hn Hp. assert (Hsub : pages s ⊆ <[priv := pg]> (pages s)) by by apply insert_subseteq.
  split.
  - split; [|done]. apply (index_ok_extend (pages s) _ share); [done|done|done|by left|apply HI].
  - split; simpl; [done| |done|].
    + intros Hh b Hb Hb0. rewrite lookup_insert_ne by (pose proof (Hp (wal s) b) as H; unfold env_page in H; rewrite Hh in H; naive_solver).
      by apply E2.
    + intros Hh b p Hb Ep Hp0. destruct (E4 Hh b p Hb Ep Hp0) as [(pg' & Epg & Hsz) ?]. split; [|done]. exists pg'. split; [|done].
      by eapply lookup_weaken.
Qed.

Lemma private_drop e priv s share plog :
  inv s share plog -> env_ok e s share -> (forall b, share !! b <> Some priv) -> (forall w b, env_page e w b <> priv) ->
  inv (Sys (wal s) (delete priv (pages s))) share plog /\ env_ok e (Sys (wal s) (delete priv (pages s))) share.
Proof.
  intros [[I1 I2 I3 I4 I5] HC] [E1 E2 E3 E4] Hn Hp.
  assert (Hd : forall b q, share !! b = Some q -> delete priv (pages s) !! q = pages s !! q).
  { intros b q Hb. apply lookup_delete_ne. intros <-. by destruct (Hn b). }
  split.
  - split; [|done]. split; simpl; [done|done| | |done].
    + intros b q Hb. rewrite (Hd b q Hb). by eapply I3.
    + intros b Hb Hz. destruct (I4 b Hb Hz) as (q & pg & Hq & Epg & ?). exists q, pg. by rewrite (Hd b q Hq).
  - split; simpl; [done| |done|].
    + intros Hh b Hb Hb0. apply lookup_delete_None. right. by apply E2.
    + intros Hh b p Hb Ep Hp0. rewrite lookup_delete_ne; [by apply E4|].
      pose proof (Hp (wal s) b) as H. unfold env_page in H. rewrite (proj2 (Z.eqb_neq _ _) Hh) in H. congruence.
Qed.

(** The contract of the allocator for the private page. *)
Definition malloc_ok (e : recover_env) (s : St) : Prop :=
  forall a pg, rv_malloc e = Some (a, pg) ->
    a <> NULL /\ pages s !! a = None /\ page_size pg /\ forall w b, env_page (rv_pages e) w b <> a.

(** ** The log *)

(** Only so many frames fit in a file. *)
Lemma frames_fit c P log :
  header_of c P -> valid_log c P log -> len log <= (len c - WAL_HDRSIZE) / (p_size P + WAL_FRAME_HDRSIZE).
Proof.
  intros [(HP1 & _) _] HL. destruct (size_checks _ HP1) as (_ & _ & Hsz & _). apply Z.div_le_lower_bound; [unfold WAL_FRAME_HDRSIZE; lia|].
  destruct log as [|f log _] using rev_ind; [unfold valid_log in HL; pose proof (lf_hdr _ _ _ _ HL) as Hr; apply mem_read_Some in Hr; simpl; lia|].
  apply valid_snoc in HL as (_ & _ & Hr). apply mem_read_Some in Hr as (_ & _ & Hr & _). rewrite length_app. simpl.
  unfold log_end, walFrameOffset in Hr. unfold WAL_HDRSIZE, WAL_FRAME_HDRSIZE in *. nia.
Qed.

Lemma header_valid c P : header_of c P -> valid_log c P [].
Proof.
  intros [(HP1 & _) Hr]. destruct (size_checks _ HP1) as (_ & _ & Hsz & Hm). split; [done|done|done|]. split; [lia|done].
Qed.

(** What is known of the handle when the frames have been read: there is a valid header and
    the frames of the longest log have been read, or there is no frame. *)
Definition found (c : bytes) (w : Wal) (log : list frame) (ck : Z * Z) : Prop :=
  (exists P, header_of c P /\ longest c P log /\ handle_params w = P /\ recovered P log ck (hdr w)) \/
  (log = [] /\ ck = (0, 0) /\ (forall P, header_of c P -> longest c P []) /\
   hdr_ok (hdr w) /\ mxFrame (hdr w) = 0 /\ nPage (hdr w) = 0).

Lemma found_none c w : (forall P, ~ header_of c P) -> hdr_ok (hdr w) -> mxFrame (hdr w) = 0 -> nPage (hdr w) = 0 -> found c w [] (0, 0).
Proof. intros Hn H1 H2 H3. right. split_and!; try done. intros P HP. by destruct (Hn P). Qed.

Lemma recover_log_spec e x share :
  inv (st x) share [] -> env_ok (rv_pages e) (st x) share -> writeLock (the_wal x) <> 0 -> file_ok (fd x) ->
  hdr (the_wal x) = zero_hdr -> len (content (fd x)) < 2 ^ 40 -> malloc_ok e (st x) ->
  exists x' rc ck err share' log, recover_log e (len (content (fd x))) x = Some (x', rc, ck, err) /\
    content (fd x') = content (fd x) /\ file_ok (fd x') /\
    (err = true -> rc <> SQLITE_OK) /\ inv (st x') share' (f_pgno <$> log) /\ env_ok (rv_pages e) (st x') share' /\
    writeLock (the_wal x') <> 0 /\
    (err = false -> rc = SQLITE_OK -> found (content (fd x)) (the_wal x') log ck).
Proof.
  intros HI HE Hw Hf Hz Hmax Hmal. unfold recover_log.
  destruct (sqlite3OsRead WAL_HDRSIZE 0 (fd x)) as [[f1 rc1] b] eqn:E1.
  apply os_read_spec in E1 as (Hf1 & Ec1 & Hbl & Hbb & Hread); [|done|done|done].
  destruct (Z.eqb_spec rc1 SQLITE_OK) as [Hrc1|Hrc1]; cbn [negb].
  2:{ exists (with_fd f1 x), rc1, (0, 0), true, share, []. split_and!; try done. }
  specialize (Hread Hrc1).
  destruct (recover_header_spec (content (fd x)) b (with_fd f1 x) Hread Hbb Hz) as (x2 & rc2 & ok & -> & Ef2 & Ep2 & Hbk & Hok & Hno).
  destruct Hbk as (B1 & B2 & B3 & B4 & B5 & B6). change (pages (st (with_fd f1 x))) with (pages (st x)) in Ep2. change (fd (with_fd f1 x)) with f1 in Ef2.
  assert (Es2 : st x2 = Sys (the_wal x2) (pages (st x))) by (rewrite <- Ep2; unfold the_wal; by destruct (st x2)).
  assert (HI2 : inv (st x2) share []) by (rewrite Es2; by apply inv_wal).
  assert (HE2 : env_ok (rv_pages e) (st x2) share) by (rewrite Es2; by apply env_wal).
  assert (Hw2 : writeLock (the_wal x2) <> 0) by by rewrite B3.
  cbn -[recover_pages with_fd]. destruct ok; cbn [negb].
  2:{ exists x2, rc2, (0, 0), false, share, []. rewrite Ef2. split_and!; try done. intros _ _. apply found_none; auto. }
  destruct (Hok eq_refl) as (-> & P & HP & HPw & Hck). destruct (rv_malloc e) as [[a pg]|] eqn:Emal.
  2:{ exists x2, SQLITE_NOMEM, (0, 0), true, share, []. rewrite Ef2. split_and!; try done. }
  destruct (Hmal a pg Emal) as (Ha0 & Han & Hpg & Hap).
  destruct (private_add (rv_pages e) a pg (st x2) share [] HI2 HE2) as [HI3 HE3]; [by rewrite Ep2|done|].
  assert (Hsz : szPage (the_wal x2) = p_size P) by by rewrite <- HPw.
  pose proof HP as [(HP1 & _) _]. destruct (size_checks _ HP1) as (_ & _ & Hsz1 & _).
  pose proof (header_valid _ _ HP) as HV0.
  set (c := content (fd x)) in *. set (n := (len c - WAL_HDRSIZE) / (p_size P + WAL_FRAME_HDRSIZE)).
  assert (Hc32 : WAL_HDRSIZE <= len c) by (apply mem_read_Some in Hread; lia).
  assert (Hn : 0 <= n < 2 ^ 31 - 1).
  { unfold n, WAL_HDRSIZE, WAL_FRAME_HDRSIZE in *. split; [apply Z.div_pos; lia|]. apply Z.div_lt_upper_bound; lia. }
  rewrite Hsz. fold n. rewrite u32_small by lia. set (x3 := WS (set_page a pg (st x2)) (fd x2)).
  assert (HS3 : scanned (rv_pages e) x3 share P [] (0, 0)).
  { split; try done; unfold x3; simpl; rewrite ?Ef2, ?Ec1; done. }
  destruct (recover_pages_spec (rv_pages e) a Ha0 Hap (Z.to_nat (walFramePage n + 1)) x3 share P [] (0, 0) 0 SQLITE_OK n)
    as (x4 & rc4 & ck4 & share4 & log4 & E4 & HS4 & Hpr4 & Hc4 & Hl4); [done|done| |lia|lia| |lia| |].
  { split; [exists pg; unfold x3; simpl; by rewrite lookup_insert_eq|]. intros d Hd.
    destruct (ix_size _ _ _ (inv_index _ _ _ HI) d a Hd) as (pg' & ? & _). congruence. }
  { layout; simpl; lia. }
  { assert (0 <= walFramePage n) by (destruct (decide (n = 0)) as [->|]; [done|]; apply walFramePage_bounds; lia). lia. }
  rewrite E4. cbn. destruct HS4 as [S1 S2 S3 S4 S5 S6 S7].
  destruct (private_drop (rv_pages e) a (st x4) share4 _ S1 S2) as [HI5 HE5]; [apply Hpr4|done|].
  assert (Ec4 : content (fd x4) = c) by (rewrite Hc4; unfold x3; simpl; by rewrite Ef2).
  eexists _, rc4, ck4, false, share4, log4. split; [done|]. cbn [fd]. split_and!; try done.
  intros _ Hrc. left. exists P. rewrite Ec4 in S5. split_and!; try done. specialize (Hl4 Hrc). unfold x3 in Hl4; cbn [fd] in Hl4.
  rewrite Ef2 in Hl4. cbn in Hl4. rewrite Ec1 in Hl4. destruct Hl4 as [Hl4|Hl4]; [done|]. split; [done|].
  intros f Hf'. apply (frames_fit _ _ _ HP) in Hf'. rewrite length_app in Hf'. simpl in Hf'. fold n in Hf'. lia.
Qed.

(** ** The headers and the marks *)

(** What a reader's mark is set to. *)
Definition fresh_mark (i mx : Z) : Z := if (i =? 1) && (mx <>? 0) then mx else READMARK_NOT_USED.

(** The state while the marks [1] .. [i - 1] have been set where their locks were free. *)
Record marking (e : recover_env) (w : Wal) (share : gmap Z Z) (plog : list Z) (i : Z) (s : St) : Prop := {
  mk_inv : inv s share plog;
  mk_env : env_ok (rv_pages e) s share;
  mk_live : live (pages s) share (hdr w);
  mk_wal : wal s = w;
  mk_info : exists l, head_words (pages s) share = Some l /\ l !! 24%nat = Some 0 /\ l !! 25%nat = Some 0 /\
    l !! 32%nat = Some (mxFrame (hdr w)) /\
    forall j, 1 <= j < i -> walLockExclusive (rv_mark e j) s = SQLITE_OK ->
      l !! Z.to_nat (ckpt_aReadMark j) = Some (fresh_mark j (mxFrame (hdr w)))
}.

Lemma lock_same a s s' : wal s' = wal s -> walLockExclusive a s' = walLockExclusive a s.
Proof. intros E. unfold walLockExclusive. by rewrite E. Qed.

Lemma head_words_length s share plog l : inv s share plog -> head_words (pages s) share = Some l -> length l = 34%nat.
Proof.
  intros HI El. destruct (page0_spec _ _ _ HI) as (p & pg & _ & Hsh & Epg & [Hs _] & _). unfold head_words in El.
  rewrite Hsh in El. cbn -[WALINDEX_HDR_SIZE] in El. rewrite Epg in El. injection El as <-. rewrite length_take. pose proof layout_eqs.
  change (Z.to_nat (WALINDEX_HDR_SIZE / 4)) with 34%nat. lia.
Qed.

Lemma recover_marks_spec n : forall e w share plog i rc s,
  marking e w share plog i s -> 1 <= i -> i + Z.of_nat n <= WAL_NREADER ->
  exists s' rc', recover_marks n e i rc s = Some (s', rc') /\ marking e w share plog (if rc' =? SQLITE_OK then i + Z.of_nat n else 1) s'.
Proof.
  assert (Hweak : forall e w share plog i j s, marking e w share plog i s -> j <= i -> marking e w share plog j s).
  { intros e w share plog i j s [H1 H2 H3 H4 (l & H5 & H6 & H7 & H8 & H9)] Hj. split; try done. exists l. split_and!; [done..|].
    intros k Hk. apply H9. lia. }
  induction n as [|n IH]; intros e w share plog i rc s HM Hi Hn; cbn [recover_marks].
  { exists s, rc. split; [done|]. apply (Hweak _ _ _ _ i); [done|]. case_cond; lia. }
  destruct (Z.eqb_spec (walLockExclusive (rv_mark e i) s) SQLITE_OK) as [Hl|Hl].
  - pose proof HM as [H1 H2 H3 H4 (l & H5 & H6 & H7 & H8 & H9)]. unfold WAL_NREADER in Hn. rewrite H4. fold (fresh_mark i (mxFrame (hdr w))).
    destruct (ckpt_put_spec (rv_pages e) (ckpt_aReadMark i) (fresh_mark i (mxFrame (hdr w))) s share plog (hdr w) l H1 H2 H3 H5)
      as (s1 & -> & Hw1 & HI1 & HE1 & HL1 & El1); [unfold ckpt_aReadMark; lia|]. cbn -[recover_marks].
    pose proof (head_words_length _ _ _ _ H1 H5) as Hlen. unfold ckpt_aReadMark in *.
    destruct (IH e w share plog (i + 1) (walLockExclusive (rv_mark e i) s) s1) as (s' & rc' & E' & HM'); [|lia|unfold WAL_NREADER; lia|].
    { split; try done; [congruence|]. eexists. split; [done|]. rewrite !list_lookup_insert_ne by lia. split_and!; [done..|].
      intros j Hj Hlj. rewrite (lock_same _ s) in Hlj by done. destruct (decide (j = i)) as [->|].
      + unfold ckpt_aReadMark. by rewrite list_lookup_insert_eq by lia.
      + unfold ckpt_aReadMark. rewrite list_lookup_insert_ne by lia. apply H9; [lia|done]. }
    exists s', rc'. split; [done|]. by replace (i + Z.of_nat (S n)) with (i + 1 + Z.of_nat n) by lia.
  - destruct (Z.eqb_spec (walLockExclusive (rv_mark e i) s) SQLITE_BUSY) as [Hb|Hb]; cbn [negb].
    + destruct (IH e w share plog (i + 1) (walLockExclusive (rv_mark e i) s) s) as (s' & rc' & E' & HM'); [|lia|lia|].
      { pose proof HM as [H1 H2 H3 H4 (l & H5 & H6 & H7 & H8 & H9)]. split; try done. exists l. split_and!; [done..|].
        intros j Hj Hlj. apply H9; [|done]. assert (j <> i) by (intros ->; done). lia. }
      exists s', rc'. split; [done|]. by replace (i + Z.of_nat (S n)) with (i + 1 + Z.of_nat n) by lia.
    + eexists s, _. split; [done|]. rewrite (proj2 (Z.eqb_neq _ _)) by done. by apply (Hweak _ _ _ _ i).
Qed.

Lemma recover_finish_spec e ck s share plog :
  inv s share plog -> env_ok (rv_pages e) s share -> writeLock (wal s) <> 0 -> hdr_ok (hdr (wal s)) -> is_u32 ck.1 -> is_u32 ck.2 ->
  exists s' rc c, recover_finish e ck SQLITE_OK s = Some (s', rc) /\
    marking e (set_hdr (set_live c (set_aFrameCksum ck (hdr (wal s)))) (wal s)) share plog (if rc =? SQLITE_OK then WAL_NREADER else 1) s'.
Proof.
  intros HI HE Hw Hh Hc1 Hc2. unfold recover_finish. cbn [negb]. change (SQLITE_OK =? SQLITE_OK) with true. cbn [negb].
  set (s1 := on_hdr (set_aFrameCksum ck) s). assert (Hh1 : hdr_ok (hdr (wal s1))) by by apply hdr_ok_cksum.
  destruct (walIndexWriteHdr_spec (rv_pages e) s1 share plog) as (c & s2 & -> & Ew2 & [HI2 HE2 _] & HL2 & _);
    [by apply inv_wal|by apply env_wal|done|done|]. cbn -[walCkptInfo_put recover_marks].
  destruct HL2 as (l2 & El2 & HL2). pose proof (head_words_length _ _ _ _ HI2 El2) as Hlen.
  assert (HL2' : live (pages s2) share (hdr (wal s2))) by by exists l2.
  destruct (ckpt_put_spec (rv_pages e) ckpt_nBackfill 0 s2 share plog _ l2 HI2 HE2 HL2' El2) as (s3 & -> & Hw3 & HI3 & HE3 & HL3 & El3); [done|].
  cbn -[walCkptInfo_put recover_marks].
  destruct (ckpt_put_spec (rv_pages e) ckpt_nBackfillAttempted (mxFrame (hdr (wal s3))) s3 share plog _ _ HI3 HE3 HL3 El3)
    as (s4 & -> & Hw4 & HI4 & HE4 & HL4 & El4); [done|]. cbn -[walCkptInfo_put recover_marks].
  destruct (ckpt_put_spec (rv_pages e) (ckpt_aReadMark 0) 0 s4 share plog _ _ HI4 HE4 HL4 El4) as (s5 & -> & Hw5 & HI5 & HE5 & HL5 & El5); [done|].
  cbn -[walCkptInfo_put recover_marks].
  destruct (recover_marks_spec (Z.to_nat (WAL_NREADER - 1)) e (wal s2) share plog 1 SQLITE_OK s5) as (s' & rc & -> & HM); [|done|done|].
  { split; [done|done|done|congruence|]. eexists. split; [done|]. unfold ckpt_nBackfill, ckpt_nBackfillAttempted, ckpt_aReadMark.
    split_and!.
    - rewrite !list_lookup_insert_ne by lia. by apply list_lookup_insert_eq; lia.
    - apply list_lookup_insert_eq. rewrite !length_insert. lia.
    - rewrite list_lookup_insert_ne by lia. rewrite Hw3. apply list_lookup_insert_eq. rewrite length_insert. lia.
    - intros j Hj. lia. }
  exists s', rc, c. split; [done|]. by rewrite Ew2 in HM.
Qed.

(** ** Recovery *)

(** The states in which a connection may recover the index: the pages of the index that it
    maps are memory, whatever they hold. *)
Record can_recover (e : recover_env) (x : WSt) (share : gmap Z Z) : Prop := {
  cr_inv : inv (st x) share [];
  cr_env : env_ok (rv_pages e) (st x) share;
  cr_lock : writeLock (the_wal x) <> 0;
  cr_ckpt : ckptLock (the_wal x) = 1 \/ ckptLock (the_wal x) = 0;
  cr_file : file_ok (fd x);
  cr_size : len (content (fd x)) < 2 ^ 40;
  cr_malloc : malloc_ok e (st x)
}.

(** The state after a recovery that has read the frames [log]. *)
Record recovery (e : recover_env) (c : bytes) (x : WSt) (share : gmap Z Z) (log : list frame) : Prop := {
  re_inv : inv (st x) share (f_pgno <$> log);
  re_env : env_ok (rv_pages e) (st x) share;
  re_lock : writeLock (the_wal x) <> 0;
  re_file : file_ok (fd x) /\ content (fd x) = c;
  re_live : live (pages (st x)) share (hdr (the_wal x)) /\ walIndexHdr (st x) = Some (hdr (the_wal x));
  re_mx : mxFrame (hdr (the_wal x)) = Z.of_nat (last_commit log);
  re_log : forall P, header_of c P -> longest c P log;
  re_none : last_commit log = 0%nat -> nPage (hdr (the_wal x)) = 0;
  re_some : forall i, last_commit log = S i -> exists P f, header_of c P /\ handle_params (the_wal x) = P /\
    describes (hdr (the_wal x)) P (take (S i) log) /\ hdr_szPage (hdr (the_wal x)) = size_code (p_size P) /\
    log !! i = Some f /\ nPage (hdr (the_wal x)) = f_size f;
  re_backfill : walCkptInfo_get ckpt_nBackfill (st x) = Some 0 /\
    walCkptInfo_get ckpt_nBackfillAttempted (st x) = Some (mxFrame (hdr (the_wal x))) /\
    walCkptInfo_get (ckpt_aReadMark 0) (st x) = Some 0;
  re_marks : forall j, 1 <= j < WAL_NREADER -> walLockExclusive (rv_mark e j) (st x) = SQLITE_OK ->
    walCkptInfo_get (ckpt_aReadMark j) (st x) = Some (fresh_mark j (mxFrame (hdr (the_wal x))))
}.

Lemma u32s_le32 v r : is_u32 v -> u32s (le32 v ++ r) = v :: u32s r.
Proof.
  intros Hv. unfold le32. cbn [app u32s]. f_equal. unfold u8, is_u32 in *. rewrite !Z.shiftl_mul_pow2, !Z.shiftr_div_pow2 by lia.
  Z.div_mod_to_equations; lia.
Qed.

Lemma salt_image_u32s s : is_u32 s.1 -> is_u32 s.2 -> u32s (salt_image s) = [s.1; s.2].
Proof. intros H1 H2. unfold salt_image. rewrite u32s_le32, <- (app_nil_r (le32 s.2)), u32s_le32 by done. done. Qed.

Lemma header_inj c P Q : header_of c P -> header_of c Q -> P = Q.
Proof.
  intros HP HQ. pose proof HP as [(HP1 & HP2 & HP3 & HP4 & HP5) HrP]. pose proof HQ as [(HQ1 & HQ2 & HQ3 & HQ4 & HQ5) HrQ].
  rewrite HrP in HrQ. apply (inj Some) in HrQ as E. unfold wal_hdr in E. apply app_inj_1 in E as [E _]; [|done]. unfold hdr24 in E.
  destruct (size_checks _ HP1) as (_ & _ & HsP & _). destruct (size_checks _ HQ1) as (_ & _ & HsQ & _).
  apply app_inj_1 in E as [Em E]; [|done]. apply app_inj_1 in E as [_ E]; [|done]. apply app_inj_1 in E as [Es E]; [|done].
  apply app_inj_1 in E as [Ek E]; [|done].
  apply be32_inj in Em; [|by destruct HP2 as [-> | ->]|by destruct HQ2 as [-> | ->]]. apply be32_inj in Es; [|unfold is_u32; lia..].
  apply be32_inj in Ek; [|done..].
  assert (Hu : u32s (salt_image (p_salt P)) = u32s (salt_image (p_salt Q))) by by rewrite E.
  destruct P as [b s k [s1 s2]], Q as [b' s' k' [s1' s2']]; cbn [p_big p_size p_ckpt p_salt fst snd] in *.
  rewrite !salt_image_u32s in Hu by done. injection Hu as -> ->. subst. f_equal.
  by destruct HP2 as [-> | ->], HQ2 as [-> | ->].
Qed.

(** The checksum that is saved has the width of its fields. *)
Lemma recovered_ck P log ck h : recovered P log ck h -> is_u32 ck.1 /\ is_u32 ck.2.
Proof.
  intros [_ _ H3 H4]. destruct (last_commit log) as [|i] eqn:E; [by destruct (H3 eq_refl) as [-> _]|].
  destruct (H4 i eq_refl) as (-> & _). destruct (ck0_range P). by apply chain_range.
Qed.

Lemma found_facts c w log ck : found c w log ck ->
  hdr_ok (hdr w) /\ is_u32 ck.1 /\ is_u32 ck.2 /\ mxFrame (hdr w) = Z.of_nat (last_commit log) /\
  (forall P, header_of c P -> longest c P log) /\ (last_commit log = 0%nat -> nPage (hdr w) = 0) /\
  (forall i, last_commit log = S i -> exists P f, header_of c P /\ handle_params w = P /\
     ck = chain (native P) (ck0 P) (take (S i) log) /\ hdr_szPage (hdr w) = size_code (p_size P) /\
     log !! i = Some f /\ nPage (hdr w) = f_size f).
Proof.
  intros [(P & HP & HL & HPw & HR)|(-> & -> & Hn & Ho & Hm & Hg)]; [|by split_and!].
  destruct (recovered_ck _ _ _ _ HR). destruct HR as [H1 H2 H3 H4]. split_and!; try done.
  - intros Q HQ. by rewrite (header_inj _ _ _ HQ HP).
  - intros E. by destruct (H3 E).
  - intros i E. destruct (H4 i E) as (? & ? & f & ? & ?). by exists P, f.
Qed.

(** Up to the label [finished]: a file without room for a frame is not read. *)
Lemma scan_stage e x share :
  inv (st x) share [] -> env_ok (rv_pages e) (st x) share -> writeLock (the_wal x) <> 0 -> file_ok (fd x) ->
  hdr (the_wal x) = zero_hdr -> len (content (fd x)) < 2 ^ 40 -> malloc_ok e (st x) ->
  exists x' rc ck err share' log,
    (if WAL_HDRSIZE <? len (content (fd x)) then recover_log e (len (content (fd x))) x else Some (x, SQLITE_OK, (0, 0), false)) =
      Some (x', rc, ck, err) /\ content (fd x') = content (fd x) /\ file_ok (fd x') /\ (err = true -> rc <> SQLITE_OK) /\
    inv (st x') share' (f_pgno <$> log) /\ env_ok (rv_pages e) (st x') share' /\ writeLock (the_wal x') <> 0 /\
    (err = false -> rc = SQLITE_OK -> found (content (fd x)) (the_wal x') log ck).
Proof.
  intros HI HE Hw Hf Hz Hsz Hmal. destruct (Z.ltb_spec WAL_HDRSIZE (len (content (fd x)))) as [Hlt|Hge].
  - by apply (recover_log_spec e x share).
  - exists x, SQLITE_OK, (0, 0), false, share, []. split_and!; try done. intros _ _. right.
    split_and!; rewrite ?Hz; try done; [|apply zero_hdr_ok].
    intros P HP. split; [by apply header_valid|]. intros f Hv. apply (frames_fit _ _ _ HP) in Hv. simpl in Hv.
    pose proof HP as [(HP1 & _) _]. destruct (size_checks _ HP1) as (_ & _ & Hs & _).
    assert ((len (content (fd x)) - WAL_HDRSIZE) / (p_size P + WAL_FRAME_HDRSIZE) <= 0); [|lia].
    apply Z.div_le_upper_bound; unfold WAL_FRAME_HDRSIZE; lia.
Qed.

Lemma recover_spec e x share :
  can_recover e x share -> exists x' rc, walIndexRecover e x = Some (x', rc) /\ content (fd x') = content (fd x) /\
    (rc = SQLITE_OK -> exists share' log, recovery e (content (fd x)) x' share' log).
Proof.
  intros [HI HE Hw Hck Hf Hsz Hmal]. unfold walIndexRecover.
  assert (Hg : negb ((ckptLock (the_wal x) =? 1) || (ckptLock (the_wal x) =? 0)) || (writeLock (the_wal x) =? 0) = false).
  { rewrite (proj2 (Z.eqb_neq _ _) Hw). by destruct Hck as [-> | ->]. }
  rewrite Hg. case_cond; [exists x, (walLockExclusive (rv_lock e) (st x)); split_and!; [done..|naive_solver]|].
  set (x1 := with_hdr (fun _ => zero_hdr) x). unfold sqlite3OsFileSize. change (fd x1) with (fd x).
  destruct (next_answer (fd x)) as [a f1] eqn:E1. destruct (next_answer_ok _ _ _ Hf E1) as (Hf1 & _ & Ec1).
  destruct (Z.eqb_spec (an_rc a) SQLITE_OK) as [Ha|Ha]; cbn [negb].
  2:{ exists (with_fd f1 x1), (an_rc a). by split_and!. }
  set (x2 := with_fd f1 x1). assert (HI2 : inv (st x2) share []) by by apply (inv_wal (st x)).
  assert (HE2 : env_ok (rv_pages e) (st x2) share) by by apply (env_wal _ (st x)). rewrite Ec1, Ha.
  destruct (scan_stage e x2 share HI2 HE2 Hw Hf1 eq_refl) as (x3 & rc3 & ck & err & share3 & log & Hlog); [by unfold x2; simpl; rewrite Ec1|done|].
  change (content (fd x2)) with (content f1) in Hlog. rewrite Ec1 in Hlog.
  destruct Hlog as (-> & Ec3 & Hf3 & Herr & HI3 & HE3 & Hw3 & Hfound). cbn -[recover_finish].
  destruct err; [exists x3, rc3; split_and!; [done..|]; intros; by destruct Herr|].
  destruct (Z.eqb_spec rc3 SQLITE_OK) as [->|Hrc3].
  2:{ unfold recover_finish. rewrite (proj2 (Z.eqb_neq _ _) Hrc3). cbn. eexists _, rc3. by split_and!. }
  destruct (found_facts _ _ _ _ (Hfound eq_refl eq_refl)) as (F1 & F2 & F3 & F4 & F5 & F6 & F7).
  destruct (recover_finish_spec e ck (st x3) share3 _ HI3 HE3 Hw3 F1 F2 F3) as (s' & rc & c & -> & HM). cbn.
  exists (WS s' (fd x3)), rc. split_and!; [done..|]. intros ->. change (SQLITE_OK =? SQLITE_OK) with true in HM. cbv iota in HM.
  exists share3, log. destruct HM as [M1 M2 M3 M4 (l & El & L1 & L2 & L3 & L4)].
  pose proof (fun i H => ckpt_get_spec i s' share3 _ l M1 El H) as Hget.
  split; unfold the_wal; cbn [st]; rewrite ?M4; try done.
  - split; [done|]. by eapply walIndexHdr_spec.
  - intros i E. destruct (F7 i E) as (P & f & G1 & G2 & G3 & G4 & G5 & G6). exists P, f. split_and!; try done.
    split_and!; simpl; [done|by rewrite <- G2..].
  - rewrite !Hget by done. by split_and!.
  - intros j Hj Hlk. unfold WAL_NREADER in Hj. rewrite Hget by (unfold ckpt_aReadMark; lia). apply L4; [done|]. done.
Qed.

(** The committed part of a log. *)
Definition committed_part (log : list frame) : list frame := take (last_commit log) log.

Lemma last_commit_mono l r : (last_commit l <= last_commit (l ++ r))%nat.
Proof.
  induction r as [|f r IH] using rev_ind; [by rewrite app_nil_r|]. rewrite app_assoc, last_commit_snoc.
  case_cond; [done|]. pose proof (last_commit_le l). rewrite length_app. lia.
Qed.

(** A valid log is a prefix of the longest one. *)
Lemma longest_prefix c P l log : longest c P log -> valid_log c P l -> l `prefix_of` log.
Proof.
  intros [HL Hmax] Hl. destruct (decide (length l <= length log)%nat) as [Hle|Hgt].
  - rewrite (valid_unique c P l log Hl HL Hle). apply prefix_take.
  - pose proof (valid_unique c P log l HL Hl ltac:(lia)) as E. destruct (lookup_lt_is_Some_2 l (length log)) as [f Hf]; [lia|].
    destruct (Hmax f). replace (log ++ [f]) with (take (S (length log)) l); [|by rewrite (take_S_r _ _ f), <- E].
    unfold valid_log in *. rewrite length_take, Nat.min_l by lia. apply (log_file_prefix _ _ l (length l)); [done|lia|lia].
Qed.

Lemma committed_part_prefix l log : l `prefix_of` log -> committed_part l `prefix_of` committed_part log.
Proof.
  intros [r ->]. unfold committed_part. pose proof (last_commit_mono l r). pose proof (last_commit_le l).
  rewrite <- (take_app_le l r) by lia. replace (last_commit l) with (last_commit l `min` last_commit (l ++ r))%nat by lia. rewrite <- take_take. apply prefix_take.
Qed.

Lemma valid_committed c P log : header_of c P -> valid_log c P log -> committed c P log.
Proof.
  intros HP HL. split; [done|]. pose proof (frames_fit _ _ _ HP HL) as Hfit. destruct HP as [(HP1 & _) _].
  destruct (size_checks _ HP1) as (_ & _ & Hsz & _). unfold log_end, walFrameOffset.
  pose proof (lf_hdr _ _ _ _ HL) as Hr. apply mem_read_Some in Hr as (_ & _ & Hr & _). unfold WAL_FRAME_HDRSIZE, WAL_HDRSIZE in *.
  pose proof (Z.mul_div_le (len c - 32) (p_size P + 24) ltac:(lia)). nia.
Qed.

(** A reader that begins on the recovered snapshot. *)
Definition reader_of (x x2 : WSt) : Prop :=
  pages (st x2) = pages (st x) /\ fd x2 = fd x /\
  exists k, 0 < k /\ the_wal x2 = set_iReCksum 0 (set_minFrame 1 (set_readLock k (the_wal x))).

(** The connection can go on from the recovered log. *)
Lemma recovery_writer e ef c x share log x2 :
  recovery e c x share log -> fe_pages ef = rv_pages e -> reader_of x x2 ->
  writer ef x2 share (f_pgno <$> log) (hdr (the_wal x)) (committed_part log).
Proof.
  intros [R1 R2 R3 [R4 R4'] R5 R6 R7 R8 R9 _ _] Hef (Hp & Hf & k & Hk & Hw).
  assert (Es : st x2 = Sys (the_wal x2) (pages (st x))) by (rewrite <- Hp; unfold the_wal; by destruct (st x2)).
  pose proof (last_commit_le log) as Hle. assert (Hh : hdr (the_wal x2) = hdr (the_wal x)) by by rewrite Hw.
  assert (Hlc : length (committed_part log) = last_commit log) by (unfold committed_part; rewrite length_take; lia).
  assert (Hlen : len (committed_part log) = mxFrame (hdr (the_wal x))) by lia.
  assert (Hd : committed_part log <> [] -> exists P, header_of c P /\ handle_params (the_wal x2) = P /\
    describes (hdr (the_wal x)) P (committed_part log)).
  { intros Hne. destruct (last_commit log) as [|i] eqn:E; [by destruct (committed_part log)|].
    destruct (R9 i eq_refl) as (P & f & HP & HPw & Hdes & _). exists P. split_and!; [done| |unfold committed_part; by rewrite E].
    rewrite <- HPw, Hw. done. }
  destruct R5 as [HL _]. split; rewrite ?Hh; try done.
  - split; [|by rewrite Hef, Es; apply env_wal; rewrite ?Hw|by rewrite Hf|].
    + rewrite Es. split; simpl; rewrite ?Hh; [by apply inv_wal; rewrite ?Hw|done|by destruct HL as (? & _ & _ & _ & ?)|by rewrite Hw|rewrite length_fmap; lia|lia].
    + unfold cksum_ok. change (wal (st x2)) with (the_wal x2). rewrite Hh. destruct HL as (? & _ & _ & _ & [Ho _ _ _]). unfold hdr_words in Ho.
      rewrite !list.Forall_cons in Ho. tauto.
  - rewrite Hw. simpl. lia.
  - rewrite Hlc, <- fmap_take. done.
  - intros Hne. destruct (Hd Hne) as (P & HP & HPw & D1 & _). specialize (R7 P HP) as [HV _].
    assert (HC : committed c P (committed_part log)).
    { apply committed_prefix; [|lia]. by apply (valid_committed c P log HP). }
    split; rewrite ?HPw, ?Hh, ?Hf, ?R4'; [|rewrite Hw; simpl; lia|done|apply HC].
    unfold good_frames. rewrite Hw. simpl. apply HC.
  - by rewrite Hw.
  - by rewrite Hw.
  - intros Hm. assert (Hne : committed_part log <> []) by (intros E; rewrite E in Hlen; simpl in Hlen; lia).
    destruct (Hd Hne) as (P & HP & HPw & HD). rewrite HPw, <- Hlen, Nat2Z.id, firstn_all. done.
Qed.

Lemma recovered_read e c x share log P x2 y :
  recovery e c x share log -> params_ok P -> handle_params (the_wal x) = P -> hdr_szPage (hdr (the_wal x)) = size_code (p_size P) ->
  reader_of x x2 -> 0 < y ->
  exists s rc r, walFindFrame (rv_pages e) y (st x2) = Some (s, rc, r) /\ (rc = SQLITE_OK ->
    (y ∈ (f_pgno <$> committed_part log) -> r <> 0) /\
    (r <> 0 -> forall x3 d, sqlite3WalReadFrame r (p_size P) (WS s (fd x2)) = (x3, SQLITE_OK, d) ->
       page_data (committed_part log) y = Some d)).
Proof.
  intros HR HP HQw Hsz Hrd Hy. set (ef := FramesEnv (fun _ d => Some d) (rv_pages e) 0 (0, 0) 0 (fun _ => None) true 512).
  pose proof (recovery_writer e ef _ _ _ _ _ HR eq_refl Hrd) as HW. destruct Hrd as (Hp2 & Hf2 & k & Hk & Hw2).
  assert (Hs2 : szPage (the_wal x2) = p_size P) by (rewrite <- HQw, Hw2; done).
  destruct (find_read ef x2 share _ _ _ y HW Hy) as (s & rc2 & r & Ef & Hfind); [rewrite Hs2; apply HP|by rewrite Hs2, Hw2|].
  exists s, rc2, r. split; [done|]. intros Hrc2. destruct (Hfind Hrc2) as [F1 F2]. split.
  - intros (f' & Hfy & (i & Hi)%list_elem_of_lookup)%list_elem_of_fmap. apply (F1 i f'); [done..|]. rewrite Hw2. simpl. lia.
  - intros Hr x3 d Hread. rewrite Hs2 in F2. by destruct (F2 Hr x3 SQLITE_OK d Hread eq_refl).
Qed.


(** C11: A transaction that was committed to the log survives the loss of the index and of all
    connections: if the file holds the frames [clog] of committed transactions, then a
    connection that recovers the index finds them, followed by whatever was committed after
    them, and a reader that begins there gets, for each page, the content of the page's last
    committed frame. If nothing valid follows [clog] in the file, they are all that is
    recovered. *)
Theorem commits_survive e x share P clog g :
  can_recover e x share -> params_ok P -> committed (content (fd x)) P (clog ++ [g]) -> f_size g <> 0 ->
  exists x' rc, walIndexRecover e x = Some (x', rc) /\ (rc = SQLITE_OK -> exists rest,
    let log := clog ++ [g] ++ rest in
    mxFrame (hdr (the_wal x')) = len log /\
    ((forall f, ~ valid_log (content (fd x)) P ((clog ++ [g]) ++ [f])) -> rest = []) /\
    forall x2 y, reader_of x' x2 -> 0 < y -> exists s rc r, walFindFrame (rv_pages e) y (st x2) = Some (s, rc, r) /\ (rc = SQLITE_OK ->
      (y ∈ (f_pgno <$> log) -> r <> 0) /\
      (r <> 0 -> forall x3 d, sqlite3WalReadFrame r (p_size P) (WS s (fd x2)) = (x3, SQLITE_OK, d) -> page_data log y = Some d))).
Proof.
  intros HC HP [HV _] Hg. destruct (recover_spec e x share HC) as (x' & rc & E & Ec & HR). exists x', rc. split; [done|].
  intros Hrc. destruct (HR Hrc) as (share' & log & HR'). set (c := content (fd x)) in *.
  assert (HPc : header_of c P) by (split; [done|apply HV]). pose proof (re_log _ _ _ _ _ HR' P HPc) as Hlong.
  pose proof (longest_prefix _ _ _ _ Hlong HV) as Hpre. pose proof (last_commit_le log) as Hle.
  assert (Hcp : committed_part (clog ++ [g]) = clog ++ [g]).
  { unfold committed_part. rewrite last_commit_snoc, (proj2 (Z.eqb_neq _ _) Hg). rewrite take_ge; [done|]. rewrite length_app. simpl. lia. }
  destruct (committed_part_prefix _ _ Hpre) as [rest Erest]. rewrite Hcp in Erest. exists rest.
  assert (El : clog ++ [g] ++ rest = committed_part log) by by rewrite Erest, <- app_assoc. rewrite El. cbv zeta.
  assert (Hlc : length (committed_part log) = last_commit log) by (unfold committed_part; rewrite length_take; lia).
  assert (Hpos : last_commit log = S (pred (last_commit log))).
  { rewrite <- Hlc, <- El, length_app. simpl. lia. }
  destruct (re_some _ _ _ _ _ HR' _ Hpos) as (Q & f & HQ & HQw & _ & Hsz & _). rewrite (header_inj _ _ _ HQ HPc) in HQw, Hsz. clear Q HQ.
  split_and!.
  - rewrite (re_mx _ _ _ _ _ HR'). lia.
  - intros Hend. assert (Elog : log = clog ++ [g]).
    { destruct Hpre as [[|f' r] ->]; [by rewrite app_nil_r|]. destruct (Hend f'). destruct Hlong as [Hv _].
      unfold valid_log in *. apply (log_file_prefix _ _ _ _ (length ((clog ++ [g]) ++ [f']))) in Hv; [|rewrite !length_app; simpl; lia..].
      replace ((clog ++ [g]) ++ f' :: r) with (((clog ++ [g]) ++ [f']) ++ r) in Hv by by rewrite <- app_assoc.
      by rewrite take_app_length in Hv. }
    rewrite Elog, Hcp in Erest. apply (f_equal length) in Erest. rewrite (length_app (clog ++ [g])) in Erest. destruct rest; [done|simpl in Erest; lia].
  - intros x2 y Hrd Hy. by apply (recovered_read e c x' share' log P).
Qed.

(** ** The log of one transaction *)

(** The frames that [demo_commit] writes. *)
Definition demo_params : params := Params 0 512 0 (17, 19).
Definition demo_first : frame := Fr 1 0 (replicate 512 65).
Definition demo_last : frame := Fr 2 2 (replicate 512 66).

Definition demo_file : bytes :=
  match walFrames demo_frames_env 512 demo_dirty 2 1 3 demo_conn with Some (x, _) => content (fd x) | None => [] end.

Definition demo_recover_env : recover_env := RecoverEnv demo_page_env SQLITE_OK (Some (2, zero_page)) (fun _ => SQLITE_OK).

(** Another connection, whose index is empty. *)
Definition demo_crashed : WSt := WS (demo_st zero_hdr) (FileRec demo_file []).

Lemma demo_can_recover : can_recover demo_recover_env demo_crashed {[ 0 := 1 ]}.
Proof.
  split; [apply demo_inv|apply demo_env_ok|done|by right| |vm_compute; reflexivity|].
  - split; [|constructor]. apply (bool_decide_unpack (bytes_ok demo_file)). vm_compute. exact I.
  - intros a pg [= <- <-]. split_and!; [done|by vm_compute|apply zero_page_size|]. intros w b. unfold env_page. cbn. case_match; [done|].
    by destruct (b =? 0).
Qed.

Lemma demo_params_ok : params_ok demo_params.
Proof. split_and!; try done; [by left|by left]. Qed.

Lemma demo_committed : committed demo_file demo_params ([demo_first] ++ [demo_last]).
Proof.
  assert (HP : header_of demo_file demo_params) by (split; [apply demo_params_ok|vm_compute; reflexivity]).
  assert (Hp : forall v, is_byte v -> page_ok 512 (replicate 512 v)) by (intros v Hv; split; [done|by apply Forall_replicate|done]).
  apply (valid_committed _ _ _ HP). apply valid_snoc. split_and!; [|by split_and!; [..|by apply Hp]|vm_compute; reflexivity].
  apply (valid_snoc _ _ []). split_and!; [by apply header_valid|by split_and!; [..|by apply Hp]|vm_compute; reflexivity].
Qed.


Lemma commits_survive_witness :
  exists x' rc, walIndexRecover demo_recover_env demo_crashed = Some (x', rc) /\
    (rc = SQLITE_OK -> 2 <= mxFrame (hdr (the_wal x'))).
Proof.
  destruct (commits_survive demo_recover_env demo_crashed {[ 0 := 1 ]} demo_params [demo_first] demo_last
    demo_can_recover demo_params_ok demo_committed ltac:(done)) as (x' & rc & E & HOK).
  exists x', rc. split; [exact E|]. intros Hrc. destruct (HOK Hrc) as (rest & Hm & _). rewrite Hm, !length_app. cbn. lia.
Defined.

(** The recovery of the witnesses succeeds and finds both frames. *)
Example demo_recovers :
  (fun '(x, rc) => (mxFrame (hdr (the_wal x)), nPage (hdr (the_wal x)), rc)) <$> walIndexRecover demo_recover_env demo_crashed =
  Some (2, 2, SQLITE_OK).
Proof. vm_compute. reflexivity. Qed.

End WalRecovery.
