(* ===== verification/WalSort.v ===== *)
(** * Write-ahead log: the merge sort of the checkpoint (src/wal.c)

    - [walMerge] and [walMergesort] sort the frames of one page of the wal-index by the number
      of the database page they hold and keep the last frame of each database page.

    The array [aList] that is sorted in place is a list; [p->aList], [aLeft] and [aRight] are
    offsets in it. Reading outside the arrays, writing behind the end of [aTmp] and failing an
    assertion are [None]. The specification is [run]: the frames of an interval that no later
    frame of the interval replaces, by ascending page number. *)

From stdpp Require Import list sorting.
From S2P Require Import Prelude WalData WalIndex.
Import WalTypes WalIndexes.
Local Open Scope Z_scope.

Module WalSorts.

(** ** Operations *)

(** [aContent[aList[i]]] *)
Definition key_at (aContent aList : list Z) (i : Z) : option Z :=
  let? a := mem_get aList i in mem_get aContent a.

(** The loop of [walMerge]; [out] is [aTmp[0 .. iOut - 1]]. *)
Fixpoint merge_loop (fuel : nat) (aContent aList : list Z) (aLeft nLeft aRight nRight iLeft iRight : Z) (out : list Z)
  : option (list Z) :=
  if negb ((iRight <? nRight) || (iLeft <? nLeft)) then Some out else
  match fuel with
  | O => None
  | S fuel =>
      let? lower :=
        (if negb (iLeft <? nLeft) then Some false else
         if nRight <=? iRight then Some true else
         let? a := key_at aContent aList (aLeft + iLeft) in
         let? b := key_at aContent aList (aRight + iRight) in Some (a <? b)) in
      let? logpage := mem_get aList (if lower then aLeft + iLeft else aRight + iRight) in
      let iLeft := if lower then iLeft + 1 else iLeft in
      let iRight := if lower then iRight else iRight + 1 in
      let? dbpage := mem_get aContent logpage in
      let out := out ++ [logpage] in
      let? iLeft :=
        (if iLeft <? nLeft then
           let? a := key_at aContent aList (aLeft + iLeft) in Some (if a =? dbpage then iLeft + 1 else iLeft)
         else Some iLeft) in
      let? ok1 :=
        (if nLeft <=? iLeft then Some true else let? a := key_at aContent aList (aLeft + iLeft) in Some (dbpage <? a)) in
      let? ok2 :=
        (if nRight <=? iRight then Some true else let? b := key_at aContent aList (aRight + iRight) in Some (dbpage <? b)) in
      if negb (ok1 && ok2) then None else
      merge_loop fuel aContent aList aLeft nLeft aRight nRight iLeft iRight out
  end.

(** [nTmp] is the size of [aTmp]. The result has the array, [*paRight] and [*pnRight]. *)
Definition walMerge (aContent : list Z) (nTmp : Z) (aList : list Z) (aLeft nLeft aRight nRight : Z)
  : option (list Z * Z * Z) :=
  if negb ((0 <? nLeft) && (0 <? nRight)) then None else
  let? out := merge_loop (Z.to_nat (nLeft + nRight)) aContent aList aLeft nLeft aRight nRight 0 0 [] in
  if nTmp <? len out then None else
  let? aList := mem_write aList aLeft out in Some (aList, aLeft, len out).

(** An entry of [aSub]: [nList] and [aList]; [None] where it is zero. *)
Definition Sublist : Type := option (Z * Z).
Definition NSUB : Z := 13.

(** One call of [walMerge] with entry [iSub] of [aSub], with the assertions before it: [i] is
    the number of elements below the merged ones. *)
Definition merge_sub (aContent : list Z) (nTmp i iSub : Z) (aSub : list Sublist) (aList : list Z) (aMerge nMerge : Z)
  : option (list Z * Z * Z) :=
  if negb (iSub <? NSUB) then None else
  let? p := aSub !! Z.to_nat iSub in
  let? (n, o) := p in
  if negb (n <=? Z.shiftl 1 iSub) then None else
  if o <>? Z.ldiff i (Z.shiftl 2 iSub - 1) then None else
  walMerge aContent nTmp aList o n aMerge nMerge.

(** [for(iSub=0; iList & (1<<iSub); iSub++)] *)
Fixpoint sort_inner (fuel : nat) (aContent : list Z) (nTmp iList iSub : Z) (aSub : list Sublist) (aList : list Z)
  (aMerge nMerge : Z) : option (list Z * Z * Z * Z) :=
  if Z.land iList (Z.shiftl 1 iSub) =? 0 then Some (aList, aMerge, nMerge, iSub) else
  match fuel with
  | O => None
  | S fuel =>
      let? (aList, aMerge, nMerge) := merge_sub aContent nTmp iList iSub aSub aList aMerge nMerge in
      sort_inner fuel aContent nTmp iList (iSub + 1) aSub aList aMerge nMerge
  end.

(** The loop over the elements, [n] of them from [iList] on. *)
Fixpoint sort_outer (n : nat) (aContent : list Z) (nTmp iList iSub : Z) (aSub : list Sublist) (aList : list Z)
  (aMerge nMerge : Z) : option (list Sublist * list Z * Z * Z * Z) :=
  match n with
  | O => Some (aSub, aList, aMerge, nMerge, iSub)
  | S n =>
      let? (aList, aMerge, nMerge, iSub) := sort_inner (Z.to_nat NSUB) aContent nTmp iList 0 aSub aList iList 1 in
      if negb (iSub <? NSUB) then None else
      let aSub := <[Z.to_nat iSub := Some (nMerge, aMerge)]> aSub in
      sort_outer n aContent nTmp (iList + 1) iSub aSub aList aMerge nMerge
  end.

(** The loop over the entries [iSub] .. [12] of [aSub]. *)
Fixpoint sort_rest (n : nat) (aContent : list Z) (nTmp nList iSub : Z) (aSub : list Sublist) (aList : list Z)
  (aMerge nMerge : Z) : option (list Z * Z * Z) :=
  match n with
  | O => Some (aList, aMerge, nMerge)
  | S n =>
      if Z.land nList (Z.shiftl 1 iSub) =? 0 then sort_rest n aContent nTmp nList (iSub + 1) aSub aList aMerge nMerge
      else
        let? (aList, aMerge, nMerge) := merge_sub aContent nTmp nList iSub aSub aList aMerge nMerge in
        sort_rest n aContent nTmp nList (iSub + 1) aSub aList aMerge nMerge
  end.

(** The result has the array and [*pnList]. *)
Definition walMergesort (aContent : list Z) (nTmp : Z) (aList : list Z) (nList : Z) : option (list Z * Z) :=
  if negb ((nList <=? HASHTABLE_NPAGE) && (0 <? nList)) then None else
  let aSub := replicate (Z.to_nat NSUB) None in
  let? (aSub, aList, aMerge, nMerge, iSub) := sort_outer (Z.to_nat nList) aContent nTmp 0 0 aSub aList 0 0 in
  let? (aList, aMerge, nMerge) :=
    sort_rest (Z.to_nat (NSUB - (iSub + 1))) aContent nTmp nList (iSub + 1) aSub aList aMerge nMerge in
  if aMerge <>? 0 then None else Some (aList, nMerge).

(** ** Runs *)

Section Run.
Context (key : Z -> Z).

Definition before (a b : Z) : Prop := key a < key b.
Definition ascending (l : list Z) : Prop := StronglySorted before l.

(** The elements of [lo .. hi - 1] without those whose key a later one has, by ascending key. *)
Record run (lo hi : Z) (l : list Z) : Prop := {
  run_sorted : ascending l;
  run_elem : forall x, x ∈ l <-> lo <= x < hi /\ forall y, x < y < hi -> key y <> key x
}.

Lemma ascending_cons a l : ascending (a :: l) <-> ascending l /\ forall x, x ∈ l -> key a < key x.
Proof.
  unfold ascending. split.
  - intros H. apply StronglySorted_inv in H as [H1 H2]. split; [done|]. by rewrite list.Forall_forall in H2.
  - intros [H1 H2]. constructor; [done|]. by apply list.Forall_forall.
Qed.

Lemma ascending_app l1 l2 :
  ascending (l1 ++ l2) <-> ascending l1 /\ ascending l2 /\ forall x y, x ∈ l1 -> y ∈ l2 -> key x < key y.
Proof.
  induction l1 as [|a l1 IH]; cbn [app].
  - split; [|by intros (_ & ? & _)]. intros H. split_and!; [constructor|done|]. by intros x y ?%not_elem_of_nil.
  - rewrite !ascending_cons, IH. setoid_rewrite elem_of_app. setoid_rewrite elem_of_cons. split.
    + intros [(H1 & H2 & H3) H4]. split_and!; auto. intros x y [->|Hx] Hy; auto.
    + intros ((H1 & H2) & H3 & H4). split_and!; auto. intros x [Hx|Hx]; auto.
Qed.

Lemma run_singleton x : run x (x + 1) [x].
Proof.
  split; [by repeat constructor|]. intros y. rewrite list_elem_of_singleton. split; [intros ->; split; [lia|intros; lia]|intros [? _]; lia].
Qed.

(** Every element of the interval has a successor with its key in the run. *)
Lemma run_last lo hi l y : run lo hi l -> lo <= y < hi -> exists z, z ∈ l /\ key z = key y /\ y <= z.
Proof.
  intros HR. remember (Z.to_nat (hi - y)) as n eqn:En. revert y En.
  induction n as [n IH] using lt_wf_ind. intros y -> Hy.
  destruct (decide (Exists (fun z => key z = key y) (seqZ (y + 1) (hi - y - 1)))) as [He|Hn].
  - apply list.Exists_exists in He as (z & Hz%elem_of_seqZ & Ez).
    destruct (IH (Z.to_nat (hi - z)) ltac:(lia) z eq_refl ltac:(lia)) as (w & Hw & Ew & ?). exists w. split_and!; [done|congruence|lia].
  - exists y. split_and!; [|done|lia]. apply (run_elem _ _ _ HR). split; [done|]. intros z Hz Ez. apply Hn, list.Exists_exists. exists z.
    split; [apply elem_of_seqZ; lia|done].
Qed.

(** What [walMerge] makes of two lists. *)
Definition merged (l r res : list Z) : Prop :=
  ascending res /\ (forall x, x ∈ res <-> x ∈ r \/ x ∈ l /\ forall y, y ∈ r -> key y <> key x) /\
  (length res <= length l + length r)%nat.

Lemma run_merged lo mid hi l r res : lo <= mid <= hi -> run lo mid l -> run mid hi r -> merged l r res -> run lo hi res.
Proof.
  intros Hm HL HR (H1 & H2 & _). split; [done|]. intros x. rewrite H2, (run_elem _ _ _ HR), (run_elem _ _ _ HL). split.
  - intros [[Hx Hlast]|[[Hx Hlast] Hno]]; [split; [lia|done]|]. split; [lia|]. intros y Hy Ey.
    destruct (decide (y < mid)); [by apply (Hlast y); [lia|]|].
    destruct (run_last _ _ _ y HR ltac:(lia)) as (z & Hz & Ez & _). apply (Hno z Hz). congruence.
  - intros [Hx Hlast]. destruct (decide (mid <= x)); [left; by split; [lia|]|right]. split.
    + split; [lia|]. intros y Hy. apply Hlast. lia.
    + intros y [Hy _]%(run_elem _ _ _ HR). apply Hlast. lia.
Qed.

Lemma run_length lo hi l : run lo hi l -> lo <= hi -> len l <= hi - lo.
Proof.
  intros HR Hle. assert (Hnd : NoDup l).
  { destruct HR as [Hs _]. induction l as [|a l IH]; [constructor|]. apply ascending_cons in Hs as [Hs Ha]. constructor; [|by apply IH].
    intros Hin. specialize (Ha a Hin). lia. }
  assert (Hsub : l ⊆ seqZ lo (hi - lo)) by (intros x [Hx _]%(run_elem _ _ _ HR); apply elem_of_seqZ; lia).
  apply NoDup_submseteq in Hsub; [|done]. apply submseteq_length in Hsub. rewrite length_seqZ in Hsub. lia.
Qed.

Lemma run_nonempty lo hi l : run lo hi l -> lo < hi -> 0 < len l.
Proof. intros HR Hlt. destruct (run_last lo hi l lo HR) as (z & Hz & _); [lia|]. destruct l; [by apply not_elem_of_nil in Hz|simpl; lia]. Qed.

End Run.

(** ** Merging *)

Definition content_key (aContent : list Z) (a : Z) : Z := default 0 (mem_get aContent a).

(** The elements of [l] are positions in [aContent]. *)
Definition positions (aContent l : list Z) : Prop := Forall (fun a => 0 <= a < len aContent) l.

Lemma mem_get_lt (l : list Z) i : 0 <= i < len l -> mem_get l i = l !! Z.to_nat i.
Proof. intros Hi. unfold mem_get. by rewrite (proj2 (Z.leb_le _ _)) by lia. Qed.

Lemma content_at aContent a : 0 <= a < len aContent -> mem_get aContent a = Some (content_key aContent a).
Proof.
  intros Ha. unfold content_key. rewrite mem_get_lt by done. destruct (lookup_lt_is_Some_2 aContent (Z.to_nat a)) as [x Hx]; [lia|]. by rewrite Hx.
Qed.

(** [l] lies in the array at [o]. *)
Definition slice (aList : list Z) (o : Z) (l : list Z) : Prop := mem_read aList o (len l) = Some l.

Lemma slice_get aList o l (i : nat) : slice aList o l -> (i < length l)%nat -> mem_get aList (o + Z.of_nat i) = l !! i.
Proof.
  intros E Hi. apply mem_read_Some in E as (H1 & H2 & H3 & E). rewrite mem_get_lt by lia. rewrite E at 1.
  rewrite lookup_take_lt, lookup_drop by lia. f_equal. lia.
Qed.

Lemma slice_key aContent aList o l (i : nat) a :
  slice aList o l -> positions aContent l -> l !! i = Some a -> key_at aContent aList (o + Z.of_nat i) = Some (content_key aContent a).
Proof.
  intros HS HP Hi. unfold key_at. rewrite (slice_get _ _ _ _ HS) by by eapply lookup_lt_Some. rewrite Hi. cbn. apply content_at.
  by eapply (proj1 (Forall_lookup _ _) HP).
Qed.

Lemma drop_cases {A} (l : list A) (i : nat) :
  (i <= length l)%nat -> (drop i l = [] /\ length l = i) \/ (exists a, l !! i = Some a /\ drop i l = a :: drop (S i) l /\ (i < length l)%nat).
Proof.
  intros Hi. destruct (decide (i = length l)) as [->|]; [left; by rewrite drop_all|right].
  destruct (lookup_lt_is_Some_2 l i) as [a Ha]; [lia|]. exists a. split_and!; [done|by apply drop_S|lia].
Qed.

Section Merge.
Context (aContent aList : list Z) (aLeft aRight : Z) (L R : list Z).
Notation key := (content_key aContent).
Context (HSL : slice aList aLeft L) (HSR : slice aList aRight R).
Context (HPL : positions aContent L) (HPR : positions aContent R).
Context (HAL : ascending key L) (HAR : ascending key R).

Lemma ascending_drop l i : ascending key l -> ascending key (drop i l).
Proof. intros H. rewrite <- (take_drop i l) in H. apply ascending_app in H. tauto. Qed.

(** The assertion on the head of a list. *)
Lemma head_above o l (i : nat) k :
  slice aList o l -> positions aContent l -> (i <= length l)%nat -> (forall x, x ∈ drop i l -> k < key x) ->
  (if len l <=? Z.of_nat i then Some true else let? a := key_at aContent aList (o + Z.of_nat i) in Some (k <? a)) = Some true.
Proof.
  intros HS HP Hi Hk. destruct (drop_cases l i Hi) as [[_ E]|(a & Ha & Ed & Hlt)].
  - by rewrite (proj2 (Z.leb_le _ _)) by lia.
  - rewrite (proj2 (Z.leb_gt _ _)) by lia. rewrite (slice_key _ _ _ _ _ _ HS HP Ha). cbn. f_equal. apply Z.ltb_lt, Hk. rewrite Ed. by left.
Qed.

(** The element of the left list that is skipped. *)
Lemma skip_equal (i : nat) k :
  (i <= length L)%nat -> (forall x, x ∈ drop i L -> k <= key x) ->
  exists j : nat, (i <= j <= length L)%nat /\
    (if Z.of_nat i <? len L then
       let? a := key_at aContent aList (aLeft + Z.of_nat i) in Some (if a =? k then Z.of_nat i + 1 else Z.of_nat i)
     else Some (Z.of_nat i)) = Some (Z.of_nat j) /\
    (forall x, x ∈ drop j L <-> x ∈ drop i L /\ key x <> k) /\ (forall x, x ∈ drop j L -> k < key x).
Proof.
  intros Hi Hk. destruct (drop_cases L i Hi) as [[En E]|(a & Ha & Ed & Hlt)].
  - exists i. rewrite (proj2 (Z.ltb_ge _ _)) by lia. rewrite En. split_and!; [lia..|done| |].
    + intros x. split; [by intros ?%not_elem_of_nil|by intros [?%not_elem_of_nil _]].
    + by intros x ?%not_elem_of_nil.
  - rewrite (proj2 (Z.ltb_lt _ _)) by lia. rewrite (slice_key _ _ _ _ _ _ HSL HPL Ha). cbn.
    assert (Hak : k <= key a) by (apply Hk; rewrite Ed; by left).
    pose proof (ascending_drop L i HAL) as Hasc. rewrite Ed in Hasc. apply ascending_cons in Hasc as [_ Hasc].
    rewrite Ed. setoid_rewrite elem_of_cons. destruct (Z.eqb_spec (key a) k) as [E|E].
    + exists (S i). split_and!; [lia..|f_equal; lia| |intros x Hx; specialize (Hasc x Hx); lia].
      intros x. split; [intros Hx; specialize (Hasc x Hx); split; [by right|lia]|]. intros [[->|Hx] Hne]; [done|done].
    + exists i. rewrite Ed. setoid_rewrite elem_of_cons. split_and!; [lia..|done| |].
      * intros x. split; [|tauto]. intros Hx. split; [done|]. destruct Hx as [->|Hx]; [done|]. specialize (Hasc x Hx). lia.
      * intros x [->|Hx]; [lia|]. specialize (Hasc x Hx). lia.
Qed.

(** What the loop does with the lists from positions [iL] and [iR] on. *)
Definition merges (out : list Z) (iL iR : nat) (res : option (list Z)) : Prop :=
  exists l, res = Some (out ++ l) /\ ascending key (out ++ l) /\ merged key (drop iL L) (drop iR R) l.

Lemma merges_step out iL iR jL jR p res :
  merges (out ++ [p]) jL jR res -> (iL <= jL)%nat -> (iR <= jR)%nat -> (iL + iR < jL + jR)%nat -> (jL <= length L)%nat -> (jR <= length R)%nat ->
  (forall x, (x = p \/ x ∈ drop jR R \/ x ∈ drop jL L /\ forall y, y ∈ drop jR R -> key y <> key x) <->
     (x ∈ drop iR R \/ x ∈ drop iL L /\ forall y, y ∈ drop iR R -> key y <> key x)) ->
  merges out iL iR res.
Proof.
  intros (l & -> & Hasc & H1 & H2 & H3) HL HR Hlt HjL HjR Hset. exists (p :: l).
  rewrite <- app_assoc in Hasc |- *. cbn [app] in *. split; [done|]. split; [done|]. split_and!.
  - apply ascending_app in Hasc. tauto.
  - intros x. rewrite elem_of_cons, H2. apply Hset.
  - rewrite !length_drop in *. simpl. lia.
Qed.

(** The rest of an iteration after an element [p] was picked. *)
Lemma merge_tail f (fuel iL iR kL kR : nat) out p :
  (forall jL jR out, (jL <= length L)%nat -> (jR <= length R)%nat -> (length L - jL + (length R - jR) <= fuel)%nat -> ascending key out ->
     (forall o x, o ∈ out -> x ∈ drop jL L \/ x ∈ drop jR R -> key o < key x) ->
     merges out jL jR (f (Z.of_nat jL) (Z.of_nat jR) out)) ->
  (iL <= kL <= length L)%nat -> (iR <= kR <= length R)%nat -> (kL + kR = S (iL + iR))%nat ->
  (length L - iL + (length R - iR) <= S fuel)%nat -> ascending key out ->
  0 <= p < len aContent -> (forall o, o ∈ out -> key o < key p) ->
  (forall x, x ∈ drop kL L -> key p <= key x) -> (forall x, x ∈ drop kR R -> key p < key x) ->
  (forall x, (x = p \/ x ∈ drop kR R \/ (x ∈ drop kL L /\ key x <> key p) /\ forall y, y ∈ drop kR R -> key y <> key x) <->
     (x ∈ drop iR R \/ x ∈ drop iL L /\ forall y, y ∈ drop iR R -> key y <> key x)) ->
  merges out iL iR
    (let? dbpage := mem_get aContent p in
     let? iLeft :=
       (if Z.of_nat kL <? len L then
          let? a := key_at aContent aList (aLeft + Z.of_nat kL) in Some (if a =? dbpage then Z.of_nat kL + 1 else Z.of_nat kL)
        else Some (Z.of_nat kL)) in
     let? ok1 :=
       (if len L <=? iLeft then Some true else let? a := key_at aContent aList (aLeft + iLeft) in Some (dbpage <? a)) in
     let? ok2 :=
       (if len R <=? Z.of_nat kR then Some true else let? b := key_at aContent aList (aRight + Z.of_nat kR) in Some (dbpage <? b)) in
     if negb (ok1 && ok2) then None else f iLeft (Z.of_nat kR) (out ++ [p])).
Proof.
  intros IH HkL HkR Hk Hfuel Hasc Hp Hout HL HR Hset. rewrite (content_at _ _ Hp). cbn -[key_at].
  destruct (skip_equal kL (key p)) as (jL & HjL & Ej & Hj & Hlow); [lia|done|]. rewrite Ej. cbn -[key_at].
  rewrite (head_above aLeft L jL (key p)) by (done || lia). cbn -[key_at].
  rewrite (head_above aRight R kR (key p)) by (done || lia). cbn.
  apply (merges_step out iL iR jL kR p); try lia.
  - apply IH; try lia.
    + apply ascending_app. split_and!; [done|by repeat constructor|]. intros x y Hx ->%list_elem_of_singleton. auto.
    + intros o x [Ho| ->%list_elem_of_singleton]%elem_of_app [Hx|Hx]; [| |by apply Hlow|by apply HR].
      * specialize (Hout o Ho). specialize (Hlow x Hx). lia.
      * specialize (Hout o Ho). specialize (HR x Hx). lia.
  - intros x. rewrite Hj. apply Hset.
Qed.

Lemma merge_sorted_spec fuel : forall iL iR out,
  (iL <= length L)%nat -> (iR <= length R)%nat -> (length L - iL + (length R - iR) <= fuel)%nat -> ascending key out ->
  (forall o x, o ∈ out -> x ∈ drop iL L \/ x ∈ drop iR R -> key o < key x) ->
  merges out iL iR (merge_loop fuel aContent aList aLeft (len L) aRight (len R) (Z.of_nat iL) (Z.of_nat iR) out).
Proof.
  induction fuel as [|fuel IH]; intros iL iR out HiL HiR Hfuel Hasc Hout.
  all: assert (Hend : iL = length L -> iR = length R -> merges out iL iR (Some out)).
  1,3: intros -> ->; exists []; rewrite app_nil_r, !drop_all; split_and!; [done..|];
    split_and!; [constructor| |simpl; lia]; intros x; rewrite elem_of_nil; tauto.
  { cbn [merge_loop]. rewrite (proj2 (Z.ltb_ge _ _)), (proj2 (Z.ltb_ge _ _)) by lia. apply Hend; lia. }
  pose proof (ascending_drop L iL HAL) as HAL'. pose proof (ascending_drop R iR HAR) as HAR'.
  assert (Hpos : forall l i x, positions aContent l -> l !! i = Some x -> 0 <= x < len aContent).
  { intros l i x HP. by apply (proj1 (Forall_lookup _ _) HP). }
  destruct (drop_cases L iL HiL) as [[EL HlL]|(a & Ha & EL & HlL)], (drop_cases R iR HiR) as [[ER HlR]|(b & Hb & ER & HlR)];
    cbn [merge_loop].
  - rewrite (proj2 (Z.ltb_ge _ _)), (proj2 (Z.ltb_ge _ _)) by lia. apply Hend; lia.
  - rewrite (proj2 (Z.ltb_lt _ _)), (proj2 (Z.ltb_ge (Z.of_nat iL) _)) by lia. cbn -[key_at mem_get].
    rewrite (slice_get _ _ _ _ HSR), Hb by done. cbn -[key_at mem_get]. replace (Z.of_nat iR + 1) with (Z.of_nat (S iR)) by lia.
    rewrite ER in HAR'. apply ascending_cons in HAR' as [_ HAR'].
    apply (merge_tail _ fuel iL iR iL (S iR) out b IH); try lia; [done|by apply (Hpos R iR)| | |done|].
    + intros o Ho. apply Hout; [done|]. right. rewrite ER. by left.
    + rewrite EL. by intros x ?%not_elem_of_nil.
    + intros x. rewrite EL, ER, elem_of_cons, elem_of_nil. tauto.
  - rewrite (proj2 (Z.ltb_ge (Z.of_nat iR) _)), (proj2 (Z.ltb_lt (Z.of_nat iL) _)), (proj2 (Z.leb_le _ _)) by lia. cbn -[key_at mem_get].
    rewrite (slice_get _ _ _ _ HSL), Ha by done. cbn -[key_at mem_get]. replace (Z.of_nat iL + 1) with (Z.of_nat (S iL)) by lia.
    rewrite EL in HAL'. apply ascending_cons in HAL' as [_ HAL'].
    apply (merge_tail _ fuel iL iR (S iL) iR out a IH); try lia; [done|by apply (Hpos L iL)| | | |].
    + intros o Ho. apply Hout; [done|]. left. rewrite EL. by left.
    + intros x Hx. specialize (HAL' x Hx). lia.
    + rewrite ER. by intros x ?%not_elem_of_nil.
    + intros x. rewrite EL, ER, elem_of_cons. assert (Hx : x ∈ drop (S iL) L -> key x <> key a) by (intros H; specialize (HAL' x H); lia).
      setoid_rewrite elem_of_nil. split; [intros [->|[?|[[? _] _]]]; tauto|intros [?|[[->|?] _]]; tauto].
  - rewrite (proj2 (Z.ltb_lt (Z.of_nat iR) _)), (proj2 (Z.ltb_lt (Z.of_nat iL) _)), (proj2 (Z.leb_gt _ _)) by lia. cbn -[key_at mem_get].
    rewrite (slice_key _ _ _ _ _ _ HSL HPL Ha), (slice_key _ _ _ _ _ _ HSR HPR Hb). cbn -[key_at mem_get].
    rewrite EL in HAL'. apply ascending_cons in HAL' as [_ HAL']. rewrite ER in HAR'. apply ascending_cons in HAR' as [_ HAR'].
    destruct (Z.ltb_spec (key a) (key b)) as [Hab|Hab].
    + rewrite (slice_get _ _ _ _ HSL), Ha by done. cbn -[key_at mem_get]. replace (Z.of_nat iL + 1) with (Z.of_nat (S iL)) by lia.
      apply (merge_tail _ fuel iL iR (S iL) iR out a IH); try lia; [done|by apply (Hpos L iL)| | | |].
      * intros o Ho. apply Hout; [done|]. left. rewrite EL. by left.
      * intros x Hx. specialize (HAL' x Hx). lia.
      * rewrite ER. intros x [->|Hx]%elem_of_cons; [done|]. specialize (HAR' x Hx). lia.
      * intros x. rewrite EL, elem_of_cons. assert (Hx : x ∈ drop (S iL) L -> key x <> key a) by (intros H; specialize (HAL' x H); lia).
        assert (Hy : forall y, y ∈ drop iR R -> key y <> key a).
        { rewrite ER. intros y [->|Hy]%elem_of_cons; [lia|]. specialize (HAR' y Hy). lia. }
        split; [intros [->|[?|[[? _] ?]]]; [right; split; [by left|done]|by left|right; tauto]|].
        intros [?|[[->|?] ?]]; [right; by left|by left|right; right; tauto].
    + rewrite (slice_get _ _ _ _ HSR), Hb by done. cbn -[key_at mem_get]. replace (Z.of_nat iR + 1) with (Z.of_nat (S iR)) by lia.
      apply (merge_tail _ fuel iL iR iL (S iR) out b IH); try lia; [done|by apply (Hpos R iR)| | |done|].
      * intros o Ho. apply Hout; [done|]. right. rewrite ER. by left.
      * rewrite EL. intros x [->|Hx]%elem_of_cons; [done|]. specialize (HAL' x Hx). lia.
      * intros x. rewrite ER, elem_of_cons. setoid_rewrite elem_of_cons. split.
        -- intros [->|[?|[[? Hne] Hy]]]; [left; by left|left; by right|right]. split; [done|]. intros y [->|Hin]; [done|by apply Hy].
        -- intros [[->|?]|[? Hy]]; [by left|right; by left|right; right]. split; [split; [done|]|by auto]. intros E. apply (Hy b); [by left|done].
Qed.

Lemma walMerge_spec nTmp :
  L <> [] -> R <> [] -> len L + len R <= nTmp -> aLeft + (len L + len R) <= len aList ->
  exists res aList', walMerge aContent nTmp aList aLeft (len L) aRight (len R) = Some (aList', aLeft, len res) /\
    mem_write aList aLeft res = Some aList' /\ merged key L R res.
Proof.
  intros HL HR Htmp Hroom. unfold walMerge. rewrite !(proj2 (Z.ltb_lt 0 _)) by (destruct L, R; simpl; lia || done). cbn [andb negb].
  destruct (merge_sorted_spec (Z.to_nat (len L + len R)) 0 0 []) as (res & E & _ & Hm); [lia..|constructor|by intros o x ?%not_elem_of_nil|].
  change (Z.of_nat 0) with 0 in E. rewrite E, !drop_0 in *. cbn [app]. cbn. pose proof Hm as (_ & _ & Hlen). rewrite (proj2 (Z.ltb_ge _ _)) by lia.
  apply mem_read_Some in HSL as (H1 & _ & _ & _). destruct (mem_write aList aLeft res) as [aList'|] eqn:Ew.
  - exists res, aList'. by split_and!.
  - rewrite mem_write_total in Ew by lia. done.
Qed.

End Merge.

(** ** Bits of the counters *)

(** [x] without its [k] lowest bits. *)
Definition floor (k x : Z) : Z := x - x mod 2 ^ k.

Lemma bit_test x k : 0 <= k -> (Z.land x (Z.shiftl 1 k) =? 0) = negb (Z.testbit x k).
Proof.
  intros Hk. rewrite Z.shiftl_1_l. destruct (Z.testbit x k) eqn:E; cbn [negb].
  - apply Z.eqb_neq. intros H. apply (f_equal (fun z => Z.testbit z k)) in H. rewrite Z.land_spec, E, Z.pow2_bits_true, Z.bits_0 in H by done. done.
  - apply Z.eqb_eq, Z.bits_inj'. intros j Hj. rewrite Z.land_spec, Z.bits_0, Z.pow2_bits_eqb by done.
    destruct (Z.eqb_spec k j) as [->|]; [by rewrite E|by rewrite andb_false_r].
Qed.

Lemma mask_floor x k : 0 <= k -> Z.ldiff x (Z.shiftl 2 k - 1) = floor (k + 1) x.
Proof.
  intros Hk. rewrite Z.shiftl_mul_pow2 by done. replace (2 * 2 ^ k - 1) with (Z.ones (k + 1)).
  - rewrite Z.ldiff_ones_r, Z.shiftl_mul_pow2, Z.shiftr_div_pow2 by lia. unfold floor. pose proof (Z.div_mod x (2 ^ (k + 1))). lia.
  - rewrite Z.ones_equiv, Z.pow_add_r by lia. lia.
Qed.

Lemma mod_step x k : 0 <= k -> x mod 2 ^ (k + 1) = x mod 2 ^ k + (if Z.testbit x k then 2 ^ k else 0).
Proof.
  intros Hk. rewrite Z.pow_add_r, Z.rem_mul_r by lia. change (2 ^ 1) with 2.
  assert (E : (x / 2 ^ k) mod 2 = Z.b2z (Z.testbit x k)) by (symmetry; by apply Z.testbit_spec').
  rewrite E. destruct (Z.testbit x k); simpl; lia.
Qed.

Lemma floor_step x k : 0 <= k -> floor k x = floor (k + 1) x + (if Z.testbit x k then 2 ^ k else 0).
Proof. intros Hk. unfold floor. rewrite mod_step by done. lia. Qed.

Lemma floor_le j k x : 0 <= j <= k -> floor k x <= floor j x.
Proof.
  intros [Hj Hk]. replace k with (j + Z.of_nat (Z.to_nat (k - j))) by lia. generalize (Z.to_nat (k - j)) as d. intros d.
  induction d as [|d IH]; [by rewrite Z.add_0_r|]. replace (j + Z.of_nat (S d)) with (j + Z.of_nat d + 1) by lia.
  rewrite (floor_step x (j + Z.of_nat d)) in IH by lia. destruct (Z.testbit _ _); [|lia].
  assert (0 < 2 ^ (j + Z.of_nat d)) by (apply Z.pow_pos_nonneg; lia). lia.
Qed.

Lemma floor_0 x : floor 0 x = x.
Proof. unfold floor. rewrite Z.mod_1_r. lia. Qed.

Lemma floor_range k x : 0 <= k -> 0 <= x -> 0 <= floor k x <= x.
Proof.
  intros Hk Hx. unfold floor. assert (0 < 2 ^ k) by (apply Z.pow_pos_nonneg; lia). pose proof (Z.mod_pos_bound x (2 ^ k)).
  pose proof (Z.mod_le x (2 ^ k)). lia.
Qed.

(** Adding 1 to a number that ends in a zero and [k] ones. *)
Definition ends_ones (k x : Z) : Prop := x mod 2 ^ (k + 1) = 2 ^ k - 1.

Lemma succ_mod_high x k j : 0 <= k -> k < j -> ends_ones k x -> (x + 1) mod 2 ^ j = x mod 2 ^ j + 1.
Proof.
  intros Hk Hj He. assert (Hp : 0 < 2 ^ j) by (apply Z.pow_pos_nonneg; lia). pose proof (Z.mod_pos_bound x (2 ^ j) Hp) as Hb.
  assert (Hne : x mod 2 ^ j <> 2 ^ j - 1).
  { intros E. unfold ends_ones in He. assert (Hd : (x mod 2 ^ j) mod 2 ^ (k + 1) = x mod 2 ^ (k + 1)).
    { replace j with ((k + 1) + (j - (k + 1))) by lia. rewrite Z.pow_add_r, Z.rem_mul_r by (try apply Z.pow_nonzero; try apply Z.pow_pos_nonneg; lia).
      rewrite Z.mul_comm, Z.mod_add, Z.mod_mod by (apply Z.pow_nonzero; lia). done. }
    rewrite E, He in Hd. replace (2 ^ j - 1) with ((2 ^ (j - (k + 1)) - 1) * 2 ^ (k + 1) + (2 ^ (k + 1) - 1)) in Hd.
    - rewrite Z.add_comm, Z.mod_add, Z.mod_small in Hd; [|split; [|lia]|apply Z.pow_nonzero; lia].
      + rewrite Z.pow_add_r in Hd by lia. assert (0 < 2 ^ k) by (apply Z.pow_pos_nonneg; lia). lia.
      + assert (0 < 2 ^ (k + 1)) by (apply Z.pow_pos_nonneg; lia). lia.
    - assert (2 ^ j = 2 ^ (j - (k + 1)) * 2 ^ (k + 1)) by (rewrite <- Z.pow_add_r by lia; f_equal; lia). lia. }
  rewrite <- Z.add_mod_idemp_l by lia. apply Z.mod_small. lia.
Qed.

Lemma succ_mod_low x k j : 0 <= j <= k -> ends_ones k x -> (x + 1) mod 2 ^ j = 0.
Proof.
  intros Hj He. unfold ends_ones in He. assert (Hp : 0 < 2 ^ (k + 1)) by (apply Z.pow_pos_nonneg; lia).
  pose proof (Z.div_mod x (2 ^ (k + 1)) ltac:(lia)) as Hx. rewrite He in Hx. set (q := x / 2 ^ (k + 1)) in *.
  replace (x + 1) with ((2 * q + 1) * 2 ^ (k - j) * 2 ^ j); [apply Z.mod_mul; apply Z.pow_nonzero; lia|].
  rewrite <- Z.mul_assoc, <- Z.pow_add_r by lia. replace (k - j + j) with k by lia. rewrite Z.pow_add_r in Hx by lia. lia.
Qed.

(** ** Sorting *)

Section Sort.
Context (aContent : list Z) (nTmp n : Z).
Notation key := (content_key aContent).
Context (Hn : 0 < n <= HASHTABLE_NPAGE) (Hcont : n <= len aContent) (Htmp : n <= nTmp).

(** The array has a run of [lo .. hi - 1] at [lo]. *)
Definition chunk (aList : list Z) (lo hi : Z) (l : list Z) : Prop := run key lo hi l /\ slice aList lo l.

(** The arrays agree below [lo] and from [hi] on. *)
Definition same_outside (lo hi : Z) (a a' : list Z) : Prop :=
  length a' = length a /\ forall o m b, mem_read a o m = Some b -> o + m <= lo \/ hi <= o -> mem_read a' o m = Some b.

Lemma run_positions lo hi l : run key lo hi l -> 0 <= lo -> hi <= n -> positions aContent l.
Proof. intros HR Hlo Hhi. apply list.Forall_forall. intros x [Hx _]%(run_elem _ _ _ _ HR). lia. Qed.

Lemma merge_sub_spec i k aSub aList lo mid hi l r :
  0 <= k < NSUB -> aSub !! Z.to_nat k = Some (Some (len l, lo)) -> lo = floor (k + 1) i -> mid - lo <= 2 ^ k ->
  0 <= lo -> lo < mid -> mid < hi -> hi <= n -> len aList = n -> chunk aList lo mid l -> chunk aList mid hi r ->
  exists aList' res, merge_sub aContent nTmp i k aSub aList mid (len r) = Some (aList', lo, len res) /\
    chunk aList' lo hi res /\ same_outside lo hi aList aList'.
Proof.
  intros Hk Hp Hlo Hw H0 H1 H2 Hhi Hlen [HRl HSl] [HRr HSr]. unfold merge_sub.
  rewrite (proj2 (Z.ltb_lt _ _)) by lia. cbn [negb]. rewrite Hp. cbn -[walMerge Z.shiftl Z.ldiff].
  pose proof (run_length _ _ _ _ HRl ltac:(lia)). pose proof (run_length _ _ _ _ HRr ltac:(lia)).
  pose proof (run_nonempty _ _ _ _ HRl ltac:(lia)). pose proof (run_nonempty _ _ _ _ HRr ltac:(lia)).
  rewrite Z.shiftl_1_l, (proj2 (Z.leb_le _ _)) by lia. cbn [negb]. rewrite mask_floor, <- Hlo, Z.eqb_refl by lia. cbn [negb].
  destruct (walMerge_spec aContent aList lo mid l r) with (nTmp := nTmp) as (res & aList' & E & Ew & Hm);
    [done|done|apply (run_positions lo mid l HRl); lia|apply (run_positions mid hi r HRr); lia|apply HRl|apply HRr|by destruct l|by destruct r|lia|lia|].
  exists aList', res. split; [exact E|]. pose proof Hm as (_ & _ & Hlr).
  split; [split; [by eapply (run_merged key lo mid hi); [lia|..]|]|split; [by eapply mem_write_length|]].
  - unfold slice. by apply (mem_read_write_eq aList).
  - intros o m b Hr Ho. rewrite (mem_read_write_ne _ _ _ _ _ _ Ew); [done|lia].
Qed.

Lemma same_outside_refl lo hi a : same_outside lo hi a a.
Proof. by split. Qed.

Lemma same_outside_trans lo lo' hi a b c : same_outside lo hi a b -> same_outside lo' hi b c -> lo' <= lo -> same_outside lo' hi a c.
Proof. intros [H1 H2] [H3 H4] Hle. split; [congruence|]. intros o m x Hr Ho. apply H4; [apply H2; [done|lia]|done]. Qed.

Lemma chunk_outside lo hi a a' l h l1 :
  same_outside lo hi a a' -> chunk a l h l1 -> l <= h -> h <= lo -> chunk a' l h l1.
Proof. intros [_ H] [HR HS] Hle Hh. split; [done|]. apply H; [done|]. left. pose proof (run_length _ _ _ _ HR Hle). lia. Qed.

(** The entries of [aSub] from [k] on: one run for each bit of [m]. *)
Definition subs (k m : Z) (aSub : list Sublist) (aList : list Z) : Prop :=
  forall j, k <= j < NSUB -> Z.testbit m j = true -> exists l,
    aSub !! Z.to_nat j = Some (Some (len l, floor (j + 1) m)) /\ chunk aList (floor (j + 1) m) (floor j m) l.

Lemma subs_outside k m aSub a a' lo hi : same_outside lo hi a a' -> subs k m aSub a -> 0 <= k -> floor k m <= lo -> subs k m aSub a'.
Proof.
  intros HS H Hk Hlo j Hj Hb. destruct (H j Hj Hb) as (l & E & HC). exists l. split; [done|].
  eapply chunk_outside; [done..|apply floor_le; lia|]. pose proof (floor_le k j m). lia.
Qed.

(** One more entry is merged. *)
Lemma merge_bit x k aSub aList hi r :
  0 <= k < NSUB -> 0 <= x -> x <= hi <= n -> floor k x < hi -> len aList = n -> Z.testbit x k = true -> subs k x aSub aList ->
  chunk aList (floor k x) hi r ->
  exists aList' res, merge_sub aContent nTmp x k aSub aList (floor k x) (len r) = Some (aList', floor (k + 1) x, len res) /\
    chunk aList' (floor (k + 1) x) hi res /\ same_outside (floor (k + 1) x) hi aList aList' /\ subs (k + 1) x aSub aList'.
Proof.
  intros Hk Hx Hhi Hlt Hlen Hb HS HC. destruct (HS k ltac:(lia) Hb) as (l & E & HCl).
  pose proof (floor_step x k ltac:(lia)) as Hf. rewrite Hb in Hf. assert (0 < 2 ^ k) by (apply Z.pow_pos_nonneg; lia).
  pose proof (floor_range (k + 1) x ltac:(lia) Hx).
  destruct (merge_sub_spec x k aSub aList (floor (k + 1) x) (floor k x) hi l r) as (aList' & res & E' & HC' & HO); try done; try lia.
  exists aList', res. split_and!; [done..|]. eapply (subs_outside (k + 1)); [done| |lia|lia].
  intros j Hj Hbj. apply HS; [lia|done].
Qed.

Lemma sort_inner_spec fuel : forall k aSub aList i r,
  0 <= k -> 12 - k < Z.of_nat fuel -> 0 <= i < n -> len aList = n -> subs k i aSub aList -> i mod 2 ^ k = 2 ^ k - 1 ->
  chunk aList (floor k i) (i + 1) r ->
  exists aList' k' res, sort_inner fuel aContent nTmp i k aSub aList (floor k i) (len r) = Some (aList', floor k' i, len res, k') /\
    k <= k' < NSUB /\ ends_ones k' i /\ chunk aList' (floor k' i) (i + 1) res /\ same_outside (floor k' i) (i + 1) aList aList'.
Proof.
  induction fuel as [|fuel IH]; intros k aSub aList i r Hk Hfuel Hi Hlen HS Hones HC; cbn [sort_inner].
  all: assert (Hk12 : k <= 12).
  1,3: pose proof layout_eqs; destruct (decide (k <= 12)); [done|]; exfalso; assert (2 ^ 13 <= 2 ^ k) by (apply Z.pow_le_mono_r; lia);
    pose proof (Z.mod_le i (2 ^ k)); lia.
  { lia. }
  rewrite bit_test by done. pose proof (mod_step i k Hk) as Hm. destruct (Z.testbit i k) eqn:Hb; cbn [negb].
  - destruct (merge_bit i k aSub aList (i + 1) r) as (aList1 & res1 & -> & HC1 & HO1 & HS1); try done; try lia.
    { unfold NSUB. lia. } { pose proof (floor_range k i Hk). lia. }
    cbn -[sort_inner]. destruct (IH (k + 1) aSub aList1 i res1) as (aList' & k' & res & -> & Hk' & He & HC' & HO'); try done; try lia.
    { destruct HO1 as [? _]. lia. } { rewrite Hm, Hones, Z.pow_add_r by lia. lia. }
    exists aList', k', res. split_and!; [done|lia|lia|done|done|]. eapply same_outside_trans; [done..|]. apply floor_le. lia.
  - exists aList, k, r. split_and!; [done|lia|unfold NSUB; lia| |done|apply same_outside_refl]. unfold ends_ones. lia.
Qed.

(** The state after [m] elements. *)
Record counted (m : Z) (aSub : list Sublist) (aList : list Z) : Prop := {
  ct_len : length aSub = Z.to_nat NSUB /\ len aList = n;
  ct_subs : subs 0 m aSub aList;
  ct_rest : forall j, m <= j < n -> slice aList j [j]
}.

Lemma ends_ones_low k x : 0 <= k -> ends_ones k x -> x mod 2 ^ k = 2 ^ k - 1 /\ Z.testbit x k = false.
Proof.
  intros Hk He. unfold ends_ones in He. rewrite mod_step in He by done. assert (0 < 2 ^ k) by (apply Z.pow_pos_nonneg; lia).
  pose proof (Z.mod_pos_bound x (2 ^ k)). destruct (Z.testbit x k); [lia|]. split; [lia|done].
Qed.

Lemma floor_succ_high k j x : 0 <= k -> k < j -> ends_ones k x -> floor j (x + 1) = floor j x.
Proof. intros Hk Hj He. unfold floor. rewrite (succ_mod_high x k j) by done. lia. Qed.

Lemma bit_succ k j x : 0 <= k -> 0 <= j -> j <> k -> ends_ones k x -> Z.testbit (x + 1) j = (k <? j) && Z.testbit x j.
Proof.
  intros Hk Hj Hne He. pose proof (mod_step (x + 1) j Hj) as H1. assert (0 < 2 ^ j) by (apply Z.pow_pos_nonneg; lia).
  destruct (Z.ltb_spec k j); cbn [andb].
  - rewrite !(succ_mod_high x k) in H1 by (done || lia). rewrite mod_step in H1 by done. destruct (Z.testbit (x + 1) j), (Z.testbit x j); (done || (exfalso; lia)).
  - rewrite !(succ_mod_low x k) in H1 by (done || lia). destruct (Z.testbit (x + 1) j); (done || (exfalso; lia)).
Qed.

Lemma sort_step m aSub aList :
  counted m aSub aList -> 0 <= m < n ->
  exists aList' k r, sort_inner (Z.to_nat NSUB) aContent nTmp m 0 aSub aList m 1 = Some (aList', floor (k + 1) (m + 1), len r, k) /\
    0 <= k < NSUB /\ floor (k + 1) (m + 1) <= m /\ counted (m + 1) (<[Z.to_nat k := Some (len r, floor (k + 1) (m + 1))]> aSub) aList' /\
    chunk aList' (floor (k + 1) (m + 1)) (m + 1) r.
Proof.
  intros [[C1 C2] C3 C4] Hm.
  destruct (sort_inner_spec (Z.to_nat NSUB) 0 aSub aList m [m]) as (aList' & k & r & E & Hk & He & HC & HO);
    [lia|unfold NSUB; lia|done|done|done|by rewrite Z.mod_1_r| |].
  { rewrite floor_0. split; [apply run_singleton|apply C4; lia]. }
  rewrite floor_0 in E. destruct (ends_ones_low k m ltac:(lia) He) as [Hlow Hbit].
  assert (Ef : floor k m = floor (k + 1) (m + 1)).
  { unfold floor. rewrite (succ_mod_high m k) by (done || lia). unfold ends_ones in He. lia. }
  rewrite Ef in *. exists aList', k, r. split_and!; [exact E|lia|lia|rewrite <- Ef; apply floor_range; lia| |done]. split.
  - rewrite length_insert. destruct HO as [? _]. split; [done|lia].
  - intros j Hj Hb. destruct (decide (j = k)) as [->|Hne].
    + exists r. rewrite list_lookup_insert_eq by (unfold Sublist in *; lia). split; [done|].
      unfold floor at 2. rewrite (succ_mod_low m k) by (done || lia). rewrite Z.sub_0_r. done.
    + rewrite (bit_succ k) in Hb by (done || lia). apply andb_true_iff in Hb as [Hlt%Z.ltb_lt Hb].
      destruct (C3 j ltac:(lia) Hb) as (l & El & HCl). exists l. rewrite list_lookup_insert_ne by lia.
      rewrite !(floor_succ_high k) by (done || lia). split; [done|].
      eapply chunk_outside; [done..|apply floor_le; lia|]. rewrite <- Ef. apply floor_le. lia.
  - intros j Hj. destruct HO as [_ HO]. apply HO; [apply C4; lia|right; lia].
Qed.

Lemma sort_outer_spec cnt : forall m aSub aList iSub aMerge nMerge,
  counted m aSub aList -> 0 <= m -> m + Z.of_nat (S cnt) = n ->
  exists aSub' aList' k r, sort_outer (S cnt) aContent nTmp m iSub aSub aList aMerge nMerge =
      Some (aSub', aList', floor (k + 1) n, len r, k) /\
    0 <= k < NSUB /\ floor (k + 1) n < n /\ subs (k + 1) n aSub' aList' /\ chunk aList' (floor (k + 1) n) n r /\ len aList' = n.
Proof.
  induction cnt as [|cnt IH]; intros m aSub aList iSub aMerge nMerge HC Hm Hcnt;
    destruct (sort_step m aSub aList HC) as (aList1 & k & r & E & Hk & Hf & HC1 & Hch); try lia.
  - cbn [sort_outer]. rewrite E. cbn. rewrite (proj2 (Z.ltb_lt _ _)) by lia. cbn.
    assert (m + 1 = n) as Em by lia. rewrite Em in *. eexists _, aList1, k, r. split; [done|]. split_and!; [lia|lia|lia| |done|apply HC1].
    intros j Hj Hb. apply (ct_subs _ _ _ HC1); [lia|done].
  - remember (S cnt) as c eqn:Ec. cbn [sort_outer]. rewrite E. cbn -[sort_outer]. rewrite (proj2 (Z.ltb_lt _ _)) by lia. cbn -[sort_outer].
    subst c. apply IH; [done|lia|lia].
Qed.

Lemma sort_rest_spec cnt : forall k aSub aList r,
  0 <= k -> k + Z.of_nat cnt = NSUB -> subs k n aSub aList -> chunk aList (floor k n) n r -> floor k n < n -> len aList = n ->
  exists aList' res, sort_rest cnt aContent nTmp n k aSub aList (floor k n) (len r) = Some (aList', 0, len res) /\
    chunk aList' 0 n res /\ len aList' = n.
Proof.
  induction cnt as [|cnt IH]; intros k aSub aList r Hk Hcnt HS HC Hlt Hlen; cbn [sort_rest].
  - assert (E0 : floor k n = 0).
    { unfold floor. assert (k = 13) as -> by (unfold NSUB in *; lia). pose proof layout_eqs. rewrite Z.mod_small by lia. lia. }
    rewrite E0 in *. by exists aList, r.
  - rewrite bit_test by done. pose proof (floor_step n k Hk) as Hf. destruct (Z.testbit n k) eqn:Hb; cbn [negb].
    + destruct (merge_bit n k aSub aList n r) as (aList1 & res1 & -> & HC1 & HO1 & HS1); try done; try lia.
      destruct HO1 as [? _]. cbn -[sort_rest]. apply IH; done || lia.
    + rewrite Z.add_0_r in Hf. rewrite Hf in *. apply IH; try done; try lia. intros j Hj. apply HS. lia.
Qed.

(** The sorted list of the last positions of each key. *)
Lemma walMergesort_spec :
  exists aList' res, walMergesort aContent nTmp (seqZ 0 n) n = Some (aList', len res) /\
    run key 0 n res /\ slice aList' 0 res /\ len aList' = n.
Proof.
  unfold walMergesort. rewrite (proj2 (Z.leb_le _ _)), (proj2 (Z.ltb_lt _ _)) by lia. cbn [andb negb].
  replace (Z.to_nat n) with (S (Z.to_nat (n - 1))) by lia.
  destruct (sort_outer_spec (Z.to_nat (n - 1)) 0 (replicate (Z.to_nat NSUB) None) (seqZ 0 n) 0 0 0) as (aSub' & aList' & k & r & -> & Hk & Hlt & HS & HC & Hlen);
    [|lia|lia|].
  - split.
    + rewrite length_replicate, length_seqZ. split; [done|lia].
    + intros j Hj. rewrite Z.bits_0. done.
    + intros j Hj. unfold slice. rewrite mem_read_total by (rewrite ?length_seqZ; simpl; lia). simpl. f_equal.
      rewrite (drop_S _ j); [done|]. rewrite lookup_seqZ_lt by lia. f_equal. lia.
  - cbn -[sort_rest].
    destruct (sort_rest_spec (Z.to_nat (NSUB - (k + 1))) (k + 1) aSub' aList' r) as (aList2 & res & -> & [HR HSl] & Hl2); try done; try lia.
    cbn. by exists aList2, res.
Qed.

End Sort.

End WalSorts.
