(* ===== verification/WalIter.v ===== *)
(** * Write-ahead log: the iterator of the checkpoint (src/wal.c)

    - [walIteratorInit] prepares an iterator over the pages in the log, with one of two
      algorithms: sorted indices of the pages of the wal-index (WALITER-1), or a map from the
      pages of the database to their last frame (WALITER-2);
    - [walIteratorNext] returns the pages in ascending order, each with its last frame.

    [aPgno] of a segment is a pointer to a page of the wal-index and an offset in it. The index
    arrays of the segments, which share one allocation, are lists; the check that they fit is
    part of [init_segment]. The map of WALITER-2 is the list [aPagemap]; its entry 0, which
    shares its memory with [iZero] of the first segment, is never read. *)

From stdpp Require Import list gmap sorting.
From S2P Require Import Prelude WalData WalIndex WalTxn WalSort.
Import WalTypes WalIndexes WalTxns WalSorts.
Local Open Scope Z_scope.

Module WalIterators.

(** ** Operations *)

Record WalSegment := Seg {
  iNext : Z;
  aIndex : list Z;
  aPgno : Z * Z;
  nEntry : Z;
  seg_iZero : Z
}.

Record WalIterator := Iter {
  iPrior : Z;
  nPagemap : Z;
  aSegment : list WalSegment;
  aPagemap : list Z
}.

Definition set_iNext v (g : WalSegment) : WalSegment := Seg v (aIndex g) (aPgno g) (nEntry g) (seg_iZero g).
Definition set_iPrior v (p : WalIterator) : WalIterator := Iter v (nPagemap p) (aSegment p) (aPagemap p).
Definition set_aSegment v (p : WalIterator) : WalIterator := Iter (iPrior p) (nPagemap p) v (aPagemap p).
Definition set_aPagemap v (p : WalIterator) : WalIterator := Iter (iPrior p) (nPagemap p) (aSegment p) v.

(** The loop that enters the frames of one page of the index in the map: [l] are the page
    numbers, [z] is the frame before the first. *)
Fixpoint pagemap_fill (l : list Z) (z nPage : Z) (m : list Z) : option (list Z) :=
  match l with
  | [] => Some m
  | pgno :: l =>
      let? m := (if pgno <=? nPage then mem_put m pgno (u32 (z + 1)) else Some m) in
      pagemap_fill l (z + 1) nPage m
  end.

(** The segment for one page of the index; [room] is the size of the array of indices, [base]
    the number of the frame before its first entry. *)
Definition init_segment (loc : WalHashLoc) (pg : WalPage) (nTmp base room n : Z) : option WalSegment :=
  if room <? iZero loc - base + n then None else
  let? (a, n) := walMergesort (drop (Z.to_nat (loc_off loc)) (words pg)) nTmp (seqZ 0 n) n in
  Some (Seg 0 a (loc_page loc, loc_off loc) n (iZero loc + 1)).

(** The loop over the pages [i] .. [iLastPage] of the index. *)
Fixpoint init_pages (fuel : nat) (e : page_env) (alg2 : bool) (iLast iLastPage base i : Z) (p : WalIterator) (s : St)
  : option (St * Z * WalIterator) :=
  if iLastPage <? i then Some (s, SQLITE_OK, p) else
  match fuel with
  | O => None
  | S fuel =>
      let? (s, rc, loc) := walHashGet e i s in
      if rc <>? SQLITE_OK then Some (s, rc, p) else
      let? loc := loc in
      let? pg := pages s !! loc_page loc in
      let n := if i =? iLastPage then i32 (u32 (iLast - iZero loc)) else HASHTABLE_NPAGE - loc_off loc in
      let? p :=
        (if alg2 then
           let? l := mem_read (words pg) (loc_off loc) n in
           let? m := pagemap_fill l (iZero loc) (nPagemap p) (aPagemap p) in Some (set_aPagemap m p)
         else
           let? g := init_segment loc pg (Z.min iLast HASHTABLE_NPAGE) base (iLast - base) n in
           Some (set_aSegment (aSegment p ++ [g]) p)) in
      init_pages fuel e alg2 iLast iLastPage base (i + 1) p s
  end.

(** [malloc] is whether the iterator can be allocated. *)
Definition walIteratorInit (e : page_env) (malloc : bool) (nBackfill : Z) (s : St) : option (St * Z * option WalIterator) :=
  let w := wal s in
  let iLast := mxFrame (hdr w) in
  if (ckptLock w =? 0) || negb (0 <? iLast) then None else
  let iFirstPage := walFramePage (u32 (nBackfill + 1)) in
  let iLastPage := walFramePage iLast in
  let base := if iFirstPage <>? 0 then u32 (HASHTABLE_NPAGE_ONE + (iFirstPage - 1) * HASHTABLE_NPAGE) else 0 in
  let alg2 := nPage (hdr w) * 4 <? u32 (iLast - base) * 2 in
  if negb malloc then Some (s, SQLITE_NOMEM, None) else
  let p := if alg2 then Iter 0 (nPage (hdr w)) [Seg 0 [] (0, 0) 0 0] (replicate (Z.to_nat (nPage (hdr w) + 1)) 0)
           else Iter 0 0 [] [] in
  let? (s, rc, p) := init_pages (Z.to_nat (iLastPage - iFirstPage + 1)) e alg2 iLast iLastPage base iFirstPage p s in
  Some (s, rc, if rc =? SQLITE_OK then Some p else None).

(** WALITER-2: the next entry of the map that is not zero. *)
Fixpoint next_mapped (fuel : nat) (m : list Z) (nPage iPrior : Z) : option (option (Z * Z)) :=
  if negb (iPrior <? nPage) then Some None else
  match fuel with
  | O => None
  | S fuel =>
      let? f := mem_get m (iPrior + 1) in
      if f <>? 0 then Some (Some (iPrior + 1, f)) else next_mapped fuel m nPage (iPrior + 1)
  end.

(** WALITER-1: the next entry of a segment above [iMin]. *)
Fixpoint scan_segment (fuel : nat) (s : St) (iMin : Z) (g : WalSegment) : option (WalSegment * option (Z * Z)) :=
  if negb (iNext g <? nEntry g) then Some (g, None) else
  match fuel with
  | O => None
  | S fuel =>
      let? pg := pages s !! (aPgno g).1 in
      let? j := mem_get (aIndex g) (iNext g) in
      let? iPg := mem_get (words pg) ((aPgno g).2 + j) in
      if iMin <? iPg then Some (g, Some (iPg, u32 (seg_iZero g + j)))
      else scan_segment fuel s iMin (set_iNext (iNext g + 1) g)
  end.

(** The loop over the segments, from the last to the first; [iRet] and [iFrame] are the best
    entry so far. *)
Fixpoint scan_segments (s : St) (iMin : Z) (l : list WalSegment) (iFrame : Z) : option (list WalSegment * Z * Z) :=
  match l with
  | [] => Some ([], 0xFFFFFFFF, iFrame)
  | g :: l =>
      let? (l, iRet, iFrame) := scan_segments s iMin l iFrame in
      let? (g, r) := scan_segment (Z.to_nat (nEntry g - iNext g)) s iMin g in
      match r with
      | Some (iPg, f) => if iPg <? iRet then Some (g :: l, iPg, f) else Some (g :: l, iRet, iFrame)
      | None => Some (g :: l, iRet, iFrame)
      end
  end.

(** The result has the iterator, the returned value, [*piPage] and [*piFrame]. *)
Definition walIteratorNext (s : St) (p : WalIterator) (iFrame : Z) : option (WalIterator * Z * Z * Z) :=
  let? (p, iRet, iFrame) :=
    (if nPagemap p <>? 0 then
       let? r := next_mapped (Z.to_nat (nPagemap p - iPrior p)) (aPagemap p) (nPagemap p) (iPrior p) in
       match r with
       | Some (x, f) => Some (p, x, f)
       | None => Some (p, 0xFFFFFFFF, iFrame)
       end
     else
       if negb (iPrior p <? 0xFFFFFFFF) then None else
       let? (l, iRet, iFrame) := scan_segments s (iPrior p) (aSegment p) iFrame in
       Some (set_aSegment l p, iRet, iFrame)) in
  Some (set_iPrior iRet p, if iRet =? 0xFFFFFFFF then 1 else 0, iRet, iFrame).

(** All the calls of [walIteratorNext], until it returns 1. *)
Fixpoint iterate (fuel : nat) (s : St) (p : WalIterator) (iFrame : Z) : option (list (Z * Z)) :=
  match fuel with
  | O => None
  | S fuel =>
      let? (p, ret, iPage, iFrame) := walIteratorNext s p iFrame in
      if ret <>? 0 then Some [] else
      let? l := iterate fuel s p iFrame in Some ((iPage, iFrame) :: l)
  end.

(** ** The last frame of a page *)

(** [r] is the last of the frames [lo] .. [hi] that holds page [x], 0 if there is none. *)
Definition newest (plog : list Z) (lo hi x r : Z) : Prop := latest plog 0 lo hi x r.

Lemma newest_unique plog lo hi x r r' : newest plog lo hi x r -> newest plog lo hi x r' -> r = r'.
Proof. apply latest_unique. Qed.

Lemma newest_range plog lo hi x r : newest plog lo hi x r -> r <> 0 -> lo <= r <= hi /\ plog !! Z.to_nat (r - 1) = Some x /\ 1 <= r.
Proof.
  intros [[-> _]|(j & [Hj Hr] & -> & _)] Hne; [done|]. split_and!; [lia|lia| |lia]. replace (Z.to_nat _) with j by lia. done.
Qed.

Lemma newest_join plog lo mid hi x r1 r2 :
  lo <= mid + 1 -> mid <= hi -> newest plog lo mid x r1 -> newest plog (mid + 1) hi x r2 ->
  newest plog lo hi x (if r2 =? 0 then r1 else r2).
Proof.
  intros Hlo Hhi H1 [[-> H2]|(j & [Hj Hr] & -> & H2)].
  - rewrite Z.eqb_refl. destruct H1 as [[-> H1]|(j & [Hj Hr] & -> & H1)]; [left|right].
    + split; [done|]. intros j [Hj Hr]. destruct (decide (0 + Z.of_nat j + 1 <= mid)); [apply (H1 j)|apply (H2 j)]; (split; [done|lia]).
    + exists j. split_and!; [split; [done|lia]|done|]. intros j' [Hj' Hr'].
      destruct (decide (0 + Z.of_nat j' + 1 <= mid)); [apply H1|exfalso; apply (H2 j')]; (split; [done|lia]).
  - rewrite (proj2 (Z.eqb_neq _ _)) by lia. right. exists j. split_and!; [split; [done|lia]|done|]. intros j' [Hj' Hr'].
    destruct (decide (j' <= j)%nat); [done|]. apply H2. split; [done|lia].
Qed.

Lemma newest_empty plog lo hi x : hi < lo -> newest plog lo hi x 0.
Proof. intros H. left. split; [done|]. intros j [_ ?]. lia. Qed.

Lemma newest_snoc plog hi lo x y :
  1 <= lo <= hi -> plog !! Z.to_nat (hi - 1) = Some y -> newest plog lo hi x (if x =? y then hi else 0) \/
  x <> y /\ forall r, newest plog lo (hi - 1) x r -> newest plog lo hi x r.
Proof.
  intros Hlo Hy. destruct (Z.eqb_spec x y) as [->|Hne]; [left|right; split; [done|]].
  - right. exists (Z.to_nat (hi - 1)). split_and!; [split; [done|lia]|lia|]. intros j [_ ?]. lia.
  - intros r Hr. pose proof (newest_join plog lo (hi - 1) hi x r 0 ltac:(lia) ltac:(lia) Hr) as HJ. apply HJ. clear HJ.
    left. split; [done|]. intros j [Hj ?]. replace j with (Z.to_nat (hi - 1)) in Hj by lia. congruence.
Qed.

(** ** Segments *)

Lemma zero_of_succ b : 0 <= b -> zero_of (b + 1) = zero_of b + (HASHTABLE_NPAGE - off_of b).
Proof. intros Hb. layout; lia. Qed.

Section Index.
Context (plog : list Z) (iLast : Z) (Hlast : 0 < iLast <= len plog).
Context (Hpgno : Forall (fun x => 0 < x < 0xFFFFFFFF) plog).

(** The first frame after the pages of the index before [b], and the number of frames on it. *)
Definition edge (b : Z) : Z := Z.min iLast (zero_of b).
Definition entry (b j : Z) : Z := default 0 (plog !! Z.to_nat (zero_of b + j)).

Lemma edge_page b : 0 <= b <= walFramePage iLast ->
  edge b = zero_of b /\ zero_of b < edge (b + 1) <= zero_of b + (HASHTABLE_NPAGE - off_of b) /\ edge (b + 1) <= iLast.
Proof.
  intros Hb. unfold edge. rewrite zero_of_succ by lia. destruct (walFramePage_bounds iLast) as [_ Hz]; [lia|].
  pose proof (off_of_range b).
  assert (zero_of b <= zero_of (walFramePage iLast)) by (revert Hb; layout; lia). lia.
Qed.

Lemma edge_last : edge (walFramePage iLast + 1) = iLast.
Proof. unfold edge. destruct (walFramePage_bounds iLast) as [Hb Hz]; [lia|]. rewrite zero_of_succ by lia. lia. Qed.

(** What a page of the index holds. *)
Lemma page_entry s share b p pg j :
  inv s share plog -> share !! b = Some p -> pages s !! p = Some pg -> 0 <= b <= walFramePage iLast -> 0 <= j < edge (b + 1) - zero_of b ->
  mem_get (words pg) (off_of b + j) = Some (entry b j) /\ plog !! Z.to_nat (zero_of b + j) = Some (entry b j).
Proof.
  intros HI Hsh Hpg Hb Hj. destruct (edge_page b Hb) as (_ & He & Hl). pose proof (zero_of_nonneg b ltac:(lia)).
  destruct (lookup_lt_is_Some_2 plog (Z.to_nat (zero_of b + j))) as [x Hx]; [lia|]. unfold entry. rewrite Hx. cbn. split; [|done].
  destruct (ix_block _ _ _ (inv_index _ _ _ HI) b) as (q & pg' & Hq & Hpg' & HB); [lia..|]. assert (q = p) as -> by congruence.
  assert (pg' = pg) as -> by congruence. replace j with (Z.of_nat (Z.to_nat j)) by lia.
  apply (block_get_entry _ _ _ _ _ HB). unfold block. rewrite lookup_take_lt, lookup_drop by lia. rewrite <- Hx. f_equal. lia.
Qed.

Lemma run_ext (key key' : Z -> Z) lo hi l : (forall x, lo <= x < hi -> key x = key' x) -> run key lo hi l -> run key' lo hi l.
Proof.
  intros He HR. assert (Hin : forall x, x ∈ l -> lo <= x < hi) by (intros x Hx; by apply (run_elem _ _ _ _ HR)). split.
  - destruct HR as [Hs _]. clear -He Hs Hin. induction l as [|a l IH]; [constructor|]. apply ascending_cons in Hs as [Hs Ha].
    apply ascending_cons. split; [apply IH; [done|]; intros x Hx; apply Hin; by right|].
    intros x Hx. rewrite <- !He; [by apply Ha|apply Hin; by right|apply Hin; by left].
  - intros x. rewrite (run_elem _ _ _ _ HR). split; intros [Hx Hy]; (split; [done|]); intros y Hy'; [rewrite <- !He by lia|rewrite !He by lia]; by apply Hy.
Qed.

(** An element of the run of a page is the last frame of its page there, and every page there
    has one. *)
Lemma run_newest b l : 0 <= b <= walFramePage iLast -> run (entry b) 0 (edge (b + 1) - zero_of b) l ->
  (forall j, j ∈ l -> newest plog (edge b + 1) (edge (b + 1)) (entry b j) (zero_of b + j + 1)) /\
  (forall x, (forall j, j ∈ l -> entry b j <> x) -> newest plog (edge b + 1) (edge (b + 1)) x 0).
Proof.
  intros Hb HR. destruct (edge_page b Hb) as (-> & He & Hl). pose proof (zero_of_nonneg b ltac:(lia)).
  assert (Hget : forall i : nat, zero_of b + 1 <= 0 + Z.of_nat i + 1 <= edge (b + 1) -> forall x, plog !! i = Some x -> entry b (Z.of_nat i - zero_of b) = x).
  { intros i Hi x Hx. unfold entry. replace (Z.to_nat _) with i by lia. by rewrite Hx. } split.
  - intros j [Hj Hno]%(run_elem _ _ _ _ HR). right. exists (Z.to_nat (zero_of b + j)). split_and!; [|lia|].
    + split; [|lia]. unfold entry. destruct (lookup_lt_is_Some_2 plog (Z.to_nat (zero_of b + j))) as [x Hx]; [lia|]. by rewrite Hx.
    + intros i [Hi Hr]. destruct (decide (i <= Z.to_nat (zero_of b + j))%nat); [done|]. exfalso.
      apply (Hno (Z.of_nat i - zero_of b)); [lia|]. by apply Hget.
  - intros x Hx. left. split; [done|]. intros i [Hi Hr].
    destruct (run_last _ _ _ _ (Z.of_nat i - zero_of b) HR) as (z & Hz & Ez & _); [lia|]. apply (Hx z Hz). rewrite Ez. by apply Hget.
Qed.

(** A segment for page [b] of the index that has passed the entries up to page number [k]. *)
Record seg_ok (share : gmap Z Z) (b k : Z) (g : WalSegment) : Prop := {
  sg_page : exists p, share !! b = Some p /\ aPgno g = (p, off_of b);
  sg_zero : seg_iZero g = zero_of b + 1;
  sg_run : exists l (i : nat), run (entry b) 0 (edge (b + 1) - zero_of b) l /\ slice (aIndex g) 0 l /\ nEntry g = len l /\
    iNext g = Z.of_nat i /\ (i <= length l)%nat /\ forall j x, (j < i)%nat -> l !! j = Some x -> entry b x <= k
}.

(** The first entry above [k] on page [b], with its last frame there. *)
Definition first_above (lo hi k : Z) (r : option (Z * Z)) : Prop :=
  match r with
  | None => forall x, k < x -> newest plog lo hi x 0
  | Some (x, f) => k < x /\ f <> 0 /\ newest plog lo hi x f /\ forall y, k < y < x -> newest plog lo hi y 0
  end.

Lemma scan_segment_spec fuel : forall s share b k g,
  inv s share plog -> 0 <= b <= walFramePage iLast -> seg_ok share b k g -> nEntry g - iNext g <= Z.of_nat fuel ->
  exists g' r, scan_segment fuel s k g = Some (g', r) /\ seg_ok share b k g' /\ first_above (edge b + 1) (edge (b + 1)) k r.
Proof.
  induction fuel as [|fuel IH]; intros s share b k g HI Hb HG Hfuel; cbn [scan_segment];
    pose proof HG as [(p & Hp & Ep) Hz (l & i & HR & HS & Hn & Hi & Hil & Hpast)].
  all: destruct (Z.ltb_spec (iNext g) (nEntry g)) as [Hlt|Hge]; cbn [negb].
  1: lia.
  1,3: exists g, None; split_and!; [done..|]; intros x Hx; apply (proj2 (run_newest b l Hb HR));
    intros j (m & Hm)%list_elem_of_lookup <-; pose proof (lookup_lt_Some _ _ _ Hm);
    pose proof (Hpast m j ltac:(lia) Hm); lia.
  destruct (ix_size _ _ _ (inv_index _ _ _ HI) b p Hp) as (pg & Hpg & _). rewrite Ep. cbn -[mem_get scan_segment]. rewrite Hpg. cbn -[mem_get scan_segment].
  destruct (lookup_lt_is_Some_2 l i) as [j Hj]; [lia|]. pose proof (slice_get _ _ _ i HS) as Hget. rewrite Z.add_0_l in Hget.
  rewrite Hi, Hget, Hj by lia. cbn -[mem_get scan_segment].
  assert (Hjl : j ∈ l) by (apply list_elem_of_lookup; by exists i). pose proof (proj1 (run_elem _ _ _ _ HR j) Hjl) as [Hjr _].
  destruct (page_entry s share b p pg j) as [Hw _]; try done. rewrite Hw. cbn -[scan_segment].
  destruct (Z.ltb_spec k (entry b j)) as [Hk|Hk].
  - eexists g, _. split; [done|]. split; [done|]. destruct (edge_page b Hb) as (Ee & He & Hl). pose proof (zero_of_nonneg b ltac:(lia)).
    assert (Hmax : len plog < 2 ^ 31) by apply HI. rewrite Hz, u32_small by lia.
    replace (zero_of b + 1 + j) with (zero_of b + j + 1) by lia. split_and!; [done|lia|by apply (run_newest b l Hb HR)|].
    intros y Hy. apply (proj2 (run_newest b l Hb HR)). intros j' (m & Hm)%list_elem_of_lookup <-.
    destruct (decide (m < i)%nat) as [Hlt'|]; [pose proof (Hpast m j' Hlt' Hm); lia|].
    destruct (decide (m = i)) as [->|]; [replace j' with j in Hy by congruence; lia|].
    assert (Hasc : entry b j < entry b j').
    { destruct HR as [Hs _]. rewrite <- (take_drop_middle l i j Hj) in Hs. apply ascending_app in Hs as (_ & Hs & _).
      apply ascending_cons in Hs as [_ Hs]. apply Hs, list_elem_of_lookup. exists (m - S i)%nat. rewrite lookup_drop. rewrite <- Hm. f_equal. lia. }
    lia.
  - apply IH; try done; [|simpl; lia]. split; [by exists p|done|]. exists l, (S i). split_and!; try done; [simpl; lia|lia|].
    intros j' x Hj' Hx. destruct (decide (j' = i)) as [->|]; [replace x with j by congruence; done|]. apply (Hpast j'); [lia|done].
Qed.

(** The segments of the pages [b] .. [fin - 1] of the index. *)
Fixpoint segs_ok (share : gmap Z Z) (b k : Z) (l : list WalSegment) (fin : Z) : Prop :=
  match l with
  | [] => b = fin
  | g :: l => 0 <= b <= walFramePage iLast /\ seg_ok share b k g /\ segs_ok share (b + 1) k l fin
  end.

Lemma seg_ok_weaken share b k k' g : seg_ok share b k g -> k <= k' -> seg_ok share b k' g.
Proof.
  intros [H1 H2 (l & i & H3 & H4 & H5 & H6 & H7 & H8)] Hk. split; [done|done|]. exists l, i. split_and!; try done.
  intros j x Hj Hx. specialize (H8 j x Hj Hx). lia.
Qed.

Lemma segs_ok_weaken share b k k' l fin : segs_ok share b k l fin -> k <= k' -> segs_ok share b k' l fin.
Proof. revert b. induction l as [|g l IH]; intros b; cbn [segs_ok]; [done|]. intros (H1 & H2 & H3) Hk. split_and!; eauto using seg_ok_weaken; lia. Qed.

(** What the iterator returns: the least page above [k] among the frames [lo] .. [iLast]. *)
Definition next_is (lo k x f : Z) : Prop :=
  (x = 0xFFFFFFFF /\ first_above lo iLast k None) \/ (x < 0xFFFFFFFF /\ first_above lo iLast k (Some (x, f))).

Lemma newest_pgno lo hi x r : newest plog lo hi x r -> r <> 0 -> x < 0xFFFFFFFF.
Proof. intros H Hr. destruct (newest_range _ _ _ _ _ H Hr) as (_ & Hx & _). apply (proj1 (Forall_lookup _ _) Hpgno) in Hx. simpl in Hx. lia. Qed.

(** A page and the pages after it. *)
Lemma next_join b k r x f :
  0 <= b <= walFramePage iLast -> first_above (edge b + 1) (edge (b + 1)) k r -> next_is (edge (b + 1) + 1) k x f ->
  match r with
  | Some (y, f') => if y <? x then next_is (edge b + 1) k y f' else next_is (edge b + 1) k x f
  | None => next_is (edge b + 1) k x f
  end.
Proof.
  intros Hb Hr Hx. destruct (edge_page b Hb) as (Ee & He & Hl). pose proof (zero_of_nonneg b ltac:(lia)).
  assert (HJ : forall z r1 r2, newest plog (edge b + 1) (edge (b + 1)) z r1 -> newest plog (edge (b + 1) + 1) iLast z r2 ->
    newest plog (edge b + 1) iLast z (if r2 =? 0 then r1 else r2)) by (intros; by apply (newest_join _ _ (edge (b + 1))); [lia..| |]).
  assert (Hgt : forall z, k < z -> z < x -> newest plog (edge (b + 1) + 1) iLast z 0).
  { intros z Hz Hzx. destruct Hx as [[_ Hx]|[_ (_ & _ & _ & Hx)]]; [by apply Hx|apply Hx; lia]. }
  assert (Hkeep : (forall z, k < z -> z < x -> newest plog (edge b + 1) (edge (b + 1)) z 0) ->
    (x = 0xFFFFFFFF -> forall z, k < z -> newest plog (edge b + 1) (edge (b + 1)) z 0) -> next_is (edge b + 1) k x f).
  { intros Hlow Hall. destruct Hx as [[-> Hx]|[Hx (H1 & H2 & H3 & H4)]]; [left|right]; (split; [done|]).
    - intros z Hz. apply (HJ z 0 0); [by apply Hall|by apply Hx].
    - split_and!; [done|done| |intros y Hy; apply (HJ y 0 0); [apply Hlow; lia|apply H4; lia]].
      assert (Hex : exists r1, newest plog (edge b + 1) (edge (b + 1)) x r1).
      { exists (last_frame plog (edge b + 1) x (Z.to_nat (edge (b + 1)))). pose proof (last_frame_latest plog (edge b + 1) x (Z.to_nat (edge (b + 1)))) as Hnew.
        rewrite Z2Nat.id in Hnew by lia. done. }
      destruct Hex as [r1 Hr1]. pose proof (HJ x r1 f Hr1 H3) as Hnew. by rewrite (proj2 (Z.eqb_neq _ _)) in Hnew. }
  destruct r as [[y f']|]; [|by apply Hkeep; auto]. destruct Hr as (R1 & R2 & R3 & R4). destruct (Z.ltb_spec y x) as [Hyx|Hyx].
  - right. split; [by eapply newest_pgno|]. split_and!; [done|done|by apply (HJ y f' 0); [|apply Hgt]|].
    intros z Hz. apply (HJ z 0 0); [by apply R4|apply Hgt; lia].
  - apply Hkeep; [intros z Hz Hzx; apply R4; lia|]. intros ->. pose proof (newest_pgno _ _ _ _ R3 R2). lia.
Qed.

Lemma scan_segments_spec s share k iFrame : inv s share plog -> forall l b, segs_ok share b k l (walFramePage iLast + 1) ->
  exists l' x f, scan_segments s k l iFrame = Some (l', x, f) /\ segs_ok share b k l' (walFramePage iLast + 1) /\ next_is (edge b + 1) k x f.
Proof.
  intros HI. induction l as [|g l IH]; intros b; cbn [segs_ok scan_segments].
  - intros ->. exists [], 0xFFFFFFFF, iFrame. split_and!; [done..|]. left. split; [done|]. intros x _. apply newest_empty. rewrite edge_last. lia.
  - intros (Hb & Hg & Hl). destruct (IH (b + 1) Hl) as (l' & x & f & -> & Hl' & Hn). cbn -[scan_segment].
    destruct (scan_segment_spec (Z.to_nat (nEntry g - iNext g)) s share b k g HI Hb Hg) as (g' & r & -> & Hg' & Hr); [lia|].
    pose proof (next_join b k r x f Hb Hr Hn) as HJ. revert HJ. cbn. destruct r as [[y f']|]; [destruct (y <? x)|].
    all: intros HJ; eexists _, _, _; split; [done|]; split; [cbn [segs_ok]; tauto|done].
Qed.

Lemma seg_ok_share share share' b k g : seg_ok share b k g -> share ⊆ share' -> seg_ok share' b k g.
Proof. intros [(p & Hp & Ep) H2 H3] Hs. split; [|done|done]. exists p. split; [by eapply lookup_weaken|done]. Qed.

Lemma segs_ok_share share share' k l fin : forall b, segs_ok share b k l fin -> share ⊆ share' -> segs_ok share' b k l fin.
Proof. induction l as [|g l IH]; intros b; cbn [segs_ok]; [done|]. intros (H1 & H2 & H3) Hs. split; [done|]. split; eauto using seg_ok_share. Qed.

Lemma segs_ok_snoc share k l g fin : forall b, segs_ok share b k l fin -> 0 <= fin <= walFramePage iLast -> seg_ok share fin k g ->
  segs_ok share b k (l ++ [g]) (fin + 1).
Proof.
  induction l as [|h l IH]; intros b; cbn [segs_ok app]; [intros -> ? ?; done|]. intros (H1 & H2 & H3) Hf Hg. split; [done|]. split; [done|]. by apply IH.
Qed.

(** ** The map *)

Record map_ok (m : list Z) (nPg lo hi : Z) : Prop := {
  mp_len : len m = nPg + 1;
  mp_get : forall x, 0 < x <= nPg -> exists r, mem_get m x = Some r /\ newest plog lo hi x r
}.

Lemma mem_put_spec (m : list Z) i v : 0 <= i < len m -> exists m', mem_put m i v = Some m' /\ length m' = length m /\
  forall j, mem_get m' j = if j =? i then Some v else mem_get m j.
Proof.
  intros Hi. unfold mem_put. rewrite (proj2 (Z.leb_le _ _)), (proj2 (Z.ltb_lt _ _)) by lia. cbn [andb].
  exists (<[Z.to_nat i := v]> m). split_and!; [done|apply length_insert|]. intros j. unfold mem_get.
  destruct (Z.leb_spec 0 j); [|by rewrite (proj2 (Z.eqb_neq _ _)) by lia].
  destruct (Z.eqb_spec j i) as [->|]; [by rewrite list_lookup_insert_eq by lia|by rewrite list_lookup_insert_ne by lia].
Qed.

Lemma pagemap_fill_spec nPg lo l : forall z m,
  map_ok m nPg lo z -> 0 <= nPg -> 1 <= lo <= z + 1 -> (forall j x, l !! j = Some x -> plog !! (Z.to_nat z + j)%nat = Some x) ->
  z + len l < 2 ^ 32 -> exists m', pagemap_fill l z nPg m = Some m' /\ map_ok m' nPg lo (z + len l).
Proof.
  induction l as [|y l IH]; intros z m [M1 M2] Hn Hlo Hl Hmax; cbn [pagemap_fill length]; [exists m; rewrite Z.add_0_r; by split|].
  cbn [length] in Hmax. assert (Hy : plog !! Z.to_nat z = Some y) by (rewrite <- (Nat.add_0_r (Z.to_nat z)); by apply Hl).
  pose proof (proj1 (Forall_lookup _ _) Hpgno _ _ Hy) as Hy0. cbn beta in Hy0.
  assert (Hstep : exists m1, (if y <=? nPg then mem_put m y (u32 (z + 1)) else Some m) = Some m1 /\ map_ok m1 nPg lo (z + 1)).
  { assert (Hnext : forall x r, x <> y -> newest plog lo z x r -> newest plog lo (z + 1) x r).
    { intros x r Hxy Hr. replace (z + 1 - 1) with z in * by lia.
      destruct (newest_snoc plog (z + 1) lo x y) as [H|[_ H]]; [lia|by replace (z + 1 - 1) with z by lia| |apply H; by replace (z + 1 - 1) with z by lia].
      rewrite (proj2 (Z.eqb_neq _ _) Hxy) in H. destruct Hr as [[-> _]|(j & [Hj Hjr] & -> & _)]; [done|].
      destruct H as [[_ H]|(j' & [Hj' _] & ? & _)]; [|lia]. exfalso. apply (H j). split; [done|lia]. }
    assert (Hsame : newest plog lo (z + 1) y (z + 1)).
    { right. exists (Z.to_nat z). split_and!; [split; [done|lia]|lia|]. intros j [_ ?]. lia. }
    destruct (Z.leb_spec y nPg) as [Hle|Hgt].
    - destruct (mem_put_spec m y (u32 (z + 1))) as (m1 & -> & Hl1 & Hg1); [lia|]. exists m1. split; [done|]. split; [lia|].
      intros x Hx. rewrite Hg1. destruct (Z.eqb_spec x y) as [->|Hxy]; [exists (u32 (z + 1)); rewrite u32_small by lia; by split|].
      destruct (M2 x Hx) as (r & Er & Hr). exists r. split; [done|by apply Hnext].
    - exists m. split; [done|]. split; [done|]. intros x Hx. destruct (M2 x Hx) as (r & Er & Hr). exists r. split; [done|]. apply Hnext; [lia|done]. }
  destruct Hstep as (m1 & -> & HM1). cbn -[pagemap_fill]. destruct (IH (z + 1) m1) as (m' & E & HM'); [done|done|lia| |lia|].
  - intros j x Hj. replace (Z.to_nat (z + 1) + j)%nat with (Z.to_nat z + S j)%nat by lia. by apply Hl.
  - exists m'. split; [done|]. by replace (z + Z.of_nat (S (length l))) with (z + 1 + len l) by lia.
Qed.

Lemma next_mapped_spec fuel : forall m nPg lo k,
  map_ok m nPg lo iLast -> 0 <= k -> nPg - k <= Z.of_nat fuel ->
  exists r, next_mapped fuel m nPg k = Some r /\
    match r with
    | None => forall x, k < x <= nPg -> newest plog lo iLast x 0
    | Some (x, f) => x <= nPg /\ first_above lo iLast k (Some (x, f))
    end.
Proof.
  induction fuel as [|fuel IH]; intros m nPg lo k [M1 M2] Hk Hfuel; cbn [next_mapped];
    (destruct (Z.ltb_spec k nPg) as [Hlt|Hge]; cbn [negb]; [|exists None; split; [done|]; intros x Hx; lia]); [lia|].
  destruct (M2 (k + 1)) as (f & -> & Hf); [lia|]. cbn -[next_mapped]. destruct (Z.eqb_spec f 0) as [->|Hf0]; cbn [negb].
  - destruct (IH m nPg lo (k + 1)) as (r & -> & Hr); [done|lia|lia|]. exists r. split; [done|]. destruct r as [[x g]|].
    + destruct Hr as (H1 & H2 & H3 & H4 & H5). split; [done|]. split_and!; [lia|done|done|]. intros y Hy.
      destruct (decide (y = k + 1)) as [->|]; [done|]. apply H5. lia.
    + intros x Hx. destruct (decide (x = k + 1)) as [->|]; [done|]. apply Hr. lia.
  - eexists. split; [done|]. cbn. split; [lia|]. split_and!; [lia|done|done|]. intros y Hy. lia.
Qed.

(** ** The iterator *)

(** The iterator covers the pages from [b] on of the index. *)
Record iter_ok (share : gmap Z Z) (b : Z) (p : WalIterator) : Prop := {
  it_prior : 0 <= iPrior p < 0xFFFFFFFF;
  it_map : 0 <= nPagemap p < 0xFFFFFFFF;
  it_data : if nPagemap p =? 0 then segs_ok share b (iPrior p) (aSegment p) (walFramePage iLast + 1)
            else map_ok (aPagemap p) (nPagemap p) (edge b + 1) iLast
}.

(** The pages that the iterator returns. *)
Definition visible (p : WalIterator) (x : Z) : Prop := nPagemap p = 0 \/ x <= nPagemap p.

Lemma iterator_next_spec s share b p iFrame :
  inv s share plog -> iter_ok share b p ->
  exists p' ret x f, walIteratorNext s p iFrame = Some (p', ret, x, f) /\ nPagemap p' = nPagemap p /\ iPrior p' = x /\
    ((ret = 1 /\ forall y, iPrior p < y -> visible p y -> newest plog (edge b + 1) iLast y 0) \/
     (ret = 0 /\ iter_ok share b p' /\ visible p x /\ first_above (edge b + 1) iLast (iPrior p) (Some (x, f)))).
Proof.
  intros HI [Hk Hm HD]. unfold walIteratorNext. destruct (Z.eqb_spec (nPagemap p) 0) as [E0|E0]; cbn [negb].
  - rewrite (proj2 (Z.ltb_lt _ _)) by lia. cbn [negb].
    destruct (scan_segments_spec s share (iPrior p) iFrame HI (aSegment p) b HD) as (l' & x & f & -> & Hl' & Hn).
    cbn. eexists _, _, x, f. split; [done|]. split_and!; [done|done|]. destruct Hn as [[-> Hn]|[Hx Hn]].
    + left. split; [done|]. intros y Hy _. by apply Hn.
    + right. rewrite (proj2 (Z.eqb_neq _ _)) by lia. split; [done|]. pose proof Hn as (H1 & _). split; [|split; [by left|done]].
      split; simpl; [lia|lia|]. rewrite E0. cbn. eapply segs_ok_weaken; [done|lia].
  - destruct (next_mapped_spec (Z.to_nat (nPagemap p - iPrior p)) (aPagemap p) (nPagemap p) (edge b + 1) (iPrior p)) as (r & -> & Hr); [done|lia|lia|].
    cbn. destruct r as [[x f]|]; eexists _, _, _, _; (split; [done|]); split_and!; try done.
    + destruct Hr as (Hx & Hr). pose proof Hr as (H1 & _). right. rewrite (proj2 (Z.eqb_neq _ _)) by lia. split; [done|]. split; [|split; [by right|done]].
      split; simpl; [lia|lia|]. by rewrite (proj2 (Z.eqb_neq _ _) E0).
    + left. split; [done|]. intros y Hy [?|Hv]; [done|]. apply Hr. lia.
Qed.

(** ** The construction *)

Lemma content_entry s share b p pg j :
  inv s share plog -> share !! b = Some p -> pages s !! p = Some pg -> 0 <= b <= walFramePage iLast -> 0 <= j < edge (b + 1) - zero_of b ->
  content_key (drop (Z.to_nat (off_of b)) (words pg)) j = entry b j.
Proof.
  intros HI Hsh Hpg Hb Hj. destruct (page_entry s share b p pg j HI Hsh Hpg Hb Hj) as [Hw _]. pose proof (off_of_range b).
  unfold content_key, mem_get in *. rewrite (proj2 (Z.leb_le _ _)) in Hw by lia. rewrite (proj2 (Z.leb_le _ _)) by lia.
  rewrite lookup_drop, <- Z2Nat.inj_add, Hw by lia. done.
Qed.

Lemma init_segment_spec s share b p pg :
  inv s share plog -> share !! b = Some p -> pages s !! p = Some pg -> 0 <= b <= walFramePage iLast ->
  forall base, base <= zero_of b -> exists g,
    init_segment (Loc p (off_of b) (zero_of b)) pg (Z.min iLast HASHTABLE_NPAGE) base (iLast - base) (edge (b + 1) - zero_of b) = Some g /\
    seg_ok share b 0 g.
Proof.
  intros HI Hsh Hpg Hb base Hbase. destruct (edge_page b Hb) as (Ee & He & Hl). pose proof (off_of_range b). pose proof (zero_of_nonneg b ltac:(lia)).
  destruct (ix_size _ _ _ (inv_index _ _ _ HI) b p Hsh) as (pg' & Hpg' & Hsz & _). assert (pg' = pg) as -> by congruence.
  unfold init_segment. cbn [iZero loc_off loc_page]. rewrite (proj2 (Z.ltb_ge _ _)) by lia.
  destruct (walMergesort_spec (drop (Z.to_nat (off_of b)) (words pg)) (Z.min iLast HASHTABLE_NPAGE) (edge (b + 1) - zero_of b))
    as (a & l & -> & HR & HS & _); [lia|rewrite length_drop; lia|lia|]. cbn.
  eexists. split; [done|]. split; [by exists p|done|]. exists l, 0%nat. split_and!; try done; [|lia|intros; lia].
  eapply run_ext; [|done]. intros x Hx. simpl. by eapply content_entry.
Qed.

(** What has been built when the pages before [i] have been read. *)
Definition built (alg2 : bool) (share : gmap Z Z) (b i nPg : Z) (p : WalIterator) : Prop :=
  iPrior p = 0 /\
  if alg2 then nPagemap p = nPg /\ map_ok (aPagemap p) nPg (edge b + 1) (edge i)
  else nPagemap p = 0 /\ segs_ok share b 0 (aSegment p) i.

Lemma init_page_spec alg2 s share b i nPg p q pg :
  inv s share plog -> share !! i = Some q -> pages s !! q = Some pg -> 0 <= b <= i -> i <= walFramePage iLast -> 0 <= nPg ->
  built alg2 share b i nPg p ->
  exists p', (if alg2 then
       let? l := mem_read (words pg) (off_of i) (edge (i + 1) - zero_of i) in
       let? m := pagemap_fill l (zero_of i) (nPagemap p) (aPagemap p) in Some (set_aPagemap m p)
     else
       let? g := init_segment (Loc q (off_of i) (zero_of i)) pg (Z.min iLast HASHTABLE_NPAGE) (zero_of b) (iLast - zero_of b) (edge (i + 1) - zero_of i) in
       Some (set_aSegment (aSegment p ++ [g]) p)) = Some p' /\ built alg2 share b (i + 1) nPg p'.
Proof.
  intros HI Hq Hpg Hb Hi Hn [Hp HB]. assert (Hi' : 0 <= i <= walFramePage iLast) by lia.
  destruct (edge_page i Hi') as (Ee & He & Hl). pose proof (off_of_range i). pose proof (zero_of_nonneg i ltac:(lia)).
  destruct alg2.
  - destruct HB as [Hnp HM]. destruct (ix_size _ _ _ (inv_index _ _ _ HI) i q Hq) as (pg' & Hpg' & Hsz & _). assert (pg' = pg) as -> by congruence.
    rewrite mem_read_total by lia. cbn -[pagemap_fill]. rewrite Hnp, <- Ee.
    set (l := take _ _). assert (Hll : len l = edge (i + 1) - zero_of i) by (unfold l; rewrite length_take, length_drop; lia).
    assert (Hmax : len plog < 2 ^ 31) by apply HI.
    destruct (pagemap_fill_spec nPg (edge b + 1) l (edge i) (aPagemap p)) as (m' & -> & HM'); [done|done| | |lia|].
    { destruct (edge_page b ltac:(lia)) as (Eb & _). rewrite Eb, Ee. pose proof (zero_of_nonneg b ltac:(lia)).
      assert (zero_of b <= zero_of i) by (revert Hb; layout; lia). lia. }
    { intros j x Hj. pose proof (lookup_lt_Some _ _ _ Hj) as Hlt. unfold l in Hj. rewrite lookup_take_lt, lookup_drop in Hj by lia.
      destruct (page_entry s share i q pg (Z.of_nat j) HI Hq Hpg Hi') as [Hw Hp']; [lia|].
      rewrite mem_get_lt in Hw by lia. replace (Z.to_nat (off_of i + Z.of_nat j)) with (Z.to_nat (off_of i) + j)%nat in Hw by lia.
      rewrite Hw in Hj. injection Hj as <-. rewrite <- Hp'. f_equal. lia. }
    eexists. split; [done|]. split; [done|]. split; [done|]. simpl. replace (edge (i + 1)) with (edge i + len l) by lia. done.
  - destruct HB as [Hnp HS]. destruct (init_segment_spec s share i q pg HI Hq Hpg Hi' (zero_of b)) as (g & -> & Hg).
    { revert Hb. layout; lia. }
    cbn. eexists. split; [done|]. split; [done|]. split; [done|]. simpl. by apply segs_ok_snoc.
Qed.

Lemma page_count i : 0 <= i <= walFramePage iLast -> len plog < 2 ^ 31 ->
  (if i =? walFramePage iLast then i32 (u32 (iLast - zero_of i)) else HASHTABLE_NPAGE - off_of i) = edge (i + 1) - zero_of i.
Proof.
  intros Hi Hmax. destruct (edge_page i Hi) as (Ee & He & Hl). pose proof (zero_of_nonneg i ltac:(lia)).
  destruct (Z.eqb_spec i (walFramePage iLast)) as [->|Hne].
  - rewrite edge_last in *. rewrite u32_small by lia. by rewrite i32_small by lia.
  - destruct (edge_page (i + 1)) as (E1 & _); [lia|]. rewrite E1, zero_of_succ by lia. lia.
Qed.

Lemma built_share alg2 share share' b i nPg p : built alg2 share b i nPg p -> share ⊆ share' -> built alg2 share' b i nPg p.
Proof. intros [H1 H2] Hs. split; [done|]. destruct alg2; [done|]. destruct H2 as [? ?]. split; [done|]. by eapply segs_ok_share. Qed.

Lemma init_pages_spec fuel : forall e alg2 b i nPg p s share,
  inv s share plog -> env_ok e s share -> 0 <= b <= i -> i <= walFramePage iLast + 1 -> 0 <= nPg ->
  walFramePage iLast + 1 - i <= Z.of_nat fuel -> built alg2 share b i nPg p ->
  exists s' rc p' share', init_pages fuel e alg2 iLast (walFramePage iLast) (zero_of b) i p s = Some (s', rc, p') /\
    grows e s s' share share' plog /\
    (rc = SQLITE_OK -> built alg2 share' b (walFramePage iLast + 1) nPg p' /\
       forall c, i <= c <= walFramePage iLast -> exists q, mapped (wal s') c q).
Proof.
  induction fuel as [|fuel IH]; intros e alg2 b i nPg p s share HI HE Hb Hi Hn Hfuel HB; cbn [init_pages].
  all: destruct (Z.ltb_spec (walFramePage iLast) i) as [Hend|Hgo].
  1,3: exists s, SQLITE_OK, p, share; split_and!; [done|by apply grows_refl|]; intros _; assert (i = walFramePage iLast + 1) as -> by lia;
    split; [done|intros c Hc; lia].
  { lia. }
  assert (Hmax : len plog < 2 ^ 31) by apply HI. destruct (edge_page i ltac:(lia)) as (Ee & He & Hl).
  destruct (walHashGet_spec e i s share plog HI HE) as (s1 & rc1 & loc & share1 & -> & HG & Hok & _); [lia|lia|].
  cbn -[init_pages init_segment pagemap_fill mem_read]. destruct (Z.eqb_spec rc1 SQLITE_OK) as [Hrc|Hrc]; cbn [negb].
  2:{ exists s1, rc1, p, share1. by split_and!. }
  destruct (Hok Hrc) as (q & -> & Hq & Hmq). cbn -[init_pages init_segment pagemap_fill mem_read].
  destruct (ix_size _ _ _ (inv_index _ _ _ (gr_inv _ _ _ _ _ _ HG)) i q Hq) as (pg & Hpg & _). rewrite Hpg.
  cbn -[init_pages init_segment pagemap_fill mem_read]. rewrite page_count by (done || lia).
  destruct (init_page_spec alg2 s1 share1 b i nPg p q pg) as (p1 & -> & HB1); try done; [apply HG|eapply built_share; [done|apply HG]|].
  cbn -[init_pages]. destruct (IH e alg2 b (i + 1) nPg p1 s1 share1) as (s' & rc & p' & share' & -> & HG' & HOK);
    [apply HG|apply HG|lia|lia|done|lia|done|].
  exists s', rc, p', share'. split_and!; [done|by eapply grows_trans|]. intros Hrc'. destruct (HOK Hrc') as [HB' HM]. split; [done|].
  intros c Hc. destruct (decide (c = i)) as [->|]; [exists q; by apply (gr_mapped _ _ _ _ _ _ HG')|apply HM; lia].
Qed.

Lemma iterator_init_spec e malloc nBackfill s share :
  inv s share plog -> env_ok e s share -> ckptLock (wal s) <> 0 -> mxFrame (hdr (wal s)) = iLast -> 0 <= nBackfill < iLast ->
  0 < nPage (hdr (wal s)) < 0xFFFFFFFF ->
  exists s' rc op share', walIteratorInit e malloc nBackfill s = Some (s', rc, op) /\ grows e s s' share share' plog /\
    (rc = SQLITE_OK -> exists p, op = Some p /\ iPrior p = 0 /\ iter_ok share' (walFramePage (nBackfill + 1)) p /\
       (nPagemap p <> 0 -> nPagemap p = nPage (hdr (wal s))) /\
       forall c, walFramePage (nBackfill + 1) <= c <= walFramePage iLast -> exists q, mapped (wal s') c q) /\
    (rc <> SQLITE_OK -> op = None).
Proof.
  intros HI HE Hck Hmx Hnb Hnp. unfold walIteratorInit. rewrite Hmx.
  rewrite (proj2 (Z.eqb_neq _ _) Hck), (proj2 (Z.ltb_lt 0 iLast)) by lia. cbn [negb orb].
  assert (Hmax : len plog < 2 ^ 31) by apply HI. rewrite (u32_small (nBackfill + 1)) by lia.
  set (b := walFramePage (nBackfill + 1)). assert (Hb : 0 <= b <= walFramePage iLast).
  { split; [apply walFramePage_bounds; lia|apply walFramePage_mono; lia]. }
  destruct (edge_page b Hb) as (Ee & He & Hl). pose proof (zero_of_nonneg b ltac:(lia)).
  replace (if b <>? 0 then u32 (HASHTABLE_NPAGE_ONE + (b - 1) * HASHTABLE_NPAGE) else 0) with (zero_of b).
  2:{ assert (Hz : 0 <= zero_of b < 2 ^ 32) by lia. unfold zero_of in *. destruct (b =? 0); cbn [negb]; [done|]. by rewrite u32_small. }
  set (alg2 := nPage (hdr (wal s)) * 4 <? _). destruct malloc; cbn [negb].
  2:{ exists s, SQLITE_NOMEM, None, share. split_and!; [done|by apply grows_refl|done|done]. }
  set (p0 := if alg2 then _ else _).
  destruct (init_pages_spec (Z.to_nat (walFramePage iLast - b + 1)) e alg2 b b (nPage (hdr (wal s))) p0 s share)
    as (s' & rc & p & share' & -> & HG & HOK); [done|done|lia|lia|lia|lia| |].
  { unfold p0, built. destruct alg2; [|done]. split; [done|]. split; [done|]. simpl. split; [rewrite length_replicate; lia|].
    intros x Hx. exists 0. split; [|apply newest_empty; lia]. rewrite mem_get_lt by (rewrite length_replicate; lia).
    apply lookup_replicate_2. lia. }
  clearbody p0. clearbody alg2. cbn. exists s', rc, (if rc =? SQLITE_OK then Some p else None), share'. split_and!; [done|done| |intros Hne; by rewrite (proj2 (Z.eqb_neq _ _) Hne)].
  intros ->. destruct (HOK eq_refl) as [[Hp HB] HM]. exists p. split_and!; [done|done| |destruct alg2; [by destruct HB|by destruct HB as [? _]]|done].
  destruct alg2; destruct HB as [Hnpm HB]; (split; [lia|lia|]).
  - rewrite Hnpm, (proj2 (Z.eqb_neq _ _)) by lia. by rewrite edge_last in HB.
  - rewrite Hnpm, Hp. done.
Qed.

(** ** The whole iteration *)

(** The pages above [k] in the log, counted with repetition. *)
Definition above (k : Z) : nat := length (filter (fun x => k < x) (take (Z.to_nat iLast) plog)).

Lemma above_step k x lo r : k < x -> newest plog lo iLast x r -> r <> 0 -> (above x < above k)%nat.
Proof.
  intros Hk Hn Hr. destruct (newest_range _ _ _ _ _ Hn Hr) as (Hr1 & Hx & Hr2). unfold above.
  set (l := take (Z.to_nat iLast) plog). assert (Hin : x ∈ l).
  { apply list_elem_of_lookup. exists (Z.to_nat (r - 1)). unfold l. by rewrite lookup_take_lt by lia. }
  clearbody l. clear -Hk Hin. induction l as [|y l IH]; [by apply not_elem_of_nil in Hin|]. rewrite !filter_cons.
  apply elem_of_cons in Hin as [<-|Hin].
  - rewrite decide_False, decide_True by lia. cbn [length].
    enough (length (filter (fun y : Z => (x < y)%Z) l) <= length (filter (fun y : Z => (k < y)%Z) l))%nat by lia.
    clear -Hk. induction l as [|y l IH]; [done|]. rewrite !filter_cons. repeat case_decide; cbn [length]; lia.
  - specialize (IH Hin). repeat case_decide; cbn [length]; lia.
Qed.

Lemma iterate_spec fuel : forall s share b p f,
  inv s share plog -> iter_ok share b p -> (above (iPrior p) < fuel)%nat ->
  exists l, iterate fuel s p f = Some l /\ StronglySorted Z.lt (fst <$> l) /\
    forall x f, (x, f) ∈ l <-> iPrior p < x /\ visible p x /\ f <> 0 /\ newest plog (edge b + 1) iLast x f.
Proof.
  induction fuel as [|fuel IH]; intros s share b p f HI HP Hfuel; [lia|]. cbn [iterate].
  destruct (iterator_next_spec s share b p f HI HP) as (p' & ret & x & f' & -> & Hnp & Hpr & [[-> Hend]|(-> & HP' & Hv & Hk & Hf & Hn & Hgap)]);
    cbn -[iterate].
  - exists []. split_and!; [done|constructor|]. intros y g. split; [by intros ?%not_elem_of_nil|]. intros (H1 & H2 & H3 & H4).
    exfalso. apply H3. eapply newest_unique; [done|by apply Hend].
  - destruct (IH s share b p' f' HI HP') as (l & -> & Hs & Hl); [rewrite Hpr; pose proof (above_step _ _ _ _ Hk Hn Hf); lia|].
    cbn. exists ((x, f') :: l). rewrite Hpr in Hl. split_and!; [done| |].
    + cbn. constructor; [done|]. apply list.Forall_forall. intros y ([y' g] & -> & (Hy & _)%Hl)%list_elem_of_fmap. done.
    + intros y g. rewrite elem_of_cons, Hl. unfold visible. rewrite Hnp. split.
      * intros [[= -> ->]|(H1 & H2 & H3 & H4)]; [done|]. split_and!; [lia|done..].
      * intros (H1 & H2 & H3 & H4). destruct (decide (y = x)) as [->|Hne].
        -- left. f_equal. by eapply newest_unique.
        -- right. split_and!; [|done..]. destruct (decide (x < y)); [done|]. exfalso. apply H3. eapply newest_unique; [done|apply Hgap; lia].
Qed.

End Index.

(** C17: The iterator of the checkpoint is built, or reports an error and leaves nothing to
    free, and the calls of [walIteratorNext] end. They return pages in ascending order, each
    at most once and each with its last frame in the log, and they return every page of the
    database that the log holds, whichever of the two algorithms [walIteratorInit] has chosen.
    Only frames from the start of an index page on are looked at, among them all frames after
    [nBackfill]. *)
Theorem iterator_exact e malloc nBackfill s share plog :
  inv s share plog -> env_ok e s share -> Forall (fun x => 0 < x < 0xFFFFFFFF) plog -> ckptLock (wal s) <> 0 ->
  0 <= nBackfill < mxFrame (hdr (wal s)) -> mxFrame (hdr (wal s)) <= len plog -> 0 < nPage (hdr (wal s)) < 0xFFFFFFFF ->
  exists s' rc op, walIteratorInit e malloc nBackfill s = Some (s', rc, op) /\ (rc <> SQLITE_OK -> op = None) /\
    (rc = SQLITE_OK -> exists p l lo, op = Some p /\ lo <= nBackfill + 1 /\
       iterate (S (Z.to_nat (mxFrame (hdr (wal s))))) s' p 0 = Some l /\ StronglySorted Z.lt (fst <$> l) /\
       (forall x f, (x, f) ∈ l -> f <> 0 /\ newest plog lo (mxFrame (hdr (wal s))) x f) /\
       (forall x f, x <= nPage (hdr (wal s)) -> f <> 0 -> newest plog lo (mxFrame (hdr (wal s))) x f -> (x, f) ∈ l)).
Proof.
  intros HI HE Hpg Hck Hnb Hmx Hnp. set (n := mxFrame (hdr (wal s))) in *. assert (Hlast : 0 < n <= len plog) by lia.
  destruct (iterator_init_spec plog n Hlast Hpg e malloc nBackfill s share) as (s' & rc & op & share' & E & HG & HOK & Herr); try done.
  exists s', rc, op. split_and!; [done..|]. intros Hrc. destruct (HOK Hrc) as (p & -> & Hpr & HP & Hmap & _).
  set (b := walFramePage (nBackfill + 1)) in *.
  destruct (iterate_spec plog n Hlast Hpg (S (Z.to_nat n)) s' share' b p 0) as (l & El & Hs & Hl); [apply HG|done| |].
  { unfold above. eapply Nat.le_lt_trans; [apply length_filter|]. rewrite length_take. lia. }
  exists p, l, (edge n b + 1). split_and!; [done| |done|done| |].
  - destruct (walFramePage_bounds (nBackfill + 1)) as [Hb Hz]; [lia|]. unfold edge. fold b in Hz. lia.
  - intros x f (_ & _ & Hf & Hn)%Hl. done.
  - intros x f Hx Hf Hn. apply Hl. rewrite Hpr. split_and!; [|destruct (decide (nPagemap p = 0)) as [|Hm]; [by left|right; by rewrite Hmap]|done..].
    destruct (newest_range _ _ _ _ _ Hn Hf) as (_ & Hxp & _). apply (proj1 (Forall_lookup _ _) Hpg) in Hxp. simpl in Hxp. lia.
Qed.

(** ** An index with two frames *)

Definition demo_hdr : WalIndexHdr := set_nPage 10 (set_mxFrame 2 zero_hdr).

Lemma demo_indexed : exists s, inv s {[ 0 := 1 ]} [7; 9] /\ env_ok demo_page_env s {[ 0 := 1 ]} /\ wal s = wal (demo_st demo_hdr).
Proof.
  assert (Hm : mapped (wal (demo_st demo_hdr)) 0 1) by done.
  destruct (walIndexAppend_spec demo_page_env (demo_st demo_hdr) {[ 0 := 1 ]} [] 0 7) as (s1 & rc1 & share1 & _ & HV1 & _ & Hm1);
    [apply demo_inv|apply demo_env_ok|done|lia|done|done|by left|]. destruct (Hm1 1 Hm) as (Hw1 & -> & ->). clear Hm1.
  destruct (walIndexAppend_spec demo_page_env s1 {[ 0 := 1 ]} [7] 1 9) as (s2 & rc2 & share2 & _ & HV2 & _ & Hm2);
    [apply HV1|apply HV1|by rewrite Hw1|lia|done|done|by left|]. rewrite Hw1 in Hm2. destruct (Hm2 1 Hm) as (Hw2 & -> & ->).
  exists s2. split_and!; [apply HV2|apply HV2|congruence].
Qed.

Lemma iterator_exact_witness :
  exists s s' rc op, walIteratorInit demo_page_env true 0 s = Some (s', rc, op) /\
    (rc = SQLITE_OK -> exists p l, op = Some p /\ iterate 3 s' p 0 = Some l /\ (9, 2) ∈ l).
Proof.
  destruct demo_indexed as (s & HI & HE & Hw). set (s0 := on_wal (set_ckptLock 1) s).
  destruct (iterator_exact demo_page_env true 0 s0 {[ 0 := 1 ]} [7; 9]) as (s' & rc & op & E & _ & HOK).
  - by apply inv_wal.
  - by apply env_wal.
  - by repeat constructor.
  - done.
  - cbn. rewrite Hw. done.
  - cbn. rewrite Hw. done.
  - cbn. rewrite Hw. done.
  - exists s0, s', rc, op. split; [exact E|]. intros Hrc. destruct (HOK Hrc) as (p & l & lo & -> & Hlo & El & _ & _ & Hall).
    exists p, l. cbn in El, Hall. rewrite Hw in El, Hall. split_and!; [done|exact El|]. apply Hall; [done|done|].
    right. exists 1%nat. split_and!; [split; [done|cbn in *; lia]|done|]. intros j [_ ?]. cbn in *. lia.
Defined.

End WalIterators.
