(* ===== verification/WalCkpt.v ===== *)
(** * Write-ahead log: the checkpoint (src/wal.c)

    - [walCheckpoint] copies pages from the log back into the database file, as far as the
      marks of the readers allow, with the iterator of WalIter.v; [walBusyLock] and
      [walPagesize] are its helpers.

    The state is a connection with the log file and the database file. What the allocator, the
    locks, the busy handler and the interrupt flag answer is the record [ckpt_env]; the calls
    of [sqlite3OsFileControl], whose results the code ignores, are left out. Where the flags
    ask for no sync, [sqlite3OsSync] is a call that is answered with [SQLITE_OK]. A reader is its
    range of frames: it finds a page in the log or in the database file ([reads]). *)

From stdpp Require Import list gmap.
From S2P Require Import Prelude Varint WalData WalIndex WalTxn WalFrame WalWrite WalLog WalCommit WalRecover WalSort WalIter.
Import WalTypes WalIndexes WalTxns WalFrames WalWrites WalLogs WalCommits WalRecovery WalIterators.
Local Open Scope Z_scope.

Module WalCheckpoints.

(** ** Operations *)

Definition SQLITE_CORRUPT_BKPT : Z := SQLITE_CORRUPT.
Definition SQLITE_INTERRUPT : Z := 9.
Definition SQLITE_CHECKPOINT_PASSIVE : Z := 0.
Definition SQLITE_CHECKPOINT_RESTART : Z := 2.
Definition SQLITE_CHECKPOINT_TRUNCATE : Z := 3.

Record CSt := CS { conn : WSt; db : File }.

Definition on_st (f : St -> St) (c : CSt) : CSt := CS (WS (f (st (conn c))) (fd (conn c))) (db c).
Definition c_st (c : CSt) : St := st (conn c).
Definition set_st (s : St) (c : CSt) : CSt := CS (WS s (fd (conn c))) (db c).
Definition set_fd (f : File) (c : CSt) : CSt := CS (WS (c_st c) f) (db c).
Definition set_db (f : File) (c : CSt) : CSt := CS (conn c) f.

(** The attempts to take a lock: what the file system answers, and whether the busy handler,
    if there is one, asks for another attempt. The handler gives up at the end of the list. *)
Definition attempts : Type := list (Z * bool).

Record ckpt_env := CkptEnv {
  ce_pages : page_env;
  ce_malloc : bool;
  ce_readlock : Z -> attempts;
  ce_restart : attempts;
  ce_interrupted : Z -> bool;           (** the interrupt flag, when a page is about to be copied *)
  ce_mallocFailed : bool;
  ce_salt1 : Z
}.

Fixpoint walBusyLock (xBusy : bool) (l : attempts) (s : St) : Z :=
  match l with
  | [] => walLockExclusive SQLITE_BUSY s
  | (a, again) :: l =>
      let rc := walLockExclusive a s in
      if xBusy && (rc =? SQLITE_BUSY) && again then walBusyLock xBusy l s else rc
  end.

Definition walPagesize (w : Wal) : Z :=
  Z.land (hdr_szPage (hdr w)) 0xfe00 + Z.shiftl (Z.land (hdr_szPage (hdr w)) 0x0001) 16.

(** The loop over the readers' marks [i] .. [WAL_NREADER - 1]; the result has the state,
    [mxSafeFrame], [xBusy], [rc] and whether the code goes to [walcheckpoint_out]. *)
Fixpoint ckpt_marks (n : nat) (e : ckpt_env) (i mxSafeFrame : Z) (xBusy : bool) (rc : Z) (s : St)
  : option (St * Z * bool * Z * bool) :=
  match n with
  | O => Some (s, mxSafeFrame, xBusy, rc, false)
  | S n =>
      let? y := walCkptInfo_get (ckpt_aReadMark i) s in
      if y <? mxSafeFrame then
        if mxFrame (hdr (wal s)) <? y then None else
        let rc := walBusyLock xBusy (ce_readlock e i) s in
        if rc =? SQLITE_OK then
          let? s := walCkptInfo_put (ckpt_aReadMark i) (if i =? 1 then mxSafeFrame else READMARK_NOT_USED) s in
          ckpt_marks n e (i + 1) mxSafeFrame xBusy rc s
        else if rc =? SQLITE_BUSY then ckpt_marks n e (i + 1) y false rc s
        else Some (s, mxSafeFrame, xBusy, rc, true)
      else ckpt_marks n e (i + 1) mxSafeFrame xBusy rc s
  end.

(** The loop that copies the pages. *)
Fixpoint ckpt_copy (fuel : nat) (e : ckpt_env) (sz nBackfill mxSafeFrame mxPage : Z) (p : WalIterator) (iFrame : Z) (c : CSt)
  : option (CSt * Z) :=
  match fuel with
  | O => None
  | S fuel =>
      let? (p, ret, iDbpage, iFrame) := walIteratorNext (c_st c) p iFrame in
      if ret <>? 0 then Some (c, SQLITE_OK) else
      let? pgno := walFramePgno iFrame (c_st c) in
      if pgno <>? iDbpage then None else
      if ce_interrupted e iDbpage then Some (c, if ce_mallocFailed e then SQLITE_NOMEM else SQLITE_INTERRUPT) else
      if (iFrame <=? nBackfill) || (mxSafeFrame <? iFrame) || (mxPage <? iDbpage)
      then ckpt_copy fuel e sz nBackfill mxSafeFrame mxPage p iFrame c else
      let '(f, rc, zBuf) := sqlite3OsRead sz (walFrameOffset iFrame sz + WAL_FRAME_HDRSIZE) (fd (conn c)) in
      let c := set_fd f c in
      if rc <>? SQLITE_OK then Some (c, rc) else
      let '(d, rc) := sqlite3OsWrite zBuf ((iDbpage - 1) * sz) (db c) in
      let c := set_db d c in
      if rc <>? SQLITE_OK then Some (c, rc) else
      ckpt_copy fuel e sz nBackfill mxSafeFrame mxPage p iFrame c
  end.

(** The check of the size of the database file. *)
Definition ckpt_grow (sz mxPage : Z) (c : CSt) : CSt * Z :=
  let nReq := mxPage * sz in
  let '(d, rc, nSize) := sqlite3OsFileSize (db c) in
  let c := set_db d c in
  if (rc =? SQLITE_OK) && (nSize <? nReq) then
    (c, if nSize + 65536 + mxFrame (hdr (wal (c_st c))) * sz <? nReq then SQLITE_CORRUPT_BKPT else SQLITE_OK)
  else (c, rc).

(** What follows the copying: the file is cut to its size when all of the log has been
    copied, and [nBackfill] is set. *)
Definition ckpt_done (sz mxSafeFrame : Z) (c : CSt) : option (CSt * Z) :=
  let? h := walIndexHdr (c_st c) in
  let '(c, rc) :=
    (if mxSafeFrame =? mxFrame h then
       let '(d, rc) := sqlite3OsTruncate (nPage (hdr (wal (c_st c))) * sz) (db c) in
       let c := set_db d c in
       if rc =? SQLITE_OK then let '(d, rc) := sqlite3OsSync (db c) in (set_db d c, rc) else (c, rc)
     else (c, SQLITE_OK)) in
  if rc =? SQLITE_OK then
    let? s := walCkptInfo_put ckpt_nBackfill mxSafeFrame (c_st c) in Some (set_st s c, rc)
  else Some (c, rc).

(** The part that runs with the lock on reader 0, when the log has not been restarted. *)
Definition ckpt_backfill (e : ckpt_env) (sz mxSafeFrame mxPage nBackfill : Z) (p : WalIterator) (c : CSt) : option (CSt * Z) :=
  let? s := walCkptInfo_put ckpt_nBackfillAttempted mxSafeFrame (c_st c) in
  let c := set_st s c in
  let '(f, rc) := sqlite3OsSync (fd (conn c)) in
  let c := set_fd f c in
  let '(c, rc) := (if rc =? SQLITE_OK then ckpt_grow sz mxPage c else (c, rc)) in
  let? (c, rc) :=
    (if rc =? SQLITE_OK then
       ckpt_copy (S (Z.to_nat (mxFrame (hdr (wal (c_st c)))))) e sz nBackfill mxSafeFrame mxPage p 0 c
     else Some (c, rc)) in
  if rc =? SQLITE_OK then ckpt_done sz mxSafeFrame c else Some (c, rc).

(** The first part of [walCheckpoint], when there are frames to copy; true in the result
    stands for [goto walcheckpoint_out]. *)
Definition ckpt_run (e : ckpt_env) (eMode : Z) (xBusy : bool) (sz : Z) (c : CSt) : option (CSt * Z * bool * bool) :=
  if (eMode =? SQLITE_CHECKPOINT_PASSIVE) && xBusy then None else
  let w := wal (c_st c) in
  let? (s, mxSafeFrame, xBusy, rc, out) :=
    ckpt_marks (Z.to_nat (WAL_NREADER - 1)) e 1 (mxFrame (hdr w)) xBusy SQLITE_OK (c_st c) in
  let c := set_st s c in
  if (out : bool) then Some (c, rc, xBusy, true) else
  let? nBackfill := walCkptInfo_get ckpt_nBackfill s in
  let? (s, rc, pIter) :=
    (if nBackfill <? mxSafeFrame then walIteratorInit (ce_pages e) (ce_malloc e) nBackfill s else Some (s, rc, None)) in
  let c := set_st s c in
  let? (c, rc) :=
    match pIter with
    | None => Some (c, rc)
    | Some p =>
        let rc := walBusyLock xBusy (ce_readlock e 0) s in
        if rc <>? SQLITE_OK then Some (c, rc) else
        let? nBackfill := walCkptInfo_get ckpt_nBackfill s in
        let? h := walIndexHdr s in
        if negb (bool_decide (aSalt h = aSalt (hdr (wal s)))) then Some (c, rc)
        else ckpt_backfill e sz mxSafeFrame (nPage (hdr w)) nBackfill p c
    end in
  Some (c, if rc =? SQLITE_BUSY then SQLITE_OK else rc, xBusy, false).

(** The second part: a checkpoint that restarts the log. *)
Definition ckpt_restart (e : ckpt_env) (eMode : Z) (xBusy : bool) (c : CSt) : option (CSt * Z) :=
  let s := c_st c in
  if writeLock (wal s) =? 0 then None else
  let? nBackfill := walCkptInfo_get ckpt_nBackfill s in
  if nBackfill <? mxFrame (hdr (wal s)) then Some (c, SQLITE_BUSY) else
  if SQLITE_CHECKPOINT_RESTART <=? eMode then
    if nBackfill <>? mxFrame (hdr (wal s)) then None else
    let rc := walBusyLock xBusy (ce_restart e) s in
    if rc <>? SQLITE_OK then Some (c, rc) else
    if eMode =? SQLITE_CHECKPOINT_TRUNCATE then
      let? s := walRestartHdr (ce_salt1 e) s in
      let '(f, rc) := sqlite3OsTruncate 0 (fd (conn c)) in
      Some (set_fd f (set_st s c), rc)
    else Some (c, rc)
  else Some (c, SQLITE_OK).

Definition walCheckpoint (e : ckpt_env) (eMode : Z) (xBusy : bool) (c : CSt) : option (CSt * Z) :=
  let sz := walPagesize (wal (c_st c)) in
  let? nBackfill := walCkptInfo_get ckpt_nBackfill (c_st c) in
  let? (c, rc, xBusy, out) :=
    (if nBackfill <? mxFrame (hdr (wal (c_st c))) then ckpt_run e eMode xBusy sz c else Some (c, SQLITE_OK, xBusy, false)) in
  if (out : bool) then Some (c, rc) else
  if (rc =? SQLITE_OK) && (eMode <>? SQLITE_CHECKPOINT_PASSIVE) then ckpt_restart e eMode xBusy c else Some (c, rc).

(** ** What a reader sees *)

(** The byte at position [i] of a file; a read behind the end of the file gives zeros. *)
Definition byte_at (c : bytes) (i : Z) : Z := default 0 (c !! Z.to_nat i).
Definition db_page (c : bytes) (sz y : Z) : bytes := (fun k => byte_at c ((y - 1) * sz + Z.of_nat k)) <$> seq 0 (Z.to_nat sz).

(** Page [y] for a reader of the frames [lo] .. [hi]. *)
Definition reads (log : list frame) (c : bytes) (sz lo hi y : Z) : option bytes :=
  let r := last_frame (f_pgno <$> log) lo y (Z.to_nat hi) in
  if r =? 0 then Some (db_page c sz y) else f_data <$> log !! Z.to_nat (r - 1).

Lemma byte_at_store c off d i : 0 <= off -> 0 <= i ->
  byte_at (store c off d) i = if (off <=? i) && (i <? off + len d) then default 0 (d !! Z.to_nat (i - off)) else byte_at c i.
Proof.
  intros Ho Hi. unfold byte_at, store. set (c0 := c ++ replicate _ 0).
  assert (H0 : default 0 (c0 !! Z.to_nat i) = default 0 (c !! Z.to_nat i)).
  { unfold c0. destruct (c !! Z.to_nat i) as [v|] eqn:E; [by rewrite (lookup_app_l_Some _ _ _ _ E)|].
    rewrite lookup_app_r by by apply lookup_ge_None. destruct (replicate _ 0 !! _) as [v|] eqn:Er; [|done].
    by apply lookup_replicate in Er as [-> _]. }
  assert (Hl : (Z.to_nat off <= length c0)%nat) by (unfold c0; rewrite length_app, length_replicate; lia).
  assert (Ht : length (take (Z.to_nat off) c0) = Z.to_nat off) by (rewrite length_take; lia).
  destruct (Z.leb_spec off i); cbn [andb].
  - rewrite lookup_app_r by lia. rewrite Ht. destruct (Z.ltb_spec i (off + len d)).
    + rewrite lookup_app_l by lia. do 2 f_equal. lia.
    + rewrite lookup_app_r, lookup_drop by lia. rewrite <- H0. do 2 f_equal. lia.
  - rewrite lookup_app_l by lia. rewrite lookup_take_lt by lia. done.
Qed.

Lemma db_page_ext c c' sz y :
  0 < sz -> 1 <= y -> (forall i, (y - 1) * sz <= i < y * sz -> byte_at c' i = byte_at c i) -> db_page c' sz y = db_page c sz y.
Proof.
  intros Hs Hy H. unfold db_page. apply list_fmap_ext. intros k x Hk. apply lookup_seq in Hk as [-> Hk]. apply H. simpl. nia.
Qed.

Lemma db_page_other c sz x y d :
  0 < sz -> 1 <= x -> 1 <= y -> x <> y -> len d <= sz -> db_page (store c ((x - 1) * sz) d) sz y = db_page c sz y.
Proof.
  intros Hs Hx Hy Hne Hd. apply db_page_ext; [done..|]. intros i Hi. rewrite byte_at_store by nia.
  destruct (Z.leb_spec ((x - 1) * sz) i); cbn [andb]; [|done]. destruct (Z.ltb_spec i ((x - 1) * sz + len d)); [|done]. nia.
Qed.

Lemma db_page_stored c sz x d : 0 < sz -> 1 <= x -> len d = sz -> db_page (store c ((x - 1) * sz) d) sz x = d.
Proof.
  intros Hs Hx Hd. apply list_eq. intros k. unfold db_page. rewrite list_lookup_fmap.
  destruct (decide (k < Z.to_nat sz)%nat) as [Hk|Hk].
  - rewrite lookup_seq_lt by done. cbn. rewrite byte_at_store by nia.
    rewrite (proj2 (Z.leb_le _ _)), (proj2 (Z.ltb_lt _ _)) by nia. cbn.
    replace (Z.to_nat _) with k by lia. destruct (lookup_lt_is_Some_2 d k) as [v Hv]; [lia|]. by rewrite Hv.
  - rewrite lookup_seq_ge by lia. symmetry. apply lookup_ge_None. lia.
Qed.

Lemma db_page_take c sz y n : 0 < sz -> 1 <= y -> y <= n -> db_page (take (Z.to_nat (n * sz)) c) sz y = db_page c sz y.
Proof.
  intros Hs Hy Hn. apply db_page_ext; [done..|]. intros i Hi. unfold byte_at. by rewrite lookup_take_lt by nia.
Qed.

(** ** Copying *)

(** The files of a checkpoint of the log [log] with pages of [sz] bytes. *)
Record files_ok (c : CSt) (log : list frame) (sz : Z) : Prop := {
  fo_size : 0 < sz;
  fo_fd : file_ok (fd (conn c));
  fo_db : file_ok (db c);
  fo_frame : forall i f, log !! i = Some f ->
    mem_read (content (fd (conn c))) (walFrameOffset (Z.of_nat i + 1) sz + WAL_FRAME_HDRSIZE) sz = Some (f_data f) /\ len (f_data f) = sz /\ bytes_ok (f_data f)
}.

Lemma files_same c c' log sz :
  files_ok c log sz -> content (fd (conn c')) = content (fd (conn c)) -> file_ok (fd (conn c')) -> file_ok (db c') -> files_ok c' log sz.
Proof. intros [H1 H2 H3 H4] Ec Hf Hd. split; [done|done|done|]. rewrite Ec. done. Qed.

Section Copy.
Context (e : ckpt_env) (plog : list Z) (log : list frame) (iLast sz nBackfill mxSafe mxPage : Z).
Context (Hlast : 0 < iLast <= len plog) (Hpgno : Forall (fun x => 0 < x < 0xFFFFFFFF) plog).
Context (Hlog : take (length log) plog = f_pgno <$> log) (Hlen : iLast <= len log).
Context (Hnb : 0 <= nBackfill).

(** The frame to copy for page [y], 0 if there is none. *)
Definition to_copy (b y f : Z) : Prop :=
  newest plog (edge iLast b + 1) iLast y f /\ nBackfill < f <= mxSafe /\ y <= mxPage.

(** What the loop leaves in the database file, for the pages above [k]. *)
Definition copied (b k : Z) (c c' : CSt) (rc : Z) : Prop :=
  (forall y, 1 <= y -> (forall f, k < y -> ~ to_copy b y f) -> db_page (content (db c')) sz y = db_page (content (db c)) sz y) /\
  (rc = SQLITE_OK -> forall y f g, k < y -> to_copy b y f -> log !! Z.to_nat (f - 1) = Some g -> db_page (content (db c')) sz y = f_data g).

Lemma frame_of l f y : newest plog l iLast y f -> f <> 0 -> exists g, log !! Z.to_nat (f - 1) = Some g /\ f_pgno g = y.
Proof.
  intros H Hf. destruct (newest_range _ _ _ _ _ H Hf) as (Hr & Hy & Hf1).
  destruct (lookup_lt_is_Some_2 log (Z.to_nat (f - 1))) as [g Hg]; [lia|]. exists g. split; [done|].
  assert (E : take (length log) plog !! Z.to_nat (f - 1) = Some y) by (rewrite lookup_take_lt by lia; done).
  rewrite Hlog, list_lookup_fmap, Hg in E. by injection E.
Qed.

(** The assertion on the frame that the iterator returns. *)
Lemma frame_pgno s share f y :
  inv s share plog -> (exists q, mapped (wal s) (walFramePage f) q) -> 1 <= f <= iLast -> plog !! Z.to_nat (f - 1) = Some y ->
  walFramePgno f s = Some y.
Proof.
  intros HI [q Hq] Hf Hy. destruct (walFramePage_bounds f) as [Hb Hz]; [lia|]. unfold walFramePgno. set (b := walFramePage f) in *.
  assert (Hbl : 0 <= b <= walFramePage iLast) by (split; [lia|apply walFramePage_mono; lia]).
  pose proof (cn_share _ _ (inv_conn _ _ _ HI) _ _ Hq) as Hsh. destruct (ix_size _ _ _ (inv_index _ _ _ HI) b q Hsh) as (pg & Hpg & _).
  destruct Hq as [-> _]. cbn -[mem_get]. rewrite Hpg. cbn -[mem_get].
  destruct (edge_page plog iLast Hlast b Hbl) as (Ee & He & Hl).
  destruct (page_entry plog iLast Hlast s share b q pg (f - 1 - zero_of b) HI Hsh Hpg Hbl) as [Hw Hp].
  { split; [lia|]. unfold edge. rewrite (zero_of_succ b Hb). lia. }
  replace (zero_of b + (f - 1 - zero_of b)) with (f - 1) in Hp by lia. rewrite Hy in Hp. injection Hp as Hp. rewrite <- Hp in Hw. rewrite <- Hw.
  revert Hz. clearbody b. unfold zero_of, off_of. pose proof layout_eqs. destruct (Z.eqb_spec b 0); intros; f_equal; [lia|]. Z.div_mod_to_equations. lia.
Qed.

(** One page of the loop: [x] is the next page above [k]. *)
Lemma copied_step b k x f c c1 c' rc :
  first_above plog (edge iLast b + 1) iLast k (Some (x, f)) -> 1 <= x ->
  (forall y, 1 <= y -> (y <> x \/ ~ to_copy b x f) -> db_page (content (db c1)) sz y = db_page (content (db c)) sz y) ->
  (rc = SQLITE_OK -> to_copy b x f -> forall g, log !! Z.to_nat (f - 1) = Some g -> db_page (content (db c1)) sz x = f_data g) ->
  copied b x c1 c' rc -> copied b k c c' rc.
Proof.
  intros (Hk & Hf & Hn & Hgap) Hx Hsame Hdata [H1 H2].
  assert (Huniq : forall g, to_copy b x g -> g = f) by (intros g [Hg _]; by eapply newest_unique).
  assert (Hlow : forall y g, k < y -> to_copy b y g -> y = x \/ x < y).
  { intros y g Hy (Hg & Hr & _). destruct (decide (y < x)) as [Hlt|]; [|lia]. exfalso.
    assert (g = 0) by (eapply newest_unique; [done|apply Hgap; lia]). lia. }
  split.
  - intros y Hy Hno. rewrite H1; [|done|intros g Hg; apply Hno; lia]. apply Hsame; [done|].
    destruct (decide (y = x)) as [->|]; [right|by left]. by apply Hno.
  - intros Hrc y g fr Hy Hg Hfr. destruct (Hlow y g Hy Hg) as [->|Hlt].
    + assert (g = f) as -> by by apply Huniq. rewrite H1; [by apply Hdata|done|intros ? ?; lia].
    + by eapply H2.
Qed.

Lemma copied_stop b k c rc : rc <> SQLITE_OK \/ (forall y f, k < y -> ~ to_copy b y f) -> copied b k c c rc.
Proof. intros H. split; [done|]. intros Hrc y f g Hy Hf. destruct H as [?|H]; [done|]. by destruct (H y f Hy). Qed.

Lemma page_from b f : 0 <= b <= walFramePage iLast -> edge iLast b + 1 <= f -> b <= walFramePage f.
Proof.
  intros Hb Hf. destruct (edge_page plog iLast Hlast b Hb) as (Ee & _). pose proof (zero_of_nonneg b ltac:(lia)). pose proof (off_of_range b).
  rewrite <- (proj2 (walFramePage_spec (zero_of b + 1) b ltac:(lia))) by lia. apply walFramePage_mono. lia.
Qed.

Lemma ckpt_copy_spec fuel : forall p iFrame c share b,
  inv (c_st c) share plog -> iter_ok plog iLast share b p -> 0 <= b <= walFramePage iLast ->
  (forall d, b <= d <= walFramePage iLast -> exists q, mapped (wal (c_st c)) d q) -> files_ok c log sz ->
  (nPagemap p <> 0 -> nPagemap p = mxPage) -> (above plog iLast (iPrior p) < fuel)%nat ->
  exists c' rc, ckpt_copy fuel e sz nBackfill mxSafe mxPage p iFrame c = Some (c', rc) /\ c_st c' = c_st c /\
    files_ok c' log sz /\ content (fd (conn c')) = content (fd (conn c)) /\ copied b (iPrior p) c c' rc.
Proof.
  induction fuel as [|fuel IH]; intros p iFrame c share b HI HP Hb Hmap HF Hnp Hfuel; [lia|]. cbn [ckpt_copy].
  destruct (iterator_next_spec plog iLast Hlast Hpgno (c_st c) share b p iFrame HI HP)
    as (p' & ret & x & f & -> & Hnp' & Hpr & [[-> Hend]|(-> & HP' & Hv & Hfa)]); cbn -[ckpt_copy walFramePgno].
  - exists c, SQLITE_OK. split_and!; [done..|]. apply copied_stop. right. intros y f' Hy (Hn & Hr & Hyp).
    assert (f' = 0); [|lia]. eapply newest_unique; [done|]. apply Hend; [done|]. destruct (decide (nPagemap p = 0)); [by left|right; rewrite Hnp; done].
  - pose proof Hfa as (Hk & Hf & Hn & _). destruct (newest_range _ _ _ _ _ Hn Hf) as (Hfr & Hfx & Hf1).
    assert (Hx : 1 <= x) by (apply (proj1 (Forall_lookup _ _) Hpgno) in Hfx; simpl in Hfx; lia).
    rewrite (frame_pgno (c_st c) share f x HI) by (done || lia || (apply Hmap; split; [by apply page_from; [|lia]|apply walFramePage_mono; lia])).
    cbn -[ckpt_copy]. rewrite Z.eqb_refl. cbn [negb].
    destruct (ce_interrupted e x).
    { eexists c, _. split; [done|]. split_and!; [done..|]. apply copied_stop. left. by destruct (ce_mallocFailed e). }
    assert (Hgo : forall c1, c_st c1 = c_st c -> files_ok c1 log sz -> content (fd (conn c1)) = content (fd (conn c)) ->
      (forall y, 1 <= y -> (y <> x \/ ~ to_copy b x f) -> db_page (content (db c1)) sz y = db_page (content (db c)) sz y) ->
      (to_copy b x f -> forall g, log !! Z.to_nat (f - 1) = Some g -> db_page (content (db c1)) sz x = f_data g) ->
      exists c' rc, ckpt_copy fuel e sz nBackfill mxSafe mxPage p' f c1 = Some (c', rc) /\ c_st c' = c_st c /\
        files_ok c' log sz /\ content (fd (conn c')) = content (fd (conn c)) /\ copied b (iPrior p) c c' rc).
    { intros c1 Es HF1 Ec1 Hs Hd. destruct (IH p' f c1 share b) as (c' & rc & E' & Es' & HF' & Ec' & HC); rewrite ?Es; try done.
      - rewrite Hnp'. done.
      - rewrite Hpr. assert (above plog iLast x < above plog iLast (iPrior p))%nat by (by eapply above_step). lia.
      - exists c', rc. split_and!; [done|congruence|done|congruence|]. rewrite Hpr in HC. eapply copied_step; [done|done|done|by intros _|done]. }
    destruct ((f <=? nBackfill) || (mxSafe <? f) || (mxPage <? x)) eqn:Eskip.
    { apply Hgo; try done. intros (_ & Hr & Hp'). exfalso. apply orb_true_iff in Eskip as [[?%Z.leb_le|?%Z.ltb_lt]%orb_true_iff|?%Z.ltb_lt]; lia. }
    apply orb_false_iff in Eskip as [[E1%Z.leb_gt E2%Z.ltb_ge]%orb_false_iff E3%Z.ltb_ge].
    assert (Htc : to_copy b x f) by (split_and!; [done|lia|lia|done]).
    destruct (frame_of _ f x Hn Hf) as (g & Hg & _). pose proof HF as [F1 F2 F3 F4].
    destruct (F4 _ _ Hg) as (Hread & Hlg & Hbg). replace (Z.of_nat (Z.to_nat (f - 1)) + 1) with f in Hread by lia.
    destruct (sqlite3OsRead sz (walFrameOffset f sz + WAL_FRAME_HDRSIZE) (fd (conn c))) as [[f1 rc1] zBuf] eqn:Er.
    assert (0 <= walFrameOffset f sz + WAL_FRAME_HDRSIZE) by (apply mem_read_Some in Hread; lia).
    apply os_read_spec in Er as (Hf1' & Ec1 & _ & _ & Hok1); [|done..].
    assert (HF1 : files_ok (set_fd f1 c) log sz) by (eapply files_same; [done|done|done|done]).
    destruct (Z.eqb_spec rc1 SQLITE_OK) as [Hrc1|Hrc1]; cbn [negb].
    2:{ eexists _, rc1. split; [done|]. split_and!; [done|done|done|]. split; [done|]. by intros. }
    specialize (Hok1 Hrc1). assert (zBuf = f_data g) as -> by congruence. clear Hok1.
    change (db (set_fd f1 c)) with (db c). destruct (sqlite3OsWrite (f_data g) ((x - 1) * sz) (db c)) as [d1 rc2] eqn:Ew.
    apply os_write_spec in Ew as (Hd1 & d & Ed & Hdl & Hdok); [|done|done].
    assert (HF2 : files_ok (set_db d1 (set_fd f1 c)) log sz) by (eapply files_same; [exact HF1|done|done|done]).
    assert (Hsame : forall y, 1 <= y -> y <> x \/ ~ to_copy b x f -> db_page (content d1) sz y = db_page (content (db c)) sz y).
    { intros y Hy [Hne|Hno]; [|done]. rewrite Ed. apply db_page_other; [done|lia|lia|done|lia]. }
    destruct (Z.eqb_spec rc2 SQLITE_OK) as [Hrc2|Hrc2]; cbn [negb].
    + apply Hgo; [done|done|done|exact Hsame|]. intros _ g' Hg'. assert (g' = g) as -> by congruence.
      cbn [db set_db]. rewrite Ed, (Hdok Hrc2). by apply db_page_stored.
    + eexists _, rc2. split; [done|]. split_and!; [done|done|done|]. split; [|by intros].
      intros y Hy Hno. cbn [db set_db]. apply Hsame; [done|]. destruct (decide (y = x)) as [->|]; [right; by apply Hno|by left].
Qed.

End Copy.

(** ** The state of a checkpoint *)

(** [h] is the live header, [l] are the words of the headers in the index, [nb] is
    [nBackfill] and [log] the frames in the file. *)
Record ckpt_ok (e : ckpt_env) (c : CSt) (share : gmap Z Z) (plog : list Z) (log : list frame) (sz : Z) (h : WalIndexHdr)
  (l : list Z) (nb : Z) : Prop := {
  ck_inv : inv (c_st c) share plog;
  ck_env : env_ok (ce_pages e) (c_st c) share;
  ck_live : live (pages (c_st c)) share h;
  ck_head : head_words (pages (c_st c)) share = Some l;
  ck_nb : l !! 24%nat = Some nb /\ 0 <= nb <= mxFrame h;
  ck_zero : l !! 25%nat = Some 0;
  ck_lock : ckptLock (wal (c_st c)) <> 0;
  ck_hdr : hdr_ok (hdr (wal (c_st c))) /\ 0 <= mxFrame (hdr (wal (c_st c))) <= mxFrame h;
  ck_log : take (length log) plog = f_pgno <$> log /\ mxFrame h <= len log <= len plog;
  ck_pgno : Forall (fun x => 0 < x < 0xFFFFFFFF) plog;
  ck_size : walPagesize (wal (c_st c)) = sz;
  ck_files : files_ok c log sz;
  ck_npage : 0 < nPage (hdr (wal (c_st c))) < 0xFFFFFFFF;
  ck_writer : writeLock (wal (c_st c)) <> 0 -> hdr (wal (c_st c)) = h
}.

(** A write to the checkpoint information. *)
Lemma ckpt_ok_put e c share plog log sz h l nb i v :
  ckpt_ok e c share plog log sz h l nb -> 26 <= i < 34 -> exists s', walCkptInfo_put i v (c_st c) = Some s' /\ wal s' = wal (c_st c) /\
    ckpt_ok e (set_st s' c) share plog log sz h (<[Z.to_nat i := v]> l) nb.
Proof.
  intros [K1 K2 K3 K4 K5 K6 K7 K8 K9 K10 K11 K12 K13 K14] Hi.
  destruct (ckpt_put_spec (ce_pages e) i v (c_st c) share plog h l K1 K2 K3 K4) as (s' & E & Hw & HI & HE & HL & El); [lia|].
  exists s'. split_and!; [done..|]. split; cbn [c_st set_st conn st]; rewrite ?Hw; try done.
  - by rewrite list_lookup_insert_ne by lia.
  - by rewrite list_lookup_insert_ne by lia.
  - eapply files_same; [done|done|apply K12|apply K12].
Qed.

Lemma ckpt_ok_get e c share plog log sz h l nb i : ckpt_ok e c share plog log sz h l nb -> 0 <= i < 34 ->
  exists v, walCkptInfo_get i (c_st c) = Some v /\ l !! Z.to_nat i = Some v.
Proof.
  intros HK Hi. rewrite (ckpt_get_spec i (c_st c) share plog l) by (apply HK || done).
  assert (Hlen : length l = 34%nat).
  { destruct (page0_spec _ _ _ (ck_inv _ _ _ _ _ _ _ _ _ HK)) as (p & pg & _ & Hsh & Epg & [Hs _] & _).
    pose proof (ck_head _ _ _ _ _ _ _ _ _ HK) as El. unfold head_words in El. rewrite Hsh in El. cbn -[WALINDEX_HDR_SIZE] in El.
    rewrite Epg in El. injection El as <-. rewrite length_take. pose proof layout_eqs.
    change (Z.to_nat (WALINDEX_HDR_SIZE / 4)) with 34%nat. lia. }
  destruct (lookup_lt_is_Some_2 l (Z.to_nat i)) as [v Hv]; [lia|]. by exists v.
Qed.

(** The mapping grows. *)
Lemma ckpt_ok_grows e c share plog log sz h l nb s' share' :
  ckpt_ok e c share plog log sz h l nb -> grows (ce_pages e) (c_st c) s' share share' plog ->
  ckpt_ok e (set_st s' c) share' plog log sz h l nb.
Proof.
  intros [K1 K2 K3 K4 K5 K6 K7 K8 K9 K10 K11 K12 K13 K14] HG. pose proof (grows_evolves _ _ _ _ _ _ HG) as HV.
  destruct (gr_wal _ _ _ _ _ _ HG) as (ap & ro & Hw). split; cbn [c_st set_st conn st]; rewrite ?Hw; try done; try apply HG.
  - destruct K3 as (l' & El & Hl). exists l'. split; [by apply (ev_head _ _ _ _ _ _ HV)|done].
  - by apply (ev_head _ _ _ _ _ _ HV).
  - eapply files_same; [done|done|apply K12|apply K12].
Qed.

(** The files change. *)
Lemma ckpt_ok_files e c c' share plog log sz h l nb :
  ckpt_ok e c share plog log sz h l nb -> c_st c' = c_st c -> files_ok c' log sz -> ckpt_ok e c' share plog log sz h l nb.
Proof. intros [K1 K2 K3 K4 K5 K6 K7 K8 K9 K10 K11 K12 K13 K14] Es HF. split; rewrite ?Es; done. Qed.

(** ** Locks *)

(** A reader holds the lock: every attempt is answered with [SQLITE_BUSY]. *)
Definition held (a : attempts) (s : St) : Prop := exclusiveMode (wal s) = 0 /\ Forall (fun x => x.1 = SQLITE_BUSY) a.

Lemma busy_lock_held xBusy a s : held a s -> walBusyLock xBusy a s = SQLITE_BUSY.
Proof.
  intros [Hx Ha]. assert (Hl : walLockExclusive SQLITE_BUSY s = SQLITE_BUSY) by (unfold walLockExclusive; by rewrite Hx).
  induction Ha as [|[a b] r Ha _ IH]; cbn [walBusyLock]; [done|]. simpl in Ha. subst a. rewrite Hl. case_cond; [done|done].
Qed.

(** The marks of the readers that hold their locks bound what is copied, and stay. *)
Lemma ckpt_marks_spec n : forall e c share plog log sz h l nb i mx xBusy rc,
  ckpt_ok e c share plog log sz h l nb -> 1 <= i -> i + Z.of_nat n <= WAL_NREADER -> mx <= mxFrame (hdr (wal (c_st c))) ->
  exists s' mx' xBusy' rc' out l', ckpt_marks n e i mx xBusy rc (c_st c) = Some (s', mx', xBusy', rc', out) /\
    wal s' = wal (c_st c) /\ ckpt_ok e (set_st s' c) share plog log sz h l' nb /\ mx' <= mx /\ (out = true -> rc' <> SQLITE_OK) /\
    (forall j, i <= j < i + Z.of_nat n -> held (ce_readlock e j) (c_st c) -> l' !! Z.to_nat (ckpt_aReadMark j) = l !! Z.to_nat (ckpt_aReadMark j) /\
       (out = false -> forall m, l !! Z.to_nat (ckpt_aReadMark j) = Some m -> mx' <= m)) /\
    (forall j, j < i -> l' !! Z.to_nat (ckpt_aReadMark j) = l !! Z.to_nat (ckpt_aReadMark j)).
Proof.
  induction n as [|n IH]; intros e c share plog log sz h l nb i mx xBusy rc HK Hi Hn Hmx; cbn [ckpt_marks].
  { exists (c_st c), mx, xBusy, rc, false, l. split_and!; try done; [by destruct c as [[] ?]|intros j Hj; lia]. }
  unfold WAL_NREADER in *. destruct (ckpt_ok_get e c share plog log sz h l nb (ckpt_aReadMark i) HK) as (y & -> & Hy); [unfold ckpt_aReadMark; lia|].
  cbn -[ckpt_marks]. destruct (Z.ltb_spec y mx) as [Hlt|Hge].
  - rewrite (proj2 (Z.ltb_ge _ _)) by lia. destruct (Z.eqb_spec (walBusyLock xBusy (ce_readlock e i) (c_st c)) SQLITE_OK) as [Eok|Eok].
    + destruct (ckpt_ok_put e c share plog log sz h l nb (ckpt_aReadMark i) (if i =? 1 then mx else READMARK_NOT_USED) HK) as (s1 & -> & Hw1 & HK1);
        [unfold ckpt_aReadMark; lia|]. cbn -[ckpt_marks].
      destruct (IH e (set_st s1 c) share plog log sz h _ nb (i + 1) mx xBusy (walBusyLock xBusy (ce_readlock e i) (c_st c)) HK1)
        as (s' & mx' & xB' & rc' & out & l' & E & Hw & HK' & Hle & Hb & Hheld & Hlow); [lia|lia|cbn; by rewrite Hw1|].
      change (c_st (set_st s1 c)) with s1 in *. rewrite Hw1 in Hw. exists s', mx', xB', rc', out, l'. split_and!; try done.
      * intros j Hj Hh. destruct (decide (j = i)) as [->|Hne].
        { rewrite (busy_lock_held xBusy) in Eok by done. done. }
        destruct (Hheld j) as [H1 H2]; [lia|unfold held in *; by rewrite Hw1|]. unfold ckpt_aReadMark in *.
        rewrite list_lookup_insert_ne in H1, H2 by lia. by split.
      * intros j Hj. rewrite Hlow by lia. unfold ckpt_aReadMark. by rewrite list_lookup_insert_ne by lia.
    + destruct (Z.eqb_spec (walBusyLock xBusy (ce_readlock e i) (c_st c)) SQLITE_BUSY) as [Eb|Eb].
      * destruct (IH e c share plog log sz h l nb (i + 1) y false (walBusyLock xBusy (ce_readlock e i) (c_st c)) HK)
          as (s' & mx' & xB' & rc' & out & l' & E & Hw & HK' & Hle & Hb & Hheld & Hlow); [lia|lia|lia|].
        exists s', mx', xB', rc', out, l'. split_and!; try done; [lia| |].
        { intros j Hj Hh. destruct (decide (j = i)) as [->|Hne]; [|apply Hheld; [lia|done]]. rewrite (Hlow i) by lia.
          split; [done|]. intros _ m Hm. replace m with y by congruence. done. }
        intros j Hj. apply Hlow. lia.
      * eexists (c_st c), mx, xBusy, _, true, l. split_and!; try done. by destruct c as [[] ?].
  - destruct (IH e c share plog log sz h l nb (i + 1) mx xBusy rc HK)
      as (s' & mx' & xB' & rc' & out & l' & E & Hw & HK' & Hle & Hb & Hheld & Hlow); [lia|lia|lia|].
    exists s', mx', xB', rc', out, l'. split_and!; try done.
    + intros j Hj Hh. destruct (decide (j = i)) as [->|Hne]; [|apply Hheld; [lia|done]]. rewrite (Hlow i) by lia.
      split; [done|]. intros _ m Hm. replace m with y by congruence. lia.
    + intros j Hj. apply Hlow. lia.
Qed.

(** ** The stages *)

Lemma ckpt_ok_backfill e c share plog log sz h l nb v :
  ckpt_ok e c share plog log sz h l nb -> 0 <= v <= mxFrame h -> exists s', walCkptInfo_put ckpt_nBackfill v (c_st c) = Some s' /\
    wal s' = wal (c_st c) /\ ckpt_ok e (set_st s' c) share plog log sz h (<[24%nat := v]> l) v.
Proof.
  intros [K1 K2 K3 K4 K5 K6 K7 K8 K9 K10 K11 K12 K13 K14] Hv.
  destruct (ckpt_put_spec (ce_pages e) ckpt_nBackfill v (c_st c) share plog h l K1 K2 K3 K4) as (s' & E & Hw & HI & HE & HL & El); [done|].
  exists s'. split_and!; [done..|]. split; cbn [c_st set_st conn st]; rewrite ?Hw; try done.
  - split; [|done]. apply list_lookup_insert_eq. destruct K5 as [K5 _]. by eapply lookup_lt_Some.
  - by rewrite list_lookup_insert_ne by done.
  - eapply files_same; [done|done|apply K12|apply K12].
Qed.

Lemma os_truncate_spec n f f' rc : file_ok f -> sqlite3OsTruncate n f = (f', rc) ->
  file_ok f' /\ (content f' = content f \/ content f' = take (Z.to_nat n) (content f)).
Proof.
  intros Hf. unfold sqlite3OsTruncate. destruct (next_answer f) as [a f1] eqn:E. destruct (next_answer_ok _ _ _ Hf E) as ([H1 H2] & _ & Ec).
  case_cond; intros [= <- <-]; simpl; (split; [|rewrite Ec; auto]); split; simpl; rewrite ?Ec in *; try done. by apply Forall_take.
Qed.

Lemma ckpt_done_spec e c share plog log sz h l nb mx :
  ckpt_ok e c share plog log sz h l nb -> 0 <= mx <= mxFrame h ->
  exists c' rc l' nb', ckpt_done sz mx c = Some (c', rc) /\ ckpt_ok e c' share plog log sz h l' nb' /\
    content (fd (conn c')) = content (fd (conn c)) /\ wal (c_st c') = wal (c_st c) /\
    (rc = SQLITE_OK /\ nb' = mx \/ rc <> SQLITE_OK /\ nb' = nb) /\
    (forall j, 1 <= j < WAL_NREADER -> l' !! Z.to_nat (ckpt_aReadMark j) = l !! Z.to_nat (ckpt_aReadMark j)) /\
    (forall y, 1 <= y -> y <= nPage (hdr (wal (c_st c))) \/ mx < mxFrame h -> db_page (content (db c')) sz y = db_page (content (db c)) sz y).
Proof.
  intros HK Hmx. unfold ckpt_done. rewrite (walIndexHdr_spec (c_st c) share plog h) by apply HK. cbn -[walCkptInfo_put].
  pose proof (ck_files _ _ _ _ _ _ _ _ _ HK) as HF. pose proof (fo_size _ _ _ HF) as Hsz.
  assert (Hcut : exists c1 rc1,
    (if mx =? mxFrame h then
       let '(d, rc) := sqlite3OsTruncate (nPage (hdr (wal (c_st c))) * sz) (db c) in
       let c := set_db d c in
       if rc =? SQLITE_OK then let '(d, rc) := sqlite3OsSync (db c) in (set_db d c, rc) else (c, rc)
     else (c, SQLITE_OK)) = (c1, rc1) /\ c_st c1 = c_st c /\ fd (conn c1) = fd (conn c) /\ files_ok c1 log sz /\
    (forall y, 1 <= y -> y <= nPage (hdr (wal (c_st c))) \/ mx < mxFrame h -> db_page (content (db c1)) sz y = db_page (content (db c)) sz y)).
  { destruct (Z.eqb_spec mx (mxFrame h)) as [Em|Em]; [|exists c, SQLITE_OK; by split_and!].
    destruct (sqlite3OsTruncate _ (db c)) as [d1 rc1] eqn:E1. apply os_truncate_spec in E1 as [Hd1 Ec1]; [|apply HF].
    assert (Hpg : forall y, 1 <= y -> y <= nPage (hdr (wal (c_st c))) \/ mx < mxFrame h -> db_page (content d1) sz y = db_page (content (db c)) sz y).
    { intros y Hy [Hyn|?]; [|lia]. destruct Ec1 as [->| ->]; [done|]. by apply db_page_take. }
    destruct (rc1 =? SQLITE_OK).
    - cbn. destruct (sqlite3OsSync d1) as [d2 rc2] eqn:E2. apply os_sync_spec in E2 as [Hd2 Ec2]; [|done].
      eexists _, _. split; [done|]. split_and!; [done|done|eapply files_same; [done|done|apply HF|done]|]. cbn. by rewrite Ec2.
    - eexists _, _. split; [done|]. split_and!; [done|done|eapply files_same; [done|done|apply HF|done]|done]. }
  destruct Hcut as (c1 & rc1 & E & Es & Ef & HF1 & Hpg). cbv zeta. cbn -[walCkptInfo_put db_page] in E |- *. rewrite E.
  pose proof (ckpt_ok_files e c c1 share plog log sz h l nb HK Es HF1) as HK1.
  destruct (Z.eqb_spec rc1 SQLITE_OK) as [Hrc|Hrc].
  - destruct (ckpt_ok_backfill e c1 share plog log sz h l nb mx HK1 Hmx) as (s' & -> & Hw & HK'). cbn.
    eexists (set_st s' c1), rc1, _, mx. split; [done|]. split_and!; [done|by cbn; rewrite Ef|cbn; by rewrite Hw, Es|by left| |done].
    intros j Hj. unfold ckpt_aReadMark. by rewrite list_lookup_insert_ne by lia.
  - exists c1, rc1, l, nb. split; [done|]. split_and!; [done|by rewrite Ef|by rewrite Es|by right|done|done].
Qed.

(** What a checkpoint does to the database file: pages whose last frame lies in the range that
    is copied get its data, the others stay. *)
Record backfilled (plog : list Z) (log : list frame) (h : WalIndexHdr) (iLast sz nb mx np : Z) (c c' : CSt) (nb' : Z) : Prop := {
  bf_same : forall y, 1 <= y -> y <= np \/ mx < mxFrame h ->
    (forall f, ~ to_copy plog iLast nb mx np (walFramePage (nb + 1)) y f) -> db_page (content (db c')) sz y = db_page (content (db c)) sz y;
  bf_data : nb' <> nb -> nb' = mx /\ forall y f g, 1 <= y -> to_copy plog iLast nb mx np (walFramePage (nb + 1)) y f ->
    log !! Z.to_nat (f - 1) = Some g -> db_page (content (db c')) sz y = f_data g
}.

Lemma ckpt_backfill_spec e c share plog log sz h l nb mx p :
  ckpt_ok e c share plog log sz h l nb -> nb < mx -> mx <= mxFrame (hdr (wal (c_st c))) -> iPrior p = 0 ->
  iter_ok plog (mxFrame (hdr (wal (c_st c)))) share (walFramePage (nb + 1)) p -> (nPagemap p <> 0 -> nPagemap p = nPage (hdr (wal (c_st c)))) ->
  (forall d, walFramePage (nb + 1) <= d <= walFramePage (mxFrame (hdr (wal (c_st c)))) -> exists q, mapped (wal (c_st c)) d q) ->
  exists c' rc l' nb', ckpt_backfill e sz mx (nPage (hdr (wal (c_st c)))) nb p c = Some (c', rc) /\
    ckpt_ok e c' share plog log sz h l' nb' /\ content (fd (conn c')) = content (fd (conn c)) /\ wal (c_st c') = wal (c_st c) /\
    (rc = SQLITE_OK -> nb' = mx) /\
    (forall j, 1 <= j < WAL_NREADER -> l' !! Z.to_nat (ckpt_aReadMark j) = l !! Z.to_nat (ckpt_aReadMark j)) /\
    backfilled plog log h (mxFrame (hdr (wal (c_st c)))) sz nb mx (nPage (hdr (wal (c_st c)))) c c' nb'.
Proof.
  intros HK Hlt Hmx Hpr HP Hnp Hmap. unfold ckpt_backfill. set (w := wal (c_st c)) in *. set (iLast := mxFrame (hdr w)) in *.
  pose proof (ck_nb _ _ _ _ _ _ _ _ _ HK) as [_ Hnb]. pose proof (ck_hdr _ _ _ _ _ _ _ _ _ HK) as [_ Hh].
  pose proof (ck_log _ _ _ _ _ _ _ _ _ HK) as [Hlog Hll]. fold w in Hh. fold iLast in Hh.
  destruct (ckpt_ok_put e c share plog log sz h l nb ckpt_nBackfillAttempted mx HK) as (s1 & -> & Hw1 & HK1); [done|].
  cbn -[ckpt_grow ckpt_copy ckpt_done]. set (c1 := set_st s1 c) in *. set (l1 := <[_ := mx]> l) in *.
  assert (Hl1 : forall j, 1 <= j < WAL_NREADER -> l1 !! Z.to_nat (ckpt_aReadMark j) = l !! Z.to_nat (ckpt_aReadMark j)).
  { intros j Hj. unfold l1, ckpt_aReadMark, WAL_NREADER in *. by rewrite list_lookup_insert_ne by (unfold ckpt_nBackfillAttempted; lia). }
  change (fd (conn c)) with (fd (conn c1)). destruct (sqlite3OsSync (fd (conn c1))) as [f1 rc1] eqn:E1.
  pose proof (ck_files _ _ _ _ _ _ _ _ _ HK1) as HF1. apply os_sync_spec in E1 as [Hf1 Ec1]; [|apply HF1].
  assert (HF2 : files_ok (set_fd f1 c1) log sz) by (eapply files_same; [done|done|done|apply HF1]).
  set (c2 := set_fd f1 c1) in *. pose proof (ckpt_ok_files e c1 c2 share plog log sz h l1 nb HK1 eq_refl HF2) as HK2.
  assert (Hg : exists c3 rc3, (if rc1 =? SQLITE_OK then ckpt_grow sz (nPage (hdr w)) c2 else (c2, rc1)) = (c3, rc3) /\ c_st c3 = c_st c2 /\
    fd (conn c3) = fd (conn c2) /\ content (db c3) = content (db c2) /\ file_ok (db c3)).
  { destruct (rc1 =? SQLITE_OK); [|exists c2, rc1; split_and!; [done..|apply HF2]]. unfold ckpt_grow, sqlite3OsFileSize.
    destruct (next_answer (db c2)) as [a d] eqn:Ea. destruct (next_answer_ok _ _ _ (fo_db _ _ _ HF2) Ea) as (Hd & _ & Ed).
    case_cond; eexists _, _; (split; [done|]); by split_and!. }
  destruct Hg as (c3 & rc3 & -> & Es3 & Ef3 & Ed3 & Hd3). cbv zeta. cbn -[ckpt_copy ckpt_done].
  assert (HF3 : files_ok c3 log sz) by (eapply files_same; [exact HF2|by rewrite Ef3|rewrite Ef3; apply HF2|done]).
  pose proof (ckpt_ok_files e c2 c3 share plog log sz h l1 nb HK2 Es3 HF3) as HK3.
  assert (Hw3 : wal (c_st c3) = w) by (rewrite Es3; exact Hw1).
  assert (Efd : content (fd (conn c3)) = content (fd (conn c))) by (rewrite Ef3; exact Ec1).
  assert (Edb : content (db c3) = content (db c)) by exact Ed3.
  destruct (Z.eqb_spec rc3 SQLITE_OK) as [Hr3|Hr3].
  2:{ cbn. rewrite (proj2 (Z.eqb_neq _ _) Hr3). exists c3, rc3, l1, nb. split_and!; try done. split; [|done]. intros. by rewrite Edb. }
  rewrite Hw3. fold iLast.
  assert (Hlast : 0 < iLast <= len plog) by lia.
  destruct (ckpt_copy_spec e plog log iLast sz nb mx (nPage (hdr w)) Hlast (ck_pgno _ _ _ _ _ _ _ _ _ HK) Hlog ltac:(lia) ltac:(lia)
    (S (Z.to_nat iLast)) p 0 c3 share (walFramePage (nb + 1))) as (c4 & rc4 & -> & Es4 & HF4 & Ec4 & HC); [apply HK3|done| |by rewrite Hw3|done|done| |].
  { split; [apply walFramePage_bounds; lia|apply walFramePage_mono; lia]. }
  { unfold above. eapply Nat.le_lt_trans; [apply length_filter|]. rewrite length_take. lia. }
  cbn -[ckpt_done]. pose proof (ckpt_ok_files e c3 c4 share plog log sz h l1 nb HK3 Es4 HF4) as HK4. destruct HC as [HC1 HC2]. rewrite Hpr in *.
  assert (Hsame : forall y, 1 <= y -> (forall f, ~ to_copy plog iLast nb mx (nPage (hdr w)) (walFramePage (nb + 1)) y f) ->
    db_page (content (db c4)) sz y = db_page (content (db c)) sz y).
  { intros y Hy Hno. rewrite HC1, Edb; [done|done|]. intros f _. apply Hno. }
  destruct (Z.eqb_spec rc4 SQLITE_OK) as [Hr4|Hr4].
  - destruct (ckpt_done_spec e c4 share plog log sz h l1 nb mx HK4) as (c5 & rc5 & l5 & nb5 & -> & HK5 & Ec5 & Hw5 & Hnb5 & Hl5 & Hpg5); [lia|].
    rewrite Es4, Hw3 in Hw5, Hpg5. exists c5, rc5, l5, nb5. split_and!; [done|done|by rewrite Ec5, Ec4|done|intros ->; by destruct Hnb5 as [[_ ?]|[? _]]| |].
    + intros j Hj. rewrite Hl5 by done. by apply Hl1.
    + split.
      * intros y Hy Hyn Hno. rewrite Hpg5 by done. by apply Hsame.
      * intros Hne. destruct Hnb5 as [[_ ->]|[_ ->]]; [|done]. split; [done|]. intros y f g Hy Hf Hfg. rewrite Hpg5; [|done|left; apply Hf].
        eapply HC2; [done|lia|done|done].
  - exists c4, rc4, l1, nb. split_and!; [done|done|by rewrite Ec4|by rewrite Es4|done|done|]. split; [by auto|done].
Qed.

Lemma backfilled_same plog log h iLast sz nb np c c' :
  content (db c') = content (db c) -> backfilled plog log h iLast sz nb nb np c c' nb.
Proof. intros E. split; [intros; by rewrite E|done]. Qed.

(** The result of the first part: [mx] is the last frame that was to be copied, [nb] if none
    was. *)
Record ran (e : ckpt_env) (plog : list Z) (log : list frame) (sz : Z) (h : WalIndexHdr) (l : list Z) (nb : Z) (c c' : CSt)
  (share' : gmap Z Z) (l' : list Z) (nb' mx : Z) : Prop := {
  rn_ok : ckpt_ok e c' share' plog log sz h l' nb';
  rn_log : content (fd (conn c')) = content (fd (conn c));
  rn_wal : same_wal (wal (c_st c)) (wal (c_st c'));
  rn_nb : nb' = nb \/ nb' = mx;
  rn_mx : nb <= mx /\ (mx = nb \/ mx <= mxFrame (hdr (wal (c_st c))));
  rn_db : backfilled plog log h (mxFrame (hdr (wal (c_st c)))) sz nb mx (nPage (hdr (wal (c_st c)))) c c' nb';
  rn_marks : forall j, 1 <= j < WAL_NREADER -> held (ce_readlock e j) (c_st c) ->
    l' !! Z.to_nat (ckpt_aReadMark j) = l !! Z.to_nat (ckpt_aReadMark j) /\
    forall m, l !! Z.to_nat (ckpt_aReadMark j) = Some m -> mx = nb \/ mx <= m;
  rn_zero : held (ce_readlock e 0) (c_st c) -> db c' = db c;
  rn_idle : mx = nb -> db c' = db c
}.

Lemma held_wal a s s' : same_wal (wal s) (wal s') -> held a s -> held a s'.
Proof. intros (ap & ro & E) [H1 H2]. split; [by rewrite E|done]. Qed.

Lemma ckpt_run_spec e eMode xBusy c share plog log sz h l nb :
  ckpt_ok e c share plog log sz h l nb -> (eMode = SQLITE_CHECKPOINT_PASSIVE -> xBusy = false) -> nb < mxFrame (hdr (wal (c_st c))) ->
  exists c' rc xBusy' out share' l' nb' mx, ckpt_run e eMode xBusy sz c = Some (c', rc, xBusy', out) /\
    ran e plog log sz h l nb c c' share' l' nb' mx /\ (out = true -> rc <> SQLITE_OK).
Proof.
  intros HK Hmode Hwork. unfold ckpt_run.
  assert (Hg : (eMode =? SQLITE_CHECKPOINT_PASSIVE) && xBusy = false).
  { destruct (Z.eqb_spec eMode SQLITE_CHECKPOINT_PASSIVE) as [E|]; [by rewrite (Hmode E)|done]. }
  rewrite Hg. destruct (ckpt_marks_spec (Z.to_nat (WAL_NREADER - 1)) e c share plog log sz h l nb 1 (mxFrame (hdr (wal (c_st c)))) xBusy SQLITE_OK HK)
    as (s1 & mx & xB & rc1 & out & l1 & E1 & Hw1 & HK1 & Hle & Hout & Hheld & Hlow); [lia|done|done|].
  rewrite E1. cbn -[walIteratorInit ckpt_backfill]. set (c1 := set_st s1 c) in *.
  assert (Hsw1 : same_wal (wal (c_st c)) (wal (c_st c1))) by (change (c_st c1) with s1; rewrite Hw1; apply same_wal_refl).
  assert (Hidle : forall share2 c2 l2, ckpt_ok e c2 share2 plog log sz h l2 nb -> content (fd (conn c2)) = content (fd (conn c)) -> db c2 = db c ->
    same_wal (wal (c_st c)) (wal (c_st c2)) -> (forall j, 1 <= j < WAL_NREADER -> held (ce_readlock e j) (c_st c) -> l2 !! Z.to_nat (ckpt_aReadMark j) = l !! Z.to_nat (ckpt_aReadMark j)) ->
    ran e plog log sz h l nb c c2 share2 l2 nb nb).
  { intros share2 c2 l2 HK2 Ec2 Ed2 Hw2 Hm2. split; try done; [by left|split; [lia|by left]|apply backfilled_same; by rewrite Ed2|].
    intros j Hj Hh. split; [by apply Hm2|by left]. }
  assert (Hmarks : forall j, 1 <= j < WAL_NREADER -> held (ce_readlock e j) (c_st c) -> l1 !! Z.to_nat (ckpt_aReadMark j) = l !! Z.to_nat (ckpt_aReadMark j)).
  { intros j Hj Hh. by apply Hheld. }
  destruct out.
  { exists c1, rc1, xB, true, share, l1, nb, nb. split_and!; [done|by apply Hidle|by apply Hout]. }
  destruct (ckpt_ok_get e c1 share plog log sz h l1 nb ckpt_nBackfill HK1) as (v & Ev & Hv); [done|].
  change (c_st c1) with s1 in Ev. rewrite Ev. destruct (ck_nb _ _ _ _ _ _ _ _ _ HK1) as [Hnb Hnb0]. change (Z.to_nat ckpt_nBackfill) with 24%nat in Hv. rewrite Hnb in Hv. injection Hv as <-.
  cbn -[walIteratorInit ckpt_backfill].
  destruct (Z.ltb_spec nb mx) as [Hlt|Hge].
  2:{ cbn. exists c1. eexists _, xB, false, share, l1, nb, nb. split; [done|]. split; [|done]. by apply Hidle. }
  pose proof (ck_log _ _ _ _ _ _ _ _ _ HK) as [Hlog Hll]. pose proof (ck_hdr _ _ _ _ _ _ _ _ _ HK) as [_ Hh].
  destruct (iterator_init_spec plog (mxFrame (hdr (wal (c_st c)))) ltac:(lia) (ck_pgno _ _ _ _ _ _ _ _ _ HK) (ce_pages e) (ce_malloc e) nb s1 share)
    as (s2 & rc2 & op & share2 & E2 & HG & HOK & Herr); [apply HK1|apply HK1|apply HK1|by rewrite Hw1|lia|rewrite Hw1; apply HK|].
  rewrite E2. cbn -[ckpt_backfill walBusyLock]. pose proof (ckpt_ok_grows e c1 share plog log sz h l1 nb s2 share2 HK1 HG) as HK2.
  change (set_st s2 c1) with (set_st s2 c) in *. set (c2 := set_st s2 c) in *.
  assert (Hsw2 : same_wal (wal (c_st c)) (wal (c_st c2))) by (eapply same_wal_trans; [exact Hsw1|apply HG]).
  assert (Hh2 : hdr (wal (c_st c2)) = hdr (wal (c_st c))) by (destruct Hsw2 as (ap & ro & ->); done).
  destruct (decide (rc2 = SQLITE_OK)) as [Hr2|Hr2].
  2:{ rewrite (Herr Hr2). cbn. exists c2. eexists _, xB, false, share2, l1, nb, nb. split; [done|]. split; [by apply Hidle|done]. }
  destruct (HOK Hr2) as (p & -> & Hpr & HP & Hnp & Hmap). cbn -[ckpt_backfill walBusyLock].
  destruct (Z.eqb_spec (walBusyLock xB (ce_readlock e 0) s2) SQLITE_OK) as [El0|El0]; cbn [negb].
  2:{ cbn -[walBusyLock]. exists c2. eexists _, xB, false, share2, l1, nb, nb. split; [done|]. split; [by apply Hidle|done]. }
  assert (Hfree : ~ held (ce_readlock e 0) (c_st c)).
  { intros Hh0. rewrite busy_lock_held in El0; [done|]. by apply (held_wal _ (c_st c)). }
  destruct (ckpt_ok_get e c2 share2 plog log sz h l1 nb ckpt_nBackfill HK2) as (v & Ev2 & Hv); [done|].
  change (c_st c2) with s2 in Ev2. rewrite Ev2. change (Z.to_nat ckpt_nBackfill) with 24%nat in Hv. rewrite Hnb in Hv. injection Hv as <-. cbn -[ckpt_backfill walBusyLock walIndexHdr].
  rewrite (walIndexHdr_spec s2 share2 plog h) by apply HK2. cbn -[ckpt_backfill walBusyLock].
  destruct (bool_decide (aSalt h = aSalt (hdr (wal s2)))); cbn [negb].
  2:{ cbn -[walBusyLock]. exists c2. eexists _, xB, false, share2, l1, nb, nb. split; [done|]. split; [by apply Hidle|done]. }
  destruct (ckpt_backfill_spec e c2 share2 plog log sz h l1 nb mx p HK2 Hlt) as (c3 & rc3 & l3 & nb3 & E3 & HK3 & Ec3 & Hw3 & Hok3 & Hl3 & HB);
    [by rewrite Hh2|done|by rewrite Hh2|by rewrite Hh2, <- Hw1|by rewrite Hh2|].
  rewrite Hh2 in E3, HB. rewrite E3. cbn. exists c3. eexists _, xB, false, share2, l3, nb3, mx. split; [done|]. split; [|done].
  split; try done.
  - by rewrite Hw3.
  - destruct (decide (nb3 = nb)); [by left|right]. by apply HB.
  - split; [lia|by right].
  - destruct HB as [HB1 HB2]. split; done.
  - intros j Hj Hhj. rewrite (Hl3 j Hj). split; [by apply Hmarks|]. intros m Hm. right. by apply (Hheld j Hj Hhj).
  - intros ->. lia.
Qed.

(** ** The whole checkpoint *)

(** The locks that the caller holds in each mode, and the random salt. *)
Definition mode_ok (e : ckpt_env) (eMode : Z) (xBusy : bool) (c : CSt) : Prop :=
  (eMode = SQLITE_CHECKPOINT_PASSIVE -> xBusy = false) /\ (eMode <> SQLITE_CHECKPOINT_PASSIVE -> writeLock (wal (c_st c)) <> 0) /\ is_u32 (ce_salt1 e).

Lemma checkpoint_spec e eMode xBusy c share plog log sz h l nb :
  ckpt_ok e c share plog log sz h l nb -> mode_ok e eMode xBusy c ->
  exists c' rc c1 share1 l1 nb1 mx, walCheckpoint e eMode xBusy c = Some (c', rc) /\ ran e plog log sz h l nb c c1 share1 l1 nb1 mx /\
    db c' = db c1 /\ (rc = SQLITE_OK -> eMode <> SQLITE_CHECKPOINT_PASSIVE -> nb1 = mxFrame (hdr (wal (c_st c)))) /\
    (c' = c1 \/
     eMode = SQLITE_CHECKPOINT_TRUNCATE /\ nb1 = mxFrame (hdr (wal (c_st c))) /\ ~ held (ce_restart e) (c_st c) /\
       mxFrame (hdr (wal (c_st c'))) = 0 /\ walIndexHdr (c_st c') = Some (hdr (wal (c_st c')))).
Proof.
  intros HK (Hm1 & Hm2 & Hsalt). unfold walCheckpoint. rewrite (ck_size _ _ _ _ _ _ _ _ _ HK).
  destruct (ckpt_ok_get e c share plog log sz h l nb ckpt_nBackfill HK) as (v & -> & Hv); [done|].
  destruct (ck_nb _ _ _ _ _ _ _ _ _ HK) as [Hnb Hnb0]. change (Z.to_nat ckpt_nBackfill) with 24%nat in Hv. rewrite Hnb in Hv. injection Hv as <-.
  cbn -[ckpt_run ckpt_restart].
  assert (Hrun : exists c1 rc xB out share1 l1 nb1 mx,
    (if nb <? mxFrame (hdr (wal (c_st c))) then ckpt_run e eMode xBusy sz c else Some (c, SQLITE_OK, xBusy, false)) = Some (c1, rc, xB, out) /\
    ran e plog log sz h l nb c c1 share1 l1 nb1 mx /\ (out = true -> rc <> SQLITE_OK)).
  { destruct (Z.ltb_spec nb (mxFrame (hdr (wal (c_st c))))) as [Hlt|Hge]; [by eapply ckpt_run_spec|].
    exists c, SQLITE_OK, xBusy, false, share, l, nb, nb. split; [done|]. split; [|done].
    split; [done|done|apply same_wal_refl|by left|split; [lia|by left]|by apply backfilled_same| |done|done]. intros j Hj Hh. split; [done|by left]. }
  destruct Hrun as (c1 & rc & xB & out & share1 & l1 & nb1 & mx & -> & HR & Hout). cbn -[ckpt_restart].
  destruct out; [exists c1, rc, c1, share1, l1, nb1, mx; split_and!; try done; [by intros ?%Hout|by left]|].
  destruct (Z.eqb_spec rc SQLITE_OK) as [->|Hrc]; cbn [andb];
    [|exists c1, rc, c1, share1, l1, nb1, mx; split_and!; try done; by left].
  destruct (Z.eqb_spec eMode SQLITE_CHECKPOINT_PASSIVE) as [Hp|Hp]; cbn [negb];
    [exists c1, SQLITE_OK, c1, share1, l1, nb1, mx; split_and!; try done; by left|].
  pose proof (rn_ok _ _ _ _ _ _ _ _ _ _ _ _ _ HR) as HK1. destruct (rn_wal _ _ _ _ _ _ _ _ _ _ _ _ _ HR) as (ap & ro & Ew).
  assert (Hwl : writeLock (wal (c_st c1)) <> 0) by (rewrite Ew; by apply Hm2). assert (Hh1 : hdr (wal (c_st c1)) = hdr (wal (c_st c))) by by rewrite Ew.
  unfold ckpt_restart. rewrite (proj2 (Z.eqb_neq _ _) Hwl).
  destruct (ckpt_ok_get e c1 share1 plog log sz h l1 nb1 ckpt_nBackfill HK1) as (v & -> & Hv); [done|].
  destruct (ck_nb _ _ _ _ _ _ _ _ _ HK1) as [Hnb1 Hnb10]. change (Z.to_nat ckpt_nBackfill) with 24%nat in Hv. rewrite Hnb1 in Hv. injection Hv as <-.
  cbn -[walRestartHdr walBusyLock]. rewrite Hh1.
  pose proof (ck_writer _ _ _ _ _ _ _ _ _ HK1 Hwl) as Hlive. rewrite Hh1 in Hlive.
  destruct (Z.ltb_spec nb1 (mxFrame (hdr (wal (c_st c))))) as [Hlt|Hge].
  { exists c1, SQLITE_BUSY, c1, share1, l1, nb1, mx. split_and!; try done. by left. }
  assert (Heq : nb1 = mxFrame (hdr (wal (c_st c)))) by (rewrite Hlive in *; lia).
  assert (Hstay : forall rc', exists c' rc c2 share2 l2 nb2 mx2, Some (c1, rc') = Some (c', rc) /\ ran e plog log sz h l nb c c2 share2 l2 nb2 mx2 /\
    db c' = db c2 /\ (rc = SQLITE_OK -> eMode <> SQLITE_CHECKPOINT_PASSIVE -> nb2 = mxFrame (hdr (wal (c_st c)))) /\
    (c' = c2 \/ eMode = SQLITE_CHECKPOINT_TRUNCATE /\ nb2 = mxFrame (hdr (wal (c_st c))) /\ ~ held (ce_restart e) (c_st c) /\
       mxFrame (hdr (wal (c_st c'))) = 0 /\ walIndexHdr (c_st c') = Some (hdr (wal (c_st c'))))).
  { intros rc'. exists c1, rc', c1, share1, l1, nb1, mx. split_and!; try done. by left. }
  destruct (SQLITE_CHECKPOINT_RESTART <=? eMode); [|apply Hstay]. rewrite (proj2 (Z.eqb_eq _ _) Heq). cbn [negb].
  destruct (Z.eqb_spec (walBusyLock xB (ce_restart e) (c_st c1)) SQLITE_OK) as [Hl|Hl]; cbn [negb]; [|apply Hstay].
  destruct (Z.eqb_spec eMode SQLITE_CHECKPOINT_TRUNCATE) as [Ht|Ht]; [|apply Hstay].
  destruct (ck_log _ _ _ _ _ _ _ _ _ HK1) as [_ Hll]. destruct (ck_hdr _ _ _ _ _ _ _ _ _ HK1) as [Hho Hhm].
  destruct (restart_spec (ce_pages e) (ce_salt1 e) (c_st c1) share1 plog h l1) as (s2 & -> & HT & _ & Hmx & _);
    [|apply HK1|done|apply HK1|apply HK1|].
  { split; [apply HK1|apply HK1|done|done|rewrite Hh1, Hlive in *; lia|]. intros f Hf. rewrite Hh1, Hlive in Hf. lia. }
  cbn. destruct (sqlite3OsTruncate 0 (fd (conn c1))) as [f rc3]. eexists _, rc3, c1, share1, l1, nb1, mx. split_and!; try done.
  right. split_and!; try done.
  - intros Hh. rewrite busy_lock_held in Hl; [done|]. eapply held_wal; [|done]. by exists ap, ro.
  - cbn. eapply walIndexHdr_spec; apply HT.
Qed.

Lemma reads_newest plog log lo hi y :
  take (length log) plog = f_pgno <$> log -> hi <= len log -> 0 <= hi ->
  newest plog lo hi y (last_frame (f_pgno <$> log) lo y (Z.to_nat hi)).
Proof.
  intros Hlog Hhi H0. pose proof (last_frame_latest (f_pgno <$> log) lo y (Z.to_nat hi)) as HL. rewrite Z2Nat.id in HL by done.
  assert (Hsame : forall j, hit (f_pgno <$> log) 0 lo hi y j <-> hit plog 0 lo hi y j).
  { intros j. unfold hit. rewrite <- Hlog. split; intros [H1 H2]; (split; [|done]); [|rewrite lookup_take_lt by lia; done].
    apply lookup_take_Some in H1. tauto. }
  destruct HL as [[E HL]|(j & Hj & E & HL)]; rewrite E; [left|right].
  - split; [done|]. intros j. by rewrite <- Hsame.
  - exists j. split_and!; [by apply Hsame|done|]. intros j' Hj'. apply HL. by apply Hsame.
Qed.

Lemma newest_hit plog lo hi y r f : newest plog lo hi y r -> lo <= f <= hi -> 1 <= f -> plog !! Z.to_nat (f - 1) = Some y -> r <> 0.
Proof.
  intros [[-> H]|(j & [_ Hj] & -> & _)] Hf Hf1 Hy; [|lia]. exfalso. apply (H (Z.to_nat (f - 1))). split; [done|lia].
Qed.

Lemma reads_eq plog log c sz lo hi y r :
  take (length log) plog = f_pgno <$> log -> hi <= len log -> 0 <= hi -> newest plog lo hi y r ->
  reads log c sz lo hi y = if r =? 0 then Some (db_page c sz y) else f_data <$> log !! Z.to_nat (r - 1).
Proof.
  intros Hlog Hhi H0 Hr. unfold reads. by rewrite (newest_unique _ _ _ _ _ _ (reads_newest plog log lo hi y Hlog Hhi H0) Hr).
Qed.

Lemma newest_ex plog log lo hi y : take (length log) plog = f_pgno <$> log -> hi <= len log -> 0 <= hi -> exists r, newest plog lo hi y r.
Proof. intros. eexists. by apply reads_newest with (log := log). Qed.

(** A reader whose range has every frame that was to be copied sees the same pages. *)
Lemma reads_stable plog log h iLast sz nb mx np c c' nb' lo hi y :
  take (length log) plog = f_pgno <$> log -> backfilled plog log h iLast sz nb mx np c c' nb' ->
  0 <= nb -> lo <= nb + 1 -> mx <= hi -> 0 <= hi <= len log -> 1 <= y -> y <= np \/ mx < mxFrame h ->
  reads log (content (db c')) sz lo hi y = reads log (content (db c)) sz lo hi y.
Proof.
  intros Hlog HB Hnb Hlo Hmx Hhi Hy Hyn. destruct (newest_ex plog log lo hi y Hlog) as [r Hr]; [lia..|].
  rewrite !(reads_eq plog log _ sz lo hi y r) by (done || lia). destruct (Z.eqb_spec r 0) as [->|]; [|done]. f_equal.
  apply (bf_same _ _ _ _ _ _ _ _ _ _ _ HB); [done..|]. intros f (Hn & Hf & _).
  destruct (newest_range _ _ _ _ _ Hn) as (_ & Hfy & _); [lia|]. by apply (newest_hit plog lo hi y 0 f Hr); [lia|lia|done|done].
Qed.

(** What was copied is what a reader found in the log. *)
Lemma reads_moved plog log h iLast sz nb mx np c c' hi y :
  take (length log) plog = f_pgno <$> log -> backfilled plog log h iLast sz nb mx np c c' mx -> 0 < iLast <= len plog ->
  0 <= nb < mx -> mx <= iLast -> iLast <= hi <= len log -> 1 <= y <= np ->
  reads log (content (db c')) sz (mx + 1) hi y = reads log (content (db c)) sz (nb + 1) hi y.
Proof.
  intros Hlog HB Hlast Hnb Hmx Hhi Hy.
  destruct (newest_ex plog log (nb + 1) mx y Hlog) as [r1 Hr1]; [lia..|]. destruct (newest_ex plog log (mx + 1) hi y Hlog) as [r2 Hr2]; [lia..|].
  rewrite (reads_eq plog log _ sz (mx + 1) hi y r2) by (done || lia).
  rewrite (reads_eq plog log _ sz (nb + 1) hi y (if r2 =? 0 then r1 else r2)) by (try apply (newest_join _ _ mx); done || lia).
  destruct (Z.eqb_spec r2 0) as [->|H2]; [|by rewrite (proj2 (Z.eqb_neq _ _) H2)].
  destruct (Z.eqb_spec r1 0) as [->|H1].
  - f_equal. apply (bf_same _ _ _ _ _ _ _ _ _ _ _ HB); [lia|left; lia|]. intros f (Hn & Hf & _).
    destruct (newest_range _ _ _ _ _ Hn) as (_ & Hfy & _); [lia|]. by apply (newest_hit plog (nb + 1) mx y 0 f Hr1); [lia|lia|done|done].
  - destruct (newest_range _ _ _ _ _ Hr1 H1) as (Hr & _ & _). set (b := walFramePage (nb + 1)).
    assert (He : edge iLast b <= nb).
    { destruct (walFramePage_bounds (nb + 1)) as [Hb Hz]; [lia|]. fold b in Hb, Hz.
      destruct (edge_page plog iLast Hlast b) as (-> & _); [split; [done|apply walFramePage_mono; lia]|lia]. }
    destruct (newest_ex plog log (edge iLast b + 1) nb y Hlog) as [r0 Hr0]; [lia..|].
    assert (Hend : newest plog (mx + 1) iLast y 0).
    { destruct (newest_ex plog log (mx + 1) iLast y Hlog) as [r3 Hr3]; [lia..|]. destruct (decide (r3 = 0)) as [->|H3]; [done|].
      destruct (newest_range _ _ _ _ _ Hr3 H3) as (Hr3' & Hy3 & _). destruct (newest_hit plog (mx + 1) hi y 0 r3 Hr2); [lia|lia|done|done]. }
    pose proof (newest_join plog (edge iLast b + 1) nb mx y r0 r1 ltac:(lia) ltac:(lia) Hr0 Hr1) as HJ. rewrite (proj2 (Z.eqb_neq _ _) H1) in HJ.
    pose proof (newest_join plog (edge iLast b + 1) mx iLast y r1 0 ltac:(lia) ltac:(lia) HJ Hend) as HJ2. cbn in HJ2.
    destruct (lookup_lt_is_Some_2 log (Z.to_nat (r1 - 1))) as [g Hg]; [lia|]. rewrite Hg. cbn. f_equal.
    eapply (bf_data _ _ _ _ _ _ _ _ _ _ _ HB); [lia|lia| |done]. split_and!; [done|lia..].
Qed.

(** The result of the first part for a reader that holds the lock of mark [j]. *)
Lemma ran_isolates e plog log sz h l nb c c' share' l' nb' mx share j m lo hi y :
  ckpt_ok e c share plog log sz h l nb -> ran e plog log sz h l nb c c' share' l' nb' mx ->
  1 <= j < WAL_NREADER -> held (ce_readlock e j) (c_st c) -> l !! Z.to_nat (ckpt_aReadMark j) = Some m ->
  m <= hi <= len log -> lo <= nb + 1 -> 1 <= y ->
  y <= nPage (hdr (wal (c_st c))) \/ hi < mxFrame h \/ mxFrame (hdr (wal (c_st c))) < mxFrame h ->
  reads log (content (db c')) sz lo hi y = reads log (content (db c)) sz lo hi y.
Proof.
  intros HK HR Hj Hh Hm Hhi Hlo Hy Hyn. pose proof (ck_nb _ _ _ _ _ _ _ _ _ HK) as [_ Hnb].
  destruct (rn_mx _ _ _ _ _ _ _ _ _ _ _ _ _ HR) as [Hnm Hmx]. destruct (rn_marks _ _ _ _ _ _ _ _ _ _ _ _ _ HR j Hj Hh) as [_ Hmm].
  destruct (decide (mx = nb)) as [E|Hne]; [by rewrite (rn_idle _ _ _ _ _ _ _ _ _ _ _ _ _ HR E)|].
  assert (Hle : mx <= m) by (destruct (Hmm m Hm); [done|lia]).
  eapply reads_stable; [apply HK|apply HR|lia..].
Qed.

(** C14: a checkpoint does not change what a reader sees. For a reader that holds the lock of
    its read mark, whose range starts at or before the first frame that is not in the database
    and ends at or behind its mark, [walCheckpoint] returns, with or without an error, and then
    the log file is unchanged, the mark is unchanged, and every page of the database has the
    same content for the reader. *)
Theorem checkpoint_isolates e eMode xBusy c share plog log sz h l nb j m lo hi :
  ckpt_ok e c share plog log sz h l nb -> mode_ok e eMode xBusy c ->
  1 <= j < WAL_NREADER -> held (ce_readlock e j) (c_st c) -> held (ce_restart e) (c_st c) ->
  walCkptInfo_get (ckpt_aReadMark j) (c_st c) = Some m -> m <= hi <= len log -> lo <= nb + 1 ->
  exists c' rc, walCheckpoint e eMode xBusy c = Some (c', rc) /\
    content (fd (conn c')) = content (fd (conn c)) /\ walCkptInfo_get (ckpt_aReadMark j) (c_st c') = Some m /\
    forall y, 1 <= y -> y <= nPage (hdr (wal (c_st c))) \/ hi < mxFrame h ->
      reads log (content (db c')) sz lo hi y = reads log (content (db c)) sz lo hi y.
Proof.
  intros HK HM Hj Hh Hr Hm Hhi Hlo.
  destruct (checkpoint_spec e eMode xBusy c share plog log sz h l nb HK HM)
    as (c' & rc & c1 & share1 & l1 & nb1 & mx & E & HR & _ & _ & [->|(_ & _ & Hno & _)]); [|done].
  assert (Hi : 0 <= ckpt_aReadMark j < 34) by (unfold ckpt_aReadMark, WAL_NREADER in *; lia).
  destruct (ckpt_ok_get _ _ _ _ _ _ _ _ _ _ HK Hi) as (v & Ev & Hv). rewrite Ev in Hm. injection Hm as ->.
  destruct (ckpt_ok_get _ _ _ _ _ _ _ _ _ _ (rn_ok _ _ _ _ _ _ _ _ _ _ _ _ _ HR) Hi) as (v & Ev1 & Hv1).
  rewrite (proj1 (rn_marks _ _ _ _ _ _ _ _ _ _ _ _ _ HR j Hj Hh)), Hv in Hv1. injection Hv1 as <-.
  exists c1, rc. split_and!; [done|apply HR|done|]. intros y Hy Hyn. eapply ran_isolates; [done..|tauto].
Qed.

(** C15: a checkpoint moves frames into the database file. [walCheckpoint] returns, and
    there is a frame [nb'], not before the old [nBackfill], such that a reader of the frames
    behind [nb'] sees for each page of the database what a reader of the frames behind
    [nBackfill] saw: the frames up to [nb'] are not needed any more. The index says [nb'] and
    the log file is unchanged, or the log was emptied after all of it had been copied. When a
    checkpoint that is not passive succeeds, all of the log has been copied. *)
Theorem checkpoint_transfers e eMode xBusy c share plog log sz h l nb :
  ckpt_ok e c share plog log sz h l nb -> mode_ok e eMode xBusy c ->
  exists c' rc nb', walCheckpoint e eMode xBusy c = Some (c', rc) /\ nb <= nb' /\
    (forall hi y, mxFrame (hdr (wal (c_st c))) <= hi <= len log -> nb <= hi -> 1 <= y <= nPage (hdr (wal (c_st c))) ->
       reads log (content (db c')) sz (nb' + 1) hi y = reads log (content (db c)) sz (nb + 1) hi y) /\
    (rc = SQLITE_OK -> eMode <> SQLITE_CHECKPOINT_PASSIVE -> nb' = mxFrame (hdr (wal (c_st c)))) /\
    (content (fd (conn c')) = content (fd (conn c)) /\ walCkptInfo_get ckpt_nBackfill (c_st c') = Some nb' \/
     eMode = SQLITE_CHECKPOINT_TRUNCATE /\ nb' = mxFrame (hdr (wal (c_st c))) /\
       mxFrame (hdr (wal (c_st c'))) = 0 /\ walIndexHdr (c_st c') = Some (hdr (wal (c_st c')))).
Proof.
  intros HK HM. destruct (checkpoint_spec e eMode xBusy c share plog log sz h l nb HK HM)
    as (c' & rc & c1 & share1 & l1 & nb1 & mx & E & HR & Ed & HOK & Hend).
  destruct HR as [HK1 Hlg _ Hn1 [Hnm1 Hmx] HB _ _]. pose proof (ck_nb _ _ _ _ _ _ _ _ _ HK) as [_ Hnb].
  destruct (ck_log _ _ _ _ _ _ _ _ _ HK) as [Hlog Hll].
  exists c', rc, nb1. split_and!; [done|lia| |done|].
  - intros hi y Hhi Hnh Hy. rewrite Ed. destruct (decide (nb1 = nb)) as [->|Hne].
    + eapply reads_stable; [done|exact HB|lia..].
    + assert (nb1 = mx) as -> by lia. eapply reads_moved; [done|exact HB|lia..].
  - destruct Hend as [->|(Ht & Heq & _ & Hz & Hx)]; [left|by right]. split; [done|].
    destruct (ckpt_ok_get _ _ _ _ _ _ _ _ _ ckpt_nBackfill HK1) as (v & -> & Hv); [done|].
    destruct (ck_nb _ _ _ _ _ _ _ _ _ HK1) as [Hnb1 _]. change (Z.to_nat ckpt_nBackfill) with 24%nat in Hv. congruence.
Qed.

(** ** The checkpoint of a log of two frames *)

Definition demo_ckpt_hdr : WalIndexHdr := set_hdr_szPage 512 (set_nPage 2 (set_mxFrame 2 zero_hdr)).

(** Both frames are in the index, and reader 1 has its mark at the first. *)
Definition demo_built : option St :=
  let? (s, _) := walIndexAppend demo_page_env 1 1 (on_wal (set_ckptLock 1) (demo_st demo_ckpt_hdr)) in
  let? (s, _) := walIndexAppend demo_page_env 2 2 s in
  let? s := walIndexWriteHdr s in
  walCkptInfo_put (ckpt_aReadMark 1) 1 s.

Definition demo_pair (s : St) : CSt := CS (WS s (FileRec demo_file [])) (FileRec [] []).

(** Reader 1 holds its lock. *)
Definition demo_ckpt_env (busy : bool) : ckpt_env :=
  CkptEnv demo_page_env true (fun i => if busy && (i =? 1) then [(SQLITE_BUSY, true)] else [(SQLITE_OK, true)])
    (if busy then [] else [(SQLITE_OK, true)]) (fun _ => false) false 5.

Lemma demo_words s : demo_built = Some s -> (fun i => walCkptInfo_get i s) <$> [24; 25; 26] = [Some 0; Some 0; Some 1].
Proof.
  intros E. assert (H : (fun s => (fun i => walCkptInfo_get i s) <$> [24; 25; 26]) <$> demo_built = Some [Some 0; Some 0; Some 1]) by (vm_compute; reflexivity).
  rewrite E in H. by apply (inj Some) in H.
Qed.

Lemma demo_ckpt_ok busy : exists s h l, demo_built = Some s /\
  ckpt_ok (demo_ckpt_env busy) (demo_pair s) {[ 0 := 1 ]} [1; 2] [demo_first; demo_last] 512 h l 0 /\ mxFrame h = 2 /\
  exists c, wal s = set_hdr (set_live c demo_ckpt_hdr) (wal (on_wal (set_ckptLock 1) (demo_st demo_ckpt_hdr))).
Proof.
  set (s0 := on_wal (set_ckptLock 1) (demo_st demo_ckpt_hdr)). assert (Hm : mapped (wal s0) 0 1) by done.
  destruct (walIndexAppend_spec demo_page_env s0 {[ 0 := 1 ]} [] 0 1) as (s1 & rc1 & share1 & E1 & HV1 & _ & Hm1);
    [by apply inv_wal, demo_inv|by apply env_wal, demo_env_ok|done|lia|done|done|by left|]. destruct (Hm1 1 Hm) as (Hw1 & -> & ->). clear Hm1.
  destruct (walIndexAppend_spec demo_page_env s1 {[ 0 := 1 ]} [1] 1 2) as (s2 & rc2 & share2 & E2 & HV2 & _ & Hm2);
    [apply HV1|apply HV1|by rewrite Hw1|lia|done|done|by left|]. rewrite Hw1 in Hm2. destruct (Hm2 1 Hm) as (Hw2 & -> & ->). clear Hm2.
  change (Z.of_nat 0 + 1) with 1 in E1. change (Z.of_nat 1 + 1) with 2 in E2. revert E1 E2.
  destruct (walIndexWriteHdr_spec demo_page_env s2 {[ 0 := 1 ]} [1; 2]) as (c & s3 & E3 & Hw3 & HRw & Hl3 & _);
    [apply HV2|apply HV2|by rewrite Hw2|rewrite Hw2; split; [unfold hdr_words; rewrite !list.Forall_cons; by split_and!|done..]|].
  revert E3. pose proof HRw as [HI3 HE3 _]. destruct Hl3 as (l & El & Hl3). rewrite Hw2 in Hw3.
  destruct (ckpt_put_spec demo_page_env (ckpt_aReadMark 1) 1 s3 {[ 0 := 1 ]} [1; 2] (hdr (wal s3)) l) as (s4 & E4 & Hw4 & HI4 & HE4 & HL4 & El4);
    [done|done|by exists l|done|done|].
  intros E3 E1 E2. assert (E : demo_built = Some s4).
  { unfold demo_built. fold s0. rewrite E1. cbn -[walIndexAppend walIndexWriteHdr walCkptInfo_put]. rewrite E2.
    cbn -[walIndexWriteHdr walCkptInfo_put]. rewrite E3. exact E4. }
  pose proof (demo_words s4 E) as H. injection H as H0 H1 _. clear E1 E2 E3 E4.
  exists s4, (hdr (wal s3)), (<[26%nat := 1]> l). split; [exact E|]. clear E. split_and!; [|by rewrite Hw3|exists c; by rewrite Hw4, Hw3].
  split; cbn [c_st demo_pair conn st]; rewrite ?Hw4; try done.
  - split; [|by rewrite Hw3]. rewrite <- H0. symmetry. by apply (ckpt_get_spec 24 s4 {[ 0 := 1 ]} [1; 2]).
  - rewrite <- H1. symmetry. by apply (ckpt_get_spec 25 s4 {[ 0 := 1 ]} [1; 2]).
  - by rewrite Hw3.
  - split; [apply Hl3|by rewrite Hw3].
  - by rewrite Hw3.
  - by repeat constructor.
  - by rewrite Hw3.
  - split; [done| |by split; constructor|].
    + split; [|constructor]. apply (bool_decide_unpack (bytes_ok demo_file)). vm_compute. exact I.
    + intros i f. destruct i as [|[|i]]; intros [= <-]; (split_and!; [vm_compute; reflexivity|done|by apply Forall_replicate]).
  - by rewrite Hw3.
Qed.

Lemma demo_mode busy eMode xBusy s : demo_built = Some s -> (eMode = SQLITE_CHECKPOINT_PASSIVE -> xBusy = false) ->
  mode_ok (demo_ckpt_env busy) eMode xBusy (demo_pair s).
Proof.
  intros E Hp. assert (Hw : writeLock ∘ wal <$> demo_built = Some 1) by (vm_compute; reflexivity). rewrite E in Hw. injection Hw as Hw. clear E.
  split_and!; [exact Hp|intros _; cbn; by rewrite Hw|done].
Qed.

Lemma checkpoint_isolates_witness :
  exists s c' rc, demo_built = Some s /\ walCheckpoint (demo_ckpt_env true) SQLITE_CHECKPOINT_RESTART true (demo_pair s) = Some (c', rc) /\
    reads [demo_first; demo_last] (content (db c')) 512 1 1 2 = reads [demo_first; demo_last] [] 512 1 1 2.
Proof.
  destruct (demo_ckpt_ok true) as (s & h & l & E & HK & Hh & c & Hw).
  pose proof (demo_words s E) as Hm. injection Hm as _ _ Hm.
  assert (HM : mode_ok (demo_ckpt_env true) SQLITE_CHECKPOINT_RESTART true (demo_pair s)) by (apply demo_mode; [exact E|discriminate 1]).
  exists s. revert E.
  destruct (checkpoint_isolates (demo_ckpt_env true) SQLITE_CHECKPOINT_RESTART true (demo_pair s) {[ 0 := 1 ]} [1; 2] [demo_first; demo_last] 512 h l 0
    1 1 1 1 HK HM) as (c' & rc & Ec & _ & _ & Hy); [done| | |exact Hm|done|done|].
  - split; [cbn; by rewrite Hw|by repeat constructor].
  - split; [cbn; by rewrite Hw|by constructor].
  - intros E. exists c', rc. split_and!; [exact E|exact Ec|]. apply Hy; [done|]. right. by rewrite Hh.
Defined.

Lemma checkpoint_transfers_witness :
  exists s c' rc nb', demo_built = Some s /\ walCheckpoint (demo_ckpt_env false) SQLITE_CHECKPOINT_TRUNCATE true (demo_pair s) = Some (c', rc) /\
    reads [demo_first; demo_last] (content (db c')) 512 (nb' + 1) 2 1 = Some (replicate 512 65).
Proof.
  destruct (demo_ckpt_ok false) as (s & h & l & E & HK & Hh & c & Hw).
  assert (HM : mode_ok (demo_ckpt_env false) SQLITE_CHECKPOINT_TRUNCATE true (demo_pair s)) by (apply demo_mode; [exact E|discriminate 1]).
  destruct (checkpoint_transfers (demo_ckpt_env false) SQLITE_CHECKPOINT_TRUNCATE true (demo_pair s) {[ 0 := 1 ]} [1; 2] [demo_first; demo_last] 512 h l 0
    HK HM) as (c' & rc & nb' & Ec & _ & Hy & _).
  exists s, c', rc, nb'. split; [exact E|]. clear E. split; [exact Ec|]. clear Ec. rewrite (Hy 2 1); [vm_compute; reflexivity|cbn; by rewrite Hw|done|cbn; by rewrite Hw].
Defined.

(** Both checkpoints succeed; the first copies one page, which is as far as the reader
    allows, and the second copies both and empties the log. *)
Example demo_checkpoints :
  (fun busy => let? s := demo_built in
     let? (c, rc) := walCheckpoint (demo_ckpt_env busy) (if busy then 0 else 3) (negb busy) (demo_pair s) in
     let? nb := walCkptInfo_get ckpt_nBackfill (c_st c) in
     Some (rc, nb, bool_decide (content (db c) = replicate 512 65 ++ if busy then [] else replicate 512 66), len (content (fd (conn c)))))
  <$> [true; false] = [Some (SQLITE_OK, 1, true, 1104); Some (SQLITE_OK, 0, true, 0)].
Proof. vm_compute. reflexivity. Qed.

End WalCheckpoints.
