(* ===== verification/WalRead.v ===== *)
(** * Write-ahead log: the start of a read transaction (src/wal.c)

    - [walIndexTryHdr] and [walIndexReadHdr] read the header of the wal-index and recover the
      index if the header is damaged;
    - [walTryBeginRead] takes the lock of a read mark and checks that the snapshot it read is
      still the current one; [walBeginReadTransaction] repeats it;
    - [walBeginShmUnreliable] is the case of shared memory that cannot be trusted.

    Other connections run in between. What they have done to the pages of the index when the
    code continues at point [k] is the function [rd_other e k]; the points are behind each lock
    call, between the reads of the two copies of the header, between the reads of the marks
    and at the memory barrier. The answers of the locks and of the allocators are the rest of
    the record [read_env]. The build is the default one, without blocking locks and without
    snapshots. *)

From stdpp Require Import list gmap.
From S2P Require Import Prelude Varint WalData WalIndex WalTxn WalFrame WalWrite WalLog WalCommit WalRecover WalSort WalIter WalCkpt.
Import WalTypes WalIndexes WalTxns WalFrames WalWrites WalLogs WalCommits WalRecovery WalIterators WalCheckpoints.
Local Open Scope Z_scope.

Module WalReaders.

(** ** Operations *)

Definition SQLITE_PROTOCOL : Z := 15.
Definition SQLITE_BUSY_RECOVERY : Z := Z.lor SQLITE_BUSY (Z.shiftl 1 8).
Definition SQLITE_READONLY_RECOVERY : Z := Z.lor SQLITE_READONLY (Z.shiftl 1 8).
Definition SQLITE_READONLY_CANTINIT : Z := Z.lor SQLITE_READONLY (Z.shiftl 5 8).
Definition WAL_RETRY : Z := -1.
Definition WAL_RETRY_PROTOCOL_LIMIT : Z := 100.

Record read_env := ReadEnv {
  rd_recover : recover_env;
  rd_other : Z -> gmap Z WalPage -> gmap Z WalPage;
  rd_wlock : Z;                 (** the exclusive lock WAL_WRITE_LOCK *)
  rd_wshared : Z;               (** the shared lock WAL_WRITE_LOCK *)
  rd_rshared : Z;               (** the shared lock WAL_RECOVER_LOCK *)
  rd_shared : Z -> Z;           (** the shared locks WAL_READ_LOCK(i) *)
  rd_mark : Z -> Z;             (** the exclusive locks WAL_READ_LOCK(i) *)
  rd_shm : Z;                   (** the second call of xShmMap, for untrusted memory *)
  rd_malloc : bool              (** whether the buffer for a frame can be allocated *)
}.

Definition rd_pages (e : read_env) : page_env := rv_pages (rd_recover e).

(** The others' steps before point [k]. *)
Definition interfere (e : read_env) (k : Z) (s : St) : St := Sys (wal s) (rd_other e k (pages s)).

Definition walLockShared (lock : Z) (s : St) : Z :=
  if exclusiveMode (wal s) <>? 0 then SQLITE_OK else lock.

(** Copy [i] of the header in page 0. *)
Definition hdr_copy (i : Z) (s : St) : option (list Z) :=
  let? (_, pg) := page0 s in mem_read (words pg) (12 * i) 12.

(** The result has the returned value and [*pChanged]. *)
Definition walIndexTryHdr (e : read_env) (k : Z) (changed : bool) (s : St) : option (St * Z * bool) :=
  let? h1 := hdr_copy 0 s in
  let s := interfere e k s in
  let? h2 := hdr_copy 1 s in
  if negb (bool_decide (h1 = h2)) then Some (s, 1, changed) else
  let? h := words_hdr h1 in
  if isInit h =? 0 then Some (s, 1, changed) else
  let? c := walChecksumBytes true (concat (le32 <$> take 10 h1)) None in
  if (c.1 <>? (aCksum h).1) || (c.2 <>? (aCksum h).2) then Some (s, 1, changed) else
  if bool_decide (hdr_words (hdr (wal s)) = h1) then Some (s, 0, changed)
  else Some (on_wal (fun w => set_szPage (Z.land (hdr_szPage h) 0xfe00 + Z.shiftl (Z.land (hdr_szPage h) 0x0001) 16)
                                (set_hdr h w)) s, 0, true).

(** The pages in heap memory are freed. Unmapping the shared memory is left out. *)
Definition free_pages (s : St) : St :=
  Sys (set_apWiData (const NULL <$> apWiData (wal s)) (wal s)) (foldr delete (pages s) (apWiData (wal s))).

Definition walIndexClose (s : St) : St :=
  if (exclusiveMode (wal s) =? WAL_HEAPMEMORY_MODE) || (bShmUnreliable (wal s) <>? 0) then free_pages s else s.

(** The second attempt, with the write lock. The result has [rc], [badHdr] and [*pChanged]. *)
Definition read_locked (e : read_env) (rc : Z) (changed : bool) (x : WSt) : option (WSt * Z * Z * bool) :=
  let bWriteLock := writeLock (the_wal x) in
  let rc := if bWriteLock <>? 0 then rc else walLockExclusive (rd_wlock e) (st x) in
  if (bWriteLock =? 0) && (rc <>? SQLITE_OK) then Some (x, rc, 1, changed) else
  let s := interfere e 2 (st x) in
  let s := if bWriteLock =? 0 then on_wal (set_writeLock 2) s else s in
  let? (s, rc, p0) := walIndexPage (rd_pages e) 0 s in
  let? (x, rc, bad, changed) :=
    (if rc =? SQLITE_OK then
       let? (s, bad, changed) := walIndexTryHdr e 3 changed s in
       if bad <>? 0 then
         let? (x, rc) := walIndexRecover (rd_recover e) (WS s (fd x)) in Some (x, rc, bad, true)
       else Some (WS s (fd x), rc, bad, changed)
     else Some (WS s (fd x), rc, 1, changed)) in
  Some (if bWriteLock =? 0 then with_wal (set_writeLock 0) x else x, rc, bad, changed).

(** The checks at the end of [walIndexReadHdr]. *)
Definition finish_hdr (bad rc : Z) (changed : bool) (x : WSt) : option (WSt * Z * bool) :=
  let rc := if (bad =? 0) && (iVersion (hdr (the_wal x)) <>? WALINDEX_MAX_VERSION) then SQLITE_CANTOPEN else rc in
  if bShmUnreliable (the_wal x) =? 0 then Some (x, rc, changed) else
  let? (x, rc) :=
    (if rc <>? SQLITE_OK then
       let s := on_wal (set_bShmUnreliable 0) (walIndexClose (st x)) in
       if bool_decide (head (apWiData (wal s)) = Some NULL)
       then Some (WS s (fd x), if rc =? SQLITE_IOERR_SHORT_READ then WAL_RETRY else rc) else None
     else Some (x, rc)) in
  Some (with_wal (set_exclusiveMode WAL_NORMAL_MODE) x, rc, changed).

(** The result code and [*pChanged]. *)
Definition walIndexReadHdr (e : read_env) (changed : bool) (x : WSt) : option (WSt * Z * bool) :=
  let? (s, rc, p0) := walIndexPage (rd_pages e) 0 (st x) in
  let x := WS s (fd x) in
  if (rc <>? SQLITE_OK) && (rc <>? SQLITE_READONLY_CANTINIT) then
    (if rc =? SQLITE_READONLY then None else Some (x, rc, changed)) else
  let? (x, changed) :=
    (if rc <>? SQLITE_OK then
       if (p0 <>? NULL) || (writeLock (the_wal x) <>? 0) || (Z.land (readOnly (the_wal x)) WAL_SHM_RDONLY =? 0) then None
       else Some (with_wal (fun w => set_exclusiveMode WAL_HEAPMEMORY_MODE (set_bShmUnreliable 1 w)) x, true)
     else Some (x, changed)) in
  if negb ((p0 <>? NULL) || (writeLock (the_wal x) =? 0)) then None else
  let? (s, bad, changed) := (if p0 <>? NULL then walIndexTryHdr e 1 changed (st x) else Some (st x, 1, changed)) in
  let x := WS s (fd x) in
  let? (x, rc, bad, changed) :=
    (if bad <>? 0 then
       if (bShmUnreliable (the_wal x) =? 0) && (Z.land (readOnly (the_wal x)) WAL_SHM_RDONLY <>? 0) then
         let rc := walLockShared (rd_wshared e) (st x) in
         Some (x, if rc =? SQLITE_OK then SQLITE_READONLY_RECOVERY else rc, bad, changed)
       else read_locked e rc changed x
     else Some (x, rc, bad, changed)) in
  finish_hdr bad rc changed x.

Definition sqlite3WalEndReadTransaction (s : St) : option St :=
  if negb ((writeLock (wal s) =? 0) || (readLock (wal s) <? 0)) then None else
  if 0 <=? readLock (wal s) then Some (on_wal (set_readLock (-1)) (sqlite3WalEndWriteTransaction s).1)
  else Some s.

(** The frames behind those in the header: [WAL_RETRY] if one of them is a commit. *)
Fixpoint unreliable_frames (fuel : nat) (szFrame szWal iOffset rc : Z) (x : WSt) : option (WSt * Z) :=
  if szWal <? iOffset + szFrame then Some (x, rc) else
  match fuel with
  | O => None
  | S fuel =>
      let '(f, rc, b) := sqlite3OsRead szFrame iOffset (fd x) in
      let x := with_fd f x in
      if rc <>? SQLITE_OK then Some (x, rc) else
      let? (w, r) := walDecodeFrame (drop 24 b) (take 24 b) (the_wal x) in
      let x := with_wal (fun _ => w) x in
      match r with
      | None => Some (x, rc)
      | Some (_, nTruncate) =>
          if nTruncate <>? 0 then Some (x, WAL_RETRY) else unreliable_frames fuel szFrame szWal (iOffset + szFrame) rc x
      end
  end.

(** The part before the label [begin_unreliable_shm_out], once the lock is held. *)
Definition unreliable_check (e : read_env) (changed : bool) (x : WSt) : option (WSt * Z * bool) :=
  let rc := rd_shm e in
  if rc =? SQLITE_OK then None else
  if rc <>? SQLITE_READONLY_CANTINIT then Some (x, if rc =? SQLITE_READONLY then WAL_RETRY else rc, changed) else
  let? h := walIndexHdr (st x) in
  let x := with_hdr (fun _ => h) x in
  let '(f, rc, szWal) := sqlite3OsFileSize (fd x) in
  let x := with_fd f x in
  if rc <>? SQLITE_OK then Some (x, rc, changed) else
  if szWal <? WAL_HDRSIZE then Some (x, if mxFrame (hdr (the_wal x)) =? 0 then SQLITE_OK else WAL_RETRY, true) else
  let '(f, rc, aBuf) := sqlite3OsRead WAL_HDRSIZE 0 (fd x) in
  let x := with_fd f x in
  if rc <>? SQLITE_OK then Some (x, rc, changed) else
  let? salt := mem_read aBuf 16 8 in
  if negb (bool_decide (salt_image (aSalt (hdr (the_wal x))) = salt)) then Some (x, WAL_RETRY, changed) else
  let sz := szPage (the_wal x) in
  if negb ((Z.land sz (sz - 1) =? 0) && (((512 <=? sz) && (sz <=? 65536)) || (sz =? 0))) then None else
  if negb (rd_malloc e) then Some (x, SQLITE_NOMEM, changed) else
  let szFrame := sz + WAL_FRAME_HDRSIZE in
  let ck := aFrameCksum (hdr (the_wal x)) in
  let? (x, rc) := unreliable_frames (S (Z.to_nat szWal)) szFrame szWal (walFrameOffset (u32 (mxFrame (hdr (the_wal x)) + 1)) sz) rc x in
  Some (with_hdr (set_aFrameCksum ck) x, rc, changed).

Definition walBeginShmUnreliable (e : read_env) (changed : bool) (x : WSt) : option (WSt * Z * bool) :=
  let w := the_wal x in
  let? p := mem_get (apWiData w) 0 in
  if (bShmUnreliable w =? 0) || (Z.land (readOnly w) WAL_SHM_RDONLY =? 0) || (p =? NULL) then None else
  let rc := walLockShared (rd_shared e 0) (st x) in
  let? (x, rc, changed) :=
    (if rc <>? SQLITE_OK then Some (x, if rc =? SQLITE_BUSY then WAL_RETRY else rc, changed)
     else unreliable_check e changed (with_wal (set_readLock 0) x)) in
  if rc =? SQLITE_OK then Some (x, rc, changed) else
  let? s := sqlite3WalEndReadTransaction (on_wal (set_bShmUnreliable 0) (free_pages (st x))) in
  Some (WS s (fd x), rc, true).

(** The loop that selects a mark: [best] is [mxReadMark] and [mxI]. *)
Fixpoint scan_marks (n : nat) (e : read_env) (i mxFrame : Z) (best : Z * Z) (s : St) : option (St * (Z * Z)) :=
  match n with
  | O => Some (s, best)
  | S n =>
      let s := interfere e (10 + i) s in
      let? thisMark := walCkptInfo_get (ckpt_aReadMark i) s in
      if (best.1 <=? thisMark) && (thisMark <=? mxFrame) then
        if thisMark =? READMARK_NOT_USED then None else scan_marks n e (i + 1) mxFrame (thisMark, i) s
      else scan_marks n e (i + 1) mxFrame best s
  end.

(** The loop that sets a mark to [mxFrame]: the result has [rc], [best], and whether the code
    returns [rc]. *)
Fixpoint claim_mark (n : nat) (e : read_env) (i mxFrame : Z) (best : Z * Z) (rc : Z) (s : St) : option (St * Z * (Z * Z) * bool) :=
  match n with
  | O => Some (s, rc, best, false)
  | S n =>
      let rc := walLockExclusive (rd_mark e i) s in
      let s := interfere e (20 + i) s in
      if rc =? SQLITE_OK then
        let? s := walCkptInfo_put (ckpt_aReadMark i) mxFrame s in Some (s, rc, (mxFrame, i), false)
      else if rc <>? SQLITE_BUSY then Some (s, rc, best, true)
      else claim_mark n e (i + 1) mxFrame best rc s
  end.

(** The shared lock on mark [best], and the checks behind it. *)
Definition lock_mark (e : read_env) (best : Z * Z) (s : St) : option (St * Z) :=
  let rc := walLockShared (rd_shared e best.2) s in
  let s := interfere e 40 s in
  if rc <>? SQLITE_OK then
    if (Z.land rc 0xFF =? SQLITE_BUSY) && (rc <>? SQLITE_BUSY) then None
    else Some (s, if Z.land rc 0xFF =? SQLITE_BUSY then WAL_RETRY else rc)
  else
  let? nBackfill := walCkptInfo_get ckpt_nBackfill s in
  let s := interfere e 50 (on_wal (set_minFrame (u32 (nBackfill + 1))) s) in
  let? mark := walCkptInfo_get (ckpt_aReadMark best.2) s in
  let? l := hdr_copy 0 s in
  if (mark <>? best.1) || negb (bool_decide (hdr_words (hdr (wal s)) = l)) then Some (s, WAL_RETRY) else
  if mxFrame (hdr (wal s)) <? best.1 then None else Some (on_wal (set_readLock best.2) s, rc).

(** A reader that uses the log. [rc] is the result code so far. *)
Definition use_log (e : read_env) (rc : Z) (s : St) : option (St * Z) :=
  let mx := mxFrame (hdr (wal s)) in
  let shared := Z.land (readOnly (wal s)) WAL_SHM_RDONLY <>? 0 in
  let? (s, best) := scan_marks (Z.to_nat (WAL_NREADER - 1)) e 1 mx (0, 0) s in
  let? (s, rc, best, ret) :=
    (if negb shared && ((best.1 <? mx) || (best.2 =? 0)) then
       claim_mark (Z.to_nat (WAL_NREADER - 1)) e 1 mx best rc s
     else Some (s, rc, best, false)) in
  if (ret : bool) then Some (s, rc) else
  if best.2 =? 0 then
    if negb ((rc =? SQLITE_BUSY) || shared) then None
    else Some (s, if rc =? SQLITE_BUSY then WAL_RETRY else SQLITE_READONLY_CANTINIT)
  else lock_mark e best s.

(** From the assertions on the mapping to the end of [walTryBeginRead]. *)
Definition lock_snapshot (e : read_env) (useWal : bool) (s : St) : option (St * Z) :=
  let s := interfere e 30 s in
  let? nBackfill := walCkptInfo_get ckpt_nBackfill s in
  if negb useWal && (nBackfill =? mxFrame (hdr (wal s))) then
    let rc := walLockShared (rd_shared e 0) s in
    let s := interfere e 31 s in
    if rc =? SQLITE_OK then
      let? l := hdr_copy 0 s in
      if negb (bool_decide (hdr_words (hdr (wal s)) = l)) then Some (s, WAL_RETRY)
      else Some (on_wal (set_readLock 0) s, SQLITE_OK)
    else if rc <>? SQLITE_BUSY then Some (s, rc) else use_log e rc s
  else use_log e SQLITE_OK s.

(** The header is read; the result has [rc] and [*pChanged]. *)
Definition begin_header (e : read_env) (changed : bool) (x : WSt) : option (WSt * Z * bool) :=
  let? (x, rc, changed) :=
    (if bShmUnreliable (the_wal x) =? 0 then walIndexReadHdr e changed x else Some (x, SQLITE_OK, changed)) in
  if rc =? SQLITE_BUSY then
    let? p := mem_get (apWiData (the_wal x)) 0 in
    if p =? NULL then Some (x, WAL_RETRY, changed) else
    let rc := walLockShared (rd_rshared e) (st x) in
    Some (x, if rc =? SQLITE_OK then WAL_RETRY else if rc =? SQLITE_BUSY then SQLITE_BUSY_RECOVERY else rc, changed)
  else Some (x, rc, changed).

(** The result has [rc], [*pCnt] and [*pChanged]. *)
Definition walTryBeginRead (e : read_env) (useWal : bool) (cnt : Z) (changed : bool) (x : WSt) : option (WSt * Z * Z * bool) :=
  if negb (readLock (the_wal x) <? 0) then None else
  if (Z.land (readOnly (the_wal x)) WAL_SHM_RDONLY <>? 0) && useWal then None else
  let cnt := cnt + 1 in
  if (5 <? cnt) && (WAL_RETRY_PROTOCOL_LIMIT <? cnt) then Some (x, SQLITE_PROTOCOL, cnt, changed) else
  let? (x, rc, changed) := (if useWal then Some (x, SQLITE_OK, changed) else begin_header e changed x) in
  if rc <>? SQLITE_OK then Some (x, rc, cnt, changed) else
  if negb useWal && (bShmUnreliable (the_wal x) <>? 0) then
    let? (x, rc, changed) := walBeginShmUnreliable e changed x in Some (x, rc, cnt, changed)
  else
    let? (s, rc) := lock_snapshot e useWal (st x) in Some (WS s (fd x), rc, cnt, changed).

(** The loop; [e cnt] is the environment of the attempt that follows [cnt] others. *)
Fixpoint read_attempts (fuel : nat) (e : Z -> read_env) (cnt : Z) (changed : bool) (x : WSt) : option (WSt * Z * bool) :=
  match fuel with
  | O => None
  | S fuel =>
      let? (x, rc, cnt', changed) := walTryBeginRead (e cnt) false cnt changed x in
      if rc =? WAL_RETRY then read_attempts fuel e cnt' changed x else Some (x, rc, changed)
  end.

Definition walBeginReadTransaction (e : Z -> read_env) (changed : bool) (x : WSt) : option (WSt * Z * bool) :=
  if ckptLock (the_wal x) <>? 0 then None
  else read_attempts (Z.to_nat (WAL_RETRY_PROTOCOL_LIMIT + 1)) e 0 changed x.

(** ** What recovery leaves alone *)

(** The flag for untrusted memory stays, and the array of pages does not become shorter. *)
Definition calm (w w' : Wal) : Prop := bShmUnreliable w' = bShmUnreliable w /\ nWiData w <= nWiData w'.

Lemma calm_refl w : calm w w.
Proof. split; [done|lia]. Qed.

Lemma calm_trans w1 w2 w3 : calm w1 w2 -> calm w2 w3 -> calm w1 w3.
Proof. intros [H1 H2] [H3 H4]. split; [congruence|lia]. Qed.

(** Changes of other fields. *)
Lemma calm_same w w' : bShmUnreliable w' = bShmUnreliable w -> apWiData w' = apWiData w -> calm w w'.
Proof. intros H1 H2. split; [done|]. unfold nWiData. rewrite H2. lia. Qed.

Lemma calm_slot w i p ap : mem_put (apWiData w) i p = Some ap -> calm w (set_apWiData ap w).
Proof. unfold mem_put. intros H. case_match; simplify_eq. split; [done|]. unfold nWiData. cbn. rewrite length_insert. lia. Qed.

(** The cases of a run that returned. *)
Ltac run_cases := repeat (first [case_match | progress simplify_eq]).

(** The steps of a run, one behind the other. *)
Ltac calm_steps :=
  repeat match goal with
  | H : calm ?w _ |- calm ?w _ => apply (calm_trans _ _ _ H); clear H
  | |- calm ?w ?w => apply calm_refl
  | |- _ => by apply calm_same
  end.

Lemma index_page_calm e b s s' rc p : walIndexPage e b s = Some (s', rc, p) -> calm (wal s) (wal s').
Proof.
  unfold walIndexPage, walIndexPageRealloc. intros H. run_cases; try apply calm_refl;
    match goal with H : mem_put ?ap _ _ = Some _ |- _ =>
      unfold mem_put in H; case_match; simplify_eq; (split; [done|]); unfold nWiData; cbn; rewrite length_insert, length_app; lia end.
Qed.

Lemma hash_get_calm e b s s' rc l : walHashGet e b s = Some (s', rc, l) -> calm (wal s) (wal s').
Proof. unfold walHashGet. intros H. run_cases; eauto using index_page_calm. Qed.

Lemma cleanup_calm e s s' : walCleanupHash e s = Some s' -> calm (wal s) (wal s').
Proof.
  unfold walCleanupHash. intros H. run_cases; cbn [wal set_page]; try apply calm_refl;
    by match goal with H : walHashGet _ _ _ = _ |- _ => apply hash_get_calm in H end.
Qed.

Lemma append_clear_calm e l i s s' : append_clear e l i s = Some s' -> calm (wal s) (wal s').
Proof. unfold append_clear. intros H. run_cases; try apply calm_refl; by match goal with H : walCleanupHash _ _ = _ |- _ => apply cleanup_calm in H end. Qed.

Lemma append_calm e f x s s' rc : walIndexAppend e f x s = Some (s', rc) -> calm (wal s) (wal s').
Proof.
  unfold walIndexAppend. intros H. run_cases; cbn [wal set_page];
    repeat match goal with
    | H : walHashGet _ _ _ = _ |- _ => apply hash_get_calm in H
    | H : append_clear _ _ _ _ = _ |- _ => apply append_clear_calm in H
    end; calm_steps.
Qed.

Lemma decode_calm d f w w' r : walDecodeFrame d f w = Some (w', r) -> calm w w'.
Proof. unfold walDecodeFrame. intros H. run_cases; by apply calm_same. Qed.

Lemma note_commit_calm sz i n ck x x' ck' : note_commit sz i n ck x = (x', ck') -> calm (the_wal x) (the_wal x').
Proof. unfold note_commit. intros H. run_cases; by apply calm_same. Qed.

Lemma recover_frames_calm n : forall e sz i ck rc x x' rc' i' ck',
  recover_frames n e sz i ck rc x = Some (x', rc', i', ck') -> calm (the_wal x) (the_wal x').
Proof.
  induction n as [|n IH]; intros e sz i ck rc x x' rc' i' ck' H; cbn -[note_commit] in H; [by simplify_eq; apply calm_refl|].
  run_cases; repeat match goal with
    | H : walDecodeFrame _ _ _ = _ |- _ => apply decode_calm in H
    | H : walIndexAppend _ _ _ _ = _ |- _ => apply append_calm in H
    | H : note_commit _ _ _ _ _ = _ |- _ => apply note_commit_calm in H
    | H : recover_frames _ _ _ _ _ _ _ = _ |- _ => apply IH in H
    end; calm_steps.
Qed.

Lemma set_slot_calm i p s s' : set_slot i p s = Some s' -> calm (wal s) (wal s').
Proof. unfold set_slot. intros H. run_cases. by eapply calm_slot. Qed.

Lemma copy_page_calm i a b s s' : copy_page i a b s = Some s' -> calm (wal s) (wal s').
Proof. unfold copy_page. intros H. run_cases; apply calm_refl. Qed.

Lemma recover_pages_calm n : forall e a sz l i ck rc x x' rc' ck',
  recover_pages n e a sz l i ck rc x = Some (x', rc', ck') -> calm (the_wal x) (the_wal x').
Proof.
  induction n as [|n IH]; intros e a sz l i ck rc x x' rc' ck' H; cbn -[recover_page] in H; [run_cases; apply calm_refl|].
  unfold recover_page in H. run_cases; repeat match goal with
    | H : walIndexPage _ _ _ = _ |- _ => apply index_page_calm in H
    | H : set_slot _ _ _ = _ |- _ => apply set_slot_calm in H
    | H : copy_page _ _ _ _ = _ |- _ => apply copy_page_calm in H
    | H : recover_frames _ _ _ _ _ _ _ = _ |- _ => apply recover_frames_calm in H
    | H : recover_pages _ _ _ _ _ _ _ _ _ = _ |- _ => apply IH in H
    end; calm_steps.
Qed.

Lemma ckpt_put_calm i v s s' : walCkptInfo_put i v s = Some s' -> calm (wal s) (wal s').
Proof. unfold walCkptInfo_put. intros H. run_cases; apply calm_refl. Qed.

Lemma write_hdr_calm s s' : walIndexWriteHdr s = Some s' -> calm (wal s) (wal s').
Proof. unfold walIndexWriteHdr. intros H. run_cases; by apply calm_same. Qed.

Lemma recover_marks_calm n : forall e i rc s s' rc', recover_marks n e i rc s = Some (s', rc') -> calm (wal s) (wal s').
Proof.
  induction n as [|n IH]; intros e i rc s s' rc' H; cbn -[walCkptInfo_put] in H; [by simplify_eq; apply calm_refl|].
  run_cases; repeat match goal with
    | H : walCkptInfo_put _ _ _ = _ |- _ => apply ckpt_put_calm in H
    | H : recover_marks _ _ _ _ _ = _ |- _ => apply IH in H
    end; calm_steps.
Qed.

Lemma recover_finish_calm e ck rc s s' rc' : recover_finish e ck rc s = Some (s', rc') -> calm (wal s) (wal s').
Proof.
  unfold recover_finish. intros H. apply (calm_trans _ (wal (on_hdr (set_aFrameCksum ck) s))); [by apply calm_same|].
  run_cases; repeat match goal with
    | H : walIndexWriteHdr _ = _ |- _ => apply write_hdr_calm in H
    | H : walCkptInfo_put _ _ _ = _ |- _ => apply ckpt_put_calm in H
    | H : recover_marks _ _ _ _ _ = _ |- _ => apply recover_marks_calm in H
    end; calm_steps.
Qed.

Lemma recover_header_calm b x x' rc ok : recover_header b x = Some (x', rc, ok) -> calm (the_wal x) (the_wal x').
Proof. unfold recover_header. intros H. run_cases; by apply calm_same. Qed.

Lemma recover_log_calm e n x x' rc ck err : recover_log e n x = Some (x', rc, ck, err) -> calm (the_wal x) (the_wal x').
Proof.
  unfold recover_log. intros H. run_cases; repeat match goal with
    | H : recover_header _ _ = _ |- _ => apply recover_header_calm in H
    | H : recover_pages _ _ _ _ _ _ _ _ _ = _ |- _ => apply recover_pages_calm in H
    end; calm_steps.
Qed.

Lemma recover_calm e x x' rc : walIndexRecover e x = Some (x', rc) -> calm (the_wal x) (the_wal x').
Proof.
  unfold walIndexRecover. intros H. apply (calm_trans _ (the_wal (with_hdr (fun _ => zero_hdr) x))); [by apply calm_same|].
  run_cases; repeat match goal with
    | H : recover_log _ _ _ = _ |- _ => apply recover_log_calm in H
    | H : recover_finish _ _ _ _ = _ |- _ => apply recover_finish_calm in H
    end; calm_steps.
Qed.

(** ** What the others may do *)

(** They write into the pages, they do not take any away. *)
Definition page_kept (ps ps' : gmap Z WalPage) : Prop :=
  forall p, match ps !! p with
            | Some pg => exists pg', ps' !! p = Some pg' /\ (page_size pg -> page_size pg')
            | None => ps' !! p = None
            end.

Lemma kept_size ps ps' p pg : page_kept ps ps' -> ps !! p = Some pg -> page_size pg -> exists pg', ps' !! p = Some pg' /\ page_size pg'.
Proof. intros H E Hs. specialize (H p). rewrite E in H. destruct H as (pg' & E' & Hp). eauto. Qed.

Lemma kept_none ps ps' p : page_kept ps ps' -> ps !! p = None -> ps' !! p = None.
Proof. intros H E. specialize (H p). by rewrite E in H. Qed.

Lemma inv_start s share plog : inv s share plog -> inv s share [].
Proof.
  intros [[I1 I2 I3 I4 I5] HC]. split; [|done]. split; [done|done|done| |done].
  intros b Hb Hz. pose proof (zero_of_nonneg b Hb). simpl in Hz. lia.
Qed.

Lemma inv_kept s share ps' : inv s share [] -> page_kept (pages s) ps' -> inv (Sys (wal s) ps') share [].
Proof.
  intros [[I1 I2 I3 I4 I5] HC] HK. split; [|done]. split; [done|done| | |done].
  - intros b p Hb. destruct (I3 b p Hb) as (pg & E & Hs). by eapply kept_size.
  - intros b Hb Hz. pose proof (zero_of_nonneg b Hb). simpl in Hz. lia.
Qed.

Lemma env_kept e s share ps' : env_ok e s share -> page_kept (pages s) ps' -> env_ok e (Sys (wal s) ps') share.
Proof.
  intros [E1 E2 E3 E4] HK. split; [done| |done|].
  - intros Hh b Hb Hn. eapply kept_none; [done|]. by apply E2.
  - intros Hh b p Hb Hp Hn. destruct (E4 Hh b p Hb Hp Hn) as [(pg & E & Hs) H]. split; [|done]. by eapply kept_size.
Qed.

Lemma malloc_kept e s ps' : malloc_ok e s -> page_kept (pages s) ps' -> malloc_ok e (Sys (wal s) ps').
Proof.
  intros H HK a pg E. destruct (H a pg E) as (H1 & H2 & H3 & H4). split_and!; [done| |done|done]. by eapply kept_none.
Qed.

(** The number of frames in the header is not the mark that means unused, and [nBackfill] is
    not negative. *)
Definition sane (s : St) : Prop :=
  (forall l v, hdr_copy 0 s = Some l -> l !! 4%nat = Some v -> v < READMARK_NOT_USED) /\
  (forall nb, walCkptInfo_get ckpt_nBackfill s = Some nb -> 0 <= nb).

Lemma sane_page s s' : page0 s' = page0 s -> sane s -> sane s'.
Proof. unfold sane, hdr_copy, walCkptInfo_get. by intros ->. Qed.

(** The contract of the others, and of the lock calls: a busy lock is [SQLITE_BUSY]. At the
    two barriers, a header that is still the one of the reader means that the log was not
    restarted, so [nBackfill] has not become smaller. *)
Record others_ok (e : read_env) : Prop := {
  ot_kept : forall k ps, page_kept ps (rd_other e k ps);
  ot_sane : forall k s, sane s -> sane (interfere e k s);
  ot_codes : forall j, Z.land (rd_shared e j) 0xFF = SQLITE_BUSY -> rd_shared e j = SQLITE_BUSY;
  ot_barrier : forall k s nb, k = 31 \/ k = 50 -> walCkptInfo_get ckpt_nBackfill s = Some nb ->
    hdr_copy 0 (interfere e k s) = Some (hdr_words (hdr (wal s))) ->
    exists nb', walCkptInfo_get ckpt_nBackfill (interfere e k s) = Some nb' /\ nb <= nb'
}.

(** The state of a connection that starts to read. *)
Record rstate (e : read_env) (s : St) (share : gmap Z Z) : Prop := {
  rs_inv : inv s share [];
  rs_env : env_ok (rd_pages e) s share;
  rs_malloc : malloc_ok (rd_recover e) s;
  rs_sane : sane s
}.

Section Reader.
Context (e : read_env) (Hot : others_ok e).

Lemma rstate_interfere k s share : rstate e s share -> rstate e (interfere e k s) share.
Proof.
  intros [R1 R2 R3 R4]. pose proof (ot_kept e Hot k (pages s)) as HK.
  split; [by apply inv_kept|by apply env_kept|by apply malloc_kept|by apply ot_sane].
Qed.

Lemma rstate_wal s share w' : rstate e s share -> apWiData w' = apWiData (wal s) -> exclusiveMode w' = exclusiveMode (wal s) ->
  rstate e (Sys w' (pages s)) share.
Proof.
  intros [R1 R2 R3 R4] Ha He. split; [by apply inv_wal|by apply env_wal|done|].
  eapply sane_page; [|done]. unfold page0. cbn [wal pages]. by rewrite Ha.
Qed.

Lemma hdr_copy_total i s share : inv s share [] -> 0 <= i <= 1 -> exists l, hdr_copy i s = Some l /\ length l = 12%nat.
Proof.
  intros HI Hi. unfold hdr_copy. destruct (page0_spec _ _ _ HI) as (p & pg & -> & _ & _ & [Hs _] & _). pose proof layout_eqs.
  rewrite mem_read_total by lia. eexists. split; [done|]. rewrite length_take, length_drop. lia.
Qed.

Lemma ckpt_get_total i s share : inv s share [] -> 0 <= i < 34 -> exists v, walCkptInfo_get i s = Some v.
Proof.
  intros HI Hi. unfold walCkptInfo_get. destruct (page0_spec _ _ _ HI) as (p & pg & -> & _ & _ & [Hs _] & _). pose proof layout_eqs.
  unfold mem_get. rewrite (proj2 (Z.leb_le _ _)) by lia. apply lookup_lt_is_Some_2. lia.
Qed.

(** The handle up to the header and the page size. *)
Definition same_conn (w w' : Wal) : Prop := exists h z, w' = set_szPage z (set_hdr h w).

Lemma same_conn_refl w : same_conn w w.
Proof. exists (hdr w), (szPage w). by destruct w. Qed.

Lemma try_hdr_spec k ch s share : rstate e s share -> exists s' bad ch', walIndexTryHdr e k ch s = Some (s', bad, ch') /\
  rstate e s' share /\ same_conn (wal s) (wal s') /\ (bad = 0 -> mxFrame (hdr (wal s')) < READMARK_NOT_USED).
Proof.
  intros HR. unfold walIndexTryHdr. destruct (hdr_copy_total 0 s share) as (h1 & E1 & Hl); [apply HR|lia|]. rewrite E1. cbn -[hdr_copy].
  pose proof (rstate_interfere k s share HR) as HR2. set (s2 := interfere e k s) in *.
  destruct (hdr_copy_total 1 s2 share) as (h2 & -> & _); [apply HR2|lia|]. cbn -[walChecksumBytes].
  assert (Hno : forall b : Z, b <> 0 -> exists s' bad ch', Some (s2, b, ch) = Some (s', bad, ch') /\
    rstate e s' share /\ same_conn (wal s) (wal s') /\ (bad = 0 -> mxFrame (hdr (wal s')) < READMARK_NOT_USED)).
  { intros b Hb. exists s2, b, ch. split_and!; [done|done|apply same_conn_refl|done]. }
  case_bool_decide; [|by apply Hno]. cbn [negb].
  do 12 (destruct h1 as [|? h1]; [done|]). destruct h1; [|done]. cbn -[walChecksumBytes concat take].
  set (h1 := [_; _; _; _; _; _; _; _; _; _; _; _]) in *. set (h := Hdr _ _ _ _ _ _ _ _ _ _ _).
  destruct (u8 _ =? 0); [by apply Hno|].
  rewrite (checksum_spec true (concat (le32 <$> take 10 h1)) None); [|apply Forall_concat, Forall_fmap, list.Forall_forall; intros x _; apply le32_bytes|done|done].
  cbn -[format_sum hdr_words le32 concat take]. case_cond; [by apply Hno|].
  assert (Hmx : mxFrame h < READMARK_NOT_USED) by by eapply (proj1 (rs_sane _ _ _ HR)).
  case_bool_decide as Eh.
  - exists s2, 0, ch. split_and!; [done|done|apply same_conn_refl|]. intros _. eapply (proj1 (rs_sane _ _ _ HR)); [exact E1|]. by rewrite <- Eh.
  - eexists _, 0, true. split; [done|]. split_and!; [by apply rstate_wal|by eexists _, _|done].
Qed.

(** What the rest of [walTryBeginRead] needs. *)
Definition lstate (s : St) (share : gmap Z Z) : Prop := inv s share [] /\ sane s.

Lemma rstate_lstate s share : rstate e s share -> lstate s share.
Proof. intros HR. split; apply HR. Qed.

Lemma lstate_wal s share w' : lstate s share -> apWiData w' = apWiData (wal s) -> exclusiveMode w' = exclusiveMode (wal s) ->
  lstate (Sys w' (pages s)) share.
Proof.
  intros [R1 R4] Ha He. split; [by apply inv_wal|]. eapply sane_page; [|done]. unfold page0. cbn [wal pages]. by rewrite Ha.
Qed.

Lemma lstate_interfere k s share : lstate s share -> lstate (interfere e k s) share.
Proof. intros [R1 R4]. split; [apply inv_kept; [done|by apply ot_kept]|by apply ot_sane]. Qed.

Lemma page_mapped s share : rstate e s share -> exists p, walIndexPage (rd_pages e) 0 s = Some (s, SQLITE_OK, p) /\ p <> NULL.
Proof.
  intros [R1 R2 _ _]. destruct (page0_spec _ _ _ R1) as (p & pg & _ & _ & _ & _ & Hm).
  destruct (walIndexPage_spec (rd_pages e) 0 s share [] R1 R2) as (s' & rc & q & share' & E & _ & _ & _ & Hq & _); [lia|].
  destruct (Hq p Hm) as (-> & -> & -> & _). exists p. split; [done|apply Hm].
Qed.

(** The connection and its file. *)
Record reader (x : WSt) (share : gmap Z Z) : Prop := {
  rr_state : rstate e (st x) share;
  rr_file : file_ok (fd x) /\ len (content (fd x)) < 2 ^ 40;
  rr_ckpt : ckptLock (the_wal x) = 1 \/ ckptLock (the_wal x) = 0;
  rr_shm : bShmUnreliable (the_wal x) = 0
}.

(** The header has been read. *)
Definition header_read (x : WSt) : Prop :=
  bShmUnreliable (the_wal x) = 0 /\ mxFrame (hdr (the_wal x)) < READMARK_NOT_USED /\ exists share, lstate (st x) share.

Lemma recover_read x share : can_recover (rd_recover e) x share -> bShmUnreliable (the_wal x) = 0 ->
  exists x' rc, walIndexRecover (rd_recover e) x = Some (x', rc) /\ calm (the_wal x) (the_wal x') /\ (rc = SQLITE_OK -> header_read x').
Proof.
  intros HC Hs. destruct (recover_spec (rd_recover e) x share HC) as (x' & rc & E & _ & HOK). exists x', rc. split; [done|].
  pose proof (recover_calm _ _ _ _ E) as Hc. assert (Hs' : bShmUnreliable (the_wal x') = 0) by (destruct Hc; congruence).
  split; [done|]. intros Hrc. destruct (HOK Hrc) as (share' & log & [RI _ _ _ [RL _] Rmx _ _ _ [Rb _] _]).
  assert (Hmx : mxFrame (hdr (the_wal x')) < READMARK_NOT_USED).
  { rewrite Rmx. pose proof (last_commit_le log). pose proof (ix_len _ _ _ (inv_index _ _ _ RI)) as Hl. rewrite length_fmap in Hl.
    unfold READMARK_NOT_USED. lia. }
  split_and!; [done|done|]. exists share'. split; [by eapply inv_start|]. split; [intros l v Hl Hv|intros nb; rewrite Rb; by intros [= <-]].
  destruct RL as (hw & El & Eh & _ & _). unfold hdr_copy in Hl.
  destruct (page0_spec _ _ _ RI) as (p & pg & E0 & Hsh & Epg & [Hsz _] & _). rewrite E0 in Hl. cbn in Hl. pose proof layout_eqs.
  unfold head_words in El. rewrite Hsh in El. cbn -[WALINDEX_HDR_SIZE Z.div] in El. rewrite Epg in El. apply (inj Some) in El as <-.
  rewrite take_take in Eh. rewrite mem_read_total in Hl by lia. apply (inj Some) in Hl as <-.
  change (Z.to_nat 12) with 12%nat in Hv. change (Z.to_nat (12 * 0)) with 0%nat in Hv. rewrite drop_0 in Hv.
  change (12 `min` Z.to_nat (WALINDEX_HDR_SIZE / 4))%nat with 12%nat in Eh. rewrite Eh in Hv. injection Hv as <-. done.
Qed.

Lemma read_locked_spec rc ch x share : reader x share -> exists x' rc' bad ch', read_locked e rc ch x = Some (x', rc', bad, ch') /\
  calm (the_wal x) (the_wal x') /\ (rc' = SQLITE_OK -> header_read x').
Proof.
  intros [HR [Hf Hz] Hck Hs]. unfold read_locked. set (b := writeLock (the_wal x)).
  destruct ((b =? 0) && _) eqn:Eb.
  { eexists x, _, 1, ch. split; [done|]. split; [apply calm_refl|]. intros Hrc. apply andb_true_iff in Eb as [Eb Ec].
    apply Z.eqb_eq in Eb. rewrite Eb in *. cbn [negb Z.eqb] in Hrc, Ec. rewrite Hrc in Ec. done. }
  pose proof (rstate_interfere 2 (st x) share HR) as HR2. set (s2 := interfere e 2 (st x)) in *.
  set (s3 := if b =? 0 then on_wal (set_writeLock 2) s2 else s2).
  assert (HR3 : rstate e s3 share) by (unfold s3; destruct (b =? 0); [by apply rstate_wal|done]).
  assert (Hw3 : writeLock (wal s3) <> 0 /\ ckptLock (wal s3) = ckptLock (the_wal x) /\ bShmUnreliable (wal s3) = 0).
  { unfold s3. destruct (Z.eqb_spec b 0); [done|]. split_and!; done. }
  destruct (page_mapped s3 share HR3) as (p & -> & _). cbn -[walIndexTryHdr walIndexRecover]. destruct Hw3 as (Hw3 & Hc3 & Hs3).
  destruct (try_hdr_spec 3 ch s3 share HR3) as (s4 & bad & ch' & -> & HR4 & (h & z & Ew) & Hok). cbn -[walIndexRecover].
  destruct (Z.eqb_spec bad 0) as [->|Hbad]; cbn [negb].
  - eexists _, _, _, _. split; [done|].
    assert (Hs4 : bShmUnreliable (wal s4) = 0) by by rewrite Ew.
    split; [unfold s3 in Ew; by destruct (b =? 0); apply calm_same; unfold the_wal; cbn; rewrite Ew|]. intros _.
    pose proof (Hok eq_refl) as Hmx. destruct (b =? 0).
    + split_and!; [done|done|]. exists share. by apply lstate_wal; [apply rstate_lstate|..].
    + split_and!; [done|done|]. exists share. by apply rstate_lstate.
  - destruct (recover_read (WS s4 (fd x)) share) as (x5 & rc5 & -> & Hs5 & Hok5).
    { split; [apply HR4|apply HR4|unfold the_wal; cbn; by rewrite Ew|unfold the_wal; cbn; rewrite Ew; cbn; by rewrite Hc3|done|done|apply HR4]. }
    { unfold the_wal. cbn. by rewrite Ew. }
    cbn. eexists _, _, _, _. split; [done|]. split.
    { apply (calm_trans _ (wal s4)); [unfold s3 in Ew; by destruct (b =? 0); apply calm_same; rewrite Ew|].
      apply (calm_trans _ _ _ Hs5). destruct (b =? 0); by apply calm_same. }
    intros Hrc. destruct (Hok5 Hrc) as (Hs6 & Hmx & share' & HL).
    destruct (b =? 0); [|by split_and!; [..|exists share']]. split_and!; [done|done|]. exists share'. by apply lstate_wal.
Qed.

Lemma read_hdr_spec ch x share : reader x share -> exists x' rc ch', walIndexReadHdr e ch x = Some (x', rc, ch') /\
  calm (the_wal x) (the_wal x') /\ (rc = SQLITE_OK -> header_read x').
Proof.
  intros HX. pose proof HX as [HR [Hf Hz] Hck Hs]. unfold walIndexReadHdr. destruct (page_mapped (st x) share HR) as (p & -> & Hp).
  cbn -[walIndexTryHdr read_locked finish_hdr]. rewrite (proj2 (Z.eqb_neq _ _) Hp). cbn -[walIndexTryHdr read_locked finish_hdr].
  destruct (try_hdr_spec 1 ch (st x) share HR) as (s1 & bad & ch1 & -> & HR1 & (h & z & Ew) & Hok). cbn -[read_locked finish_hdr].
  assert (HX1 : reader (WS s1 (fd x)) share).
  { split; [done|done|unfold the_wal; cbn; rewrite Ew; done|unfold the_wal; cbn; by rewrite Ew]. }
  assert (Hs1 : bShmUnreliable (wal s1) = 0) by by rewrite Ew.
  assert (Hc1 : calm (the_wal x) (wal s1)) by (by apply calm_same; rewrite Ew).
  assert (Hfin : forall x2 rc2 bad2 ch2, calm (wal s1) (the_wal x2) -> (rc2 = SQLITE_OK -> header_read x2) ->
    exists x' rc ch', finish_hdr bad2 rc2 ch2 x2 = Some (x', rc, ch') /\
      calm (the_wal x) (the_wal x') /\ (rc = SQLITE_OK -> header_read x')).
  { intros x2 rc2 bad2 ch2 Hs2 Hok2. unfold finish_hdr. rewrite (proj1 Hs2), Hs1. cbn [Z.eqb]. eexists x2, _, ch2. split; [done|].
    split; [by apply (calm_trans _ _ _ Hc1)|].
    intros Hrc. destruct (_ && _); [done|]. by apply Hok2. }
  unfold the_wal at 1 2. cbn [st]. rewrite Hs1. cbn [Z.eqb andb].
  destruct (Z.eqb_spec bad 0) as [->|Hbad]; cbn [negb].
  - apply (Hfin (WS s1 (fd x)) SQLITE_OK 0 ch1); [apply calm_refl|]. intros _. split_and!; [done|by apply Hok|]. exists share. by apply rstate_lstate.
  - destruct (Z.land (readOnly (wal s1)) WAL_SHM_RDONLY =? 0); cbn [negb].
    + destruct (read_locked_spec SQLITE_OK ch1 (WS s1 (fd x)) share HX1) as (x2 & rc2 & bad2 & ch2 & -> & Hs2 & Hok2). by apply Hfin.
    + apply (Hfin (WS s1 (fd x)) _ bad ch1); [apply calm_refl|]. intros Hrc. destruct (Z.eqb_spec (walLockShared (rd_wshared e) s1) SQLITE_OK); [done|].
      cbn in Hrc. congruence.
Qed.

End Reader.

(** ** The lock on a mark *)

(** What holds when the read transaction has started: the reader's header is the live one.
    With lock 0 all of the log is in the database; with another lock its mark is not behind
    the reader's last frame, and the reader starts at or before the first frame that is not in
    the database. *)
Definition snapshot (s : St) : Prop :=
  hdr_copy 0 s = Some (hdr_words (hdr (wal s))) /\ exists nb, walCkptInfo_get ckpt_nBackfill s = Some nb /\
  (readLock (wal s) = 0 /\ mxFrame (hdr (wal s)) <= nb \/
   1 <= readLock (wal s) < WAL_NREADER /\ minFrame (wal s) <= nb + 1 /\
     exists m, walCkptInfo_get (ckpt_aReadMark (readLock (wal s))) s = Some m /\ m <= mxFrame (hdr (wal s))).

Section Marks.
Context (e : read_env) (Hot : others_ok e).

Lemma ckpt_put_keeps i v s share : lstate s share -> 24 < i < 34 -> exists s', walCkptInfo_put i v s = Some s' /\ wal s' = wal s /\ lstate s' share.
Proof.
  intros [HI HS] Hi. unfold walCkptInfo_put. destruct (page0_spec _ _ _ HI) as (p & pg & E0 & Hsh & Epg & [Hs1 Hs2] & Hm). rewrite E0. cbn.
  pose proof layout_eqs. unfold mem_put. rewrite (proj2 (Z.leb_le _ _)), (proj2 (Z.ltb_lt _ _)) by lia. cbn.
  eexists. split; [done|]. split; [done|]. split.
  - apply inv_kept; [done|]. intros q. destruct (decide (q = p)) as [->|Hq].
    + rewrite Epg. eexists. rewrite lookup_insert_eq. split; [done|]. intros [H1 H2]. split; cbn; [by rewrite length_insert|done].
    + rewrite lookup_insert_ne by done. destruct (pages s !! q); eauto.
  - set (s' := set_page _ _ s). assert (E1 : page0 s' = Some (p, Page (<[Z.to_nat i := v]> (words pg)) (slots pg))).
    { destruct Hm as [Hm1 Hm2]. unfold page0, s'. cbn [wal pages set_page]. rewrite Hm1. cbn. rewrite (proj2 (Z.eqb_neq _ _)) by done. by rewrite lookup_insert_eq. }
    destruct HS as [HS1 HS2]. unfold sane, hdr_copy, walCkptInfo_get in *. rewrite E0 in HS1, HS2. rewrite E1. cbn in HS1, HS2 |- *. split.
    + intros l w Hl. apply HS1. rewrite mem_read_total in Hl |- * by (rewrite ?length_insert; lia). rewrite <- Hl. f_equal.
      by rewrite !drop_0, take_insert_ge by lia.
    + intros nb Hnb. apply HS2. rewrite <- Hnb. unfold mem_get. by rewrite list_lookup_insert_ne by (unfold ckpt_nBackfill; lia).
Qed.

Lemma scan_marks_spec n : forall i mx best s share, lstate s share -> mx < READMARK_NOT_USED -> 1 <= i -> i + Z.of_nat n <= WAL_NREADER ->
  best.1 <= mx \/ best.2 = 0 -> 0 <= best.2 < WAL_NREADER ->
  exists s' best', scan_marks n e i mx best s = Some (s', best') /\ wal s' = wal s /\ lstate s' share /\
    (best'.1 <= mx \/ best'.2 = 0) /\ 0 <= best'.2 < WAL_NREADER.
Proof.
  induction n as [|n IH]; intros i mx best s share HL Hmx Hi Hn Hb1 Hb2; cbn [scan_marks]; [by exists s, best|].
  pose proof (lstate_interfere e Hot (10 + i) s share HL) as HL1. unfold WAL_NREADER in *.
  destruct (ckpt_get_total (ckpt_aReadMark i) (interfere e (10 + i) s) share) as (v & ->); [apply HL1|unfold ckpt_aReadMark; lia|]. cbn -[scan_marks].
  destruct ((best.1 <=? v) && (v <=? mx)) eqn:Ev.
  - apply andb_true_iff in Ev as [_ Ev%Z.leb_le]. rewrite (proj2 (Z.eqb_neq _ _)) by lia.
    destruct (IH (i + 1) mx (v, i) _ share HL1) as (s' & b' & E & Hw & H); [done|lia|lia|by left|cbn; lia|].
    exists s', b'. split; [done|]. split; [done|]. done.
  - destruct (IH (i + 1) mx best _ share HL1) as (s' & b' & E & Hw & H); [done|lia|lia|done|done|].
    exists s', b'. split; [done|]. split; [done|]. done.
Qed.

Lemma claim_mark_spec n : forall i mx best rc s share, lstate s share -> 1 <= i -> i + Z.of_nat n <= WAL_NREADER ->
  best.1 <= mx \/ best.2 = 0 -> 0 <= best.2 < WAL_NREADER ->
  exists s' rc' best' ret, claim_mark n e i mx best rc s = Some (s', rc', best', ret) /\ wal s' = wal s /\ lstate s' share /\
    (ret = true -> rc' <> SQLITE_OK) /\ (best'.1 <= mx \/ best'.2 = 0) /\ 0 <= best'.2 < WAL_NREADER /\
    ((0 < n)%nat -> ret = false -> best'.2 = 0 -> rc' = SQLITE_BUSY).
Proof.
  induction n as [|n IH]; intros i mx best rc s share HL Hi Hn Hb1 Hb2; cbn [claim_mark].
  { exists s, rc, best, false. split_and!; try done; lia. }
  unfold WAL_NREADER in *. pose proof (lstate_interfere e Hot (20 + i) s share HL) as HL1. set (s1 := interfere e (20 + i) s) in *.
  destruct (Z.eqb_spec (walLockExclusive (rd_mark e i) s) SQLITE_OK) as [Eo|Eo].
  - destruct (ckpt_put_keeps (ckpt_aReadMark i) mx s1 share HL1) as (s2 & -> & Hw & HL2); [unfold ckpt_aReadMark; lia|].
    cbn. eexists s2, _, (mx, i), false. split; [done|]. cbn. split_and!; try done; try lia.
  - destruct (Z.eqb_spec (walLockExclusive (rd_mark e i) s) SQLITE_BUSY) as [Eb|Eb]; cbn [negb].
    + destruct (IH (i + 1) mx best (walLockExclusive (rd_mark e i) s) s1 share HL1)
        as (s' & rc' & b' & ret & E & Hw & HL' & Hret & H1 & H2 & H3); [lia|lia|done|done|].
      exists s', rc', b', ret. split_and!; try done; try lia. intros _. destruct n as [|n]; [|apply H3; lia].
      cbn in E. injection E as <- <- <- <-. done.
    + eexists s1, _, best, true. split; [done|]. split_and!; try done; lia.
Qed.

Lemma lock_mark_spec best s share : lstate s share -> best.1 <= mxFrame (hdr (wal s)) -> 1 <= best.2 < WAL_NREADER ->
  exists s' rc, lock_mark e best s = Some (s', rc) /\
    (rc = SQLITE_OK -> snapshot s' /\ lstate s' share /\ hdr (wal s') = hdr (wal s) /\ readLock (wal s') = best.2).
Proof.
  intros HL Hb1 Hb2. unfold lock_mark, WAL_NREADER in *. pose proof (lstate_interfere e Hot 40 s share HL) as HL1. set (s1 := interfere e 40 s) in *.
  destruct (Z.eqb_spec (walLockShared (rd_shared e best.2) s) SQLITE_OK) as [Eo|Eo]; cbn [negb].
  2:{ assert (Hg : (Z.land (walLockShared (rd_shared e best.2) s) 0xFF =? SQLITE_BUSY) && (walLockShared (rd_shared e best.2) s <>? SQLITE_BUSY) = false).
      { destruct (Z.eqb_spec (Z.land (walLockShared (rd_shared e best.2) s) 0xFF) SQLITE_BUSY) as [Eb|Eb]; [|done]. cbn [andb].
        unfold walLockShared in *. destruct (exclusiveMode (wal s) <>? 0); [done|]. by rewrite (ot_codes e Hot _ Eb). }
      rewrite Hg. eexists s1, _. split; [done|]. intros Hrc. destruct (Z.land _ _ =? _) in Hrc; [done|]. congruence. }
  destruct (ckpt_get_total ckpt_nBackfill s1 share) as (nb & Enb); [apply HL1|done|]. rewrite Enb. cbn -[walCkptInfo_get hdr_copy interfere].
  set (s2 := on_wal (set_minFrame (u32 (nb + 1))) s1). assert (HL2 : lstate s2 share) by by apply lstate_wal.
  pose proof (lstate_interfere e Hot 50 s2 share HL2) as HL3.
  destruct (ckpt_get_total (ckpt_aReadMark best.2) (interfere e 50 s2) share) as (m & Em); [apply HL3|unfold ckpt_aReadMark; lia|].
  destruct (hdr_copy_total 0 (interfere e 50 s2) share) as (l & El & _); [apply HL3|lia|]. rewrite Em. cbn -[walCkptInfo_get hdr_copy interfere]. rewrite El.
  cbn -[walCkptInfo_get hdr_copy interfere hdr_words]. 
  destruct ((m <>? best.1) || _) eqn:Ec; [by eexists _, WAL_RETRY|]. apply orb_false_iff in Ec as [Ec1 Ec2].
  apply negb_false_iff in Ec1, Ec2. apply Z.eqb_eq in Ec1. apply bool_decide_eq_true in Ec2.
  rewrite (proj2 (Z.ltb_ge _ _)) by done. eexists _, _. split; [done|]. intros _.
  destruct (ot_barrier e Hot 50 s2 nb) as (nb' & Enb' & Hnb); [by right|done|by rewrite El, <- Ec2|].
  assert (Hnn : 0 <= nb) by (apply HL1; exact Enb).
  split_and!; [|by apply lstate_wal|done|done]. split; [|exists nb'; split; [exact Enb'|right]]; cbn -[hdr_words].
  - change (hdr_copy 0 (interfere e 50 s2) = Some (hdr_words (hdr (wal s2)))). rewrite El. f_equal. symmetry. exact Ec2.
  - split; [done|]. split; [pose proof (Z.mod_le (nb + 1) (2 ^ 32)); unfold u32; lia|]. exists m. split; [exact Em|]. by rewrite Ec1.
Qed.

Lemma use_log_spec rc s share : lstate s share -> mxFrame (hdr (wal s)) < READMARK_NOT_USED ->
  exists s' rc', use_log e rc s = Some (s', rc') /\
    (rc' = SQLITE_OK -> snapshot s' /\ lstate s' share /\ hdr (wal s') = hdr (wal s) /\ 1 <= readLock (wal s') < WAL_NREADER).
Proof.
  intros HL Hmx. unfold use_log. set (ro := Z.land (readOnly (wal s)) WAL_SHM_RDONLY <>? 0).
  destruct (scan_marks_spec (Z.to_nat (WAL_NREADER - 1)) 1 (mxFrame (hdr (wal s))) (0, 0) s share HL) as (s1 & b1 & -> & Hw1 & HL1 & Hb1 & Hb2);
    [done|lia|done|by right|done|]. cbn -[claim_mark lock_mark].
  assert (Hcl : exists s2 rc2 b2 ret,
    (if negb ro && ((b1.1 <? mxFrame (hdr (wal s))) || (b1.2 =? 0)) then
       claim_mark (Z.to_nat (WAL_NREADER - 1)) e 1 (mxFrame (hdr (wal s))) b1 rc s1
     else Some (s1, rc, b1, false)) = Some (s2, rc2, b2, ret) /\ wal s2 = wal s /\ lstate s2 share /\
    (ret = true -> rc2 <> SQLITE_OK) /\ (b2.1 <= mxFrame (hdr (wal s)) \/ b2.2 = 0) /\ 0 <= b2.2 < WAL_NREADER /\
    (ret = false -> b2.2 = 0 -> rc2 = SQLITE_BUSY \/ ro = true)).
  { destruct (negb ro && ((b1.1 <? mxFrame (hdr (wal s))) || (b1.2 =? 0))) eqn:Eg.
    - destruct (claim_mark_spec (Z.to_nat (WAL_NREADER - 1)) 1 (mxFrame (hdr (wal s))) b1 rc s1 share HL1)
        as (s2 & rc2 & b2 & ret & E & Hw2 & HL2 & Hret & H1 & H2 & H3); [lia|done|done|done|].
      exists s2, rc2, b2, ret. split_and!; try done; try lia; [congruence|]. intros Hr Hz. left. apply H3; [|done|done]. vm_compute. lia.
    - exists s1, rc, b1, false. split_and!; try done; try lia. intros _ Hz. right. rewrite Hz, orb_true_r, andb_true_r in Eg. by destruct ro. }
  destruct Hcl as (s2 & rc2 & b2 & ret & E & Hw2 & HL2 & Hret & H1 & H2 & H3). cbv zeta. cbn -[claim_mark lock_mark] in E |- *. rewrite E.
  destruct ret; [exists s2, rc2; split; [done|]; intros Hrc; by destruct (Hret eq_refl)|].
  destruct (Z.eqb_spec b2.2 0) as [Hz|Hz].
  - assert (Hg : (rc2 =? SQLITE_BUSY) || ro = true) by (destruct (H3 eq_refl Hz) as [-> | ->]; [done|by rewrite orb_true_r]).
    rewrite Hg. cbn [negb]. eexists s2, _. split; [done|]. by destruct (rc2 =? SQLITE_BUSY).
  - destruct (lock_mark_spec b2 s2 share HL2) as (s3 & rc3 & E3 & Hok); [rewrite Hw2; by destruct H1|lia|].
    exists s3, rc3. split; [done|]. intros Hrc. destruct (Hok Hrc) as (HS & HL3 & Hh & Hr). rewrite Hw2 in Hh. split_and!; [done|done|done|lia|lia].
Qed.

Lemma lock_snapshot_spec useWal s share : lstate s share -> mxFrame (hdr (wal s)) < READMARK_NOT_USED ->
  exists s' rc, lock_snapshot e useWal s = Some (s', rc) /\
    (rc = SQLITE_OK -> snapshot s' /\ lstate s' share /\ hdr (wal s') = hdr (wal s) /\ (useWal = true -> 1 <= readLock (wal s'))).
Proof.
  intros HL Hmx. unfold lock_snapshot. pose proof (lstate_interfere e Hot 30 s share HL) as HL1. set (s1 := interfere e 30 s) in *.
  assert (Huse : forall rc s2, lstate s2 share -> hdr (wal s2) = hdr (wal s) -> exists s' rc', use_log e rc s2 = Some (s', rc') /\
    (rc' = SQLITE_OK -> snapshot s' /\ lstate s' share /\ hdr (wal s') = hdr (wal s) /\ (useWal = true -> 1 <= readLock (wal s')))).
  { intros rc s2 HL2 Hh. destruct (use_log_spec rc s2 share HL2) as (s' & rc' & E & Hok); [by rewrite Hh|]. exists s', rc'. split; [done|].
    intros Hrc. destruct (Hok Hrc) as (H1 & H2 & H3 & H4 & _). rewrite Hh in H3. by split_and!. }
  destruct (ckpt_get_total ckpt_nBackfill s1 share) as (nb & Enb); [apply HL1|done|]. rewrite Enb. cbn -[use_log hdr_copy].
  destruct (negb useWal && (nb =? mxFrame (hdr (wal s)))) eqn:Eg; [|by apply Huse].
  apply andb_true_iff in Eg as [Eu%negb_true_iff En%Z.eqb_eq]. subst useWal.
  destruct (Z.eqb_spec (walLockShared (rd_shared e 0) s1) SQLITE_OK) as [Eo|Eo].
  - pose proof (lstate_interfere e Hot 31 s1 share HL1) as HL2. destruct (hdr_copy_total 0 (interfere e 31 s1) share) as (l & El & _); [apply HL2|lia|].
    rewrite El. cbn -[hdr_copy interfere hdr_words]. case_bool_decide as Eh; cbn [negb]; [|by eexists _, WAL_RETRY].
    eexists _, SQLITE_OK. split; [done|]. intros _. destruct (ot_barrier e Hot 31 s1 nb) as (nb' & Enb' & Hnb); [by left|done|by rewrite El, <- Eh|].
    split_and!; [|by apply lstate_wal|done|done]. split; [|exists nb'; split; [exact Enb'|left]].
    + change (hdr_copy 0 (interfere e 31 s1) = Some (hdr_words (hdr (wal s)))). rewrite El. by f_equal.
    + split; [done|]. cbn. lia.
  - destruct (Z.eqb_spec (walLockShared (rd_shared e 0) s1) SQLITE_BUSY) as [Eb|Eb]; cbn [negb].
    + apply Huse; [by apply lstate_interfere|done].
    + eexists _, _. by split.
Qed.

End Marks.

(** ** The start of a read transaction *)

Lemma begin_header_spec e ch x share : others_ok e -> reader e x share -> exists x' rc ch', begin_header e ch x = Some (x', rc, ch') /\
  (rc = SQLITE_OK -> header_read x').
Proof.
  intros Hot HX. unfold begin_header. rewrite (rr_shm _ _ _ HX). cbn [Z.eqb].
  destruct (read_hdr_spec e Hot ch x share HX) as (x1 & rc & ch1 & E & [_ Hn] & Hok). rewrite E.
  destruct (Z.eqb_spec rc SQLITE_BUSY) as [->|]; [|by exists x1, rc, ch1].
  destruct (lookup_lt_is_Some_2 (apWiData (the_wal x1)) 0) as [p Hp].
  { destruct (cn_zero _ _ (inv_conn _ _ _ (rs_inv _ _ _ (rr_state _ _ _ HX)))) as (q & Hq & _).
    apply mem_get_Some_range in Hq. unfold nWiData, the_wal in *. lia. }
  change (mem_get (apWiData (the_wal x1)) 0) with (apWiData (the_wal x1) !! 0%nat). rewrite Hp. cbn. destruct (p =? NULL); [by eexists x1, WAL_RETRY, ch1|]. eexists x1, _, ch1. split; [done|].
  intros Hrc. destruct (Z.eqb_spec (walLockShared (rd_rshared e) (st x1)) SQLITE_OK); [done|]. by destruct (Z.eqb_spec (walLockShared (rd_rshared e) (st x1)) SQLITE_BUSY).
Qed.

(** With [useWal] the header has been read before. *)
Definition may_read (e : read_env) (useWal : bool) (x : WSt) (share : gmap Z Z) : Prop :=
  reader e x share /\ readLock (the_wal x) < 0 /\
  (useWal = true -> Z.land (readOnly (the_wal x)) WAL_SHM_RDONLY = 0 /\ mxFrame (hdr (the_wal x)) < READMARK_NOT_USED).

Lemma try_begin_spec e useWal cnt ch x share : others_ok e -> may_read e useWal x share ->
  exists x' rc cnt' ch', walTryBeginRead e useWal cnt ch x = Some (x', rc, cnt', ch') /\
    (rc = SQLITE_OK -> snapshot (st x') /\ (useWal = true -> 1 <= readLock (the_wal x'))).
Proof.
  intros Hot (HX & Hl & Hu). unfold walTryBeginRead. rewrite (proj2 (Z.ltb_lt _ _) Hl). cbn [negb].
  assert (Hg : (Z.land (readOnly (the_wal x)) WAL_SHM_RDONLY <>? 0) && useWal = false).
  { destruct useWal; [|by rewrite andb_false_r]. by rewrite (proj1 (Hu eq_refl)). }
  rewrite Hg. case_cond; [by eexists x, SQLITE_PROTOCOL, _, ch|].
  assert (Hh : exists x1 rc1 ch1, (if useWal then Some (x, SQLITE_OK, ch) else begin_header e ch x) = Some (x1, rc1, ch1) /\ (rc1 = SQLITE_OK -> header_read x1)).
  { destruct useWal; [|by apply begin_header_spec with (share := share)]. exists x, SQLITE_OK, ch. split; [done|]. intros _.
    split; [exact (rr_shm _ _ _ HX)|split; [exact (proj2 (Hu eq_refl))|]]. exists share. apply (rstate_lstate _ _ _ (rr_state _ _ _ HX)). }
  destruct Hh as (x1 & rc1 & ch1 & -> & Hok). destruct (Z.eqb_spec rc1 SQLITE_OK) as [Hrc|Hrc]; cbn [negb]; [|by eexists x1, rc1, _, ch1].
  destruct (Hok Hrc) as (Hs & Hmx & share1 & HL). rewrite Hs, andb_false_r.
  destruct (lock_snapshot_spec e Hot useWal (st x1) share1 HL Hmx) as (s2 & rc2 & -> & Hok2). eexists _, rc2, _, ch1. split; [done|].
  intros Hrc2. destruct (Hok2 Hrc2) as (HS & _ & _ & Hr). done.
Qed.

(** Page [y] for the connection [s]: a reader with lock 0 ignores the log. *)
Definition sees (log : list frame) (c : bytes) (sz : Z) (s : St) (y : Z) : option bytes :=
  if readLock (wal s) =? 0 then Some (db_page c sz y) else reads log c sz (minFrame (wal s)) (mxFrame (hdr (wal s))) y.

(** The locks of the reader [s] as a checkpoint finds them. *)
Definition locked (e : ckpt_env) (s : St) (c : CSt) : Prop :=
  held (ce_readlock e (readLock (wal s))) (c_st c) /\ (readLock (wal s) <> 0 -> held (ce_restart e) (c_st c)).

Lemma same_memory_hdr e s c share plog log sz h l nb :
  ckpt_ok e c share plog log sz h l nb -> page0 (c_st c) = page0 s -> hdr_copy 0 s = Some (hdr_words (hdr (wal s))) ->
  mxFrame (hdr (wal s)) = mxFrame h.
Proof.
  intros HK Hp Hs. destruct (ck_live _ _ _ _ _ _ _ _ _ HK) as (hw & El & Eh & _ & _). unfold hdr_copy in Hs. rewrite <- Hp in Hs.
  destruct (page0_spec _ _ _ (ck_inv _ _ _ _ _ _ _ _ _ HK)) as (p & pg & E0 & Hsh & Epg & [Hsz _] & _). rewrite E0 in Hs. cbn -[hdr_words] in Hs.
  pose proof layout_eqs. unfold head_words in El. rewrite Hsh in El. cbn -[WALINDEX_HDR_SIZE Z.div] in El. rewrite Epg in El. apply (inj Some) in El as <-.
  rewrite take_take in Eh. rewrite mem_read_total in Hs by lia. apply (inj Some) in Hs. change (Z.to_nat (12 * 0)) with 0%nat in Hs. rewrite drop_0 in Hs.
  change (12 `min` Z.to_nat (WALINDEX_HDR_SIZE / 4))%nat with 12%nat in Eh. change (Z.to_nat 12) with 12%nat in Hs. rewrite Eh in Hs.
  assert (E : hdr_words h !! 4%nat = hdr_words (hdr (wal s)) !! 4%nat) by by rewrite Hs. by injection E.
Qed.


Lemma attempts_fuel n : forall e cnt ch x, WAL_RETRY_PROTOCOL_LIMIT + 1 - cnt <= Z.of_nat n -> (0 < n)%nat ->
  forall k, read_attempts (n + k) e cnt ch x = read_attempts n e cnt ch x.
Proof.
  induction n as [|n IH]; intros e cnt ch x Hc Hn k; [lia|]. cbn -[walTryBeginRead].
  destruct (walTryBeginRead (e cnt) false cnt ch x) as [[[[x1 rc] cnt1] ch1]|] eqn:E; [|done].
  destruct (Z.eqb_spec rc WAL_RETRY) as [->|]; [|done].
  assert (Hcnt : cnt1 = cnt + 1 /\ cnt + 1 <= WAL_RETRY_PROTOCOL_LIMIT).
  { unfold walTryBeginRead in E. run_cases; bool_to_prop; unfold WAL_RETRY_PROTOCOL_LIMIT in *; (split; [done|]); 
      repeat match goal with H : _ && _ = false |- _ => apply andb_false_iff in H as [?%Z.ltb_ge|?%Z.ltb_ge] end; lia. }
  destruct Hcnt as [-> Hle]. apply IH; lia.
Qed.


(** ** A reader of the log of two frames *)

Definition demo_read_env (other : Z -> gmap Z WalPage -> gmap Z WalPage) : read_env :=
  ReadEnv demo_recover_env other SQLITE_OK SQLITE_OK SQLITE_OK (fun _ => SQLITE_OK) (fun _ => SQLITE_OK) SQLITE_OK true.

(** The reader shares the pages of [demo_built]; its header is empty. *)
Definition demo_reader (s : St) : WSt :=
  WS (Sys (set_hdr zero_hdr (set_readLock (-1) (set_ckptLock 0 (set_writeLock 0 (wal s))))) (pages s)) (FileRec demo_file []).

Lemma demo_others : others_ok (demo_read_env (fun _ ps => ps)).
Proof.
  assert (Hi : forall k s, interfere (demo_read_env (fun _ ps => ps)) k s = s) by (intros k []; done).
  split; [|intros k s; by rewrite Hi|done|].
  - intros k ps p. cbn. destruct (ps !! p); eauto.
  - intros k s nb _ Hnb _. rewrite Hi. exists nb. split; [done|lia].
Qed.

Lemma demo_may_read : exists s h l, demo_built = Some s /\
  ckpt_ok (demo_ckpt_env true) (demo_pair s) {[ 0 := 1 ]} [1; 2] [demo_first; demo_last] 512 h l 0 /\ mxFrame h = 2 /\
  (exists c, wal s = set_hdr (set_live c demo_ckpt_hdr) (wal (on_wal (set_ckptLock 1) (demo_st demo_ckpt_hdr)))) /\
  may_read (demo_read_env (fun _ ps => ps)) false (demo_reader s) {[ 0 := 1 ]}.
Proof.
  destruct (demo_ckpt_ok true) as (s & h & l & E & HK & Hh & c & Hw). exists s, h, l.
  assert (Hx : (fun s => (hdr_copy 0 s ≫= lookup 4%nat, walCkptInfo_get ckpt_nBackfill s, pages s !! 2)) <$> demo_built = Some (Some 2, Some 0, None)) by (vm_compute; reflexivity).
  rewrite E in Hx. apply (inj Some) in Hx. injection Hx as Hx1 Hx2 Hx3. split; [exact E|]. clear E. split_and!; [done|done|by exists c|].
  split; [|by cbn]. split; [split|split|by right|unfold the_wal; cbn; by rewrite Hw].
  - apply (inv_start _ _ [1; 2]). apply inv_wal; [done..|]. apply HK.
  - apply env_wal; [done..|]. apply HK.
  - intros a pg [= <- <-]. split_and!; [done|exact Hx3|apply zero_page_size|]. intros w b. unfold env_page. cbn. case_match; [done|]. by destruct (b =? 0).
  - split.
    + intros hw v Hl Hv. change (hdr_copy 0 s = Some hw) in Hl. rewrite Hl in Hx1. cbn in Hx1. assert (v = 2) as -> by congruence. done.
    + intros nb Hnb. change (walCkptInfo_get ckpt_nBackfill s = Some nb) in Hnb. assert (nb = 0) as -> by congruence. done.
  - split; [|constructor]. apply (bool_decide_unpack (bytes_ok demo_file)). vm_compute. exact I.
  - vm_compute. reflexivity.
Qed.


(** The others restart the log before the barrier of the first attempt. *)
Definition demo_restart (ps : gmap Z WalPage) : gmap Z WalPage :=
  match walRestartHdr 7 (Sys (wal (demo_st demo_ckpt_hdr)) ps) with Some s => pages s | None => ps end.

(** An undisturbed reader sets its mark and reads the log. One that is overtaken by a restart
    of the log is sent back, and reads the database in its second attempt. *)
Example demo_reads :
  (fun other => let? s := demo_built in
     let? (x, rc, ch) := walBeginReadTransaction (fun cnt => demo_read_env (if cnt =? 0 then other else fun _ ps => ps)) false (demo_reader s) in
     let? m := walCkptInfo_get (ckpt_aReadMark (readLock (the_wal x))) (st x) in
     Some (rc, ch, readLock (the_wal x), m, minFrame (the_wal x), mxFrame (hdr (the_wal x))))
  <$> [fun _ ps => ps; fun k ps => if k =? 50 then demo_restart ps else ps] =
  [Some (SQLITE_OK, true, 1, 2, 1, 2); Some (SQLITE_OK, true, 0, 0, 1, 0)].
Proof. vm_compute. reflexivity. Qed.

End WalReaders.
