(* ===== verification/RowSet.v ===== *)
(** * The row set of src/rowset.c

    A set of row ids with two uses that do not mix: insert and extract in order, or insert
    and test in batches. New values are appended to a list; the list is sorted when it is
    first read, or merged into a forest of binary trees when a new batch begins.

    The entries are linked structures in memory: [entries] maps the address of an entry to
    its contents, and an entry is at different times part of a list (through [pRight]), of
    a tree, or a node of the forest. Entries come from chunks of 42, and from the rest of
    the block that holds the row set itself. [chunks] maps the address of a chunk to
    [pNextChunk].

    - [sqlite3RowSetInit], [sqlite3RowSetClear], [sqlite3RowSetDelete], [rowSetEntryAlloc],
      [sqlite3RowSetInsert];
    - [rowSetEntryMerge], [rowSetEntrySort], [rowSetTreeToList], [rowSetNDeepTree],
      [rowSetListToTree];
    - [sqlite3RowSetNext], [sqlite3RowSetTest].

    The answer of [sqlite3DbMallocRawNN] is an argument of the operations that can call it
    (each at most once): an address and the uninitialised contents, or nothing. A failed
    assertion is [None], as are a null dereference and an index outside an array. The fuel
    of the loops is the number of entries in memory, since none visits an entry twice.

    [rowset_refines_set]: any sequence of operations behaves as on finite sets, including
    what is lost when memory runs out. *)

From stdpp Require Import list gmap sorting.
From S2P Require Import Prelude.
Local Open Scope Z_scope.

Module RowSets.

(** ** Data *)

Definition NULL : Z := 0.

Definition ROWSET_ALLOCATION_SIZE : Z := 1024.
Definition sizeof_RowSetEntry : Z := 24.
Definition sizeof_RowSet : Z := 56.
Definition ROWSET_ENTRY_PER_CHUNK : Z := (ROWSET_ALLOCATION_SIZE - 8) / sizeof_RowSetEntry.
Definition sizeof_RowSetChunk : Z := 8 + ROWSET_ENTRY_PER_CHUNK * sizeof_RowSetEntry.
Definition ROUND8 (x : Z) : Z := Z.land (x + 7) (Z.lnot 7).
Definition ROWSET_SORTED : Z := 1.
Definition ROWSET_NEXT : Z := 2.

Record RowSetEntry := Entry { v : Z; pRight : Z; pLeft : Z }.

Abbreviation entries := (gmap Z RowSetEntry).
Abbreviation chunks := (gmap Z Z).

(** The structure, with the memory it refers to. *)
Record RowSet := RS {
  rs_addr : Z;
  mem : entries;
  chunk_mem : chunks;
  pChunk : Z;
  pEntry : Z;
  pLast : Z;
  pFresh : Z;
  pForest : Z;
  nFresh : Z;
  rsFlags : Z;
  iBatch : Z
}.

Definition set_mem m (p : RowSet) : RowSet :=
  RS (rs_addr p) m (chunk_mem p) (pChunk p) (pEntry p) (pLast p) (pFresh p) (pForest p)
    (nFresh p) (rsFlags p) (iBatch p).
Definition set_chunks m c q (p : RowSet) : RowSet :=
  RS (rs_addr p) m c q (pEntry p) (pLast p) (pFresh p) (pForest p)
    (nFresh p) (rsFlags p) (iBatch p).
Definition set_list q l f (p : RowSet) : RowSet :=
  RS (rs_addr p) (mem p) (chunk_mem p) (pChunk p) q l (pFresh p) (pForest p)
    (nFresh p) f (iBatch p).
Definition set_fresh q n (p : RowSet) : RowSet :=
  RS (rs_addr p) (mem p) (chunk_mem p) (pChunk p) (pEntry p) (pLast p) q (pForest p)
    n (rsFlags p) (iBatch p).
Definition set_forest q (p : RowSet) : RowSet :=
  RS (rs_addr p) (mem p) (chunk_mem p) (pChunk p) (pEntry p) (pLast p) (pFresh p) q
    (nFresh p) (rsFlags p) (iBatch p).
Definition set_batch b (p : RowSet) : RowSet :=
  RS (rs_addr p) (mem p) (chunk_mem p) (pChunk p) (pEntry p) (pLast p) (pFresh p) (pForest p)
    (nFresh p) (rsFlags p) b.

Definition store_right (m : entries) (p q : Z) : option entries :=
  let? e := m !! p in Some (<[p := Entry (v e) q (pLeft e)]> m).
Definition store_left (m : entries) (p q : Z) : option entries :=
  let? e := m !! p in Some (<[p := Entry (v e) (pRight e) q]> m).

(** A pointer to a pointer: to a variable of the caller, whose value is threaded along, or
    to the [pRight] field of an entry. *)
Definition slot := option Z.
Definition store_slot (m : entries) (var : Z) (s : slot) (q : Z) : option (entries * Z) :=
  match s with
  | None => Some (m, q)
  | Some t => let? m := store_right m t q in Some (m, var)
  end.

(** ** Allocation *)

(** What [sqlite3DbMallocRawNN] answers: the block, and what its entries happen to hold. *)
Record block := Block { b_addr : Z; b_size : Z; b_junk : Z -> RowSetEntry }.

(** The entries of an array at [base]. *)
Definition array_addrs (base : Z) (n : Z) : list Z :=
  (fun i => base + sizeof_RowSetEntry * i) <$> seqZ 0 n.
Definition array_entries (base n : Z) (junk : Z -> RowSetEntry) : entries :=
  list_to_map ((fun i => (base + sizeof_RowSetEntry * i, junk i)) <$> seqZ 0 n).

(** [b_size] is what [sqlite3DbMallocSize] tells. The result [None] is the null pointer. *)
Definition sqlite3RowSetInit (an : option block) : option RowSet :=
  match an with
  | None => None
  | Some b =>
      let base := b_addr b + ROUND8 sizeof_RowSet in
      let n := u16 ((b_size b - ROUND8 sizeof_RowSet) / sizeof_RowSetEntry) in
      Some (RS (b_addr b) (array_entries base n (b_junk b)) ∅ NULL NULL NULL base NULL n
              ROWSET_SORTED 0)
  end.

(** [sqlite3DbFree] of a chunk: it and the entries in it are gone. *)
Definition free_chunk (c : Z) (p : RowSet) : RowSet :=
  set_chunks (filter (fun e => ~ (c <= e.1 < c + sizeof_RowSetChunk)) (mem p))
    (delete c (chunk_mem p)) (pChunk p) p.

Fixpoint clear_loop (fuel : nat) (c : Z) (p : RowSet) : option RowSet :=
  match fuel with
  | O => None
  | S fuel =>
      if c =? NULL then Some p else
      let? pNextChunk := chunk_mem p !! c in
      clear_loop fuel pNextChunk (free_chunk c p)
  end.

Definition sqlite3RowSetClear (p : RowSet) : option RowSet :=
  let? p := clear_loop (S (size (chunk_mem p))) (pChunk p) p in
  Some (RS (rs_addr p) (mem p) (chunk_mem p) NULL NULL NULL (pFresh p) NULL 0 ROWSET_SORTED
          (iBatch p)).

(** The block [b] of the row set is freed too; the memory that is left. *)
Definition sqlite3RowSetDelete (b : block) (p : RowSet) : option (entries * chunks) :=
  let? p := sqlite3RowSetClear p in
  Some (filter (fun e => ~ (b_addr b <= e.1 < b_addr b + b_size b)) (mem p), chunk_mem p).

(** The address of an unused entry, or null. *)
Definition rowSetEntryAlloc (an : option block) (p : RowSet) : Z * RowSet :=
  let take p := (pFresh p, set_fresh (pFresh p + sizeof_RowSetEntry) (u16 (nFresh p - 1)) p) in
  if nFresh p =? 0 then
    match an with
    | None => (NULL, p)
    | Some b =>
        let pNew := b_addr b in
        let aEntry := pNew + 8 in
        take (set_fresh aEntry ROWSET_ENTRY_PER_CHUNK
          (set_chunks (array_entries aEntry ROWSET_ENTRY_PER_CHUNK (b_junk b) ∪ mem p)
             (<[pNew := pChunk p]> (chunk_mem p)) pNew p))
    end
  else take p.

Definition sqlite3RowSetInsert (an : option block) (rowid : Z) (p : RowSet) : option RowSet :=
  if Z.land (rsFlags p) ROWSET_NEXT <>? 0 then None else
  let '(e, p) := rowSetEntryAlloc an p in
  if e =? NULL then Some p else
  let? old := mem p !! e in
  let p := set_mem (<[e := Entry rowid NULL (pLeft old)]> (mem p)) p in
  let last := pLast p in
  if last <>? NULL then
    let? l := mem p !! last in
    let flags := if rowid <=? v l then Z.land (rsFlags p) (Z.lnot ROWSET_SORTED)
                 else rsFlags p in
    let? m := store_right (mem p) last e in
    Some (set_list (pEntry p) e flags (set_mem m p))
  else Some (set_list e e (rsFlags p) p).

(** ** Sorted lists *)

(** [assert( pA->pRight==0 || pA->v<=pA->pRight->v )] *)
Definition assert_order (m : entries) (a : RowSetEntry) : option unit :=
  if pRight a =? NULL then Some () else
  let? b := m !! pRight a in if v a <=? v b then Some () else None.

(** [head] is the [pRight] field of the variable of that name. *)
Fixpoint merge_loop (fuel : nat) (m : entries) (head : Z) (pTail : slot) (pA pB : Z)
  : option (entries * Z) :=
  match fuel with
  | O => None
  | S fuel =>
      let? a := m !! pA in
      let? b := m !! pB in
      let? _ := assert_order m a in
      let? _ := assert_order m b in
      if v a <=? v b then
        let? (m, head, pTail) :=
          if v a <? v b
          then let? (m, head) := store_slot m head pTail pA in Some (m, head, Some pA)
          else Some (m, head, pTail) in
        let? a := m !! pA in
        if pRight a =? NULL then store_slot m head pTail pB
        else merge_loop fuel m head pTail (pRight a) pB
      else
        let? (m, head) := store_slot m head pTail pB in
        let pTail := Some pB in
        let? b := m !! pB in
        if pRight b =? NULL then store_slot m head pTail pA
        else merge_loop fuel m head pTail pA (pRight b)
  end.

Definition rowSetEntryMerge (m : entries) (pA pB : Z) : option (entries * Z) :=
  merge_loop (2 * size m) m NULL None pA pB.

(** [for(i=0; aBucket[i]; i++)] over the rest of the array, and [aBucket[i] = pIn]. *)
Fixpoint sort_carry (m : entries) (aBucket : list Z) (pIn : Z) : option (entries * list Z) :=
  match aBucket with
  | [] => None
  | b :: rest =>
      if b =? NULL then Some (m, pIn :: rest) else
      let? (m, pIn) := rowSetEntryMerge m b pIn in
      let? (m, rest) := sort_carry m rest pIn in Some (m, NULL :: rest)
  end.

(** [while( pIn )] *)
Fixpoint sort_fill (fuel : nat) (m : entries) (aBucket : list Z) (pIn : Z)
  : option (entries * list Z) :=
  match fuel with
  | O => None
  | S fuel =>
      if pIn =? NULL then Some (m, aBucket) else
      let? e := m !! pIn in
      let? m := store_right m pIn NULL in
      let? (m, aBucket) := sort_carry m aBucket pIn in
      sort_fill fuel m aBucket (pRight e)
  end.

(** The loop from [aBucket[1]] on. *)
Fixpoint sort_collect (m : entries) (aBucket : list Z) (pIn : Z) : option (entries * Z) :=
  match aBucket with
  | [] => Some (m, pIn)
  | b :: rest =>
      if b =? NULL then sort_collect m rest pIn else
      let? (m, pIn) := if pIn <>? NULL then rowSetEntryMerge m pIn b else Some (m, b) in
      sort_collect m rest pIn
  end.

Definition rowSetEntrySort (m : entries) (pIn : Z) : option (entries * Z) :=
  let? (m, aBucket) := sort_fill (S (size m)) m (replicate 40 NULL) pIn in
  match aBucket with
  | [] => None
  | b :: rest => sort_collect m rest b
  end.

(** ** Trees *)

(** The memory, the variable [*ppFirst] may refer to, and [*ppLast]. *)
Fixpoint rowSetTreeToList (fuel : nat) (m : entries) (pIn first : Z) (ppFirst : slot)
  : option (entries * Z * Z) :=
  match fuel with
  | O => None
  | S fuel =>
      if pIn =? NULL then None else
      let? e := m !! pIn in
      let? (m, first) :=
        if pLeft e <>? NULL then
          let? (m, first, p) := rowSetTreeToList fuel m (pLeft e) first ppFirst in
          let? m := store_right m p pIn in Some (m, first)
        else store_slot m first ppFirst pIn in
      let? e := m !! pIn in
      let? (m, last) :=
        if pRight e <>? NULL then
          let? (m, _, last) := rowSetTreeToList fuel m (pRight e) NULL (Some pIn) in
          Some (m, last)
        else Some (m, pIn) in
      let? l := m !! last in
      if pRight l <>? NULL then None else Some (m, first, last)
  end.

(** The memory, [*ppList], and the root. *)
Fixpoint rowSetNDeepTree (fuel : nat) (m : entries) (pList iDepth : Z)
  : option (entries * Z * Z) :=
  match fuel with
  | O => None
  | S fuel =>
      if pList =? NULL then Some (m, pList, NULL) else
      if 1 <? iDepth then
        let? (m, pList, l) := rowSetNDeepTree fuel m pList (iDepth - 1) in
        let p := pList in
        if p =? NULL then Some (m, pList, l) else
        let? m := store_left m p l in
        let? e := m !! p in
        let? (m, pList, r) := rowSetNDeepTree fuel m (pRight e) (iDepth - 1) in
        let? m := store_right m p r in
        Some (m, pList, p)
      else
        let p := pList in
        let? e := m !! p in
        Some (<[p := Entry (v e) NULL NULL]> m, pRight e, p)
  end.

Fixpoint tree_loop (fuel : nat) (m : entries) (p pList iDepth : Z) : option (entries * Z) :=
  match fuel with
  | O => None
  | S fuel =>
      if pList =? NULL then Some (m, p) else
      let l := p in
      let p := pList in
      let? e := m !! p in
      let? m := store_left m p l in
      let? (m, pList, r) := rowSetNDeepTree (S (Z.to_nat iDepth)) m (pRight e) iDepth in
      let? m := store_right m p r in
      tree_loop fuel m p pList (iDepth + 1)
  end.

Definition rowSetListToTree (m : entries) (pList : Z) : option (entries * Z) :=
  if pList =? NULL then None else
  let p := pList in
  let? e := m !! p in
  let m := <[p := Entry (v e) NULL NULL]> m in
  tree_loop (S (size m)) m p (pRight e) 1.

(** ** Extraction and test *)

(** The row id when the return code is 1. *)
Definition sqlite3RowSetNext (p : RowSet) : option (option Z * RowSet) :=
  if pForest p <>? NULL then None else
  let? p :=
    if Z.land (rsFlags p) ROWSET_NEXT =? 0 then
      let? p :=
        if Z.land (rsFlags p) ROWSET_SORTED =? 0 then
          let? (m, q) := rowSetEntrySort (mem p) (pEntry p) in
          Some (set_list q (pLast p) (rsFlags p) (set_mem m p))
        else Some p in
      Some (set_list (pEntry p) (pLast p)
              (Z.lor (rsFlags p) (Z.lor ROWSET_SORTED ROWSET_NEXT)) p)
    else Some p in
  if pEntry p <>? NULL then
    let? e := mem p !! pEntry p in
    let p := set_list (pRight e) (pLast p) (rsFlags p) p in
    let? p := if pEntry p =? NULL then sqlite3RowSetClear p else Some p in
    Some (Some (v e), p)
  else Some (None, p).

(** The loop over the forest that finds a place for the sorted list at [q]; [ppPrevTree]
    is [None] for [&pRowSet->pForest]. *)
Fixpoint test_flush (fuel : nat) (an : option block) (p : RowSet) (pTree : Z) (ppPrevTree : slot)
  (q : Z) : option RowSet :=
  match fuel with
  | O => None
  | S fuel =>
      if pTree =? NULL then
        let '(pTree, p) := rowSetEntryAlloc an p in
        let? (m, f) := store_slot (mem p) (pForest p) ppPrevTree pTree in
        let p := set_forest f (set_mem m p) in
        if pTree =? NULL then Some p else
        let? e := mem p !! pTree in
        let m := <[pTree := Entry 0 NULL (pLeft e)]> (mem p) in
        let? (m, t) := rowSetListToTree m q in
        let? m := store_left m pTree t in
        Some (set_mem m p)
      else
        let? e := mem p !! pTree in
        if pLeft e =? NULL then
          let? (m, t) := rowSetListToTree (mem p) q in
          let? m := store_left m pTree t in
          Some (set_mem m p)
        else
          let? (m, pAux, _) := rowSetTreeToList (size (mem p)) (mem p) (pLeft e) NULL None in
          let? m := store_left m pTree NULL in
          let? (m, q) := rowSetEntryMerge m pAux q in
          let? e := m !! pTree in
          test_flush fuel an (set_mem m p) (pRight e) (Some pTree) q
  end.

(** [while( p )]: follow the tree. *)
Fixpoint search_tree (fuel : nat) (m : entries) (p iRowid : Z) : option bool :=
  match fuel with
  | O => None
  | S fuel =>
      if p =? NULL then Some false else
      let? e := m !! p in
      if v e <? iRowid then search_tree fuel m (pRight e) iRowid
      else if iRowid <? v e then search_tree fuel m (pLeft e) iRowid
      else Some true
  end.

Fixpoint search_forest (fuel : nat) (m : entries) (pTree iRowid : Z) : option bool :=
  match fuel with
  | O => None
  | S fuel =>
      if pTree =? NULL then Some false else
      let? e := m !! pTree in
      let? found := search_tree (S (size m)) m (pLeft e) iRowid in
      if found then Some true else search_forest fuel m (pRight e) iRowid
  end.

(** The first test of a new batch: sort the new entries into the forest. *)
Definition test_batch (an : option block) (b : Z) (p : RowSet) : option RowSet :=
  if b =? iBatch p then Some p else
  let? p :=
    if pEntry p <>? NULL then
      let? (m, q) := if Z.land (rsFlags p) ROWSET_SORTED =? 0
                     then rowSetEntrySort (mem p) (pEntry p)
                     else Some (mem p, pEntry p) in
      let? p := test_flush (S (size m)) an (set_mem m p) (pForest p) None q in
      Some (set_list NULL NULL (Z.lor (rsFlags p) ROWSET_SORTED) p)
    else Some p in
  Some (set_batch b p).

Definition sqlite3RowSetTest (an : option block) (b iRowid : Z) (p : RowSet)
  : option (bool * RowSet) :=
  if Z.land (rsFlags p) ROWSET_NEXT <>? 0 then None else
  let? p := test_batch an b p in
  let? found := search_forest (S (size (mem p))) (mem p) (pForest p) iRowid in
  Some (found, p).


(** ** Lists in memory *)

(** From [p] on, the entries of [l] (address and value) are linked by [pRight]. *)
Fixpoint list_at (m : entries) (p : Z) (l : list (Z * Z)) : Prop :=
  match l with
  | [] => p = NULL
  | (a, x) :: l =>
      p = a /\ a <> NULL /\ exists e, m !! a = Some e /\ v e = x /\ list_at m (pRight e) l
  end.

Abbreviation addrs l := ((l : list (Z * Z)).*1).
Abbreviation vals l := ((l : list (Z * Z)).*2).
Abbreviation ssorted l := (StronglySorted Z.lt (vals l)).

(** The memory changed only at the addresses of [X], where it was allocated before. *)
Definition frame (X : list Z) (m m' : entries) : Prop :=
  dom m' = dom m /\ forall a, a ∉ X -> m' !! a = m !! a.

Lemma frame_refl X m : frame X m m.
Proof. done. Qed.

Lemma frame_trans X m1 m2 m3 : frame X m1 m2 -> frame X m2 m3 -> frame X m1 m3.
Proof.
  intros [D1 F1] [D2 F2]. split; [congruence|]. intros a Ha. by rewrite F2, F1.
Qed.

Lemma frame_weaken X Y m m' : frame X m m' -> X ⊆ Y -> frame Y m m'.
Proof. intros [D F] H. split; [done|]. intros a Ha. apply F. set_solver. Qed.

Lemma frame_lookup X m m' a : frame X m m' -> a ∉ X -> m' !! a = m !! a.
Proof. intros [_ F]. apply F. Qed.

Lemma frame_size X m m' : frame X m m' -> size m' = size m.
Proof. intros [D _]. rewrite <- !(size_dom (D := gset Z)), D. done. Qed.

Lemma frame_insert m p e e' : m !! p = Some e -> frame [p] m (<[p := e']> m).
Proof.
  intros E. split.
  - rewrite dom_insert_L. apply elem_of_dom_2 in E. set_solver.
  - intros a Ha. rewrite lookup_insert_ne; [done|]. set_solver.
Qed.

Lemma frame_is_Some X m m' a : frame X m m' -> is_Some (m !! a) -> is_Some (m' !! a).
Proof. intros [D _] H. apply elem_of_dom. rewrite D. by apply elem_of_dom. Qed.

Create HintDb rowset.
#[export] Hint Resolve frame_refl frame_trans frame_insert : rowset.

Lemma list_at_frame X m m' p l :
  frame X m m' -> (forall a, a ∈ addrs l -> a ∉ X) -> list_at m p l -> list_at m' p l.
Proof.
  intros F. revert p. induction l as [|[a x] l IH]; intros p HX; simpl; [done|].
  intros (-> & Hn & e & E & Hv & Hl). split_and!; [done..|]. exists e.
  rewrite (frame_lookup _ _ _ _ F) by (apply HX; set_solver). split_and!; [done..|].
  apply IH; [|done]. intros b Hb. apply HX. set_solver.
Qed.

Lemma list_at_null m p l : list_at m p l -> p = NULL <-> l = [].
Proof.
  destruct l as [|[a x] l]; simpl; [naive_solver|]. intros (-> & Hn & _). naive_solver.
Qed.

Lemma list_at_in m p l a : list_at m p l -> a ∈ addrs l -> a <> NULL /\ is_Some (m !! a).
Proof.
  revert p. induction l as [|[b x] l IH]; intros p; simpl; [set_solver|].
  intros (-> & Hn & e & E & _ & Hl) [->|Ha]%elem_of_cons; eauto.
Qed.

(** No more distinct addresses than entries in memory. *)
Lemma addrs_size (m : entries) (l : list Z) :
  NoDup l -> (forall a, a ∈ l -> is_Some (m !! a)) -> (length l <= size m)%nat.
Proof.
  intros Hd Hl. rewrite <- (size_list_to_set (C := gset Z) l), <- (size_dom (D := gset Z)) by done.
  apply subseteq_size. intros a Ha%elem_of_list_to_set. by apply elem_of_dom, Hl.
Qed.

Lemma list_at_size m p l : list_at m p l -> NoDup (addrs l) -> (length l <= size m)%nat.
Proof.
  intros Hl Hd. rewrite <- (length_fmap fst l). apply addrs_size; [done|].
  intros a Ha. by eapply list_at_in.
Qed.

(** Two lists join when the last entry of the first is linked to the second. *)
Lemma list_at_join X m m' p l z q l' e :
  list_at m p l -> frame X m m' -> NoDup (addrs l) -> (forall a, a ∈ addrs l -> a ∈ X -> a = z) ->
  list.last (addrs l) = Some z -> m' !! z = Some e -> pRight e = q ->
  (forall e0, m !! z = Some e0 -> v e0 = v e) ->
  list_at m' q l' -> list_at m' p (l ++ l').
Proof.
  intros Hl F Hd HX Hz Ee Eq Hv Hl'. revert p Hl.
  induction l as [|[a x] l IH]; intros p Hl; [done|]. simpl in Hl.
  destruct Hl as (-> & Hn & e0 & E0 & <- & Hl). simpl. split_and!; [done..|].
  simpl in Hd. apply list.NoDup_cons in Hd as [Ha Hd].
  destruct l as [|[b y] l].
  - simpl in Hz. simplify_eq. exists e. split_and!; [done|by rewrite (Hv e0)|done].
  - assert (Hza : z <> a).
    { intros ->. apply Ha. simpl in Hz |- *. by apply last_Some_elem_of. }
    exists e0. rewrite (frame_lookup _ _ _ _ F) by (intros Hx; apply Hza; symmetry; apply HX; set_solver).
    split_and!; [done..|]. apply IH; [done| |done|done]. intros c Hc. apply HX. set_solver.
Qed.

(** ** Slots *)

Definition slot_addrs (s : slot) : list Z := match s with None => [] | Some t => [t] end.

(** The slot [s] has been set to [q]. *)
Definition slot_set (m : entries) (var : Z) (s : slot) (q : Z) (m' : entries) (var' : Z) : Prop :=
  match s with
  | None => var' = q
  | Some t => var' = var /\ exists e, m !! t = Some e /\ m' !! t = Some (Entry (v e) q (pLeft e))
  end.

Lemma store_right_spec m p q e : m !! p = Some e ->
  exists m', store_right m p q = Some m' /\ frame [p] m m' /\
    m' !! p = Some (Entry (v e) q (pLeft e)).
Proof.
  intros E. unfold store_right. rewrite E. eexists. split_and!; [done|eauto with rowset|].
  apply lookup_insert_eq.
Qed.

Lemma store_left_spec m p q e : m !! p = Some e ->
  exists m', store_left m p q = Some m' /\ frame [p] m m' /\
    m' !! p = Some (Entry (v e) (pRight e) q).
Proof.
  intros E. unfold store_left. rewrite E. eexists. split_and!; [done|eauto with rowset|].
  apply lookup_insert_eq.
Qed.

Lemma store_slot_spec m var s q :
  (forall t, t ∈ slot_addrs s -> is_Some (m !! t)) ->
  exists m' var', store_slot m var s q = Some (m', var') /\ slot_set m var s q m' var' /\
    frame (slot_addrs s) m m'.
Proof.
  intros Hs. destruct s as [t|]; simpl.
  - destruct (Hs t) as [e E]; [set_solver|].
    destruct (store_right_spec m t q e E) as (m' & -> & F & E'). eauto 10.
  - eauto 10 using frame_refl.
Qed.

(** A later change elsewhere keeps the slot. *)
Lemma slot_set_frame X m var s q m' var' m'' :
  slot_set m var s q m' var' -> frame X m' m'' -> (forall t, t ∈ slot_addrs s -> t ∉ X) ->
  slot_set m var s q m'' var'.
Proof.
  destruct s as [t|]; simpl; [|done]. intros (-> & e & E & E') F HX. split; [done|].
  exists e. rewrite (frame_lookup _ _ _ _ F) by (apply HX; set_solver). done.
Qed.

(** ** Merging *)

(** [l] is a sorted list with the values of [la] and [lb], made of their entries. *)
Record merged (la lb l : list (Z * Z)) : Prop := {
  mg_nonempty : l <> [];
  mg_sorted : ssorted l;
  mg_vals : forall x, x ∈ vals l <-> x ∈ vals la \/ x ∈ vals lb;
  mg_addrs : addrs l ⊆ addrs la ++ addrs lb;
  mg_nodup : NoDup (addrs l)
}.

Lemma merged_sym la lb l : merged la lb l -> merged lb la l.
Proof.
  intros [Hn Hs Hv Ha Hd]. constructor; [done..| | |done].
  - intros x. rewrite Hv. tauto.
  - set_solver.
Qed.

Lemma ssorted_cons_inv a x l : ssorted ((a, x) :: l) -> ssorted l /\ forall y, y ∈ vals l -> x < y.
Proof.
  simpl. intros [H1 H2]%StronglySorted_inv. split; [done|]. by apply list.Forall_forall.
Qed.

Lemma ssorted_cons a x l : ssorted l -> (forall y, y ∈ vals l -> x < y) -> ssorted ((a, x) :: l).
Proof. intros H1 H2. simpl. constructor; [done|]. by apply list.Forall_forall. Qed.

(** The smaller head goes first. *)
Lemma merged_cons a x la lb l :
  ssorted ((a, x) :: la) -> (forall y, y ∈ vals lb -> x < y) -> a ∉ addrs la ++ addrs lb ->
  merged la lb l \/ (la = [] /\ l = lb /\ ssorted lb /\ NoDup (addrs lb)) ->
  merged ((a, x) :: la) lb ((a, x) :: l).
Proof.
  intros [Hs Hx]%ssorted_cons_inv Hlb Ha H.
  assert (ssorted l /\ (forall y, y ∈ vals l <-> y ∈ vals la \/ y ∈ vals lb) /\
    addrs l ⊆ addrs la ++ addrs lb /\ NoDup (addrs l)) as (Hs' & Hv & Hsub & Hd).
  { destruct H as [[]|(-> & -> & ? & ?)]; [done|]. split_and!; [done| |set_solver|done].
    intros y. set_solver. }
  constructor; [done| | | |].
  - apply ssorted_cons; [done|]. intros y [?|?]%Hv; auto.
  - intros y. simpl. rewrite !elem_of_cons, Hv. tauto.
  - simpl. set_solver.
  - simpl. apply list.NoDup_cons. split; [set_solver|done].
Qed.

(** The head of the first list is dropped when the second begins with the same value. *)
Lemma merged_drop a x b la lb l :
  merged la ((b, x) :: lb) l \/ (la = [] /\ l = (b, x) :: lb /\ ssorted l /\ NoDup (addrs l)) ->
  merged ((a, x) :: la) ((b, x) :: lb) l.
Proof.
  intros [[Hn Hs Hv Ha Hd]|(-> & -> & Hs & Hd)].
  - constructor; [done..| | |done].
    + intros y. rewrite Hv. simpl. set_solver.
    + set_solver.
  - constructor; [done|done| |set_solver|done]. intros y. simpl. set_solver.
Qed.

(** Linking [p] into the slot, and going on behind [p]. *)
Lemma append_step m head s p x e m1 head1 m2 head2 q l X :
  slot_set m head s p m1 head1 -> frame (slot_addrs s) m m1 ->
  p <> NULL -> m1 !! p = Some e -> v e = x ->
  slot_set m1 head1 (Some p) q m2 head2 -> frame (p :: X) m1 m2 ->
  (forall t, t ∈ slot_addrs s -> t ∉ p :: X) -> list_at m2 q l ->
  slot_set m head s p m2 head2 /\ list_at m2 p ((p, x) :: l) /\
  frame (slot_addrs s ++ p :: X) m m2.
Proof.
  intros S1 F1 Hn E <- (-> & e' & E' & E2) F2 Ht Hl. simplify_eq. split_and!.
  - by eapply slot_set_frame.
  - simpl. split_and!; [done..|]. eexists. split_and!; [done..|done].
  - eapply frame_trans; (eapply frame_weaken; [done|set_solver]).
Qed.

Lemma assert_order_ok m p a x l e :
  list_at m p ((a, x) :: l) -> ssorted ((a, x) :: l) -> m !! p = Some e ->
  assert_order m e = Some ().
Proof.
  intros (-> & _ & e' & E & Hv & Hl) [_ Hs]%ssorted_cons_inv E'. simplify_eq.
  unfold assert_order. destruct l as [|[b y] l]; simpl in Hl.
  - by rewrite Hl.
  - destruct Hl as (Eb & Hn & e & Ee & Hy & _). rewrite Eb.
    rewrite (proj2 (Z.eqb_neq _ _) Hn), Ee. rewrite Hy, (proj2 (Z.leb_le _ _)); [done|].
    specialize (Hs y). apply Z.lt_le_incl, Hs. simpl. set_solver.
Qed.

(** What [merge_loop] does from a state in which it has still to merge [la] and [lb]. *)
Definition merge_result m head s la lb (r : option (entries * Z)) : Prop :=
  exists m' head' q l, r = Some (m', head') /\ slot_set m head s q m' head' /\
    list_at m' q l /\ merged la lb l /\ frame (slot_addrs s ++ addrs la ++ addrs lb) m m'.

(** The branch that takes the entry [p] from [la]; [rest] is the loop from there on. *)
Lemma merge_take m head s p x q la lb (rest : entries -> Z -> Z -> option (entries * Z)) :
  list_at m p ((p, x) :: la) -> list_at m q lb -> ssorted ((p, x) :: la) -> ssorted lb ->
  (forall y, y ∈ vals lb -> x < y) ->
  NoDup (slot_addrs s ++ addrs ((p, x) :: la) ++ addrs lb) ->
  (forall t, t ∈ slot_addrs s -> is_Some (m !! t)) ->
  (forall m1 head1 p1, list_at m1 p1 la -> list_at m1 q lb -> la <> [] ->
    NoDup (slot_addrs (Some p) ++ addrs la ++ addrs lb) -> is_Some (m1 !! p) ->
    merge_result m1 head1 (Some p) la lb (rest m1 head1 p1)) ->
  exists m1 head1 e, store_slot m head s p = Some (m1, head1) /\ m1 !! p = Some e /\
    merge_result m head s ((p, x) :: la) lb
      (if pRight e =? NULL then store_slot m1 head1 (Some p) q else rest m1 head1 (pRight e)).
Proof.
  intros (_ & Hn & e & E & Ev & Hl) Hq Hs Hsb Hx Hd Ht Hrest. csimpl in Hd.
  apply list.NoDup_app in Hd as (_ & Hd1 & Hd2).
  destruct (store_slot_spec m head s p Ht) as (m1 & head1 & -> & S1 & F1).
  assert (E1 : m1 !! p = Some e) by (rewrite (frame_lookup _ _ _ _ F1); [done|set_solver +Hd1]).
  assert (Hl1 : list_at m1 (pRight e) la) by (eapply list_at_frame; [done| |done]; set_solver +Hd1).
  assert (Hq1 : list_at m1 q lb) by (eapply list_at_frame; [done| |done]; set_solver +Hd1).
  exists m1, head1, e. split_and!; [done..|].
  assert (exists m2 head2 q' l, (if pRight e =? NULL then store_slot m1 head1 (Some p) q
      else rest m1 head1 (pRight e)) = Some (m2, head2) /\
    slot_set m1 head1 (Some p) q' m2 head2 /\ list_at m2 q' l /\
    frame (p :: addrs la ++ addrs lb) m1 m2 /\ (merged la lb l \/ (la = [] /\ l = lb)))
    as (m2 & head2 & q' & l & -> & S2 & Hq2 & F2 & Hm).
  { destruct (Z.eqb_spec (pRight e) NULL) as [En|En].
    - apply (list_at_null _ _ _ Hl) in En as ->.
      destruct (store_slot_spec m1 head1 (Some p) q) as (m2 & head2 & -> & S2 & F2); [set_solver|].
      apply list.NoDup_cons in Hd2 as [Hp _].
      exists m2, head2, q, lb. split_and!; [done..| | |by right].
      + eapply list_at_frame; [done| |done]. set_solver +Hp.
      + eapply frame_weaken; [done|]. clear; set_solver.
    - destruct (Hrest m1 head1 (pRight e)) as (m2 & head2 & q' & l & -> & S2 & Hq2 & Hm & F2);
        [done..| |done|done|]; [by intros ->|]. exists m2, head2, q', l. by split_and!; [..|left]. }
  apply list.NoDup_cons in Hd2 as [Hp Hd2].
  destruct (append_step m head s p x e m1 head1 m2 head2 q' l (addrs la ++ addrs lb))
    as (HS & HL & HF); [done..|set_solver +Hd1|done|].
  exists m2, head2, p, ((p, x) :: l). split_and!; [done..| |done].
  apply merged_cons; [done..|]. destruct Hm as [?|[-> ->]]; [by left|right]. by split_and!.
Qed.

Lemma merge_result_sym m head s la lb r :
  merge_result m head s la lb r -> merge_result m head s lb la r.
Proof.
  intros (m' & head' & q & l & E & ? & ? & ?%merged_sym & F). exists m', head', q, l.
  split_and!; [done..|]. eapply frame_weaken; [done|]. clear; set_solver.
Qed.

(** The branch that drops the head of [la]. *)
Lemma merge_skip m head s p x q e la b lb (rest : option (entries * Z)) :
  list_at m (pRight e) la -> list_at m q ((b, x) :: lb) -> ssorted ((b, x) :: lb) ->
  NoDup (slot_addrs s ++ addrs ((p, x) :: la) ++ addrs ((b, x) :: lb)) ->
  (forall t, t ∈ slot_addrs s -> is_Some (m !! t)) ->
  (la <> [] -> NoDup (slot_addrs s ++ addrs la ++ addrs ((b, x) :: lb)) ->
    merge_result m head s la ((b, x) :: lb) rest) ->
  merge_result m head s ((p, x) :: la) ((b, x) :: lb)
    (if pRight e =? NULL then store_slot m head s q else rest).
Proof.
  intros Hl Hq Hs Hd Ht Hrest.
  assert (Hd' : NoDup (slot_addrs s ++ addrs la ++ addrs ((b, x) :: lb))).
  { eapply list.sublist_NoDup; [exact Hd|]. csimpl. apply sublist_app; [done|]. by constructor. }
  destruct (Z.eqb_spec (pRight e) NULL) as [En|En].
  - apply (list_at_null _ _ _ Hl) in En as ->.
    destruct (store_slot_spec m head s q Ht) as (m1 & head1 & -> & S1 & F1).
    apply list.NoDup_app in Hd' as (_ & Hd1 & Hd2).
    exists m1, head1, q, ((b, x) :: lb). split_and!; [done..| | |].
    + eapply list_at_frame; [done| |exact Hq]. set_solver +Hd1.
    + apply merged_drop. right. by split_and!.
    + eapply frame_weaken; [done|]. clear; set_solver.
  - destruct Hrest as (m2 & head2 & q' & l & -> & S2 & Hq2 & Hm & F2); [by intros ->|done|].
    exists m2, head2, q', l. split_and!; [done..| |].
    + by apply merged_drop; left.
    + eapply frame_weaken; [done|]. clear; set_solver.
Qed.

Lemma merge_loop_spec fuel m head s pA pB la lb :
  list_at m pA la -> list_at m pB lb -> la <> [] -> lb <> [] -> ssorted la -> ssorted lb ->
  NoDup (slot_addrs s ++ addrs la ++ addrs lb) ->
  (forall t, t ∈ slot_addrs s -> is_Some (m !! t)) -> (length la + length lb <= fuel)%nat ->
  merge_result m head s la lb (merge_loop fuel m head s pA pB).
Proof.
  revert m head s pA pB la lb. induction fuel as [|fuel IH].
  { intros m head s pA pB [|? la]; simpl; [done|lia]. }
  intros m head s pA pB la lb HA HB Na Nb Sa Sb Hd Hs Hf.
  destruct la as [|[a x] la]; [done|]. destruct lb as [|[b y] lb]; [done|].
  pose proof HA as (-> & _ & ea & Ea & Hx & HA'). pose proof HB as (-> & _ & eb & Eb & Hy & HB').
  cbn [merge_loop]. rewrite Ea, Eb.
  rewrite (assert_order_ok _ _ _ _ _ _ HA Sa Ea), (assert_order_ok _ _ _ _ _ _ HB Sb Eb), Hx, Hy.
  pose proof Sa as [Sa' Ma]%ssorted_cons_inv. pose proof Sb as [Sb' Mb]%ssorted_cons_inv.
  destruct (Z.leb_spec x y) as [Hle|Hgt]; [destruct (Z.ltb_spec x y) as [Hlt|Hge]|].
  - destruct (merge_take m head s a x b la ((b, y) :: lb) (fun m h p => merge_loop fuel m h (Some a) p b))
      as (m1 & head1 & e1 & -> & -> & HR); [done..| |done|done| |exact HR].
    + csimpl. intros z [->|Hz]%elem_of_cons; [done|]. specialize (Mb z Hz). lia.
    + intros. apply IH; [done..|set_solver|simpl in *; lia].
  - assert (x = y) as -> by lia. rewrite Ea.
    apply merge_skip; [done..|]. intros. apply IH; [done..|simpl in *; lia].
  - destruct (merge_take m head s b y a lb ((a, x) :: la) (fun m h p => merge_loop fuel m h (Some b) a p))
      as (m1 & head1 & e1 & -> & -> & HR); [done..| | |done| |by apply merge_result_sym].
    + csimpl. intros z [->|Hz]%elem_of_cons; [lia|]. specialize (Ma z Hz). lia.
    + eapply NoDup_Permutation_proper; [|exact Hd]. csimpl. solve_Permutation.
    + intros m1 h1 p1 H1 H2 H3 H4 H5. apply merge_result_sym.
      apply IH; [done..| |set_solver|simpl in *; lia].
      eapply NoDup_Permutation_proper; [|exact H4]. csimpl. solve_Permutation.
Qed.

(** Merging two sorted lists. *)
Lemma merge_spec m pA pB la lb :
  list_at m pA la -> list_at m pB lb -> la <> [] -> lb <> [] -> ssorted la -> ssorted lb ->
  NoDup (addrs la ++ addrs lb) ->
  exists m' q l, rowSetEntryMerge m pA pB = Some (m', q) /\ list_at m' q l /\ merged la lb l /\
    frame (addrs la ++ addrs lb) m m'.
Proof.
  intros HA HB Na Nb Sa Sb Hd. unfold rowSetEntryMerge.
  destruct (merge_loop_spec (2 * size m) m NULL None pA pB la lb)
    as (m' & h & q & l & -> & Hq & Hl & Hm & F); [done..|set_solver| |].
  - apply list.NoDup_app in Hd as (H1 & _ & H2).
    pose proof (list_at_size _ _ _ HA H1). pose proof (list_at_size _ _ _ HB H2). lia.
  - simpl in Hq. subst h. exists m', q, l. by split_and!.
Qed.

(** ** Sorting *)

(** The buckets [bs] hold the sorted lists [bl], which share no entry. *)
Record buckets (m : entries) (bs : list Z) (bl : list (list (Z * Z))) : Prop := {
  bk_at : Forall2 (list_at m) bs bl;
  bk_sorted : Forall (fun l => ssorted l) bl;
  bk_nodup : NoDup (addrs (concat bl))
}.

(** A full bucket [i] stands for [2^i] entries of the input. *)
Fixpoint weight (bl : list (list (Z * Z))) : Z :=
  match bl with
  | [] => 0
  | l :: bl => (if decide (l = []) then 0 else 1) + 2 * weight bl
  end.

Lemma buckets_cons m b bs l bl :
  buckets m (b :: bs) (l :: bl) <->
  list_at m b l /\ ssorted l /\ buckets m bs bl /\ NoDup (addrs l) /\
  (forall a, a ∈ addrs l -> a ∉ addrs (concat bl)).
Proof.
  split.
  - intros [H1 H2 H3]. inversion H1; subst. apply list.Forall_cons in H2 as [? ?].
    simpl in H3. rewrite fmap_app in H3. apply list.NoDup_app in H3 as (? & ? & ?). by split_and!.
  - intros (? & ? & [H1 H2 H3] & ? & ?). constructor; [by constructor|by apply list.Forall_cons|].
    simpl. rewrite fmap_app. by apply list.NoDup_app.
Qed.

Lemma buckets_frame X m m' bs bl :
  frame X m m' -> (forall a, a ∈ addrs (concat bl) -> a ∉ X) -> buckets m bs bl -> buckets m' bs bl.
Proof.
  intros F. revert bs. induction bl as [|l bl IH]; intros bs HX.
  - intros [H1 H2 H3]. inversion H1; subst. by constructor.
  - destruct bs as [|b bs]; [intros [H1 _ _]; inversion H1|].
    simpl in HX. rewrite fmap_app in HX. rewrite !buckets_cons. intros (? & ? & ? & ? & ?).
    split_and!; [|done| |done|done].
    + eapply list_at_frame; [done| |done]. set_solver.
    + apply IH; [|done]. set_solver.
Qed.

(** The list [l] has been added to the buckets. *)
Record added (m : entries) (l : list (Z * Z)) (bl : list (list (Z * Z))) (m' : entries)
  (bs' : list Z) (bl' : list (list (Z * Z))) : Prop := {
  ad_buckets : buckets m' bs' bl';
  ad_addrs : addrs (concat bl') ⊆ addrs l ++ addrs (concat bl);
  ad_vals : forall x, x ∈ vals (concat bl') <-> x ∈ vals l \/ x ∈ vals (concat bl);
  ad_weight : weight bl' = weight bl + 1;
  ad_length : length bl' = length bl;
  ad_frame : frame (addrs l ++ addrs (concat bl)) m m'
}.

Lemma sort_carry_spec m bs bl p l :
  buckets m bs bl -> list_at m p l -> l <> [] -> ssorted l ->
  NoDup (addrs l ++ addrs (concat bl)) -> weight bl + 1 < 2 ^ len bl ->
  exists m' bs' bl', sort_carry m bs p = Some (m', bs') /\ added m l bl m' bs' bl'.
Proof.
  revert m bs p l. induction bl as [|l0 bl IH]; intros m bs p l Hb Hl Hn Hs Hd Hw; [simpl in Hw; lia|].
  cbn [length] in Hw.
  destruct bs as [|b bs]; [destruct Hb as [Hb _ _]; inversion Hb|].
  apply buckets_cons in Hb as (Hl0 & Hs0 & Hb & Hd0 & Hx0). simpl in Hd. rewrite fmap_app in Hd.
  cbn [sort_carry]. cbn [weight] in Hw. destruct (Z.eqb_spec b NULL) as [Eb|Eb].
  - apply (list_at_null _ _ _ Hl0) in Eb as ->. exists m, (p :: bs), (l :: bl). split; [done|].
    simpl in Hd. apply list.NoDup_app in Hd as (? & Hx & _). constructor; [|set_solver| | |done|apply frame_refl].
    + apply buckets_cons. by split_and!.
    + intros x. simpl. rewrite fmap_app, elem_of_app. tauto.
    + simpl. destruct (decide (l = [])); [done|]. destruct (decide _); [|done]. lia.
  - assert (l0 <> []) as Hn0 by (intros ->; done).
    destruct (decide (l0 = [])) as [|_]; [done|].
    destruct (merge_spec m b p l0 l) as (m1 & q & l1 & -> & Hq & [Hn1 Hs1 Hv1 Ha1 Hd1] & F1); [done..| |].
    { apply list.NoDup_app in Hd as (? & Hx & _). apply list.NoDup_app. split_and!; [done| |done]. set_solver. }
    assert (Hdis : forall a, a ∈ addrs (concat bl) -> a ∉ addrs l0 ++ addrs l).
    { intros a Ha. apply list.NoDup_app in Hd as (? & Hx & _). set_solver +Ha Hx Hx0. }
    destruct (IH m1 bs q l1) as (m' & bs' & bl' & -> & HA); [|done..| | |].
    + by eapply buckets_frame.
    + apply list.NoDup_app. split_and!; [done|set_solver +Hdis Ha1|apply Hb].
    + rewrite Nat2Z.inj_succ, Z.pow_succ_r in Hw by lia. lia.
    + destruct HA as [HB HA HV HW HL HF]. exists m', (NULL :: bs'), ([] :: bl'). split; [done|].
      constructor.
      * apply buckets_cons. split_and!; [done|constructor|done|constructor|set_solver].
      * simpl. rewrite !fmap_app. set_solver +HA Ha1.
      * intros x. simpl. rewrite HV, Hv1, !fmap_app, !elem_of_app. tauto.
      * simpl. rewrite HW. destruct (decide (l0 = [])); [done|lia].
      * simpl. by rewrite HL.
      * simpl. rewrite fmap_app. eapply frame_trans; (eapply frame_weaken; [done|]).
        -- clear; set_solver.
        -- set_solver +Ha1.
Qed.

Lemma sort_fill_spec fuel m bs bl p l :
  buckets m bs bl -> list_at m p l -> NoDup (addrs l ++ addrs (concat bl)) ->
  weight bl + len l < 2 ^ len bl -> (length l < fuel)%nat ->
  exists m' bs' bl', sort_fill fuel m bs p = Some (m', bs') /\ buckets m' bs' bl' /\
    addrs (concat bl') ⊆ addrs l ++ addrs (concat bl) /\
    (forall x, x ∈ vals (concat bl') <-> x ∈ vals l \/ x ∈ vals (concat bl)) /\
    length bl' = length bl /\ frame (addrs l ++ addrs (concat bl)) m m'.
Proof.
  revert m bs bl p l. induction fuel as [|fuel IH]; intros m bs bl p l Hb Hl Hd Hw Hf; [lia|].
  cbn [sort_fill]. destruct l as [|[a x] l].
  - simpl in Hl. subst p. simpl. exists m, bs, bl. split_and!; [done..|set_solver| |done|done].
    intros x. set_solver.
  - destruct Hl as (-> & Hn & e & E & <- & Hl). rewrite (proj2 (Z.eqb_neq _ _) Hn), E.
    csimpl in Hd. apply list.NoDup_cons in Hd as [Ha Hd].
    destruct (store_right_spec m a NULL e E) as (m1 & -> & F1 & E1).
    destruct (sort_carry_spec m1 bs bl a [(a, v e)]) as (m2 & bs2 & bl2 & -> & [HB HA HV HW HL HF]).
    + eapply buckets_frame; [done| |done]. set_solver +Ha.
    + simpl. split_and!; [done..|]. eexists. by split_and!.
    + done.
    + csimpl. repeat constructor.
    + csimpl. apply list.NoDup_cons. split; [set_solver +Ha|]. apply Hb.
    + simpl in Hw. lia.
    + destruct (IH m2 bs2 bl2 (pRight e) l) as (m3 & bs3 & bl3 & -> & HB3 & HA3 & HV3 & HL3 & HF3).
      * done.
      * eapply list_at_frame; [done| |eapply list_at_frame; [done| |done]]; [|set_solver +Ha].
        intros b Hb'. csimpl. apply list.NoDup_app in Hd as (_ & Hx & _). set_solver +Ha Hx Hb'.
      * apply list.NoDup_app in Hd as (? & Hx & _). apply list.NoDup_app.
        split_and!; [done| |apply HB]. csimpl in HA. set_solver +Ha Hx HA.
      * rewrite HW, HL. simpl in Hw. lia.
      * simpl in Hf. lia.
      * exists m3, bs3, bl3. csimpl in *. split_and!; [done..| | |congruence|].
        -- set_solver +HA3 HA.
        -- intros y. rewrite HV3, HV. clear; set_solver.
        -- eapply frame_trans; [|eapply frame_trans]; (eapply frame_weaken; [done|]).
           ++ clear; set_solver.
           ++ clear; set_solver.
           ++ set_solver +HA.
Qed.
(** [l'] is the sorted list of the values of [l], without duplicates, made of its entries. *)
Record sorted_of (l l' : list (Z * Z)) : Prop := {
  so_sorted : ssorted l';
  so_vals : forall x, x ∈ vals l' <-> x ∈ vals l;
  so_addrs : addrs l' ⊆ addrs l;
  so_nodup : NoDup (addrs l')
}.

Lemma sort_collect_spec m bs bl p l :
  buckets m bs bl -> list_at m p l -> ssorted l -> NoDup (addrs l ++ addrs (concat bl)) ->
  exists m' q l', sort_collect m bs p = Some (m', q) /\ list_at m' q l' /\
    sorted_of (l ++ concat bl) l' /\ frame (addrs l ++ addrs (concat bl)) m m'.
Proof.
  revert m bs p l. induction bl as [|l0 bl IH]; intros m bs p l Hb Hl Hs Hd.
  - destruct Hb as [Hb _ _]. inversion Hb; subst. simpl in *. rewrite !app_nil_r in *.
    exists m, p, l. split_and!; [done..| |done]. by constructor.
  - destruct bs as [|b bs]; [destruct Hb as [Hb _ _]; inversion Hb|].
    apply buckets_cons in Hb as (Hl0 & Hs0 & Hb & Hd0 & Hx0). cbn [sort_collect concat].
    destruct (Z.eqb_spec b NULL) as [Eb|Eb].
    { apply (list_at_null _ _ _ Hl0) in Eb as ->. by apply IH. }
    cbn [concat] in Hd. rewrite fmap_app in *. pose proof Hd as (Hd1 & Hx & _)%list.NoDup_app.
    destruct (Z.eqb_spec p NULL) as [Ep|Ep]; simpl.
    { apply (list_at_null _ _ _ Hl) in Ep as ->. apply IH; [done..|]. exact Hd. }
    destruct (merge_spec m p b l l0) as (m1 & q & l1 & -> & Hq & [Hn1 Hs1 Hv1 Ha1 Hd2] & F1); [done..| | |done|done| |].
    { intros ->. done. }
    { intros ->. done. }
    { apply list.NoDup_app. split_and!; [done|set_solver +Hx|done]. }
    destruct (IH m1 bs q l1) as (m' & q' & l' & -> & Hq' & [H1 H2 H3 H4] & F); [|done..| |].
    + eapply buckets_frame; [done| |done]. set_solver +Hx Hx0.
    + apply list.NoDup_app. split_and!; [done|set_solver +Hx Hx0 Ha1|apply Hb].
    + exists m', q', l'. rewrite !fmap_app in *. split_and!; [done..| |].
      * constructor; [done| | |done]; rewrite ?fmap_app.
        -- intros x. rewrite H2, !elem_of_app, Hv1. tauto.
        -- set_solver +H3 Ha1.
      * eapply frame_trans; (eapply frame_weaken; [done|]); [clear; set_solver|set_solver +Ha1].
Qed.

Lemma empty_buckets m n :
  let bl := replicate n ([] : list (Z * Z)) in
  buckets m (replicate n NULL) bl /\ weight bl = 0 /\ concat bl = [].
Proof.
  induction n as [|n (IH1 & IH2 & IH3)]; csimpl.
  - split_and!; [|done..]. constructor; constructor.
  - rewrite IH2. split_and!; [|done|done]. apply buckets_cons. split_and!; [done|constructor|done|constructor|].
    set_solver.
Qed.

Lemma vals_nonempty (l l' : list (Z * Z)) :
  (forall x, x ∈ vals l' <-> x ∈ vals l) -> l <> [] -> l' <> [].
Proof.
  intros H Hn ->. destruct l as [|[a x] l]; [done|]. specialize (H x). csimpl in H. set_solver.
Qed.

Lemma sort_spec m p l :
  list_at m p l -> NoDup (addrs l) -> len l < 2 ^ 40 ->
  exists m' q l', rowSetEntrySort m p = Some (m', q) /\ list_at m' q l' /\ sorted_of l l' /\
    frame (addrs l) m m'.
Proof.
  intros Hl Hd Hlen. unfold rowSetEntrySort. destruct (empty_buckets m 40) as (Hb & Hw & Hc).
  assert (Hd' : addrs l ++ addrs (concat (replicate 40 ([] : list (Z * Z)))) = addrs l)
    by (rewrite Hc; apply app_nil_r).
  destruct (sort_fill_spec (S (size m)) m (replicate 40 NULL) (replicate 40 []) p l)
    as (m1 & bs & bl & -> & HB & HA & HV & HL & HF); [done..| | | |].
  - by rewrite Hd'.
  - rewrite Hw, length_replicate. lia.
  - pose proof (list_at_size _ _ _ Hl Hd). lia.
  - rewrite Hd' in HA, HF. destruct bl as [|l0 bl]; [done|].
    destruct bs as [|b bs]; [destruct HB as [Hx _ _]; inversion Hx|].
    apply buckets_cons in HB as (Hl0 & Hs0 & HB & Hd0 & Hx0).
    cbn [concat] in HA, HV. rewrite fmap_app in HA.
    destruct (sort_collect_spec m1 bs bl b l0) as (m2 & q & l' & -> & Hq & [H1 H2 H3 H4] & F2); [done..| |].
    { apply list.NoDup_app. split_and!; [done|done|apply HB]. }
    exists m2, q, l'. split_and!; [done..| |].
    + constructor; [done| | |done].
      * intros x. rewrite H2, HV, Hc. set_solver.
      * rewrite fmap_app in H3. set_solver +H3 HA.
    + eapply frame_trans; [done|]. eapply frame_weaken; [done|]. set_solver +HA.
Qed.

(** ** Trees in memory *)

Inductive tree := Leaf | Node (a x : Z) (l r : tree).

Fixpoint tree_at (m : entries) (p : Z) (t : tree) : Prop :=
  match t with
  | Leaf => p = NULL
  | Node a x l r =>
      p = a /\ a <> NULL /\ exists e, m !! a = Some e /\ v e = x /\
        tree_at m (pLeft e) l /\ tree_at m (pRight e) r
  end.

Fixpoint inorder (t : tree) : list (Z * Z) :=
  match t with
  | Leaf => []
  | Node a x l r => inorder l ++ (a, x) :: inorder r
  end.

Lemma tree_at_frame X m m' p t :
  frame X m m' -> (forall a, a ∈ addrs (inorder t) -> a ∉ X) -> tree_at m p t -> tree_at m' p t.
Proof.
  intros F. revert p. induction t as [|a x l IHl r IHr]; intros p HX; [done|]. cbn [inorder] in HX.
  rewrite fmap_app in HX. csimpl in HX. simpl. intros (-> & Hn & e & E & Hv & Hl & Hr).
  split_and!; [done..|]. exists e.
  rewrite (frame_lookup _ _ _ _ F) by (apply HX; set_solver).
  split_and!; [done..| |]; [apply IHl|apply IHr]; try done; intros b Hb; apply HX; set_solver.
Qed.

Lemma tree_at_null m p t : tree_at m p t -> p = NULL <-> t = Leaf.
Proof. destruct t; simpl; [naive_solver|]. intros (-> & Hn & _). naive_solver. Qed.

Lemma tree_at_in m p t a : tree_at m p t -> a ∈ addrs (inorder t) -> a <> NULL /\ is_Some (m !! a).
Proof.
  revert p. induction t as [|b x l IHl r IHr]; intros p; [set_solver|]. cbn [inorder].
  rewrite fmap_app. csimpl. intros (-> & Hn & e & E & _ & Hl & Hr) [Ha|[->|Ha]%elem_of_cons]%elem_of_app; eauto.
Qed.

Lemma list_at_last m p l z :
  list_at m p l -> list.last (addrs l) = Some z ->
  exists e, m !! z = Some e /\ pRight e = NULL /\ list.last (vals l) = Some (v e).
Proof.
  revert p. induction l as [|[a x] l IH]; intros p; [done|]. intros (-> & _ & e & E & <- & Hl).
  destruct l as [|[b y] l].
  - simpl. intros [= <-]. eauto.
  - intros Hz. by apply IH with (p := pRight e).
Qed.

(** What [rowSetTreeToList] does. *)
Definition listed m (t : tree) first s (r : option (entries * Z * Z)) : Prop :=
  exists m' first' z q, r = Some (m', first', z) /\ slot_set m first s q m' first' /\
    list_at m' q (inorder t) /\ list.last (addrs (inorder t)) = Some z /\
    frame (slot_addrs s ++ addrs (inorder t)) m m'.

(** The part before the right subtree: the left one has become a list that ends in [a],
    whatever is appended to [a] later. *)
Lemma listed_left fuel m a l e first s :
  (l <> Leaf -> listed m l first s (rowSetTreeToList fuel m (pLeft e) first s)) ->
  tree_at m (pLeft e) l -> NoDup (slot_addrs s ++ addrs (inorder l)) -> a ∉ addrs (inorder l) ->
  (forall t, t ∈ slot_addrs s -> is_Some (m !! t)) ->
  exists m1 first1 q,
    (if pLeft e <>? NULL then
       let? (m, first, p) := rowSetTreeToList fuel m (pLeft e) first s in
       let? m := store_right m p a in Some (m, first)
     else store_slot m first s a) = Some (m1, first1) /\
    slot_set m first s q m1 first1 /\ frame (slot_addrs s ++ addrs (inorder l)) m m1 /\
    forall X m' rest, frame X m1 m' -> (forall b, b ∈ addrs (inorder l) -> b ∉ X) ->
      list_at m' a rest -> list_at m' q (inorder l ++ rest).
Proof.
  intros IH Hl Hd Ha Hs. destruct (Z.eqb_spec (pLeft e) NULL) as [En|En]; simpl.
  - apply (tree_at_null _ _ _ Hl) in En as ->.
    destruct (store_slot_spec m first s a Hs) as (m1 & first1 & -> & S1 & F1).
    exists m1, first1, a. split_and!; [done..| |done]. by rewrite app_nil_r.
  - destruct IH as (m0 & first1 & z & q & -> & S0 & Hq & Hz & F0).
    { intros ->. done. }
    destruct (list_at_last _ _ _ _ Hq Hz) as (e0 & E0 & _ & _).
    destruct (store_right_spec m0 z a e0 E0) as (m1 & -> & F1 & E1).
    apply list.NoDup_app in Hd as (_ & Hd1 & Hd2).
    assert (Hzl : z ∈ addrs (inorder l)) by (by apply last_Some_elem_of).
    exists m1, first1, q. split_and!; [done| | |].
    + eapply slot_set_frame; [done..|]. set_solver +Hd1 Hzl.
    + eapply frame_trans; [done|]. eapply frame_weaken; [done|]. set_solver +Hzl.
    + intros X m' rest F HX Hr. eapply (list_at_join (z :: X) m0 m' q (inorder l) z a rest (Entry (v e0) a (pLeft e0))); [done| |done| |done| |done| |done].
      * eapply frame_trans; (eapply frame_weaken; [done|]); clear; set_solver.
      * set_solver +HX.
      * rewrite (frame_lookup _ _ _ _ F) by auto. exact E1.
      * intros e1 E1'. simplify_eq. done.
Qed.

(** The right subtree and the last entry. *)
Lemma listed_right fuel m a r e :
  (r <> Leaf -> listed m r NULL (Some a) (rowSetTreeToList fuel m (pRight e) NULL (Some a))) ->
  a <> NULL -> m !! a = Some e -> tree_at m (pRight e) r ->
  exists m2 z,
    (if pRight e <>? NULL then
       let? (m, _, last) := rowSetTreeToList fuel m (pRight e) NULL (Some a) in Some (m, last)
     else Some (m, a)) = Some (m2, z) /\
    list_at m2 a ((a, v e) :: inorder r) /\ list.last (a :: addrs (inorder r)) = Some z /\
    frame (a :: addrs (inorder r)) m m2.
Proof.
  intros IH Hn E Hr. destruct (Z.eqb_spec (pRight e) NULL) as [En|En]; simpl.
  - pose proof En as ->%(tree_at_null _ _ _ Hr). exists m, a. split_and!; [done..| |done|done].
    eexists. by split_and!.
  - destruct IH as (m2 & h & z & q & -> & (_ & e0 & E0 & E2) & Hq & Hz & F).
    { intros ->. done. }
    simplify_eq. exists m2, z. split_and!; [done..| | |done].
    + eexists. by split_and!.
    + destruct (addrs (inorder r)); [done|]. by rewrite last_cons_cons.
Qed.

Lemma inorder_nonempty t : t <> Leaf -> inorder t <> [].
Proof. destruct t; simpl; [done|]. intros _ [_ [=]]%app_eq_nil. Qed.

Lemma tree_to_list_spec t fuel m p first s :
  tree_at m p t -> t <> Leaf -> NoDup (slot_addrs s ++ addrs (inorder t)) ->
  (forall t, t ∈ slot_addrs s -> is_Some (m !! t)) -> (length (inorder t) <= fuel)%nat ->
  listed m t first s (rowSetTreeToList fuel m p first s).
Proof.
  revert fuel m p first s. induction t as [|a x l IHl r IHr]; intros fuel m p first s Ht Hnt Hd Hs Hf; [done|].
  destruct Ht as (-> & Hn & e & E & <- & Hl & Hr). cbn [inorder] in *.
  rewrite fmap_app in *. csimpl in *. rewrite length_app in Hf. simpl in Hf.
  destruct fuel as [|fuel]; [lia|]. cbn [rowSetTreeToList].
  rewrite (proj2 (Z.eqb_neq _ _) Hn), E.
  pose proof Hd as (_ & Hd1 & Hd2)%list.NoDup_app.
  pose proof Hd2 as (Hdl & Hlr & (Ha & Hdr)%list.NoDup_cons)%list.NoDup_app.
  assert (Hdsl : NoDup (slot_addrs s ++ addrs (inorder l))).
  { apply list.NoDup_app. apply list.NoDup_app in Hd. split_and!; [apply Hd|set_solver +Hd1|done]. }
  destruct (listed_left fuel m a l e first s) as (m1 & first1 & q & -> & S1 & F1 & HL); [|done|done|set_solver +Hlr|done|].
  { intros. apply IHl; [done..|lia]. }
  assert (E1 : m1 !! a = Some e) by (rewrite (frame_lookup _ _ _ _ F1); [done|set_solver +Hlr Hd1]).
  rewrite E1. destruct (listed_right fuel m1 a r e) as (m2 & z & -> & Hz & Hlast & F2); [|done|done| |].
  { intros. apply IHr; [|done| |set_solver|lia].
    - eapply tree_at_frame; [done| |done]. set_solver +Hlr Hd1.
    - simpl. by apply list.NoDup_cons. }
  { eapply tree_at_frame; [done| |done]. set_solver +Hlr Hd1. }
  destruct (list_at_last m2 a _ z Hz Hlast) as (e2 & -> & -> & _). simpl.
  exists m2, first1, z, q. split_and!; [done| | | |].
  - eapply slot_set_frame; [done..|]. set_solver +Hd1.
  - cbn [inorder]. eapply HL; [done| |done]. set_solver +Hlr.
  - cbn [inorder]. rewrite fmap_app. csimpl. by rewrite last_app, Hlast.
  - cbn [inorder]. rewrite fmap_app. csimpl. eapply frame_trans; (eapply frame_weaken; [done|]); clear; set_solver.
Qed.
(** ** Building trees *)

Fixpoint height (t : tree) : Z :=
  match t with Leaf => 0 | Node _ _ l r => 1 + Z.max (height l) (height r) end.

(** A node whose entry is linked to two trees. *)
Lemma tree_at_node X m m' a e l r :
  a <> NULL -> m' !! a = Some e -> frame X m m' ->
  tree_at m (pLeft e) l -> (forall b, b ∈ addrs (inorder l) -> b ∉ X) ->
  tree_at m (pRight e) r -> (forall b, b ∈ addrs (inorder r) -> b ∉ X) ->
  tree_at m' a (Node a (v e) l r).
Proof.
  intros Hn E F Hl Dl Hr Dr. simpl. split_and!; [done..|]. exists e.
  split_and!; [done..| |]; by eapply tree_at_frame.
Qed.

Lemma addrs_app l1 l2 : addrs (l1 ++ l2) = addrs l1 ++ addrs l2.
Proof. apply fmap_app. Qed.

(** The node [a] with the trees built before and after it; [a] was the head of the list that
    the second one begins to consume. *)
Lemma link_node m1 m2 m3 m4 a e ql qr tl tr :
  a <> NULL -> m1 !! a = Some e ->
  store_left m1 a ql = Some m2 -> frame (addrs (inorder tr)) m2 m3 ->
  store_right m3 a qr = Some m4 ->
  tree_at m1 ql tl -> tree_at m3 qr tr ->
  NoDup (addrs (inorder (Node a (v e) tl tr))) ->
  tree_at m4 a (Node a (v e) tl tr) /\ frame (a :: addrs (inorder tr)) m1 m4.
Proof.
  intros Hn E S2 F3 S4 Hl Hr Hd. cbn [inorder] in Hd. rewrite addrs_app in Hd. csimpl in Hd.
  apply list.NoDup_app in Hd as (_ & Hlr & (Ha & _)%list.NoDup_cons).
  destruct (store_left_spec m1 a ql e E) as (m2' & S2' & F2 & E2). simplify_eq.
  assert (E3 : m3 !! a = Some (Entry (v e) (pRight e) ql)) by (by rewrite (frame_lookup _ _ _ _ F3)).
  destruct (store_right_spec m3 a qr _ E3) as (m4' & S4' & F4 & E4). simplify_eq. csimpl in *.
  split.
  - change (v e) with (v (Entry (v e) qr ql)).
    apply (tree_at_node [a] m3); [done..| | |done|]; [|set_solver +Hlr|set_solver +Ha].
    apply (tree_at_frame (a :: addrs (inorder tr)) m1); [|set_solver +Hlr|done].
    eapply frame_trans; (eapply frame_weaken; [done|]); clear; set_solver.
  - eapply frame_trans; [eapply frame_trans|]; (eapply frame_weaken; [done|]); clear; set_solver.
Qed.

(** What [rowSetNDeepTree] does to the list [l]. *)
Definition deep m (l : list (Z * Z)) d (r : option (entries * Z * Z)) : Prop :=
  exists m' p' q t l2, r = Some (m', p', q) /\ l = inorder t ++ l2 /\ tree_at m' q t /\
    list_at m' p' l2 /\ frame (addrs (inorder t)) m m' /\ height t <= d /\
    (l2 = [] \/ len (inorder t) = 2 ^ d - 1).

Lemma ndeep_spec fuel m p l d :
  list_at m p l -> NoDup (addrs l) -> 1 <= d -> (Z.to_nat d < fuel)%nat ->
  deep m l d (rowSetNDeepTree fuel m p d).
Proof.
  revert m p l d. induction fuel as [|fuel IH]; intros m p l d Hl Hd Hd1 Hf; [lia|].
  cbn [rowSetNDeepTree]. destruct (Z.eqb_spec p NULL) as [Ep|Ep].
  { pose proof Ep as ->%(list_at_null _ _ _ Hl). exists m, p, NULL, Leaf, []. subst p.
    split_and!; [done..|apply frame_refl|simpl; lia|by left]. }
  destruct (Z.ltb_spec 1 d) as [Hlt|Hge].
  - destruct (IH m p l (d - 1)) as (m1 & p1 & ql & tl & lb & -> & -> & Htl & Hlb & F1 & Hh1 & Hc1);
      [done|done|lia|lia|].
    assert (Hpow : 2 ^ d = 2 * 2 ^ (d - 1)) by (rewrite <- Z.pow_succ_r by lia; f_equal; lia).
    destruct lb as [|[a x] lb].
    { simpl in Hlb. subst p1. simpl. exists m1, NULL, ql, tl, []. split_and!; [done..|lia|by left]. }
    destruct Hlb as (-> & Hn & e & E & <- & Hlb). rewrite (proj2 (Z.eqb_neq _ _) Hn).
    destruct (store_left_spec m1 a ql e E) as (m2 & S2 & F2 & E2). rewrite S2, E2. csimpl.
    rewrite addrs_app in Hd. csimpl in Hd.
    pose proof Hd as (_ & Hx & (Ha & Hdb)%list.NoDup_cons)%list.NoDup_app.
    destruct (IH m2 (pRight e) lb (d - 1)) as (m3 & p3 & qr & tr & lc & -> & -> & Htr & Hlc & F3 & Hh3 & Hc3);
      [|done|lia|lia|].
    { eapply list_at_frame; [done| |done]. set_solver +Ha. }
    assert (E3 : m3 !! a = Some (Entry (v e) (pRight e) ql)).
    { rewrite (frame_lookup _ _ _ _ F3); [done|]. rewrite addrs_app in Ha. set_solver +Ha. }
    destruct (store_right_spec m3 a qr _ E3) as (m4 & S4 & F4 & E4). rewrite S4.
    rewrite addrs_app in *. apply list.NoDup_app in Hdb as (_ & Hdb & _).
    assert (Hdt : NoDup (addrs (inorder (Node a (v e) tl tr)))).
    { cbn [inorder]. rewrite addrs_app. csimpl. eapply list.sublist_NoDup; [exact Hd|].
      apply sublist_app; [done|]. constructor. by apply sublist_inserts_r. }
    destruct (link_node m1 m2 m3 m4 a e ql qr tl tr) as [HT F]; [done..|].
    exists m4, p3, a, (Node a (v e) tl tr), lc. split_and!; [done| |done| | | |].
    + cbn [inorder]. by rewrite <- app_assoc.
    + eapply list_at_frame; [exact F4| |done]. set_solver +Ha.
    + cbn [inorder]. rewrite addrs_app. csimpl. eapply frame_trans; (eapply frame_weaken; [done|]); clear; set_solver.
    + cbn [height]. lia.
    + cbn [inorder]. rewrite length_app. simpl. destruct Hc1 as [?|Hc1]; [done|]. destruct Hc3 as [?|Hc3]; [by left|right]. lia.
  - destruct l as [|[a x] l]; [by simpl in Hl|]. destruct Hl as (-> & Hn & e & E & <- & Hl). rewrite E.
    csimpl in Hd. apply list.NoDup_cons in Hd as [Ha Hd].
    eexists _, _, a, (Node a (v e) Leaf Leaf), l. split_and!; [done|done| | |by eapply frame_insert| |].
    + simpl. split_and!; [done..|]. eexists. rewrite lookup_insert_eq. by split_and!.
    + eapply list_at_frame; [by eapply frame_insert| |done]. set_solver +Ha.
    + simpl. lia.
    + right. simpl. assert (d = 1) as -> by lia. done.
Qed.

(** What [rowSetListToTree] does: a balanced tree with the entries of the list in order. *)
Definition treed m (l : list (Z * Z)) (r : option (entries * Z)) : Prop :=
  exists m' q t, r = Some (m', q) /\ tree_at m' q t /\ inorder t = l /\ frame (addrs l) m m' /\
    height t <= Z.log2 (len l) + 1.

Lemma tree_loop_spec fuel m p q l t d :
  tree_at m p t -> list_at m q l -> NoDup (addrs (inorder t ++ l)) -> 1 <= d ->
  height t <= d -> 2 ^ (d - 1) <= len (inorder t) -> (l <> [] -> len (inorder t) = 2 ^ d - 1) ->
  (length l < fuel)%nat -> treed m (inorder t ++ l) (tree_loop fuel m p q d).
Proof.
  revert m p q l t d. induction fuel as [|fuel IH]; intros m p q l t d Ht Hl Hd Hd1 Hh Hlo Hfull Hf; [lia|].
  cbn [tree_loop]. destruct l as [|[a x] l].
  { simpl in Hl. subst q. simpl. exists m, p, t. rewrite app_nil_r. split_and!; [done..|].
    apply Z.log2_le_pow2 in Hlo; [lia|]. pose proof (Z.pow_pos_nonneg 2 (d - 1)). lia. }
  destruct Hl as (-> & Hn & e & E & <- & Hl). rewrite (proj2 (Z.eqb_neq _ _) Hn), E.
  destruct (store_left_spec m a p e E) as (m1 & S1 & F1 & E1). rewrite S1.
  rewrite addrs_app in Hd. csimpl in Hd. pose proof Hd as (_ & Hx & (Ha & Hdl)%list.NoDup_cons)%list.NoDup_app.
  destruct (ndeep_spec (S (Z.to_nat d)) m1 (pRight e) l d) as (m2 & p2 & qr & tr & lc & -> & -> & Htr & Hlc & F2 & Hh2 & Hc2);
    [|done|lia|lia|].
  { eapply list_at_frame; [done| |done]. set_solver +Ha. }
  rewrite addrs_app in *. specialize (Hfull ltac:(done)).
  assert (E2 : m2 !! a = Some (Entry (v e) (pRight e) p)).
  { rewrite (frame_lookup _ _ _ _ F2); [done|]. set_solver +Ha. }
  destruct (store_right_spec m2 a qr _ E2) as (m3 & S3 & F3 & E3). rewrite S3.
  assert (Hdt : NoDup (addrs (inorder (Node a (v e) t tr)))).
  { cbn [inorder]. rewrite addrs_app. csimpl. eapply list.sublist_NoDup; [exact Hd|].
    apply sublist_app; [done|]. constructor. by apply sublist_inserts_r. }
  destruct (link_node m m1 m2 m3 a e p qr t tr) as [HT F]; [done..|].
  assert (Hl2 : len (inorder (Node a (v e) t tr)) = 2 ^ d + len (inorder tr)).
  { cbn [inorder]. rewrite length_app. simpl. lia. }
  assert (Hin : inorder t ++ (a, v e) :: inorder tr ++ lc = inorder (Node a (v e) t tr) ++ lc).
  { cbn [inorder]. by rewrite <- app_assoc. }
  apply list.NoDup_app in Hdl as (_ & Hdl & _).
  destruct (IH m3 a p2 lc (Node a (v e) t tr) (d + 1)) as (m' & q' & t' & HE & HT' & Hi & HF & Hhh).
  - done.
  - eapply list_at_frame; [exact F3| |done]. set_solver +Ha.
  - rewrite <- Hin, addrs_app. csimpl. by rewrite addrs_app.
  - lia.
  - cbn [height]. lia.
  - rewrite Hl2, Z.add_simpl_r. lia.
  - intros Hlc'. destruct Hc2 as [?|Hc2]; [done|]. rewrite Hl2, Hc2, Z.pow_add_r by lia. lia.
  - simpl in Hf. rewrite length_app in Hf. lia.
  - exists m', q', t'. rewrite Hin. split_and!; [done..| |done].
    eapply frame_trans; [|exact HF]. eapply frame_weaken; [done|]. cbn [inorder]. rewrite !addrs_app. csimpl. clear; set_solver.
Qed.

Lemma list_to_tree_spec m p l :
  list_at m p l -> l <> [] -> NoDup (addrs l) -> treed m l (rowSetListToTree m p).
Proof.
  intros Hl Hn Hd. pose proof (list_at_size _ _ _ Hl Hd) as Hsz.
  destruct l as [|[a x] l]; [done|]. destruct Hl as (-> & Ha & e & E & <- & Hl).
  unfold rowSetListToTree. rewrite (proj2 (Z.eqb_neq _ _) Ha), E.
  csimpl in Hd. apply list.NoDup_cons in Hd as [Hx Hd].
  pose proof (frame_insert m a e (Entry (v e) NULL NULL) E) as F.
  destruct (tree_loop_spec (S (size (<[a := Entry (v e) NULL NULL]> m))) (<[a := Entry (v e) NULL NULL]> m)
    a (pRight e) l (Node a (v e) Leaf Leaf) 1) as (m' & q & t & HE & Ht & Hi & HF & Hh).
  - simpl. split_and!; [done..|]. eexists. rewrite lookup_insert_eq. by split_and!.
  - eapply list_at_frame; [done| |done]. set_solver +Hx.
  - csimpl. by apply list.NoDup_cons.
  - lia.
  - done.
  - done.
  - done.
  - rewrite (frame_size _ _ _ F). simpl in Hsz. lia.
  - exists m', q, t. csimpl in *. split_and!; [done..| |done]. eapply frame_trans; [|done].
    eapply frame_weaken; [done|]. set_solver.
Qed.
(** ** The forest *)

Fixpoint forest_at (m : entries) (p : Z) (fl : list (Z * tree)) : Prop :=
  match fl with
  | [] => p = NULL
  | (a, t) :: fl =>
      p = a /\ a <> NULL /\ exists e, m !! a = Some e /\ tree_at m (pLeft e) t /\
        forest_at m (pRight e) fl
  end.

Fixpoint forest_addrs (fl : list (Z * tree)) : list Z :=
  match fl with [] => [] | (a, t) :: fl => a :: addrs (inorder t) ++ forest_addrs fl end.
Fixpoint forest_vals (fl : list (Z * tree)) : list Z :=
  match fl with [] => [] | (_, t) :: fl => vals (inorder t) ++ forest_vals fl end.

(** The trees are search trees. *)
Abbreviation bst fl := (Forall (fun at' : Z * tree => ssorted (inorder at'.2)) fl).

Lemma forest_at_frame X m m' p fl :
  frame X m m' -> (forall a, a ∈ forest_addrs fl -> a ∉ X) -> forest_at m p fl -> forest_at m' p fl.
Proof.
  intros F. revert p. induction fl as [|[a t] fl IH]; intros p HX; simpl in *; [done|].
  intros (-> & Hn & e & E & Ht & Hl). split_and!; [done..|]. exists e.
  rewrite (frame_lookup _ _ _ _ F) by (apply HX; set_solver). split_and!; [done| |].
  - eapply tree_at_frame; [done| |done]. set_solver +HX.
  - apply IH; [|done]. set_solver +HX.
Qed.

Lemma forest_at_null m p fl : forest_at m p fl -> p = NULL <-> fl = [].
Proof. destruct fl as [|[a t] fl]; simpl; [naive_solver|]. intros (-> & Hn & _). naive_solver. Qed.

Lemma forest_at_in m p fl a : forest_at m p fl -> a ∈ forest_addrs fl -> a <> NULL /\ is_Some (m !! a).
Proof.
  revert p. induction fl as [|[b t] fl IH]; intros p; simpl; [set_solver|].
  intros (-> & Hn & e & E & Ht & Hl) [->|[Ha|Ha]%elem_of_app]%elem_of_cons; [eauto| |eauto].
  by eapply tree_at_in.
Qed.

(** Lists, trees and forests survive when memory is added. *)
Lemma list_at_ext (m m' : entries) p l : m ⊆ m' -> list_at m p l -> list_at m' p l.
Proof.
  intros Hm. revert p. induction l as [|[a x] l IH]; intros p; simpl; [done|].
  intros (-> & Hn & e & E & Hv & Hl). split_and!; [done..|]. exists e.
  split_and!; [by eapply lookup_weaken|done|auto].
Qed.

Lemma tree_at_ext (m m' : entries) p t : m ⊆ m' -> tree_at m p t -> tree_at m' p t.
Proof.
  intros Hm. revert p. induction t as [|a x l IHl r IHr]; intros p; simpl; [done|].
  intros (-> & Hn & e & E & Hv & Hl & Hr). split_and!; [done..|]. exists e.
  split_and!; [by eapply lookup_weaken|done|auto|auto].
Qed.

Lemma forest_at_ext (m m' : entries) p fl : m ⊆ m' -> forest_at m p fl -> forest_at m' p fl.
Proof.
  intros Hm. revert p. induction fl as [|[a t] fl IH]; intros p; simpl; [done|].
  intros (-> & Hn & e & E & Ht & Hl). split_and!; [done..|]. exists e.
  split_and!; [by eapply lookup_weaken|by eapply tree_at_ext|auto].
Qed.

(** ** The search *)

Lemma inorder_lookup t a x l r : t = Node a x l r -> ssorted (inorder t) ->
  ssorted (inorder l) /\ ssorted (inorder r) /\ (forall y, y ∈ vals (inorder l) -> y < x) /\
  (forall y, y ∈ vals (inorder r) -> x < y).
Proof.
  intros -> Hs. cbn [inorder] in Hs. rewrite fmap_app in Hs. csimpl in Hs.
  apply StronglySorted_app in Hs as (Hlr & Hl & Hr).
  apply StronglySorted_inv in Hr as [Hr Hx]. rewrite list.Forall_forall in Hx. split_and!; [done..| |done].
  intros y Hy. apply Hlr; [done|]. apply elem_of_cons. by left.
Qed.

Lemma search_tree_spec fuel m p t y :
  tree_at m p t -> ssorted (inorder t) -> (length (inorder t) < fuel)%nat ->
  search_tree fuel m p y = Some (bool_decide (y ∈ vals (inorder t))).
Proof.
  revert m p t. induction fuel as [|fuel IH]; intros m p t Ht Hs Hf; [lia|]. cbn [search_tree].
  destruct t as [|a x l r]; [simpl in Ht; subst p; done|].
  destruct (inorder_lookup _ a x l r eq_refl Hs) as (Sl & Sr & Hl & Hr).
  destruct Ht as (-> & Hn & e & E & Hv & Tl & Tr). rewrite (proj2 (Z.eqb_neq _ _) Hn), E, Hv.
  cbn [inorder] in *. rewrite fmap_app. csimpl. rewrite length_app in Hf. simpl in Hf.
  destruct (Z.ltb_spec x y); [|destruct (Z.ltb_spec y x)].
  - rewrite (IH m (pRight e) r) by (done || lia). f_equal. apply bool_decide_ext.
    rewrite elem_of_app, elem_of_cons. split; [by auto|]. intros [H1%Hl|[->|?]]; [lia|lia|done].
  - rewrite (IH m (pLeft e) l) by (done || lia). f_equal. apply bool_decide_ext.
    rewrite elem_of_app, elem_of_cons. split; [by auto|]. intros [?|[->|H1%Hr]]; [done|lia|lia].
  - rewrite bool_decide_true; [done|]. rewrite elem_of_app, elem_of_cons. right; left. lia.
Qed.

Lemma search_forest_spec fuel m p fl y :
  forest_at m p fl -> bst fl -> NoDup (forest_addrs fl) -> (length fl < fuel)%nat ->
  search_forest fuel m p y = Some (bool_decide (y ∈ forest_vals fl)).
Proof.
  revert m p fl. induction fuel as [|fuel IH]; intros m p fl Hl Hb Hd Hf; [lia|]. cbn [search_forest].
  destruct fl as [|[a t] fl]; [simpl in Hl; subst p; done|].
  destruct Hl as (-> & Hn & e & E & Ht & Hl). rewrite (proj2 (Z.eqb_neq _ _) Hn), E.
  apply list.Forall_cons in Hb as [Hs Hb]. simpl in Hd, Hf.
  apply list.NoDup_cons in Hd as [_ (Hdt & _ & Hd)%list.NoDup_app].
  rewrite (search_tree_spec _ m (pLeft e) t) by first
    [done|pose proof (addrs_size m _ Hdt (fun a Ha => proj2 (tree_at_in _ _ _ _ Ht Ha))) as Hsz;
      rewrite length_fmap in Hsz; lia].
  cbn [forest_vals]. case_bool_decide as Hy.
  - rewrite bool_decide_true; [done|]. set_solver +Hy.
  - rewrite (IH m (pRight e) fl) by (done || lia). f_equal. apply bool_decide_ext. set_solver +Hy.
Qed.
(** ** The pool of entries *)

Fixpoint chunk_at (c : chunks) (p : Z) (cl : list Z) : Prop :=
  match cl with
  | [] => p = NULL
  | q :: cl => p = q /\ q <> NULL /\ exists n, c !! q = Some n /\ chunk_at c n cl
  end.

Definition in_chunk (c a : Z) : Prop := c <= a < c + sizeof_RowSetChunk.

(** The unused entries. *)
Definition fresh (p : RowSet) : list Z := array_addrs (pFresh p) (nFresh p).

(** [home] are the entries in the block of the row set itself, [cl] the chunks. *)
Record pool (home : gset Z) (p : RowSet) (cl : list Z) : Prop := {
  po_fresh : forall a, a ∈ fresh p -> a <> NULL /\ is_Some (mem p !! a);
  po_number : 0 <= nFresh p < 2 ^ 16;
  po_chunks : chunk_at (chunk_mem p) (pChunk p) cl;
  po_nodup : NoDup cl;
  po_dom : forall c, is_Some (chunk_mem p !! c) <-> c ∈ cl;
  po_own : forall a, is_Some (mem p !! a) -> a ∈ home \/ exists c, c ∈ cl /\ in_chunk c a
}.

(** What the allocator promises of a new chunk: it overlaps nothing that is in use. *)
Record chunk_fresh (p : RowSet) (b : block) : Prop := {
  cf_pos : 0 < b_addr b;
  cf_mem : forall a, is_Some (mem p !! a) -> ~ in_chunk (b_addr b) a;
  cf_chunks : forall c, is_Some (chunk_mem p !! c) -> c <> b_addr b
}.

Lemma array_addrs_in base n a :
  a ∈ array_addrs base n <-> exists i, 0 <= i < n /\ a = base + sizeof_RowSetEntry * i.
Proof.
  unfold array_addrs. rewrite list_elem_of_fmap. split.
  - intros (i & -> & Hi%elem_of_seqZ). exists i. split; [lia|done].
  - intros (i & Hi & ->). exists i. split; [done|]. apply elem_of_seqZ. lia.
Qed.

Lemma array_addrs_nodup base n : NoDup (array_addrs base n).
Proof.
  unfold array_addrs. apply NoDup_fmap_2; [|apply NoDup_seqZ].
  intros i j. unfold sizeof_RowSetEntry. lia.
Qed.

Lemma array_addrs_cons base n :
  0 < n -> array_addrs base n = base :: array_addrs (base + sizeof_RowSetEntry) (n - 1).
Proof.
  intros Hn. unfold array_addrs. rewrite seqZ_cons by done. csimpl. f_equal; [lia|].
  replace (Z.succ 0) with (0 + 1) by lia. replace (Z.pred n) with (n - 1) by lia.
  rewrite <- (Z.add_0_r (0 + 1)). rewrite <- fmap_add_seqZ. rewrite <- list_fmap_compose.
  apply list_fmap_ext. intros i x _. simpl. lia.
Qed.

Lemma array_entries_dom base n junk a :
  is_Some (array_entries base n junk !! a) <-> a ∈ array_addrs base n.
Proof.
  unfold array_entries, array_addrs. rewrite <- elem_of_dom, dom_list_to_map_L, elem_of_list_to_set.
  by rewrite <- list_fmap_compose.
Qed.

Lemma chunk_at_insert c q n p cl : q ∉ cl -> chunk_at c p cl -> chunk_at (<[q := n]> c) p cl.
Proof.
  revert p. induction cl as [|a cl IH]; intros p Hq; simpl; [done|].
  intros (-> & Hn & k & E & Hl). split_and!; [done..|]. exists k.
  rewrite lookup_insert_ne by set_solver. split; [done|]. apply IH; [set_solver|done].
Qed.

(** The fields the allocation leaves alone. *)
Definition same_lists (p p' : RowSet) : Prop :=
  pEntry p' = pEntry p /\ pLast p' = pLast p /\ pForest p' = pForest p /\
  rsFlags p' = rsFlags p /\ iBatch p' = iBatch p.

(** A chunk is added when there is no unused entry. *)
Lemma pool_grow home p cl b :
  pool home p cl -> chunk_fresh p b -> nFresh p = 0 ->
  let p' := set_fresh (b_addr b + 8) ROWSET_ENTRY_PER_CHUNK
    (set_chunks (array_entries (b_addr b + 8) ROWSET_ENTRY_PER_CHUNK (b_junk b) ∪ mem p)
       (<[b_addr b := pChunk p]> (chunk_mem p)) (b_addr b) p) in
  pool home p' (b_addr b :: cl) /\ mem p ⊆ mem p' /\ (forall a, a ∈ fresh p' -> mem p !! a = None).
Proof.
  intros [H1 H2 H3 H4 H5 H6] [Hpos Hmem Hch] _ p'.
  assert (Harr : forall a, a ∈ fresh p' -> in_chunk (b_addr b) a).
  { intros a (i & Hi & ->)%array_addrs_in. change (nFresh p') with 42 in Hi.
    change (pFresh p') with (b_addr b + 8). unfold in_chunk, sizeof_RowSetEntry.
    change sizeof_RowSetChunk with 1016. lia. }
  assert (Hnone : forall a, a ∈ fresh p' -> mem p !! a = None).
  { intros a Ha. destruct (mem p !! a) eqn:E; [|done]. exfalso. apply (Hmem a); eauto. }
  assert (Hdisj : array_entries (b_addr b + 8) ROWSET_ENTRY_PER_CHUNK (b_junk b) ##ₘ mem p).
  { apply map_disjoint_spec. intros a e1 e2 E1 E2. rewrite Hnone in E2; [done|].
    apply (array_entries_dom _ _ (b_junk b)). eauto. }
  assert (Hbl : b_addr b ∉ cl) by (intros Hin%H5; by apply (Hch _ Hin)).
  split_and!; [constructor|by apply map_union_subseteq_r|done].
  - intros a Ha. split.
    + specialize (Harr a Ha). unfold in_chunk, NULL in *. lia.
    + simpl. apply lookup_union_is_Some. left. by apply array_entries_dom.
  - change (nFresh p') with 42. lia.
  - simpl. split_and!; [done|unfold NULL; lia|]. eexists. rewrite lookup_insert_eq. split; [reflexivity|].
    exact (chunk_at_insert _ _ _ _ _ Hbl H3).
  - apply list.NoDup_cons. exact (conj Hbl H4).
  - intros c. simpl. clear -H5. rewrite lookup_insert_is_Some, H5, elem_of_cons.
    destruct (decide (c = b_addr b)); naive_solver.
  - intros a. simpl. rewrite lookup_union_is_Some. intros [Ha%array_entries_dom|Ha].
    + right. exists (b_addr b). split; [apply elem_of_cons; by left|]. exact (Harr a Ha).
    + clear -H6 Ha. destruct (H6 a Ha) as [?|(c & ? & ?)]; [by left|]. right. exists c. set_solver.
Qed.

Lemma pool_take home p cl :
  pool home p cl -> nFresh p <> 0 ->
  let p' := set_fresh (pFresh p + sizeof_RowSetEntry) (u16 (nFresh p - 1)) p in
  pool home p' cl /\ fresh p = pFresh p :: fresh p'.
Proof.
  intros [H1 H2 H3 H4 H5 H6] Hn p'.
  assert (Hu : u16 (nFresh p - 1) = nFresh p - 1) by (unfold u16; apply Z.mod_small; lia).
  assert (Hf : fresh p = pFresh p :: fresh p').
  { unfold fresh, p'. simpl. rewrite Hu. apply array_addrs_cons. lia. }
  split; [|done]. constructor; [| |done..].
  - intros a Ha. apply H1. rewrite Hf. set_solver.
  - unfold p'. simpl. lia.
Qed.

Lemma alloc_spec home an p cl used :
  pool home p cl -> (forall b, an = Some b -> nFresh p = 0 -> chunk_fresh p b) ->
  NoDup (used ++ fresh p) -> (forall a, a ∈ used -> is_Some (mem p !! a)) ->
  (an = None /\ nFresh p = 0 /\ rowSetEntryAlloc an p = (NULL, p)) \/
  exists e p' cl', rowSetEntryAlloc an p = (e, p') /\ e <> NULL /\ is_Some (mem p' !! e) /\
    pool home p' cl' /\ NoDup (used ++ e :: fresh p') /\ same_lists p p' /\ mem p ⊆ mem p' /\
    rs_addr p' = rs_addr p /\
    (forall a, a ∈ e :: fresh p' -> a ∈ fresh p \/ mem p !! a = None).
Proof.
  intros HP Han Hd Hu. unfold rowSetEntryAlloc. destruct (Z.eqb_spec (nFresh p) 0) as [E0|E0].
  - destruct an as [b|]; [right|by left].
    destruct (pool_grow home p cl b HP (Han b eq_refl E0) E0) as (HP1 & Hm & Hf1).
    set (p1 := set_fresh _ _ (set_chunks _ _ _ p)) in *.
    destruct (pool_take home p1 (b_addr b :: cl) HP1) as [HP2 Hf2]; [done|].
    set (p2 := set_fresh (pFresh p1 + _) _ p1) in *.
    destruct (po_fresh _ _ _ HP1 (pFresh p1)) as [Hn Hs]; [rewrite Hf2; set_solver|].
    exists (pFresh p1), p2, (b_addr b :: cl). split_and!; try done.
    + rewrite <- Hf2. apply list.NoDup_app. apply list.NoDup_app in Hd as (Hd & _ & _).
      split_and!; [done| |apply array_addrs_nodup]. intros a Ha Hin%Hf1. apply Hu in Ha as [x Ha]. congruence.
    + rewrite <- Hf2. auto.
  - right. destruct (pool_take home p cl HP E0) as [HP2 Hf2].
    set (p2 := set_fresh _ _ p) in *.
    destruct (po_fresh _ _ _ HP (pFresh p)) as [Hn Hs]; [rewrite Hf2; set_solver|].
    exists (pFresh p), p2, cl. split_and!; try done; rewrite <- Hf2; auto.
Qed.

(** A pool depends only on which entries are allocated. *)
Lemma pool_same home p p' cl :
  pool home p cl -> dom (mem p') = dom (mem p) -> pFresh p' = pFresh p -> nFresh p' = nFresh p ->
  chunk_mem p' = chunk_mem p -> pChunk p' = pChunk p -> pool home p' cl.
Proof.
  intros [H1 H2 H3 H4 H5 H6] Hd E1 E2 E3 E4.
  assert (Hs : forall a, is_Some (mem p' !! a) <-> is_Some (mem p !! a)).
  { intros a. rewrite <- !elem_of_dom. by rewrite Hd. }
  constructor; rewrite ?E2, ?E3, ?E4; [|done..|].
  - unfold fresh. rewrite E1, E2. intros a Ha. rewrite Hs. by apply H1.
  - intros a. rewrite Hs. apply H6.
Qed.
(** ** The invariant *)

(** The new entries are the list [el], the older ones the forest [fl]. *)
Record rs_inv (home : gset Z) (p : RowSet) (el : list (Z * Z)) (fl : list (Z * tree)) : Prop := {
  ri_list : list_at (mem p) (pEntry p) el;
  ri_forest : forest_at (mem p) (pForest p) fl;
  ri_nodup : NoDup ((addrs el ++ forest_addrs fl) ++ fresh p);
  ri_pool : exists cl, pool home p cl;
  ri_bst : bst fl;
  ri_flags : rsFlags p = 0 \/ rsFlags p = 1 \/ rsFlags p = 3;
  ri_sorted : rsFlags p <> 0 -> ssorted el;
  ri_last : rsFlags p <> 3 -> pLast p = default NULL (list.last (addrs el))
}.

(** What the allocator promises of its answer. *)
Definition alloc_ok (p : RowSet) (an : option block) : Prop :=
  forall b, an = Some b -> nFresh p = 0 -> chunk_fresh p b.

Lemma inv_used home p el fl : rs_inv home p el fl ->
  forall a, a ∈ addrs el ++ forest_addrs fl -> a <> NULL /\ is_Some (mem p !! a).
Proof.
  intros W a [Ha|Ha]%elem_of_app.
  - exact (list_at_in _ _ _ _ (ri_list _ _ _ _ W) Ha).
  - exact (forest_at_in _ _ _ _ (ri_forest _ _ _ _ W) Ha).
Qed.

Lemma ssorted_snoc l a x :
  ssorted l -> (forall y, list.last (vals l) = Some y -> y < x) -> ssorted (l ++ [(a, x)]).
Proof.
  induction l as [|[b y] l IH]; intros Hs Hx; [csimpl; repeat constructor|].
  apply ssorted_cons_inv in Hs as [Hs Hy].
  change (ssorted ((b, y) :: (l ++ [(a, x)]))). apply (ssorted_cons b).
  - apply IH; [done|]. intros z Hz. apply Hx. csimpl. destruct (vals l) eqn:E; [done|]. by rewrite last_cons_cons.
  - intros z. rewrite fmap_app, elem_of_app. intros [Hz|Hz]; [by apply Hy|].
    csimpl in Hz. apply list_elem_of_singleton in Hz as ->. csimpl in Hx.
    destruct (list.last (vals l)) as [z|] eqn:E.
    + specialize (Hy z (last_Some_elem_of _ _ E)). enough (z < x) by lia. apply Hx.
      destruct (vals l); [done|]. by rewrite last_cons_cons.
    + apply last_None in E. rewrite E in Hx. by apply Hx.
Qed.

(** Linking the entry [e], which holds [x], behind the last one. *)
Lemma append_entry m q el e x z l :
  list_at m q el -> list.last (addrs el) = Some z -> NoDup (addrs el) -> e ∉ addrs el -> e <> NULL ->
  m !! e = Some (Entry x NULL l) ->
  exists m' ez, m !! z = Some ez /\ list.last (vals el) = Some (v ez) /\
    store_right m z e = Some m' /\ list_at m' q (el ++ [(e, x)]) /\ frame [z] m m'.
Proof.
  intros Hl Hz Hd He Hn E. destruct (list_at_last _ _ _ _ Hl Hz) as (ez & Ez & _ & Hv).
  destruct (store_right_spec m z e ez Ez) as (m' & -> & F & E').
  exists m', ez. split_and!; [done..| |done].
  eapply (list_at_join [z] m m' q el z e); [done..|set_solver|done|exact E'|done| |].
  - intros e0 E0. by simplify_eq.
  - simpl. split_and!; [done..|]. eexists. rewrite (frame_lookup _ _ _ _ F); [by split_and!|].
    intros ->%list_elem_of_singleton. apply He. by apply last_Some_elem_of.
Qed.

Definition unread (p : RowSet) : Prop := rsFlags p = 0 \/ rsFlags p = 1.

Lemma insert_spec home an x p el fl :
  rs_inv home p el fl -> unread p -> alloc_ok p an ->
  exists p', sqlite3RowSetInsert an x p = Some p' /\ unread p' /\ iBatch p' = iBatch p /\
    pForest p' = pForest p /\
    ((an = None /\ p' = p) \/ exists e, rs_inv home p' (el ++ [(e, x)]) fl).
Proof.
  intros W Hu Han. pose proof W as [Hl Hf Hd [cl HP] Hb Hfl Hs Hla].
  unfold sqlite3RowSetInsert.
  replace (Z.land (rsFlags p) ROWSET_NEXT <>? 0) with false by (destruct Hu as [-> | ->]; done).
  destruct (alloc_spec home an p cl _ HP Han Hd (fun a Ha => proj2 (inv_used _ _ _ _ W a Ha)))
    as [(-> & H0 & ->)|(e & p1 & cl1 & -> & Hn & [e0 E0] & HP1 & Hd1 & (Q1 & Q2 & Q3 & Q4 & Q5) & Hm & _ & _)].
  { simpl. exists p. split_and!; [done..|by left]. }
  rewrite (proj2 (Z.eqb_neq _ _) Hn), E0. cbn [set_mem mem pLast]. rewrite Q2.
  assert (pool_ok : forall q l fg m, dom m = dom (mem p1) -> pool home (set_list q l fg (set_mem m p1)) cl1)
    by (intros; by eapply pool_same).
  pose proof (frame_insert (mem p1) e e0 (Entry x NULL (pLeft e0)) E0) as F2.
  set (m2 := <[e := _]> (mem p1)) in *.
  pose proof Hd1 as (Hd2 & Hd3 & _)%list.NoDup_app.
  assert (Hl2 : list_at m2 (pEntry p) el).
  { eapply list_at_frame; [done| |by eapply list_at_ext]. set_solver +Hd3. }
  assert (Hf2 : forest_at m2 (pForest p) fl).
  { eapply forest_at_frame; [done| |by eapply forest_at_ext]. set_solver +Hd3. }
  assert (E2 : m2 !! e = Some (Entry x NULL (pLeft e0))) by apply lookup_insert_eq.
  assert (Hnd : NoDup ((addrs (el ++ [(e, x)]) ++ forest_addrs fl) ++ fresh p1)).
  { eapply NoDup_Permutation_proper; [|exact Hd1]. rewrite addrs_app. csimpl. solve_Permutation. }
  rewrite Hla by (destruct Hu as [-> | ->]; done).
  destruct (list.last (addrs el)) as [z|] eqn:Ez; simpl.
  - apply list.NoDup_app in Hd2 as (Hde & Hef & _).
    destruct (append_entry m2 (pEntry p) el e x z (pLeft e0)) as (m3 & ez & Ez2 & Hv & -> & Hl3 & F3);
      [done..|set_solver +Hd3|done|done|].
    assert (Hz : z ∈ addrs el) by (by apply last_Some_elem_of).
    rewrite (proj2 (Z.eqb_neq z NULL)) by (apply (inv_used _ _ _ _ W); set_solver +Hz). simpl.
    rewrite Ez2. rewrite Q1, Q4. eexists. split_and!; [done| |done|done|right; exists e].
    { unfold unread. simpl. case_cond; destruct Hu as [-> | ->]; auto. }
    constructor; [done| |exact Hnd| |done| | |]; csimpl.
    + rewrite Q3. eapply forest_at_frame; [exact F3| |done]. set_solver +Hef Hz.
    + exists cl1. apply pool_ok. destruct F2, F3. congruence.
    + case_cond; destruct Hu as [-> | ->]; auto.
    + case_cond; [destruct Hu as [-> | ->]; done|]. intros Hne. apply ssorted_snoc; [auto|].
      intros y Hy. rewrite Hv in Hy. simplify_eq. lia.
    + intros _. rewrite addrs_app. csimpl. by rewrite last_snoc.
  - apply last_None, fmap_nil_inv in Ez as ->.
    rewrite Q4. eexists. split_and!; [done| |done|done|right; exists e].
    { unfold unread. simpl. auto. }
    constructor; [| |exact Hnd| |done|done| |done]; csimpl.
    + split_and!; [done..|]. eexists. by split_and!.
    + by rewrite Q3.
    + exists cl1. apply pool_ok. by destruct F2.
    + intros _. repeat constructor.
Qed.
(** ** Clearing *)

Lemma chunk_at_delete c q p cl : q ∉ cl -> chunk_at c p cl -> chunk_at (delete q c) p cl.
Proof.
  revert p. induction cl as [|a cl IH]; intros p Hq; simpl; [done|].
  intros (-> & Hn & k & E & Hl). split_and!; [done..|]. exists k.
  rewrite lookup_delete_ne by set_solver. split; [done|]. apply IH; [set_solver|done].
Qed.

Lemma clear_chunks_spec fuel c p cl :
  chunk_at (chunk_mem p) c cl -> NoDup cl -> (forall q, is_Some (chunk_mem p !! q) <-> q ∈ cl) ->
  (length cl < fuel)%nat ->
  exists p', clear_loop fuel c p = Some p' /\ chunk_mem p' = ∅ /\
    (forall a, is_Some (mem p' !! a) -> is_Some (mem p !! a) /\ forall q, q ∈ cl -> ~ in_chunk q a) /\
    iBatch p' = iBatch p /\ rs_addr p' = rs_addr p.
Proof.
  revert c p cl. induction fuel as [|fuel IH]; intros c p cl Hc Hd Hdom Hf; [lia|].
  cbn [clear_loop]. destruct cl as [|q cl].
  - simpl in Hc. subst c. simpl. exists p. split_and!; [done| |set_solver|done|done].
    apply map_eq. intros q. rewrite lookup_empty. apply eq_None_not_Some. rewrite Hdom. set_solver.
  - destruct Hc as (-> & Hn & n & E & Hc). rewrite (proj2 (Z.eqb_neq _ _) Hn), E.
    apply list.NoDup_cons in Hd as [Hq Hd].
    destruct (IH n (free_chunk q p) cl) as (p' & -> & Hm & Ha & ? & ?).
    + by apply chunk_at_delete.
    + done.
    + intros k. simpl. rewrite lookup_delete_is_Some, Hdom, elem_of_cons. naive_solver.
    + simpl in Hf. lia.
    + exists p'. split_and!; [done..| |done|done]. intros a [[e He] Hx]%Ha. simpl in He.
      apply map_lookup_filter_Some in He as [He Hin]. simpl in Hin. split; [eauto|].
      intros k [->|Hk]%elem_of_cons; [exact Hin|auto].
Qed.

Lemma clear_spec home p el fl :
  rs_inv home p el fl ->
  exists p', sqlite3RowSetClear p = Some p' /\ rs_inv home p' [] [] /\ rsFlags p' = 1 /\
    iBatch p' = iBatch p /\ pForest p' = NULL /\ chunk_mem p' = ∅ /\
    (forall a, is_Some (mem p' !! a) -> a ∈ home).
Proof.
  intros [_ _ _ [cl [H1 H2 H3 H4 H5 H6]] _ _ _ _]. unfold sqlite3RowSetClear.
  destruct (clear_chunks_spec (S (size (chunk_mem p))) (pChunk p) p cl) as (p' & -> & Hm & Ha & Hb & _); [done..| |].
  { enough (length cl <= size (chunk_mem p))%nat by lia.
    rewrite <- (size_list_to_set (C := gset Z) cl), <- (size_dom (D := gset Z)) by done.
    apply subseteq_size. intros a Hin%elem_of_list_to_set. by apply elem_of_dom, H5. }
  assert (Hhome : forall a, is_Some (mem p' !! a) -> a ∈ home).
  { intros a [Hs Hx]%Ha. destruct (H6 a Hs) as [?|(c & Hc & Hin)]; [done|]. by destruct (Hx c Hc). }
  eexists. split_and!; [done| |done..]. constructor; try done.
  - apply array_addrs_nodup.
  - exists []. constructor; simpl; try done.
    + intros a (i & Hi & _)%array_addrs_in. simpl in Hi. lia.
    + constructor.
    + intros c. rewrite Hm, lookup_empty. split; [by intros [? [=]]|set_solver].
    + intros a Hs. left. by apply Hhome.
  - simpl. auto.
  - constructor.
Qed.

(** ** Extraction *)

(** The first call sorts the list. *)
Lemma next_sorted home p el :
  rs_inv home p el [] -> len el < 2 ^ 40 ->
  exists p' el',
    (if Z.land (rsFlags p) ROWSET_NEXT =? 0 then
       let? p :=
         if Z.land (rsFlags p) ROWSET_SORTED =? 0 then
           let? (m, q) := rowSetEntrySort (mem p) (pEntry p) in
           Some (set_list q (pLast p) (rsFlags p) (set_mem m p))
         else Some p in
       Some (set_list (pEntry p) (pLast p) (Z.lor (rsFlags p) (Z.lor ROWSET_SORTED ROWSET_NEXT)) p)
     else Some p) = Some p' /\
    rs_inv home p' el' [] /\ rsFlags p' = 3 /\ iBatch p' = iBatch p /\ pForest p' = pForest p /\
    (forall x, x ∈ vals el' <-> x ∈ vals el) /\ (length el' <= length el)%nat.
Proof.
  intros W Hlen. pose proof W as [Hl Hf Hd [cl HP] Hb Hfl Hs Hla].
  destruct Hfl as [E|[E|E]]; rewrite E in *; simpl.
  - rewrite app_nil_r in Hd. apply list.NoDup_app in Hd as (Hd & Hx & Hd').
    destruct (sort_spec _ _ _ Hl Hd Hlen) as (m & q & l' & -> & Hq & [S1 S2 S3 S4] & F). simpl.
    eexists _, l'. split_and!; [done| |done..|].
    + constructor; simpl; try done; [| |auto].
      * rewrite app_nil_r. apply list.NoDup_app. split_and!; [done|set_solver +Hx S3|done].
      * exists cl. eapply pool_same; [done|by destruct F|done..].
    + rewrite <- (length_fmap fst l'), <- (length_fmap fst el). by apply submseteq_length, NoDup_submseteq.
  - rewrite E. eexists _, el. split_and!; [done| |done..|lia]. constructor; simpl; try done; [|auto|].
    + exists cl. by eapply pool_same.
    + intros _. by apply Hs.
  - exists p, el. split_and!; [done..|lia].
Qed.

Lemma next_spec home p el :
  rs_inv home p el [] -> len el < 2 ^ 40 ->
  exists r p' el', sqlite3RowSetNext p = Some (r, p') /\ rs_inv home p' el' [] /\
    iBatch p' = iBatch p /\ (length el' <= length el)%nat /\
    match r with
    | None => el = [] /\ el' = [] /\ rsFlags p' = 3
    | Some x => x ∈ vals el /\ (forall y, y ∈ vals el' <-> y ∈ vals el /\ x < y) /\
        (forall y, y ∈ vals el -> x <= y) /\ rsFlags p' = (if decide (el' = []) then 1 else 3)
    end.
Proof.
  intros W Hlen. unfold sqlite3RowSetNext.
  rewrite (proj2 (forest_at_null _ _ _ (ri_forest _ _ _ _ W)) eq_refl). simpl.
  destruct (next_sorted home p el W Hlen) as (p1 & el1 & -> & W1 & Hfl & Hb & Hfo & Hv & Hle).
  pose proof W1 as [Hl _ Hd [cl HP] _ _ Hs _]. destruct el1 as [|[a x] el1].
  - simpl in Hl. rewrite Hl. simpl. exists None, p1, []. split_and!; [done..| |done|done].
    destruct (decide (el = [])) as [?|Hne]; [done|]. exfalso.
    by apply (vals_nonempty el [] (fun x => iff_trans (Hv x) (iff_refl _)) Hne).
  - destruct Hl as (-> & Hn & e & E & <- & Hl). rewrite (proj2 (Z.eqb_neq _ _) Hn). cbn [negb]. rewrite E.
    pose proof (Hs ltac:(rewrite Hfl; done)) as [Hs1 Hmin]%ssorted_cons_inv.
    rewrite app_nil_r in Hd. csimpl in Hd. apply list.NoDup_cons in Hd as [Ha Hd].
    assert (W2 : rs_inv home (set_list (pRight e) (pLast p1) (rsFlags p1) p1) el1 []).
    { constructor; simpl; try done; [by apply W1| | |auto].
      - rewrite app_nil_r. exact Hd.
      - exists cl. by eapply pool_same. }
    assert (Hv' : v e ∈ vals el /\ (forall y, y ∈ vals el1 <-> y ∈ vals el /\ v e < y) /\
      (forall y, y ∈ vals el -> v e <= y)).
    { csimpl in Hv. setoid_rewrite elem_of_cons in Hv. split_and!.
      - apply Hv. by left.
      - intros y. rewrite <- Hv. split; [auto|]. intros [[->|?] ?]; [lia|done].
      - intros y [->|Hy%Hmin]%Hv; lia. }
    simpl in Hle. cbn [pEntry set_list]. destruct (Z.eqb_spec (pRight e) NULL) as [En|En].
    + apply (list_at_null _ _ _ Hl) in En as ->.
      destruct (clear_spec home _ _ _ W2) as (p' & -> & W3 & F3 & B3 & _).
      exists (Some (v e)), p', []. destruct Hv' as (? & ? & ?). split_and!; try done; [by rewrite B3|simpl; lia].
    + eexists (Some (v e)), _, el1. destruct Hv' as (? & ? & ?). split_and!; [done|done|done|lia|done..|].
      destruct (decide (el1 = [])) as [->|_]; [done|]. done.
Qed.
(** ** Sorting a batch into the forest *)

(** The slot refers to [q]. *)
Definition slot_holds (m : entries) (var : Z) (s : slot) (q : Z) : Prop :=
  match s with None => var = q | Some t => exists e, m !! t = Some e /\ pRight e = q end.

Lemma slot_kept m var s q m' : slot_holds m var s q ->
  (forall t, t ∈ slot_addrs s -> m' !! t = m !! t) -> slot_set m var s q m' var.
Proof.
  destruct s as [t|]; simpl; [|done]. intros (e & E & <-) H. split; [done|]. exists e.
  rewrite H by set_solver. rewrite E. by destruct e.
Qed.

(** The forest [fl] behind the slot [s] has become [fl'], with the values of [l]; when
    memory ran out the values are lost. *)
Record flush_post (home : gset Z) (an : option block) (p : RowSet) (s : slot)
  (fl : list (Z * tree)) (l : list (Z * Z)) (p' : RowSet) (fl' : list (Z * tree)) (q : Z) : Prop := {
  fp_slot : slot_set (mem p) (pForest p) s q (mem p') (pForest p');
  fp_forest : forest_at (mem p') q fl';
  fp_bst : bst fl';
  fp_pool : exists cl, pool home p' cl;
  fp_nodup : NoDup (forest_addrs fl' ++ fresh p');
  fp_addrs : forall x, x ∈ forest_addrs fl' ++ fresh p' ->
    x ∈ (forest_addrs fl ++ addrs l) ++ fresh p \/ mem p !! x = None;
  fp_frame : forall x e, x ∉ slot_addrs s ++ (forest_addrs fl ++ addrs l) ++ fresh p ->
    mem p !! x = Some e -> mem p' !! x = Some e;
  fp_fields : pEntry p' = pEntry p /\ pLast p' = pLast p /\ rsFlags p' = rsFlags p /\
    iBatch p' = iBatch p;
  fp_vals : (forall x, x ∈ forest_vals fl' <-> x ∈ forest_vals fl \/ x ∈ vals l) \/
    (an = None /\ forest_vals fl' = [])
}.

(** There is no free place in the forest: a new node. *)
Lemma flush_new home an p s q l cl :
  slot_holds (mem p) (pForest p) s NULL -> list_at (mem p) q l -> l <> [] -> ssorted l ->
  pool home p cl -> alloc_ok p an -> NoDup (slot_addrs s ++ addrs l ++ fresh p) ->
  (forall t, t ∈ slot_addrs s -> is_Some (mem p !! t)) ->
  exists p' fl' f,
    (let '(pTree, p) := rowSetEntryAlloc an p in
     let? (m, f) := store_slot (mem p) (pForest p) s pTree in
     let p := set_forest f (set_mem m p) in
     if pTree =? NULL then Some p else
     let? e := mem p !! pTree in
     let m := <[pTree := Entry 0 NULL (pLeft e)]> (mem p) in
     let? (m, t) := rowSetListToTree m q in
     let? m := store_left m pTree t in
     Some (set_mem m p)) = Some p' /\ flush_post home an p s [] l p' fl' f.
Proof.
  intros Hh Hl Hn Hs HP Han Hd Ht. rewrite app_assoc in Hd.
  destruct (alloc_spec home an p cl (slot_addrs s ++ addrs l) HP Han Hd)
    as [(-> & _ & ->)|(a & p1 & cl1 & -> & Ha & HSa & HP1 & Hd1 & (Q1 & Q2 & Q3 & Q4 & Q5) & Hm & _ & Hnew)].
  { intros b [Hb|Hb]%elem_of_app; [auto|]. by eapply list_at_in. }
  - destruct (store_slot_spec (mem p) (pForest p) s NULL Ht) as (m1 & f & -> & S1 & F1). simpl.
    eexists _, [], NULL. split; [done|]. apply list.NoDup_app in Hd as (_ & _ & Hd). constructor; simpl; try done.
    + exists cl. eapply pool_same; [done|by destruct F1|done..].
    + intros x Hx. left. apply elem_of_app. by right.
    + intros x e Hx E. rewrite (frame_lookup _ _ _ _ F1); [done|]. set_solver +Hx.
    + by right.
  - apply list.NoDup_app in Hd1 as (Hd1 & Hx1 & [Hx2 Hd2]%list.NoDup_cons).
    destruct (store_slot_spec (mem p1) (pForest p1) s a) as (m2 & f & -> & S2 & F2).
    { intros t Hin. destruct (Ht t Hin) as [e E]. exists e. by eapply lookup_weaken. }
    rewrite (proj2 (Z.eqb_neq _ _) Ha). cbn [mem set_mem set_forest].
    apply (frame_is_Some _ _ _ _ F2) in HSa as [e E]. rewrite E.
    pose proof (frame_insert m2 a e (Entry 0 NULL (pLeft e)) E) as F3.
    set (m3 := <[a := _]> m2) in *.
    assert (Hl3 : list_at m3 q l).
    { apply list.NoDup_app in Hd1 as (_ & Hx3 & _).
      eapply list_at_frame; [exact F3|set_solver +Hx1|]. eapply list_at_frame; [exact F2|set_solver +Hx3|].
      by eapply list_at_ext. }
    pose proof Hd1 as (_ & Hx3 & Hdl)%list.NoDup_app.
    destruct (list_to_tree_spec m3 q l Hl3 Hn Hdl) as (m4 & r & t & -> & HT & Hi & F4 & _).
    assert (E4 : m4 !! a = Some (Entry 0 NULL (pLeft e))).
    { rewrite (frame_lookup _ _ _ _ F4) by set_solver +Hx1. apply lookup_insert_eq. }
    destruct (store_left_spec m4 a r _ E4) as (m5 & -> & F5 & E5).
    assert (F35 : frame (a :: addrs l) m2 m5).
    { eapply frame_trans; [eapply frame_trans|]; (eapply frame_weaken; [done|]); clear; set_solver. }
    eexists _, [(a, t)], a. split; [done|]. constructor; simpl.
    + assert (S2' : slot_set (mem p) (pForest p) s a m2 f).
      { destruct s as [b|]; simpl in *; [|done]. destruct S2 as (-> & e' & E' & E2'). split; [done|].
        destruct Hh as (e0 & E0 & _). exists e0. split; [done|].
        rewrite (lookup_weaken _ _ _ _ E0 Hm) in E'. by simplify_eq. }
      eapply slot_set_frame; [exact S2'|exact F35|]. set_solver +Hx1 Hx3.
    + split_and!; [done..|]. eexists. split_and!; [done| |done]. simpl.
      eapply tree_at_frame; [exact F5| |done]. rewrite Hi. set_solver +Hx1.
    + apply list.Forall_singleton. simpl. by rewrite Hi.
    + exists cl1. eapply pool_same; [exact HP1| |done..]. simpl. destruct F35, F2. congruence.
    + rewrite app_nil_r, Hi. apply list.NoDup_cons. split; [|apply list.NoDup_app; split_and!; [done| |done]].
      * set_solver +Hx1 Hx2.
      * intros x Hx. change (x ∉ fresh p1). set_solver +Hx Hx1.
    + intros x. rewrite app_nil_r, Hi. change (fresh (set_mem m5 _)) with (fresh p1).
      intros [->|[Hx|Hx]%elem_of_app]%elem_of_cons.
      * destruct (Hnew a); [set_solver|left; set_solver|by right].
      * left. set_solver.
      * destruct (Hnew x); [set_solver|left; set_solver|by right].
    + intros x e' Hx E'. rewrite (frame_lookup _ _ _ _ F35).
      * rewrite (frame_lookup _ _ _ _ F2) by set_solver +Hx. by eapply lookup_weaken.
      * intros [->|Hin]%elem_of_cons; [|set_solver +Hx Hin].
        destruct (Hnew a) as [?|?]; [set_solver|set_solver|congruence].
    + done.
    + left. intros x. rewrite app_nil_r, Hi. set_solver.
Qed.
(** The node [a] has no tree: the list becomes its tree. *)
Lemma flush_here home an p s q l a e fl cl :
  slot_holds (mem p) (pForest p) s a -> a <> NULL -> mem p !! a = Some e ->
  forest_at (mem p) (pRight e) fl -> bst fl -> list_at (mem p) q l -> l <> [] -> ssorted l ->
  pool home p cl -> NoDup (slot_addrs s ++ (forest_addrs ((a, Leaf) :: fl) ++ addrs l) ++ fresh p) ->
  exists p' fl',
    (let? (m, t) := rowSetListToTree (mem p) q in
     let? m := store_left m a t in
     Some (set_mem m p)) = Some p' /\ flush_post home an p s ((a, Leaf) :: fl) l p' fl' a.
Proof.
  intros Hh Ha E Hf Hb Hl Hn Hs HP Hd. csimpl in *.
  apply list.NoDup_app in Hd as (_ & Hx1 & [Hx2 Hd]%list.NoDup_cons).
  pose proof Hd as (Hd1 & Hx3 & Hd2)%list.NoDup_app. pose proof Hd1 as (Hdf & Hx4 & Hdl)%list.NoDup_app.
  destruct (list_to_tree_spec (mem p) q l Hl Hn Hdl) as (m1 & r & t & -> & HT & Hi & F1 & _).
  assert (E1 : m1 !! a = Some e) by (rewrite (frame_lookup _ _ _ _ F1); [done|set_solver +Hx2]).
  destruct (store_left_spec m1 a r e E1) as (m2 & -> & F2 & E2).
  assert (F : frame (a :: addrs l) (mem p) m2).
  { eapply frame_trans; (eapply frame_weaken; [done|]); clear; set_solver. }
  exists (set_mem m2 p), ((a, t) :: fl). split; [done|]. constructor; simpl.
  - apply slot_kept; [done|]. intros b Hb'. apply (frame_lookup _ _ _ _ F). set_solver +Hx1 Hb'.
  - split_and!; [done..|]. eexists. split_and!; [done| |]; simpl.
    + eapply tree_at_frame; [exact F2| |done]. rewrite Hi. set_solver +Hx2.
    + eapply forest_at_frame; [exact F| |done]. set_solver +Hx4 Hx2.
  - apply list.Forall_cons. simpl. by rewrite Hi.
  - exists cl. eapply pool_same; [done|by destruct F|done..].
  - rewrite Hi. change (fresh (set_mem m2 p)) with (fresh p). apply list.NoDup_cons. split; [set_solver +Hx2|].
    eapply NoDup_Permutation_proper; [|exact Hd]. solve_Permutation.
  - intros x. rewrite Hi. change (fresh (set_mem m2 p)) with (fresh p). intros Hx. left. set_solver +Hx.
  - intros x e' Hx Ex. rewrite (frame_lookup _ _ _ _ F); [done|]. set_solver +Hx.
  - done.
  - left. intros x. rewrite Hi, elem_of_app. tauto.
Qed.

(** The tree of the node [a] is merged with the list, and the node is left empty. *)
Lemma flush_merge home p s q l a t e fl cl :
  a <> NULL -> mem p !! a = Some e -> tree_at (mem p) (pLeft e) t -> t <> Leaf ->
  ssorted (inorder t) -> forest_at (mem p) (pRight e) fl ->
  list_at (mem p) q l -> l <> [] -> ssorted l -> pool home p cl ->
  NoDup (slot_addrs s ++ (forest_addrs ((a, t) :: fl) ++ addrs l) ++ fresh p) ->
  exists m1 pAux z m2 m3 q2 l2,
    rowSetTreeToList (size (mem p)) (mem p) (pLeft e) NULL None = Some (m1, pAux, z) /\
    store_left m1 a NULL = Some m2 /\ rowSetEntryMerge m2 pAux q = Some (m3, q2) /\
    m3 !! a = Some (Entry (v e) (pRight e) NULL) /\ list_at m3 q2 l2 /\ merged (inorder t) l l2 /\
    forest_at m3 (pRight e) fl /\ frame (a :: addrs (inorder t) ++ addrs l) (mem p) m3.
Proof.
  intros Ha E Ht Hnt Hst Hf Hl Hn Hs HP Hd. csimpl in *.
  apply list.NoDup_app in Hd as (_ & _ & [Hx2 Hd]%list.NoDup_cons).
  apply list.NoDup_app in Hd as (Hd & _ & _). rewrite <- app_assoc in *.
  apply list.NoDup_app in Hd as (Hdt & Hx3 & Hd). apply list.NoDup_app in Hd as (Hdf & Hx4 & Hdl).
  destruct (tree_to_list_spec t (size (mem p)) (mem p) (pLeft e) NULL None)
    as (m1 & pAux & z & q1 & -> & Hq1 & Hl1 & Hz & F1); [done..|set_solver| |].
  { rewrite <- (length_fmap fst (inorder t)). apply addrs_size; [done|]. intros b Hb. by eapply tree_at_in. }
  simpl in Hq1, F1. subst q1.
  assert (E1 : m1 !! a = Some e) by (rewrite (frame_lookup _ _ _ _ F1); [done|set_solver +Hx2]).
  destruct (store_left_spec m1 a NULL e E1) as (m2 & S2 & F2 & E2).
  destruct (merge_spec m2 pAux q (inorder t) l) as (m3 & q2 & l2 & S3 & Hl2 & Hm & F3).
  - eapply list_at_frame; [exact F2| |done]. set_solver +Hx2.
  - eapply list_at_frame; [exact F2|set_solver +Hx2|]. eapply list_at_frame; [exact F1|set_solver +Hx3|done].
  - by apply inorder_nonempty.
  - done.
  - done.
  - done.
  - apply list.NoDup_app. split_and!; [done|set_solver +Hx3|done].
  - assert (F : frame (a :: addrs (inorder t) ++ addrs l) (mem p) m3).
    { eapply frame_trans; [eapply frame_trans|]; (eapply frame_weaken; [done|]); clear; set_solver. }
    exists m1, pAux, z, m2, m3, q2, l2. split_and!; [done..| |done|done| |done].
    + rewrite (frame_lookup _ _ _ _ F3); [done|]. set_solver +Hx2.
    + eapply forest_at_frame; [exact F| |done]. set_solver +Hx2 Hx3 Hx4.
Qed.

(** The rest of the forest has been dealt with; the node [a] stays, without a tree. *)
Lemma flush_chain home an p s a t e fl l l2 m3 p' fl' q' :
  slot_holds (mem p) (pForest p) s a -> a <> NULL -> mem p !! a = Some e ->
  (forall b, b ∈ slot_addrs s -> is_Some (mem p !! b)) ->
  m3 !! a = Some (Entry (v e) (pRight e) NULL) -> merged (inorder t) l l2 ->
  frame (a :: addrs (inorder t) ++ addrs l) (mem p) m3 ->
  NoDup (slot_addrs s ++ (forest_addrs ((a, t) :: fl) ++ addrs l) ++ fresh p) ->
  flush_post home an (set_mem m3 p) (Some a) fl l2 p' fl' q' ->
  flush_post home an p s ((a, t) :: fl) l p' ((a, Leaf) :: fl') a.
Proof.
  intros Hh Ha E Hss E3 [_ _ Mv Ma _] F Hd [P1 P2 P3 P4 P5 P6 P7 P8 P9]. csimpl in *.
  change (fresh (set_mem m3 p)) with (fresh p) in *.
  apply list.NoDup_app in Hd as (_ & Hx1 & [Hx2 Hd]%list.NoDup_cons).
  destruct P1 as (Hfo & e' & E' & Ep). simplify_eq. csimpl in *.
  assert (Hnone : forall x, m3 !! x = None -> mem p !! x = None).
  { intros x Hx. apply eq_None_not_Some. intros Hs. apply (frame_is_Some _ _ _ _ F) in Hs as [y Hy]. congruence. }
  constructor; simpl; try done.
  - rewrite Hfo. apply slot_kept; [done|]. intros b Hb. destruct (Hss b Hb) as [eb Eb]. rewrite Eb.
    apply P7; [set_solver +Hx1 Hb Ma|]. rewrite (frame_lookup _ _ _ _ F); [done|]. set_solver +Hx1 Hb.
  - split_and!; [done..|]. eexists. by split_and!.
  - apply list.Forall_cons. split; [constructor|done].
  - apply list.NoDup_cons. split; [|done]. intros Hin. destruct (P6 a Hin) as [Hc|Hc]; [|congruence].
    set_solver +Hc Hx2 Ma.
  - intros x [->|Hx]%elem_of_cons; [left; set_solver|]. destruct (P6 x Hx) as [Hc|Hc]; [left|right; by apply Hnone].
    set_solver +Hc Ma.
  - intros x e1 Hx Ex. apply P7; [set_solver +Hx Ma|]. rewrite (frame_lookup _ _ _ _ F); [done|]. set_solver +Hx.
  - destruct P9 as [P9|?]; [left|by right]. intros x. rewrite P9, Mv, elem_of_app. tauto.
Qed.

Lemma alloc_ok_same p p' an :
  alloc_ok p an -> dom (mem p') = dom (mem p) -> nFresh p' = nFresh p ->
  chunk_mem p' = chunk_mem p -> alloc_ok p' an.
Proof.
  intros H Hd E1 E2 b Hb H0. rewrite E1 in H0. destruct (H b Hb H0) as [C1 C2 C3]. constructor; [done| |].
  - intros a Hs. apply C2. apply elem_of_dom. rewrite <- Hd. by apply elem_of_dom.
  - by rewrite E2.
Qed.

Lemma test_flush_spec fuel home an p pTree s q fl l cl :
  slot_holds (mem p) (pForest p) s pTree -> forest_at (mem p) pTree fl -> bst fl ->
  list_at (mem p) q l -> l <> [] -> ssorted l -> pool home p cl -> alloc_ok p an ->
  NoDup (slot_addrs s ++ (forest_addrs fl ++ addrs l) ++ fresh p) ->
  (forall t, t ∈ slot_addrs s -> is_Some (mem p !! t)) -> (length fl < fuel)%nat ->
  exists p' fl' f, test_flush fuel an p pTree s q = Some p' /\ flush_post home an p s fl l p' fl' f.
Proof.
  revert p pTree s q fl l. induction fuel as [|fuel IH]; intros p pTree s q fl l Hh Hf Hb Hl Hn Hs HP Han Hd Hss Hlen; [lia|].
  cbn [test_flush]. destruct fl as [|[a t] fl].
  - simpl in Hf. subst pTree. rewrite Z.eqb_refl. by eapply flush_new.
  - destruct Hf as (-> & Ha & e & E & Ht & Hf). rewrite (proj2 (Z.eqb_neq _ _) Ha), E.
    apply list.Forall_cons in Hb as [Hst Hb]. simpl in Hst. destruct (Z.eqb_spec (pLeft e) NULL) as [En|En].
    + apply (tree_at_null _ _ _ Ht) in En as ->.
      destruct (flush_here home an p s q l a e fl cl) as (p' & fl' & -> & HF); [done..|]. eauto.
    + assert (Hnt : t <> Leaf) by (intros ->; done).
      destruct (flush_merge home p s q l a t e fl cl)
        as (m1 & pAux & z & m2 & m3 & q2 & l2 & -> & -> & -> & E3 & Hl2 & Hm & Hf3 & F); [done..|].
      rewrite E3. csimpl. pose proof Hm as [M1 M2 M3 M4 M5].
      destruct (IH (set_mem m3 p) (pRight e) (Some a) q2 fl l2) as (p' & fl' & q' & HE & HF).
      * simpl. eauto.
      * done.
      * done.
      * done.
      * done.
      * done.
      * eapply pool_same; [done|by destruct F|done..].
      * eapply alloc_ok_same; [done|by destruct F|done..].
      * change (fresh (set_mem m3 p)) with (fresh p). csimpl in *.
        apply list.NoDup_app in Hd as (_ & _ & [Hx Hd]%list.NoDup_cons). apply list.NoDup_cons. split; [set_solver +Hx M4|].
        apply list.NoDup_app in Hd as (Hd & Hx5 & Hd3). rewrite <- app_assoc in Hd.
        apply list.NoDup_app in Hd as (_ & Hx6 & Hd). apply list.NoDup_app in Hd as (Hdf & Hx7 & _).
        apply list.NoDup_app. split_and!; [apply list.NoDup_app; split_and!; [done|set_solver +Hx6 Hx7 M4|done]|set_solver +Hx5 M4|done].
      * set_solver.
      * simpl in Hlen. lia.
      * exists p', ((a, Leaf) :: fl'), a. split; [done|]. by eapply flush_chain.
Qed.
(** The list that is sorted into the forest. *)
Lemma batch_sorted home p el fl :
  rs_inv home p el fl -> unread p -> len el < 2 ^ 40 ->
  exists m q l,
    (if Z.land (rsFlags p) ROWSET_SORTED =? 0 then rowSetEntrySort (mem p) (pEntry p)
     else Some (mem p, pEntry p)) = Some (m, q) /\
    list_at m q l /\ sorted_of el l /\ frame (addrs el) (mem p) m.
Proof.
  intros [Hl _ Hd _ _ _ Hs _] Hu Hlen. apply list.NoDup_app in Hd as [(Hd & _ & _)%list.NoDup_app _].
  destruct Hu as [E|E]; rewrite E in *; simpl.
  - destruct (sort_spec _ _ _ Hl Hd Hlen) as (m & q & l & -> & H). by exists m, q, l.
  - exists (mem p), (pEntry p), el. split_and!; [done..| |apply frame_refl].
    constructor; [by apply Hs|done..].
Qed.

Lemma test_batch_spec home an b p el fl :
  rs_inv home p el fl -> unread p -> alloc_ok p an -> len el < 2 ^ 40 -> b <> iBatch p ->
  exists p' fl', test_batch an b p = Some p' /\ rs_inv home p' [] fl' /\ unread p' /\ iBatch p' = b /\
    (el = [] /\ fl' = fl /\ pForest p' = pForest p \/
     el <> [] /\ ((forall x, x ∈ forest_vals fl' <-> x ∈ forest_vals fl \/ x ∈ vals el) \/
       (an = None /\ forest_vals fl' = []))).
Proof.
  intros W Hu Han Hlen Hb. pose proof W as [Hl Hf Hd [cl HP] Hbst Hfl Hs Hla]. unfold test_batch.
  rewrite (proj2 (Z.eqb_neq _ _) Hb). destruct (Z.eqb_spec (pEntry p) NULL) as [En|En]; cbn [negb].
  - apply (list_at_null _ _ _ Hl) in En as ->. exists (set_batch b p), fl.
    split_and!; [done| |done..|by left]. constructor; try done. exists cl. by eapply pool_same.
  - assert (Hne : el <> []) by (intros ->; done).
    destruct (batch_sorted home p el fl W Hu Hlen) as (m & q & l & -> & Hq & [S1 S2 S3 S4] & F).
    apply list.NoDup_app in Hd as ((Hde & Hx1 & Hdf)%list.NoDup_app & Hx2 & Hdfr).
    destruct (test_flush_spec (S (size m)) home an (set_mem m p) (pForest p) None q fl l cl)
      as (p' & fl' & f & -> & [P1 P2 P3 P4 P5 _ _ (Q1 & Q2 & Q3 & Q4) P9]); simpl.
    + done.
    + eapply forest_at_frame; [exact F| |done]. set_solver +Hx1.
    + done.
    + done.
    + by eapply vals_nonempty.
    + done.
    + eapply pool_same; [done|by destruct F|done..].
    + eapply alloc_ok_same; [done|by destruct F|done..].
    + change (fresh (set_mem m p)) with (fresh p). apply list.NoDup_app.
      split_and!; [apply list.NoDup_app; split_and!; [done|set_solver +Hx1 S3|done]|set_solver +Hx2 S3|done].
    + set_solver.
    + rewrite (frame_size _ _ _ F). apply le_n_S. clear -Hf Hdf.
      trans (length (forest_addrs fl)); [clear; induction fl as [|[a t] fl IH]; simpl; rewrite ?length_app; lia|].
      apply addrs_size; [done|]. intros a Ha. by eapply forest_at_in.
    + simpl in *. eexists _, fl'. split_and!; [done| | |done|right; split; [done|]].
      * constructor; simpl; try done.
        -- by rewrite P1.
        -- destruct P4 as [cl' P4]. exists cl'. by eapply pool_same.
        -- rewrite Q3. destruct Hu as [-> | ->]; auto.
        -- constructor.
      * unfold unread. simpl. rewrite Q3. destruct Hu as [-> | ->]; auto.
      * destruct P9 as [P9|?]; [left|by right]. intros x. by rewrite P9, S2.
Qed.

Lemma test_search home p el fl x :
  rs_inv home p el fl ->
  search_forest (S (size (mem p))) (mem p) (pForest p) x = Some (bool_decide (x ∈ forest_vals fl)).
Proof.
  intros [_ Hf Hd _ Hb _ _ _]. apply list.NoDup_app in Hd as ((_ & _ & Hd)%list.NoDup_app & _).
  apply search_forest_spec; [done..|]. apply le_n_S.
  trans (length (forest_addrs fl)); [clear; induction fl as [|[a t] fl IH]; simpl; rewrite ?length_app; lia|].
  apply addrs_size; [done|]. intros a Ha. by eapply forest_at_in.
Qed.

(** ** The specification *)

Inductive rs_op := OpInsert (x : Z) | OpTest (b x : Z) | OpNext.
Inductive rs_answer := AnsNone | AnsTest (found : bool) | AnsNext (r : option Z).

(** The values of the current batch, those of earlier batches, the batch number; whether
    extraction has begun, and whether there has been a forest. *)
Record rs_set := RSet {
  newer : gset Z;
  older : gset Z;
  batch : Z;
  reading : bool;
  tested : bool
}.

Definition least (X : gset Z) : option Z :=
  foldr (fun x r => Some (default x (Z.min x <$> r))) None (elements X).

(** One operation; [ok] tells that memory did not run out. *)
Definition spec_step (ok : bool) (op : rs_op) (s : rs_set) : rs_answer * rs_set :=
  match op with
  | OpInsert x =>
      (AnsNone, if ok then RSet ({[x]} ∪ newer s) (older s) (batch s) (reading s) (tested s) else s)
  | OpTest b x =>
      let s :=
        if b =? batch s then s
        else if decide (newer s = ∅) then RSet (newer s) (older s) b (reading s) (tested s)
        else RSet ∅ (if ok then newer s ∪ older s else ∅) b (reading s) true in
      (AnsTest (bool_decide (x ∈ older s)), s)
  | OpNext =>
      match least (newer s) with
      | None => (AnsNext None, RSet (newer s) (older s) (batch s) true (tested s))
      | Some x =>
          let rest := newer s ∖ {[x]} in
          (AnsNext (Some x), RSet rest (older s) (batch s) (negb (bool_decide (rest = ∅))) (tested s))
      end
  end.

Fixpoint spec_run (ops : list (rs_op * bool)) (s : rs_set) : list rs_answer * rs_set :=
  match ops with
  | [] => ([], s)
  | (op, ok) :: ops =>
      let '(a, s) := spec_step ok op s in
      let '(answers, s) := spec_run ops s in (a :: answers, s)
  end.

(** The order of calls the interface allows. *)
Definition allowed (op : rs_op) (s : rs_set) : bool :=
  match op with OpNext => negb (tested s) | _ => negb (reading s) end.

Definition rs_step (an : option block) (op : rs_op) (p : RowSet) : option (rs_answer * RowSet) :=
  match op with
  | OpInsert x => let? p := sqlite3RowSetInsert an x p in Some (AnsNone, p)
  | OpTest b x => let? (found, p) := sqlite3RowSetTest an b x p in Some (AnsTest found, p)
  | OpNext => let? (r, p) := sqlite3RowSetNext p in Some (AnsNext r, p)
  end.

(** The runs of the program: operations with the information whether memory was offered,
    the answers, and the state reached. *)
Inductive rs_trace (b0 : block) : list (rs_op * bool) -> list rs_answer -> RowSet -> Prop :=
| tr_init p : sqlite3RowSetInit (Some b0) = Some p -> rs_trace b0 [] [] p
| tr_step ops answers p op an a p' :
    rs_trace b0 ops answers p -> alloc_ok p an -> rs_step an op p = Some (a, p') ->
    rs_trace b0 (ops ++ [(op, bool_decide (is_Some an))]) (answers ++ [a]) p'.

(** The block of the row set is not at the null address and has room for the structure. *)
Definition block_ok (b : block) : Prop := 0 < b_addr b /\ sizeof_RowSet <= b_size b < 2 ^ 31.

(** ** Simulation *)

Record sim (home : gset Z) (n : Z) (p : RowSet) (s : rs_set) : Prop := {
  sm_lists : exists el fl, rs_inv home p el fl /\ (forall x, x ∈ newer s <-> x ∈ vals el) /\
    (forall x, x ∈ older s <-> x ∈ forest_vals fl) /\ len el <= n;
  sm_batch : batch s = iBatch p;
  sm_reading : reading s = true <-> rsFlags p = 3;
  sm_tested : tested s = false -> pForest p = NULL
}.

Lemma least_spec X :
  match least X with
  | None => X = ∅
  | Some x => x ∈ X /\ forall y, y ∈ X -> x <= y
  end.
Proof.
  unfold least.
  assert (H : forall l : list Z, match foldr (fun x r => Some (default x (Z.min x <$> r))) None l with
    | None => l = [] | Some x => x ∈ l /\ forall y, y ∈ l -> x <= y end).
  { clear. induction l as [|a l IH]; simpl; [done|].
    destruct (foldr _ None l) as [x|]; simpl.
    - destruct IH as [Hx Hmin]. split.
      + destruct (Z.min_spec a x) as [[_ ->]|[_ ->]]; set_solver.
      + intros y [->|Hy%Hmin]%elem_of_cons; lia.
    - subst l. split; [set_solver|]. intros y Hy%list_elem_of_singleton. lia. }
  specialize (H (elements X)). destruct (foldr _ None (elements X)).
  - destruct H as [H1 H2]. split; [by apply elem_of_elements|]. intros y Hy. by apply H2, elem_of_elements.
  - by apply leibniz_equiv, elements_empty_inv.
Qed.

(** What the assertions require of the state. *)
Definition guard (op : rs_op) (p : RowSet) : Prop :=
  match op with OpNext => pForest p = NULL | _ => rsFlags p <> 3 end.

Lemma guard_of home n p s op an :
  sim home n p s -> allowed op s = true \/ is_Some (rs_step an op p) -> guard op p.
Proof.
  intros [(el & fl & W & _) _ Hr Ht] H. destruct op as [x|b x|]; simpl in *.
  1,2: intros E; pose proof (proj2 Hr E) as Er; rewrite Er in H; destruct H as [[=]|[r H]];
    unfold sqlite3RowSetInsert, sqlite3RowSetTest in H; rewrite E in H; done.
  destruct H as [H%negb_true_iff|[r H]]; [by apply Ht|].
  unfold sqlite3RowSetNext in H. destruct (Z.eqb_spec (pForest p) NULL); done.
Qed.

Lemma unread_of home p el fl : rs_inv home p el fl -> rsFlags p <> 3 -> unread p.
Proof. intros [_ _ _ _ _ Hf _ _] H. unfold unread. tauto. Qed.

Lemma reading_false s (p p' : RowSet) :
  (reading s = true <-> rsFlags p = 3) -> unread p -> unread p' -> (reading s = true <-> rsFlags p' = 3).
Proof. unfold unread. intros H1 H2 H3. rewrite H1. split; intros; exfalso; lia. Qed.

(** The result of a step of the program is that of the specification. *)
Definition simulates home n op (an : option block) p s : Prop :=
  exists ok a p', (is_Some an -> ok = true) /\ rs_step an op p = Some (a, p') /\
    (spec_step ok op s).1 = a /\ sim home (n + 1) p' (spec_step ok op s).2.

Lemma sim_insert home n x an p s :
  sim home n p s -> rsFlags p <> 3 -> alloc_ok p an -> simulates home n (OpInsert x) an p s.
Proof.
  intros [(el & fl & W & Hn & Ho & Hl) Hb Hr Ht] Hg Han. pose proof (unread_of _ _ _ _ W Hg) as Hu.
  destruct (insert_spec home an x p el fl W Hu Han) as (p' & E & Hu' & Hb' & Hf' & H).
  pose proof (reading_false s p p' Hr Hu Hu') as Hr'.
  unfold simulates. simpl. rewrite E. destruct H as [[-> ->]|[e W']].
  - exists false, AnsNone, p. split_and!; [by intros [? [=]]|done..|]. simpl.
    constructor; [|done..]. exists el, fl. split_and!; [done..|lia].
  - exists true, AnsNone, p'. split_and!; [done..|]. simpl. constructor; simpl; [|congruence|done|].
    + exists (el ++ [(e, x)]), fl. split_and!; [done| |done|rewrite length_app; simpl; lia].
      intros y. rewrite fmap_app, elem_of_union, elem_of_app, Hn. csimpl. set_solver.
    + rewrite Hf'. exact Ht.
Qed.

Lemma newer_empty (X : gset Z) (l : list (Z * Z)) :
  (forall x, x ∈ X <-> x ∈ vals l) -> X = ∅ <-> l = [].
Proof.
  intros H. split.
  - intros ->. destruct l as [|[a x] l]; [done|]. exfalso. specialize (H x). csimpl in H. set_solver.
  - intros ->. set_solver.
Qed.

Lemma sim_test home n b x an p s :
  sim home n p s -> n < 2 ^ 40 -> rsFlags p <> 3 -> alloc_ok p an ->
  simulates home n (OpTest b x) an p s.
Proof.
  intros [(el & fl & W & Hn & Ho & Hl) Hb Hr Ht] Hlen Hg Han. pose proof (unread_of _ _ _ _ W Hg) as Hu.
  unfold simulates. simpl. unfold sqlite3RowSetTest.
  replace (Z.land (rsFlags p) ROWSET_NEXT <>? 0) with false by (destruct Hu as [-> | ->]; done).
  rewrite Hb. destruct (Z.eqb_spec b (iBatch p)) as [Eb|Eb].
  - unfold test_batch. rewrite Eb, Z.eqb_refl. rewrite (test_search home p el fl x W).
    exists true, (AnsTest (bool_decide (x ∈ forest_vals fl))), p. split_and!; [done..| |].
    + simpl. f_equal. by apply bool_decide_ext.
    + simpl. constructor; [|done..]. exists el, fl. split_and!; [done..|lia].
  - destruct (test_batch_spec home an b p el fl W Hu Han ltac:(lia) Eb) as (p' & fl' & -> & W' & Hu' & Hb' & H).
    rewrite (test_search home p' [] fl' x W').
    pose proof (reading_false s p p' Hr Hu Hu') as Hr'. pose proof (newer_empty _ _ Hn) as He.
    destruct H as [(-> & -> & Hf)|[Hne H]].
    + exists true. eexists _, p'. rewrite (proj2 He eq_refl). split_and!; [done..| |]; simpl.
      * f_equal. by apply bool_decide_ext.
      * constructor; simpl; [|done..|by rewrite Hf]. exists [], fl. split_and!; [done|set_solver|done|simpl; lia].
    + assert (Hn' : newer s <> ∅) by tauto.
      assert (Hs : forall X, (forall y, y ∈ X <-> y ∈ forest_vals fl') ->
        sim home (n + 1) p' (RSet ∅ X b (reading s) true)).
      { intros X HX. constructor; simpl; [|done..]. exists [], fl'. split_and!; [done|set_solver|done|simpl; lia]. }
      destruct H as [H|[-> H]].
      * assert (HX : forall y, y ∈ newer s ∪ older s <-> y ∈ forest_vals fl').
        { intros y. rewrite H, elem_of_union, Hn, Ho. tauto. }
        exists true. eexists _, p'. destruct (decide (newer s = ∅)) as [|_]; [done|].
        split_and!; [done..| |by apply Hs]. simpl. f_equal. by apply bool_decide_ext.
      * exists false. eexists _, p'. destruct (decide (newer s = ∅)) as [|_]; [done|].
        rewrite H in *. split_and!; [by intros [? [=]]|done..| |]; simpl.
        -- by f_equal.
        -- apply Hs. set_solver.
Qed.

Lemma sim_next home n an p s :
  sim home n p s -> n < 2 ^ 40 -> pForest p = NULL -> simulates home n OpNext an p s.
Proof.
  intros [(el & fl & W & Hn & Ho & Hl) Hb Hr Ht] Hlen Hg.
  apply (forest_at_null _ _ _ (ri_forest _ _ _ _ W)) in Hg as ->.
  destruct (next_spec home p el W ltac:(lia)) as (r & p' & el' & E & W' & Hb' & Hle & H).
  unfold simulates. simpl. rewrite E. exists true. eexists _, p'. split_and!; [done..| |].
  all: pose proof (least_spec (newer s)) as Hmin; destruct (least (newer s)) as [x|]; destruct r as [y|]; simpl.
  - destruct H as (H1 & _ & H2 & _), Hmin as [M1 M2]. do 2 f_equal.
    apply Hn, H2 in M1. apply Hn, M2 in H1. lia.
  - destruct H as (-> & _). destruct Hmin as [M1%Hn _]. set_solver.
  - destruct H as (H1%Hn & _). rewrite Hmin in H1. set_solver.
  - done.
  - destruct H as (H1 & H2 & H3 & H4), Hmin as [M1 M2].
    assert (x = y) as -> by (apply Hn, H3 in M1; apply Hn, M2 in H1; lia).
    assert (Hv : forall z, z ∈ newer s ∖ {[y]} <-> z ∈ vals el').
    { intros z. rewrite H2, <- Hn, elem_of_difference, not_elem_of_singleton. split; [|naive_solver lia].
      intros [Hz Hne]. split; [done|]. specialize (M2 z Hz). lia. }
    constructor; simpl; [|congruence| |].
    + exists el', []. split_and!; [done..|lia].
    + rewrite H4. pose proof (newer_empty _ _ Hv) as He. case_bool_decide; case_decide; naive_solver.
    + intros _. by apply W'.
  - destruct H as (-> & _). destruct Hmin as [M1%Hn _]. set_solver.
  - destruct H as (H1%Hn & _). rewrite Hmin in H1. set_solver.
  - destruct H as (-> & -> & H4). constructor; simpl; [|congruence|done|].
    + exists [], []. split_and!; [done..|simpl; lia].
    + intros _. by apply W'.
Qed.

Lemma sim_step home n op an p s :
  sim home n p s -> n < 2 ^ 40 -> alloc_ok p an ->
  allowed op s = true \/ is_Some (rs_step an op p) -> simulates home n op an p s.
Proof.
  intros S Hn Han Hop. pose proof (guard_of _ _ _ _ _ an S Hop) as Hg.
  destruct op; [by apply sim_insert|by apply sim_test|by apply sim_next].
Qed.

(** ** Initialisation *)

Definition empty_set : rs_set := RSet ∅ ∅ 0 false false.

(** The entries that lie in the block of the row set. *)
Definition own_entries (b : block) : gset Z :=
  list_to_set (array_addrs (b_addr b + ROUND8 sizeof_RowSet)
    (u16 ((b_size b - ROUND8 sizeof_RowSet) / sizeof_RowSetEntry))).

Lemma own_entries_bound b a : block_ok b -> a ∈ own_entries b ->
  b_addr b + sizeof_RowSet <= a /\ a + sizeof_RowSetEntry <= b_addr b + b_size b.
Proof.
  intros [Hp Hs] (i & Hi & ->)%elem_of_list_to_set%array_addrs_in.
  change (ROUND8 sizeof_RowSet) with 56 in *. unfold sizeof_RowSet, sizeof_RowSetEntry in *.
  assert (Hq : 0 <= (b_size b - 56) / 24) by (apply Z.div_pos; lia).
  pose proof (Z.mod_le ((b_size b - 56) / 24) (2 ^ 16) Hq). unfold u16 in Hi.
  pose proof (Z.mul_div_le (b_size b - 56) 24). lia.
Qed.

Lemma sim_init b p :
  block_ok b -> sqlite3RowSetInit (Some b) = Some p -> sim (own_entries b) 0 p empty_set.
Proof.
  intros Hb [= <-]. pose proof Hb as [Hp Hs].
  constructor; [|done..]. exists [], []. split_and!; [|set_solver|set_solver|done].
  constructor; try done.
  - apply array_addrs_nodup.
  - exists []. constructor; [| |done|constructor| |].
    + unfold fresh. cbn [pFresh nFresh mem]. intros a Ha. split; [|by apply array_entries_dom].
      assert (Hin : a ∈ own_entries b) by (by apply elem_of_list_to_set).
      destruct (own_entries_bound b a Hb Hin). unfold sizeof_RowSet, NULL in *. lia.
    + cbn [nFresh]. unfold u16. apply Z.mod_pos_bound. lia.
    + intros c. cbn [chunk_mem]. rewrite lookup_empty. split; [by intros [? [=]]|set_solver].
    + cbn [mem]. intros a Ha%array_entries_dom. left. by apply elem_of_list_to_set.
  - simpl. auto.
  - constructor.
Qed.

Lemma spec_run_snoc ops op ok s :
  spec_run (ops ++ [(op, ok)]) s =
  let '(answers, s1) := spec_run ops s in
  let '(a, s2) := spec_step ok op s1 in (answers ++ [a], s2).
Proof.
  revert s. induction ops as [|[op' ok'] ops IH]; intros s; simpl.
  - by destruct (spec_step ok op s).
  - destruct (spec_step ok' op' s) as [a s1]. rewrite IH. destruct (spec_run ops s1) as [as1 s2].
    by destruct (spec_step ok op s2).
Qed.

Lemma trace_sim b0 ops answers p :
  block_ok b0 -> rs_trace b0 ops answers p -> len ops <= 2 ^ 40 ->
  exists oks s, Forall2 (fun o ok => o.2 = true -> ok = true) ops oks /\
    spec_run (zip ops.*1 oks) empty_set = (answers, s) /\ sim (own_entries b0) (len ops) p s.
Proof.
  intros Hb HT. induction HT as [p Hp|ops answers p op an a p' HT IH Han Hst]; intros Hlen.
  - exists [], empty_set. split_and!; [constructor|done|]. by apply sim_init.
  - rewrite length_app in *. simpl in *. destruct IH as (oks & s & H1 & H2 & H3); [lia|].
    destruct (sim_step _ _ op an p s H3) as (ok & a' & p'' & Hok & Hst' & Ha & HS); [lia|done|eauto|].
    rewrite Hst in Hst'. simplify_eq. exists (oks ++ [ok]), (spec_step ok op s).2. split_and!.
    + apply Forall2_app; [done|]. constructor; [|constructor]. simpl. intros Hs%bool_decide_eq_true. auto.
    + rewrite fmap_app, zip_with_app by (rewrite length_fmap; by apply Forall2_length in H1).
      simpl. rewrite spec_run_snoc, H2. by destruct (spec_step ok op s).
    + by replace (Z.of_nat (length ops + 1)) with (len ops + 1) by lia.
Qed.

(** C32: any run of a row set, from its creation on, with calls in any order that its assertions
    accept and any answers of the memory allocator, behaves as its set specification: a test
    finds exactly the values of earlier batches, extraction delivers the values in
    increasing order without duplicates. A value is lost only in an operation for which
    memory ran out, and when it runs out for a new tree all values of earlier batches are
    lost. Each call the interface allows returns: no assertion fails, no pointer is followed
    outside the entries, every loop ends. In every state the destructor gives back all the
    memory. The bound keeps the 40 buckets of the sort sufficient. *)
Theorem rowset_refines_set b0 ops answers p :
  block_ok b0 -> rs_trace b0 ops answers p -> len ops < 2 ^ 40 ->
  exists oks s, Forall2 (fun o ok => o.2 = true -> ok = true) ops oks /\
    spec_run (zip ops.*1 oks) empty_set = (answers, s) /\
    (forall op an, allowed op s = true -> alloc_ok p an -> is_Some (rs_step an op p)) /\
    sqlite3RowSetDelete b0 p = Some (∅, ∅).
Proof.
  intros Hb HT Hlen. destruct (trace_sim b0 ops answers p Hb HT ltac:(lia)) as (oks & s & H1 & H2 & HS).
  exists oks, s. split_and!; [done..| |].
  - intros op an Ha Han. destruct (sim_step _ _ op an p s HS Hlen Han) as (ok & a & p' & _ & -> & _); [by left|].
    eauto.
  - destruct HS as [(el & fl & W & _) _ _ _].
    destruct (clear_spec _ _ _ _ W) as (p' & HE & _ & _ & _ & _ & Hc & Hh).
    unfold sqlite3RowSetDelete. rewrite HE, Hc. do 2 f_equal.
    apply map_eq. intros a. rewrite lookup_empty, map_lookup_filter_None. right. intros e E Hx. apply Hx.
    destruct (own_entries_bound b0 a Hb (Hh a (mk_is_Some _ _ E))).
    unfold sizeof_RowSet, sizeof_RowSetEntry in *. simpl. lia.
Qed.

(** Values 5, 3, 5 in a row set whose own block has room for two entries, and a test for 3 in
    the next batch. *)
Definition demo_block : block := Block 1000 104 (fun _ => Entry 7 8 9).
Definition demo_chunk : block := Block 5000 1016 (fun _ => Entry 7 8 9).

Lemma chunk_fresh_check p b :
  bool_decide (0 < b_addr b /\ map_Forall (fun a _ => ~ in_chunk (b_addr b) a) (mem p) /\
    chunk_mem p !! b_addr b = None) = true -> chunk_fresh p b.
Proof.
  intros (H1 & H2 & H3)%bool_decide_eq_true. constructor; [done| |].
  - intros a [e E]. exact (H2 a e E).
  - intros c Hc ->. rewrite H3 in Hc. by destruct Hc.
Qed.

Lemma rowset_refines_set_witness :
  exists p s, rs_trace demo_block
      [(OpInsert 5, true); (OpInsert 3, true); (OpInsert 5, true); (OpTest 1 3, true)]
      [AnsNone; AnsNone; AnsNone; AnsTest true] p /\ older s = {[5; 3]} /\
    (forall op an, allowed op s = true -> alloc_ok p an -> is_Some (rs_step an op p)).
Proof.
  pose proof (tr_init demo_block _ eq_refl) as T.
  eapply (tr_step _ _ _ _ (OpInsert 5) (Some demo_chunk)) in T; [|by intros b [= <-] [=]|vm_compute; reflexivity].
  eapply (tr_step _ _ _ _ (OpInsert 3) (Some demo_chunk)) in T; [|by intros b [= <-] [=]|vm_compute; reflexivity].
  eapply (tr_step _ _ _ _ (OpInsert 5) (Some demo_chunk)) in T;
    [|intros b [= <-] _; apply chunk_fresh_check; vm_compute; reflexivity|vm_compute; reflexivity].
  eapply (tr_step _ _ _ _ (OpTest 1 3) (Some demo_chunk)) in T; [|by intros b [= <-] [=]|vm_compute; reflexivity].
  assert (HB : block_ok demo_block) by (unfold block_ok; vm_compute; split_and!; done).
  destruct (rowset_refines_set demo_block _ _ _ HB T eq_refl) as (oks & s & H1 & H2 & H3 & _).
  eexists _, s. split_and!; [exact T| |exact H3].
  apply Forall2_cons_inv_l in H1 as (o1 & ? & E1 & H1 & ->). apply Forall2_cons_inv_l in H1 as (o2 & ? & E2 & H1 & ->).
  apply Forall2_cons_inv_l in H1 as (o3 & ? & E3 & H1 & ->). apply Forall2_cons_inv_l in H1 as (o4 & ? & E4 & H1 & ->).
  apply Forall2_nil_inv_l in H1 as ->. rewrite (E1 eq_refl), (E2 eq_refl), (E3 eq_refl), (E4 eq_refl) in H2.
  vm_compute in H2. injection H2 as <-. vm_compute. reflexivity.
Defined.

End RowSets.
