(* ===== verification/PrivateHeap.v ===== *)
(** * The private heap of src/sqlcipher.c

    [sqlcipher_malloc] and [sqlcipher_free] manage a fixed region obtained at start
    up ([private_heap], [private_heap_sz] bytes) as a singly linked, address-ordered
    list of blocks, each a [private_block] header followed by its payload. A request
    is served first-fit; a block is split when enough room is left; a freed block is
    overwritten with generator output and merged with free neighbours. A request the
    region cannot serve goes to [sqlite3_malloc64].

    - [heap]: the globals. The headers are a finite map from address to header, as
      the [next] pointers of the code see them; the payload bytes are the buffer
      [h_data]. [h_sys] holds the live allocations of the fallback allocator.
    - the fallback's answer to one request is the argument [fallback] ([None] for
      a null pointer): [sqlite3_malloc64] decides it, not this code.
    - [chain] relates the linked structure to the list of (size, used) pairs it
      represents; [ff_alloc] and [ff_free] are the list-level specification, and
      [malloc_loop_refines], [free_loop_refines] the refinement. *)

From stdpp Require Import gmap sorting.
From S2P Require Import Prelude CipherUtil.
Import Xoshiro.

Module PrivateHeap.

(** ** Data *)

Record private_block := PB { pb_next : Z; pb_size : Z; pb_is_used : bool }.

Definition sizeof_private_block : Z := 16.
Definition MIN_SPLIT_SIZE : Z := 32.
Definition SQLITE_MAX_LENGTH : Z := 1000000000.
Definition NULL : Z := 0.

Definition HEAP_ROUNDUP (x : Z) : Z :=
  if x mod 8 =? 0 then x else (x / 8 + 1) * 8.

Record heap := Heap {
  h_base : Z;                        (* private_heap *)
  h_sz : Z;                          (* private_heap_sz *)
  h_blocks : gmap Z private_block;
  h_data : bytes;
  h_used : Z;                        (* private_heap_used *)
  h_hwm : Z;                         (* private_heap_hwm *)
  h_alloc : Z;                       (* private_heap_alloc *)
  h_allocs : Z;                      (* private_heap_allocs *)
  h_overflow : Z;                    (* private_heap_overflow *)
  h_overflows : Z;                   (* private_heap_overflows *)
  h_rng : xoshiro;
  h_sys : gmap Z bytes
}.

Definition set_blocks m h :=
  Heap (h_base h) (h_sz h) m (h_data h) (h_used h) (h_hwm h) (h_alloc h)
       (h_allocs h) (h_overflow h) (h_overflows h) (h_rng h) (h_sys h).
Definition set_data d h :=
  Heap (h_base h) (h_sz h) (h_blocks h) d (h_used h) (h_hwm h) (h_alloc h)
       (h_allocs h) (h_overflow h) (h_overflows h) (h_rng h) (h_sys h).
Definition set_rng r h :=
  Heap (h_base h) (h_sz h) (h_blocks h) (h_data h) (h_used h) (h_hwm h) (h_alloc h)
       (h_allocs h) (h_overflow h) (h_overflows h) r (h_sys h).
Definition set_sys s h :=
  Heap (h_base h) (h_sz h) (h_blocks h) (h_data h) (h_used h) (h_hwm h) (h_alloc h)
       (h_allocs h) (h_overflow h) (h_overflows h) (h_rng h) s.
Definition set_used u h :=
  Heap (h_base h) (h_sz h) (h_blocks h) (h_data h) u (h_hwm h) (h_alloc h)
       (h_allocs h) (h_overflow h) (h_overflows h) (h_rng h) (h_sys h).

(** ** Operations *)

(** The counters after an allocation of [alloc_sz] bytes on the private heap. *)
Definition count_alloc (alloc_sz : Z) (h : heap) : heap :=
  let used := u64 (h_used h + alloc_sz) in
  Heap (h_base h) (h_sz h) (h_blocks h) (h_data h) used
       (if h_hwm h <? used then used else h_hwm h)
       (u64 (h_alloc h + alloc_sz)) (u32 (h_allocs h + 1))
       (h_overflow h) (h_overflows h) (h_rng h) (h_sys h).

(** The counters after a request that overflows to the fallback allocator. *)
Definition count_overflow (size : Z) (h : heap) : heap :=
  Heap (h_base h) (h_sz h) (h_blocks h) (h_data h) (h_used h) (h_hwm h)
       (h_alloc h) (h_allocs h) (u64 (h_overflow h + size))
       (u32 (h_overflows h + 1)) (h_rng h) (h_sys h).

(** [sqlcipher_internal_malloc]: the fallback's block, zeroed. *)
Definition sqlcipher_internal_malloc (fallback : option Z) (sz : Z) (h : heap)
  : option Z * heap :=
  match fallback with
  | Some p => (Some p, set_sys (<[p := replicate (Z.to_nat sz) 0]> (h_sys h)) h)
  | None => (None, h)
  end.

(** [sqlcipher_internal_free]: overwrite with generator output, then free. Writing
    through a null pointer, or freeing an address that is not allocated, is undefined
    behaviour ([None]). *)
Definition sqlcipher_internal_free (addr : Z) (ptr sz : Z) (h : heap) : option heap :=
  if ptr =? NULL then (if sz <=? 0 then Some h else None) else
  b ← h_sys h !! ptr;
  let '(noise, rng) := xoshiro_randomness addr (h_rng h) (i32 sz) in
  _ ← mem_write b 0 noise;
  Some (set_sys (delete ptr (h_sys h)) (set_rng rng h)).

(** The body of the search loop once a block that fits is found at [block]: mark it,
    zero the payload, split when enough is left. Returns the actual size. *)
Definition take_block (h : heap) (block : Z) (b : private_block) (size : Z)
  : option (Z * heap) :=
  let alloc := block + sizeof_private_block in
  data ← mem_set (h_data h) (alloc - h_base h) 0 size;
  let m := <[block := PB (pb_next b) (pb_size b) true]> (h_blocks h) in
  if size + sizeof_private_block + MIN_SPLIT_SIZE <=? pb_size b then
    let split := block + size + sizeof_private_block in
    let m := <[split := PB (pb_next b)
                 (u32 (pb_size b - size - sizeof_private_block)) false]> m in
    let m := <[block := PB split (u32 size) true]> m in
    Some (u32 size, set_data data (set_blocks m h))
  else Some (pb_size b, set_data data (set_blocks m h)).

Fixpoint malloc_loop (fuel : nat) (h : heap) (block size : Z)
  : option (option (Z * Z) * heap) :=
  match fuel with
  | O => None
  | S fuel' =>
      if block =? NULL then Some (None, h) else
      b ← h_blocks h !! block;
      if negb (pb_is_used b) && (size <=? pb_size b) then
        '(alloc_sz, h') ← take_block h block b size;
        Some (Some (block + sizeof_private_block, alloc_sz), h')
      else malloc_loop fuel' h (pb_next b) size
  end.

(** Blocks are at least a header apart, so this bounds the length of the list. *)
Definition heap_fuel (h : heap) : nat :=
  S (Z.to_nat (h_sz h / sizeof_private_block)).

Definition sqlcipher_malloc (fallback : option Z) (size : Z) (h : heap)
  : option (option Z * heap) :=
  if (size <? 1) || (SQLITE_MAX_LENGTH <? size) then Some (None, h) else
  let size := HEAP_ROUNDUP size in
  '(r, h') ← malloc_loop (heap_fuel h) h (h_base h) size;
  match r with
  | None => Some (sqlcipher_internal_malloc fallback size (count_overflow size h'))
  | Some (alloc, alloc_sz) => Some (Some alloc, count_alloc alloc_sz h')
  end.

(** [prev->size += ...; prev->next = block->next; block = prev] when the previous
    block is free. *)
Definition merge_with_prev (m : gmap Z private_block) (block prev : Z)
  (b : private_block) : option (gmap Z private_block * Z) :=
  if prev =? NULL then Some (m, block) else
  p ← m !! prev;
  if pb_is_used p then Some (m, block) else
  Some (<[prev := PB (pb_next b)
            (u32 (pb_size p + sizeof_private_block + pb_size b)) false]> m, prev).

(** [block->size += ...; block->next = block->next->next] when the next block is
    free. *)
Definition merge_with_next (m : gmap Z private_block) (block : Z)
  : option (gmap Z private_block) :=
  c ← m !! block;
  if pb_next c =? NULL then Some m else
  n ← m !! pb_next c;
  if pb_is_used n then Some m else
  Some (<[block := PB (pb_next n)
            (u32 (pb_size c + sizeof_private_block + pb_size n)) (pb_is_used c)]> m).

(** Mark the block at [block] free, overwrite its payload, merge with a free
    predecessor, then with a free successor; returns the size it had. *)
Definition release_block (addr : Z) (h : heap) (block prev : Z) (b : private_block)
  : option (Z * heap) :=
  let alloc := block + sizeof_private_block in
  let block_size := pb_size b in
  let '(noise, rng) := xoshiro_randomness addr (h_rng h) (i32 (pb_size b)) in
  data ← mem_write (h_data h) (alloc - h_base h) noise;
  let m := <[block := PB (pb_next b) (pb_size b) false]> (h_blocks h) in
  '(m, block) ← merge_with_prev m block prev b;
  m ← merge_with_next m block;
  Some (block_size, set_data data (set_rng rng (set_blocks m h))).

Fixpoint free_loop (fuel : nat) (addr : Z) (h : heap) (block prev mem : Z)
  : option (option Z * heap) :=
  match fuel with
  | O => None
  | S fuel' =>
      if block =? NULL then Some (None, h) else
      b ← h_blocks h !! block;
      if mem =? block + sizeof_private_block then
        '(block_size, h') ← release_block addr h block prev b;
        Some (Some block_size, h')
      else free_loop fuel' addr h (pb_next b) block mem
  end.

Definition sqlcipher_free (addr : Z) (mem sz : Z) (h : heap) : option heap :=
  '(r, h') ← free_loop (heap_fuel h) addr h (h_base h) NULL mem;
  match r with
  | None => sqlcipher_internal_free addr mem sz h'
  | Some block_size => Some (set_used (u64 (h_used h' - block_size)) h')
  end.

(** The initialisation of the heap in [sqlcipher_extra_init], once the fallback
    allocator has returned a region of [sz] bytes at [base]. *)
Definition heap_init (addr : Z) (base sz : Z) (rng : xoshiro) (sys : gmap Z bytes) : heap :=
  let '(noise, rng) := xoshiro_randomness addr rng (i32 sz) in
  Heap base sz {[base := PB NULL (u32 (u32 sz - sizeof_private_block)) false]} noise
       0 0 0 0 0 0 rng sys.

(** ** The represented list of blocks *)

(** [chain m p l a fin]: from pointer [p], at address [a], the headers of [m] link
    blocks of the sizes and states in [l], one right after the other, up to [fin]. *)
Fixpoint chain (m : gmap Z private_block) (p : Z) (l : list (Z * bool)) (a fin : Z)
  : Prop :=
  match l with
  | [] => p = NULL /\ a = fin
  | (sz, u) :: l' =>
      p = a /\ exists nxt, m !! a = Some (PB nxt sz u) /\
      chain m nxt l' (a + sizeof_private_block + sz) fin
  end.

(** First fit on the list. *)
Fixpoint ff_alloc (size : Z) (l : list (Z * bool)) (a : Z)
  : option (Z * Z * list (Z * bool)) :=
  match l with
  | [] => None
  | (sz, u) :: l' =>
      if negb u && (size <=? sz) then
        if size + sizeof_private_block + MIN_SPLIT_SIZE <=? sz
        then Some (a + sizeof_private_block, size,
                   (size, true) :: (sz - size - sizeof_private_block, false) :: l')
        else Some (a + sizeof_private_block, sz, (sz, true) :: l')
      else
        '(p, n, l'') ← ff_alloc size l' (a + sizeof_private_block + sz);
        Some (p, n, (sz, u) :: l'')
  end.

(** A free block of size [s] in front of [l], merged with a free first block. *)
Definition merge_next (s : Z) (l : list (Z * bool)) : list (Z * bool) :=
  match l with
  | (s2, false) :: l' => (s + sizeof_private_block + s2, false) :: l'
  | _ => (s, false) :: l
  end.

(** A free predecessor absorbs a free block that was just released behind it. *)
Definition merge_prev (s : Z) (u : bool) (l : list (Z * bool)) : list (Z * bool) :=
  if u then (s, u) :: l else merge_next s l.

(** Release the block whose payload is at [p]. *)
Fixpoint ff_free (p : Z) (l : list (Z * bool)) (a : Z) : option (Z * list (Z * bool)) :=
  match l with
  | [] => None
  | (sz, u) :: l' =>
      if p =? a + sizeof_private_block then Some (sz, merge_next sz l')
      else
        '(n, l'') ← ff_free p l' (a + sizeof_private_block + sz);
        Some (n, if p =? a + sizeof_private_block + sz + sizeof_private_block
                 then merge_prev sz u l'' else (sz, u) :: l'')
  end.

(** The live payloads of a list of blocks starting at [a]: address and size. *)
Fixpoint live_of (l : list (Z * bool)) (a : Z) : list (Z * Z) :=
  match l with
  | [] => []
  | (sz, u) :: l' =>
      (if u then [(a + sizeof_private_block, sz)] else []) ++
      live_of l' (a + sizeof_private_block + sz)
  end.

Definition used_total (l : list (Z * bool)) : Z :=
  foldr (fun (b : Z * bool) acc => (if b.2 then b.1 else 0) + acc) 0 l.

(** No two adjacent blocks are both free. *)
Fixpoint coalesced (l : list (Z * bool)) : Prop :=
  match l with
  | (_, u1) :: l' =>
      match l' with
      | (_, u2) :: _ => (u1 = true \/ u2 = true) /\ coalesced l'
      | [] => True
      end
  | [] => True
  end.

(** The invariant of the heap, with the list of blocks it represents. *)
Record heap_wf (h : heap) (l : list (Z * bool)) : Prop := {
  wf_base : 0 < h_base h;
  wf_sz : 0 <= h_sz h < 2 ^ 31;
  wf_chain : chain (h_blocks h) (h_base h) l (h_base h) (h_base h + h_sz h);
  wf_sizes : Forall (fun b : Z * bool => 0 < b.1) l;
  wf_coalesced : coalesced l;
  wf_data : len (h_data h) = h_sz h;
  wf_used : h_used h = used_total l;
  wf_hwm : h_used h <= h_hwm h
}.

(** ** Lemmas on chains *)

Ltac usz := unfold sizeof_private_block, MIN_SPLIT_SIZE, NULL in *.

Abbreviation sizes_pos := (Forall (fun b : Z * bool => 0 < b.1)).

Lemma chain_ptr m p l a fin :
  chain m p l a fin -> p = match l with [] => NULL | _ => a end.
Proof. destruct l as [|[sz u] l]; simpl; tauto. Qed.

Lemma chain_bound m p l a fin :
  sizes_pos l -> chain m p l a fin ->
  a + sizeof_private_block * Z.of_nat (length l) <= fin.
Proof.
  revert p a. induction l as [|[sz u] l IH]; intros p a Hs; simpl.
  - intros [_ ->]. lia.
  - intros (_ & nxt & _ & Hc). inversion Hs as [|? ? Hp Hs']; subst.
    apply IH in Hc; [|done]. unfold sizeof_private_block in *. simpl in *. lia.
Qed.

(** Only the headers at and above [a] matter. *)
Lemma chain_frame m m' p l a fin :
  sizes_pos l -> (forall k, a <= k -> m' !! k = m !! k) ->
  chain m p l a fin -> chain m' p l a fin.
Proof.
  revert p a. induction l as [|[sz u] l IH]; intros p a Hs Hm; simpl; [done|].
  intros (-> & nxt & E & Hc). inversion Hs as [|? ? Hp Hs']; subst. simpl in Hp.
  split; [done|]. exists nxt. rewrite Hm by lia. split; [done|].
  apply IH; [done| |done]. intros k Hk. apply Hm.
  unfold sizeof_private_block in Hk. lia.
Qed.

Lemma take_block_chain h b size l a fin :
  0 <= size <= pb_size b -> h_base h <= a ->
  fin <= h_base h + len (h_data h) -> pb_size b < 2 ^ 32 ->
  sizes_pos l -> 0 < a ->
  chain (h_blocks h) (pb_next b) l (a + sizeof_private_block + pb_size b) fin ->
  exists n l' m' data',
    ff_alloc size ((pb_size b, false) :: l) a = Some (a + sizeof_private_block, n, l') /\
    take_block h a b size = Some (n, set_data data' (set_blocks m' h)) /\
    chain m' a l' a fin /\ (forall k, k < a -> m' !! k = h_blocks h !! k) /\
    mem_set (h_data h) (a + sizeof_private_block - h_base h) 0 size = Some data'.
Proof.
  intros Hsz Hb Hfin Hu Hs Ha Hc.
  pose proof (chain_bound _ _ _ _ _ Hs Hc) as Hbd.
  unfold take_block. cbn [ff_alloc]. usz.
  destruct (Z.leb_spec size (pb_size b)); [|lia]. cbn [negb andb].
  unfold mem_set. destruct (Z.leb_spec 0 size); [|lia].
  rewrite mem_write_total by (rewrite ?length_replicate; lia). cbn [mbind option_bind].
  destruct (Z.leb_spec (size + 16 + 32) (pb_size b)) as [Hsp|Hsp];
    rewrite ?u32_small by lia; do 4 eexists; (split_and!; [reflexivity..| | |reflexivity]).
  - simpl. split; [done|]. eexists. split; [apply lookup_insert_eq|]. usz.
    split; [lia|]. eexists. split.
    { rewrite lookup_insert_ne by lia.
      replace (a + 16 + size) with (a + size + 16) by lia. apply lookup_insert_eq. }
    replace (a + 16 + size + 16 + (pb_size b - size - 16))
      with (a + 16 + pb_size b) by lia.
    eapply chain_frame; [done| |exact Hc].
    intros k Hk. rewrite !lookup_insert_ne by lia. done.
  - intros k Hk. rewrite !lookup_insert_ne by lia. done.
  - simpl. split; [done|]. eexists. split; [apply lookup_insert_eq|].
    usz. eapply chain_frame; [done| |exact Hc].
    intros k Hk. rewrite !lookup_insert_ne by lia. done.
  - intros k Hk. rewrite !lookup_insert_ne by lia. done.
Qed.

(** The search loop computes first fit on the represented list. *)
Lemma malloc_loop_refines fuel h p l a fin size :
  (length l < fuel)%nat -> 0 <= size -> 0 < h_base h <= a ->
  fin <= h_base h + len (h_data h) -> fin - a < 2 ^ 32 ->
  sizes_pos l -> chain (h_blocks h) p l a fin ->
  match ff_alloc size l a with
  | None => malloc_loop fuel h p size = Some (None, h)
  | Some (q, n, l') => exists m' data',
      malloc_loop fuel h p size = Some (Some (q, n), set_data data' (set_blocks m' h)) /\
      chain m' p l' a fin /\ (forall k, k < a -> m' !! k = h_blocks h !! k) /\
      mem_set (h_data h) (q - h_base h) 0 size = Some data'
  end.
Proof.
  intros Hfuel Hsize. revert p l a Hfuel.
  induction fuel as [|fuel IH]; intros p l a Hfuel Ha Hfin Hlt Hs Hc; [lia|].
  destruct l as [|[sz u] l].
  - destruct Hc as [-> _]. done.
  - destruct Hc as (-> & nxt & E & Hc). inversion Hs as [|? ? Hp Hs']; subst. simpl in Hp.
    pose proof (chain_bound _ _ _ _ _ Hs' Hc) as Hbd.
    unfold sizeof_private_block in Hbd.
    simpl malloc_loop. destruct (Z.eqb_spec a NULL); [unfold NULL in *; lia|].
    rewrite E. cbn [mbind option_bind pb_is_used pb_size pb_next].
    destruct (negb u && (size <=? sz)) eqn:Hfit.
    + bool_to_prop. subst u.
      edestruct (take_block_chain h (PB nxt sz false) size l a fin)
        as (n' & l' & m' & data' & E1 & E2 & E3 & E4 & E5); [simpl; done || lia..|].
      cbn [pb_size] in E1. rewrite E1, E2. simpl. eauto 10.
    + cbn [ff_alloc]. rewrite Hfit.
      specialize (IH nxt l (a + sizeof_private_block + sz)).
      destruct (ff_alloc size l (a + sizeof_private_block + sz)) as [[[q n'] l']|].
      * destruct IH as (m' & data' & E1 & E2 & E3 & E4);
          [simpl in *; unfold sizeof_private_block; done || lia..|].
        cbn [mbind option_bind]. exists m', data'. split_and!; try done.
        -- simpl. split; [done|]. exists nxt. split; [|done].
           rewrite E3 by (unfold sizeof_private_block; lia). done.
        -- intros k Hk. apply E3. unfold sizeof_private_block. lia.
      * cbn [mbind option_bind].
        apply IH; simpl in *; unfold sizeof_private_block; done || lia.
Qed.

Lemma merge_with_next_chain m s l a fin :
  0 < a -> 0 < s -> fin - a < 2 ^ 32 -> sizes_pos l ->
  chain m a ((s, false) :: l) a fin ->
  exists m', merge_with_next m a = Some m' /\
    chain m' a (merge_next s l) a fin /\ (forall k, k <> a -> m' !! k = m !! k).
Proof.
  intros Ha Hs Hlt Hl (_ & nxt & E & Hc). unfold merge_with_next.
  rewrite E. cbn [mbind option_bind pb_next pb_size pb_is_used]. usz.
  pose proof (chain_ptr _ _ _ _ _ Hc) as ->.
  destruct l as [|[s2 u2] l].
  { exists m. split_and!; try done. simpl. eauto. }
  destruct (Z.eqb_spec (a + 16 + s) 0); [lia|].
  destruct Hc as (_ & nxt2 & E2 & Hc). inversion Hl as [|? ? Hp Hl']; subst. simpl in Hp.
  rewrite E2. cbn [mbind option_bind pb_next pb_size pb_is_used].
  destruct u2.
  - exists m. split_and!; [done| |done]. simpl. split; [done|]. eexists. split; [done|].
    usz. split; [done|]. eauto.
  - pose proof (chain_bound _ _ _ _ _ Hl' Hc). usz.
    rewrite u32_small by lia. eexists. split_and!; [done| |].
    + simpl. usz. split; [done|]. eexists. split; [apply lookup_insert_eq|].
      replace (a + 16 + (s + 16 + s2)) with (a + 16 + s + 16 + s2) by lia.
      eapply chain_frame; [done| |exact Hc].
      intros k Hk. rewrite lookup_insert_ne by lia. done.
    + intros k Hk. by rewrite lookup_insert_ne.
Qed.

(** What releasing the block at [a] of size [sz] does to the payload bytes. *)
Definition scrubbed (addr : Z) (h : heap) (a sz : Z) (data' : bytes) (rng' : xoshiro)
  : Prop :=
  exists noise, xoshiro_randomness addr (h_rng h) sz = (noise, rng') /\
    mem_write (h_data h) (a + sizeof_private_block - h_base h) noise = Some data'.

Lemma scrub_total addr h a sz :
  0 <= sz < 2 ^ 31 -> 0 <= a + sizeof_private_block - h_base h ->
  a + sizeof_private_block - h_base h + sz <= len (h_data h) ->
  exists noise rng' data',
    xoshiro_randomness addr (h_rng h) (i32 sz) = (noise, rng') /\
    mem_write (h_data h) (a + sizeof_private_block - h_base h) noise = Some data' /\
    scrubbed addr h a sz data' rng'.
Proof.
  intros Hsz Hlo Hhi. rewrite i32_small by lia.
  pose proof (xoshiro_randomness_length addr (h_rng h) sz ltac:(lia)) as Hn.
  destruct (xoshiro_randomness addr (h_rng h) sz) as [noise rng'] eqn:E. simpl in Hn.
  eexists _, _, _. split_and!; [done| |].
  - apply mem_write_total; lia.
  - exists noise. split; [done|]. apply mem_write_total; lia.
Qed.

Lemma release_head addr h sz u nxt l a fin :
  0 < h_base h <= a -> fin <= h_base h + len (h_data h) -> fin - a < 2 ^ 31 ->
  sizes_pos ((sz, u) :: l) ->
  h_blocks h !! a = Some (PB nxt sz u) ->
  chain (h_blocks h) nxt l (a + sizeof_private_block + sz) fin ->
  exists m' data' rng',
    release_block addr h a NULL (PB nxt sz u) =
      Some (sz, set_data data' (set_rng rng' (set_blocks m' h))) /\
    chain m' a (merge_next sz l) a fin /\
    (forall k, k < a -> m' !! k = h_blocks h !! k) /\ scrubbed addr h a sz data' rng'.
Proof.
  intros Ha Hfin Hlt Hs E Hc. inversion Hs as [|? ? Hp Hl]; subst. simpl in Hp.
  pose proof (chain_bound _ _ _ _ _ Hl Hc).
  destruct (scrub_total addr h a sz) as (noise & rng' & data' & E1 & E2 & E3);
    [usz; lia..|].
  edestruct (merge_with_next_chain (<[a := PB nxt sz false]> (h_blocks h)) sz l a fin)
    as (m' & E4 & E5 & E6); [lia..|done| |].
  { split; [done|]. exists nxt. split; [apply lookup_insert_eq|].
    eapply chain_frame; [done| |exact Hc]. intros k Hk.
    rewrite lookup_insert_ne; [done|usz; lia]. }
  exists m', data', rng'. split_and!; [|done| |done].
  - unfold release_block, merge_with_prev. cbn [pb_size pb_next]. rewrite E1, E2.
    cbn [mbind option_bind]. rewrite Z.eqb_refl. cbn [mbind option_bind].
    rewrite E4. done.
  - intros k Hk. rewrite E6 by lia. rewrite lookup_insert_ne by lia. done.
Qed.

Lemma merge_prev_assoc psz sz l :
  merge_next (psz + sizeof_private_block + sz) l =
  merge_prev psz false (merge_next sz l).
Proof.
  usz. destruct l as [|[s2 []] l]; simpl; usz; [done..|].
  do 2 f_equal. lia.
Qed.

Lemma release_with_prev addr h psz pu sz u nxt l pv a fin :
  0 < h_base h <= pv -> a = pv + sizeof_private_block + psz ->
  fin <= h_base h + len (h_data h) -> fin - pv < 2 ^ 31 ->
  sizes_pos ((psz, pu) :: (sz, u) :: l) ->
  h_blocks h !! pv = Some (PB a psz pu) ->
  h_blocks h !! a = Some (PB nxt sz u) ->
  chain (h_blocks h) nxt l (a + sizeof_private_block + sz) fin ->
  exists m' data' rng',
    release_block addr h a pv (PB nxt sz u) =
      Some (sz, set_data data' (set_rng rng' (set_blocks m' h))) /\
    chain m' pv (merge_prev psz pu (merge_next sz l)) pv fin /\
    (forall k, k < pv -> m' !! k = h_blocks h !! k) /\ scrubbed addr h a sz data' rng'.
Proof.
  intros Hb Ha Hfin Hlt Hs Ep E Hc.
  inversion Hs as [|? ? Hpp Hs']; subst. inversion Hs' as [|? ? Hp Hl]; subst.
  simpl in Hpp, Hp. set (a := pv + sizeof_private_block + psz) in *.
  assert (Haq : a = pv + 16 + psz) by done.
  pose proof (chain_bound _ _ _ _ _ Hl Hc) as Hbd.
  destruct (scrub_total addr h a sz) as (noise & rng' & data' & E1 & E2 & E3);
    [usz; lia..|].
  set (m0 := <[a := PB nxt sz false]> (h_blocks h)).
  assert (Hm0 : m0 !! pv = Some (PB a psz pu))
    by (unfold m0; rewrite lookup_insert_ne; [done|lia]).
  assert (Hc0 : chain m0 nxt l (a + sizeof_private_block + sz) fin).
  { eapply chain_frame; [done| |exact Hc]. intros k Hk. unfold m0.
    rewrite lookup_insert_ne; [done|usz; lia]. }
  unfold release_block, merge_with_prev. cbn [pb_size pb_next].
  fold m0. rewrite E1, E2. cbn [mbind option_bind].
  destruct (Z.eqb_spec pv NULL); [usz; lia|].
  rewrite Hm0. cbn [mbind option_bind pb_is_used pb_size].
  destruct pu; cbn [mbind option_bind].
  - edestruct (merge_with_next_chain m0 sz l a fin) as (m' & E4 & E5 & E6);
      [usz; lia..|done| |].
    { split; [done|]. exists nxt. split; [apply lookup_insert_eq|done]. }
    rewrite E4. exists m', data', rng'. split_and!; [done| | |done].
    + unfold merge_prev. split; [done|]. exists a. rewrite E6 by lia. split; done.
    + intros k Hk. rewrite E6 by lia. unfold m0. rewrite lookup_insert_ne by lia. done.
  - usz. rewrite u32_small by lia.
    set (m1 := <[pv := PB nxt (psz + 16 + sz) false]> m0).
    edestruct (merge_with_next_chain m1 (psz + 16 + sz) l pv fin) as (m' & E4 & E5 & E6);
      [lia..|done| |].
    { split; [done|]. exists nxt. split; [apply lookup_insert_eq|].
      usz. replace (pv + 16 + (psz + 16 + sz)) with (a + 16 + sz) by lia.
      eapply chain_frame; [done| |exact Hc0]. intros k Hk. unfold m1.
      rewrite lookup_insert_ne; [done|lia]. }
    rewrite E4. exists m', data', rng'. split_and!; [done| | |done].
    + rewrite <- merge_prev_assoc. done.
    + intros k Hk. rewrite E6 by lia. unfold m1, m0. rewrite !lookup_insert_ne by lia. done.
Qed.

(** The search of [sqlcipher_free] past a block [(psz, pu)] at [pv]. *)
Lemma free_loop_prev fuel addr h psz pu l pv nxt mem fin :
  (length l < fuel)%nat -> 0 < h_base h <= pv ->
  fin <= h_base h + len (h_data h) -> fin - pv < 2 ^ 31 ->
  sizes_pos ((psz, pu) :: l) ->
  h_blocks h !! pv = Some (PB nxt psz pu) ->
  chain (h_blocks h) nxt l (pv + sizeof_private_block + psz) fin ->
  let a := pv + sizeof_private_block + psz in
  match ff_free mem l a with
  | None => free_loop fuel addr h nxt pv mem = Some (None, h)
  | Some (n, l') => exists m' data' rng',
      free_loop fuel addr h nxt pv mem =
        Some (Some n, set_data data' (set_rng rng' (set_blocks m' h))) /\
      chain m' pv (if mem =? a + sizeof_private_block
                   then merge_prev psz pu l' else (psz, pu) :: l') pv fin /\
      (forall k, k < pv -> m' !! k = h_blocks h !! k) /\
      scrubbed addr h (mem - sizeof_private_block) n data' rng'
  end.
Proof.
  intros Hfuel. revert psz pu l pv nxt Hfuel.
  induction fuel as [|fuel IH]; intros psz pu l pv nxt Hfuel Hb Hfin Hlt Hs Ep Hc a; [lia|].
  inversion Hs as [|? ? Hpp Hs']; subst. simpl in Hpp.
  destruct l as [|[sz u] l]; [destruct Hc as [-> _]; done|].
  destruct Hc as (-> & nxt2 & E & Hc). fold a in E, Hc |- *.
  inversion Hs' as [|? ? Hp Hl]; subst. simpl in Hp.
  pose proof (chain_bound _ _ _ _ _ Hl Hc) as Hbd.
  assert (Ha : a = pv + 16 + psz) by done.
  cbn [free_loop ff_free]. destruct (Z.eqb_spec a NULL); [usz; lia|].
  rewrite E. cbn [mbind option_bind pb_next].
  destruct (Z.eqb_spec mem (a + sizeof_private_block)) as [->|Hne].
  - edestruct (release_with_prev addr h psz pu sz u nxt2 l pv a fin)
      as (m' & data' & rng' & E1 & E2 & E3 & E4); [done || (usz; lia)..|].
    rewrite E1. simpl. exists m', data', rng'. split_and!; try done.
    by replace (a + sizeof_private_block - sizeof_private_block) with a by lia.
  - specialize (IH sz u l a nxt2). cbv zeta in IH.
    destruct (ff_free mem l (a + sizeof_private_block + sz)) as [[n' l']|];
      cbn [mbind option_bind].
    + destruct IH as (m' & data' & rng' & E1 & E2 & E3 & E4);
        [simpl in *; done || (usz; lia)..|].
      exists m', data', rng'. split_and!; try done.
      * split; [done|]. exists a. rewrite E3 by lia. split; [done|].
        destruct (mem =? a + sizeof_private_block + sz + sizeof_private_block); done.
      * intros k Hk. apply E3. lia.
    + apply IH; simpl in *; done || (usz; lia).
Qed.

Lemma free_loop_refines fuel addr h l mem :
  (length l < fuel)%nat -> heap_wf h l ->
  match ff_free mem l (h_base h) with
  | None => free_loop fuel addr h (h_base h) NULL mem = Some (None, h)
  | Some (n, l') => exists m' data' rng',
      free_loop fuel addr h (h_base h) NULL mem =
        Some (Some n, set_data data' (set_rng rng' (set_blocks m' h))) /\
      chain m' (h_base h) l' (h_base h) (h_base h + h_sz h) /\
      scrubbed addr h (mem - sizeof_private_block) n data' rng'
  end.
Proof.
  intros Hfuel [Hb Hsz Hc Hs _ Hd _ _]. destruct fuel as [|fuel]; [lia|].
  destruct l as [|[sz u] l].
  { destruct Hc as [E _]. usz. lia. }
  destruct Hc as (_ & nxt & E & Hc). cbn [free_loop ff_free].
  inversion Hs as [|? ? Hp Hl]; subst. simpl in Hp.
  destruct (Z.eqb_spec (h_base h) NULL); [usz; lia|].
  rewrite E. cbn [mbind option_bind pb_next].
  destruct (Z.eqb_spec mem (h_base h + sizeof_private_block)) as [->|Hne].
  - edestruct (release_head addr h sz u nxt l (h_base h) (h_base h + h_sz h))
      as (m' & data' & rng' & E1 & E2 & E3 & E4); [done || lia..|].
    rewrite E1. simpl. exists m', data', rng'. split_and!; try done.
    by replace (h_base h + sizeof_private_block - sizeof_private_block)
      with (h_base h) by lia.
  - pose proof (free_loop_prev fuel addr h sz u l (h_base h) nxt mem (h_base h + h_sz h)
      ltac:(simpl in *; lia) ltac:(lia) ltac:(lia) ltac:(lia) Hs E Hc) as H.
    cbv zeta in H.
    destruct (ff_free mem l (h_base h + sizeof_private_block + sz)) as [[n' l']|];
      cbn [mbind option_bind]; [|done].
    destruct H as (m' & data' & rng' & E1 & E2 & _ & E4).
    exists m', data', rng'. done.
Qed.

Lemma heap_fuel_enough h l : heap_wf h l -> (length l < heap_fuel h)%nat.
Proof.
  intros [Hb Hsz Hc Hs _ _ _ _]. pose proof (chain_bound _ _ _ _ _ Hs Hc) as H.
  unfold heap_fuel. usz.
  assert (Z.of_nat (length l) <= h_sz h / 16) by (apply Z.div_le_lower_bound; lia).
  lia.
Qed.

(** ** First fit and release on lists *)

(** Everything before the end of the first payload is before the second one. *)
Definition before (r1 r2 : Z * Z) : Prop := r1.1 + r1.2 <= r2.1.

Lemma live_of_ge l a r :
  sizes_pos l -> r ∈ live_of l a -> a + sizeof_private_block <= r.1 /\ 0 < r.2.
Proof.
  revert a. induction l as [|[sz u] l IH]; intros a Hs; simpl; [set_solver|].
  inversion Hs as [|? ? Hp Hl]; subst. simpl in Hp. intros Hr.
  apply elem_of_app in Hr as [Hr|Hr].
  - destruct u; [|set_solver]. apply list_elem_of_singleton in Hr as ->. simpl. lia.
  - specialize (IH _ Hl Hr). usz. lia.
Qed.

(** Live payloads do not overlap: they are ordered by address. *)
Lemma live_of_sorted l a : sizes_pos l -> StronglySorted before (live_of l a).
Proof.
  revert a. induction l as [|[sz u] l IH]; intros a Hs; simpl; [constructor|].
  inversion Hs as [|? ? Hp Hl]; subst. simpl in Hp.
  destruct u; simpl; [|by apply IH]. constructor; [by apply IH|].
  apply List.Forall_forall. intros r Hr%list_elem_of_In. unfold before. simpl.
  pose proof (live_of_ge _ _ _ Hl Hr). usz. lia.
Qed.

Lemma live_of_below m p l a fin r :
  sizes_pos l -> chain m p l a fin -> r ∈ live_of l a -> r.1 + r.2 <= fin.
Proof.
  revert p a. induction l as [|[sz u] l IH]; intros p a Hs; simpl; [set_solver|].
  inversion Hs as [|? ? Hp Hl]; subst. simpl in Hp. intros (-> & nxt & E & Hc) Hr.
  apply elem_of_app in Hr as [Hr|Hr]; [|by eapply IH].
  destruct u; [|set_solver]. apply list_elem_of_singleton in Hr as ->. simpl.
  pose proof (chain_bound _ _ _ _ _ Hl Hc). usz. lia.
Qed.

Lemma used_total_nonneg l : sizes_pos l -> 0 <= used_total l.
Proof.
  induction 1 as [|[sz u] l Hp Hl IH]; simpl; [lia|]. simpl in Hp. destruct u; lia.
Qed.

Lemma used_total_bound m p l a fin :
  sizes_pos l -> chain m p l a fin -> a + used_total l <= fin.
Proof.
  revert p a. induction l as [|[sz u] l IH]; intros p a Hs; simpl; [lia|].
  inversion Hs as [|? ? Hp Hl]; subst. simpl in Hp. intros (_ & nxt & _ & Hc).
  specialize (IH _ _ Hl Hc). usz. destruct u; lia.
Qed.

(** What first fit does to the list. *)
Lemma ff_alloc_spec size l a p n l' :
  0 < size -> sizes_pos l -> coalesced l -> ff_alloc size l a = Some (p, n, l') ->
  size <= n /\ sizes_pos l' /\ coalesced l' /\
  used_total l' = used_total l + n /\ live_of l' a ≡ₚ (p, n) :: live_of l a.
Proof.
  intros Hsize. revert a p n l'. induction l as [|[sz u] l IH]; intros a p n l' Hs Hco;
    cbn [ff_alloc]; [done|].
  inversion Hs as [|? ? Hp Hl]; subst. simpl in Hp.
  destruct (negb u && (size <=? sz)) eqn:Hfit.
  - bool_to_prop. subst u.
    destruct (Z.leb_spec (size + sizeof_private_block + MIN_SPLIT_SIZE) sz); usz.
    + intros [= <- <- <-]. split_and!; [lia|repeat constructor; simpl; lia || done| | |].
      * destruct l as [|[s2 u2] l]; [simpl; tauto|].
        simpl in Hco. destruct Hco as [[? | ->] Hco]; [done|]. simpl. tauto.
      * simpl. lia.
      * simpl. usz.
        replace (a + 16 + size + 16 + (sz - size - 16)) with (a + 16 + sz) by lia. done.
    + intros [= <- <- <-]. split_and!; [lia|by constructor| | |].
      * destruct l as [|[s2 u2] l]; simpl in *; tauto.
      * simpl. lia.
      * simpl. usz. done.
  - intros E. inv_bind E. destruct x as [[p' n'] l'']. simplify_eq.
    assert (Hco' : coalesced l) by (destruct l as [|[]]; simpl in *; tauto).
    destruct (IH _ _ _ _ Hl Hco' E0) as (H1 & H2 & H3 & H4 & H5).
    split_and!; [done|by constructor| | |].
    + (* the head of the tail is unchanged, or was free and is now used *)
      destruct l as [|[s2 u2] l]; cbn [ff_alloc] in E0; [done|].
      simpl in Hco. destruct Hco as [Hor _].
      destruct (negb u2 && (size <=? s2)).
      * case_match; simplify_eq; simpl in *; tauto.
      * inv_bind E0. destruct x as [[? ?] ?]. simplify_eq. simpl in *. tauto.
    + simpl. lia.
    + simpl. rewrite H5. destruct u; [|done]. simpl. by rewrite Permutation_swap.
Qed.

Lemma live_of_merge_next s l a :
  live_of (merge_next s l) a = live_of l (a + sizeof_private_block + s).
Proof.
  destruct l as [|[s2 []] l]; simpl; [done..|]. usz. f_equal. lia.
Qed.

Lemma live_of_merge_prev s u l a :
  live_of (merge_prev s u l) a = live_of ((s, u) :: l) a.
Proof. destruct u; simpl; [done|]. apply live_of_merge_next. Qed.

Lemma used_total_merge_next s l : used_total (merge_next s l) = used_total l.
Proof. destruct l as [|[s2 []] l]; done. Qed.

Lemma used_total_merge_prev s u l :
  used_total (merge_prev s u l) = used_total ((s, u) :: l).
Proof. destruct u; simpl; [done|]. by rewrite used_total_merge_next. Qed.

Lemma sizes_merge_next s l : 0 < s -> sizes_pos l -> sizes_pos (merge_next s l).
Proof.
  intros Hs Hl. destruct l as [|[s2 []] l]; simpl; inversion Hl; subst;
    repeat constructor; simpl in *; usz; lia || done.
Qed.

Lemma sizes_merge_prev s u l : 0 < s -> sizes_pos l -> sizes_pos (merge_prev s u l).
Proof. destruct u; simpl; [by constructor|apply sizes_merge_next]. Qed.

Lemma coalesced_tail b l : coalesced (b :: l) -> coalesced l.
Proof. destruct b, l as [|[]]; simpl; tauto. Qed.

Lemma coalesced_merge_next s l : coalesced l -> coalesced (merge_next s l).
Proof.
  destruct l as [|[s2 []] [|[s3 u3] l]]; simpl; try tauto.
Qed.

Lemma coalesced_merge_prev s u l : coalesced l -> coalesced (merge_prev s u l).
Proof.
  destruct u; [|apply coalesced_merge_next]. destruct l as [|[]]; simpl; tauto.
Qed.

(** Releasing a later block does not change the state of the first one. *)
Lemma ff_free_head p sz u l a n l' :
  ff_free p ((sz, u) :: l) a = Some (n, l') -> p <> a + sizeof_private_block ->
  exists sz' l2, l' = (sz', u) :: l2.
Proof.
  cbn [ff_free]. intros E Hne. destruct (Z.eqb_spec p (a + sizeof_private_block)); [done|].
  inv_bind E. destruct x as [n' l'']. simplify_eq. case_match; [|eauto].
  destruct u; simpl; [eauto|]. destruct l'' as [|[s2 []]]; simpl; eauto.
Qed.

(** What releasing a live block does to the list. *)
Lemma ff_free_spec p n l a :
  sizes_pos l -> coalesced l -> (p, n) ∈ live_of l a ->
  exists l', ff_free p l a = Some (n, l') /\ sizes_pos l' /\ coalesced l' /\
    used_total l = used_total l' + n /\ live_of l a ≡ₚ (p, n) :: live_of l' a.
Proof.
  revert a. induction l as [|[sz u] l IH]; intros a Hs Hco Hin; [set_solver|].
  inversion Hs as [|? ? Hp Hl]; subst. simpl in Hp.
  pose proof (coalesced_tail _ _ Hco) as Hco'.
  cbn [ff_free]. destruct (Z.eqb_spec p (a + sizeof_private_block)) as [->|Hne].
  - assert (u = true /\ n = sz) as [-> ->].
    { simpl in Hin. apply elem_of_app in Hin as [Hin|Hin].
      - destruct u; [|set_solver]. apply list_elem_of_singleton in Hin. by simplify_eq.
      - pose proof (live_of_ge _ _ _ Hl Hin). simpl in *. usz. lia. }
    eexists. split_and!; [done|by apply sizes_merge_next|by apply coalesced_merge_next| |].
    + rewrite used_total_merge_next. simpl. lia.
    + rewrite live_of_merge_next. done.
  - assert (Hin' : (p, n) ∈ live_of l (a + sizeof_private_block + sz)).
    { simpl in Hin. apply elem_of_app in Hin as [Hin|Hin]; [|done].
      destruct u; [|set_solver]. apply list_elem_of_singleton in Hin. by simplify_eq. }
    destruct (IH _ Hl Hco' Hin') as (l' & E & H1 & H2 & H3 & H4).
    rewrite E. cbn [mbind option_bind].
    eexists. split; [done|].
    destruct (Z.eqb_spec p (a + sizeof_private_block + sz + sizeof_private_block)) as [Hpp|Hpp].
    + split_and!; [by apply sizes_merge_prev|by apply coalesced_merge_prev| |].
      * rewrite used_total_merge_prev. simpl. lia.
      * rewrite live_of_merge_prev. simpl. rewrite H4.
        destruct u; [|done]. simpl. by rewrite Permutation_swap.
    + split_and!; [by constructor| | |].
      * destruct l as [|[s2 u2] l]; [done|].
        destruct (ff_free_head _ _ _ _ _ _ _ E Hpp) as (s2' & l2 & ->).
        simpl in Hco |- *. tauto.
      * simpl. lia.
      * simpl. rewrite H4. destruct u; [|done]. simpl. by rewrite Permutation_swap.
Qed.

(** Releasing the block that first fit has just handed out restores the list. *)
Lemma ff_alloc_free size l a p n l' :
  0 < size -> sizes_pos l -> coalesced l -> ff_alloc size l a = Some (p, n, l') ->
  ff_free p l' a = Some (n, l).
Proof.
  intros Hsize. revert a p n l'. induction l as [|[sz u] l IH]; intros a p n l' Hs Hco;
    cbn [ff_alloc]; [done|].
  inversion Hs as [|? ? Hp Hl]; subst. simpl in Hp.
  destruct (negb u && (size <=? sz)) eqn:Hfit.
  - bool_to_prop. subst u.
    destruct (Z.leb_spec (size + sizeof_private_block + MIN_SPLIT_SIZE) sz);
      intros [= <- <- <-]; cbn [ff_free]; rewrite Z.eqb_refl.
    + simpl. usz. do 3 f_equal. f_equal. lia.
    + destruct l as [|[s2 u2] l]; [done|]. simpl in Hco.
      destruct Hco as [[? | ->] _]; done.
  - intros E. inv_bind E. destruct x as [[p' n'] l'']. simplify_eq.
    pose proof (coalesced_tail _ _ Hco) as Hco'.
    destruct (ff_alloc_spec _ _ _ _ _ _ Hsize Hl Hco' E0) as (H1 & H2 & _ & _ & H5).
    assert (Hge : (p, n) ∈ live_of l'' (a + sizeof_private_block + sz))
      by (rewrite H5; set_solver).
    apply live_of_ge in Hge as [Hge _]; [|done]. simpl in Hge.
    cbn [ff_free]. destruct (Z.eqb_spec p (a + sizeof_private_block)); [usz; lia|].
    rewrite (IH _ _ _ _ Hl Hco' E0). cbn [mbind option_bind].
    destruct (Z.eqb_spec p (a + sizeof_private_block + sz + sizeof_private_block)); [|done].
    destruct u; [done|]. destruct l as [|[s2 u2] l]; [done|].
    simpl in Hco. destruct Hco as [[? | ->] _]; [done|]. done.
Qed.

(** ** Disjointness of live payloads *)

Lemma live_of_nodup l a : sizes_pos l -> NoDup (live_of l a).
Proof.
  intros Hs. pose proof (live_of_sorted l a Hs) as Hso.
  assert (Hpos : forall r, r ∈ live_of l a -> 0 < r.2)
    by (intros r Hr; by apply (live_of_ge l a r)).
  induction Hso as [|r L Hso IH HF]; constructor.
  - intros Hin. rewrite List.Forall_forall in HF.
    specialize (HF r ltac:(by apply list_elem_of_In)). unfold before in HF.
    specialize (Hpos r ltac:(set_solver)). lia.
  - apply IH. set_solver.
Qed.

Lemma sorted_disjoint (L : list (Z * Z)) r1 r2 :
  StronglySorted before L -> r1 ∈ L -> r2 ∈ L -> r1 <> r2 ->
  before r1 r2 \/ before r2 r1.
Proof.
  induction 1 as [|r L Hso IH HF]; [set_solver|]. rewrite List.Forall_forall in HF.
  intros [->|H1]%elem_of_cons [->|H2]%elem_of_cons Hne; [done| | |auto].
  - left. apply HF. by apply list_elem_of_In.
  - right. apply HF. by apply list_elem_of_In.
Qed.

(** A payload added to (or removed from) a heap is disjoint from all the others. *)
Lemma live_disjoint l a p n L q :
  sizes_pos l -> live_of l a ≡ₚ (p, n) :: L -> q ∈ L ->
  q.1 + q.2 <= p \/ p + n <= q.1.
Proof.
  intros Hs HP Hq.
  assert (Hnd : NoDup ((p, n) :: L)) by (rewrite <- HP; by apply live_of_nodup).
  inversion Hnd as [|? ? Hni _]; subst.
  edestruct (sorted_disjoint (live_of l a) q (p, n)) as [H|H];
    [by apply live_of_sorted|rewrite HP; set_solver..| | |].
  - intros ->. done.
  - left. apply H.
  - right. apply H.
Qed.

Lemma roundup_spec x : 0 < x -> x <= HEAP_ROUNDUP x < x + 8 /\ HEAP_ROUNDUP x mod 8 = 0.
Proof.
  intros Hx. unfold HEAP_ROUNDUP. case_cond; [lia|].
  rewrite Z.mod_mul by lia. split; [|done].
  pose proof (Z.div_mod x 8). pose proof (Z.mod_pos_bound x 8). lia.
Qed.

Lemma ff_alloc_None size l a :
  ff_alloc size l a = None -> forall b, b ∈ l -> b.2 = true \/ b.1 < size.
Proof.
  revert a. induction l as [|[sz u] l IH]; intros a; [set_solver|].
  cbn [ff_alloc]. destruct (negb u && (size <=? sz)) eqn:Hfit; [case_match; done|].
  intros E b [->|Hb]%elem_of_cons.
  - simpl. destruct u; [by left|right; lia].
  - eapply (IH _); [|done]. apply bind_None in E as [E|([[? ?] ?] & _ & ?)]; [exact E|done].
Qed.

Lemma ff_alloc_full size l a :
  (forall b, b ∈ l -> b.2 = true \/ b.1 < size) -> ff_alloc size l a = None.
Proof.
  revert a. induction l as [|[sz u] l IH]; intros a Hn; cbn [ff_alloc]; [done|].
  pose proof (Hn (sz, u) ltac:(by constructor)) as Hh. simpl in Hh.
  case_cond; [destruct Hh as [-> | Hh]; [done|lia]|].
  rewrite IH; [done|]. intros b Hb. apply Hn. by constructor.
Qed.

(** Every block of the heap has its payload inside the data buffer. *)
Lemma live_in_range h l q :
  heap_wf h l -> q ∈ live_of l (h_base h) ->
  0 <= q.1 - h_base h /\ q.1 - h_base h + q.2 <= len (h_data h) /\ 0 < q.2.
Proof.
  intros Hwf Hq. pose proof Hwf as [Hb Hsz Hc Hs _ Hd _ _].
  pose proof (live_of_ge _ _ _ Hs Hq). pose proof (live_of_below _ _ _ _ _ _ Hs Hc Hq).
  usz. lia.
Qed.

(** ** Correctness of the allocator *)

(** What [sqlcipher_malloc] promises when it serves a request of [size] bytes with
    the payload [(p, n)] of the private heap. *)
Record served (h : heap) (l : list (Z * bool)) (size : Z) (h' : heap)
  (l' : list (Z * bool)) (p n : Z) : Prop := {
  sv_size : size <= n;
  sv_base : h_base h' = h_base h;
  sv_sz : h_sz h' = h_sz h;
  sv_sys : h_sys h' = h_sys h;
  sv_wf : heap_wf h' l';
  sv_live : live_of l' (h_base h') ≡ₚ (p, n) :: live_of l (h_base h);
  sv_zero : mem_read (h_data h') (p - h_base h') size =
            Some (replicate (Z.to_nat size) 0);
  sv_frame : forall q, q ∈ live_of l (h_base h) ->
    (q.1 + q.2 <= p \/ p + n <= q.1) /\
    mem_read (h_data h') (q.1 - h_base h') q.2 = mem_read (h_data h) (q.1 - h_base h) q.2
}.

Lemma malloc_serves h l size p n l' m' data' :
  heap_wf h l -> 0 < size ->
  ff_alloc size l (h_base h) = Some (p, n, l') ->
  chain m' (h_base h) l' (h_base h) (h_base h + h_sz h) ->
  mem_set (h_data h) (p - h_base h) 0 size = Some data' ->
  served h l size (count_alloc n (set_data data' (set_blocks m' h))) l' p n.
Proof.
  intros Hwf Hsize E Hc' Hd'. pose proof Hwf as [Hb Hsz Hc Hs Hco Hd Hu Hh].
  destruct (ff_alloc_spec _ _ _ _ _ _ Hsize Hs Hco E) as (H1 & H2 & H3 & H4 & H5).
  pose proof (used_total_bound _ _ _ _ _ H2 Hc') as Hub.
  pose proof (used_total_nonneg _ H2) as Hnn.
  assert (Hwf' : heap_wf (count_alloc n (set_data data' (set_blocks m' h))) l').
  { constructor; simpl; try done.
    - rewrite <- Hd. by rewrite (mem_set_length _ _ _ _ _ Hd').
    - rewrite u64_small; lia.
    - case_cond; lia. }
  unfold mem_set in Hd'. destruct (Z.leb_spec 0 size); [|lia].
  constructor; simpl; try done.
  - pose proof (mem_read_write_eq _ _ _ _ Hd') as Hr.
    rewrite length_replicate, Z2Nat.id in Hr by lia. done.
  - intros q Hq. pose proof (live_disjoint _ _ _ _ _ _ H2 H5 Hq) as Hdis.
    split; [done|]. eapply mem_read_write_ne; [exact Hd'|].
    rewrite length_replicate, Z2Nat.id by lia. lia.
Qed.

(** The request is served from the private heap, zeroed and disjoint from every live
    payload, or no free block is large enough and the fallback's answer is
    returned. *)
Lemma malloc_cases fb size h l :
  heap_wf h l -> 1 <= size <= SQLITE_MAX_LENGTH ->
  (exists p n l' h',
     sqlcipher_malloc fb size h = Some (Some p, h') /\
     served h l (HEAP_ROUNDUP size) h' l' p n /\
     ff_alloc (HEAP_ROUNDUP size) l (h_base h) = Some (p, n, l')) \/
  (exists h', sqlcipher_malloc fb size h = Some (fb, h') /\
     (forall b, b ∈ l -> b.2 = true \/ b.1 < HEAP_ROUNDUP size) /\
     heap_wf h' l /\ h_data h' = h_data h /\
     h' = (sqlcipher_internal_malloc fb (HEAP_ROUNDUP size)
             (count_overflow (HEAP_ROUNDUP size) h)).2).
Proof.
  intros Hwf Hsize. pose proof Hwf as [Hb Hsz Hc Hs Hco Hd Hu Hh].
  pose proof (roundup_spec size ltac:(lia)) as [Hr Hr8].
  pose proof (malloc_loop_refines (heap_fuel h) h (h_base h) l (h_base h)
    (h_base h + h_sz h) (HEAP_ROUNDUP size) (heap_fuel_enough _ _ Hwf)
    ltac:(lia) ltac:(lia) ltac:(lia) ltac:(lia) Hs Hc) as HL.
  unfold sqlcipher_malloc.
  destruct ((size <? 1) || (SQLITE_MAX_LENGTH <? size)) eqn:Hc1; [lia|].
  destruct (ff_alloc (HEAP_ROUNDUP size) l (h_base h)) as [[[p n] l']|] eqn:E.
  - left. destruct HL as (m' & data' & E1 & E2 & _ & E4).
    rewrite E1. cbn [mbind option_bind]. exists p, n, l'. eexists. split_and!; [done| |done].
    apply malloc_serves; done || lia.
  - right. rewrite HL. cbn [mbind option_bind].
    destruct fb as [q|]; cbn; eexists;
      (split_and!; [done|by eapply ff_alloc_None|by destruct Hwf|done|done]).
Qed.

(** What [sqlcipher_free] does with the live payload [(p, n)]. *)
Record released (addr : Z) (h : heap) (l : list (Z * bool)) (h' : heap)
  (l' : list (Z * bool)) (p n : Z) : Prop := {
  rl_wf : heap_wf h' l';
  rl_base : h_base h' = h_base h;
  rl_sz : h_sz h' = h_sz h;
  rl_sys : h_sys h' = h_sys h;
  rl_live : live_of l (h_base h) ≡ₚ (p, n) :: live_of l' (h_base h');
  rl_scrub : mem_read (h_data h') (p - h_base h') n =
             Some (xoshiro_randomness addr (h_rng h) n).1;
  rl_frame : forall q, q ∈ live_of l' (h_base h') ->
    mem_read (h_data h') (q.1 - h_base h') q.2 = mem_read (h_data h) (q.1 - h_base h) q.2
}.

Lemma free_releases addr p n sz h l :
  heap_wf h l -> (p, n) ∈ live_of l (h_base h) ->
  exists h' l', sqlcipher_free addr p sz h = Some h' /\
    released addr h l h' l' p n /\ ff_free p l (h_base h) = Some (n, l').
Proof.
  intros Hwf Hin. pose proof Hwf as [Hb Hsz Hc Hs Hco Hd Hu Hh].
  destruct (ff_free_spec _ _ _ _ Hs Hco Hin) as (l' & E & H1 & H2 & H3 & H4).
  pose proof (free_loop_refines (heap_fuel h) addr h l p (heap_fuel_enough _ _ Hwf) Hwf)
    as HL.
  rewrite E in HL. destruct HL as (m' & data' & rng' & E1 & E2 & (noise & E3 & E4)).
  unfold sqlcipher_free. rewrite E1. cbn [mbind option_bind].
  do 2 eexists. split_and!; [reflexivity| |done].
  pose proof (used_total_nonneg _ H1) as Hnn.
  pose proof (used_total_bound _ _ _ _ _ Hs Hc) as Hub.
  pose proof (live_in_range _ _ _ Hwf Hin) as (R1 & R2 & R3). simpl in R1, R2, R3.
  replace (p - sizeof_private_block + sizeof_private_block) with p in E4 by lia.
  assert (Hln : len noise = n).
  { pose proof (xoshiro_randomness_length addr (h_rng h) n) as Hx.
    rewrite E3 in Hx. apply Hx. lia. }
  constructor; simpl; try done.
  - constructor; simpl; try done.
    + rewrite <- Hd. by rewrite (mem_write_length _ _ _ _ E4).
    + rewrite u64_small; lia.
    + rewrite u64_small; lia.
  - rewrite E3. simpl. rewrite <- Hln. by eapply mem_read_write_eq.
  - intros q Hq. eapply mem_read_write_ne; [exact E4|].
    pose proof (live_disjoint _ _ _ _ _ _ Hs H4 Hq). lia.
Qed.

(** ** Runs of the allocator *)

(** A state the program can reach: the initial heap, and then any sequence of
    requests and of releases of live payloads. *)
Inductive reachable (addr : Z) : heap -> list (Z * bool) -> Prop :=
| reach_init base sz rng sys :
    0 < base -> sizeof_private_block < sz < 2 ^ 31 ->
    reachable addr (heap_init addr base sz rng sys)
      [(sz - sizeof_private_block, false)]
| reach_malloc h l fb size r h' l' :
    reachable addr h l ->
    sqlcipher_malloc fb size h = Some (r, h') ->
    chain (h_blocks h') (h_base h') l' (h_base h') (h_base h' + h_sz h') ->
    reachable addr h' l'
| reach_free h l p n sz h' l' :
    reachable addr h l -> (p, n) ∈ live_of l (h_base h) ->
    sqlcipher_free addr p sz h = Some h' ->
    chain (h_blocks h') (h_base h') l' (h_base h') (h_base h' + h_sz h') ->
    reachable addr h' l'.

(** The linked structure determines the list. *)
Lemma chain_det m p l1 l2 a fin :
  0 < a -> sizes_pos l1 -> chain m p l1 a fin -> chain m p l2 a fin -> l1 = l2.
Proof.
  revert p a l2. induction l1 as [|[s1 u1] l1 IH]; intros p a [|[s2 u2] l2] Ha Hs;
    simpl; [done| | |].
  - intros [-> _] [E _]. usz. lia.
  - intros [-> _] [E _]. usz. lia.
  - intros (_ & n1 & E1 & C1) (_ & n2 & E2 & C2). rewrite E1 in E2. simplify_eq.
    inversion Hs as [|? ? Hp Hl]; subst. simpl in Hp. f_equal.
    eapply (IH n2 (a + sizeof_private_block + s2)); [usz; lia|done..].
Qed.

Lemma heap_init_wf addr base sz rng sys :
  0 < base -> sizeof_private_block < sz < 2 ^ 31 ->
  heap_wf (heap_init addr base sz rng sys) [(sz - sizeof_private_block, false)].
Proof.
  intros Hb Hsz. usz. unfold heap_init.
  rewrite i32_small, (u32_small sz), u32_small by (usz; lia).
  pose proof (xoshiro_randomness_length addr rng sz ltac:(lia)) as Hn.
  destruct (xoshiro_randomness addr rng sz) as [noise rng']. simpl in Hn.
  constructor; simpl; try done; try lia.
  - split; [done|]. exists 0. usz. rewrite lookup_singleton_eq. split_and!; [done..|lia].
  - repeat constructor. simpl. lia.
Qed.

Lemma reachable_wf addr h l : reachable addr h l -> heap_wf h l.
Proof.
  induction 1 as [base sz rng sys Hb Hsz|h l fb size r h' l' _ IH E C
                 |h l p n sz h' l' _ IH Hin E C].
  - by apply heap_init_wf.
  - unfold sqlcipher_malloc in E.
    destruct (decide (1 <= size <= SQLITE_MAX_LENGTH)) as [Hr|Hr].
    + destruct (malloc_cases fb size h l IH Hr) as [(p & n & l2 & h2 & E2 & S & _)|
        (h2 & E2 & _ & W & _ & _)]; unfold sqlcipher_malloc in E2; rewrite E2 in E;
        simplify_eq.
      * pose proof (sv_wf _ _ _ _ _ _ _ S) as W. pose proof W as [B _ C2 S2 _ _ _ _].
        by rewrite <- (chain_det _ _ _ _ _ _ B S2 C2 C).
      * pose proof W as [B _ C2 S2 _ _ _ _].
        by rewrite <- (chain_det _ _ _ _ _ _ B S2 C2 C).
    + destruct ((size <? 1) || (SQLITE_MAX_LENGTH <? size)) eqn:Hc; [|lia].
      simplify_eq. pose proof IH as [B _ C2 S2 _ _ _ _].
      by rewrite <- (chain_det _ _ _ _ _ _ B S2 C2 C).
  - destruct (free_releases addr p n sz h l IH Hin) as (h2 & l2 & E2 & R & _).
    rewrite E2 in E. simplify_eq. pose proof (rl_wf _ _ _ _ _ _ _ R) as W.
    pose proof W as [B _ C2 S2 _ _ _ _].
    by rewrite <- (chain_det _ _ _ _ _ _ B S2 C2 C).
Qed.


(** ** Properties *)

(** Allocation refines first fit: on a well-formed heap a request of 1 to
    SQLITE_MAX_LENGTH bytes terminates and is served from the first free block that is
    large enough, rounded up to 8 bytes, zeroed, disjoint from every live payload and
    without touching any of them; when no free block is large enough the heap is left as it
    is and the fallback's answer is returned. *)
Theorem malloc_first_fit fb size h l :
  heap_wf h l -> 1 <= size <= SQLITE_MAX_LENGTH ->
  match ff_alloc (HEAP_ROUNDUP size) l (h_base h) with
  | Some (p, n, l') => exists h', sqlcipher_malloc fb size h = Some (Some p, h') /\
      served h l (HEAP_ROUNDUP size) h' l' p n
  | None => exists h', sqlcipher_malloc fb size h = Some (fb, h') /\
      (forall b, b ∈ l -> b.2 = true \/ b.1 < HEAP_ROUNDUP size) /\
      heap_wf h' l /\ h_data h' = h_data h
  end.
Proof.
  intros W Hs. destruct (malloc_cases fb size h l W Hs)
    as [(p & n & l' & h' & E & S & ->)|(h' & E & Hn & W' & Hd & _)]; [eauto|].
  rewrite (ff_alloc_full _ _ _ Hn). eauto.
Qed.

(** Release: freeing a live payload terminates, scrubs the whole block with generator
    output, removes exactly that payload from the live ones, changes no other payload, and
    restores the invariant (free neighbours are merged). *)
Theorem free_scrubs_and_merges addr p n sz h l :
  heap_wf h l -> (p, n) ∈ live_of l (h_base h) ->
  exists h' l', sqlcipher_free addr p sz h = Some h' /\ released addr h l h' l' p n.
Proof.
  intros W Hin. destruct (free_releases addr p n sz h l W Hin) as (h' & l' & E & R & _). eauto.
Qed.

(** allocation and release are inverse: freeing what an allocation has just returned
    brings the block list, the live payloads and the usage counter back to what they were. *)
Theorem malloc_free_restores addr fb size h l p n l' h1 sz :
  heap_wf h l -> 1 <= size <= SQLITE_MAX_LENGTH ->
  ff_alloc (HEAP_ROUNDUP size) l (h_base h) = Some (p, n, l') ->
  sqlcipher_malloc fb size h = Some (Some p, h1) ->
  exists h2, sqlcipher_free addr p sz h1 = Some h2 /\ heap_wf h2 l /\ h_used h2 = h_used h.
Proof.
  intros W Hs Ef E.
  destruct (malloc_cases fb size h l W Hs) as [(p' & n' & l2 & h' & E' & S & Ef')|(h' & _ & Hn & _)];
    [|by rewrite (ff_alloc_full _ _ _ Hn) in Ef].
  rewrite E in E'. rewrite Ef in Ef'. simplify_eq.
  destruct S as [_ Eb _ _ W1 Hlive _ _]. destruct (roundup_spec size ltac:(lia)) as [Hr _].
  destruct (free_releases addr p' n' sz h' l2 W1) as (h2 & l3 & E2 & R & Ef2).
  { rewrite Hlive. constructor. }
  rewrite Eb in Ef2. destruct W as [_ _ _ Hp Hc _ Hu _].
  rewrite (ff_alloc_free (HEAP_ROUNDUP size) l (h_base h) p' n' l2) in Ef2 by (done || lia). injection Ef2 as <-.
  pose proof (rl_wf _ _ _ _ _ _ _ R) as W2. exists h2. split_and!; [done|done|].
  destruct W2 as [_ _ _ _ _ _ Hu2 _]. congruence.
Qed.


(** ** Witnesses *)

(** A region of 512 bytes at address 4096. *)
Definition demo_region : heap := heap_init 0 4096 512 (Xo 1 2 3 4) ∅.

Lemma demo_region_wf : heap_wf demo_region [(496, false)].
Proof. apply heap_init_wf; [done|]. usz. lia. Qed.

Lemma malloc_first_fit_witness :
  exists h', sqlcipher_malloc None 100 demo_region = Some (Some 4112, h') /\
    served demo_region [(496, false)] 104 h' [(104, true); (376, false)] 4112 104.
Proof.
  exact (malloc_first_fit None 100 demo_region [(496, false)] demo_region_wf ltac:(by vm_compute)).
Defined.

Definition demo_used : heap :=
  from_option snd demo_region (sqlcipher_malloc None 100 demo_region).

Lemma demo_used_wf : heap_wf demo_used [(104, true); (376, false)].
Proof.
  destruct (malloc_cases None 100 demo_region [(496, false)] demo_region_wf)
    as [(p & n & l' & h' & E & S & Ef)|(h' & E & _)]; [by vm_compute| |by vm_compute in E].
  vm_compute in Ef. injection Ef as <- <- <-. unfold demo_used. rewrite E. apply S.
Qed.

Lemma free_scrubs_and_merges_witness :
  exists h' l', sqlcipher_free 0 4112 100 demo_used = Some h' /\
    released 0 demo_used [(104, true); (376, false)] h' l' 4112 104.
Proof.
  apply (free_scrubs_and_merges 0 4112 104 100 demo_used [(104, true); (376, false)]).
  - exact demo_used_wf.
  - vm_compute. constructor.
Defined.

Lemma malloc_free_restores_witness :
  exists h2, sqlcipher_free 0 4112 100 demo_used = Some h2 /\
    heap_wf h2 [(496, false)] /\ h_used h2 = 0.
Proof.
  apply (malloc_free_restores 0 None 100 demo_region [(496, false)] 4112 104
    [(104, true); (376, false)] demo_used 100).
  - exact demo_region_wf.
  - by vm_compute.
  - by vm_compute.
  - vm_compute. reflexivity.
Defined.


End PrivateHeap.
