(* ===== verification/CodecCtx.v ===== *)
(** * Codec contexts of src/sqlcipher.c

    The data a SQLCipher connection keeps per database ([codec_ctx], with a
    [cipher_ctx] for reading and one for writing) and every operation that creates,
    configures, copies and destroys it.

    - [provider]: the cryptographic provider (struct sqlcipher_provider of
      src/sqlcipher.h); its functions are an argument of the model. [ProviderOk] is
      what its documentation promises.
    - [Allocator]: the interface of [sqlcipher_malloc]/[sqlcipher_free] that this
      component uses. A buffer carries the address it was allocated at, so that the
      theorems can say which allocations are live.
    - an operation returns [None] when the C code would have undefined behaviour
      (null dereference, access outside a buffer, bad free), so every theorem that
      concludes [Some] is also a memory-safety statement. *)

From S2P Require Import Prelude CipherUtil.
Import Hex MemOps.

(** ** The allocator interface *)

Class Allocator (A : Type) := {
  a_malloc : Z -> A -> option (option Z * A);
  a_free : Z -> Z -> A -> option A
}.

(** What the allocator promises: [a_live] lists the live allocations (address and
    usable size); a request answers null and changes nothing, or adds an allocation
    at least as large as asked; freeing a live allocation with at most its size
    succeeds and removes exactly that allocation. *)
Class AllocatorOk (A : Type) `{Allocator A} := {
  a_inv : A -> Prop;
  a_live : A -> list (Z * Z);
  a_malloc_ok n h : a_inv h -> exists r h', a_malloc n h = Some (r, h') /\ a_inv h' /\
    match r with
    | None => a_live h' ≡ₚ a_live h
    | Some p => exists m, n <= m /\ a_live h' ≡ₚ (p, m) :: a_live h
    end;
  a_free_ok p n m L h : a_inv h -> a_live h ≡ₚ (p, m) :: L -> 0 <= n <= m ->
    exists h', a_free p n h = Some h' /\ a_inv h' /\ a_live h' ≡ₚ L
}.

(** ** The provider *)

Record provider := Provider {
  pv_ctx : Type;
  (* return code, bytes stored in the buffer, new context *)
  pv_random : pv_ctx -> Z -> Z * bytes * pv_ctx;
  (* algorithm, key, first input, second input *)
  pv_hmac : Z -> bytes -> bytes -> bytes -> Z * bytes;
  (* algorithm, passphrase, salt, iterations, key size *)
  pv_kdf : Z -> bytes -> bytes -> Z -> Z -> Z * bytes;
  (* mode, key, initialization vector, input *)
  pv_cipher : Z -> bytes -> bytes -> bytes -> Z * bytes;
  pv_get_key_sz : Z;
  pv_get_iv_sz : Z;
  pv_get_block_sz : Z;
  pv_get_hmac_sz : Z -> Z;
  pv_ctx_init : Z * option pv_ctx
}.

Definition SQLCIPHER_DECRYPT : Z := 0.
Definition SQLCIPHER_ENCRYPT : Z := 1.
Definition CIPHER_MAX_IV_SZ : Z := 16.
Definition CIPHER_MAX_KEY_SZ : Z := 64.

(** The documented behaviour of a provider: sizes in the ranges the code is built
    for; on success each function stores exactly the number of bytes its caller
    provides room for, and never more than that; decryption inverts encryption under
    the same key and initialization vector. *)
Class ProviderOk (P : provider) := {
  pv_key_sz_ok : 0 < pv_get_key_sz P <= CIPHER_MAX_KEY_SZ;
  pv_iv_sz_ok : 0 <= pv_get_iv_sz P <= CIPHER_MAX_IV_SZ;
  pv_block_sz_ok : 0 < pv_get_block_sz P <= 16;
  pv_hmac_sz_ok alg : 0 <= pv_get_hmac_sz P alg <= 64;
  pv_random_ok c n rc b c' :
    0 <= n -> pv_random P c n = (rc, b, c') ->
    bytes_ok b /\ len b <= n /\ (rc = SQLITE_OK -> len b = n);
  pv_hmac_ok alg k i1 i2 rc b :
    pv_hmac P alg k i1 i2 = (rc, b) ->
    bytes_ok b /\ len b <= pv_get_hmac_sz P alg /\
    (rc = SQLITE_OK -> len b = pv_get_hmac_sz P alg);
  pv_kdf_ok alg pass salt iter n rc b :
    0 <= n -> pv_kdf P alg pass salt iter n = (rc, b) ->
    bytes_ok b /\ len b <= n /\ (rc = SQLITE_OK -> len b = n);
  pv_cipher_ok mode k iv i rc b :
    pv_cipher P mode k iv i = (rc, b) ->
    bytes_ok b /\ len b <= len i /\ (rc = SQLITE_OK -> len b = len i);
  pv_cipher_inverse k iv i b :
    pv_cipher P SQLCIPHER_ENCRYPT k iv i = (SQLITE_OK, b) ->
    pv_cipher P SQLCIPHER_DECRYPT k iv b = (SQLITE_OK, i);
  pv_ctx_init_ok r : pv_ctx_init P = (SQLITE_OK, r) -> is_Some r
}.

(** ** Constants and globals *)

Definition FILE_HEADER_SZ : Z := 16.
Definition CIPHER_READ_CTX : Z := 0.
Definition CIPHER_WRITE_CTX : Z := 1.
Definition CIPHER_READWRITE_CTX : Z := 2.
Definition FAST_PBKDF2_ITER : Z := 2.

Definition CIPHER_FLAG_HMAC : Z := 1.
Definition CIPHER_FLAG_LE_PGNO : Z := 2.
Definition CIPHER_FLAG_BE_PGNO : Z := 4.
Definition CIPHER_FLAG_KEY_USED : Z := 8.
Definition CIPHER_FLAG_HAS_KDF_SALT : Z := 16.

Definition FLAG_GET (flags bit : Z) : bool := Z.land flags bit <>? 0.
Definition FLAG_SET (flags bit : Z) : Z := Z.lor flags bit.
Definition FLAG_UNSET (flags bit : Z) : Z := Z.land flags (Z.lnot bit).

(** The process-wide defaults and masks. *)
Record globals := Globals {
  default_flags : Z;
  default_kdf_iter : Z;
  default_page_size : Z;
  default_plaintext_header_size : Z;
  default_hmac_algorithm : Z;
  default_kdf_algorithm : Z;
  hmac_salt_mask : Z;
  sqlcipher_shield_mask : bytes
}.

(** The initial values of the globals, given the random shield mask. *)
Definition initial_globals (mask : bytes) : globals :=
  Globals (Z.lor CIPHER_FLAG_HMAC CIPHER_FLAG_LE_PGNO) 256000 4096 0 2 2 0x3a mask.

(** ** Contexts *)

(** The fields of the shared B-tree that the codec reads or writes. [bt_header] is
    what reading the file header answers: [None] when the file is not open,
    otherwise the return code of the read and the bytes it left in the buffer. *)
Record btree := BTree {
  bt_inTransaction : Z;
  bt_read_only : bool;
  bt_errCode : Z;
  bt_autoVacuum : Z;
  bt_header : option (Z * bytes)
}.
Definition TRANS_WRITE : Z := 2.
Definition BTREE_AUTOVACUUM_NONE : Z := 0.

Record buf := Buf { b_ptr : Z; b_data : bytes }.

Record cipher_ctx := CipherCtx {
  derive_key : Z;
  pass_sz : Z;
  key : option buf;
  hmac_key : option buf;
  pass : option buf
}.

Section Contexts.
Context {P : provider}.

(** The cipher contexts are allocated objects: address and contents. *)
Record codec_ctx := CodecCtx {
  store_pass : Z;
  kdf_iter : Z;
  fast_kdf_iter : Z;
  kdf_salt_sz : Z;
  key_sz : Z;
  iv_sz : Z;
  block_sz : Z;
  page_sz : Z;
  reserve_sz : Z;
  hmac_sz : Z;
  plaintext_header_sz : Z;
  hmac_algorithm : Z;
  kdf_algorithm : Z;
  error : Z;
  flags : Z;
  kdf_salt : option buf;
  hmac_kdf_salt : option buf;
  buffer : option buf;
  pBt : btree;
  read_ctx : option (Z * cipher_ctx);
  write_ctx : option (Z * cipher_ctx);
  provider_ctx : option (pv_ctx P)
}.

Definition set_store_pass v (c : codec_ctx) : codec_ctx :=
  CodecCtx v (kdf_iter c) (fast_kdf_iter c) (kdf_salt_sz c) (key_sz c) (iv_sz c)
    (block_sz c) (page_sz c) (reserve_sz c) (hmac_sz c) (plaintext_header_sz c)
    (hmac_algorithm c) (kdf_algorithm c) (error c) (flags c) (kdf_salt c)
    (hmac_kdf_salt c) (buffer c) (pBt c) (read_ctx c) (write_ctx c) (provider_ctx c).
Definition set_kdf_iter v (c : codec_ctx) : codec_ctx :=
  CodecCtx (store_pass c) v (fast_kdf_iter c) (kdf_salt_sz c) (key_sz c) (iv_sz c)
    (block_sz c) (page_sz c) (reserve_sz c) (hmac_sz c) (plaintext_header_sz c)
    (hmac_algorithm c) (kdf_algorithm c) (error c) (flags c) (kdf_salt c)
    (hmac_kdf_salt c) (buffer c) (pBt c) (read_ctx c) (write_ctx c) (provider_ctx c).
Definition set_fast_kdf_iter v (c : codec_ctx) : codec_ctx :=
  CodecCtx (store_pass c) (kdf_iter c) v (kdf_salt_sz c) (key_sz c) (iv_sz c)
    (block_sz c) (page_sz c) (reserve_sz c) (hmac_sz c) (plaintext_header_sz c)
    (hmac_algorithm c) (kdf_algorithm c) (error c) (flags c) (kdf_salt c)
    (hmac_kdf_salt c) (buffer c) (pBt c) (read_ctx c) (write_ctx c) (provider_ctx c).
Definition set_kdf_salt_sz v (c : codec_ctx) : codec_ctx :=
  CodecCtx (store_pass c) (kdf_iter c) (fast_kdf_iter c) v (key_sz c) (iv_sz c)
    (block_sz c) (page_sz c) (reserve_sz c) (hmac_sz c) (plaintext_header_sz c)
    (hmac_algorithm c) (kdf_algorithm c) (error c) (flags c) (kdf_salt c)
    (hmac_kdf_salt c) (buffer c) (pBt c) (read_ctx c) (write_ctx c) (provider_ctx c).
Definition set_key_sz v (c : codec_ctx) : codec_ctx :=
  CodecCtx (store_pass c) (kdf_iter c) (fast_kdf_iter c) (kdf_salt_sz c) v (iv_sz c)
    (block_sz c) (page_sz c) (reserve_sz c) (hmac_sz c) (plaintext_header_sz c)
    (hmac_algorithm c) (kdf_algorithm c) (error c) (flags c) (kdf_salt c)
    (hmac_kdf_salt c) (buffer c) (pBt c) (read_ctx c) (write_ctx c) (provider_ctx c).
Definition set_iv_sz v (c : codec_ctx) : codec_ctx :=
  CodecCtx (store_pass c) (kdf_iter c) (fast_kdf_iter c) (kdf_salt_sz c) (key_sz c)
    v (block_sz c) (page_sz c) (reserve_sz c) (hmac_sz c) (plaintext_header_sz c)
    (hmac_algorithm c) (kdf_algorithm c) (error c) (flags c) (kdf_salt c)
    (hmac_kdf_salt c) (buffer c) (pBt c) (read_ctx c) (write_ctx c) (provider_ctx c).
Definition set_block_sz v (c : codec_ctx) : codec_ctx :=
  CodecCtx (store_pass c) (kdf_iter c) (fast_kdf_iter c) (kdf_salt_sz c) (key_sz c)
    (iv_sz c) v (page_sz c) (reserve_sz c) (hmac_sz c) (plaintext_header_sz c)
    (hmac_algorithm c) (kdf_algorithm c) (error c) (flags c) (kdf_salt c)
    (hmac_kdf_salt c) (buffer c) (pBt c) (read_ctx c) (write_ctx c) (provider_ctx c).
Definition set_page_sz v (c : codec_ctx) : codec_ctx :=
  CodecCtx (store_pass c) (kdf_iter c) (fast_kdf_iter c) (kdf_salt_sz c) (key_sz c)
    (iv_sz c) (block_sz c) v (reserve_sz c) (hmac_sz c) (plaintext_header_sz c)
    (hmac_algorithm c) (kdf_algorithm c) (error c) (flags c) (kdf_salt c)
    (hmac_kdf_salt c) (buffer c) (pBt c) (read_ctx c) (write_ctx c) (provider_ctx c).
Definition set_reserve_sz v (c : codec_ctx) : codec_ctx :=
  CodecCtx (store_pass c) (kdf_iter c) (fast_kdf_iter c) (kdf_salt_sz c) (key_sz c)
    (iv_sz c) (block_sz c) (page_sz c) v (hmac_sz c) (plaintext_header_sz c)
    (hmac_algorithm c) (kdf_algorithm c) (error c) (flags c) (kdf_salt c)
    (hmac_kdf_salt c) (buffer c) (pBt c) (read_ctx c) (write_ctx c) (provider_ctx c).
Definition set_hmac_sz v (c : codec_ctx) : codec_ctx :=
  CodecCtx (store_pass c) (kdf_iter c) (fast_kdf_iter c) (kdf_salt_sz c) (key_sz c)
    (iv_sz c) (block_sz c) (page_sz c) (reserve_sz c) v (plaintext_header_sz c)
    (hmac_algorithm c) (kdf_algorithm c) (error c) (flags c) (kdf_salt c)
    (hmac_kdf_salt c) (buffer c) (pBt c) (read_ctx c) (write_ctx c) (provider_ctx c).
Definition set_plaintext_header_sz v (c : codec_ctx) : codec_ctx :=
  CodecCtx (store_pass c) (kdf_iter c) (fast_kdf_iter c) (kdf_salt_sz c) (key_sz c)
    (iv_sz c) (block_sz c) (page_sz c) (reserve_sz c) (hmac_sz c) v (hmac_algorithm
    c) (kdf_algorithm c) (error c) (flags c) (kdf_salt c) (hmac_kdf_salt c) (buffer
    c) (pBt c) (read_ctx c) (write_ctx c) (provider_ctx c).
Definition set_hmac_algorithm v (c : codec_ctx) : codec_ctx :=
  CodecCtx (store_pass c) (kdf_iter c) (fast_kdf_iter c) (kdf_salt_sz c) (key_sz c)
    (iv_sz c) (block_sz c) (page_sz c) (reserve_sz c) (hmac_sz c)
    (plaintext_header_sz c) v (kdf_algorithm c) (error c) (flags c) (kdf_salt c)
    (hmac_kdf_salt c) (buffer c) (pBt c) (read_ctx c) (write_ctx c) (provider_ctx c).
Definition set_kdf_algorithm v (c : codec_ctx) : codec_ctx :=
  CodecCtx (store_pass c) (kdf_iter c) (fast_kdf_iter c) (kdf_salt_sz c) (key_sz c)
    (iv_sz c) (block_sz c) (page_sz c) (reserve_sz c) (hmac_sz c)
    (plaintext_header_sz c) (hmac_algorithm c) v (error c) (flags c) (kdf_salt c)
    (hmac_kdf_salt c) (buffer c) (pBt c) (read_ctx c) (write_ctx c) (provider_ctx c).
Definition set_error v (c : codec_ctx) : codec_ctx :=
  CodecCtx (store_pass c) (kdf_iter c) (fast_kdf_iter c) (kdf_salt_sz c) (key_sz c)
    (iv_sz c) (block_sz c) (page_sz c) (reserve_sz c) (hmac_sz c)
    (plaintext_header_sz c) (hmac_algorithm c) (kdf_algorithm c) v (flags c)
    (kdf_salt c) (hmac_kdf_salt c) (buffer c) (pBt c) (read_ctx c) (write_ctx c)
    (provider_ctx c).
Definition set_flags v (c : codec_ctx) : codec_ctx :=
  CodecCtx (store_pass c) (kdf_iter c) (fast_kdf_iter c) (kdf_salt_sz c) (key_sz c)
    (iv_sz c) (block_sz c) (page_sz c) (reserve_sz c) (hmac_sz c)
    (plaintext_header_sz c) (hmac_algorithm c) (kdf_algorithm c) (error c) v
    (kdf_salt c) (hmac_kdf_salt c) (buffer c) (pBt c) (read_ctx c) (write_ctx c)
    (provider_ctx c).
Definition set_kdf_salt v (c : codec_ctx) : codec_ctx :=
  CodecCtx (store_pass c) (kdf_iter c) (fast_kdf_iter c) (kdf_salt_sz c) (key_sz c)
    (iv_sz c) (block_sz c) (page_sz c) (reserve_sz c) (hmac_sz c)
    (plaintext_header_sz c) (hmac_algorithm c) (kdf_algorithm c) (error c) (flags c)
    v (hmac_kdf_salt c) (buffer c) (pBt c) (read_ctx c) (write_ctx c) (provider_ctx
    c).
Definition set_hmac_kdf_salt v (c : codec_ctx) : codec_ctx :=
  CodecCtx (store_pass c) (kdf_iter c) (fast_kdf_iter c) (kdf_salt_sz c) (key_sz c)
    (iv_sz c) (block_sz c) (page_sz c) (reserve_sz c) (hmac_sz c)
    (plaintext_header_sz c) (hmac_algorithm c) (kdf_algorithm c) (error c) (flags c)
    (kdf_salt c) v (buffer c) (pBt c) (read_ctx c) (write_ctx c) (provider_ctx c).
Definition set_buffer v (c : codec_ctx) : codec_ctx :=
  CodecCtx (store_pass c) (kdf_iter c) (fast_kdf_iter c) (kdf_salt_sz c) (key_sz c)
    (iv_sz c) (block_sz c) (page_sz c) (reserve_sz c) (hmac_sz c)
    (plaintext_header_sz c) (hmac_algorithm c) (kdf_algorithm c) (error c) (flags c)
    (kdf_salt c) (hmac_kdf_salt c) v (pBt c) (read_ctx c) (write_ctx c)
    (provider_ctx c).
Definition set_pBt v (c : codec_ctx) : codec_ctx :=
  CodecCtx (store_pass c) (kdf_iter c) (fast_kdf_iter c) (kdf_salt_sz c) (key_sz c)
    (iv_sz c) (block_sz c) (page_sz c) (reserve_sz c) (hmac_sz c)
    (plaintext_header_sz c) (hmac_algorithm c) (kdf_algorithm c) (error c) (flags c)
    (kdf_salt c) (hmac_kdf_salt c) (buffer c) v (read_ctx c) (write_ctx c)
    (provider_ctx c).
Definition set_read_ctx v (c : codec_ctx) : codec_ctx :=
  CodecCtx (store_pass c) (kdf_iter c) (fast_kdf_iter c) (kdf_salt_sz c) (key_sz c)
    (iv_sz c) (block_sz c) (page_sz c) (reserve_sz c) (hmac_sz c)
    (plaintext_header_sz c) (hmac_algorithm c) (kdf_algorithm c) (error c) (flags c)
    (kdf_salt c) (hmac_kdf_salt c) (buffer c) (pBt c) v (write_ctx c) (provider_ctx
    c).
Definition set_write_ctx v (c : codec_ctx) : codec_ctx :=
  CodecCtx (store_pass c) (kdf_iter c) (fast_kdf_iter c) (kdf_salt_sz c) (key_sz c)
    (iv_sz c) (block_sz c) (page_sz c) (reserve_sz c) (hmac_sz c)
    (plaintext_header_sz c) (hmac_algorithm c) (kdf_algorithm c) (error c) (flags c)
    (kdf_salt c) (hmac_kdf_salt c) (buffer c) (pBt c) (read_ctx c) v (provider_ctx
    c).
Definition set_provider_ctx v (c : codec_ctx) : codec_ctx :=
  CodecCtx (store_pass c) (kdf_iter c) (fast_kdf_iter c) (kdf_salt_sz c) (key_sz c)
    (iv_sz c) (block_sz c) (page_sz c) (reserve_sz c) (hmac_sz c)
    (plaintext_header_sz c) (hmac_algorithm c) (kdf_algorithm c) (error c) (flags c)
    (kdf_salt c) (hmac_kdf_salt c) (buffer c) (pBt c) (read_ctx c) (write_ctx c) v.

End Contexts.
Arguments codec_ctx P : clear implicits.

Section Operations.
Context {A : Type} `{Allocator A} {P : provider} (G : globals).
Abbreviation ctx_t := (codec_ctx P).

(** *** Allocation of buffers *)

Definition alloc_buf (n : Z) (h : A) : option (option buf * A) :=
  let? (r, h') := a_malloc n h in
  Some ((fun p => Buf p (replicate (Z.to_nat n) 0)) <$> r, h').

(** [if(b) sqlcipher_free(b, n)] *)
Definition free_opt (b : option buf) (n : Z) (h : A) : option A :=
  match b with
  | None => Some h
  | Some b => a_free (b_ptr b) n h
  end.

Definition sizeof_cipher_ctx : Z := 32.
Definition sizeof_codec_ctx : Z := 136.

(** *** Cipher contexts *)

Definition sqlcipher_cipher_ctx_init (ctx : ctx_t) (h : A)
  : option (Z * option (Z * cipher_ctx) * A) :=
  let? (r, h) := a_malloc sizeof_cipher_ctx h in
  match r with
  | None => Some (SQLITE_NOMEM, None, h)
  | Some p =>
      let? (k, h) := alloc_buf (key_sz ctx) h in
      let? (hk, h) := alloc_buf (key_sz ctx) h in
      let c := CipherCtx 0 0 k hk None in
      match k, hk with
      | Some _, Some _ => Some (SQLITE_OK, Some (p, c), h)
      | _, _ => Some (SQLITE_NOMEM, Some (p, c), h)
      end
  end.

Definition sqlcipher_cipher_ctx_free (ctx : ctx_t) (iCtx : Z * cipher_ctx) (h : A)
  : option A :=
  let '(p, c) := iCtx in
  let? h := free_opt (key c) (key_sz ctx) h in
  let? h := free_opt (hmac_key c) (key_sz ctx) h in
  let? h := free_opt (pass c) (pass_sz c) h in
  a_free p sizeof_cipher_ctx h.

Definition sqlcipher_codec_ctx_reserve_setup (ctx : ctx_t) : Z * ctx_t :=
  let base_reserve := iv_sz ctx in
  let ctx := set_hmac_sz (pv_get_hmac_sz P (hmac_algorithm ctx)) ctx in
  let reserve := if FLAG_GET (flags ctx) CIPHER_FLAG_HMAC
                 then base_reserve + hmac_sz ctx else base_reserve in
  let reserve :=
    if 0 <? block_sz ctx then
      if Z.rem reserve (block_sz ctx) =? 0 then reserve
      else (Z.quot reserve (block_sz ctx) + 1) * block_sz ctx
    else reserve in
  (SQLITE_OK, set_reserve_sz reserve ctx).

Definition pass_bytes (c : cipher_ctx) : bytes := from_option b_data [] (pass c).

(** 0 if the contexts have the same passphrase, 1 otherwise. *)
Definition sqlcipher_cipher_ctx_cmp (c1 c2 : cipher_ctx) : option Z :=
  if pass_sz c1 =? pass_sz c2 then
    if decide (b_ptr <$> pass c1 = b_ptr <$> pass c2) then Some 0
    else sqlcipher_memcmp (pass_bytes c1) (pass_bytes c2) (pass_sz c1)
  else Some 1.

(** [memcpy(target, source, n)] between two allocated buffers. *)
Definition copy_buf (target source : option buf) (n : Z) : option (option buf) :=
  let? t := target in
  let? s := source in
  let? d := mem_read (b_data s) 0 n in
  let? t' := mem_write (b_data t) 0 d in
  Some (Some (Buf (b_ptr t) t')).

Definition sqlcipher_cipher_ctx_copy (ctx : ctx_t) (target source : cipher_ctx) (h : A)
  : option (Z * cipher_ctx * A) :=
  let? h := free_opt (pass target) (pass_sz target) h in
  let? k := copy_buf (key target) (key source) (key_sz ctx) in
  let? hk := copy_buf (hmac_key target) (hmac_key source) (key_sz ctx) in
  match pass source with
  | Some sp =>
      if pass_sz source =? 0
      then Some (SQLITE_OK,
                 CipherCtx (derive_key source) (pass_sz source) k hk (pass source), h)
      else
        let? (r, h) := alloc_buf (pass_sz source) h in
        match r with
        | None => Some (SQLITE_NOMEM,
                        CipherCtx (derive_key source) (pass_sz source) k hk None, h)
        | Some _ =>
            let? tp := copy_buf r (pass source) (pass_sz source) in
            Some (SQLITE_OK,
                  CipherCtx (derive_key source) (pass_sz source) k hk tp, h)
        end
  | None =>
      Some (SQLITE_OK, CipherCtx (derive_key source) (pass_sz source) k hk None, h)
  end.

Definition sqlcipher_set_derive_key (ctx : ctx_t) (derive : Z) : ctx_t :=
  let upd := fun pc : Z * cipher_ctx =>
    let '(p, c) := pc in
    (p, CipherCtx derive (pass_sz c) (key c) (hmac_key c) (pass c)) in
  set_write_ctx (upd <$> write_ctx ctx) (set_read_ctx (upd <$> read_ctx ctx) ctx).

Definition sqlcipher_cipher_ctx_set_pass (c : cipher_ctx) (zKey : option bytes)
  (nKey : Z) (h : A) : option (Z * cipher_ctx * A) :=
  let? h := free_opt (pass c) (pass_sz c) h in
  match zKey with
  | Some z =>
      if 0 <? nKey then
        let? (r, h) := alloc_buf nKey h in
        match r with
        | None => Some (SQLITE_NOMEM,
                        CipherCtx (derive_key c) nKey (key c) (hmac_key c) None, h)
        | Some b =>
            let? d := mem_read z 0 nKey in
            let? d' := mem_write (b_data b) 0 d in
            Some (SQLITE_OK, CipherCtx (derive_key c) nKey (key c) (hmac_key c)
                               (Some (Buf (b_ptr b) d')), h)
        end
      else Some (SQLITE_OK, CipherCtx (derive_key c) 0 (key c) (hmac_key c) None, h)
  | None => Some (SQLITE_OK, CipherCtx (derive_key c) 0 (key c) (hmac_key c) None, h)
  end.

Definition set_derive1 (c : cipher_ctx) : cipher_ctx :=
  CipherCtx 1 (pass_sz c) (key c) (hmac_key c) (pass c).

Definition sqlcipher_codec_ctx_set_pass (ctx : ctx_t) (zKey : option bytes)
  (nKey for_ctx : Z) (h : A) : option (Z * ctx_t * A) :=
  let? (p, c) := (if for_ctx =? 0 then read_ctx ctx else write_ctx ctx) in
  let store := fun c (ctx : ctx_t) =>
    if for_ctx =? 0 then set_read_ctx (Some (p, c)) ctx
    else set_write_ctx (Some (p, c)) ctx in
  let? (rc, c, h) := sqlcipher_cipher_ctx_set_pass c zKey nKey h in
  if rc <>? SQLITE_OK then Some (rc, store c ctx, h) else
  let c := set_derive1 c in
  let ctx := store c ctx in
  if for_ctx =? 2 then
    let? (pt, t) := read_ctx ctx in
    let? (rc, t, h) := sqlcipher_cipher_ctx_copy ctx t c h in
    Some (rc, set_read_ctx (Some (pt, t)) ctx, h)
  else Some (SQLITE_OK, ctx, h).

(** *** Configuration *)

Definition sqlcipher_codec_ctx_set_kdf_iter (ctx : ctx_t) (iter : Z) : Z * ctx_t :=
  if FLAG_GET (flags ctx) CIPHER_FLAG_KEY_USED then (SQLITE_OK, ctx) else
  (SQLITE_OK, sqlcipher_set_derive_key (set_kdf_iter iter ctx) 1).

Definition sqlcipher_codec_ctx_set_fast_kdf_iter (ctx : ctx_t) (iter : Z) : Z * ctx_t :=
  if FLAG_GET (flags ctx) CIPHER_FLAG_KEY_USED then (SQLITE_OK, ctx) else
  (SQLITE_OK, sqlcipher_set_derive_key (set_fast_kdf_iter iter ctx) 1).

Definition sqlcipher_set_default_use_hmac (use : bool) (g : globals) : globals :=
  Globals (if use then FLAG_SET (default_flags g) CIPHER_FLAG_HMAC
           else FLAG_UNSET (default_flags g) CIPHER_FLAG_HMAC)
    (default_kdf_iter g) (default_page_size g) (default_plaintext_header_size g)
    (default_hmac_algorithm g) (default_kdf_algorithm g) (hmac_salt_mask g)
    (sqlcipher_shield_mask g).

Definition sqlcipher_codec_ctx_set_use_hmac (ctx : ctx_t) (use : bool) : Z * ctx_t :=
  if FLAG_GET (flags ctx) CIPHER_FLAG_KEY_USED then (SQLITE_OK, ctx) else
  let ctx := if use then set_flags (FLAG_SET (flags ctx) CIPHER_FLAG_HMAC) ctx
             else set_flags (FLAG_UNSET (flags ctx) CIPHER_FLAG_HMAC) ctx in
  sqlcipher_codec_ctx_reserve_setup ctx.

Definition sqlcipher_codec_ctx_set_plaintext_header_size (ctx : ctx_t) (size : Z)
  : Z * ctx_t :=
  if (0 <=? size) && (0 <? block_sz ctx) && (Z.rem size (block_sz ctx) =? 0)
     && (size <=? page_sz ctx - reserve_sz ctx)
  then (SQLITE_OK, set_plaintext_header_sz size ctx)
  else (SQLITE_ERROR, set_plaintext_header_sz (-1) ctx).

Definition sqlcipher_codec_ctx_set_hmac_algorithm (ctx : ctx_t) (algorithm : Z)
  : Z * ctx_t :=
  if FLAG_GET (flags ctx) CIPHER_FLAG_KEY_USED then (SQLITE_OK, ctx) else
  sqlcipher_codec_ctx_reserve_setup (set_hmac_algorithm algorithm ctx).

Definition sqlcipher_codec_ctx_set_kdf_algorithm (ctx : ctx_t) (algorithm : Z)
  : Z * ctx_t :=
  if FLAG_GET (flags ctx) CIPHER_FLAG_KEY_USED then (SQLITE_OK, ctx) else
  (SQLITE_OK, set_kdf_algorithm algorithm ctx).

Definition sqlcipher_codec_ctx_set_error (ctx : ctx_t) (err : Z) : ctx_t :=
  let bt := pBt ctx in
  set_error err
    (set_pBt (BTree (bt_inTransaction bt)
                (if bt_inTransaction bt <>? TRANS_WRITE then true else bt_read_only bt)
                err (bt_autoVacuum bt) (bt_header bt)) ctx).

(** The salt comes from the file header, or is random when that cannot be read. *)
Definition sqlcipher_codec_ctx_init_kdf_salt (ctx : ctx_t) : option (Z * ctx_t) :=
  if FLAG_GET (flags ctx) CIPHER_FLAG_HAS_KDF_SALT then Some (SQLITE_OK, ctx) else
  let? salt := kdf_salt ctx in
  let with_salt := fun d (ctx : ctx_t) => set_kdf_salt (Some (Buf (b_ptr salt) d)) ctx in
  let? (ok, d) :=
    (match bt_header (pBt ctx) with
     | None => Some (false, b_data salt)
     | Some (rc, hd) => let? d := mem_write (b_data salt) 0 hd in Some (rc =? SQLITE_OK, d)
     end) in
  if ok : bool then
    Some (SQLITE_OK,
          set_flags (FLAG_SET (flags ctx) CIPHER_FLAG_HAS_KDF_SALT) (with_salt d ctx))
  else
    let? pc := provider_ctx ctx in
    let '(rc, rnd, pc) := pv_random P pc (kdf_salt_sz ctx) in
    let? d := mem_write d 0 rnd in
    let ctx := set_provider_ctx (Some pc) (with_salt d ctx) in
    if rc <>? SQLITE_OK then Some (SQLITE_ERROR, ctx)
    else Some (SQLITE_OK, set_flags (FLAG_SET (flags ctx) CIPHER_FLAG_HAS_KDF_SALT) ctx).

Definition sqlcipher_codec_ctx_set_kdf_salt (ctx : ctx_t) (salt : bytes) (size : Z)
  : option (Z * ctx_t) :=
  if FLAG_GET (flags ctx) CIPHER_FLAG_KEY_USED then Some (SQLITE_OK, ctx) else
  if kdf_salt_sz ctx <=? size then
    let? b := kdf_salt ctx in
    let? d := mem_read salt 0 (kdf_salt_sz ctx) in
    let? d' := mem_write (b_data b) 0 d in
    Some (SQLITE_OK, set_flags (FLAG_SET (flags ctx) CIPHER_FLAG_HAS_KDF_SALT)
                       (set_kdf_salt (Some (Buf (b_ptr b) d')) ctx))
  else Some (SQLITE_ERROR, ctx).

(** Return code, the salt's buffer, and the context. *)
Definition sqlcipher_codec_ctx_get_kdf_salt (ctx : ctx_t)
  : option (Z * option buf * ctx_t) :=
  let? (rc, ctx) := (if negb (FLAG_GET (flags ctx) CIPHER_FLAG_HAS_KDF_SALT)
                then sqlcipher_codec_ctx_init_kdf_salt ctx else Some (SQLITE_OK, ctx)) in
  Some (rc, kdf_salt ctx, ctx).

Definition sqlcipher_codec_ctx_set_pagesize (ctx : ctx_t) (size : Z) (h : A)
  : option (Z * ctx_t * A) :=
  if FLAG_GET (flags ctx) CIPHER_FLAG_KEY_USED then Some (SQLITE_OK, ctx, h) else
  if negb ((size <>? 0) && (Z.land size (size - 1) =? 0)) || (size <? 512)
     || (65536 <? size)
  then Some (SQLITE_ERROR, ctx, h) else
  let? h := free_opt (buffer ctx) (page_sz ctx) h in
  let ctx := set_page_sz size ctx in
  let? (r, h) := alloc_buf size h in
  let ctx := set_buffer r ctx in
  match r with
  | None => Some (SQLITE_NOMEM, ctx, h)
  | Some _ => Some (SQLITE_OK, ctx, h)
  end.

(** *** Creation and destruction *)

Definition sqlcipher_codec_ctx_free (iCtx : option (Z * ctx_t)) (h : A) : option A :=
  match iCtx with
  | None => Some h
  | Some (p, ctx) =>
      let? h := free_opt (kdf_salt ctx) (kdf_salt_sz ctx) h in
      let? h := free_opt (hmac_kdf_salt ctx) (kdf_salt_sz ctx) h in
      let? h := free_opt (buffer ctx) (page_sz ctx) h in
      let? h := (match read_ctx ctx with
           | Some c => sqlcipher_cipher_ctx_free ctx c h | None => Some h end) in
      let? h := (match write_ctx ctx with
           | Some c => sqlcipher_cipher_ctx_free ctx c h | None => Some h end) in
      a_free p sizeof_codec_ctx h
  end.

(** The zeroed context that the allocator returns, attached to its B-tree. *)
Definition blank_ctx (bt : btree) : ctx_t :=
  CodecCtx 0 0 0 0 0 0 0 0 0 0 0 0 0 0 0 None None None bt None None None.

(** [goto error]: free what has been set up and hand back no context. *)
Definition init_error (p : Z) (rc : Z) (ctx : ctx_t) (h : A)
  : option (Z * option (Z * ctx_t) * A) :=
  let? h := sqlcipher_codec_ctx_free (Some (p, ctx)) h in
  Some (rc, None, h).

(** The last part of the initialisation: the two cipher contexts and the key
    material. *)
Definition init_ciphers (p : Z) (zKey : option bytes) (nKey : Z) (ctx : ctx_t) (h : A)
  : option (Z * option (Z * ctx_t) * A) :=
  let? (rc, r, h) := sqlcipher_cipher_ctx_init ctx h in
  let ctx := set_read_ctx r ctx in
  if rc <>? SQLITE_OK then init_error p rc ctx h else
  let? (rc, w, h) := sqlcipher_cipher_ctx_init ctx h in
  let ctx := set_write_ctx w ctx in
  if rc <>? SQLITE_OK then init_error p rc ctx h else
  let? (rc, ctx, h) := sqlcipher_codec_ctx_set_pass ctx zKey nKey 0 h in
  if rc <>? SQLITE_OK then init_error p rc ctx h else
  let? (pw, w) := write_ctx ctx in
  let? (pr, r) := read_ctx ctx in
  let? (rc, w, h) := sqlcipher_cipher_ctx_copy ctx w r h in
  let ctx := set_write_ctx (Some (pw, w)) ctx in
  if rc <>? SQLITE_OK then init_error p rc ctx h else
  Some (SQLITE_OK, Some (p, ctx), h).

(** The part of the initialisation after the page size: the configuration. *)
Definition init_contexts (p : Z) (zKey : option bytes) (nKey : Z) (ctx : ctx_t) (h : A)
  : option (Z * option (Z * ctx_t) * A) :=
  let '(rc, ctx) := sqlcipher_codec_ctx_set_kdf_iter ctx (default_kdf_iter G) in
  if rc <>? SQLITE_OK then init_error p rc ctx h else
  let '(rc, ctx) := sqlcipher_codec_ctx_set_fast_kdf_iter ctx FAST_PBKDF2_ITER in
  if rc <>? SQLITE_OK then init_error p rc ctx h else
  let '(rc, ctx) := sqlcipher_codec_ctx_set_hmac_algorithm ctx (default_hmac_algorithm G) in
  if rc <>? SQLITE_OK then init_error p rc ctx h else
  let '(rc, ctx) := sqlcipher_codec_ctx_set_use_hmac ctx
                      (FLAG_GET (default_flags G) CIPHER_FLAG_HMAC) in
  if rc <>? SQLITE_OK then init_error p rc ctx h else
  let '(rc, ctx) := sqlcipher_codec_ctx_set_kdf_algorithm ctx (default_kdf_algorithm G) in
  if rc <>? SQLITE_OK then init_error p rc ctx h else
  let '(rc, ctx) := sqlcipher_codec_ctx_set_plaintext_header_size ctx
                      (default_plaintext_header_size G) in
  if rc <>? SQLITE_OK then init_error p rc ctx h else
  init_ciphers p zKey nKey ctx h.

Definition sqlcipher_codec_ctx_init (bt : btree) (zKey : option bytes) (nKey : Z) (h : A)
  : option (Z * option (Z * ctx_t) * A) :=
  let? (r, h) := a_malloc sizeof_codec_ctx h in
  match r with
  | None => Some (SQLITE_NOMEM, None, h)
  | Some p =>
      let ctx := set_kdf_salt_sz FILE_HEADER_SZ (blank_ctx bt) in
      let? (s, h) := alloc_buf (kdf_salt_sz ctx) h in
      let ctx := set_kdf_salt s ctx in
      if bool_decide (s = None) then init_error p SQLITE_NOMEM ctx h else
      let? (s, h) := alloc_buf (kdf_salt_sz ctx) h in
      let ctx := set_hmac_kdf_salt s ctx in
      if bool_decide (s = None) then init_error p SQLITE_NOMEM ctx h else
      let ctx := set_flags (default_flags G) ctx in
      let '(rc, pc) := pv_ctx_init P in
      let ctx := set_provider_ctx pc ctx in
      if rc <>? SQLITE_OK then init_error p rc ctx h else
      let ctx := set_block_sz (pv_get_block_sz P)
                   (set_iv_sz (pv_get_iv_sz P) (set_key_sz (pv_get_key_sz P) ctx)) in
      let? (rc, ctx, h) := sqlcipher_codec_ctx_set_pagesize ctx (default_page_size G) h in
      if rc <>? SQLITE_OK then init_error p rc ctx h else
      init_contexts p zKey nKey ctx h
  end.

(** *** The key specification of a context *)

(** Encode the bytes of a shielded key at [out + off]; the key is unshielded for the
    time of the encoding. *)
Definition encode_key (ctx : ctx_t) (k : option buf) (out : bytes) (off : Z)
  : option (bytes * option buf) :=
  let? kb := k in
  let? k1 := sqlcipher_shield (sqlcipher_shield_mask G) (b_data kb) (key_sz ctx) in
  let? out := cipher_bin2hex k1 (key_sz ctx) out off in
  let? k2 := sqlcipher_shield (sqlcipher_shield_mask G) k1 (key_sz ctx) in
  Some (out, Some (Buf (b_ptr kb) k2)).

(** Fill the [sz] bytes of a key specification: x'..' around the encoded keys and the
    salt. Returns the buffer and the two key buffers. *)
Definition keyspec_fill (ctx : ctx_t) (c : cipher_ctx) (hmac : bool) (sz : Z) (out : bytes)
  : option (bytes * option buf * option buf) :=
  let? out := mem_put out 0 120 in          (* 'x' *)
  let? out := mem_put out 1 39 in           (* '\'' *)
  let? (out, k) := encode_key ctx (key c) out 2 in
  let off := 2 + key_sz ctx * 2 in
  let? (out, hk, off) :=
    (if hmac then
       let? (out, hk) := encode_key ctx (hmac_key c) out off in
       Some (out, hk, off + key_sz ctx * 2)
     else Some (out, hmac_key c, off)) in
  let? salt := kdf_salt ctx in
  let? out := cipher_bin2hex (b_data salt) (kdf_salt_sz ctx) out off in
  let? out := mem_put out (sz - 1) 39 in
  Some (out, k, hk).

(** Return code, the key specification, its size, the cipher context. *)
Definition sqlcipher_cipher_ctx_get_keyspec (ctx : ctx_t) (c : cipher_ctx) (h : A)
  : option (Z * option buf * Z * cipher_ctx * A) :=
  let hmac := FLAG_GET (flags ctx) CIPHER_FLAG_HMAC in
  let sz := if hmac then (key_sz ctx + key_sz ctx + kdf_salt_sz ctx) * 2 + 3
            else (key_sz ctx + kdf_salt_sz ctx) * 2 + 3 in
  let? (r, h) := alloc_buf sz h in
  match r with
  | None => Some (SQLITE_NOMEM, None, 0, c, h)
  | Some b =>
      let? (out, k, hk) := keyspec_fill ctx c hmac sz (b_data b) in
      Some (SQLITE_OK, Some (Buf (b_ptr b) out), sz,
            CipherCtx (derive_key c) (pass_sz c) k hk (pass c), h)
  end.

End Operations.
