(* ===== verification/Demo.v ===== *)
(** * A concrete provider and allocator

    A small provider with the interface of [CodecCtx.provider] and an allocator that
    keeps a ledger. They show that the hypotheses [ProviderOk] and [AllocatorOk] can
    be met together and let the theorems be run on concrete contexts. *)

From S2P Require Import Prelude CipherUtil CodecCtx.
Import MemOps.

(** A four-byte sum of everything hashed: enough to tell page numbers apart. *)
Definition demo_sum (l : bytes) : bytes :=
  let s := fold_left (fun a b => a * 31 + b) l 7 in
  [u8 s; u8 (Z.shiftr s 8); u8 (Z.shiftr s 16); u8 (Z.shiftr s 24)].

(** XOR with the first byte of the key. *)
Definition demo_xor (k i : bytes) : Z * bytes :=
  if bool_decide (bytes_ok i)
  then (SQLITE_OK, (fun b => Z.lxor b (u8 (default 0 (k !! 0%nat)))) <$> i)
  else (SQLITE_ERROR, []).

Definition demo_provider : provider := {|
  pv_ctx := Z;
  pv_random := fun c n => (SQLITE_OK, replicate (Z.to_nat n) (u8 c), c + 1);
  pv_hmac := fun _ k i1 i2 => (SQLITE_OK, demo_sum (k ++ i1 ++ i2));
  pv_kdf := fun alg p s it n =>
    (SQLITE_OK, (fun j => u8 (Z.of_nat j + fold_left Z.add (p ++ s) it)) <$> seq 0 (Z.to_nat n));
  pv_cipher := fun _ k _ i => demo_xor k i;
  pv_get_key_sz := 4;
  pv_get_iv_sz := 4;
  pv_get_block_sz := 4;
  pv_get_hmac_sz := fun _ => 4;
  pv_ctx_init := (SQLITE_OK, Some 1)
|}.

Lemma demo_sum_ok l : bytes_ok (demo_sum l).
Proof. unfold demo_sum. repeat constructor; apply u8_range. Qed.

Lemma demo_xor_ok k i rc b :
  demo_xor k i = (rc, b) ->
  bytes_ok b /\ len b <= len i /\ (rc = SQLITE_OK -> len b = len i).
Proof.
  unfold demo_xor. case_bool_decide as Hi; intros [= <- <-].
  - split_and!; [|rewrite length_fmap; lia..]. apply Forall_fmap.
    eapply Forall_impl; [|exact Hi]. intros x Hx. simpl. auto with cint cbytes.
  - split_and!; [constructor|simpl; lia|done].
Qed.

Lemma demo_xor_inverse k i b :
  demo_xor k i = (SQLITE_OK, b) -> demo_xor k b = (SQLITE_OK, i).
Proof.
  intros E. pose proof (demo_xor_ok _ _ _ _ E) as (Hb & _).
  unfold demo_xor in *. case_bool_decide as Hi; [|done]. injection E as <-.
  rewrite bool_decide_eq_true_2 by done. f_equal.
  rewrite <- list_fmap_compose. rewrite <- (list_fmap_id i) at 2.
  apply list_fmap_ext. intros _ x _. apply lxor_twice.
Qed.

#[global] Instance demo_provider_ok : ProviderOk demo_provider.
Proof.
  split; simpl; unfold CIPHER_MAX_KEY_SZ, CIPHER_MAX_IV_SZ; try lia.
  - intros c n rc b c' Hn [= <- <- <-]. rewrite length_replicate.
    split_and!; [|lia..]. apply Forall_replicate. apply u8_range.
  - intros _ k i1 i2 rc b [= <- <-]. split_and!; [apply demo_sum_ok|simpl; lia..].
  - intros _ p s it n rc b Hn [= <- <-]. rewrite length_fmap, length_seq.
    split_and!; [|lia..]. apply Forall_fmap, Forall_true. intros; apply u8_range.
  - intros _ k _ i rc b. apply demo_xor_ok.
  - intros k _ i b. apply demo_xor_inverse.
  - intros r [= <-]. eauto.
Qed.

(** ** The ledger *)

Record ledger := Ledger { lg_next : Z; lg_room : Z; lg_live : list (Z * Z) }.

#[global] Instance ledger_alloc : Allocator ledger := {
  a_malloc n h :=
    if n <=? lg_room h
    then Some (Some (lg_next h), Ledger (lg_next h + Z.max 1 n) (lg_room h - Z.max 0 n)
                                   ((lg_next h, Z.max 0 n) :: lg_live h))
    else Some (None, h);
  a_free p n h :=
    if existsb (fun b => (b.1 =? p) && (n <=? b.2)) (lg_live h)
    then Some (Ledger (lg_next h) (lg_room h)
                 (filter (fun b => b.1 <> p) (lg_live h)))
    else None
}.

Definition ledger_inv (h : ledger) : Prop :=
  NoDup (lg_live h).*1 /\ Forall (fun b => b.1 < lg_next h) (lg_live h).

Lemma filter_keep {X} (Q : X -> Prop) `{!forall x, Decision (Q x)} (l : list X) :
  (forall x, x ∈ l -> Q x) -> filter Q l = l.
Proof.
  induction l as [|x l IH]; intros HQ; [done|].
  rewrite filter_cons_True by (apply HQ; constructor). f_equal.
  apply IH. intros y Hy. apply HQ. by constructor.
Qed.

Lemma filter_sublist {X} (Q : X -> Prop) `{!forall x, Decision (Q x)} (l : list X) :
  sublist (filter Q l) l.
Proof.
  induction l as [|x l IH]; [constructor|]. rewrite filter_cons.
  case_decide; by constructor.
Qed.

Lemma ledger_remove p m (L l : list (Z * Z)) :
  NoDup l.*1 -> l ≡ₚ (p, m) :: L -> filter (fun b => b.1 <> p) l ≡ₚ L.
Proof.
  intros Hnd Hp. rewrite Hp in Hnd |- *. cbn [fmap list_fmap] in Hnd.
  apply list.NoDup_cons in Hnd as [Hni _]. rewrite filter_cons_False by (simpl; tauto).
  rewrite filter_keep; [done|]. intros [q k] Hq E. simpl in *.
  subst. apply Hni. apply list_elem_of_fmap. by exists (p, k).
Qed.

Lemma ledger_malloc_ok n h : ledger_inv h ->
  exists r h', a_malloc n h = Some (r, h') /\ ledger_inv h' /\
    match r with
    | None => lg_live h' ≡ₚ lg_live h
    | Some p => exists m, n <= m /\ lg_live h' ≡ₚ (p, m) :: lg_live h
    end.
Proof.
  intros [Hnd Hlt]. simpl. case_cond; [|exists None, h; by split_and!].
  do 2 eexists. split; [done|]. split; [split; simpl|].
  - constructor; [|done]. intros (b & E & Hb)%list_elem_of_fmap.
    rewrite list.Forall_forall in Hlt. specialize (Hlt b Hb). simpl in E. lia.
  - constructor; [simpl; lia|]. eapply Forall_impl; [|exact Hlt]. simpl. lia.
  - exists (Z.max 0 n). split; [lia|done].
Qed.

Lemma ledger_free_ok p n m L h : ledger_inv h -> lg_live h ≡ₚ (p, m) :: L -> 0 <= n <= m ->
  exists h', a_free p n h = Some h' /\ ledger_inv h' /\ lg_live h' ≡ₚ L.
Proof.
  intros [Hnd Hlt] Hp Hn. simpl.
  assert (Hin : (p, m) ∈ lg_live h) by (rewrite Hp; constructor).
  assert (existsb (fun b => (b.1 =? p) && (n <=? b.2)) (lg_live h) = true) as ->.
  { apply existsb_exists. exists (p, m). rewrite <- list_elem_of_In. simpl.
    split; [done|]. apply andb_true_iff. rewrite Z.eqb_refl, Z.leb_le. lia. }
  eexists. split; [done|]. split; [split; simpl|].
  - eapply sublist_NoDup; [exact Hnd|]. apply fmap_sublist, filter_sublist.
  - apply list.Forall_forall. intros b [_ Hb]%list_elem_of_filter.
    rewrite list.Forall_forall in Hlt. by apply Hlt.
  - by eapply ledger_remove.
Qed.

#[global] Instance ledger_ok : AllocatorOk ledger := {|
  a_inv := ledger_inv; a_live := lg_live;
  a_malloc_ok := ledger_malloc_ok; a_free_ok := ledger_free_ok
|}.

(** ** A concrete context *)

Definition demo_mask : bytes := [165; 90; 17].
Definition demo_globals : globals := initial_globals demo_mask.

Definition demo_buf (p : Z) (v : Z) : buf := Buf p (shielded demo_mask [v; v; v; v]).
Definition demo_cipher (p : Z) : cipher_ctx :=
  CipherCtx 0 0 (Some (demo_buf (p + 1) 9)) (Some (demo_buf (p + 2) 77)) None.
Definition demo_btree : btree := BTree 0 false 0 0 None.

(** A keyed context with the small provider: HMAC on, pages of 512 bytes. *)
Definition demo_ctx : codec_ctx demo_provider :=
  @CodecCtx demo_provider 0 4 2 16 4 4 4 512 8 4 0 2 2 SQLITE_OK
    (Z.lor (Z.lor CIPHER_FLAG_HMAC CIPHER_FLAG_LE_PGNO) CIPHER_FLAG_HAS_KDF_SALT)
    (Some (Buf 10 (replicate 16 3))) (Some (Buf 30 (replicate 16 0)))
    (Some (Buf 1000 (replicate 512 0))) demo_btree
    (Some (50, demo_cipher 50)) (Some (60, demo_cipher 60)) (Some 1).
