(* ===== verification/CodecCrypto.v ===== *)
(** * Page encryption and key derivation of src/sqlcipher.c

    [sqlcipher_page_hmac], [sqlcipher_page_cipher], [sqlcipher_cipher_ctx_key_derive],
    [sqlcipher_codec_key_derive], [sqlcipher_codec_key_copy] and the pager callback
    [sqlite3Codec].

    A page buffer is a list of bytes. The input of [sqlcipher_page_cipher] is the
    pager's page, its output a suffix of the context's own buffer, so the two never
    overlap. The model is the build without SQLCIPHER_TEST (no simulated failures);
    the shared-cache mutex, which serialises whole calls, is left out. *)

From S2P Require Import Prelude CipherUtil UtilStr CodecCtx.
Import Hex MemOps Xoshiro.

Definition CODEC_READ_OP : Z := 3.
Definition CODEC_WRITE_OP : Z := 6.
Definition CODEC_JOURNAL_OP : Z := 7.

(** "SQLite format 3" and its terminator. *)
Definition SQLITE_FILE_HEADER : bytes :=
  [83; 81; 76; 105; 116; 101; 32; 102; 111; 114; 109; 97; 116; 32; 51; 0].

(** [sqlite3Put4byte] of src/util.c: big-endian. *)
Definition sqlite3Put4byte (v : Z) : bytes :=
  [u8 (Z.shiftr v 24); u8 (Z.shiftr v 16); u8 (Z.shiftr v 8); u8 v].

(** The buffer from [off] on, as a pointer into it. *)
Definition ptr_at (b : bytes) (off : Z) : option bytes :=
  if (0 <=? off) && (off <=? len b) then Some (drop (Z.to_nat off) b) else None.

Section Crypto.
Context {A : Type} `{Allocator A} {P : provider} (G : globals).
Abbreviation ctx_t := (codec_ctx P).
Abbreviation mask := (sqlcipher_shield_mask G).

(** The page number as it enters the HMAC; "native" is little-endian here. *)
Definition pgno_raw (flags pgno : Z) : bytes :=
  if FLAG_GET flags CIPHER_FLAG_LE_PGNO then sqlcipher_put4byte_le pgno
  else if FLAG_GET flags CIPHER_FLAG_BE_PGNO then sqlite3Put4byte pgno
  else sqlcipher_put4byte_le pgno.

(** Return code, tag, and the HMAC key's buffer after the second shielding. *)
Definition sqlcipher_page_hmac (ctx : ctx_t) (c : cipher_ctx) (pgno : Z)
  (inp : bytes) (in_sz : Z) : option (Z * bytes * cipher_ctx) :=
  let? hk := hmac_key c in
  let? k1 := sqlcipher_shield mask (b_data hk) (key_sz ctx) in
  let? kk := mem_read k1 0 (key_sz ctx) in
  let? data := mem_read inp 0 in_sz in
  let '(rc, out) := pv_hmac P (hmac_algorithm ctx) kk data (pgno_raw (flags ctx) pgno) in
  let? k2 := sqlcipher_shield mask k1 (key_sz ctx) in
  Some (rc, out, CipherCtx (derive_key c) (pass_sz c) (key c)
                   (Some (Buf (b_ptr hk) k2)) (pass c)).

(** The provider's cipher under the unshielded key. *)
Definition page_provider_cipher (ctx : ctx_t) (c : cipher_ctx) (mode : Z)
  (iv data : bytes) : option (Z * bytes * cipher_ctx) :=
  let? kb := key c in
  let? k1 := sqlcipher_shield mask (b_data kb) (key_sz ctx) in
  let? kk := mem_read k1 0 (key_sz ctx) in
  let '(rc, out) := pv_cipher P mode kk iv data in
  let? k2 := sqlcipher_shield mask k1 (key_sz ctx) in
  Some (rc, out, CipherCtx (derive_key c) (pass_sz c) (Some (Buf (b_ptr kb) k2))
                   (hmac_key c) (pass c)).

(** [error: sqlcipher_memset(out, 0, page_sz); return SQLITE_ERROR;] *)
Definition page_error (page_sz : Z) (c : cipher_ctx) (ctx : ctx_t) (out : bytes)
  : option (Z * cipher_ctx * ctx_t * bytes) :=
  let? r := sqlcipher_memset (Some out) 0 page_sz in
  let? out := r in
  Some (SQLITE_ERROR, c, ctx, out).

(** The check of the page's HMAC before decryption: [inl] carries the final result
    when the function returns here, [inr] the state with which it goes on. *)
Definition page_verify (ctx : ctx_t) (c : cipher_ctx) (pgno page_sz size : Z)
  (inp out : bytes)
  : option ((Z * cipher_ctx * ctx_t * bytes) + (cipher_ctx * bytes)) :=
  if FLAG_GET (flags ctx) CIPHER_FLAG_HMAC then
    let? (rc, tag, c) := sqlcipher_page_hmac ctx c pgno inp (size + iv_sz ctx) in
    let? out := mem_write out (size + iv_sz ctx) tag in
    if rc <>? SQLITE_OK then
      let? r := page_error page_sz c ctx out in Some (inl r)
    else
    let? hmac_in := ptr_at inp (size + iv_sz ctx) in
    let? hmac_out := ptr_at out (size + iv_sz ctx) in
    let? differ := sqlcipher_memcmp hmac_in hmac_out (hmac_sz ctx) in
    if differ <>? 0 then
      let? notzero := (if bt_autoVacuum (pBt ctx) <>? BTREE_AUTOVACUUM_NONE
                       then sqlcipher_ismemset inp 0 page_sz else Some 1) in
      if notzero =? 0 then
        let? r := sqlcipher_memset (Some out) 0 page_sz in
        let? out := r in
        Some (inl (SQLITE_OK, c, ctx, out))
      else let? r := page_error page_sz c ctx out in Some (inl r)
    else Some (inr (c, out))
  else Some (inr (c, out)).

(** The provider's cipher and, when encrypting, the HMAC over its output. *)
Definition page_transform (ctx : ctx_t) (c : cipher_ctx) (pgno mode page_sz size : Z)
  (inp out : bytes) : option (Z * cipher_ctx * ctx_t * bytes) :=
  let? iv := mem_read out size (iv_sz ctx) in
  let? data := mem_read inp 0 size in
  let? (rc, o, c) := page_provider_cipher ctx c mode iv data in
  let? out := mem_write out 0 o in
  if rc <>? SQLITE_OK then page_error page_sz c ctx out else
  if FLAG_GET (flags ctx) CIPHER_FLAG_HMAC && (mode =? SQLCIPHER_ENCRYPT) then
    let? (rc, tag, c) := sqlcipher_page_hmac ctx c pgno out (size + iv_sz ctx) in
    let? out := mem_write out (size + iv_sz ctx) tag in
    if rc <>? SQLITE_OK then page_error page_sz c ctx out
    else Some (SQLITE_OK, c, ctx, out)
  else Some (SQLITE_OK, c, ctx, out).

(** The body of [sqlcipher_page_cipher] on the cipher context it selects. *)
Definition page_cipher_ctx (ctx : ctx_t) (c : cipher_ctx) (pgno mode page_sz : Z)
  (inp out : bytes) : option (Z * cipher_ctx * ctx_t * bytes) :=
  let size := page_sz - reserve_sz ctx in
  if (pgno =? 1) && (size =? 0) then Some (SQLITE_OK, c, ctx, out) else
  if key_sz ctx =? 0 then page_error page_sz c ctx out else
  if mode =? SQLCIPHER_ENCRYPT then
    let? pc := provider_ctx ctx in
    let '(rc, rnd, pc) := pv_random P pc (reserve_sz ctx) in
    let ctx := set_provider_ctx (Some pc) ctx in
    let? out := mem_write out size rnd in
    if rc <>? SQLITE_OK then page_error page_sz c ctx out
    else page_transform ctx c pgno mode page_sz size inp out
  else
    let? iv := mem_read inp size (iv_sz ctx) in
    let? out := mem_write out size iv in
    let? v := (if mode =? SQLCIPHER_DECRYPT
               then page_verify ctx c pgno page_sz size inp out
               else Some (inr (c, out))) in
    match v with
    | inl r => Some r
    | inr (c, out) => page_transform ctx c pgno mode page_sz size inp out
    end.

Definition sqlcipher_page_cipher (ctx : ctx_t) (for_ctx pgno mode page_sz : Z)
  (inp out : bytes) : option (Z * ctx_t * bytes) :=
  let? (p, c) := (if for_ctx =? 0 then read_ctx ctx else write_ctx ctx) in
  let? (rc, c, ctx, out) := page_cipher_ctx ctx c pgno mode page_sz inp out in
  Some (rc, if for_ctx =? 0 then set_read_ctx (Some (p, c)) ctx
            else set_write_ctx (Some (p, c)) ctx, out).

(** ** Key derivation *)

(** The passphrase has the form of a BLOB literal x'..' of hex digits. *)
Definition blob_format (c : cipher_ctx) (pb : bytes) : option bool :=
  if negb (5 <=? pass_sz c) then Some false else
  let? d := sqlite3_strnicmp (Some pb) (Some [120; 39; 0]) 2 in
  if d <>? 0 then Some false else
  let? e := mem_get pb (pass_sz c - 1) in
  if e <>? 39 then Some false else
  if Z.rem (pass_sz c - 3) 2 <>? 0 then Some false else
  let? z := ptr_at pb 2 in
  let? r := cipher_isHex z (pass_sz c - 3) in
  Some (r <>? 0).

(** [cipher_hex2bin] into an allocated buffer. *)
Definition hex_into (pb : bytes) (off n : Z) (b : option buf) : option (option buf) :=
  let? z := ptr_at pb off in
  let? t := b in
  let? d := cipher_hex2bin z n (b_data t) in
  Some (Some (Buf (b_ptr t) d)).

(** Key, HMAC key and salt after the first stage; the last components tell whether
    the HMAC key is still to be derived and the provider's return code. *)
Definition derive_main (ctx : ctx_t) (c : cipher_ctx) (pb : bytes)
  : option (Z * bool * option buf * option buf * option buf) :=
  let raw_key_sz := key_sz ctx * 2 in
  let raw_salt_sz := kdf_salt_sz ctx * 2 in
  let? blob := blob_format c pb in
  if blob && (pass_sz c =? raw_key_sz + 3) then
    let? k := hex_into pb 2 raw_key_sz (key c) in
    Some (SQLITE_OK, true, k, hmac_key c, kdf_salt ctx)
  else if blob && (pass_sz c =? raw_key_sz + raw_salt_sz + 3) then
    let? k := hex_into pb 2 raw_key_sz (key c) in
    let? s := hex_into pb (2 + raw_key_sz) raw_salt_sz (kdf_salt ctx) in
    Some (SQLITE_OK, true, k, hmac_key c, s)
  else if blob && (pass_sz c =? raw_key_sz + raw_key_sz + raw_salt_sz + 3) then
    let? k := hex_into pb 2 raw_key_sz (key c) in
    let? hk := hex_into pb (2 + raw_key_sz) raw_key_sz (hmac_key c) in
    let? s := hex_into pb (2 + raw_key_sz + raw_key_sz) raw_salt_sz (kdf_salt ctx) in
    Some (SQLITE_OK, false, k, hk, s)
  else
    let? p := mem_read pb 0 (pass_sz c) in
    let? sb := kdf_salt ctx in
    let? s := mem_read (b_data sb) 0 (kdf_salt_sz ctx) in
    let? kb := key c in
    let '(rc, o) := pv_kdf P (kdf_algorithm ctx) p s (kdf_iter ctx) (key_sz ctx) in
    let? k := mem_write (b_data kb) 0 o in
    Some (rc, true, Some (Buf (b_ptr kb) k), hmac_key c, kdf_salt ctx).

(** The salt of the HMAC key: the database salt XORed with the mask. *)
Definition mask_salt (n : Z) (s : bytes) : option bytes :=
  for_up 0 n 1 (fun i s =>
    let? x := mem_get s i in mem_put s i (Z.lxor x (hmac_salt_mask G))) s.

(** Return code, HMAC salt and HMAC key of the second stage. *)
Definition derive_hmac (ctx : ctx_t) (k hk salt : option buf)
  : option (Z * option buf * option buf) :=
  let? hs := copy_buf (hmac_kdf_salt ctx) salt (kdf_salt_sz ctx) in
  let? hsb := hs in
  let? d := mask_salt (kdf_salt_sz ctx) (b_data hsb) in
  let? kb := k in
  let? kk := mem_read (b_data kb) 0 (key_sz ctx) in
  let? s := mem_read d 0 (kdf_salt_sz ctx) in
  let? hkb := hk in
  let '(rc, o) := pv_kdf P (kdf_algorithm ctx) kk s (fast_kdf_iter ctx) (key_sz ctx) in
  let? h := mem_write (b_data hkb) 0 o in
  Some (rc, Some (Buf (b_ptr hsb) d), Some (Buf (b_ptr hkb) h)).

(** [xoshiro_randomness(b, n)] over an allocated buffer. *)
Definition scrub_buf (addr : Z) (rng : xoshiro) (b : option buf) (n : Z)
  : option (option buf * xoshiro) :=
  let? t := b in
  let '(noise, rng) := xoshiro_randomness addr rng n in
  let? d := mem_write (b_data t) 0 noise in
  Some (Some (Buf (b_ptr t) d), rng).

(** [error:] overwrite any derived key material. *)
Definition derive_error (addr : Z) (rng : xoshiro) (ctx : ctx_t) (c : cipher_ctx)
  : option (Z * ctx_t * cipher_ctx * xoshiro) :=
  let? (k, rng) := scrub_buf addr rng (key c) (key_sz ctx) in
  let? (hk, rng) := scrub_buf addr rng (hmac_key c) (key_sz ctx) in
  Some (SQLITE_ERROR, ctx, CipherCtx (derive_key c) (pass_sz c) k hk (pass c), rng).

Definition shield_buf (b : option buf) (n : Z) : option (option buf) :=
  let? t := b in
  let? d := sqlcipher_shield mask (b_data t) n in
  Some (Some (Buf (b_ptr t) d)).

(** After the main key: the HMAC key, and the shielding of both. *)
Definition derive_finish (addr : Z) (rng : xoshiro) (ctx : ctx_t) (c : cipher_ctx)
  (want_hmac : bool) (salt : option buf) : option (Z * ctx_t * cipher_ctx * xoshiro) :=
  let? (rc, hs, hk) :=
    (if FLAG_GET (flags ctx) CIPHER_FLAG_HMAC && want_hmac
     then derive_hmac ctx (key c) (hmac_key c) salt
     else Some (SQLITE_OK, hmac_kdf_salt ctx, hmac_key c)) in
  let ctx := set_hmac_kdf_salt hs ctx in
  let c := CipherCtx (derive_key c) (pass_sz c) (key c) hk (pass c) in
  if rc <>? SQLITE_OK then derive_error addr rng ctx c else
  let? k := shield_buf (key c) (key_sz ctx) in
  let? hk := shield_buf hk (key_sz ctx) in
  Some (SQLITE_OK, ctx, CipherCtx 0 (pass_sz c) k hk (pass c), rng).

Definition sqlcipher_cipher_ctx_key_derive (addr : Z) (rng : xoshiro) (ctx : ctx_t)
  (c : cipher_ctx) : option (Z * ctx_t * cipher_ctx * xoshiro) :=
  match pass c with
  | None => Some (SQLITE_ERROR, ctx, c, rng)
  | Some pb =>
    if pass_sz c =? 0 then Some (SQLITE_ERROR, ctx, c, rng) else
    let? (rc, ctx) :=
      (if negb (FLAG_GET (flags ctx) CIPHER_FLAG_HAS_KDF_SALT)
       then sqlcipher_codec_ctx_init_kdf_salt ctx else Some (SQLITE_OK, ctx)) in
    if rc <>? SQLITE_OK then derive_error addr rng ctx c else
    let? (rc, want_hmac, k, hk, salt) := derive_main ctx c (b_data pb) in
    let ctx := set_kdf_salt salt ctx in
    let c := CipherCtx (derive_key c) (pass_sz c) k hk (pass c) in
    if rc <>? SQLITE_OK then derive_error addr rng ctx c else
    derive_finish addr rng ctx c want_hmac salt
  end.

(** Derive the key of the write context: a copy of the read context when the
    passphrases agree. *)
Definition derive_write (addr : Z) (rng : xoshiro) (ctx : ctx_t) (h : A)
  : option (Z * ctx_t * xoshiro * A) :=
  let? (pw, w) := write_ctx ctx in
  if derive_key w =? 0 then Some (SQLITE_OK, ctx, rng, h) else
  let? (pr, r) := read_ctx ctx in
  let? d := sqlcipher_cipher_ctx_cmp w r in
  if d =? 0 then
    let? (rc, w, h) := sqlcipher_cipher_ctx_copy ctx w r h in
    let ctx := set_write_ctx (Some (pw, w)) ctx in
    Some (if rc <>? SQLITE_OK then SQLITE_ERROR else SQLITE_OK, ctx, rng, h)
  else
    let? (rc, ctx, w, rng) := sqlcipher_cipher_ctx_key_derive addr rng ctx w in
    let ctx := set_write_ctx (Some (pw, w)) ctx in
    Some (if rc <>? SQLITE_OK then SQLITE_ERROR else SQLITE_OK, ctx, rng, h).

(** Wipe and free the passphrases. *)
Definition drop_passes (ctx : ctx_t) (h : A) : option (ctx_t * A) :=
  let? (pr, r) := read_ctx ctx in
  let? (_, r, h) := sqlcipher_cipher_ctx_set_pass r None 0 h in
  let ctx := set_read_ctx (Some (pr, r)) ctx in
  let? (pw, w) := write_ctx ctx in
  let? (_, w, h) := sqlcipher_cipher_ctx_set_pass w None 0 h in
  Some (set_write_ctx (Some (pw, w)) ctx, h).

Definition sqlcipher_codec_key_derive (addr : Z) (rng : xoshiro) (ctx : ctx_t) (h : A)
  : option (Z * ctx_t * xoshiro * A) :=
  let? (pr, r) := read_ctx ctx in
  let? (rc, ctx, rng) :=
    (if derive_key r =? 0 then Some (SQLITE_OK, ctx, rng) else
     let? (rc, ctx, r, rng) := sqlcipher_cipher_ctx_key_derive addr rng ctx r in
     Some (rc, set_read_ctx (Some (pr, r)) ctx, rng)) in
  if rc <>? SQLITE_OK then Some (SQLITE_ERROR, ctx, rng, h) else
  let? (rc, ctx, rng, h) := derive_write addr rng ctx h in
  if rc <>? SQLITE_OK then Some (SQLITE_ERROR, ctx, rng, h) else
  if store_pass ctx <>? 1 then
    let? (ctx, h) := drop_passes ctx h in
    Some (SQLITE_OK, ctx, rng, h)
  else Some (SQLITE_OK, ctx, rng, h).

Definition sqlcipher_codec_key_copy (ctx : ctx_t) (source : Z) (h : A)
  : option (Z * ctx_t * A) :=
  let? (pr, r) := read_ctx ctx in
  let? (pw, w) := write_ctx ctx in
  if source =? CIPHER_READ_CTX then
    let? (rc, w, h) := sqlcipher_cipher_ctx_copy ctx w r h in
    Some (rc, set_write_ctx (Some (pw, w)) ctx, h)
  else
    let? (rc, r, h) := sqlcipher_cipher_ctx_copy ctx r w h in
    Some (rc, set_read_ctx (Some (pr, r)) ctx, h).

(** ** The pager callback *)

(** What [sqlite3Codec] returns: null, the caller's page, or the context's buffer. *)
Inductive codec_out := OutNull | OutData | OutBuffer.

Record codec_res := CodecRes {
  cr_out : codec_out;
  cr_data : bytes;              (* the caller's page *)
  cr_ctx : ctx_t;
  cr_rng : xoshiro;
  cr_heap : A
}.

(** The buffer of the context, with its first [offset] bytes replaced by [src]. *)
Definition put_header (ctx : ctx_t) (src : bytes) (offset : Z) : option bytes :=
  let? b := buffer ctx in
  let? d := mem_read src 0 offset in
  mem_write (b_data b) 0 d.

(** [sqlcipher_page_cipher(..., pData + offset, ctx->buffer + offset)] *)
Definition cipher_at (ctx : ctx_t) (cctx pgno mode offset : Z) (pData buf : bytes)
  : option (Z * ctx_t * bytes) :=
  let? i := ptr_at pData offset in
  let? o := ptr_at buf offset in
  let? (rc, ctx, o) := sqlcipher_page_cipher ctx cctx pgno mode (page_sz ctx - offset) i o in
  Some (rc, ctx, take (Z.to_nat offset) buf ++ o).

Definition with_buffer (ctx : ctx_t) (d : bytes) : ctx_t :=
  set_buffer ((fun b => Buf (b_ptr b) d) <$> buffer ctx) ctx.

(** [sqlcipher_memset(ctx->buffer + offset, 0, ctx->page_sz - offset)] *)
Definition zero_from (ctx : ctx_t) (buf : bytes) (offset : Z) : option bytes :=
  let? o := ptr_at buf offset in
  let? r := sqlcipher_memset (Some o) 0 (page_sz ctx - offset) in
  let? o := r in
  Some (take (Z.to_nat offset) buf ++ o).

Definition codec_read (ctx : ctx_t) (rng : xoshiro) (h : A) (pData : bytes)
  (pgno offset : Z) : option codec_res :=
  let? b := buffer ctx in
  let? buf := (if pgno =? 1
               then put_header ctx (if plaintext_header_sz ctx =? 0
                                    then SQLITE_FILE_HEADER else pData) offset
               else Some (b_data b)) in
  let? (rc, ctx, buf) :=
    cipher_at ctx CIPHER_READ_CTX pgno SQLCIPHER_DECRYPT offset pData buf in
  let? (ctx, buf) :=
    (if rc <>? SQLITE_OK then
       let? buf := zero_from ctx buf offset in
       Some (if plaintext_header_sz ctx =? page_sz ctx - reserve_sz ctx then ctx
             else sqlcipher_codec_ctx_set_error ctx rc, buf)
     else Some (set_flags (FLAG_SET (flags ctx) CIPHER_FLAG_KEY_USED) ctx, buf)) in
  let? d := mem_read buf 0 (page_sz ctx) in
  let? pData := mem_write pData 0 d in
  Some (CodecRes OutData pData (with_buffer ctx buf) rng h).

Definition codec_write (ctx : ctx_t) (rng : xoshiro) (h : A) (pData : bytes)
  (pgno cctx offset : Z) : option codec_res :=
  let? b := buffer ctx in
  let? (hrc, ctx, buf) :=
    (if pgno =? 1 then
       let? (rc, salt, ctx) := sqlcipher_codec_ctx_get_kdf_salt ctx in
       if rc <>? SQLITE_OK then Some (rc, ctx, b_data b) else
       let? sb := salt in
       let? buf := put_header ctx (if plaintext_header_sz ctx =? 0
                                   then b_data sb else pData) offset in
       Some (SQLITE_OK, ctx, buf)
     else Some (SQLITE_OK, ctx, b_data b)) in
  if hrc <>? SQLITE_OK then
    Some (CodecRes OutNull pData (sqlcipher_codec_ctx_set_error ctx hrc) rng h) else
  let? (rc, ctx, buf) := cipher_at ctx cctx pgno SQLCIPHER_ENCRYPT offset pData buf in
  if rc <>? SQLITE_OK then
    let? buf := zero_from ctx buf offset in
    Some (CodecRes OutNull pData
            (sqlcipher_codec_ctx_set_error (with_buffer ctx buf) rc) rng h)
  else
    Some (CodecRes OutBuffer pData
            (set_flags (FLAG_SET (flags ctx) CIPHER_FLAG_KEY_USED) (with_buffer ctx buf))
            rng h).

Definition sqlite3Codec (addr : Z) (rng : xoshiro) (ctx : ctx_t) (h : A)
  (pData : bytes) (pgno mode : Z) : option codec_res :=
  if error ctx <>? SQLITE_OK then
    let ctx := sqlcipher_codec_ctx_set_error ctx (error ctx) in
    if mode =? CODEC_READ_OP then
      let? r := sqlcipher_memset (Some pData) 0 (page_sz ctx) in
      let? pData := r in
      Some (CodecRes OutData pData ctx rng h)
    else Some (CodecRes OutNull pData ctx rng h)
  else
  let? (rc, ctx, rng, h) := sqlcipher_codec_key_derive addr rng ctx h in
  if rc <>? SQLITE_OK then
    Some (CodecRes OutNull pData (sqlcipher_codec_ctx_set_error ctx rc) rng h) else
  if plaintext_header_sz ctx <? 0 then
    Some (CodecRes OutNull pData (sqlcipher_codec_ctx_set_error ctx SQLITE_ERROR) rng h)
  else
  let offset := if pgno =? 1 then
                  (if plaintext_header_sz ctx =? 0 then FILE_HEADER_SZ
                   else plaintext_header_sz ctx) else 0 in
  if mode =? CODEC_READ_OP then codec_read ctx rng h pData pgno offset
  else if mode =? CODEC_WRITE_OP then
    codec_write ctx rng h pData pgno CIPHER_WRITE_CTX offset
  else if mode =? CODEC_JOURNAL_OP then
    codec_write ctx rng h pData pgno CIPHER_READ_CTX offset
  else Some (CodecRes OutData pData
               (sqlcipher_codec_ctx_set_error ctx SQLITE_ERROR) rng h).

End Crypto.
