(* ===== verification/CodecPage.v ===== *)
(** * Correctness of page encryption

    Theorems about [sqlcipher_page_cipher]: what an encrypted page looks like, that
    decryption inverts encryption, that a page that decrypts has a valid tag for its
    page number, and that every failure leaves a zeroed page.

    [cipher_wf] and [geometry_wf] are the parts of the context invariant these
    functions rely on; [CodecCtx.v]'s operations establish them (see CodecInv.v). *)

From S2P Require Import Prelude CipherUtil UtilStr CodecCtx Demo CodecCrypto.
Import Hex MemOps Xoshiro.

Section PageProofs.
Context {A : Type} `{Allocator A} {P : provider} `{!ProviderOk P} (G : globals).
Abbreviation ctx_t := (codec_ctx P).
Abbreviation mask := (sqlcipher_shield_mask G).
Context (mask_nonempty : mask <> []).

(** ** Well-formed contexts *)

(** Both key buffers are there and hold [key_sz] bytes. *)
Definition cipher_wf (n : Z) (c : cipher_ctx) : Prop :=
  exists k hk, key c = Some k /\ hmac_key c = Some hk /\
    len (b_data k) = n /\ len (b_data hk) = n.

(** Sizes as the provider reports them, and a reserve that holds the initialization
    vector and, with HMAC, the tag. *)
Record geometry_wf (ctx : ctx_t) : Prop := {
  gw_key : key_sz ctx = pv_get_key_sz P;
  gw_iv : iv_sz ctx = pv_get_iv_sz P;
  gw_block : block_sz ctx = pv_get_block_sz P;
  gw_hmac : hmac_sz ctx = pv_get_hmac_sz P (hmac_algorithm ctx);
  gw_reserve : iv_sz ctx +
    (if FLAG_GET (flags ctx) CIPHER_FLAG_HMAC then hmac_sz ctx else 0) <= reserve_sz ctx
}.

(** The keys in the clear. *)
Definition enc_key (c : cipher_ctx) : bytes :=
  shielded mask (from_option b_data [] (key c)).
Definition mac_key (c : cipher_ctx) : bytes :=
  shielded mask (from_option b_data [] (hmac_key c)).

(** The tag of a page. *)
Definition page_tag (ctx : ctx_t) (c : cipher_ctx) (pgno : Z) (body : bytes) : Z * bytes :=
  pv_hmac P (hmac_algorithm ctx) (mac_key c) body (pgno_raw (flags ctx) pgno).

Lemma shield_roundtrip (d : bytes) n :
  len d = n ->
  sqlcipher_shield mask d n = Some (shielded mask d) /\
  sqlcipher_shield mask (shielded mask d) n = Some d.
Proof.
  intros <-. rewrite !sqlcipher_shield_spec by (rewrite ?shielded_length; done || lia).
  rewrite !take_ge, !drop_ge by (rewrite ?shielded_length; lia).
  rewrite !app_nil_r, shielded_involutive. done.
Qed.

Lemma mem_read_all (d : bytes) n : len d = n -> mem_read d 0 n = Some d.
Proof.
  intros <-. rewrite mem_read_total by lia. simpl. rewrite drop_0, take_ge by lia. done.
Qed.

Lemma page_hmac_spec (ctx : ctx_t) c pgno inp n :
  cipher_wf (key_sz ctx) c -> 0 <= n <= len inp ->
  sqlcipher_page_hmac G ctx c pgno inp n =
  Some ((page_tag ctx c pgno (take (Z.to_nat n) inp)).1,
        (page_tag ctx c pgno (take (Z.to_nat n) inp)).2, c).
Proof.
  intros (k & hk & Ek & Eh & Lk & Lh) Hn.
  unfold sqlcipher_page_hmac, page_tag, mac_key. rewrite Eh. simpl.
  destruct (shield_roundtrip (b_data hk) (key_sz ctx) Lh) as [-> E2].
  rewrite mem_read_all by (rewrite shielded_length; lia).
  rewrite mem_read_total by lia. simpl. rewrite drop_0.
  destruct (pv_hmac _ _ _ _ _) as [rc out]. rewrite E2. simpl.
  repeat f_equal. destruct c, hk. simpl in *. by subst.
Qed.

Lemma provider_cipher_spec (ctx : ctx_t) c mode iv data :
  cipher_wf (key_sz ctx) c ->
  page_provider_cipher G ctx c mode iv data =
  Some ((pv_cipher P mode (enc_key c) iv data).1,
        (pv_cipher P mode (enc_key c) iv data).2, c).
Proof.
  intros (k & hk & Ek & Eh & Lk & Lh). unfold page_provider_cipher, enc_key.
  rewrite Ek. simpl. destruct (shield_roundtrip (b_data k) (key_sz ctx) Lk) as [-> E2].
  rewrite mem_read_all by (rewrite shielded_length; lia).
  destruct (pv_cipher _ _ _ _ _) as [rc out]. rewrite E2. simpl.
  repeat f_equal. destruct c, k. simpl in *. by subst.
Qed.

Lemma page_error_spec n c (ctx : ctx_t) out :
  0 <= n <= len out ->
  page_error n c ctx out =
  Some (SQLITE_ERROR, c, ctx, replicate (Z.to_nat n) 0 ++ drop (Z.to_nat n) out).
Proof.
  intros Hn. unfold page_error.
  pose proof (sqlcipher_memset_spec out 0 (Z.to_nat n) ltac:(lia)) as E.
  rewrite Z2Nat.id in E by lia. rewrite E. done.
Qed.

(** ** What the three stages write *)

(** The output buffer after a run on a page of [n] bytes: same length, and nothing
    changed behind the page. *)
Definition page_frame (n : Z) (out out' : bytes) : Prop :=
  length out' = length out /\ drop (Z.to_nat n) out' = drop (Z.to_nat n) out.

Lemma page_frame_refl n out : page_frame n out out.
Proof. done. Qed.
Lemma page_frame_trans n a b c : page_frame n a b -> page_frame n b c -> page_frame n a c.
Proof. intros [? ?] [? ?]. split; congruence. Qed.

Lemma page_frame_write n out off src out' :
  mem_write out off src = Some out' -> off + len src <= n -> page_frame n out out'.
Proof.
  intros E Hn. split; [by eapply mem_write_length|].
  apply mem_write_Some in E as (H1 & H2 & ->).
  rewrite drop_app_ge by (rewrite length_take; lia).
  rewrite drop_app_ge by (rewrite length_take; lia).
  rewrite drop_drop, length_take. f_equal. lia.
Qed.

Lemma page_frame_zero n out :
  0 <= n <= len out ->
  page_frame n out (replicate (Z.to_nat n) 0 ++ drop (Z.to_nat n) out).
Proof.
  intros Hn. split.
  - rewrite length_app, length_replicate, length_drop. lia.
  - rewrite drop_app_length'; [done|]. by rewrite length_replicate.
Qed.

(** The layout of an encrypted page of [n] bytes: ciphertext, initialization vector
    and, with HMAC, the tag of both for this page number. *)
Definition sealed (ctx : ctx_t) (c : cipher_ctx) (pgno n : Z) (data page : bytes) : Prop :=
  exists iv ct,
    len data = n - reserve_sz ctx /\
    pv_cipher P SQLCIPHER_ENCRYPT (enc_key c) iv data = (SQLITE_OK, ct) /\
    mem_read page 0 (n - reserve_sz ctx) = Some ct /\
    mem_read page (n - reserve_sz ctx) (iv_sz ctx) = Some iv /\
    (FLAG_GET (flags ctx) CIPHER_FLAG_HMAC = true ->
     exists tag, page_tag ctx c pgno (ct ++ iv) = (SQLITE_OK, tag) /\
       mem_read page (n - reserve_sz ctx + iv_sz ctx) (hmac_sz ctx) = Some tag).

(** The tag stored in a page is the tag of its body for this page number. *)
Definition tag_valid (ctx : ctx_t) (c : cipher_ctx) (pgno n : Z) (page : bytes) : Prop :=
  exists body tag, mem_read page 0 (n - reserve_sz ctx + iv_sz ctx) = Some body /\
    mem_read page (n - reserve_sz ctx + iv_sz ctx) (hmac_sz ctx) = Some tag /\
    page_tag ctx c pgno body = (SQLITE_OK, tag).

(** What the caller of [sqlcipher_page_cipher] guarantees for a page of [n] bytes. *)
Record page_pre (ctx : ctx_t) (c : cipher_ctx) (n : Z) (inp out : bytes) : Prop := {
  pp_cipher : cipher_wf (key_sz ctx) c;
  pp_geo : geometry_wf ctx;
  pp_size : reserve_sz ctx <= n;
  pp_in : n <= len inp;
  pp_out : n <= len out
}.

Definition zeroed (n : Z) (out : bytes) : Prop :=
  take (Z.to_nat n) out = replicate (Z.to_nat n) 0.

Lemma zeroed_replicate n (l : bytes) : zeroed n (replicate (Z.to_nat n) 0 ++ l).
Proof. unfold zeroed. rewrite take_app_length'; [done|]. by rewrite length_replicate. Qed.

Lemma geo_sizes (ctx : ctx_t) : geometry_wf ctx ->
  0 < key_sz ctx /\ 0 <= iv_sz ctx <= reserve_sz ctx /\ 0 <= hmac_sz ctx /\
  (FLAG_GET (flags ctx) CIPHER_FLAG_HMAC = true ->
   iv_sz ctx + hmac_sz ctx <= reserve_sz ctx).
Proof.
  intros [Hk Hi _ Hh Hr]. pose proof pv_key_sz_ok. pose proof pv_iv_sz_ok.
  pose proof (pv_hmac_sz_ok (hmac_algorithm ctx)).
  rewrite Hk, Hi, Hh in *. destruct (FLAG_GET _ _); split_and!; lia || (intros; lia).
Qed.

(** The result of a failing exit. *)
Lemma page_error_case n c (ctx : ctx_t) (out0 out : bytes) :
  0 <= n <= len out -> page_frame n out0 out ->
  exists out', page_error n c ctx out = Some (SQLITE_ERROR, c, ctx, out') /\
    page_frame n out0 out' /\ zeroed n out'.
Proof.
  intros Hn Hf. eexists. split; [by apply page_error_spec|]. split.
  - eapply page_frame_trans; [done|]. by apply page_frame_zero.
  - apply zeroed_replicate.
Qed.

Lemma page_tag_ok (ctx : ctx_t) c pgno body rc tag :
  geometry_wf ctx -> page_tag ctx c pgno body = (rc, tag) ->
  len tag <= hmac_sz ctx /\ (rc = SQLITE_OK -> len tag = hmac_sz ctx).
Proof.
  intros Hg E. apply pv_hmac_ok in E as (_ & ? & ?). by rewrite (gw_hmac _ Hg).
Qed.

Lemma take_mem_read (b : bytes) n :
  0 <= n <= len b -> mem_read b 0 n = Some (take (Z.to_nat n) b).
Proof. intros. rewrite mem_read_total by lia. done. Qed.

Lemma mem_read_body (b : bytes) n m ct iv :
  0 <= n -> 0 <= m -> mem_read b 0 n = Some ct -> mem_read b n m = Some iv ->
  take (Z.to_nat (n + m)) b = ct ++ iv.
Proof.
  intros Hn Hm E1 E2. pose proof (proj1 (mem_read_Some _ _ _ _) E2) as (_ & _ & Hl & _).
  assert (Some (take (Z.to_nat (n + m)) b) = Some (ct ++ iv)) as [= ->]; [|done].
  rewrite <- take_mem_read by lia. apply mem_read_split; [lia..|].
  exists ct, iv. rewrite Z.add_0_l. done.
Qed.

(** ** Encryption *)

(** Exit codes and contents common to every run over a page of [n] bytes. *)
Definition exits (n : Z) (good : bytes -> Prop) (out : bytes) (rc : Z) (out' : bytes)
  : Prop :=
  page_frame n out out' /\ (rc = SQLITE_OK -> good out') /\
  (rc <> SQLITE_OK -> rc = SQLITE_ERROR /\ zeroed n out').

Lemma exits_error n c (ctx : ctx_t) good (out0 out : bytes) :
  0 <= n <= len out -> page_frame n out0 out ->
  exists rc out', page_error n c ctx out = Some (rc, c, ctx, out') /\
    exits n good out0 rc out'.
Proof.
  intros Hn Hf. destruct (page_error_case n c ctx out0 out Hn Hf) as (out' & -> & ? & ?).
  by exists SQLITE_ERROR, out'.
Qed.

(** The tag of an encrypted page, written behind its initialization vector. *)
Lemma seal_tag (ctx : ctx_t) c pgno n data out0 out iv ct :
  cipher_wf (key_sz ctx) c -> geometry_wf ctx -> reserve_sz ctx <= n <= len out ->
  FLAG_GET (flags ctx) CIPHER_FLAG_HMAC = true ->
  page_frame n out0 out ->
  len data = n - reserve_sz ctx ->
  pv_cipher P SQLCIPHER_ENCRYPT (enc_key c) iv data = (SQLITE_OK, ct) ->
  mem_read out 0 (n - reserve_sz ctx) = Some ct ->
  mem_read out (n - reserve_sz ctx) (iv_sz ctx) = Some iv ->
  exists rc out',
    (let? (rc, tag, c') :=
       sqlcipher_page_hmac G ctx c pgno out (n - reserve_sz ctx + iv_sz ctx) in
     let? out := mem_write out (n - reserve_sz ctx + iv_sz ctx) tag in
     if rc <>? SQLITE_OK then page_error n c' ctx out
     else Some (SQLITE_OK, c', ctx, out)) = Some (rc, c, ctx, out') /\
    exits n (sealed ctx c pgno n data) out0 rc out'.
Proof.
  intros Hc Hg Hn Ehm Hf0 Hd Ec Hct Hiv. set (size := n - reserve_sz ctx) in *.
  destruct (geo_sizes _ Hg) as (Hk & Hv & Hh & Hr). specialize (Hr Ehm).
  rewrite page_hmac_spec by (done || lia).
  rewrite (mem_read_body _ _ _ ct iv) by (done || lia).
  destruct (page_tag ctx c pgno (ct ++ iv)) as [rc tag] eqn:Et. simpl.
  destruct (page_tag_ok _ _ _ _ _ _ Hg Et) as [Ht1 Ht2].
  destruct (mem_write out (size + iv_sz ctx) tag) as [out2|] eqn:Ew;
    [|rewrite mem_write_total in Ew by lia; done].
  assert (Hf : page_frame n out0 out2).
  { eapply page_frame_trans; [exact Hf0|]. eapply page_frame_write; [done|lia]. }
  pose proof (mem_write_length _ _ _ _ Ew) as Hl.
  destruct (Z.eqb_spec rc SQLITE_OK) as [->|Hrc]; simpl;
    [|apply exits_error; [lia|done]].
  do 2 eexists. split; [done|]. split_and!; [done| |done]. intros _. exists iv, ct.
  specialize (Ht2 eq_refl).
  split_and!; try done; try (rewrite (mem_read_write_ne _ _ _ _ _ _ Ew); [done|lia]).
  intros _. exists tag. split; [done|]. apply mem_read_write_eq in Ew.
  rewrite <- Ew. f_equal. lia.
Qed.

(** The second half of an encryption: the cipher's output and the tag. *)
Lemma transform_encrypt (ctx : ctx_t) c pgno n inp out0 out :
  page_pre ctx c n inp out -> page_frame n out0 out ->
  exists rc out', page_transform G ctx c pgno SQLCIPHER_ENCRYPT n (n - reserve_sz ctx)
                    inp out = Some (rc, c, ctx, out') /\
    exits n (sealed ctx c pgno n (take (Z.to_nat (n - reserve_sz ctx)) inp)) out0 rc out'.
Proof.
  intros [Hc Hg Hn Hi Ho] Hf0. destruct (geo_sizes _ Hg) as (Hk & Hv & Hh & Hr).
  unfold page_transform. set (size := n - reserve_sz ctx).
  destruct (mem_read out size (iv_sz ctx)) as [iv|] eqn:Eiv;
    [|rewrite mem_read_total in Eiv by lia; done].
  rewrite take_mem_read by lia. rewrite provider_cipher_spec by done. simpl.
  destruct (pv_cipher _ _ _ _ _) as [rc o] eqn:Ec. simpl.
  pose proof (pv_cipher_ok _ _ _ _ _ _ Ec) as (_ & Hlo & Heq).
  rewrite length_take in Hlo, Heq.
  destruct (mem_write out 0 o) as [out1|] eqn:Ew;
    [|rewrite mem_write_total in Ew by lia; done].
  assert (Hf1 : page_frame n out0 out1).
  { eapply page_frame_trans; [exact Hf0|]. eapply page_frame_write; [done|lia]. }
  pose proof (mem_write_length _ _ _ _ Ew) as Hl1.
  destruct (Z.eqb_spec rc SQLITE_OK) as [->|Hrc]; simpl;
    [|apply exits_error; [lia|done]].
  specialize (Heq eq_refl).
  assert (Hct : mem_read out1 0 size = Some o).
  { apply mem_read_write_eq in Ew. rewrite <- Ew. f_equal. lia. }
  assert (Hiv : mem_read out1 size (iv_sz ctx) = Some iv).
  { rewrite (mem_read_write_ne _ _ _ _ _ _ Ew); [done|]. lia. }
  assert (Hdl : len (take (Z.to_nat size) inp) = size) by (rewrite length_take; lia).
  destruct (FLAG_GET (flags ctx) CIPHER_FLAG_HMAC) eqn:Ehm; simpl.
  - eapply seal_tag; done || lia.
  - do 2 eexists. split; [done|]. split_and!; [done| |done]. intros _. exists iv, o.
    split_and!; try done. by rewrite Ehm.
Qed.

(** An encryption run. *)
Lemma encrypt_page (ctx : ctx_t) c pgno n inp out pc :
  page_pre ctx c n inp out -> provider_ctx ctx = Some pc ->
  exists rc pc' out',
    page_cipher_ctx G ctx c pgno SQLCIPHER_ENCRYPT n inp out =
      Some (rc, c, set_provider_ctx (Some pc') ctx, out') /\
    exits n (fun out' => if (pgno =? 1) && (n - reserve_sz ctx =? 0) then out' = out else
               sealed ctx c pgno n (take (Z.to_nat (n - reserve_sz ctx)) inp) out')
      out rc out'.
Proof.
  intros [Hc Hg Hn Hi Ho] Hp. destruct (geo_sizes _ Hg) as (Hk & Hv & Hh & Hr).
  unfold page_cipher_ctx. case_cond.
  { exists SQLITE_OK, pc, out. split; [|by split_and!].
    repeat f_equal. destruct ctx; simpl in *; by subst. }
  rewrite (proj2 (Z.eqb_neq (key_sz ctx) 0)) by lia. simpl. rewrite Hp.
  destruct (pv_random P pc (reserve_sz ctx)) as [[rc rnd] pc'] eqn:Er.
  destruct (pv_random_ok pc (reserve_sz ctx) rc rnd pc') as (_ & Hrl & _); [lia|done|].
  set (ctx' := set_provider_ctx (Some pc') ctx).
  destruct (mem_write out (n - reserve_sz ctx) rnd) as [out1|] eqn:Ew;
    [|rewrite mem_write_total in Ew by lia; done].
  assert (Hf : page_frame n out out1) by (eapply page_frame_write; [done|lia]).
  pose proof (mem_write_length _ _ _ _ Ew) as Hl1.
  destruct (Z.eqb_spec rc SQLITE_OK) as [->|Hrc]; simpl.
  - destruct (transform_encrypt ctx' c pgno n inp out out1) as (rc & out' & E & Hx).
    + destruct Hg. by split; simpl; try lia.
    + done.
    + exists rc, pc', out'. done.
  - edestruct (exits_error n c ctx') as (rc' & out' & -> & Hx); [|exact Hf|]; [lia|].
    by exists rc', pc', out'.
Qed.

(** ** Decryption *)

(** What an accepted page of [n] bytes decrypts to: with HMAC its tag has been
    checked, or the page is a zeroed page of an auto-vacuum database; the rest is the
    provider's answer. *)
Definition opened (ctx : ctx_t) (c : cipher_ctx) (pgno n : Z) (inp out : bytes) : Prop :=
  (FLAG_GET (flags ctx) CIPHER_FLAG_HMAC = true /\
   bt_autoVacuum (pBt ctx) <> BTREE_AUTOVACUUM_NONE /\
   ~ tag_valid ctx c pgno n inp /\ zeroed n inp /\ zeroed n out) \/
  ((FLAG_GET (flags ctx) CIPHER_FLAG_HMAC = true -> tag_valid ctx c pgno n inp) /\
   exists iv ct data,
     mem_read inp 0 (n - reserve_sz ctx) = Some ct /\
     mem_read inp (n - reserve_sz ctx) (iv_sz ctx) = Some iv /\
     pv_cipher P SQLCIPHER_DECRYPT (enc_key c) iv ct = (SQLITE_OK, data) /\
     mem_read out 0 (n - reserve_sz ctx) = Some data).

Lemma transform_decrypt (ctx : ctx_t) c pgno n inp out0 out iv :
  page_pre ctx c n inp out -> page_frame n out0 out ->
  mem_read inp (n - reserve_sz ctx) (iv_sz ctx) = Some iv ->
  mem_read out (n - reserve_sz ctx) (iv_sz ctx) = Some iv ->
  (FLAG_GET (flags ctx) CIPHER_FLAG_HMAC = true -> tag_valid ctx c pgno n inp) ->
  exists rc out', page_transform G ctx c pgno SQLCIPHER_DECRYPT n (n - reserve_sz ctx)
                    inp out = Some (rc, c, ctx, out') /\
    exits n (opened ctx c pgno n inp) out0 rc out' /\
    rc = (if (pv_cipher P SQLCIPHER_DECRYPT (enc_key c) iv
               (take (Z.to_nat (n - reserve_sz ctx)) inp)).1 =? SQLITE_OK
          then SQLITE_OK else SQLITE_ERROR).
Proof.
  intros [Hc Hg Hn Hi Ho] Hf0 Hin Hout Htag.
  destruct (geo_sizes _ Hg) as (Hk & Hv & Hh & Hr).
  unfold page_transform. set (size := n - reserve_sz ctx) in *. rewrite Hout.
  rewrite take_mem_read by lia. rewrite provider_cipher_spec by done. simpl.
  destruct (pv_cipher _ _ _ _ _) as [rc o] eqn:Ec. simpl.
  pose proof (pv_cipher_ok _ _ _ _ _ _ Ec) as (_ & Hlo & Heq).
  rewrite length_take in Hlo, Heq.
  destruct (mem_write out 0 o) as [out1|] eqn:Ew;
    [|rewrite mem_write_total in Ew by lia; done].
  assert (Hf1 : page_frame n out0 out1).
  { eapply page_frame_trans; [exact Hf0|]. eapply page_frame_write; [done|lia]. }
  pose proof (mem_write_length _ _ _ _ Ew) as Hl1.
  destruct (Z.eqb_spec rc SQLITE_OK) as [->|Hrc]; simpl.
  - rewrite andb_false_r. do 2 eexists. split; [done|].
    split; [|done]. split_and!; [done| |done]. intros _. right. split; [done|].
    eexists iv, _, o. split_and!; [by apply take_mem_read; lia|done|done|].
    apply mem_read_write_eq in Ew. rewrite <- Ew. f_equal.
    specialize (Heq eq_refl). lia.
  - destruct (page_error_case n c ctx out0 out1) as (out' & -> & ? & ?); [lia|done|].
    by exists SQLITE_ERROR, out'.
Qed.

(** The two library loops at integer lengths. *)
Lemma ismemset_zero (b : bytes) n :
  0 <= n <= len b ->
  exists r, sqlcipher_ismemset b 0 n = Some r /\ (r = 0 <-> zeroed n b).
Proof.
  intros Hn. pose proof (sqlcipher_ismemset_spec b 0 (Z.to_nat n) ltac:(lia)) as E.
  rewrite Z2Nat.id in E by lia. eexists. split; [exact E|]. unfold zeroed.
  case_decide; done.
Qed.

(** The comparison of the stored tag with the computed one. *)
Lemma tag_compare (inp out : bytes) off n :
  0 <= off -> 0 <= n -> off + n <= len inp -> off + n <= len out ->
  exists hi ho r, ptr_at inp off = Some hi /\ ptr_at out off = Some ho /\
    sqlcipher_memcmp hi ho n = Some r /\
    (r = 0 <-> mem_read inp off n = mem_read out off n).
Proof.
  intros H0 H1 Hi Ho. unfold ptr_at.
  rewrite !(proj2 (Z.leb_le 0 off)), !(proj2 (Z.leb_le off _)) by lia. simpl.
  pose proof (sqlcipher_memcmp_spec (drop (Z.to_nat off) inp) (drop (Z.to_nat off) out)
    (Z.to_nat n)) as E.
  rewrite Z2Nat.id in E by lia. do 3 eexists. split_and!; [done..| |].
  - apply E; rewrite length_drop; lia.
  - rewrite !mem_read_total by lia. case_decide; split; congruence.
Qed.

(** The exit of a run on a page whose tag does not match. *)
Lemma reject_page (ctx : ctx_t) c pgno n inp out0 out :
  0 <= n -> n <= len inp -> n <= len out -> page_frame n out0 out ->
  FLAG_GET (flags ctx) CIPHER_FLAG_HMAC = true -> ~ tag_valid ctx c pgno n inp ->
  exists rc out',
    (let? notzero := (if bt_autoVacuum (pBt ctx) <>? BTREE_AUTOVACUUM_NONE
                      then sqlcipher_ismemset inp 0 n else Some 1) in
     if notzero =? 0 then
       let? r := sqlcipher_memset (Some out) 0 n in
       let? out := r in
       Some (@inl (Z * cipher_ctx * ctx_t * bytes) (cipher_ctx * bytes)
               (SQLITE_OK, c, ctx, out))
     else let? r := page_error n c ctx out in Some (inl r)) = Some (inl (rc, c, ctx, out')) /\
    exits n (opened ctx c pgno n inp) out0 rc out'.
Proof.
  intros H0 Hi Ho Hf Ehm Hntv.
  assert (Hbad : forall z : Z, z <> 0 -> exists rc out',
    (if z =? 0 then
       let? r := sqlcipher_memset (Some out) 0 n in
       let? out := r in
       Some (@inl (Z * cipher_ctx * ctx_t * bytes) (cipher_ctx * bytes)
               (SQLITE_OK, c, ctx, out))
     else let? r := page_error n c ctx out in Some (inl r)) = Some (inl (rc, c, ctx, out')) /\
    exits n (opened ctx c pgno n inp) out0 rc out').
  { intros z Hz. rewrite (proj2 (Z.eqb_neq _ _) Hz).
    edestruct (exits_error n c ctx) as (rc & out' & -> & Hx); [|exact Hf|]; [lia|].
    by exists rc, out'. }
  case_cond; [|by apply Hbad].
  destruct (ismemset_zero inp n ltac:(lia)) as (r & -> & Hr).
  destruct (decide (r = 0)) as [Hz|Hz]; [|by apply Hbad]. rewrite (proj2 (Z.eqb_eq _ _) Hz).
  pose proof (sqlcipher_memset_spec out 0 (Z.to_nat n) ltac:(lia)) as E.
  rewrite Z2Nat.id in E by lia. rewrite E. do 2 eexists. split; [done|].
  split_and!; [eapply page_frame_trans; [done|]; by apply page_frame_zero| |done].
  intros _. left. split_and!; [done..|by apply Hr|apply zeroed_replicate].
Qed.

(** The check of the tag goes on only with a page whose tag is valid; otherwise the
    run ends with a zeroed page. *)
Lemma verify_cases (ctx : ctx_t) c pgno n inp out :
  page_pre ctx c n inp out -> FLAG_GET (flags ctx) CIPHER_FLAG_HMAC = true ->
  (exists out', page_verify G ctx c pgno n (n - reserve_sz ctx) inp out =
                  Some (inr (c, out')) /\
     page_frame n out out' /\ tag_valid ctx c pgno n inp /\
     mem_read out' (n - reserve_sz ctx) (iv_sz ctx) =
     mem_read out (n - reserve_sz ctx) (iv_sz ctx)) \/
  (exists rc out', page_verify G ctx c pgno n (n - reserve_sz ctx) inp out =
                     Some (inl (rc, c, ctx, out')) /\
     exits n (opened ctx c pgno n inp) out rc out' /\ ~ tag_valid ctx c pgno n inp).
Proof.
  intros [Hc Hg Hn Hi Ho] Ehm. destruct (geo_sizes _ Hg) as (Hk & Hv & Hh & Hr).
  specialize (Hr Ehm). unfold page_verify. rewrite Ehm.
  set (size := n - reserve_sz ctx) in *.
  rewrite page_hmac_spec by (done || lia).
  assert (Htv : forall tag', tag_valid ctx c pgno n inp ->
    mem_read inp (size + iv_sz ctx) (hmac_sz ctx) = Some tag' ->
    page_tag ctx c pgno (take (Z.to_nat (size + iv_sz ctx)) inp) = (SQLITE_OK, tag')).
  { intros tag' (body & tag & E1 & E2 & E3) E4. fold size in E1, E2.
    rewrite take_mem_read in E1 by lia. congruence. }
  destruct (page_tag ctx c pgno _) as [rc tag] eqn:Et. simpl.
  destruct (page_tag_ok _ _ _ _ _ _ Hg Et) as [Ht1 Ht2].
  destruct (mem_write out (size + iv_sz ctx) tag) as [out1|] eqn:Ew;
    [|rewrite mem_write_total in Ew by lia; done].
  assert (Hf : page_frame n out out1) by (eapply page_frame_write; [done|lia]).
  pose proof (mem_write_length _ _ _ _ Ew) as Hl.
  destruct (Z.eqb_spec rc SQLITE_OK) as [->|Hrc]; simpl.
  - destruct (tag_compare inp out1 (size + iv_sz ctx) (hmac_sz ctx))
      as (hi & ho & r & -> & -> & -> & Hcmp); [lia..|].
    assert (Hto : mem_read out1 (size + iv_sz ctx) (hmac_sz ctx) = Some tag).
    { apply mem_read_write_eq in Ew. rewrite <- Ew. f_equal. rewrite Ht2; done. }
    rewrite Hto in Hcmp. destruct (Z.eqb_spec r 0) as [Hz|Hz]; simpl.
    + left. exists out1. split_and!; [done..| |].
      * eexists _, tag. split_and!; [by apply take_mem_read; lia|by apply Hcmp|done].
      * rewrite (mem_read_write_ne _ _ _ _ _ _ Ew); [done|lia].
    + right. assert (Hntv : ~ tag_valid ctx c pgno n inp).
      { intros Hv'. apply Hz, Hcmp. pose proof Hv' as (_ & tag' & _ & E & _).
        fold size in E. rewrite E. by specialize (Htv _ Hv' E) as [= ->]. }
      destruct (reject_page ctx c pgno n inp out out1) as (rc & out' & E & Hx);
        [lia|done|lia|done..|]. exists rc, out'. split_and!; [exact E|done..].
  - right. edestruct (exits_error n c ctx) as (rc' & out' & -> & Hx); [|exact Hf|]; [lia|].
    exists rc', out'. split_and!; [done..|]. intros Hv'.
    pose proof Hv' as (_ & tag' & _ & E & _). fold size in E.
    by specialize (Htv _ Hv' E) as [= ->].
Qed.

(** A decryption run. Its exit code is settled by the tag and the provider. *)
Lemma decrypt_page (ctx : ctx_t) c pgno n inp out :
  page_pre ctx c n inp out ->
  exists rc out',
    page_cipher_ctx G ctx c pgno SQLCIPHER_DECRYPT n inp out = Some (rc, c, ctx, out') /\
    exits n (fun out' => if (pgno =? 1) && (n - reserve_sz ctx =? 0) then out' = out
                         else opened ctx c pgno n inp out') out rc out' /\
    ((pgno =? 1) && (n - reserve_sz ctx =? 0) = false ->
     (FLAG_GET (flags ctx) CIPHER_FLAG_HMAC = true -> tag_valid ctx c pgno n inp) ->
     forall iv, mem_read inp (n - reserve_sz ctx) (iv_sz ctx) = Some iv ->
     rc = (if (pv_cipher P SQLCIPHER_DECRYPT (enc_key c) iv
                (take (Z.to_nat (n - reserve_sz ctx)) inp)).1 =? SQLITE_OK
           then SQLITE_OK else SQLITE_ERROR)).
Proof.
  intros Hpre. pose proof Hpre as [Hc Hg Hn Hi Ho].
  destruct (geo_sizes _ Hg) as (Hk & Hv & Hh & Hr).
  unfold page_cipher_ctx. destruct ((pgno =? 1) && _).
  { exists SQLITE_OK, out. split; [done|]. split; [by split_and!|done]. }
  rewrite (proj2 (Z.eqb_neq (key_sz ctx) 0)) by lia. simpl.
  destruct (mem_read inp (n - reserve_sz ctx) (iv_sz ctx)) as [iv|] eqn:Eiv;
    [|rewrite mem_read_total in Eiv by lia; done].
  pose proof (mem_read_length _ _ _ _ Eiv) as Hlv.
  destruct (mem_write out (n - reserve_sz ctx) iv) as [out1|] eqn:Ew;
    [|rewrite mem_write_total in Ew by lia; done].
  assert (Hf : page_frame n out out1) by (eapply page_frame_write; [done|lia]).
  pose proof (mem_write_length _ _ _ _ Ew) as Hl.
  apply mem_read_write_eq in Ew. rewrite Hlv in Ew.
  assert (Hpre1 : page_pre ctx c n inp out1) by (split; done || lia).
  destruct (FLAG_GET (flags ctx) CIPHER_FLAG_HMAC) eqn:Ehm.
  - destruct (verify_cases ctx c pgno n inp out1 Hpre1 Ehm)
      as [(out2 & -> & Hf2 & Htv & Hrd)|(rc & out2 & -> & Hx & Hntv)].
    + rewrite Ew in Hrd. pose proof (proj1 Hf2).
      destruct (transform_decrypt ctx c pgno n inp out out2 iv) as (rc & out' & -> & Hx & Hrc);
        [split; done || lia|by eapply page_frame_trans|done..|].
      exists rc, out'. split_and!; [done..|]. by intros _ _ iv' [= <-].
    + exists rc, out2. split_and!; [done| |by intros _ ?%(fun f => f eq_refl)].
      destruct Hx as (? & ? & ?). split_and!; [by eapply page_frame_trans|done..].
  - unfold page_verify. rewrite Ehm.
    destruct (transform_decrypt ctx c pgno n inp out out1 iv) as (rc & out' & -> & Hx & Hrc);
      [done..|by rewrite Ehm|].
    exists rc, out'. split_and!; [done..|]. by intros _ _ iv' [= <-].
Qed.

Lemma sealed_tag_valid (ctx : ctx_t) c pgno n data page :
  geometry_wf ctx -> reserve_sz ctx <= n -> sealed ctx c pgno n data page ->
  FLAG_GET (flags ctx) CIPHER_FLAG_HMAC = true -> tag_valid ctx c pgno n page.
Proof.
  intros Hg Hn (iv & ct & _ & _ & Hct & Hiv & Ht) Ehm.
  destruct (geo_sizes _ Hg) as (Hk & Hv & Hh & Hr).
  destruct (Ht Ehm) as (tag & E & Et). exists (ct ++ iv), tag. split_and!; [|done..].
  apply mem_read_split; [lia..|]. exists ct, iv. by rewrite Z.add_0_l.
Qed.

(** Decryption of a sealed page returns its data. *)
Lemma decrypt_sealed (ctx : ctx_t) c pgno n page out data :
  page_pre ctx c n page out -> sealed ctx c pgno n data page ->
  (pgno =? 1) && (n - reserve_sz ctx =? 0) = false ->
  exists out', page_cipher_ctx G ctx c pgno SQLCIPHER_DECRYPT n page out =
                 Some (SQLITE_OK, c, ctx, out') /\
    page_frame n out out' /\ mem_read out' 0 (n - reserve_sz ctx) = Some data.
Proof.
  intros Hpre Hs Hgo. pose proof Hpre as [Hc Hg Hn Hi Ho].
  destruct (geo_sizes _ Hg) as (Hk & Hv & Hh & Hr).
  pose proof (sealed_tag_valid _ _ _ _ _ _ Hg Hn Hs) as Htv.
  destruct Hs as (iv & ct & Hd & Ec & Hct & Hiv & _). apply pv_cipher_inverse in Ec.
  destruct (decrypt_page ctx c pgno n page out Hpre) as (rc & out' & E & (Hf & Hok & _) & Hrc).
  specialize (Hrc Hgo Htv iv Hiv). rewrite take_mem_read in Hct by lia.
  injection Hct as Hct. rewrite Hct, Ec in Hrc. simpl in Hrc. subst rc.
  exists out'. split_and!; [done..|]. rewrite Hgo in Hok.
  destruct (Hok eq_refl) as [(E1 & _ & Hn' & _)|(_ & iv' & ct' & data' & E1 & E2 & E3 & E4)].
  - by apply Htv in E1.
  - rewrite take_mem_read in E1 by lia. congruence.
Qed.

(** A page sealed for one page number that is accepted under another exhibits two
    different inputs of the MAC with the same tag. *)
Definition mac_collision (ctx : ctx_t) (c : cipher_ctx) (pg1 pg2 : Z) : Prop :=
  exists body tag, pgno_raw (flags ctx) pg1 <> pgno_raw (flags ctx) pg2 /\
    page_tag ctx c pg1 body = (SQLITE_OK, tag) /\
    page_tag ctx c pg2 body = (SQLITE_OK, tag).

Lemma put4byte_be_inj v w :
  is_u32 v -> is_u32 w -> sqlite3Put4byte v = sqlite3Put4byte w -> v = w.
Proof.
  unfold is_u32, sqlite3Put4byte, u8. intros Hv Hw [= E3 E2 E1 E0].
  rewrite !Z.shiftr_div_pow2 in * by lia.
  Z.div_mod_to_equations. lia.
Qed.

Lemma pgno_raw_inj flags v w :
  is_u32 v -> is_u32 w -> pgno_raw flags v = pgno_raw flags w -> v = w.
Proof.
  unfold pgno_raw. intros Hv Hw. repeat case_match;
    eauto using put4byte_le_inj, put4byte_be_inj.
Qed.

Lemma tag_valid_twice (ctx : ctx_t) c pg1 pg2 n page :
  is_u32 pg1 -> is_u32 pg2 -> pg1 <> pg2 ->
  tag_valid ctx c pg1 n page -> tag_valid ctx c pg2 n page ->
  mac_collision ctx c pg1 pg2.
Proof.
  intros H1 H2 Hne (b1 & t1 & E1 & E2 & E3) (b2 & t2 & F1 & F2 & F3).
  exists b1, t1. split_and!; [by intros E%pgno_raw_inj|done|congruence].
Qed.

(** ** The whole function *)

(** The cipher context that [for_ctx] selects, with its address. *)
Definition ctx_for (for_ctx : Z) (ctx : ctx_t) : option (Z * cipher_ctx) :=
  if for_ctx =? 0 then read_ctx ctx else write_ctx ctx.

Lemma ctx_for_restore for_ctx (ctx : ctx_t) v :
  ctx_for for_ctx ctx = Some v ->
  (if for_ctx =? 0 then set_read_ctx (Some v) ctx else set_write_ctx (Some v) ctx) = ctx.
Proof. unfold ctx_for. destruct ctx. case_match; simpl; by intros ->. Qed.

Lemma page_cipher_encrypt (ctx : ctx_t) for_ctx p c pgno n inp out pc :
  ctx_for for_ctx ctx = Some (p, c) -> page_pre ctx c n inp out ->
  provider_ctx ctx = Some pc ->
  exists rc pc' out',
    sqlcipher_page_cipher G ctx for_ctx pgno SQLCIPHER_ENCRYPT n inp out =
      Some (rc, set_provider_ctx (Some pc') ctx, out') /\
    exits n (fun out' => if (pgno =? 1) && (n - reserve_sz ctx =? 0) then out' = out else
               sealed ctx c pgno n (take (Z.to_nat (n - reserve_sz ctx)) inp) out')
      out rc out'.
Proof.
  intros Hc Hpre Hpc. unfold sqlcipher_page_cipher. fold (ctx_for for_ctx ctx). rewrite Hc.
  destruct (encrypt_page ctx c pgno n inp out pc Hpre Hpc) as (rc & pc' & out' & -> & Hx).
  exists rc, pc', out'. split; [|done].
  rewrite (ctx_for_restore for_ctx (set_provider_ctx (Some pc') ctx)); done.
Qed.

Lemma page_cipher_decrypt (ctx : ctx_t) for_ctx p c pgno n inp out :
  ctx_for for_ctx ctx = Some (p, c) -> page_pre ctx c n inp out ->
  exists rc out',
    sqlcipher_page_cipher G ctx for_ctx pgno SQLCIPHER_DECRYPT n inp out =
      Some (rc, ctx, out') /\
    exits n (fun out' => if (pgno =? 1) && (n - reserve_sz ctx =? 0) then out' = out
                         else opened ctx c pgno n inp out') out rc out'.
Proof.
  intros Hc Hpre. unfold sqlcipher_page_cipher. fold (ctx_for for_ctx ctx). rewrite Hc.
  destruct (decrypt_page ctx c pgno n inp out Hpre) as (rc & out' & -> & Hx & _).
  exists rc, out'. split; [|done]. by rewrite ctx_for_restore.
Qed.

Lemma page_cipher_open (ctx : ctx_t) for_ctx p c pgno n page out data :
  ctx_for for_ctx ctx = Some (p, c) -> page_pre ctx c n page out ->
  sealed ctx c pgno n data page -> (pgno =? 1) && (n - reserve_sz ctx =? 0) = false ->
  exists out',
    sqlcipher_page_cipher G ctx for_ctx pgno SQLCIPHER_DECRYPT n page out =
      Some (SQLITE_OK, ctx, out') /\ page_frame n out out' /\
    mem_read out' 0 (n - reserve_sz ctx) = Some data.
Proof.
  intros Hc Hpre Hs Hgo. unfold sqlcipher_page_cipher. fold (ctx_for for_ctx ctx).
  rewrite Hc. destruct (decrypt_sealed ctx c pgno n page out data Hpre Hs Hgo)
    as (out' & -> & Hf & Hd).
  exists out'. split; [|done]. by rewrite ctx_for_restore.
Qed.

(** Two cipher contexts with the same keys seal alike. *)
Definition same_keys (c d : cipher_ctx) : Prop :=
  enc_key c = enc_key d /\ mac_key c = mac_key d.

(** Two contexts with the same file format. *)
Record same_format (ctx ctx' : ctx_t) : Prop := {
  sf_reserve : reserve_sz ctx' = reserve_sz ctx;
  sf_iv : iv_sz ctx' = iv_sz ctx;
  sf_hmac_sz : hmac_sz ctx' = hmac_sz ctx;
  sf_alg : hmac_algorithm ctx' = hmac_algorithm ctx;
  sf_page : page_sz ctx' = page_sz ctx;
  sf_header : plaintext_header_sz ctx' = plaintext_header_sz ctx;
  sf_hmac : FLAG_GET (flags ctx') CIPHER_FLAG_HMAC = FLAG_GET (flags ctx) CIPHER_FLAG_HMAC;
  sf_pgno n : pgno_raw (flags ctx') n = pgno_raw (flags ctx) n
}.

Lemma sealed_same_keys (ctx ctx' : ctx_t) c d pgno n data page :
  same_keys c d -> same_format ctx ctx' ->
  sealed ctx c pgno n data page -> sealed ctx' d pgno n data page.
Proof.
  intros [E1 E2] [R I M L _ _ F N] (iv & ct & H1 & H2 & H3 & H4 & H5).
  exists iv, ct. unfold page_tag in *. rewrite R, I, M, F, L, N, <- E1, <- E2. done.
Qed.

(** ** Properties *)

(** C6: every run of the page function on a well-formed context, in either direction,
    is memory safe, stays inside the page, and is fail closed: it ends with SQLITE_OK,
    or with SQLITE_ERROR and a page of zeros. *)
Theorem page_cipher_fail_closed (ctx : ctx_t) for_ctx p c pgno mode n inp out pc :
  mode = SQLCIPHER_ENCRYPT \/ mode = SQLCIPHER_DECRYPT ->
  ctx_for for_ctx ctx = Some (p, c) -> page_pre ctx c n inp out ->
  provider_ctx ctx = Some pc ->
  exists rc ctx' out',
    sqlcipher_page_cipher G ctx for_ctx pgno mode n inp out = Some (rc, ctx', out') /\
    length out' = length out /\ drop (Z.to_nat n) out' = drop (Z.to_nat n) out /\
    (rc = SQLITE_OK \/
     (rc = SQLITE_ERROR /\ take (Z.to_nat n) out' = replicate (Z.to_nat n) 0)).
Proof.
  intros [-> | ->] Hc Hpre Hp.
  - destruct (page_cipher_encrypt ctx for_ctx p c pgno n inp out pc)
      as (rc & pc' & out' & -> & (Hl & Hd) & _ & Hx); [done..|].
    do 3 eexists. split_and!; [done..|]. destruct (decide (rc = SQLITE_OK)); auto.
  - destruct (page_cipher_decrypt ctx for_ctx p c pgno n inp out)
      as (rc & out' & -> & (Hl & Hd) & _ & Hx); [done..|].
    do 3 eexists. split_and!; [done..|]. destruct (decide (rc = SQLITE_OK)); auto.
Qed.

(** C1: what the write context encrypts, the read context with the same keys decrypts:
    whenever encryption of a page succeeds, decryption of its output succeeds and gives
    back the plaintext, under the same page number. *)
Theorem page_cipher_roundtrip (ctx : ctx_t) pr r pw w pgno n plain out out2 pc ctx1 page :
  read_ctx ctx = Some (pr, r) -> write_ctx ctx = Some (pw, w) -> same_keys w r ->
  page_pre ctx w n plain out -> page_pre ctx r n out out2 ->
  provider_ctx ctx = Some pc -> (pgno =? 1) && (n - reserve_sz ctx =? 0) = false ->
  sqlcipher_page_cipher G ctx CIPHER_WRITE_CTX pgno SQLCIPHER_ENCRYPT n plain out =
    Some (SQLITE_OK, ctx1, page) ->
  exists plain',
    sqlcipher_page_cipher G ctx1 CIPHER_READ_CTX pgno SQLCIPHER_DECRYPT n page out2 =
      Some (SQLITE_OK, ctx1, plain') /\
    mem_read plain' 0 (n - reserve_sz ctx) = mem_read plain 0 (n - reserve_sz ctx).
Proof.
  intros Er Ew Hk Hw Hr Hp Hgo E.
  destruct (page_cipher_encrypt ctx CIPHER_WRITE_CTX pw w pgno n plain out pc)
    as (rc & pc' & out' & E' & Hf & Hok & _); [done..|].
  rewrite E' in E. injection E as -> <- ->. rewrite Hgo in Hok. specialize (Hok eq_refl).
  destruct Hw as [_ _ ? ? ?]. destruct Hr as [? Hg ? ? ?]. destruct Hf as [Hl _].
  destruct (geo_sizes _ Hg) as (? & ? & _).
  eapply (page_cipher_open (set_provider_ctx (Some pc') ctx) CIPHER_READ_CTX pr r pgno n page
    out2 (take (Z.to_nat (n - reserve_sz ctx)) plain)) in Hgo as (plain' & E2 & _ & Hd); try done.
  - exists plain'. split; [done|]. by rewrite (take_mem_read plain) by lia.
  - split; try done; [|simpl; lia]. by destruct Hg; split.
  - eapply sealed_same_keys; [done| |done]. by split.
Qed.

(** C3: with HMAC enabled, a page is accepted only if its stored tag is the MAC of its
    ciphertext, initialization vector and page number under the context's key, or if it
    is an all-zero page of an auto-vacuum database, which is delivered as zeros. *)
Theorem page_accepted_authentic (ctx ctx' : ctx_t) for_ctx p c pgno n inp out out' :
  ctx_for for_ctx ctx = Some (p, c) -> page_pre ctx c n inp out ->
  FLAG_GET (flags ctx) CIPHER_FLAG_HMAC = true -> reserve_sz ctx < n ->
  sqlcipher_page_cipher G ctx for_ctx pgno SQLCIPHER_DECRYPT n inp out =
    Some (SQLITE_OK, ctx', out') ->
  tag_valid ctx c pgno n inp \/
  (bt_autoVacuum (pBt ctx) <> BTREE_AUTOVACUUM_NONE /\ zeroed n inp /\ zeroed n out').
Proof.
  intros Hc Hpre Hh Hlt E.
  destruct (page_cipher_decrypt ctx for_ctx p c pgno n inp out Hc Hpre)
    as (rc & out2 & E' & _ & Hok & _).
  rewrite E' in E. injection E as -> <- ->. specialize (Hok eq_refl).
  rewrite (proj2 (Z.eqb_neq (n - reserve_sz ctx) 0)), andb_false_r in Hok by lia.
  destruct Hok as [(_ & ? & _ & ? & ?)|[Hv _]]; auto.
Qed.

(** C4: a page written for one page number and read back under another one is rejected,
    unless two different page numbers give the same MAC over the same body (or the page
    is an all-zero page of an auto-vacuum database): pages cannot be moved around. *)
Theorem page_resequencing_detected (ctx ctx' : ctx_t) for_ctx p c pg1 pg2 n data page out out' :
  ctx_for for_ctx ctx = Some (p, c) -> page_pre ctx c n page out ->
  FLAG_GET (flags ctx) CIPHER_FLAG_HMAC = true -> reserve_sz ctx < n ->
  is_u32 pg1 -> is_u32 pg2 -> pg1 <> pg2 -> sealed ctx c pg1 n data page ->
  sqlcipher_page_cipher G ctx for_ctx pg2 SQLCIPHER_DECRYPT n page out =
    Some (SQLITE_OK, ctx', out') ->
  mac_collision ctx c pg1 pg2 \/
  (bt_autoVacuum (pBt ctx) <> BTREE_AUTOVACUUM_NONE /\ zeroed n page).
Proof.
  intros Hc Hpre Hh Hlt H1 H2 Hne Hs E.
  destruct (page_cipher_decrypt ctx for_ctx p c pg2 n page out Hc Hpre)
    as (rc & out2 & E' & _ & Hok & _).
  rewrite E' in E. injection E as -> <- ->. specialize (Hok eq_refl).
  rewrite (proj2 (Z.eqb_neq (n - reserve_sz ctx) 0)), andb_false_r in Hok by lia.
  destruct Hok as [(_ & ? & _ & ? & ?)|[Hv _]]; [by right|]. left.
  eapply tag_valid_twice; try done; [|by apply Hv].
  destruct Hpre. by eapply sealed_tag_valid.
Qed.

End PageProofs.

(** ** Witnesses *)

Lemma demo_geometry : geometry_wf demo_ctx.
Proof. split; done. Qed.

Lemma demo_cipher_wf p : cipher_wf 4 (demo_cipher p).
Proof. do 2 eexists. by split_and!. Qed.

Lemma demo_pre p inp out :
  length inp = 16%nat -> length out = 16%nat -> page_pre demo_ctx (demo_cipher p) 16 inp out.
Proof.
  intros Hi Ho. split; [apply demo_cipher_wf|apply demo_geometry|done|lia|lia].
Qed.

Definition demo_plain : bytes := Z.of_nat <$> seq 100 16.
Definition demo_run (pgno mode : Z) (inp : bytes)
  : option (Z * codec_ctx demo_provider * bytes) :=
  sqlcipher_page_cipher demo_globals demo_ctx CIPHER_WRITE_CTX pgno mode 16 inp
    (replicate 16 0).
Definition demo_page : bytes :=
  from_option (fun r => r.2) [] (demo_run 5 SQLCIPHER_ENCRYPT demo_plain).

Lemma page_cipher_fail_closed_witness :
  exists rc ctx' out',
    sqlcipher_page_cipher demo_globals demo_ctx CIPHER_READ_CTX 2 SQLCIPHER_DECRYPT 16
      demo_plain (replicate 16 1) = Some (rc, ctx', out') /\
    length out' = 16%nat /\ drop 16 out' = [] /\
    (rc = SQLITE_OK \/ (rc = SQLITE_ERROR /\ take 16 out' = replicate 16 0)).
Proof.
  apply (page_cipher_fail_closed demo_globals ltac:(done) demo_ctx CIPHER_READ_CTX 50
    (demo_cipher 50) 2 SQLCIPHER_DECRYPT 16 demo_plain (replicate 16 1) 1);
    [by right|done|by apply demo_pre|done].
Defined.

Lemma page_cipher_roundtrip_witness :
  exists (ctx1 : codec_ctx demo_provider) plain',
    sqlcipher_page_cipher demo_globals ctx1 CIPHER_READ_CTX 5 SQLCIPHER_DECRYPT 16
      demo_page (replicate 16 0) = Some (SQLITE_OK, ctx1, plain') /\
    mem_read plain' 0 8 = mem_read demo_plain 0 8.
Proof.
  exists (@set_provider_ctx demo_provider (Some 2) demo_ctx).
  apply (page_cipher_roundtrip demo_globals ltac:(done) demo_ctx 50 (demo_cipher 50)
    60 (demo_cipher 60) 5 16 demo_plain (replicate 16 0) (replicate 16 0) 1);
    [done..|by apply demo_pre|by apply demo_pre|done|done|vm_compute; reflexivity].
Defined.

Lemma page_accepted_authentic_witness :
  tag_valid demo_globals demo_ctx (demo_cipher 60) 5 16 demo_page \/
  (bt_autoVacuum (pBt demo_ctx) <> BTREE_AUTOVACUUM_NONE /\ zeroed 16 demo_page /\
   zeroed 16 (from_option (fun r => r.2) [] (demo_run 5 SQLCIPHER_DECRYPT demo_page))).
Proof.
  apply (page_accepted_authentic demo_globals ltac:(done) demo_ctx demo_ctx
    CIPHER_WRITE_CTX 60 (demo_cipher 60) 5 16 demo_page (replicate 16 0));
    [done|by apply demo_pre|done|simpl; lia|vm_compute; reflexivity].
Defined.

(** The demonstration MAC is weak: pages 7937 and 2 collide. *)
Definition demo_moved : bytes :=
  from_option (fun r => r.2) [] (demo_run 7937 SQLCIPHER_ENCRYPT demo_plain).

Lemma page_resequencing_detected_witness :
  mac_collision demo_globals demo_ctx (demo_cipher 60) 7937 2 \/
  (bt_autoVacuum (pBt demo_ctx) <> BTREE_AUTOVACUUM_NONE /\ zeroed 16 demo_moved).
Proof.
  apply (page_resequencing_detected demo_globals ltac:(done) demo_ctx demo_ctx
    CIPHER_WRITE_CTX 60 (demo_cipher 60) 7937 2 16 (take 8 demo_plain) demo_moved
    (replicate 16 0) (from_option (fun r => r.2) [] (demo_run 2 SQLCIPHER_DECRYPT demo_moved)));
    [done|by apply demo_pre|done|simpl; lia|unfold is_u32; lia|unfold is_u32; lia|lia| |].
  - exists (replicate 4 1), (take 8 demo_moved). split_and!; [vm_compute; done..|].
    intros _. exists (drop 12 demo_moved). vm_compute. done.
  - vm_compute. reflexivity.
Defined.
