(* ===== verification/CodecInv.v ===== *)
(** * The invariant and the life cycle of a codec context

    - [owns h l L]: the heap [h] holds the allocations [l] (address and size) of a
      context, and [L] besides; the operations of [CodecCtx.v] are proved against this
      ledger, for any allocator that meets [AllocatorOk];
    - [codec_wf]: the invariant of a context between two calls;
    - creation, configuration and destruction of contexts: what they preserve, that
      a failed creation leaks nothing, and that destruction gives back everything. *)

From S2P Require Import Prelude CipherUtil UtilStr CodecCtx Demo CodecCrypto CodecPage.
Import Hex MemOps Xoshiro.

(** ** Flags *)

Lemma FLAG_GET_bit f k : 0 <= k -> FLAG_GET f (2 ^ k) = Z.testbit f k.
Proof.
  intros Hk. unfold FLAG_GET.
  destruct (Z.testbit f k) eqn:E.
  - apply negb_true_iff, Z.eqb_neq. intros H0.
    apply (f_equal (fun z => Z.testbit z k)) in H0.
    rewrite Z.land_spec, E, Z.pow2_bits_true, Z.bits_0 in H0 by done. done.
  - apply negb_false_iff, Z.eqb_eq. apply Z.bits_inj'. intros j Hj.
    rewrite Z.land_spec, Z.bits_0. destruct (decide (j = k)) as [-> | Hne].
    + by rewrite E.
    + rewrite Z.pow2_bits_false by lia. apply andb_false_r.
Qed.

Lemma FLAG_GET_SET f j k : 0 <= j -> 0 <= k ->
  FLAG_GET (FLAG_SET f (2 ^ j)) (2 ^ k) = (j =? k) || FLAG_GET f (2 ^ k).
Proof.
  intros Hj Hk. unfold FLAG_SET. rewrite !FLAG_GET_bit by done.
  rewrite Z.lor_spec, Z.pow2_bits_eqb by done. apply orb_comm.
Qed.

Lemma FLAG_GET_UNSET f j k : 0 <= j -> 0 <= k ->
  FLAG_GET (FLAG_UNSET f (2 ^ j)) (2 ^ k) = negb (j =? k) && FLAG_GET f (2 ^ k).
Proof.
  intros Hj Hk. unfold FLAG_UNSET. rewrite !FLAG_GET_bit by done.
  rewrite Z.land_spec, Z.lnot_spec, Z.pow2_bits_eqb by done. apply andb_comm.
Qed.

(** Rewrite tests of flags that have just been set or cleared. *)
Ltac flag_pow :=
  change CIPHER_FLAG_HMAC with (2 ^ 0) in *;
  change CIPHER_FLAG_KEY_USED with (2 ^ 3) in *;
  change CIPHER_FLAG_HAS_KDF_SALT with (2 ^ 4) in *.

Lemma flag_hmac_set f : FLAG_GET (FLAG_SET f CIPHER_FLAG_HMAC) CIPHER_FLAG_HMAC = true.
Proof. flag_pow. by rewrite FLAG_GET_SET. Qed.
Lemma flag_hmac_unset f : FLAG_GET (FLAG_UNSET f CIPHER_FLAG_HMAC) CIPHER_FLAG_HMAC = false.
Proof. flag_pow. by rewrite FLAG_GET_UNSET. Qed.
Lemma flag_hmac_used f :
  FLAG_GET (FLAG_SET f CIPHER_FLAG_KEY_USED) CIPHER_FLAG_HMAC = FLAG_GET f CIPHER_FLAG_HMAC.
Proof. flag_pow. by rewrite FLAG_GET_SET. Qed.
Lemma flag_hmac_salt f :
  FLAG_GET (FLAG_SET f CIPHER_FLAG_HAS_KDF_SALT) CIPHER_FLAG_HMAC =
  FLAG_GET f CIPHER_FLAG_HMAC.
Proof. flag_pow. by rewrite FLAG_GET_SET. Qed.
Lemma flag_used_hmac f :
  FLAG_GET (FLAG_SET f CIPHER_FLAG_HMAC) CIPHER_FLAG_KEY_USED =
  FLAG_GET f CIPHER_FLAG_KEY_USED.
Proof. flag_pow. by rewrite FLAG_GET_SET. Qed.
Lemma flag_used_nohmac f :
  FLAG_GET (FLAG_UNSET f CIPHER_FLAG_HMAC) CIPHER_FLAG_KEY_USED =
  FLAG_GET f CIPHER_FLAG_KEY_USED.
Proof. flag_pow. by rewrite FLAG_GET_UNSET. Qed.
Lemma flag_salt_set f :
  FLAG_GET (FLAG_SET f CIPHER_FLAG_HAS_KDF_SALT) CIPHER_FLAG_HAS_KDF_SALT = true.
Proof. flag_pow. by rewrite FLAG_GET_SET. Qed.
Lemma flag_salt_used f :
  FLAG_GET (FLAG_SET f CIPHER_FLAG_KEY_USED) CIPHER_FLAG_HAS_KDF_SALT =
  FLAG_GET f CIPHER_FLAG_HAS_KDF_SALT.
Proof. flag_pow. by rewrite FLAG_GET_SET. Qed.
Lemma flag_used_set f :
  FLAG_GET (FLAG_SET f CIPHER_FLAG_KEY_USED) CIPHER_FLAG_KEY_USED = true.
Proof. flag_pow. by rewrite FLAG_GET_SET. Qed.

Create Rewrite HintDb cflags.
#[export] Hint Rewrite flag_hmac_set flag_hmac_unset flag_hmac_used flag_hmac_salt
  flag_used_hmac flag_used_nohmac flag_salt_set flag_salt_used flag_used_set : cflags.

(** ** The ledger *)

Definition allocs := list (Z * Z).

Section Ledger.
Context {A : Type} `{AllocatorOk A}.

(** The heap's live allocations are those of [l], each at least as large as
    requested, and [L]. *)
Definition owns (h : A) (l : allocs) (L : list (Z * Z)) : Prop :=
  a_inv h /\ exists ms, Forall2 (fun a m => 0 <= a.2 <= m) l ms /\
    a_live h ≡ₚ zip l.*1 ms ++ L.

Definition opt_alloc (b : option buf) (n : Z) : allocs :=
  match b with Some b => [(b_ptr b, n)] | None => [] end.

Lemma owns_nil h L : a_inv h -> a_live h ≡ₚ L -> owns h [] L.
Proof. intros Hi Hl. split; [done|]. exists []. split; [constructor|done]. Qed.

Lemma owns_nil_inv h L : owns h [] L -> a_inv h /\ a_live h ≡ₚ L.
Proof. intros [Hi (ms & F & Hl)]. by inversion F; subst. Qed.

Lemma zip_fst_perm (l l' : allocs) : l ≡ₚ l' ->
  forall ms, Forall2 (fun a m => 0 <= a.2 <= m) l ms ->
  exists ms', Forall2 (fun a m => 0 <= a.2 <= m) l' ms' /\ zip l.*1 ms ≡ₚ zip l'.*1 ms'.
Proof.
  induction 1 as [|x l l' _ IH|x y l|l l' l'' _ IH1 _ IH2]; intros ms F.
  - by exists ms.
  - apply Forall2_cons_inv_l in F as (m & ms' & ? & F & ->).
    destruct (IH _ F) as (ms2 & F2 & Hp). exists (m :: ms2). split; [by constructor|].
    simpl. by rewrite Hp.
  - apply Forall2_cons_inv_l in F as (m & ms' & ? & F & ->).
    apply Forall2_cons_inv_l in F as (m' & ms2 & ? & F & ->).
    exists (m' :: m :: ms2). split; [by do 2 (constructor; [done|])|]. simpl. constructor.
  - destruct (IH1 _ F) as (ms2 & F2 & Hp2). destruct (IH2 _ F2) as (ms3 & F3 & Hp3).
    exists ms3. split; [done|]. by rewrite Hp2.
Qed.

#[global] Instance owns_proper : Proper ((=) ==> (≡ₚ) ==> (≡ₚ) ==> iff) owns.
Proof.
  assert (Hone : forall h l l' L L', l ≡ₚ l' -> L ≡ₚ L' -> owns h l L -> owns h l' L').
  { intros h l l' L L' Hl HL [Hi (ms & F & Hp)].
    destruct (zip_fst_perm _ _ Hl _ F) as (ms' & F' & Hp'). split; [done|].
    exists ms'. split; [done|]. by rewrite Hp, Hp', HL. }
  intros h ? <- l l' Hl L L' HL. split; apply Hone; done.
Qed.

Lemma owns_malloc h l L n : owns h l L -> 0 <= n ->
  exists r h', a_malloc n h = Some (r, h') /\
    match r with None => owns h' l L | Some p => owns h' ((p, n) :: l) L end.
Proof.
  intros [Hi (ms & F & Hp)] Hn.
  destruct (a_malloc_ok n h Hi) as (r & h' & E & Hi' & Hr). exists r, h'.
  split; [done|]. destruct r as [p|].
  - destruct Hr as (m & Hm & Hl). split; [done|]. exists (m :: ms).
    split; [by constructor|]. simpl. by rewrite Hl, Hp.
  - split; [done|]. exists ms. by rewrite Hr.
Qed.

Lemma owns_free h p n l L : owns h ((p, n) :: l) L ->
  exists h', a_free p n h = Some h' /\ owns h' l L.
Proof.
  intros [Hi (ms & F & Hp)].
  apply Forall2_cons_inv_l in F as (m & ms' & Hm & F & ->). simpl in *.
  destruct (a_free_ok p n m _ h Hi Hp Hm) as (h' & E & Hi' & Hl). exists h'.
  split; [done|]. split; [done|]. by exists ms'.
Qed.

Lemma owns_free_opt h b n l L : owns h (opt_alloc b n ++ l) L ->
  exists h', free_opt b n h = Some h' /\ owns h' l L.
Proof. destruct b as [b|]; simpl; [apply owns_free|eauto]. Qed.

Lemma owns_alloc_buf h l L n : owns h l L -> 0 <= n ->
  exists r h', alloc_buf n h = Some (r, h') /\ owns h' (opt_alloc r n ++ l) L /\
    (forall b, r = Some b -> len (b_data b) = n).
Proof.
  intros Ho Hn. unfold alloc_buf.
  destruct (owns_malloc h l L n Ho Hn) as (r & h' & -> & Hr).
  do 2 eexists. split; [done|]. destruct r as [p|]; simpl; split; try done.
  intros b [= <-]. simpl. rewrite length_replicate. lia.
Qed.
End Ledger.

(** ** The invariant of a context *)

(** A passphrase buffer holds exactly [pass_sz] bytes. *)
Definition pass_wf (c : cipher_ctx) : Prop :=
  match pass c with Some b => len (b_data b) = pass_sz c /\ 0 < pass_sz c | None => True end.

(** A buffer of [n] bytes. *)
Definition buf_wf (n : Z) (b : option buf) : Prop :=
  exists b', b = Some b' /\ len (b_data b') = n.

Definition slot_wf (n : Z) (s : option (Z * cipher_ctx)) : Prop :=
  exists p c, s = Some (p, c) /\ cipher_wf n c /\ pass_wf c.

Section Inv.
Context {A : Type} `{AllocatorOk A} {P : provider} `{!ProviderOk P} (G : globals).
Abbreviation ctx_t := (codec_ctx P).

(** The sizes of a context. The reserve is the least multiple of the block size that
    holds the initialization vector and, with HMAC, the tag. *)
Definition reserve_for (ctx : ctx_t) : Z :=
  let need := iv_sz ctx + (if FLAG_GET (flags ctx) CIPHER_FLAG_HMAC then hmac_sz ctx else 0) in
  (need + block_sz ctx - 1) / block_sz ctx * block_sz ctx.

Definition page_size_ok (n : Z) : Prop :=
  512 <= n <= 65536 /\ exists k, 0 <= k /\ n = 2 ^ k.

(** The part that holds from the moment the context has its buffers. *)
Record base_wf (ctx : ctx_t) : Prop := {
  bw_key : key_sz ctx = pv_get_key_sz P;
  bw_iv : iv_sz ctx = pv_get_iv_sz P;
  bw_block : block_sz ctx = pv_get_block_sz P;
  bw_page : page_size_ok (page_sz ctx);
  bw_salt_sz : kdf_salt_sz ctx = FILE_HEADER_SZ;
  bw_salt : buf_wf (kdf_salt_sz ctx) (kdf_salt ctx);
  bw_hsalt : buf_wf (kdf_salt_sz ctx) (hmac_kdf_salt ctx);
  bw_buffer : buf_wf (page_sz ctx) (buffer ctx);
  bw_prov : is_Some (provider_ctx ctx)
}.

Record codec_wf (ctx : ctx_t) : Prop := {
  cw_base : base_wf ctx;
  cw_hmac : hmac_sz ctx = pv_get_hmac_sz P (hmac_algorithm ctx);
  cw_reserve : reserve_sz ctx = reserve_for ctx;
  cw_header : plaintext_header_sz ctx <= page_sz ctx - reserve_sz ctx;
  cw_read : slot_wf (key_sz ctx) (read_ctx ctx);
  cw_write : slot_wf (key_sz ctx) (write_ctx ctx)
}.

(** The allocations of a cipher context and of a codec context. *)
Definition cipher_allocs (n : Z) (s : option (Z * cipher_ctx)) : allocs :=
  match s with
  | None => []
  | Some (p, c) => opt_alloc (key c) n ++ opt_alloc (hmac_key c) n ++
                   opt_alloc (pass c) (pass_sz c) ++ [(p, sizeof_cipher_ctx)]
  end.

Definition codec_allocs (p : Z) (ctx : ctx_t) : allocs :=
  opt_alloc (kdf_salt ctx) (kdf_salt_sz ctx) ++
  opt_alloc (hmac_kdf_salt ctx) (kdf_salt_sz ctx) ++
  opt_alloc (buffer ctx) (page_sz ctx) ++
  cipher_allocs (key_sz ctx) (read_ctx ctx) ++
  cipher_allocs (key_sz ctx) (write_ctx ctx) ++ [(p, sizeof_codec_ctx)].

(** ** Reserve and page size *)

Lemma round_up_quot a b : 0 <= a -> 0 < b ->
  (if Z.rem a b =? 0 then a else (Z.quot a b + 1) * b) = (a + b - 1) / b * b.
Proof.
  intros Ha Hb. rewrite Z.rem_mod_nonneg, Z.quot_div_nonneg by lia.
  pose proof (Z.div_mod a b ltac:(lia)) as E. pose proof (Z.mod_pos_bound a b Hb).
  destruct (Z.eqb_spec (a mod b) 0) as [Hz|Hz].
  - replace (a + b - 1) with (a / b * b + (b - 1)) by lia.
    rewrite Z.div_add_l, (Z.div_small (b - 1)) by lia. lia.
  - replace (a + b - 1) with ((a / b + 1) * b + (a mod b - 1)) by lia.
    rewrite Z.div_add_l, (Z.div_small (a mod b - 1)) by lia. lia.
Qed.

(** [reserve_setup] on a context with the provider's sizes. *)
Lemma reserve_setup_spec (ctx : ctx_t) :
  iv_sz ctx = pv_get_iv_sz P -> block_sz ctx = pv_get_block_sz P ->
  let ctx1 := set_hmac_sz (pv_get_hmac_sz P (hmac_algorithm ctx)) ctx in
  sqlcipher_codec_ctx_reserve_setup ctx = (SQLITE_OK, set_reserve_sz (reserve_for ctx1) ctx1).
Proof.
  intros Ei Eb. unfold sqlcipher_codec_ctx_reserve_setup, reserve_for. simpl.
  pose proof pv_iv_sz_ok. pose proof pv_block_sz_ok.
  pose proof (pv_hmac_sz_ok (hmac_algorithm ctx)).
  rewrite (proj2 (Z.ltb_lt 0 (block_sz ctx))) by lia.
  do 2 f_equal. destruct (FLAG_GET _ _);
    rewrite round_up_quot by lia; rewrite ?Z.add_0_r; done.
Qed.

(** The reserve is large enough and never more than a block too large. *)
Lemma reserve_for_bounds (ctx : ctx_t) : 0 < block_sz ctx ->
  let need := iv_sz ctx +
    (if FLAG_GET (flags ctx) CIPHER_FLAG_HMAC then hmac_sz ctx else 0) in
  need <= reserve_for ctx < need + block_sz ctx /\ (block_sz ctx | reserve_for ctx).
Proof.
  intros Hb need. unfold reserve_for. fold need. split; [|by exists ((need + block_sz ctx - 1) / block_sz ctx)].
  pose proof (Z.div_mod (need + block_sz ctx - 1) (block_sz ctx) ltac:(lia)).
  pose proof (Z.mod_pos_bound (need + block_sz ctx - 1) (block_sz ctx) Hb). lia.
Qed.

Lemma codec_wf_geo (ctx : ctx_t) : codec_wf ctx -> geometry_wf ctx.
Proof.
  intros [[Hk Hi Hb _ _ _ _ _ _] Hh Hr _ _ _]. split; try done. rewrite Hr.
  pose proof pv_block_sz_ok. by pose proof (reserve_for_bounds ctx ltac:(lia)) as [[? _] _].
Qed.

Lemma reserve_le (ctx : ctx_t) : codec_wf ctx -> 0 <= reserve_sz ctx <= 96.
Proof.
  intros [[Hk Hi Hb _ _ _ _ _ _] Hh -> _ _ _]. pose proof pv_iv_sz_ok.
  pose proof pv_block_sz_ok. pose proof (pv_hmac_sz_ok (hmac_algorithm ctx)).
  unfold CIPHER_MAX_IV_SZ in *.
  pose proof (reserve_for_bounds ctx ltac:(lia)). simpl in *.
  destruct (FLAG_GET _ _); lia.
Qed.

(** The power-of-two test of the page size. *)
Lemma pow2_land n : 0 < n -> Z.land n (n - 1) = 0 -> exists k, 0 <= k /\ n = 2 ^ k.
Proof.
  intros Hn E. exists (Z.log2 n). split; [apply Z.log2_nonneg|].
  destruct (Z.log2_spec n Hn) as [Hlo Hhi].
  destruct (Z.eq_dec n (2 ^ Z.log2 n)) as [|Hne]; [done|]. exfalso.
  assert (Hb : Z.testbit (Z.land n (n - 1)) (Z.log2 n) = true).
  { rewrite Z.land_spec, Z.bit_log2 by done. simpl.
    replace (Z.log2 n) with (Z.log2 (n - 1)).
    - apply Z.bit_log2. pose proof (Z.pow_pos_nonneg 2 (Z.log2 n)). 
      pose proof (Z.log2_nonneg n). lia.
    - apply Z.log2_unique; [apply Z.log2_nonneg|lia]. }
  rewrite E, Z.bits_0 in Hb. done.
Qed.

(** ** Destruction *)

Lemma cipher_ctx_free_spec (ctx : ctx_t) s h l L :
  owns h (cipher_allocs (key_sz ctx) s ++ l) L ->
  exists h', match s with Some c => sqlcipher_cipher_ctx_free ctx c h | None => Some h end =
               Some h' /\ owns h' l L.
Proof.
  destruct s as [[p c]|]; simpl; [|eauto]. intros Ho. rewrite <- !app_assoc in Ho.
  apply owns_free_opt in Ho as (h1 & -> & Ho).
  apply owns_free_opt in Ho as (h2 & -> & Ho).
  apply owns_free_opt in Ho as (h3 & -> & Ho).
  apply owns_free in Ho. done.
Qed.

Lemma codec_ctx_free_spec p (ctx : ctx_t) h L :
  owns h (codec_allocs p ctx) L ->
  exists h', sqlcipher_codec_ctx_free (Some (p, ctx)) h = Some h' /\ owns h' [] L.
Proof.
  unfold codec_allocs, sqlcipher_codec_ctx_free. intros Ho.
  apply owns_free_opt in Ho as (h1 & -> & Ho).
  apply owns_free_opt in Ho as (h2 & -> & Ho).
  apply owns_free_opt in Ho as (h3 & -> & Ho).
  apply cipher_ctx_free_spec in Ho as (h4 & -> & Ho).
  apply cipher_ctx_free_spec in Ho as (h5 & -> & Ho).
  apply owns_free in Ho. done.
Qed.

(** ** Cipher contexts *)

Lemma cipher_ctx_init_spec (ctx : ctx_t) h l L :
  0 <= key_sz ctx -> owns h l L ->
  exists rc r h', sqlcipher_cipher_ctx_init ctx h = Some (rc, r, h') /\
    owns h' (cipher_allocs (key_sz ctx) r ++ l) L /\
    (rc = SQLITE_OK -> exists p c, r = Some (p, c) /\ cipher_wf (key_sz ctx) c /\
       pass c = None /\ pass_sz c = 0).
Proof.
  intros Hk Ho. unfold sqlcipher_cipher_ctx_init.
  destruct (owns_malloc h l L sizeof_cipher_ctx Ho ltac:(done)) as (r & h1 & -> & Hr).
  destruct r as [p|]; [|by do 3 eexists].
  destruct (owns_alloc_buf _ _ _ _ Hr Hk) as (k & h2 & -> & Ho2 & Hlk).
  destruct (owns_alloc_buf _ _ _ _ Ho2 Hk) as (hk & h3 & -> & Ho3 & Hlh).
  assert (Ha : owns h3 (cipher_allocs (key_sz ctx) (Some (p, CipherCtx 0 0 k hk None)) ++ l) L).
  { simpl. rewrite <- !app_assoc. rewrite Permutation_app_swap_app. exact Ho3. }
  destruct k as [k|], hk as [hk|]; do 3 eexists; (split; [done|]); (split; [done|]);
    try done.
  intros _. do 2 eexists. split; [done|]. split; [|done]. exists k, hk. auto.
Qed.

(** The buffers of two contexts are the same allocations. *)
Definition same_bufs (c d : cipher_ctx) : Prop :=
  b_ptr <$> key c = b_ptr <$> key d /\ b_ptr <$> hmac_key c = b_ptr <$> hmac_key d.

Lemma opt_alloc_ptr (b b' : option buf) n :
  b_ptr <$> b = b_ptr <$> b' -> opt_alloc b n = opt_alloc b' n.
Proof. destruct b, b'; simpl; congruence. Qed.

Lemma same_bufs_refl c : same_bufs c c.
Proof. done. Qed.

Lemma copy_buf_spec (t s : option buf) n :
  buf_wf n t -> buf_wf n s ->
  exists t', copy_buf t s n = Some (Some t') /\ b_ptr <$> t = Some (b_ptr t') /\
    b_data <$> s = Some (b_data t') /\ len (b_data t') = n.
Proof.
  intros (bt & -> & Ht) (bs & -> & Hs). unfold copy_buf.
  rewrite mem_read_all by done. simpl.
  rewrite mem_write_total by lia. simpl. rewrite drop_ge, app_nil_r by lia.
  eexists. split; [done|]. done.
Qed.

Lemma cipher_wf_bufs n c :
  cipher_wf n c <-> buf_wf n (key c) /\ buf_wf n (hmac_key c).
Proof.
  split.
  - intros (k & hk & ? & ? & ? & ?). split; by eexists.
  - intros [(k & ? & ?) (hk & ? & ?)]. by exists k, hk.
Qed.

(** [set_pass]: the old passphrase is given back, the new one is a copy. *)
Lemma cipher_ctx_set_pass_spec c zKey nKey h l L :
  owns h (opt_alloc (pass c) (pass_sz c) ++ l) L ->
  (forall z, zKey = Some z -> nKey <= len z) ->
  exists rc c' h', sqlcipher_cipher_ctx_set_pass c zKey nKey h = Some (rc, c', h') /\
    owns h' (opt_alloc (pass c') (pass_sz c') ++ l) L /\
    key c' = key c /\ hmac_key c' = hmac_key c /\ derive_key c' = derive_key c /\
    pass_wf c' /\ (rc = SQLITE_OK \/ rc = SQLITE_NOMEM) /\
    (rc = SQLITE_OK ->
     match zKey with
     | Some z => if 0 <? nKey then b_data <$> pass c' = Some (take (Z.to_nat nKey) z) /\
                                   pass_sz c' = nKey
                 else pass c' = None /\ pass_sz c' = 0
     | None => pass c' = None /\ pass_sz c' = 0
     end).
Proof.
  intros Ho Hz. unfold sqlcipher_cipher_ctx_set_pass.
  apply owns_free_opt in Ho as (h1 & -> & Ho).
  destruct zKey as [z|]; [|do 3 eexists; split_and!; try done; by left].
  specialize (Hz z eq_refl).
  destruct (Z.ltb_spec 0 nKey) as [Hpos|Hpos];
    [|do 3 eexists; split_and!; try done; by left].
  destruct (owns_alloc_buf _ _ _ nKey Ho ltac:(lia)) as (r & h2 & -> & Ho2 & Hlr).
  destruct r as [b|]; [|do 3 eexists; split_and!; try done; by right].
  specialize (Hlr b eq_refl). rewrite take_mem_read by lia.
  assert (Hlen : length (take (Z.to_nat nKey) z) = length (b_data b))
    by (rewrite length_take; lia).
  rewrite mem_write_total by lia. simpl. rewrite drop_ge, app_nil_r by lia.
  do 3 eexists. split_and!; try done; [|by left]. split; simpl; lia.
Qed.

(** [cipher_ctx_copy]: keys and passphrase of the source, in the target's buffers. *)
Lemma cipher_ctx_copy_spec (ctx : ctx_t) t s h l L :
  cipher_wf (key_sz ctx) t -> cipher_wf (key_sz ctx) s -> pass_wf s -> 
  owns h (opt_alloc (pass t) (pass_sz t) ++ l) L ->
  exists rc t' h', sqlcipher_cipher_ctx_copy ctx t s h = Some (rc, t', h') /\
    owns h' (opt_alloc (pass t') (pass_sz t') ++ l) L /\
    same_bufs t' t /\ cipher_wf (key_sz ctx) t' /\ pass_wf t' /\
    b_data <$> key t' = b_data <$> key s /\ b_data <$> hmac_key t' = b_data <$> hmac_key s /\
    derive_key t' = derive_key s /\ pass_sz t' = pass_sz s /\
    (rc = SQLITE_OK \/ rc = SQLITE_NOMEM) /\
    (rc = SQLITE_OK -> b_data <$> pass t' = b_data <$> pass s).
Proof.
  intros [Wk Wh]%cipher_wf_bufs [Sk Sh]%cipher_wf_bufs Hps Ho.
  unfold sqlcipher_cipher_ctx_copy.
  apply owns_free_opt in Ho as (h1 & -> & Ho).
  destruct (copy_buf_spec _ _ _ Wk Sk) as (k & -> & Kp & Kd & Kl).
  destruct (copy_buf_spec _ _ _ Wh Sh) as (hk & -> & Hp & Hd & Hl).
  assert (Hw : forall d n p, cipher_wf (key_sz ctx) (CipherCtx d n (Some k) (Some hk) p)).
  { intros. apply cipher_wf_bufs. split; by eexists. }
  assert (Hb : forall d n p, same_bufs (CipherCtx d n (Some k) (Some hk) p) t) by done.
  unfold pass_wf in Hps. destruct (pass s) as [sp|] eqn:Es; cbn [fmap option_fmap option_map] in *.
  2:{ do 3 eexists. split_and!; try done. by left. }
  destruct Hps as [Hpl Hpp]. rewrite (proj2 (Z.eqb_neq (pass_sz s) 0)) by lia.
  destruct (owns_alloc_buf _ _ _ (pass_sz s) Ho ltac:(lia)) as (r & h2 & -> & Ho2 & Hlr).
  destruct r as [b|]; [|do 3 eexists; split_and!; try done; by right].
  destruct (copy_buf_spec (Some b) (Some sp) (pass_sz s)) as (tp & -> & Tp & Td & Tl);
    [by eexists; eauto|by eexists|].
  do 3 eexists. split; [done|]. split.
  - replace (opt_alloc (Some tp) _) with (opt_alloc (Some b) (pass_sz s)); [done|].
    by apply opt_alloc_ptr.
  - split_and!; try done. by left.
Qed.

(** ** Page size *)

(** What [set_pagesize] does to the context. *)
Inductive pagesize_step (ctx : ctx_t) (size : Z) : Z -> ctx_t -> Prop :=
  | ps_frozen : FLAG_GET (flags ctx) CIPHER_FLAG_KEY_USED = true ->
      pagesize_step ctx size SQLITE_OK ctx
  | ps_invalid : pagesize_step ctx size SQLITE_ERROR ctx
  | ps_nomem : page_size_ok size ->
      pagesize_step ctx size SQLITE_NOMEM (set_buffer None (set_page_sz size ctx))
  | ps_done b : page_size_ok size -> len (b_data b) = size ->
      FLAG_GET (flags ctx) CIPHER_FLAG_KEY_USED = false ->
      pagesize_step ctx size SQLITE_OK (set_buffer (Some b) (set_page_sz size ctx)).

Lemma codec_allocs_buffer p (ctx : ctx_t) :
  codec_allocs p ctx ≡ₚ opt_alloc (buffer ctx) (page_sz ctx) ++
    codec_allocs p (set_buffer None ctx).
Proof. unfold codec_allocs. simpl. solve_Permutation. Qed.

Lemma set_pagesize_spec p (ctx : ctx_t) size h L :
  owns h (codec_allocs p ctx) L ->
  exists rc ctx' h', sqlcipher_codec_ctx_set_pagesize ctx size h = Some (rc, ctx', h') /\
    owns h' (codec_allocs p ctx') L /\ pagesize_step ctx size rc ctx'.
Proof.
  intros Ho. unfold sqlcipher_codec_ctx_set_pagesize.
  destruct (FLAG_GET (flags ctx) CIPHER_FLAG_KEY_USED) eqn:Eu.
  { do 3 eexists. split; [done|]. split; [done|]. by constructor. }
  case_cond. { do 3 eexists. split; [done|]. split; [done|]. by constructor. }
  bool_to_prop. assert (Hs : page_size_ok size) by (split; [lia|]; apply pow2_land; lia).
  rewrite codec_allocs_buffer in Ho. apply owns_free_opt in Ho as (h1 & -> & Ho).
  destruct (owns_alloc_buf _ _ _ size Ho ltac:(lia)) as (r & h2 & -> & Ho2 & Hlr).
  assert (Ho3 : owns h2 (codec_allocs p (set_buffer r (set_page_sz size ctx))) L)
    by (rewrite codec_allocs_buffer; exact Ho2).
  destruct r as [b|]; do 3 eexists; (split; [done|]); (split; [done|]); constructor; auto.
Qed.

(** ** Passphrases of the two slots *)

(** The allocations but the passphrase of one slot. *)
Definition slot_rest (n : Z) (s : option (Z * cipher_ctx)) : allocs :=
  match s with
  | None => []
  | Some (p, c) => opt_alloc (key c) n ++ opt_alloc (hmac_key c) n ++ [(p, sizeof_cipher_ctx)]
  end.

Lemma codec_allocs_read p (ctx : ctx_t) pr r :
  codec_allocs p (set_read_ctx (Some (pr, r)) ctx) ≡ₚ
  opt_alloc (pass r) (pass_sz r) ++ slot_rest (key_sz ctx) (Some (pr, r)) ++
  codec_allocs p (set_read_ctx None ctx).
Proof. unfold codec_allocs. simpl. solve_Permutation. Qed.

Lemma codec_allocs_write p (ctx : ctx_t) pw w :
  codec_allocs p (set_write_ctx (Some (pw, w)) ctx) ≡ₚ
  opt_alloc (pass w) (pass_sz w) ++ slot_rest (key_sz ctx) (Some (pw, w)) ++
  codec_allocs p (set_write_ctx None ctx).
Proof. unfold codec_allocs. simpl. solve_Permutation. Qed.

Lemma set_read_self (ctx : ctx_t) v : read_ctx ctx = v -> set_read_ctx v ctx = ctx.
Proof. destruct ctx; simpl; by intros ->. Qed.
Lemma set_write_self (ctx : ctx_t) v : write_ctx ctx = v -> set_write_ctx v ctx = ctx.
Proof. destruct ctx; simpl; by intros ->. Qed.

Lemma slot_rest_bufs n p c d : same_bufs c d ->
  slot_rest n (Some (p, c)) = slot_rest n (Some (p, d)).
Proof.
  intros [Hk Hh]. simpl. by rewrite (opt_alloc_ptr _ _ n Hk), (opt_alloc_ptr _ _ n Hh).
Qed.

(** Replace the passphrase of a slot's ledger entry. *)
Lemma owns_read_swap p (ctx : ctx_t) pr r h L :
  read_ctx ctx = Some (pr, r) -> owns h (codec_allocs p ctx) L ->
  exists l, owns h (opt_alloc (pass r) (pass_sz r) ++ l) L /\
    forall h' r', same_bufs r' r -> owns h' (opt_alloc (pass r') (pass_sz r') ++ l) L ->
      owns h' (codec_allocs p (set_read_ctx (Some (pr, r')) ctx)) L.
Proof.
  intros Er Ho. exists (slot_rest (key_sz ctx) (Some (pr, r)) ++
                        codec_allocs p (set_read_ctx None ctx)).
  split.
  - rewrite <- codec_allocs_read, set_read_self; done.
  - intros h' r' Hb Ho'. by rewrite codec_allocs_read, (slot_rest_bufs _ _ _ _ Hb).
Qed.

Lemma owns_write_swap p (ctx : ctx_t) pw w h L :
  write_ctx ctx = Some (pw, w) -> owns h (codec_allocs p ctx) L ->
  exists l, owns h (opt_alloc (pass w) (pass_sz w) ++ l) L /\
    forall h' w', same_bufs w' w -> owns h' (opt_alloc (pass w') (pass_sz w') ++ l) L ->
      owns h' (codec_allocs p (set_write_ctx (Some (pw, w')) ctx)) L.
Proof.
  intros Er Ho. exists (slot_rest (key_sz ctx) (Some (pw, w)) ++
                        codec_allocs p (set_write_ctx None ctx)).
  split.
  - rewrite <- codec_allocs_write, set_write_self; done.
  - intros h' w' Hb Ho'. by rewrite codec_allocs_write, (slot_rest_bufs _ _ _ _ Hb).
Qed.

(** The slot holds the first [nKey] bytes of the passphrase. *)
Definition holds_pass (zKey : option bytes) (nKey : Z) (c : cipher_ctx) : Prop :=
  forall z, zKey = Some z -> 0 < nKey ->
    b_data <$> pass c = Some (take (Z.to_nat nKey) z) /\ pass_sz c = nKey.

(** [codec_ctx_set_pass] on the read context. *)
Lemma set_pass_read_spec p (ctx : ctx_t) pr r zKey nKey h L :
  read_ctx ctx = Some (pr, r) -> cipher_wf (key_sz ctx) r ->
  owns h (codec_allocs p ctx) L -> (forall z, zKey = Some z -> nKey <= len z) ->
  exists rc r' h', sqlcipher_codec_ctx_set_pass ctx zKey nKey 0 h =
      Some (rc, set_read_ctx (Some (pr, r')) ctx, h') /\
    owns h' (codec_allocs p (set_read_ctx (Some (pr, r')) ctx)) L /\
    cipher_wf (key_sz ctx) r' /\ pass_wf r' /\ same_bufs r' r /\
    (rc = SQLITE_OK -> derive_key r' = 1 /\ holds_pass zKey nKey r').
Proof.
  intros Er Wr Ho Hz. unfold sqlcipher_codec_ctx_set_pass. simpl. rewrite Er.
  destruct (owns_read_swap p ctx pr r h L Er Ho) as (l & Hl & Hback).
  destruct (cipher_ctx_set_pass_spec r zKey nKey h l L Hl Hz)
    as (rc & r1 & h1 & -> & Ho1 & Ek & Eh & Ed & Hp & Hrc & Hok).
  assert (W1 : cipher_wf (key_sz ctx) r1)
    by (apply cipher_wf_bufs; rewrite Ek, Eh; by apply cipher_wf_bufs).
  assert (B1 : same_bufs r1 r) by (unfold same_bufs; by rewrite Ek, Eh).
  destruct (Z.eqb_spec rc SQLITE_OK) as [->|Hne]; simpl.
  - exists SQLITE_OK, (set_derive1 r1), h1. split_and!; try done; [by apply Hback|].
    intros _. split; [done|]. intros z -> Hn. specialize (Hok eq_refl). simpl in Hok.
    by rewrite (proj2 (Z.ltb_lt _ _) Hn) in Hok.
  - exists rc, r1, h1. split_and!; try done. by apply Hback.
Qed.

(** ** Creation *)

Lemma init_error_spec p rc (ctx : ctx_t) h L :
  owns h (codec_allocs p ctx) L ->
  exists h', init_error p rc ctx h = Some (rc, None, h') /\ owns h' [] L.
Proof.
  intros Ho. unfold init_error.
  destruct (codec_ctx_free_spec _ _ _ _ Ho) as (h' & -> & ?). eauto.
Qed.

(** Both slots hold the passphrase and are still to be derived. *)
Definition pending_pass (zKey : option bytes) (nKey : Z) (ctx : ctx_t) : Prop :=
  exists pr r pw w, read_ctx ctx = Some (pr, r) /\ write_ctx ctx = Some (pw, w) /\
    derive_key r = 1 /\ derive_key w = 1 /\ holds_pass zKey nKey r /\ holds_pass zKey nKey w.

(** The outcome of a creation. *)
Definition created (zKey : option bytes) (nKey : Z) (L : list (Z * Z)) (rc : Z)
  (r : option (Z * ctx_t)) (h : A) : Prop :=
  match r with
  | None => rc <> SQLITE_OK /\ owns h [] L
  | Some (p, ctx) => rc = SQLITE_OK /\ codec_wf ctx /\ owns h (codec_allocs p ctx) L /\
      pending_pass zKey nKey ctx
  end.

Lemma init_error_created zKey nKey p rc (ctx : ctx_t) h L :
  rc <> SQLITE_OK -> owns h (codec_allocs p ctx) L ->
  exists rc' r h', init_error p rc ctx h = Some (rc', r, h') /\ created zKey nKey L rc' r h'.
Proof.
  intros Hrc Ho. destruct (init_error_spec p rc ctx h L Ho) as (h' & -> & ?).
  by exists rc, None, h'.
Qed.

Lemma codec_allocs_new_read p (ctx : ctx_t) r : read_ctx ctx = None ->
  codec_allocs p (set_read_ctx r ctx) ≡ₚ cipher_allocs (key_sz ctx) r ++ codec_allocs p ctx.
Proof. intros E. unfold codec_allocs. simpl. rewrite E. simpl. solve_Permutation. Qed.
Lemma codec_allocs_new_write p (ctx : ctx_t) w : write_ctx ctx = None ->
  codec_allocs p (set_write_ctx w ctx) ≡ₚ cipher_allocs (key_sz ctx) w ++ codec_allocs p ctx.
Proof. intros E. unfold codec_allocs. simpl. rewrite E. simpl. solve_Permutation. Qed.

Lemma init_ciphers_spec p zKey nKey (ctx : ctx_t) h L :
  base_wf ctx -> hmac_sz ctx = pv_get_hmac_sz P (hmac_algorithm ctx) ->
  reserve_sz ctx = reserve_for ctx ->
  plaintext_header_sz ctx <= page_sz ctx - reserve_sz ctx ->
  read_ctx ctx = None -> write_ctx ctx = None ->
  (forall z, zKey = Some z -> nKey <= len z) -> owns h (codec_allocs p ctx) L ->
  exists rc r h', init_ciphers p zKey nKey ctx h = Some (rc, r, h') /\ created zKey nKey L rc r h'.
Proof.
  intros Hb Hh Hr Hp Er Ew Hz Ho. unfold init_ciphers.
  assert (Hk : 0 <= key_sz ctx) by (rewrite (bw_key _ Hb); pose proof pv_key_sz_ok; lia).
  destruct (cipher_ctx_init_spec ctx h _ _ Hk Ho) as (rc1 & r & h1 & -> & Ho1 & Hok1).
  set (ctx1 := set_read_ctx r ctx).
  assert (Ho1' : owns h1 (codec_allocs p ctx1) L).
  { subst ctx1. by rewrite codec_allocs_new_read. }
  destruct (Z.eqb_spec rc1 SQLITE_OK) as [->|Hne]; cbn [negb];
    [|by apply init_error_created].
  destruct (Hok1 eq_refl) as (pr & c & -> & Wr & Pr & Pz).
  destruct (cipher_ctx_init_spec ctx1 h1 _ _ Hk Ho1') as (rc2 & w & h2 & -> & Ho2 & Hok2).
  set (ctx2 := set_write_ctx w ctx1).
  assert (Ho2' : owns h2 (codec_allocs p ctx2) L).
  { subst ctx2. by rewrite codec_allocs_new_write. }
  destruct (Z.eqb_spec rc2 SQLITE_OK) as [->|Hne]; cbn [negb];
    [|by apply init_error_created].
  destruct (Hok2 eq_refl) as (pw & w' & -> & Ww & Pw & Pwz).
  destruct (set_pass_read_spec p ctx2 pr c zKey nKey h2 L)
    as (rc3 & r' & h3 & -> & Ho3 & Wr' & Pr' & _ & Hd3); [done..|].
  destruct (Z.eqb_spec rc3 SQLITE_OK) as [->|Hne]; cbn [negb];
    [|by apply init_error_created].
  cbn [read_ctx write_ctx set_read_ctx set_write_ctx ctx2].
  destruct (owns_write_swap p (set_read_ctx (Some (pr, r')) ctx2) pw w' h3 L)
    as (l & Hl & Hback); [done..|].
  edestruct (cipher_ctx_copy_spec (set_read_ctx (Some (pr, r')) ctx2) w' r' h3)
    as (rc4 & w2 & h4 & E4 & Ho4 & Sb & Ww2 & Pw2 & _ & _ & Dw & Zw & _ & Hw); [done..|exact Hl|].
  cbn [set_read_ctx set_write_ctx ctx1 ctx2] in *. rewrite E4.
  apply Hback in Ho4; [|done].
  destruct (Z.eqb_spec rc4 SQLITE_OK) as [->|Hne]; cbn [negb];
    [|by apply init_error_created].
  do 3 eexists. split; [done|]. split; [done|]. split; [|split; [done|]].
  - destruct Hb. split; try done; by do 2 eexists.
  - destruct (Hd3 eq_refl) as [D3 P3]. exists pr, r', pw, w2. split_and!; try done; [congruence|].
    intros z Ez Hn. destruct (P3 z Ez Hn) as [Q1 Q2]. by rewrite (Hw eq_refl), Zw.
Qed.

(** ** Configuration *)

(** The tag size and the reserve agree with the algorithm and the flags. *)
Definition sized (ctx : ctx_t) : Prop :=
  hmac_sz ctx = pv_get_hmac_sz P (hmac_algorithm ctx) /\ reserve_sz ctx = reserve_for ctx.

(** What no configuration call changes: the allocations, the base invariant, the
    page size, the header size, the frozen flag and the presence of the slots. *)
Record cfg_step (ctx ctx' : ctx_t) : Prop := {
  cs_allocs p : codec_allocs p ctx' = codec_allocs p ctx;
  cs_base : base_wf ctx -> base_wf ctx';
  cs_used : FLAG_GET (flags ctx') CIPHER_FLAG_KEY_USED = FLAG_GET (flags ctx) CIPHER_FLAG_KEY_USED;
  cs_page : page_sz ctx' = page_sz ctx;
  cs_key : key_sz ctx' = key_sz ctx;
  cs_read : read_ctx ctx = None -> read_ctx ctx' = None;
  cs_write : write_ctx ctx = None -> write_ctx ctx' = None;
  cs_read_wf n : slot_wf n (read_ctx ctx) -> slot_wf n (read_ctx ctx');
  cs_write_wf n : slot_wf n (write_ctx ctx) -> slot_wf n (write_ctx ctx')
}.

Lemma cfg_step_refl ctx : cfg_step ctx ctx.
Proof. by split. Qed.

Lemma cfg_step_trans a b c : cfg_step a b -> cfg_step b c -> cfg_step a c.
Proof.
  intros [A1 A2 A3 A4 A5 A6 A7 A8 A9] [B1 B2 B3 B4 B5 B6 B7 B8 B9].
  split; intros; try congruence; auto.
Qed.

(** Both slots marked for derivation. *)
Lemma set_derive_key_step (ctx : ctx_t) d : cfg_step ctx (sqlcipher_set_derive_key ctx d).
Proof.
  split; try done; simpl.
  - intros p. unfold codec_allocs. simpl.
    by destruct (read_ctx ctx) as [[? ?]|], (write_ctx ctx) as [[? ?]|].
  - intros []. by split.
  - by intros ->.
  - by intros ->.
  - intros n (p & c & -> & W & Pw). simpl. by eexists p, _.
  - intros n (p & c & -> & W & Pw). simpl. by eexists p, _.
Qed.

(** A change of scalar fields only. *)
Ltac scalar_step := split; try done; intros []; split; done.

Lemma set_kdf_iter_step (ctx : ctx_t) it : exists ctx',
  sqlcipher_codec_ctx_set_kdf_iter ctx it = (SQLITE_OK, ctx') /\ cfg_step ctx ctx' /\
  (sized ctx -> sized ctx') /\ plaintext_header_sz ctx' = plaintext_header_sz ctx /\
  reserve_sz ctx' = reserve_sz ctx.
Proof.
  unfold sqlcipher_codec_ctx_set_kdf_iter. case_cond; eexists; (split; [done|]).
  - split; [apply cfg_step_refl|done].
  - split; [|done]. eapply cfg_step_trans; [|apply set_derive_key_step]. scalar_step.
Qed.

Lemma set_fast_kdf_iter_step (ctx : ctx_t) it : exists ctx',
  sqlcipher_codec_ctx_set_fast_kdf_iter ctx it = (SQLITE_OK, ctx') /\ cfg_step ctx ctx' /\
  (sized ctx -> sized ctx') /\ plaintext_header_sz ctx' = plaintext_header_sz ctx /\
  reserve_sz ctx' = reserve_sz ctx.
Proof.
  unfold sqlcipher_codec_ctx_set_fast_kdf_iter. case_cond; eexists; (split; [done|]).
  - split; [apply cfg_step_refl|done].
  - split; [|done]. eapply cfg_step_trans; [|apply set_derive_key_step]. scalar_step.
Qed.

Lemma set_kdf_algorithm_step (ctx : ctx_t) a : exists ctx',
  sqlcipher_codec_ctx_set_kdf_algorithm ctx a = (SQLITE_OK, ctx') /\ cfg_step ctx ctx' /\
  (sized ctx -> sized ctx') /\ plaintext_header_sz ctx' = plaintext_header_sz ctx /\
  reserve_sz ctx' = reserve_sz ctx.
Proof.
  unfold sqlcipher_codec_ctx_set_kdf_algorithm. case_cond; eexists; (split; [done|]).
  - split; [apply cfg_step_refl|done].
  - split; [|done]. scalar_step.
Qed.

(** The two calls that recompute the reserve. *)
Lemma reserve_setup_step (ctx : ctx_t) : base_wf ctx -> exists ctx',
  sqlcipher_codec_ctx_reserve_setup ctx = (SQLITE_OK, ctx') /\ cfg_step ctx ctx' /\
  sized ctx' /\ plaintext_header_sz ctx' = plaintext_header_sz ctx /\ flags ctx' = flags ctx.
Proof.
  intros Hb. rewrite reserve_setup_spec by (by destruct Hb).
  eexists. split; [done|]. split; [scalar_step|done].
Qed.

Lemma set_hmac_algorithm_step (ctx : ctx_t) a : base_wf ctx -> exists ctx',
  sqlcipher_codec_ctx_set_hmac_algorithm ctx a = (SQLITE_OK, ctx') /\ cfg_step ctx ctx' /\
  (FLAG_GET (flags ctx) CIPHER_FLAG_KEY_USED = false \/ sized ctx -> sized ctx') /\
  plaintext_header_sz ctx' = plaintext_header_sz ctx.
Proof.
  intros Hb. unfold sqlcipher_codec_ctx_set_hmac_algorithm. case_cond.
  - eexists. split; [done|]. split; [apply cfg_step_refl|]. split; [|done]. by intros [].
  - destruct (reserve_setup_step (set_hmac_algorithm a ctx)) as (ctx' & -> & Hs & Hz & Hh & _).
    { destruct Hb. by split. }
    exists ctx'. split; [done|]. split_and!; try done.
    eapply cfg_step_trans; [|exact Hs]. scalar_step.
Qed.

Lemma set_use_hmac_step (ctx : ctx_t) use : base_wf ctx -> exists ctx',
  sqlcipher_codec_ctx_set_use_hmac ctx use = (SQLITE_OK, ctx') /\ cfg_step ctx ctx' /\
  (FLAG_GET (flags ctx) CIPHER_FLAG_KEY_USED = false \/ sized ctx -> sized ctx') /\
  plaintext_header_sz ctx' = plaintext_header_sz ctx.
Proof.
  intros Hb. unfold sqlcipher_codec_ctx_set_use_hmac. case_cond.
  - eexists. split; [done|]. split; [apply cfg_step_refl|]. split; [|done]. by intros [].
  - set (ctx1 := if use then _ else _).
    assert (H1 : cfg_step ctx ctx1).
    { subst ctx1. destruct use; split; try done; simpl; try (by autorewrite with cflags);
        intros []; by split. }
    destruct (reserve_setup_step ctx1) as (ctx' & -> & Hs & Hz & Hh & _);
      [by apply (cs_base _ _ H1)|].
    exists ctx'. split; [done|]. split_and!; [by eapply cfg_step_trans|done|].
    rewrite Hh. subst ctx1. by destruct use.
Qed.

(** The header size is validated against the page, or set to -1. *)
Lemma set_header_size_step (ctx : ctx_t) n : exists rc ctx',
  sqlcipher_codec_ctx_set_plaintext_header_size ctx n = (rc, ctx') /\ cfg_step ctx ctx' /\
  (sized ctx -> sized ctx') /\ reserve_sz ctx' = reserve_sz ctx /\
  ((rc = SQLITE_OK /\ plaintext_header_sz ctx' = n /\ 0 <= n <= page_sz ctx - reserve_sz ctx /\
    (block_sz ctx | n)) \/
   (rc = SQLITE_ERROR /\ plaintext_header_sz ctx' = -1)).
Proof.
  unfold sqlcipher_codec_ctx_set_plaintext_header_size. case_cond.
  - do 2 eexists. split; [done|]. split; [scalar_step|]. split_and!; try done.
    left. split_and!; try done. apply Z.mod_divide; [lia|].
    rewrite <- Z.rem_mod_nonneg; lia.
  - do 2 eexists. split; [done|]. split; [scalar_step|]. split_and!; try done. by right.
Qed.

(** The configuration part of the creation, on a context without cipher contexts. *)
Lemma init_contexts_spec p zKey nKey (ctx : ctx_t) h L :
  base_wf ctx -> FLAG_GET (flags ctx) CIPHER_FLAG_KEY_USED = false ->
  read_ctx ctx = None -> write_ctx ctx = None ->
  (forall z, zKey = Some z -> nKey <= len z) -> owns h (codec_allocs p ctx) L ->
  exists rc r h', init_contexts G p zKey nKey ctx h = Some (rc, r, h') /\ created zKey nKey L rc r h'.
Proof.
  intros Hb Hu Er Ew Hz Ho. unfold init_contexts.
  destruct (set_kdf_iter_step ctx (default_kdf_iter G)) as (c1 & -> & S1 & _).
  destruct (set_fast_kdf_iter_step c1 FAST_PBKDF2_ITER) as (c2 & E & S2 & _).
  cbn [negb Z.eqb SQLITE_OK]. rewrite E. clear E.
  pose proof (cfg_step_trans _ _ _ S1 S2) as T2.
  destruct (set_hmac_algorithm_step c2 (default_hmac_algorithm G) (cs_base _ _ T2 Hb))
    as (c3 & E & S3 & Z3 & _). cbn [negb Z.eqb]. rewrite E. clear E.
  pose proof (cfg_step_trans _ _ _ T2 S3) as T3.
  destruct (set_use_hmac_step c3 (FLAG_GET (default_flags G) CIPHER_FLAG_HMAC)
    (cs_base _ _ T3 Hb)) as (c4 & E & S4 & Z4 & _). cbn [negb Z.eqb]. rewrite E. clear E.
  pose proof (cfg_step_trans _ _ _ T3 S4) as T4.
  destruct (set_kdf_algorithm_step c4 (default_kdf_algorithm G)) as (c5 & E & S5 & Z5 & _).
  cbn [negb Z.eqb]. rewrite E. clear E.
  pose proof (cfg_step_trans _ _ _ T4 S5) as T5.
  destruct (set_header_size_step c5 (default_plaintext_header_size G))
    as (rc & c6 & E & S6 & Z6 & Er6 & Hh). cbn [negb Z.eqb]. rewrite E. clear E.
  pose proof (cfg_step_trans _ _ _ T5 S6) as T6.
  rewrite <- (cs_allocs _ _ T6) in Ho.
  assert (Hsz : sized c6).
  { apply Z6, Z5, Z4. left. by rewrite (cs_used _ _ T3). }
  destruct Hh as [(-> & Hh & Hr & _)|(-> & Hh)]; cbn [negb Z.eqb SQLITE_ERROR].
  - apply init_ciphers_spec; try done; try apply Hsz; try by apply T6.
    rewrite Hh, Er6, (cs_page _ _ S6). lia.
  - by apply init_error_created.
Qed.

Lemma codec_ctx_init_created bt zKey nKey h L :
  FLAG_GET (default_flags G) CIPHER_FLAG_KEY_USED = false ->
  (forall z, zKey = Some z -> nKey <= len z) -> owns h [] L ->
  exists rc r h', sqlcipher_codec_ctx_init (P:=P) G bt zKey nKey h = Some (rc, r, h') /\
    created zKey nKey L rc r h'.
Proof.
  intros Hu Hz Ho. unfold sqlcipher_codec_ctx_init.
  destruct (owns_malloc h [] L sizeof_codec_ctx Ho ltac:(done)) as (r & h1 & -> & Hr).
  destruct r as [p|]; [|by do 3 eexists]. cbn [kdf_salt_sz set_kdf_salt_sz set_kdf_salt].
  destruct (owns_alloc_buf _ _ _ FILE_HEADER_SZ Hr ltac:(done)) as (s1 & h2 & -> & Ho2 & Hl1).
  destruct s1 as [s1|]; cbn [bool_decide decide]; [|by apply init_error_created].
  destruct (owns_alloc_buf _ _ _ FILE_HEADER_SZ Ho2 ltac:(done)) as (s2 & h3 & -> & Ho3 & Hl2).
  rewrite Permutation_app_swap_app in Ho3.
  destruct s2 as [s2|]; cbn [bool_decide decide]; [|by apply init_error_created].
  destruct (pv_ctx_init P) as [rc pc] eqn:Ep.
  destruct (Z.eqb_spec rc SQLITE_OK) as [->|Hrc]; cbn [negb];
    [|by apply init_error_created].
  apply pv_ctx_init_ok in Ep. set (ctx := set_block_sz _ _).
  destruct (set_pagesize_spec p ctx (default_page_size G) h3 L Ho3)
    as (rc & ctx' & h4 & -> & Ho4 & Hs).
  destruct (Z.eqb_spec rc SQLITE_OK) as [->|Hrc]; cbn [negb];
    [|by apply init_error_created].
  inversion Hs as [Hf| | |b Hpg Hlb Hf]; subst ctx'.
  - subst ctx. simpl in Hf. congruence.
  - apply init_contexts_spec; [|exact Hu|reflexivity|reflexivity|exact Hz|exact Ho4].
    split; cbn; [reflexivity..|exact Hpg|reflexivity| | | |exact Ep]; eexists; eauto.
Qed.

(** ** Sequences of configuration calls *)

(** The configuration interface that the pragmas call. *)
Inductive config_op :=
  | CfgKdfIter (n : Z) | CfgFastKdfIter (n : Z) | CfgHmacAlgorithm (a : Z)
  | CfgKdfAlgorithm (a : Z) | CfgUseHmac (use : bool) | CfgHeaderSize (n : Z)
  | CfgKdfSalt (salt : bytes) | CfgPageSize (n : Z).

Definition config_run (op : config_op) (ctx : ctx_t) (h : A) : option (Z * ctx_t * A) :=
  match op with
  | CfgKdfIter n => let '(rc, c) := sqlcipher_codec_ctx_set_kdf_iter ctx n in Some (rc, c, h)
  | CfgFastKdfIter n =>
      let '(rc, c) := sqlcipher_codec_ctx_set_fast_kdf_iter ctx n in Some (rc, c, h)
  | CfgHmacAlgorithm a =>
      let '(rc, c) := sqlcipher_codec_ctx_set_hmac_algorithm ctx a in Some (rc, c, h)
  | CfgKdfAlgorithm a =>
      let '(rc, c) := sqlcipher_codec_ctx_set_kdf_algorithm ctx a in Some (rc, c, h)
  | CfgUseHmac u => let '(rc, c) := sqlcipher_codec_ctx_set_use_hmac ctx u in Some (rc, c, h)
  | CfgHeaderSize n =>
      let '(rc, c) := sqlcipher_codec_ctx_set_plaintext_header_size ctx n in Some (rc, c, h)
  | CfgKdfSalt s =>
      let? (rc, c) := sqlcipher_codec_ctx_set_kdf_salt ctx s (len s) in Some (rc, c, h)
  | CfgPageSize n => sqlcipher_codec_ctx_set_pagesize ctx n h
  end.

(** The plaintext header still fits in front of the reserve. *)
Definition header_fits (ctx : ctx_t) : Prop :=
  plaintext_header_sz ctx <= page_sz ctx - reserve_sz ctx.

Lemma cfg_step_wf (ctx ctx' : ctx_t) :
  codec_wf ctx -> cfg_step ctx ctx' -> sized ctx' -> header_fits ctx' -> codec_wf ctx'.
Proof.
  intros [Hb Hh Hr Hp Rd Wr] S [Z1 Z2] Hf. pose proof (cs_key _ _ S) as Hk.
  split; try done; [by apply S|rewrite Hk; by apply S|rewrite Hk; by apply S].
Qed.

Lemma codec_wf_sized (ctx : ctx_t) : codec_wf ctx -> sized ctx.
Proof. by intros []. Qed.

(** A salt buffer with new contents. *)
Lemma set_kdf_salt_wf (ctx : ctx_t) b d f :
  codec_wf ctx -> kdf_salt ctx = Some b -> length d = length (b_data b) ->
  FLAG_GET f CIPHER_FLAG_HMAC = FLAG_GET (flags ctx) CIPHER_FLAG_HMAC ->
  codec_wf (set_flags f (set_kdf_salt (Some (Buf (b_ptr b) d)) ctx)) /\
  forall p, codec_allocs p (set_flags f (set_kdf_salt (Some (Buf (b_ptr b) d)) ctx)) =
            codec_allocs p ctx.
Proof.
  intros [Hb Hh Hr Hp Rd Wr] Es Hd Hf. split.
  - split; try done.
    + destruct Hb as [? ? ? ? ? Hs ? ? ?]. split; try done. simpl.
      destruct Hs as (b' & E & Hl). rewrite Es in E. injection E as <-.
      eexists. split; [done|]. simpl. lia.
    + unfold reserve_for in *. simpl. by rewrite Hf.
  - intros p. unfold codec_allocs. simpl. by rewrite Es.
Qed.

Lemma set_kdf_salt_spec (ctx : ctx_t) salt :
  codec_wf ctx -> exists rc ctx',
    sqlcipher_codec_ctx_set_kdf_salt ctx salt (len salt) = Some (rc, ctx') /\
    codec_wf ctx' /\ (forall p, codec_allocs p ctx' = codec_allocs p ctx) /\
    rc <> SQLITE_NOMEM.
Proof.
  intros W. unfold sqlcipher_codec_ctx_set_kdf_salt. case_cond; [by do 2 eexists|].
  case_cond; [|by do 2 eexists].
  destruct (bw_salt _ (cw_base _ W)) as (b & Eb & Hl).
  pose proof (bw_salt_sz _ (cw_base _ W)) as Hs. unfold FILE_HEADER_SZ in Hs.
  rewrite Eb, take_mem_read by lia.
  destruct (mem_write (b_data b) 0 _) as [d|] eqn:Ew;
    [|rewrite mem_write_total in Ew by (rewrite ?length_take; lia); done].
  apply mem_write_length in Ew. do 2 eexists. split; [done|].
  destruct (set_kdf_salt_wf ctx b d (FLAG_SET (flags ctx) CIPHER_FLAG_HAS_KDF_SALT))
    as [? ?]; try done. by autorewrite with cflags.
Qed.

(** A reserve that depends on fields the page size call leaves alone. *)
Lemma pagesize_wf (ctx : ctx_t) size rc ctx' :
  codec_wf ctx -> pagesize_step ctx size rc ctx' -> rc <> SQLITE_NOMEM ->
  header_fits ctx' -> codec_wf ctx'.
Proof.
  intros W Hs Hrc Hf. inversion Hs as [Hu| |Hpg|b Hpg Hlb Hu]; subst; try done.
  destruct W as [Hb Hh Hr Hp Rd Wr]. split; try done.
  destruct Hb. split; try done. by eexists.
Qed.

Lemma config_run_spec op p (ctx : ctx_t) h L :
  codec_wf ctx -> owns h (codec_allocs p ctx) L ->
  exists rc ctx' h', config_run op ctx h = Some (rc, ctx', h') /\
    owns h' (codec_allocs p ctx') L /\
    (rc <> SQLITE_NOMEM -> header_fits ctx' -> codec_wf ctx').
Proof.
  intros W Ho. pose proof (codec_wf_sized _ W) as Z. pose proof (cw_base _ W) as Hb.
  destruct op as [n|n|a|a|u|n|s|n]; simpl.
  - destruct (set_kdf_iter_step ctx n) as (c & -> & S & Hz & _).
    do 3 eexists. split; [done|]. rewrite (cs_allocs _ _ S). eauto using cfg_step_wf.
  - destruct (set_fast_kdf_iter_step ctx n) as (c & -> & S & Hz & _).
    do 3 eexists. split; [done|]. rewrite (cs_allocs _ _ S). eauto using cfg_step_wf.
  - destruct (set_hmac_algorithm_step ctx a Hb) as (c & -> & S & Hz & _).
    do 3 eexists. split; [done|]. rewrite (cs_allocs _ _ S). eauto using cfg_step_wf.
  - destruct (set_kdf_algorithm_step ctx a) as (c & -> & S & Hz & _).
    do 3 eexists. split; [done|]. rewrite (cs_allocs _ _ S). eauto using cfg_step_wf.
  - destruct (set_use_hmac_step ctx u Hb) as (c & -> & S & Hz & _).
    do 3 eexists. split; [done|]. rewrite (cs_allocs _ _ S). eauto using cfg_step_wf.
  - destruct (set_header_size_step ctx n) as (rc & c & -> & S & Hz & _).
    do 3 eexists. split; [done|]. rewrite (cs_allocs _ _ S). eauto using cfg_step_wf.
  - destruct (set_kdf_salt_spec ctx s W) as (rc & c & -> & Wc & Ha & _).
    do 3 eexists. split; [done|]. by rewrite Ha.
  - destruct (set_pagesize_spec p ctx n h L Ho) as (rc & c & h' & -> & Ho' & Hs).
    do 3 eexists. split; [done|]. split; [done|]. intros. by eapply pagesize_wf.
Qed.

Lemma config_frozen op (ctx : ctx_t) h :
  FLAG_GET (flags ctx) CIPHER_FLAG_KEY_USED = true ->
  match op with CfgHeaderSize _ => True | _ => config_run op ctx h = Some (SQLITE_OK, ctx, h) end.
Proof.
  intros Hu. destruct op; try done; simpl;
    unfold sqlcipher_codec_ctx_set_kdf_iter, sqlcipher_codec_ctx_set_fast_kdf_iter,
      sqlcipher_codec_ctx_set_hmac_algorithm, sqlcipher_codec_ctx_set_kdf_algorithm,
      sqlcipher_codec_ctx_set_use_hmac, sqlcipher_codec_ctx_set_kdf_salt,
      sqlcipher_codec_ctx_set_pagesize; by rewrite Hu.
Qed.

(** ** Properties *)

(** Creating a context never leaks and never fails halfway: for every allocator and
    provider behaviour the call returns; when it reports an error no context exists and
    the live allocations are those of before; when it succeeds the context satisfies the
    invariant and owns exactly the new allocations. *)
Theorem codec_ctx_init_no_leak bt zKey nKey (h : A) :
  FLAG_GET (default_flags G) CIPHER_FLAG_KEY_USED = false ->
  (forall z, zKey = Some z -> nKey <= len z) -> a_inv h ->
  exists rc r h', sqlcipher_codec_ctx_init (P:=P) G bt zKey nKey h = Some (rc, r, h') /\
    match r with
    | None => rc <> SQLITE_OK /\ a_inv h' /\ a_live h' ≡ₚ a_live h
    | Some (p, ctx) =>
        rc = SQLITE_OK /\ codec_wf ctx /\ owns h' (codec_allocs p ctx) (a_live h)
    end.
Proof.
  intros Hu Hz Hi.
  destruct (codec_ctx_init_created bt zKey nKey h (a_live h) Hu Hz) as (rc & r & h' & E & Hc);
    [by apply owns_nil|].
  exists rc, r, h'. split; [done|]. destruct r as [[p ctx]|].
  - by destruct Hc as (? & ? & ? & _).
  - by destruct Hc as [? ?%owns_nil_inv].
Qed.

(** destroying a context gives every one of its allocations back, with sizes the
    allocator accepts, and touches no other allocation. *)
Theorem codec_ctx_free_restores p (ctx : ctx_t) (h : A) L :
  owns h (codec_allocs p ctx) L ->
  exists h', sqlcipher_codec_ctx_free (Some (p, ctx)) h = Some h' /\
    a_inv h' /\ a_live h' ≡ₚ L.
Proof.
  intros Ho. destruct (codec_ctx_free_spec p ctx h L Ho) as (h' & E & Ho').
  exists h'. split; [done|]. by apply owns_nil_inv.
Qed.

(** C26: every configuration call is memory safe, keeps the ledger of allocations exact
    even when memory runs out, and keeps the invariant of the context as long as the
    plaintext header still fits in front of the reserve. *)
Theorem config_preserves_invariant op p (ctx : ctx_t) (h : A) L :
  codec_wf ctx -> owns h (codec_allocs p ctx) L ->
  exists rc ctx' h', config_run op ctx h = Some (rc, ctx', h') /\
    owns h' (codec_allocs p ctx') L /\
    (rc <> SQLITE_NOMEM -> plaintext_header_sz ctx' <= page_sz ctx' - reserve_sz ctx' ->
     codec_wf ctx').
Proof. apply config_run_spec. Qed.

(** Once the key has been used, the parameters that determine the file format are
    frozen: every configuration call but the one for the plaintext header reports
    success and changes neither the context nor the heap. *)
Theorem config_frozen_once_used op (ctx : ctx_t) (h : A) :
  FLAG_GET (flags ctx) CIPHER_FLAG_KEY_USED = true ->
  (forall n, op <> CfgHeaderSize n) ->
  config_run op ctx h = Some (SQLITE_OK, ctx, h).
Proof.
  intros Hu Hn. pose proof (config_frozen op ctx h Hu) as E.
  destruct op; try exact E. by destruct (Hn n).
Qed.

(** the reserve computed for a context holds the initialization vector and, with
    HMAC, the tag; it is a multiple of the cipher's block size and smaller than any
    other such multiple. *)
Theorem reserve_setup_least (ctx : ctx_t) :
  iv_sz ctx = pv_get_iv_sz P -> block_sz ctx = pv_get_block_sz P ->
  exists ctx', sqlcipher_codec_ctx_reserve_setup ctx = (SQLITE_OK, ctx') /\
    (block_sz ctx | reserve_sz ctx') /\
    iv_sz ctx + (if FLAG_GET (flags ctx) CIPHER_FLAG_HMAC then hmac_sz ctx' else 0)
      <= reserve_sz ctx' /\
    forall r, (block_sz ctx | r) ->
      iv_sz ctx + (if FLAG_GET (flags ctx) CIPHER_FLAG_HMAC then hmac_sz ctx' else 0) <= r ->
      reserve_sz ctx' <= r.
Proof.
  intros Ei Eb. eexists. split; [by apply reserve_setup_spec|]. pose proof pv_block_sz_ok.
  set (ctx1 := set_hmac_sz _ ctx).
  destruct (reserve_for_bounds ctx1 ltac:(simpl; lia)) as [[Hlo Hhi] Hd]. simpl in *.
  split_and!; [done|done|]. intros r [q ->] Hr. destruct Hd as [q' Hq].
  rewrite Hq in *. apply Z.mul_le_mono_nonneg_r; [lia|]. nia.
Qed.
End Inv.

(** ** Witnesses *)

(** A ledger that holds exactly [l]. *)
Definition ledger_of (l : allocs) : ledger := Ledger 100000 100000 l.

Lemma ledger_owns l :
  NoDup l.*1 -> Forall (fun b => b.1 < 100000 /\ 0 <= b.2) l -> owns (ledger_of l) l [].
Proof.
  intros Hnd Hf. split; [split; [done|]|].
  - eapply Forall_impl; [|exact Hf]. by intros ? [].
  - exists l.*2. rewrite app_nil_r. split.
    + clear Hnd. induction Hf as [|b l [? ?] _ IH]; constructor; [lia|done].
    + simpl. clear. induction l as [|[a b] l IH]; [done|]. simpl. by apply Permutation_cons.
Qed.

Definition demo_heap : ledger := ledger_of (codec_allocs 5 demo_ctx).

Lemma demo_owns : owns demo_heap (codec_allocs 5 demo_ctx) [].
Proof.
  apply ledger_owns; apply (bool_decide_unpack _); by vm_compute.
Qed.

Lemma demo_wf : codec_wf demo_ctx.
Proof.
  split; [split| | | | |]; simpl; try done.
  - split; [lia|]. exists 9. done.
  - by eexists.
  - by eexists.
  - eexists. split; [done|]. by vm_compute.
  - do 2 eexists. split; [done|]. split; [apply demo_cipher_wf|done].
  - do 2 eexists. split; [done|]. split; [apply demo_cipher_wf|done].
Qed.

Lemma codec_ctx_init_no_leak_witness :
  exists rc r h', sqlcipher_codec_ctx_init (P:=demo_provider) demo_globals demo_btree
      (Some [1; 2; 3]) 3 (Ledger 1 5000 []) = Some (rc, r, h') /\
    match r with
    | None => rc <> SQLITE_OK /\ a_inv h' /\ a_live h' ≡ₚ a_live (Ledger 1 5000 [])
    | Some (p, ctx) =>
        rc = SQLITE_OK /\ codec_wf ctx /\ owns h' (codec_allocs p ctx) (a_live (Ledger 1 5000 []))
    end.
Proof.
  apply (codec_ctx_init_no_leak demo_globals); [done| |by split; constructor].
  intros z [= <-]. done.
Defined.

Lemma codec_ctx_free_restores_witness :
  exists h', sqlcipher_codec_ctx_free (Some (5, demo_ctx)) demo_heap = Some h' /\
    a_inv h' /\ a_live h' ≡ₚ [].
Proof. apply (codec_ctx_free_restores 5 demo_ctx demo_heap []). exact demo_owns. Defined.

Lemma config_preserves_invariant_witness :
  exists rc ctx' h', config_run (CfgPageSize 1024) demo_ctx demo_heap = Some (rc, ctx', h') /\
    owns h' (codec_allocs 5 ctx') [] /\
    (rc <> SQLITE_NOMEM -> plaintext_header_sz ctx' <= page_sz ctx' - reserve_sz ctx' ->
     codec_wf ctx').
Proof.
  apply (config_preserves_invariant (CfgPageSize 1024) 5 demo_ctx demo_heap []);
    [exact demo_wf|exact demo_owns].
Defined.

Lemma config_frozen_once_used_witness :
  config_run (CfgUseHmac false) (set_flags CIPHER_FLAG_KEY_USED demo_ctx) demo_heap =
  Some (SQLITE_OK, set_flags CIPHER_FLAG_KEY_USED demo_ctx, demo_heap).
Proof. apply config_frozen_once_used; done. Defined.

Lemma reserve_setup_least_witness :
  exists ctx', sqlcipher_codec_ctx_reserve_setup demo_ctx = (SQLITE_OK, ctx') /\
    (4 | reserve_sz ctx') /\ 4 + hmac_sz ctx' <= reserve_sz ctx' /\
    forall r, (4 | r) -> 4 + hmac_sz ctx' <= r -> reserve_sz ctx' <= r.
Proof. exact (reserve_setup_least demo_ctx eq_refl eq_refl). Defined.
