(* ===== verification/HeapAlloc.v ===== *)
(** * The private heap as the allocator of the codec

    [sqlcipher_malloc]/[sqlcipher_free] of [PrivateHeap.v], with the system allocator
    behind them as a parameter, meet the interface [AllocatorOk] that the theorems on
    codec contexts assume. The live allocations are the payloads of the private heap
    and the blocks handed out by the system allocator. *)

From stdpp Require Import gmap.
From S2P Require Import Prelude CipherUtil PrivateHeap CodecCtx Demo CodecInv.
Import Xoshiro PrivateHeap.

(** The list of blocks, read off the headers. *)
Fixpoint walk (fuel : nat) (m : gmap Z private_block) (p : Z) : list (Z * bool) :=
  match fuel with
  | O => []
  | S fuel' =>
      if p =? NULL then [] else
      match m !! p with
      | Some b => (pb_size b, pb_is_used b) :: walk fuel' m (pb_next b)
      | None => []
      end
  end.

Definition heap_list (h : heap) : list (Z * bool) := walk (heap_fuel h) (h_blocks h) (h_base h).

Definition sys_live (m : gmap Z bytes) : list (Z * Z) :=
  (fun kb : Z * bytes => (kb.1, len kb.2)) <$> map_to_list m.

Definition heap_live (h : heap) : list (Z * Z) :=
  live_of (heap_list h) (h_base h) ++ sys_live (h_sys h).

(** A system block lies outside the private region and is not too large. *)
Definition sys_ok (h : heap) : Prop :=
  forall p b, h_sys h !! p = Some b ->
    p <> NULL /\ (p < h_base h \/ h_base h + h_sz h <= p) /\ len b < 2 ^ 31.

Definition heap_inv (h : heap) : Prop := heap_wf h (heap_list h) /\ sys_ok h.

Lemma walk_chain fuel m p l a fin :
  (length l < fuel)%nat -> 0 < a -> sizes_pos l -> chain m p l a fin -> walk fuel m p = l.
Proof.
  revert p l a. induction fuel as [|fuel IH]; intros p l a Hf Ha Hs Hc; [lia|].
  destruct l as [|[sz u] l]; simpl in *.
  - destruct Hc as [-> _]. done.
  - destruct Hc as (-> & nxt & E & Hc). inversion Hs; subst. simpl in *.
    rewrite (proj2 (Z.eqb_neq a NULL)) by (unfold NULL; lia). rewrite E. simpl. f_equal.
    eapply IH; [lia| |done|done]. unfold sizeof_private_block. lia.
Qed.

Lemma heap_list_wf h l : heap_wf h l -> heap_list h = l.
Proof.
  intros W. pose proof W as [Hb _ Hc Hs _ _ _ _]. unfold heap_list.
  by eapply walk_chain; [apply heap_fuel_enough| | |].
Qed.

Lemma heap_inv_intro h l : heap_wf h l -> sys_ok h -> heap_inv h.
Proof. intros W S. split; [|done]. by rewrite (heap_list_wf h l W). Qed.

Lemma sys_live_insert m p b : m !! p = None ->
  sys_live (<[p := b]> m) ≡ₚ (p, len b) :: sys_live m.
Proof. intros E. unfold sys_live. by rewrite map_to_list_insert. Qed.

Lemma sys_live_delete m p b : m !! p = Some b ->
  sys_live m ≡ₚ (p, len b) :: sys_live (delete p m).
Proof.
  intros E. rewrite <- (sys_live_insert (delete p m)) by apply lookup_delete_eq.
  rewrite insert_delete_id; done.
Qed.

Lemma sys_live_in m p n : (p, n) ∈ sys_live m <-> exists b, m !! p = Some b /\ n = len b.
Proof.
  unfold sys_live. rewrite list_elem_of_fmap. split.
  - intros ([k b] & [= -> ->] & Hin). exists b. split; [|done]. by apply elem_of_map_to_list.
  - intros (b & E & ->). exists (p, b). split; [done|]. by apply elem_of_map_to_list.
Qed.

(** An address that is no payload is not found. *)
Lemma ff_free_outside p l a fin m q :
  sizes_pos l -> chain m q l a fin -> p <= a \/ fin <= p -> ff_free p l a = None.
Proof.
  revert a q. induction l as [|[sz u] l IH]; intros a q Hs Hc Hp; [done|].
  inversion Hs as [|? ? Hsz Hs']; subst. simpl in Hsz.
  destruct Hc as (-> & nxt & _ & Hc). cbn [ff_free].
  pose proof (chain_bound _ _ _ _ _ Hs' Hc) as Hb. unfold sizeof_private_block in *.
  rewrite (proj2 (Z.eqb_neq _ _)) by lia.
  by rewrite (IH (a + 16 + sz) nxt) by (done || lia).
Qed.

(** Freeing a system block overwrites it and gives it back. *)
Lemma internal_free_sys addr p n b h :
  h_sys h !! p = Some b -> p <> NULL -> 0 <= n <= len b -> len b < 2 ^ 31 ->
  exists rng, sqlcipher_internal_free addr p n h =
    Some (set_sys (delete p (h_sys h)) (set_rng rng h)).
Proof.
  intros Eb Hp Hn Hlt. unfold sqlcipher_internal_free.
  rewrite (proj2 (Z.eqb_neq _ _) Hp), Eb. cbn [mbind option_bind]. rewrite i32_small by lia.
  destruct (xoshiro_randomness addr (h_rng h) n) as [noise rng] eqn:Ex.
  pose proof (xoshiro_randomness_length addr (h_rng h) n ltac:(lia)) as Hx. rewrite Ex in Hx.
  simpl in Hx. rewrite mem_write_total by lia. by exists rng.
Qed.

(** The invariant does not look at the generator, and at the system blocks only
    through [sys_ok]. *)
Lemma heap_inv_sys h m rng : heap_inv h -> sys_ok (set_sys m h) ->
  heap_inv (set_sys m (set_rng rng h)).
Proof. intros [W _] S. eapply heap_inv_intro; [|exact S]. by destruct W. Qed.

Lemma sys_ok_delete h p : sys_ok h -> sys_ok (set_sys (delete p (h_sys h)) h).
Proof. intros S q c Hq. simpl in *. apply S. by apply lookup_delete_Some in Hq as [_ ?]. Qed.

Section HeapAlloc.
(** The address used by the generator's seed, and the system allocator's answer to a
    request of that many bytes in a given state. *)
Context (addr : Z) (os_malloc : heap -> Z -> option Z).

(** What [sqlite3_malloc64] promises: a fresh block outside the private region. *)
Definition os_ok : Prop := forall h n p, os_malloc h n = Some p ->
  p <> NULL /\ (p < h_base h \/ h_base h + h_sz h <= p) /\ h_sys h !! p = None.

Context (Hos : os_ok).

Definition heap_allocator : Allocator heap := {|
  a_malloc n h := sqlcipher_malloc (os_malloc h (HEAP_ROUNDUP n)) n h;
  a_free p n h := sqlcipher_free addr p n h
|}.

Lemma sys_ok_same h h' : h_sys h' = h_sys h -> h_base h' = h_base h -> h_sz h' = h_sz h ->
  sys_ok h -> sys_ok h'.
Proof. unfold sys_ok. by intros -> -> ->. Qed.

Lemma heap_malloc_ok n h : heap_inv h ->
  exists r h', sqlcipher_malloc (os_malloc h (HEAP_ROUNDUP n)) n h = Some (r, h') /\ heap_inv h' /\
    match r with
    | None => heap_live h' ≡ₚ heap_live h
    | Some p => exists m, n <= m /\ heap_live h' ≡ₚ (p, m) :: heap_live h
    end.
Proof.
  intros [W S]. destruct (decide (1 <= n <= SQLITE_MAX_LENGTH)) as [Hn|Hn].
  2:{ unfold sqlcipher_malloc. destruct ((n <? 1) || _) eqn:E; [|lia].
      do 2 eexists. split; [done|]. by split. }
  destruct (roundup_spec n ltac:(lia)) as [Hr _].
  destruct (malloc_cases (os_malloc h (HEAP_ROUNDUP n)) n h (heap_list h) W Hn)
    as [(p & m & l' & h' & E & Sv & _)|(h' & E & _ & W' & _ & Eh)].
  - exists (Some p), h'. split; [done|]. destruct Sv as [Hm Eb Es Ey W' Hl _ _].
    split; [eapply heap_inv_intro; [done|]; by eapply sys_ok_same|].
    exists m. split; [lia|]. unfold heap_live. by rewrite (heap_list_wf h' l' W'), Hl, Ey.
  - exists (os_malloc h (HEAP_ROUNDUP n)), h'. split; [done|].
    destruct (os_malloc h (HEAP_ROUNDUP n)) as [p|] eqn:Eo; simpl in Eh; subst h'.
    + destruct (Hos _ _ _ Eo) as (Hp0 & Hp & Hf). split.
      * eapply heap_inv_intro; [done|]. intros q b Hq. simpl in *.
        destruct (decide (q = p)) as [-> | Hne].
        -- rewrite lookup_insert_eq in Hq. injection Hq as <-. rewrite length_replicate.
           unfold SQLITE_MAX_LENGTH in *. split_and!; [done|done|lia].
        -- rewrite lookup_insert_ne in Hq by done. by apply S.
      * exists (HEAP_ROUNDUP n). split; [lia|]. unfold heap_live.
        rewrite (heap_list_wf _ _ W'). simpl. rewrite (sys_live_insert _ _ _ Hf).
        rewrite length_replicate, Z2Nat.id by lia. apply Permutation_sym, Permutation_middle.
    + split; [by eapply heap_inv_intro|]. unfold heap_live. by rewrite (heap_list_wf _ _ W').
Qed.

Lemma heap_free_ok p n m L h : heap_inv h -> heap_live h ≡ₚ (p, m) :: L -> 0 <= n <= m ->
  exists h', sqlcipher_free addr p n h = Some h' /\ heap_inv h' /\ heap_live h' ≡ₚ L.
Proof.
  intros [W S] Hl Hn. pose proof W as [Hb Hsz Hc Hs _ _ _ _].
  assert (Hin : (p, m) ∈ heap_live h) by (rewrite Hl; constructor).
  unfold heap_live in Hin. apply elem_of_app in Hin as [Hin|Hin].
  - destruct (free_releases addr p m n h (heap_list h) W Hin) as (h' & l' & E & R & _).
    destruct R as [W' Eb Es Ey Hlive _ _]. exists h'. split; [done|].
    split; [eapply heap_inv_intro; [done|]; by eapply sys_ok_same|].
    unfold heap_live in *. rewrite (heap_list_wf h' l' W'), Ey. rewrite Hlive in Hl.
    by apply Permutation_cons_inv in Hl.
  - apply sys_live_in in Hin as (b & Eb & ->). destruct (S _ _ Eb) as (Hp0 & Hp & Hlt).
    pose proof (free_loop_refines (heap_fuel h) addr h (heap_list h) p
      (heap_fuel_enough _ _ W) W) as HL.
    rewrite (ff_free_outside p _ _ _ _ _ Hs Hc ltac:(lia)) in HL.
    unfold sqlcipher_free. rewrite HL. cbn [mbind option_bind].
    destruct (internal_free_sys addr p n b h Eb Hp0 Hn Hlt) as [rng ->].
    eexists. split; [done|].
    split; [apply heap_inv_sys; [by split|by apply sys_ok_delete]|].
    assert (W' : heap_wf (set_sys (delete p (h_sys h)) (set_rng rng h)) (heap_list h))
      by (by destruct W).
    unfold heap_live in *. rewrite (heap_list_wf _ _ W'). simpl.
    rewrite (sys_live_delete _ _ _ Eb) in Hl.
    rewrite <- Permutation_middle in Hl. by apply Permutation_cons_inv in Hl.
Qed.

#[local] Existing Instance heap_allocator.

#[local] Instance heap_allocator_ok : AllocatorOk heap := {|
  a_inv := heap_inv; a_live := heap_live;
  a_malloc_ok := heap_malloc_ok; a_free_ok := heap_free_ok
|}.

(** ** Properties *)

(** C25: the codec on the private heap: for every provider and every well-behaved system
    allocator, creating a codec context on the private heap returns; on failure the live
    allocations are unchanged, and on success destroying the context brings them back to
    exactly what they were, whatever part of them came from the system allocator. *)
Theorem codec_lifecycle_on_private_heap {P : provider} `{!ProviderOk P} G bt zKey nKey (h : heap) :
  heap_inv h -> FLAG_GET (default_flags G) CIPHER_FLAG_KEY_USED = false ->
  (forall z, zKey = Some z -> nKey <= len z) ->
  exists rc r h', sqlcipher_codec_ctx_init (P:=P) G bt zKey nKey h = Some (rc, r, h') /\
    match r with
    | None => rc <> SQLITE_OK /\ heap_inv h' /\ heap_live h' ≡ₚ heap_live h
    | Some (p, ctx) => rc = SQLITE_OK /\
        exists h2, sqlcipher_codec_ctx_free (Some (p, ctx)) h' = Some h2 /\
          heap_inv h2 /\ heap_live h2 ≡ₚ heap_live h
    end.
Proof.
  intros Hi Hu Hz.
  destruct (codec_ctx_init_created G bt zKey nKey h (heap_live h) Hu Hz)
    as (rc & r & h' & E & Hc); [by apply (owns_nil h)|].
  exists rc, r, h'. split; [done|]. destruct r as [[p ctx]|]; simpl in Hc.
  - destruct Hc as (-> & _ & Ho & _). split; [done|].
    destruct (codec_ctx_free_spec p ctx h' (heap_live h) Ho) as (h2 & E2 & Ho2).
    exists h2. split; [done|]. by apply owns_nil_inv in Ho2.
  - destruct Hc as [Hrc Ho]. split; [done|]. by apply owns_nil_inv in Ho.
Qed.
End HeapAlloc.

(** ** Witnesses *)

(** A system allocator that hands out one block behind the region at most. *)
Definition demo_os (h : heap) (n : Z) : option Z :=
  let p := h_base h + h_sz h + 64 in
  if (p <>? NULL) && bool_decide (h_sys h !! p = None) && (0 <=? h_sz h) then Some p else None.

Lemma demo_os_ok : os_ok demo_os.
Proof.
  intros h n p. unfold demo_os. case_cond; [|done]. intros [= <-]. case_bool_decide; [|done].
  split_and!; [done|lia|done].
Qed.

Definition demo_private : heap := heap_init 0 4096 1024 (Xo 1 2 3 4) ∅.

Lemma demo_private_inv : heap_inv demo_private.
Proof.
  eapply heap_inv_intro; [apply heap_init_wf; [done|unfold sizeof_private_block; lia]|].
  intros p b Hp. vm_compute in Hp. done.
Qed.

Lemma codec_lifecycle_on_private_heap_witness :
  exists rc r h', @sqlcipher_codec_ctx_init heap (heap_allocator 0 demo_os) demo_provider
      demo_globals demo_btree (Some [1; 2; 3]) 3 demo_private = Some (rc, r, h') /\
    match r with
    | None => rc <> SQLITE_OK /\ heap_inv h' /\ heap_live h' ≡ₚ heap_live demo_private
    | Some (p, ctx) => rc = SQLITE_OK /\
        exists h2, @sqlcipher_codec_ctx_free heap (heap_allocator 0 demo_os) demo_provider
            (Some (p, ctx)) h' = Some h2 /\ heap_inv h2 /\
            heap_live h2 ≡ₚ heap_live demo_private
    end.
Proof.
  apply (codec_lifecycle_on_private_heap 0 demo_os demo_os_ok demo_globals demo_btree
    (Some [1; 2; 3]) 3 demo_private demo_private_inv eq_refl).
  intros z [= <-]. done.
Defined.
