(* ===== verification/Registry.v ===== *)
(** * The provider registry of src/sqlcipher.c

    [sqlcipher_register_provider] and [sqlcipher_get_provider]. The registered providers
    are a singly linked list through the [next] field of their structures, which the
    callers allocate; its head [default_provider] is the provider in use.

    The memory is a finite map from the address of a structure to its contents. The
    functions of a provider are the record [provider] of CodecCtx; whether it has an
    initializer and a shutdown function is part of the structure, and the answer of a call
    to the initializer is an argument.

    [registry_refines_list]: any sequence of registrations behaves as on a list without
    duplicates, where registering moves a provider to the front. *)

From stdpp Require Import list gmap.
From S2P Require Import Prelude PrivateHeap CodecCtx.
Import PrivateHeap.
Local Open Scope Z_scope.

Module Registry.

Definition sizeof_provider : Z := 144.

(** The fields of struct sqlcipher_provider: are [init] and [shutdown] set, the other
    functions, and [next]. *)
Record sqlcipher_provider := PNode {
  pn_init : bool;
  pn_shutdown : bool;
  pn_ops : provider;
  pn_next : Z
}.

Definition set_pn_next (q : Z) (n : sqlcipher_provider) : sqlcipher_provider :=
  PNode (pn_init n) (pn_shutdown n) (pn_ops n) q.

Abbreviation provs := (gmap Z sqlcipher_provider).

(** The structures, [default_provider], and the providers whose initializer was called,
    the last one first. *)
Record registry := Reg {
  r_mem : provs;
  default_provider : Z;
  r_inits : list Z
}.

(** [p->next = q] *)
Definition store_next (m : provs) (p q : Z) : option provs :=
  let? n := m !! p in Some (<[p := set_pn_next q n]> m).

(** The search for [p] behind the head: its predecessor when it is found. *)
Fixpoint find_previous (fuel : nat) (m : provs) (p previous current : Z) : option (option Z) :=
  match fuel with
  | O => None
  | S fuel =>
      if current =? NULL then Some None else
      if current =? p then Some (Some previous) else
      let? c := m !! current in find_previous fuel m p current (pn_next c)
  end.

(** The list is linked up for [p]; tells whether it was on it before. The list visits
    each structure at most once and one more round sees the null pointer. *)
Definition relink (m : provs) (d p : Z) : option (bool * provs) :=
  if d =? NULL then let? m := store_next m p NULL in Some (false, m) else
  let? h := m !! d in
  let? found := find_previous (S (size m)) m p d (pn_next h) in
  let? (pre, m) :=
    match found with
    | Some previous =>
        let? current := m !! p in
        let? m := store_next m previous (pn_next current) in Some (true, m)
    | None => Some (false, m)
    end in
  let? m := store_next m p d in Some (pre, m).

(** [answer] is what [p->init()] returns when it is called. *)
Definition sqlcipher_register_provider (answer : Z) (r : registry) (p : Z)
  : option (Z * registry) :=
  if (p =? NULL) || (default_provider r =? p) then Some (SQLITE_OK, r) else
  let? (preexisting, m) := relink (r_mem r) (default_provider r) p in
  let? n := m !! p in
  let '(rc, calls) := if negb preexisting && pn_init n
                      then (answer, p :: r_inits r) else (SQLITE_OK, r_inits r) in
  Some (rc, Reg m (if rc =? SQLITE_OK then p else default_provider r) calls).

Definition sqlcipher_get_provider (r : registry) : Z := default_provider r.

(** ** The list it represents *)

(** From pointer [p], the structures of [m] are linked in the order of [l]. *)
Fixpoint linked (m : provs) (p : Z) (l : list Z) : Prop :=
  match l with
  | [] => p = NULL
  | q :: l' => p = q /\ p <> NULL /\ exists n, m !! p = Some n /\ linked m (pn_next n) l'
  end.

Record registered (r : registry) (l : list Z) : Prop := {
  rg_linked : linked (r_mem r) (default_provider r) l;
  rg_nodup : NoDup l
}.

(** The specification: what one registration answers and does to the list, and whether it
    calls the initializer. *)
Definition register_spec (has_init : bool) (answer p : Z) (l : list Z) : Z * list Z * bool :=
  if (p =? NULL) || bool_decide (head l = Some p) then (SQLITE_OK, l, false) else
  if bool_decide (p ∈ l) then (SQLITE_OK, p :: filter (fun q => q <> p) l, false) else
  if has_init && (answer <>? SQLITE_OK) then (answer, l, true) else (SQLITE_OK, p :: l, has_init).

(** ** Lemmas on linked lists *)

Lemma linked_null m l : linked m NULL l -> l = [].
Proof. destruct l; [done|]. by intros (_ & ? & _). Qed.

Lemma linked_frame m m' p l :
  (forall q, q ∈ l -> m' !! q = m !! q) -> linked m p l -> linked m' p l.
Proof.
  revert p. induction l as [|q l IH]; intros p Hf; simpl; [done|].
  intros (<- & Hn & n & E & Hl). split_and!; [done|done|]. exists n.
  rewrite Hf by set_solver. split; [done|]. apply IH; [|done]. set_solver.
Qed.

Lemma linked_size m p l : linked m p l -> NoDup l -> (length l <= size m)%nat.
Proof.
  intros Hl Hd. replace (length l) with (size (list_to_set l : gset Z)) by (by apply size_list_to_set).
  rewrite <- (size_dom m (D := gset Z)). apply subseteq_size. intros q Hq%elem_of_list_to_set.
  clear Hd. revert p Hl. induction l as [|a l IH]; intros p Hl; [set_solver|].
  destruct Hl as (-> & _ & n & E & Hl). apply elem_of_cons in Hq as [-> | Hq].
  - by apply elem_of_dom.
  - by eapply IH.
Qed.

Lemma linked_in m p l q : linked m p l -> q ∈ l -> q <> NULL /\ is_Some (m !! q).
Proof.
  revert p. induction l as [|a l IH]; intros p Hl Hq; [set_solver|].
  destruct Hl as (-> & Hn & n & E & Hl). apply elem_of_cons in Hq as [-> | Hq]; [by eauto|].
  by eapply IH.
Qed.

Lemma store_next_Some m p q n :
  m !! p = Some n -> store_next m p q = Some (<[p := set_pn_next q n]> m).
Proof. intros E. unfold store_next. by rewrite E. Qed.

Lemma last_shift {X} (a d : X) l : List.last (a :: l) d = List.last l a.
Proof.
  revert a d. induction l as [|b l IH]; intros a d; [done|].
  change (List.last (b :: l) d = List.last (b :: l) a). by rewrite !IH.
Qed.

(** The search stops at the predecessor of [p], or at the end. *)
Lemma find_previous_found fuel m p previous current l1 l2 :
  (length l1 < fuel)%nat -> p ∉ l1 -> linked m current (l1 ++ p :: l2) ->
  find_previous fuel m p previous current = Some (Some (List.last l1 previous)).
Proof.
  revert previous current l1. induction fuel as [|fuel IH]; intros pv cur l1 Hf Hp Hl; [lia|].
  cbn [find_previous]. destruct l1 as [|a l1]; simpl in Hl.
  - destruct Hl as (-> & Hn & _). by rewrite (proj2 (Z.eqb_neq _ _) Hn), Z.eqb_refl.
  - destruct Hl as (-> & Hn & n & E & Hl). apply not_elem_of_cons in Hp as [Hne Hp].
    rewrite (proj2 (Z.eqb_neq _ _) Hn), (proj2 (Z.eqb_neq a p)) by done. rewrite E.
    simpl in Hf. rewrite (IH a (pn_next n) l1) by (done || lia).
    by rewrite last_shift.
Qed.

Lemma find_previous_absent fuel m p previous current l :
  (length l < fuel)%nat -> p ∉ l -> linked m current l ->
  find_previous fuel m p previous current = Some None.
Proof.
  revert previous current l. induction fuel as [|fuel IH]; intros pv cur l Hf Hp Hl; [lia|].
  cbn [find_previous]. destruct l as [|a l]; simpl in Hl; [by subst|].
  destruct Hl as (-> & Hn & n & E & Hl). apply not_elem_of_cons in Hp as [Hne Hp].
  rewrite (proj2 (Z.eqb_neq _ _) Hn), (proj2 (Z.eqb_neq a p)) by done. rewrite E.
  simpl in Hf. by apply (IH _ _ l); [lia|..].
Qed.

(** Taking the element behind [v] out of the list. *)
Lemma linked_unlink m q l0 v x l2 nx nv :
  NoDup (l0 ++ v :: x :: l2) -> linked m q (l0 ++ v :: x :: l2) ->
  m !! x = Some nx -> m !! v = Some nv ->
  linked (<[v := set_pn_next (pn_next nx) nv]> m) q (l0 ++ v :: l2).
Proof.
  intros Hd Hl Ex Ev. revert q Hl. induction l0 as [|a l0 IH]; intros q Hl; simpl in *.
  - destruct Hl as (-> & Hn & n & _ & Ex' & _ & n' & E' & Hl). split_and!; [done..|].
    eexists. split; [apply lookup_insert_eq|]. simpl. rewrite Ex', Ex in E'. simplify_eq.
    eapply linked_frame; [|done]. intros w Hw. rewrite lookup_insert_ne; [done|].
    intros <-. apply list.NoDup_cons in Hd as [Hd _]. set_solver.
  - destruct Hl as (-> & Hn & n & E & Hl). apply list.NoDup_cons in Hd as [Ha Hd].
    split_and!; [done..|]. exists n. rewrite lookup_insert_ne by set_solver.
    split; [done|]. by apply IH.
Qed.

Lemma filter_absent (p : Z) (l : list Z) : p ∉ l -> filter (fun q => q <> p) l = l.
Proof.
  induction l as [|a l IH]; intros Hp; [done|]. apply not_elem_of_cons in Hp as [Hne Hp].
  rewrite filter_cons_True by done. by rewrite IH.
Qed.

Lemma filter_split (p : Z) (l1 l2 : list Z) : p ∉ l1 -> p ∉ l2 ->
  filter (fun q => q <> p) (l1 ++ p :: l2) = l1 ++ l2.
Proof.
  intros H1 H2. rewrite list.filter_app, filter_cons_False by tauto.
  by rewrite !filter_absent.
Qed.

(** ** One registration *)

(** Structures other than their [next] field stay as they are. *)
Definition same_structs (m m' : provs) : Prop :=
  forall q, set_pn_next NULL <$> m' !! q = set_pn_next NULL <$> m !! q.

Lemma same_structs_store m m' p q n :
  same_structs m m' -> m' !! p = Some n -> same_structs m (<[p := set_pn_next q n]> m').
Proof.
  intros Hs E w. rewrite <- Hs. destruct (decide (w = p)) as [-> | Hw].
  - by rewrite lookup_insert_eq, E.
  - by rewrite lookup_insert_ne.
Qed.

Lemma same_structs_Some m m' p n : same_structs m m' -> m !! p = Some n ->
  exists q, m' !! p = Some (set_pn_next q n).
Proof.
  intros Hs E. specialize (Hs p). rewrite E in Hs. destruct (m' !! p) as [n'|]; [|done].
  simpl in Hs. exists (pn_next n'). destruct n, n'. unfold set_pn_next in *. simpl in *. congruence.
Qed.

(** [relink] puts [p] in front of the others, and leaves the list from the old head on
    as it was when [p] is new. *)
Lemma relink_spec m d p l n :
  linked m d l -> NoDup l -> p <> NULL -> d <> p -> m !! p = Some n ->
  exists m', relink m d p = Some (bool_decide (p ∈ l), m') /\ same_structs m m' /\
    linked m' p (p :: filter (fun q => q <> p) l) /\
    (p ∉ l -> linked m' d l).
Proof.
  intros Hl Hd Hp Hdp E. unfold relink. destruct (Z.eqb_spec d NULL) as [->|Hd0].
  - apply linked_null in Hl as ->. rewrite (store_next_Some _ _ _ _ E).
    rewrite bool_decide_false by set_solver. eexists. split_and!; [done| | |done].
    + by eapply same_structs_store.
    + split_and!; [done..|]. eexists. by split; [apply lookup_insert_eq|].
  - destruct l as [|a l]; [done|]. pose proof (linked_size _ _ _ Hl Hd) as Hsz. simpl in Hsz.
    pose proof Hl as (-> & _ & h & Eh & Hl'). rewrite Eh.
    destruct (decide (p ∈ l)) as [Hin|Hin].
    + rewrite bool_decide_true by set_solver.
      apply list_elem_of_split in Hin as (l1 & l2 & ->).
      apply list.NoDup_cons in Hd as [Ha Hd'].
      pose proof Hd' as (Hd1 & Hd2 & Hd3)%list.NoDup_app.
      apply list.NoDup_cons in Hd3 as [Hp2 _].
      assert (Hp1 : p ∉ l1) by (intros Hx; specialize (Hd2 p Hx); set_solver).
      rewrite (find_previous_found _ _ _ _ _ l1 l2)
        by (done || rewrite length_app in Hsz; simpl in Hsz; lia).
      rewrite E.
      destruct (exists_last (l:=a :: l1)) as (l0 & v & Ev); [done|].
      assert (Hv : List.last l1 a = v).
      { rewrite <- (last_shift a a l1), Ev. by rewrite List.last_last. }
      rewrite Hv. clear Hv.
      assert (Hl0 : linked m a (l0 ++ v :: p :: l2)).
      { replace (l0 ++ v :: p :: l2) with ((a :: l1) ++ p :: l2) by (rewrite Ev, <- app_assoc; done). done. }
      assert (Hd0' : NoDup (l0 ++ v :: p :: l2)).
      { replace (l0 ++ v :: p :: l2) with ((a :: l1) ++ p :: l2) by (rewrite Ev, <- app_assoc; done).
        simpl. by apply list.NoDup_cons. }
      destruct (linked_in _ _ _ v Hl0) as [_ [nv Env]]; [set_solver|].
      rewrite (store_next_Some _ _ _ _ Env).
      pose proof (linked_unlink _ _ _ _ _ _ _ _ Hd0' Hl0 E Env) as HU.
      assert (Hvp : v <> p).
      { intros ->. apply list.NoDup_app in Hd0' as (_ & _ & Hd0'). apply list.NoDup_cons in Hd0'. set_solver. }
      rewrite (store_next_Some _ p a n) by (by rewrite lookup_insert_ne).
      eexists. split_and!; [done| | |set_solver].
      * eapply same_structs_store; [by eapply same_structs_store|]. by rewrite lookup_insert_ne.
      * change (a :: l1 ++ p :: l2) with ((a :: l1) ++ p :: l2). rewrite filter_split by set_solver.
        rewrite Ev, <- app_assoc. simpl. split_and!; [done..|]. eexists.
        split; [apply lookup_insert_eq|]. simpl. eapply linked_frame; [|exact HU].
        intros w Hw. rewrite lookup_insert_ne; [done|]. intros <-.
        assert (Hw' : p ∈ (a :: l1) ++ l2) by (rewrite Ev, <- app_assoc; done). set_solver.
    + rewrite bool_decide_false by set_solver.
      rewrite (find_previous_absent _ _ _ _ _ l) by (done || lia).
      rewrite (store_next_Some _ _ _ _ E). eexists. split_and!; [done| | |].
      * by eapply same_structs_store.
      * rewrite filter_absent by set_solver. split_and!; [done..|]. eexists.
        split; [apply lookup_insert_eq|]. cbn [pn_next set_pn_next]. eapply (linked_frame m _ _ (a :: l)); [|exact Hl].
        intros w Hw. rewrite lookup_insert_ne; [done|]. set_solver.
      * intros _. eapply linked_frame; [|exact Hl]. intros w Hw.
        rewrite lookup_insert_ne; [done|]. set_solver.
Qed.

Lemma registered_head r l p : registered r l -> p <> NULL ->
  (default_provider r =? p) = bool_decide (head l = Some p).
Proof.
  intros [Hl _] Hp. destruct l as [|a l]; simpl in Hl.
  - rewrite Hl. case_bool_decide; [done|]. apply Z.eqb_neq. done.
  - destruct Hl as (-> & _). simpl. case_bool_decide; simplify_eq.
    + by apply Z.eqb_eq.
    + apply Z.eqb_neq. congruence.
Qed.

(** The structure at [p] has an initializer. *)
Definition init_of (m : provs) (p : Z) : bool := from_option pn_init false (m !! p).

Lemma register_step answer r l p :
  registered r l -> p = NULL \/ is_Some (r_mem r !! p) ->
  let '(rc, l', called) := register_spec (init_of (r_mem r) p) answer p l in
  exists r', sqlcipher_register_provider answer r p = Some (rc, r') /\
    registered r' l' /\ same_structs (r_mem r) (r_mem r') /\
    r_inits r' = (if called then [p] else []) ++ r_inits r.
Proof.
  intros W Hn. unfold register_spec, sqlcipher_register_provider.
  destruct (Z.eqb_spec p NULL) as [->|Hp]; [by exists r|].
  destruct Hn as [?|[n Hn]]; [done|]. unfold init_of. rewrite Hn. simpl.
  rewrite (registered_head r l p W Hp). case_bool_decide as Hh; [by exists r|].
  pose proof W as [Hl Hd].
  assert (Hdp : default_provider r <> p).
  { intros Hx. apply Z.eqb_eq in Hx. rewrite (registered_head r l p W Hp) in Hx.
    by apply bool_decide_eq_true in Hx. }
  destruct (relink_spec _ _ _ _ _ Hl Hd Hp Hdp Hn) as (m' & -> & Hs & Hf & Hk).
  destruct (same_structs_Some _ _ _ _ Hs Hn) as [q Eq]. rewrite Eq.
  cbn [pn_init set_pn_next]. case_bool_decide as Hin; simpl.
  - eexists. split_and!; [done| |done|done]. constructor; [done|]. simpl.
    apply list.NoDup_cons. split; [|by apply list.NoDup_filter]. rewrite list_elem_of_filter. tauto.
  - rewrite filter_absent in Hf by done.
    destruct (pn_init n); simpl; [destruct (Z.eqb_spec answer SQLITE_OK) as [->|]; simpl|];
      eexists; (split_and!; [done| |done|done]); constructor; simpl;
      try (by apply list.NoDup_cons); done || by apply Hk.
Qed.

(** ** Sequences of registrations *)

(** The provider, and what its initializer would answer. *)
Definition run_registry : list (Z * Z) -> registry -> option (list Z * registry) :=
  fix go ops r :=
    match ops with
    | [] => Some ([], r)
    | (p, answer) :: ops =>
        let? (rc, r) := sqlcipher_register_provider answer r p in
        let? (rcs, r) := go ops r in Some (rc :: rcs, r)
    end.

(** The same on lists: return codes, final list, initializer calls (last first). *)
Fixpoint run_spec (has_init : Z -> bool) (ops : list (Z * Z)) (l calls : list Z)
  : list Z * list Z * list Z :=
  match ops with
  | [] => ([], l, calls)
  | (p, answer) :: ops =>
      let '(rc, l, called) := register_spec (has_init p) answer p l in
      let '(rcs, l, calls) := run_spec has_init ops l ((if called : bool then [p] else []) ++ calls) in
      (rc :: rcs, l, calls)
  end.

Lemma init_of_same m m' p : same_structs m m' -> init_of m' p = init_of m p.
Proof.
  intros Hs. specialize (Hs p). unfold init_of.
  destruct (m !! p) as [[]|], (m' !! p) as [[]|]; unfold set_pn_next in *; simpl in *; congruence.
Qed.

(** For any sequence of registrations of allocated providers, [sqlcipher_register_provider]
    is memory safe, its search ends, and it behaves as the list specification: the null
    pointer and the current default change nothing, a provider that is already on the list
    moves to the front without being initialised again, a new one is put in front when its
    initializer succeeds, and a failed initializer leaves the list as it was. The
    list never holds a provider twice, [sqlcipher_get_provider] is its head, and nothing of
    a structure but [next] changes. *)
Theorem registry_refines_list ops r l :
  registered r l -> Forall (fun op => op.1 = NULL \/ is_Some (r_mem r !! op.1)) ops ->
  let '(rcs, l', calls) := run_spec (init_of (r_mem r)) ops l (r_inits r) in
  exists r', run_registry ops r = Some (rcs, r') /\ linked (r_mem r') (default_provider r') l' /\
    NoDup l' /\ sqlcipher_get_provider r' = default NULL (head l') /\
    r_inits r' = calls /\ same_structs (r_mem r) (r_mem r').
Proof.
  remember (init_of (r_mem r)) as f eqn:Ef.
  assert (Hf : forall p, init_of (r_mem r) p = f p) by (by intros; subst). clear Ef.
  revert r l Hf. induction ops as [|[p answer] ops IH]; intros r l Hf W Ho; cbn [run_spec].
  - exists r. destruct W as [Hl Hd]. split_and!; try done. unfold sqlcipher_get_provider.
    destruct l; simpl in *; [done|tauto].
  - apply list.Forall_cons in Ho as [Hp Ho]. cbn [fst] in Hp.
    pose proof (register_step answer r l p W Hp) as HS. rewrite Hf in HS.
    destruct (register_spec (f p) answer p l) as [[rc l1] called].
    destruct HS as (r1 & E1 & W1 & S1 & C1).
    specialize (IH r1 l1). rewrite C1 in IH.
    destruct (run_spec f ops l1 _) as [[rcs l2] calls].
    destruct IH as (r2 & E2 & H1 & H2 & H3 & H4 & H5).
    + intros q. rewrite (init_of_same _ _ q S1). apply Hf.
    + done.
    + eapply list.Forall_impl; [exact Ho|]. intros [q b] [?|[m Em]]; [by left|]. right.
      destruct (same_structs_Some _ _ _ _ S1 Em) as [? Hx]. by rewrite Hx.
    + exists r2. split_and!; try done.
      * cbn [run_registry]. fold run_registry. rewrite E1, E2. done.
      * intros q. by rewrite H5, S1.
Qed.

(** ** Witness *)

Definition demo_ops_of_provider : provider :=
  Provider unit (fun _ n => (SQLITE_OK, replicate (Z.to_nat n) 7, tt)) (fun _ _ _ _ => (SQLITE_OK, []))
    (fun _ _ _ _ _ => (SQLITE_OK, [])) (fun _ _ _ _ => (SQLITE_OK, [])) 32 16 16 (fun _ => 64)
    (SQLITE_OK, Some tt).

(** Three structures; the second has no initializer. *)
Definition demo_registry : registry :=
  Reg (list_to_map [(16, PNode true true demo_ops_of_provider 99);
                    (32, PNode false true demo_ops_of_provider 99);
                    (48, PNode true false demo_ops_of_provider 99)]) NULL [].

Definition demo_registrations : list (Z * Z) :=
  [(16, SQLITE_OK); (32, SQLITE_OK); (48, SQLITE_OK); (NULL, SQLITE_OK); (16, SQLITE_ERROR)].

Lemma registry_refines_list_witness : exists r',
  run_registry demo_registrations demo_registry =
    Some ([SQLITE_OK; SQLITE_OK; SQLITE_OK; SQLITE_OK; SQLITE_OK], r') /\
  linked (r_mem r') (default_provider r') [16; 48; 32] /\ r_inits r' = [48; 16].
Proof.
  destruct (registry_refines_list demo_registrations demo_registry []) as (r' & H1 & H2 & _ & _ & H3 & _).
  - by constructor; [|constructor].
  - apply list.Forall_forall. intros op Hop. unfold demo_registrations in Hop.
    repeat (apply elem_of_cons in Hop as [-> | Hop]; [(by left) || (right; vm_compute; eauto)|]).
    by apply not_elem_of_nil in Hop.
  - exists r'. split_and!; [exact H1|exact H2|exact H3].
Defined.
End Registry.
