(* ===== verification/Lifecycle.v ===== *)
(** * Start-up and shutdown of SQLCipher (src/sqlcipher.c)

    [sqlcipher_extra_init] and [sqlcipher_extra_shutdown]: the flags, the static mutexes,
    the private heap, the provider registry, the seed of the generator and the mask of the
    key shield.

    - [proc]: the globals of the process, with the mutexes that are allocated, the number of
      provider contexts that are open and the providers whose [shutdown] was called;
    - [answers]: what the operating system, the mutex implementation and the provider that
      is compiled in answer to the calls of one start-up;
    - the structures of registered providers are the registry's memory; when the block that
      holds one is freed the structure is gone, and reading it is [None].

    [startup_shutdown_balanced]: a start-up completes or undoes what it did, and a shutdown
    after it gives back everything. [startup_use_after_free]: when the random source fails,
    the error path of the start-up reads a structure it has just freed. *)

From stdpp Require Import list gmap.
From S2P Require Import Prelude CipherUtil PrivateHeap CodecCtx Demo CodecInv HeapAlloc Registry.
Import Xoshiro PrivateHeap Registry.
Local Open Scope Z_scope.

Definition SQLCIPHER_MUTEX_COUNT : Z := 8.
Definition SQLCIPHER_PRIVATE_HEAP_SIZE_DEFAULT : Z := 49152.
Definition SQLCIPHER_PRIVATE_HEAP_SIZE_STEP : Z := 16384.
Definition SQLCIPHER_LOG_NONE : Z := 0.
Definition SQLCIPHER_LOG_LEVEL_DEFAULT : Z := 2.
Definition sqlcipher_shield_mask_sz : Z := 32.

(** The logging settings; [log_file] is the address of the open stream. *)
Record log_state := Log {
  sqlcipher_log_set : bool;
  sqlcipher_log_level : Z;
  sqlcipher_log_device : bool;
  sqlcipher_log_file : Z
}.

Record proc := Proc {
  sqlcipher_init : bool;
  sqlcipher_shutdown : bool;
  sqlcipher_init_error : Z;
  sqlcipher_cleanup : bool;
  g_log : log_state;
  sqlcipher_static_mutex : list Z;
  g_heap : heap;                 (* private_heap and its counters, xoshiro_s, sqlite3_malloc64 *)
  sqlcipher_shield_mask : Z;     (* an address; its bytes are in [h_sys] *)
  g_reg : registry;
  g_master : Z;                  (* how often SQLITE_MUTEX_STATIC_MASTER is held *)
  g_mutexes : gset Z;            (* the mutexes that are allocated *)
  g_ctxs : Z;                    (* the provider contexts that are open *)
  g_shutdowns : list Z;          (* calls of a provider's shutdown, last first *)
  g_extension : bool             (* sqlcipher_export_init is an auto extension *)
}.

Definition with_flags i sd (s : proc) : proc :=
  Proc i sd (sqlcipher_init_error s) (sqlcipher_cleanup s) (g_log s)
    (sqlcipher_static_mutex s) (g_heap s) (sqlcipher_shield_mask s) (g_reg s) (g_master s)
    (g_mutexes s) (g_ctxs s) (g_shutdowns s) (g_extension s).
Definition with_error e (s : proc) : proc :=
  Proc (sqlcipher_init s) (sqlcipher_shutdown s) e (sqlcipher_cleanup s) (g_log s)
    (sqlcipher_static_mutex s) (g_heap s) (sqlcipher_shield_mask s) (g_reg s) (g_master s)
    (g_mutexes s) (g_ctxs s) (g_shutdowns s) (g_extension s).
Definition with_once c lg (s : proc) : proc :=
  Proc (sqlcipher_init s) (sqlcipher_shutdown s) (sqlcipher_init_error s) c lg
    (sqlcipher_static_mutex s) (g_heap s) (sqlcipher_shield_mask s) (g_reg s) (g_master s)
    (g_mutexes s) (g_ctxs s) (g_shutdowns s) (g_extension s).
Definition with_mutexes ms live (s : proc) : proc :=
  Proc (sqlcipher_init s) (sqlcipher_shutdown s) (sqlcipher_init_error s)
    (sqlcipher_cleanup s) (g_log s)
    ms (g_heap s) (sqlcipher_shield_mask s) (g_reg s) (g_master s)
    live (g_ctxs s) (g_shutdowns s) (g_extension s).
Definition with_heap h (s : proc) : proc :=
  Proc (sqlcipher_init s) (sqlcipher_shutdown s) (sqlcipher_init_error s)
    (sqlcipher_cleanup s) (g_log s)
    (sqlcipher_static_mutex s) h (sqlcipher_shield_mask s) (g_reg s) (g_master s)
    (g_mutexes s) (g_ctxs s) (g_shutdowns s) (g_extension s).
Definition with_mask a (s : proc) : proc :=
  Proc (sqlcipher_init s) (sqlcipher_shutdown s) (sqlcipher_init_error s)
    (sqlcipher_cleanup s) (g_log s)
    (sqlcipher_static_mutex s) (g_heap s) a (g_reg s) (g_master s)
    (g_mutexes s) (g_ctxs s) (g_shutdowns s) (g_extension s).
Definition with_reg r (s : proc) : proc :=
  Proc (sqlcipher_init s) (sqlcipher_shutdown s) (sqlcipher_init_error s)
    (sqlcipher_cleanup s) (g_log s)
    (sqlcipher_static_mutex s) (g_heap s) (sqlcipher_shield_mask s) r (g_master s)
    (g_mutexes s) (g_ctxs s) (g_shutdowns s) (g_extension s).
Definition with_master n (s : proc) : proc :=
  Proc (sqlcipher_init s) (sqlcipher_shutdown s) (sqlcipher_init_error s)
    (sqlcipher_cleanup s) (g_log s)
    (sqlcipher_static_mutex s) (g_heap s) (sqlcipher_shield_mask s) (g_reg s) n
    (g_mutexes s) (g_ctxs s) (g_shutdowns s) (g_extension s).
Definition with_ctxs n (s : proc) : proc :=
  Proc (sqlcipher_init s) (sqlcipher_shutdown s) (sqlcipher_init_error s)
    (sqlcipher_cleanup s) (g_log s)
    (sqlcipher_static_mutex s) (g_heap s) (sqlcipher_shield_mask s) (g_reg s) (g_master s)
    (g_mutexes s) n (g_shutdowns s) (g_extension s).
Definition with_shutdowns l (s : proc) : proc :=
  Proc (sqlcipher_init s) (sqlcipher_shutdown s) (sqlcipher_init_error s)
    (sqlcipher_cleanup s) (g_log s)
    (sqlcipher_static_mutex s) (g_heap s) (sqlcipher_shield_mask s) (g_reg s) (g_master s)
    (g_mutexes s) (g_ctxs s) l (g_extension s).
Definition with_extension (s : proc) : proc :=
  Proc (sqlcipher_init s) (sqlcipher_shutdown s) (sqlcipher_init_error s)
    (sqlcipher_cleanup s) (g_log s)
    (sqlcipher_static_mutex s) (g_heap s) (sqlcipher_shield_mask s) (g_reg s) (g_master s)
    (g_mutexes s) (g_ctxs s) (g_shutdowns s) true.

(** The answers to one start-up. *)
Record answers := Ans {
  an_addr : Z;                               (* the address of xoshiro_s *)
  an_mutex : Z -> option Z;                  (* sqlite3_mutex_alloc, for each slot *)
  an_os : heap -> Z -> option Z;             (* sqlite3_malloc64 *)
  an_setup : Z * sqlcipher_provider;         (* SQLCIPHER_PROVIDER_SETUP: code, structure *)
  an_init : Z;                               (* provider->init() *)
  an_stderr : Z                              (* the stream stderr *)
}.

(** ** Mutexes *)

Definition sqlcipher_mutex (s : proc) (mutex : Z) : option Z :=
  if (mutex <? 0) || (SQLCIPHER_MUTEX_COUNT <=? mutex) then Some NULL
  else sqlcipher_static_mutex s !! Z.to_nat mutex.

(** The loop over the slots that allocates the missing mutexes; tells whether it went
    through. *)
Definition mutex_alloc_loop (e : answers) (ms : list Z) (live : gset Z)
  : option (bool * list Z * gset Z) :=
  for_up 0 SQLCIPHER_MUTEX_COUNT 1 (fun i '(ok, ms, live) =>
    if negb ok then Some (ok, ms, live) else
    let? m := ms !! Z.to_nat i in
    if m =? NULL then
      match an_mutex e i with
      | None => Some (false, ms, live)
      | Some p => Some (true, <[Z.to_nat i := p]> ms, {[p]} ∪ live)
      end
    else Some (true, ms, live)) (true, ms, live).

(** The loop that frees them; freeing a mutex that is not allocated is undefined. *)
Definition mutex_free_loop (ms : list Z) (live : gset Z) : option (list Z * gset Z) :=
  for_up 0 SQLCIPHER_MUTEX_COUNT 1 (fun i '(ms, live) =>
    let? m := ms !! Z.to_nat i in
    if m =? NULL then Some (ms, live) else
    if bool_decide (m ∈ live) then Some (<[Z.to_nat i := NULL]> ms, live ∖ {[m]}) else None)
    (ms, live).

(** ** The private heap *)

Definition set_region base sz (h : heap) : heap :=
  Heap base sz (h_blocks h) (h_data h) (h_used h) (h_hwm h) (h_alloc h)
       (h_allocs h) (h_overflow h) (h_overflows h) (h_rng h) (h_sys h).

(** [private_heap = sqlcipher_internal_malloc(private_heap_sz)] answered [p]: fill it with
    generator output and make it one free block. Its bytes are [h_data] from here on. *)
Definition install_region (addr p : Z) (h : heap) : option heap :=
  let sz := h_sz h in
  let '(_, h) := sqlcipher_internal_malloc (Some p) sz h in
  let? b := h_sys h !! p in
  let '(noise, rng) := xoshiro_randomness addr (h_rng h) (i32 sz) in
  let? d := mem_write b 0 noise in
  Some (set_region p sz
    (set_blocks {[p := PB NULL (u32 (u32 sz - sizeof_private_block)) false]}
    (set_data d (set_rng rng (set_sys (delete p (h_sys h)) h))))).

(** Ask for the region, with a smaller size each time it is refused. *)
Fixpoint region_loop (fuel : nat) (e : answers) (h : heap) : option heap :=
  match fuel with
  | O => None
  | S fuel =>
      if SQLCIPHER_PRIVATE_HEAP_SIZE_STEP <=? h_sz h then
        match an_os e h (h_sz h) with
        | Some p => install_region (an_addr e) p h
        | None => region_loop fuel e (set_region (h_base h)
                    (u64 (h_sz h - SQLCIPHER_PRIVATE_HEAP_SIZE_STEP)) h)
        end
      else Some h
  end.

(** Each round takes one step off the size. *)
Definition region_fuel (h : heap) : nat :=
  S (S (Z.to_nat (h_sz h / SQLCIPHER_PRIVATE_HEAP_SIZE_STEP))).

(** The structures that do not lie in a freed block. *)
Definition drop_structs (base sz : Z) (m : provs) : provs :=
  filter (fun kv => ~ (base <= kv.1 < base + sz)) m.

(** [sqlcipher_internal_free(private_heap, private_heap_sz); private_heap = NULL] *)
Definition free_region (addr : Z) (s : proc) : option proc :=
  let h := g_heap s in
  if h_base h =? NULL then Some s else
  let? h' := sqlcipher_internal_free addr (h_base h) (h_sz h)
               (set_sys (<[h_base h := h_data h]> (h_sys h)) h) in
  let h' := set_region NULL (h_sz h) (set_blocks ∅ (set_data [] h')) in
  let r := g_reg s in
  Some (with_heap h' (with_reg
    (Reg (drop_structs (h_base h) (h_sz h) (r_mem r)) (default_provider r) (r_inits r)) s)).

(** [sqlcipher_free(provider, sizeof(sqlcipher_provider))] *)
Definition free_provider (addr p : Z) (s : proc) : option proc :=
  let? h := sqlcipher_free addr p sizeof_provider (g_heap s) in
  let r := g_reg s in
  Some (with_heap h (with_reg (Reg (delete p (r_mem r)) (default_provider r) (r_inits r)) s)).

Definition free_mask (addr : Z) (s : proc) : option proc :=
  if sqlcipher_shield_mask s =? NULL then Some s else
  let? h := sqlcipher_internal_free addr (sqlcipher_shield_mask s) sqlcipher_shield_mask_sz
              (g_heap s) in
  Some (with_mask NULL (with_heap h s)).

Definition free_mutexes (s : proc) : option proc :=
  let? (ms, live) := mutex_free_loop (sqlcipher_static_mutex s) (g_mutexes s) in
  Some (with_mutexes ms live s).

(** ** Start-up *)

(** The default log level and target, when nothing was configured. *)
Definition default_log (e : answers) (g : log_state) : log_state :=
  if sqlcipher_log_set g then g else
  Log true
    (if sqlcipher_log_level g =? SQLCIPHER_LOG_NONE then SQLCIPHER_LOG_LEVEL_DEFAULT
     else sqlcipher_log_level g)
    (sqlcipher_log_device g)
    (if negb (sqlcipher_log_device g) && (sqlcipher_log_file g =? NULL) then an_stderr e
     else sqlcipher_log_file g).

(** The object representation of [xoshiro_s], and back. *)
Definition xoshiro_bytes (x : xoshiro) : bytes :=
  le_bytes8 (xs0 x) ++ le_bytes8 (xs1 x) ++ le_bytes8 (xs2 x) ++ le_bytes8 (xs3 x).
Fixpoint le_value (b : bytes) : Z :=
  match b with [] => 0 | x :: b => x + 256 * le_value b end.
Definition xoshiro_of_bytes (b : bytes) : xoshiro :=
  Xo (le_value (take 8 b)) (le_value (take 8 (drop 8 b)))
     (le_value (take 8 (drop 16 b))) (le_value (take 8 (drop 24 b))).
Definition sizeof_xoshiro_s : Z := 32.

(** [default_provider->ctx_free(&provider_ctx)]: the function is read from the structure. *)
Definition close_ctx (s : proc) : option proc :=
  let? n := r_mem (g_reg s) !! default_provider (g_reg s) in
  Some (with_ctxs (g_ctxs s - 1) s).

(** [error:] undo what was set up, in the order of the code. [provider] is the structure
    that is not registered yet, [has_ctx] tells whether [provider_ctx] is not null. *)
Definition init_error_path (e : answers) (s : proc) (provider : Z) (has_ctx : bool) (rc : Z)
  : option (Z * proc) :=
  let? s := (if provider =? NULL then Some s else free_provider (an_addr e) provider s) in
  let? s := free_region (an_addr e) s in
  let? s := free_mask (an_addr e) s in
  let? s := free_mutexes s in
  let? s := (if has_ctx then close_ctx s else Some s) in
  Some (rc, with_error rc (with_master (g_master s - 1) s)).

(** Everything is set up. *)
Definition init_done (s : proc) : option (Z * proc) :=
  let? s := close_ctx s in
  Some (SQLITE_OK,
    with_extension (with_master (g_master s - 1) (with_flags true false s))).

(** The mask of the shield, with the open context [c] of the provider [P]. *)
Definition init_mask (e : answers) (s : proc) (P : provider) (c : pv_ctx P)
  : option (Z * proc) :=
  if sqlcipher_shield_mask s <>? NULL then init_done s else
  match sqlcipher_internal_malloc (an_os e (g_heap s) sqlcipher_shield_mask_sz)
          sqlcipher_shield_mask_sz (g_heap s) with
  | (None, h) => init_error_path e (with_heap h s) NULL true SQLITE_NOMEM
  | (Some p, h) =>
      let '(rc, rnd, _) := pv_random P c sqlcipher_shield_mask_sz in
      let? b := h_sys h !! p in
      let? b := mem_write b 0 rnd in
      let s := with_mask p (with_heap (set_sys (<[p := b]> (h_sys h)) h) s) in
      if rc <>? SQLITE_OK then init_error_path e s NULL true rc else init_done s
  end.

(** The seed of the generator and the mask. *)
Definition init_random (e : answers) (s : proc) : option (Z * proc) :=
  let? n := r_mem (g_reg s) !! default_provider (g_reg s) in
  let P := pn_ops n in
  let '(rc, ctx) := pv_ctx_init P in
  let has_ctx := match ctx with Some _ => true | None => false end in
  let s := if has_ctx then with_ctxs (g_ctxs s + 1) s else s in
  if rc <>? SQLITE_OK then init_error_path e s NULL has_ctx rc else
  let? c := ctx in
  let '(rc, seed, c) := pv_random P c sizeof_xoshiro_s in
  let? b := mem_write (xoshiro_bytes (h_rng (g_heap s))) 0 seed in
  let s := with_heap (set_rng (xoshiro_of_bytes b) (g_heap s)) s in
  if rc <>? SQLITE_OK then init_error_path e s NULL true rc else init_mask e s P c.

(** Register the provider that is compiled in, unless the application has done so. *)
Definition init_provider (e : answers) (s : proc) : option (Z * proc) :=
  if sqlcipher_get_provider (g_reg s) <>? NULL then init_random e s else
  let? (r, h) := sqlcipher_malloc (an_os e (g_heap s) (HEAP_ROUNDUP sizeof_provider))
                   sizeof_provider (g_heap s) in
  let s := with_heap h s in
  match r with
  | None => init_error_path e s NULL false SQLITE_NOMEM
  | Some provider =>
      let '(rc, n) := an_setup e in
      let reg := g_reg s in
      let reg := Reg (<[provider := n]> (r_mem reg)) (default_provider reg) (r_inits reg) in
      let s := with_reg reg s in
      if rc <>? SQLITE_OK then init_error_path e s provider false rc else
      let? (rc, reg) := sqlcipher_register_provider (an_init e) reg provider in
      let s := with_reg reg s in
      if rc <>? SQLITE_OK then init_error_path e s provider false rc else init_random e s
  end.

Definition sqlcipher_extra_init (e : answers) (s : proc) : option (Z * proc) :=
  let s := with_master (g_master s + 1) s in
  if sqlcipher_init s then Some (SQLITE_OK, with_master (g_master s - 1) s) else
  let s := with_once true (default_log e (g_log s)) s in
  let? (ok, ms, live) := mutex_alloc_loop e (sqlcipher_static_mutex s) (g_mutexes s) in
  let s := with_mutexes ms live s in
  if negb ok then init_error_path e s NULL false SQLITE_NOMEM else
  let? h := (if h_base (g_heap s) =? NULL
             then region_loop (region_fuel (g_heap s)) e (g_heap s) else Some (g_heap s)) in
  let s := with_heap h s in
  if h_base h =? NULL then init_error_path e s NULL false SQLITE_NOMEM else
  init_provider e s.

(** ** Shutdown *)

(** Call the [shutdown] of each registered provider and free it. *)
Fixpoint shutdown_providers (fuel : nat) (addr : Z) (s : proc) (provider : Z) : option proc :=
  match fuel with
  | O => None
  | S fuel =>
      if provider =? NULL then Some s else
      let? n := r_mem (g_reg s) !! provider in
      let next := pn_next n in
      let s := if pn_shutdown n then with_shutdowns (provider :: g_shutdowns s) s else s in
      let? s := free_provider addr provider s in
      shutdown_providers fuel addr s next
  end.

(** Each round frees one structure. *)
Definition sqlcipher_extra_shutdown (addr : Z) (s : proc) : option proc :=
  let? s :=
    (if negb (sqlcipher_init s) || sqlcipher_shutdown s then Some s else
     let? s := free_mask addr s in
     let? s := shutdown_providers (S (size (r_mem (g_reg s)))) addr s
                 (default_provider (g_reg s)) in
     let s := with_reg (Reg (r_mem (g_reg s)) NULL (r_inits (g_reg s))) s in
     let? s := free_region addr s in
     free_mutexes s) in
  Some (with_error SQLITE_ERROR (with_flags false true s)).

(** The state of a process that has not used SQLCipher yet, with [sys] allocated by others. *)
Definition heap0 (rng : xoshiro) (sys : gmap Z bytes) : heap :=
  Heap NULL SQLCIPHER_PRIVATE_HEAP_SIZE_DEFAULT ∅ [] 0 0 0 0 0 0 rng sys.
Definition proc0 (sys : gmap Z bytes) (mutexes : gset Z) : proc :=
  Proc false false SQLITE_ERROR false (Log false SQLCIPHER_LOG_NONE false NULL)
    (replicate 8 NULL) (heap0 (Xo 0 0 0 0) sys) NULL (Reg ∅ NULL []) 0 mutexes 0 [] false.

(** ** Assumptions on the answers *)

(** [sqlite3_mutex_alloc] answers mutexes that are new. *)
Definition mutexes_fresh (e : answers) (M : gset Z) : Prop :=
  (forall i p, an_mutex e i = Some p -> p <> NULL /\ p ∉ M) /\
  (forall i j p, an_mutex e i = Some p -> an_mutex e j = Some p -> i = j).

(** [sqlite3_malloc64] answers a block that overlaps no other one. *)
Definition os_law (os : heap -> Z -> option Z) : Prop := forall h n p, os h n = Some p ->
  0 < p /\ h_sys h !! p = None /\
  (h_base h = NULL \/ p + n <= h_base h \/ h_base h + h_sz h <= p) /\
  (forall q b, h_sys h !! q = Some b -> q + len b <= p \/ p + n <= q).

(** ** Mutexes *)

(** The slots hold distinct mutexes besides those of [M], the rest is null. *)
Definition held (M : gset Z) (ms : list Z) (live : gset Z) : Prop :=
  exists L n, ms = L ++ replicate n NULL /\ (length L + n)%nat = 8%nat /\ NoDup L /\
    Forall (fun p => p <> NULL /\ p ∉ M) L /\ live = list_to_set L ∪ M.

Lemma mutex_alloc_spec e M :
  mutexes_fresh e M -> exists ok ms live,
    mutex_alloc_loop e (replicate 8 NULL) M = Some (ok, ms, live) /\ held M ms live /\
    ((forall i, is_Some (an_mutex e i)) -> ok = true).
Proof.
  intros [Hf Hinj]. unfold mutex_alloc_loop, SQLCIPHER_MUTEX_COUNT. rewrite for_up_1.
  set (I := fun (k : nat) (st : bool * list Z * gset Z) =>
    ((forall i, is_Some (an_mutex e i)) -> st.1.1 = true) /\
    exists L n, st.1.2 = L ++ replicate n NULL /\ (length L + n)%nat = 8%nat /\
      (st.1.1 = true -> length L = k) /\
      (forall j q, L !! j = Some q -> an_mutex e (Z.of_nat j) = Some q) /\
      st.2 = list_to_set L ∪ M).
  edestruct (for_n_ind I) as ([[ok ms] live] & E & Hok & L & n & E1 & E2 & _ & E4 & E5); cycle -1.
  - exists ok, ms, live. split; [exact E|]. split; [|exact Hok]. simpl in *. exists L, n.
    split_and!; try done.
    + apply NoDup_alt. intros i j q Hi Hj. apply E4 in Hi, Hj. by specialize (Hinj _ _ _ Hi Hj); lia.
    + apply Forall_lookup. intros i q Hi. eapply Hf. by apply E4.
  - split; [done|]. exists [], 8%nat. simpl. split_and!; try done. set_solver.
  - intros k [[ok ms] live] Hk (Hok & L & n & E1 & E2 & E3 & E4 & E5). simpl in *.
    destruct ok; simpl; [|eexists; split; [done|]; split; [done|]; by exists L, n].
    specialize (E3 eq_refl). subst ms.
    replace (Z.to_nat (0 + Z.of_nat k * 1)) with k by lia.
    assert (Hn : n = S (n - 1)) by lia.
    rewrite lookup_app_r by lia. rewrite E3, Nat.sub_diag, Hn. simpl.
    destruct (an_mutex e (0 + Z.of_nat k * 1)) as [p|] eqn:Ep.
    + eexists. split; [done|]. split; [done|]. simpl. exists (L ++ [p]), (n - 1)%nat.
      rewrite insert_app_r_alt, E3, Nat.sub_diag by lia. simpl. rewrite <- app_assoc.
      split_and!; [done|rewrite length_app; simpl; lia|rewrite length_app; simpl; lia| |].
      * intros j q Hj. apply lookup_app_Some in Hj as [Hj|[Hj1 Hj2]]; [by apply E4|].
        apply list_lookup_singleton_Some in Hj2 as [Hj2 <-]. rewrite <- Ep. f_equal. lia.
      * subst live. rewrite list_to_set_app_L. set_solver.
    + eexists. split; [done|]. split.
      * intros Ha. destruct (Ha (0 + Z.of_nat k * 1)) as [? Hx]. by rewrite Ep in Hx.
      * exists L, (S (n - 1)). simpl. split_and!; try done. lia.
Qed.

Lemma mutex_free_spec M ms live :
  held M ms live -> mutex_free_loop ms live = Some (replicate 8 NULL, M).
Proof.
  intros (L & n & -> & Hn & Hd & HL & ->). unfold mutex_free_loop, SQLCIPHER_MUTEX_COUNT.
  rewrite for_up_1.
  set (I := fun (k : nat) (st : list Z * gset Z) =>
    st.1 = replicate k NULL ++ drop k (L ++ replicate n NULL) /\
    st.2 = list_to_set (drop k L) ∪ M).
  edestruct (for_n_ind I) as ([ms live] & E & E1 & E2); cycle -1.
  - rewrite E. simpl in *. do 2 f_equal.
    + rewrite E1, drop_ge; [done|]. rewrite length_app, length_replicate. lia.
    + rewrite E2, drop_ge by lia. set_solver.
  - split; simpl; [done|]. by rewrite !drop_0.
  - intros k [ms live] Hk [E1 E2]. simpl in *. subst ms live.
    replace (Z.to_nat (0 + Z.of_nat k * 1)) with k by lia.
    rewrite lookup_app_r, length_replicate, Nat.sub_diag, lookup_drop, Nat.add_0_r
      by (rewrite length_replicate; lia).
    destruct (decide (k < length L)%nat) as [Hlt|Hge].
    + destruct (lookup_lt_is_Some_2 L k Hlt) as [p Hp].
      rewrite lookup_app_l, Hp by lia.
      pose proof (Forall_lookup_1 _ _ _ _ HL Hp) as [Hp0 HpM].
      rewrite (proj2 (Z.eqb_neq _ _) Hp0).
      pose proof (drop_S _ _ _ Hp) as HdL.
      assert (Hpd : p ∉ drop (S k) L).
      { assert (Hd2 : NoDup (drop k L)) by (rewrite <- (take_drop k L) in Hd; by apply list.NoDup_app in Hd as (_ & _ & ?)).
        rewrite HdL in Hd2. by apply list.NoDup_cons in Hd2 as [? _]. }
      rewrite bool_decide_true by (rewrite HdL; set_solver).
      eexists. split; [done|]. split; cbn [fst snd].
      * rewrite insert_app_r_alt, length_replicate, Nat.sub_diag by (rewrite length_replicate; lia).
        rewrite (drop_S (L ++ replicate n NULL) p k) by (by rewrite lookup_app_l).
        by rewrite (replicate_S_end k), <- app_assoc.
      * rewrite HdL. rewrite list_to_set_cons. set_solver.
    + assert (Hk2 : (L ++ replicate n NULL) !! k = Some NULL).
      { rewrite lookup_app_r by lia. apply lookup_replicate. split; [done|lia]. }
      rewrite Hk2. cbn [Z.eqb NULL]. eexists. split; [done|]. split; cbn [fst snd].
      * by rewrite (drop_S _ _ _ Hk2), (replicate_S_end k), <- app_assoc.
      * rewrite !drop_ge by lia. done.
Qed.

(** ** The private heap *)

(** No region is installed, and nothing is counted as in use. *)
Record heap_down (h : heap) : Prop := {
  hd_base : h_base h = NULL;
  hd_sz : 0 <= h_sz h < 2 ^ 31;
  hd_used : h_used h = 0;
  hd_hwm : 0 <= h_hwm h;
  hd_sys : forall p b, h_sys h !! p = Some b -> p <> NULL /\ len b < 2 ^ 31
}.

(** A region that was just installed. *)
Record heap_fresh (h0 h : heap) : Prop := {
  hf_wf : heap_wf h [(h_sz h - sizeof_private_block, false)];
  hf_ok : sys_ok h;
  hf_sys : h_sys h = h_sys h0;
  hf_sz : SQLCIPHER_PRIVATE_HEAP_SIZE_STEP <= h_sz h <= h_sz h0
}.

Lemma install_region_spec e h p :
  os_law (an_os e) -> heap_down h -> SQLCIPHER_PRIVATE_HEAP_SIZE_STEP <= h_sz h ->
  an_os e h (h_sz h) = Some p ->
  exists h', install_region (an_addr e) p h = Some h' /\ heap_fresh h h'.
Proof.
  intros Hos [Hb Hsz Hu Hh Hy] Hst Ep. unfold SQLCIPHER_PRIVATE_HEAP_SIZE_STEP in *.
  destruct (Hos _ _ _ Ep) as (Hp0 & Hp1 & _ & Hdis).
  unfold install_region. cbn [sqlcipher_internal_malloc set_sys h_sys h_rng].
  rewrite lookup_insert_eq, i32_small, (u32_small (h_sz h)), u32_small
    by (usz; lia).
  destruct (xoshiro_randomness (an_addr e) (h_rng h) (h_sz h)) as [noise rng] eqn:Ex.
  pose proof (xoshiro_randomness_length (an_addr e) (h_rng h) (h_sz h) ltac:(lia)) as Hx.
  rewrite Ex in Hx. simpl in Hx.
  destruct (mem_write (replicate (Z.to_nat (h_sz h)) 0) 0 noise) as [d|] eqn:Ed;
    [|rewrite mem_write_total in Ed by (rewrite ?length_replicate; lia); done].
  eexists. split; [done|]. constructor; simpl.
  - constructor; simpl; try done; try lia.
    + split; [done|]. exists NULL. rewrite lookup_singleton_eq. usz. split_and!; [done..|lia].
    + repeat constructor. usz. simpl. lia.
    + rewrite (mem_write_length _ _ _ _ Ed), length_replicate. lia.
  - intros q b Hq. simpl in *. rewrite delete_insert_id in Hq by done.
    pose proof (Hy _ _ Hq). split_and!; [tauto| |tauto].
    destruct (decide (q = p)) as [-> | Hne]; [by rewrite Hq in Hp1|].
    specialize (Hdis _ _ Hq). lia.
  - by rewrite delete_insert_id.
  - unfold SQLCIPHER_PRIVATE_HEAP_SIZE_STEP. lia.
Qed.

Lemma region_loop_spec e h fuel :
  os_law (an_os e) -> heap_down h ->
  (Z.to_nat (h_sz h / SQLCIPHER_PRIVATE_HEAP_SIZE_STEP) < fuel)%nat ->
  exists h', region_loop fuel e h = Some h' /\
    ((heap_down h' /\ h_sys h' = h_sys h /\ h_sz h' < SQLCIPHER_PRIVATE_HEAP_SIZE_STEP /\
      (SQLCIPHER_PRIVATE_HEAP_SIZE_STEP <= h_sz h -> an_os e h (h_sz h) = None))
     \/ heap_fresh h h').
Proof.
  intros Hos. revert h. induction fuel as [|fuel IH]; intros h Hd Hf; [lia|].
  cbn [region_loop]. pose proof Hd as [Hb Hsz Hu Hh Hy].
  destruct (Z.leb_spec SQLCIPHER_PRIVATE_HEAP_SIZE_STEP (h_sz h)) as [Hle|Hgt].
  2:{ exists h. split; [done|]. left. split_and!; [done..|lia]. }
  destruct (an_os e h (h_sz h)) as [p|] eqn:Ep.
  { destruct (install_region_spec e h p Hos Hd Hle Ep) as (h' & E & Hfr). eauto. }
  unfold SQLCIPHER_PRIVATE_HEAP_SIZE_STEP in *. rewrite u64_small by lia.
  destruct (IH (set_region (h_base h) (h_sz h - 16384) h)) as (h' & E & Hc).
  - constructor; simpl; try done. lia.
  - simpl. replace (h_sz h - 16384) with (h_sz h + -1 * 16384) by lia.
    rewrite Z.div_add by lia.
    assert (1 <= h_sz h / 16384) by (apply Z.div_le_lower_bound; lia). lia.
  - exists h'. split; [done|]. destruct Hc as [(H1 & H2 & H3 & _)|Hc]; [left|right].
    + by split_and!.
    + destruct Hc as [H1 H2 H3 H4]. simpl in *. constructor; try done. lia.
Qed.

(** Giving the region back. *)
Lemma free_region_spec addr s :
  heap_inv (g_heap s) -> 0 < h_sz (g_heap s) ->
  exists rng, free_region addr s =
    Some (with_heap (set_region NULL (h_sz (g_heap s)) (set_blocks ∅ (set_data [] (set_rng rng (g_heap s)))))
      (with_reg (Reg (drop_structs (h_base (g_heap s)) (h_sz (g_heap s)) (r_mem (g_reg s)))
        (default_provider (g_reg s)) (r_inits (g_reg s))) s)).
Proof.
  intros [[Hb Hsz Hc Hs _ Hd Hu Hh] Hok] Hpos. unfold free_region.
  rewrite (proj2 (Z.eqb_neq _ NULL)) by (usz; lia).
  assert (Hn : h_sys (g_heap s) !! h_base (g_heap s) = None).
  { destruct (h_sys (g_heap s) !! h_base (g_heap s)) as [b|] eqn:Eb; [|done].
    apply Hok in Eb. lia. }
  destruct (internal_free_sys addr (h_base (g_heap s)) (h_sz (g_heap s)) (h_data (g_heap s))
    (set_sys (<[h_base (g_heap s) := h_data (g_heap s)]> (h_sys (g_heap s))) (g_heap s)))
    as [rng ->]; [apply lookup_insert_eq|usz; lia|lia|lia|].
  exists rng. simpl. by rewrite delete_insert_id.
Qed.

(** Neither call moves or resizes the region. *)
Lemma free_region_kept addr p n h h' :
  sqlcipher_free addr p n h = Some h' -> h_base h' = h_base h /\ h_sz h' = h_sz h.
Proof.
  assert (HL : forall fuel block prev r h1, free_loop fuel addr h block prev p = Some (r, h1) ->
    h_base h1 = h_base h /\ h_sz h1 = h_sz h).
  { induction fuel as [|fuel IH]; intros block prev r h1; [done|]. cbn [free_loop].
    case_cond; [by intros [= _ <-]|]. intros E. inv_bind E. case_match; [|by eapply IH].
    inv_bind E. destruct x0 as [bs h2]. injection E as _ <-.
    unfold release_block in E1. destruct (xoshiro_randomness _ _ _) as [noise rng].
    inv_bind E1. inv_bind E1. destruct x1 as [m b]. inv_bind E1. by injection E1 as _ <-. }
  unfold sqlcipher_free. intros E. inv_bind E. destruct x as [r h1].
  apply HL in E0 as [Hb Hs]. destruct r as [bs|].
  - by injection E as <-.
  - unfold sqlcipher_internal_free in E. repeat case_match; simplify_eq; [done|].
    inv_bind E. destruct (xoshiro_randomness _ _ _) as [noise rng]. inv_bind E. by injection E as <-.
Qed.

Lemma malloc_region_kept fb n h r h' :
  sqlcipher_malloc fb n h = Some (r, h') -> h_base h' = h_base h /\ h_sz h' = h_sz h.
Proof.
  assert (HL : forall fuel block size r h1, malloc_loop fuel h block size = Some (r, h1) ->
    h_base h1 = h_base h /\ h_sz h1 = h_sz h).
  { induction fuel as [|fuel IH]; intros block size r1 h1; [done|]. cbn [malloc_loop].
    case_cond; [by intros [= _ <-]|]. intros E. inv_bind E. case_match; [|by eapply IH].
    inv_bind E. destruct x0 as [bs h2]. injection E as _ <-.
    unfold take_block in E1. inv_bind E1. case_match; by injection E1 as _ <-. }
  unfold sqlcipher_malloc. case_cond; [by intros [= _ <-]|]. intros E. inv_bind E.
  destruct x as [[[a sz]|] h1]; apply HL in E0 as [Hb Hs].
  - by injection E as _ <-.
  - destruct fb; by injection E as _ <-.
Qed.

Lemma live_of_nil_used l a : live_of l a = [] -> used_total l = 0.
Proof.
  revert a. induction l as [|[sz u] l IH]; intros a; simpl; [done|].
  destruct u; simpl; [done|]. intros E. by rewrite (IH _ E).
Qed.

(** When every live allocation lies outside the region, nothing of the region is in use. *)
Lemma region_unused h L :
  heap_inv h -> heap_live h ≡ₚ L ->
  Forall (fun q : Z * Z => q.1 < h_base h \/ h_base h + h_sz h <= q.1) L ->
  h_used h = 0 /\ sys_live (h_sys h) ≡ₚ L.
Proof.
  intros [W S] HL Ho. pose proof W as [Hb Hsz Hc Hs _ _ Hu _].
  assert (El : live_of (heap_list h) (h_base h) = []).
  { destruct (live_of (heap_list h) (h_base h)) as [|q l] eqn:E; [done|]. exfalso.
    assert (Hq : q ∈ live_of (heap_list h) (h_base h)) by (rewrite E; constructor).
    pose proof (live_of_ge _ _ _ Hs Hq). pose proof (live_of_below _ _ _ _ _ _ Hs Hc Hq).
    assert (HqL : q ∈ L) by (rewrite <- HL; unfold heap_live; rewrite E; set_solver).
    pose proof (proj1 (list.Forall_forall _ _) Ho _ HqL) as Hx. simpl in Hx. usz. lia. }
  split; [by rewrite Hu, (live_of_nil_used _ _ El)|].
  unfold heap_live in HL. by rewrite El in HL.
Qed.

(** ** States between the calls *)

(** Nothing of SQLCipher is set up. *)
Record down (s : proc) : Prop := {
  dn_init : sqlcipher_init s = false;
  dn_master : g_master s = 0;
  dn_ctxs : g_ctxs s = 0;
  dn_mask : sqlcipher_shield_mask s = NULL;
  dn_mutex : sqlcipher_static_mutex s = replicate 8 NULL;
  dn_heap : heap_down (g_heap s);
  dn_default : default_provider (g_reg s) = NULL;
  dn_mem : r_mem (g_reg s) = ∅
}.

(** The system memory and the mutexes in use are those of [s0]. *)
Definition restored (s0 s : proc) : Prop :=
  sys_live (h_sys (g_heap s)) ≡ₚ sys_live (h_sys (g_heap s0)) /\ g_mutexes s = g_mutexes s0.

(** SQLCipher is running: the registered providers are [ps] (address and size), and [L] are
    the allocations that belong to others; [M] are the mutexes of others. *)
Record up (s : proc) (ps L : list (Z * Z)) (M : gset Z) : Prop := {
  up_init : sqlcipher_init s = true;
  up_shutdown : sqlcipher_shutdown s = false;
  up_master : g_master s = 0;
  up_ctxs : g_ctxs s = 0;
  up_mutex : held M (sqlcipher_static_mutex s) (g_mutexes s);
  up_heap : heap_inv (g_heap s);
  up_sz : 0 < h_sz (g_heap s);
  up_mask : exists b, h_sys (g_heap s) !! sqlcipher_shield_mask s = Some b /\
            len b = sqlcipher_shield_mask_sz;
  up_live : heap_live (g_heap s) ≡ₚ
            (sqlcipher_shield_mask s, sqlcipher_shield_mask_sz) :: ps ++ L;
  up_reg : registered (g_reg s) ps.*1;
  up_size : Forall (fun q : Z * Z => sizeof_provider <= q.2) ps
}.

(** ** Shutdown *)

Definition has_shutdown (m : provs) (p : Z) : Prop := from_option pn_shutdown false (m !! p) = true.
#[local] Instance has_shutdown_dec m p : Decision (has_shutdown m p).
Proof. unfold has_shutdown. apply _. Defined.

Lemma filter_shutdown_same m m' (l : list Z) : (forall w, w ∈ l -> m !! w = m' !! w) ->
  filter (has_shutdown m) l = filter (has_shutdown m') l.
Proof.
  induction l as [|a l IH]; intros Hl; [done|]. rewrite !filter_cons, IH by set_solver.
  apply decide_ext. unfold has_shutdown. by rewrite Hl by set_solver.
Qed.

Lemma free_provider_spec addr p m L s :
  heap_inv (g_heap s) -> heap_live (g_heap s) ≡ₚ (p, m) :: L -> sizeof_provider <= m ->
  exists h', free_provider addr p s = Some (with_heap h' (with_reg
      (Reg (delete p (r_mem (g_reg s))) (default_provider (g_reg s)) (r_inits (g_reg s))) s)) /\
    heap_inv h' /\ heap_live h' ≡ₚ L /\
    h_base h' = h_base (g_heap s) /\ h_sz h' = h_sz (g_heap s).
Proof.
  intros Hi HL Hm. unfold free_provider.
  destruct (heap_free_ok addr p sizeof_provider m L (g_heap s) Hi HL) as (h' & E & Hi' & HL').
  { unfold sizeof_provider in *. lia. }
  rewrite E. exists h'. destruct (free_region_kept _ _ _ _ _ E). by split_and!.
Qed.

Lemma shutdown_providers_spec addr ps L fuel p s :
  (length ps < fuel)%nat -> heap_inv (g_heap s) -> heap_live (g_heap s) ≡ₚ ps ++ L ->
  Forall (fun q : Z * Z => sizeof_provider <= q.2) ps ->
  linked (r_mem (g_reg s)) p ps.*1 -> NoDup ps.*1 ->
  exists h' m', shutdown_providers fuel addr s p =
      Some (with_shutdowns
        (reverse (filter (has_shutdown (r_mem (g_reg s))) ps.*1) ++ g_shutdowns s)
        (with_heap h' (with_reg (Reg m' (default_provider (g_reg s)) (r_inits (g_reg s))) s))) /\
    heap_inv h' /\ heap_live h' ≡ₚ L /\
    h_base h' = h_base (g_heap s) /\ h_sz h' = h_sz (g_heap s) /\
    (forall q, m' !! q = if bool_decide (q ∈ ps.*1) then None else r_mem (g_reg s) !! q).
Proof.
  revert ps p s. induction fuel as [|fuel IH]; intros ps p s Hf Hi HL Hsz Hl Hd; [lia|].
  cbn [shutdown_providers]. destruct ps as [|[q m] ps]; cbn [fmap list_fmap fst] in *.
  - simpl in Hl. subst p. cbn [Z.eqb NULL]. exists (g_heap s), (r_mem (g_reg s)).
    split_and!; try done. by destruct s as [? ? ? ? ? ? ? ? [] ? ? ? ? ?].
  - destruct Hl as (-> & Hq & n & E & Hl). apply list.NoDup_cons in Hd as [Hqn Hd].
    apply list.Forall_cons in Hsz as [Hm Hsz]. simpl in Hm, Hf.
    rewrite (proj2 (Z.eqb_neq _ _) Hq), E.
    set (s1 := if pn_shutdown n then _ else s).
    assert (Hs1 : g_heap s1 = g_heap s /\ g_reg s1 = g_reg s) by (subst s1; by destruct (pn_shutdown n)).
    destruct Hs1 as [Hh1 Hr1].
    destruct (free_provider_spec addr q m (ps ++ L) s1) as (h2 & E2 & Hi2 & HL2 & Hb2 & Hz2);
      [by rewrite Hh1|by rewrite Hh1|done|].
    rewrite E2. set (s2 := with_heap h2 _).
    assert (Em : forall w, w ∈ ps.*1 -> r_mem (g_reg s2) !! w = r_mem (g_reg s) !! w).
    { intros w Hw. subst s2. simpl. rewrite Hr1. apply lookup_delete_ne. set_solver. }
    destruct (IH ps (pn_next n) s2) as (h3 & m3 & E3 & Hi3 & HL3 & Hb3 & Hz3 & Hm3); try done; [lia| |].
    { eapply linked_frame; [exact Em|done]. }
    rewrite E3. exists h3, m3. rewrite Hh1 in Hb2, Hz2.
    split_and!; [|done|done|by rewrite Hb3|by rewrite Hz3|].
    + rewrite (filter_shutdown_same _ (r_mem (g_reg s)) _ Em). unfold s2. simpl. rewrite Hr1.
      f_equal. unfold s1. destruct (pn_shutdown n) eqn:Esd; simpl.
      * rewrite filter_cons_True by (unfold has_shutdown; by rewrite E).
        by rewrite reverse_cons, <- app_assoc.
      * rewrite filter_cons_False by (unfold has_shutdown; rewrite E; simpl; congruence). done.
    + intros w. rewrite Hm3. unfold s2. simpl. rewrite Hr1.
      destruct (decide (w = q)) as [-> | Hne].
      * rewrite (bool_decide_true (q ∈ q :: ps.*1)) by set_solver. case_bool_decide; [done|].
        apply lookup_delete_eq.
      * rewrite lookup_delete_ne by done. repeat case_bool_decide; set_solver.
Qed.

Lemma sys_freed h p b rng : heap_inv h -> h_sys h !! p = Some b ->
  heap_inv (set_sys (delete p (h_sys h)) (set_rng rng h)) /\
  heap_live h ≡ₚ (p, len b) :: heap_live (set_sys (delete p (h_sys h)) (set_rng rng h)).
Proof.
  intros Hi Eb. split; [apply heap_inv_sys; [done|apply sys_ok_delete, Hi]|].
  unfold heap_live. cbn [h_sys h_base set_sys set_rng].
  change (heap_list (set_sys (delete p (h_sys h)) (set_rng rng h))) with (heap_list h).
  rewrite (sys_live_delete _ _ _ Eb). by rewrite Permutation_middle.
Qed.

Lemma free_mask_spec addr s b L :
  heap_inv (g_heap s) -> h_sys (g_heap s) !! sqlcipher_shield_mask s = Some b ->
  len b = sqlcipher_shield_mask_sz ->
  heap_live (g_heap s) ≡ₚ (sqlcipher_shield_mask s, sqlcipher_shield_mask_sz) :: L ->
  exists h', free_mask addr s = Some (with_mask NULL (with_heap h' s)) /\
    heap_inv h' /\ heap_live h' ≡ₚ L /\
    h_base h' = h_base (g_heap s) /\ h_sz h' = h_sz (g_heap s).
Proof.
  intros Hi Eb Hb HL. unfold free_mask. pose proof (proj2 Hi _ _ Eb) as (Hp & _ & Hlt).
  rewrite (proj2 (Z.eqb_neq _ _) Hp).
  destruct (internal_free_sys addr (sqlcipher_shield_mask s) sqlcipher_shield_mask_sz b (g_heap s))
    as [rng ->]; [done|done|unfold sqlcipher_shield_mask_sz in *; lia|done|].
  eexists. split; [done|]. destruct (sys_freed _ _ b rng Hi Eb) as [Hi' HL'].
  split_and!; [done| |done|done]. rewrite HL, Hb in HL'.
  by apply Permutation_cons_inv in HL'.
Qed.

(** The private heap is gone and the counters are as [heap_down] wants them. *)
Lemma heap_down_after h rng L :
  heap_inv h -> heap_live h ≡ₚ L ->
  Forall (fun q : Z * Z => q.1 < h_base h \/ h_base h + h_sz h <= q.1) L ->
  heap_down (set_region NULL (h_sz h) (set_blocks ∅ (set_data [] (set_rng rng h)))).
Proof.
  intros Hi HL Ho. destruct (region_unused h L Hi HL Ho) as [Hu _].
  destruct Hi as [[Hb Hsz _ _ _ _ _ Hh] Hok]. constructor; simpl; try done; try lia.
  intros p b Hp. destruct (Hok p b Hp) as (? & _ & ?). done.
Qed.

(** Shutdown frees the mask, every provider, the private heap and the mutexes, and calls
    each provider's shutdown function once, in the order of the list. *)
Lemma extra_shutdown_spec addr s ps L M :
  up s ps L M ->
  exists s' L1, sqlcipher_extra_shutdown addr s = Some s' /\
    L ≡ₚ L1 ++ sys_live (h_sys (g_heap s')) /\
    Forall (fun q : Z * Z => h_base (g_heap s) < q.1 < h_base (g_heap s) + h_sz (g_heap s)) L1 /\
    (Forall (fun q : Z * Z => q.1 < h_base (g_heap s) \/ h_base (g_heap s) + h_sz (g_heap s) <= q.1) L ->
       heap_down (g_heap s')) /\
    g_mutexes s' = M /\ sqlcipher_static_mutex s' = replicate 8 NULL /\
    sqlcipher_shield_mask s' = NULL /\ default_provider (g_reg s') = NULL /\
    sqlcipher_init s' = false /\ g_master s' = 0 /\ g_ctxs s' = 0 /\
    (forall q n, r_mem (g_reg s') !! q = Some n -> q ∉ ps.*1 /\ r_mem (g_reg s) !! q = Some n) /\
    g_shutdowns s' = reverse (filter (has_shutdown (r_mem (g_reg s))) ps.*1) ++ g_shutdowns s.
Proof.
  intros [Hi Hsd Hma Hct Hmu Hinv Hsz (b & Eb & Hb) HL [Hl Hd] Hps].
  unfold sqlcipher_extra_shutdown. rewrite Hi, Hsd. cbn [negb orb].
  destruct (free_mask_spec addr s b (ps ++ L)) as (h1 & -> & Hi1 & HL1 & Hb1 & Hz1); [done..|].
  set (s1 := with_mask NULL (with_heap h1 s)).
  pose proof (linked_size _ _ _ Hl Hd) as Hlen. rewrite length_fmap in Hlen.
  destruct (shutdown_providers_spec addr ps L (S (size (r_mem (g_reg s1)))) (default_provider (g_reg s1)) s1)
    as (h2 & m2 & -> & Hi2 & HL2 & Hb2 & Hz2 & Hm2); try done; [simpl; lia|].
  set (s2 := with_reg _ _).
  destruct (free_region_spec addr s2) as [rng ->]; [done|simpl; rewrite Hz2; simpl; lia|].
  unfold free_mutexes. cbn [sqlcipher_static_mutex g_mutexes with_heap with_reg s2 with_shutdowns s1 with_mask].
  rewrite (mutex_free_spec M) by done.
  eexists _, (live_of (heap_list h2) (h_base h2)). split; [done|].
  assert (Eb2 : h_base h2 = h_base (g_heap s)) by (by rewrite Hb2).
  assert (Ez2 : h_sz h2 = h_sz (g_heap s)) by (by rewrite Hz2).
  pose proof Hi2 as [[Hbp Hzp Hc2 Hs2 _ _ _ _] _].
  split_and!; try done.
  - apply list.Forall_forall. intros q Hq.
    pose proof (live_of_ge _ _ _ Hs2 Hq). pose proof (live_of_below _ _ _ _ _ _ Hs2 Hc2 Hq).
    usz. lia.
  - intros Ho. apply (heap_down_after h2 rng L); [done..|]. by rewrite Eb2, Ez2.
  - intros q n Hq. simpl in Hq. unfold drop_structs in Hq. apply map_lookup_filter_Some in Hq as [Hq _].
    rewrite Hm2 in Hq. by case_bool_decide.
Qed.

(** ** Start-up *)

(** The start-up from [s0] has reached [s] with the region installed and [own] allocated. *)
Record midway (s0 s : proc) (own : list (Z * Z)) : Prop := {
  mw_init : sqlcipher_init s = false;
  mw_master : g_master s = 1;
  mw_ctxs : g_ctxs s = 0;
  mw_mask : sqlcipher_shield_mask s = NULL;
  mw_mutex : held (g_mutexes s0) (sqlcipher_static_mutex s) (g_mutexes s);
  mw_heap : heap_inv (g_heap s);
  mw_sz : SQLCIPHER_PRIVATE_HEAP_SIZE_STEP <= h_sz (g_heap s);
  mw_live : heap_live (g_heap s) ≡ₚ own ++ sys_live (h_sys (g_heap s0));
  mw_out : Forall (fun q : Z * Z => q.1 < h_base (g_heap s) \/
             h_base (g_heap s) + h_sz (g_heap s) <= q.1) (sys_live (h_sys (g_heap s0)))
}.

(** What the error path undoes when no region was installed. *)
Lemma error_before_region e s0 s rc :
  down s0 -> sqlcipher_init s = false -> g_master s = 1 -> g_ctxs s = 0 ->
  sqlcipher_shield_mask s = NULL ->
  held (g_mutexes s0) (sqlcipher_static_mutex s) (g_mutexes s) ->
  heap_down (g_heap s) -> h_sys (g_heap s) = h_sys (g_heap s0) -> g_reg s = g_reg s0 ->
  exists s', init_error_path e s NULL false rc = Some (rc, s') /\ down s' /\ restored s0 s' /\
    h_sz (g_heap s') = h_sz (g_heap s).
Proof.
  intros D Hi Hm Hc Hk Hh Hd Hs Hr. unfold init_error_path. cbn [Z.eqb NULL].
  unfold free_region. rewrite (hd_base _ Hd). cbn [Z.eqb NULL].
  unfold free_mask. rewrite Hk. cbn [Z.eqb NULL].
  unfold free_mutexes. rewrite (mutex_free_spec _ _ _ Hh).
  eexists. split; [done|]. split_and!; [|by split; simpl; rewrite ?Hs|done].
  constructor; simpl; rewrite ?Hr; try done; try apply D. lia.
Qed.

(** With the region, and a provider that is not registered. *)
Lemma error_midway e s0 s own provider rc :
  midway s0 s own -> default_provider (g_reg s) = NULL ->
  (provider = NULL /\ own = [] /\ r_mem (g_reg s) = ∅) \/
  (exists m n, provider <> NULL /\ own = [(provider, m)] /\ sizeof_provider <= m /\
     r_mem (g_reg s) = {[provider := n]}) ->
  exists s', init_error_path e s provider false rc = Some (rc, s') /\ down s' /\ restored s0 s'.
Proof.
  intros [Hi Hm Hc Hk Hh Hinv Hsz HL Ho] Hdef Hown. unfold init_error_path.
  assert (HP : exists h r, (if provider =? NULL then Some s else free_provider (an_addr e) provider s)
      = Some (with_heap h (with_reg r s)) /\ heap_inv h /\
      heap_live h ≡ₚ sys_live (h_sys (g_heap s0)) /\ h_base h = h_base (g_heap s) /\
      h_sz h = h_sz (g_heap s) /\ r_mem r = ∅ /\ default_provider r = NULL).
  { destruct Hown as [(-> & -> & Hr)|(m & n & Hp & -> & Hm' & Hr)].
    - exists (g_heap s), (g_reg s). split_and!; try done. by destruct s.
    - rewrite (proj2 (Z.eqb_neq _ _) Hp).
      destruct (free_provider_spec (an_addr e) provider m _ s Hinv HL Hm') as (h & -> & H1 & H2 & H3 & H4).
      do 2 eexists. split; [done|]. split_and!; try done. cbn [r_mem]. rewrite Hr. apply delete_singleton_eq. }
  destruct HP as (h & r & -> & Hi1 & HL1 & Hb1 & Hz1 & Hr1 & Hd1).
  set (s1 := with_heap h _). unfold SQLCIPHER_PRIVATE_HEAP_SIZE_STEP in Hsz.
  destruct (free_region_spec (an_addr e) s1) as [rng ->]; [done|simpl; lia|].
  unfold free_mask. cbn [sqlcipher_shield_mask with_heap with_reg s1]. rewrite Hk. cbn [Z.eqb NULL].
  unfold free_mutexes. cbn [sqlcipher_static_mutex g_mutexes with_heap with_reg s1].
  rewrite (mutex_free_spec _ _ _ Hh). eexists. split; [done|].
  destruct (region_unused h (sys_live (h_sys (g_heap s0)))) as [_ Hy]; [done|done|by rewrite Hb1, Hz1|].
  split; [|by split]. constructor; simpl; try done; [lia| |].
  - eapply heap_down_after; [done|exact HL1|by rewrite Hb1, Hz1].
  - rewrite Hr1. apply map_filter_empty.
Qed.

(** The provider that is compiled in. *)
Definition an_ops (e : answers) : provider := pn_ops (an_setup e).2.

(** Nothing fails once the provider is registered: it opens a context, its random source
    answers, and the memory for the mask is there. *)
Record late_ok (e : answers) : Prop := {
  lo_ctx : exists c, pv_ctx_init (an_ops e) = (SQLITE_OK, Some c);
  lo_random : forall c n, (pv_random (an_ops e) c n).1.1 = SQLITE_OK;
  lo_mask : forall h, is_Some (an_os e h sqlcipher_shield_mask_sz)
}.

Lemma xoshiro_bytes_length x : length (xoshiro_bytes x) = 32%nat.
Proof. done. Qed.

Lemma sys_live_insert_same m p b b' : m !! p = Some b -> len b' = len b ->
  sys_live (<[p := b']> m) ≡ₚ sys_live m.
Proof.
  intros E Hb. rewrite <- (insert_delete_eq m p b'). rewrite sys_live_insert by apply lookup_delete_eq.
  by rewrite (sys_live_delete m p b E), Hb.
Qed.

Lemma random_bytes (P : provider) `{!ProviderOk P} c n rc b c' (d : bytes) :
  pv_random P c n = (rc, b, c') -> 0 <= n -> n = len d ->
  exists d', mem_write d 0 b = Some d' /\ len d' = len d.
Proof.
  intros E Hn Hd. destruct (pv_random_ok c n rc b c' Hn E) as (_ & Hl & _).
  destruct (mem_write d 0 b) as [d'|] eqn:Ed; [|rewrite mem_write_total in Ed by lia; done].
  exists d'. split; [done|]. by rewrite (mem_write_length _ _ _ _ Ed).
Qed.

(** A system block is added, and filled with as many bytes. *)
Lemma sys_added h os n q b b' rng :
  os_law os -> heap_inv h -> os h n = Some q -> 0 < n < 2 ^ 31 -> len b = n -> len b' = n ->
  heap_inv (set_sys (<[q := b']> (<[q := b]> (h_sys h))) (set_rng rng h)) /\
  heap_live (set_sys (<[q := b']> (<[q := b]> (h_sys h))) (set_rng rng h)) ≡ₚ (q, n) :: heap_live h.
Proof.
  intros Hos Hi Eq Hn Hb Hb'. destruct (Hos _ _ _ Eq) as (Hq & Hf & Hr & _).
  pose proof (wf_base _ _ (proj1 Hi)) as Hbase. split.
  - apply heap_inv_sys; [done|]. intros w c Hw. simpl in *. rewrite insert_insert_eq in Hw.
    destruct (decide (w = q)) as [-> | Hne].
    + rewrite lookup_insert_eq in Hw. injection Hw as <-. usz. split_and!; [lia|lia|lia].
    + rewrite lookup_insert_ne in Hw by done. by apply Hi.
  - unfold heap_live. cbn [h_sys h_base set_sys set_rng].
    change (heap_list (set_sys (<[q := b']> (<[q := b]> (h_sys h))) (set_rng rng h))) with (heap_list h).
    rewrite insert_insert_eq, sys_live_insert by done. rewrite Hb'. by rewrite Permutation_middle.
Qed.

Lemma init_random_ok e s0 s p m n `{!ProviderOk (an_ops e)} :
  os_law (an_os e) -> late_ok e -> midway s0 s [(p, m)] -> sizeof_provider <= m ->
  registered (g_reg s) [p] -> r_mem (g_reg s) !! p = Some n -> pn_ops n = an_ops e ->
  exists s', init_random e s = Some (SQLITE_OK, s') /\
    up s' [(p, m)] (sys_live (h_sys (g_heap s0))) (g_mutexes s0) /\ g_reg s' = g_reg s /\
    h_base (g_heap s') = h_base (g_heap s) /\ h_sz (g_heap s') = h_sz (g_heap s).
Proof.
  intros Hos [[c Hc] Hr Hk] [Hi Hm Hct Hmk Hh Hinv Hsz HL Ho] Hm144 Hreg Hn Hop.
  assert (Hdef : default_provider (g_reg s) = p) by (by destruct Hreg as [[-> _] _]).
  unfold init_random. rewrite Hdef, Hn, Hop, Hc. cbn [Z.eqb SQLITE_OK negb].
  destruct (pv_random (an_ops e) c sizeof_xoshiro_s) as [[rc seed] c1] eqn:E1.
  pose proof (Hr c sizeof_xoshiro_s) as Hrc. rewrite E1 in Hrc. cbn [fst] in Hrc. subst rc.
  destruct (random_bytes _ _ _ _ _ _ (xoshiro_bytes (h_rng (g_heap s))) E1 ltac:(done) ltac:(done))
    as (d & Ed & _).
  cbn [g_heap with_ctxs]. rewrite Ed. cbn [Z.eqb SQLITE_OK negb].
  set (h1 := set_rng _ _). unfold init_mask.
  cbn [sqlcipher_shield_mask with_heap with_ctxs g_heap]. rewrite Hmk. cbn [Z.eqb NULL negb].
  destruct (Hk h1) as [q Eq]. rewrite Eq. cbn [sqlcipher_internal_malloc].
  destruct (pv_random (an_ops e) c1 sqlcipher_shield_mask_sz) as [[rc rnd] c2] eqn:E2.
  pose proof (Hr c1 sqlcipher_shield_mask_sz) as Hrc. rewrite E2 in Hrc. cbn [fst] in Hrc. subst rc.
  cbn [h_sys set_sys]. rewrite lookup_insert_eq.
  destruct (random_bytes _ _ _ _ _ _ (replicate (Z.to_nat sqlcipher_shield_mask_sz) 0) E2 ltac:(done)
    ltac:(done)) as (d2 & Ed2 & Hd2).
  rewrite Ed2. cbn [Z.eqb SQLITE_OK negb]. unfold init_done, close_ctx.
  cbn [g_reg with_mask with_heap with_ctxs]. rewrite Hdef, Hn.
  assert (Hinv1 : heap_inv h1) by (by apply (heap_inv_sys (g_heap s) (h_sys (g_heap s))); [|apply Hinv]).
  assert (HL1 : heap_live h1 = heap_live (g_heap s)) by done.
  destruct (sys_added h1 (an_os e) sqlcipher_shield_mask_sz q
    (replicate (Z.to_nat sqlcipher_shield_mask_sz) 0) d2 (h_rng h1)) as [Hi2 HL2]; try done.
  eexists. split; [done|]. split_and!; [|done|done|done].
  constructor; simpl; try done; try lia.
  - unfold SQLCIPHER_PRIVATE_HEAP_SIZE_STEP in Hsz. simpl. lia.
  - rewrite lookup_insert_eq. eauto.
  - etransitivity; [exact HL2|]. by rewrite HL1, HL.
  - by repeat constructor.
Qed.

Lemma live_nonnull h p m : heap_inv h -> (p, m) ∈ heap_live h -> p <> NULL.
Proof.
  intros [W S] Hin. unfold heap_live in Hin. apply elem_of_app in Hin as [Hin|Hin].
  - pose proof (live_of_ge _ _ _ (wf_sizes _ _ W) Hin) as Hg. pose proof (wf_base _ _ W).
    simpl in Hg. usz. lia.
  - apply sys_live_in in Hin as (b & Eb & _). by destruct (S _ _ Eb).
Qed.

(** The structure of a provider is allocated. *)
Lemma provider_malloc e h :
  os_law (an_os e) -> heap_inv h ->
  exists r h', sqlcipher_malloc (an_os e h (HEAP_ROUNDUP sizeof_provider)) sizeof_provider h
      = Some (r, h') /\ heap_inv h' /\ h_base h' = h_base h /\ h_sz h' = h_sz h /\
    match r with
    | None => heap_live h' ≡ₚ heap_live h
    | Some p => exists m, sizeof_provider <= m /\ heap_live h' ≡ₚ (p, m) :: heap_live h
    end.
Proof.
  intros Hos Hi.
  set (os := fun (h : heap) (n : Z) => if (h_base h =? NULL) || (n <? 1) then None else an_os e h n).
  assert (Hok : os_ok os).
  { intros h1 n p. unfold os. case_cond; [done|]. intros E.
    destruct (Hos _ _ _ E) as (H1 & H2 & H3 & _). usz. split_and!; [lia|lia|done]. }
  destruct (heap_malloc_ok os Hok sizeof_provider h Hi) as (r & h' & E & Hi' & Hr).
  unfold os in E. destruct ((h_base h =? NULL) || _) eqn:Eb.
  - pose proof (wf_base _ _ (proj1 Hi)). change (HEAP_ROUNDUP sizeof_provider) with 144 in Eb. usz. lia.
  - exists r, h'. destruct (malloc_region_kept _ _ _ _ _ E). by split_and!.
Qed.

(** The registration of the first provider. *)
Lemma register_first answer p n calls : p <> NULL ->
  let failed := pn_init n && (answer <>? SQLITE_OK) in
  exists r' (q : Z), sqlcipher_register_provider answer (Reg (<[p := n]> ∅) NULL calls) p
      = Some (if failed then answer else SQLITE_OK, r') /\
    r_mem r' = ({[p := set_pn_next q n]} : provs) /\ registered r' (if failed then [] else [p]).
Proof.
  intros Hp failed. set (reg := Reg (<[p := n]> ∅) NULL calls).
  assert (Wr : registered reg []) by (by constructor; [|constructor]).
  assert (Hpm : p = NULL \/ is_Some (r_mem reg !! p)) by (right; simpl; rewrite lookup_insert_eq; eauto).
  pose proof (register_step answer reg [] p Wr Hpm) as HS.
  unfold register_spec, init_of in HS. rewrite (proj2 (Z.eqb_neq _ _) Hp) in HS.
  change (r_mem reg !! p) with ((<[p := n]> (∅ : provs)) !! p) in HS. rewrite lookup_insert_eq in HS.
  cbn [orb head bool_decide from_option] in HS. rewrite !bool_decide_false in HS by (done || set_solver).
  assert (Hone : forall r', same_structs (r_mem reg) (r_mem r') -> exists q, r_mem r' = {[p := set_pn_next q n]}).
  { intros r' Hs. destruct (same_structs_Some _ _ p n Hs) as [q Eq]; [apply lookup_insert_eq|].
    exists q. apply map_eq. intros w. destruct (decide (w = p)) as [-> | Hw].
    - by rewrite Eq, lookup_singleton_eq.
    - rewrite lookup_singleton_ne by done. specialize (Hs w). simpl in Hs.
      rewrite lookup_insert_ne in Hs by done. by destruct (r_mem r' !! w). }
  unfold failed. destruct (pn_init n && (answer <>? SQLITE_OK));
    destruct HS as (r' & E & Wr' & Hs & _); destruct (Hone r' Hs) as [q Hq]; by exists r', q.
Qed.

Lemma init_provider_spec e s0 s `{!ProviderOk (an_ops e)} :
  os_law (an_os e) -> late_ok e -> midway s0 s [] -> default_provider (g_reg s) = NULL ->
  r_mem (g_reg s) = ∅ ->
  exists rc s', init_provider e s = Some (rc, s') /\
    ((rc <> SQLITE_OK /\ down s' /\ restored s0 s') \/
     (rc = SQLITE_OK /\ exists p m n, up s' [(p, m)] (sys_live (h_sys (g_heap s0))) (g_mutexes s0) /\
        r_mem (g_reg s') = {[p := n]} /\
        Forall (fun q : Z * Z => q.1 < h_base (g_heap s') \/
          h_base (g_heap s') + h_sz (g_heap s') <= q.1) (sys_live (h_sys (g_heap s0))))).
Proof.
  intros Hos Hlate W Hdef Hmem. pose proof W as [Hi Hm Hct Hmk Hh Hinv Hsz HL Ho].
  unfold init_provider, sqlcipher_get_provider. rewrite Hdef. cbn [Z.eqb NULL negb].
  destruct (provider_malloc e (g_heap s) Hos Hinv) as (r & h1 & -> & Hi1 & Hb1 & Hz1 & Hr).
  destruct r as [p|].
  2:{ destruct (error_midway e s0 (with_heap h1 s) [] NULL SQLITE_NOMEM) as (s' & E & D); try done.
      - constructor; simpl; rewrite ?Hz1, ?Hb1; try done. by rewrite Hr.
      - by left.
      - exists SQLITE_NOMEM, s'. split; [done|]. by left. }
  destruct Hr as (m & Hm144 & HL1).
  assert (Hp : p <> NULL) by (eapply (live_nonnull h1 p m); [done|]; rewrite HL1; constructor).
  assert (WM : forall reg, midway s0 (with_reg reg (with_heap h1 s)) [(p, m)]).
  { intros reg. constructor; simpl; rewrite ?Hz1, ?Hb1; try done. by rewrite HL1, HL. }
  assert (HE : forall reg n rc, default_provider reg = NULL -> r_mem reg = {[p := n]} ->
    rc <> SQLITE_OK -> exists s', init_error_path e (with_reg reg (with_heap h1 s)) p false rc
      = Some (rc, s') /\ rc <> SQLITE_OK /\ down s' /\ restored s0 s').
  { intros reg n rc Hd Hr Hrc. destruct (error_midway e s0 _ _ p rc (WM reg)) as (s' & E & D); try done.
    - right. by exists m, n.
    - exists s'. destruct D. by split_and!. }
  destruct (an_setup e) as [rc n] eqn:Es. cbn [g_reg with_heap]. rewrite Hmem, Hdef.
  set (reg := Reg (<[p := n]> ∅) NULL (r_inits (g_reg s))).
  destruct (Z.eqb_spec rc SQLITE_OK) as [-> | Hrc]; cbn [negb].
  2:{ destruct (HE reg n rc) as (s' & -> & D); [done..|]. exists rc, s'. split; [done|]. by left. }
  destruct (register_first (an_init e) p n (r_inits (g_reg s)) Hp) as (r' & q & Er & Hq & Wr').
  fold reg in Er. rewrite Er.
  change (with_reg r' (with_reg reg (with_heap h1 s))) with (with_reg r' (with_heap h1 s)).
  destruct (pn_init n && (an_init e <>? SQLITE_OK)) eqn:Ei.
  - assert (Hne : an_init e <> SQLITE_OK) by (bool_to_prop; done).
    rewrite (proj2 (Z.eqb_neq _ _) Hne). cbn [negb].
    destruct (HE r' (set_pn_next q n) (an_init e)) as (s' & -> & D); [|exact Hq|done|].
    { by destruct Wr' as [Hl _]. }
    exists (an_init e), s'. split; [done|]. by left.
  - cbn [Z.eqb SQLITE_OK negb].
    destruct (init_random_ok e s0 (with_reg r' (with_heap h1 s)) p m (set_pn_next q n))
      as (s' & E & U & Eg & Eb & Ez); try done.
    + simpl. by rewrite Hq, lookup_singleton_eq.
    + unfold an_ops. by rewrite Es.
    + exists SQLITE_OK, s'. split; [done|]. right. split; [done|]. exists p, m, (set_pn_next q n).
      simpl in Eb, Ez. rewrite Eg, Eb, Ez, Hb1, Hz1. by split_and!.
Qed.

(** Up to the provider. *)
Lemma extra_init_reaches e s0 :
  down s0 -> os_law (an_os e) -> mutexes_fresh e (g_mutexes s0) ->
  (exists s', sqlcipher_extra_init e s0 = Some (SQLITE_NOMEM, s') /\ down s' /\ restored s0 s' /\
     ((forall i, is_Some (an_mutex e i)) -> h_sz (g_heap s') < SQLCIPHER_PRIVATE_HEAP_SIZE_STEP /\
       (SQLCIPHER_PRIVATE_HEAP_SIZE_STEP <= h_sz (g_heap s0) ->
        an_os e (g_heap s0) (h_sz (g_heap s0)) = None))) \/
  (exists s, sqlcipher_extra_init e s0 = init_provider e s /\ midway s0 s [] /\
     g_reg s = g_reg s0 /\ heap_fresh (g_heap s0) (g_heap s)).
Proof.
  intros D Hos Hmu. pose proof D as [Hi Hma Hct Hmk Hms Hh Hdf Hme].
  unfold sqlcipher_extra_init. cbn [sqlcipher_init with_master]. rewrite Hi.
  cbn [sqlcipher_static_mutex g_mutexes with_once with_master g_log]. rewrite Hms.
  destruct (mutex_alloc_spec e _ Hmu) as (ok & ms & live & -> & Hheld & Hok).
  destruct ok; cbn [negb].
  2:{ left. edestruct (error_before_region e s0) as (s' & E & D' & R & Hz); cycle -1.
      - exists s'. split; [exact E|]. split_and!; [done|done|]. intros Ha. by specialize (Hok Ha).
      - done.
      - done.
      - simpl. by rewrite Hma.
      - done.
      - done.
      - done.
      - done.
      - done.
      - done. }
  cbn [g_heap with_mutexes with_once with_master]. rewrite (hd_base _ Hh). cbn [Z.eqb NULL].
  destruct (region_loop_spec e (g_heap s0) (region_fuel (g_heap s0)) Hos Hh) as (h1 & -> & Hc).
  { unfold region_fuel. lia. }
  destruct Hc as [(Hd1 & Hs1 & Hz1 & Hn1)|Hfr].
  - rewrite (hd_base _ Hd1). cbn [Z.eqb NULL]. left.
    edestruct (error_before_region e s0) as (s' & E & D' & R & Hz); cycle -1.
    + exists s'. split; [exact E|]. split_and!; [done|done|]. intros _. rewrite Hz. simpl. done.
    + done.
    + done.
    + simpl. by rewrite Hma.
    + done.
    + done.
    + done.
    + done.
    + done.
    + done.
  - pose proof Hfr as [W S Hy Hz]. right. rewrite (proj2 (Z.eqb_neq (h_base h1) NULL)).
    2:{ pose proof (wf_base _ _ W). usz. lia. }
    eexists. split; [reflexivity|]. split_and!; [|done|done].
    constructor; simpl; try done.
    + by rewrite Hma.
    + by eapply heap_inv_intro.
    + apply Hz.
    + unfold heap_live. rewrite (heap_list_wf _ _ W), Hy. done.
    + rewrite <- Hy. apply list.Forall_forall. intros [q k] Hq.
      apply sys_live_in in Hq as (b & Eb & _). by destruct (S _ _ Eb) as (_ & ? & _).
Qed.

(** C35: a start-up of SQLCipher from a state where nothing is set up returns, for every answer
    of the mutex allocator, the system allocator and the provider's setup and initializer. On
    an error, whichever step it comes from, it has released everything it had acquired: the
    mutexes, the system memory, the registry and the master mutex are as before. On success a
    second call changes nothing, and a shutdown calls the provider's shutdown function once
    and leaves a state from which the next start-up can begin, with the system memory and the
    mutexes as they were. The hypothesis [late_ok] leaves out the failures after the
    registration of the provider. *)
Theorem startup_shutdown_balanced e s0 addr `{!ProviderOk (an_ops e)} :
  down s0 -> os_law (an_os e) -> mutexes_fresh e (g_mutexes s0) -> late_ok e ->
  exists rc s, sqlcipher_extra_init e s0 = Some (rc, s) /\
    (rc <> SQLITE_OK /\ down s /\ restored s0 s \/
     rc = SQLITE_OK /\ sqlcipher_init s = true /\ heap_inv (g_heap s) /\
       (forall e', sqlcipher_extra_init e' s = Some (SQLITE_OK, s)) /\
       exists s' p, sqlcipher_extra_shutdown addr s = Some s' /\ down s' /\ restored s0 s' /\
         sqlcipher_get_provider (g_reg s) = p /\
         g_shutdowns s' = filter (has_shutdown (r_mem (g_reg s))) [p] ++ g_shutdowns s).
Proof.
  intros D Hos Hmu Hlate. pose proof D as [_ _ _ _ _ _ Hdf Hme].
  destruct (extra_init_reaches e s0 D Hos Hmu) as [(s' & E & D' & R & _)|(s & E & W & Hr & _)].
  { exists SQLITE_NOMEM, s'. split; [done|]. by left. }
  destruct (init_provider_spec e s0 s Hos Hlate W) as (rc & s1 & E1 & Hc); [by rewrite Hr..|].
  exists rc, s1. split; [by rewrite E|]. destruct Hc as [Hc|(-> & p & m & n & U & Hm & Ho)]; [by left|].
  right. pose proof U as [U1 U2 U3 U4 U5 U6 U7 U8 U9 U10 U11]. split_and!; try done.
  - intros e'. unfold sqlcipher_extra_init. cbn [sqlcipher_init with_master]. rewrite U1.
    cbn [g_master with_master]. do 2 f_equal. destruct s1. simpl in *. subst. done.
  - destruct (extra_shutdown_spec addr s1 _ _ _ U)
      as (s' & L1 & E2 & HL & Hin & Hdn & H1 & H2 & H3 & H4 & H5 & H6 & H7 & H8 & H9).
    specialize (Hdn Ho). exists s', p. split; [done|].
    assert (L1 = []) as ->.
    { destruct L1 as [|q L1]; [done|]. exfalso. apply list.Forall_cons in Hin as [Hq _].
      assert (HqL : q ∈ sys_live (h_sys (g_heap s0))) by (rewrite HL; set_solver).
      pose proof (proj1 (list.Forall_forall _ _) Ho _ HqL). simpl in *. lia. }
    split_and!; [|by split|by destruct U10 as [[Hp _] _]|].
    + constructor; try done. apply map_empty. intros q.
      destruct (r_mem (g_reg s') !! q) as [n'|] eqn:Eq; [|done]. apply H8 in Eq as [Hq1 Hq2].
      rewrite Hm in Hq2. apply lookup_singleton_Some in Hq2 as [-> _]. simpl in Hq1. set_solver.
    + rewrite H9. simpl. f_equal. rewrite filter_cons. case_decide; done.
Qed.

(** ** The error path after the registration *)

(** In a fresh region a provider's structure is served from the region. *)
Lemma provider_in_region fb h :
  heap_wf h [(h_sz h - sizeof_private_block, false)] -> SQLCIPHER_PRIVATE_HEAP_SIZE_STEP <= h_sz h ->
  exists p h', sqlcipher_malloc fb sizeof_provider h = Some (Some p, h') /\
    h_base h < p < h_base h + h_sz h /\ (sys_ok h -> heap_inv h') /\
    h_base h' = h_base h /\ h_sz h' = h_sz h.
Proof.
  intros W Hsz. unfold SQLCIPHER_PRIVATE_HEAP_SIZE_STEP in Hsz.
  destruct (malloc_cases fb sizeof_provider h _ W) as [(p & n & l' & h' & E & Sv & _)|(h' & _ & Hb & _)];
    [done| |].
  - exists p, h'. destruct Sv as [Hn Hb' Hz' Hy' W' Hl' _ _]. split; [done|].
    assert (Hin : (p, n) ∈ live_of l' (h_base h')) by (rewrite Hl'; constructor).
    pose proof (live_of_ge _ _ _ (wf_sizes _ _ W') Hin) as Hg.
    pose proof (live_of_below _ _ _ _ _ _ (wf_sizes _ _ W') (wf_chain _ _ W') Hin) as Hl.
    simpl in Hg, Hl. rewrite Hb', Hz' in *. usz. split_and!; [lia|lia| |done|done].
    intros S. eapply heap_inv_intro; [done|]. by eapply sys_ok_same.
  - exfalso. destruct (Hb (h_sz h - sizeof_private_block, false)) as [?|Hlt]; [constructor|done|].
    change (HEAP_ROUNDUP sizeof_provider) with 144 in Hlt. simpl in Hlt. usz. lia.
Qed.

(** When everything succeeds up to the registration of the provider, but its random source
    then fails to deliver the seed of the generator, the start-up has undefined behaviour: the
    error path frees the private heap, in which the structure of the registered provider
    lies, and then reads [default_provider->ctx_free] from it. *)
Theorem startup_use_after_free e s0 c `{!ProviderOk (an_ops e)} :
  down s0 -> os_law (an_os e) -> mutexes_fresh e (g_mutexes s0) ->
  (forall i, is_Some (an_mutex e i)) ->
  SQLCIPHER_PRIVATE_HEAP_SIZE_STEP <= h_sz (g_heap s0) ->
  is_Some (an_os e (g_heap s0) (h_sz (g_heap s0))) ->
  (an_setup e).1 = SQLITE_OK -> an_init e = SQLITE_OK ->
  pv_ctx_init (an_ops e) = (SQLITE_OK, Some c) ->
  (pv_random (an_ops e) c sizeof_xoshiro_s).1.1 <> SQLITE_OK ->
  sqlcipher_extra_init e s0 = None.
Proof.
  intros D Hos Hmu Hall Hsz [q0 Hreg] Hset Hini Hctx Hrnd.
  destruct (extra_init_reaches e s0 D Hos Hmu) as [(s' & _ & _ & _ & Hx)|(s & -> & W & Hr & F)].
  { destruct (Hx Hall) as [_ Hx2]. by rewrite (Hx2 Hsz) in Hreg. }
  pose proof W as [Hi Hm Hct Hmk Hh Hinv _ HL Ho]. pose proof F as [Fw Fs Fy Fz].
  unfold init_provider, sqlcipher_get_provider. rewrite Hr, (dn_default _ D). cbn [Z.eqb NULL negb].
  destruct (provider_in_region (an_os e (g_heap s) (HEAP_ROUNDUP sizeof_provider)) (g_heap s) Fw)
    as (p & h1 & -> & Hp & Hi1 & Hb1 & Hz1); [lia|]. specialize (Hi1 Fs).
  pose proof (wf_base _ _ Fw) as Hbase. assert (Hp0 : p <> NULL) by (usz; lia).
  destruct (an_setup e) as [rc n] eqn:Es. simpl in Hset. subst rc.
  cbn [g_reg with_heap Z.eqb SQLITE_OK negb]. rewrite Hr, (dn_default _ D), (dn_mem _ D).
  destruct (register_first (an_init e) p n (r_inits (g_reg s0)) Hp0) as (r' & q & -> & Hq & Wr').
  rewrite Hini in *. cbn [Z.eqb SQLITE_OK negb] in *. rewrite andb_false_r in *. cbn [Z.eqb negb].
  unfold init_random. cbn [g_reg with_reg].
  assert (Hd : default_provider r' = p) by (by destruct Wr' as [[? _] _]).
  rewrite Hd, Hq, lookup_singleton_eq. cbn [pn_ops set_pn_next].
  assert (Eop : pn_ops n = an_ops e) by (unfold an_ops; by rewrite Es).
  rewrite Eop, Hctx. cbn [Z.eqb SQLITE_OK negb].
  destruct (pv_random (an_ops e) c sizeof_xoshiro_s) as [[rc seed] c1] eqn:E1. cbn [fst] in Hrnd.
  cbn [g_heap with_ctxs with_reg with_heap].
  destruct (random_bytes _ _ _ _ _ _ (xoshiro_bytes (h_rng h1)) E1 ltac:(done) ltac:(done))
    as (d & -> & _).
  rewrite (proj2 (Z.eqb_neq _ _) Hrnd). cbn [negb]. unfold init_error_path. cbn [Z.eqb NULL].
  set (s2 := with_heap _ _).
  destruct (free_region_spec (an_addr e) s2) as [rng ->].
  { by apply (heap_inv_sys h1 (h_sys h1)); [|apply Hi1]. }
  { simpl. unfold SQLCIPHER_PRIVATE_HEAP_SIZE_STEP in *. lia. }
  unfold free_mask. cbn [sqlcipher_shield_mask with_heap with_reg s2 with_ctxs]. rewrite Hmk. cbn [Z.eqb NULL].
  unfold free_mutexes. cbn [sqlcipher_static_mutex g_mutexes with_heap with_reg s2 with_ctxs].
  rewrite (mutex_free_spec _ _ _ Hh). unfold close_ctx.
  cbn [g_reg r_mem default_provider with_mutexes with_reg with_heap s2 with_ctxs g_heap h_base h_sz set_rng].
  rewrite Hd. unfold drop_structs.
  destruct (filter _ (r_mem r') !! p) as [x|] eqn:Ef; [|done].
  apply map_lookup_filter_Some in Ef as [_ Ef]. simpl in Ef. rewrite Hb1, Hz1 in Ef. lia.
Qed.

(** Once no region could be had, [private_heap_sz] is below the step and is never raised
    again: every later start-up fails. *)
Lemma startup_nomem_permanent e s0 :
  down s0 -> os_law (an_os e) -> mutexes_fresh e (g_mutexes s0) ->
  h_sz (g_heap s0) < SQLCIPHER_PRIVATE_HEAP_SIZE_STEP ->
  exists s', sqlcipher_extra_init e s0 = Some (SQLITE_NOMEM, s') /\ down s'.
Proof.
  intros D Hos Hmu Hsz.
  destruct (extra_init_reaches e s0 D Hos Hmu) as [(s' & E & D' & _)|(s & _ & _ & _ & F)].
  - by exists s'.
  - pose proof (hf_sz _ _ F). lia.
Qed.

(** ** Witnesses *)

(** A system allocator that answers behind everything it has handed out. *)
Definition demo_end (h : heap) : Z :=
  foldr (fun (q : Z * Z) acc => Z.max (q.1 + q.2) acc) 0 (sys_live (h_sys h)).
Definition demo_sbrk (h : heap) (n : Z) : option Z :=
  Some (Z.max (demo_end h) (Z.max 0 (h_base h + h_sz h)) + 64).

Lemma demo_end_max h q : q ∈ sys_live (h_sys h) -> q.1 + q.2 <= demo_end h.
Proof.
  unfold demo_end. induction (sys_live (h_sys h)) as [|a l IH]; [set_solver|].
  intros [-> | Hq]%elem_of_cons; simpl; [lia|]. specialize (IH Hq). lia.
Qed.

Lemma demo_sbrk_law : os_law demo_sbrk.
Proof.
  intros h n p [= <-].
  assert (Hin : forall q b, h_sys h !! q = Some b -> q + len b <= demo_end h).
  { intros q b Hq. apply (demo_end_max h (q, len b)). apply sys_live_in. eauto. }
  split_and!; [lia| |lia|].
  - destruct (h_sys h !! _) as [b|] eqn:Eb; [|done]. apply Hin in Eb. lia.
  - intros q b Hq. apply Hin in Hq. lia.
Qed.

Definition demo_answers (P : provider) : answers :=
  Ans 7 (fun i => Some (2 * i + 1)) demo_sbrk (SQLITE_OK, PNode true true P 99) SQLITE_OK 3.

Lemma demo_mutexes_fresh P : mutexes_fresh (demo_answers P) ∅.
Proof.
  split.
  - intros i p [= <-]. split; [unfold NULL; lia|set_solver].
  - intros i j p [= <-] [= ?]. lia.
Qed.

Lemma demo_down : down (proc0 ∅ ∅).
Proof. constructor; try done; constructor; done. Qed.

Lemma startup_shutdown_balanced_witness :
  exists rc s, sqlcipher_extra_init (demo_answers demo_provider) (proc0 ∅ ∅) = Some (rc, s) /\
    (rc <> SQLITE_OK /\ down s /\ restored (proc0 ∅ ∅) s \/
     rc = SQLITE_OK /\ sqlcipher_init s = true /\ heap_inv (g_heap s) /\
       (forall e', sqlcipher_extra_init e' s = Some (SQLITE_OK, s)) /\
       exists s' p, sqlcipher_extra_shutdown 7 s = Some s' /\ down s' /\ restored (proc0 ∅ ∅) s' /\
         sqlcipher_get_provider (g_reg s) = p /\
         g_shutdowns s' = filter (has_shutdown (r_mem (g_reg s))) [p] ++ g_shutdowns s).
Proof.
  apply (startup_shutdown_balanced (demo_answers demo_provider) (proc0 ∅ ∅) 7
    (ProviderOk0 := demo_provider_ok)).
  - exact demo_down.
  - exact demo_sbrk_law.
  - apply demo_mutexes_fresh.
  - constructor; [by exists 1|done|by intros h; eexists].
Defined.

(** The demonstration provider with a random source that fails. *)
Definition failing_provider : provider := {|
  pv_ctx := pv_ctx demo_provider;
  pv_random := fun c _ => (SQLITE_ERROR, [], c);
  pv_hmac := pv_hmac demo_provider;
  pv_kdf := pv_kdf demo_provider;
  pv_cipher := pv_cipher demo_provider;
  pv_get_key_sz := pv_get_key_sz demo_provider;
  pv_get_iv_sz := pv_get_iv_sz demo_provider;
  pv_get_block_sz := pv_get_block_sz demo_provider;
  pv_get_hmac_sz := pv_get_hmac_sz demo_provider;
  pv_ctx_init := pv_ctx_init demo_provider
|}.

Lemma failing_provider_ok : ProviderOk failing_provider.
Proof.
  destruct demo_provider_ok. split; try assumption.
  intros c n rc b c' Hn [= <- <- <-]. split_and!; [constructor|done|done].
Qed.

Lemma startup_use_after_free_witness :
  sqlcipher_extra_init (demo_answers failing_provider) (proc0 ∅ ∅) = None.
Proof.
  apply (startup_use_after_free (demo_answers failing_provider) (proc0 ∅ ∅) 1
    (ProviderOk0 := failing_provider_ok)); try done.
  - exact demo_sbrk_law.
  - apply demo_mutexes_fresh.
Defined.
