(* ===== verification/MemSecurity.v ===== *)
(** * The memory wrapper of src/sqlcipher.c

    [sqlcipher_mem_malloc], [sqlcipher_mem_free] and [sqlcipher_mem_realloc] stand between
    SQLite and its memory methods. With [cipher_memory_security] on they overwrite every
    block with generator output before it is given back, and replace the system's realloc.

    The memory methods that were configured before are the record [mem_methods]: which
    address, and with what contents, an allocation gets. The memory is a finite map from
    address to the bytes of the block ([xSize] is their number). [m_freed] records, for
    every block handed to [xFree], its contents at that moment, the last one first.

    [secure_memory_refines]: under any sequence of calls the blocks hold what the program
    wrote to them, and nothing the program wrote is left in a block that is given back. *)

From stdpp Require Import list gmap.
From S2P Require Import Prelude CipherUtil PrivateHeap.
Import Xoshiro PrivateHeap.
Local Open Scope Z_scope.

Module MemSecurity.

Abbreviation blocks := (gmap Z bytes).

(** [default_mem_methods]; [xFree] removes a block, [xSize] is the length of its bytes. *)
Record mem_methods := MemMethods {
  xMalloc : blocks -> Z -> option (Z * bytes);
  xRealloc : blocks -> Z -> Z -> Z * blocks
}.

(** What an allocator promises: a new block of at least the size asked for. *)
Definition xMalloc_ok (mm : mem_methods) : Prop :=
  forall m n p b, xMalloc mm m n = Some (p, b) ->
    p <> NULL /\ m !! p = None /\ n <= len b < 2 ^ 31.

Record memory := Memory {
  m_blocks : blocks;
  m_rng : xoshiro;
  m_freed : list (Z * bytes);
  sqlcipher_mem_security_on : bool;
  sqlcipher_mem_executed : bool;
  sqlcipher_mem_initialized : bool
}.

Definition with_blocks b (s : memory) : memory :=
  Memory b (m_rng s) (m_freed s) (sqlcipher_mem_security_on s) (sqlcipher_mem_executed s)
    (sqlcipher_mem_initialized s).
Definition with_rng r (s : memory) : memory :=
  Memory (m_blocks s) r (m_freed s) (sqlcipher_mem_security_on s) (sqlcipher_mem_executed s)
    (sqlcipher_mem_initialized s).
Definition executed (s : memory) : memory :=
  Memory (m_blocks s) (m_rng s) (m_freed s) (sqlcipher_mem_security_on s) true
    (sqlcipher_mem_initialized s).

(** [default_mem_methods.xFree(p)] *)
Definition xFree (p : Z) (s : memory) : option memory :=
  let? b := m_blocks s !! p in
  Some (Memory (delete p (m_blocks s)) (m_rng s) ((p, b) :: m_freed s)
          (sqlcipher_mem_security_on s) (sqlcipher_mem_executed s) (sqlcipher_mem_initialized s)).

(** Locking the pages of the block does not change it. *)
Definition sqlcipher_mem_malloc (mm : mem_methods) (n : Z) (s : memory) : Z * memory :=
  match xMalloc mm (m_blocks s) n with
  | Some (p, b) => (p, executed (with_blocks (<[p := b]> (m_blocks s)) s))
  | None => (NULL, executed s)
  end.

Definition sqlcipher_mem_size (p : Z) (s : memory) : option Z :=
  let? b := m_blocks s !! p in Some (len b).

Definition sqlcipher_mem_free (addr p : Z) (s : memory) : option memory :=
  let s := executed s in
  let? s :=
    (if sqlcipher_mem_security_on s then
       let? sz := sqlcipher_mem_size p s in
       let? b := m_blocks s !! p in
       let '(noise, rng) := xoshiro_randomness addr (m_rng s) sz in
       let? b := mem_write b 0 noise in
       Some (with_rng rng (with_blocks (<[p := b]> (m_blocks s)) s))
     else Some s) in
  xFree p s.

(** The copy [memcpy(new, p, orig_sz)] *)
Definition copy_block (new p n : Z) (s : memory) : option memory :=
  let? src := m_blocks s !! p in
  let? d := mem_read src 0 n in
  let? dst := m_blocks s !! new in
  let? dst := mem_write dst 0 d in
  Some (with_blocks (<[new := dst]> (m_blocks s)) s).

Definition sqlcipher_mem_realloc (mm : mem_methods) (addr p n : Z) (s : memory)
  : option (Z * memory) :=
  if sqlcipher_mem_security_on s then
    if p =? NULL then Some (sqlcipher_mem_malloc mm n s) else
    let? orig_sz := sqlcipher_mem_size p s in
    if n =? 0 then let? s := sqlcipher_mem_free addr p s in Some (NULL, s)
    else if n <=? orig_sz then Some (p, s)
    else
      let '(new, s) := sqlcipher_mem_malloc mm n s in
      if new =? NULL then Some (NULL, s) else
      let? s := copy_block new p orig_sz s in
      let? s := sqlcipher_mem_free addr p s in
      Some (new, s)
  else
    let '(q, b) := xRealloc mm (m_blocks s) p n in Some (q, with_blocks b s).

(** [getmalloc] and [setmalloc] are the return codes of the two calls of sqlite3_config. *)
Definition sqlcipher_init_memmethods (getmalloc setmalloc : Z) (s : memory) : memory :=
  if sqlcipher_mem_initialized s then s else
  if (getmalloc <>? SQLITE_OK) || (setmalloc <>? SQLITE_OK)
  then Memory (m_blocks s) (m_rng s) (m_freed s) false false false
  else Memory (m_blocks s) (m_rng s) (m_freed s) (sqlcipher_mem_security_on s)
         (sqlcipher_mem_executed s) true.

(** ** Calls of a program *)

(** A program allocates, stores bytes in its blocks, resizes them and gives them back. *)
Inductive mem_op :=
| OpMalloc (n : Z)
| OpStore (p off : Z) (d : bytes)
| OpRealloc (p n : Z)
| OpFree (p : Z).

Definition mem_step (mm : mem_methods) (addr : Z) (op : mem_op) (s : memory)
  : option (Z * memory) :=
  match op with
  | OpMalloc n => Some (sqlcipher_mem_malloc mm n s)
  | OpStore p off d =>
      let? b := m_blocks s !! p in
      let? b := mem_write b off d in
      Some (p, with_blocks (<[p := b]> (m_blocks s)) s)
  | OpRealloc p n => sqlcipher_mem_realloc mm addr p n s
  | OpFree p => let? s := sqlcipher_mem_free addr p s in Some (NULL, s)
  end.

(** The program keeps to the interface: it names blocks that are allocated, stores within
    their bounds, and asks for sizes of an [int]. *)
Definition op_allowed (op : mem_op) (s : memory) : Prop :=
  match op with
  | OpMalloc n => 0 <= n < 2 ^ 31
  | OpStore p off d => exists b, m_blocks s !! p = Some b /\ 0 <= off /\ off + len d <= len b
  | OpRealloc p n => 0 <= n < 2 ^ 31 /\ (p = NULL \/ is_Some (m_blocks s !! p))
  | OpFree p => is_Some (m_blocks s !! p)
  end.

(** An allocation: null and nothing changed, or a new block of at least [n] bytes. *)
Definition allocated (n r : Z) (m m' : blocks) : Prop :=
  (r = NULL /\ m' = m) \/
  (r <> NULL /\ m !! r = None /\ exists b, n <= len b /\ m' = <[r := b]> m).

(** A block [b] at [p] resized to [n > 0] bytes: refused, left where it is, or moved with
    its contents. *)
Definition resized (b : bytes) (n p r : Z) (m m' : blocks) : Prop :=
  (r = NULL /\ len b < n /\ m' = m) \/
  (r = p /\ n <= len b /\ m' = m) \/
  (r <> NULL /\ m !! r = None /\ exists b', n <= len b' /\ take (length b) b' = b /\
     m' = <[r := b']> (delete p m)).

(** What the call promises, for the blocks before and after it. *)
Definition op_spec (op : mem_op) (r : Z) (m m' : blocks) : Prop :=
  match op with
  | OpMalloc n => allocated n r m m'
  | OpStore p off d => r = p /\ exists b b', m !! p = Some b /\ mem_write b off d = Some b' /\
      m' = <[p := b']> m
  | OpRealloc p n =>
      if p =? NULL then allocated n r m m'
      else if n =? 0 then r = NULL /\ m' = delete p m
      else exists b, m !! p = Some b /\ resized b n p r m m'
  | OpFree p => r = NULL /\ m' = delete p m
  end.

(** Generator output, of the length of the block. *)
Definition is_noise (addr : Z) (b : bytes) : Prop :=
  exists rng, b = (xoshiro_randomness addr rng (len b)).1.

(** ** Lemmas *)

Record mem_inv (addr : Z) (s : memory) : Prop := {
  mi_on : sqlcipher_mem_security_on s = true;
  mi_null : m_blocks s !! NULL = None;
  mi_len : forall p b, m_blocks s !! p = Some b -> len b < 2 ^ 31;
  mi_freed : Forall (fun f : Z * bytes => is_noise addr f.2) (m_freed s)
}.

Section Secure.
Context (mm : mem_methods) (Hmm : xMalloc_ok mm) (addr : Z).

Lemma mem_malloc_spec n s : mem_inv addr s ->
  exists r s', sqlcipher_mem_malloc mm n s = (r, s') /\ mem_inv addr s' /\
    ((r = NULL /\ m_blocks s' = m_blocks s) \/
     (r <> NULL /\ m_blocks s !! r = None /\ exists b, n <= len b /\ len b < 2 ^ 31 /\
        m_blocks s' = <[r := b]> (m_blocks s))).
Proof.
  intros [H1 H2 H3 H4]. unfold sqlcipher_mem_malloc.
  destruct (xMalloc mm (m_blocks s) n) as [[p b]|] eqn:E.
  - destruct (Hmm _ _ _ _ E) as (Hp & Hf & Hb). do 2 eexists. split; [done|]. split.
    + constructor; simpl; try done.
      * by rewrite lookup_insert_ne.
      * intros q c. destruct (decide (q = p)) as [-> | Hq].
        -- rewrite lookup_insert_eq. intros [= <-]. lia.
        -- rewrite lookup_insert_ne by done. apply H3.
    + right. split_and!; [done..|]. exists b. split_and!; [lia|lia|done].
  - do 2 eexists. split; [done|]. split; [by constructor|by left].
Qed.

Lemma mem_free_spec p s : mem_inv addr s -> is_Some (m_blocks s !! p) ->
  exists s', sqlcipher_mem_free addr p s = Some s' /\ mem_inv addr s' /\
    m_blocks s' = delete p (m_blocks s).
Proof.
  intros [H1 H2 H3 H4] [b Eb]. unfold sqlcipher_mem_free, sqlcipher_mem_size, executed.
  cbn [sqlcipher_mem_security_on m_blocks m_rng]. rewrite H1, Eb.
  destruct (xoshiro_randomness addr (m_rng s) (len b)) as [noise rng] eqn:Ex.
  pose proof (xoshiro_randomness_length addr (m_rng s) (len b) ltac:(lia)) as Hx.
  rewrite Ex in Hx. simpl in Hx. rewrite mem_write_total by lia.
  unfold xFree. cbn [with_rng with_blocks m_blocks]. rewrite lookup_insert_eq.
  eexists. split; [done|]. split; [|by simpl; rewrite delete_insert_eq].
  constructor; simpl; try done.
  - rewrite delete_insert_eq, lookup_delete_ne; [done|]. intros ->. by rewrite H2 in Eb.
  - intros q c. rewrite delete_insert_eq. intros [_ Hq]%lookup_delete_Some. by eapply H3.
  - apply list.Forall_cons. split; [|done]. simpl. exists (m_rng s).
    rewrite drop_ge, app_nil_r by lia. by rewrite Hx, Ex.
Qed.

Lemma copy_block_spec new p b d s :
  m_blocks s !! p = Some b -> m_blocks s !! new = Some d -> len b <= len d ->
  exists d', copy_block new p (len b) s = Some (with_blocks (<[new := d']> (m_blocks s)) s) /\
    len d' = len d /\ take (length b) d' = b.
Proof.
  intros Eb Ed Hl. unfold copy_block. rewrite Eb, Ed.
  assert (Er : mem_read b 0 (len b) = Some b).
  { rewrite mem_read_total by lia. rewrite drop_0, take_ge by lia. done. }
  rewrite Er. rewrite mem_write_total by lia. eexists. split; [done|].
  simpl. rewrite length_app, length_drop. split; [lia|]. apply take_app_length.
Qed.

Lemma mem_step_spec op s : mem_inv addr s -> op_allowed op s ->
  exists r s', mem_step mm addr op s = Some (r, s') /\ mem_inv addr s' /\
    op_spec op r (m_blocks s) (m_blocks s').
Proof.
  intros W Ho. pose proof W as [H1 H2 H3 H4]. destruct op as [n|p off d|p n|p]; cbn [op_allowed mem_step op_spec] in *.
  - destruct (mem_malloc_spec n s W) as (r & s' & -> & W' & Hc). do 2 eexists. split; [done|].
    split; [done|]. destruct Hc as [?|(? & ? & b & ? & _ & ?)]; [by left|]. right. eauto.
  - destruct Ho as (b & Eb & Hoff & Hlen). rewrite Eb.
    destruct (mem_write b off d) as [b'|] eqn:Ew; [|rewrite mem_write_total in Ew by lia; done].
    do 2 eexists. split; [done|]. split; [|by split; [|exists b, b']].
    pose proof (mem_write_length _ _ _ _ Ew) as Hw.
    constructor; simpl; try done.
    + rewrite lookup_insert_ne; [done|]. intros ->. by rewrite H2 in Eb.
    + intros q c. destruct (decide (q = p)) as [-> | Hq].
      * rewrite lookup_insert_eq. intros [= <-]. pose proof (H3 _ _ Eb). lia.
      * rewrite lookup_insert_ne by done. apply H3.
  - destruct Ho as [Hn Hp]. unfold sqlcipher_mem_realloc. rewrite H1.
    destruct (Z.eqb_spec p NULL) as [->|Hp0].
    { destruct (mem_malloc_spec n s W) as (r & s' & -> & W' & Hc). do 2 eexists. split; [done|].
      split; [done|]. destruct Hc as [?|(? & ? & b & ? & _ & ?)]; [by left|]. right. eauto. }
    destruct Hp as [?|[b Eb]]; [done|]. unfold sqlcipher_mem_size at 1. rewrite Eb.
    destruct (Z.eqb_spec n 0) as [->|Hn0].
    { destruct (mem_free_spec p s W) as (s' & -> & W' & Em); [by eauto|]. do 2 eexists.
      split; [done|]. by split. }
    destruct (Z.leb_spec n (len b)) as [Hle|Hgt].
    { do 2 eexists. split; [done|]. split; [done|]. exists b. split; [done|]. by right; left. }
    destruct (mem_malloc_spec n s W) as (r & s1 & -> & W1 & Hc).
    destruct Hc as [[-> Em]|(Hr0 & Hf & d & Hd & Hd2 & Em)].
    { cbn [Z.eqb NULL]. do 2 eexists. split; [done|]. split; [done|]. exists b. split; [done|]. by left. }
    rewrite (proj2 (Z.eqb_neq _ _) Hr0).
    assert (Hrp : r <> p) by (intros ->; by rewrite Eb in Hf).
    destruct (copy_block_spec r p b d s1) as (d' & -> & Hl & Ht);
      [by rewrite Em, lookup_insert_ne|by rewrite Em, lookup_insert_eq|lia|].
    destruct (mem_free_spec p (with_blocks (<[r := d']> (m_blocks s1)) s1)) as (s2 & -> & W2 & Em2).
    + destruct W1 as [V1 V2 V3 V4]. constructor; simpl; try done.
      * by rewrite lookup_insert_ne.
      * intros q c. destruct (decide (q = r)) as [-> | Hq].
        -- rewrite lookup_insert_eq. intros [= <-]. lia.
        -- rewrite lookup_insert_ne by done. apply V3.
    + simpl. rewrite lookup_insert_ne, Em, lookup_insert_ne by done. by eauto.
    + do 2 eexists. split; [done|]. split; [done|]. exists b. split; [done|]. right. right. split_and!; [done..|].
      exists d'. split_and!; [lia|done|]. rewrite Em2. simpl.
      rewrite Em, insert_insert_eq, delete_insert_ne; done.
  - destruct (mem_free_spec p s W Ho) as (s' & -> & W' & Em). do 2 eexists. split; [done|]. by split.
Qed.

(** A state the program reaches with memory security on. *)
Inductive mem_reachable : memory -> Prop :=
| mr_init m rng exe ini :
    m !! NULL = None -> (forall p b, m !! p = Some b -> len b < 2 ^ 31) ->
    mem_reachable (Memory m rng [] true exe ini)
| mr_step op s r s' :
    mem_reachable s -> op_allowed op s -> mem_step mm addr op s = Some (r, s') -> mem_reachable s'.

Lemma mem_reachable_inv s : mem_reachable s -> mem_inv addr s.
Proof.
  induction 1 as [m rng exe ini H1 H2|op s r s' _ IH Ho E]; [by constructor|].
  destruct (mem_step_spec op s IH Ho) as (r1 & s1 & E1 & W & _). by rewrite E1 in E; simplify_eq.
Qed.

(** C36: with memory security on, and whatever memory allocator SQLite was configured with, each
    allocation, store, resize and release of a program returns and does to the blocks what
    its interface says: a resize leaves the block where it is, moves it with its contents,
    or fails and leaves it alone. Every block that was given back to the allocator, by a
    release or a resize, held generator output at that moment. *)
Theorem secure_memory_refines s op :
  mem_reachable s -> op_allowed op s ->
  exists r s', mem_step mm addr op s = Some (r, s') /\ mem_reachable s' /\
    op_spec op r (m_blocks s) (m_blocks s') /\
    Forall (fun f : Z * bytes => is_noise addr f.2) (m_freed s').
Proof.
  intros R Ho. destruct (mem_step_spec op s (mem_reachable_inv s R) Ho) as (r & s' & E & W & Hs).
  exists r, s'. split_and!; [done|by eapply mr_step|done|apply W].
Qed.
End Secure.

(** ** Witness *)

(** An allocator with a single place to answer. *)
Definition demo_methods : mem_methods :=
  MemMethods (fun m n => if bool_decide (n < 1000 /\ m !! 64 = None) && (0 <=? n)
                         then Some (64, replicate (Z.to_nat n) 0) else None)
             (fun m p n => (NULL, m)).

Lemma demo_methods_ok : xMalloc_ok demo_methods.
Proof.
  intros m n p b. simpl. case_bool_decide as Hn; [|done]. case_cond; [|done]. intros [= <- <-].
  rewrite length_replicate. destruct Hn. split_and!; [done|done|lia|lia].
Qed.

Definition demo_memory : memory := Memory {[32 := [1; 2; 3]]} (Xo 1 2 3 4) [] true true true.

(** The block of three bytes grows to ten and moves. *)
Lemma secure_memory_refines_witness : exists r s',
  mem_step demo_methods 0 (OpRealloc 32 10) demo_memory = Some (r, s') /\
  op_spec (OpRealloc 32 10) r {[32 := [1; 2; 3]]} (m_blocks s') /\
  Forall (fun f : Z * bytes => is_noise 0 f.2) (m_freed s') /\ r = 64 /\ length (m_freed s') = 1%nat.
Proof.
  destruct (secure_memory_refines demo_methods demo_methods_ok 0 demo_memory (OpRealloc 32 10))
    as (r & s' & E & _ & Hs & Hf).
  - apply mr_init; [done|]. intros p b [<- <-]%lookup_singleton_Some. done.
  - split; [lia|]. right. by exists [1; 2; 3].
  - exists r, s'. split_and!; try done; vm_compute in E; by injection E as <- <-.
Defined.
End MemSecurity.
