(* ===== verification/CodecKey.v ===== *)
(** * Key derivation: safety, results, and the key specification round trip

    Theorems about [sqlcipher_cipher_ctx_key_derive], [sqlcipher_codec_key_derive] and
    [sqlcipher_cipher_ctx_get_keyspec]. A derivation only touches the salts, the
    HAS_KDF_SALT flag, the provider's state and the key buffers ([salted], [keeps]). *)

From S2P Require Import Prelude CipherUtil UtilStr CodecCtx Demo CodecCrypto CodecPage CodecInv.
Import Hex MemOps Xoshiro.

(** ** Buffers that keep their allocation *)

(** [b'] is the allocation [b], with [n] bytes in it. *)
Definition keeps (n : Z) (b b' : option buf) : Prop :=
  buf_wf n b' /\ b_ptr <$> b' = b_ptr <$> b.

Lemma keeps_refl n b : buf_wf n b -> keeps n b b.
Proof. done. Qed.
Lemma keeps_trans n b1 b2 b3 : keeps n b1 b2 -> keeps n b2 b3 -> keeps n b1 b3.
Proof. intros [? ?] [? ?]. split; [done|congruence]. Qed.
Lemma keeps_wf n b b' : keeps n b b' -> buf_wf n b'.
Proof. by intros []. Qed.

Lemma keeps_data n b d : buf_wf n (Some b) -> length d = length (b_data b) ->
  keeps n (Some b) (Some (Buf (b_ptr b) d)).
Proof.
  intros (b' & [= <-] & Hl) Hd. split; [|done]. eexists. split; [done|]. simpl. lia.
Qed.

Lemma keeps_opt_alloc n b b' m : keeps n b b' -> opt_alloc b' m = opt_alloc b m.
Proof. intros [_ E]. by apply opt_alloc_ptr. Qed.

(** ** The form of a passphrase *)

(** The passphrase is a BLOB literal: x or X, quote, an even number of hexadecimal
    digits, quote. *)
Definition is_blob (pb : bytes) : bool :=
  (5 <=? len pb) && (UpperToLower (pb !!! 0%nat) =? 120) &&
  (UpperToLower (pb !!! 1%nat) =? 39) && (pb !!! (length pb - 1)%nat =? 39) &&
  (Z.rem (len pb - 3) 2 =? 0) && forallb hexchar (take (length pb - 3) (drop 2 pb)).

Lemma strnicmp_blob (a : bytes) :
  (2 <= length a)%nat ->
  exists d, sqlite3_strnicmp (Some a) (Some [120; 39; 0]) 2 = Some d /\
    (d =? 0) = (UpperToLower (a !!! 0%nat) =? 120) && (UpperToLower (a !!! 1%nat) =? 39).
Proof.
  intros Ha. destruct a as [|c0 [|c1 a]]; simpl in Ha; try lia.
  unfold sqlite3_strnicmp. change (Z.to_nat 2) with 2%nat. cbn [strnicmp_loop].
  change (UpperToLower 120) with 120. change (UpperToLower 39) with 39.
  assert (Hz : forall c t, t <> 0 -> (c <>? 0) && (UpperToLower c =? t) = (UpperToLower c =? t)).
  { intros c t Ht. destruct (Z.eqb_spec c 0) as [->|]; [|done].
    symmetry. apply Z.eqb_neq. by change (UpperToLower 0) with 0. }
  rewrite !Hz by done.
  destruct (Z.eqb_spec (UpperToLower c0) 120) as [E0|E0]; simpl.
  - rewrite E0. destruct (Z.eqb_spec (UpperToLower c1) 39) as [E1|E1]; eexists;
      (split; [done|]); [done|]. apply Z.eqb_neq. lia.
  - rewrite (proj2 (Z.eqb_neq _ _) E0). eexists. split; [done|]. apply Z.eqb_neq. lia.
Qed.

Lemma blob_format_spec c pb :
  len pb = pass_sz c -> blob_format c pb = Some (is_blob pb).
Proof.
  intros Hl. unfold blob_format, is_blob. rewrite <- Hl.
  destruct (Z.leb_spec 5 (len pb)) as [H5|H5]; cbn [negb andb]; [|done].
  destruct (strnicmp_blob pb) as (d & E & Hd); [lia|].
  rewrite E. destruct (d =? 0); cbn [negb andb]; symmetry in Hd.
  2:{ by rewrite Hd. }
  rewrite Hd. cbn [negb andb].
  replace (len pb - 1) with (Z.of_nat (length pb - 1)) by lia.
  rewrite mem_get_nat, (list_lookup_lookup_total_lt pb) by lia.
  destruct (pb !!! (length pb - 1)%nat =? 39); cbn [negb andb]; [|done].
  destruct (Z.rem (len pb - 3) 2 =? 0) eqn:Er; cbn [negb andb]; [|done].
  unfold ptr_at. rewrite (proj2 (Z.leb_le 2 (len pb))) by lia. cbn [Z.leb Z.compare andb].
  replace (len pb - 3) with (Z.of_nat (length pb - 3)) by lia.
  rewrite cipher_isHex_spec by (rewrite length_drop; lia).
  change (Z.to_nat 2) with 2%nat. by destruct (forallb _ _).
Qed.

Lemma hex_into_spec pb off n (b : option buf) :
  buf_wf n b -> 0 <= off -> 0 <= n -> off + n * 2 <= len pb ->
  exists b', hex_into pb off (n * 2) b = Some b' /\ keeps n b b' /\
    b_data <$> b' = Some (hex_decode (take (Z.to_nat (n * 2)) (drop (Z.to_nat off) pb))).
Proof.
  intros (bb & -> & Hl) Ho Hn Hp. unfold hex_into, ptr_at.
  rewrite !(proj2 (Z.leb_le _ _)) by lia. simpl.
  replace (n * 2) with (Z.of_nat (2 * Z.to_nat n)) by lia.
  rewrite cipher_hex2bin_spec by (rewrite ?length_drop; lia).
  rewrite (drop_ge (b_data bb)), app_nil_r, Nat2Z.id by lia.
  eexists. split; [done|]. split; [|done]. apply keeps_data; [by eexists|].
  rewrite (length_hex_decode (Z.to_nat n)); [lia|].
  rewrite length_take, length_drop. lia.
Qed.

(** ** Derivation of one cipher context *)

Section Derive.
Context {A : Type} `{AllocatorOk A} {P : provider} `{!ProviderOk P} (G : globals).
Abbreviation ctx_t := (codec_ctx P).
Abbreviation mask := (sqlcipher_shield_mask G).
Context (mask_nonempty : mask <> []).

(** The file header that the B-tree answers fits the salt. *)
Definition header_read_ok (bt : btree) : Prop :=
  match bt_header bt with Some (_, hd) => len hd <= FILE_HEADER_SZ | None => True end.

(** The context after a change of salts, flag and provider state. *)
Definition resalt (ctx : ctx_t) (s hs : option buf) (f : Z) (pc : option (pv_ctx P)) : ctx_t :=
  set_provider_ctx pc (set_flags f (set_hmac_kdf_salt hs (set_kdf_salt s ctx))).

Definition salted (ctx ctx' : ctx_t) : Prop :=
  exists s hs f pc, ctx' = resalt ctx s hs f pc /\
    keeps (kdf_salt_sz ctx) (kdf_salt ctx) s /\
    keeps (kdf_salt_sz ctx) (hmac_kdf_salt ctx) hs /\ is_Some pc /\
    (f = flags ctx \/ f = FLAG_SET (flags ctx) CIPHER_FLAG_HAS_KDF_SALT).

Lemma resalt_self (ctx : ctx_t) :
  ctx = resalt ctx (kdf_salt ctx) (hmac_kdf_salt ctx) (flags ctx) (provider_ctx ctx).
Proof. by destruct ctx. Qed.

Lemma salted_refl (ctx : ctx_t) : base_wf ctx -> salted ctx ctx.
Proof.
  intros []. do 4 eexists. split; [apply resalt_self|]. split_and!; try done; by left.
Qed.

Lemma flag_set_idem f b : FLAG_SET (FLAG_SET f b) b = FLAG_SET f b.
Proof. unfold FLAG_SET. by rewrite <- Z.lor_assoc, Z.lor_diag. Qed.

Lemma salted_trans (a b c : ctx_t) : salted a b -> salted b c -> salted a c.
Proof.
  intros (s1 & h1 & f1 & p1 & -> & K1 & K1' & _ & F1) (s2 & h2 & f2 & p2 & -> & K2 & K2' & P2 & F2).
  exists s2, h2, f2, p2. simpl in *.
  split_and!; [done|by eapply keeps_trans..|done|].
  destruct F1 as [-> | ->], F2 as [-> | ->]; rewrite ?flag_set_idem; auto.
Qed.

Lemma salted_base (ctx ctx' : ctx_t) : salted ctx ctx' -> base_wf ctx -> base_wf ctx'.
Proof. intros (s & hs & f & pc & -> & [] & [] & ? & _) []. by split. Qed.

Lemma salted_allocs (ctx ctx' : ctx_t) p :
  salted ctx ctx' -> codec_allocs p ctx' = codec_allocs p ctx.
Proof.
  intros (s & hs & f & pc & -> & K & K' & _). unfold codec_allocs. simpl.
  by rewrite (keeps_opt_alloc _ _ _ _ K), (keeps_opt_alloc _ _ _ _ K').
Qed.

Lemma salted_hmac (ctx ctx' : ctx_t) : salted ctx ctx' ->
  FLAG_GET (flags ctx') CIPHER_FLAG_HMAC = FLAG_GET (flags ctx) CIPHER_FLAG_HMAC.
Proof.
  intros (s & hs & f & pc & -> & _ & _ & _ & [-> | ->]); simpl; [done|].
  by autorewrite with cflags.
Qed.

Lemma salted_wf (ctx ctx' : ctx_t) : salted ctx ctx' -> codec_wf ctx -> codec_wf ctx'.
Proof.
  intros S [Hb Hh Hr Hp Rd Wr]. pose proof (salted_base _ _ S Hb) as Hb'.
  pose proof (salted_hmac _ _ S) as Hf. destruct S as (s & hs & f & pc & -> & _).
  split; try done. unfold reserve_for in *. simpl in *. by rewrite Hf.
Qed.

(** A change of the salt alone. *)
Lemma salted_salt (ctx : ctx_t) s f pc : base_wf ctx ->
  keeps (kdf_salt_sz ctx) (kdf_salt ctx) s -> is_Some pc ->
  (f = flags ctx \/ f = FLAG_SET (flags ctx) CIPHER_FLAG_HAS_KDF_SALT) ->
  salted ctx (set_provider_ctx pc (set_flags f (set_kdf_salt s ctx))).
Proof.
  intros [] K Hp Hf. exists s, (hmac_kdf_salt ctx), f, pc. by destruct ctx.
Qed.

Lemma init_kdf_salt_spec (ctx : ctx_t) :
  base_wf ctx -> header_read_ok (pBt ctx) ->
  exists rc ctx', sqlcipher_codec_ctx_init_kdf_salt ctx = Some (rc, ctx') /\
    salted ctx ctx' /\ (rc = SQLITE_OK \/ rc = SQLITE_ERROR) /\
    (rc = SQLITE_OK -> FLAG_GET (flags ctx') CIPHER_FLAG_HAS_KDF_SALT = true).
Proof.
  intros Hb Hh. unfold sqlcipher_codec_ctx_init_kdf_salt.
  destruct (FLAG_GET (flags ctx) CIPHER_FLAG_HAS_KDF_SALT) eqn:Ef.
  { do 2 eexists. split; [done|]. split; [by apply salted_refl|]. by auto. }
  destruct (bw_salt _ Hb) as (b & Eb & Hl). pose proof (bw_salt_sz _ Hb) as Hs.
  destruct (bw_prov _ Hb) as [pc Epc]. rewrite Eb.
  assert (Hd : exists ok d, (match bt_header (pBt ctx) with
     | None => Some (false, b_data b)
     | Some (rc, hd) => let? d := mem_write (b_data b) 0 hd in Some (rc =? SQLITE_OK, d)
     end) = Some (ok, d) /\ length d = length (b_data b)).
  { unfold header_read_ok in Hh. destruct (bt_header (pBt ctx)) as [[rc hd]|]; [|by do 2 eexists].
    destruct (mem_write (b_data b) 0 hd) as [d|] eqn:Ew;
      [|rewrite mem_write_total in Ew by lia; done].
    do 2 eexists. split; [done|]. by eapply mem_write_length. }
  destruct Hd as (ok & d & -> & Hld).
  assert (Hk : forall d', length d' = length (b_data b) ->
    keeps (kdf_salt_sz ctx) (kdf_salt ctx) (Some (Buf (b_ptr b) d'))).
  { intros d' Hd'. rewrite Eb. apply keeps_data; [by eexists|done]. }
  destruct ok.
  { do 2 eexists. split; [done|]. split; [|simpl; autorewrite with cflags; auto].
    eapply (salted_salt ctx _ _ (provider_ctx ctx)) in Hb; [|by apply Hk|by eexists|by right].
    by destruct ctx. }
  rewrite Epc. destruct (pv_random P pc (kdf_salt_sz ctx)) as [[rc rnd] pc'] eqn:Er.
  destruct (pv_random_ok pc (kdf_salt_sz ctx) rc rnd pc') as (_ & Hrl & _); [lia|done|].
  destruct (mem_write d 0 rnd) as [d2|] eqn:Ew; [|rewrite mem_write_total in Ew by lia; done].
  apply mem_write_length in Ew.
  destruct (Z.eqb_spec rc SQLITE_OK) as [->|Hrc]; simpl;
    (do 2 eexists; split; [done|]; split;
      [|simpl; autorewrite with cflags; by auto || (split; [by right|done])]).
  - pose proof (salted_salt ctx (Some (Buf (b_ptr b) d2))
      (FLAG_SET (flags ctx) CIPHER_FLAG_HAS_KDF_SALT) (Some pc') Hb) as S.
    apply S; [apply Hk; congruence|by eexists|by right].
  - pose proof (salted_salt ctx (Some (Buf (b_ptr b) d2)) (flags ctx) (Some pc') Hb) as S.
    specialize (S (Hk d2 ltac:(congruence)) ltac:(by eexists) ltac:(by left)).
    by destruct ctx.
Qed.

(** The branch of a passphrase that goes through the KDF. *)
Lemma derive_kdf_spec (ctx : ctx_t) c pb :
  base_wf ctx -> buf_wf (key_sz ctx) (key c) -> buf_wf (key_sz ctx) (hmac_key c) ->
  len pb = pass_sz c ->
  exists rc want k hk s,
    (let? p := mem_read pb 0 (pass_sz c) in
     let? sb := kdf_salt ctx in
     let? s := mem_read (b_data sb) 0 (kdf_salt_sz ctx) in
     let? kb := key c in
     let '(rc, o) := pv_kdf P (kdf_algorithm ctx) p s (kdf_iter ctx) (key_sz ctx) in
     let? k := mem_write (b_data kb) 0 o in
     Some (rc, true, Some (Buf (b_ptr kb) k), hmac_key c, kdf_salt ctx)) =
    Some (rc, want, k, hk, s) /\
    keeps (key_sz ctx) (key c) k /\ keeps (key_sz ctx) (hmac_key c) hk /\
    keeps (kdf_salt_sz ctx) (kdf_salt ctx) s.
Proof.
  intros Hb (kb & Ek & Lk) Wh Hl. destruct (bw_salt _ Hb) as (sb & Es & Ls).
  assert (Hk : 0 < key_sz ctx) by (rewrite (bw_key _ Hb); apply pv_key_sz_ok).
  rewrite mem_read_all, Es, mem_read_all, Ek by done.
  destruct (pv_kdf _ _ _ _ _ _) as [rc o] eqn:Er.
  destruct (pv_kdf_ok (kdf_algorithm ctx) pb (b_data sb) (kdf_iter ctx) (key_sz ctx) rc o)
    as (_ & Ho & _); [lia|done|].
  destruct (mem_write (b_data kb) 0 o) as [k|] eqn:Ew;
    [|rewrite mem_write_total in Ew by lia; done].
  apply mem_write_length in Ew. do 5 eexists. split; [done|].
  split_and!; [by apply keeps_data; [eexists|]|done|].
  apply keeps_refl. by eexists.
Qed.

(** The three sizes a BLOB passphrase can have. *)
Lemma derive_main_spec (ctx : ctx_t) c pb :
  base_wf ctx -> cipher_wf (key_sz ctx) c -> len pb = pass_sz c ->
  exists rc want k hk s, derive_main ctx c pb = Some (rc, want, k, hk, s) /\
    keeps (key_sz ctx) (key c) k /\ keeps (key_sz ctx) (hmac_key c) hk /\
    keeps (kdf_salt_sz ctx) (kdf_salt ctx) s.
Proof.
  intros Hb [Wk Wh]%cipher_wf_bufs Hl. pose proof (bw_salt _ Hb) as Ws.
  pose proof (bw_salt_sz _ Hb) as Hs. unfold FILE_HEADER_SZ in Hs.
  assert (Hk : 0 < key_sz ctx) by (rewrite (bw_key _ Hb); apply pv_key_sz_ok).
  unfold derive_main. rewrite blob_format_spec by done.
  destruct (is_blob pb); cbn [andb].
  2: destruct Wk as (kb & Ek & Lk), Ws as (sb & Es & Ls).
  - repeat case_cond.
    + destruct (hex_into_spec pb 2 (key_sz ctx) (key c)) as (k & -> & ? & _); [done|lia..|].
      do 5 eexists. split; [done|]. by split_and!.
    + destruct (hex_into_spec pb 2 (key_sz ctx) (key c)) as (k & -> & ? & _); [done|lia..|].
      destruct (hex_into_spec pb (2 + key_sz ctx * 2) (kdf_salt_sz ctx) (kdf_salt ctx))
        as (s & -> & ? & _); [done|lia..|].
      do 5 eexists. split; [done|]. by split_and!.
    + destruct (hex_into_spec pb 2 (key_sz ctx) (key c)) as (k & -> & ? & _); [done|lia..|].
      destruct (hex_into_spec pb (2 + key_sz ctx * 2) (key_sz ctx) (hmac_key c))
        as (hk & -> & ? & _); [done|lia..|].
      destruct (hex_into_spec pb (2 + key_sz ctx * 2 + key_sz ctx * 2) (kdf_salt_sz ctx)
        (kdf_salt ctx)) as (s & -> & ? & _); [done|lia..|].
      do 5 eexists. split; [done|]. by split_and!.
    + eapply derive_kdf_spec; done.
  - eapply derive_kdf_spec; try done; by eexists.
Qed.

Lemma mask_salt_spec n (s : bytes) :
  0 <= n -> len s = n ->
  mask_salt G n s = Some ((fun x => Z.lxor x (hmac_salt_mask G)) <$> s).
Proof.
  intros Hn Hl. unfold mask_salt. rewrite for_up_1, Z.sub_0_r.
  rewrite (for_map (const (fun x => Z.lxor x (hmac_salt_mask G)))).
  - rewrite take_ge, drop_ge, app_nil_r, imap_const by lia. done.
  - lia.
  - intros k t v Hk Ht Hv. rewrite mem_get_nat, Hv.
    apply mem_put_nat. lia.
Qed.

Lemma derive_hmac_spec (ctx : ctx_t) k hk salt :
  base_wf ctx -> buf_wf (key_sz ctx) k -> buf_wf (key_sz ctx) hk ->
  buf_wf (kdf_salt_sz ctx) salt ->
  exists rc hs hk', derive_hmac G ctx k hk salt = Some (rc, hs, hk') /\
    keeps (kdf_salt_sz ctx) (hmac_kdf_salt ctx) hs /\ keeps (key_sz ctx) hk hk'.
Proof.
  intros Hb (kb & -> & Lk) (hb & -> & Lh) Ws. unfold derive_hmac.
  assert (Hk : 0 < key_sz ctx) by (rewrite (bw_key _ Hb); apply pv_key_sz_ok).
  destruct (copy_buf_spec _ _ _ (bw_hsalt _ Hb) Ws) as (hs & -> & Hp & _ & Hl).
  rewrite mask_salt_spec by lia. rewrite mem_read_all by done.
  rewrite mem_read_all by (by rewrite length_fmap).
  destruct (pv_kdf _ _ _ _ _ _) as [rc o] eqn:Er.
  eapply pv_kdf_ok in Er as (_ & Ho & _); [|lia].
  destruct (mem_write (b_data hb) 0 o) as [d|] eqn:Ew;
    [|rewrite mem_write_total in Ew by lia; done].
  apply mem_write_length in Ew. do 3 eexists. split; [done|]. split.
  - split; [|done]. eexists. split; [done|]. simpl. by rewrite length_fmap.
  - apply keeps_data; [by eexists|done].
Qed.

Lemma scrub_buf_spec addr rng b n :
  0 <= n -> buf_wf n b ->
  exists b' rng', scrub_buf addr rng b n = Some (b', rng') /\ keeps n b b'.
Proof.
  intros Hn (t & -> & Hl). unfold scrub_buf.
  destruct (xoshiro_randomness addr rng n) as [noise rng'] eqn:E.
  pose proof (xoshiro_randomness_length addr rng n) as Hx. rewrite E in Hx. simpl in Hx.
  destruct (mem_write (b_data t) 0 noise) as [d|] eqn:Ew;
    [|rewrite mem_write_total in Ew by lia; done].
  apply mem_write_length in Ew. do 2 eexists. split; [done|].
  apply keeps_data; [by eexists|done].
Qed.

(** A cipher context in the same buffers, with the same passphrase. *)
Definition rekeyed (n : Z) (c c' : cipher_ctx) : Prop :=
  keeps n (key c) (key c') /\ keeps n (hmac_key c) (hmac_key c') /\
  pass c' = pass c /\ pass_sz c' = pass_sz c.

Lemma rekeyed_refl n c : cipher_wf n c -> rekeyed n c c.
Proof. intros [? ?]%cipher_wf_bufs. by split_and!. Qed.
Lemma rekeyed_wf n c c' : rekeyed n c c' -> cipher_wf n c' /\ same_bufs c' c.
Proof. intros ([? ?] & [? ?] & _). split; [by apply cipher_wf_bufs|done]. Qed.
Lemma rekeyed_pass n c c' : rekeyed n c c' -> pass_wf c -> pass_wf c'.
Proof. intros (_ & _ & E1 & E2). unfold pass_wf. by rewrite E1, E2. Qed.

Lemma rekeyed_trans n a b c : rekeyed n a b -> rekeyed n b c -> rekeyed n a c.
Proof.
  intros (? & ? & ? & ?) (? & ? & ? & ?).
  split_and!; [by eapply keeps_trans..|congruence|congruence].
Qed.

Lemma derive_error_spec addr rng (ctx : ctx_t) c :
  0 <= key_sz ctx -> cipher_wf (key_sz ctx) c ->
  exists c' rng', derive_error addr rng ctx c = Some (SQLITE_ERROR, ctx, c', rng') /\
    rekeyed (key_sz ctx) c c'.
Proof.
  intros Hn [Wk Wh]%cipher_wf_bufs. unfold derive_error.
  destruct (scrub_buf_spec addr rng (key c) (key_sz ctx) Hn Wk) as (k' & rng' & -> & ?).
  destruct (scrub_buf_spec addr rng' (hmac_key c) (key_sz ctx) Hn Wh) as (h' & rng2 & -> & ?).
  do 2 eexists. split; [done|]. by split_and!.
Qed.

Lemma shield_buf_spec b n : 0 <= n -> buf_wf n b ->
  exists b', shield_buf G b n = Some b' /\ keeps n b b' /\
    b_data <$> b' = shielded mask <$> (b_data <$> b).
Proof.
  intros Hn (t & -> & Hl). unfold shield_buf.
  destruct (shield_roundtrip G mask_nonempty (b_data t) n Hl) as [-> _].
  eexists. split; [done|]. split; [|done].
  apply keeps_data; [by eexists|]. apply shielded_length.
Qed.

(** The outcome of a derivation: it always returns, with SQLITE_OK and a derived
    context, or with SQLITE_ERROR. *)
Definition derived (ctx : ctx_t) (c : cipher_ctx)
  (r : option (Z * ctx_t * cipher_ctx * xoshiro)) : Prop :=
  exists rc ctx' c' rng', r = Some (rc, ctx', c', rng') /\
    salted ctx ctx' /\ rekeyed (key_sz ctx) c c' /\
    (rc = SQLITE_OK /\ derive_key c' = 0 \/ rc = SQLITE_ERROR).

Lemma salted_key (ctx ctx' : ctx_t) : salted ctx ctx' -> key_sz ctx' = key_sz ctx.
Proof. by intros (? & ? & ? & ? & -> & _). Qed.

Lemma derived_error addr rng (ctx ctx1 : ctx_t) c c1 :
  0 <= key_sz ctx -> salted ctx ctx1 -> rekeyed (key_sz ctx) c c1 ->
  derived ctx c (derive_error addr rng ctx1 c1).
Proof.
  intros Hk S R. pose proof (salted_key _ _ S) as E.
  destruct (derive_error_spec addr rng ctx1 c1) as (c' & rng' & -> & Hr);
    rewrite E in *; [done|by apply rekeyed_wf in R as [? _]|].
  do 4 eexists. split; [done|]. split_and!; [done|by eapply rekeyed_trans|by right].
Qed.

Lemma salted_hsalt (ctx ctx1 : ctx_t) hs : base_wf ctx1 -> salted ctx ctx1 ->
  keeps (kdf_salt_sz ctx1) (hmac_kdf_salt ctx1) hs -> salted ctx (set_hmac_kdf_salt hs ctx1).
Proof.
  intros [] S K. eapply salted_trans; [exact S|].
  exists (kdf_salt ctx1), hs, (flags ctx1), (provider_ctx ctx1).
  split; [by destruct ctx1|]. split_and!; try done. by left.
Qed.

Lemma derive_finish_spec addr rng (ctx ctx1 : ctx_t) c c1 want :
  base_wf ctx1 -> salted ctx ctx1 -> rekeyed (key_sz ctx) c c1 ->
  derived ctx c (derive_finish G addr rng ctx1 c1 want (kdf_salt ctx1)).
Proof.
  intros Hb S R. pose proof (salted_key _ _ S) as E. unfold derive_finish.
  pose proof (rekeyed_wf _ _ _ R) as [[Wk Wh]%cipher_wf_bufs _]. rewrite <- E in Wk, Wh.
  assert (Hk : 0 < key_sz ctx1) by (rewrite (bw_key _ Hb); apply pv_key_sz_ok).
  assert (Hh : exists rc hs hk,
    (if FLAG_GET (flags ctx1) CIPHER_FLAG_HMAC && want
     then derive_hmac G ctx1 (key c1) (hmac_key c1) (kdf_salt ctx1)
     else Some (SQLITE_OK, hmac_kdf_salt ctx1, hmac_key c1)) = Some (rc, hs, hk) /\
    keeps (kdf_salt_sz ctx1) (hmac_kdf_salt ctx1) hs /\ keeps (key_sz ctx1) (hmac_key c1) hk).
  { case_cond.
    - by apply derive_hmac_spec; [| | |destruct Hb].
    - do 3 eexists. split; [done|]. destruct Hb. by split. }
  destruct Hh as (rc & hs & hk & -> & Ks & Kh).
  pose proof (salted_hsalt ctx ctx1 hs Hb S Ks) as S2.
  assert (R2 : rekeyed (key_sz ctx) c
    (CipherCtx (derive_key c1) (pass_sz c1) (key c1) hk (pass c1))).
  { eapply rekeyed_trans; [exact R|]. rewrite <- E. by split_and!. }
  destruct (Z.eqb_spec rc SQLITE_OK) as [->|Hrc]; cbn [negb];
    [|apply derived_error; [lia|done..]].
  simpl. destruct (shield_buf_spec (key c1) (key_sz ctx1)) as (k' & -> & Kk & _); [lia|done|].
  destruct (shield_buf_spec hk (key_sz ctx1)) as (h' & -> & Kh' & _); [lia|by eapply keeps_wf|].
  do 4 eexists. split; [done|]. split; [done|]. split; [|by left].
  eapply rekeyed_trans; [exact R2|]. rewrite <- E. by split_and!.
Qed.

Lemma key_derive_spec addr rng (ctx : ctx_t) c :
  base_wf ctx -> header_read_ok (pBt ctx) -> cipher_wf (key_sz ctx) c -> pass_wf c ->
  derived ctx c (sqlcipher_cipher_ctx_key_derive G addr rng ctx c).
Proof.
  intros Hb Hh Wc Hp.
  assert (Hk : 0 < key_sz ctx) by (rewrite (bw_key _ Hb); apply pv_key_sz_ok).
  unfold sqlcipher_cipher_ctx_key_derive.
  assert (Hrej : derived ctx c (Some (SQLITE_ERROR, ctx, c, rng))).
  { do 4 eexists. split; [done|]. auto using salted_refl, rekeyed_refl. }
  unfold pass_wf in Hp. destruct (pass c) as [pb|] eqn:Ep; [|done].
  destruct (Z.eqb_spec (pass_sz c) 0); [done|]. clear Hrej.
  assert (Hi : exists rc ctx1, (if negb (FLAG_GET (flags ctx) CIPHER_FLAG_HAS_KDF_SALT)
       then sqlcipher_codec_ctx_init_kdf_salt ctx else Some (SQLITE_OK, ctx)) = Some (rc, ctx1) /\
       salted ctx ctx1).
  { destruct (init_kdf_salt_spec ctx Hb Hh) as (rc & ctx1 & E & S & _).
    case_cond; do 2 eexists; (split; [done|]); [done|]. by apply salted_refl. }
  destruct Hi as (rc & ctx1 & -> & S1). pose proof (salted_base _ _ S1 Hb) as Hb1.
  destruct (Z.eqb_spec rc SQLITE_OK) as [->|Hrc]; cbn [negb];
    [|apply derived_error; [lia|done|by apply rekeyed_refl]].
  pose proof (salted_key _ _ S1) as E. rewrite <- E in Wc.
  destruct (derive_main_spec ctx1 c (b_data pb) Hb1 Wc) as (rc2 & want & k & hk & s & -> & Kk & Kh & Ks);
    [apply Hp|].
  assert (S2 : salted ctx (set_kdf_salt s ctx1)).
  { eapply salted_trans; [exact S1|].
    replace (set_kdf_salt s ctx1) with
      (set_provider_ctx (provider_ctx ctx1) (set_flags (flags ctx1) (set_kdf_salt s ctx1)))
      by (by destruct ctx1).
    apply salted_salt; [done|done|by destruct Hb1|by left]. }
  assert (R2 : rekeyed (key_sz ctx) c (CipherCtx (derive_key c) (pass_sz c) k hk (Some pb))).
  { rewrite <- E. by split_and!. }
  destruct (Z.eqb_spec rc2 SQLITE_OK) as [->|Hrc2]; cbn [negb].
  - eapply (derive_finish_spec addr rng ctx (set_kdf_salt s ctx1)); [|done..].
    by eapply salted_base.
  - apply derived_error; [lia|done..].
Qed.

(** ** Derivation of both contexts *)

(** A passphrase that is gone has size zero. *)
Definition pass_full (c : cipher_ctx) : Prop := pass_wf c /\ (pass c = None -> pass_sz c = 0).

Definition passes_full (ctx : ctx_t) : Prop :=
  (forall p c, read_ctx ctx = Some (p, c) -> pass_full c) /\
  (forall p c, write_ctx ctx = Some (p, c) -> pass_full c).

Definition same_pass (c1 c2 : cipher_ctx) : Prop :=
  pass_sz c1 = pass_sz c2 /\ pass_bytes c1 = pass_bytes c2.

Lemma cipher_ctx_cmp_spec c1 c2 :
  pass_full c1 -> pass_full c2 -> exists d, sqlcipher_cipher_ctx_cmp c1 c2 = Some d /\
    (same_pass c1 c2 -> d = 0).
Proof.
  intros [W1 F1] [W2 F2]. unfold sqlcipher_cipher_ctx_cmp, same_pass.
  destruct (Z.eqb_spec (pass_sz c1) (pass_sz c2)) as [E|E]; [|by exists 1; split; [|intros []]].
  case_decide; [by exists 0|].
  unfold pass_wf, pass_bytes in *.
  destruct (pass c1) as [b1|], (pass c2) as [b2|]; simpl in *; try done;
    try (rewrite F1 in E by done; lia); try (rewrite F2 in E by done; lia).
  destruct W1 as [L1 _], W2 as [L2 _].
  pose proof (sqlcipher_memcmp_spec (b_data b1) (b_data b2) (length (b_data b1))) as M.
  rewrite L1 in M. rewrite M by lia. eexists. split; [done|]. intros [_ Eb].
  rewrite decide_True; congruence.
Qed.

(** What a derivation leaves alone. *)
Record kd_frame (ctx ctx' : ctx_t) : Prop := {
  kf_page : page_sz ctx' = page_sz ctx;
  kf_header : plaintext_header_sz ctx' = plaintext_header_sz ctx;
  kf_error : error ctx' = error ctx;
  kf_bt : pBt ctx' = pBt ctx;
  kf_store : store_pass ctx' = store_pass ctx;
  kf_buffer : buffer ctx' = buffer ctx;
  kf_flags : flags ctx' = flags ctx \/ flags ctx' = FLAG_SET (flags ctx) CIPHER_FLAG_HAS_KDF_SALT
}.

Lemma kd_frame_refl ctx : kd_frame ctx ctx.
Proof. split; auto. Qed.
Lemma kd_frame_trans a b c : kd_frame a b -> kd_frame b c -> kd_frame a c.
Proof.
  intros [? ? ? ? ? ? F1] [? ? ? ? ? ? F2]. split; try congruence.
  destruct F1 as [F1|F1], F2 as [F2|F2]; rewrite F2, F1, ?flag_set_idem; auto.
Qed.
Lemma salted_frame (ctx ctx' : ctx_t) : salted ctx ctx' -> kd_frame ctx ctx'.
Proof. intros (s & hs & f & pc & -> & _ & _ & _ & Hf). by split. Qed.
Lemma salted_slots (ctx ctx' : ctx_t) : salted ctx ctx' ->
  read_ctx ctx' = read_ctx ctx /\ write_ctx ctx' = write_ctx ctx.
Proof. by intros (s & hs & f & pc & -> & _). Qed.

Lemma set_read_wf (ctx : ctx_t) p c :
  codec_wf ctx -> cipher_wf (key_sz ctx) c -> pass_wf c ->
  codec_wf (set_read_ctx (Some (p, c)) ctx).
Proof.
  intros [Hb ? ? ? ? ?] ? ?. split; try done; [by destruct Hb|by eexists _, _].
Qed.
Lemma set_write_wf (ctx : ctx_t) p c :
  codec_wf ctx -> cipher_wf (key_sz ctx) c -> pass_wf c ->
  codec_wf (set_write_ctx (Some (p, c)) ctx).
Proof.
  intros [Hb ? ? ? ? ?] ? ?. split; try done; [by destruct Hb|by eexists _, _].
Qed.

Lemma set_read_allocs (ctx : ctx_t) p q c c' : read_ctx ctx = Some (q, c) ->
  rekeyed (key_sz ctx) c c' ->
  codec_allocs p (set_read_ctx (Some (q, c')) ctx) = codec_allocs p ctx.
Proof.
  intros E (K & K' & E1 & E2). unfold codec_allocs. simpl. rewrite E. simpl.
  by rewrite (keeps_opt_alloc _ _ _ _ K), (keeps_opt_alloc _ _ _ _ K'), E1, E2.
Qed.
Lemma set_write_allocs (ctx : ctx_t) p q c c' : write_ctx ctx = Some (q, c) ->
  rekeyed (key_sz ctx) c c' ->
  codec_allocs p (set_write_ctx (Some (q, c')) ctx) = codec_allocs p ctx.
Proof.
  intros E (K & K' & E1 & E2). unfold codec_allocs. simpl. rewrite E. simpl.
  by rewrite (keeps_opt_alloc _ _ _ _ K), (keeps_opt_alloc _ _ _ _ K'), E1, E2.
Qed.

(** The state of the read context after the first half of [codec_key_derive]. *)
Definition read_derived (ctx : ctx_t) : Prop :=
  exists p c, read_ctx ctx = Some (p, c) /\ derive_key c = 0.
Definition write_derived (ctx : ctx_t) : Prop :=
  exists p c, write_ctx ctx = Some (p, c) /\ derive_key c = 0.

Lemma rekeyed_full n c c' : rekeyed n c c' -> pass_full c -> pass_full c'.
Proof.
  intros R [W F]. split; [by eapply rekeyed_pass|]. destruct R as (_ & _ & -> & ->). done.
Qed.

Lemma derive_read_spec addr rng (ctx : ctx_t) p h L :
  codec_wf ctx -> header_read_ok (pBt ctx) -> passes_full ctx ->
  owns h (codec_allocs p ctx) L ->
  exists pr r rc ctx' rng', read_ctx ctx = Some (pr, r) /\
    (if derive_key r =? 0 then Some (SQLITE_OK, ctx, rng) else
     let? (rc, ctx, r, rng) := sqlcipher_cipher_ctx_key_derive G addr rng ctx r in
     Some (rc, set_read_ctx (Some (pr, r)) ctx, rng)) = Some (rc, ctx', rng') /\
    codec_wf ctx' /\ owns h (codec_allocs p ctx') L /\ kd_frame ctx ctx' /\
    passes_full ctx' /\ (rc = SQLITE_OK -> read_derived ctx') /\
    write_ctx ctx' = write_ctx ctx /\
    exists r', read_ctx ctx' = Some (pr, r') /\ rekeyed (key_sz ctx) r r'.
Proof.
  intros W Hh Hp Ho. destruct (cw_read _ W) as (pr & r & Er & Wr & Pr).
  exists pr, r. destruct (Z.eqb_spec (derive_key r) 0) as [Ed|Ed].
  { do 3 eexists. split; [done|]. split; [done|].
    split_and!; [done|done|apply kd_frame_refl|done|by intros _; exists pr, r|done|].
    exists r. split; [done|]. by apply rekeyed_refl. }
  destruct (key_derive_spec addr rng ctx r (cw_base _ W) Hh Wr Pr)
    as (rc & ctx1 & r' & rng' & -> & S & R & Hrc).
  pose proof (salted_slots _ _ S) as [Sr Sw]. pose proof (salted_key _ _ S) as Sk.
  pose proof (rekeyed_wf _ _ _ R) as [Wr' _].
  do 3 eexists. split; [done|]. split; [done|]. split_and!.
  - apply set_read_wf; [by eapply salted_wf|by rewrite Sk|by eapply rekeyed_pass].
  - rewrite (set_read_allocs ctx1 p pr r r'); [|congruence|by rewrite Sk].
    by rewrite (salted_allocs _ _ p S).
  - destruct (salted_frame _ _ S). by split.
  - split; simpl; [|rewrite Sw; apply Hp].
    intros q c [= <- <-]. eapply rekeyed_full; [exact R|]. by eapply (proj1 Hp).
  - intros ->. destruct Hrc as [[_ Hd]|]; [|done]. by exists pr, r'.
  - exact Sw.
  - by exists r'.
Qed.

(** Both slots hold the same key bytes. *)
Definition same_material (ctx : ctx_t) : Prop :=
  exists pr r pw w, read_ctx ctx = Some (pr, r) /\ write_ctx ctx = Some (pw, w) /\
    b_data <$> key r = b_data <$> key w /\ b_data <$> hmac_key r = b_data <$> hmac_key w.

(** Both slots hold the same passphrase, and the write slot is to be derived. *)
Definition write_pending_same (ctx : ctx_t) : Prop :=
  exists pr r pw w, read_ctx ctx = Some (pr, r) /\ write_ctx ctx = Some (pw, w) /\
    derive_key w <> 0 /\ same_pass w r.

(** A copy keeps a passphrase of size zero only if the source has none. *)
Lemma copy_full (t s : cipher_ctx) :
  pass_full s -> pass_wf t -> pass_sz t = pass_sz s -> b_data <$> pass t = b_data <$> pass s ->
  pass_full t.
Proof.
  intros [_ F] W E1 E2. split; [done|]. intros E. rewrite E1. apply F.
  rewrite E in E2. by destruct (pass s).
Qed.

Lemma derive_write_spec addr rng (ctx : ctx_t) p h L :
  codec_wf ctx -> header_read_ok (pBt ctx) -> passes_full ctx -> read_derived ctx ->
  owns h (codec_allocs p ctx) L ->
  exists rc ctx' rng' h', derive_write G addr rng ctx h = Some (rc, ctx', rng', h') /\
    codec_wf ctx' /\ owns h' (codec_allocs p ctx') L /\ kd_frame ctx ctx' /\
    read_ctx ctx' = read_ctx ctx /\ (rc = SQLITE_OK \/ rc = SQLITE_ERROR) /\
    (rc = SQLITE_OK -> write_derived ctx' /\ passes_full ctx' /\
       (write_pending_same ctx -> same_material ctx')).
Proof.
  intros W Hh Hp (pr & r & Er & Hd) Ho.
  destruct (cw_write _ W) as (pw & w & Ew & Ww & Pw).
  destruct (cw_read _ W) as (pr' & r' & Er' & Wr & Pr). rewrite Er in Er'.
  injection Er' as <- <-. unfold derive_write. rewrite Ew.
  destruct (Z.eqb_spec (derive_key w) 0) as [Ed|Ed].
  { do 4 eexists. split; [done|]. split_and!; [done|done|apply kd_frame_refl|done|by left|].
    intros _. split; [by exists pw, w|]. split; [done|].
    intros (? & ? & ? & ? & _ & E & ? & _). rewrite Ew in E. by injection E as <- <-. }
  rewrite Er. destruct Hp as [Hpr Hpw].
  destruct (cipher_ctx_cmp_spec w r (Hpw _ _ Ew) (Hpr _ _ Er)) as (d & -> & Hcmp).
  destruct (Z.eqb_spec d 0) as [Hd0|Hd0].
  - destruct (owns_write_swap p ctx pw w h L Ew Ho) as (l & Hl & Hback).
    destruct (cipher_ctx_copy_spec ctx w r h l L Ww Wr Pr Hl)
      as (rc & w' & h' & -> & Ho' & Sb & Ww' & Pw' & Kd & Hd' & Edk & Epz & Hrc & Hpass).
    do 4 eexists. split; [done|]. split_and!; try done.
    + by apply set_write_wf.
    + by apply Hback.
    + by split; auto.
    + destruct Hrc as [-> | ->]; [by left|by right].
    + intros E. assert (rc = SQLITE_OK) as -> by (by destruct Hrc as [-> | ->]).
      split; [exists pw, w'; split; [done|congruence]|]. split; [split; [done|]|].
      * intros q c [= <- <-]. eapply copy_full; [by eapply Hpr|done..|by apply Hpass].
      * intros _. by exists pr, r, pw, w'.
  - destruct (key_derive_spec addr rng ctx w (cw_base _ W) Hh Ww Pw)
      as (rc & ctx1 & w' & rng' & -> & S & R & Hrc).
    pose proof (salted_slots _ _ S) as [Sr Sw]. pose proof (salted_key _ _ S) as Sk.
    pose proof (rekeyed_wf _ _ _ R) as [Ww' _].
    do 4 eexists. split; [done|]. split_and!.
    + apply set_write_wf; [by eapply salted_wf|by rewrite Sk|by eapply rekeyed_pass].
    + rewrite (set_write_allocs ctx1 p pw w w'); [|congruence|by rewrite Sk].
      by rewrite (salted_allocs _ _ p S).
    + destruct (salted_frame _ _ S). by split.
    + simpl. congruence.
    + destruct Hrc as [[-> _] | ->]; [by left|by right].
    + intros E. assert (rc = SQLITE_OK) as -> by (by destruct Hrc as [[-> _] | ->]).
      destruct Hrc as [[_ Hd']|]; [|done]. split; [by exists pw, w'|]. split; [split; simpl|].
      * rewrite Sr. done.
      * intros q c [= <- <-]. eapply rekeyed_full; [exact R|]. by eapply Hpw.
      * intros (? & ? & ? & ? & E1 & E2 & _ & Hs). rewrite Er in E1. injection E1 as <- <-.
        rewrite Ew in E2. injection E2 as <- <-. by destruct (Hd0 (Hcmp Hs)).
Qed.

Lemma drop_passes_spec (ctx : ctx_t) p h L :
  codec_wf ctx -> owns h (codec_allocs p ctx) L ->
  exists r w pr pw h', read_ctx ctx = Some (pr, r) /\ write_ctx ctx = Some (pw, w) /\
    drop_passes ctx h =
      Some (set_write_ctx (Some (pw, CipherCtx (derive_key w) 0 (key w) (hmac_key w) None))
             (set_read_ctx (Some (pr, CipherCtx (derive_key r) 0 (key r) (hmac_key r) None)) ctx), h') /\
    owns h' (codec_allocs p
      (set_write_ctx (Some (pw, CipherCtx (derive_key w) 0 (key w) (hmac_key w) None))
        (set_read_ctx (Some (pr, CipherCtx (derive_key r) 0 (key r) (hmac_key r) None)) ctx))) L.
Proof.
  intros W Ho. destruct (cw_read _ W) as (pr & r & Er & Wr & Pr).
  destruct (cw_write _ W) as (pw & w & Ew & Ww & Pw). exists r, w, pr, pw.
  unfold drop_passes, sqlcipher_cipher_ctx_set_pass. rewrite Er.
  destruct (owns_read_swap p ctx pr r h L Er Ho) as (l & Hl & Hback).
  apply owns_free_opt in Hl as (h1 & -> & Ho1).
  specialize (Hback h1 (CipherCtx (derive_key r) 0 (key r) (hmac_key r) None)).
  simpl in Hback. specialize (Hback ltac:(done) Ho1). simpl. rewrite Ew.
  eapply (owns_write_swap p _ pw w) in Hback as (l2 & Hl2 & Hback2); [|done].
  apply owns_free_opt in Hl2 as (h2 & -> & Ho2). eexists.
  split_and!; [done..|]. by apply Hback2.
Qed.

(** The passphrases are dropped from keyed contexts. *)
Definition unpassed (c : cipher_ctx) : cipher_ctx :=
  CipherCtx (derive_key c) 0 (key c) (hmac_key c) None.

Lemma unpassed_wf n c : cipher_wf n c -> cipher_wf n (unpassed c) /\ pass_full (unpassed c).
Proof. intros W. split; [exact W|]. by split. Qed.

Definition keyed (ctx : ctx_t) : Prop := read_derived ctx /\ write_derived ctx.

Lemma drop_same_material (ctx : ctx_t) pr r pw w :
  read_ctx ctx = Some (pr, r) -> write_ctx ctx = Some (pw, w) -> same_material ctx ->
  same_material (set_write_ctx (Some (pw, unpassed w)) (set_read_ctx (Some (pr, unpassed r)) ctx)).
Proof.
  intros Er Ew (? & ? & ? & ? & E1 & E2 & Hk & Hh). rewrite Er in E1. injection E1 as <- <-.
  rewrite Ew in E2. injection E2 as <- <-. by exists pr, (unpassed r), pw, (unpassed w).
Qed.

(** The last step: the passphrases go unless they are to be kept. *)
Lemma finish_spec (ctx : ctx_t) (rng : xoshiro) p h L :
  codec_wf ctx -> keyed ctx -> passes_full ctx -> owns h (codec_allocs p ctx) L ->
  exists ctx' h', (if store_pass ctx <>? 1 then
      let? (ctx, h) := drop_passes ctx h in
      Some (SQLITE_OK, ctx, rng, h)
    else Some (SQLITE_OK, ctx, rng, h)) = Some (SQLITE_OK, ctx', rng, h') /\
    codec_wf ctx' /\ owns h' (codec_allocs p ctx') L /\ kd_frame ctx ctx' /\
    keyed ctx' /\ passes_full ctx' /\ (same_material ctx -> same_material ctx').
Proof.
  intros W Hkd Hp Ho. case_cond.
  2:{ do 2 eexists. split; [done|]. by split_and!; try apply kd_frame_refl. }
  destruct (drop_passes_spec ctx p h L W Ho) as (r & w & pr & pw & h' & Er & Ew & -> & Ho').
  destruct (cw_read _ W) as (? & ? & Er' & Wr & _). rewrite Er in Er'. injection Er' as <- <-.
  destruct (cw_write _ W) as (? & ? & Ew' & Ww & _). rewrite Ew in Ew'. injection Ew' as <- <-.
  do 2 eexists. split; [done|]. split_and!; [|done| | | |].
  - apply set_write_wf; [apply set_read_wf; [done|apply Wr|done]|apply Ww|done].
  - split; auto.
  - destruct Hkd as [(q1 & c1 & E1 & D1) (q2 & c2 & E2 & D2)].
    rewrite Er in E1. injection E1 as <- <-. rewrite Ew in E2. injection E2 as <- <-.
    split; by do 2 eexists.
  - split; intros q c [= <- <-]; by split.
  - by apply drop_same_material.
Qed.

Lemma key_derive_both addr rng (ctx : ctx_t) p h L :
  codec_wf ctx -> header_read_ok (pBt ctx) -> passes_full ctx ->
  owns h (codec_allocs p ctx) L ->
  exists rc ctx' rng' h',
    sqlcipher_codec_key_derive G addr rng ctx h = Some (rc, ctx', rng', h') /\
    codec_wf ctx' /\ owns h' (codec_allocs p ctx') L /\ kd_frame ctx ctx' /\
    (rc = SQLITE_OK \/ rc = SQLITE_ERROR) /\
    (rc = SQLITE_OK -> keyed ctx' /\ passes_full ctx' /\
       (write_pending_same ctx -> same_material ctx')).
Proof.
  intros W Hh Hp Ho. unfold sqlcipher_codec_key_derive.
  destruct (derive_read_spec addr rng ctx p h L W Hh Hp Ho)
    as (pr & r & rc & ctx1 & rng1 & Er & Ed & W1 & Ho1 & F1 & Hp1 & Hrd & Ew1 & r1 & Er1 & R1).
  rewrite Er, Ed.
  destruct (Z.eqb_spec rc SQLITE_OK) as [->|Hrc]; cbn [negb].
  2:{ do 4 eexists. split; [done|]. split_and!; try done; by right. }
  assert (Hh1 : header_read_ok (pBt ctx1)) by (by rewrite (kf_bt _ _ F1)).
  destruct (derive_write_spec addr rng1 ctx1 p h L W1 Hh1 Hp1 (Hrd eq_refl) Ho1)
    as (rc & ctx2 & rng2 & h2 & -> & W2 & Ho2 & F2 & Er2 & Hrc & Hok).
  pose proof (kd_frame_trans _ _ _ F1 F2) as F.
  destruct (Z.eqb_spec rc SQLITE_OK) as [->|Hne]; cbn [negb].
  2:{ do 4 eexists. split; [done|]. split_and!; try done; by right. }
  destruct (Hok eq_refl) as (Hwd & Hp2 & Hsm).
  destruct (finish_spec ctx2 rng2 p h2 L W2) as (ctx3 & h3 & -> & W3 & Ho3 & F3 & Hk3 & Hp3 & Hs3);
    [|done..|].
  { split; [|done]. destruct (Hrd eq_refl) as (q & c & E & ?). exists q, c. by rewrite Er2. }
  do 4 eexists. split; [done|]. split_and!; [done|done|by eapply kd_frame_trans|by left|].
  intros _. split; [done|]. split; [done|]. intros (? & ? & pw & w & E1 & Ew & Hd & Hs1 & Hs2).
  rewrite Er in E1. injection E1 as <- <-. apply Hs3, Hsm. exists pr, r1, pw, w.
  rewrite Ew1. split_and!; try done. destruct R1 as (_ & _ & Q1 & Q2).
  unfold same_pass, pass_bytes in *. by rewrite Q1, Q2.
Qed.

(** ** The key specification *)

Definition salt_bytes (ctx : ctx_t) : bytes := from_option b_data [] (kdf_salt ctx).

(** x'..' with the key, with HMAC the HMAC key, and the salt. *)
Definition keyspec_text (ctx : ctx_t) (c : cipher_ctx) : bytes :=
  [120; 39] ++ hex_encode (enc_key G c) ++
  (if FLAG_GET (flags ctx) CIPHER_FLAG_HMAC then hex_encode (mac_key G c) else []) ++
  hex_encode (salt_bytes ctx) ++ [39].

Lemma bin2hex_append (pre rest inp : bytes) n :
  0 < n -> len inp = n -> 2 * n + 1 <= len rest ->
  cipher_bin2hex inp n (pre ++ rest) (len pre) =
  Some ((pre ++ hex_encode inp) ++ 0 :: drop (2 * length inp + 1) rest).
Proof.
  intros Hn <- Hr. rewrite cipher_bin2hex_spec by (rewrite ?length_app; lia).
  rewrite Nat2Z.id, take_app_length, (take_ge inp) by lia. f_equal.
  rewrite <- app_assoc. do 2 f_equal. simpl. f_equal.
  rewrite drop_app_ge by lia. f_equal. lia.
Qed.

Lemma encode_key_spec (ctx : ctx_t) k (pre rest : bytes) :
  0 < key_sz ctx -> buf_wf (key_sz ctx) k -> 2 * key_sz ctx + 1 <= len rest ->
  encode_key G ctx k (pre ++ rest) (len pre) =
  Some ((pre ++ hex_encode (shielded mask (from_option b_data [] k))) ++
          0 :: drop (2 * Z.to_nat (key_sz ctx) + 1) rest, k).
Proof.
  intros Hk (kb & -> & Hl) Hr. unfold encode_key. simpl.
  destruct (shield_roundtrip G mask_nonempty (b_data kb) (key_sz ctx) Hl) as [-> E2].
  rewrite bin2hex_append by (rewrite ?shielded_length; lia).
  rewrite E2, shielded_length. repeat f_equal; [lia|]. by destruct kb.
Qed.

Lemma length_keys (ctx : ctx_t) c : cipher_wf (key_sz ctx) c ->
  len (enc_key G c) = key_sz ctx /\ len (mac_key G c) = key_sz ctx.
Proof.
  intros (k & hk & E1 & E2 & L1 & L2). unfold enc_key, mac_key. rewrite E1, E2. simpl.
  by rewrite !shielded_length.
Qed.

Lemma put_last (pre tail : bytes) sz :
  len pre = sz - 1 -> length tail = 0%nat ->
  mem_put (pre ++ 0 :: tail) (sz - 1) 39 = Some (pre ++ [39]).
Proof.
  intros <- Hl. apply nil_length_inv in Hl as ->.
  rewrite mem_put_nat by (rewrite length_app; simpl; lia).
  by rewrite insert_app_r_alt, Nat.sub_diag by lia.
Qed.

(** The text written by [get_keyspec]. *)
Lemma keyspec_fill_spec (ctx : ctx_t) c (out : bytes) :
  base_wf ctx -> cipher_wf (key_sz ctx) c -> length out = length (keyspec_text ctx c) ->
  keyspec_fill G ctx c (FLAG_GET (flags ctx) CIPHER_FLAG_HMAC) (len out) out =
  Some (keyspec_text ctx c, key c, hmac_key c).
Proof.
  intros Hb Wc Hl.
  assert (Hk : 0 < key_sz ctx) by (rewrite (bw_key _ Hb); apply pv_key_sz_ok).
  destruct (bw_salt _ Hb) as (sb & Es & Ls). pose proof (bw_salt_sz _ Hb) as Hs.
  unfold FILE_HEADER_SZ in Hs.
  destruct (length_keys ctx c Wc) as [Lk Lh]. pose proof Wc as [Wk Wh]%cipher_wf_bufs.
  unfold keyspec_text, salt_bytes in *. rewrite Es in *. cbn [from_option] in *.
  set (hm := FLAG_GET (flags ctx) CIPHER_FLAG_HMAC) in *.
  rewrite !length_app, !length_hex_encode in Hl.
  destruct out as [|x0 [|x1 rest]]; [simpl in Hl; lia..|]. unfold keyspec_fill.
  change 0 with (Z.of_nat 0) at 1. change 1 with (Z.of_nat 1) at 1.
  rewrite !mem_put_nat by (simpl; lia). cbn [insert list_insert].
  set (sz := len (x0 :: x1 :: rest)). cbn [length] in Hl, sz.
  change (120 :: 39 :: rest) with ([120; 39] ++ rest). change 2 with (len [120; 39]) at 1.
  rewrite encode_key_spec by (done || destruct hm; rewrite ?length_hex_encode in Hl; simpl in Hl; lia).
  fold (enc_key G c). rewrite Es.
  destruct hm.
  - rewrite length_hex_encode in Hl.
    replace (2 + key_sz ctx * 2) with (len ([120; 39] ++ hex_encode (enc_key G c)))
      by (rewrite length_app, length_hex_encode; simpl; lia).
    rewrite encode_key_spec by (try done; simpl length; rewrite length_drop; simpl in Hl; lia).
    fold (mac_key G c).
    replace (len ([120; 39] ++ hex_encode (enc_key G c)) + key_sz ctx * 2)
      with (len (([120; 39] ++ hex_encode (enc_key G c)) ++ hex_encode (mac_key G c)))
      by (rewrite !length_app, !length_hex_encode; simpl; lia).
    rewrite bin2hex_append by
      (try done; try lia; simpl length; rewrite !length_drop; simpl length; rewrite ?length_drop; simpl in Hl; lia).
    rewrite put_last.
    + by rewrite <- !app_assoc.
    + rewrite !length_app, !length_hex_encode. simpl in *. lia.
    + repeat (rewrite length_drop; simpl length). simpl in Hl. lia.
  - replace (2 + key_sz ctx * 2) with (len ([120; 39] ++ hex_encode (enc_key G c)))
      by (rewrite length_app, length_hex_encode; simpl; lia).
    rewrite bin2hex_append by
      (try done; try lia; simpl length; rewrite !length_drop; simpl in Hl; lia).
    rewrite put_last.
    + by rewrite <- !app_assoc.
    + rewrite !length_app, !length_hex_encode. simpl in *. lia.
    + repeat (rewrite length_drop; simpl length). simpl in Hl. lia.
Qed.

Lemma keyspec_length (ctx : ctx_t) c :
  base_wf ctx -> cipher_wf (key_sz ctx) c ->
  len (keyspec_text ctx c) =
  (if FLAG_GET (flags ctx) CIPHER_FLAG_HMAC
   then (key_sz ctx + key_sz ctx + kdf_salt_sz ctx) * 2 + 3
   else (key_sz ctx + kdf_salt_sz ctx) * 2 + 3).
Proof.
  intros Hb Wc. destruct (length_keys ctx c Wc) as [Lk Lh].
  destruct (bw_salt _ Hb) as (sb & Es & Ls). unfold keyspec_text, salt_bytes. rewrite Es.
  rewrite !length_app, !length_hex_encode. simpl.
  destruct (FLAG_GET _ _); rewrite ?length_hex_encode; simpl; lia.
Qed.

Lemma get_keyspec_spec (ctx : ctx_t) c h l L :
  base_wf ctx -> cipher_wf (key_sz ctx) c -> owns h l L ->
  exists rc r sz h', sqlcipher_cipher_ctx_get_keyspec G ctx c h = Some (rc, r, sz, c, h') /\
    owns h' (opt_alloc r sz ++ l) L /\
    (rc = SQLITE_OK /\ b_data <$> r = Some (keyspec_text ctx c) /\
     sz = len (keyspec_text ctx c) \/ rc = SQLITE_NOMEM /\ r = None).
Proof.
  intros Hb Wc Ho. unfold sqlcipher_cipher_ctx_get_keyspec.
  rewrite <- (keyspec_length ctx c Hb Wc).
  destruct (owns_alloc_buf h l L (len (keyspec_text ctx c)) Ho ltac:(lia))
    as (r & h' & -> & Ho' & Hl).
  destruct r as [b|]; [|do 4 eexists; split; [done|]; split; [done|by right]].
  specialize (Hl b eq_refl).
  pose proof (keyspec_fill_spec ctx c (b_data b) Hb Wc ltac:(lia)) as E.
  rewrite Hl in E. rewrite E. do 4 eexists. split; [by destruct c|].
  split; [exact Ho'|]. left. by split_and!.
Qed.

(** A decoded slice of the text. *)
Lemma hex_slice (pre l post : bytes) n :
  bytes_ok l -> len l = n ->
  hex_decode (take (Z.to_nat (n * 2)) (drop (length pre) (pre ++ hex_encode l ++ post))) = l.
Proof.
  intros Hb <-. rewrite drop_app_length.
  replace (Z.to_nat (len l * 2)) with (length (hex_encode l)) by (rewrite length_hex_encode; lia).
  rewrite take_app_length. by apply hex_decode_encode.
Qed.

Lemma is_blob_quoted (l : bytes) : forallb hexchar l = true -> (2 <= length l)%nat ->
  Z.rem (len l) 2 = 0 -> is_blob ([120; 39] ++ l ++ [39]) = true.
Proof.
  intros Hf Hl He. unfold is_blob. rewrite !length_app. simpl length.
  rewrite (proj2 (Z.leb_le _ _)) by lia.
  replace (2 + (length l + 1) - 1)%nat with (2 + length l)%nat by lia.
  replace (2 + (length l + 1) - 3)%nat with (length l) by lia.
  replace (Z.of_nat (2 + (length l + 1)) - 3) with (len l) by lia. rewrite He.
  assert (E : ([120; 39] ++ l ++ [39]) !!! (2 + length l)%nat = 39).
  { apply list_lookup_total_correct. rewrite app_assoc.
    apply list_lookup_middle. by rewrite length_app. }
  rewrite E. change (drop 2 ([120; 39] ++ l ++ [39])) with (l ++ [39]).
  rewrite take_app_length, Hf. done.
Qed.

Lemma keyspec_blob (ctx : ctx_t) c :
  bytes_ok (enc_key G c) -> bytes_ok (mac_key G c) -> bytes_ok (salt_bytes ctx) ->
  0 < len (enc_key G c) -> is_blob (keyspec_text ctx c) = true.
Proof.
  intros Bk Bh Bs Hl. set (mac := if FLAG_GET (flags ctx) CIPHER_FLAG_HMAC then mac_key G c else []).
  assert (keyspec_text ctx c =
    [120; 39] ++ hex_encode (enc_key G c ++ mac ++ salt_bytes ctx) ++ [39]) as ->.
  { unfold keyspec_text. rewrite !hex_encode_app, <- !app_assoc. subst mac.
    by destruct (FLAG_GET _ _). }
  apply is_blob_quoted.
  - apply hex_encode_hexchar. unfold bytes_ok. rewrite !Forall_app. split_and!; [done| |done].
    subst mac. by destruct (FLAG_GET _ _); [|constructor].
  - rewrite length_hex_encode, length_app. lia.
  - rewrite length_hex_encode. rewrite Z.rem_mod_nonneg by lia. apply Z.mod_divide; [lia|].
    eexists. rewrite Nat2Z.inj_mul. apply Z.mul_comm.
Qed.

(** A slice of the text, decoded into a buffer. *)
Lemma hex_into_slice (text pre l post : bytes) off n b :
  text = pre ++ hex_encode l ++ post -> off = len pre -> bytes_ok l -> len l = n ->
  buf_wf n b ->
  exists b', hex_into text off (n * 2) b = Some b' /\ keeps n b b' /\
    b_data <$> b' = Some l.
Proof.
  intros -> -> Hl Hn Wb.
  destruct (hex_into_spec (pre ++ hex_encode l ++ post) (len pre) n b)
    as (b' & E & K & D); [done|lia|lia|rewrite !length_app, length_hex_encode; lia|].
  exists b'. split_and!; [done..|]. rewrite D, Nat2Z.id. f_equal. by apply hex_slice.
Qed.

(** The first stage of a derivation from a key specification. *)
Lemma derive_main_keyspec (ctx : ctx_t) c d (ctx0 : ctx_t) :
  base_wf ctx -> base_wf ctx0 -> cipher_wf (key_sz ctx) c -> cipher_wf (key_sz ctx) d ->
  bytes_ok (enc_key G c) -> bytes_ok (mac_key G c) -> bytes_ok (salt_bytes ctx) ->
  pass_sz d = len (keyspec_text ctx c) ->
  exists k hk s, derive_main ctx0 d (keyspec_text ctx c) =
      Some (SQLITE_OK, negb (FLAG_GET (flags ctx) CIPHER_FLAG_HMAC), k, hk, s) /\
    keeps (key_sz ctx) (key d) k /\ b_data <$> k = Some (enc_key G c) /\
    keeps (key_sz ctx) (hmac_key d) hk /\
    (FLAG_GET (flags ctx) CIPHER_FLAG_HMAC = true -> b_data <$> hk = Some (mac_key G c)) /\
    keeps (kdf_salt_sz ctx0) (kdf_salt ctx0) s /\ b_data <$> s = Some (salt_bytes ctx).
Proof.
  intros Hb Hb0 Wc Wd Bk Bh Bs Hl. pose proof Wd as [Wk Wh]%cipher_wf_bufs.
  destruct (length_keys ctx c Wc) as [Lk Lh].
  assert (Hk : 0 < key_sz ctx) by (rewrite (bw_key _ Hb); apply pv_key_sz_ok).
  assert (Ek : key_sz ctx0 = key_sz ctx) by (by rewrite (bw_key _ Hb), (bw_key _ Hb0)).
  pose proof (bw_salt_sz _ Hb) as Hs. pose proof (bw_salt_sz _ Hb0) as Hs0.
  pose proof (bw_salt _ Hb0) as Ws0.
  assert (Ls : len (salt_bytes ctx) = kdf_salt_sz ctx0).
  { destruct (bw_salt _ Hb) as (sb & Es & L). unfold salt_bytes. rewrite Es. simpl. lia. }
  unfold FILE_HEADER_SZ in *. pose proof (keyspec_length ctx c Hb Wc) as Hkl.
  unfold derive_main. rewrite blob_format_spec, keyspec_blob by (done || lia).
  rewrite Hl, Hkl, Ek. cbn [andb]. unfold keyspec_text.
  destruct (FLAG_GET (flags ctx) CIPHER_FLAG_HMAC); cbn [negb];
    rewrite (proj2 (Z.eqb_neq _ (key_sz ctx * 2 + 3))) by lia.
  - rewrite (proj2 (Z.eqb_neq _ (key_sz ctx * 2 + kdf_salt_sz ctx0 * 2 + 3))) by lia.
    rewrite (proj2 (Z.eqb_eq _ _)) by lia.
    set (K := hex_encode (enc_key G c)). set (M := hex_encode (mac_key G c)).
    set (S := hex_encode (salt_bytes ctx)). set (text := [120; 39] ++ K ++ M ++ S ++ [39]).
    destruct (hex_into_slice text [120; 39] (enc_key G c) (M ++ S ++ [39]) 2 (key_sz ctx) (key d))
      as (k & -> & Kk & Dk); [done..|].
    destruct (hex_into_slice text ([120; 39] ++ K) (mac_key G c) (S ++ [39])
      (2 + key_sz ctx * 2) (key_sz ctx) (hmac_key d)) as (hk & -> & Kh & Dh);
      [by rewrite <- !app_assoc|unfold K; rewrite !length_app, !length_hex_encode; simpl; lia|done..|].
    destruct (hex_into_slice text ([120; 39] ++ K ++ M) (salt_bytes ctx) [39]
      (2 + key_sz ctx * 2 + key_sz ctx * 2) (kdf_salt_sz ctx0) (kdf_salt ctx0))
      as (s & -> & Ks & Ds);
      [by rewrite <- !app_assoc|unfold K, M; rewrite !length_app, !length_hex_encode; simpl; lia|done..|].
    do 3 eexists. split; [done|]. by split_and!.
  - rewrite (proj2 (Z.eqb_eq _ _)) by lia.
    set (K := hex_encode (enc_key G c)). set (S := hex_encode (salt_bytes ctx)).
    set (text := [120; 39] ++ K ++ [] ++ S ++ [39]).
    destruct (hex_into_slice text [120; 39] (enc_key G c) (S ++ [39]) 2 (key_sz ctx) (key d))
      as (k & -> & Kk & Dk); [done..|].
    destruct (hex_into_slice text ([120; 39] ++ K) (salt_bytes ctx) [39]
      (2 + key_sz ctx * 2) (kdf_salt_sz ctx0) (kdf_salt ctx0)) as (s & -> & Ks & Ds);
      [by rewrite <- !app_assoc|unfold K; rewrite !length_app, !length_hex_encode; simpl; lia|done..|].
    do 3 eexists. split; [done|]. by split_and!.
Qed.

(** A derivation from the key specification of [c] restores its keys and salt. *)
Lemma keyspec_import addr rng (ctx ctx0 : ctx_t) c d pb :
  base_wf ctx -> base_wf ctx0 -> cipher_wf (key_sz ctx) c -> cipher_wf (key_sz ctx) d ->
  bytes_ok (enc_key G c) -> bytes_ok (mac_key G c) -> bytes_ok (salt_bytes ctx) ->
  FLAG_GET (flags ctx0) CIPHER_FLAG_HAS_KDF_SALT = true ->
  FLAG_GET (flags ctx0) CIPHER_FLAG_HMAC = FLAG_GET (flags ctx) CIPHER_FLAG_HMAC ->
  pass d = Some pb -> b_data pb = keyspec_text ctx c -> pass_sz d = len (keyspec_text ctx c) ->
  exists ctx' d', sqlcipher_cipher_ctx_key_derive G addr rng ctx0 d =
      Some (SQLITE_OK, ctx', d', rng) /\
    derive_key d' = 0 /\ enc_key G d' = enc_key G c /\
    (FLAG_GET (flags ctx) CIPHER_FLAG_HMAC = true -> mac_key G d' = mac_key G c) /\
    salt_bytes ctx' = salt_bytes ctx.
Proof.
  intros Hb Hb0 Wc Wd Bk Bh Bs Hsalt Hhm Ep Et Hz.
  destruct (derive_main_keyspec ctx c d ctx0) as (k & hk & s & E & Kk & Dk & Kh & Dh & Ks & Ds);
    [done..|].
  assert (Hk : 0 < key_sz ctx) by (rewrite (bw_key _ Hb); apply pv_key_sz_ok).
  assert (Ek : key_sz ctx0 = key_sz ctx) by (by rewrite (bw_key _ Hb), (bw_key _ Hb0)).
  unfold sqlcipher_cipher_ctx_key_derive. rewrite Ep, Hsalt. cbn [negb].
  assert (Hne : pass_sz d <> 0).
  { rewrite Hz. unfold keyspec_text. rewrite length_app. simpl. lia. }
  rewrite (proj2 (Z.eqb_neq _ _) Hne). change (SQLITE_OK =? SQLITE_OK) with true.
  cbn beta iota delta [negb]. rewrite Et, E. cbn beta iota.
  change (SQLITE_OK =? SQLITE_OK) with true. cbn beta iota.
  unfold derive_finish. simpl. rewrite Hhm, andb_negb_r, Ek. cbn.
  destruct (shield_buf_spec k (key_sz ctx)) as (k' & -> & _ & Dk'); [lia|by eapply keeps_wf|].
  destruct (shield_buf_spec hk (key_sz ctx)) as (h' & -> & _ & Dh'); [lia|by eapply keeps_wf|].
  do 2 eexists. split; [done|]. split; [done|].
  rewrite Dk in Dk'. unfold enc_key at 1, mac_key at 1, salt_bytes at 1. simpl.
  split_and!.
  - destruct k'; simplify_eq/=. rewrite Dk'. apply shielded_involutive.
  - intros Ehm. rewrite (Dh Ehm) in Dh'. destruct h'; simplify_eq/=.
    rewrite Dh'. apply shielded_involutive.
  - destruct s; by simplify_eq/=.
Qed.

(** ** Properties *)


(** C8: exporting a key specification and deriving from it is a round trip: the text
    that [get_keyspec] produces for a context is accepted as a raw key by the derivation,
    which restores the same encryption key, the same HMAC key (when HMAC is on) and the
    same salt. *)
Theorem keyspec_roundtrip addr rng (ctx ctx0 : ctx_t) c d (h h' : A) b sz c' :
  base_wf ctx -> base_wf ctx0 -> cipher_wf (key_sz ctx) c -> cipher_wf (key_sz ctx) d ->
  bytes_ok (enc_key G c) -> bytes_ok (mac_key G c) -> bytes_ok (salt_bytes ctx) ->
  FLAG_GET (flags ctx0) CIPHER_FLAG_HAS_KDF_SALT = true ->
  FLAG_GET (flags ctx0) CIPHER_FLAG_HMAC = FLAG_GET (flags ctx) CIPHER_FLAG_HMAC ->
  a_inv h ->
  sqlcipher_cipher_ctx_get_keyspec G ctx c h = Some (SQLITE_OK, Some b, sz, c', h') ->
  pass d = Some b -> pass_sz d = sz ->
  exists ctx' d', sqlcipher_cipher_ctx_key_derive G addr rng ctx0 d =
      Some (SQLITE_OK, ctx', d', rng) /\
    derive_key d' = 0 /\ enc_key G d' = enc_key G c /\
    (FLAG_GET (flags ctx) CIPHER_FLAG_HMAC = true -> mac_key G d' = mac_key G c) /\
    salt_bytes ctx' = salt_bytes ctx.
Proof.
  intros Hb Hb0 Wc Wd Bk Bh Bs Hs Hm Hi E Ep Ez.
  destruct (get_keyspec_spec ctx c h [] (a_live h) Hb Wc (owns_nil _ _ Hi (reflexivity _)))
    as (rc & r & sz' & h2 & E' & _ & Hr).
  rewrite E' in E. injection E as -> -> <- <- <-.
  destruct Hr as [(_ & Hd & Hsz)|[? _]]; [|done]. simpl in Hd. injection Hd as Hd.
  eapply (keyspec_import addr rng ctx ctx0 c d b); congruence || done.
Qed.
End Derive.

(** ** Witnesses *)

(** A context whose slots both hold the passphrase [112; 119], not yet derived. *)
Definition demo_passed (q : Z) : cipher_ctx :=
  CipherCtx 1 2 (key (demo_cipher q)) (hmac_key (demo_cipher q)) (Some (Buf (q + 3) [112; 119])).
Definition demo_pending : codec_ctx demo_provider :=
  set_write_ctx (Some (60, demo_passed 60)) (set_read_ctx (Some (50, demo_passed 50)) demo_ctx).

Lemma demo_pending_wf : codec_wf demo_pending.
Proof.
  unfold demo_pending. apply set_write_wf; [apply set_read_wf; [exact demo_wf| |]| |];
    by try apply demo_cipher_wf.
Qed.

Lemma demo_pending_full : passes_full demo_pending.
Proof. split; intros p c [= <- <-]; by split. Qed.


(** The key specification of the demonstration context, given to another slot. *)
Definition demo_spec : bytes := keyspec_text demo_globals demo_ctx (demo_cipher 50).
Definition demo_import : cipher_ctx :=
  CipherCtx 1 (len demo_spec) (Some (demo_buf 81 0)) (Some (demo_buf 82 0))
    (Some (Buf 1 demo_spec)).

Lemma keyspec_roundtrip_witness :
  exists ctx' d', sqlcipher_cipher_ctx_key_derive demo_globals 0 (Xo 1 2 3 4) demo_ctx demo_import =
      Some (SQLITE_OK, ctx', d', Xo 1 2 3 4) /\
    derive_key d' = 0 /\
    enc_key demo_globals d' = enc_key demo_globals (demo_cipher 50) /\
    (FLAG_GET (flags demo_ctx) CIPHER_FLAG_HMAC = true ->
     mac_key demo_globals d' = mac_key demo_globals (demo_cipher 50)) /\
    salt_bytes ctx' = salt_bytes demo_ctx.
Proof.
  apply (keyspec_roundtrip demo_globals ltac:(done) 0 (Xo 1 2 3 4) demo_ctx demo_ctx
    (demo_cipher 50) demo_import (Ledger 1 1000 []) (Ledger 52 949 [(1, 51)]) (Buf 1 demo_spec) 51
    (demo_cipher 50)).
  - apply demo_wf.
  - apply demo_wf.
  - apply demo_cipher_wf.
  - exists (demo_buf 81 0), (demo_buf 82 0). by split_and!.
  - apply (bool_decide_unpack _). by vm_compute.
  - apply (bool_decide_unpack _). by vm_compute.
  - apply (bool_decide_unpack _). by vm_compute.
  - done.
  - done.
  - split; constructor.
  - vm_compute. reflexivity.
  - done.
  - vm_compute. reflexivity.
Defined.
