(* ===== verification/CodecMain.v ===== *)
(** * The pager callback

    Theorems about [sqlite3Codec]: memory safety and the invariant of the context,
    the sticky error state, and that what a write produces a read gives back. *)

From S2P Require Import Prelude CipherUtil UtilStr CodecCtx Demo CodecCrypto CodecPage CodecInv CodecKey.
Import Hex MemOps Xoshiro.

Section Main.
Context {A : Type} `{AllocatorOk A} {P : provider} `{!ProviderOk P} (G : globals).
Abbreviation ctx_t := (codec_ctx P).
Abbreviation mask := (sqlcipher_shield_mask G).
Context (mask_nonempty : mask <> []).

(** ** Small changes of a well-formed context *)

(** [ctx'] differs from [ctx] in the error, the B-tree, the provider's state, the
    contents of the page buffer and the KEY_USED flag only. *)
Record io_step (ctx ctx' : ctx_t) : Prop := {
  io_wf : codec_wf ctx -> codec_wf ctx';
  io_allocs p : codec_allocs p ctx' = codec_allocs p ctx;
  io_read : read_ctx ctx' = read_ctx ctx;
  io_write : write_ctx ctx' = write_ctx ctx;
  io_page : page_sz ctx' = page_sz ctx;
  io_reserve : reserve_sz ctx' = reserve_sz ctx;
  io_header : plaintext_header_sz ctx' = plaintext_header_sz ctx;
  io_bt : bt_header (pBt ctx') = bt_header (pBt ctx)
}.

Lemma io_refl ctx : io_step ctx ctx.
Proof. by split. Qed.
Lemma io_trans a b c : io_step a b -> io_step b c -> io_step a c.
Proof.
  intros [A1 A2 A3 A4 A5 A6 A7 A8] [B1 B2 B3 B4 B5 B6 B7 B8].
  split; intros; try congruence; auto.
Qed.

Lemma io_set_error (ctx : ctx_t) e : io_step ctx (sqlcipher_codec_ctx_set_error ctx e).
Proof. split; try done. intros [[] ? ? ? ? ?]. by split. Qed.

Lemma io_used (ctx : ctx_t) :
  io_step ctx (set_flags (FLAG_SET (flags ctx) CIPHER_FLAG_KEY_USED) ctx).
Proof.
  split; try done. intros [Hb ? Hr ? ? ?]. split; try done; [by destruct Hb|].
  unfold reserve_for in *. simpl in *. by autorewrite with cflags.
Qed.

Lemma io_prov (ctx : ctx_t) pc : io_step ctx (set_provider_ctx (Some pc) ctx).
Proof. split; try done. intros [[] ? ? ? ? ?]. by split. Qed.

Lemma io_buffer (ctx : ctx_t) b d :
  buffer ctx = Some b -> length d = length (b_data b) -> io_step ctx (with_buffer ctx d).
Proof.
  intros Eb Hd. unfold with_buffer. rewrite Eb. split; try done.
  - intros [[? ? ? ? ? ? ? Hbuf ?] ? ? ? ? ?]. split; try done. split; try done. simpl.
    destruct Hbuf as (b' & E & Hl). rewrite Eb in E. injection E as <-.
    eexists. split; [done|]. simpl. lia.
  - intros p. unfold codec_allocs. simpl. by rewrite Eb.
Qed.

(** ** One page through the cipher *)

(** The bytes of page [pgno] that are not encrypted. *)
Definition page_offset (ctx : ctx_t) (pgno : Z) : Z :=
  if pgno =? 1 then
    (if plaintext_header_sz ctx =? 0 then FILE_HEADER_SZ else plaintext_header_sz ctx) else 0.

Lemma page_offset_ok (ctx : ctx_t) pgno :
  codec_wf ctx -> 0 <= plaintext_header_sz ctx ->
  0 <= page_offset ctx pgno <= page_sz ctx - reserve_sz ctx.
Proof.
  intros W Hp. pose proof (reserve_le ctx W). pose proof (cw_header _ W).
  destruct (bw_page _ (cw_base _ W)) as [? _]. unfold page_offset, FILE_HEADER_SZ.
  repeat case_cond; lia.
Qed.

Lemma slot_ok (ctx : ctx_t) cctx : codec_wf ctx ->
  exists p c, ctx_for cctx ctx = Some (p, c) /\ cipher_wf (key_sz ctx) c /\ pass_wf c.
Proof. intros W. unfold ctx_for. case_cond; [apply (cw_read _ W)|apply (cw_write _ W)]. Qed.

Lemma ptr_at_ok (b : bytes) off :
  0 <= off <= len b -> ptr_at b off = Some (drop (Z.to_nat off) b).
Proof. intros. unfold ptr_at. by rewrite !(proj2 (Z.leb_le _ _)) by lia. Qed.

Lemma page_pre_at (ctx : ctx_t) c offset (pData buf : bytes) :
  codec_wf ctx -> cipher_wf (key_sz ctx) c -> 0 <= offset <= page_sz ctx - reserve_sz ctx ->
  page_sz ctx <= len pData -> page_sz ctx <= len buf ->
  page_pre ctx c (page_sz ctx - offset) (drop (Z.to_nat offset) pData)
    (drop (Z.to_nat offset) buf).
Proof.
  intros W Wc Ho Hp Hb. split; [done|by apply codec_wf_geo|lia|rewrite length_drop; lia..].
Qed.

(** The first [offset] bytes of a buffer are left alone. *)
Lemma take_frame (buf o : bytes) offset :
  0 <= offset <= len buf -> length o = length (drop (Z.to_nat offset) buf) ->
  length (take (Z.to_nat offset) buf ++ o) = length buf /\
  take (Z.to_nat offset) (take (Z.to_nat offset) buf ++ o) = take (Z.to_nat offset) buf /\
  drop (Z.to_nat offset) (take (Z.to_nat offset) buf ++ o) = o.
Proof.
  intros Ho Hl. rewrite length_drop in Hl. split_and!.
  - rewrite length_app, length_take. lia.
  - rewrite take_app_le, take_take by (rewrite length_take; lia). f_equal. lia.
  - rewrite drop_app_length'; [done|]. rewrite length_take. lia.
Qed.

Lemma cipher_at_encrypt (ctx : ctx_t) cctx p c pgno offset (pData buf : bytes) :
  codec_wf ctx -> ctx_for cctx ctx = Some (p, c) -> cipher_wf (key_sz ctx) c ->
  0 <= offset <= page_sz ctx - reserve_sz ctx ->
  page_sz ctx <= len pData -> page_sz ctx <= len buf ->
  exists rc pc buf', cipher_at G ctx cctx pgno SQLCIPHER_ENCRYPT offset pData buf =
      Some (rc, set_provider_ctx (Some pc) ctx, buf') /\
    length buf' = length buf /\ take (Z.to_nat offset) buf' = take (Z.to_nat offset) buf /\
    (rc = SQLITE_OK \/ rc = SQLITE_ERROR) /\
    (rc = SQLITE_OK ->
     if (pgno =? 1) && (page_sz ctx - offset - reserve_sz ctx =? 0) then True else
     sealed G ctx c pgno (page_sz ctx - offset)
       (take (Z.to_nat (page_sz ctx - offset - reserve_sz ctx)) (drop (Z.to_nat offset) pData))
       (drop (Z.to_nat offset) buf')).
Proof.
  intros W Hc Wc Ho Hp Hb. unfold cipher_at. pose proof (reserve_le ctx W).
  rewrite !ptr_at_ok by lia. destruct (bw_prov _ (cw_base _ W)) as [pc Epc].
  destruct (page_cipher_encrypt G mask_nonempty ctx cctx p c pgno (page_sz ctx - offset)
    (drop (Z.to_nat offset) pData) (drop (Z.to_nat offset) buf) pc)
    as (rc & pc' & out & -> & (Hl & _) & Hok & Hbad); [done|by apply page_pre_at|done|].
  destruct (take_frame buf out offset) as (L1 & L2 & L3); [lia|done|].
  do 3 eexists. split; [done|]. split_and!; [done..| |].
  - destruct (decide (rc = SQLITE_OK)) as [|Hne]; [by left|]. right. by apply Hbad.
  - intros E. rewrite L3. specialize (Hok E). by case_match.
Qed.

Lemma cipher_at_decrypt (ctx : ctx_t) cctx p c pgno offset (pData buf : bytes) :
  codec_wf ctx -> ctx_for cctx ctx = Some (p, c) -> cipher_wf (key_sz ctx) c ->
  0 <= offset <= page_sz ctx - reserve_sz ctx ->
  page_sz ctx <= len pData -> page_sz ctx <= len buf ->
  exists rc buf', cipher_at G ctx cctx pgno SQLCIPHER_DECRYPT offset pData buf =
      Some (rc, ctx, buf') /\
    length buf' = length buf /\ take (Z.to_nat offset) buf' = take (Z.to_nat offset) buf /\
    (rc = SQLITE_OK \/ rc = SQLITE_ERROR).
Proof.
  intros W Hc Wc Ho Hp Hb. unfold cipher_at. pose proof (reserve_le ctx W).
  rewrite !ptr_at_ok by lia.
  destruct (page_cipher_decrypt G mask_nonempty ctx cctx p c pgno (page_sz ctx - offset)
    (drop (Z.to_nat offset) pData) (drop (Z.to_nat offset) buf))
    as (rc & out & -> & (Hl & _) & Hok & Hbad); [done|by apply page_pre_at|].
  destruct (take_frame buf out offset) as (L1 & L2 & L3); [lia|done|].
  do 2 eexists. split; [done|]. split_and!; [done..|].
  destruct (decide (rc = SQLITE_OK)) as [|Hne]; [by left|]. right. by apply Hbad.
Qed.

Lemma zero_from_ok (ctx : ctx_t) (buf : bytes) offset :
  0 <= offset <= page_sz ctx -> page_sz ctx <= len buf ->
  exists buf', zero_from ctx buf offset = Some buf' /\ length buf' = length buf /\
    buf' = take (Z.to_nat offset) buf ++ replicate (Z.to_nat (page_sz ctx - offset)) 0 ++
           drop (Z.to_nat (page_sz ctx)) buf.
Proof.
  intros Ho Hb. unfold zero_from. rewrite ptr_at_ok by lia.
  pose proof (sqlcipher_memset_spec (drop (Z.to_nat offset) buf) 0
    (Z.to_nat (page_sz ctx - offset)) ltac:(rewrite length_drop; lia)) as E.
  rewrite Z2Nat.id in E by lia. rewrite E. eexists. split; [done|].
  rewrite drop_drop. replace (Z.to_nat offset + Z.to_nat (page_sz ctx - offset))%nat
    with (Z.to_nat (page_sz ctx)) by lia.
  split; [|done]. rewrite !length_app, length_take, length_replicate, length_drop. lia.
Qed.

Lemma put_header_ok (ctx : ctx_t) b src offset :
  buffer ctx = Some b -> 0 <= offset -> offset <= len src -> offset <= len (b_data b) ->
  put_header ctx src offset =
  Some (take (Z.to_nat offset) src ++ drop (Z.to_nat offset) (b_data b)).
Proof.
  intros Eb Hz Hs Hb. unfold put_header. rewrite Eb, take_mem_read by lia.
  rewrite mem_write_total by (rewrite ?length_take; lia). simpl. repeat f_equal.
  rewrite length_take. lia.
Qed.

(** ** Reading and writing *)

(** A result that keeps the context well formed and the caller's page in size. *)
Definition io_ok (ctx : ctx_t) (h : A) (pData : bytes) (r : option codec_res) : Prop :=
  exists res, r = Some res /\ io_step ctx (cr_ctx res) /\ cr_heap res = h /\
    length (cr_data res) = length pData.

Lemma codec_read_ok (ctx : ctx_t) rng h pData pgno :
  codec_wf ctx -> 0 <= plaintext_header_sz ctx -> page_sz ctx <= len pData ->
  io_ok ctx h pData (codec_read G ctx rng h pData pgno (page_offset ctx pgno)).
Proof.
  intros W Hh Hp. set (offset := page_offset ctx pgno).
  pose proof (page_offset_ok ctx pgno W Hh) as Ho. fold offset in Ho.
  pose proof (reserve_le ctx W) as Hr. destruct (bw_page _ (cw_base _ W)) as [Hpg _].
  destruct (bw_buffer _ (cw_base _ W)) as (b & Eb & Lb). unfold codec_read. rewrite Eb.
  assert (Hbuf : exists buf, (if pgno =? 1
     then put_header ctx (if plaintext_header_sz ctx =? 0 then SQLITE_FILE_HEADER else pData) offset
     else Some (b_data b)) = Some buf /\ length buf = length (b_data b)).
  { case_cond; [|by eexists]. eexists. split.
    - apply put_header_ok; try done; try lia. case_cond; [|lia].
      subst offset. unfold page_offset. rewrite !(proj2 (Z.eqb_eq _ _)) by done. done.
    - rewrite length_app, length_take, length_drop. case_cond; [|lia].
      subst offset. unfold page_offset in *. rewrite !(proj2 (Z.eqb_eq _ _)) in * by done.
      unfold FILE_HEADER_SZ in *. simpl length. lia. }
  destruct Hbuf as (buf & -> & Lbuf).
  destruct (cw_read _ W) as (pr & r & Er & Wr & _).
  destruct (cipher_at_decrypt ctx CIPHER_READ_CTX pr r pgno offset pData buf)
    as (rc & buf2 & -> & L2 & _ & Hrc); [done..|lia|].
  assert (Hfin : exists ctx' buf3, (if rc <>? SQLITE_OK then
       let? buf := zero_from ctx buf2 offset in
       Some (if plaintext_header_sz ctx =? page_sz ctx - reserve_sz ctx then ctx
             else sqlcipher_codec_ctx_set_error ctx rc, buf)
     else Some (set_flags (FLAG_SET (flags ctx) CIPHER_FLAG_KEY_USED) ctx, buf2)) =
     Some (ctx', buf3) /\ io_step ctx ctx' /\ buffer ctx' = Some b /\
     length buf3 = length (b_data b)).
  { case_cond.
    - destruct (zero_from_ok ctx buf2 offset) as (buf3 & -> & L3 & _); [lia|lia|].
      do 2 eexists. split; [done|]. split_and!; [|by case_match|congruence].
      case_match; [apply io_refl|apply io_set_error].
    - do 2 eexists. split; [done|]. split_and!; [apply io_used|done|congruence]. }
  destruct Hfin as (ctx' & buf3 & -> & S & Eb' & L3).
  rewrite (io_page _ _ S), take_mem_read by lia.
  destruct (mem_write pData 0 _) as [d|] eqn:Ew;
    [|rewrite mem_write_total in Ew by (rewrite ?length_take; lia); done].
  apply mem_write_length in Ew. eexists. split; [done|]. split_and!; [|done|done].
  eapply io_trans; [exact S|]. by eapply io_buffer.
Qed.

Lemma io_salted (ctx ctx' : ctx_t) : salted ctx ctx' -> io_step ctx ctx'.
Proof.
  intros S. split; [by apply salted_wf|by intros; apply salted_allocs|..];
    by destruct S as (s & hs & f & pc & -> & _).
Qed.

Lemma salted_buffer (ctx ctx' : ctx_t) : salted ctx ctx' -> buffer ctx' = buffer ctx.
Proof. by intros (s & hs & f & pc & -> & _). Qed.

Lemma get_kdf_salt_ok (ctx : ctx_t) :
  base_wf ctx -> header_read_ok (pBt ctx) ->
  exists rc ctx' sb, sqlcipher_codec_ctx_get_kdf_salt ctx = Some (rc, Some sb, ctx') /\
    salted ctx ctx' /\ kdf_salt ctx' = Some sb /\ len (b_data sb) = FILE_HEADER_SZ.
Proof.
  intros Hb Hh. unfold sqlcipher_codec_ctx_get_kdf_salt.
  assert (Hi : exists rc ctx', (if negb (FLAG_GET (flags ctx) CIPHER_FLAG_HAS_KDF_SALT)
                then sqlcipher_codec_ctx_init_kdf_salt ctx else Some (SQLITE_OK, ctx)) =
                Some (rc, ctx') /\ salted ctx ctx').
  { case_cond.
    - destruct (init_kdf_salt_spec ctx Hb Hh) as (rc & ctx' & E & S & _). eauto.
    - do 2 eexists. split; [done|]. by apply salted_refl. }
  destruct Hi as (rc & ctx' & -> & S). pose proof (salted_base _ _ S Hb) as Hb'.
  destruct (bw_salt _ Hb') as (sb & Es & Ls). rewrite (bw_salt_sz _ Hb') in Ls.
  exists rc, ctx', sb. by rewrite Es.
Qed.

(** The plaintext part of an encrypted page. *)
Definition header_src (ctx : ctx_t) (salt pData : bytes) : bytes :=
  if plaintext_header_sz ctx =? 0 then salt else pData.

(** The header stage of a write. *)
Lemma write_header_ok (ctx : ctx_t) b pData pgno offset :
  codec_wf ctx -> header_read_ok (pBt ctx) -> 0 <= plaintext_header_sz ctx ->
  page_sz ctx <= len pData -> buffer ctx = Some b -> offset = page_offset ctx pgno ->
  exists hrc ctx1 buf,
    (if pgno =? 1 then
       let? (rc, salt, ctx) := sqlcipher_codec_ctx_get_kdf_salt ctx in
       if rc <>? SQLITE_OK then Some (rc, ctx, b_data b) else
       let? sb := salt in
       let? buf := put_header ctx (if plaintext_header_sz ctx =? 0
                                   then b_data sb else pData) offset in
       Some (SQLITE_OK, ctx, buf)
     else Some (SQLITE_OK, ctx, b_data b)) = Some (hrc, ctx1, buf) /\
    salted ctx ctx1 /\ length buf = length (b_data b) /\
    (hrc = SQLITE_OK -> pgno = 1 -> 0 < plaintext_header_sz ctx ->
     take (Z.to_nat offset) buf = take (Z.to_nat offset) pData).
Proof.
  intros W Hh Hp Hl Eb Eo. pose proof (cw_base _ W) as Hb.
  pose proof (page_offset_ok ctx pgno W Hp) as Ho. rewrite <- Eo in Ho.
  destruct (Z.eqb_spec pgno 1) as [->|Hn1].
  2:{ do 3 eexists. split; [done|]. split_and!; try done. by apply salted_refl. }
  destruct (get_kdf_salt_ok ctx Hb Hh) as (rc & ctx1 & sb & -> & S & Es & Ls).
  pose proof (reserve_le ctx W) as Hr.
  destruct (bw_buffer _ Hb) as (b' & Eb' & Lb). rewrite Eb in Eb'. injection Eb' as <-.
  case_cond.
  { do 3 eexists. split; [done|]. split_and!; try done. }
  pose proof (io_header _ _ (io_salted _ _ S)) as Eh. rewrite Eh.
  assert (Hsrc : offset <= len (if plaintext_header_sz ctx =? 0 then b_data sb else pData)).
  { rewrite Eo in Ho |- *. unfold page_offset in *. cbn [Z.eqb] in *.
    destruct (Z.eqb_spec (plaintext_header_sz ctx) 0); simpl in *; lia. }
  rewrite (put_header_ok ctx1 b); [|by rewrite (salted_buffer _ _ S)|lia|done|lia].
  do 3 eexists. split; [done|]. split_and!; [done| |].
  - rewrite length_app, length_take, length_drop. lia.
  - intros _ _ Hpos. rewrite (proj2 (Z.eqb_neq _ _)) by lia.
    rewrite take_app_le, take_take by (rewrite length_take; lia). f_equal. lia.
Qed.

(** ** File format *)

Lemma same_format_trans (a b c : ctx_t) : same_format a b -> same_format b c -> same_format a c.
Proof. intros [] []. split; intros; congruence. Qed.

(** Flags other than the three that determine the format. *)
Lemma format_flag f b : Z.land b 7 = 0 ->
  FLAG_GET (FLAG_SET f b) CIPHER_FLAG_HMAC = FLAG_GET f CIPHER_FLAG_HMAC /\
  forall n, pgno_raw (FLAG_SET f b) n = pgno_raw f n.
Proof.
  intros Hb.
  assert (E : forall m, Z.land m 7 = m -> FLAG_GET (FLAG_SET f b) m = FLAG_GET f m).
  { intros m Hm. unfold FLAG_GET, FLAG_SET. rewrite Z.land_lor_distr_l.
    assert (Z.land b m = 0) as ->; [|by rewrite Z.lor_0_r].
    rewrite <- Hm, (Z.land_comm m), Z.land_assoc, Hb. apply Z.land_0_l. }
  split; [by apply E|]. intros n. unfold pgno_raw. by rewrite !E.
Qed.

Lemma salted_format (ctx ctx' : ctx_t) : salted ctx ctx' -> same_format ctx ctx'.
Proof.
  intros (s & hs & f & pc & -> & _ & _ & _ & Hf). destruct Hf as [-> | ->]; [by split|].
  destruct (format_flag (flags ctx) CIPHER_FLAG_HAS_KDF_SALT) as [E1 E2]; [done|]. by split.
Qed.

Lemma used_format (ctx : ctx_t) :
  same_format ctx (set_flags (FLAG_SET (flags ctx) CIPHER_FLAG_KEY_USED) ctx).
Proof.
  destruct (format_flag (flags ctx) CIPHER_FLAG_KEY_USED) as [E1 E2]; [done|]. by split.
Qed.

(** What a successful write leaves: the buffer holds the page, sealed behind its
    plaintext part. *)
Record written (ctx : ctx_t) (cctx pgno : Z) (pData : bytes) (ctx' : ctx_t) : Prop := {
  wr_format : same_format ctx ctx';
  wr_error : error ctx' = error ctx;
  wr_page : exists p c b, ctx_for cctx ctx = Some (p, c) /\ buffer ctx' = Some b /\
    len (b_data b) = page_sz ctx /\
    (pgno = 1 -> 0 < plaintext_header_sz ctx ->
     take (Z.to_nat (page_offset ctx pgno)) (b_data b) =
     take (Z.to_nat (page_offset ctx pgno)) pData) /\
    ((pgno =? 1) && (page_sz ctx - page_offset ctx pgno - reserve_sz ctx =? 0) = false ->
     sealed G ctx c pgno (page_sz ctx - page_offset ctx pgno)
       (take (Z.to_nat (page_sz ctx - page_offset ctx pgno - reserve_sz ctx))
          (drop (Z.to_nat (page_offset ctx pgno)) pData))
       (drop (Z.to_nat (page_offset ctx pgno)) (b_data b)))
}.

(** The context at the end of a successful write. *)
Lemma written_intro (ctx ctx1 : ctx_t) cctx pgno pData pc buf b p c :
  salted ctx ctx1 -> buffer ctx = Some b -> ctx_for cctx ctx1 = Some (p, c) ->
  length buf = length (b_data b) -> len (b_data b) = page_sz ctx ->
  (pgno = 1 -> 0 < plaintext_header_sz ctx ->
   take (Z.to_nat (page_offset ctx pgno)) buf = take (Z.to_nat (page_offset ctx pgno)) pData) ->
  (if (pgno =? 1) && (page_sz ctx1 - page_offset ctx pgno - reserve_sz ctx1 =? 0) then True else
   sealed G ctx1 c pgno (page_sz ctx1 - page_offset ctx pgno)
     (take (Z.to_nat (page_sz ctx1 - page_offset ctx pgno - reserve_sz ctx1))
        (drop (Z.to_nat (page_offset ctx pgno)) pData))
     (drop (Z.to_nat (page_offset ctx pgno)) buf)) ->
  written ctx cctx pgno pData
    (set_flags (FLAG_SET (flags (set_provider_ctx (Some pc) ctx1)) CIPHER_FLAG_KEY_USED)
       (with_buffer (set_provider_ctx (Some pc) ctx1) buf)).
Proof.
  intros S Eb Hc Hl Hlb Ht Hs. pose proof (salted_format _ _ S) as F.
  pose proof (kf_error _ _ (salted_frame _ _ S)) as Er.
  assert (Eb1 : buffer ctx1 = Some b) by (by rewrite (salted_buffer _ _ S)).
  split.
  - eapply same_format_trans; [exact F|].
    destruct (used_format ctx1) as [? ? ? ? ? ? U1 U2]. split; try done; by apply U1 || apply U2.
  - exact Er.
  - exists p, c, (Buf (b_ptr b) buf). split.
    { revert Hc. unfold ctx_for. by rewrite (proj1 (salted_slots _ _ S)), (proj2 (salted_slots _ _ S)). }
    unfold with_buffer. simpl. rewrite Eb1. split_and!; [done|lia|done|].
    intros Hgo. rewrite <- (sf_page _ _ F), <- (sf_reserve _ _ F) in *. rewrite Hgo in Hs.
    eapply sealed_same_keys; [done| |exact Hs].
    destruct F. by split; intros; symmetry.
Qed.

Lemma codec_write_ok (ctx : ctx_t) rng (h : A) pData pgno cctx :
  codec_wf ctx -> header_read_ok (pBt ctx) -> 0 <= plaintext_header_sz ctx ->
  page_sz ctx <= len pData ->
  exists res, codec_write G ctx rng h pData pgno cctx (page_offset ctx pgno) = Some res /\
    io_step ctx (cr_ctx res) /\ cr_heap res = h /\ cr_data res = pData /\ cr_rng res = rng /\
    (cr_out res = OutNull \/ cr_out res = OutBuffer /\ written ctx cctx pgno pData (cr_ctx res)).
Proof.
  intros W Hh Hp Hl. set (offset := page_offset ctx pgno).
  pose proof (page_offset_ok ctx pgno W Hp) as Ho. fold offset in Ho.
  pose proof (reserve_le ctx W) as Hr.
  destruct (bw_buffer _ (cw_base _ W)) as (b & Eb & Lb). unfold codec_write. rewrite Eb.
  destruct (write_header_ok ctx b pData pgno offset W Hh Hp Hl Eb eq_refl)
    as (hrc & ctx1 & buf & -> & S & Lbuf & Htk). pose proof (io_salted _ _ S) as I1.
  destruct (Z.eqb_spec hrc SQLITE_OK) as [->|Hne]; cbn [negb].
  2:{ eexists. split; [done|]. split_and!; try done; [|by left].
      eapply io_trans; [exact I1|apply io_set_error]. }
  pose proof (io_wf _ _ I1 W) as W1. destruct (slot_ok ctx1 cctx W1) as (p & c & Hc & Wc & _).
  destruct (cipher_at_encrypt ctx1 cctx p c pgno offset pData buf)
    as (rc & pc & buf2 & -> & L2 & T2 & Hrc & Hok); [done..| |rewrite (io_page _ _ I1); lia|
    rewrite (io_page _ _ I1); lia|].
  { rewrite (io_page _ _ I1), (io_reserve _ _ I1). lia. }
  pose proof (io_trans _ _ _ I1 (io_prov ctx1 pc)) as I2.
  assert (Eb2 : buffer (set_provider_ctx (Some pc) ctx1) = Some b)
    by (simpl; by rewrite (salted_buffer _ _ S)).
  destruct (Z.eqb_spec rc SQLITE_OK) as [->|Hne]; cbn [negb].
  2:{ destruct (zero_from_ok (set_provider_ctx (Some pc) ctx1) buf2 offset) as (buf3 & -> & L3 & _);
        [simpl; rewrite (io_page _ _ I1); lia..|].
      eexists. split; [done|]. split_and!; try done; [|by left].
      eapply io_trans; [eapply io_trans; [exact I2|]|apply io_set_error].
      eapply io_buffer; [exact Eb2|congruence]. }
  eexists. split; [done|]. split_and!; try done.
  { exact (io_trans _ _ _ (io_trans _ _ _ I2 (io_buffer _ b buf2 Eb2 ltac:(congruence)))
      (io_used (with_buffer (set_provider_ctx (Some pc) ctx1) buf2))). }
  right. split; [done|]. cbn [cr_ctx].
  apply (written_intro ctx ctx1 cctx pgno pData pc buf2 b p c S Eb Hc ltac:(congruence) Lb);
    [|by apply Hok].
  intros H1 H2. fold offset. rewrite T2. by apply Htk.
Qed.

(** ** Reading back *)

(** The plaintext part that a read puts in front. *)
Definition read_header (ctx : ctx_t) (pgno : Z) (pData : bytes) : bytes :=
  if pgno =? 1 then take (Z.to_nat (page_offset ctx pgno))
    (if plaintext_header_sz ctx =? 0 then SQLITE_FILE_HEADER else pData) else [].

Lemma cipher_at_open (ctx : ctx_t) p c pgno offset (pData buf data : bytes) :
  codec_wf ctx -> read_ctx ctx = Some (p, c) -> cipher_wf (key_sz ctx) c ->
  0 <= offset <= page_sz ctx - reserve_sz ctx ->
  page_sz ctx <= len pData -> page_sz ctx <= len buf ->
  (if (pgno =? 1) && (page_sz ctx - offset - reserve_sz ctx =? 0) then data = [] else
   sealed G ctx c pgno (page_sz ctx - offset) data (drop (Z.to_nat offset) pData)) ->
  exists buf', cipher_at G ctx CIPHER_READ_CTX pgno SQLCIPHER_DECRYPT offset pData buf =
      Some (SQLITE_OK, ctx, buf') /\ length buf' = length buf /\
    take (Z.to_nat (page_sz ctx - reserve_sz ctx)) buf' = take (Z.to_nat offset) buf ++ data.
Proof.
  intros W Hc Wc Ho Hp Hb Hs. unfold cipher_at. pose proof (reserve_le ctx W).
  rewrite !ptr_at_ok by lia.
  pose proof (page_pre_at ctx c offset pData buf W Wc Ho Hp Hb) as Hpre.
  assert (Hrun : exists out, sqlcipher_page_cipher G ctx CIPHER_READ_CTX pgno SQLCIPHER_DECRYPT
      (page_sz ctx - offset) (drop (Z.to_nat offset) pData) (drop (Z.to_nat offset) buf) =
      Some (SQLITE_OK, ctx, out) /\ length out = length (drop (Z.to_nat offset) buf) /\
      mem_read out 0 (page_sz ctx - offset - reserve_sz ctx) = Some data).
  { destruct ((pgno =? 1) && _) eqn:Hgo.
    - destruct (page_cipher_decrypt G mask_nonempty ctx CIPHER_READ_CTX p c pgno _ _ _ Hc Hpre)
        as (rc & out & E & (Hl & _) & Hok & Hbad). rewrite Hgo in Hok. subst data.
      unfold sqlcipher_page_cipher, page_cipher_ctx in *. simpl in *. rewrite Hc, Hgo in *.
      eexists. split; [by rewrite set_read_self|]. split; [done|]. bool_to_prop.
      replace (page_sz ctx - offset - reserve_sz ctx) with 0 by lia.
      rewrite take_mem_read by lia. done.
    - destruct (page_cipher_open G mask_nonempty ctx CIPHER_READ_CTX p c pgno _ _ _ data Hc Hpre
        Hs Hgo) as (out & E & (Hl & _) & Hd). by exists out. }
  destruct Hrun as (out & -> & Hl & Hd).
  destruct (take_frame buf out offset) as (L1 & L2 & L3); [lia|done|].
  eexists. split; [done|]. split; [done|].
  rewrite length_drop in Hl. rewrite take_mem_read in Hd by lia. injection Hd as <-.
  rewrite take_app_ge by (rewrite length_take; lia). f_equal. f_equal.
  rewrite length_take. lia.
Qed.

Lemma codec_read_open (ctx : ctx_t) rng (h : A) pData pgno p c data :
  codec_wf ctx -> 0 <= plaintext_header_sz ctx -> page_sz ctx <= len pData ->
  read_ctx ctx = Some (p, c) ->
  (if (pgno =? 1) && (page_sz ctx - page_offset ctx pgno - reserve_sz ctx =? 0) then data = []
   else sealed G ctx c pgno (page_sz ctx - page_offset ctx pgno) data
          (drop (Z.to_nat (page_offset ctx pgno)) pData)) ->
  exists res, codec_read G ctx rng h pData pgno (page_offset ctx pgno) = Some res /\
    cr_out res = OutData /\ error (cr_ctx res) = error ctx /\
    take (Z.to_nat (page_sz ctx - reserve_sz ctx)) (cr_data res) =
      read_header ctx pgno pData ++ data.
Proof.
  intros W Hh Hp Hc Hs. set (offset := page_offset ctx pgno) in *.
  pose proof (page_offset_ok ctx pgno W Hh) as Ho. fold offset in Ho.
  pose proof (reserve_le ctx W) as Hr.
  destruct (bw_buffer _ (cw_base _ W)) as (b & Eb & Lb). unfold codec_read. rewrite Eb.
  set (src := if plaintext_header_sz ctx =? 0 then SQLITE_FILE_HEADER else pData).
  assert (Hbuf : exists buf, (if pgno =? 1 then put_header ctx src offset
     else Some (b_data b)) = Some buf /\ length buf = length (b_data b) /\
     take (Z.to_nat offset) buf = read_header ctx pgno pData).
  { unfold read_header. fold offset src. destruct (Z.eqb_spec pgno 1) as [->|Hn1].
    - assert (Hsrc : offset <= len src).
      { subst src offset. unfold page_offset in *. cbn [Z.eqb] in *.
        destruct (Z.eqb_spec (plaintext_header_sz ctx) 0); unfold FILE_HEADER_SZ in *;
          simpl in *; lia. }
      eexists. split; [by apply put_header_ok; try done; lia|].
      rewrite length_app, length_take, length_drop. split; [lia|].
      rewrite take_app_le, take_take by (rewrite length_take; lia). f_equal. lia.
    - eexists. split; [done|]. split; [done|]. subst offset. unfold page_offset.
      by rewrite (proj2 (Z.eqb_neq _ _) Hn1). }
  destruct Hbuf as (buf & -> & Lbuf & Tbuf).
  destruct (cw_read _ W) as (pr & r & Er & Wr & _). rewrite Hc in Er. injection Er as <- <-.
  destruct (cipher_at_open ctx p c pgno offset pData buf data) as (buf2 & -> & L2 & T2);
    [done..|lia|done|].
  cbn [negb Z.eqb SQLITE_OK]. change (page_sz (set_flags _ ctx)) with (page_sz ctx).
  rewrite take_mem_read by lia. rewrite mem_write_total by (rewrite ?length_take; lia).
  eexists. split; [done|]. split; [done|]. split; [done|]. cbn [cr_data].
  change (take (Z.to_nat 0) pData) with (@nil Z). rewrite app_nil_l.
  rewrite take_app_le, take_take by (rewrite length_take; lia).
  rewrite Nat.min_l by lia. by rewrite T2, Tbuf.
Qed.

(** ** The callback *)

Lemma codec_ok addr rng (ctx : ctx_t) p (h : A) pData pgno mode L :
  codec_wf ctx -> header_read_ok (pBt ctx) -> passes_full ctx ->
  owns h (codec_allocs p ctx) L -> page_sz ctx <= len pData ->
  exists res, sqlite3Codec G addr rng ctx h pData pgno mode = Some res /\
    codec_wf (cr_ctx res) /\ owns (cr_heap res) (codec_allocs p (cr_ctx res)) L /\
    length (cr_data res) = length pData.
Proof.
  intros W Hh Hp Ho Hl. unfold sqlite3Codec.
  destruct (bw_page _ (cw_base _ W)) as [Hpg _].
  assert (Hio : forall (c c' : ctx_t) (d : bytes) out rng' (h' : A), codec_wf c ->
    owns h' (codec_allocs p c) L -> io_step c c' -> length d = length pData ->
    exists res, Some (CodecRes out d c' rng' h') = Some res /\ codec_wf (cr_ctx res) /\
      owns (cr_heap res) (codec_allocs p (cr_ctx res)) L /\ length (cr_data res) = length pData).
  { intros c c' d out rng' h' Wc Hoc S Hd. eexists. split; [done|]. simpl.
    rewrite (io_allocs _ _ S). split_and!; [by apply S|done|done]. }
  destruct (error ctx <>? SQLITE_OK) eqn:Ee.
  { case_cond; [|eapply Hio; try done; apply io_set_error].
    pose proof (sqlcipher_memset_spec pData 0 (Z.to_nat (page_sz ctx)) ltac:(lia)) as E.
    rewrite Z2Nat.id in E by lia.
    change (page_sz (sqlcipher_codec_ctx_set_error ctx (error ctx))) with (page_sz ctx).
    rewrite E. eapply Hio; [done..|apply io_set_error|].
    rewrite length_app, length_replicate, length_drop. lia. }
  destruct (key_derive_both G mask_nonempty addr rng ctx p h L W Hh Hp Ho)
    as (rc & ctx1 & rng1 & h1 & -> & W1 & Ho1 & F1 & Hrc & _).
  case_cond; [eapply Hio; try done; apply io_set_error|].
  destruct (Z.ltb_spec (plaintext_header_sz ctx1) 0) as [Hneg|Hpos];
    [eapply Hio; try done; apply io_set_error|].
  fold (page_offset ctx1 pgno). pose proof (kf_page _ _ F1) as Epg.
  assert (Hh1 : header_read_ok (pBt ctx1)) by (by rewrite (kf_bt _ _ F1)).
  assert (Hw : forall cctx, exists res,
    codec_write G ctx1 rng1 h1 pData pgno cctx (page_offset ctx1 pgno) = Some res /\
    codec_wf (cr_ctx res) /\ owns (cr_heap res) (codec_allocs p (cr_ctx res)) L /\
    length (cr_data res) = length pData).
  { intros cctx. destruct (codec_write_ok ctx1 rng1 h1 pData pgno cctx)
      as (res & E & S & Eh & Ed & _); [done|done|done|lia|].
    exists res. split; [done|]. rewrite (io_allocs _ _ S), Eh, Ed. split_and!; [by apply S|done|done]. }
  repeat case_cond; [|apply Hw|apply Hw|eapply Hio; try done; apply io_set_error].
  destruct (codec_read_ok ctx1 rng1 h1 pData pgno) as (res & E & S & Eh & Hd); [done|done|lia|].
  exists res. split; [done|]. rewrite (io_allocs _ _ S), Eh. split_and!; [by apply S|done|done].
Qed.

(** A keyed context goes through the derivation with its keys. *)
Lemma key_derive_keyed addr rng (ctx : ctx_t) p (h : A) L :
  codec_wf ctx -> keyed ctx -> owns h (codec_allocs p ctx) L ->
  exists pr r r' pw w w' h', read_ctx ctx = Some (pr, r) /\ write_ctx ctx = Some (pw, w) /\
    sqlcipher_codec_key_derive G addr rng ctx h =
      Some (SQLITE_OK, set_write_ctx (Some (pw, w')) (set_read_ctx (Some (pr, r')) ctx), rng, h') /\
    codec_wf (set_write_ctx (Some (pw, w')) (set_read_ctx (Some (pr, r')) ctx)) /\
    owns h' (codec_allocs p (set_write_ctx (Some (pw, w')) (set_read_ctx (Some (pr, r')) ctx))) L /\
    same_keys G r r' /\ same_keys G w w' /\ derive_key r' = 0 /\ derive_key w' = 0.
Proof.
  intros W [(pr & r & Er & Dr) (pw & w & Ew & Dw)] Ho.
  destruct (cw_read _ W) as (? & ? & Er' & Wr & Pr). rewrite Er in Er'. injection Er' as <- <-.
  destruct (cw_write _ W) as (? & ? & Ew' & Ww & Pw). rewrite Ew in Ew'. injection Ew' as <- <-.
  unfold sqlcipher_codec_key_derive, derive_write.
  rewrite Er, Dr. cbn [Z.eqb negb SQLITE_OK]. rewrite Ew, Dw.
  change (0 =? 0) with true. change (SQLITE_OK <>? SQLITE_OK) with false. cbn iota.
  destruct (store_pass ctx <>? 1).
  - destruct (drop_passes_spec ctx p h L W Ho) as (r1 & w1 & pr1 & pw1 & h' & Er1 & Ew1 & E & Ho').
    rewrite Er in Er1. injection Er1 as <- <-. rewrite Ew in Ew1. injection Ew1 as <- <-.
    exists pr, r, (unpassed r), pw, w, (unpassed w), h'. rewrite E.
    split_and!; try done. apply set_write_wf; [apply set_read_wf; [done|apply Wr|done]|apply Ww|done].
  - exists pr, r, r, pw, w, w, h.
    rewrite (set_read_self ctx) by done. rewrite (set_write_self ctx) by done. by split_and!.
Qed.

(** The page read back from what a write left in the buffer. *)
Lemma read_written (ctx1 ctx3 : ctx_t) rng (h : A) pgno pData b p c w pw :
  codec_wf ctx1 -> codec_wf ctx3 -> same_format ctx1 ctx3 -> error ctx3 = SQLITE_OK ->
  0 <= plaintext_header_sz ctx1 -> len pData = page_sz ctx1 ->
  (pgno = 1 -> plaintext_header_sz ctx1 = 0 -> take 16 pData = SQLITE_FILE_HEADER) ->
  ctx_for CIPHER_WRITE_CTX ctx1 = Some (pw, w) -> read_ctx ctx3 = Some (p, c) ->
  same_keys G w c -> len (b_data b) = page_sz ctx1 ->
  (pgno = 1 -> 0 < plaintext_header_sz ctx1 ->
     take (Z.to_nat (page_offset ctx1 pgno)) (b_data b) =
     take (Z.to_nat (page_offset ctx1 pgno)) pData) ->
  ((pgno =? 1) && (page_sz ctx1 - page_offset ctx1 pgno - reserve_sz ctx1 =? 0) = false ->
     sealed G ctx1 w pgno (page_sz ctx1 - page_offset ctx1 pgno)
       (take (Z.to_nat (page_sz ctx1 - page_offset ctx1 pgno - reserve_sz ctx1))
          (drop (Z.to_nat (page_offset ctx1 pgno)) pData))
       (drop (Z.to_nat (page_offset ctx1 pgno)) (b_data b))) ->
  exists res2, codec_read G ctx3 rng h (b_data b) pgno (page_offset ctx3 pgno) = Some res2 /\
    cr_out res2 = OutData /\ error (cr_ctx res2) = SQLITE_OK /\
    take (Z.to_nat (page_sz ctx1 - reserve_sz ctx1)) (cr_data res2) =
    take (Z.to_nat (page_sz ctx1 - reserve_sz ctx1)) pData.
Proof.
  intros W1 W3 F Ee Hh Hl H16 Hw Hr Hk Hb Hhd Hs.
  assert (Eo : page_offset ctx3 pgno = page_offset ctx1 pgno)
    by (unfold page_offset; by rewrite (sf_header _ _ F)).
  pose proof (page_offset_ok ctx1 pgno W1 Hh) as Ho. pose proof (reserve_le _ W1) as Hrv.
  set (off := page_offset ctx1 pgno) in *.
  set (data := take (Z.to_nat (page_sz ctx1 - off - reserve_sz ctx1)) (drop (Z.to_nat off) pData)) in *.
  destruct (codec_read_open ctx3 rng h (b_data b) pgno p c data) as (res2 & E & Eout & Eerr & Ed);
    rewrite ?(sf_header _ _ F), ?(sf_page _ _ F), ?(sf_reserve _ _ F), ?Eo in *; try done; try lia.
  { destruct ((pgno =? 1) && _) eqn:Hgo.
    - bool_to_prop. subst data. replace (page_sz ctx1 - off - reserve_sz ctx1) with 0 by lia. done.
    - eapply sealed_same_keys; [exact Hk|exact F|by apply Hs]. }
  exists res2. split_and!; [done|done|congruence|]. rewrite Ed.
  assert (Hhdr : read_header ctx3 pgno (b_data b) = take (Z.to_nat off) pData).
  { unfold read_header. rewrite Eo, (sf_header _ _ F). destruct (Z.eqb_spec pgno 1) as [->|Hn].
    - destruct (Z.eqb_spec (plaintext_header_sz ctx1) 0) as [E0|E0].
      + rewrite <- (H16 eq_refl E0). subst off. unfold page_offset. rewrite E0.
        change (Z.to_nat _) with 16%nat. by rewrite take_take.
      + apply Hhd; [done|lia].
    - subst off. unfold page_offset. by rewrite (proj2 (Z.eqb_neq _ _) Hn). }
  rewrite Hhdr. subst data.
  replace (Z.to_nat (page_sz ctx1 - reserve_sz ctx1)) with
    (Z.to_nat off + Z.to_nat (page_sz ctx1 - off - reserve_sz ctx1))%nat by lia.
  by rewrite take_take_drop.
Qed.

Lemma same_material_keys (ctx : ctx_t) pr r pw w :
  same_material ctx -> read_ctx ctx = Some (pr, r) -> write_ctx ctx = Some (pw, w) ->
  same_keys G w r.
Proof.
  intros (? & ? & ? & ? & E1 & E2 & Hk & Hh) Er Ew. rewrite Er in E1. injection E1 as <- <-.
  rewrite Ew in E2. injection E2 as <- <-. unfold same_keys, enc_key, mac_key.
  destruct (key r), (key w), (hmac_key r), (hmac_key w); simplify_eq/=; split; congruence.
Qed.

Lemma same_keys_trans c d e : same_keys G c d -> same_keys G d e -> same_keys G c e.
Proof. intros [] []. split; congruence. Qed.
Lemma same_keys_sym c d : same_keys G c d -> same_keys G d c.
Proof. by intros []. Qed.

(** The dispatch of a call that gets past the derivation. *)
Lemma codec_dispatch addr rng (ctx ctx1 : ctx_t) rng1 (h h1 : A) pData pgno :
  error ctx = SQLITE_OK ->
  sqlcipher_codec_key_derive G addr rng ctx h = Some (SQLITE_OK, ctx1, rng1, h1) ->
  0 <= plaintext_header_sz ctx1 ->
  sqlite3Codec G addr rng ctx h pData pgno CODEC_READ_OP =
    codec_read G ctx1 rng1 h1 pData pgno (page_offset ctx1 pgno) /\
  sqlite3Codec G addr rng ctx h pData pgno CODEC_WRITE_OP =
    codec_write G ctx1 rng1 h1 pData pgno CIPHER_WRITE_CTX (page_offset ctx1 pgno).
Proof.
  intros He Ed Hp. unfold sqlite3Codec. rewrite He, Ed.
  change (SQLITE_OK <>? SQLITE_OK) with false. cbn iota.
  by rewrite (proj2 (Z.ltb_ge _ _) Hp).
Qed.

(** ** Properties *)

(** C5: the pager callback is memory safe for every page, page number, mode, provider and
    allocator behaviour, keeps the invariant of the context and the ledger of its
    allocations, and never changes the size of the caller's page. *)
Theorem codec_memory_safe addr rng (ctx : ctx_t) p (h : A) pData pgno mode L :
  codec_wf ctx -> header_read_ok (pBt ctx) -> passes_full ctx ->
  owns h (codec_allocs p ctx) L -> page_sz ctx <= len pData ->
  exists res, sqlite3Codec G addr rng ctx h pData pgno mode = Some res /\
    codec_wf (cr_ctx res) /\ owns (cr_heap res) (codec_allocs p (cr_ctx res)) L /\
    length (cr_data res) = length pData.
Proof. apply codec_ok. Qed.

(** C2: end to end, what the pager writes through the callback it reads back: after a
    write of a page that handed out the encrypted buffer, a read of that buffer under the
    same page number succeeds and yields the original page up to the reserve (page 1
    starts with the SQLite file header unless it has a plaintext header). *)
Theorem codec_write_read addr rng (ctx : ctx_t) p (h : A) pData pgno L res b :
  codec_wf ctx -> header_read_ok (pBt ctx) -> keyed ctx -> same_material ctx ->
  error ctx = SQLITE_OK -> 0 <= plaintext_header_sz ctx -> owns h (codec_allocs p ctx) L ->
  len pData = page_sz ctx ->
  (pgno = 1 -> plaintext_header_sz ctx = 0 -> take 16 pData = SQLITE_FILE_HEADER) ->
  sqlite3Codec G addr rng ctx h pData pgno CODEC_WRITE_OP = Some res ->
  cr_out res = OutBuffer -> buffer (cr_ctx res) = Some b ->
  exists res2,
    sqlite3Codec G addr (cr_rng res) (cr_ctx res) (cr_heap res) (b_data b) pgno CODEC_READ_OP =
      Some res2 /\
    cr_out res2 = OutData /\ error (cr_ctx res2) = SQLITE_OK /\
    take (Z.to_nat (page_sz ctx - reserve_sz ctx)) (cr_data res2) =
    take (Z.to_nat (page_sz ctx - reserve_sz ctx)) pData.
Proof.
  intros W Hh Hkd Hsm He Hp Ho Hl H16 E Eout Eb.
  destruct (key_derive_keyed addr rng ctx p h L W Hkd Ho)
    as (pr & r & r1 & pw & w & w1 & h1 & Er & Ew & Ed & W1 & Ho1 & Kr & Kw & Dr & Dw).
  set (ctx1 := set_write_ctx _ _) in *.
  rewrite (proj2 (codec_dispatch addr rng ctx ctx1 rng h h1 pData pgno He Ed Hp)) in E.
  destruct (codec_write_ok ctx1 rng h1 pData pgno CIPHER_WRITE_CTX W1 Hh Hp)
    as (res' & E' & S & Eheap & _ & Erng & Hout); [subst ctx1; simpl; lia|].
  rewrite E' in E. injection E as ->. rewrite Erng, Eheap.
  destruct Hout as [|[_ [F Err Hpg]]]; [congruence|].
  destruct Hpg as (q & c & b' & Hc & Eb' & Lb & Hhd & Hs). rewrite Eb in Eb'. injection Eb' as <-.
  injection Hc as <- <-. pose proof (io_wf _ _ S W1) as W2.
  destruct (key_derive_keyed addr rng (cr_ctx res) p h1 L W2)
    as (pr2 & r2 & r3 & pw2 & w2 & w3 & h2 & Er2 & Ew2 & Ed2 & W3 & Ho3 & Kr2 & _ & _).
  { split; [exists pr, r1; by rewrite (io_read _ _ S)|exists pw, w1; by rewrite (io_write _ _ S)]. }
  { by rewrite (io_allocs _ _ S). }
  rewrite (io_read _ _ S) in Er2. injection Er2 as <- <-.
  set (ctx3 := set_write_ctx _ (set_read_ctx _ (cr_ctx res))) in *.
  assert (F3 : same_format ctx1 ctx3) by (destruct F; by split).
  assert (Hp3 : 0 <= plaintext_header_sz ctx3) by (rewrite (sf_header _ _ F3); exact Hp).
  rewrite (proj1 (codec_dispatch addr rng (cr_ctx res) ctx3 rng h1 h2 (b_data b) pgno
    (eq_trans Err He) Ed2 Hp3)).
  apply (read_written ctx1 ctx3 rng h2 pgno pData b pr r3 w1 pw W1 W3 F3); try done.
  - exact (eq_trans Err He).
  - eapply same_keys_trans; [apply same_keys_sym; exact Kw|].
    eapply same_keys_trans; [by eapply same_material_keys|].
    eapply same_keys_trans; [exact Kr|exact Kr2].
Qed.

(** An error is sticky: once the context is in an error state every call keeps that
    error, reports it to the B-tree, runs no cryptography, and hands out zeros to a read
    and nothing to a write. *)
Theorem codec_error_sticky addr rng (ctx : ctx_t) (h : A) pData pgno mode :
  error ctx <> SQLITE_OK -> 0 <= page_sz ctx <= len pData ->
  exists res, sqlite3Codec G addr rng ctx h pData pgno mode = Some res /\
    error (cr_ctx res) = error ctx /\ bt_errCode (pBt (cr_ctx res)) = error ctx /\
    cr_heap res = h /\
    (if mode =? CODEC_READ_OP
     then cr_out res = OutData /\
          take (Z.to_nat (page_sz ctx)) (cr_data res) = replicate (Z.to_nat (page_sz ctx)) 0
     else cr_out res = OutNull /\ cr_data res = pData).
Proof.
  intros He Hl. unfold sqlite3Codec. rewrite (proj2 (Z.eqb_neq _ _) He). cbn [negb].
  case_cond; [|by eexists].
  change (page_sz (sqlcipher_codec_ctx_set_error ctx (error ctx))) with (page_sz ctx).
  pose proof (sqlcipher_memset_spec pData 0 (Z.to_nat (page_sz ctx)) ltac:(lia)) as E.
  rewrite Z2Nat.id in E by lia. rewrite E. eexists. split; [done|]. split_and!; try done.
  cbn [cr_data]. rewrite take_app_length'; [done|]. by rewrite length_replicate.
Qed.
End Main.

(** ** Witnesses *)

Definition demo_pg : bytes := (fun i => Z.of_nat i mod 251) <$> seq 0 512.
Definition demo_write : option codec_res :=
  sqlite3Codec demo_globals 0 (Xo 1 2 3 4) demo_ctx demo_heap demo_pg 3 CODEC_WRITE_OP.

Lemma demo_write_out : cr_out <$> demo_write = Some OutBuffer.
Proof. vm_compute. reflexivity. Qed.

Lemma demo_keyed : keyed demo_ctx.
Proof. split; by do 2 eexists. Qed.

Lemma demo_same_material : same_material demo_ctx.
Proof. exists 50, (demo_cipher 50), 60, (demo_cipher 60). by split_and!. Qed.

Lemma codec_memory_safe_witness :
  exists res, sqlite3Codec demo_globals 0 (Xo 1 2 3 4) demo_ctx demo_heap demo_pg 7
      CODEC_READ_OP = Some res /\
    codec_wf (cr_ctx res) /\ owns (cr_heap res) (codec_allocs 5 (cr_ctx res)) [] /\
    length (cr_data res) = length demo_pg.
Proof.
  apply (codec_memory_safe demo_globals ltac:(done) 0 (Xo 1 2 3 4) demo_ctx 5).
  - exact demo_wf.
  - exact I.
  - split; intros p c [= <- <-]; by split.
  - exact demo_owns.
  - vm_compute. discriminate.
Defined.

Lemma codec_write_read_witness :
  exists res b res2, demo_write = Some res /\
    sqlite3Codec demo_globals 0 (cr_rng res) (cr_ctx res) (cr_heap res) (b_data b) 3
      CODEC_READ_OP = Some res2 /\
    cr_out res2 = OutData /\ take 504 (cr_data res2) = take 504 demo_pg.
Proof.
  pose proof demo_write_out as Eo. destruct demo_write as [res|] eqn:E; [|discriminate].
  injection Eo as Eo. unfold demo_write in E.
  assert (Hb : exists b, buffer (cr_ctx res) = Some b).
  { destruct (codec_ok demo_globals ltac:(done) 0 (Xo 1 2 3 4) demo_ctx 5 demo_heap demo_pg 3
      CODEC_WRITE_OP []) as (res' & E' & W & _); try exact demo_wf; try exact demo_owns.
    - exact I.
    - split; intros p c [= <- <-]; by split.
    - vm_compute. discriminate.
    - rewrite E' in E. injection E as ->. destruct (bw_buffer _ (cw_base _ W)) as (b & -> & _).
      by exists b. }
  destruct Hb as [b Hb]. exists res, b.
  destruct (codec_write_read demo_globals ltac:(done) 0 (Xo 1 2 3 4) demo_ctx 5 demo_heap demo_pg
    3 [] res b) as (res2 & E2 & O2 & _ & D2);
    [exact demo_wf|exact I|exact demo_keyed|exact demo_same_material|reflexivity|vm_compute; discriminate
    |exact demo_owns|reflexivity|discriminate|exact E|exact Eo|exact Hb|].
  exists res2. split; [reflexivity|]. split; [exact E2|]. split; [exact O2|exact D2].
Defined.

Lemma codec_error_sticky_witness :
  exists res, sqlite3Codec demo_globals 0 (Xo 1 2 3 4) (set_error SQLITE_ERROR demo_ctx) demo_heap
      demo_pg 7 CODEC_READ_OP = Some res /\
    error (cr_ctx res) = SQLITE_ERROR /\ bt_errCode (pBt (cr_ctx res)) = SQLITE_ERROR /\
    cr_heap res = demo_heap /\
    cr_out res = OutData /\ take 512 (cr_data res) = replicate 512 0.
Proof.
  exact (codec_error_sticky demo_globals 0 (Xo 1 2 3 4) (set_error SQLITE_ERROR demo_ctx) demo_heap
    demo_pg 7 CODEC_READ_OP ltac:(discriminate) ltac:(split; vm_compute; discriminate)).
Defined.

(** ** The plaintext header is not checked again *)

(** A sequence of configuration calls that all report success. *)
Fixpoint config_all (ops : list config_op) (ctx : codec_ctx demo_provider) (h : ledger)
  : option (codec_ctx demo_provider * ledger) :=
  match ops with
  | [] => Some (ctx, h)
  | op :: ops' =>
      let? (rc, ctx, h) := config_run op ctx h in
      if rc =? SQLITE_OK then config_all ops' ctx h else None
  end.

Definition header_ops : list config_op :=
  [CfgPageSize 1024; CfgHeaderSize 1000; CfgPageSize 512].

Definition overrun_run : option (option codec_out) :=
  let? (ctx, h) := config_all header_ops demo_ctx demo_heap in
  Some (cr_out <$> sqlite3Codec demo_globals 0 (Xo 1 2 3 4) ctx h demo_pg 1 CODEC_WRITE_OP).

