(* ===== verification/Integrity.v ===== *)
(** * The integrity check of src/sqlcipher.c

    [sqlcipher_codec_ctx_integrity_check] walks the database file page by page and
    reports every page whose stored HMAC is not the HMAC of its contents.

    The open file is a parameter: the page its pager keeps for the pending-byte lock, what
    its size query answers, and what a read of some bytes at an offset stores in the buffer. The result rows are the texts the check
    hands to the statement; [mprintf] is what formatting a message answers (null when
    memory is out, and then a fixed text is used).

    [integrity_check_exact] shows that the check is silent exactly on the files whose
    every page carries a valid tag and whose size is a whole number of pages;
    [integrity_accepts_sealed] that it is silent on what the codec writes. *)

From S2P Require Import Prelude CipherUtil UtilStr UtilNum CodecCtx Demo CodecCrypto.
From S2P Require Import CodecPage CodecInv CodecKey CodecMain.
Import MemOps Xoshiro.

(** ** The file *)

Record dbfile := DbFile {
  f_lckPgno : Z;                   (* the pager's lckPgno *)
  f_size : Z * Z;                  (* sqlite3OsFileSize: return code, size *)
  f_read : Z -> Z -> Z * bytes     (* sqlite3OsRead of amount, offset: return code, data *)
}.

(** ** Messages *)

Inductive report :=
| NoFile | NoHmac | NoKeys | NoFileSize | NoMemory | BadHeaderSize
| ReadError (read_sz page offset : Z)
| HmacFailed (page : Z)
| HmacMismatch (page : Z)
| BadFileSize (page rest page_sz : Z).

Definition report_text (mprintf : bytes -> option bytes) (r : report) : bytes :=
  let or_oom := fun msg oom => from_option id oom (mprintf msg) in
  match r with
  | NoFile => text "database file is undefined"
  | NoHmac => text "HMAC is not enabled, unable to integrity check"
  | NoKeys => text "unable to derive keys"
  | NoFileSize => text "failed to determine file size"
  | NoMemory => text "unable to allocate memory for hmac"
  | BadHeaderSize => text "invalid plaintext header size"
  | ReadError read_sz page offset =>
      or_oom (text "error reading " ++ fmt_d read_sz ++ text " bytes from file page " ++
              fmt_d page ++ text " at offset " ++ fmt_d offset)
             (text "error reading from file (OOM)")
  | HmacFailed page => or_oom (text "HMAC operation failed for page " ++ fmt_d page)
                         (text "HMAC operation failed (OOM)")
  | HmacMismatch page => or_oom (text "HMAC verification failed for page " ++ fmt_d page)
                           (text "HMAC verification failed (OOM)")
  | BadFileSize page rest page_sz =>
      or_oom (text "page " ++ fmt_d page ++ text " has an invalid size of " ++ fmt_d rest ++
              text " bytes (expected " ++ fmt_d page_sz ++ text " bytes)")
             (text "page has an invalid size (OOM)")
  end.

Section Integrity.
Context {A : Type} `{Allocator A} {P : provider} (G : globals).
Abbreviation ctx_t := (codec_ctx P).

(** *** One page *)

(** [PAGER_SJ_PGNO]: the page of the pending-byte lock has no content. *)
Definition sqlite3pager_is_sj_pgno (fd : dbfile) (page : Z) : bool := f_lckPgno fd =? page.

(** How much of a page is checked, and where it stands in the file: the first page leaves
    out the salt or the plaintext header. *)
Definition page1_offset (ctx : ctx_t) (page : Z) : Z :=
  if page =? 1 then (if plaintext_header_sz ctx <>? 0 then plaintext_header_sz ctx
                     else FILE_HEADER_SZ) else 0.

Record check_state := CheckState {
  ck_rows : list report;
  ck_ctx : ctx_t;
  ck_hmac : bytes
}.

(** The HMAC of the page in [buf] and its comparison with the stored one. *)
Definition check_tag (page payload_sz : Z) (rows : list report) (ctx : ctx_t)
  (buf hmac_out : bytes) : option check_state :=
  let? (pr, r) := read_ctx ctx in
  let? (rc, tag, r) := sqlcipher_page_hmac G ctx r page buf payload_sz in
  let? hmac_out := mem_write hmac_out 0 tag in
  let ctx := set_read_ctx (Some (pr, r)) ctx in
  if rc <>? SQLITE_OK then Some (CheckState (rows ++ [HmacFailed page]) ctx hmac_out) else
  let? stored := ptr_at buf payload_sz in
  let? differ := sqlcipher_memcmp stored hmac_out (hmac_sz ctx) in
  if differ <>? 0 then Some (CheckState (rows ++ [HmacMismatch page]) ctx hmac_out)
  else Some (CheckState rows ctx hmac_out).

(** The read and the comparison for a page that is not skipped. *)
Definition check_page (fd : dbfile) (page : Z) (st : check_state) : option check_state :=
  let ctx := ck_ctx st in
  let skip := page1_offset ctx page in
  let offset := (page - 1) * page_sz ctx + skip in
  let payload_sz := page_sz ctx - reserve_sz ctx + iv_sz ctx - skip in
  let read_sz := page_sz ctx - skip in
  let? b := buffer ctx in
  let? z := sqlcipher_memset (Some (b_data b)) 0 (page_sz ctx) in
  let? buf := z in
  let? z := sqlcipher_memset (Some (ck_hmac st)) 0 (hmac_sz ctx) in
  let? hmac_out := z in
  let '(rc, data) := f_read fd read_sz offset in
  let? buf := mem_write buf 0 data in
  let ctx := set_buffer (Some (Buf (b_ptr b) buf)) ctx in
  if rc <>? SQLITE_OK then
    Some (CheckState (ck_rows st ++ [ReadError read_sz page offset]) ctx hmac_out)
  else check_tag page payload_sz (ck_rows st) ctx buf hmac_out.

Definition check_step (fd : dbfile) (page : Z) (st : check_state) : option check_state :=
  if sqlite3pager_is_sj_pgno fd page then Some st else check_page fd page st.

(** The loop over the pages and the test of the size. The page number is an unsigned
    32-bit counter: a file of 2^32 pages or more would make the loop run forever. *)
Definition check_file (fd : dbfile) (file_sz : Z) (st : check_state) : option check_state :=
  let n := Z.quot file_sz (page_sz (ck_ctx st)) in
  if (page_sz (ck_ctx st) =? 0) || (2 ^ 32 <=? n) then None else
  let? st := for_up 1 (n + 1) 1 (check_step fd) st in
  let sz := page_sz (ck_ctx st) in
  Some (if Z.rem file_sz sz <>? 0
        then CheckState (ck_rows st ++ [BadFileSize (Z.max 0 n + 1) (file_sz - n * sz) sz])
               (ck_ctx st) (ck_hmac st)
        else st).

(** Return code, result rows, and the new state. *)
Definition sqlcipher_codec_ctx_integrity_check (addr : Z) (rng : xoshiro) (ctx : ctx_t)
  (fd : option dbfile) (h : A) : option (Z * list report * ctx_t * xoshiro * A) :=
  match fd with
  | None => Some (SQLITE_OK, [NoFile], ctx, rng, h)
  | Some fd =>
      if negb (FLAG_GET (flags ctx) CIPHER_FLAG_HMAC)
      then Some (SQLITE_OK, [NoHmac], ctx, rng, h) else
      let? (rc, ctx, rng, h) := sqlcipher_codec_key_derive G addr rng ctx h in
      if rc <>? SQLITE_OK then Some (SQLITE_OK, [NoKeys], ctx, rng, h) else
      let '(rc, file_sz) := f_size fd in
      if rc <>? SQLITE_OK then Some (SQLITE_OK, [NoFileSize], ctx, rng, h) else
      let? (r, h) := alloc_buf (hmac_sz ctx) h in
      match r with
      | None => Some (SQLITE_OK, [NoMemory], ctx, rng, h)
      | Some hb =>
          if plaintext_header_sz ctx <? 0 then
            let? h := a_free (b_ptr hb) (hmac_sz ctx) h in
            Some (SQLITE_OK, [BadHeaderSize], ctx, rng, h)
          else
          let? st := check_file fd file_sz (CheckState [] ctx (b_data hb)) in
          let? h := a_free (b_ptr hb) (hmac_sz ctx) h in
          Some (SQLITE_OK, ck_rows st, ck_ctx st, rng, h)
      end
  end.

End Integrity.

(** ** What the check decides *)

Section Exact.
Context {A : Type} `{AllocatorOk A} {P : provider} `{!ProviderOk P} (G : globals).
Context (mask_nonempty : sqlcipher_shield_mask G <> []).
Abbreviation ctx_t := (codec_ctx P).

(** The handle gives access to the contents [file]: its size, and the bytes of every range
    inside it. *)
Definition reads_file (fd : dbfile) (file : bytes) : Prop :=
  f_size fd = (SQLITE_OK, len file) /\
  forall amt off, 0 <= amt -> 0 <= off -> off + amt <= len file ->
    f_read fd amt off = (SQLITE_OK, take (Z.to_nat amt) (drop (Z.to_nat off) file)).

(** The part of a page that is encrypted and authenticated, as it stands in the file. *)
Definition page_slice (ctx : ctx_t) (file : bytes) (page : Z) : bytes :=
  take (Z.to_nat (page_sz ctx - page_offset ctx page))
    (drop (Z.to_nat ((page - 1) * page_sz ctx + page_offset ctx page)) file).

Definition page_authentic (ctx : ctx_t) (c : cipher_ctx) (file : bytes) (page : Z) : Prop :=
  tag_valid G ctx c page (page_sz ctx - page_offset ctx page) (page_slice ctx file page).

Lemma page1_offset_eq (ctx : ctx_t) page : page1_offset ctx page = page_offset ctx page.
Proof.
  unfold page1_offset, page_offset. destruct (page =? 1); [|done].
  by destruct (plaintext_header_sz ctx =? 0).
Qed.

(** The context with other contents in its buffer. *)
Definition rebuf (ctx : ctx_t) (d : bytes) : ctx_t := with_buffer ctx d.

(** The states the loop passes through: the context up to the contents of its buffer. *)
Definition check_inv (ctx : ctx_t) (st : check_state) : Prop :=
  exists d, ck_ctx st = rebuf ctx d /\ len d = page_sz ctx /\ len (ck_hmac st) = hmac_sz ctx.

Lemma tag_valid_read (ctx : ctx_t) c pgno n page rc tag :
  page_tag G ctx c pgno (take (Z.to_nat (n - reserve_sz ctx + iv_sz ctx)) page) = (rc, tag) ->
  0 <= n - reserve_sz ctx + iv_sz ctx <= len page ->
  tag_valid G ctx c pgno n page <->
  rc = SQLITE_OK /\ mem_read page (n - reserve_sz ctx + iv_sz ctx) (hmac_sz ctx) = Some tag.
Proof.
  intros E Hn. unfold tag_valid. rewrite take_mem_read by done. split.
  - intros (body & tag' & [= <-] & Et & E'). rewrite E in E'. by simplify_eq.
  - intros [-> Et]. by exists (take (Z.to_nat (n - reserve_sz ctx + iv_sz ctx)) page), tag.
Qed.

Lemma memset_all (b : bytes) n : 0 <= n -> len b = n ->
  sqlcipher_memset (Some b) 0 n = Some (Some (replicate (Z.to_nat n) 0)).
Proof.
  intros Hn Hb. pose proof (sqlcipher_memset_spec b 0 (Z.to_nat n) ltac:(lia)) as E.
  rewrite Z2Nat.id in E by lia. rewrite E, drop_ge, app_nil_r by lia. done.
Qed.

Lemma write_front (b src : bytes) : (length src <= length b)%nat ->
  mem_write b 0 src = Some (src ++ drop (length src) b).
Proof. intros Hl. by rewrite mem_write_total by lia. Qed.

(** The comparison of the stored tag with the computed one, in the check's buffers. *)
Lemma compare_stored (slice tail tag : bytes) off n : 0 <= off -> 0 <= n -> off + n <= len slice ->
  len tag = n ->
  exists stored r, ptr_at (slice ++ tail) off = Some stored /\
    sqlcipher_memcmp stored tag n = Some r /\ (r = 0 <-> mem_read slice off n = Some tag).
Proof.
  intros Ho Hn Hs Ht. rewrite ptr_at_ok by (rewrite length_app; lia).
  pose proof (sqlcipher_memcmp_spec (drop (Z.to_nat off) (slice ++ tail)) tag (Z.to_nat n)) as E.
  rewrite Z2Nat.id, length_drop, length_app in E by lia. do 2 eexists. split; [done|].
  split; [apply E; lia|]. rewrite mem_read_total by lia.
  rewrite drop_app_le by lia. rewrite take_app_le by (rewrite length_drop; lia).
  rewrite (take_ge tag) by lia. clear E. case_decide; split; congruence.
Qed.

(** The second half: a report exactly when the tag is not valid. *)
Lemma check_tag_spec (ctx : ctx_t) pr c page n rows s tail :
  geometry_wf ctx -> FLAG_GET (flags ctx) CIPHER_FLAG_HMAC = true ->
  read_ctx ctx = Some (pr, c) -> cipher_wf (key_sz ctx) c -> reserve_sz ctx <= n -> len s = n ->
  exists out new, check_tag G page (n - reserve_sz ctx + iv_sz ctx) rows ctx (s ++ tail)
      (replicate (Z.to_nat (hmac_sz ctx)) 0) = Some (CheckState (rows ++ new) ctx out) /\
    len out = hmac_sz ctx /\ (new = [] <-> tag_valid G ctx c page n s).
Proof.
  intros Hg Hm Er Wc Hn Ls. destruct (geo_sizes _ Hg) as (_ & Hiv & Hhs & Hres).
  specialize (Hres Hm). set (pay := n - reserve_sz ctx + iv_sz ctx). unfold check_tag. rewrite Er.
  rewrite (page_hmac_spec G mask_nonempty ctx c page (s ++ tail) pay Wc)
    by (unfold pay; rewrite length_app; lia).
  rewrite take_app_le by (unfold pay; lia).
  destruct (page_tag G ctx c page (take (Z.to_nat pay) s)) as [rc tag] eqn:Et.
  destruct (page_tag_ok G ctx c page _ rc tag Hg Et) as [Hl Hok]. cbn [fst snd].
  rewrite write_front by (rewrite length_replicate; lia). rewrite (set_read_self ctx) by done.
  pose proof (tag_valid_read ctx c page n s rc tag Et ltac:(unfold pay; lia)) as Hv.
  fold pay in Hv. destruct (Z.eqb_spec rc SQLITE_OK) as [->|Hrc]; cbn [negb].
  2:{ eexists _, [HmacFailed page]. split; [done|]. split.
      - rewrite length_app, length_drop, length_replicate. lia.
      - split; [done|]. intros [? _]%Hv. done. }
  specialize (Hok eq_refl). rewrite drop_ge, app_nil_r by (rewrite length_replicate; lia).
  destruct (compare_stored s tail tag pay (hmac_sz ctx)) as (stored & r & -> & -> & Hr);
    [unfold pay; lia..|].
  destruct (Z.eqb_spec r 0) as [->|Hne]; cbn [negb].
  - exists tag, []. rewrite app_nil_r. split; [done|]. split; [done|]. split; [|done].
    intros _. apply Hv. split; [done|]. by apply Hr.
  - exists tag, [HmacMismatch page]. split; [done|]. split; [done|]. split; [done|].
    intros [_ Hx]%Hv. by apply Hr in Hx.
Qed.

Lemma rebuf_twice (ctx : ctx_t) b d e :
  buffer ctx = Some b -> set_buffer (Some (Buf (b_ptr b) e)) (rebuf ctx d) = rebuf ctx e.
Proof. intros E. unfold rebuf, with_buffer. by rewrite E. Qed.

Lemma slice_bounds (ctx : ctx_t) file page : codec_wf ctx -> 0 <= plaintext_header_sz ctx ->
  1 <= page <= len file / page_sz ctx ->
  0 <= (page - 1) * page_sz ctx + page_offset ctx page /\
  (page - 1) * page_sz ctx + page_offset ctx page + (page_sz ctx - page_offset ctx page) <=
    len file /\
  len (page_slice ctx file page) = page_sz ctx - page_offset ctx page.
Proof.
  intros W Hp Hpg. destruct (bw_page _ (cw_base _ W)) as [Hps _].
  pose proof (page_offset_ok ctx page W Hp). pose proof (reserve_le ctx W).
  pose proof (Z.mul_div_le (len file) (page_sz ctx) ltac:(lia)).
  assert (page * page_sz ctx <= len file) by nia.
  split_and!; [nia|nia|]. unfold page_slice. rewrite length_take, length_drop. nia.
Qed.

(** One page: a report exactly when its tag is not valid. *)
Lemma check_page_spec (ctx : ctx_t) fd file pr c page st :
  codec_wf ctx -> read_ctx ctx = Some (pr, c) -> 0 <= plaintext_header_sz ctx ->
  FLAG_GET (flags ctx) CIPHER_FLAG_HMAC = true -> reads_file fd file ->
  1 <= page <= len file / page_sz ctx -> check_inv ctx st ->
  exists st' new, check_page G fd page st = Some st' /\ check_inv ctx st' /\
    ck_rows st' = ck_rows st ++ new /\ (new = [] <-> page_authentic ctx c file page).
Proof.
  intros W Er Hp Hm [_ Hrd] Hpg (d & Ec & Hd & Hh). unfold check_page. rewrite Ec.
  destruct (bw_buffer _ (cw_base _ W)) as (b & Eb & Lb).
  pose proof (codec_wf_geo ctx W) as Hg. destruct (geo_sizes _ Hg) as (_ & Hiv & Hhs & _).
  pose proof (page_offset_ok ctx page W Hp) as Hof. pose proof (reserve_le ctx W).
  destruct (cw_read _ W) as (? & ? & Er' & Wc & _). rewrite Er in Er'. injection Er' as <- <-.
  cbv zeta. rewrite page1_offset_eq. change (page_offset (rebuf ctx d)) with (page_offset ctx).
  destruct (slice_bounds ctx file page W Hp Hpg) as (Hs1 & Hs2 & Ls).
  change (buffer (rebuf ctx d)) with ((fun b => Buf (b_ptr b) d) <$> buffer ctx).
  rewrite Eb. cbn [fmap option_fmap option_map b_ptr b_data].
  change (page_sz (rebuf ctx d)) with (page_sz ctx).
  change (reserve_sz (rebuf ctx d)) with (reserve_sz ctx).
  change (iv_sz (rebuf ctx d)) with (iv_sz ctx). change (hmac_sz (rebuf ctx d)) with (hmac_sz ctx).
  rewrite (memset_all d), (memset_all (ck_hmac st)) by lia. rewrite Hrd by lia.
  fold (page_slice ctx file page). set (s := page_slice ctx file page) in *.
  rewrite write_front by (rewrite length_replicate; lia). rewrite (rebuf_twice ctx b) by done.
  change (SQLITE_OK <>? SQLITE_OK) with false. cbn iota.
  set (tail := drop (length s) (replicate (Z.to_nat (page_sz ctx)) 0)).
  destruct (check_tag_spec (rebuf ctx (s ++ tail)) pr c page
    (page_sz ctx - page_offset ctx page) (ck_rows st) s tail) as (out & new & E & Lo & Hnew);
    [by destruct Hg|done|done|done|cbn; lia|done|].
  change (reserve_sz (rebuf _ _)) with (reserve_sz ctx) in E.
  change (iv_sz (rebuf _ _)) with (iv_sz ctx) in E.
  replace (page_sz ctx - reserve_sz ctx + iv_sz ctx - page_offset ctx page)
    with (page_sz ctx - page_offset ctx page - reserve_sz ctx + iv_sz ctx) by lia.
  eexists _, new. split; [exact E|]. split; [|done]. exists (s ++ tail). split_and!; [done| |done].
  unfold tail. rewrite length_app, length_drop, length_replicate. lia.
Qed.

(** All pages: silence exactly when every page but the lock page is authentic. *)
Lemma check_loop_spec (ctx : ctx_t) fd file pr c d0 h0 n :
  codec_wf ctx -> read_ctx ctx = Some (pr, c) -> 0 <= plaintext_header_sz ctx ->
  FLAG_GET (flags ctx) CIPHER_FLAG_HMAC = true -> reads_file fd file ->
  Z.of_nat n <= len file / page_sz ctx -> len d0 = page_sz ctx -> len h0 = hmac_sz ctx ->
  exists st, for_n n 1 1 (check_step G fd) (CheckState [] (rebuf ctx d0) h0) = Some st /\
    check_inv ctx st /\
    (ck_rows st = [] <-> forall k, 1 <= k <= Z.of_nat n -> k <> f_lckPgno fd ->
                           page_authentic ctx c file k).
Proof.
  intros W Er Hp Hm Hrd Hn Ld Lh.
  apply (for_n_ind (fun m st => check_inv ctx st /\
    (ck_rows st = [] <-> forall k, 1 <= k <= Z.of_nat m -> k <> f_lckPgno fd ->
                           page_authentic ctx c file k))).
  { split; [by exists d0|]. split; [intros _ k Hk; lia|done]. }
  intros m st Hm' [Hinv Hrows]. unfold check_step, sqlite3pager_is_sj_pgno.
  replace (1 + Z.of_nat m * 1) with (Z.of_nat (S m)) by lia.
  destruct (Z.eqb_spec (f_lckPgno fd) (Z.of_nat (S m))) as [El|Hl].
  - exists st. split; [done|]. split; [done|]. rewrite Hrows. split; intros Hk k ? ?; apply Hk; lia.
  - destruct (check_page_spec ctx fd file pr c (Z.of_nat (S m)) st) as (st' & new & E & Hi & Er' & Hnew);
      [done..|lia|done|].
    exists st'. split; [done|]. split; [done|]. rewrite Er', app_nil, Hrows, Hnew. split.
    + intros [H1 H2] k Hk ?. destruct (decide (k = Z.of_nat (S m))) as [->|]; [done|]. apply H1; lia.
    + intros Hk. split; [intros k ? ?; apply Hk; lia|]. apply Hk; lia.
Qed.

(** The whole file: silence exactly when, besides, the size is a whole number of pages. *)
Definition file_authentic (ctx : ctx_t) (c : cipher_ctx) (lck : Z) (file : bytes) : Prop :=
  len file mod page_sz ctx = 0 /\
  forall k, 1 <= k <= len file / page_sz ctx -> k <> lck -> page_authentic ctx c file k.

Lemma check_file_spec (ctx : ctx_t) fd file pr c h0 :
  codec_wf ctx -> read_ctx ctx = Some (pr, c) -> 0 <= plaintext_header_sz ctx ->
  FLAG_GET (flags ctx) CIPHER_FLAG_HMAC = true -> reads_file fd file ->
  len file / page_sz ctx < 2 ^ 32 -> len h0 = hmac_sz ctx ->
  exists st, check_file G fd (len file) (CheckState [] ctx h0) = Some st /\
    check_inv ctx st /\ (ck_rows st = [] <-> file_authentic ctx c (f_lckPgno fd) file).
Proof.
  intros W Er Hp Hm Hrd Hn Lh. unfold check_file. cbn [ck_ctx].
  destruct (bw_page _ (cw_base _ W)) as [Hps _]. destruct (bw_buffer _ (cw_base _ W)) as (b & Eb & Lb).
  assert (Eself : rebuf ctx (b_data b) = ctx).
  { unfold rebuf, with_buffer. rewrite Eb. destruct ctx, b. simpl in *. by subst. }
  pose proof (Z.div_pos (len file) (page_sz ctx) ltac:(lia) ltac:(lia)).
  rewrite Z.quot_div_nonneg by lia. rewrite (proj2 (Z.eqb_neq (page_sz ctx) 0)) by lia.
  rewrite (proj2 (Z.leb_gt (2 ^ 32) _)) by lia. cbn [orb]. rewrite for_up_1.
  set (n := Z.to_nat (len file / page_sz ctx + 1 - 1)).
  destruct (check_loop_spec ctx fd file pr c (b_data b) h0 n) as (st & E & Hi & Hrows);
    [done..|unfold n; lia|done|done|].
  rewrite Eself in E. rewrite E.
  pose proof Hi as (d & Ec & Ld & Lo). rewrite Ec. change (page_sz (rebuf ctx d)) with (page_sz ctx).
  rewrite Z.rem_mod_nonneg by lia.
  assert (En : Z.of_nat n = len file / page_sz ctx) by (unfold n; lia). rewrite En in Hrows.
  unfold file_authentic. destruct (Z.eqb_spec (len file mod page_sz ctx) 0) as [->|Hne]; cbn [negb].
  - exists st. split; [done|]. split; [done|]. rewrite Hrows. tauto.
  - eexists. split; [done|]. split; [by exists d|]. cbn [ck_rows]. split.
    + by intros [_ [=]]%app_nil.
    + by intros [? _].
Qed.

Lemma authentic_same_keys (ctx : ctx_t) c d lck file : same_keys G c d ->
  file_authentic ctx c lck file <-> file_authentic ctx d lck file.
Proof.
  intros [_ E]. unfold file_authentic, page_authentic, tag_valid, page_tag. by rewrite E.
Qed.

Lemma check_inv_wf (ctx : ctx_t) st p : codec_wf ctx -> check_inv ctx st ->
  codec_wf (ck_ctx st) /\ codec_allocs p (ck_ctx st) = codec_allocs p ctx.
Proof.
  intros W (d & -> & Ld & _). destruct (bw_buffer _ (cw_base _ W)) as (b & Eb & Lb).
  destruct (io_buffer ctx b d Eb ltac:(lia)) as [Hw Ha]. split; [by apply Hw|apply Ha].
Qed.

(** A run of the check on a keyed context. *)
Lemma integrity_check_spec addr rng (ctx : ctx_t) p (h : A) L fd file pr c :
  codec_wf ctx -> keyed ctx -> read_ctx ctx = Some (pr, c) ->
  FLAG_GET (flags ctx) CIPHER_FLAG_HMAC = true -> 0 <= plaintext_header_sz ctx ->
  owns h (codec_allocs p ctx) L -> reads_file fd file -> len file / page_sz ctx < 2 ^ 32 ->
  exists rows ctx' h',
    sqlcipher_codec_ctx_integrity_check G addr rng ctx (Some fd) h =
      Some (SQLITE_OK, rows, ctx', rng, h') /\
    codec_wf ctx' /\ owns h' (codec_allocs p ctx') L /\
    (rows = [NoMemory] \/ (rows = [] <-> file_authentic ctx c (f_lckPgno fd) file)).
Proof.
  intros W Hk Er Hm Hp Ho Hrd Hn. unfold sqlcipher_codec_ctx_integrity_check. rewrite Hm. cbn [negb].
  destruct (key_derive_keyed G addr rng ctx p h L W Hk Ho)
    as (pr' & r & r1 & pw & w & w1 & h1 & Er' & Ew & -> & W1 & Ho1 & Kr & _).
  rewrite Er in Er'. injection Er' as <- <-. set (ctx1 := set_write_ctx _ _) in *.
  change (SQLITE_OK <>? SQLITE_OK) with false. cbn iota. pose proof Hrd as [-> _].
  change (SQLITE_OK <>? SQLITE_OK) with false. cbn iota.
  destruct (geo_sizes _ (codec_wf_geo _ W1)) as (_ & _ & Hh & _).
  destruct (owns_alloc_buf h1 _ L (hmac_sz ctx1) Ho1 Hh) as (rb & h2 & -> & Ho2 & Lb).
  destruct rb as [hb|].
  2:{ exists [NoMemory], ctx1, h2. split; [done|]. split; [done|]. split; [done|]. by left. }
  rewrite (proj2 (Z.ltb_ge (plaintext_header_sz ctx1) 0)) by done.
  destruct (check_file_spec ctx1 fd file pr r1 (b_data hb)) as (st & -> & Hi & Hrows);
    [done..|by apply Lb|].
  destruct (owns_free h2 (b_ptr hb) (hmac_sz ctx1) _ L Ho2) as (h3 & -> & Ho3).
  destruct (check_inv_wf ctx1 st p W1 Hi) as [W2 Ea].
  exists (ck_rows st), (ck_ctx st), h3. split; [done|]. split; [done|]. rewrite Ea. split; [done|].
  right. rewrite Hrows, (authentic_same_keys ctx c r1) by done. done.
Qed.

(** A file whose every page the codec has sealed under its number is authentic. *)
Lemma sealed_authentic (ctx : ctx_t) c lck file :
  codec_wf ctx -> 0 <= plaintext_header_sz ctx -> FLAG_GET (flags ctx) CIPHER_FLAG_HMAC = true ->
  len file mod page_sz ctx = 0 ->
  (forall k, 1 <= k <= len file / page_sz ctx -> k <> lck ->
   exists data, sealed G ctx c k (page_sz ctx - page_offset ctx k) data (page_slice ctx file k)) ->
  file_authentic ctx c lck file.
Proof.
  intros W Hp Hm Hsz Hs. split; [done|]. intros k Hk Hl. destruct (Hs k Hk Hl) as (data & Hd).
  unfold page_authentic. eapply sealed_tag_valid; [by apply codec_wf_geo| |exact Hd|done].
  pose proof (page_offset_ok ctx k W Hp). lia.
Qed.

(** ** Properties *)

(** C28: the integrity check is exact: on a keyed context with HMAC it always returns, keeps
    the context and the ledger, and, unless it ran out of memory, it reports nothing if and
    only if the size of the file is a whole number of pages and every page but the lock page
    stores the HMAC of its own contents and page number. *)
Theorem integrity_check_exact addr rng (ctx : ctx_t) p (h : A) L fd file pr c :
  codec_wf ctx -> keyed ctx -> read_ctx ctx = Some (pr, c) ->
  FLAG_GET (flags ctx) CIPHER_FLAG_HMAC = true -> 0 <= plaintext_header_sz ctx ->
  owns h (codec_allocs p ctx) L -> reads_file fd file -> len file / page_sz ctx < 2 ^ 32 ->
  exists rows ctx' h',
    sqlcipher_codec_ctx_integrity_check G addr rng ctx (Some fd) h =
      Some (SQLITE_OK, rows, ctx', rng, h') /\
    codec_wf ctx' /\ owns h' (codec_allocs p ctx') L /\
    (rows = [NoMemory] \/ (rows = [] <-> file_authentic ctx c (f_lckPgno fd) file)).
Proof. apply integrity_check_spec. Qed.

(** a database whose pages were all sealed by the codec under their page numbers passes
    the integrity check without a report. *)
Theorem integrity_accepts_sealed addr rng (ctx : ctx_t) p (h : A) L fd file pr c :
  codec_wf ctx -> keyed ctx -> read_ctx ctx = Some (pr, c) ->
  FLAG_GET (flags ctx) CIPHER_FLAG_HMAC = true -> 0 <= plaintext_header_sz ctx ->
  owns h (codec_allocs p ctx) L -> reads_file fd file -> len file / page_sz ctx < 2 ^ 32 ->
  len file mod page_sz ctx = 0 ->
  (forall k, 1 <= k <= len file / page_sz ctx -> k <> f_lckPgno fd ->
   exists data, sealed G ctx c k (page_sz ctx - page_offset ctx k) data (page_slice ctx file k)) ->
  exists rows ctx' h',
    sqlcipher_codec_ctx_integrity_check G addr rng ctx (Some fd) h =
      Some (SQLITE_OK, rows, ctx', rng, h') /\ (rows = [NoMemory] \/ rows = []).
Proof.
  intros W Hk Er Hm Hp Ho Hrd Hn Hsz Hs.
  destruct (integrity_check_spec addr rng ctx p h L fd file pr c W Hk Er Hm Hp Ho Hrd Hn)
    as (rows & ctx' & h' & E & _ & _ & Hrows).
  exists rows, ctx', h'. split; [done|]. destruct Hrows as [?|Hrows]; [by left|right].
  apply Hrows. by apply sealed_authentic.
Qed.
End Exact.

(** ** Witnesses *)

(** A file held in memory; a read past its end fails. *)
Definition mem_file (lck : Z) (file : bytes) : dbfile :=
  DbFile lck (SQLITE_OK, len file) (fun amt off =>
    match mem_read file off amt with Some d => (SQLITE_OK, d) | None => (522, []) end).

Lemma mem_file_reads lck file : reads_file (mem_file lck file) file.
Proof.
  split; [done|]. intros amt off H1 H2 H3. simpl. by rewrite mem_read_total by lia.
Qed.

(** A page of the demonstration database, and a file that starts with the lock page. *)
Definition demo_data : bytes := (fun i => Z.of_nat i mod 251) <$> seq 0 504.
Definition demo_sealed : bytes :=
  from_option (fun r => r.2) []
    (sqlcipher_page_cipher demo_globals demo_ctx CIPHER_WRITE_CTX 2 SQLCIPHER_ENCRYPT 512
       (demo_data ++ replicate 8 0) (replicate 512 0)).
Definition demo_file : bytes := replicate 512 0 ++ demo_sealed.

Lemma integrity_check_exact_witness :
  exists rows ctx' h',
    sqlcipher_codec_ctx_integrity_check demo_globals 0 (Xo 1 2 3 4) demo_ctx
      (Some (mem_file 0 demo_file)) demo_heap = Some (SQLITE_OK, rows, ctx', Xo 1 2 3 4, h') /\
    codec_wf ctx' /\ owns h' (codec_allocs 5 ctx') [] /\
    (rows = [NoMemory] \/
     (rows = [] <-> file_authentic demo_globals demo_ctx (demo_cipher 50) 0 demo_file)).
Proof.
  apply (integrity_check_exact demo_globals ltac:(done) 0 (Xo 1 2 3 4) demo_ctx 5 demo_heap []
    (mem_file 0 demo_file) demo_file 50 (demo_cipher 50)).
  - exact demo_wf.
  - exact demo_keyed.
  - reflexivity.
  - reflexivity.
  - vm_compute. discriminate.
  - exact demo_owns.
  - apply mem_file_reads.
  - vm_compute. reflexivity.
Defined.

Lemma integrity_accepts_sealed_witness :
  exists rows ctx' h',
    sqlcipher_codec_ctx_integrity_check demo_globals 0 (Xo 1 2 3 4) demo_ctx
      (Some (mem_file 1 demo_file)) demo_heap = Some (SQLITE_OK, rows, ctx', Xo 1 2 3 4, h') /\
    (rows = [NoMemory] \/ rows = []).
Proof.
  apply (integrity_accepts_sealed demo_globals ltac:(done) 0 (Xo 1 2 3 4) demo_ctx 5 demo_heap []
    (mem_file 1 demo_file) demo_file 50 (demo_cipher 50)).
  - exact demo_wf.
  - exact demo_keyed.
  - reflexivity.
  - reflexivity.
  - vm_compute. discriminate.
  - exact demo_owns.
  - apply mem_file_reads.
  - vm_compute. reflexivity.
  - vm_compute. reflexivity.
  - intros k Hk Hl. assert (len demo_file / page_sz demo_ctx = 2) as E by (vm_compute; reflexivity).
    rewrite E in Hk. simpl in Hl. assert (k = 2) as -> by lia. exists demo_data.
    exists (take 4 (drop 504 demo_sealed)), (take 504 demo_sealed).
    split; [vm_compute; reflexivity|]. split; [vm_compute; reflexivity|].
    split; [vm_compute; reflexivity|]. split; [vm_compute; reflexivity|].
    intros _. exists (take 4 (drop 508 demo_sealed)).
    split; [vm_compute; reflexivity|vm_compute; reflexivity].
Defined.
