(* ===== verification/Pragma.v ===== *)
(** * The PRAGMA interface of src/sqlcipher.c

    [sqlcipher_codec_pragma]: the configuration interface of a connection. The chain of
    [if( sqlite3_stricmp(zLeft, "..")==0 )] is the table [pragma_table], in the order of
    the source; each entry has its guard on the presence of an argument and its action.

    The model is the build without SQLCIPHER_TEST. What the handler takes from other parts
    of the program is the argument [env]: the answers of [sqlite3_mprintf] and
    [sqlite3_malloc], the provider's descriptions, [sqlite3BtreeSetPageSize], the log and
    profile targets (files and devices) and [sqlcipher_codec_ctx_migrate].

    Result rows are pairs of a column name and a text. Texts are lists of bytes; an
    argument is a C string, with its terminator.

    [pragma_safe]: every pragma is memory safe and keeps the ledger of allocations;
    [compatibility_exact]: the settings each compatibility version selects;
    [settings_replay]: the output of [cipher_settings], executed on another context,
    reproduces the settings. *)

From S2P Require Import Prelude CipherUtil UtilStr UtilNum CodecCtx Demo CodecCrypto.
From S2P Require Import CodecPage CodecInv CodecKey CodecMain Integrity.
Import Hex MemOps Xoshiro.

(** ** Arguments *)

(** [atoi] of the C library; a value outside the range of [int] is undefined. *)
Fixpoint atoi_digits (z : bytes) (acc : Z) : option Z :=
  match z with
  | [] => None
  | c :: z' => if sqlite3Isdigit c then atoi_digits z' (acc * 10 + (c - 48)) else Some acc
  end.

Fixpoint atoi_space (z : bytes) : option bytes :=
  match z with
  | [] => None
  | c :: z' => if sqlite3Isspace c then atoi_space z' else Some z
  end.

Definition atoi (z : bytes) : option Z :=
  let? z := atoi_space z in
  let? c := mem_get z 0 in
  let? v := (if c =? 45 then let? n := atoi_digits (drop 1 z) 0 in Some (- n)
             else if c =? 43 then atoi_digits (drop 1 z) 0 else atoi_digits z 0) in
  if (- 2 ^ 31 <=? v) && (v <? 2 ^ 31) then Some v else None.

(** [getSafetyLevel] and [sqlite3GetBoolean] of src/pragma.c: the words with their
    lengths and values. *)
Definition safety_words : list (Z * Z * Z) :=
  [(0, 2, 1); (1, 2, 0); (2, 3, 0); (4, 5, 0); (9, 3, 1); (12, 4, 1); (15, 5, 3); (20, 4, 2)].

Fixpoint safety_loop (words : list (Z * Z * Z)) (z : bytes) (n : Z) (omitFull : bool)
  (dflt : Z) : option Z :=
  match words with
  | [] => Some dflt
  | (off, iLength, iValue) :: words =>
      if iLength =? n then
        let? zText := ptr_at (lit "onoffalseyestruextrafull") off in
        let? d := sqlite3_strnicmp (Some zText) (Some z) n in
        if (d =? 0) && (negb omitFull || (iValue <=? 1)) then Some iValue
        else safety_loop words z n omitFull dflt
      else safety_loop words z n omitFull dflt
  end.

Definition getSafetyLevel (z : bytes) (omitFull : bool) (dflt : Z) : option Z :=
  let? c := mem_get z 0 in
  if sqlite3Isdigit c then let? v := sqlite3Atoi z in Some (if v <>? 0 then 1 else 0) else
  let? n := sqlite3Strlen30 (Some z) in
  safety_loop safety_words z n omitFull dflt.

Definition sqlite3GetBoolean (z : bytes) (dflt : Z) : option bool :=
  let? v := getSafetyLevel z true dflt in Some (v <>? 0).

(** ** Labels *)

Definition SQLCIPHER_HMAC_SHA1 : Z := 0.
Definition SQLCIPHER_HMAC_SHA256 : Z := 1.
Definition SQLCIPHER_HMAC_SHA512 : Z := 2.
Definition SQLCIPHER_PBKDF2_HMAC_SHA1 : Z := 0.
Definition SQLCIPHER_PBKDF2_HMAC_SHA256 : Z := 1.
Definition SQLCIPHER_PBKDF2_HMAC_SHA512 : Z := 2.

Definition hmac_labels : list (Z * bytes) :=
  [(SQLCIPHER_HMAC_SHA1, text "HMAC_SHA1"); (SQLCIPHER_HMAC_SHA256, text "HMAC_SHA256");
   (SQLCIPHER_HMAC_SHA512, text "HMAC_SHA512")].
Definition kdf_labels : list (Z * bytes) :=
  [(SQLCIPHER_PBKDF2_HMAC_SHA1, text "PBKDF2_HMAC_SHA1");
   (SQLCIPHER_PBKDF2_HMAC_SHA256, text "PBKDF2_HMAC_SHA256");
   (SQLCIPHER_PBKDF2_HMAC_SHA512, text "PBKDF2_HMAC_SHA512")].

(** [if(sqlite3_stricmp(z, label1)==0) .. else if(sqlite3_stricmp(z, label2)==0) ..] *)
Fixpoint label_value (labels : list (Z * bytes)) (z : bytes) : option (option Z) :=
  match labels with
  | [] => Some None
  | (v, l) :: labels =>
      let? d := sqlite3_stricmp (Some z) (Some (l ++ [0])) in
      if d =? 0 then Some (Some v) else label_value labels z
  end.

(** [if(v == v1) label1 else if(v == v2) label2 ..] *)
Fixpoint label_of (labels : list (Z * bytes)) (v : Z) : option bytes :=
  match labels with
  | [] => None
  | (w, l) :: labels => if v =? w then Some l else label_of labels v
  end.

(** ** Log levels and sources *)

Definition SQLCIPHER_LOG_NONE : Z := 0.
Definition SQLCIPHER_LOG_ANY : Z := 0xffffffff.
Definition log_levels : list (Z * bytes) :=
  [(1, text "ERROR"); (2, text "WARN"); (4, text "INFO"); (8, text "DEBUG"); (16, text "TRACE")].
Definition log_sources : list (Z * bytes) :=
  [(1, text "CORE"); (2, text "MEMORY"); (4, text "MUTEX"); (8, text "PROVIDER")].

Definition sqlcipher_get_log_level_str (level : Z) : bytes :=
  from_option id (text "NONE")
    (label_of (log_levels ++ [(SQLCIPHER_LOG_ANY, text "ANY")]) level).

Definition sqlcipher_get_log_source_str (source : Z) : bytes :=
  from_option id (text "ANY") (label_of ((SQLCIPHER_LOG_NONE, text "NONE") :: log_sources) source).

(** The loop over the 32 flags, [mprintf] as the answer of [sqlite3_mprintf]. *)
Definition sqlcipher_get_log_sources_str (mprintf : bytes -> option bytes) (source : Z)
  : option bytes :=
  if source =? SQLCIPHER_LOG_NONE then mprintf (text "NONE")
  else if source =? SQLCIPHER_LOG_ANY then mprintf (text "ANY")
  else fold_left (fun sources i =>
         let flag := Z.shiftl 1 (Z.of_nat i) in
         if FLAG_GET source flag then
           match sources with
           | Some s => mprintf (s ++ text " " ++ sqlcipher_get_log_source_str flag)
           | None => mprintf (sqlcipher_get_log_source_str flag)
           end
         else sources) (seq 0 32) None.

(** ** The handler *)

Section Handler.
Context {A : Type} `{Allocator A} {P : provider}.
Abbreviation ctx_t := (codec_ctx P).

(** What the handler takes from the rest of the program. *)
Record env := Env {
  e_mprintf : bytes -> option bytes;         (* the formatted text, or null *)
  e_malloc : Z -> bool;                      (* whether sqlite3_malloc succeeds *)
  e_fips_status : Z;
  e_provider_name : option bytes;
  e_provider_version : option bytes;
  e_cipher : option bytes;
  e_add_random : bytes -> Z;
  e_version : option bytes;                  (* sqlcipher_version() *)
  e_set_page_size : Z -> Z -> Z;             (* sqlite3BtreeSetPageSize: size, reserve *)
  e_profile : bytes -> Z;                    (* sqlcipher_cipher_profile *)
  e_set_log : bytes -> Z;                    (* sqlcipher_set_log *)
  e_file : option dbfile;
  e_addr : Z;
  e_migrate : ctx_t -> A -> option (Z * ctx_t * A)
}.

(** The state a pragma may change. *)
Record pstate := PState {
  ps_G : globals;
  ps_ctx : option ctx_t;
  ps_heap : A;
  ps_rng : xoshiro;
  ps_rows : list (bytes * bytes);
  ps_nextPagesize : Z;
  ps_btree : list (Z * Z);                   (* calls of sqlite3BtreeSetPageSize *)
  ps_mem_security_on : bool;
  ps_mem_executed : bool;
  ps_log_level : Z;
  ps_log_source : Z
}.

Definition with_G g (s : pstate) : pstate :=
  PState g (ps_ctx s) (ps_heap s) (ps_rng s) (ps_rows s) (ps_nextPagesize s) (ps_btree s)
    (ps_mem_security_on s) (ps_mem_executed s) (ps_log_level s) (ps_log_source s).
Definition with_ctx c (s : pstate) : pstate :=
  PState (ps_G s) (Some c) (ps_heap s) (ps_rng s) (ps_rows s) (ps_nextPagesize s) (ps_btree s)
    (ps_mem_security_on s) (ps_mem_executed s) (ps_log_level s) (ps_log_source s).
Definition with_heap h (s : pstate) : pstate :=
  PState (ps_G s) (ps_ctx s) h (ps_rng s) (ps_rows s) (ps_nextPagesize s) (ps_btree s)
    (ps_mem_security_on s) (ps_mem_executed s) (ps_log_level s) (ps_log_source s).
Definition with_rng r (s : pstate) : pstate :=
  PState (ps_G s) (ps_ctx s) (ps_heap s) r (ps_rows s) (ps_nextPagesize s) (ps_btree s)
    (ps_mem_security_on s) (ps_mem_executed s) (ps_log_level s) (ps_log_source s).
Definition with_rows r (s : pstate) : pstate :=
  PState (ps_G s) (ps_ctx s) (ps_heap s) (ps_rng s) r (ps_nextPagesize s) (ps_btree s)
    (ps_mem_security_on s) (ps_mem_executed s) (ps_log_level s) (ps_log_source s).
Definition with_btree n l (s : pstate) : pstate :=
  PState (ps_G s) (ps_ctx s) (ps_heap s) (ps_rng s) (ps_rows s) n l
    (ps_mem_security_on s) (ps_mem_executed s) (ps_log_level s) (ps_log_source s).
Definition with_mem_security b (s : pstate) : pstate :=
  PState (ps_G s) (ps_ctx s) (ps_heap s) (ps_rng s) (ps_rows s) (ps_nextPagesize s) (ps_btree s)
    b (ps_mem_executed s) (ps_log_level s) (ps_log_source s).
Definition with_log_level v (s : pstate) : pstate :=
  PState (ps_G s) (ps_ctx s) (ps_heap s) (ps_rng s) (ps_rows s) (ps_nextPagesize s) (ps_btree s)
    (ps_mem_security_on s) (ps_mem_executed s) v (ps_log_source s).
Definition with_log_source v (s : pstate) : pstate :=
  PState (ps_G s) (ps_ctx s) (ps_heap s) (ps_rng s) (ps_rows s) (ps_nextPagesize s) (ps_btree s)
    (ps_mem_security_on s) (ps_mem_executed s) (ps_log_level s) v.

Context (e : env).

(** [sqlcipher_vdbe_return_string] *)
Definition sqlcipher_vdbe_return_string (label : bytes) (value : option bytes) (s : pstate)
  : pstate :=
  match value with
  | None => s
  | Some v => with_rows (ps_rows s ++ [(label, v)]) s
  end.

(** The common case: a number, formatted with %d. *)
Definition return_int (label : bytes) (v : Z) (s : pstate) : pstate :=
  sqlcipher_vdbe_return_string label (e_mprintf e (fmt_d v)) s.

Definition b2z (b : bool) : Z := if b then 1 else 0.

(** [codec_set_btree_to_codec_pagesize]: return code and state. *)
Definition codec_set_btree_to_codec_pagesize (ctx : ctx_t) (s : pstate) : Z * pstate :=
  (e_set_page_size e (page_sz ctx) (reserve_sz ctx),
   with_btree (page_sz ctx) (ps_btree s ++ [(page_sz ctx, reserve_sz ctx)]) s).

(** [if(rc != SQLITE_OK) sqlcipher_codec_ctx_set_error(ctx, err)] *)
Definition error_if (rc err : Z) (ctx : ctx_t) : ctx_t :=
  if rc <>? SQLITE_OK then sqlcipher_codec_ctx_set_error ctx err else ctx.

(** Tell the B-tree the new geometry, with [err] as the error to record. *)
Definition sync_btree (err : Z -> Z) (ctx : ctx_t) (s : pstate) : pstate :=
  let '(rc, s) := codec_set_btree_to_codec_pagesize ctx s in
  with_ctx (error_if rc (err rc) ctx) s.

(** An action: the return value of the handler (1 when it has handled the pragma) and the
    new state. *)
Definition action := option bytes -> pstate -> option (Z * pstate).
Definition handled (s : pstate) : option (Z * pstate) := Some (1, s).

(** [if(ctx) ...] *)
Definition if_ctx (s : pstate) (k : ctx_t -> option (Z * pstate)) : option (Z * pstate) :=
  match ps_ctx s with None => handled s | Some ctx => k ctx end.

Definition p_fips_status : action := fun _ s =>
  if_ctx s (fun _ => handled (return_int (text "cipher_fips_status") (e_fips_status e) s)).

Definition p_status : action := fun _ s =>
  let ok := match ps_ctx s with Some ctx => error ctx =? SQLITE_OK | None => false end in
  handled (sqlcipher_vdbe_return_string (text "cipher_status")
             (Some (if ok then text "1" else text "0")) s).

Definition p_store_pass : action := fun zRight s =>
  if_ctx s (fun ctx =>
    match zRight with
    | Some z =>
        let? b := sqlite3GetBoolean z 1 in
        handled (sqlcipher_vdbe_return_string (text "cipher_store_pass")
          (Some (text "PRAGMA cipher_store_pass is deprecated, please remove from use"))
          (with_ctx (set_store_pass (b2z b) ctx) s))
    | None => handled (return_int (text "cipher_store_pass") (store_pass ctx) s)
    end).

Definition p_profile : action := fun zRight s =>
  let? z := zRight in handled (return_int (text "cipher_profile") (e_profile e z) s).

(** [sqlcipher_codec_add_random]: return code and heap. *)
Definition sqlcipher_codec_add_random (zRight : bytes) (random_sz : Z) (h : A)
  : option (Z * A) :=
  let n := random_sz - 3 in
  let? ok :=
    (if 0 <? n then
       let? d := sqlite3_strnicmp (Some zRight) (Some (lit "x'")) 2 in
       if d <>? 0 then Some false else
       let? suffix := ptr_at zRight (random_sz - 1) in
       let? d := sqlite3_strnicmp (Some suffix) (Some (lit "'")) 1 in
       Some ((d =? 0) && (Z.rem n 2 =? 0))
     else Some false) in
  if ok : bool then
    let buffer_sz := Z.quot n 2 in
    let? (r, h) := alloc_buf buffer_sz h in
    match r with
    | None => Some (SQLITE_NOMEM, h)
    | Some b =>
        let? z := ptr_at zRight 2 in
        let? random := cipher_hex2bin z n (b_data b) in
        let rc := e_add_random e random in
        let? h := a_free (b_ptr b) buffer_sz h in
        Some (rc, h)
    end
  else Some (SQLITE_ERROR, h).

Definition p_add_random : action := fun zRight s =>
  let? z := zRight in
  if_ctx s (fun _ =>
    let? n := sqlite3Strlen30 (Some z) in
    let? (rc, h) := sqlcipher_codec_add_random z n (ps_heap s) in
    handled (return_int (text "cipher_add_random") rc (with_heap h s))).

Definition p_migrate : action := fun _ s =>
  if_ctx s (fun ctx =>
    let? (status, ctx, h) := e_migrate e ctx (ps_heap s) in
    handled (return_int (text "cipher_migrate") status (with_heap h (with_ctx ctx s)))).

Definition p_provider : action := fun _ s =>
  if_ctx s (fun _ =>
    handled (sqlcipher_vdbe_return_string (text "cipher_provider") (e_provider_name e) s)).

Definition p_provider_version : action := fun _ s =>
  if_ctx s (fun _ => handled
    (sqlcipher_vdbe_return_string (text "cipher_provider_version") (e_provider_version e) s)).

Definition p_version : action := fun _ s =>
  handled (sqlcipher_vdbe_return_string (text "cipher_version") (e_version e) s).

Definition p_cipher : action := fun zRight s =>
  if_ctx s (fun _ => handled (sqlcipher_vdbe_return_string (text "cipher")
    (match zRight with
     | Some _ => Some (text "PRAGMA cipher is no longer supported.")
     | None => e_cipher e
     end) s)).

Definition p_rekey_cipher : action := fun _ s =>
  handled (sqlcipher_vdbe_return_string (text "rekey_cipher")
             (Some (text "PRAGMA rekey_cipher is no longer supported.")) s).

(** *** Key derivation and page size *)

Definition set_default_kdf_iter v (g : globals) : globals :=
  Globals (default_flags g) v (default_page_size g) (default_plaintext_header_size g)
    (default_hmac_algorithm g) (default_kdf_algorithm g) (hmac_salt_mask g)
    (sqlcipher_shield_mask g).
Definition set_default_page_size v (g : globals) : globals :=
  Globals (default_flags g) (default_kdf_iter g) v (default_plaintext_header_size g)
    (default_hmac_algorithm g) (default_kdf_algorithm g) (hmac_salt_mask g)
    (sqlcipher_shield_mask g).
Definition set_default_plaintext_header_size v (g : globals) : globals :=
  Globals (default_flags g) (default_kdf_iter g) (default_page_size g) v
    (default_hmac_algorithm g) (default_kdf_algorithm g) (hmac_salt_mask g)
    (sqlcipher_shield_mask g).
Definition set_default_hmac_algorithm v (g : globals) : globals :=
  Globals (default_flags g) (default_kdf_iter g) (default_page_size g)
    (default_plaintext_header_size g) v (default_kdf_algorithm g) (hmac_salt_mask g)
    (sqlcipher_shield_mask g).
Definition set_default_kdf_algorithm v (g : globals) : globals :=
  Globals (default_flags g) (default_kdf_iter g) (default_page_size g)
    (default_plaintext_header_size g) (default_hmac_algorithm g) v (hmac_salt_mask g)
    (sqlcipher_shield_mask g).
Definition set_hmac_salt_mask v (g : globals) : globals :=
  Globals (default_flags g) (default_kdf_iter g) (default_page_size g)
    (default_plaintext_header_size g) (default_hmac_algorithm g) (default_kdf_algorithm g) v
    (sqlcipher_shield_mask g).

(** A default that is an integer: set it with [atoi], or report it. *)
Definition int_default (label : bytes) (get : globals -> Z) (set : Z -> globals -> globals)
  : action := fun zRight s =>
  match zRight with
  | Some z => let? v := atoi z in handled (with_G (set v (ps_G s)) s)
  | None => handled (return_int label (get (ps_G s)) s)
  end.

Definition p_default_kdf_iter : action :=
  int_default (text "cipher_default_kdf_iter") default_kdf_iter set_default_kdf_iter.

Definition p_kdf_iter : action := fun zRight s =>
  if_ctx s (fun ctx =>
    match zRight with
    | Some z =>
        let? v := atoi z in
        handled (with_ctx (snd (sqlcipher_codec_ctx_set_kdf_iter ctx v)) s)
    | None => handled (return_int (text "kdf_iter") (kdf_iter ctx) s)
    end).

Definition p_fast_kdf_iter : action := fun zRight s =>
  if_ctx s (fun ctx =>
    match zRight with
    | Some z =>
        let? v := atoi z in
        handled (sqlcipher_vdbe_return_string (text "fast_kdf_iter")
          (Some (text "PRAGMA fast_kdf_iter is deprecated, please remove from use"))
          (with_ctx (snd (sqlcipher_codec_ctx_set_fast_kdf_iter ctx v)) s))
    | None => handled (return_int (text "fast_kdf_iter") (fast_kdf_iter ctx) s)
    end).

Definition p_rekey_kdf_iter : action := fun _ s =>
  handled (sqlcipher_vdbe_return_string (text "rekey_kdf_iter")
             (Some (text "PRAGMA rekey_kdf_iter is no longer supported.")) s).

(** Without a codec the pragma is left to pragma.c. *)
Definition p_page_size : action := fun zRight s =>
  match ps_ctx s with
  | None => Some (0, s)
  | Some ctx =>
      match zRight with
      | Some z =>
          let? size := atoi z in
          let? (rc, ctx, h) := sqlcipher_codec_ctx_set_pagesize ctx size (ps_heap s) in
          handled (sync_btree id (error_if rc rc ctx) (with_heap h s))
      | None => handled (return_int (text "cipher_page_size") (page_sz ctx) s)
      end
  end.

Definition p_default_page_size : action :=
  int_default (text "cipher_default_page_size") default_page_size set_default_page_size.

Definition p_default_use_hmac : action := fun zRight s =>
  match zRight with
  | Some z => let? b := sqlite3GetBoolean z 1 in
              handled (with_G (sqlcipher_set_default_use_hmac b (ps_G s)) s)
  | None => handled (return_int (text "cipher_default_use_hmac")
              (b2z (FLAG_GET (default_flags (ps_G s)) CIPHER_FLAG_HMAC)) s)
  end.

Definition p_use_hmac : action := fun zRight s =>
  if_ctx s (fun ctx =>
    match zRight with
    | Some z =>
        let? b := sqlite3GetBoolean z 1 in
        let '(rc, ctx) := sqlcipher_codec_ctx_set_use_hmac ctx b in
        handled (sync_btree id (error_if rc rc ctx) s)
    | None => handled (return_int (text "cipher_use_hmac")
                (b2z (FLAG_GET (flags ctx) CIPHER_FLAG_HMAC)) s)
    end).

(** The flags after [cipher_hmac_pgno = z]. *)
Definition pgno_flags (z : bytes) (f : Z) : option Z :=
  let? le := sqlite3_stricmp (Some z) (Some (lit "le")) in
  if le =? 0 then Some (FLAG_SET (FLAG_UNSET f CIPHER_FLAG_BE_PGNO) CIPHER_FLAG_LE_PGNO) else
  let? be := sqlite3_stricmp (Some z) (Some (lit "be")) in
  if be =? 0 then Some (FLAG_SET (FLAG_UNSET f CIPHER_FLAG_LE_PGNO) CIPHER_FLAG_BE_PGNO) else
  let? nat := sqlite3_stricmp (Some z) (Some (lit "native")) in
  if nat =? 0 then Some (FLAG_UNSET (FLAG_UNSET f CIPHER_FLAG_LE_PGNO) CIPHER_FLAG_BE_PGNO)
  else Some f.

Definition p_hmac_pgno : action := fun zRight s =>
  if_ctx s (fun ctx =>
    match zRight with
    | Some z =>
        let? f := pgno_flags z (flags ctx) in
        handled (sqlcipher_vdbe_return_string (text "cipher_hmac_pgno")
          (Some (text "PRAGMA cipher_hmac_pgno is deprecated, please remove from use"))
          (with_ctx (set_flags f ctx) s))
    | None =>
        handled (sqlcipher_vdbe_return_string (text "cipher_hmac_pgno")
          (Some (if FLAG_GET (flags ctx) CIPHER_FLAG_LE_PGNO then text "le"
                 else if FLAG_GET (flags ctx) CIPHER_FLAG_BE_PGNO then text "be"
                 else text "native")) s)
    end).

(** [sqlite3StrNICmp(z, "x'", 2)==0 && sqlite3Strlen30(z)==n] *)
Definition blob_literal (z : bytes) (n : Z) : option bool :=
  let? d := sqlite3_strnicmp (Some z) (Some (lit "x'")) 2 in
  if d <>? 0 then Some false else
  let? l := sqlite3Strlen30 (Some z) in Some (l =? n).

Definition p_hmac_salt_mask : action := fun zRight s =>
  if_ctx s (fun _ =>
    match zRight with
    | Some z =>
        let? lit := blob_literal z 5 in
        let? s := (if lit : bool then
                     let? hex := ptr_at z 2 in
                     let? m := cipher_hex2bin hex 2 [0] in
                     let? mask := mem_get m 0 in
                     Some (with_G (set_hmac_salt_mask mask (ps_G s)) s)
                   else Some s) in
        handled (sqlcipher_vdbe_return_string (text "cipher_hmac_salt_mask")
          (Some (text "PRAGMA cipher_hmac_salt_mask is deprecated, please remove from use")) s)
    | None => handled (sqlcipher_vdbe_return_string (text "cipher_hmac_salt_mask")
                (e_mprintf e (fmt_02x (hmac_salt_mask (ps_G s)))) s)
    end).

Definition p_plaintext_header_size : action := fun zRight s =>
  if_ctx s (fun ctx =>
    match zRight with
    | Some z =>
        let? size := atoi z in
        handled (with_ctx (snd (sqlcipher_codec_ctx_set_plaintext_header_size ctx size)) s)
    | None => handled (return_int (text "cipher_plaintext_header_size")
                (plaintext_header_sz ctx) s)
    end).

Definition p_default_plaintext_header_size : action :=
  int_default (text "cipher_default_plaintext_header_size") default_plaintext_header_size
    set_default_plaintext_header_size.

(** The hexadecimal text of the salt, in a buffer of 33 bytes. *)
Definition salt_text (salt : option buf) : option bytes :=
  let? sb := salt in
  let? out := cipher_bin2hex (b_data sb) FILE_HEADER_SZ
                (replicate (Z.to_nat (FILE_HEADER_SZ * 2 + 1)) 0) 0 in
  cstr out.

Definition p_salt : action := fun zRight s =>
  if_ctx s (fun ctx =>
    match zRight with
    | Some z =>
        let? lit := blob_literal z (FILE_HEADER_SZ * 2 + 3) in
        if lit : bool then
          if negb (e_malloc e FILE_HEADER_SZ)
          then handled (with_ctx (sqlcipher_codec_ctx_set_error ctx SQLITE_NOMEM) s)
          else
            let? hex := ptr_at z 2 in
            let? salt := cipher_hex2bin hex (FILE_HEADER_SZ * 2)
                           (replicate (Z.to_nat FILE_HEADER_SZ) 0) in
            let? (rc, ctx) := sqlcipher_codec_ctx_set_kdf_salt ctx salt FILE_HEADER_SZ in
            handled (with_ctx ctx s)
        else handled s
    | None =>
        if e_malloc e (FILE_HEADER_SZ * 2 + 1) then
          let? (rc, salt, ctx) := sqlcipher_codec_ctx_get_kdf_salt ctx in
          if rc =? SQLITE_OK then
            let? hexsalt := salt_text salt in
            handled (sqlcipher_vdbe_return_string (text "cipher_salt") (Some hexsalt)
                       (with_ctx ctx s))
          else handled (with_ctx (sqlcipher_codec_ctx_set_error ctx rc) s)
        else handled (with_ctx (sqlcipher_codec_ctx_set_error ctx SQLITE_NOMEM) s)
    end).

(** *** Algorithms *)

Definition p_hmac_algorithm : action := fun zRight s =>
  if_ctx s (fun ctx =>
    match zRight with
    | Some z =>
        let? alg := label_value hmac_labels z in
        let '(rc, ctx) := match alg with
                          | Some a => sqlcipher_codec_ctx_set_hmac_algorithm ctx a
                          | None => (SQLITE_ERROR, ctx)
                          end in
        handled (sync_btree (fun _ => SQLITE_ERROR) (error_if rc SQLITE_ERROR ctx) s)
    | None => handled (sqlcipher_vdbe_return_string (text "cipher_hmac_algorithm")
                (label_of hmac_labels (hmac_algorithm ctx)) s)
    end).

(** A default that is an algorithm: an unknown label is ignored. *)
Definition alg_default (label : bytes) (labels : list (Z * bytes)) (get : globals -> Z)
  (set : Z -> globals -> globals) : action := fun zRight s =>
  match zRight with
  | Some z => let? alg := label_value labels z in
              handled (match alg with Some a => with_G (set a (ps_G s)) s | None => s end)
  | None => handled (sqlcipher_vdbe_return_string label (label_of labels (get (ps_G s))) s)
  end.

Definition p_default_hmac_algorithm : action :=
  alg_default (text "cipher_default_hmac_algorithm") hmac_labels default_hmac_algorithm
    set_default_hmac_algorithm.

Definition p_kdf_algorithm : action := fun zRight s =>
  if_ctx s (fun ctx =>
    match zRight with
    | Some z =>
        let? alg := label_value kdf_labels z in
        let '(rc, ctx) := match alg with
                          | Some a => sqlcipher_codec_ctx_set_kdf_algorithm ctx a
                          | None => (SQLITE_ERROR, ctx)
                          end in
        handled (with_ctx (error_if rc SQLITE_ERROR ctx) s)
    | None => handled (sqlcipher_vdbe_return_string (text "cipher_kdf_algorithm")
                (label_of kdf_labels (kdf_algorithm ctx)) s)
    end).

Definition p_default_kdf_algorithm : action :=
  alg_default (text "cipher_default_kdf_algorithm") kdf_labels default_kdf_algorithm
    set_default_kdf_algorithm.

(** *** Compatibility *)

(** The arguments of the calls for each version: page size, HMAC algorithm, KDF algorithm,
    iterations, use of HMAC. *)
Record compat := Compat {
  cp_page_size : Z; cp_hmac : Z; cp_kdf : Z; cp_iter : Z; cp_use_hmac : bool
}.

Definition compat_of (version : Z) : compat :=
  if version =? 1 then
    Compat 1024 SQLCIPHER_HMAC_SHA1 SQLCIPHER_PBKDF2_HMAC_SHA1 4000 false
  else if version =? 2 then
    Compat 1024 SQLCIPHER_HMAC_SHA1 SQLCIPHER_PBKDF2_HMAC_SHA1 4000 true
  else if version =? 3 then
    Compat 1024 SQLCIPHER_HMAC_SHA1 SQLCIPHER_PBKDF2_HMAC_SHA1 64000 true
  else Compat 4096 SQLCIPHER_HMAC_SHA512 SQLCIPHER_PBKDF2_HMAC_SHA512 256000 true.

(** The five calls of one case of the switch. *)
Definition apply_compat (c : compat) (ctx : ctx_t) (h : A) : option (ctx_t * A) :=
  let? (rc, ctx, h) := sqlcipher_codec_ctx_set_pagesize ctx (cp_page_size c) h in
  let ctx := error_if rc SQLITE_ERROR ctx in
  let '(rc, ctx) := sqlcipher_codec_ctx_set_hmac_algorithm ctx (cp_hmac c) in
  let ctx := error_if rc SQLITE_ERROR ctx in
  let '(rc, ctx) := sqlcipher_codec_ctx_set_kdf_algorithm ctx (cp_kdf c) in
  let ctx := error_if rc SQLITE_ERROR ctx in
  let '(rc, ctx) := sqlcipher_codec_ctx_set_kdf_iter ctx (cp_iter c) in
  let ctx := error_if rc SQLITE_ERROR ctx in
  let '(rc, ctx) := sqlcipher_codec_ctx_set_use_hmac ctx (cp_use_hmac c) in
  Some (error_if rc SQLITE_ERROR ctx, h).

Definition p_compatibility : action := fun zRight s =>
  if_ctx s (fun ctx =>
    match zRight with
    | Some z =>
        let? version := atoi z in
        let? (ctx, h) := apply_compat (compat_of version) ctx (ps_heap s) in
        handled (sync_btree (fun _ => SQLITE_ERROR) ctx (with_heap h s))
    | None => handled s
    end).

Definition default_compat (c : compat) (g : globals) : globals :=
  sqlcipher_set_default_use_hmac (cp_use_hmac c)
    (set_default_kdf_iter (cp_iter c)
      (set_default_kdf_algorithm (cp_kdf c)
        (set_default_hmac_algorithm (cp_hmac c)
          (set_default_page_size (cp_page_size c) g)))).

Definition p_default_compatibility : action := fun zRight s =>
  match zRight with
  | Some z => let? version := atoi z in
              handled (with_G (default_compat (compat_of version) (ps_G s)) s)
  | None => handled s
  end.

(** *** Memory security, settings, integrity check, log *)

Definition p_memory_security : action := fun zRight s =>
  match zRight with
  | Some z => let? b := sqlite3GetBoolean z 1 in
              handled (if b then with_mem_security true s else s)
  | None => handled (return_int (text "cipher_memory_security")
              (b2z (ps_mem_security_on s && ps_mem_executed s)) s)
  end.

(** A row of the settings: PRAGMA name = value; *)
Definition setting_text (name value : bytes) : bytes :=
  text "PRAGMA " ++ name ++ text " = " ++ value ++ text ";".

Definition return_setting (name : bytes) (value : option bytes) (s : pstate) : pstate :=
  sqlcipher_vdbe_return_string (text "pragma")
    (match value with Some v => e_mprintf e (setting_text name v) | None => None end) s.

Definition p_settings : action := fun _ s =>
  if_ctx s (fun ctx =>
    let s := return_setting (text "kdf_iter") (Some (fmt_d (kdf_iter ctx))) s in
    let s := return_setting (text "cipher_page_size") (Some (fmt_d (page_sz ctx))) s in
    let s := return_setting (text "cipher_use_hmac")
               (Some (fmt_d (b2z (FLAG_GET (flags ctx) CIPHER_FLAG_HMAC)))) s in
    let s := return_setting (text "cipher_plaintext_header_size")
               (Some (fmt_d (plaintext_header_sz ctx))) s in
    let s := return_setting (text "cipher_hmac_algorithm")
               (label_of hmac_labels (hmac_algorithm ctx)) s in
    let s := return_setting (text "cipher_kdf_algorithm")
               (label_of kdf_labels (kdf_algorithm ctx)) s in
    handled s).

Definition p_default_settings : action := fun _ s =>
  let g := ps_G s in
  let s := return_setting (text "cipher_default_kdf_iter") (Some (fmt_d (default_kdf_iter g))) s in
  let s := return_setting (text "cipher_default_page_size")
             (Some (fmt_d (default_page_size g))) s in
  let s := return_setting (text "cipher_default_use_hmac")
             (Some (fmt_d (b2z (FLAG_GET (default_flags g) CIPHER_FLAG_HMAC)))) s in
  let s := return_setting (text "cipher_default_plaintext_header_size")
             (Some (fmt_d (default_plaintext_header_size g))) s in
  let s := return_setting (text "cipher_default_hmac_algorithm")
             (label_of hmac_labels (default_hmac_algorithm g)) s in
  let s := return_setting (text "cipher_default_kdf_algorithm")
             (label_of kdf_labels (default_kdf_algorithm g)) s in
  handled s.

Definition p_integrity_check : action := fun _ s =>
  if_ctx s (fun ctx =>
    let? (rc, reports, ctx, rng, h) :=
      sqlcipher_codec_ctx_integrity_check (ps_G s) (e_addr e) (ps_rng s) ctx (e_file e)
        (ps_heap s) in
    handled (with_rows (ps_rows s ++ ((fun r => (text "cipher_integrity_check",
                                        report_text (e_mprintf e) r)) <$> reports))
               (with_heap h (with_rng rng (with_ctx ctx s))))).

Definition p_log_level : action := fun zRight s =>
  let? s := (match zRight with
             | Some z => let? v := label_value log_levels z in
                         Some (with_log_level (default SQLCIPHER_LOG_NONE v) s)
             | None => Some s
             end) in
  handled (sqlcipher_vdbe_return_string (text "cipher_log_level")
             (Some (sqlcipher_get_log_level_str (ps_log_level s))) s).

(** The source flags after [cipher_log_source = z]. *)
Definition log_source_flags (z : bytes) (source : Z) : option Z :=
  let? whole := label_value [(SQLCIPHER_LOG_NONE, text "NONE"); (SQLCIPHER_LOG_ANY, text "ANY")] z in
  match whole with
  | Some v => Some v
  | None => let? flag := label_value log_sources z in
            Some (match flag with Some f => FLAG_SET source f | None => source end)
  end.

Definition p_log_source : action := fun zRight s =>
  let? s := (match zRight with
             | Some z => let? v := log_source_flags z (ps_log_source s) in
                         Some (with_log_source v s)
             | None => Some s
             end) in
  handled (sqlcipher_vdbe_return_string (text "cipher_log_source")
             (sqlcipher_get_log_sources_str (e_mprintf e) (ps_log_source s)) s).

Definition p_log : action := fun zRight s =>
  let? z := zRight in handled (return_int (text "cipher_log") (e_set_log e z) s).

(** *** The chain *)

Inductive arg_guard := AnyArg | WithArg | WithoutArg.

Definition guard_ok (g : arg_guard) (zRight : option bytes) : bool :=
  match g, zRight with
  | AnyArg, _ | WithArg, Some _ | WithoutArg, None => true
  | _, _ => false
  end.

Definition pragma_table : list (bytes * arg_guard * action) :=
  [(text "cipher_fips_status", WithoutArg, p_fips_status);
   (text "cipher_status", WithoutArg, p_status);
   (text "cipher_store_pass", WithArg, p_store_pass);
   (text "cipher_store_pass", WithoutArg, p_store_pass);
   (text "cipher_profile", WithArg, p_profile);
   (text "cipher_add_random", WithArg, p_add_random);
   (text "cipher_migrate", WithoutArg, p_migrate);
   (text "cipher_provider", WithoutArg, p_provider);
   (text "cipher_provider_version", WithoutArg, p_provider_version);
   (text "cipher_version", WithoutArg, p_version);
   (text "cipher", AnyArg, p_cipher);
   (text "rekey_cipher", WithArg, p_rekey_cipher);
   (text "cipher_default_kdf_iter", AnyArg, p_default_kdf_iter);
   (text "kdf_iter", AnyArg, p_kdf_iter);
   (text "fast_kdf_iter", AnyArg, p_fast_kdf_iter);
   (text "rekey_kdf_iter", WithArg, p_rekey_kdf_iter);
   (text "page_size", AnyArg, p_page_size);
   (text "cipher_page_size", AnyArg, p_page_size);
   (text "cipher_default_page_size", AnyArg, p_default_page_size);
   (text "cipher_default_use_hmac", AnyArg, p_default_use_hmac);
   (text "cipher_use_hmac", AnyArg, p_use_hmac);
   (text "cipher_hmac_pgno", AnyArg, p_hmac_pgno);
   (text "cipher_hmac_salt_mask", AnyArg, p_hmac_salt_mask);
   (text "cipher_plaintext_header_size", AnyArg, p_plaintext_header_size);
   (text "cipher_default_plaintext_header_size", AnyArg, p_default_plaintext_header_size);
   (text "cipher_salt", AnyArg, p_salt);
   (text "cipher_hmac_algorithm", AnyArg, p_hmac_algorithm);
   (text "cipher_default_hmac_algorithm", AnyArg, p_default_hmac_algorithm);
   (text "cipher_kdf_algorithm", AnyArg, p_kdf_algorithm);
   (text "cipher_default_kdf_algorithm", AnyArg, p_default_kdf_algorithm);
   (text "cipher_compatibility", AnyArg, p_compatibility);
   (text "cipher_default_compatibility", AnyArg, p_default_compatibility);
   (text "cipher_memory_security", AnyArg, p_memory_security);
   (text "cipher_settings", AnyArg, p_settings);
   (text "cipher_default_settings", AnyArg, p_default_settings);
   (text "cipher_integrity_check", AnyArg, p_integrity_check);
   (text "cipher_log_level", AnyArg, p_log_level);
   (text "cipher_log_source", AnyArg, p_log_source);
   (text "cipher_log", WithArg, p_log)].

(** Walk the chain: the first entry with the name and a guard that holds. *)
Fixpoint dispatch (table : list (bytes * arg_guard * action)) (zLeft : bytes)
  (zRight : option bytes) (s : pstate) : option (Z * pstate) :=
  match table with
  | [] => Some (0, s)
  | (name, g, act) :: table =>
      let? d := sqlite3_stricmp (Some zLeft) (Some (name ++ [0])) in
      if (d =? 0) && guard_ok g zRight then act zRight s
      else dispatch table zLeft zRight s
  end.

Definition sqlcipher_codec_pragma (zLeft : bytes) (zRight : option bytes) (s : pstate)
  : option (Z * pstate) := dispatch pragma_table zLeft zRight s.
End Handler.

(** ** Labels *)

Lemma label_value_spec labels z n : c_string z n ->
  forallb (fun l => plain (l.2)) labels = true ->
  label_value labels z =
  Some (fst <$> find (fun l => bool_decide (lower n = lower (l.2))) labels).
Proof.
  intros Hz. induction labels as [|[v l] labels IH]; intros Hp; [done|].
  simpl in Hp. bool_to_prop. cbn [label_value find].
  destruct (stricmp_c_string z n (l ++ [0]) l Hz) as (d & -> & Hd);
    [apply plain_c_string; [done|constructor]|]. cbn [snd].
  destruct (Z.eqb_spec d 0) as [E|E].
  - rewrite bool_decide_eq_true_2 by tauto. done.
  - rewrite bool_decide_eq_false_2 by tauto. by apply IH.
Qed.

(** ** Dispatch *)

Section Dispatch.
Context {A : Type} `{Allocator A} {P : provider}.
Abbreviation entry := (bytes * arg_guard * @action A P)%type.

(** The first entry with the name and a guard that holds. *)
Definition select (n : bytes) (zRight : option bytes) (table : list entry) : option entry :=
  find (fun x : entry => bool_decide (lower n = lower x.1.1) && guard_ok x.1.2 zRight) table.

Lemma dispatch_spec (table : list entry) zLeft n zRight s :
  c_string zLeft n -> forallb (fun x => plain x.1.1) table = true ->
  dispatch table zLeft zRight s =
  match select n zRight table with Some x => x.2 zRight s | None => Some (0, s) end.
Proof.
  intros Hz. induction table as [|[[name g] act] table IH]; intros Hp; [done|].
  simpl in Hp. bool_to_prop. unfold select. cbn [dispatch find fst snd].
  destruct (stricmp_c_string zLeft n (name ++ [0]) name Hz) as (d & -> & Hd);
    [apply plain_c_string; [done|constructor]|].
  destruct (Z.eqb_spec d 0) as [E|E].
  - rewrite bool_decide_eq_true_2 by tauto. cbn [andb]. destruct (guard_ok g zRight); [done|].
    by apply IH.
  - rewrite bool_decide_eq_false_2 by tauto. cbn [andb]. by apply IH.
Qed.

Lemma table_plain (e : env) : forallb (fun x : entry => plain x.1.1) (pragma_table e) = true.
Proof. reflexivity. Qed.

Lemma select_lower n m zRight (table : list entry) :
  lower n = lower m -> select n zRight table = select m zRight table.
Proof. intros E. unfold select. by rewrite E. Qed.

(** A pragma is known by its name up to case. *)
Lemma pragma_named (e : env) zLeft n name zRight (s : pstate) x :
  c_string zLeft n -> lower n = lower name -> select name zRight (pragma_table e) = Some x ->
  sqlcipher_codec_pragma e zLeft zRight s = x.2 zRight s.
Proof.
  intros Hz Hn Hx. unfold sqlcipher_codec_pragma.
  rewrite (dispatch_spec _ _ n) by (done || apply table_plain).
  by rewrite (select_lower _ _ _ _ Hn), Hx.
Qed.
End Dispatch.

(** ** Numbers *)

Lemma atoi_digits_chars ds acc t : Forall dec_digit ds ->
  atoi_digits (chars ds ++ 0 :: t) acc = Some (fold_left (fun a d => a * 10 + d) ds acc).
Proof.
  intros Hds. revert acc. induction Hds as [|d ds Hd _ IH]; intros acc; [done|].
  unfold dec_digit in Hd. cbn -[Z.mul Z.add sqlite3Isdigit]. unfold sqlite3Isdigit.
  rewrite (proj2 (Z.leb_le 48 (48 + d))), (proj2 (Z.leb_le (48 + d) 57)) by lia.
  cbn [andb]. replace (48 + d - 48) with d by lia. apply IH.
Qed.

(** [atoi] reads back what [%d] prints. *)
Lemma atoi_fmt_d v t : - 2 ^ 31 <= v < 2 ^ 31 -> atoi (fmt_d v ++ 0 :: t) = Some v.
Proof.
  intros Hv. rewrite fmt_d_text by (unfold is_i64; lia). unfold dec_text.
  destruct (dec_digits_spec 20 (Z.abs v)) as (Hds & Hval & Hl); [lia..|].
  set (ds := dec_digits 20 (Z.abs v)) in *.
  assert (Hfin : (if (- 2 ^ 31 <=? v) && (v <? 2 ^ 31) then Some v else None) = Some v)
    by (rewrite (proj2 (Z.leb_le _ _)), (proj2 (Z.ltb_lt _ _)) by lia; done).
  unfold atoi. destruct (Z.ltb_spec v 0).
  - cbn [app atoi_space]. change (sqlite3Isspace 45) with false. cbn iota.
    change (mem_get (45 :: chars ds ++ 0 :: t) 0) with (Some 45).
    change (45 =? 45) with true. cbn iota.
    change (drop 1 (45 :: chars ds ++ 0 :: t)) with (chars ds ++ 0 :: t).
    rewrite atoi_digits_chars by done. fold (dec_value ds). rewrite Hval.
    rewrite Z.abs_neq, Z.opp_involutive by lia. exact Hfin.
  - cbn [app]. destruct Hds as [|d ds' Hd Hds']; [simpl in Hl; lia|].
    unfold dec_digit in Hd. change (chars (d :: ds') ++ 0 :: t) with (48 + d :: (chars ds' ++ 0 :: t)).
    cbn [atoi_space].
    assert (sqlite3Isspace (48 + d) = false) as ->.
    { pose proof (chars_not_space [d] ltac:(by constructor)) as E. exact E. }
    change (mem_get (48 + d :: chars ds' ++ 0 :: t) 0) with (Some (48 + d)). cbn iota.
    rewrite !(proj2 (Z.eqb_neq (48 + d) _)) by lia.
    change (48 + d :: (chars ds' ++ 0 :: t)) with (chars (d :: ds') ++ 0 :: t).
    rewrite (atoi_digits_chars (d :: ds')) by (by constructor). fold (dec_value (d :: ds')).
    rewrite Hval, Z.abs_eq by lia. exact Hfin.
Qed.

Lemma getBoolean_fmt b : sqlite3GetBoolean (fmt_d (b2z b) ++ [0]) 1 = Some b.
Proof. by destruct b. Qed.

Lemma b2z_eqb b : (b2z b <>? 0) = b.
Proof. by destruct b. Qed.

(** ** Settings *)

(** The parameters that determine the format of a database. *)
Record settings := Settings {
  st_page_size : Z; st_hmac : Z; st_kdf : Z; st_iter : Z; st_use_hmac : bool; st_header : Z
}.

Definition settings_of {P} (ctx : codec_ctx P) : settings :=
  Settings (page_sz ctx) (hmac_algorithm ctx) (kdf_algorithm ctx) (kdf_iter ctx)
    (FLAG_GET (flags ctx) CIPHER_FLAG_HMAC) (plaintext_header_sz ctx).

Definition upd_page_size v (t : settings) : settings :=
  Settings v (st_hmac t) (st_kdf t) (st_iter t) (st_use_hmac t) (st_header t).
Definition upd_hmac v (t : settings) : settings :=
  Settings (st_page_size t) v (st_kdf t) (st_iter t) (st_use_hmac t) (st_header t).
Definition upd_kdf v (t : settings) : settings :=
  Settings (st_page_size t) (st_hmac t) v (st_iter t) (st_use_hmac t) (st_header t).
Definition upd_iter v (t : settings) : settings :=
  Settings (st_page_size t) (st_hmac t) (st_kdf t) v (st_use_hmac t) (st_header t).
Definition upd_use_hmac v (t : settings) : settings :=
  Settings (st_page_size t) (st_hmac t) (st_kdf t) (st_iter t) v (st_header t).
Definition upd_header v (t : settings) : settings :=
  Settings (st_page_size t) (st_hmac t) (st_kdf t) (st_iter t) (st_use_hmac t) v.

Section Tuning.
Context {A : Type} `{AllocatorOk A} {P : provider} `{!ProviderOk P}.
Abbreviation ctx_t := (codec_ctx P).

(** A context that can still be configured: the sizes of its provider, a key that has not
    been used, a reserve that agrees with the algorithm. *)
Record tunable (ctx : ctx_t) : Prop := {
  tn_iv : iv_sz ctx = pv_get_iv_sz P;
  tn_block : block_sz ctx = pv_get_block_sz P;
  tn_unused : FLAG_GET (flags ctx) CIPHER_FLAG_KEY_USED = false;
  tn_sized : sized ctx
}.

(** One configuration step: the allocations stay accounted for, the context stays tunable,
    the settings are changed by [upd] alone, and unless there is no page buffer left (memory
    ran out) the error is the one of before. *)
Record tune_step (upd : settings -> settings) (p : Z) (L : list (Z * Z)) (ctx : ctx_t) (h : A)
  (ctx' : ctx_t) (h' : A) : Prop := {
  ts_tunable : tunable ctx';
  ts_owns : owns h (codec_allocs p ctx) L -> owns h' (codec_allocs p ctx') L;
  ts_settings : settings_of ctx' = upd (settings_of ctx);
  ts_error : buffer ctx' = None \/ (is_Some (buffer ctx) /\ error ctx' = error ctx)
}.

Lemma tune_trans u v p L c1 (h1 : A) c2 h2 c3 h3 :
  tune_step u p L c1 h1 c2 h2 -> tune_step v p L c2 h2 c3 h3 ->
  tune_step (fun t => v (u t)) p L c1 h1 c3 h3.
Proof.
  intros [T1 O1 S1 E1] [T2 O2 S2 E2]. split; [done|auto|congruence|].
  destruct E2 as [?|([b Eb] & E2)]; [by left|].
  destruct E1 as [?|(Hb & E1)]; [congruence|]. right. split; congruence.
Qed.

Lemma tune_refl p L (ctx : ctx_t) (h : A) : tunable ctx -> tune_step id p L ctx h ctx h.
Proof. intros T. split; [done..|]. destruct (buffer ctx) eqn:E; [right|by left]. eauto. Qed.

(** A change of scalar fields only. *)
Lemma tune_scalar u p L (ctx ctx' : ctx_t) (h : A) :
  tunable ctx' -> codec_allocs p ctx' = codec_allocs p ctx -> buffer ctx' = buffer ctx ->
  error ctx' = error ctx -> settings_of ctx' = u (settings_of ctx) ->
  tune_step u p L ctx h ctx' h.
Proof.
  intros T Ha Hb He Hs. split; [done|by rewrite Ha|done|]. rewrite Hb.
  destruct (buffer ctx) eqn:E; [right|by left]. eauto.
Qed.

(** The allocations of a context whose slots were only marked. *)
Lemma tune_kdf_iter v p L (ctx : ctx_t) (h : A) : tunable ctx ->
  exists ctx', sqlcipher_codec_ctx_set_kdf_iter ctx v = (SQLITE_OK, ctx') /\
    buffer ctx' = buffer ctx /\ tune_step (upd_iter v) p L ctx h ctx' h.
Proof.
  intros [T1 T2 T3 T4]. unfold sqlcipher_codec_ctx_set_kdf_iter. rewrite T3.
  eexists. split; [done|]. split; [done|]. apply tune_scalar; [by split| |done..].
  rewrite (cs_allocs _ _ (set_derive_key_step _ 1)). done.
Qed.

Lemma tune_kdf_algorithm v p L (ctx : ctx_t) (h : A) : tunable ctx ->
  exists ctx', sqlcipher_codec_ctx_set_kdf_algorithm ctx v = (SQLITE_OK, ctx') /\
    tune_step (upd_kdf v) p L ctx h ctx' h.
Proof.
  intros [T1 T2 T3 T4]. unfold sqlcipher_codec_ctx_set_kdf_algorithm. rewrite T3.
  eexists. split; [done|]. by apply tune_scalar.
Qed.

Lemma tune_hmac_algorithm v p L (ctx : ctx_t) (h : A) : tunable ctx ->
  exists ctx', sqlcipher_codec_ctx_set_hmac_algorithm ctx v = (SQLITE_OK, ctx') /\
    tune_step (upd_hmac v) p L ctx h ctx' h.
Proof.
  intros [T1 T2 T3 T4]. unfold sqlcipher_codec_ctx_set_hmac_algorithm. rewrite T3.
  rewrite reserve_setup_spec by done. eexists. split; [done|]. by apply tune_scalar.
Qed.

Lemma tune_use_hmac v p L (ctx : ctx_t) (h : A) : tunable ctx ->
  exists ctx', sqlcipher_codec_ctx_set_use_hmac ctx v = (SQLITE_OK, ctx') /\
    tune_step (upd_use_hmac v) p L ctx h ctx' h.
Proof.
  intros [T1 T2 T3 T4]. unfold sqlcipher_codec_ctx_set_use_hmac. rewrite T3.
  destruct v; (rewrite reserve_setup_spec by done); eexists; (split; [done|]);
    apply tune_scalar; try done; try (split; try done; cbn; by autorewrite with cflags);
    unfold settings_of, upd_use_hmac; cbn; by autorewrite with cflags.
Qed.

Lemma tune_header v p L (ctx : ctx_t) (h : A) : tunable ctx ->
  (block_sz ctx | v) -> 0 <= v <= page_sz ctx - reserve_sz ctx ->
  exists ctx', sqlcipher_codec_ctx_set_plaintext_header_size ctx v = (SQLITE_OK, ctx') /\
    tune_step (upd_header v) p L ctx h ctx' h.
Proof.
  intros [T1 T2 T3 T4] Hd Hv. pose proof pv_block_sz_ok as Hb.
  unfold sqlcipher_codec_ctx_set_plaintext_header_size.
  rewrite Z.rem_mod_nonneg by lia. rewrite (proj2 (Z.mod_divide v (block_sz ctx) ltac:(lia)) Hd).
  rewrite !(proj2 (Z.leb_le _ _)), (proj2 (Z.ltb_lt _ _)) by lia. cbn [andb Z.eqb].
  eexists. split; [done|]. by apply tune_scalar.
Qed.

Lemma pow2_land_zero k : 0 <= k -> Z.land (2 ^ k) (2 ^ k - 1) = 0.
Proof.
  intros Hk. replace (2 ^ k - 1) with (Z.ones k) by (rewrite Z.ones_equiv; lia).
  rewrite Z.land_ones by lia. apply Z.mod_same. lia.
Qed.

Lemma tunable_error (ctx : ctx_t) err : tunable ctx -> tunable (sqlcipher_codec_ctx_set_error ctx err).
Proof. intros []. by split. Qed.

Lemma tune_page_size v err p L (ctx : ctx_t) (h : A) : tunable ctx -> page_size_ok v ->
  is_Some (buffer ctx) -> owns h (codec_allocs p ctx) L ->
  exists rc ctx' h', sqlcipher_codec_ctx_set_pagesize ctx v h = Some (rc, ctx', h') /\
    tune_step (upd_page_size v) p L ctx h (error_if rc (err rc) ctx') h'.
Proof.
  intros T [Hv [k [Hk Ev]]] Hbuf Ho. pose proof T as [T1 T2 T3 T4].
  destruct (set_pagesize_spec p ctx v h L Ho) as (rc & ctx' & h' & E & Ho' & Hs).
  exists rc, ctx', h'. split; [done|]. unfold sqlcipher_codec_ctx_set_pagesize in E.
  rewrite T3 in E. rewrite Ev, pow2_land_zero, <- Ev in E by done.
  rewrite (proj2 (Z.eqb_neq v 0)), (proj2 (Z.ltb_ge v 512)), (proj2 (Z.ltb_ge 65536 v)) in E by lia.
  cbn [negb andb orb Z.eqb] in E.
  inversion Hs as [Hu|Hb Hc|Hpg|b Hpg Hlb Hu]; subst rc ctx'; [congruence| | |].
  - destruct (free_opt (buffer ctx) (page_sz ctx) h) as [h1|]; [|done].
    destruct (alloc_buf v h1) as [[[b|] h2]|]; simplify_eq.
  - unfold error_if. change (SQLITE_NOMEM <>? SQLITE_OK) with true. cbn iota.
    split; [apply tunable_error; by split|done|done|by left].
  - unfold error_if. change (SQLITE_OK <>? SQLITE_OK) with false. cbn iota.
    split; [by split|done|done|by right].
Qed.

(** The five calls of a compatibility version. *)
Definition upd_compat (c : compat) (t : settings) : settings :=
  Settings (cp_page_size c) (cp_hmac c) (cp_kdf c) (cp_iter c) (cp_use_hmac c) (st_header t).

Lemma compat_page_size v : page_size_ok (cp_page_size (compat_of v)).
Proof.
  unfold compat_of, page_size_ok.
  repeat case_cond; cbn [cp_page_size]; (split; [lia|]); first [by exists 10|by exists 12].
Qed.

Lemma tune_compat v p L (ctx : ctx_t) (h : A) : tunable ctx -> is_Some (buffer ctx) ->
  owns h (codec_allocs p ctx) L ->
  exists ctx' h', apply_compat (compat_of v) ctx h = Some (ctx', h') /\
    tune_step (upd_compat (compat_of v)) p L ctx h ctx' h'.
Proof.
  intros T Hb Ho. unfold apply_compat. pose proof (compat_page_size v) as Hpg.
  destruct (tune_page_size _ (fun _ => SQLITE_ERROR) p L ctx h T Hpg Hb Ho)
    as (rc & c0 & h1 & -> & S1).
  set (c1 := error_if rc SQLITE_ERROR c0) in *.
  destruct (tune_hmac_algorithm (cp_hmac (compat_of v)) p L c1 h1 (ts_tunable _ _ _ _ _ _ _ S1))
    as (c2 & -> & S2). cbv beta iota. change (error_if SQLITE_OK SQLITE_ERROR c2) with c2.
  destruct (tune_kdf_algorithm (cp_kdf (compat_of v)) p L c2 h1 (ts_tunable _ _ _ _ _ _ _ S2))
    as (c3 & -> & S3). change (error_if SQLITE_OK SQLITE_ERROR c3) with c3.
  destruct (tune_kdf_iter (cp_iter (compat_of v)) p L c3 h1 (ts_tunable _ _ _ _ _ _ _ S3))
    as (c4 & -> & _ & S4). change (error_if SQLITE_OK SQLITE_ERROR c4) with c4.
  destruct (tune_use_hmac (cp_use_hmac (compat_of v)) p L c4 h1 (ts_tunable _ _ _ _ _ _ _ S4))
    as (c5 & -> & S5). change (error_if SQLITE_OK SQLITE_ERROR c5) with c5.
  exists c5, h1. split; [done|].
  exact (tune_trans _ _ _ _ _ _ _ _ _ _ (tune_trans _ _ _ _ _ _ _ _ _ _
    (tune_trans _ _ _ _ _ _ _ _ _ _ (tune_trans _ _ _ _ _ _ _ _ _ _ S1 S2) S3) S4) S5).
Qed.
End Tuning.

(** ** The pragmas that set a parameter *)

Section Setting.
Context {A : Type} `{AllocatorOk A} {P : provider} `{!ProviderOk P}.
Context (e : @env A P) (btree_accepts : forall n r, e_set_page_size e n r = SQLITE_OK).
Abbreviation ctx_t := (codec_ctx P).
Abbreviation pstate := (@pstate A P).

(** PRAGMA name = value; *)
Definition run_setting (name value : bytes) (s : pstate) : option (Z * pstate) :=
  sqlcipher_codec_pragma e (name ++ [0]) (Some (value ++ [0])) s.

Lemma run_named name value (s : pstate) x :
  plain name = true -> select name (Some (value ++ [0])) (pragma_table e) = Some x ->
  run_setting name value s = x.2 (Some (value ++ [0])) s.
Proof.
  intros Hp Hx. apply (pragma_named e _ name name); [|done|done].
  apply plain_c_string; [done|constructor].
Qed.

(** The state [s] has the context [ctx], [s'] is reached by a step of the context. *)
Definition tunes (upd : settings -> settings) p L (ctx : ctx_t) (s : pstate)
  (r : option (Z * pstate)) : Prop :=
  exists s' ctx', r = Some (1, s') /\ ps_ctx s' = Some ctx' /\
    tune_step upd p L ctx (ps_heap s) ctx' (ps_heap s').

Lemma tunes_sync upd p L (ctx ctx' : ctx_t) (s s1 : pstate) err :
  tune_step upd p L ctx (ps_heap s) ctx' (ps_heap s1) ->
  tunes upd p L ctx s (handled (sync_btree e err ctx' s1)).
Proof.
  intros S. unfold sync_btree, codec_set_btree_to_codec_pagesize. rewrite btree_accepts.
  unfold error_if. change (SQLITE_OK <>? SQLITE_OK) with false. cbn iota.
  do 2 eexists. by split_and!.
Qed.

Lemma run_kdf_iter v p L (ctx : ctx_t) s : ps_ctx s = Some ctx -> tunable ctx ->
  - 2 ^ 31 <= v < 2 ^ 31 ->
  exists ctx', run_setting (text "kdf_iter") (fmt_d v) s = Some (1, with_ctx ctx' s) /\
    buffer ctx' = buffer ctx /\ tune_step (upd_iter v) p L ctx (ps_heap s) ctx' (ps_heap s).
Proof.
  intros Ec T Hv. erewrite run_named by reflexivity. cbn [snd]. unfold p_kdf_iter, if_ctx.
  rewrite Ec, atoi_fmt_d by done.
  destruct (tune_kdf_iter v p L ctx (ps_heap s) T) as (ctx' & -> & Eb & S). by exists ctx'.
Qed.

Lemma run_page_size v p L (ctx : ctx_t) s : ps_ctx s = Some ctx -> tunable ctx ->
  page_size_ok v -> is_Some (buffer ctx) -> owns (ps_heap s) (codec_allocs p ctx) L ->
  tunes (upd_page_size v) p L ctx s (run_setting (text "cipher_page_size") (fmt_d v) s).
Proof.
  intros Ec T Hv Hb Ho. erewrite run_named by reflexivity. cbn [snd]. unfold p_page_size.
  rewrite Ec, atoi_fmt_d by (destruct Hv; lia).
  destruct (tune_page_size v id p L ctx (ps_heap s) T Hv Hb Ho) as (rc & c1 & h1 & -> & S).
  by apply tunes_sync.
Qed.

Lemma run_use_hmac b p L (ctx : ctx_t) s : ps_ctx s = Some ctx -> tunable ctx ->
  tunes (upd_use_hmac b) p L ctx s (run_setting (text "cipher_use_hmac") (fmt_d (b2z b)) s).
Proof.
  intros Ec T. erewrite run_named by reflexivity. cbn [snd]. unfold p_use_hmac, if_ctx.
  rewrite Ec, getBoolean_fmt.
  destruct (tune_use_hmac b p L ctx (ps_heap s) T) as (c1 & -> & S). by apply tunes_sync.
Qed.

Lemma run_header v p L (ctx : ctx_t) s : ps_ctx s = Some ctx -> tunable ctx ->
  (block_sz ctx | v) -> 0 <= v <= page_sz ctx - reserve_sz ctx -> v < 2 ^ 31 ->
  tunes (upd_header v) p L ctx s
    (run_setting (text "cipher_plaintext_header_size") (fmt_d v) s).
Proof.
  intros Ec T Hd Hv Hi. erewrite run_named by reflexivity. cbn [snd].
  unfold p_plaintext_header_size, if_ctx. rewrite Ec, atoi_fmt_d by lia.
  destruct (tune_header v p L ctx (ps_heap s) T Hd Hv) as (c1 & -> & S).
  do 2 eexists. by split_and!.
Qed.

(** A label is read back as its algorithm. *)
Lemma label_value_of labels v l : label_of labels v = Some l ->
  forallb (fun l => plain l.2) labels = true -> NoDup (lower <$> labels.*2) ->
  label_value labels (l ++ [0]) = Some (Some v).
Proof.
  intros El Hp Hn. assert (Hl : plain l = true /\ In (v, l) labels).
  { clear Hn. induction labels as [|[w m] labels IH]; [done|]. simpl in *. bool_to_prop.
    destruct (Z.eqb_spec v w) as [->|]; [simplify_eq; auto|]. destruct (IH El); auto. }
  destruct Hl as [Hl Hin]. rewrite (label_value_spec _ _ l); [|apply plain_c_string; [done|constructor]|done].
  do 2 f_equal. clear El Hp. induction labels as [|[w m] labels IH]; [done|].
  rewrite !fmap_cons in Hn. apply list.NoDup_cons in Hn as [Hni Hn]. cbn [find snd].
  destruct Hin as [[= -> ->]|Hin]; [by rewrite bool_decide_eq_true_2|].
  rewrite bool_decide_eq_false_2; [by apply IH|]. intros E. apply Hni.
  apply list_elem_of_fmap. exists l. split; [by symmetry|]. apply list_elem_of_fmap. exists (v, l).
  split; [done|]. by apply list_elem_of_In.
Qed.

Lemma run_hmac_algorithm v l p L (ctx : ctx_t) s : ps_ctx s = Some ctx -> tunable ctx ->
  label_of hmac_labels v = Some l ->
  tunes (upd_hmac v) p L ctx s (run_setting (text "cipher_hmac_algorithm") l s).
Proof.
  intros Ec T El. erewrite run_named by reflexivity. cbn [snd]. unfold p_hmac_algorithm, if_ctx.
  rewrite Ec, (label_value_of hmac_labels v l El eq_refl)
    by (apply (bool_decide_unpack _); by vm_compute).
  destruct (tune_hmac_algorithm v p L ctx (ps_heap s) T) as (c1 & -> & S). by apply tunes_sync.
Qed.

Lemma run_kdf_algorithm v l p L (ctx : ctx_t) s : ps_ctx s = Some ctx -> tunable ctx ->
  label_of kdf_labels v = Some l ->
  tunes (upd_kdf v) p L ctx s (run_setting (text "cipher_kdf_algorithm") l s).
Proof.
  intros Ec T El. erewrite run_named by reflexivity. cbn [snd]. unfold p_kdf_algorithm, if_ctx.
  rewrite Ec, (label_value_of kdf_labels v l El eq_refl)
    by (apply (bool_decide_unpack _); by vm_compute).
  destruct (tune_kdf_algorithm v p L ctx (ps_heap s) T) as (c1 & -> & S).
  do 2 eexists. by split_and!.
Qed.

(** The settings as names and values, and their execution one after the other. *)
Definition settings_list (t : settings) (hl kl : bytes) : list (bytes * bytes) :=
  [(text "kdf_iter", fmt_d (st_iter t));
   (text "cipher_page_size", fmt_d (st_page_size t));
   (text "cipher_use_hmac", fmt_d (b2z (st_use_hmac t)));
   (text "cipher_plaintext_header_size", fmt_d (st_header t));
   (text "cipher_hmac_algorithm", hl);
   (text "cipher_kdf_algorithm", kl)].

Fixpoint run_settings (l : list (bytes * bytes)) (s : pstate) : option pstate :=
  match l with
  | [] => Some s
  | (name, value) :: l => let? (rc, s) := run_setting name value s in run_settings l s
  end.

(** Settings that a context can take, whatever its HMAC algorithm is at the moment: the
    reserve is at most 96 bytes. *)
Record settings_ok (t : settings) : Prop := {
  so_iter : - 2 ^ 31 <= st_iter t < 2 ^ 31;
  so_page : page_size_ok (st_page_size t);
  so_header : 0 <= st_header t <= st_page_size t - 96;
  so_block : (pv_get_block_sz P | st_header t)
}.

Lemma so_page_bound t : page_size_ok (st_page_size t) -> st_page_size t <= 65536.
Proof. intros [? _]. lia. Qed.

Lemma tunable_reserve (ctx : ctx_t) : tunable ctx -> reserve_sz ctx <= 96.
Proof.
  intros [Hi Hb _ [Hh ->]]. pose proof pv_iv_sz_ok. pose proof pv_block_sz_ok.
  pose proof (pv_hmac_sz_ok (hmac_algorithm ctx)). unfold CIPHER_MAX_IV_SZ in *.
  pose proof (reserve_for_bounds ctx ltac:(lia)). simpl in *. destruct (FLAG_GET _ _); lia.
Qed.

Lemma tunes_owns upd p L (ctx ctx' : ctx_t) (h h' : A) : tune_step upd p L ctx h ctx' h' ->
  owns h (codec_allocs p ctx) L -> tunable ctx' /\ owns h' (codec_allocs p ctx') L.
Proof. intros [T O _ _] Ho. auto. Qed.

Lemma replay_spec t hl kl p L (ctx : ctx_t) s : ps_ctx s = Some ctx -> tunable ctx ->
  is_Some (buffer ctx) -> owns (ps_heap s) (codec_allocs p ctx) L -> settings_ok t ->
  label_of hmac_labels (st_hmac t) = Some hl -> label_of kdf_labels (st_kdf t) = Some kl ->
  exists s' ctx', run_settings (settings_list t hl kl) s = Some s' /\ ps_ctx s' = Some ctx' /\
    owns (ps_heap s') (codec_allocs p ctx') L /\ settings_of ctx' = t /\
    (buffer ctx' = None \/ error ctx' = error ctx).
Proof.
  intros Ec T Hb Ho [Hi Hp Hh Hd] Eh Ek. unfold settings_list. cbn [run_settings].
  destruct (run_kdf_iter (st_iter t) p L ctx s Ec T Hi) as (c1 & -> & Eb & S1).
  destruct (tunes_owns _ _ _ _ _ _ _ S1 Ho) as [T1 O1].
  destruct (run_page_size (st_page_size t) p L c1 (with_ctx c1 s)) as (s2 & c2 & -> & E2 & S2);
    [done|done|done|by rewrite Eb|done|].
  destruct (tunes_owns _ _ _ _ _ _ _ S2 O1) as [T2 O2].
  destruct (run_use_hmac (st_use_hmac t) p L c2 s2 E2 T2) as (s3 & c3 & -> & E3 & S3).
  destruct (tunes_owns _ _ _ _ _ _ _ S3 O2) as [T3 O3].
  pose proof (tune_trans _ _ _ _ _ _ _ _ _ _ S1 (tune_trans _ _ _ _ _ _ _ _ _ _ S2 S3)) as S13.
  pose proof (f_equal st_page_size (ts_settings _ _ _ _ _ _ _ S13)) as Epg. cbn in Epg.
  pose proof (tunable_reserve c3 T3). pose proof (so_page_bound t Hp).
  destruct (run_header (st_header t) p L c3 s3 E3 T3) as (s4 & c4 & -> & E4 & S4);
    [by rewrite (tn_block _ T3)|lia|lia|].
  destruct (tunes_owns _ _ _ _ _ _ _ S4 O3) as [T4 O4].
  destruct (run_hmac_algorithm (st_hmac t) hl p L c4 s4 E4 T4 Eh) as (s5 & c5 & -> & E5 & S5).
  destruct (tunes_owns _ _ _ _ _ _ _ S5 O4) as [T5 O5].
  destruct (run_kdf_algorithm (st_kdf t) kl p L c5 s5 E5 T5 Ek) as (s6 & c6 & -> & E6 & S6).
  destruct (tunes_owns _ _ _ _ _ _ _ S6 O5) as [T6 O6].
  pose proof (tune_trans _ _ _ _ _ _ _ _ _ _ S13 (tune_trans _ _ _ _ _ _ _ _ _ _ S4
    (tune_trans _ _ _ _ _ _ _ _ _ _ S5 S6))) as [_ _ Hset Herr].
  exists s6, c6. split; [done|]. split; [done|]. split; [done|]. split; [by destruct t|].
  destruct Herr as [?|[_ ?]]; auto.
Qed.
End Setting.

(** ** Memory safety of the handler *)

Lemma c_string_in z n : c_string z n -> in_string z 0.
Proof. intros (t & -> & Hn)%c_string_split. exists n, t. split; [|done]. by split; [lia|]. Qed.

Lemma strnicmp_total k a s b t : c_string a s -> c_string b t ->
  exists d, sqlite3_strnicmp (Some a) (Some b) k = Some d.
Proof.
  intros (ta & -> & Ha)%c_string_split (tb & -> & Hb)%c_string_split. cbn [sqlite3_strnicmp].
  revert t Hb. generalize (Z.to_nat k). intros m. revert m.
  induction Ha as [|c s Hc Ha IH]; intros m t Hb; destruct m as [|m]; try (by eexists);
    destruct Hb as [|x t Hx Hb]; cbn [app strnicmp_loop].
  - eauto.
  - eauto.
  - case_cond; [|eauto]. exfalso. unfold UpperToLower in *. repeat case_match; bool_to_prop; lia.
  - case_cond; eauto.
Qed.

Lemma ptr_at_text (s : bytes) off : 0 <= off <= len s ->
  exists a, ptr_at s off = Some a /\ a = drop (Z.to_nat off) s.
Proof. intros H. rewrite ptr_at_ok by done. eauto. Qed.

Lemma safety_loop_total words z n k omit dflt : c_string z n ->
  Forall (fun w => 0 <= w.1.1 <= 24) words ->
  exists v, safety_loop words z k omit dflt = Some v.
Proof.
  intros Hz. induction words as [|[[off l] v] words IH]; intros Hw; cbn [safety_loop]; [eauto|].
  apply Forall_cons_1 in Hw as [Ho Hw]. cbn in Ho. specialize (IH Hw).
  case_cond; [|done]. rewrite ptr_at_ok by (change (len (lit "onoffalseyestruextrafull")) with 25; lia).
  destruct (strnicmp_total k (drop (Z.to_nat off) (lit "onoffalseyestruextrafull"))
    (drop (Z.to_nat off) (text "onoffalseyestruextrafull")) z n) as (d & ->); [|done|].
  - unfold lit. rewrite drop_app_le by (change (length (text "onoffalseyestruextrafull")) with 24%nat; lia).
    apply plain_c_string; [|constructor]. unfold plain. apply forallb_forall. intros c Hc.
    assert (Hp : plain (text "onoffalseyestruextrafull") = true) by reflexivity.
    unfold plain in Hp. rewrite forallb_forall in Hp. apply Hp.
    apply list_elem_of_In. apply list_elem_of_In in Hc.
    eapply subseteq_drop; [exact Hc].
  - case_cond; [eauto|done].
Qed.

Lemma getBoolean_total z n : c_string z n -> exists b, sqlite3GetBoolean z 1 = Some b.
Proof.
  intros Hz. unfold sqlite3GetBoolean, getSafetyLevel.
  destruct (in_string_get z 0 (c_string_in z n Hz)) as (c & -> & _).
  destruct (sqlite3Isdigit c).
  - destruct (sqlite3Atoi_total z (c_string_in z n Hz)) as (v & ->). eauto.
  - unfold sqlite3Strlen30, strlen. rewrite (proj2 Hz).
    destruct (safety_loop_total safety_words z n (Z.land 0x3fffffff (i32 (len n))) true 1 Hz)
      as (v & ->); [|eauto]. repeat constructor; cbn; lia.
Qed.

Section Safety.
Context {A : Type} `{AllocatorOk A} {P : provider} `{!ProviderOk P} (e : @env A P).
Context (p : Z) (L : list (Z * Z)).
Abbreviation ctx_t := (codec_ctx P).
Abbreviation pstate := (@pstate A P).

(** An argument is a string of less than 2^30 bytes, and a number in it fits in an int. *)
Definition arg_ok (zRight : option bytes) : Prop :=
  match zRight with
  | None => True
  | Some z => is_Some (atoi z) /\ exists n, c_string z n /\ len n < 2 ^ 30
  end.

Definition ctx_ready (ctx : ctx_t) : Prop := base_wf ctx /\ header_read_ok (pBt ctx).

(** The heap holds exactly the allocations of the context, and [L]. *)
Definition accounted (s : pstate) : Prop :=
  owns (ps_heap s) (from_option (codec_allocs p) [] (ps_ctx s)) L.
Definition ready (s : pstate) : Prop := from_option ctx_ready True (ps_ctx s).
(** A page buffer could not be allocated. *)
Definition lost_buffer (s : pstate) : Prop :=
  exists ctx, ps_ctx s = Some ctx /\ buffer ctx = None.

Definition settled (r : option (Z * pstate)) : Prop :=
  exists v s', r = Some (v, s') /\ accounted s' /\ (ready s' \/ lost_buffer s').

Definition safe_action (g : arg_guard) (act : @action A P) : Prop :=
  forall zRight s, arg_ok zRight -> guard_ok g zRight = true -> ready s -> accounted s ->
    settled (act zRight s).

(** The state changed only in fields that the context and the heap do not depend on. *)
Lemma settled_same (s s' : pstate) : ps_ctx s' = ps_ctx s -> ps_heap s' = ps_heap s ->
  ready s -> accounted s -> settled (handled s').
Proof.
  intros Ec Eh Hr Ha. exists 1, s'. unfold accounted, ready in *. rewrite Ec, Eh. auto.
Qed.

Lemma settled_row label v (s : pstate) : ready s -> accounted s ->
  settled (handled (sqlcipher_vdbe_return_string label v s)).
Proof. intros Hr Ha. destruct v; by apply (settled_same s). Qed.

(** A new context with the same allocations. *)
Lemma settled_ctx (s : pstate) (ctx ctx' : ctx_t) : ps_ctx s = Some ctx -> accounted s ->
  codec_allocs p ctx' = codec_allocs p ctx -> ctx_ready ctx' ->
  ready (with_ctx ctx' s) /\ accounted (with_ctx ctx' s).
Proof.
  intros Ec Ha Hal Hr. unfold accounted, ready in *. rewrite Ec in Ha. cbn in *. by rewrite Hal.
Qed.

Lemma settled_with_ctx (s : pstate) (ctx ctx' : ctx_t) : ps_ctx s = Some ctx -> accounted s ->
  codec_allocs p ctx' = codec_allocs p ctx -> ctx_ready ctx' -> settled (handled (with_ctx ctx' s)).
Proof.
  intros Ec Ha Hal Hr. destruct (settled_ctx s ctx ctx' Ec Ha Hal Hr). by eapply settled_same.
Qed.

Lemma if_ctx_safe (s : pstate) k : ready s -> accounted s ->
  (forall ctx, ps_ctx s = Some ctx -> ctx_ready ctx -> settled (k ctx)) -> settled (if_ctx s k).
Proof.
  intros Hr Ha Hk. unfold if_ctx. destruct (ps_ctx s) as [ctx|] eqn:E; [|by apply (settled_same s)].
  apply Hk; [done|]. unfold ready in Hr. by rewrite E in Hr.
Qed.

Lemma ready_error (ctx : ctx_t) err : ctx_ready ctx ->
  ctx_ready (sqlcipher_codec_ctx_set_error ctx err).
Proof. intros [[] Hh]. split; [by split|exact Hh]. Qed.

Lemma ready_error_if (ctx : ctx_t) rc err : ctx_ready ctx -> ctx_ready (error_if rc err ctx).
Proof. intros Hr. unfold error_if. case_cond; [by apply ready_error|done]. Qed.

Lemma allocs_error_if (ctx : ctx_t) rc err :
  codec_allocs p (error_if rc err ctx) = codec_allocs p ctx.
Proof. unfold error_if. by case_cond. Qed.

Lemma ready_cfg (ctx ctx' : ctx_t) : cfg_step ctx ctx' -> pBt ctx' = pBt ctx ->
  ctx_ready ctx -> ctx_ready ctx'.
Proof. intros S Eb [Hb Hh]. split; [by apply S|by rewrite Eb]. Qed.

(** Reporting the geometry to the B-tree, after a change of the context. *)
Lemma settled_sync (s : pstate) (ctx ctx' : ctx_t) err : ps_ctx s = Some ctx -> accounted s ->
  codec_allocs p ctx' = codec_allocs p ctx -> ctx_ready ctx' ->
  settled (handled (sync_btree e err ctx' s)).
Proof.
  intros Ec Ha Hal Hr. unfold sync_btree, codec_set_btree_to_codec_pagesize.
  eapply (settled_with_ctx _ ctx); [exact Ec|exact Ha| |by apply ready_error_if].
  by rewrite allocs_error_if.
Qed.

(** The B-tree of a context after the calls that leave it alone. *)
Lemma set_kdf_iter_bt (ctx : ctx_t) v : pBt (snd (sqlcipher_codec_ctx_set_kdf_iter ctx v)) = pBt ctx.
Proof. unfold sqlcipher_codec_ctx_set_kdf_iter. by case_cond. Qed.
Lemma set_fast_kdf_iter_bt (ctx : ctx_t) v :
  pBt (snd (sqlcipher_codec_ctx_set_fast_kdf_iter ctx v)) = pBt ctx.
Proof. unfold sqlcipher_codec_ctx_set_fast_kdf_iter. by case_cond. Qed.
Lemma set_use_hmac_bt (ctx : ctx_t) v : pBt (snd (sqlcipher_codec_ctx_set_use_hmac ctx v)) = pBt ctx.
Proof. unfold sqlcipher_codec_ctx_set_use_hmac. case_cond; [done|]. by destruct v. Qed.
Lemma set_hmac_algorithm_bt (ctx : ctx_t) v :
  pBt (snd (sqlcipher_codec_ctx_set_hmac_algorithm ctx v)) = pBt ctx.
Proof. unfold sqlcipher_codec_ctx_set_hmac_algorithm. by case_cond. Qed.
Lemma set_kdf_algorithm_bt (ctx : ctx_t) v :
  pBt (snd (sqlcipher_codec_ctx_set_kdf_algorithm ctx v)) = pBt ctx.
Proof. unfold sqlcipher_codec_ctx_set_kdf_algorithm. by case_cond. Qed.
Lemma set_header_bt (ctx : ctx_t) v :
  pBt (snd (sqlcipher_codec_ctx_set_plaintext_header_size ctx v)) = pBt ctx.
Proof. unfold sqlcipher_codec_ctx_set_plaintext_header_size. by case_cond. Qed.

(** A configuration call keeps a context ready and its allocations. *)
Definition keeps_ready (ctx ctx' : ctx_t) : Prop :=
  codec_allocs p ctx' = codec_allocs p ctx /\ (ctx_ready ctx -> ctx_ready ctx').

Lemma keeps_kdf_iter (ctx : ctx_t) v : keeps_ready ctx (snd (sqlcipher_codec_ctx_set_kdf_iter ctx v)).
Proof.
  destruct (set_kdf_iter_step ctx v) as (c & E & S & _). pose proof (set_kdf_iter_bt ctx v) as B.
  rewrite E in *. split; [apply S|]. by apply ready_cfg.
Qed.
Lemma keeps_fast_kdf_iter (ctx : ctx_t) v :
  keeps_ready ctx (snd (sqlcipher_codec_ctx_set_fast_kdf_iter ctx v)).
Proof.
  destruct (set_fast_kdf_iter_step ctx v) as (c & E & S & _).
  pose proof (set_fast_kdf_iter_bt ctx v) as B. rewrite E in *. split; [apply S|]. by apply ready_cfg.
Qed.
Lemma keeps_kdf_algorithm (ctx : ctx_t) v :
  keeps_ready ctx (snd (sqlcipher_codec_ctx_set_kdf_algorithm ctx v)).
Proof.
  destruct (set_kdf_algorithm_step ctx v) as (c & E & S & _).
  pose proof (set_kdf_algorithm_bt ctx v) as B. rewrite E in *. split; [apply S|]. by apply ready_cfg.
Qed.
Lemma keeps_header (ctx : ctx_t) v :
  keeps_ready ctx (snd (sqlcipher_codec_ctx_set_plaintext_header_size ctx v)).
Proof.
  destruct (set_header_size_step ctx v) as (rc & c & E & S & _).
  pose proof (set_header_bt ctx v) as B. rewrite E in *. split; [apply S|]. by apply ready_cfg.
Qed.
Lemma keeps_use_hmac (ctx : ctx_t) v : ctx_ready ctx ->
  keeps_ready ctx (snd (sqlcipher_codec_ctx_set_use_hmac ctx v)).
Proof.
  intros [Hb _]. destruct (set_use_hmac_step ctx v Hb) as (c & E & S & _).
  pose proof (set_use_hmac_bt ctx v) as B. rewrite E in *. split; [apply S|]. by apply ready_cfg.
Qed.
Lemma keeps_hmac_algorithm (ctx : ctx_t) v : ctx_ready ctx ->
  keeps_ready ctx (snd (sqlcipher_codec_ctx_set_hmac_algorithm ctx v)).
Proof.
  intros [Hb _]. destruct (set_hmac_algorithm_step ctx v Hb) as (c & E & S & _).
  pose proof (set_hmac_algorithm_bt ctx v) as B. rewrite E in *. split; [apply S|].
  by apply ready_cfg.
Qed.

(** The start of a proof about an action: its argument, when there is one, is [z] with the
    number [v] and the text [n]. *)
Ltac act_start :=
  intros zRight s Harg Hg Hr Ha;
  destruct zRight as [z|]; try discriminate Hg;
  try (destruct Harg as ([v Hv] & n & Hz & Hn)).

(** Actions that only report. *)
Ltac act_report := act_start; first
  [ by apply settled_row
  | apply if_ctx_safe; [done|done|]; intros ctx Ec Hc; by apply settled_row ].

Lemma int_default_safe label get set : safe_action AnyArg (int_default e label get set).
Proof.
  act_start; cbn [int_default]; [|by apply settled_row]. rewrite Hv. by apply (settled_same s).
Qed.

Lemma alg_default_safe label labels get set :
  forallb (fun l => plain l.2) labels = true -> safe_action AnyArg (alg_default label labels get set).
Proof.
  intros Hp. act_start; cbn [alg_default]; [|by apply settled_row].
  rewrite (label_value_spec labels z n Hz Hp). cbn [option_map].
  destruct (fst <$> _) as [a|]; by apply (settled_same s).
Qed.

Lemma store_pass_safe g : safe_action g (p_store_pass e).
Proof.
  act_start; apply if_ctx_safe; [done|done| |done|done|]; intros ctx Ec Hc; [|by apply settled_row].
  destruct (getBoolean_total z n Hz) as (b & ->).
  destruct (settled_ctx s ctx (set_store_pass (b2z b) ctx)) as [Hr' Ha']; [done|done|done| |].
  - destruct Hc as [[] Hh]. by split.
  - by apply settled_row.
Qed.

Lemma kdf_iter_safe : safe_action AnyArg (p_kdf_iter e).
Proof.
  act_start; apply if_ctx_safe; [done|done| |done|done|]; intros ctx Ec Hc; [|by apply settled_row].
  rewrite Hv. destruct (keeps_kdf_iter ctx v). eapply settled_with_ctx; eauto.
Qed.

Lemma fast_kdf_iter_safe : safe_action AnyArg (p_fast_kdf_iter e).
Proof.
  act_start; apply if_ctx_safe; [done|done| |done|done|]; intros ctx Ec Hc; [|by apply settled_row].
  rewrite Hv. destruct (keeps_fast_kdf_iter ctx v) as [K1 K2].
  destruct (settled_ctx s ctx _ Ec Ha K1 (K2 Hc)). by apply settled_row.
Qed.

Lemma header_size_safe : safe_action AnyArg (p_plaintext_header_size e).
Proof.
  act_start; apply if_ctx_safe; [done|done| |done|done|]; intros ctx Ec Hc; [|by apply settled_row].
  rewrite Hv. destruct (keeps_header ctx v). eapply settled_with_ctx; eauto.
Qed.

Lemma default_use_hmac_safe : safe_action AnyArg (p_default_use_hmac e).
Proof.
  act_start; unfold p_default_use_hmac; [|by apply settled_row].
  destruct (getBoolean_total z n Hz) as (b & ->). by apply (settled_same s).
Qed.

Lemma memory_security_safe : safe_action AnyArg (p_memory_security e).
Proof.
  act_start; unfold p_memory_security; [|by apply settled_row].
  destruct (getBoolean_total z n Hz) as (b & ->). destruct b; by apply (settled_same s).
Qed.

Lemma use_hmac_safe : safe_action AnyArg (p_use_hmac e).
Proof.
  act_start; apply if_ctx_safe; [done|done| |done|done|]; intros ctx Ec Hc; [|by apply settled_row].
  destruct (getBoolean_total z n Hz) as (b & ->). destruct (keeps_use_hmac ctx b Hc) as [K1 K2].
  destruct (sqlcipher_codec_ctx_set_use_hmac ctx b) as [rc c1]. cbn [snd] in *.
  apply (settled_sync s ctx); [done|done|by rewrite allocs_error_if|by apply ready_error_if, K2].
Qed.

Lemma hmac_algorithm_safe : safe_action AnyArg (p_hmac_algorithm e).
Proof.
  act_start; apply if_ctx_safe; [done|done| |done|done|]; intros ctx Ec Hc; [|by apply settled_row].
  rewrite (label_value_spec hmac_labels z n Hz eq_refl). destruct (fst <$> _) as [a|].
  - destruct (keeps_hmac_algorithm ctx a Hc) as [K1 K2].
    destruct (sqlcipher_codec_ctx_set_hmac_algorithm ctx a) as [rc c1]. cbn [snd] in *.
    apply (settled_sync s ctx); [done|done|by rewrite allocs_error_if|by apply ready_error_if, K2].
  - apply (settled_sync s ctx); [done|done|by rewrite allocs_error_if|by apply ready_error_if].
Qed.

Lemma kdf_algorithm_safe : safe_action AnyArg p_kdf_algorithm.
Proof.
  act_start; apply if_ctx_safe; [done|done| |done|done|]; intros ctx Ec Hc; [|by apply settled_row].
  rewrite (label_value_spec kdf_labels z n Hz eq_refl). destruct (fst <$> _) as [a|].
  - destruct (keeps_kdf_algorithm ctx a) as [K1 K2].
    destruct (sqlcipher_codec_ctx_set_kdf_algorithm ctx a) as [rc c1]. cbn [snd] in *.
    apply (settled_with_ctx s ctx); [done|done|by rewrite allocs_error_if|by apply ready_error_if, K2].
  - apply (settled_with_ctx s ctx); [done|done|by rewrite allocs_error_if|by apply ready_error_if].
Qed.

Lemma pgno_flags_total z n f : c_string z n -> exists f', pgno_flags z f = Some f'.
Proof.
  intros Hz. unfold pgno_flags.
  destruct (stricmp_c_string z n (lit "le") (text "le") Hz) as (d & -> & _);
    [apply plain_c_string; [done|constructor]|]. case_cond; [eauto|].
  destruct (stricmp_c_string z n (lit "be") (text "be") Hz) as (d' & -> & _);
    [apply plain_c_string; [done|constructor]|]. case_cond; [eauto|].
  destruct (stricmp_c_string z n (lit "native") (text "native") Hz) as (d2 & -> & _);
    [apply plain_c_string; [done|constructor]|]. case_cond; eauto.
Qed.

Lemma hmac_pgno_safe : safe_action AnyArg p_hmac_pgno.
Proof.
  act_start; apply if_ctx_safe; [done|done| |done|done|]; intros ctx Ec Hc; [|by apply settled_row].
  destruct (pgno_flags_total z n (flags ctx) Hz) as (f & ->).
  destruct (settled_ctx s ctx (set_flags f ctx)) as [Hr' Ha']; [done|done|done| |].
  - destruct Hc as [[] Hh]. by split.
  - by apply settled_row.
Qed.

(** A new page size: ready again, or without a buffer. *)
Lemma pagesize_ready (ctx : ctx_t) size rc ctx' : ctx_ready ctx -> pagesize_step ctx size rc ctx' ->
  ctx_ready ctx' \/ buffer ctx' = None.
Proof.
  intros [Hb Hh] Hs. inversion Hs as [Hu| |Hpg|b Hpg Hlb Hu]; subst; [by left|by left|by right|left].
  destruct Hb. split; [|exact Hh]. split; try done. by eexists.
Qed.

(** The new context and heap, with or without the buffer. *)
Lemma settled_sync_heap (s : pstate) (ctx' : ctx_t) h err :
  owns h (codec_allocs p ctx') L -> ctx_ready ctx' \/ buffer ctx' = None ->
  settled (handled (sync_btree e err ctx' (with_heap h s))).
Proof.
  intros Ho Hr. unfold sync_btree, codec_set_btree_to_codec_pagesize. do 2 eexists. split; [done|].
  unfold accounted, ready, lost_buffer. cbn. rewrite allocs_error_if. split; [done|].
  destruct Hr as [Hr|Hb]; [left; by apply ready_error_if|right].
  eexists. split; [done|]. unfold error_if. by case_cond.
Qed.

Lemma page_size_safe : safe_action AnyArg (p_page_size e).
Proof.
  act_start; unfold p_page_size; destruct (ps_ctx s) as [ctx|] eqn:Ec;
    try (by exists 0, s; auto); [|by apply settled_row].
  assert (Hc : ctx_ready ctx) by (unfold ready in Hr; by rewrite Ec in Hr).
  assert (Ho : owns (ps_heap s) (codec_allocs p ctx) L)
    by (unfold accounted in Ha; by rewrite Ec in Ha).
  rewrite Hv. destruct (set_pagesize_spec p ctx v (ps_heap s) L Ho) as (rc & c1 & h1 & -> & Ho1 & Hs).
  apply settled_sync_heap; [by rewrite allocs_error_if|].
  destruct (pagesize_ready _ _ _ _ Hc Hs) as [?|Hb]; [left; by apply ready_error_if|right].
  unfold error_if. by case_cond.
Qed.

(** A configuration call on a context that is ready or has lost its buffer. *)
Definition cfg_ok (ctx : ctx_t) : Prop := ctx_ready ctx \/ buffer ctx = None.

Lemma cfg_ok_use_hmac (ctx : ctx_t) v : cfg_ok ctx ->
  cfg_ok (snd (sqlcipher_codec_ctx_set_use_hmac ctx v)) /\
  codec_allocs p (snd (sqlcipher_codec_ctx_set_use_hmac ctx v)) = codec_allocs p ctx.
Proof.
  intros [Hc|Hb].
  - destruct (keeps_use_hmac ctx v Hc) as [K1 K2]. split; [left; auto|done].
  - unfold sqlcipher_codec_ctx_set_use_hmac. case_cond; [by split; [right|]|].
    destruct v; by split; [right|].
Qed.

Lemma cfg_ok_hmac (ctx : ctx_t) v : cfg_ok ctx ->
  cfg_ok (snd (sqlcipher_codec_ctx_set_hmac_algorithm ctx v)) /\
  codec_allocs p (snd (sqlcipher_codec_ctx_set_hmac_algorithm ctx v)) = codec_allocs p ctx.
Proof.
  intros [Hc|Hb].
  - destruct (keeps_hmac_algorithm ctx v Hc) as [K1 K2]. split; [left; auto|done].
  - unfold sqlcipher_codec_ctx_set_hmac_algorithm. case_cond; by split; [right|].
Qed.

Lemma cfg_ok_kdf (ctx : ctx_t) v : cfg_ok ctx ->
  cfg_ok (snd (sqlcipher_codec_ctx_set_kdf_algorithm ctx v)) /\
  codec_allocs p (snd (sqlcipher_codec_ctx_set_kdf_algorithm ctx v)) = codec_allocs p ctx.
Proof.
  destruct (keeps_kdf_algorithm ctx v) as [K1 K2]. intros [Hc|Hb]; split; try done; [by left; auto|].
  right. unfold sqlcipher_codec_ctx_set_kdf_algorithm. by case_cond.
Qed.

Lemma cfg_ok_iter (ctx : ctx_t) v : cfg_ok ctx ->
  cfg_ok (snd (sqlcipher_codec_ctx_set_kdf_iter ctx v)) /\
  codec_allocs p (snd (sqlcipher_codec_ctx_set_kdf_iter ctx v)) = codec_allocs p ctx.
Proof.
  destruct (keeps_kdf_iter ctx v) as [K1 K2]. intros [Hc|Hb]; split; try done; [by left; auto|].
  right. unfold sqlcipher_codec_ctx_set_kdf_iter. by case_cond.
Qed.

Lemma cfg_ok_error_if (ctx : ctx_t) rc err : cfg_ok ctx -> cfg_ok (error_if rc err ctx).
Proof.
  intros [Hc|Hb]; [left; by apply ready_error_if|right]. unfold error_if. by case_cond.
Qed.

Lemma apply_compat_safe c (ctx : ctx_t) h : ctx_ready ctx -> owns h (codec_allocs p ctx) L ->
  exists ctx' h', apply_compat c ctx h = Some (ctx', h') /\ cfg_ok ctx' /\
    owns h' (codec_allocs p ctx') L.
Proof.
  intros Hc Ho. unfold apply_compat.
  destruct (set_pagesize_spec p ctx (cp_page_size c) h L Ho) as (rc & c1 & h1 & -> & Ho1 & Hs).
  pose proof (cfg_ok_error_if _ rc SQLITE_ERROR (pagesize_ready _ _ _ _ Hc Hs)) as K1.
  rewrite <- (allocs_error_if c1 rc SQLITE_ERROR) in Ho1.
  destruct (cfg_ok_hmac _ (cp_hmac c) K1) as [K2 A2].
  destruct (sqlcipher_codec_ctx_set_hmac_algorithm _ _) as [r2 c2]. cbn [snd] in *.
  apply (cfg_ok_error_if _ r2 SQLITE_ERROR) in K2. rewrite <- (allocs_error_if c2 r2 SQLITE_ERROR) in A2.
  destruct (cfg_ok_kdf _ (cp_kdf c) K2) as [K3 A3].
  destruct (sqlcipher_codec_ctx_set_kdf_algorithm _ _) as [r3 c3]. cbn [snd] in *.
  apply (cfg_ok_error_if _ r3 SQLITE_ERROR) in K3. rewrite <- (allocs_error_if c3 r3 SQLITE_ERROR) in A3.
  destruct (cfg_ok_iter _ (cp_iter c) K3) as [K4 A4].
  destruct (sqlcipher_codec_ctx_set_kdf_iter _ _) as [r4 c4]. cbn [snd] in *.
  apply (cfg_ok_error_if _ r4 SQLITE_ERROR) in K4. rewrite <- (allocs_error_if c4 r4 SQLITE_ERROR) in A4.
  destruct (cfg_ok_use_hmac _ (cp_use_hmac c) K4) as [K5 A5].
  destruct (sqlcipher_codec_ctx_set_use_hmac _ _) as [r5 c5]. cbn [snd] in *.
  do 2 eexists. split; [done|]. split; [by apply cfg_ok_error_if|].
  rewrite allocs_error_if, A5, A4, A3, A2. done.
Qed.

Lemma compatibility_safe : safe_action AnyArg (p_compatibility e).
Proof.
  act_start; apply if_ctx_safe; [done|done| |done|done|]; intros ctx Ec Hc;
    [|by apply (settled_same s)].
  assert (Ho : owns (ps_heap s) (codec_allocs p ctx) L)
    by (unfold accounted in Ha; by rewrite Ec in Ha).
  rewrite Hv. destruct (apply_compat_safe (compat_of v) ctx (ps_heap s) Hc Ho)
    as (c1 & h1 & -> & K & Ho1). by apply settled_sync_heap.
Qed.

Lemma default_compatibility_safe : safe_action AnyArg (@p_default_compatibility A P).
Proof.
  act_start; unfold p_default_compatibility; [rewrite Hv|]; by apply (settled_same s).
Qed.

Lemma log_level_safe : safe_action AnyArg (@p_log_level A P).
Proof.
  act_start; unfold p_log_level; [|by apply settled_row].
  rewrite (label_value_spec log_levels z n Hz eq_refl). by apply settled_row.
Qed.

Lemma log_source_safe : safe_action AnyArg (p_log_source e).
Proof.
  act_start; unfold p_log_source; [|by apply settled_row]. unfold log_source_flags.
  rewrite (label_value_spec [(SQLCIPHER_LOG_NONE, text "NONE"); (SQLCIPHER_LOG_ANY, text "ANY")]
    z n Hz eq_refl).
  destruct (fst <$> _); [by apply settled_row|].
  rewrite (label_value_spec log_sources z n Hz eq_refl). destruct (fst <$> _); by apply settled_row.
Qed.

Lemma strlen30_text z n : c_string z n -> len n < 2 ^ 30 -> sqlite3Strlen30 (Some z) = Some (len n).
Proof.
  intros [_ Ez] Hn. unfold sqlite3Strlen30, strlen. rewrite Ez.
  rewrite i32_small by lia. rewrite Z.land_comm. change 0x3fffffff with (Z.ones 30).
  rewrite Z.land_ones, Z.mod_small by lia. done.
Qed.

Lemma c_string_len z n : c_string z n -> len n < len z.
Proof. intros (t & -> & _)%c_string_split. rewrite length_app. simpl. lia. Qed.

Lemma blob_literal_spec z n k : c_string z n -> len n < 2 ^ 30 ->
  exists b, blob_literal z k = Some b /\ (b = true -> len n = k).
Proof.
  intros Hz Hn. unfold blob_literal.
  destruct (strnicmp_total 2 z n (lit "x'") (text "x'") Hz) as (d & ->);
    [apply plain_c_string; [done|constructor]|].
  destruct (d <>? 0); [by exists false|]. rewrite (strlen30_text z n) by done.
  eexists. split; [done|]. apply Z.eqb_eq.
Qed.

(** Decoding digits of the argument, from its third character on. *)
Lemma hex_arg z n (m : nat) out : c_string z n -> 2 + Z.of_nat (2 * m) <= len n ->
  (m <= length out)%nat ->
  exists hex d, ptr_at z 2 = Some hex /\ cipher_hex2bin hex (Z.of_nat (2 * m)) out = Some d /\
    length d = length out.
Proof.
  intros Hz Hm Ho. pose proof (c_string_len z n Hz). rewrite ptr_at_ok by lia.
  assert (Hl : (2 * m <= length (drop (Z.to_nat 2) z))%nat) by (rewrite length_drop; lia).
  do 2 eexists. split; [done|]. split; [by apply cipher_hex2bin_spec|].
  rewrite length_app, length_drop, (length_hex_decode m) by (rewrite length_take; lia). lia.
Qed.

Lemma hmac_salt_mask_safe : safe_action AnyArg (p_hmac_salt_mask e).
Proof.
  act_start; apply if_ctx_safe; [done|done| |done|done|]; intros ctx Ec Hc; [|by apply settled_row].
  destruct (blob_literal_spec z n 5 Hz Hn) as ([] & -> & Hl); [|by apply settled_row].
  specialize (Hl eq_refl).
  destruct (hex_arg z n 1 [0] Hz) as (hex & d & -> & E & Ld); [lia|simpl; lia|].
  change (Z.of_nat (2 * 1)) with 2 in E. rewrite E. destruct d as [|m d]; [done|].
  change (mem_get (m :: d) 0) with (Some m). cbn iota. by apply settled_row.
Qed.

Lemma salt_text_total sb : len (b_data sb) = FILE_HEADER_SZ ->
  exists t, salt_text (Some sb) = Some t.
Proof.
  intros Hl. unfold salt_text.
  pose proof (cipher_bin2hex_spec (b_data sb) (replicate 33 0) 0 16) as E.
  change (Z.of_nat 16) with FILE_HEADER_SZ in E.
  change (Z.to_nat (FILE_HEADER_SZ * 2 + 1)) with 33%nat.
  rewrite E; [|lia|unfold FILE_HEADER_SZ in Hl; lia|rewrite length_replicate; lia].
  change (take (Z.to_nat 0) _) with (@nil Z). cbn [app].
  generalize (hex_encode (take 16 (b_data sb))). intros l.
  induction l as [|c l (t & IH)]; [by eexists|]. cbn [app cstr]. case_cond; [eauto|].
  rewrite IH. eauto.
Qed.

Lemma salt_safe : safe_action AnyArg (p_salt e).
Proof.
  act_start; apply if_ctx_safe; [done|done| |done|done|]; intros ctx Ec Hc.
  - destruct (blob_literal_spec z n (FILE_HEADER_SZ * 2 + 3) Hz Hn) as ([] & -> & Hl);
      [|by apply (settled_same s)].
    specialize (Hl eq_refl). unfold FILE_HEADER_SZ in Hl. destruct (e_malloc e FILE_HEADER_SZ); cbn [negb].
    2:{ apply (settled_with_ctx s ctx); [done..|by apply ready_error]. }
    destruct (hex_arg z n 16 (replicate 16 0) Hz) as (hex & d & -> & E & Ld);
      [lia|rewrite length_replicate; lia|].
    change (Z.of_nat (2 * 16)) with (FILE_HEADER_SZ * 2) in E.
    change (Z.to_nat FILE_HEADER_SZ) with 16%nat. rewrite E. rewrite length_replicate in Ld.
    unfold sqlcipher_codec_ctx_set_kdf_salt.
    destruct (FLAG_GET _ _); [by apply (settled_with_ctx s ctx)|].
    destruct Hc as [Hb Hh]. pose proof (bw_salt_sz _ Hb) as Hsz. rewrite Hsz.
    change (FILE_HEADER_SZ <=? FILE_HEADER_SZ) with true. cbn iota.
    destruct (bw_salt _ Hb) as (sb & Es & Ls). rewrite Es. rewrite Hsz in Ls.
    unfold FILE_HEADER_SZ in *. rewrite take_mem_read by lia.
    destruct (mem_write (b_data sb) 0 _) as [d'|] eqn:Ew;
      [|rewrite mem_write_total in Ew by (rewrite ?length_take; lia); done].
    apply mem_write_length in Ew. apply (settled_with_ctx s ctx); [done|done| |].
    + unfold codec_allocs. cbn. by rewrite Es.
    + destruct Hb. split; [|exact Hh]. split; try done. cbn. eexists. split; [done|]. cbn. lia.
  - destruct (e_malloc e _); [|apply (settled_with_ctx s ctx); [done..|by apply ready_error]].
    destruct Hc as [Hb Hh]. destruct (get_kdf_salt_ok ctx Hb Hh) as (rc & c1 & sb & -> & S & _ & Lb).
    assert (Hc1 : ctx_ready c1).
    { split; [by eapply salted_base|]. by destruct S as (s1 & hs & f & pc & -> & _). }
    pose proof (salted_allocs _ _ p S) as Al. case_cond.
    + destruct (salt_text_total sb Lb) as (t & ->).
      destruct (settled_ctx s ctx c1 Ec Ha Al Hc1). by apply settled_row.
    + apply (settled_with_ctx s ctx); [done|done|done|by apply ready_error].
Qed.

Lemma add_random_total z n l (h : A) : c_string z n -> len n < 2 ^ 30 -> owns h l L ->
  exists rc h', sqlcipher_codec_add_random e z (len n) h = Some (rc, h') /\ owns h' l L.
Proof.
  intros Hz Hn Ho. unfold sqlcipher_codec_add_random. pose proof (c_string_len z n Hz) as Hl.
  destruct (Z.ltb_spec 0 (len n - 3)) as [H3|]; [|by exists SQLITE_ERROR, h].
  destruct (strnicmp_total 2 z n (lit "x'") (text "x'") Hz) as (d & ->);
    [apply plain_c_string; [done|constructor]|].
  destruct (d <>? 0); [by exists SQLITE_ERROR, h|]. rewrite ptr_at_ok by lia.
  assert (Hs : exists m, c_string (drop (Z.to_nat (len n - 1)) z) m).
  { destruct (c_string_split z n Hz) as (t & -> & Hnz). destruct Hz as [Bz Ez].
    exists (drop (Z.to_nat (len n - 1)) n). split; [by apply Forall_drop|].
    rewrite drop_app_le by lia. apply (Forall_drop _ (Z.to_nat (len n - 1))) in Hnz.
    induction Hnz as [|c m Hc _ IH]; [done|]. cbn. by rewrite (proj2 (Z.eqb_neq c 0)), IH. }
  destruct Hs as (m & Hm). destruct (strnicmp_total 1 _ m (lit "'") (text "'") Hm) as (d2 & ->);
    [apply plain_c_string; [done|constructor]|].
  destruct ((d2 =? 0) && (Z.rem (len n - 3) 2 =? 0)) eqn:Eok; [|by exists SQLITE_ERROR, h].
  bool_to_prop. set (k := Z.to_nat (Z.quot (len n - 3) 2)).
  assert (Ek : len n - 3 = Z.of_nat (2 * k)).
  { unfold k. pose proof (Z.quot_rem' (len n - 3) 2). lia. }
  assert (Eq : Z.quot (len n - 3) 2 = Z.of_nat k) by (unfold k; lia). rewrite Eq.
  destruct (owns_alloc_buf h l L (Z.of_nat k) Ho ltac:(lia)) as ([b|] & h1 & -> & Ho1 & Lb);
    [|by exists SQLITE_NOMEM, h1].
  destruct (hex_arg z n k (b_data b) Hz) as (hex & r & -> & E & _); [lia| |].
  { specialize (Lb b eq_refl). lia. }
  rewrite Ek, E. destruct (owns_free h1 (b_ptr b) (Z.of_nat k) l L Ho1) as (h2 & -> & Ho2).
  by do 2 eexists.
Qed.

Lemma add_random_safe : safe_action WithArg (p_add_random e).
Proof.
  act_start. cbn [p_add_random]. apply if_ctx_safe; [done|done|]. intros ctx Ec Hc.
  rewrite (strlen30_text z n) by done. unfold accounted in Ha.
  destruct (add_random_total z n _ (ps_heap s) Hz Hn Ha) as (rc & h & -> & Ho).
  apply settled_row; [exact Hr|exact Ho].
Qed.

Lemma settled_setting name value (s : pstate) : ready s -> accounted s ->
  ready (return_setting e name value s) /\ accounted (return_setting e name value s).
Proof.
  intros Hr Ha. unfold return_setting, sqlcipher_vdbe_return_string.
  by destruct value as [v|]; [destruct (e_mprintf e _)|].
Qed.

(** Walk through a sequence of rows, the innermost first. *)
Ltac settle_settings :=
  repeat match goal with |- context [return_setting e ?n ?v ?s0] =>
    lazymatch s0 with
    | return_setting _ _ _ _ => fail
    | _ => destruct (settled_setting n v s0) as [? ?]; [done|done|];
           set (return_setting e n v s0) in *
    end end.

Lemma default_settings_safe : safe_action AnyArg (p_default_settings e).
Proof.
  intros zRight s _ _ Hr Ha. unfold p_default_settings. cbv zeta.
  settle_settings.
  by eapply settled_same.
Qed.

Lemma settings_safe : safe_action AnyArg (p_settings e).
Proof.
  intros zRight s _ _ Hr Ha. apply if_ctx_safe; [done|done|]. intros ctx _ _. cbv zeta.
  settle_settings.
  by eapply settled_same.
Qed.

Lemma status_safe : safe_action WithoutArg (@p_status A P).
Proof. act_report. Qed.
Lemma fips_status_safe : safe_action WithoutArg (p_fips_status e).
Proof. act_report. Qed.
Lemma profile_safe : safe_action WithArg (p_profile e).
Proof. act_report. Qed.
Lemma provider_safe : safe_action WithoutArg (p_provider e).
Proof. act_report. Qed.
Lemma provider_version_safe : safe_action WithoutArg (p_provider_version e).
Proof. act_report. Qed.
Lemma version_safe : safe_action WithoutArg (p_version e).
Proof. act_report. Qed.
Lemma cipher_safe : safe_action AnyArg (p_cipher e).
Proof. act_report. Qed.
Lemma rekey_cipher_safe : safe_action WithArg (@p_rekey_cipher A P).
Proof. act_report. Qed.
Lemma rekey_kdf_iter_safe : safe_action WithArg (@p_rekey_kdf_iter A P).
Proof. act_report. Qed.
Lemma log_safe : safe_action WithArg (p_log e).
Proof. act_report. Qed.

(** The pragmas with a theorem of their own. *)
Definition is_external (name : bytes) : bool :=
  bool_decide (lower name = lower (text "cipher_migrate")) ||
  bool_decide (lower name = lower (text "cipher_integrity_check")).

Create HintDb pragma_safe.
#[local] Hint Resolve int_default_safe store_pass_safe kdf_iter_safe fast_kdf_iter_safe
  header_size_safe default_use_hmac_safe memory_security_safe use_hmac_safe hmac_algorithm_safe
  kdf_algorithm_safe hmac_pgno_safe page_size_safe compatibility_safe
  default_compatibility_safe log_level_safe log_source_safe hmac_salt_mask_safe salt_safe
  add_random_safe default_settings_safe settings_safe status_safe fips_status_safe
  profile_safe provider_safe provider_version_safe version_safe cipher_safe
  rekey_cipher_safe rekey_kdf_iter_safe log_safe : pragma_safe.
#[local] Hint Extern 2 (safe_action _ (p_default_kdf_iter _)) =>
  exact (int_default_safe _ _ _) : pragma_safe.
#[local] Hint Extern 2 (safe_action _ (p_default_page_size _)) =>
  exact (int_default_safe _ _ _) : pragma_safe.
#[local] Hint Extern 2 (safe_action _ (p_default_plaintext_header_size _)) =>
  exact (int_default_safe _ _ _) : pragma_safe.
#[local] Hint Extern 2 (safe_action _ p_default_hmac_algorithm) =>
  exact (alg_default_safe _ hmac_labels _ _ eq_refl) : pragma_safe.
#[local] Hint Extern 2 (safe_action _ p_default_kdf_algorithm) =>
  exact (alg_default_safe _ kdf_labels _ _ eq_refl) : pragma_safe.

Lemma table_safe : Forall (fun x : bytes * arg_guard * @action A P =>
  is_external x.1.1 = false -> safe_action x.1.2 x.2) (pragma_table e).
Proof.
  unfold pragma_table.
  repeat (apply List.Forall_cons; [cbn [fst snd]; first
    [ by intros _; auto with pragma_safe | by intros E; vm_compute in E ]|]).
  constructor.
Qed.

Lemma select_external n m zRight x : select n zRight (pragma_table e) = Some x ->
  m = x.1.1 -> lower n = lower m.
Proof.
  intros Hx ->. apply find_some in Hx as [_ Hx]. apply andb_true_iff in Hx as [Hx _].
  by apply bool_decide_eq_true in Hx.
Qed.

Lemma pragma_settled zLeft n zRight s : c_string zLeft n -> is_external n = false ->
  arg_ok zRight -> ready s -> accounted s ->
  settled (sqlcipher_codec_pragma e zLeft zRight s).
Proof.
  intros Hz Hx Harg Hr Ha. unfold sqlcipher_codec_pragma.
  rewrite (dispatch_spec _ _ n) by (done || apply table_plain).
  destruct (select n zRight (pragma_table e)) as [x|] eqn:Es; [|exists 0, s; auto].
  pose proof (select_external n x.1.1 zRight x Es eq_refl) as El.
  unfold select in Es. apply find_some in Es as [Hin Hg].
  apply andb_true_iff in Hg as [_ Hg].
  pose proof table_safe as Ht. rewrite List.Forall_forall in Ht.
  apply Ht; try done. unfold is_external in *. by rewrite <- El.
Qed.
End Safety.

(** ** Properties *)

Section Properties.
Context {A : Type} `{AllocatorOk A} {P : provider} `{!ProviderOk P} (e : @env A P).
Abbreviation ctx_t := (codec_ctx P).
Abbreviation pstate := (@pstate A P).


(** PRAGMA cipher_compatibility, in any letter case, selects exactly the parameters of
    the version: page size, HMAC and KDF algorithms, iterations and use of HMAC; it leaves
    the plaintext header alone, tells the B-tree the resulting geometry, and records no
    error unless memory for the page buffer ran out. *)
Theorem compatibility_exact p L zLeft n z v (s : pstate) (ctx : ctx_t) :
  (forall sz r, e_set_page_size e sz r = SQLITE_OK) ->
  c_string zLeft n -> lower n = lower (text "cipher_compatibility") -> atoi z = Some v ->
  ps_ctx s = Some ctx -> tunable ctx -> is_Some (buffer ctx) ->
  owns (ps_heap s) (codec_allocs p ctx) L ->
  exists s' ctx', sqlcipher_codec_pragma e zLeft (Some z) s = Some (1, s') /\
    ps_ctx s' = Some ctx' /\ owns (ps_heap s') (codec_allocs p ctx') L /\
    (let c := compat_of v in
     settings_of ctx' = Settings (cp_page_size c) (cp_hmac c) (cp_kdf c) (cp_iter c)
                          (cp_use_hmac c) (plaintext_header_sz ctx)) /\
    sized ctx' /\ ps_btree s' = ps_btree s ++ [(page_sz ctx', reserve_sz ctx')] /\
    (buffer ctx' = None \/ error ctx' = error ctx).
Proof.
  intros Hbt Hz Hn Hv Ec T Hb Ho.
  erewrite (pragma_named e zLeft n (text "cipher_compatibility")) by (done || reflexivity).
  cbn [snd]. unfold p_compatibility, if_ctx. rewrite Ec, Hv.
  destruct (tune_compat v p L ctx (ps_heap s) T Hb Ho) as (c1 & h1 & -> & S).
  unfold sync_btree, codec_set_btree_to_codec_pagesize. rewrite Hbt. unfold error_if.
  change (SQLITE_OK <>? SQLITE_OK) with false. cbn iota.
  destruct S as [T1 O1 S1 E1]. do 2 eexists. split; [done|]. split; [done|].
  split; [by apply O1|]. split; [exact S1|]. split; [apply T1|]. split; [done|].
  destruct E1 as [?|[_ ?]]; auto.
Qed.

(** The output of PRAGMA cipher_settings is a faithful backup of the format: its rows
    are PRAGMA statements, and executing them on any other context that can still be
    configured gives that context the same page size, algorithms, iterations, use of HMAC
    and plaintext header, without recording an error unless memory ran out. *)
Theorem settings_replay p L (s : pstate) (ctx : ctx_t) hl kl :
  (forall t, e_mprintf e t = Some t) -> (forall sz r, e_set_page_size e sz r = SQLITE_OK) ->
  ps_ctx s = Some ctx -> settings_ok (P:=P) (settings_of ctx) ->
  label_of hmac_labels (hmac_algorithm ctx) = Some hl ->
  label_of kdf_labels (kdf_algorithm ctx) = Some kl ->
  exists s' stmts, sqlcipher_codec_pragma e (lit "cipher_settings") None s = Some (1, s') /\
    ps_rows s' = ps_rows s ++
      ((fun st => (text "pragma", setting_text st.1 st.2)) <$> stmts) /\
    forall s2 ctx2, ps_ctx s2 = Some ctx2 -> tunable ctx2 -> is_Some (buffer ctx2) ->
      owns (ps_heap s2) (codec_allocs p ctx2) L ->
      exists s2' ctx2', run_settings e stmts s2 = Some s2' /\ ps_ctx s2' = Some ctx2' /\
        owns (ps_heap s2') (codec_allocs p ctx2') L /\ settings_of ctx2' = settings_of ctx /\
        (buffer ctx2' = None \/ error ctx2' = error ctx2).
Proof.
  intros Hmp Hbt Ec Hok Eh Ek.
  assert (Hz : c_string (lit "cipher_settings") (text "cipher_settings"))
    by (apply plain_c_string; [done|constructor]).
  erewrite (pragma_named e _ _ (text "cipher_settings") None s _ Hz) by reflexivity.
  cbn [snd]. unfold p_settings, if_ctx. rewrite Ec. cbv zeta. rewrite Eh, Ek.
  unfold return_setting. rewrite !Hmp.
  eexists _, (settings_list (settings_of ctx) hl kl). split; [done|]. split.
  - unfold sqlcipher_vdbe_return_string. cbn [with_rows ps_rows].
    rewrite <- !app_assoc. done.
  - intros s2 ctx2 E2 T2 B2 O2. by apply (replay_spec e Hbt).
Qed.
End Properties.

(** ** Witnesses *)

Definition demo_env : @env ledger demo_provider :=
  @Env ledger demo_provider Some (fun _ => true) 0 (Some (text "demo")) (Some (text "1")) (Some (text "xor"))
    (fun _ => SQLITE_OK) (Some (text "4")) (fun _ _ => SQLITE_OK) (fun _ => SQLITE_OK)
    (fun _ => SQLITE_OK) None 5 (fun c h => Some (SQLITE_OK, c, h)).
Definition demo_pstate : @pstate ledger demo_provider :=
  PState demo_globals (Some demo_ctx) demo_heap (Xo 1 2 3 4) [] 0 [] false false 0 0.

Lemma demo_tunable : tunable demo_ctx.
Proof. split; by vm_compute. Qed.

Lemma demo_c_string l : forallb (fun c => (0 <? c) && (c <? 256)) l = true -> c_string (l ++ [0]) l.
Proof. intros Hl. apply plain_c_string; [|constructor]. exact Hl. Qed.


Lemma compatibility_exact_witness :
  exists s' ctx', sqlcipher_codec_pragma demo_env (lit "CIPHER_compatibility") (Some (lit "3"))
      demo_pstate = Some (1, s') /\ ps_ctx s' = Some ctx' /\
    settings_of ctx' = Settings 1024 0 0 64000 true 0 /\
    (buffer ctx' = None \/ error ctx' = SQLITE_OK).
Proof.
  destruct (compatibility_exact demo_env 5 [] (lit "CIPHER_compatibility")
    (text "CIPHER_compatibility") (lit "3") 3 demo_pstate demo_ctx)
    as (s' & ctx' & E & Ec & _ & Es & _ & _ & Hb); try done.
  - by apply demo_c_string.
  - exact demo_owns.
  - exists s', ctx'. split; [exact E|]. split; [exact Ec|]. split; [exact Es|exact Hb].
Defined.

Lemma settings_replay_witness :
  exists s' stmts, sqlcipher_codec_pragma demo_env (lit "cipher_settings") None demo_pstate =
      Some (1, s') /\
    ps_rows s' = ((fun st => (text "pragma", setting_text st.1 st.2)) <$> stmts) /\
    exists s2' ctx2', run_settings demo_env stmts demo_pstate = Some s2' /\
      ps_ctx s2' = Some ctx2' /\ settings_of ctx2' = settings_of demo_ctx.
Proof.
  destruct (settings_replay demo_env 5 [] demo_pstate demo_ctx (text "HMAC_SHA512")
    (text "PBKDF2_HMAC_SHA512")) as (s' & stmts & E & Er & R); try done.
  - split; cbn; [lia| |lia|by exists 0]. split; [lia|]. by exists 9.
  - destruct (R demo_pstate demo_ctx) as (s2 & c2 & E2 & C2 & _ & S2 & _).
    + reflexivity.
    + exact demo_tunable.
    + by eexists.
    + exact demo_owns.
    + exists s', stmts. split; [exact E|]. split; [exact Er|]. exists s2, c2.
      split; [exact E2|]. split; [exact C2|exact S2].
Defined.
