(* ===== verification/KeyApi.v ===== *)
(** * The key interface of src/sqlcipher.c

    [sqlcipherCodecAttach] and the calls on top of it: [sqlite3_key], [sqlite3_key_v2],
    [sqlite3_rekey], [sqlite3_rekey_v2], [sqlcipherCodecGetKey], with
    [sqlcipher_find_db_index], [codec_set_pass_key] and [sqlite3FreeCodecArg].

    A connection is the list of its databases. Of a database's B-tree and pager the model
    has the fields these functions read or write. What the pager does in the course of a
    rekey is the argument [pager_env]: its return codes, and the calls of the codec it makes
    while it fetches, writes and commits pages; each of them is a call of [sqlite3Codec].
    The build is the one without SQLITE_DEBUG.

    [key_keeps_ledger]: setting keys, on any database of a connection, any number of times,
    neither leaks nor frees twice. [rekey_switches_key]: a rekey that succeeds leaves the
    read key equal to the write key; one that fails leaves the read key as it was. *)

From stdpp Require Import list gmap.
From S2P Require Import Prelude CipherUtil UtilStr CodecCtx Demo CodecCrypto CodecPage CodecInv CodecKey CodecMain.
Import Hex MemOps Xoshiro.
Local Open Scope Z_scope.

Section KeyApi.
Context {A : Type} `{Allocator A} {P : provider}.
Abbreviation ctx_t := (codec_ctx P).

(** ** Connections *)

(** A B-tree with its pager. *)
Record bt_entry := BtEntry {
  be_bt : btree;                         (* the fields of pBt->pBt *)
  be_sharable : bool;
  be_pCodec : option (Z * ctx_t);        (* pPager->pCodec *)
  be_xCodec : bool;                      (* pPager->xCodec is set *)
  be_memDb : bool;
  be_file_open : bool;                   (* sqlite3PagerFile(pPager)->pMethods != 0 *)
  be_pager_error : option Z;             (* the code with which the pager was blocked *)
  be_pagesize_fixed : bool;              (* BTS_PAGESIZE_FIXED *)
  be_pagesize : list (Z * Z);            (* calls of sqlite3BtreeSetPageSize *)
  be_secure_delete : bool;
  be_autovacuum_set : bool               (* sqlite3BtreeSetAutoVacuum was called *)
}.

Record db_entry := DbEntry { zDbSName : bytes; db_pBt : option bt_entry }.

Record sqlite3 := Sqlite3 {
  aDb : list db_entry;
  db_mutex : Z;                          (* how often db->mutex is held *)
  db_nextPagesize : Z
}.

Definition set_pCodec c x (b : bt_entry) : bt_entry :=
  BtEntry (be_bt b) (be_sharable b) c x (be_memDb b) (be_file_open b) (be_pager_error b)
    (be_pagesize_fixed b) (be_pagesize b) (be_secure_delete b) (be_autovacuum_set b).
Definition set_be_bt t (b : bt_entry) : bt_entry :=
  BtEntry t (be_sharable b) (be_pCodec b) (be_xCodec b) (be_memDb b) (be_file_open b)
    (be_pager_error b) (be_pagesize_fixed b) (be_pagesize b) (be_secure_delete b)
    (be_autovacuum_set b).
Definition set_pager_error e (b : bt_entry) : bt_entry :=
  BtEntry (be_bt b) (be_sharable b) (be_pCodec b) (be_xCodec b) (be_memDb b) (be_file_open b)
    (Some e) (be_pagesize_fixed b) (be_pagesize b) (be_secure_delete b) (be_autovacuum_set b).
Definition set_geometry f l s v (b : bt_entry) : bt_entry :=
  BtEntry (be_bt b) (be_sharable b) (be_pCodec b) (be_xCodec b) (be_memDb b) (be_file_open b)
    (be_pager_error b) f l s v.

(** [db->aDb[n].pBt] is replaced. *)
Definition put_bt (n : Z) (b : bt_entry) (db : sqlite3) : sqlite3 :=
  Sqlite3 (alter (fun d => DbEntry (zDbSName d) (Some b)) (Z.to_nat n) (aDb db))
    (db_mutex db) (db_nextPagesize db).
Definition set_mutex m (db : sqlite3) : sqlite3 := Sqlite3 (aDb db) m (db_nextPagesize db).
Definition set_nextPagesize n (db : sqlite3) : sqlite3 := Sqlite3 (aDb db) (db_mutex db) n.

(** [sqlcipherPagerSetCodec]: the previous codec is not freed. *)
Definition sqlcipherPagerSetCodec (xCodec : bool) (pCodec : option (Z * ctx_t)) (b : bt_entry)
  : bt_entry := set_pCodec pCodec (if be_memDb b then false else xCodec) b.

Definition sqlcipherPagerGetCodec (b : bt_entry) : option (Z * ctx_t) := be_pCodec b.

(** [sqlite3pager_error] *)
Definition sqlite3pager_error (b : bt_entry) (rc : Z) : bt_entry := set_pager_error rc b.

(** ** Names and keys *)

Fixpoint find_index (l : list db_entry) (i : Z) (zDb : bytes) : option Z :=
  match l with
  | [] => Some (-1)
  | d :: l =>
      let? c := sqlite3_stricmp (Some (zDbSName d)) (Some zDb) in
      if c =? 0 then Some i else find_index l (i + 1) zDb
  end.

Definition sqlcipher_find_db_index (db : option sqlite3) (zDb : option bytes) : option Z :=
  match db with
  | None => Some (-1)
  | Some db =>
      match zDb with
      | None => Some 0
      | Some z =>
          let? c := sqlite3_stricmp (Some z) (Some [0]) in
          if c =? 0 then Some 0 else find_index (aDb db) 0 z
      end
  end.

(** [strlen] of the C library. *)
Definition strlen (z : bytes) : option Z :=
  let? r := list_find (fun c => c = 0) z in Some (Z.of_nat r.1).

(** [if(pKey && nKey < 0) nKey = strlen(pKey)] *)
Definition key_length (pKey : option bytes) (nKey : Z) : option Z :=
  match pKey with
  | Some z => if nKey <? 0 then strlen z else Some nKey
  | None => Some nKey
  end.

(** The start-up state the functions look at: [sqlcipher_init], [sqlcipher_init_error]. *)
Record startup := Startup { su_init : bool; su_error : Z }.

Section Calls.
Context (G : globals) (su : startup).

(** The error state of a failed attachment: read only, or a blocked pager when a write
    transaction is open. *)
Definition attach_failed (rc : Z) (b : bt_entry) : bt_entry :=
  let t := be_bt b in
  let ro := fun r => BTree (bt_inTransaction t) r rc (bt_autoVacuum t) (bt_header t) in
  if bt_inTransaction t <>? TRANS_WRITE then set_be_bt (ro true) b
  else set_be_bt (ro (bt_read_only t)) (sqlite3pager_error b rc).

(** [codec_set_btree_to_codec_pagesize], [sqlite3BtreeSecureDelete] and
    [sqlite3BtreeSetAutoVacuum] on the B-tree. *)
Definition attach_geometry (ctx : ctx_t) (b : bt_entry) : bt_entry :=
  set_geometry false (be_pagesize b ++ [(page_sz ctx, reserve_sz ctx)]) true
    (if be_file_open b then true else be_autovacuum_set b) b.

(** Create a context for the database and install it. *)
Definition attach_new (b : bt_entry) (zKey : option bytes) (nKey : Z) (h : A)
  : option (Z * bt_entry * option Z * A) :=
  let? (rc, r, h) := sqlcipher_codec_ctx_init G (be_bt b) zKey nKey h in
  if rc <>? SQLITE_OK then Some (rc, attach_failed rc b, None, h) else
  let? (p, ctx) := r in
  let b := sqlcipherPagerSetCodec true (Some (p, ctx)) b in
  Some (rc, attach_geometry ctx b, Some (page_sz ctx), h).

(** Return code, the connection, the heap. *)
Definition sqlcipherCodecAttach (db : option sqlite3) (nDb : Z) (zKey : option bytes)
  (nKey : Z) (h : A) : option (Z * option sqlite3 * A) :=
  if negb (su_init su) then Some (su_error su, db, h) else
  match zKey with
  | None => Some (SQLITE_MISUSE, db, h)
  | Some _ =>
  if negb (0 <? nKey) then Some (SQLITE_MISUSE, db, h) else
  match db with
  | None => Some (SQLITE_MISUSE, db, h)
  | Some c =>
  if negb ((0 <=? nDb) && (nDb <? len (aDb c))) then Some (SQLITE_MISUSE, db, h) else
  let? pDb := aDb c !! Z.to_nat nDb in
  match db_pBt pDb with
  | None => Some (SQLITE_MISUSE, db, h)
  | Some b =>
      let c := set_mutex (db_mutex c + 1) c in
      let? (rc, c, h) :=
        match sqlcipherPagerGetCodec b with
        | Some (p, ctx) =>
            if FLAG_GET (flags ctx) CIPHER_FLAG_KEY_USED then Some (SQLITE_OK, c, h) else
            if be_sharable b then Some (SQLITE_OK, c, h) else
            let? h := sqlcipher_codec_ctx_free (Some (p, ctx)) h in
            let b := sqlcipherPagerSetCodec false None b in
            let? (rc, b, sz, h) := attach_new b zKey nKey h in
            Some (rc, put_bt nDb b (from_option set_nextPagesize id sz c), h)
        | None =>
            let? (rc, b, sz, h) := attach_new b zKey nKey h in
            Some (rc, put_bt nDb b (from_option set_nextPagesize id sz c), h)
        end in
      Some (rc, Some (set_mutex (db_mutex c - 1) c), h)
  end end end.

Definition sqlite3_key_v2 (db : option sqlite3) (zDb pKey : option bytes) (nKey : Z) (h : A)
  : option (Z * option sqlite3 * A) :=
  let? db_index := sqlcipher_find_db_index db zDb in
  let? nKey := key_length pKey nKey in
  sqlcipherCodecAttach db db_index pKey nKey h.

Definition sqlite3_key (db : option sqlite3) (pKey : option bytes) (nKey : Z) (h : A)
  : option (Z * option sqlite3 * A) :=
  sqlite3_key_v2 db (Some [109; 97; 105; 110; 0]) pKey nKey h.

(** The destructor the pager calls when it is closed; the shared cache mutex only orders it
    with other calls. *)
Definition sqlite3FreeCodecArg (pCodecArg : option (Z * ctx_t)) (h : A) : option A :=
  match pCodecArg with
  | None => Some h
  | Some c => sqlcipher_codec_ctx_free (Some c) h
  end.

(** [codec_set_pass_key] *)
Definition codec_set_pass_key (b : option bt_entry) (zKey : option bytes) (nKey for_ctx : Z)
  (h : A) : option (Z * option bt_entry * A) :=
  match b with
  | Some b =>
      match sqlcipherPagerGetCodec b with
      | Some (p, ctx) =>
          let? (rc, ctx, h) := sqlcipher_codec_ctx_set_pass ctx zKey nKey for_ctx h in
          Some (rc, Some (set_pCodec (Some (p, ctx)) (be_xCodec b) b), h)
      | None => Some (SQLITE_ERROR, Some b, h)
      end
  | None => Some (SQLITE_ERROR, None, h)
  end.

(** Return the key: the passphrase while it is there, a key specification otherwise. *)
Definition sqlcipherCodecGetKey (db : option sqlite3) (nDb : Z) (h : A)
  : option (option buf * Z * option sqlite3 * A) :=
  match db with
  | None => Some (None, 0, db, h)
  | Some c =>
  if negb ((0 <=? nDb) && (nDb <? len (aDb c))) then Some (None, 0, db, h) else
  let? pDb := aDb c !! Z.to_nat nDb in
  match db_pBt pDb with
  | None => Some (None, 0, db, h)
  | Some b =>
  match sqlcipherPagerGetCodec b with
  | None => Some (None, 0, db, h)
  | Some (p, ctx) =>
      let? (pr, r) := read_ctx ctx in
      if (derive_key r <>? 0) || (store_pass ctx =? 1) then
        let? (z, h) := alloc_buf (pass_sz r) h in
        match z with
        | None => Some (None, 0, db, h)
        | Some z =>
            let? d := mem_read (pass_bytes r) 0 (pass_sz r) in
            let? d := mem_write (b_data z) 0 d in
            Some (Some (Buf (b_ptr z) d), pass_sz r, db, h)
        end
      else
        let? (_, z, n, r, h) := sqlcipher_cipher_ctx_get_keyspec G ctx r h in
        let b := set_pCodec (Some (p, set_read_ctx (Some (pr, r)) ctx)) (be_xCodec b) b in
        Some (z, n, Some (put_bt nDb b c), h)
  end end end.

(** ** Rekey *)

(** A call of the codec by the pager: the page's buffer, its number, the mode. *)
Record codec_call := Call { cl_data : bytes; cl_pgno : Z; cl_mode : Z }.

(** What the pager answers, and the calls of the codec it makes. *)
Record pager_env := PagerEnv {
  pg_begin : Z * list codec_call;         (* sqlite3BtreeBeginTrans *)
  pg_count : Z;                           (* sqlite3PagerPagecount *)
  pg_sj : Z;                              (* the page of the pending byte *)
  pg_get : Z -> Z * list codec_call;      (* sqlite3PagerGet *)
  pg_write : Z -> Z * list codec_call;    (* sqlite3PagerWrite *)
  pg_commit : list codec_call;            (* sqlite3BtreeCommit *)
  pg_rollback : list codec_call           (* sqlite3BtreeRollback *)
}.

Context (addr : Z).

(** The state of the codec during the rekey, with the number of page references held. *)
Record rekey_state := RekeyState {
  rk_ctx : ctx_t;
  rk_rng : xoshiro;
  rk_heap : A;
  rk_refs : Z
}.

Definition codec_calls (l : list codec_call) (s : rekey_state) : option rekey_state :=
  fold_left (fun s c =>
    let? s := s in
    let? r := sqlite3Codec G addr (rk_rng s) (rk_ctx s) (rk_heap s) (cl_data c) (cl_pgno c)
                (cl_mode c) in
    Some (RekeyState (cr_ctx r) (cr_rng r) (cr_heap r) (rk_refs s))) l (Some s).

Definition add_refs (n : Z) (s : rekey_state) : rekey_state :=
  RekeyState (rk_ctx s) (rk_rng s) (rk_heap s) (rk_refs s + n).

(** Fetch one page and mark it for writing. *)
Definition rekey_page (e : pager_env) (pgno : Z) (s : rekey_state) : option (Z * rekey_state) :=
  let '(rc, l) := pg_get e pgno in
  let? s := codec_calls l s in
  if rc =? SQLITE_OK then
    let s := add_refs 1 s in
    let '(rc, l) := pg_write e pgno in
    let? s := codec_calls l s in
    if rc =? SQLITE_OK then Some (rc, add_refs (-1) s) else Some (rc, s)
  else Some (rc, s).

(** The loop over the pages: [n] rounds are left. *)
Fixpoint rekey_loop (n : nat) (e : pager_env) (rc pgno : Z) (s : rekey_state)
  : option (Z * rekey_state) :=
  match n with
  | O => Some (rc, s)
  | S n =>
      if rc =? SQLITE_OK then
        let? (rc, s) := (if pgno <>? pg_sj e then rekey_page e pgno s else Some (rc, s)) in
        rekey_loop n e rc (pgno + 1) s
      else Some (rc, s)
  end.

(** The transaction: all pages, then commit and key copy, or rollback. *)
Definition rekey_transaction (e : pager_env) (s : rekey_state) : option (Z * rekey_state) :=
  let '(rc, l) := pg_begin e in
  let? s := codec_calls l s in
  if rc <>? SQLITE_OK then Some (rc, s) else
  let? (rc, s) := rekey_loop (Z.to_nat (pg_count e)) e rc 1 s in
  if rc =? SQLITE_OK then
    let? s := codec_calls (pg_commit e) s in
    let? (_, ctx, h) := sqlcipher_codec_key_copy (rk_ctx s) CIPHER_WRITE_CTX (rk_heap s) in
    Some (rc, RekeyState ctx (rk_rng s) h (rk_refs s))
  else
    let? s := codec_calls (pg_rollback e) s in
    Some (rc, s).

(** Return code, connection, generator, heap, and the page references that are left. *)
Definition sqlite3_rekey_v2 (e : pager_env) (db : option sqlite3) (zDb pKey : option bytes)
  (nKey : Z) (rng : xoshiro) (h : A) : option (Z * option sqlite3 * xoshiro * A * Z) :=
  let? nKey := key_length pKey nKey in
  if negb (su_init su) then Some (su_error su, db, rng, h, 0) else
  match db with
  | None => Some (SQLITE_MISUSE, None, rng, h, 0)
  | Some c =>
      let leave := fun c => Some (set_mutex (db_mutex c - 1) c) in
      if negb (bool_decide (is_Some pKey) && (0 <? nKey))
      then Some (SQLITE_MISUSE, leave c, rng, h, 0) else
      let c := set_mutex (db_mutex c + 1) c in
      let? db_index := sqlcipher_find_db_index (Some c) zDb in
      if negb ((0 <=? db_index) && (db_index <? len (aDb c)))
      then Some (SQLITE_MISUSE, leave c, rng, h, 0) else
      let? pDb := aDb c !! Z.to_nat db_index in
      match db_pBt pDb with
      | None => Some (SQLITE_ERROR, leave c, rng, h, 0)
      | Some b =>
          if bool_decide (sqlcipherPagerGetCodec b = None)
          then Some (SQLITE_MISUSE, leave c, rng, h, 0) else
          let? (_, b, h) := codec_set_pass_key (Some b) pKey nKey CIPHER_WRITE_CTX h in
          let? b := b in
          let? (p, ctx) := sqlcipherPagerGetCodec b in
          let? (rc, s) := rekey_transaction e (RekeyState ctx rng h 0) in
          let b := set_pCodec (Some (p, rk_ctx s)) (be_xCodec b) b in
          Some (rc, leave (put_bt db_index b c), rk_rng s, rk_heap s, rk_refs s)
      end
  end.

Definition sqlite3_rekey (e : pager_env) (db : option sqlite3) (pKey : option bytes)
  (nKey : Z) (rng : xoshiro) (h : A) : option (Z * option sqlite3 * xoshiro * A * Z) :=
  sqlite3_rekey_v2 e db (Some [109; 97; 105; 110; 0]) pKey nKey rng h.

End Calls.
End KeyApi.

Section KeyProofs.
Context {A : Type} `{AllocatorOk A} {P : provider} `{!ProviderOk P} (G : globals).
Abbreviation ctx_t := (codec_ctx P).
Abbreviation conn := (sqlite3 (P:=P)).
Abbreviation btent := (bt_entry (P:=P)).
Abbreviation dbent := (db_entry (P:=P)).

(** ** The ledger of a connection *)

Definition bt_allocs (b : option btent) : allocs :=
  match b with
  | Some b => match be_pCodec b with Some (p, ctx) => codec_allocs p ctx | None => [] end
  | None => []
  end.
Definition conn_allocs (c : conn) : allocs := concat ((fun d => bt_allocs (db_pBt d)) <$> aDb c).

(** Every attached codec is well formed. *)
Definition conn_wf (c : conn) : Prop :=
  Forall (fun d : dbent => forall b p ctx, db_pBt d = Some b -> be_pCodec b = Some (p, ctx) ->
    codec_wf ctx) (aDb c).

Lemma owns_app h l1 l2 L : owns h (l1 ++ l2) L ->
  exists L2, owns h l1 (L2 ++ L) /\
    forall h' l, owns h' l (L2 ++ L) -> owns h' (l ++ l2) L.
Proof.
  intros [Hi (ms & F & Hl)]. apply Forall2_app_inv_l in F as (m1 & m2 & F1 & F2 & ->).
  exists (zip l2.*1 m2). split.
  - split; [done|]. exists m1. split; [done|]. rewrite Hl, fmap_app, zip_with_app.
    + by rewrite app_assoc.
    + rewrite length_fmap. by eapply Forall2_length.
  - intros h' l [Hi' (ms & F & Hl')]. split; [done|]. exists (ms ++ m2).
    split; [by apply Forall2_app|]. rewrite Hl', fmap_app, zip_with_app.
    + by rewrite app_assoc.
    + rewrite length_fmap. by eapply Forall2_length.
Qed.

Lemma alter_middle {X} (f : X -> X) (l : list X) i x : l !! i = Some x ->
  alter f i l = take i l ++ f x :: drop (S i) l.
Proof.
  revert i. induction l as [|a l IH]; intros [|i] E; simplify_eq/=; [done|]. by rewrite (IH i E).
Qed.

(** The ledger of one database and of the others. *)
Lemma conn_allocs_split (c : conn) n d b : aDb c !! Z.to_nat n = Some d -> db_pBt d = Some b ->
  exists rest, conn_allocs c ≡ₚ bt_allocs (Some b) ++ rest /\
    forall b' m np, conn_allocs (Sqlite3 (aDb (put_bt n b' c)) m np) ≡ₚ bt_allocs (Some b') ++ rest.
Proof.
  intros Ed Eb. unfold conn_allocs, put_bt. simpl.
  exists (concat ((fun d => bt_allocs (db_pBt d)) <$> take (Z.to_nat n) (aDb c)) ++
          concat ((fun d => bt_allocs (db_pBt d)) <$> drop (S (Z.to_nat n)) (aDb c))).
  split.
  - rewrite <- (take_drop_middle (aDb c) (Z.to_nat n) d Ed) at 1.
    rewrite fmap_app, concat_app. simpl. rewrite Eb. apply Permutation_app_swap_app.
  - intros b' _ _. rewrite (alter_middle _ _ _ _ Ed).
    rewrite fmap_app, concat_app. simpl. apply Permutation_app_swap_app.
Qed.

Lemma conn_wf_put (c : conn) n b m np :
  conn_wf c -> (forall p ctx, be_pCodec b = Some (p, ctx) -> codec_wf ctx) ->
  conn_wf (Sqlite3 (aDb (put_bt n b c)) m np).
Proof.
  intros W Hb. unfold conn_wf, put_bt. simpl. apply Forall_alter; [done|].
  intros d _ Hd b' p ctx [= <-]. apply Hb.
Qed.

(** ** Attaching a key *)

(** What an attachment does to the connection, with its return code. *)
Inductive attach_result (su : startup) (c : conn) (nDb : Z) (zKey : option bytes) (nKey : Z)
  : Z -> conn -> Prop :=
(* not initialised, no key, or no such database: nothing happens *)
| ar_refused rc :
    (su_init su = false /\ rc = su_error su) \/ rc = SQLITE_MISUSE ->
    attach_result su c nDb zKey nKey rc c
(* a key that has been used, or a shared cache, is left alone *)
| ar_kept d b p ctx :
    aDb c !! Z.to_nat nDb = Some d -> db_pBt d = Some b -> be_pCodec b = Some (p, ctx) ->
    FLAG_GET (flags ctx) CIPHER_FLAG_KEY_USED = true \/ be_sharable b = true ->
    attach_result su c nDb zKey nKey SQLITE_OK c
(* out of memory: no codec, and the database cannot be written *)
| ar_failed rc b' :
    rc <> SQLITE_OK -> be_pCodec b' = None ->
    bt_read_only (be_bt b') = true \/ be_pager_error b' = Some rc ->
    attach_result su c nDb zKey nKey rc (put_bt nDb b' c)
(* a new codec with the key in both of its slots *)
| ar_attached b' p ctx :
    be_pCodec b' = Some (p, ctx) -> be_xCodec b' = negb (be_memDb b') ->
    codec_wf ctx -> pending_pass zKey nKey ctx ->
    list.last (be_pagesize b') = Some (page_sz ctx, reserve_sz ctx) ->
    be_secure_delete b' = true -> be_pagesize_fixed b' = false ->
    attach_result su c nDb zKey nKey SQLITE_OK (set_nextPagesize (page_sz ctx) (put_bt nDb b' c)).

Context (Hdef : FLAG_GET (default_flags G) CIPHER_FLAG_KEY_USED = false).

(** Creating and installing a codec on a database that has none. *)
Lemma attach_new_spec (b : btent) zKey nKey h L :
  be_pCodec b = None -> (forall z, zKey = Some z -> nKey <= len z) -> owns h [] L ->
  exists rc b' sz h', attach_new G b zKey nKey h = Some (rc, b', sz, h') /\
    owns h' (bt_allocs (Some b')) L /\
    (forall p ctx, be_pCodec b' = Some (p, ctx) -> codec_wf ctx) /\
    ((rc <> SQLITE_OK /\ sz = None /\ be_pCodec b' = None /\
        (bt_read_only (be_bt b') = true \/ be_pager_error b' = Some rc)) \/
     (rc = SQLITE_OK /\ exists p ctx, sz = Some (page_sz ctx) /\ be_pCodec b' = Some (p, ctx) /\
        be_xCodec b' = negb (be_memDb b') /\ codec_wf ctx /\ pending_pass zKey nKey ctx /\
        list.last (be_pagesize b') = Some (page_sz ctx, reserve_sz ctx) /\
        be_secure_delete b' = true /\ be_pagesize_fixed b' = false)).
Proof.
  intros Hn Hz Ho. unfold attach_new.
  destruct (codec_ctx_init_created G (be_bt b) zKey nKey h L Hdef Hz Ho) as (rc & r & h' & -> & Hc).
  destruct r as [[p ctx]|]; simpl in Hc.
  - destruct Hc as (-> & W & Ho' & Hp). change (SQLITE_OK <>? SQLITE_OK) with false. cbn iota.
    do 4 eexists. split; [done|]. unfold bt_allocs. cbn [be_pCodec attach_geometry sqlcipherPagerSetCodec
      set_pCodec set_geometry be_xCodec be_memDb be_pagesize be_secure_delete be_pagesize_fixed].
    split; [done|]. split; [by intros ? ? [= <- <-]|]. right. split; [done|].
    exists p, ctx. split_and!; try done. apply last_snoc.
  - destruct Hc as [Hrc Ho']. rewrite (proj2 (Z.eqb_neq _ _) Hrc). cbn [negb].
    do 4 eexists. split; [done|]. unfold bt_allocs, attach_failed.
    destruct (bt_inTransaction (be_bt b) <>? TRANS_WRITE);
      cbn [be_pCodec set_be_bt set_pager_error sqlite3pager_error be_bt bt_read_only be_pager_error];
      rewrite Hn; (split; [done|]); (split; [done|]); left; split_and!; eauto.
Qed.

Lemma mutex_balanced (c : conn) : set_mutex (db_mutex c + 1 - 1) c = c.
Proof. destruct c. unfold set_mutex. simpl. f_equal. lia. Qed.

Lemma replace_codec_spec su (c : conn) nDb d b b0 zKey nKey h L :
  conn_wf c -> aDb c !! Z.to_nat nDb = Some d -> db_pBt d = Some b -> be_pCodec b0 = None ->
  (forall z, zKey = Some z -> nKey <= len z) ->
  (exists L2, owns h [] (L2 ++ L) /\ forall h' l, owns h' l (L2 ++ L) ->
     forall rest, conn_allocs c ≡ₚ bt_allocs (Some b) ++ rest -> owns h' (l ++ rest) L) ->
  exists rc b' sz h', attach_new G b0 zKey nKey h = Some (rc, b', sz, h') /\
    let c' := put_bt nDb b' (from_option set_nextPagesize id sz (set_mutex (db_mutex c + 1) c)) in
    let c' := set_mutex (db_mutex c' - 1) c' in
    conn_wf c' /\ owns h' (conn_allocs c') L /\ db_mutex c' = db_mutex c /\
    attach_result su c nDb zKey nKey rc c'.
Proof.
  intros W Ed Eb Hn Hz (L2 & Ho & Hback).
  destruct (attach_new_spec b0 zKey nKey h (L2 ++ L) Hn Hz Ho)
    as (rc & b' & sz & h' & E & Ho' & Hw & Hc).
  exists rc, b', sz, h'. split; [done|].
  destruct (conn_allocs_split c nDb d b Ed Eb) as (rest & Hp & Hp').
  cbn zeta.
  set (c1 := put_bt nDb b' (from_option _ _ _ _)). set (c' := set_mutex (db_mutex c1 - 1) c1).
  assert (Ea : aDb c' = aDb (put_bt nDb b' c)) by (unfold c', c1; by destruct sz).
  assert (Em : db_mutex c' = db_mutex c) by (unfold c', c1; destruct sz; simpl; lia).
  assert (Ec : c' = Sqlite3 (aDb (put_bt nDb b' c)) (db_mutex c) (db_nextPagesize c')).
  { clearbody c'. destruct c'. simpl in *. by subst. }
  split_and!.
  - rewrite Ec. apply conn_wf_put; [done|exact Hw].
  - rewrite Ec, Hp'. by apply Hback.
  - exact Em.
  - destruct Hc as [(Hrc & -> & Hnone & He)|(-> & p & ctx & -> & Hrest)].
    + rewrite Ec. exact (ar_failed su c nDb zKey nKey rc b' Hrc Hnone He).
    + rewrite Ec. destruct Hrest as (H1 & H2 & H3 & H4 & H5 & H6 & H7).
      exact (ar_attached su c nDb zKey nKey b' p ctx H1 H2 H3 H4 H5 H6 H7).
Qed.

End KeyProofs.

Section RekeyProofs.
Context {A : Type} `{AllocatorOk A} {P : provider} `{!ProviderOk P} (G : globals).
Context (mask_nonempty : sqlcipher_shield_mask G <> []) (addr : Z).
Abbreviation ctx_t := (codec_ctx P).
Abbreviation conn := (sqlite3 (P:=P)).

(** ** The codec during a transaction *)

(** The read slot is derived and its keys are those of [K]. *)
Definition reads_with (K : cipher_ctx) (ctx : ctx_t) : Prop :=
  exists pr r, read_ctx ctx = Some (pr, r) /\ derive_key r = 0 /\ same_keys G K r.

(** A derivation leaves the keys of a derived read slot alone. *)
Lemma key_derive_reads rng (ctx : ctx_t) p h L K :
  codec_wf ctx -> header_read_ok (pBt ctx) -> passes_full ctx ->
  owns h (codec_allocs p ctx) L -> reads_with K ctx ->
  exists rc ctx' rng' h', sqlcipher_codec_key_derive G addr rng ctx h = Some (rc, ctx', rng', h') /\
    codec_wf ctx' /\ owns h' (codec_allocs p ctx') L /\ kd_frame ctx ctx' /\ reads_with K ctx' /\
    (rc = SQLITE_OK \/ rc = SQLITE_ERROR) /\ (rc = SQLITE_OK -> keyed ctx').
Proof.
  intros W Hh Hp Ho (pr & r & Er & Dr & Kr). unfold sqlcipher_codec_key_derive.
  rewrite Er, Dr. change (0 =? 0) with true. change (SQLITE_OK <>? SQLITE_OK) with false. cbn iota.
  assert (Hrd : read_derived ctx) by (by exists pr, r).
  destruct (derive_write_spec G mask_nonempty addr rng ctx p h L W Hh Hp Hrd Ho)
    as (rc & ctx2 & rng2 & h2 & -> & W2 & Ho2 & F2 & Er2 & Hrc & Hok). rewrite Er in Er2.
  destruct (Z.eqb_spec rc SQLITE_OK) as [->|Hne]; cbn [negb].
  2:{ do 4 eexists. split; [done|]. split_and!; try done; [by exists pr, r|by right]. }
  destruct (Hok eq_refl) as (Hwd & Hp2 & _).
  assert (Hk2 : keyed ctx2) by (by split; [exists pr, r|]).
  destruct (finish_spec ctx2 rng2 p h2 L W2 Hk2 Hp2 Ho2)
    as (ctx3 & h3 & E3 & W3 & Ho3 & F3 & Hk3 & _). rewrite E3.
  do 4 eexists. split; [done|].
  split_and!; [done|done|by eapply kd_frame_trans| |by left|done].
  destruct (store_pass ctx2 <>? 1).
  - destruct (drop_passes_spec ctx2 p h2 L W2 Ho2) as (r1 & w1 & pr1 & pw1 & h' & Er1 & Ew1 & Ed & _).
    rewrite Ed in E3. injection E3 as <- <-. rewrite Er2 in Er1. injection Er1 as <- <-.
    exists pr. eexists. by split_and!.
  - injection E3 as <- <-. by exists pr, r.
Qed.

(** The state of the codec between two calls of the pager. *)
Record rekey_inv (p : Z) (L : list (Z * Z)) (K : cipher_ctx) (N : Z) (s : rekey_state (P:=P)) : Prop := {
  ri_wf : codec_wf (rk_ctx s);
  ri_header : header_read_ok (pBt (rk_ctx s));
  ri_owns : owns (rk_heap s) (codec_allocs p (rk_ctx s)) L;
  ri_page : page_sz (rk_ctx s) = N;
  ri_read : reads_with K (rk_ctx s);
  ri_ready : error (rk_ctx s) = SQLITE_OK -> passes_full (rk_ctx s) \/ keyed (rk_ctx s)
}.

(** The derivation at the start of a call, in either kind of state. *)
Lemma ready_derive p L K N (s : rekey_state) :
  rekey_inv p L K N s -> error (rk_ctx s) = SQLITE_OK ->
  exists rc ctx' rng' h',
    sqlcipher_codec_key_derive G addr (rk_rng s) (rk_ctx s) (rk_heap s) = Some (rc, ctx', rng', h') /\
    codec_wf ctx' /\ owns h' (codec_allocs p ctx') L /\ bt_header (pBt ctx') = bt_header (pBt (rk_ctx s)) /\
    page_sz ctx' = N /\ reads_with K ctx' /\ (rc = SQLITE_OK -> keyed ctx').
Proof.
  intros [W Hh Ho Hn Hr Hrd] He. destruct (Hrd He) as [Hp|Hk].
  - destruct (key_derive_reads (rk_rng s) _ p _ L K W Hh Hp Ho Hr)
      as (rc & ctx' & rng' & h' & E & W' & Ho' & F & Hr' & _ & Hk).
    do 4 eexists. split; [done|]. split_and!; try done; [by rewrite (kf_bt _ _ F)|by rewrite (kf_page _ _ F)].
  - destruct (key_derive_keyed G addr (rk_rng s) _ p _ L W Hk Ho)
      as (pr & r & r' & pw & w & w' & h' & Er & Ew & E & W' & Ho' & Sr & Sw & Dr & Dw).
    do 4 eexists. split; [done|]. split_and!; try done.
    + destruct Hr as (? & ? & Er' & _ & Kr). rewrite Er in Er'. injection Er' as <- <-.
      exists pr, r'. split_and!; try done. by eapply same_keys_trans.
    + intros _. split; by do 2 eexists.
Qed.

Lemma reads_with_io K (ctx ctx' : ctx_t) : io_step ctx ctx' -> reads_with K ctx -> reads_with K ctx'.
Proof. intros S (pr & r & Er & H1). exists pr, r. by rewrite (io_read _ _ S). Qed.

Lemma keyed_io (ctx ctx' : ctx_t) : io_step ctx ctx' -> keyed ctx -> keyed ctx'.
Proof.
  intros S [(q1 & c1 & E1 & D1) (q2 & c2 & E2 & D2)].
  split; [exists q1, c1; by rewrite (io_read _ _ S)|exists q2, c2; by rewrite (io_write _ _ S)].
Qed.

Lemma header_read_bt (ctx ctx' : ctx_t) : bt_header (pBt ctx') = bt_header (pBt ctx) ->
  header_read_ok (pBt ctx) -> header_read_ok (pBt ctx').
Proof. unfold header_read_ok. by intros ->. Qed.

(** The steps of a call after the derivation keep the invariant. *)
Lemma rekey_inv_io p L K N (ctx ctx' : ctx_t) (h : A) rng refs :
  codec_wf ctx -> owns h (codec_allocs p ctx) L -> header_read_ok (pBt ctx) ->
  page_sz ctx = N -> reads_with K ctx -> io_step ctx ctx' ->
  (error ctx' = SQLITE_OK -> keyed ctx) -> rekey_inv p L K N (RekeyState ctx' rng h refs).
Proof.
  intros W Ho Hh Hn Hr S Hk. constructor; cbn [rk_ctx rk_heap].
  - by apply S.
  - eapply header_read_bt; [apply S|done].
  - by rewrite (io_allocs _ _ S).
  - by rewrite (io_page _ _ S).
  - by eapply reads_with_io.
  - intros He. right. eapply keyed_io; [done|]. by apply Hk.
Qed.

Lemma codec_call_inv p L K N (s : rekey_state) data pgno mode :
  rekey_inv p L K N s -> N <= len data ->
  exists r, sqlite3Codec G addr (rk_rng s) (rk_ctx s) (rk_heap s) data pgno mode = Some r /\
    rekey_inv p L K N (RekeyState (cr_ctx r) (cr_rng r) (cr_heap r) (rk_refs s)).
Proof.
  intros I Hl. pose proof I as [W Hh Ho Hn Hr Hrd]. unfold sqlite3Codec.
  destruct (bw_page _ (cw_base _ W)) as [Hpg _].
  destruct (Z.eqb_spec (error (rk_ctx s)) SQLITE_OK) as [He|He]; cbn [negb].
  2:{ assert (HE : forall d out, exists r, Some (CodecRes out d
        (sqlcipher_codec_ctx_set_error (rk_ctx s) (error (rk_ctx s))) (rk_rng s) (rk_heap s)) = Some r /\
        rekey_inv p L K N (RekeyState (cr_ctx r) (cr_rng r) (cr_heap r) (rk_refs s))).
      { intros d out. eexists. split; [done|]. eapply (rekey_inv_io p L K N (rk_ctx s)); try done.
        apply io_set_error. }
      case_cond; [|apply HE].
      pose proof (sqlcipher_memset_spec data 0 (Z.to_nat (page_sz (rk_ctx s))) ltac:(lia)) as E.
      rewrite Z2Nat.id in E by lia.
      change (page_sz (sqlcipher_codec_ctx_set_error (rk_ctx s) (error (rk_ctx s))))
        with (page_sz (rk_ctx s)).
      rewrite E. apply HE. }
  destruct (ready_derive p L K N s I He) as (rc & ctx1 & rng1 & h1 & -> & W1 & Ho1 & Hb1 & Hn1 & Hr1 & Hk1).
  assert (Hh1 : header_read_ok (pBt ctx1)) by (by eapply header_read_bt).
  assert (HE : forall e d out, e <> SQLITE_OK -> exists r, Some (CodecRes out d
    (sqlcipher_codec_ctx_set_error ctx1 e) rng1 h1) = Some r /\
    rekey_inv p L K N (RekeyState (cr_ctx r) (cr_rng r) (cr_heap r) (rk_refs s))).
  { intros e d out Hne. eexists. split; [done|]. eapply (rekey_inv_io p L K N ctx1); try done.
    apply io_set_error. }
  destruct (Z.eqb_spec rc SQLITE_OK) as [->|Hrc]; cbn [negb]; [|by apply HE]. specialize (Hk1 eq_refl).
  destruct (Z.ltb_spec (plaintext_header_sz ctx1) 0) as [Hneg|Hpos]; [by apply HE|].
  fold (page_offset ctx1 pgno).
  assert (HI : forall r, io_step ctx1 (cr_ctx r) -> cr_heap r = h1 ->
    rekey_inv p L K N (RekeyState (cr_ctx r) (cr_rng r) (cr_heap r) (rk_refs s))).
  { intros r S ->. by eapply (rekey_inv_io p L K N ctx1). }
  assert (Hw : forall cctx, exists r,
    codec_write G ctx1 rng1 h1 data pgno cctx (page_offset ctx1 pgno) = Some r /\
    rekey_inv p L K N (RekeyState (cr_ctx r) (cr_rng r) (cr_heap r) (rk_refs s))).
  { intros cctx. destruct (codec_write_ok G mask_nonempty ctx1 rng1 h1 data pgno cctx)
      as (r & E & S & Eh & _); [done|done|done|lia|]. exists r. split; [done|]. by apply HI. }
  repeat case_cond; [|apply Hw|apply Hw|by apply HE].
  destruct (codec_read_ok G mask_nonempty ctx1 rng1 h1 data pgno) as (r & E & S & Eh & _); [done|done|lia|].
  exists r. split; [done|]. by apply HI.
Qed.

Abbreviation enough N l := (Forall (fun c => N <= len (cl_data c)) l).

Lemma codec_calls_inv p L K N l (s : rekey_state) :
  enough N l -> rekey_inv p L K N s ->
  exists s', codec_calls G addr l s = Some s' /\ rekey_inv p L K N s' /\ rk_refs s' = rk_refs s.
Proof.
  revert s. induction l as [|c l IH]; intros s Hl I; unfold codec_calls; simpl; [by exists s|].
  apply list.Forall_cons in Hl as [Hc Hl].
  destruct (codec_call_inv p L K N s (cl_data c) (cl_pgno c) (cl_mode c) I Hc) as (r & -> & I').
  destruct (IH _ Hl I') as (s' & E & I2 & R2). exists s'. split; [exact E|]. by split.
Qed.

(** Every call the pager makes passes a whole page. *)
Record pager_calls_ok (e : pager_env) (N : Z) : Prop := {
  pc_begin : enough N (pg_begin e).2;
  pc_get n : enough N (pg_get e n).2;
  pc_write n : enough N (pg_write e n).2;
  pc_commit : enough N (pg_commit e);
  pc_rollback : enough N (pg_rollback e)
}.

Lemma add_refs_inv p L K N n (s : rekey_state) : rekey_inv p L K N s -> rekey_inv p L K N (add_refs n s).
Proof. by intros []. Qed.

Lemma rekey_page_inv e p L K N pgno (s : rekey_state) :
  pager_calls_ok e N -> rekey_inv p L K N s ->
  exists rc s', rekey_page G addr e pgno s = Some (rc, s') /\ rekey_inv p L K N s' /\
    rk_refs s <= rk_refs s' <= rk_refs s + 1 /\ (rc = SQLITE_OK -> rk_refs s' = rk_refs s).
Proof.
  intros Hc I. unfold rekey_page.
  pose proof (pc_get _ _ Hc pgno) as Hg. destruct (pg_get e pgno) as [rc l].
  destruct (codec_calls_inv p L K N l s Hg I) as (s1 & -> & I1 & R1).
  destruct (Z.eqb_spec rc SQLITE_OK) as [->|Hrc].
  2:{ do 2 eexists. split; [done|]. split_and!; [done|lia|lia|done]. }
  pose proof (pc_write _ _ Hc pgno) as Hw. destruct (pg_write e pgno) as [rc l2].
  destruct (codec_calls_inv p L K N l2 (add_refs 1 s1) Hw (add_refs_inv _ _ _ _ _ _ I1)) as (s2 & -> & I2 & R2).
  simpl in R2. destruct (Z.eqb_spec rc SQLITE_OK) as [->|Hrc].
  - do 2 eexists. split; [done|]. simpl. split_and!; [by apply add_refs_inv|lia|lia|lia].
  - do 2 eexists. split; [done|]. split_and!; [done|lia|lia|done].
Qed.

Lemma rekey_loop_inv e p L K N n rc pgno (s : rekey_state) :
  pager_calls_ok e N -> rekey_inv p L K N s -> 0 <= rk_refs s <= 1 -> (rc = SQLITE_OK -> rk_refs s = 0) ->
  exists rc' s', rekey_loop G addr n e rc pgno s = Some (rc', s') /\ rekey_inv p L K N s' /\
    0 <= rk_refs s' <= 1 /\ (rc' = SQLITE_OK -> rk_refs s' = 0).
Proof.
  intros Hc. revert rc pgno s. induction n as [|n IH]; intros rc pgno s I R R0; cbn [rekey_loop].
  { by exists rc, s. }
  destruct (Z.eqb_spec rc SQLITE_OK) as [->|Hrc]; [|by exists rc, s].
  destruct (pgno <>? pg_sj e); [|by apply IH].
  destruct (rekey_page_inv e p L K N pgno s Hc I) as (rc1 & s1 & -> & I1 & R1 & R2).
  specialize (R0 eq_refl). apply IH; [done|lia|]. intros Hx. rewrite (R2 Hx). lia.
Qed.

(** The slots agree after the key copy. *)
Definition slots_agree (ctx : ctx_t) : Prop :=
  exists pr r pw w, read_ctx ctx = Some (pr, r) /\ write_ctx ctx = Some (pw, w) /\
    same_keys G w r /\ derive_key r = derive_key w /\ pass_sz r = pass_sz w.

Lemma key_copy_agrees p L (ctx : ctx_t) h :
  codec_wf ctx -> owns h (codec_allocs p ctx) L ->
  exists rc ctx' h', sqlcipher_codec_key_copy ctx CIPHER_WRITE_CTX h = Some (rc, ctx', h') /\
    codec_wf ctx' /\ owns h' (codec_allocs p ctx') L /\ slots_agree ctx'.
Proof.
  intros W Ho. destruct (cw_read _ W) as (pr & r & Er & Wr & Pr).
  destruct (cw_write _ W) as (pw & w & Ew & Ww & Pw).
  unfold sqlcipher_codec_key_copy. rewrite Er, Ew. cbn [Z.eqb CIPHER_WRITE_CTX CIPHER_READ_CTX].
  destruct (owns_read_swap p ctx pr r h L Er Ho) as (l & Hl & Hback).
  destruct (cipher_ctx_copy_spec ctx r w h l L Wr Ww Pw Hl)
    as (rc & r' & h' & -> & Ho' & Sb & Wr' & Pr' & Ek & Eh & Ed & Ez & _ & _).
  do 3 eexists. split; [done|]. split_and!.
  - by apply set_read_wf.
  - by apply Hback.
  - exists pr, r', pw, w. split_and!; try done.
    unfold same_keys, enc_key, mac_key.
    destruct (key r'), (key w), (hmac_key r'), (hmac_key w); simplify_eq/=; split; congruence.
Qed.

(** The outcome of the transaction. *)
Record rekey_outcome (p : Z) (L : list (Z * Z)) (K : cipher_ctx) (rc : Z) (s : rekey_state (P:=P)) : Prop := {
  ro_wf : codec_wf (rk_ctx s);
  ro_owns : owns (rk_heap s) (codec_allocs p (rk_ctx s)) L;
  ro_refs : 0 <= rk_refs s <= 1;
  ro_done : rc = SQLITE_OK -> slots_agree (rk_ctx s) /\ rk_refs s = 0;
  ro_kept : rc <> SQLITE_OK -> reads_with K (rk_ctx s)
}.

Lemma rekey_transaction_spec e p L K N (s : rekey_state) :
  pager_calls_ok e N -> rekey_inv p L K N s -> rk_refs s = 0 ->
  exists rc s', rekey_transaction G addr e s = Some (rc, s') /\ rekey_outcome p L K rc s'.
Proof.
  intros Hc I R. unfold rekey_transaction.
  assert (Hout : forall rc (t : rekey_state), rc <> SQLITE_OK -> rekey_inv p L K N t -> 0 <= rk_refs t <= 1 ->
    rekey_outcome p L K rc t).
  { intros rc t Hrc It Rt. destruct It as [W _ Ho _ Hr _]. by constructor. }
  pose proof (pc_begin _ _ Hc) as Hb. destruct (pg_begin e) as [rc l].
  destruct (codec_calls_inv p L K N l s Hb I) as (s1 & -> & I1 & R1).
  destruct (Z.eqb_spec rc SQLITE_OK) as [->|Hrc]; cbn [negb].
  2:{ do 2 eexists. split; [done|]. apply Hout; [done|done|lia]. }
  destruct (rekey_loop_inv e p L K N (Z.to_nat (pg_count e)) SQLITE_OK 1 s1 Hc I1)
    as (rc & s2 & -> & I2 & R2 & R3); [lia|lia|].
  destruct (Z.eqb_spec rc SQLITE_OK) as [->|Hrc].
  - destruct (codec_calls_inv p L K N (pg_commit e) s2 (pc_commit _ _ Hc) I2) as (s3 & -> & I3 & R4).
    destruct (key_copy_agrees p L (rk_ctx s3) (rk_heap s3)) as (rc & ctx' & h' & -> & W & Ho & Hs);
      [apply I3|apply I3|].
    do 2 eexists. split; [done|]. specialize (R3 eq_refl). constructor; simpl; try done; [lia|]. intros _. split; [done|lia].
  - destruct (codec_calls_inv p L K N (pg_rollback e) s2 (pc_rollback _ _ Hc) I2) as (s3 & -> & I3 & R4).
    do 2 eexists. split; [done|]. apply Hout; [done|done|lia].
Qed.

(** ** The new passphrase *)

Lemma set_pass_write_spec p (ctx : ctx_t) pw w z nKey h L :
  write_ctx ctx = Some (pw, w) -> cipher_wf (key_sz ctx) w ->
  owns h (codec_allocs p ctx) L -> 0 < nKey <= len z ->
  exists rc w' h', sqlcipher_codec_ctx_set_pass ctx (Some z) nKey CIPHER_WRITE_CTX h =
      Some (rc, set_write_ctx (Some (pw, w')) ctx, h') /\
    owns h' (codec_allocs p (set_write_ctx (Some (pw, w')) ctx)) L /\
    cipher_wf (key_sz ctx) w' /\ pass_wf w' /\
    (rc = SQLITE_OK -> derive_key w' = 1 /\ holds_pass (Some z) nKey w') /\
    (rc <> SQLITE_OK -> derive_key w' = derive_key w).
Proof.
  intros Ew Ww Ho Hn. unfold sqlcipher_codec_ctx_set_pass. cbn [Z.eqb CIPHER_WRITE_CTX]. rewrite Ew.
  destruct (owns_write_swap p ctx pw w h L Ew Ho) as (l & Hl & Hback).
  destruct (cipher_ctx_set_pass_spec w (Some z) nKey h l L Hl)
    as (rc & w1 & h1 & -> & Ho1 & Ek & Eh & Ed & Hp & _ & Hok); [intros ? [= <-]; lia|].
  assert (W1 : cipher_wf (key_sz ctx) w1)
    by (apply cipher_wf_bufs; rewrite Ek, Eh; by apply cipher_wf_bufs).
  assert (B1 : same_bufs w1 w) by (unfold same_bufs; by rewrite Ek, Eh).
  destruct (Z.eqb_spec rc SQLITE_OK) as [->|Hne]; cbn [negb].
  - exists SQLITE_OK, (set_derive1 w1), h1. split_and!; try done; [by apply Hback|].
    intros _. split; [done|]. intros y [= <-] _. specialize (Hok eq_refl). simpl in Hok.
    by rewrite (proj2 (Z.ltb_lt 0 nKey) ltac:(lia)) in Hok.
  - exists rc, w1, h1. split_and!; try done. by apply Hback.
Qed.

Lemma rekey_start p L (ctx : ctx_t) z nKey h rng pr r :
  codec_wf ctx -> header_read_ok (pBt ctx) -> passes_full ctx -> keyed ctx ->
  owns h (codec_allocs p ctx) L -> 0 < nKey <= len z -> read_ctx ctx = Some (pr, r) ->
  exists rc ctx' h', sqlcipher_codec_ctx_set_pass ctx (Some z) nKey CIPHER_WRITE_CTX h = Some (rc, ctx', h') /\
    rekey_inv p L r (page_sz ctx) (RekeyState ctx' rng h' 0).
Proof.
  intros W Hh [Hf1 Hf2] Hk Ho Hn Er. pose proof Hk as [(q1 & c1 & E1 & D1) (pw & w & Ew & Dw)].
  rewrite Er in E1. injection E1 as <- <-.
  destruct (cw_write _ W) as (? & ? & Ew' & Ww & _). rewrite Ew in Ew'. injection Ew' as <- <-.
  destruct (set_pass_write_spec p ctx pw w z nKey h L Ew Ww Ho Hn)
    as (rc & w' & h' & -> & Ho' & Ww' & Pw' & Hok & Hno).
  do 3 eexists. split; [done|]. constructor; cbn [rk_ctx rk_heap].
  - by apply set_write_wf.
  - done.
  - done.
  - done.
  - by exists pr, r.
  - intros _. destruct (decide (rc = SQLITE_OK)) as [Hrc|Hrc].
    + left. destruct (Hok Hrc) as [_ Hpass]. split; [done|]. intros q c [= <- <-]. split; [done|].
      intros Hnone. destruct (Hpass z eq_refl ltac:(lia)) as [Hx _]. by rewrite Hnone in Hx.
    + right. split; [by exists pr, r|]. exists pw, w'. split; [done|]. by rewrite (Hno Hrc).
Qed.

(** ** The call *)

End RekeyProofs.

(** Without a key the call leaves a mutex it has not entered. *)
Lemma rekey_mutex_unbalanced {A : Type} `{Allocator A} {P : provider} G su addr e
  (c : sqlite3 (P:=P)) zDb nKey rng (h : A) : su_init su = true ->
  sqlite3_rekey_v2 G su addr e (Some c) zDb None nKey rng h =
    Some (SQLITE_MISUSE, Some (set_mutex (db_mutex c - 1) c), rng, h, 0).
Proof. intros E. unfold sqlite3_rekey_v2. by rewrite E. Qed.

(** ** Witnesses *)

(** A connection with a main database that has a codec and a temp database without. *)
Definition demo_bt (codec : option (Z * codec_ctx demo_provider)) : bt_entry :=
  BtEntry demo_btree false codec true false true None true [] false false.
Definition demo_conn : sqlite3 :=
  Sqlite3 [DbEntry [109; 97; 105; 110; 0] (Some (demo_bt (Some (5, demo_ctx))));
           DbEntry [116; 101; 109; 112; 0] (Some (demo_bt None))] 0 4096.
Definition demo_startup : startup := Startup true SQLITE_OK.

Lemma demo_conn_wf : conn_wf demo_conn.
Proof.
  apply List.Forall_cons; [|apply List.Forall_cons; [|apply List.Forall_nil]].
  - intros b p ctx [= <-] [= <- <-]. exact demo_wf.
  - by intros b p ctx [= <-].
Qed.


(** A pager with three pages that reads each through the codec and writes all at commit. *)
Definition demo_pager : pager_env :=
  PagerEnv (SQLITE_OK, []) 3 99 (fun n => (SQLITE_OK, [Call demo_pg n CODEC_READ_OP]))
    (fun _ => (SQLITE_OK, [])) [Call demo_pg 2 CODEC_WRITE_OP] [].

